(* ===== verification/_CoqProject ===== *)
-Q . S2P
Prelude.v
RustStr.v
Crc32.v
Types.v
Yenc.v
Failover.v
Volumes.v
EventHub.v
Nntp.v
Nzb.v
JobNames.v
Queue.v
Selection.v
ParSelect.v
Fs.v
Codec.v
Store.v
Owner.v
OwnerInv.v
Leases.v
Completion.v
Recovery.v
Crash.v
Control.v
Fencing.v
Par2.v
Tree.v
Rename.v
Deobfuscate.v
Range.v
Election.v
Office.v
Float.v
Torrents.v
History.v
Desk.v
Commands.v
Accounts.v
Dispatch.v
DeskInv.v
Restart.v
Carry.v
Progress.v
Operator.v
HistoryDb.v
HistorySync.v
HistoryInv.v
HistoryReplay.v
HistoryCursor.v
HistoryTrim.v
PostOps.v
Tools.v
Pipeline.v
PostInv.v
PostSafety.v
Manager.v
ManagerInv.v
FailedJob.v
FailedInv.v
FailedProps.v
PayloadFs.v
Custody.v
Inventory.v
Deletion.v
Handoff.v
Upkeep.v
PayloadLogic.v
Authority.v
Calm.v
DeletionRun.v
DeletionResume.v
Guarded.v
DeletionProps.v
Keeping.v
InventoryFindings.v
