(* ===== verification/Prelude.v ===== *)
(** * nzbd: a verification library for the Usenet download daemon

    nzbd downloads articles named by NZB files from news servers, decodes and
    assembles them, repairs and unpacks the result, and survives crashes and the
    loss of cluster nodes.  This library models the parts of the Rust workspace
    under [crates/] that decide things, and proves what makes them correct.  This
    first file is the prelude: Rust's [Result] and panics, machine-integer widths,
    the sorting and list lemmas and the automation that the other files share.

    ** How the program fits together, and which file models what

    - An NZB is parsed ([nzbd-nzb]; [Nzb]), named ([queue.rs]; [JobNames]) and
      admitted to the queue ([queue.rs]; [Queue], over the data of [nzbd-types],
      [Types]).
    - The owner task ([owner.rs]; [Owner]) is the queue's single writer.  A
      connection asks it for work; [grant_work] walks the active set
      ([Selection]) and asks the failover ladder ([failover.rs]; [Failover])
      whether this server may be offered each pending segment.
    - A connection speaks NNTP ([nzbd-nntp]; [Nntp]) and decodes the article
      ([nzbd-yenc]; [Yenc]).  The writer reports the segment; the owner enters it
      in the queue and in the job's journal, and merges the part CRCs ([Crc32])
      when the file is complete.  It credits the traffic book ([volumes.rs];
      [Volumes]), picks recovery volumes ([ParSelect]), and publishes events that
      clients resume ([nzbd-api]; [EventHub]).
    - The journals and the snapshot ([nzbd-state]; [Store]) go through the file
      system ([fsx.rs]; [Fs]); [Codec] holds the interfaces to [serde_json].
    - The owner's loop, every message and the tick, is put together in [Dispatch].
      [OwnerInv], [Leases], [Completion], [Recovery], [Crash], [DeskInv], [Restart],
      [Carry] and [Progress] hold no new operation: they are the theorems on it.
    - The same owner takes the operator's commands and the exchange of jobs with
      other nodes ([on_command]; [Commands]) and runs the torrent lane on its tick
      ([Desk]): commands to the torrent engine behind the durable queue, the start
      and yield decisions, seed policies, and the folding of samples and facts by
      [torrent_runtime.rs] ([Torrents], over the [f64] of [Float]).
    - A finished download goes to the post-processor ([nzbd-post]): its manager
      ([manager.rs]; [Manager]) starts attempts, and an attempt runs the stages
      ([Pipeline]) with the external tools ([tools.rs], [script.rs]; [Tools]), as a
      program over what it calls ([PostOps]); jobs that failed are parked or deleted
      ([FailedJob]).  The PAR2 reader and the quick verification ([nzbd-par2],
      [par2.rs]; [Par2]) and the renaming passes ([rename.rs]; [Rename],
      [deobfuscate.rs]; [Deobfuscate]) work on a tree of files ([Tree]).
    - What a job leaves behind ([History]) goes to the history store ([history.rs];
      [HistoryDb]): an index, and a log that the nodes of a cluster share and
      reconcile ([history/sync.rs], [incremental.rs]; [HistorySync]).
    - The payload inventory ([nzbd-state/src/artifacts]) decides which directories may
      be deleted: the file system it sees ([PayloadFs]), its records ([Custody]), and
      its operations ([Inventory], [Deletion], [Handoff], [Upkeep]).
    - In a cluster, leases and results go through the replicated control store
      ([control.rs]; [Control]), articles are split in ranges and assembled
      ([range.rs]; [Range]), and the leader is elected on the lease file
      ([election.rs]; [Election]) or on the store ([Office]).
    - Files of theorems only: [Fencing] (the control store), [Accounts] and
      [Operator] (commands), [HistoryInv], [HistoryReplay], [HistoryCursor] and
      [HistoryTrim] (the history), [PostInv], [PostSafety], [ManagerInv], [FailedInv]
      and [FailedProps] (after the download), [PayloadLogic], [Authority], [Calm],
      [DeletionRun], [DeletionResume], [Guarded], [DeletionProps], [Keeping] and
      [InventoryFindings] (the inventory).

    [RustStr] is the part of [core::str] the code uses.

    ** What the theorems show

    - Decoding: [Yenc.yenc_roundtrip], [Yenc.decode_chunk_independent],
      [Nntp.multiline_roundtrip], [Nntp.encode_single_line],
      [Nzb.parse_well_formed], and [Crc32.crc32_combine_correct] (GF(2) matrices
      against the bit-serial definition).
    - Scheduling: the ladder terminates and never offers a failed server again
      ([Failover]); a lease is of a pending segment of an active, schedulable job
      at the level whose turn it is, and an empty answer means that there is no such
      segment ([Selection.lease_sound]).
    - The owner, for every message, command and tick and every I/O failure: what is
      done is what a plain ledger of the reports holds, until a command or the end of
      a torrent withdraws it ([Progress.owner_refines_ledger]); leases are exclusive
      ([Leases.leases_exclusive]), totals are exact ([Leases.totals_exact]), a job
      finishes once ([Completion.job_finished_once]).
    - Crashes: the snapshot is replaced atomically ([Store.save_atomic]), a torn
      journal replays to a prefix ([Store.journal_torn_replay]), and together
      ([Restart.crash_recovery]) what was done at the last tick survives a crash at
      any file-system call, on a file system that commits a synced file's entry
      ([Restart.unsynced_entry_lost] shows what happens on another).
    - Streams: a client that resumes misses a frame only where it is told so
      ([EventHub.resume_no_loss]).
    - Accounting and naming: [Volumes], [Types], [ParSelect], [JobNames], [Queue].
    - The operator: whatever commands and ticks run, the queue stays accounted for
      ([Accounts.commands_accounted]); an accepted control is on disk before it is
      answered, a torrent leaves the queue only behind its history entry
      ([Operator]); torrents are deleted only below a root, become ready only on
      proof and are charged once ([Torrents]).
    - The cluster: fencing, no lost update and convergence ([Fencing]), epochs
      and takeover ([Election], [Office]), sound assembly ([Range]).
    - After the download: renaming loses nothing ([Rename], [Deobfuscate]),
      verification is exact ([Par2]), nothing is published without the lease
      ([PostSafety]), one attempt per job ([ManagerInv]), failed jobs are keyed
      first and recorded once ([FailedProps]).
    - The history: reconciliation is the replay of the logs ([HistoryReplay]), cursors
      and tombstones ([HistoryCursor]), retention and compaction ([HistoryTrim]).
    - The inventory: every removal is authorized ([Authority]), an interrupted
      deletion is completed ([DeletionProps]), Keep and the ownership of strangers
      are respected ([Keeping]).
    - Defects: the theorems and computed runs that exhibit them are named in the
      manifest's findings ([Store.failed_append_loses_later],
      [Leases.grant_after_abort], [Par2.scan_length_panics],
      [Rename.par_rename_escapes], [HistoryTrim.torn_delete_resurrects],
      [Election.torn_read_restarts_epochs], [InventoryFindings], ...).

    ** Conventions, bounds and fuel

    A machine integer is a [Z] with its wrap-around or its check written out
    ([wrap32], [wrap64], [is_u32], ...); [f64] is the standard library's
    executable IEEE 754 model; a string is the list of its scalar values.  A Rust
    panic is [Panic] of the [run] monad; a [Result] is [result].  Maps whose
    order the code does not use are [gmap].
    Recursion that is not structural runs on fuel that is shown to be enough:
    [Yenc.body_byte_fuel] (2; [body_byte_fuel_enough]), the candidate loop
    ([Failover.candidates_fuel_enough]), [crc32_combine] (the bits of a [u64];
    [gf2_fuel_enough] and [combine_loop_spec]), decimal printing
    ([RustStr.parse_show_dec]).
    The PAR2 walk ([Par2.scan_loop]) runs on one turn more than there are bytes;
    [Commands.free_dir] on as many as there are names ([Desk] and [Commands] have
    no other fuel); [Control.reconcile_loop] on the four turns of the code.
    Bounds that are the code's own: repair takes at most eight rounds after the first
    verification, a walk of a payload goes 64 directories deep and lists at most
    100000 entries; how often the post-processor polls for recovery volumes is told
    by its environment.
    Handlers of the owner run against a script of fates ([Fs.Fate]): each
    file-system call succeeds, fails (a write after some of its bytes) or is the
    one during which the machine stops.

    ** What is assumed

    A crash keeps, of every file, the bytes up to its last sync and any prefix of
    the rest; [queue.json] is found with any of the entries it had since the
    directory was last synced.  Under [jobs/], where the code never syncs a
    directory, a file may be gone and a removed one may be back.  Whether a file
    that was synced keeps its entry is the argument [names] of [Fs.crash_disk]:
    [Restart.crash_recovery] needs [true], the promises about [queue.json] hold for
    both.  [serde_json] decodes what it
    encoded and rejects a truncated record ([Codec]); [crc32fast] computes CRC-32
    ([Crc32.Crc32Hasher]); [quick_xml] delivers events as its version here does.
    Each interface has an instance, used by the witnesses.  The control store's
    database runs one statement at a time; SHA-256, MD5, the jitter hash,
    [canonicalize] and Unicode lowercasing are parameters; directory trees have no
    symbolic links ([Tree]); a write to the lease file is whole, lands within two
    lease intervals of its read, and the reads it builds on succeed, where a theorem
    says so.  Sets that the code iterates in hash order are iterated in a fixed
    order.  Seen from the owner and the post-processor, the inventory of payload
    directories, the secret store and directory names answer as the environments
    [Desk.Lane], [Commands.Shelf] and [PostOps.Op] say; the inventory itself is
    modelled apart, on a file system of its own ([PayloadFs]) that nothing else
    writes during one of its operations.

    ** What is not modelled, and why

    Sockets, TLS, timers and task scheduling ([pool.rs], [fetch.rs],
    [transport.rs]): they surround the protocol core and hold no data of their
    own.  HTTP routing and JSON shapes ([nzbd-api], [nzbd-compat],
    [nzbd-qbit-compat]), TOML configuration and process start ([nzbd-config],
    [nzbd]), the feeds ([nzbd-feed]) and the vendored torrent engine
    ([contrib/rqbit], behind [nzbd-torrent]).  The bounded channels of [backend.rs],
    the rate limiter ([rate.rs]) and the writer threads ([writer.rs]): the owner takes
    what they deliver as messages and inputs.  The cluster's registry, worker and
    proxy ([registry.rs], [leader.rs], [worker.rs]): HTTP and heartbeats around the
    modelled control store and delegation.  The processes of [par2], [unrar], [7z]
    and user scripts: what they print and leave behind is arbitrary.  SQL is
    modelled by what its statements do, not by the text.  Of the owner: the published
    read model and the meters of the wire; of the volumes: the file that stores the
    book; of the history: SQL errors and parked NZB files; of the inventory:
    read-only listings, metrics and backups.  The manifest lists every part with its
    status. *)

From stdpp Require Export base decidable option list list_numbers gmap strings.
From Stdlib Require Export ZArith Lia ZifyBool.
From Stdlib Require Sorted.

#[export] Set Default Proof Using "Type".
#[global] Open Scope Z_scope.

(** ** Rust's outcomes

    [run A] is a computation that may panic (slice out of a character boundary,
    index out of bounds); [result A E] is Rust's [Result]. *)

Inductive run (A : Type) : Type :=
| Ret (a : A)
| Panic.
Arguments Ret {A} a.
Arguments Panic {A}.

Inductive result (A E : Type) : Type :=
| Ok (a : A)
| Err (e : E).
Arguments Ok {A E} a.
Arguments Err {A E} e.

Definition run_bind {A B} (m : run A) (k : A -> run B) : run B :=
  match m with
  | Ret a => k a
  | Panic => Panic
  end.

Definition result_bind {A B E} (m : result A E) (k : A -> result B E) : result B E :=
  match m with
  | Ok a => k a
  | Err e => Err e
  end.

Lemma Ok_inj {A E} (a b : A) : @Ok A E a = Ok b -> a = b.
Proof. by intros [= ->]. Qed.

Declare Scope nzbd_scope.
Delimit Scope nzbd_scope with nzbd.
Notation "'let!' x := m 'in' k" := (run_bind m (fun x => k))
  (at level 10, x pattern, k at level 200) : nzbd_scope.
Notation "'let?' x := m 'in' k" := (result_bind m (fun x => k))
  (at level 10, x pattern, k at level 200) : nzbd_scope.
#[global] Open Scope nzbd_scope.

(** ** Machine integers

    Values are [Z]; the width is written where it matters. *)

Abbreviation byte := Z.
Abbreviation bytes := (list Z).

Definition u8_max : Z := 255.
Definition u16_max : Z := 65535.
Definition u32_max : Z := 4294967295.
Definition u64_max : Z := 18446744073709551615.
Definition i64_min : Z := -9223372036854775808.
Definition i64_max : Z := 9223372036854775807.

Definition wrap8 (z : Z) : Z := z mod 256.
Definition wrap32 (z : Z) : Z := z mod 4294967296.
Definition wrap64 (z : Z) : Z := z mod 18446744073709551616.

Definition is_u8 (z : Z) : Prop := 0 <= z <= u8_max.
Definition is_u32 (z : Z) : Prop := 0 <= z <= u32_max.
Definition is_u64 (z : Z) : Prop := 0 <= z <= u64_max.

(** Saturating arithmetic on unsigned words ([lo = 0]) and on [i64]. *)
Definition sat_sub (a b : Z) : Z := Z.max 0 (a - b).
Definition sat_mul64 (a b : Z) : Z := Z.min u64_max (a * b).
Definition sat_add64 (a b : Z) : Z := Z.min u64_max (a + b).
Definition sat_sub_i64 (a b : Z) : Z := Z.max i64_min (Z.min i64_max (a - b)).

Definition clamp (lo hi n : Z) : Z := if n <? lo then lo else if hi <? n then hi else n.

Lemma clamp_bounds lo hi n : lo <= hi -> lo <= clamp lo hi n <= hi.
Proof. unfold clamp. intros. destruct (n <? lo) eqn:?; destruct (hi <? n) eqn:?; lia. Qed.

Lemma clamp_id lo hi n : lo <= n <= hi -> clamp lo hi n = n.
Proof. unfold clamp. intros. destruct (n <? lo) eqn:?; destruct (hi <? n) eqn:?; lia. Qed.

(** ** Tactics *)

(** Split the first boolean test of the goal and turn it into an (in)equality. *)
Ltac case_if :=
  match goal with
  | |- context [if ?b then _ else _] =>
      lazymatch b with
      | context [if _ then _ else _] => fail
      | _ => destruct b eqn:?
      end
  end.

Ltac case_if_in H :=
  match type of H with
  | context [if ?b then _ else _] =>
      lazymatch b with
      | context [if _ then _ else _] => fail
      | _ => destruct b eqn:?
      end
  end.

(** Normalise boolean hypotheses into propositions. *)
Ltac bool_hyps :=
  repeat match goal with
  | H : (_ && _) = true |- _ => apply andb_true_iff in H; destruct H
  | H : (_ || _) = false |- _ => apply orb_false_iff in H; destruct H
  | H : negb _ = true |- _ => apply negb_true_iff in H
  | H : negb _ = false |- _ => apply negb_false_iff in H
  | H : (_ =? _) = true |- _ => apply Z.eqb_eq in H
  | H : (_ =? _) = false |- _ => apply Z.eqb_neq in H
  | H : (_ <? _) = true |- _ => apply Z.ltb_lt in H
  | H : (_ <? _) = false |- _ => apply Z.ltb_ge in H
  | H : (_ <=? _) = true |- _ => apply Z.leb_le in H
  | H : (_ <=? _) = false |- _ => apply Z.leb_gt in H
  | H : bool_decide _ = true |- _ => apply bool_decide_eq_true in H
  | H : bool_decide _ = false |- _ => apply bool_decide_eq_false in H
  end.

Create HintDb nzbd discriminated.
Create Rewrite HintDb nzbd.

(** ** Sums over lists *)

Definition sum_Z (l : list Z) : Z := foldr Z.add 0 l.

Lemma sum_Z_app l1 l2 : sum_Z (l1 ++ l2) = sum_Z l1 + sum_Z l2.
Proof. induction l1; simpl; lia. Qed.

Lemma sum_Z_perm l1 l2 : l1 ≡ₚ l2 -> sum_Z l1 = sum_Z l2.
Proof. induction 1; simpl; lia. Qed.

Lemma sum_Z_nonneg l : Forall (fun z => 0 <= z) l -> 0 <= sum_Z l.
Proof. induction 1; simpl; lia. Qed.

Lemma sum_Z_le_length l b :
  Forall (fun z => z <= b) l -> sum_Z l <= b * Z.of_nat (length l).
Proof. induction 1; simpl; nia. Qed.

#[export] Hint Rewrite sum_Z_app : nzbd.

(** ** Lists *)

Lemma drop_app_cons {A} (k : list A) c v : drop (S (length k)) (k ++ c :: v) = v.
Proof. induction k; [done|]. apply IHk. Qed.

Lemma NoDup_map_inj {A B} (f : A -> B) (l : list A) x y :
  NoDup (map f l) -> x ∈ l -> y ∈ l -> f x = f y -> x = y.
Proof.
  induction l as [|a l IH]; simpl; [by intros _ ?%elem_of_nil|].
  intros [Hn Hd]%NoDup_cons Hx Hy Hf.
  assert (Hout : forall z, z ∈ l -> f z <> f a).
  { intros z Hz Hza. apply Hn. rewrite <- Hza. by apply list_elem_of_fmap_2. }
  apply elem_of_cons in Hx as [->|Hx], Hy as [->|Hy]; auto.
  - by destruct (Hout y Hy).
  - by destruct (Hout x Hx).
Qed.

Lemma elem_of_filter_bool {A} (p : A -> bool) (l : list A) x :
  x ∈ List.filter p l <-> x ∈ l /\ p x = true.
Proof. rewrite !list_elem_of_In. apply filter_In. Qed.

Lemma existsb_elem {A} (p : A -> bool) (l : list A) :
  existsb p l = true <-> exists x, x ∈ l /\ p x = true.
Proof. rewrite existsb_exists. by setoid_rewrite list_elem_of_In. Qed.

Lemma forallb_elem {A} (p : A -> bool) (l : list A) :
  forallb p l = true <-> forall x, x ∈ l -> p x = true.
Proof. rewrite forallb_forall. by setoid_rewrite list_elem_of_In. Qed.

Lemma tail_drop_S {A} n (l : list A) : tail (drop n l) = drop (S n) l.
Proof. revert l. induction n as [|n IH]; intros [|x l]; try done. apply IH. Qed.

(** ** Stable sorting by an integer key ([slice::sort_by_key]) *)

Section Sort.
Context {A : Type} (key : A -> Z).

Fixpoint insert_by (x : A) (l : list A) : list A :=
  match l with
  | [] => [x]
  | y :: l' => if key x <=? key y then x :: l else y :: insert_by x l'
  end.

Definition sort_by_key (l : list A) : list A := foldr insert_by [] l.

(** [dedup_by_key]: of neighbours with one key the first is kept. *)
Fixpoint dedup_by_key (l : list A) : list A :=
  match l with
  | [] => []
  | x :: l' =>
      match dedup_by_key l' with
      | y :: r => if key x =? key y then x :: r else x :: y :: r
      | [] => [x]
      end
  end.

Definition sorted_key (l : list A) : Prop := Sorted.StronglySorted (fun x y => key x <= key y) l.

Lemma insert_by_perm x l : insert_by x l ≡ₚ x :: l.
Proof.
  induction l as [|y l IH]; simpl; [done|]. case_if; [done|].
  rewrite IH. constructor.
Qed.

Lemma sort_by_key_perm l : sort_by_key l ≡ₚ l.
Proof. induction l as [|x l IH]; simpl; [done|]. by rewrite insert_by_perm, IH. Qed.

Lemma insert_by_sorted x l : sorted_key l -> sorted_key (insert_by x l).
Proof.
  induction 1 as [|y l Hl IH Hy]; simpl; [repeat constructor|]. case_if; bool_hyps.
  - constructor; [by constructor|]. constructor; [done|].
    eapply Forall_impl; [exact Hy|]. simpl. lia.
  - constructor; [done|]. rewrite (insert_by_perm x l). by constructor; [lia|].
Qed.

Lemma sort_by_key_sorted l : sorted_key (sort_by_key l).
Proof. induction l; simpl; [constructor|]. by apply insert_by_sorted. Qed.

Lemma sort_by_key_length l : length (sort_by_key l) = length l.
Proof. by rewrite sort_by_key_perm. Qed.

Lemma elem_of_sort_by_key x l : x ∈ sort_by_key l <-> x ∈ l.
Proof. by rewrite sort_by_key_perm. Qed.

(** Equal keys keep their order. *)
Lemma insert_by_stable k x l :
  List.filter (fun y => key y =? k) (insert_by x l) = List.filter (fun y => key y =? k) (x :: l).
Proof.
  induction l as [|y l IH]; simpl; [done|]. case_if; bool_hyps; [done|].
  simpl. rewrite IH. simpl. destruct (key y =? k) eqn:Ey, (key x =? k) eqn:Ex; bool_hyps; try done. lia.
Qed.

Lemma sort_by_key_stable k l :
  List.filter (fun y => key y =? k) (sort_by_key l) = List.filter (fun y => key y =? k) l.
Proof. induction l as [|x l IH]; simpl; [done|]. rewrite insert_by_stable. simpl. by rewrite IH. Qed.

Lemma dedup_by_key_head l x r : dedup_by_key l = x :: r -> exists l', l = x :: l'.
Proof.
  destruct l as [|y l]; [done|]. simpl.
  destruct (dedup_by_key l) as [|z r']; [intros [= -> <-]; eauto|].
  case_if; intros [= -> <-]; eauto.
Qed.

Lemma dedup_by_key_sub l x : x ∈ dedup_by_key l -> x ∈ l.
Proof.
  induction l as [|y l IH]; simpl; [done|].
  destruct (dedup_by_key l) as [|z r]; [set_solver|]. case_if; set_solver.
Qed.

Lemma dedup_by_key_nil l : dedup_by_key l = [] <-> l = [].
Proof.
  split; [|by intros ->]. destruct l as [|y l]; [done|]. simpl.
  destruct (dedup_by_key l); [done|]. by case_if.
Qed.

Lemma dedup_by_key_strict l : sorted_key l ->
  Sorted.StronglySorted (fun x y => key x < key y) (dedup_by_key l).
Proof.
  induction 1 as [|x l Hl IH Hx]; simpl; [constructor|].
  destruct (dedup_by_key l) as [|y r] eqn:E; [repeat constructor|].
  assert (Hy : key x <= key y).
  { rewrite Forall_forall in Hx. apply Hx, dedup_by_key_sub. rewrite E. by left. }
  inversion IH as [|? ? Hr Hry]; subst.
  case_if; bool_hyps.
  - constructor; [done|]. eapply Forall_impl; [exact Hry|]. simpl. lia.
  - constructor; [done|]. constructor; [lia|]. eapply Forall_impl; [exact Hry|]. simpl. lia.
Qed.

Lemma dedup_by_key_keys l x : x ∈ l -> exists y, y ∈ dedup_by_key l /\ key y = key x.
Proof.
  induction l as [|z l IH]; [by intros ?%elem_of_nil|]. simpl.
  intros [->|Hx]%elem_of_cons.
  - exists z. destruct (dedup_by_key l) as [|y r]; [set_solver|]. case_if; set_solver.
  - destruct (IH Hx) as (y & Hy & Hk).
    destruct (dedup_by_key l) as [|w r] eqn:E; [by apply elem_of_nil in Hy|].
    case_if; bool_hyps; [|exists y; set_solver].
    apply elem_of_cons in Hy as [->|Hy]; [exists z; split; [by left|congruence]|exists y; set_solver].
Qed.

End Sort.
