(* ===== verification/RustStr.v ===== *)
(** * Rust strings

    The part of [core::str], [core::char] and the integer parsers that the
    modelled code uses.  A [str] is the list of its Unicode scalar values; its
    bytes are [utf8_encode].  Functions of the source that find a byte index
    and slice there are modelled on the character list: a found index is
    always a character boundary.  Where the source slices bytes at an index it
    did not find (only [percent_decode]) the model works on the bytes. *)

From S2P Require Import Prelude.
From Stdlib Require Import Ascii.
From Stdlib Require String.

Abbreviation str := (list Z).

Definition char_of_ascii (a : ascii) : Z := Z.of_N (N_of_ascii a).

(** ASCII literals, [lit "yEnc"]. *)
Fixpoint lit (s : String.string) : str :=
  match s with
  | String.EmptyString => []
  | String.String a s' => char_of_ascii a :: lit s'
  end.
Arguments lit _%_string_scope.

(** ** Character classes *)

Definition in_range (lo hi c : Z) : bool := (lo <=? c) && (c <=? hi).

Definition is_ascii_digit (c : Z) : bool := in_range 48 57 c.
Definition is_ascii_upper (c : Z) : bool := in_range 65 90 c.
Definition is_ascii_lower (c : Z) : bool := in_range 97 122 c.
Definition is_ascii_alphabetic (c : Z) : bool := is_ascii_upper c || is_ascii_lower c.
Definition is_ascii_alphanumeric (c : Z) : bool := is_ascii_alphabetic c || is_ascii_digit c.
Definition is_ascii_hexdigit (c : Z) : bool :=
  is_ascii_digit c || in_range 65 70 c || in_range 97 102 c.

(** [char::is_control]: general category Cc. *)
Definition is_control (c : Z) : bool := in_range 0 31 c || in_range 127 159 c.

(** [char::is_whitespace]: the White_Space property. *)
Definition is_whitespace (c : Z) : bool :=
  in_range 9 13 c || (c =? 32) || (c =? 0x85) || (c =? 0xA0) || (c =? 0x1680)
  || in_range 0x2000 0x200A c || (c =? 0x2028) || (c =? 0x2029) || (c =? 0x202F)
  || (c =? 0x205F) || (c =? 0x3000).

Definition ascii_lower (c : Z) : Z := if is_ascii_upper c then c + 32 else c.
Definition to_ascii_lowercase (s : str) : str := map ascii_lower s.
Definition eq_ignore_ascii_case (s t : str) : bool :=
  bool_decide (to_ascii_lowercase s = to_ascii_lowercase t).

Definition is_scalar (c : Z) : Prop :=
  0 <= c <= 0x10FFFF /\ ~ (0xD800 <= c <= 0xDFFF).

(** ** Trimming *)

Fixpoint trim_start_matches (p : Z -> bool) (s : str) : str :=
  match s with
  | [] => []
  | c :: s' => if p c then trim_start_matches p s' else s
  end.

Definition trim_end_matches (p : Z -> bool) (s : str) : str :=
  reverse (trim_start_matches p (reverse s)).

Definition trim_matches (p : Z -> bool) (s : str) : str :=
  trim_end_matches p (trim_start_matches p s).

Definition trim (s : str) : str := trim_matches is_whitespace s.

(** ** Prefixes, suffixes, searching *)

Fixpoint strip_prefix (p s : str) : option str :=
  match p, s with
  | [], _ => Some s
  | a :: p', b :: s' => if a =? b then strip_prefix p' s' else None
  | _ :: _, [] => None
  end.

Definition starts_with (p s : str) : bool :=
  match strip_prefix p s with Some _ => true | None => false end.

Definition strip_suffix (p s : str) : option str :=
  reverse <$> strip_prefix (reverse p) (reverse s).

Definition ends_with (p s : str) : bool := starts_with (reverse p) (reverse s).

(** First occurrence of a pattern: the text before it and the text after. *)
Fixpoint split_at_first (pat s : str) : option (str * str) :=
  match strip_prefix pat s with
  | Some rest => Some ([], rest)
  | None =>
      match s with
      | [] => None
      | c :: s' => prod_map (cons c) id <$> split_at_first pat s'
      end
  end.

Definition contains (pat s : str) : bool :=
  match split_at_first pat s with Some _ => true | None => false end.

(** Last occurrence ([rfind] / [rsplit_once]). *)
Fixpoint split_at_last (pat s : str) : option (str * str) :=
  match s with
  | [] => match strip_prefix pat [] with Some r => Some ([], r) | None => None end
  | c :: s' =>
      match split_at_last pat s' with
      | Some (a, b) => Some (c :: a, b)
      | None => prod_map (fun _ => []) id <$> ((fun r => (s, r)) <$> strip_prefix pat s)
      end
  end.

(** Index of the first character satisfying [p]. *)
Fixpoint find_char (p : Z -> bool) (s : str) : option nat :=
  match s with
  | [] => None
  | c :: s' => if p c then Some O else S <$> find_char p s'
  end.

(** [str::split] by a character predicate: never empty. *)
Fixpoint split_chars (p : Z -> bool) (s : str) : list str :=
  match s with
  | [] => [[]]
  | c :: s' =>
      if p c then [] :: split_chars p s'
      else match split_chars p s' with
           | [] => [[c]]
           | w :: ws => (c :: w) :: ws
           end
  end.

Definition split_whitespace (s : str) : list str :=
  filter (fun w => w <> []) (split_chars is_whitespace s).

(** ** Numbers *)

Definition digit_value (radix c : Z) : option Z :=
  let v := if is_ascii_digit c then Some (c - 48)
           else if is_ascii_lower c then Some (c - 97 + 10)
           else if is_ascii_upper c then Some (c - 65 + 10)
           else None in
  match v with
  | Some d => if d <? radix then Some d else None
  | None => None
  end.

Fixpoint parse_digits (radix max acc : Z) (s : str) : option Z :=
  match s with
  | [] => Some acc
  | c :: s' =>
      match digit_value radix c with
      | None => None
      | Some d =>
          let acc' := acc * radix + d in
          if acc' <=? max then parse_digits radix max acc' s' else None
      end
  end.

(** [from_str_radix] of an unsigned type: one leading [+] is accepted, an
    empty digit string is not. *)
Definition parse_uint (radix max : Z) (s : str) : option Z :=
  match s with
  | [] => None
  | c :: s' =>
      if c =? 43 then match s' with [] => None | _ => parse_digits radix max 0 s' end
      else parse_digits radix max 0 s
  end.

(** [str::parse::<i64>()]. *)
Definition parse_i64 (s : str) : option Z :=
  match s with
  | [] => None
  | c :: s' =>
      if c =? 45 then
        match s' with [] => None | _ => Z.opp <$> parse_digits 10 (i64_max + 1) 0 s' end
      else parse_uint 10 i64_max s
  end.

Definition digit_char (d : Z) : Z := if d <? 10 then 48 + d else 97 + (d - 10).

(** Digits of [n], most significant first. *)
Fixpoint show_radix_fuel (fuel : nat) (radix n : Z) : str :=
  match fuel with
  | O => []
  | S fuel' =>
      if n <? radix then [digit_char n]
      else show_radix_fuel fuel' radix (n / radix) ++ [digit_char (n mod radix)]
  end.

Definition show_radix (radix n : Z) : str :=
  show_radix_fuel (S (Z.to_nat (Z.log2 n))) radix n.

(** [Display] of an unsigned integer. *)
Definition show_dec (n : Z) : str := show_radix 10 n.

Definition pad_zeros (w : nat) (s : str) : str := replicate (w - length s) 48 ++ s.

(** ** UTF-8 *)

Definition utf8_encode_char (c : Z) : bytes :=
  if c <? 0x80 then [c]
  else if c <? 0x800 then [0xC0 + c / 64; 0x80 + c mod 64]
  else if c <? 0x10000 then [0xE0 + c / 4096; 0x80 + (c / 64) mod 64; 0x80 + c mod 64]
  else [0xF0 + c / 262144; 0x80 + (c / 4096) mod 64; 0x80 + (c / 64) mod 64; 0x80 + c mod 64].

Definition utf8_encode (s : str) : bytes := concat (map utf8_encode_char s).

(** [str::len]. *)
Definition utf8_len (s : str) : Z := Z.of_nat (length (utf8_encode s)).

Definition is_cont (b : Z) : bool := in_range 0x80 0xBF b.

(** What may follow a three- or four-byte lead. *)
Definition second_ok3 (b0 b1 : Z) : bool :=
  if b0 =? 0xE0 then in_range 0xA0 0xBF b1
  else if b0 =? 0xED then in_range 0x80 0x9F b1
  else is_cont b1.

Definition second_ok4 (b0 b1 : Z) : bool :=
  if b0 =? 0xF0 then in_range 0x90 0xBF b1
  else if b0 =? 0xF4 then in_range 0x80 0x8F b1
  else is_cont b1.

(** The characters of a byte string; [None] for each maximal ill-formed
    subpart, which the lossy conversion replaces by U+FFFD. *)
Fixpoint utf8_decode (bs : bytes) : list (option Z) :=
  match bs with
  | [] => []
  | b0 :: t0 =>
      if b0 <? 0x80 then Some b0 :: utf8_decode t0
      else if in_range 0xC2 0xDF b0 then
        match t0 with
        | b1 :: t1 =>
            if is_cont b1 then Some ((b0 - 0xC0) * 64 + (b1 - 0x80)) :: utf8_decode t1
            else None :: utf8_decode t0
        | [] => [None]
        end
      else if in_range 0xE0 0xEF b0 then
        match t0 with
        | b1 :: t1 =>
            if second_ok3 b0 b1 then
              match t1 with
              | b2 :: t2 =>
                  if is_cont b2 then
                    Some ((b0 - 0xE0) * 4096 + (b1 - 0x80) * 64 + (b2 - 0x80)) :: utf8_decode t2
                  else None :: utf8_decode t1
              | [] => [None]
              end
            else None :: utf8_decode t0
        | [] => [None]
        end
      else if in_range 0xF0 0xF4 b0 then
        match t0 with
        | b1 :: t1 =>
            if second_ok4 b0 b1 then
              match t1 with
              | b2 :: t2 =>
                  if is_cont b2 then
                    match t2 with
                    | b3 :: t3 =>
                        if is_cont b3 then
                          Some ((b0 - 0xF0) * 262144 + (b1 - 0x80) * 4096
                                + (b2 - 0x80) * 64 + (b3 - 0x80)) :: utf8_decode t3
                        else None :: utf8_decode t2
                    | [] => [None]
                    end
                  else None :: utf8_decode t1
              | [] => [None]
              end
            else None :: utf8_decode t0
        | [] => [None]
        end
      else None :: utf8_decode t0
  end.

(** [std::str::from_utf8(..).ok()] and [String::from_utf8_lossy]. *)
Definition from_utf8 (bs : bytes) : option str := mapM id (utf8_decode bs).
Definition from_utf8_lossy (bs : bytes) : str := map (default 0xFFFD) (utf8_decode bs).

Example parse_ex : parse_uint 10 u64_max (lit "+42") = Some 42 /\ parse_uint 10 255 (lit "256") = None.
Proof. vm_compute. done. Qed.
Example show_ex : show_dec 1234567890123 = lit "1234567890123" /\ show_dec 0 = lit "0".
Proof. vm_compute. done. Qed.
Example utf8_ex : from_utf8_lossy (utf8_encode [0x41; 0xE9; 0x20AC; 0x1F600]) = [0x41; 0xE9; 0x20AC; 0x1F600].
Proof. vm_compute. done. Qed.

(** ** Lemmas on trimming *)

Lemma trim_start_suffix p s : exists l, s = l ++ trim_start_matches p s /\ Forall (fun c => p c = true) l.
Proof.
  induction s as [|c s (l & Hs & Hl)]; simpl; [by exists []|].
  destruct (p c) eqn:E; [|by exists []].
  exists (c :: l). split; [by rewrite Hs at 1|]. by constructor.
Qed.

Lemma trim_end_prefix p s : exists l, s = trim_end_matches p s ++ l /\ Forall (fun c => p c = true) l.
Proof.
  unfold trim_end_matches.
  destruct (trim_start_suffix p (reverse s)) as (l & Hs & Hl).
  exists (reverse l). split; [|by apply Forall_reverse].
  rewrite <- reverse_app, <- Hs. by rewrite reverse_involutive.
Qed.

Lemma trim_start_head p s c : head (trim_start_matches p s) = Some c -> p c = false.
Proof.
  induction s as [|d s IH]; simpl; [done|].
  destruct (p d) eqn:E; [done|]. simpl. by intros [= <-].
Qed.

Lemma trim_end_last p s c : last (trim_end_matches p s) = Some c -> p c = false.
Proof. unfold trim_end_matches. rewrite last_reverse. apply trim_start_head. Qed.

Lemma trim_start_forall p P s : Forall P s -> Forall P (trim_start_matches p s).
Proof. intros H. destruct (trim_start_suffix p s) as (l & Hs & _). rewrite Hs in H. by apply Forall_app in H as [_ ?]. Qed.

Lemma trim_end_forall p P s : Forall P s -> Forall P (trim_end_matches p s).
Proof. intros H. by apply Forall_reverse, trim_start_forall, Forall_reverse. Qed.

Lemma trim_matches_forall p P s : Forall P s -> Forall P (trim_matches p s).
Proof. intros. by apply trim_end_forall, trim_start_forall. Qed.

#[export] Hint Resolve trim_start_forall trim_end_forall trim_matches_forall : nzbd.

Lemma trim_start_id p s : (forall c, head s = Some c -> p c = false) -> trim_start_matches p s = s.
Proof. destruct s as [|c s]; [done|]. simpl. intros H. by rewrite (H c eq_refl). Qed.

Lemma trim_end_id p s : (forall c, last s = Some c -> p c = false) -> trim_end_matches p s = s.
Proof.
  intros H. unfold trim_end_matches. rewrite trim_start_id; [by rewrite reverse_involutive|].
  intros c. rewrite head_reverse. apply H.
Qed.

Lemma trim_none p s : Forall (fun c => p c = false) s -> trim_matches p s = s.
Proof.
  rewrite Forall_forall. intros H. unfold trim_matches.
  assert (trim_start_matches p s = s) as ->.
  { apply trim_start_id. intros c [l ->]%head_Some. apply H. set_solver. }
  apply trim_end_id. intros c [l ->]%last_Some. apply H. set_solver.
Qed.

(** ** Prefixes *)

Lemma strip_prefix_Some p s r : strip_prefix p s = Some r <-> s = p ++ r.
Proof.
  revert s. induction p as [|a p IH]; intros s; simpl; [split; congruence|].
  destruct s as [|b s]; [done|].
  destruct (a =? b) eqn:E; bool_hyps.
  - subst. rewrite IH. split; [by intros -> | by intros [= ->]].
  - split; [done|]. intros [= -> ->]. done.
Qed.

Lemma strip_prefix_app p r : strip_prefix p (p ++ r) = Some r.
Proof. by apply strip_prefix_Some. Qed.

Lemma starts_with_true p s : starts_with p s = true <-> exists r, s = p ++ r.
Proof.
  unfold starts_with. destruct (strip_prefix p s) as [r|] eqn:E.
  - apply strip_prefix_Some in E as ->. naive_solver.
  - split; [done|]. intros [r ->]. by rewrite strip_prefix_app in E.
Qed.

Lemma starts_with_app p r : starts_with p (p ++ r) = true.
Proof. apply starts_with_true. eauto. Qed.

Lemma split_at_first_Some pat s a b : split_at_first pat s = Some (a, b) -> s = a ++ pat ++ b.
Proof.
  revert a b. induction s as [|c s IH]; intros a b; simpl;
    destruct (strip_prefix pat _) eqn:E.
  - intros [= <- <-]. by apply strip_prefix_Some in E.
  - done.
  - intros [= <- <-]. by apply strip_prefix_Some in E.
  - destruct (split_at_first pat s) as [[a' b']|]; [|done]. simpl. intros [= <- <-].
    simpl. f_equal. by apply IH.
Qed.

(** ** Decimal numbers *)

Lemma digit_char_range d : 0 <= d < 10 -> is_ascii_digit (digit_char d) = true.
Proof. unfold digit_char, is_ascii_digit, in_range. intros. case_if; lia. Qed.

Lemma digit_value_char radix d : 0 <= d < radix -> radix <= 36 ->
  digit_value radix (digit_char d) = Some d.
Proof.
  intros Hd Hr. unfold digit_value, digit_char, is_ascii_digit, is_ascii_lower, in_range.
  destruct (d <? 10) eqn:?; bool_hyps.
  - destruct ((48 <=? 48 + d) && (48 + d <=? 57)) eqn:?; [|lia].
    replace (48 + d - 48) with d by lia. case_if; [done|lia].
  - destruct ((48 <=? 97 + (d - 10)) && (97 + (d - 10) <=? 57)) eqn:?; [lia|].
    destruct ((97 <=? 97 + (d - 10)) && (97 + (d - 10) <=? 122)) eqn:?; [|lia].
    replace (97 + (d - 10) - 97 + 10) with d by lia. case_if; [done|lia].
Qed.

Lemma digit_char_alnum d : 0 <= d < 36 -> is_ascii_alphanumeric (digit_char d) = true.
Proof.
  unfold digit_char, is_ascii_alphanumeric, is_ascii_alphabetic, is_ascii_digit, is_ascii_lower,
    is_ascii_upper, in_range. intros. case_if; lia.
Qed.

Lemma show_fuel_digits fuel n : 0 <= n -> Forall (fun c => is_ascii_digit c = true) (show_radix_fuel fuel 10 n).
Proof.
  revert n. induction fuel as [|fuel IH]; intros n Hn; simpl; [constructor|].
  case_if; bool_hyps.
  - constructor; [apply digit_char_range; lia|constructor].
  - apply Forall_app. split; [apply IH, Z.div_pos; lia|].
    constructor; [|constructor]. apply digit_char_range. apply Z.mod_pos_bound; lia.
Qed.

Lemma show_dec_digits n : 0 <= n -> Forall (fun c => is_ascii_digit c = true) (show_dec n).
Proof. apply show_fuel_digits. Qed.

Lemma parse_digits_app radix max acc l1 l2 :
  parse_digits radix max acc (l1 ++ l2) =
  match parse_digits radix max acc l1 with
  | Some v => parse_digits radix max v l2
  | None => None
  end.
Proof.
  revert acc. induction l1 as [|c l1 IH]; intros acc; simpl; [done|].
  destruct (digit_value radix c); [|done]. case_if; [apply IH|done].
Qed.

Lemma log2_div radix n : 2 <= radix -> radix <= n -> Z.log2 (n / radix) < Z.log2 n.
Proof.
  intros Hr Hn. apply Z.log2_lt_pow2; [apply Z.div_str_pos; lia|].
  apply Z.div_lt_upper_bound; [lia|].
  pose proof (Z.log2_spec n ltac:(lia)) as [_ H].
  rewrite Z.pow_succ_r in H by apply Z.log2_nonneg.
  assert (0 < 2 ^ Z.log2 n) by (apply Z.pow_pos_nonneg; [lia|apply Z.log2_nonneg]). nia.
Qed.

Lemma parse_show_fuel radix fuel max n : 2 <= radix <= 36 ->
  0 <= n <= max -> (Z.to_nat (Z.log2 n) < fuel)%nat ->
  parse_digits radix max 0 (show_radix_fuel fuel radix n) = Some n.
Proof.
  intros Hr. revert n. induction fuel as [|fuel IH]; intros n Hn Hf; [lia|]. simpl.
  case_if; bool_hyps.
  - simpl. rewrite digit_value_char by lia. case_if; [f_equal; lia|lia].
  - rewrite parse_digits_app.
    assert (0 <= n / radix) by (apply Z.div_pos; lia).
    pose proof (Z.div_mod n radix ltac:(lia)). pose proof (Z.mod_pos_bound n radix ltac:(lia)).
    rewrite IH; [|split; [done|nia]|
      pose proof (log2_div radix n ltac:(lia) ltac:(lia)); pose proof (Z.log2_nonneg (n/radix)); lia].
    simpl. rewrite digit_value_char by lia. case_if; [f_equal; lia|lia].
Qed.

Lemma show_radix_nonempty radix n : show_radix radix n <> [].
Proof. unfold show_radix. simpl. case_if; [done|]. by destruct (show_radix_fuel _ _ _). Qed.

Lemma show_radix_alnum radix n : 2 <= radix <= 36 -> 0 <= n ->
  Forall (fun c => is_ascii_alphanumeric c = true) (show_radix radix n).
Proof.
  intros Hr. unfold show_radix. generalize (S (Z.to_nat (Z.log2 n))). intros fuel. revert n.
  induction fuel as [|fuel IH]; intros n Hn; simpl; [constructor|].
  case_if; bool_hyps.
  - constructor; [apply digit_char_alnum; lia|constructor].
  - apply Forall_app. split; [apply IH, Z.div_pos; lia|].
    constructor; [|constructor]. apply digit_char_alnum.
    pose proof (Z.mod_pos_bound n radix ltac:(lia)). lia.
Qed.

Lemma alnum_not_plus c : is_ascii_alphanumeric c = true -> (c =? 43) = false.
Proof.
  unfold is_ascii_alphanumeric, is_ascii_alphabetic, is_ascii_upper, is_ascii_lower,
    is_ascii_digit, in_range. lia.
Qed.

Lemma parse_uint_digits radix max s :
  s <> [] -> Forall (fun c => is_ascii_alphanumeric c = true) s ->
  parse_uint radix max s = parse_digits radix max 0 s.
Proof.
  intros Hne Hs. destruct Hs as [|c s Hc Hs]; [done|]. simpl.
  by rewrite alnum_not_plus by done.
Qed.

Lemma parse_digits_zeros radix max w s : 0 < radix -> 0 <= max ->
  parse_digits radix max 0 (replicate w 48 ++ s) = parse_digits radix max 0 s.
Proof.
  intros. induction w as [|w IH]; simpl; [done|].
  change (digit_value radix 48) with (if 0 <? radix then Some 0 else None).
  case_if; [|lia]. case_if; [done|lia].
Qed.

Lemma pad_zeros_alnum w s : Forall (fun c => is_ascii_alphanumeric c = true) s ->
  Forall (fun c => is_ascii_alphanumeric c = true) (pad_zeros w s).
Proof. intros. apply Forall_app. split; [by apply Forall_replicate|done]. Qed.

(** Printing an unsigned integer, padded or not, and parsing it back. *)
Lemma parse_pad_show radix max w n : 2 <= radix <= 36 -> 0 <= n <= max ->
  parse_uint radix max (pad_zeros w (show_radix radix n)) = Some n.
Proof.
  intros Hr Hn. rewrite parse_uint_digits.
  - unfold pad_zeros. rewrite parse_digits_zeros by lia. apply parse_show_fuel; [done|done|lia].
  - pose proof (show_radix_nonempty radix n). unfold pad_zeros. intros [? ?]%app_nil. done.
  - apply pad_zeros_alnum, show_radix_alnum; lia.
Qed.

Lemma show_dec_nonempty n : show_dec n <> [].
Proof. apply show_radix_nonempty. Qed.

Lemma parse_show_dec max n : 0 <= n <= max -> parse_uint 10 max (show_dec n) = Some n.
Proof. intros. apply (parse_pad_show 10 max 0); lia. Qed.

Lemma show_dec_inj a b : 0 <= a -> 0 <= b -> show_dec a = show_dec b -> a = b.
Proof.
  intros Ha Hb E. apply (inj Some).
  rewrite <- (parse_show_dec (Z.max a b) a), <- (parse_show_dec (Z.max a b) b) by lia. by rewrite E.
Qed.

(** ** UTF-8 round trip *)

Definition is_ascii (c : Z) : Prop := 0 <= c < 128.

Lemma utf8_decode_ascii c rest : is_ascii c -> utf8_decode (c :: rest) = Some c :: utf8_decode rest.
Proof. unfold is_ascii. intros. simpl. by destruct (c <? 128) eqn:?; [|lia]. Qed.

Lemma cont_low q : 0 <= q < 64 -> is_cont (128 + q) = true.
Proof. unfold is_cont, in_range. lia. Qed.

(** The digits of a scalar value in base 64, as the encoder writes them. *)
Lemma base64_split c : 0 <= c ->
  c = c / 64 * 64 + c mod 64 /\ 0 <= c mod 64 < 64 /\ 0 <= c / 64.
Proof.
  intros. pose proof (Z.div_mod c 64 ltac:(lia)). pose proof (Z.mod_pos_bound c 64 ltac:(lia)).
  pose proof (Z.div_pos c 64 ltac:(lia)). lia.
Qed.

Ltac utf8_range :=
  unfold second_ok3, second_ok4, is_cont, in_range; repeat case_if; bool_hyps; lia.

Ltac utf8_tests :=
  repeat match goal with
  | |- context [if ?b then _ else _] =>
      first [ assert (b = true) as -> by utf8_range
            | assert (b = false) as -> by utf8_range ];
      cbv iota
  end.

Lemma utf8_decode_char c rest : is_scalar c ->
  utf8_decode (utf8_encode_char c ++ rest) = Some c :: utf8_decode rest.
Proof.
  intros [Hc Hs]. unfold utf8_encode_char.
  pose proof (base64_split c ltac:(lia)) as (E1 & B1 & N1).
  pose proof (base64_split (c / 64) ltac:(lia)) as (E2 & B2 & N2).
  pose proof (base64_split (c / 64 / 64) ltac:(lia)) as (E3 & B3 & N3).
  assert (D2 : c / 4096 = c / 64 / 64) by (rewrite Z.div_div by lia; done).
  assert (D3 : c / 262144 = c / 64 / 64 / 64) by (rewrite !Z.div_div by lia; done).
  rewrite D2, D3. clear D2 D3.
  generalize dependent (c mod 64). generalize dependent ((c / 64) mod 64).
  generalize dependent ((c / 64 / 64) mod 64). generalize dependent (c / 64 / 64 / 64).
  generalize dependent (c / 64 / 64). generalize dependent (c / 64).
  intros q1 N1 q2 N2 q3 N3 r2 E3 B3 r1 E2 B2 r0 E1 B1.
  repeat case_if; bool_hyps; cbn [app utf8_decode]; utf8_tests; do 2 f_equal; lia.
Qed.

Lemma utf8_decode_encode s : Forall is_scalar s -> utf8_decode (utf8_encode s) = Some <$> s.
Proof.
  induction 1 as [|c s Hc Hs IH]; [done|].
  change (utf8_encode (c :: s)) with (utf8_encode_char c ++ utf8_encode s).
  rewrite utf8_decode_char by done. by rewrite IH.
Qed.

Lemma from_utf8_lossy_encode s : Forall is_scalar s -> from_utf8_lossy (utf8_encode s) = s.
Proof.
  intros H. unfold from_utf8_lossy. rewrite utf8_decode_encode by done.
  induction s; [done|]. simpl. f_equal. apply IHs. by inversion H.
Qed.

Lemma utf8_encode_ascii s : Forall is_ascii s -> utf8_encode s = s.
Proof.
  induction 1 as [|c s Hc Hs IH]; [done|].
  change (utf8_encode (c :: s)) with (utf8_encode_char c ++ utf8_encode s). rewrite IH.
  unfold utf8_encode_char. unfold is_ascii in Hc. by destruct (c <? 128) eqn:?; [|lia].
Qed.

Lemma utf8_decode_ascii_all s : Forall is_ascii s -> utf8_decode s = Some <$> s.
Proof. induction 1 as [|c s Hc Hs IH]; [done|]. rewrite utf8_decode_ascii, IH by done. done. Qed.

Lemma from_utf8_ascii s : Forall is_ascii s -> from_utf8 s = Some s.
Proof.
  intros H. unfold from_utf8. rewrite utf8_decode_ascii_all by done.
  apply mapM_Some. clear H. induction s; constructor; done.
Qed.

Lemma ascii_digit_ascii c : is_ascii_digit c = true -> is_ascii c.
Proof. unfold is_ascii_digit, in_range, is_ascii. lia. Qed.

Lemma digit_value_nonneg radix c d : digit_value radix c = Some d -> 0 <= d.
Proof.
  unfold digit_value, is_ascii_digit, is_ascii_lower, is_ascii_upper, in_range.
  destruct (_ && _) eqn:E1; [|destruct (_ && _) eqn:E2 in |- *; [|destruct (_ && _) eqn:E3 in |- *; [|done]]];
    case_if; intros [= <-]; bool_hyps; lia.
Qed.

Lemma parse_digits_bounds radix max s : 0 <= radix -> forall acc n, 0 <= acc <= max ->
  parse_digits radix max acc s = Some n -> 0 <= n <= max.
Proof.
  intros Hr. induction s as [|c s IH]; intros acc n Ha; simpl; [by intros [= <-]|].
  destruct (digit_value radix c) as [d|] eqn:E; [|done]. apply digit_value_nonneg in E.
  case_if; [|done]. bool_hyps. apply IH. nia.
Qed.

Lemma parse_uint_bounds radix max s n : 0 <= radix -> 0 <= max -> parse_uint radix max s = Some n -> 0 <= n <= max.
Proof.
  intros Hr Hm. unfold parse_uint. destruct s as [|c s]; [done|]. case_if; [destruct s as [|c' s]; [done|]|];
    apply parse_digits_bounds; lia.
Qed.

#[export] Hint Resolve ascii_digit_ascii show_dec_digits show_dec_nonempty : nzbd.

Lemma alnum_ascii c : is_ascii_alphanumeric c = true -> is_ascii c.
Proof.
  unfold is_ascii_alphanumeric, is_ascii_alphabetic, is_ascii_upper, is_ascii_lower,
    is_ascii_digit, in_range, is_ascii. lia.
Qed.

Lemma digit_alnum c : is_ascii_digit c = true -> is_ascii_alphanumeric c = true.
Proof. unfold is_ascii_alphanumeric. intros ->. by rewrite orb_true_r. Qed.

Lemma alnum_not_whitespace c : is_ascii_alphanumeric c = true -> is_whitespace c = false.
Proof.
  unfold is_ascii_alphanumeric, is_ascii_alphabetic, is_ascii_upper, is_ascii_lower,
    is_ascii_digit, is_whitespace, in_range. lia.
Qed.

Lemma trim_alnum s : Forall (fun c => is_ascii_alphanumeric c = true) s -> trim s = s.
Proof. intros H. apply trim_none. eapply Forall_impl; [done|]. apply alnum_not_whitespace. Qed.

Lemma show_dec_alnum n : 0 <= n -> Forall (fun c => is_ascii_alphanumeric c = true) (show_dec n).
Proof. intros. apply show_radix_alnum; lia. Qed.

#[export] Hint Resolve alnum_ascii digit_alnum show_dec_alnum show_radix_alnum pad_zeros_alnum : nzbd.

(** ** Splitting *)

Lemma split_chars_none p w : Forall (fun c => p c = false) w -> split_chars p w = [w].
Proof. induction 1 as [|c w Hc Hw IH]; simpl; [done|]. by rewrite Hc, IH. Qed.

Lemma split_chars_app p w c rest : Forall (fun c => p c = false) w -> p c = true ->
  split_chars p (w ++ c :: rest) = w :: split_chars p rest.
Proof.
  intros Hw Hc. induction Hw as [|x w Hx Hw IH]; simpl; [by rewrite Hc|].
  by rewrite Hx, IH.
Qed.

Lemma find_char_app p k c v : Forall (fun x => p x = false) k -> p c = true ->
  find_char p (k ++ c :: v) = Some (length k).
Proof.
  intros Hk Hc. induction Hk as [|x k Hx Hk IH]; simpl; [by rewrite Hc|]. by rewrite Hx, IH.
Qed.

Lemma find_char_None p s : find_char p s = None <-> Forall (fun c => p c = false) s.
Proof.
  induction s as [|c s IH]; simpl; [split; [constructor|done]|].
  destruct (p c) eqn:E; split.
  - done.
  - intros [? ?]%Forall_cons. congruence.
  - intros ?%fmap_None. constructor; [done|]. by apply IH.
  - intros [_ ?]%Forall_cons. rewrite (proj2 IH) by done. done.
Qed.

Lemma utf8_encode_app s t : utf8_encode (s ++ t) = utf8_encode s ++ utf8_encode t.
Proof. unfold utf8_encode. by rewrite map_app, concat_app. Qed.

(** [s.trim_start_matches(a).trim_end_matches(b)]. *)
Lemma trim_ends_head p q s c : head (trim_end_matches q (trim_start_matches p s)) = Some c -> p c = false.
Proof.
  intros Hh. destruct (trim_end_prefix q (trim_start_matches p s)) as (l & Hl & _).
  apply (trim_start_head p s). rewrite Hl. by destruct (trim_end_matches _ _).
Qed.
