(* ===== verification/Crc32.v ===== *)
(** * CRC-32 combination ([crates/nzbd-yenc/src/lib.rs], [crc32_combine])

    The part CRCs of a download are merged into whole-file CRCs without reading
    the data again, by zlib's GF(2) matrix method.  This file models
    [gf2_matrix_times], [gf2_matrix_square] and [crc32_combine] over 32-bit
    words, and proves them equal to the bit-serial definition of CRC-32
    (IEEE 802.3), which is also the documented behaviour of the [crc32fast]
    hasher the decoder uses: the class [Crc32Hasher] below states it. *)

From S2P Require Import Prelude.

(** ** The reference: bit-serial CRC-32, reflected polynomial [0xEDB88320] *)

Definition POLY : Z := 0xEDB88320.

(** One zero bit through the register. *)
Definition crc_bit (c : Z) : Z :=
  if Z.testbit c 0 then Z.lxor (Z.shiftr c 1) POLY else Z.shiftr c 1.

Definition crc_bits (n : nat) (c : Z) : Z := Nat.iter n crc_bit c.

Definition crc_byte (c b : Z) : Z := crc_bits 8 (Z.lxor c b).

Definition crc_raw (c : Z) (bs : bytes) : Z := fold_left crc_byte bs c.

Definition crc32_ref (bs : bytes) : Z :=
  Z.lxor (crc_raw 0xFFFFFFFF bs) 0xFFFFFFFF.

Example crc32_ref_check : crc32_ref [49;50;51;52;53;54;55;56;57] = 0xCBF43926.
Proof. vm_compute. reflexivity. Qed.

(** ** The code *)

(** [while vec != 0 { if vec & 1 != 0 { sum ^= mat[i] } vec >>= 1; i += 1 }].
    The loop runs once per bit of a 32-bit [vec], so fuel 32 is enough
    ([gf2_fuel_enough]). *)
Fixpoint gf2_times_loop (fuel : nat) (mat : list Z) (vec : Z) (i : nat) (sum : Z) : Z :=
  match fuel with
  | O => sum
  | S fuel' =>
      if vec =? 0 then sum
      else
        let sum' := if negb (Z.land vec 1 =? 0) then Z.lxor sum (nth i mat 0) else sum in
        gf2_times_loop fuel' mat (Z.shiftr vec 1) (S i) sum'
  end.

Definition gf2_matrix_times (mat : list Z) (vec : Z) : Z :=
  gf2_times_loop 32 mat vec 0 0.

Definition gf2_matrix_square (mat : list Z) : list Z :=
  map (fun n => gf2_matrix_times mat (nth n mat 0)) (seq 0 32).

(** [odd[0] = 0xEDB8_8320; row = 1; for item in odd.skip(1) { *item = row; row <<= 1 }] *)
Definition one_zero_bit : list Z :=
  POLY :: map (fun n => Z.shiftl 1 (Z.of_nat n)) (seq 0 31).

(** The [loop]: each turn squares twice and consumes two bits of [len2]. *)
Fixpoint combine_loop (fuel : nat) (odd : list Z) (crc1 len2 : Z) : Z :=
  match fuel with
  | O => crc1
  | S fuel' =>
      let even := gf2_matrix_square odd in
      let crc1 := if negb (Z.land len2 1 =? 0) then gf2_matrix_times even crc1 else crc1 in
      let len2 := Z.shiftr len2 1 in
      if len2 =? 0 then crc1
      else
        let odd := gf2_matrix_square even in
        let crc1 := if negb (Z.land len2 1 =? 0) then gf2_matrix_times odd crc1 else crc1 in
        let len2 := Z.shiftr len2 1 in
        if len2 =? 0 then crc1 else combine_loop fuel' odd crc1 len2
  end.

Definition crc32_combine (crc1 crc2 len2 : Z) : Z :=
  if len2 =? 0 then crc1
  else
    let odd := one_zero_bit in
    let even := gf2_matrix_square odd in
    let odd := gf2_matrix_square even in
    Z.lxor (combine_loop 32 odd crc1 len2) crc2.

(** ** Words and linear maps over GF(2) *)

Definition word (v : Z) : Prop := 0 <= v < 2 ^ 32.

Definition linear (f : Z -> Z) : Prop :=
  forall a b, f (Z.lxor a b) = Z.lxor (f a) (f b).

(** Equations between xors, bit by bit. *)
Ltac xor_solve :=
  apply Z.bits_inj'; intros ? ?; rewrite ?Z.lxor_spec, ?Z.bits_0;
  repeat match goal with |- context [Z.testbit ?a ?n] => destruct (Z.testbit a n) end;
  reflexivity.

Lemma linear_0 f : linear f -> f 0 = 0.
Proof. intros Hf. rewrite <- (Z.lxor_nilpotent 0) at 1. by rewrite Hf, Z.lxor_nilpotent. Qed.

Lemma word_shiftr32 v : word v <-> 0 <= v /\ Z.shiftr v 32 = 0.
Proof.
  unfold word. rewrite Z.shiftr_div_pow2 by lia.
  change (2 ^ 32) with 4294967296.
  split; [intros; split; [lia | apply Z.div_small; lia] | intros [? H]].
  apply Z.div_small_iff in H; lia.
Qed.

Lemma word_lxor a b : word a -> word b -> word (Z.lxor a b).
Proof.
  rewrite !word_shiftr32. intros [??] [??]. split.
  - apply Z.lxor_nonneg; lia.
  - rewrite Z.shiftr_lxor. by rewrite H0, H2.
Qed.

Lemma word_shiftr v n : 0 <= n -> word v -> word (Z.shiftr v n).
Proof.
  unfold word. intros Hn Hv. split; [apply Z.shiftr_nonneg; lia|].
  rewrite Z.shiftr_div_pow2 by lia.
  apply Z.le_lt_trans with v; [|lia].
  apply Z.div_le_upper_bound; [apply Z.pow_pos_nonneg; lia|].
  assert (1 <= 2 ^ n) by (apply Z.lt_pred_le, Z.pow_pos_nonneg; lia). nia.
Qed.

Lemma crc_bit_alt c :
  crc_bit c = Z.lxor (Z.shiftr c 1) (if Z.testbit c 0 then POLY else 0).
Proof. unfold crc_bit. case_if; [done | by rewrite Z.lxor_0_r]. Qed.

Lemma crc_bit_linear : linear crc_bit.
Proof.
  intros a b. rewrite !crc_bit_alt, Z.shiftr_lxor, Z.lxor_spec.
  destruct (Z.testbit a 0), (Z.testbit b 0); simpl xorb; cbv iota; xor_solve.
Qed.

Lemma crc_bit_word c : word c -> word (crc_bit c).
Proof.
  intros Hc. rewrite crc_bit_alt. apply word_lxor; [by apply word_shiftr|].
  by case_if; vm_compute.
Qed.

Lemma crc_bits_linear n : linear (crc_bits n).
Proof. intros a b. induction n; simpl; [done | by rewrite IHn, crc_bit_linear]. Qed.

Lemma crc_bits_word n c : word c -> word (crc_bits n c).
Proof. intros. induction n; simpl; auto using crc_bit_word. Qed.

Lemma crc_bits_add m n c : crc_bits (m + n) c = crc_bits m (crc_bits n c).
Proof. induction m; simpl; congruence. Qed.

(** ** Matrices that represent a linear map *)

Definition represents (mat : list Z) (f : Z -> Z) : Prop :=
  forall i : nat, (i < 32)%nat -> nth i mat 0 = f (Z.shiftl 1 (Z.of_nat i)).

Lemma low_bit_split v i : 0 <= v ->
  Z.shiftl v (Z.of_nat i) =
  Z.lxor (Z.shiftl (Z.land v 1) (Z.of_nat i)) (Z.shiftl (Z.shiftr v 1) (Z.of_nat (S i))).
Proof.
  intros Hv.
  assert (Hsplit : v = Z.lxor (Z.land v 1) (Z.shiftl (Z.shiftr v 1) 1)).
  { apply Z.bits_inj'. intros n Hn. rewrite Z.lxor_spec, Z.land_spec, Z.shiftl_spec by lia.
    destruct (Z.eq_dec n 0) as [->|].
    - rewrite (Z.testbit_neg_r _ (0 - 1)) by lia.
      change (Z.testbit 1 0) with true. by rewrite andb_true_r, xorb_false_r.
    - replace (Z.testbit 1 n) with false.
      2:{ symmetry. change 1 with (2 ^ 0). apply Z.pow2_bits_false. lia. }
      rewrite andb_false_r, xorb_false_l, Z.shiftr_spec by lia. f_equal. lia. }
  rewrite Hsplit at 1. rewrite Z.shiftl_lxor, Z.shiftl_shiftl by lia.
  do 2 f_equal. lia.
Qed.

Lemma land_1_cases v : Z.land v 1 = 0 \/ Z.land v 1 = 1.
Proof.
  replace (Z.land v 1) with (v mod 2 ^ 1) by (rewrite <- Z.land_ones by lia; done).
  change (2 ^ 1) with 2. pose proof (Z.mod_pos_bound v 2). lia.
Qed.

Lemma half_bound v n :
  0 <= v < 2 ^ Z.of_nat (S n) -> 0 <= Z.shiftr v 1 < 2 ^ Z.of_nat n.
Proof.
  rewrite Nat2Z.inj_succ, Z.pow_succ_r by lia. intros.
  split; [apply Z.shiftr_nonneg; lia|].
  rewrite Z.shiftr_div_pow2 by lia. apply Z.div_lt_upper_bound; lia.
Qed.

Lemma gf2_times_loop_spec mat f : linear f -> represents mat f ->
  forall fuel vec i sum, 0 <= vec < 2 ^ Z.of_nat fuel -> (fuel + i <= 32)%nat ->
  gf2_times_loop fuel mat vec i sum = Z.lxor sum (f (Z.shiftl vec (Z.of_nat i))).
Proof.
  intros Hlin Hrep. induction fuel as [|fuel IH]; intros vec i sum Hvec Hi; simpl.
  - assert (vec = 0) as -> by (simpl in Hvec; lia).
    by rewrite Z.shiftl_0_l, linear_0, Z.lxor_0_r.
  - destruct (vec =? 0) eqn:E; bool_hyps.
    { subst. by rewrite Z.shiftl_0_l, linear_0, Z.lxor_0_r. }
    rewrite IH by (lia || by apply half_bound).
    rewrite (low_bit_split vec i), Hlin by lia.
    destruct (land_1_cases vec) as [->| ->]; simpl.
    + by rewrite Z.shiftl_0_l, linear_0, Z.lxor_0_l.
    + rewrite Hrep by lia. by rewrite Z.lxor_assoc.
Qed.

Lemma gf2_matrix_times_spec mat f v :
  linear f -> represents mat f -> word v -> gf2_matrix_times mat v = f v.
Proof.
  intros Hl Hr Hv. unfold gf2_matrix_times.
  rewrite (gf2_times_loop_spec mat f) by done.
  by rewrite Z.lxor_0_l, Z.shiftl_0_r.
Qed.

(** More fuel than 32 changes nothing: the code's [while] has ended. *)
Lemma gf2_fuel_enough mat v k : word v ->
  gf2_times_loop (32 + k) mat v 0 0 = gf2_times_loop 32 mat v 0 0.
Proof.
  unfold word. intros Hv.
  enough (H : forall fuel vec i sum, 0 <= vec < 2 ^ Z.of_nat fuel ->
    gf2_times_loop (fuel + k) mat vec i sum = gf2_times_loop fuel mat vec i sum)
    by (by apply H).
  clear. induction fuel as [|fuel IH]; intros vec i sum Hvec; simpl.
  - assert (vec = 0) as -> by (simpl in Hvec; lia). by destruct k.
  - case_if; [done|]. by apply IH, half_bound.
Qed.

Lemma word_basis i : (i < 32)%nat -> word (Z.shiftl 1 (Z.of_nat i)).
Proof.
  intros Hi. unfold word. rewrite Z.shiftl_1_l. split; [lia|].
  apply Z.pow_lt_mono_r; lia.
Qed.

Lemma represents_square mat n :
  represents mat (crc_bits n) -> represents (gf2_matrix_square mat) (crc_bits (n + n)).
Proof.
  intros Hr i Hi. unfold gf2_matrix_square.
  rewrite nth_indep with (d' := gf2_matrix_times mat (nth 0 mat 0))
    by (rewrite length_map, length_seq; lia).
  rewrite (map_nth (fun n => gf2_matrix_times mat (nth n mat 0)) (seq 0 32) 0%nat i), seq_nth by lia.
  simpl. rewrite Hr by lia.
  rewrite (gf2_matrix_times_spec mat (crc_bits n)); auto using crc_bits_linear, crc_bits_word, word_basis.
  by rewrite crc_bits_add.
Qed.

Lemma represents_one_zero_bit : represents one_zero_bit (crc_bits 1).
Proof.
  intros i Hi. do 32 (destruct i as [|i]; [vm_compute; reflexivity|]). lia.
Qed.

Lemma shiftr1_half v : 0 <= v -> v = Z.land v 1 + 2 * Z.shiftr v 1.
Proof.
  intros. rewrite Z.shiftr_div_pow2 by lia.
  replace (Z.land v 1) with (v mod 2 ^ 1) by (rewrite <- Z.land_ones by lia; done).
  change (2 ^ 1) with 2. pose proof (Z.div_mod v 2). lia.
Qed.

(** One turn's conditional multiplication. *)
Lemma apply_low_bit mat n c v :
  represents mat (crc_bits n) -> word c -> 0 <= v ->
  (if negb (Z.land v 1 =? 0) then gf2_matrix_times mat c else c) =
  crc_bits (n * Z.to_nat (Z.land v 1)) c.
Proof.
  intros Hr Hc Hv. destruct (land_1_cases v) as [->| ->]; simpl.
  - by rewrite Nat.mul_0_r.
  - rewrite (gf2_matrix_times_spec mat (crc_bits n)); auto using crc_bits_linear.
    change (Z.to_nat 1) with 1%nat. by rewrite Nat.mul_1_r.
Qed.

Lemma combine_loop_spec fuel odd n c len2 :
  represents odd (crc_bits n) -> word c -> 0 < len2 < 4 ^ Z.of_nat fuel ->
  combine_loop fuel odd c len2 = crc_bits (2 * n * Z.to_nat len2) c.
Proof.
  revert odd n c len2. induction fuel as [|fuel IH]; intros odd n c len2 Hr Hc Hlen.
  { simpl in Hlen. lia. }
  pose proof (represents_square _ _ Hr) as Hr2.
  pose proof (represents_square _ _ Hr2) as Hr4.
  assert (Hs : 0 <= Z.shiftr len2 1) by (apply Z.shiftr_nonneg; lia).
  pose proof (shiftr1_half len2 ltac:(lia)) as H1.
  pose proof (shiftr1_half (Z.shiftr len2 1) ltac:(lia)) as H2.
  assert (Hs2 : 0 <= Z.shiftr (Z.shiftr len2 1) 1) by (apply Z.shiftr_nonneg; lia).
  pose proof (land_1_cases len2). pose proof (land_1_cases (Z.shiftr len2 1)).
  rewrite Nat2Z.inj_succ, Z.pow_succ_r in Hlen by lia.
  simpl. rewrite (apply_low_bit _ _ _ _ Hr2) by (done || lia).
  case_if; bool_hyps.
  { f_equal. nia. }
  rewrite (apply_low_bit _ _ _ _ Hr4) by (auto using crc_bits_word || lia).
  rewrite <- crc_bits_add.
  case_if; bool_hyps.
  { f_equal. nia. }
  rewrite (IH _ _ _ _ Hr4) by (auto using crc_bits_word || lia).
  rewrite <- crc_bits_add. f_equal. nia.
Qed.

(** ** CRC of a concatenation *)

Lemma crc_byte_linear a b x y :
  crc_byte (Z.lxor a b) (Z.lxor x y) = Z.lxor (crc_byte a x) (crc_byte b y).
Proof.
  unfold crc_byte. rewrite <- crc_bits_linear. f_equal. xor_solve.
Qed.

Lemma crc_raw_app c l1 l2 : crc_raw c (l1 ++ l2) = crc_raw (crc_raw c l1) l2.
Proof. apply fold_left_app. Qed.

Lemma crc_raw_shift c d l :
  crc_raw (Z.lxor c d) l = Z.lxor (crc_raw c l) (crc_bits (8 * length l) d).
Proof.
  revert c d. induction l as [|b l IH]; intros c d; [done|].
  simpl crc_raw. rewrite <- (Z.lxor_0_r b) at 1.
  rewrite crc_byte_linear, IH. f_equal.
  unfold crc_byte. rewrite Z.lxor_0_r, <- crc_bits_add. f_equal. simpl; lia.
Qed.

Lemma crc_byte_word c b : word c -> is_u8 b -> word (crc_byte c b).
Proof.
  intros Hc Hb. apply crc_bits_word, word_lxor; [done|].
  unfold is_u8, u8_max, word in *. lia.
Qed.

Lemma crc_raw_word c l : word c -> Forall is_u8 l -> word (crc_raw c l).
Proof.
  intros Hc Hl. revert c Hc. induction Hl; intros c Hc; simpl; auto using crc_byte_word.
Qed.

Lemma crc32_ref_word l : Forall is_u8 l -> word (crc32_ref l).
Proof. intros. apply word_lxor; [apply crc_raw_word; [|done]|]; unfold word; lia. Qed.

(** The combination computes the CRC register after [8 * len2] zero bits. *)
Lemma crc32_combine_spec c1 c2 len2 :
  word c1 -> 0 < len2 <= u64_max ->
  crc32_combine c1 c2 len2 = Z.lxor (crc_bits (8 * Z.to_nat len2) c1) c2.
Proof.
  intros Hc Hlen. unfold crc32_combine. case_if; [lia|].
  rewrite (combine_loop_spec 32 _ 4); [done| |done|unfold u64_max in Hlen; change (4 ^ Z.of_nat 32) with 18446744073709551616; lia].
  apply (represents_square _ 2), (represents_square _ 1), represents_one_zero_bit.
Qed.

Lemma crc32_combine_aux (l1 l2 : bytes) :
  Forall is_u8 l1 -> Z.of_nat (length l2) <= u64_max ->
  crc32_combine (crc32_ref l1) (crc32_ref l2) (Z.of_nat (length l2)) = crc32_ref (l1 ++ l2).
Proof.
  intros H1 H2. destruct l2 as [|b l2']; [by rewrite app_nil_r|].
  set (l2 := b :: l2') in *.
  rewrite crc32_combine_spec by (auto using crc32_ref_word; subst l2; simpl in *; lia).
  rewrite Nat2Z.id. unfold crc32_ref. rewrite crc_raw_app.
  rewrite <- (Z.lxor_0_l (crc_raw 0xFFFFFFFF l1)) at 2.
  rewrite <- (Z.lxor_0_l 0xFFFFFFFF) at 3.
  rewrite !crc_raw_shift, crc_bits_linear. xor_solve.
Qed.

(** C34: merging part CRCs is exact.  For any two byte ranges [l1] and [l2] (the
    second at most [u64::MAX] bytes long), [crc32_combine] applied to their
    CRC-32s and the length of the second is the CRC-32 of their concatenation,
    so the whole-file CRC kept by the engine equals the one a full re-read of
    the file would compute. *)
Theorem crc32_combine_correct (l1 l2 : bytes) :
  Forall is_u8 l1 -> Z.of_nat (length l2) <= u64_max ->
  crc32_combine (crc32_ref l1) (crc32_ref l2) (Z.of_nat (length l2)) = crc32_ref (l1 ++ l2).
Proof. apply crc32_combine_aux. Qed.

Lemma crc32_combine_correct_witness :
  crc32_combine (crc32_ref [1;2;3]) (crc32_ref [255;0]) 2 = crc32_ref [1;2;3;255;0].
Proof.
  apply (crc32_combine_correct [1;2;3] [255;0]).
  - repeat constructor; vm_compute; discriminate.
  - vm_compute. discriminate.
Defined.

(** ** The hasher interface

    [crc32fast::Hasher] is a library; what the code relies on is that feeding
    chunks and finalizing gives the CRC-32 of their concatenation. *)
Class Crc32Hasher (H : Type) := {
  hasher_new : H;
  hasher_update : H -> bytes -> H;
  hasher_finalize : H -> Z;
  hasher_clone_finalize : forall chunks : list bytes,
    hasher_finalize (fold_left hasher_update chunks hasher_new) = crc32_ref (concat chunks)
}.

(** The bit-serial register itself is a hasher. *)
Lemma crc_raw_chunks c (chunks : list bytes) :
  fold_left crc_raw chunks c = crc_raw c (concat chunks).
Proof.
  revert c. induction chunks as [|l chunks IH]; intros c; [done|].
  simpl. by rewrite crc_raw_app, IH.
Qed.

#[export] Instance crc32_ref_hasher : Crc32Hasher Z := {
  hasher_new := 0xFFFFFFFF;
  hasher_update := crc_raw;
  hasher_finalize := fun c => Z.lxor c 0xFFFFFFFF;
  hasher_clone_finalize := fun chunks =>
    f_equal (fun c => Z.lxor c 0xFFFFFFFF) (crc_raw_chunks 0xFFFFFFFF chunks)
}.
