(* ===== verification/Types.v ===== *)
(** * The domain model ([crates/nzbd-types/src/lib.rs])

    Jobs, files, segments, servers and torrents as the queue owns them, the
    byte accounting of a job, and NZBGet's per-mille health formulas.  Strings
    are [str], [u8]..[u64] and [i64] are [Z], [f64] is the executable IEEE 754
    model of the standard library, a [PathBuf] is its text. *)

From S2P Require Import Prelude RustStr.
From Stdlib Require Import SpecFloat.

Abbreviation f64 := spec_float.

(** Identifiers are transparent [u32] newtypes. *)
Abbreviation JobId := Z.
Abbreviation FileId := Z.
Abbreviation ServerId := Z.

Definition PRIORITY_FORCE : Z := 900.

(** ** Torrents *)

Inductive JobKind := JobKind_Nzb | JobKind_Url | JobKind_Torrent.

Inductive TorrentSource := TS_Metainfo | TS_Magnet | TS_Url.

Inductive TorrentPhase :=
| FetchingSource | FetchingMetadata | TP_Queued | Checking | TP_Downloading
| Seeding | PausedDownload | PausedSeed | MissingFiles | TP_Failed.

Inductive TorrentControlIntent := TCI_Running | TCI_Paused.

Record TorrentRemovalIntent := { delete_data : bool }.

Inductive TorrentPayloadDisposition := Retained | PayloadDeleted.

Inductive TorrentStopReason :=
| Manual | DownloadComplete | RatioLimit | TimeLimit | StorageFull.

Record SeedPolicy := {
  stop_on_complete : bool;
  ratio_limit : option f64;
  time_limit_secs : option Z
}.

Record TorrentFileRecord := {
  tf_path : str;
  tf_length : Z;
  tf_selected : bool;
  tf_downloaded_bytes : Z
}.

Record TorrentRecord := {
  info_hash_v1 : str;
  source : TorrentSource;
  metadata_file : str;
  payload_root : str;
  phase : TorrentPhase;
  control_intent : TorrentControlIntent;
  removal_intent : option TorrentRemovalIntent;
  removal_outcome : option TorrentPayloadDisposition;
  removal_confirmed_at_unix : option Z;
  torrent_files : list TorrentFileRecord;
  total_bytes : Z;
  selected_bytes : Z;
  downloaded_bytes : Z;
  uploaded_bytes : Z;
  seeding_seconds : Z;
  torrent_ready_at_unix : option Z;
  content_path : option str;
  seed_policy : SeedPolicy;
  stop_reason : option TorrentStopReason;
  last_activity_unix : option Z;
  last_error : option str
}.

#[export] Instance JobKind_eq_dec : EqDecision JobKind.
Proof. solve_decision. Defined.
#[export] Instance TorrentPhase_eq_dec : EqDecision TorrentPhase.
Proof. solve_decision. Defined.
#[export] Instance TorrentControlIntent_eq_dec : EqDecision TorrentControlIntent.
Proof. solve_decision. Defined.

(** [TorrentPhase::wants_download_slot]. *)
Definition phase_wants_download_slot (p : TorrentPhase) : bool :=
  match p with
  | FetchingSource | FetchingMetadata | TP_Queued | Checking | TP_Downloading => true
  | _ => false
  end.

(** ** Jobs, files, segments *)

Inductive DupeMode := DupeScore | DupeAll | DupeForce.

Record DupeInfo := { dupe_key : str; dupe_score : Z; dupe_mode : option DupeMode }.
Definition DupeInfo_default : DupeInfo := {| dupe_key := []; dupe_score := 0; dupe_mode := None |}.

Record JobTotals := {
  size : Z;
  par_size : Z;
  failed_size : Z;
  failed_par_size : Z;
  success_size : Z;
  total_articles : Z;
  success_articles : Z;
  failed_articles : Z
}.
Definition JobTotals_default : JobTotals := {|
  size := 0; par_size := 0; failed_size := 0; failed_par_size := 0; success_size := 0;
  total_articles := 0; success_articles := 0; failed_articles := 0
|}.

Inductive SegmentState :=
| Pending
| Leased (server : ServerId)
| Done (offset len crc : Z)
| Failed.

Definition is_pending (s : SegmentState) : bool := match s with Pending => true | _ => false end.
Definition is_leased (s : SegmentState) : bool := match s with Leased _ => true | _ => false end.
Definition is_done (s : SegmentState) : bool := match s with Done _ _ _ => true | _ => false end.
Definition is_failed (s : SegmentState) : bool := match s with Failed => true | _ => false end.

Record Segment := {
  message_id : str;
  number : Z;
  seg_size : Z;
  state : SegmentState
}.

Record FileEntry := {
  file_id : FileId;
  subject : str;
  filename : str;
  filename_confirmed : bool;
  is_par2 : bool;
  paused : bool;
  groups : list str;
  date : option Z;
  segments : list Segment;
  file_crc32 : option Z;
  finalized : bool
}.

(** [FileEntry::is_terminal], [done_segments], [has_any_done]. *)
Definition is_terminal (f : FileEntry) : bool :=
  forallb (fun s => is_done (state s) || is_failed (state s)) (segments f).
Definition done_segments (f : FileEntry) : nat :=
  length (List.filter (fun s => is_done (state s)) (segments f)).
Definition has_any_done (f : FileEntry) : bool :=
  existsb (fun s => is_done (state s)) (segments f).

(** ** Servers *)

Inductive TlsMode := TlsMode_None | TlsMode_Tls.
Inductive CertLevel := Cert_None | Cert_Minimal | Cert_Strict.

Record ServerDef := {
  server_id : ServerId;
  server_name : str;
  host : str;
  port : Z;
  tls : TlsMode;
  username : option str;
  password : option str;
  active : bool;
  tier : Z;
  group : Z;
  fill : bool;
  max_connections : Z;
  pipeline_depth : Z;
  retention_days : Z;
  cert_verification : CertLevel
}.

(** ** Job status *)

Inductive PostStage :=
| ParRename | ParVerify | ParRepair | RarRename | Unpack | Cleanup | Move
| PostUnpackRename | Script.

(** [PostStage::as_str] and [PostStage::ALL]. *)
Definition PostStage_as_str (s : PostStage) : str :=
  match s with
  | ParRename => lit "par_rename"
  | ParVerify => lit "par_verify"
  | ParRepair => lit "par_repair"
  | RarRename => lit "rar_rename"
  | Unpack => lit "unpack"
  | Cleanup => lit "cleanup"
  | Move => lit "move"
  | PostUnpackRename => lit "post_unpack_rename"
  | Script => lit "script"
  end.

Definition PostStage_ALL : list PostStage :=
  [ParRename; ParVerify; ParRepair; RarRename; Unpack; Cleanup; Move; PostUnpackRename; Script].

Inductive JobStatus :=
| JS_Queued | JS_Downloading | JS_Paused | JS_Fetching | JS_PostQueued
| JS_Post (stage : PostStage) | JS_Completed | JS_Failed | JS_Deleted.

#[export] Instance PostStage_eq_dec : EqDecision PostStage.
Proof. solve_decision. Defined.
#[export] Instance JobStatus_eq_dec : EqDecision JobStatus.
Proof. solve_decision. Defined.

Record StageSpan := { stage : PostStage; started_at_unix : Z; span_ms : option Z }.

Definition PP_DONE_PARAM : str := lit "*PP:done".

Record Job := {
  job_id : JobId;
  kind : JobKind;
  name : str;
  dir_name : str;
  name_provisional : bool;
  queued_at_unix : Z;
  original_name : str;
  category : option str;
  priority : Z;
  dupe : DupeInfo;
  params : list (str * str);
  files : list FileEntry;
  totals : JobTotals;
  status : JobStatus;
  torrent : option TorrentRecord;
  stages : list StageSpan
}.

Definition force_priority (j : Job) : bool := PRIORITY_FORCE <=? priority j.

Definition ready_at_unix (j : Job) : option Z := torrent j ≫= torrent_ready_at_unix.

Definition ready (j : Job) : bool :=
  match kind j with
  | JobKind_Torrent => bool_decide (is_Some (ready_at_unix j))
  | JobKind_Nzb | JobKind_Url =>
      existsb (fun '(k, v) => bool_decide (k = PP_DONE_PARAM) && bool_decide (v = lit "SUCCESS"))
        (params j)
  end.

(** ** Health, per mille ([Health::calc], [Health::calc_critical]) *)

Definition Health_PERFECT : Z := 1000.

Definition calc (t : JobTotals) : Z :=
  let non_par_failed := sat_sub (failed_size t) (failed_par_size t) in
  if non_par_failed =? 0 then Health_PERFECT
  else
    let denom := sat_sub (size t) (par_size t) in
    if denom =? 0 then 0
    else
      let raw := sat_mul64 (sat_sub denom non_par_failed) 1000 / denom in
      Z.min raw 999.

Definition calc_critical (t : JobTotals) (allow_estimation : bool) : Z :=
  let good_par := sat_sub (par_size t) (failed_par_size t) in
  if (size t =? 0) || (size t <=? sat_mul64 good_par 2) then 0
  else
    let denom := size t - good_par in
    let raw := sat_mul64 (size t - 2 * good_par) 1000 / denom in
    let raw := Z.min raw 1000 in
    if (raw =? 1000) && allow_estimation then 850 else raw.

(** ** Health theorems *)

(** The accounting a job can be in: nested sizes, within [u64]. *)
Record totals_wf (t : JobTotals) : Prop := {
  wf_par : 0 <= par_size t <= size t;
  wf_size : size t <= u64_max;
  wf_failed_par : 0 <= failed_par_size t <= par_size t;
  wf_failed : failed_par_size t <= failed_size t;
  wf_nonpar : failed_size t - failed_par_size t <= size t - par_size t
}.

(** health is a per-mille figure, and perfect exactly when no byte outside
    the recovery data failed.  For every accounting in [u64], [Health::calc]
    lies in [0..=1000], it is 1000 iff no non-par byte failed, and otherwise
    (below the saturation point) it is the floor of the exact ratio capped at
    999, so a damaged job is never reported as perfect. *)
Theorem health_calc_spec t : totals_wf t ->
  (0 <= calc t <= 1000) /\
  (calc t = 1000 <-> failed_size t = failed_par_size t) /\
  (failed_size t <> failed_par_size t -> 1000 * size t <= u64_max ->
   let d := size t - par_size t in
   calc t = Z.min 999 ((d - (failed_size t - failed_par_size t)) * 1000 / d)).
Proof.
  intros [H1 H2 H3 H4 H5]. unfold calc, Health_PERFECT, sat_sub, sat_mul64.
  destruct (Z.max 0 (failed_size t - failed_par_size t) =? 0) eqn:E1; bool_hyps.
  { split_and!; [lia|lia|lia|lia]. }
  destruct (Z.max 0 (size t - par_size t) =? 0) eqn:E2; bool_hyps; [lia|].
  rewrite !Z.max_r by lia.
  set (d := size t - par_size t) in *. set (f := failed_size t - failed_par_size t) in *.
  split_and!.
  - apply Z.min_glb; [|lia]. apply Z.div_pos; unfold u64_max in *; lia.
  - lia.
  - lia.
  - intros _ Hs. cbv zeta. rewrite Z.min_comm. f_equal. f_equal. apply Z.min_r. nia.
Qed.

Lemma health_calc_spec_witness :
  let t := {| size := 1000; par_size := 100; failed_size := 60; failed_par_size := 10;
              success_size := 900; total_articles := 10; success_articles := 9;
              failed_articles := 1 |} in
  (0 <= calc t <= 1000) /\ (calc t = 1000 <-> failed_size t = failed_par_size t) /\
  (failed_size t <> failed_par_size t -> 1000 * size t <= u64_max ->
   let d := size t - par_size t in
   calc t = Z.min 999 ((d - (failed_size t - failed_par_size t)) * 1000 / d)).
Proof. intros t. apply (health_calc_spec t). constructor; unfold t, u64_max; simpl; lia. Defined.

(** Both formulas are floors of the same shape, so they compare as the
    damage compares with the intact recovery data. *)
Lemma per_mille_mono d f g : 0 < d -> 0 <= f <= g -> g <= d -> (d - g) * 1000 / d <= (d - f) * 1000 / d.
Proof. intros. apply Z.div_le_mono; lia. Qed.

(** When all the recovery data arrived and the failed bytes do not exceed it,
    the health is at least the critical health, with or without the estimation
    fallback. *)
Lemma repairable_not_critical_aux t est : totals_wf t -> 1000 * size t <= u64_max ->
  failed_par_size t = 0 -> failed_size t <= par_size t ->
  calc_critical t est <= calc t.
Proof.
  intros [H1 H2 H3 H4 H5] Hs H0 Hrep. unfold calc_critical, calc, Health_PERFECT, sat_sub, sat_mul64.
  rewrite H0, !Z.sub_0_r, (Z.max_r 0 (par_size t)), (Z.max_r 0 (failed_size t)) by lia.
  set (S := size t) in *. set (P := par_size t) in *. set (F := failed_size t) in *.
  assert (Hcrit : forall x, (if (x =? 1000) && est then 850 else x) <= x \/ x < 850)
    by (intros; case_if; bool_hyps; lia).
  destruct ((S =? 0) || (S <=? Z.min u64_max (P * 2))) eqn:E.
  { destruct (F =? 0) eqn:?; [lia|]. rewrite Z.max_r by lia.
    destruct (S - P =? 0) eqn:?; [lia|].
    apply Z.min_glb; [|lia]. apply Z.div_pos; unfold u64_max in *; lia. }
  apply orb_false_iff in E as [E1 E2]; bool_hyps.
  assert (HP : 2 * P < S) by (unfold u64_max in *; lia).
  rewrite !(Z.max_r 0 (S - P)), (Z.min_r u64_max ((S - 2 * P) * 1000)) by nia.
  destruct (F =? 0) eqn:EF; bool_hyps.
  { case_if; lia. }
  rewrite (proj2 (Z.eqb_neq (S - P) 0)) by lia.
  rewrite (Z.max_r 0 (S - P - F)), (Z.min_r u64_max) by nia.
  pose proof (per_mille_mono (S - P) F P ltac:(lia) ltac:(lia) ltac:(lia)) as Hm.
  replace (S - P - P) with (S - 2 * P) in Hm by lia.
  assert (Hlt : (S - 2 * P) * 1000 / (S - P) < 1000)
    by (apply Z.div_lt_upper_bound; lia).
  case_if; bool_hyps; lia.
Qed.

(** ** Field updates of a job *)

Definition set_naming (nm dir orig : str) (prov : bool) (j : Job) : Job := {|
  job_id := job_id j; kind := kind j; name := nm; dir_name := dir; name_provisional := prov;
  queued_at_unix := queued_at_unix j; original_name := orig; category := category j;
  priority := priority j; dupe := dupe j; params := params j; files := files j;
  totals := totals j; status := status j; torrent := torrent j; stages := stages j |}.

Definition set_dir_name (dir : str) (j : Job) : Job :=
  set_naming (name j) dir (original_name j) (name_provisional j) j.

Definition set_work (fs : list FileEntry) (t : JobTotals) (st : JobStatus) (tr : option TorrentRecord)
    (j : Job) : Job := {|
  job_id := job_id j; kind := kind j; name := name j; dir_name := dir_name j;
  name_provisional := name_provisional j; queued_at_unix := queued_at_unix j;
  original_name := original_name j; category := category j; priority := priority j;
  dupe := dupe j; params := params j; files := fs; totals := t; status := st; torrent := tr;
  stages := stages j |}.

Definition set_files (fs : list FileEntry) (j : Job) : Job :=
  set_work fs (totals j) (status j) (torrent j) j.
Definition set_totals (t : JobTotals) (j : Job) : Job :=
  set_work (files j) t (status j) (torrent j) j.
Definition set_status (st : JobStatus) (j : Job) : Job :=
  set_work (files j) (totals j) st (torrent j) j.
Definition set_torrent (tr : option TorrentRecord) (j : Job) : Job :=
  set_work (files j) (totals j) (status j) tr j.

Definition set_asked (cat : option str) (ps : list (str * str)) (j : Job) : Job := {|
  job_id := job_id j; kind := kind j; name := name j; dir_name := dir_name j;
  name_provisional := name_provisional j; queued_at_unix := queued_at_unix j;
  original_name := original_name j; category := cat; priority := priority j;
  dupe := dupe j; params := ps; files := files j; totals := totals j; status := status j;
  torrent := torrent j; stages := stages j |}.
