(* ===== verification/Yenc.v ===== *)
(** * The incremental yEnc decoder ([crates/nzbd-yenc/src/lib.rs])

    The decoder's record, [push], [take_line], [body_byte], [take_result] and
    the header and trailer parsers, and the encoder of the mock server
    ([crates/nzbd-nserv/src/lib.rs], [yenc_wire]) as the reference producer.
    The theorems: decoding does not depend on how the byte stream is cut into
    reads, and it inverts the encoder.  The CRC hasher is the interface
    [Crc32Hasher] of the file [Crc32]. *)

From S2P Require Import Prelude RustStr Crc32.

(** ** Data *)

Inductive YencError :=
| NotYenc (msg : str)
| Malformed (msg : str)
| PrematureEnd.

Record YencHeader := {
  h_name : str;
  h_size : Z;
  h_part : option Z;
  h_total : option Z;
  h_begin : option Z;
  h_end : option Z
}.
Definition YencHeader_default : YencHeader := {|
  h_name := []; h_size := 0; h_part := None; h_total := None; h_begin := None; h_end := None |}.

Record YencTrailer := {
  t_size : Z;
  t_part : option Z;
  t_pcrc32 : option Z;
  t_crc32 : option Z
}.
Definition YencTrailer_default : YencTrailer := {|
  t_size := 0; t_part := None; t_pcrc32 := None; t_crc32 := None |}.

Record DecodeResult := {
  r_header : YencHeader;
  r_trailer : YencTrailer;
  r_offset : Z;
  r_decoded_len : Z;
  r_crc32 : Z;
  r_crc_ok : option bool;
  r_len_ok : bool
}.

Inductive Status := NeedMore | Finished.
Inductive State := Pre | ExpectPart | Body | Control | Drain.

Definition MAX_LINE : Z := 8192.

(** [lines], fields and numbers of the control lines. *)
Definition position (p : Z -> bool) (s : bytes) : option nat := find_char p s.

Definition kv_fields (line : bytes) : list (bytes * bytes) :=
  omap (fun tok =>
    match position (fun b => b =? 61) tok with
    | None => None
    | Some eq => Some (take eq tok, drop (S eq) tok)
    end) (split_chars (fun b => b =? 32) line).

Definition parse_u64 (v : bytes) : option Z :=
  match from_utf8 v with
  | None => None
  | Some s => parse_uint 10 u64_max (trim s)
  end.

Definition parse_hex32 (v : bytes) : option Z :=
  match from_utf8 v with
  | None => None
  | Some s => parse_uint 16 u32_max (trim s)
  end.

(** [find_subslice]: the slice before the first occurrence and the one after. *)
Definition find_subslice (hay needle : bytes) : option (bytes * bytes) :=
  split_at_first needle hay.

Definition ok_or {A} (o : option A) (e : YencError) : result A YencError :=
  match o with Some a => Ok a | None => Err e end.

Definition begin_field (h : YencHeader) (kv : bytes * bytes) : result YencHeader YencError :=
  let '(k, v) := kv in
  if bool_decide (k = lit "size") then
    let? n := ok_or (parse_u64 v) (Malformed (lit "bad size")) in
    Ok {| h_name := h_name h; h_size := n; h_part := h_part h; h_total := h_total h;
          h_begin := h_begin h; h_end := h_end h |}
  else if bool_decide (k = lit "part") then
    let? n := ok_or (parse_u64 v) (Malformed (lit "bad part")) in
    Ok {| h_name := h_name h; h_size := h_size h; h_part := Some (wrap32 n); h_total := h_total h;
          h_begin := h_begin h; h_end := h_end h |}
  else if bool_decide (k = lit "total") then
    Ok {| h_name := h_name h; h_size := h_size h; h_part := h_part h;
          h_total := wrap32 <$> parse_u64 v; h_begin := h_begin h; h_end := h_end h |}
  else Ok h.

Fixpoint fold_result {A B E} (f : A -> B -> result A E) (a : A) (l : list B) : result A E :=
  match l with
  | [] => Ok a
  | b :: l' => let? a' := f a b in fold_result f a' l'
  end.

Definition parse_begin (line : bytes) : result YencHeader YencError :=
  let '(attrs, nm) :=
    match find_subslice line (lit " name=") with
    | Some (a, n) => (a, n)
    | None => (line, [])
    end in
  let h := {| h_name := trim (from_utf8_lossy nm); h_size := 0; h_part := None; h_total := None;
              h_begin := None; h_end := None |} in
  let? h := fold_result begin_field h (kv_fields attrs) in
  if h_size h =? 0 then Err (Malformed (lit "=ybegin without size")) else Ok h.

Definition part_field (be : option Z * option Z) (kv : bytes * bytes) : option Z * option Z :=
  let '(k, v) := kv in
  if bool_decide (k = lit "begin") then (parse_u64 v, snd be)
  else if bool_decide (k = lit "end") then (fst be, parse_u64 v)
  else be.

Definition parse_part (line : bytes) : result (Z * Z) YencError :=
  match fold_left part_field (kv_fields line) (None, None) with
  | (Some b, Some e) =>
      if (1 <=? b) && (b <=? e) then Ok (b, e) else Err (Malformed (lit "bad =ypart range"))
  | _ => Err (Malformed (lit "bad =ypart range"))
  end.

Definition end_field (t : YencTrailer) (kv : bytes * bytes) : result YencTrailer YencError :=
  let '(k, v) := kv in
  if bool_decide (k = lit "size") then
    let? n := ok_or (parse_u64 v) (Malformed (lit "bad =yend size")) in
    Ok {| t_size := n; t_part := t_part t; t_pcrc32 := t_pcrc32 t; t_crc32 := t_crc32 t |}
  else if bool_decide (k = lit "part") then
    Ok {| t_size := t_size t; t_part := wrap32 <$> parse_u64 v; t_pcrc32 := t_pcrc32 t;
          t_crc32 := t_crc32 t |}
  else if bool_decide (k = lit "pcrc32") then
    Ok {| t_size := t_size t; t_part := t_part t; t_pcrc32 := parse_hex32 v;
          t_crc32 := t_crc32 t |}
  else if bool_decide (k = lit "crc32") then
    Ok {| t_size := t_size t; t_part := t_part t; t_pcrc32 := t_pcrc32 t;
          t_crc32 := parse_hex32 v |}
  else Ok t.

Definition parse_end (line : bytes) : result YencTrailer YencError :=
  fold_result end_field YencTrailer_default (kv_fields line).

(** ** The decoder *)

Section Decoder.
Context {H : Type} {crc : Crc32Hasher H}.

Record YencDecoder := mkDecoder {
  d_state : State;
  line_buf : bytes;
  d_header : YencHeader;
  d_trailer : YencTrailer;
  hasher : H;
  decoded_len : Z;
  esc : bool;
  at_line_start : bool;
  pending_eq : bool;
  dot : Z;
  finished : bool
}.

Definition decoder_new : YencDecoder := {|
  d_state := Pre; line_buf := []; d_header := YencHeader_default;
  d_trailer := YencTrailer_default; hasher := hasher_new; decoded_len := 0;
  esc := false; at_line_start := true; pending_eq := false; dot := 0; finished := false |}.

Definition set_state (s : State) (d : YencDecoder) : YencDecoder :=
  mkDecoder s (line_buf d) (d_header d) (d_trailer d) (hasher d) (decoded_len d)
    (esc d) (at_line_start d) (pending_eq d) (dot d) (finished d).
Definition set_line_buf (l : bytes) (d : YencDecoder) : YencDecoder :=
  mkDecoder (d_state d) l (d_header d) (d_trailer d) (hasher d) (decoded_len d)
    (esc d) (at_line_start d) (pending_eq d) (dot d) (finished d).
Definition set_header (h : YencHeader) (d : YencDecoder) : YencDecoder :=
  mkDecoder (d_state d) (line_buf d) h (d_trailer d) (hasher d) (decoded_len d)
    (esc d) (at_line_start d) (pending_eq d) (dot d) (finished d).
Definition set_trailer (t : YencTrailer) (d : YencDecoder) : YencDecoder :=
  mkDecoder (d_state d) (line_buf d) (d_header d) t (hasher d) (decoded_len d)
    (esc d) (at_line_start d) (pending_eq d) (dot d) (finished d).
Definition set_hash (h : H) (n : Z) (d : YencDecoder) : YencDecoder :=
  mkDecoder (d_state d) (line_buf d) (d_header d) (d_trailer d) h n
    (esc d) (at_line_start d) (pending_eq d) (dot d) (finished d).
Definition set_esc (b : bool) (d : YencDecoder) : YencDecoder :=
  mkDecoder (d_state d) (line_buf d) (d_header d) (d_trailer d) (hasher d) (decoded_len d)
    b (at_line_start d) (pending_eq d) (dot d) (finished d).
Definition set_at_line_start (b : bool) (d : YencDecoder) : YencDecoder :=
  mkDecoder (d_state d) (line_buf d) (d_header d) (d_trailer d) (hasher d) (decoded_len d)
    (esc d) b (pending_eq d) (dot d) (finished d).
Definition set_pending_eq (b : bool) (d : YencDecoder) : YencDecoder :=
  mkDecoder (d_state d) (line_buf d) (d_header d) (d_trailer d) (hasher d) (decoded_len d)
    (esc d) (at_line_start d) b (dot d) (finished d).
Definition set_dot (n : Z) (d : YencDecoder) : YencDecoder :=
  mkDecoder (d_state d) (line_buf d) (d_header d) (d_trailer d) (hasher d) (decoded_len d)
    (esc d) (at_line_start d) (pending_eq d) n (finished d).
Definition set_finished (b : bool) (d : YencDecoder) : YencDecoder :=
  mkDecoder (d_state d) (line_buf d) (d_header d) (d_trailer d) (hasher d) (decoded_len d)
    (esc d) (at_line_start d) (pending_eq d) (dot d) b.

(** [YencDecoder::header]. *)
Definition header (d : YencDecoder) : option YencHeader :=
  if (0 <? h_size (d_header d)) || negb (bool_decide (h_name (d_header d) = []))
  then Some (d_header d) else None.

Definition enter_body (d : YencDecoder) : YencDecoder :=
  set_at_line_start true (set_dot 0 (set_pending_eq false (set_esc false (set_state Body d)))).

(** [take_line]: the line without its CR, by state.  An error keeps the
    decoder as the code leaves it. *)
Definition take_line (d0 : YencDecoder) : YencDecoder * option YencError :=
  let line := if bool_decide (last (line_buf d0) = Some 13) then removelast (line_buf d0)
              else line_buf d0 in
  let d := set_line_buf [] d0 in
  match d_state d with
  | Pre =>
      if starts_with (lit "=ybegin ") line then
        match parse_begin line with
        | Err e => (d, Some e)
        | Ok h =>
            let d := set_header h d in
            match h_part h with
            | Some _ => (set_state ExpectPart d, None)
            | None => (enter_body d, None)
            end
        end
      else if bool_decide (line = lit ".") then
        (d, Some (NotYenc (lit "article ended before =ybegin")))
      else (d, None)
  | ExpectPart =>
      if starts_with (lit "=ypart ") line then
        match parse_part line with
        | Err e => (d, Some e)
        | Ok (b, e) =>
            let h := d_header d in
            let h := {| h_name := h_name h; h_size := h_size h; h_part := h_part h;
                        h_total := h_total h; h_begin := Some b; h_end := Some e |} in
            (enter_body (set_header h d), None)
        end
      else if bool_decide (line = []) then (set_state ExpectPart d, None)
      else (d, Some (Malformed (lit "expected =ypart after =ybegin part=" ++ [0x2026])))
  | Control =>
      if starts_with (lit "=yend") line then
        match parse_end line with
        | Err e => (d, Some e)
        | Ok t => (set_state Drain (set_trailer t d), None)
        end
      else (d, Some (Malformed (lit "unexpected =y control line in body")))
  | Drain => if bool_decide (line = lit ".") then (set_finished true d, None) else (d, None)
  | Body => (d, None)
  end.

(** [emit]: [raw.wrapping_sub(42)]; an escaped byte loses 64 more. *)
Definition emit (raw : Z) (out : bytes) : bytes := out ++ [wrap8 (raw - 42)].
Definition emit_escaped (raw : Z) (out : bytes) : bytes := out ++ [wrap8 (raw - 106)].

(** [body_byte].  It calls itself at most once, with [dot = 0], so two levels
    of fuel suffice ([body_byte_fuel_enough]). *)
Fixpoint body_byte_fuel (fuel : nat) (d : YencDecoder) (b : Z) (out : bytes)
    : YencDecoder * bytes * option YencError :=
  match fuel with
  | O => (d, out, None)
  | S fuel' =>
      if esc d then
        if b =? 13 then (d, out, None)
        else if b =? 10 then (set_at_line_start true d, out, None)
        else (set_at_line_start false (set_esc false d), emit_escaped b out, None)
      else if pending_eq d then
        let d := set_pending_eq false d in
        if b =? 121 then (set_state Control (set_line_buf (lit "=y") d), out, None)
        else if b =? 13 then (set_esc true d, out, None)
        else if b =? 10 then (set_at_line_start true (set_esc true d), out, None)
        else (set_at_line_start false d, emit_escaped b out, None)
      else if dot d =? 1 then
        let d := set_dot 0 d in
        if b =? 46 then (set_at_line_start false d, emit 46 out, None)
        else if b =? 13 then (set_dot 2 d, out, None)
        else if b =? 10 then (d, out, Some PrematureEnd)
        else body_byte_fuel fuel' (set_at_line_start false d) b (emit 46 out)
      else if dot d =? 2 then
        let d := set_dot 0 d in
        if b =? 10 then (d, out, Some PrematureEnd)
        else body_byte_fuel fuel' (set_at_line_start false d) b (emit 46 out)
      else if at_line_start d && (b =? 46) then (set_dot 1 d, out, None)
      else if at_line_start d && (b =? 61) then
        (set_at_line_start false (set_pending_eq true d), out, None)
      else if b =? 61 then (set_esc true d, out, None)
      else if b =? 13 then (d, out, None)
      else if b =? 10 then (set_at_line_start true d, out, None)
      else (set_at_line_start false d, emit b out, None)
  end.

Definition body_byte : YencDecoder -> Z -> bytes -> YencDecoder * bytes * option YencError :=
  body_byte_fuel 2.

(** One turn of [push]'s loop. *)
Definition push_byte (d : YencDecoder) (b : Z) (out : bytes)
    : YencDecoder * bytes * option YencError :=
  match d_state d with
  | Body => body_byte d b out
  | _ =>
      if b =? 10 then let '(d, e) := take_line d in (d, out, e)
      else if MAX_LINE <=? Z.of_nat (length (line_buf d)) then
        (d, out, Some (Malformed (lit "line too long")))
      else (set_line_buf (line_buf d ++ [b]) d, out, None)
  end.

(** [while i < buf.len() && !self.finished]; the result carries [i]. *)
Fixpoint push_loop (d : YencDecoder) (buf : bytes) (out : bytes) (i : nat)
    : YencDecoder * bytes * result nat YencError :=
  match buf with
  | [] => (d, out, Ok i)
  | b :: buf' =>
      if finished d then (d, out, Ok i)
      else
        match push_byte d b out with
        | (d', out', None) => push_loop d' buf' out' (S i)
        | (d', out', Some e) => (d', out', Err e)
        end
  end.

Definition push (d : YencDecoder) (buf out : bytes)
    : YencDecoder * bytes * result (Status * nat) YencError :=
  match push_loop d buf out 0 with
  | (d', out', Err e) => (d', out', Err e)
  | (d', out', Ok i) =>
      let newly := drop (length out) out' in
      let d' := if bool_decide (newly = []) then d'
                else set_hash (hasher_update (hasher d') newly)
                       (decoded_len d' + Z.of_nat (length newly)) d' in
      (d', out', Ok (if finished d' then Finished else NeedMore, i))
  end.

(** [take_result]. *)
Definition take_result (d : YencDecoder) : option DecodeResult :=
  if negb (finished d) then None
  else
    let crc := hasher_finalize (hasher d) in
    let h := d_header d in
    let t := d_trailer d in
    let expected_crc := match t_pcrc32 t with Some c => Some c | None => t_crc32 t end in
    let expected_len :=
      match h_begin h, h_end h with
      | Some b, Some e => if b <=? e then e - b + 1 else h_size h
      | _, _ => h_size h
      end in
    Some {| r_header := h;
            r_trailer := t;
            r_offset := default 0 ((fun b => sat_sub b 1) <$> h_begin h);
            r_decoded_len := decoded_len d;
            r_crc32 := crc;
            r_crc_ok := (fun c => c =? crc) <$> expected_crc;
            r_len_ok := (decoded_len d =? t_size t) && (decoded_len d =? expected_len) |}.

(** The way the connection worker drives the decoder: chunks as they are read,
    until [Finished]; what was not consumed belongs to the next response. *)
Fixpoint feed (d : YencDecoder) (chunks : list bytes) (out : bytes)
    : result (YencDecoder * bytes * bytes) YencError :=
  match chunks with
  | [] => Ok (d, out, [])
  | c :: cs =>
      match push d c out with
      | (_, _, Err e) => Err e
      | (d', out', Ok (Finished, n)) => Ok (d', out', drop n c ++ concat cs)
      | (d', out', Ok (NeedMore, _)) => feed d' cs out'
      end
  end.

(** What the caller sees of it: the result record, the header, the decoded
    bytes, and the unread rest. *)
Definition decode (chunks : list bytes)
    : result (option DecodeResult * option YencHeader * bytes * bytes) YencError :=
  match feed decoder_new chunks [] with
  | Err e => Err e
  | Ok (d, out, rest) => Ok (take_result d, header d, out, rest)
  end.

End Decoder.
Arguments YencDecoder H : clear implicits.

(** ** The encoder ([yenc_wire]) *)

Definition LINE : Z := 128.

(** The escaped body, a CRLF whenever the column reaches [LINE]. *)
Fixpoint yenc_body (data : bytes) (col : Z) : bytes :=
  match data with
  | [] => if 0 <? col then [13; 10] else []
  | b :: data' =>
      let enc := wrap8 (b + 42) in
      let '(e, w) :=
        if bool_decide (enc ∈ [0x00; 0x0A; 0x0D; 0x3D]) then ([61; wrap8 (enc + 64)], 2)
        else ([enc], 1) in
      if LINE <=? col + w then e ++ [13; 10] ++ yenc_body data' 0
      else e ++ yenc_body data' (col + w)
  end.

Fixpoint dot_stuff (line_start : bool) (art : bytes) : bytes :=
  match art with
  | [] => []
  | b :: art' =>
      (if line_start && (b =? 46) then [46] else []) ++ b :: dot_stuff (b =? 10) art'
  end.

(** The mock server's checksum, through the same hasher interface. *)
Definition crc32 {H : Type} {crc : Crc32Hasher H} (data : bytes) : Z :=
  hasher_finalize (hasher_update hasher_new data).

Lemma crc32_eq {H : Type} {crc : Crc32Hasher H} data : crc32 data = crc32_ref data.
Proof.
  unfold crc32. pose proof (hasher_clone_finalize [data]) as E. simpl in E.
  by rewrite app_nil_r in E.
Qed.

Definition ybegin_line (nm : str) (file_size part total : Z) : str :=
  lit "=ybegin part=" ++ show_dec part ++ lit " total=" ++ show_dec total ++ lit " line="
  ++ show_dec LINE ++ lit " size=" ++ show_dec file_size ++ lit " name=" ++ nm.

Definition ypart_line (begin end_ : Z) : str :=
  lit "=ypart begin=" ++ show_dec begin ++ lit " end=" ++ show_dec end_.

Definition yend_line (len part crc : Z) : str :=
  lit "=yend size=" ++ show_dec len ++ lit " part=" ++ show_dec part ++ lit " pcrc32="
  ++ pad_zeros 8 (show_radix 16 crc).

Definition yenc_wire {H : Type} {crc : Crc32Hasher H} (nm : str) (data : bytes) (file_size part total begin end_ : Z)
    (crc_override : option Z) : bytes :=
  let art :=
    utf8_encode (ybegin_line nm file_size part total) ++ [13; 10]
    ++ utf8_encode (ypart_line begin end_) ++ [13; 10]
    ++ yenc_body data 0
    ++ utf8_encode (yend_line (Z.of_nat (length data)) part (default (crc32 data) crc_override))
    ++ [13; 10] in
  dot_stuff true art ++ [46; 13; 10].

Example yenc_wire_ex :
  decode [yenc_wire (lit "a b.bin") [1; 2; 4; 19; 214; 227] 100 2 3 11 16 None ++ lit "205 bye"]
  = Ok (Some {| r_header := {| h_name := lit "a b.bin"; h_size := 100; h_part := Some 2;
                               h_total := Some 3; h_begin := Some 11; h_end := Some 16 |};
                r_trailer := {| t_size := 6; t_part := Some 2;
                                t_pcrc32 := Some (crc32 [1; 2; 4; 19; 214; 227]);
                                t_crc32 := None |};
                r_offset := 10; r_decoded_len := 6;
                r_crc32 := crc32 [1; 2; 4; 19; 214; 227];
                r_crc_ok := Some true; r_len_ok := true |},
        Some {| h_name := lit "a b.bin"; h_size := 100; h_part := Some 2;
                h_total := Some 3; h_begin := Some 11; h_end := Some 16 |},
        [1; 2; 4; 19; 214; 227], lit "205 bye").
Proof. vm_compute. reflexivity. Qed.

(** ** Decoding does not depend on the chunking *)

Section Chunks.
Context {H : Type} {crc : Crc32Hasher H}.
Implicit Types (d : YencDecoder H) (out : bytes) (h : H).

Lemma body_byte_fuel_enough k d b out :
  body_byte_fuel (2 + k) d b out = body_byte d b out.
Proof.
  unfold body_byte. cbn [body_byte_fuel plus].
  repeat (case_if; [try reflexivity|]); try reflexivity;
    unfold set_dot, set_at_line_start in *; simpl in *; repeat (case_if; try done).
Qed.

(** The byte loop neither reads nor writes the hasher and the length. *)
Lemma take_line_frame h n d :
  take_line (set_hash h n d) = (set_hash h n (take_line d).1, (take_line d).2).
Proof.
  destruct d as [s l hd t h0 n0 e a p dt f]. unfold take_line; simpl.
  destruct s; repeat case_if; try done;
    match goal with |- context [match ?r with Ok _ => _ | Err _ => _ end] => destruct r as [x|x] end;
    try done; by destruct (h_part x) || destruct x.
Qed.

Lemma body_byte_frame k h n d b out :
  body_byte_fuel k (set_hash h n d) b out =
  (set_hash h n (body_byte_fuel k d b out).1.1, (body_byte_fuel k d b out).1.2,
   (body_byte_fuel k d b out).2).
Proof.
  revert d out. induction k as [|k IH]; intros d out; [done|].
  destruct d as [s l hd t h0 n0 e a p dt f]. cbn [body_byte_fuel].
  cbn [esc pending_eq dot at_line_start set_hash].
  repeat (case_if; try reflexivity);
    match goal with
    | |- body_byte_fuel k ?x _ _ = (set_hash h n (body_byte_fuel k ?y _ _).1.1, _, _) =>
        change x with (set_hash h n y); apply IH
    end.
Qed.

Lemma push_byte_frame h n d b out :
  push_byte (set_hash h n d) b out =
  (set_hash h n (push_byte d b out).1.1, (push_byte d b out).1.2, (push_byte d b out).2).
Proof.
  unfold push_byte. cbn [set_hash d_state line_buf].
  destruct (d_state d); try apply body_byte_frame;
    (case_if; [rewrite take_line_frame; by destruct (take_line d) | by case_if]).
Qed.

Lemma push_loop_frame h n d buf out i :
  push_loop (set_hash h n d) buf out i =
  (set_hash h n (push_loop d buf out i).1.1, (push_loop d buf out i).1.2,
   (push_loop d buf out i).2).
Proof.
  revert d out i. induction buf as [|b buf IH]; intros d out i; simpl; [done|].
  case_if; [done|]. rewrite push_byte_frame.
  destruct (push_byte d b out) as [[d' out'] [e|]]; simpl; [done|]. apply IH.
Qed.

Lemma set_hash_id d : set_hash (hasher d) (decoded_len d) d = d.
Proof. by destruct d. Qed.

Lemma set_hash_set h n h' n' d : set_hash h n (set_hash h' n' d) = set_hash h n d.
Proof. done. Qed.

Lemma push_loop_hasher d buf out i :
  hasher (push_loop d buf out i).1.1 = hasher d /\
  decoded_len (push_loop d buf out i).1.1 = decoded_len d.
Proof. rewrite <- (set_hash_id d) at 1 3. by rewrite push_loop_frame. Qed.

(** Output only grows. *)
Lemma body_byte_grows k d b out : exists l, (body_byte_fuel k d b out).1.2 = out ++ l.
Proof.
  revert d out. induction k as [|k IH]; intros d out; [exists []; by rewrite app_nil_r|].
  cbn [body_byte_fuel]. unfold emit, emit_escaped.
  repeat (case_if; [first [exists []; by rewrite app_nil_r | eexists; reflexivity
                          | idtac] |]);
  first [ exists []; by rewrite app_nil_r | eexists; reflexivity
        | match goal with |- context [body_byte_fuel k ?x ?y (out ++ ?z)] =>
            destruct (IH x (out ++ z)) as [l ->]; eexists; by rewrite <- app_assoc end
        | idtac ].
Qed.

Lemma push_byte_grows d b out : exists l, (push_byte d b out).1.2 = out ++ l.
Proof.
  unfold push_byte.
  destruct (d_state d); try apply body_byte_grows;
    (exists []; rewrite app_nil_r; case_if; [by destruct (take_line d) | by case_if]).
Qed.

Lemma push_loop_grows d buf out i : exists l, (push_loop d buf out i).1.2 = out ++ l.
Proof.
  revert d out i. induction buf as [|b buf IH]; intros d out i; simpl;
    [exists []; by rewrite app_nil_r|].
  case_if; [exists []; by rewrite app_nil_r|].
  destruct (push_byte_grows d b out) as [l Hl].
  destruct (push_byte d b out) as [[d' out'] [e|]]; simpl in *; [by eexists|].
  destruct (IH d' out' (S i)) as [l' ->]. exists (l ++ l'). by rewrite Hl, <- app_assoc.
Qed.

Lemma push_loop_app d a b out i :
  push_loop d (a ++ b) out i =
  match push_loop d a out i with
  | (d1, out1, Ok n) => push_loop d1 b out1 n
  | (d1, out1, Err e) => (d1, out1, Err e)
  end.
Proof.
  revert d out i. induction a as [|x a IH]; intros d out i; simpl; [done|].
  destruct (finished d) eqn:Hf.
  - destruct b; simpl; by rewrite ?Hf.
  - destruct (push_byte d x out) as [[d' out'] [e|]]; simpl; [done|]. apply IH.
Qed.

(** The count is the number of bytes consumed: all of them unless finished. *)
Lemma push_loop_count d buf out i : forall d' out' n,
  push_loop d buf out i = (d', out', Ok n) ->
  (i <= n <= i + length buf)%nat /\ (finished d' = false -> n = (i + length buf)%nat).
Proof.
  revert d out i. induction buf as [|b buf IH]; intros d out i d' out' n; simpl.
  { intros [= <- <- <-]. lia. }
  destruct (finished d) eqn:Hf; [intros [= <- <- <-]; split; [lia|congruence]|].
  destruct (push_byte d b out) as [[d1 out1] [e|]]; [done|].
  intros Hp%IH. lia.
Qed.

Lemma push_loop_shift d buf out i k :
  push_loop d buf out (i + k) =
  match push_loop d buf out i with
  | (d', out', Ok n) => (d', out', Ok (n + k)%nat)
  | r => r
  end.
Proof.
  revert d out i. induction buf as [|b buf IH]; intros d out i; simpl; [done|].
  case_if; [done|]. destruct (push_byte d b out) as [[d' out'] [e|]]; [done|].
  apply (IH d' out' (S i)).
Qed.

(** [h] has absorbed exactly [l]. *)
Definition hashed (h : H) (l : bytes) : Prop :=
  exists chunks, concat chunks = l /\ h = fold_left hasher_update chunks hasher_new.

Lemma hashed_update h l l' : hashed h l -> hashed (hasher_update h l') (l ++ l').
Proof.
  intros (cs & <- & ->). exists (cs ++ [l']).
  rewrite concat_app, fold_left_app. simpl. by rewrite app_nil_r.
Qed.

Lemma hashed_finalize h l : hashed h l -> hasher_finalize h = crc32_ref l.
Proof. intros (cs & <- & ->). apply hasher_clone_finalize. Qed.

(** The specification: the whole stream through the byte loop at once. *)
Definition decode_stream (d : YencDecoder H) (s out : bytes)
    : result (option DecodeResult * option YencHeader * bytes * bytes) YencError :=
  match push_loop d s out 0 with
  | (_, _, Err e) => Err e
  | (d', out', Ok n) =>
      Ok ((fun r => {| r_header := r_header r; r_trailer := r_trailer r; r_offset := r_offset r;
              r_decoded_len := Z.of_nat (length out'); r_crc32 := crc32_ref out';
              r_crc_ok := (fun c => c =? crc32_ref out') <$>
                match t_pcrc32 (d_trailer d') with Some c => Some c | None => t_crc32 (d_trailer d') end;
              r_len_ok :=
                (Z.of_nat (length out') =? t_size (d_trailer d')) &&
                (Z.of_nat (length out') =?
                  match h_begin (d_header d'), h_end (d_header d') with
                  | Some b, Some e => if b <=? e then e - b + 1 else h_size (d_header d')
                  | _, _ => h_size (d_header d')
                  end) |}) <$> take_result d',
          header d', out', drop n s)
  end.

Definition accounted (d : YencDecoder H) (out : bytes) : Prop :=
  hashed (hasher d) out /\ decoded_len d = Z.of_nat (length out).

Lemma take_result_accounted d d' out :
  accounted d out -> d = set_hash (hasher d) (decoded_len d) d' ->
  take_result d = (fun r => {| r_header := r_header r; r_trailer := r_trailer r;
      r_offset := r_offset r;
      r_decoded_len := Z.of_nat (length out); r_crc32 := crc32_ref out;
      r_crc_ok := (fun c => c =? crc32_ref out) <$>
        match t_pcrc32 (d_trailer d') with Some c => Some c | None => t_crc32 (d_trailer d') end;
      r_len_ok :=
        (Z.of_nat (length out) =? t_size (d_trailer d')) &&
        (Z.of_nat (length out) =?
          match h_begin (d_header d'), h_end (d_header d') with
          | Some b, Some e => if b <=? e then e - b + 1 else h_size (d_header d')
          | _, _ => h_size (d_header d')
          end) |}) <$> take_result d'.
Proof.
  intros [Hh Hl] Hd. unfold take_result. rewrite (hashed_finalize _ _ Hh), Hl. rewrite Hd. simpl.
  destruct (finished d'); done.
Qed.

Lemma push_loop_finished d s out i : finished d = true -> push_loop d s out i = (d, out, Ok i).
Proof. intros Hf. destruct s; simpl; by rewrite ?Hf. Qed.

Lemma push_spec d buf out d' out' n :
  accounted d out -> push_loop d buf out 0 = (d', out', Ok n) ->
  exists dd, push d buf out = (dd, out', Ok (if finished d' then Finished else NeedMore, n)) /\
    dd = set_hash (hasher dd) (decoded_len dd) d' /\ accounted dd out'.
Proof.
  intros [Hh Hl] Hp. unfold push. rewrite Hp.
  destruct (push_loop_hasher d buf out 0) as [H1 H2]. rewrite Hp in H1, H2. simpl in H1, H2.
  destruct (push_loop_grows d buf out 0) as [l Hg]. rewrite Hp in Hg. simpl in Hg. subst out'.
  rewrite drop_app_length. case_if; bool_hyps.
  - subst l. eexists. split; [reflexivity|]. rewrite set_hash_id. split; [done|].
    rewrite app_nil_r. unfold accounted. by rewrite H1, H2.
  - eexists. split; [by simpl|]. split; [done|]. unfold accounted; simpl.
    rewrite H1, H2, Hl. split; [by apply hashed_update|]. rewrite length_app. lia.
Qed.

Lemma feed_spec chunks : forall d out, accounted d out -> finished d = false ->
  match feed d chunks out with
  | Err e => exists d' out', push_loop d (concat chunks) out 0 = (d', out', Err e)
  | Ok (dd, out', rest) =>
      exists d' n, push_loop d (concat chunks) out 0 = (d', out', Ok n) /\
        dd = set_hash (hasher dd) (decoded_len dd) d' /\ accounted dd out' /\
        rest = drop n (concat chunks)
  end.
Proof.
  induction chunks as [|c cs IH]; intros d out Ha Hf; simpl.
  { exists d, 0%nat. by rewrite set_hash_id. }
  rewrite push_loop_app.
  destruct (push_loop d c out 0) as [[d' out'] [n|e]] eqn:Hp.
  2:{ unfold push. rewrite Hp. eauto. }
  destruct (push_spec _ _ _ _ _ _ Ha Hp) as (dd & -> & Hdd & Hacc).
  destruct (push_loop_count _ _ _ _ _ _ _ Hp) as [Hn Hfull]. simpl in Hn, Hfull.
  destruct (finished d') eqn:Hf'.
  - rewrite push_loop_finished by done. exists d', n. split_and!; [done..|].
    by rewrite drop_app_le by lia.
  - assert (Hfd : finished dd = false) by (by rewrite Hdd).
    rewrite (Hfull eq_refl). clear n Hn Hfull Hp. specialize (IH dd out' Hacc Hfd).
    pose proof (push_loop_shift d' (concat cs) out' 0 (length c)) as Hs. simpl in Hs.
    pose proof (push_loop_frame (hasher dd) (decoded_len dd) d' (concat cs) out' 0) as Hfr.
    rewrite <- Hdd in Hfr. rewrite Hfr in IH. clear Hfr Hdd.
    destruct (push_loop d' (concat cs) out' 0) as [[d2 out2] [n2|e2]]; simpl in *; rewrite Hs.
    + destruct (feed dd cs out') as [[[d3 out3] rest]|e3].
      * destruct IH as (d4 & n4 & Heq & E1 & E2 & ->). injection Heq as <- <- <-.
        exists d2, (n2 + length c)%nat. split_and!; [done| |done|].
        -- by rewrite E1 at 1.
        -- rewrite Nat.add_comm, drop_app_add. done.
      * by destruct IH as (?&?&?).
    + destruct (feed dd cs out') as [[[d3 out3] rest]|e3].
      * by destruct IH as (?&?&?&?).
      * destruct IH as (?&?&[= <- <- <-]). eauto.
Qed.

Lemma decode_spec (chunks : list bytes) : decode chunks = decode_stream decoder_new (concat chunks) [].
Proof.
  assert (Ha : accounted decoder_new []) by (split; [by exists [] | done]).
  pose proof (feed_spec chunks decoder_new [] Ha eq_refl) as Hs.
  unfold decode, decode_stream.
  destruct (feed decoder_new chunks []) as [[[dd out] rest]|e].
  - destruct Hs as (d' & n & -> & Hdd & Hacc & ->).
    rewrite (take_result_accounted dd d' out Hacc Hdd).
    do 4 f_equal. rewrite Hdd. done.
  - by destruct Hs as (d' & out' & ->).
Qed.

(** C2: incremental decoding is independent of how the socket cut the stream.
    Two sequences of reads with the same bytes give the same error, or the same
    result record (header, trailer, offset, length, CRC and both checks), the
    same decoded bytes and the same unconsumed rest, whatever the chunk
    boundaries split: an escape from its operand, a control line, a CRLF or a
    dot-stuffed line start. *)
Theorem decode_chunk_independent (chunks1 chunks2 : list bytes) :
  concat chunks1 = concat chunks2 -> decode chunks1 = decode chunks2.
Proof. intros Hc. by rewrite !decode_spec, Hc. Qed.

(** pipelining.  A decoder that finishes consumes the article and nothing
    else: bytes appended to a stream that already decodes completely come back
    unread, and change nothing in the result. *)
Theorem decode_pipelining (chunks : list bytes) (more : bytes) r hd out rest :
  decode chunks = Ok (Some r, hd, out, rest) ->
  decode (chunks ++ [more]) = Ok (Some r, hd, out, rest ++ more).
Proof.
  rewrite !decode_spec, concat_app. simpl. rewrite app_nil_r.
  generalize (concat chunks). intros s. unfold decode_stream. rewrite push_loop_app.
  destruct (push_loop decoder_new s [] 0) as [[d' out'] [n|e]] eqn:Hp; [|done].
  destruct (push_loop_count _ _ _ _ _ _ _ Hp) as [Hn Hfull].
  unfold take_result at 1. destruct (finished d') eqn:Hf; [|done].
  rewrite push_loop_finished by done. unfold take_result. rewrite Hf. simpl.
  intros [= <- <- <- <-]. do 2 f_equal. by rewrite drop_app_le by (simpl in Hn; lia).
Qed.

End Chunks.

Lemma decode_chunk_independent_witness :
  let w := yenc_wire (lit "x") [4; 214; 19] 3 1 1 1 3 None in
  decode [w] = decode (map (fun b => [b]) w).
Proof. intros w. apply decode_chunk_independent. vm_compute. reflexivity. Defined.

Lemma decode_pipelining_witness :
  exists r hd,
    decode ([yenc_wire (lit "x") [4] 1 1 1 1 1 None] ++ [lit "223"])
    = Ok (Some r, hd, [4], [] ++ lit "223").
Proof. do 2 eexists. apply decode_pipelining. vm_compute. reflexivity. Defined.

(** ** Control lines round trip *)

Definition tok_byte (b : Z) : Prop := is_ascii b /\ b <> 32 /\ b <> 10 /\ b <> 46 /\ b <> 13.

Lemma alnum_tok s : Forall (fun c => is_ascii_alphanumeric c = true) s -> Forall tok_byte s.
Proof.
  intros Hs. eapply Forall_impl; [exact Hs|]. intros c Hc. split; [by apply alnum_ascii|].
  unfold is_ascii_alphanumeric, is_ascii_alphabetic, is_ascii_upper, is_ascii_lower,
    is_ascii_digit, in_range in Hc. lia.
Qed.

Lemma tok_lit_ok l :
  forallb (fun b => in_range 0 127 b && negb (existsb (Z.eqb b) [32; 10; 46; 13])) l = true ->
  Forall tok_byte l.
Proof.
  rewrite forallb_forall, Forall_forall. intros Hl b Hb%list_elem_of_In%Hl.
  unfold in_range in Hb. simpl in Hb. unfold tok_byte, is_ascii. lia.
Qed.

Ltac tok_lit := apply tok_lit_ok; reflexivity.

Lemma parse_u64_show n : is_u64 n -> parse_u64 (show_dec n) = Some n.
Proof.
  unfold is_u64. intros Hn. pose proof (show_dec_alnum n ltac:(lia)) as Ha.
  unfold parse_u64. rewrite from_utf8_ascii by (eapply Forall_impl; [done|apply alnum_ascii]).
  rewrite trim_alnum by done. by apply parse_show_dec.
Qed.

Lemma parse_hex32_show n : is_u32 n -> parse_hex32 (pad_zeros 8 (show_radix 16 n)) = Some n.
Proof.
  unfold is_u32. intros Hn.
  assert (Ha : Forall (fun c => is_ascii_alphanumeric c = true) (pad_zeros 8 (show_radix 16 n)))
    by (apply pad_zeros_alnum, show_radix_alnum; lia).
  unfold parse_hex32. rewrite from_utf8_ascii by (eapply Forall_impl; [done|apply alnum_ascii]).
  rewrite trim_alnum by done. apply parse_pad_show; lia.
Qed.

(** A control line as its tokens. *)
Definition join_sp (t0 : bytes) (ts : list bytes) : bytes := t0 ++ concat (map (cons 32) ts).

Definition kv_tok (tok : bytes) : option (bytes * bytes) :=
  match position (fun b => b =? 61) tok with
  | None => None
  | Some eq => Some (take eq tok, drop (S eq) tok)
  end.

Lemma kv_tok_eq k v : Forall (fun b => b <> 61) k -> kv_tok (k ++ 61 :: v) = Some (k, v).
Proof.
  intros Hk. unfold kv_tok, position.
  rewrite find_char_app; [|eapply Forall_impl; [exact Hk|simpl; lia]|done].
  by rewrite take_app_length, drop_app_cons.
Qed.

Lemma tok_no_space t : Forall tok_byte t -> Forall (fun b => (b =? 32) = false) t.
Proof. intros Ht. eapply Forall_impl; [exact Ht|]. unfold tok_byte. simpl. lia. Qed.

Lemma kv_fields_join t0 ts : Forall tok_byte t0 -> Forall (Forall tok_byte) ts ->
  kv_fields (join_sp t0 ts) = omap kv_tok (t0 :: ts).
Proof.
  intros H0 Hts. unfold kv_fields. change (omap _ ?l) with (omap kv_tok l) at 1.
  f_equal. unfold join_sp. revert t0 H0.
  induction Hts as [|t ts Ht Hts IH]; intros t0 H0; simpl.
  - rewrite app_nil_r. apply split_chars_none. by apply tok_no_space.
  - rewrite split_chars_app by (done || by apply tok_no_space). f_equal. by apply IH.
Qed.

(** The [ name=] separator is found behind tokens of which none begins with n. *)
Lemma find_name_join t0 ts nm : Forall tok_byte t0 -> Forall (Forall tok_byte) ts ->
  Forall (fun t => exists c t', t = c :: t' /\ c <> 110) ts ->
  split_at_first (lit " name=") (join_sp t0 ts ++ lit " name=" ++ nm) = Some (join_sp t0 ts, nm).
Proof.
  intros H0 Hts Hn. unfold join_sp.
  change (lit " name=") with (32 :: 110 :: lit "ame=").
  set (pat := 32 :: 110 :: lit "ame=").
  assert (Hskip : forall tok s, Forall tok_byte tok ->
    split_at_first pat (tok ++ s) = prod_map (app tok) id <$> split_at_first pat s).
  { intros tok s Ht. induction Ht as [|c tok Hc Ht IH]; simpl app.
    { by destruct (split_at_first pat s) as [[??]|]. }
    cbn [split_at_first]. unfold pat at 1. cbn [strip_prefix].
    destruct (32 =? c) eqn:?; [unfold tok_byte in Hc; lia|]. rewrite IH.
    by destruct (split_at_first pat s) as [[??]|]. }
  revert t0 H0. induction ts as [|t ts IH]; intros t0 H0.
  - simpl concat. rewrite app_nil_r, Hskip by done. unfold pat.
    cbn [app split_at_first]. change (lit "ame=" ++ nm) with (97 :: 109 :: 101 :: 61 :: nm).
    simpl. by rewrite app_nil_r.
  - inversion Hts; inversion Hn as [|? ? (c & t' & -> & Hc)]; subst.
    simpl concat. rewrite <- app_assoc, Hskip by done.
    specialize (IH H3 H4 (c :: t') H2).
    assert (Hstep : forall u, split_at_first pat (32 :: c :: u) =
      prod_map (cons 32) id <$> split_at_first pat (c :: u)).
    { intros u. unfold pat. cbn [split_at_first strip_prefix]. rewrite Z.eqb_refl.
      destruct (110 =? c) eqn:?; [lia|]. done. }
    cbn [app] in IH |- *. rewrite Hstep, IH. done.
Qed.

Lemma show_dec_tok n : 0 <= n -> Forall tok_byte (show_dec n).
Proof. intros. by apply alnum_tok, show_dec_alnum. Qed.

Lemma tok_kv k v : Forall tok_byte k -> Forall tok_byte v -> Forall tok_byte (k ++ 61 :: v).
Proof. intros. apply Forall_app. split; [done|]. constructor; [unfold tok_byte, is_ascii; lia|done]. Qed.

Definition ybegin_toks (file_size part total : Z) : list bytes :=
  [ lit "part" ++ 61 :: show_dec part; lit "total" ++ 61 :: show_dec total;
    lit "line" ++ 61 :: show_dec LINE; lit "size" ++ 61 :: show_dec file_size ].

Lemma ybegin_line_join nm file_size part total :
  ybegin_line nm file_size part total =
  join_sp (lit "=ybegin") (ybegin_toks file_size part total) ++ lit " name=" ++ nm.
Proof.
  unfold ybegin_line, join_sp, ybegin_toks. cbn [map concat]. rewrite app_nil_r.
  repeat (rewrite <- app_assoc || cbn [app lit]). reflexivity.
Qed.

Lemma join_sp_ascii t0 ts : Forall tok_byte t0 -> Forall (Forall tok_byte) ts ->
  Forall is_ascii (join_sp t0 ts).
Proof.
  intros H0 Hts. apply Forall_app. split; [eapply Forall_impl; [exact H0|]; by intros ? [? _]|].
  induction Hts as [|t ts Ht Hts IH]; simpl; constructor; [unfold is_ascii; lia|].
  apply Forall_app. split; [|done]. eapply Forall_impl; [exact Ht|]; by intros ? [? _].
Qed.

Lemma ybegin_toks_ok file_size part total : 0 <= file_size -> 0 <= part -> 0 <= total ->
  Forall (Forall tok_byte) (ybegin_toks file_size part total).
Proof.
  intros. unfold ybegin_toks.
  rewrite !Forall_cons, Forall_nil; split_and!; try done;
    (apply tok_kv; [tok_lit | by apply show_dec_tok]).
Qed.

Lemma utf8_encode_join t0 ts : Forall tok_byte t0 -> Forall (Forall tok_byte) ts ->
  utf8_encode (join_sp t0 ts) = join_sp t0 ts.
Proof. intros. by apply utf8_encode_ascii, join_sp_ascii. Qed.

Definition wire_header (nm : str) (file_size part total : Z) : YencHeader := {|
  h_name := nm; h_size := file_size; h_part := Some part; h_total := Some total;
  h_begin := None; h_end := None |}.

Lemma wrap32_id n : is_u32 n -> wrap32 n = n.
Proof. unfold is_u32, u32_max, wrap32. intros. apply Z.mod_small. lia. Qed.

Lemma u32_u64 n : is_u32 n -> is_u64 n.
Proof. unfold is_u32, is_u64, u32_max, u64_max. lia. Qed.

Lemma parse_begin_wire nm file_size part total :
  Forall is_scalar nm -> trim nm = nm -> 0 < file_size <= u64_max -> is_u32 part -> is_u32 total ->
  parse_begin (utf8_encode (ybegin_line nm file_size part total)) =
  Ok (wire_header nm file_size part total).
Proof.
  intros Hnm Htrim Hfs Hp Ht.
  assert (Hnn : 0 <= file_size /\ 0 <= part /\ 0 <= total) by (unfold is_u32 in *; lia).
  destruct Hnn as (N1 & N2 & N3).
  pose proof (ybegin_toks_ok file_size part total N1 N2 N3) as Htoks.
  assert (H0 : Forall tok_byte (lit "=ybegin")) by tok_lit.
  rewrite ybegin_line_join, !utf8_encode_app, utf8_encode_join by done.
  change (utf8_encode (lit " name=")) with (lit " name=").
  unfold parse_begin, find_subslice. rewrite find_name_join; [|done|done|].
  2:{ unfold ybegin_toks. repeat constructor; do 2 eexists; (split; [reflexivity|done]). }
  rewrite from_utf8_lossy_encode, Htrim by done.
  rewrite kv_fields_join by done. unfold ybegin_toks. cbn [omap list_omap].
  change (kv_tok (lit "=ybegin")) with (Some (@nil Z, lit "ybegin")).
  rewrite !kv_tok_eq by (repeat constructor; done).
  cbn [fold_result].
  change (begin_field ?h ([], ?v)) with (@Ok YencHeader YencError h). cbn [result_bind].
  change (begin_field ?h (lit "part", ?v)) with
    (result_bind (ok_or (parse_u64 v) (Malformed (lit "bad part"))) (fun n =>
      Ok {| h_name := h_name h; h_size := h_size h; h_part := Some (wrap32 n); h_total := h_total h;
          h_begin := h_begin h; h_end := h_end h |})).
  rewrite parse_u64_show by (by apply u32_u64). cbn [ok_or result_bind].
  change (begin_field ?h (lit "total", ?v)) with
    (@Ok YencHeader YencError {| h_name := h_name h; h_size := h_size h; h_part := h_part h;
          h_total := wrap32 <$> parse_u64 v; h_begin := h_begin h; h_end := h_end h |}).
  rewrite parse_u64_show by (by apply u32_u64). cbn [ok_or result_bind].
  change (begin_field ?h (lit "line", ?v)) with (@Ok YencHeader YencError h). cbn [result_bind].
  change (begin_field ?h (lit "size", ?v)) with
    (result_bind (ok_or (parse_u64 v) (Malformed (lit "bad size"))) (fun n =>
      Ok {| h_name := h_name h; h_size := n; h_part := h_part h; h_total := h_total h;
          h_begin := h_begin h; h_end := h_end h |})).
  rewrite parse_u64_show by (unfold is_u64; lia). cbn [ok_or result_bind h_size h_name h_part h_total h_begin h_end].
  case_if; [lia|]. unfold wire_header. cbn [fmap option_fmap option_map]. by rewrite !wrap32_id.
Qed.

Definition ypart_toks (begin end_ : Z) : list bytes :=
  [ lit "begin" ++ 61 :: show_dec begin; lit "end" ++ 61 :: show_dec end_ ].

Lemma ypart_line_join begin end_ :
  ypart_line begin end_ = join_sp (lit "=ypart") (ypart_toks begin end_).
Proof.
  unfold ypart_line, join_sp, ypart_toks. cbn [map concat]. rewrite app_nil_r.
  repeat (rewrite <- app_assoc || cbn [app lit]). reflexivity.
Qed.

Lemma ypart_toks_ok begin end_ : 0 <= begin -> 0 <= end_ ->
  Forall (Forall tok_byte) (ypart_toks begin end_).
Proof.
  intros. unfold ypart_toks.
  rewrite !Forall_cons, Forall_nil; split_and!; try done;
    (apply tok_kv; [tok_lit | by apply show_dec_tok]).
Qed.

Lemma parse_part_wire begin end_ : 1 <= begin <= end_ -> end_ <= u64_max ->
  parse_part (ypart_line begin end_) = Ok (begin, end_).
Proof.
  intros Hb He. rewrite ypart_line_join. unfold parse_part.
  rewrite kv_fields_join by (tok_lit || by apply ypart_toks_ok; lia).
  unfold ypart_toks. cbn [omap list_omap].
  change (kv_tok (lit "=ypart")) with (Some (@nil Z, lit "ypart")).
  rewrite !kv_tok_eq by (repeat constructor; done).
  cbn [fold_left].
  change (part_field ?be ([], ?v)) with be.
  change (part_field ?be (lit "begin", ?v)) with (parse_u64 v, snd be).
  change (part_field ?be (lit "end", ?v)) with (fst be, parse_u64 v).
  rewrite !parse_u64_show by (unfold is_u64; lia). simpl. case_if; [done|lia].
Qed.

Definition yend_toks (len part crc : Z) : list bytes :=
  [ lit "size" ++ 61 :: show_dec len; lit "part" ++ 61 :: show_dec part;
    lit "pcrc32" ++ 61 :: pad_zeros 8 (show_radix 16 crc) ].

Lemma yend_line_join len part crc :
  yend_line len part crc = join_sp (lit "=yend") (yend_toks len part crc).
Proof.
  unfold yend_line, join_sp, yend_toks. cbn [map concat]. rewrite app_nil_r.
  repeat (rewrite <- app_assoc || cbn [app lit]). reflexivity.
Qed.

Lemma yend_toks_ok len part crc : 0 <= len -> 0 <= part -> 0 <= crc ->
  Forall (Forall tok_byte) (yend_toks len part crc).
Proof.
  intros. unfold yend_toks.
  rewrite !Forall_cons, Forall_nil; split_and!; try done;
    (apply tok_kv; [tok_lit | first [by apply show_dec_tok | by apply alnum_tok, pad_zeros_alnum, show_radix_alnum; lia]]).
Qed.

Lemma parse_end_wire len part crc : is_u64 len -> is_u32 part -> is_u32 crc ->
  parse_end (yend_line len part crc) =
  Ok {| t_size := len; t_part := Some part; t_pcrc32 := Some crc; t_crc32 := None |}.
Proof.
  intros Hl Hp Hc. rewrite yend_line_join. unfold parse_end.
  rewrite kv_fields_join by (tok_lit || by apply yend_toks_ok; unfold is_u64, is_u32 in *; lia).
  unfold yend_toks. cbn [omap list_omap].
  change (kv_tok (lit "=yend")) with (Some (@nil Z, lit "yend")).
  rewrite !kv_tok_eq by (repeat constructor; done).
  cbn [fold_result].
  change (end_field ?t ([], ?v)) with (@Ok YencTrailer YencError t). cbn [result_bind].
  change (end_field ?t (lit "size", ?v)) with
    (result_bind (ok_or (parse_u64 v) (Malformed (lit "bad =yend size"))) (fun n =>
      Ok {| t_size := n; t_part := t_part t; t_pcrc32 := t_pcrc32 t; t_crc32 := t_crc32 t |})).
  rewrite parse_u64_show by done. cbn [ok_or result_bind].
  change (end_field ?t (lit "part", ?v)) with
    (@Ok YencTrailer YencError {| t_size := t_size t; t_part := wrap32 <$> parse_u64 v;
       t_pcrc32 := t_pcrc32 t; t_crc32 := t_crc32 t |}).
  rewrite parse_u64_show by (by apply u32_u64). cbn [result_bind].
  change (end_field ?t (lit "pcrc32", ?v)) with
    (@Ok YencTrailer YencError {| t_size := t_size t; t_part := t_part t;
       t_pcrc32 := parse_hex32 v; t_crc32 := t_crc32 t |}).
  rewrite parse_hex32_show by done. cbn. by rewrite wrap32_id.
Qed.

(** ** The decoder inverts the encoder *)

Section Roundtrip.
Context {H : Type} {crc : Crc32Hasher H}.
Implicit Types (d : YencDecoder H) (out s : bytes).

(** [d] reads all of [s] without an error. *)
Definition runs d s out d' out' : Prop :=
  forall i, push_loop d s out i = (d', out', Ok (i + length s)%nat).

Lemma runs_nil d out : runs d [] out d out.
Proof. intros i. simpl. by rewrite Nat.add_0_r. Qed.

Lemma runs_app d a b out d1 out1 d2 out2 :
  runs d a out d1 out1 -> runs d1 b out1 d2 out2 -> runs d (a ++ b) out d2 out2.
Proof.
  intros Ha Hb i. rewrite push_loop_app, Ha, Hb, length_app. do 2 f_equal. lia.
Qed.

Lemma runs_cons d b s out d1 out1 d2 out2 :
  finished d = false -> push_byte d b out = (d1, out1, None) ->
  runs d1 s out1 d2 out2 -> runs d (b :: s) out d2 out2.
Proof.
  intros Hf Hb Hs i. simpl. rewrite Hf, Hb, Hs. do 2 f_equal. simpl. lia.
Qed.

(** A line outside the body, with its CRLF. *)
Lemma runs_line_chars d l out : d_state d <> Body -> finished d = false ->
  Forall (fun b => b <> 10) l -> Z.of_nat (length (line_buf d) + length l) <= MAX_LINE ->
  runs d l out (set_line_buf (line_buf d ++ l) d) out.
Proof.
  intros Hst Hf Hl. revert d Hst Hf. induction Hl as [|b l Hb Hl IH]; intros d Hst Hf Hlen.
  { rewrite app_nil_r. destruct d. apply runs_nil. }
  simpl in Hlen.
  eapply runs_cons; [done| |].
  - unfold push_byte. destruct (b =? 10) eqn:?; [lia|].
    destruct (MAX_LINE <=? _) eqn:?; [lia|].
    destruct (d_state d); try done.
  - specialize (IH (set_line_buf (line_buf d ++ [b]) d)). simpl in IH.
    rewrite <- app_assoc in IH. apply IH; [done|done|]. rewrite length_app. simpl. lia.
Qed.

Lemma runs_line d l out d' : d_state d <> Body -> finished d = false ->
  Forall (fun b => b <> 10) l -> Z.of_nat (length (line_buf d) + length l) < MAX_LINE ->
  take_line (set_line_buf (line_buf d ++ l ++ [13]) d) = (d', None) ->
  runs d (l ++ [13; 10]) out d' out.
Proof.
  intros Hst Hf Hl Hlen Ht. change [13; 10] with ([13] ++ [10]). rewrite app_assoc.
  eapply runs_app; [apply runs_line_chars; [done..| |]|].
  - apply Forall_app. split; [done|]. by repeat constructor.
  - rewrite length_app. simpl. lia.
  - eapply runs_cons; [done| |apply runs_nil].
    unfold push_byte. simpl. rewrite Ht. by destruct (d_state d).
Qed.

Lemma line_of_crlf d l l0 : line_buf d = l0 ++ l ++ [13] ->
  (if bool_decide (last (line_buf d) = Some 13) then removelast (line_buf d) else line_buf d)
  = l0 ++ l.
Proof.
  intros ->. rewrite app_assoc, last_snoc, bool_decide_true by done. apply removelast_last.
Qed.

(** The body: state [Body] with no pending sub-state, at a line start or not. *)
Definition in_body (ls : bool) (hd : YencHeader) : YencDecoder H :=
  mkDecoder Body [] hd YencTrailer_default hasher_new 0 false ls false 0 false.

Definition enc_byte (b : Z) : bytes :=
  let enc := wrap8 (b + 42) in
  if bool_decide (enc ∈ [0x00; 0x0A; 0x0D; 0x3D]) then [61; wrap8 (enc + 64)] else [enc].

Lemma dec_enc b : is_u8 b -> wrap8 (wrap8 (b + 42) - 42) = b.
Proof.
  unfold is_u8, u8_max, wrap8. intros. rewrite Zminus_mod_idemp_l.
  replace (b + 42 - 42) with b by lia. apply Z.mod_small. lia.
Qed.

Lemma dec_enc_escaped b : is_u8 b -> wrap8 (wrap8 (wrap8 (b + 42) + 64) - 106) = b.
Proof.
  unfold is_u8, u8_max, wrap8. intros.
  rewrite Zminus_mod_idemp_l, <- (Zminus_mod_idemp_l _ 106), Zplus_mod_idemp_l, Zminus_mod_idemp_l.
  replace (b + 42 + 64 - 106) with b by lia. apply Z.mod_small. lia.
Qed.

(** One data byte on the wire, at a line start ([ls]) or not, is one byte out. *)
Lemma runs_enc ls hd b tl out : is_u8 b ->
  exists w, dot_stuff ls (enc_byte b ++ tl) = w ++ dot_stuff false tl /\
    runs (in_body ls hd) w out (in_body false hd) (out ++ [b]).
Proof.
  intros Hb. unfold enc_byte. case_if; bool_hyps.
  - assert (Hx : wrap8 (wrap8 (b + 42) + 64) ∈ [64; 74; 77; 125]).
    { revert Heqb0. generalize (wrap8 (b + 42)). intros e He.
      repeat (apply elem_of_cons in He as [->|He]; [vm_compute; by repeat constructor|]). by apply elem_of_nil in He. }
    pose proof (dec_enc_escaped b Hb) as Hdec. revert Hx Hdec.
    generalize (wrap8 (wrap8 (b + 42) + 64)). intros x Hx Hdec.
    exists [61; x]. split.
    + repeat (apply elem_of_cons in Hx as [->|Hx]; [by destruct ls|]). by apply elem_of_nil in Hx.
    + assert (Hn : x <> 13 /\ x <> 10 /\ x <> 121) by (rewrite !elem_of_cons, elem_of_nil in Hx; lia).
      destruct ls.
      * eapply runs_cons; [done|reflexivity|].
        eapply runs_cons; [done| |apply runs_nil]. simpl.
        unfold push_byte, body_byte; simpl.
        destruct (x =? 121) eqn:?; [lia|]. destruct (x =? 13) eqn:?; [lia|].
        destruct (x =? 10) eqn:?; [lia|]. unfold emit_escaped. rewrite Hdec. done.
      * eapply runs_cons; [done|reflexivity|].
        eapply runs_cons; [done| |apply runs_nil]. simpl.
        unfold push_byte, body_byte; simpl.
        destruct (x =? 13) eqn:?; [lia|].
        destruct (x =? 10) eqn:?; [lia|]. unfold emit_escaped. rewrite Hdec. done.
  - pose proof (dec_enc b Hb) as Hdec. revert Heqb0 Hdec.
    generalize (wrap8 (b + 42)). intros x Hx Hdec.
    assert (Hn : x <> 0 /\ x <> 10 /\ x <> 13 /\ x <> 61) by (rewrite !elem_of_cons, elem_of_nil in Hx; lia).
    exists ((if ls && (x =? 46) then [46] else []) ++ [x]). split.
    + simpl. rewrite <- app_assoc. simpl. do 2 f_equal.
      by destruct (x =? 10) eqn:?; [lia|].
    + destruct (ls && (x =? 46)) eqn:Hd; bool_hyps.
      * subst x ls. eapply runs_cons; [done|reflexivity|].
        eapply runs_cons; [done|reflexivity|]. simpl. unfold emit. rewrite Hdec. apply runs_nil.
      * eapply runs_cons; [done| |apply runs_nil].
        unfold push_byte, body_byte; simpl. rewrite Hd.
        destruct (x =? 61) eqn:?; [lia|]. rewrite andb_false_r.
        destruct (x =? 13) eqn:?; [lia|].
        destruct (x =? 10) eqn:?; [lia|]. unfold emit. rewrite Hdec. done.
Qed.

Lemma yenc_body_cons b data col :
  exists w, 1 <= w /\ yenc_body (b :: data) col =
    enc_byte b ++ (if LINE <=? col + w then [13; 10] ++ yenc_body data 0 else yenc_body data (col + w)).
Proof.
  cbn [yenc_body]. unfold enc_byte. case_if; [exists 2|exists 1]; (split; [lia|]); by case_if.
Qed.

Lemma runs_body hd data : forall col out tl, Forall is_u8 data -> 0 <= col ->
  exists w, dot_stuff (col =? 0) (yenc_body data col ++ tl) = w ++ dot_stuff true tl /\
    runs (in_body (col =? 0) hd) w out (in_body true hd) (out ++ data).
Proof.
  induction data as [|b data IH]; intros col out tl Hd Hcol.
  { rewrite app_nil_r. cbn [yenc_body]. destruct (0 <? col) eqn:?.
    - exists [13; 10]. replace (col =? 0) with false by lia. split; [done|].
      eapply runs_cons; [done|reflexivity|]. eapply runs_cons; [done|reflexivity|]. apply runs_nil.
    - exists []. replace (col =? 0) with true by lia. split; [done|]. apply runs_nil. }
  apply Forall_cons in Hd as [Hb Hd].
  destruct (yenc_body_cons b data col) as (w & Hw & ->). rewrite <- app_assoc.
  destruct (runs_enc (col =? 0) hd b
    ((if LINE <=? col + w then [13; 10] ++ yenc_body data 0 else yenc_body data (col + w)) ++ tl)
    out Hb) as (w1 & -> & Hrun1).
  case_if; bool_hyps.
  - destruct (IH 0 (out ++ [b]) tl Hd ltac:(lia)) as (w2 & Hst & Hrun2). simpl in Hst, Hrun2.
    exists (w1 ++ [13; 10] ++ w2). split.
    { rewrite <- !app_assoc. simpl. by rewrite Hst. }
    eapply runs_app; [exact Hrun1|].
    eapply runs_app; [|rewrite <- app_assoc in Hrun2; exact Hrun2].
    eapply runs_cons; [done|reflexivity|]. eapply runs_cons; [done|reflexivity|]. apply runs_nil.
  - destruct (IH (col + w) (out ++ [b]) tl Hd ltac:(lia)) as (w2 & Hst & Hrun2).
    replace (col + w =? 0) with false in * by lia.
    exists (w1 ++ w2). rewrite Hst, app_assoc. split; [done|].
    eapply runs_app; [exact Hrun1|]. rewrite <- app_assoc in Hrun2. exact Hrun2.
Qed.

(** Dot-stuffing leaves a control line alone. *)
Lemma dot_stuff_line l tl : Forall (fun b => b <> 10) l -> head l <> Some 46 ->
  dot_stuff true (l ++ [13; 10] ++ tl) = l ++ [13; 10] ++ dot_stuff true tl.
Proof.
  assert (Hfalse : forall l, Forall (fun b => b <> 10) l ->
    dot_stuff false (l ++ [13; 10] ++ tl) = l ++ [13; 10] ++ dot_stuff true tl).
  { clear l. induction 1 as [|b l Hb Hl IH]; [done|]. simpl app at 1.
    cbn [dot_stuff]. replace (b =? 10) with false by lia. simpl in *. by rewrite IH. }
  intros Hl Hh. destruct l as [|b l]; [done|].
  apply Forall_cons in Hl as [Hb Hl]. simpl in Hh.
  cbn [app dot_stuff]. replace (b =? 10) with false by lia.
  destruct (true && (b =? 46)) eqn:E; [bool_hyps; by subst|].
  simpl. f_equal. by apply Hfalse.
Qed.

Lemma tok_no_lf l : Forall tok_byte l -> Forall (fun b => b <> 10) l.
Proof. intros Hl. eapply Forall_impl; [exact Hl|]. unfold tok_byte. simpl. lia. Qed.

Lemma join_sp_no_lf t0 ts : Forall tok_byte t0 -> Forall (Forall tok_byte) ts ->
  Forall (fun b => b <> 10) (join_sp t0 ts).
Proof.
  intros H0 Hts. apply Forall_app. split; [by apply tok_no_lf|].
  induction Hts as [|t ts Ht Hts IH]; simpl; [constructor|]. constructor; [lia|].
  apply Forall_app. split; [by apply tok_no_lf|done].
Qed.

Lemma utf8_no_lf s : Forall is_scalar s -> Forall (fun c => c <> 10) s ->
  Forall (fun b => b <> 10) (utf8_encode s).
Proof.
  intros Hs. induction Hs as [|c s [Hc _] Hs IH]; intros Hl; [constructor|].
  apply Forall_cons in Hl as [Hn Hl].
  change (utf8_encode (c :: s)) with (utf8_encode_char c ++ utf8_encode s).
  apply Forall_app. split; [|by apply IH].
  unfold utf8_encode_char.
  pose proof (base64_split c ltac:(lia)). pose proof (base64_split (c / 64) ltac:(lia)).
  pose proof (Z.mod_pos_bound (c / 4096) 64). pose proof (Z.mod_pos_bound c 64).
  pose proof (Z.div_pos c 4096). pose proof (Z.div_pos c 262144).
  repeat case_if; bool_hyps; repeat constructor; lia.
Qed.

Lemma show_radix_length radix fuel n : (length (show_radix_fuel fuel radix n) <= fuel)%nat.
Proof.
  revert n. induction fuel as [|fuel IH]; intros n; simpl; [done|].
  case_if; simpl; [lia|]. rewrite length_app. simpl. specialize (IH (n / radix)). lia.
Qed.

Lemma log2_u64 n : 0 <= n <= u64_max -> Z.log2 n < 64.
Proof.
  intros Hn. destruct (Z.eq_dec n 0) as [->|]; [done|].
  apply Z.log2_lt_pow2; unfold u64_max in *; lia.
Qed.

Lemma show_radix_u64 radix n : 0 <= n <= u64_max -> (length (show_radix radix n) <= 65)%nat.
Proof.
  intros Hn. unfold show_radix. etransitivity; [apply show_radix_length|].
  pose proof (log2_u64 n Hn). lia.
Qed.

Lemma pad_length w s : (length (pad_zeros w s) <= w + length s)%nat.
Proof. unfold pad_zeros. rewrite length_app, length_replicate. lia. Qed.

Definition full_header (nm : str) (file_size part total begin end_ : Z) : YencHeader := {|
  h_name := nm; h_size := file_size; h_part := Some part; h_total := Some total;
  h_begin := Some begin; h_end := Some end_ |}.

Lemma runs_ybegin nm file_size part total out :
  Forall is_scalar nm -> trim nm = nm -> Forall (fun c => c <> 10) nm ->
  0 < file_size <= u64_max -> is_u32 part -> is_u32 total ->
  utf8_len (ybegin_line nm file_size part total) < MAX_LINE ->
  runs decoder_new (utf8_encode (ybegin_line nm file_size part total) ++ [13; 10]) out
    (set_state ExpectPart (set_header (wire_header nm file_size part total) decoder_new)) out.
Proof.
  intros Hsc Htrim Hlf Hfs Hp Ht Hlen.
  assert (Hnn : 0 <= file_size /\ 0 <= part /\ 0 <= total) by (unfold is_u32 in *; lia).
  destruct Hnn as (N1 & N2 & N3).
  assert (Hu : utf8_encode (ybegin_line nm file_size part total) =
    lit "=ybegin " ++ drop 8 (utf8_encode (ybegin_line nm file_size part total))).
  { unfold ybegin_line. rewrite utf8_encode_app. done. }
  apply runs_line; [done|done| | |].
  - rewrite ybegin_line_join, !utf8_encode_app, utf8_encode_join by
      (tok_lit || by apply ybegin_toks_ok).
    apply Forall_app. split; [apply join_sp_no_lf; [tok_lit|by apply ybegin_toks_ok]|].
    apply Forall_app. split; [by repeat constructor|by apply utf8_no_lf].
  - exact Hlen.
  - unfold take_line. erewrite (line_of_crlf _ _ []) by reflexivity. cbn [app d_state set_line_buf].
    change (d_state decoder_new) with Pre. cbv iota.
    rewrite (proj2 (starts_with_true _ _)) by eauto.
    rewrite parse_begin_wire by done. done.
Qed.

Lemma runs_ypart nm file_size part total begin end_ out :
  1 <= begin <= end_ -> end_ <= u64_max ->
  runs (set_state ExpectPart (set_header (wire_header nm file_size part total) decoder_new))
    (utf8_encode (ypart_line begin end_) ++ [13; 10]) out
    (in_body true (full_header nm file_size part total begin end_)) out.
Proof.
  intros Hb He.
  assert (Hok : Forall (Forall tok_byte) (ypart_toks begin end_)) by (apply ypart_toks_ok; lia).
  rewrite ypart_line_join, utf8_encode_join by (tok_lit || done).
  apply runs_line; [done|done|apply join_sp_no_lf; [tok_lit|done]| |].
  - unfold join_sp, ypart_toks, show_dec. cbn [map concat line_buf set_state set_header decoder_new].
    rewrite ?length_app, ?length_cons, ?length_app. simpl length.
    pose proof (show_radix_u64 10 begin ltac:(lia)). pose proof (show_radix_u64 10 end_ ltac:(lia)).
    rewrite ?length_app. unfold MAX_LINE. simpl. rewrite ?length_app. simpl. lia.
  - unfold take_line. erewrite (line_of_crlf _ _ []) by reflexivity.
    rewrite <- ypart_line_join. cbn [app d_state set_line_buf set_state].
    rewrite (proj2 (starts_with_true (lit "=ypart ") _)) by (unfold ypart_line; eexists; reflexivity).
    by rewrite parse_part_wire.
Qed.

Lemma runs_yend hd len part c out :
  is_u64 len -> is_u32 part -> is_u32 c ->
  runs (in_body true hd) (utf8_encode (yend_line len part c) ++ [13; 10]) out
    (mkDecoder Drain [] hd {| t_size := len; t_part := Some part; t_pcrc32 := Some c; t_crc32 := None |}
       hasher_new 0 false false false 0 false) out.
Proof.
  intros Hl Hp Hc.
  assert (Hok : Forall (Forall tok_byte) (yend_toks len part c))
    by (apply yend_toks_ok; unfold is_u64, is_u32 in *; lia).
  assert (Hu : yend_line len part c = lit "=y" ++ drop 2 (yend_line len part c)) by done.
  assert (Hlf : Forall (fun b => b <> 10) (yend_line len part c))
    by (rewrite yend_line_join; apply join_sp_no_lf; [tok_lit|done]).
  assert (Hlen : Z.of_nat (length (yend_line len part c)) < MAX_LINE).
  { unfold yend_line, show_dec. rewrite !length_app.
    pose proof (show_radix_u64 10 len Hl).
    pose proof (show_radix_u64 10 part ltac:(by apply u32_u64)).
    pose proof (show_radix_u64 16 c ltac:(by apply u32_u64)).
    pose proof (pad_length 8 (show_radix 16 c)). unfold MAX_LINE. simpl length. lia. }
  rewrite yend_line_join, utf8_encode_join, <- yend_line_join by (tok_lit || done).
  rewrite Hu at 1. rewrite <- app_assoc.
  eapply runs_app.
  { eapply runs_cons; [done|reflexivity|]. eapply runs_cons; [done|reflexivity|]. apply runs_nil. }
  rewrite Hu in Hlf. apply Forall_app in Hlf as [_ Hlf].
  apply runs_line; [done|done|done| |].
  - rewrite Hu, length_app in Hlen. exact Hlen.
  - unfold take_line. erewrite (line_of_crlf _ _ (lit "=y")) by reflexivity.
    rewrite <- Hu. cbn [d_state set_line_buf set_state].
    rewrite (proj2 (starts_with_true (lit "=yend") _)) by (unfold yend_line; eexists; reflexivity).
    by rewrite parse_end_wire.
Qed.

(** What the stuffing needs of the three control lines. *)
Definition plain_line (l : bytes) : Prop := Forall (fun b => b <> 10) l /\ head l <> Some 46.

Lemma ybegin_no_lf nm file_size part total : Forall is_scalar nm -> Forall (fun c => c <> 10) nm ->
  0 <= file_size -> 0 <= part -> 0 <= total ->
  plain_line (utf8_encode (ybegin_line nm file_size part total)).
Proof.
  intros. split; [|done].
  rewrite ybegin_line_join, !utf8_encode_app, utf8_encode_join by (tok_lit || by apply ybegin_toks_ok).
  apply Forall_app. split; [apply join_sp_no_lf; [tok_lit|by apply ybegin_toks_ok]|].
  apply Forall_app. split; [by repeat constructor|by apply utf8_no_lf].
Qed.

Lemma ypart_no_lf begin end_ : 0 <= begin -> 0 <= end_ -> plain_line (utf8_encode (ypart_line begin end_)).
Proof.
  intros. split; [|done].
  rewrite ypart_line_join, utf8_encode_join by (tok_lit || by apply ypart_toks_ok).
  apply join_sp_no_lf; [tok_lit|by apply ypart_toks_ok].
Qed.

Lemma yend_no_lf len part c : 0 <= len -> 0 <= part -> 0 <= c ->
  plain_line (utf8_encode (yend_line len part c)).
Proof.
  intros. split; [|done].
  rewrite yend_line_join, utf8_encode_join by (tok_lit || by apply yend_toks_ok).
  apply join_sp_no_lf; [tok_lit|by apply yend_toks_ok].
Qed.

(** The whole article, read in one piece. *)
Lemma runs_wire nm data file_size part total begin end_ crc_override :
  Forall is_scalar nm -> trim nm = nm -> Forall (fun c => c <> 10) nm ->
  utf8_len (ybegin_line nm file_size part total) < MAX_LINE ->
  Forall is_u8 data -> is_u64 (Z.of_nat (length data)) ->
  0 < file_size <= u64_max -> is_u32 part -> is_u32 total ->
  1 <= begin <= end_ -> end_ <= u64_max -> is_u32 (default (crc32 data) crc_override) ->
  runs decoder_new (yenc_wire nm data file_size part total begin end_ crc_override) []
    (mkDecoder Drain [] (full_header nm file_size part total begin end_)
       {| t_size := Z.of_nat (length data); t_part := Some part;
          t_pcrc32 := Some (default (crc32 data) crc_override); t_crc32 := None |}
       hasher_new 0 false false false 0 true) data.
Proof.
  intros Hsc Htrim Hlf Hlen Hd Hdl Hfs Hp Ht Hb He Hc.
  unfold yenc_wire. set (c := default (crc32 data) crc_override) in *.
  assert (Hnn : 0 <= file_size /\ 0 <= part /\ 0 <= total /\ 0 <= c) by (unfold is_u32 in *; lia).
  destruct Hnn as (N1 & N2 & N3 & N4).
  pose proof (ybegin_no_lf nm file_size part total Hsc Hlf N1 N2 N3) as (B1 & B2).
  pose proof (ypart_no_lf begin end_ ltac:(lia) ltac:(lia)) as (P1 & P2).
  pose proof (yend_no_lf (Z.of_nat (length data)) part c ltac:(lia) N2 N4) as (E1 & E2).
  pose proof (runs_ybegin nm file_size part total [] Hsc Htrim Hlf Hfs Hp Ht Hlen) as R1.
  pose proof (runs_ypart nm file_size part total begin end_ [] Hb He) as R2.
  set (hd := full_header nm file_size part total begin end_) in *.
  pose proof (runs_yend hd (Z.of_nat (length data)) part c data Hdl Hp Hc) as R4.
  set (yb := utf8_encode (ybegin_line nm file_size part total)) in *.
  set (yp := utf8_encode (ypart_line begin end_)) in *.
  set (ye := utf8_encode (yend_line (Z.of_nat (length data)) part c)) in *.
  clearbody yb yp ye.
  destruct (runs_body hd data 0 [] (ye ++ [13; 10]) Hd ltac:(lia)) as (w & Hw & R3).
  rewrite (dot_stuff_line yb), (dot_stuff_line yp) by done.
  change (0 =? 0) with true in Hw, R3. rewrite Hw.
  pose proof (dot_stuff_line ye [] E1 E2) as Hye. cbn [dot_stuff] in Hye. rewrite app_nil_r in Hye.
  rewrite Hye, <- !app_assoc. rewrite (app_assoc yb), (app_assoc yp), (app_assoc ye).
  eapply runs_app; [exact R1|]. eapply runs_app; [exact R2|].
  eapply runs_app; [exact R3|]. eapply runs_app; [exact R4|].
  do 3 (eapply runs_cons; [done|reflexivity|]). apply runs_nil.
Qed.

(** C1: decoding inverts encoding.  For every article [yenc_wire] writes (any
    payload, any UTF-8 name without a line feed or surrounding blanks that fits
    the line limit, any part numbers and byte range), read in chunks of any
    sizes with the next response already behind it, the decoder finishes at the
    article's end, returns the payload byte for byte, the header's fields and
    [offset = begin - 1]; the checksum verdict compares the trailer's
    [pcrc32] with the payload's CRC-32 and the length verdict the payload with
    the part's range. *)
Theorem yenc_roundtrip nm data file_size part total begin end_ crc_override chunks next :
  Forall is_scalar nm -> trim nm = nm -> Forall (fun c => c <> 10) nm ->
  utf8_len (ybegin_line nm file_size part total) < MAX_LINE ->
  Forall is_u8 data -> is_u64 (Z.of_nat (length data)) ->
  0 < file_size <= u64_max -> is_u32 part -> is_u32 total ->
  1 <= begin <= end_ -> end_ <= u64_max -> is_u32 (default (crc32 data) crc_override) ->
  concat chunks = yenc_wire nm data file_size part total begin end_ crc_override ++ next ->
  exists r, decode chunks = Ok (Some r, Some (full_header nm file_size part total begin end_), data, next) /\
    r_header r = full_header nm file_size part total begin end_ /\
    r_offset r = begin - 1 /\
    r_decoded_len r = Z.of_nat (length data) /\
    r_crc32 r = crc32 data /\
    r_crc_ok r = Some (default (crc32 data) crc_override =? crc32 data) /\
    r_len_ok r = (Z.of_nat (length data) =? end_ - begin + 1).
Proof.
  intros Hsc Htrim Hlf Hlen Hd Hdl Hfs Hp Ht Hb He Hc Hch.
  pose proof (runs_wire nm data file_size part total begin end_ crc_override
    Hsc Htrim Hlf Hlen Hd Hdl Hfs Hp Ht Hb He Hc 0%nat) as R.
  rewrite decode_spec, Hch. unfold decode_stream.
  rewrite push_loop_app, R, push_loop_finished by done. rewrite Nat.add_0_l, drop_app_length.
  unfold take_result, header. simpl.
  destruct (0 <? file_size) eqn:?; [|lia]. simpl.
  eexists. split; [reflexivity|]. simpl. split_and!; rewrite ?crc32_eq; try done.
  - unfold sat_sub. lia.
  - rewrite Z.eqb_refl. simpl. by destruct (begin <=? end_) eqn:?; [|lia].
Qed.

End Roundtrip.

Lemma yenc_roundtrip_witness :
  let w := yenc_wire (lit "a b.bin") [1; 19; 4; 214] 10 1 1 3 6 None in
  exists r, decode [take 30 w; drop 30 w ++ [50]]
    = Ok (Some r, Some (full_header (lit "a b.bin") 10 1 1 3 6), [1; 19; 4; 214], [50]) /\
    r_header r = full_header (lit "a b.bin") 10 1 1 3 6 /\
    r_offset r = 3 - 1 /\ r_decoded_len r = 4 /\
    r_crc32 r = crc32 [1; 19; 4; 214] /\
    r_crc_ok r = Some (default (crc32 [1; 19; 4; 214]) None =? crc32 [1; 19; 4; 214]) /\
    r_len_ok r = (4 =? 6 - 3 + 1).
Proof.
  intros w.
  apply (yenc_roundtrip (lit "a b.bin") [1; 19; 4; 214] 10 1 1 3 6 None [take 30 w; drop 30 w ++ [50]] [50]).
  - repeat constructor; vm_compute; intuition discriminate.
  - reflexivity.
  - by repeat constructor.
  - reflexivity.
  - repeat constructor; vm_compute; discriminate.
  - split; vm_compute; discriminate.
  - split; [reflexivity | vm_compute; discriminate].
  - split; vm_compute; discriminate.
  - split; vm_compute; discriminate.
  - split; vm_compute; discriminate.
  - vm_compute; discriminate.
  - split; vm_compute; discriminate.
  - reflexivity.
Defined.
