(* ===== verification/Failover.v ===== *)
(** * The per-article failover ladder ([crates/nzbd-engine/src/failover.rs])

    [SegmentAttempt] is the bookkeeping of one article, [Ladder] the server
    configuration.  [current_candidates] is the loop that escalates tiers,
    [on_outcome] applies the result of an attempt.  The theorems: what the
    loop returns and that it always returns, when an article is given up, that
    a failed server and its group are never offered again, and a bound on the
    failing attempts any schedule can make. *)

From S2P Require Import Prelude Types.

Inductive AttemptOutcome :=
| Success | ConnectionFailed | ArticleMissing | CrcError | RetentionExceeded | Other.

Inductive Selection :=
| Server (id : ServerId) | Sel_WaitForBlocked | Sel_Exhausted.

Inductive Verdict :=
| Verdict_Done | RetrySame (block_server : bool) | NextServer | Verdict_Failed.

Inductive Candidates :=
| Servers (ids : list ServerId) | WaitForBlocked | Exhausted.

Record SegmentAttempt := {
  att_tier : Z;
  failed : gset ServerId;
  retries_left : Z;
  initial_retries : Z
}.

Definition attempt_new (retries : Z) : SegmentAttempt := {|
  att_tier := 0; failed := ∅; retries_left := retries; initial_retries := retries |}.

(** [Iterator::max] with [unwrap_or(0)]. *)
Definition max_or_0 (l : list Z) : Z :=
  match l with
  | [] => 0
  | x :: xs => fold_left Z.max xs x
  end.

Record Ladder := { servers : list ServerDef; max_tier : Z }.

Definition ladder_new (ss : list ServerDef) : Ladder := {|
  servers := ss;
  max_tier := max_or_0 (map tier (List.filter active ss)) |}.

Definition contains_id (att : SegmentAttempt) (id : ServerId) : bool :=
  bool_decide (id ∈ failed att).

Definition is_group_failed (l : Ladder) (att : SegmentAttempt) (s : ServerDef) : bool :=
  if contains_id att (server_id s) then true
  else
    negb (group s =? 0) &&
    existsb (fun other =>
      (tier other =? tier s) && (group other =? group s) && contains_id att (server_id other))
      (servers l).

Definition retention_exceeded (s : ServerDef) (article_age_days : option Z) : bool :=
  match article_age_days with
  | Some age => (0 <? retention_days s) && (retention_days s <? age)
  | None => false
  end.

Definition with_tier (t : Z) (att : SegmentAttempt) : SegmentAttempt := {|
  att_tier := t; failed := failed att; retries_left := retries_left att;
  initial_retries := initial_retries att |}.

(** The [filter] of one turn of the loop. *)
Definition eligible (l : Ladder) (att : SegmentAttempt) (age : option Z) : list ServerDef :=
  List.filter (fun s =>
    active s && (tier s =? att_tier att) && negb (is_group_failed l att s)
    && negb (retention_exceeded s age)) (servers l).

(** The [loop].  Each turn either returns or moves one tier up, so
    [max_tier - tier + 1] turns suffice ([candidates_fuel_enough]). *)
Fixpoint candidates_loop (fuel : nat) (l : Ladder) (att : SegmentAttempt)
    (is_blocked : ServerId -> bool) (age : option Z) : SegmentAttempt * Candidates :=
  match fuel with
  | O => (att, Exhausted)
  | S fuel' =>
      let candidates := eligible l att age in
      if bool_decide (candidates = []) then
        if max_tier l <=? att_tier att then (att, Exhausted)
        else candidates_loop fuel' l (with_tier (att_tier att + 1) att) is_blocked age
      else
        let usable := map server_id (List.filter (fun s => negb (is_blocked (server_id s))) candidates) in
        if negb (bool_decide (usable = [])) then (att, Servers usable)
        else if forallb fill candidates then
          if max_tier l <=? att_tier att then (att, Exhausted)
          else candidates_loop fuel' l (with_tier (att_tier att + 1) att) is_blocked age
        else (att, WaitForBlocked)
  end.

Definition ladder_fuel (l : Ladder) (att : SegmentAttempt) : nat :=
  S (Z.to_nat (max_tier l - att_tier att)).

Definition current_candidates (l : Ladder) (att : SegmentAttempt)
    (is_blocked : ServerId -> bool) (age : option Z) : SegmentAttempt * Candidates :=
  candidates_loop (ladder_fuel l att) l att is_blocked age.

(** [v[0]] would panic on an empty list; [current_candidates_spec] excludes it. *)
Definition select (l : Ladder) (att : SegmentAttempt) (is_blocked : ServerId -> bool)
    : run (SegmentAttempt * Selection) :=
  match current_candidates l att is_blocked None with
  | (att', Servers (v0 :: _)) => Ret (att', Server v0)
  | (att', Servers []) => Panic
  | (att', WaitForBlocked) => Ret (att', Sel_WaitForBlocked)
  | (att', Exhausted) => Ret (att', Sel_Exhausted)
  end.

Definition is_exhausted (l : Ladder) (att : SegmentAttempt) (age : option Z)
    : SegmentAttempt * bool :=
  let '(att', c) := current_candidates l att (fun _ => false) age in
  (att', match c with Exhausted => true | _ => false end).

Definition fail_server (server : ServerId) (att : SegmentAttempt) : SegmentAttempt := {|
  att_tier := att_tier att; failed := {[ server ]} ∪ failed att;
  retries_left := retries_left att; initial_retries := initial_retries att |}.

Definition with_retries (n : Z) (att : SegmentAttempt) : SegmentAttempt := {|
  att_tier := att_tier att; failed := failed att; retries_left := n;
  initial_retries := initial_retries att |}.

Definition on_outcome (att : SegmentAttempt) (server : ServerId) (outcome : AttemptOutcome)
    : SegmentAttempt * Verdict :=
  match outcome with
  | Success => (att, Verdict_Done)
  | ConnectionFailed => (att, RetrySame true)
  | ArticleMissing | CrcError | RetentionExceeded => (fail_server server att, NextServer)
  | Other =>
      if 1 <? retries_left att then
        (with_retries (retries_left att - 1) att, RetrySame false)
      else
        (with_retries (initial_retries att) (fail_server server att), NextServer)
  end.

(** ** The loop *)

Definition usable (l : Ladder) (att : SegmentAttempt) (is_blocked : ServerId -> bool)
    (age : option Z) : list ServerId :=
  map server_id (List.filter (fun s => negb (is_blocked (server_id s))) (eligible l att age)).

(** A tier the ladder passes over: nothing eligible, or only blocked fill
    servers. *)
Definition skippable (l : Ladder) (att : SegmentAttempt) (is_blocked : ServerId -> bool)
    (age : option Z) (t : Z) : Prop :=
  forall s, s ∈ eligible l (with_tier t att) age ->
    is_blocked (server_id s) = true /\
    (forall s', s' ∈ eligible l (with_tier t att) age -> fill s' = true).

Lemma max_or_0_ge l x : x ∈ l -> x <= max_or_0 l.
Proof.
  assert (Hacc : forall l a, a <= fold_left Z.max l a).
  { clear. induction l as [|y l IH]; intros a; simpl; [done|]. specialize (IH (Z.max a y)). lia. }
  destruct l as [|y l]; [by intros ?%elem_of_nil|]. simpl.
  assert (Hall : forall l a z, z ∈ l -> z <= fold_left Z.max l a).
  { clear -Hacc. induction l as [|y l IH]; intros a z Hz; [by apply elem_of_nil in Hz|]. simpl.
    apply elem_of_cons in Hz as [->|Hz]; [|by apply IH]. specialize (Hacc l (Z.max a y)). lia. }
  intros [->|Hx]%elem_of_cons; [apply Hacc | by apply Hall].
Qed.

Lemma eligible_spec l att age s : s ∈ eligible l att age <->
  s ∈ servers l /\ active s = true /\ tier s = att_tier att /\
  is_group_failed l att s = false /\ retention_exceeded s age = false.
Proof.
  unfold eligible. rewrite elem_of_filter_bool, !andb_true_iff, !negb_true_iff, Z.eqb_eq. tauto.
Qed.

Lemma eligible_above ss att age : max_tier (ladder_new ss) < att_tier att ->
  eligible (ladder_new ss) att age = [].
Proof.
  intros Ht. apply elem_of_nil_inv. intros s (Hs & Ha & He & _)%eligible_spec.
  assert (tier s <= max_tier (ladder_new ss)); [|lia].
  apply max_or_0_ge, list_elem_of_fmap. exists s. split; [done|].
  by apply elem_of_filter_bool.
Qed.

Lemma skippable_nil l att blk age : eligible l att age = [] ->
  skippable l att blk age (att_tier att).
Proof.
  intros He s. replace (with_tier (att_tier att) att) with att by (by destruct att).
  rewrite He. by intros ?%elem_of_nil.
Qed.

Lemma skippable_fill l att blk age : usable l att blk age = [] ->
  forallb fill (eligible l att age) = true -> skippable l att blk age (att_tier att).
Proof.
  intros Hu Hf s. replace (with_tier (att_tier att) att) with att by (by destruct att).
  intros Hs. split.
  - destruct (blk (server_id s)) eqn:E; [done|].
    assert (server_id s ∈ usable l att blk age); [|by rewrite Hu, elem_of_nil in *].
    apply list_elem_of_fmap. exists s. split; [done|]. apply elem_of_filter_bool. by rewrite E.
  - intros s' Hs'. rewrite forallb_forall in Hf. by apply Hf, list_elem_of_In.
Qed.

Lemma with_tier_twice t t' att : with_tier t (with_tier t' att) = with_tier t att.
Proof. done. Qed.

(** What one call returns, for any fuel that covers the tiers. *)
Definition candidates_ok (l : Ladder) (att : SegmentAttempt) (blk : ServerId -> bool)
    (age : option Z) (att' : SegmentAttempt) (c : Candidates) : Prop :=
  att' = with_tier (att_tier att') att /\
  att_tier att <= att_tier att' /\
  (forall t, att_tier att <= t < att_tier att' -> skippable l att blk age t) /\
  match c with
  | Servers v => v = usable l att' blk age /\ v <> []
  | WaitForBlocked =>
      usable l att' blk age = [] /\ exists s, s ∈ eligible l att' age /\ fill s = false
  | Exhausted => forall t, att_tier att <= t -> skippable l att blk age t
  end.

Lemma candidates_ok_next l att blk age att' c :
  skippable l att blk age (att_tier att) ->
  candidates_ok l (with_tier (att_tier att + 1) att) blk age att' c ->
  candidates_ok l att blk age att' c.
Proof.
  intros Hsk (H1 & H2 & H3 & H4). unfold candidates_ok, skippable in *. simpl in *.
  rewrite with_tier_twice in H1. split; [done|]. split; [lia|]. split.
  - intros t Ht. destruct (decide (t = att_tier att)) as [->|]; [done|].
    apply (H3 t). lia.
  - destruct c; try done. intros t Ht.
    destruct (decide (t = att_tier att)) as [->|]; [done|]. apply (H4 t). lia.
Qed.

Lemma candidates_loop_spec ss fuel : forall att blk age,
  (Z.to_nat (max_tier (ladder_new ss) - att_tier att) < fuel)%nat ->
  let '(att', c) := candidates_loop fuel (ladder_new ss) att blk age in
  candidates_ok (ladder_new ss) att blk age att' c.
Proof.
  set (l := ladder_new ss).
  assert (Hid : forall att, att = with_tier (att_tier att) att) by (by intros []).
  assert (Htop : forall att blk age, max_tier l <= att_tier att ->
    skippable l att blk age (att_tier att) -> candidates_ok l att blk age att Exhausted).
  { intros att blk age Hle Hsk. split; [done|]. split; [lia|]. split; [intros; lia|].
    intros t Ht. destruct (decide (t = att_tier att)) as [->|]; [done|].
    intros s. unfold l. rewrite (eligible_above ss); [by intros ?%elem_of_nil|].
    unfold l in *. cbn [att_tier with_tier]. lia. }
  induction fuel as [|fuel IH]; intros att blk age Hf; [lia|]. cbn [candidates_loop].
  change (map server_id _) with (usable l att blk age).
  case_if; bool_hyps.
  - pose proof (skippable_nil _ _ blk _ Heqb).
    case_if; bool_hyps; [by apply Htop|].
    specialize (IH (with_tier (att_tier att + 1) att) blk age). cbn [att_tier with_tier] in IH.
    destruct (candidates_loop fuel l _ blk age) as [att' c].
    apply candidates_ok_next; [done|]. apply IH. lia.
  - case_if; bool_hyps.
    { split; [done|]. split; [lia|]. split; [intros; lia|]. done. }
    case_if.
    + pose proof (skippable_fill _ _ blk _ Heqb0 Heqb1).
      case_if; bool_hyps; [by apply Htop|].
      specialize (IH (with_tier (att_tier att + 1) att) blk age). cbn [att_tier with_tier] in IH.
      destruct (candidates_loop fuel l _ blk age) as [att' c].
      apply candidates_ok_next; [done|]. apply IH. lia.
    + split; [done|]. split; [lia|]. split; [intros; lia|]. split; [done|].
      apply not_true_iff_false in Heqb1. revert Heqb1. rewrite forallb_forall. clear -att.
      intros Hn. induction (eligible l att age) as [|s es IH].
      * destruct Hn. done.
      * destruct (fill s) eqn:Hs; [|exists s; split; [by left|done]].
        destruct IH as (s' & Hs' & Hf').
        { intros Hall. apply Hn. by intros x [<-|Hx]; [|apply Hall]. }
        exists s'. split; [by right|done].
Qed.

Lemma current_candidates_spec_aux ss att blk age :
  let '(att', c) := current_candidates (ladder_new ss) att blk age in
  candidates_ok (ladder_new ss) att blk age att' c.
Proof. apply candidates_loop_spec. unfold ladder_fuel. lia. Qed.

(** what the ladder offers.  [current_candidates] always returns (the loop
    ends at the last tier), keeps the failed set and the retries, and moves the
    tier only upwards past tiers with nothing eligible or only blocked fill
    servers.  A nonempty [Servers] list is exactly the eligible unblocked
    servers of the tier reached; [WaitForBlocked] means eligible servers exist
    there, all are blocked and one is not a fill server; [Exhausted] means
    every remaining tier is passed over. *)
Theorem current_candidates_spec ss att blk age :
  let l := ladder_new ss in
  let '(att', c) := current_candidates l att blk age in
  candidates_ok l att blk age att' c.
Proof. apply current_candidates_spec_aux. Qed.

Lemma current_candidates_spec_witness :
  let srv := {| server_id := 1; server_name := []; host := []; port := 563; tls := TlsMode_Tls;
                username := None; password := None; active := true; tier := 1; group := 0;
                fill := false; max_connections := 8; pipeline_depth := 2; retention_days := 0;
                cert_verification := Cert_Strict |} in
  candidates_ok (ladder_new [srv]) (attempt_new 3) (fun _ => false) None
    (with_tier 1 (attempt_new 3)) (Servers [1]).
Proof. intros srv. apply (current_candidates_spec [srv] (attempt_new 3) (fun _ => false) None). Defined.

(** More fuel than the ladder's own changes nothing: the loop has ended. *)
Lemma candidates_loop_more ss fuel k : forall att blk age,
  (Z.to_nat (max_tier (ladder_new ss) - att_tier att) < fuel)%nat ->
  candidates_loop (fuel + k) (ladder_new ss) att blk age =
  candidates_loop fuel (ladder_new ss) att blk age.
Proof.
  set (l := ladder_new ss). induction fuel as [|fuel IH]; intros att blk age Hf; [lia|].
  cbn [candidates_loop plus].
  repeat (case_if; bool_hyps; try done); apply IH; cbn [att_tier with_tier]; lia.
Qed.

Lemma candidates_fuel_enough ss att blk age k :
  candidates_loop (ladder_fuel (ladder_new ss) att + k) (ladder_new ss) att blk age =
  current_candidates (ladder_new ss) att blk age.
Proof. apply candidates_loop_more. unfold ladder_fuel. lia. Qed.

(** [select] never indexes an empty list, and picks an eligible unblocked
    server of the tier it leaves the article at. *)
Theorem select_no_panic ss att blk : exists att' sel,
  select (ladder_new ss) att blk = Ret (att', sel) /\
  forall id, sel = Server id -> id ∈ usable (ladder_new ss) att' blk None /\ blk id = false.
Proof.
  pose proof (current_candidates_spec_aux ss att blk None) as Hs.
  unfold select. destruct (current_candidates _ att blk None) as [att' c].
  destruct Hs as (_ & _ & _ & Hc). destruct c as [v| |];
    [|by do 2 eexists; split; [reflexivity|]..].
  destruct Hc as [Hv Hn]. destruct v as [|v0 v]; [done|].
  exists att', (Server v0). split; [done|]. intros id [= <-]. rewrite <- Hv. split; [by left|].
  assert (Hin : v0 ∈ usable (ladder_new ss) att' blk None) by (rewrite <- Hv; by left).
  apply list_elem_of_fmap in Hin as (s & -> & (_ & Hb)%elem_of_filter_bool).
  by apply negb_true_iff in Hb.
Qed.

(** an article is given up exactly when no server can ever have it.  With
    temporary blocks ignored, [is_exhausted] answers true iff every active
    server at the article's tier or above has failed it (itself or through its
    group) or is past its retention window. *)
Theorem is_exhausted_iff ss att age :
  snd (is_exhausted (ladder_new ss) att age) = true <->
  forall s, s ∈ ss -> active s = true -> att_tier att <= tier s ->
    is_group_failed (ladder_new ss) att s = true \/ retention_exceeded s age = true.
Proof.
  pose proof (current_candidates_spec_aux ss att (fun _ => false) age) as Hs.
  unfold is_exhausted. destruct (current_candidates _ att _ age) as [att' c].
  destruct Hs as (Heq & Hle & Hskip & Hc). simpl snd.
  assert (Hel : forall s t, s ∈ eligible (ladder_new ss) (with_tier t att) age <->
    s ∈ ss /\ active s = true /\ tier s = t /\ is_group_failed (ladder_new ss) att s = false
    /\ retention_exceeded s age = false) by (intros s t; exact (eligible_spec (ladder_new ss) (with_tier t att) age s)).
  split.
  - intros Hex s Hin Ha Ht. destruct c; [done..|].
    destruct (is_group_failed _ att s) eqn:Hg; [by left|].
    destruct (retention_exceeded s age) eqn:Hr; [by right|].
    destruct (Hc (tier s) Ht s) as [Hb _]; [|done]. apply Hel. done.
  - intros Hall.
    assert (Hnone : forall s, s ∈ eligible (ladder_new ss) att' age -> False).
    { intros s. rewrite Heq. rewrite Hel. intros (Hin & Ha & Ht & Hg & Hr).
      destruct (Hall s Hin Ha ltac:(lia)); congruence. }
    destruct c as [v| |]; [|..].
    + destruct Hc as [-> Hn]. destruct Hn. unfold usable.
      destruct (eligible (ladder_new ss) att' age) as [|s es]; [done|].
      destruct (Hnone s). by left.
    + destruct Hc as (_ & s & Hsin & _). by destruct (Hnone s).
    + done.
Qed.

(** ** Whole schedules *)

(** The attempts of one article in order: each server is one the ladder offered
    at that moment, under whatever blocks held then. *)
Inductive attempts (l : Ladder) (age : option Z) :
    SegmentAttempt -> list (ServerId * AttemptOutcome) -> SegmentAttempt -> Prop :=
| attempts_nil att : attempts l age att [] att
| attempts_step att att1 v blk srv o rest att2 :
    current_candidates l att blk age = (att1, Servers v) ->
    srv ∈ v ->
    attempts l age (fst (on_outcome att1 srv o)) rest att2 ->
    attempts l age att ((srv, o) :: rest) att2.

(** Outcomes that cost something, and the ones that fail the server at once. *)
Definition spends (o : AttemptOutcome) : bool :=
  match o with ArticleMissing | CrcError | RetentionExceeded | Other => true | _ => false end.
Definition fatal (o : AttemptOutcome) : bool :=
  match o with ArticleMissing | CrcError | RetentionExceeded => true | _ => false end.

Definition spent (log : list (ServerId * AttemptOutcome)) : Z :=
  Z.of_nat (length (List.filter (fun p => spends (snd p)) log)).

Lemma offered_server ss att blk age att1 v srv :
  current_candidates (ladder_new ss) att blk age = (att1, Servers v) -> srv ∈ v ->
  exists s, s ∈ ss /\ server_id s = srv /\ active s = true /\
    is_group_failed (ladder_new ss) att s = false /\
    att1 = with_tier (att_tier att1) att.
Proof.
  intros Hc Hin. pose proof (current_candidates_spec_aux ss att blk age) as Hs. rewrite Hc in Hs.
  destruct Hs as (Heq & _ & _ & -> & _).
  apply list_elem_of_fmap in Hin as (s & -> & (Hel & _)%elem_of_filter_bool).
  rewrite Heq in Hel. apply eligible_spec in Hel as (H1 & H2 & _ & H4 & _).
  exists s. done.
Qed.

Lemma offered_not_failed ss att s :
  is_group_failed (ladder_new ss) att s = false -> server_id s ∉ failed att.
Proof. unfold is_group_failed, contains_id. case_if; bool_hyps; done. Qed.

Lemma on_outcome_failed att srv o : failed att ⊆ failed (fst (on_outcome att srv o)).
Proof. destruct o; simpl; try case_if; simpl; set_solver. Qed.

Lemma attempts_failed ss age att log att2 :
  attempts (ladder_new ss) age att log att2 -> failed att ⊆ failed att2.
Proof.
  induction 1 as [|att att1 v blk srv o rest att2 Hc Hin Hrest IH]; [done|].
  destruct (offered_server _ _ _ _ _ _ _ Hc Hin) as (s & _ & _ & _ & _ & Heq).
  assert (failed att = failed att1) as -> by (by rewrite Heq).
  etransitivity; [|exact IH]. apply on_outcome_failed.
Qed.

Lemma attempts_app ss age att log1 log2 att2 :
  attempts (ladder_new ss) age att (log1 ++ log2) att2 ->
  exists att1, attempts (ladder_new ss) age att log1 att1 /\ attempts (ladder_new ss) age att1 log2 att2.
Proof.
  revert att. induction log1 as [|p log1 IH]; intros att; simpl.
  - intros Ha. exists att. split; [constructor|done].
  - inversion 1; subst. edestruct IH as (a1 & ? & ?); [done|].
    exists a1. split; [by econstructor|done].
Qed.

(** a server that failed an article is not asked again, nor is any server of
    its group.  In every schedule, after a fatal outcome on one server no later
    attempt goes to that server, nor to another of the same tier and nonzero
    group. *)
Theorem failed_never_offered_again ss age att srv o mid srv' o' att2 :
  NoDup (map server_id ss) -> fatal o = true ->
  attempts (ladder_new ss) age att ((srv, o) :: mid ++ [(srv', o')]) att2 ->
  srv' <> srv /\
  forall s s', s ∈ ss -> s' ∈ ss -> server_id s = srv -> server_id s' = srv' ->
    tier s = tier s' -> group s = group s' -> group s' = 0.
Proof.
  intros Hnd Hfatal Hatt. inversion Hatt as [|? att1 v blk ? ? ? ? Hc Hin Hrest]; subst.
  apply attempts_app in Hrest as (att3 & Hmid & Hlast).
  assert (Hfs : srv ∈ failed att3).
  { apply (attempts_failed _ _ _ _ _ Hmid). destruct o; simpl in *; done || set_solver. }
  inversion Hlast as [|? att4 v' blk' ? ? ? ? Hc' Hin' _]; subst.
  destruct (offered_server _ _ _ _ _ _ _ Hc' Hin') as (s0 & Hs0 & Hid0 & Ha0 & Hg0 & _).
  pose proof (offered_not_failed _ _ _ Hg0) as Hnf. split; [congruence|].
  intros s s' Hs Hs' Hid Hid' Ht Hgr.
  assert (s' = s0) as ->.
  { apply (NoDup_map_inj server_id ss); try done. congruence. }
  unfold is_group_failed in Hg0. case_if_in Hg0; [done|].
  destruct (Z.eq_dec (group s0) 0) as [|Hne]; [done|]. exfalso.
  rewrite (proj2 (Z.eqb_neq _ _) Hne) in Hg0. simpl in Hg0.
  apply not_true_iff_false in Hg0. apply Hg0, existsb_exists. exists s.
  split; [by apply list_elem_of_In|]. rewrite Ht, Hgr, !Z.eqb_refl. simpl.
  unfold contains_id. apply bool_decide_eq_true. congruence.
Qed.

Lemma failed_never_offered_again_witness :
  let srv := fun id t => {| server_id := id; server_name := []; host := []; port := 563;
                tls := TlsMode_Tls; username := None; password := None; active := true; tier := t;
                group := 1; fill := false; max_connections := 8; pipeline_depth := 2;
                retention_days := 0; cert_verification := Cert_Strict |} in
  let ss := [srv 1 0; srv 2 0; srv 3 1] in
  3 <> 1 /\ forall s s', s ∈ ss -> s' ∈ ss -> server_id s = 1 -> server_id s' = 3 ->
    tier s = tier s' -> group s = group s' -> group s' = 0.
Proof.
  intros srv ss. eapply (failed_never_offered_again ss None (attempt_new 3) 1 ArticleMissing [] 3 Other).
  - apply (bool_decide_unpack _). vm_compute. exact I.
  - reflexivity.
  - eapply (attempts_step _ _ _ _ _ (fun _ => false)); [reflexivity | by left |].
    eapply (attempts_step _ _ _ _ _ (fun _ => false)); [reflexivity | by left |]. constructor.
Defined.

(** The retry budget: what is left of every active unfailed server. *)
Definition unfailed (ss : list ServerDef) (att : SegmentAttempt) : Z :=
  Z.of_nat (length (List.filter (fun s => active s && negb (contains_id att (server_id s))) ss)).

Definition budget (ss : list ServerDef) (att : SegmentAttempt) : Z :=
  let r := Z.max 1 (initial_retries att) in
  unfailed ss att * r + Z.max 1 (retries_left att) - r.

Lemma unfailed_fail ss att s : s ∈ ss -> active s = true -> server_id s ∉ failed att ->
  unfailed ss (fail_server (server_id s) att) + 1 <= unfailed ss att.
Proof.
  intros Hin Ha Hn. unfold unfailed, contains_id, fail_server. cbn [failed].
  set (p := fun f : gset ServerId => fun s => active s && negb (bool_decide (server_id s ∈ f))).
  change (Z.of_nat (length (List.filter (p ({[server_id s]} ∪ failed att)) ss)) + 1
    <= Z.of_nat (length (List.filter (p (failed att)) ss))).
  assert (Hmono : forall l, (length (List.filter (p ({[server_id s]} ∪ failed att)) l)
    <= length (List.filter (p (failed att)) l))%nat).
  { induction l as [|x l IH]; simpl; [done|].
    destruct (p ({[server_id s]} ∪ failed att) x) eqn:E1, (p (failed att) x) eqn:E2; simpl; try lia.
    unfold p in E1, E2. bool_hyps. rewrite H in E2. simpl in E2. bool_hyps. set_solver. }
  induction ss as [|x ss IH]; [by apply elem_of_nil in Hin|].
  apply elem_of_cons in Hin as [->|Hin]; simpl.
  - assert (p ({[server_id x]} ∪ failed att) x = false) as ->.
    { unfold p. rewrite bool_decide_true by set_solver. apply andb_false_r. }
    assert (p (failed att) x = true) as ->.
    { unfold p. by rewrite bool_decide_false, Ha by done. }
    specialize (Hmono ss). simpl. lia.
  - specialize (IH Hin).
    destruct (p ({[server_id s]} ∪ failed att) x) eqn:E1, (p (failed att) x) eqn:E2; simpl; try lia.
    unfold p in E1, E2. bool_hyps. rewrite H in E2. simpl in E2. bool_hyps. set_solver.
Qed.

Lemma on_outcome_budget ss att s o : s ∈ ss -> active s = true -> server_id s ∉ failed att ->
  initial_retries (fst (on_outcome att (server_id s) o)) = initial_retries att /\
  (if spends o then budget ss (fst (on_outcome att (server_id s) o)) + 1 <= budget ss att
   else budget ss (fst (on_outcome att (server_id s) o)) = budget ss att).
Proof.
  intros Hin Ha Hn. pose proof (unfailed_fail ss att s Hin Ha Hn) as Hu.
  assert (0 <= unfailed ss (fail_server (server_id s) att)) by (unfold unfailed; lia).
  assert (Hr : unfailed ss (with_retries (retries_left att - 1) att) = unfailed ss att) by done.
  assert (Hr' : unfailed ss (with_retries (initial_retries att) (fail_server (server_id s) att)) =
    unfailed ss (fail_server (server_id s) att)) by done.
  unfold budget.
  destruct o; simpl; try case_if; bool_hyps; cbn [fst fail_server with_retries initial_retries retries_left];
    rewrite ?Hr, ?Hr'; split; try done; try nia.
Qed.

Lemma attempts_budget ss age att log att2 :
  attempts (ladder_new ss) age att log att2 -> spent log <= Z.max 0 (budget ss att).
Proof.
  induction 1 as [|att att1 v blk srv o rest att2 Hc Hin Hrest IH]; [unfold spent; simpl; lia|].
  destruct (offered_server _ _ _ _ _ _ _ Hc Hin) as (s & Hs & <- & Ha & Hg & Heq).
  pose proof (offered_not_failed _ _ _ Hg) as Hnf.
  assert (Hb : budget ss att1 = budget ss att) by (by rewrite Heq).
  assert (Hnf1 : server_id s ∉ failed att1) by (by rewrite Heq).
  pose proof (on_outcome_budget ss att1 s o Hs Ha Hnf1) as [_ Ho].
  pose proof (unfailed_fail ss att s Hs Ha Hnf) as Hu.
  assert (Hpos : 1 <= budget ss att) by (unfold budget, unfailed in *; nia).
  unfold spent in *. simpl. destruct (spends o); simpl length; lia.
Qed.

(** C26: an article's attempts are bounded.  Whatever the blocks and the ages,
    the attempts that end in an article-level failure are at most the number of
    active servers times the retry setting (at least one each); connection
    failures are not counted, they spend nothing. *)
Theorem ladder_bounded ss age retries log att2 :
  attempts (ladder_new ss) age (attempt_new retries) log att2 ->
  spent log <= Z.of_nat (length (List.filter active ss)) * Z.max 1 retries.
Proof.
  intros Ha%attempts_budget. revert Ha. unfold budget, unfailed, attempt_new, contains_id. cbn.
  rewrite (List.filter_ext _ active); [lia|].
  intros s. rewrite bool_decide_false by (apply not_elem_of_empty). apply andb_true_r.
Qed.

Lemma ladder_bounded_witness :
  let srv := {| server_id := 1; server_name := []; host := []; port := 563; tls := TlsMode_Tls;
                username := None; password := None; active := true; tier := 0; group := 0;
                fill := false; max_connections := 8; pipeline_depth := 2; retention_days := 0;
                cert_verification := Cert_Strict |} in
  spent [(1, Other); (1, ConnectionFailed); (1, Other)]
    <= Z.of_nat (length (List.filter active [srv])) * Z.max 1 2.
Proof.
  intros srv. eapply (ladder_bounded [srv] None 2).
  do 3 (eapply (attempts_step _ _ _ _ _ (fun _ => false)); [reflexivity | by left |]).
  constructor.
Defined.
