(* ===== verification/Volumes.v ===== *)
(** * Download volume accounting and disk readings
    ([crates/nzbd-engine/src/volumes.rs])

    The civil calendar and the quota periods, the counter book of a node, and
    the selection of the limiting filesystem.  A [Path] is the list of its
    components (the root is the component [/]); the file system is a
    parameter. *)

From S2P Require Import Prelude RustStr Types.

(** ** Calendar and quota windows *)

Definition TORRENT_SOURCE_ID : ServerId := u32_max.

(** [i64] division truncates: [Z.quot]. *)
Definition civil_from_days (z : Z) : Z * Z * Z :=
  let z := z + 719468 in
  let era := Z.quot (if 0 <=? z then z else z - 146096) 146097 in
  let doe := z - era * 146097 in
  let yoe := Z.quot (doe - Z.quot doe 1460 + Z.quot doe 36524 - Z.quot doe 146096) 365 in
  let y := yoe + era * 400 in
  let doy := doe - (365 * yoe + Z.quot yoe 4 - Z.quot yoe 100) in
  let mp := Z.quot (5 * doy + 2) 153 in
  let d := doy - Z.quot (153 * mp + 2) 5 + 1 in
  let m := if mp <? 10 then mp + 3 else mp - 9 in
  (if m <=? 2 then y + 1 else y, m, d).

(** [unix.div_euclid(86_400)]: floor, the divisor is positive. *)
Definition day_key (unix : Z) : Z := unix / 86400.

Definition month_key (unix start_day : Z) : Z :=
  let days := unix / 86400 in
  let '(y, m, d) := civil_from_days days in
  let start := clamp 1 28 start_day in
  let '(py, pm) :=
    if start <=? d then (y, m)
    else if m =? 1 then (y - 1, 12)
    else (y, m - 1) in
  py * 12 + pm.

(** ** The counter book *)

Record VolumeWindow := {
  total_bytes : Z;
  w_day_key : Z;
  day_bytes : Z;
  w_month_key : Z;
  month_bytes : Z
}.
Definition VolumeWindow_default : VolumeWindow := {|
  total_bytes := 0; w_day_key := 0; day_bytes := 0; w_month_key := 0; month_bytes := 0 |}.

Abbreviation VolumeDoc := (gmap ServerId VolumeWindow).

(** [values().filter(..).map(..).sum()]; the release build's sum wraps. *)
Definition sum_windows (f : VolumeWindow -> Z) (doc : VolumeDoc) : Z :=
  map_fold (fun _ w acc => f w + acc) 0 doc.

Definition day_total (doc : VolumeDoc) (now_unix : Z) : Z :=
  let key := day_key now_unix in
  wrap64 (sum_windows (fun w => if w_day_key w =? key then day_bytes w else 0) doc).

Definition month_total (doc : VolumeDoc) (now_unix start_day : Z) : Z :=
  let key := month_key now_unix start_day in
  wrap64 (sum_windows (fun w => if w_month_key w =? key then month_bytes w else 0) doc).

Record VolumeBook := { doc : VolumeDoc; dirty : bool }.

Definition add_window (w : VolumeWindow) (bytes dk mk : Z) : VolumeWindow :=
  let day := if negb (w_day_key w =? dk) then 0 else day_bytes w in
  let month := if negb (w_month_key w =? mk) then 0 else month_bytes w in
  {| total_bytes := wrap64 (total_bytes w + bytes);
     w_day_key := dk; day_bytes := wrap64 (day + bytes);
     w_month_key := mk; month_bytes := wrap64 (month + bytes) |}.

Definition add (b : VolumeBook) (server : ServerId) (bytes now_unix start_day : Z) : VolumeBook :=
  let w := default VolumeWindow_default (doc b !! server) in
  {| doc := <[server := add_window w bytes (day_key now_unix) (month_key now_unix start_day)]> (doc b);
     dirty := true |}.

(** [cluster_totals]: the directory is its entries, each with its path, its
    file name and the document it parses to, if any. *)
Definition cluster_totals (b : VolumeBook) (path : str)
    (entries : list (str * str * option VolumeDoc)) (now_unix start_day : Z) : Z * Z :=
  fold_left (fun acc e =>
    let '(day, month) := acc in
    let '(p, name, parsed) := e in
    if bool_decide (p = path) then (day, month)
    else if starts_with (lit "volumes.") name && ends_with (lit ".json") name then
      match parsed with
      | Some d => (wrap64 (day + day_total d now_unix), wrap64 (month + month_total d now_unix start_day))
      | None => (day, month)
      end
    else (day, month))
    entries (day_total (doc b) now_unix, month_total (doc b) now_unix start_day).

(** ** Disk readings *)

Abbreviation Path := (list str).
Definition ROOT : str := lit "/".

(** [Path::parent] and [PathBuf::pop]. *)
Definition parent (p : Path) : option Path :=
  match last p with
  | None => None
  | Some c => if bool_decide (c = ROOT) then None else Some (removelast p)
  end.

(** [Path::starts_with], by components. *)
Definition path_starts_with (p base : Path) : bool := bool_decide (base `prefix_of` p).

Record DiskSpace := { available : Z; ds_total : Z }.
Record DiskGuardRoot := { label : str; path : Path }.

Record StorageVolumeReading := {
  r_label : str;
  r_path : Path;
  available_bytes : option Z;
  r_total_bytes : option Z;
  device_id : option Z;
  current : bool
}.

Record DiskGuardReading := {
  g_available_bytes : option Z;
  limiting_label : option str;
  limiting_path : option Path;
  all_roots_known : bool;
  volumes : list StorageVolumeReading
}.

(** [Iterator::min_by_key]: the first of the least. *)
Fixpoint min_by_available (l : list (Z * StorageVolumeReading)) : option (Z * StorageVolumeReading) :=
  match l with
  | [] => None
  | x :: xs =>
      match min_by_available xs with
      | None => Some x
      | Some y => if fst y <? fst x then Some y else Some x
      end
  end.

Definition known (r : StorageVolumeReading) : option (Z * StorageVolumeReading) :=
  (fun a => (a, r)) <$> available_bytes r.

Definition select_limiting_volume (readings : list StorageVolumeReading) : DiskGuardReading :=
  let all_known := negb (bool_decide (length readings = 0%nat)) && forallb current readings in
  match min_by_available (omap known readings) with
  | None =>
      {| g_available_bytes := None; limiting_label := None; limiting_path := None;
         all_roots_known := all_known; volumes := readings |}
  | Some (_, root) =>
      {| g_available_bytes := available_bytes root; limiting_label := Some (r_label root);
         limiting_path := Some (r_path root); all_roots_known := all_known; volumes := readings |}
  end.

(** [while !right.starts_with(&common) { if !common.pop() { return "." } }];
    each turn drops a component, so the length is enough fuel. *)
Fixpoint common_loop (fuel : nat) (covers : Path -> bool) (common : Path) : option Path :=
  if covers common then Some common
  else
    match fuel, parent common with
    | S fuel', Some p => common_loop fuel' covers p
    | _, _ => None
    end.

Definition common_path_pair (left right : Path) : Path :=
  default [lit "."] (common_loop (length left) (path_starts_with right) left).

Definition merge_reading (g reading : StorageVolumeReading) : StorageVolumeReading :=
  let replace :=
    match available_bytes reading with
    | None => false
    | Some a => match available_bytes g with None => true | Some ga => a <? ga end
    end in
  {| r_label := r_label g ++ [32; 0xB7; 32] ++ r_label reading;
     r_path := common_path_pair (r_path g) (r_path reading);
     available_bytes := if replace then available_bytes reading else available_bytes g;
     r_total_bytes := if replace then r_total_bytes reading else r_total_bytes g;
     device_id := device_id g;
     current := current g && current reading |}.

(** [groups.iter().position(..)] with the update in place. *)
Fixpoint merge_into (groups : list StorageVolumeReading) (device : Z)
    (reading : StorageVolumeReading) : option (list StorageVolumeReading) :=
  match groups with
  | [] => None
  | g :: gs =>
      if bool_decide (device_id g = Some device) then Some (merge_reading g reading :: gs)
      else cons g <$> merge_into gs device reading
  end.

Definition coalesce_step (groups : list StorageVolumeReading) (reading : StorageVolumeReading)
    : list StorageVolumeReading :=
  match device_id reading ≫= fun d => merge_into groups d reading with
  | Some groups' => groups'
  | None => groups ++ [reading]
  end.

Definition coalesce_storage_volumes (readings : list StorageVolumeReading)
    : list StorageVolumeReading :=
  fold_left coalesce_step readings [].

Definition unknown_storage_volume (lb : str) (p : Path) : StorageVolumeReading := {|
  r_label := lb; r_path := p; available_bytes := None; r_total_bytes := None;
  device_id := None; current := false |}.

(** [DiskGuardProbe::probe_with] after the measurements have come back or timed
    out: [measured] pairs each root's path with its reading. *)
Definition as_stale (r : StorageVolumeReading) : StorageVolumeReading := {|
  r_label := r_label r; r_path := r_path r; available_bytes := available_bytes r;
  r_total_bytes := r_total_bytes r; device_id := device_id r; current := false |}.

Definition probe_step (acc : gmap Path StorageVolumeReading * list StorageVolumeReading)
    (m : Path * StorageVolumeReading)
    : gmap Path StorageVolumeReading * list StorageVolumeReading :=
  let '(last_known, readings) := acc in
  let '(p, reading) := m in
  if current reading then (<[p := reading]> last_known, readings ++ [reading])
  else
    match last_known !! p with
    | Some previous => (last_known, readings ++ [as_stale previous])
    | None => (last_known, readings ++ [reading])
    end.

Definition probe_merge (last_known : gmap Path StorageVolumeReading)
    (measured : list (Path * StorageVolumeReading))
    : gmap Path StorageVolumeReading * list StorageVolumeReading :=
  fold_left probe_step measured (last_known, []).

Definition probe_with (last_known : gmap Path StorageVolumeReading)
    (measured : list (Path * StorageVolumeReading))
    : gmap Path StorageVolumeReading * DiskGuardReading :=
  let '(lk, readings) := probe_merge last_known measured in
  (lk, select_limiting_volume (coalesce_storage_volumes readings)).

(** *** Measuring the roots, over a file system *)

Inductive Metadata := M_Ok | M_NotFound | M_Error.

Section FileSystem.
Context (metadata : Path -> Metadata) (device : Path -> option Z) (disk_space : Path -> option DiskSpace).

(** Each turn goes one component up, so the length is enough fuel. *)
Fixpoint nearest_loop (fuel : nat) (measured : Path) : option Path :=
  match metadata measured with
  | M_Ok => Some measured
  | M_Error => None
  | M_NotFound =>
      match fuel, parent measured with
      | S fuel', Some p => if bool_decide (p = measured) then None else nearest_loop fuel' p
      | _, _ => None
      end
  end.

Definition nearest_existing_ancestor (p : Path) : option Path := nearest_loop (length p) p.

Record StorageMember := { root : DiskGuardRoot; measured : Path }.
Record StorageGroup := { sg_device : option Z; members : list StorageMember }.

Definition common_storage_path (ms : list StorageMember) : Path :=
  match ms with
  | [] => []
  | m0 :: _ =>
      let covers := fun c => forallb (fun m => path_starts_with (path (root m)) c) ms in
      (* [pop] failing leaves the path it failed on: the root, or the empty one *)
      let common :=
        match common_loop (length (path (root m0))) covers (path (root m0)) with
        | Some c => c
        | None => if bool_decide (head (path (root m0)) = Some ROOT) then [ROOT] else []
        end in
      if bool_decide (common = []) then [lit "."] else common
  end.

Fixpoint add_member (groups : list StorageGroup) (dev : Z) (m : StorageMember)
    : option (list StorageGroup) :=
  match groups with
  | [] => None
  | g :: gs =>
      if bool_decide (sg_device g = Some dev) then
        Some ({| sg_device := sg_device g; members := members g ++ [m] |} :: gs)
      else cons g <$> add_member gs dev m
  end.

Fixpoint join (sep : str) (l : list str) : str :=
  match l with
  | [] => []
  | [x] => x
  | x :: xs => x ++ sep ++ join sep xs
  end.

Fixpoint find_map {A B} (f : A -> option B) (l : list A) : option B :=
  match l with
  | [] => None
  | x :: xs => match f x with Some b => Some b | None => find_map f xs end
  end.

Definition group_reading (g : StorageGroup) : StorageVolumeReading :=
  let space := find_map (fun m => disk_space (measured m)) (members g) in
  {| r_label := join [32; 0xB7; 32] (map (fun m => label (root m)) (members g));
     r_path := common_storage_path (members g);
     available_bytes := available <$> space;
     r_total_bytes := ds_total <$> space;
     device_id := sg_device g;
     current := bool_decide (is_Some space) |}.

Definition storage_volume_readings (roots : list DiskGuardRoot) : list StorageVolumeReading :=
  let groups := fold_left (fun groups r =>
    let ms := nearest_existing_ancestor (path r) in
    let dev := ms ≫= device in
    let m := {| root := r; measured := default (path r) ms |} in
    match dev ≫= fun id => add_member groups id m with
    | Some groups' => groups'
    | None => groups ++ [{| sg_device := dev; members := [m] |}]
    end) roots [] in
  map group_reading groups.

Definition disk_guard_reading (roots : list DiskGuardRoot) : DiskGuardReading :=
  select_limiting_volume (storage_volume_readings roots).

(** [free_space]: unmeasurable counts as unlimited. *)
Definition free_space (p : Path) : Z := default u64_max (available <$> disk_space p).

End FileSystem.

Example civil_ex : civil_from_days 0 = (1970, 1, 1) /\ civil_from_days 19782 = (2024, 2, 29)
  /\ civil_from_days (-719529) = (-1, 12, 31).
Proof. vm_compute. done. Qed.

(** ** The calendar is the proleptic Gregorian one *)

Definition leap (y : Z) : bool := ((y mod 4 =? 0) && negb (y mod 100 =? 0)) || (y mod 400 =? 0).

Definition month_len (lp : bool) (m : Z) : Z :=
  if m =? 2 then (if lp then 29 else 28)
  else if (m =? 4) || (m =? 6) || (m =? 9) || (m =? 11) then 30 else 31.

Definition next_day (ymd : Z * Z * Z) : Z * Z * Z :=
  let '(y, m, d) := ymd in
  if d <? month_len (leap y) m then (y, m, d + 1)
  else if m <? 12 then (y, m + 1, 1) else (y + 1, 1, 1).

(** Years that begin in March: [start] of one within its era, month and day of
    a day in it. *)
Definition year_start (y : Z) : Z := 365 * y + y / 4 - y / 100.

Definition month_day (doy : Z) : Z * Z :=
  let mp := (5 * doy + 2) / 153 in
  (if mp <? 10 then mp + 3 else mp - 9, doy - (153 * mp + 2) / 5 + 1).

Definition march_date (y doy : Z) : Z * Z * Z :=
  let '(m, d) := month_day doy in (if m <=? 2 then y + 1 else y, m, d).

Definition leap_days_out (doe : Z) : Z := doe - doe / 1460 + doe / 36524 - doe / 146096.
Definition year_of_era (doe : Z) : Z := leap_days_out doe / 365.

Lemma era_floor z :
  Z.quot (if 0 <=? z then z else z - 146096) 146097 = z / 146097.
Proof. destruct (0 <=? z) eqn:?; Z.to_euclidean_division_equations; lia. Qed.

Lemma quot_div a b : 0 <= a -> 0 < b -> Z.quot a b = a / b.
Proof. intros. by apply Z.quot_div_nonneg. Qed.

Lemma leap_days_out_step a : 0 <= a < 146096 -> leap_days_out a <= leap_days_out (a + 1).
Proof. intros. unfold leap_days_out. Z.to_euclidean_division_equations. lia. Qed.

Lemma leap_days_out_add n a : 0 <= a -> a + Z.of_nat n < 146097 ->
  leap_days_out a <= leap_days_out (a + Z.of_nat n).
Proof.
  intros Ha. induction n as [|n IH]; intros Hn; [by rewrite Z.add_0_r|].
  etransitivity; [apply IH; lia|].
  replace (a + Z.of_nat (S n)) with (a + Z.of_nat n + 1) by lia. apply leap_days_out_step. lia.
Qed.

Lemma year_of_era_mono a b : 0 <= a <= b -> b < 146097 -> year_of_era a <= year_of_era b.
Proof.
  intros Hab Hb. apply Z.div_le_mono; [lia|].
  replace b with (a + Z.of_nat (Z.to_nat (b - a))) by lia. apply leap_days_out_add; lia.
Qed.

(** Length of the March year [y] of an era. *)
Definition year_len (y : Z) : Z := if leap (y + 1) then 366 else 365.

Lemma years_table :
  forallb (fun y => (year_of_era (year_start y) =? y)
    && (year_of_era (year_start y + year_len y - 1) =? y)
    && (if y <? 399 then year_start (y + 1) =? year_start y + year_len y
        else year_start y + year_len y =? 146097)) (seqZ 0 400) = true.
Proof. vm_compute. reflexivity. Qed.

Lemma forallb_seqZ (p : Z -> bool) n x : forallb p (seqZ 0 n) = true -> 0 <= x < n -> p x = true.
Proof. rewrite forallb_elem. intros Hp Hx. apply Hp, elem_of_seqZ. lia. Qed.

Lemma year_facts y : 0 <= y < 400 ->
  year_of_era (year_start y) = y /\ year_of_era (year_start y + year_len y - 1) = y /\
  (y < 399 -> year_start (y + 1) = year_start y + year_len y) /\
  (y = 399 -> year_start y + year_len y = 146097).
Proof.
  intros Hy. pose proof (forallb_seqZ _ _ y years_table Hy) as Ht. simpl in Ht.
  bool_hyps. split_and!; [done..| |]; intros; case_if_in H0; bool_hyps; lia.
Qed.

Lemma year_start_bound y : 0 <= y < 399 -> year_start (y + 1) <= 146097.
Proof. intros. unfold year_start. Z.to_euclidean_division_equations. lia. Qed.

Lemma year_end_bound y : 0 <= y < 400 -> 0 <= year_start y /\ year_start y + year_len y <= 146097.
Proof.
  intros Hy. destruct (year_facts y Hy) as (_ & _ & H3 & H4). split.
  - unfold year_start. Z.to_euclidean_division_equations. lia.
  - destruct (Z_lt_le_dec y 399); [|lia]. rewrite <- H3 by done. apply year_start_bound. lia.
Qed.

Lemma year_of_era_spec y k : 0 <= y < 400 -> 0 <= k < year_len y ->
  year_of_era (year_start y + k) = y.
Proof.
  intros Hy Hk. destruct (year_facts y Hy) as (H1 & H2 & H3 & H4).
  pose proof (year_end_bound y Hy) as [? ?].
  pose proof (year_of_era_mono (year_start y) (year_start y + k) ltac:(lia) ltac:(lia)).
  pose proof (year_of_era_mono (year_start y + k) (year_start y + year_len y - 1) ltac:(lia) ltac:(lia)).
  lia.
Qed.

Lemma year_decompose doe : 0 <= doe < 146097 ->
  exists y k, 0 <= y < 400 /\ 0 <= k < year_len y /\ doe = year_start y + k.
Proof.
  intros Hd.
  assert (Hex : forall n : nat, (n <= 400)%nat -> doe < (if (n =? 400)%nat then 146097 else year_start (Z.of_nat n)) ->
    exists y k, 0 <= y < 400 /\ 0 <= k < year_len y /\ doe = year_start y + k).
  { induction n as [|n IH]; intros Hn Hlt.
    { change (doe < 0) in Hlt. lia. }
    destruct (year_facts (Z.of_nat n) ltac:(lia)) as (_ & _ & H3 & H4).
    destruct (Z_lt_le_dec doe (year_start (Z.of_nat n))) as [Hl|Hl].
    - apply IH; [lia|]. by destruct (n =? 400)%nat eqn:?; [lia|].
    - exists (Z.of_nat n), (doe - year_start (Z.of_nat n)). split; [lia|]. split; [|lia].
      split; [lia|]. destruct (Z_lt_le_dec (Z.of_nat n) 399).
      + destruct (S n =? 400)%nat eqn:?; [lia|].
        replace (Z.of_nat (S n)) with (Z.of_nat n + 1) in Hlt by lia. lia.
      + destruct (S n =? 400)%nat eqn:?; lia. }
  apply (Hex 400%nat); simpl; lia.
Qed.

(** The code's date of the [k]-th day of March year [y] of era [e]. *)
Lemma civil_march z e y k :
  z + 719468 = e * 146097 + (year_start y + k) -> 0 <= y < 400 -> 0 <= k < year_len y ->
  civil_from_days z = march_date (y + e * 400) k.
Proof.
  intros Hz Hy Hk. pose proof (year_of_era_spec y k Hy Hk) as Hyoe.
  pose proof (year_end_bound y Hy) as [Hs Hend].
    assert (Hera : (z + 719468) / 146097 = e).
  { rewrite Hz. symmetry. apply Z.div_unique with (year_start y + k); lia. }
  assert (Hdoe : z + 719468 - e * 146097 = year_start y + k) by lia.
  assert (Hyd : year_start y + k - (365 * y + y / 4 - y / 100) = k) by (unfold year_start; lia).
  unfold civil_from_days. rewrite era_floor, Hera, Hdoe.
  rewrite !(quot_div (year_start y + k)) by lia.
  change (year_start y + k - _ + _ - _) with (leap_days_out (year_start y + k)).
  assert (0 <= leap_days_out (year_start y + k)).
  { unfold leap_days_out. Z.to_euclidean_division_equations. lia. }
  rewrite (quot_div (leap_days_out _)) by lia.
  change (leap_days_out (year_start y + k) / 365) with (year_of_era (year_start y + k)).
  rewrite Hyoe, !(quot_div y) by lia. rewrite Hyd.
  unfold march_date, month_day. rewrite (quot_div (5 * k + 2)) by lia.
  assert (0 <= (5 * k + 2) / 153) by (apply Z.div_pos; lia).
  by rewrite (quot_div (153 * _ + 2)) by lia.
Qed.

(** Day [k] to day [k + 1] of a March year, and from its last day to the next. *)
Definition next_month_day (lp : bool) (md : Z * Z) : Z * (Z * Z) :=
  let '(m, d) := md in
  if d <? month_len lp m then (0, (m, d + 1))
  else if m <? 12 then (0, (m + 1, 1)) else (1, (1, 1)).

Definition year_carry (md : Z * Z) : Z := if fst md <=? 2 then 1 else 0.

Definition month_table_ok (lp : bool) (k : Z) : bool :=
  if k <? (if lp then 366 else 365) then
    let wraps := negb (k + 1 <? (if lp then 366 else 365)) in
    let md' := month_day (if wraps then 0 else k + 1) in
    let '(c, md) := next_month_day lp (month_day k) in
    (fst md =? fst md') && (snd md =? snd md')
    && (year_carry (month_day k) + c =? (if wraps then 1 else 0) + year_carry md')
  else true.

Lemma months_table lp : forallb (month_table_ok lp) (seqZ 0 366) = true.
Proof. destruct lp; vm_compute; reflexivity. Qed.

Lemma month_len_leap lp lp' m : m <> 2 -> month_len lp m = month_len lp' m.
Proof. intros. unfold month_len. by destruct (m =? 2) eqn:?; [lia|]. Qed.

Lemma march_date_carry y k :
  march_date y k = (y + year_carry (month_day k), fst (month_day k), snd (month_day k)).
Proof. unfold march_date, year_carry. destruct (month_day k) as [m d]. simpl. case_if; f_equal; f_equal; lia. Qed.

Lemma next_day_march y k : 0 <= k < year_len y ->
  next_day (march_date y k) =
  if k + 1 <? year_len y then march_date y (k + 1) else march_date (y + 1) 0.
Proof.
  intros Hk.
  assert (Hk' : 0 <= k < 366) by (unfold year_len in Hk; case_if_in Hk; lia).
  pose proof (forallb_seqZ _ _ k (months_table (leap (y + 1))) Hk') as Ht.
  unfold month_table_ok in Ht. fold (year_len y) in Ht.
  destruct (k <? year_len y) eqn:?; [|lia].
  assert (Hn : next_day (march_date y k) =
    (y + year_carry (month_day k) + fst (next_month_day (leap (y + 1)) (month_day k)),
     fst (snd (next_month_day (leap (y + 1)) (month_day k))),
     snd (snd (next_month_day (leap (y + 1)) (month_day k))))).
  { rewrite march_date_carry. unfold next_day, next_month_day, year_carry.
    destruct (month_day k) as [m d]. cbn [fst snd].
    assert (month_len (leap (y + (if m <=? 2 then 1 else 0))) m = month_len (leap (y + 1)) m) as ->.
    { destruct (Z.eq_dec m 2) as [->|]; [done|]. by apply month_len_leap. }
    repeat case_if; simpl; f_equal; f_equal; lia. }
  rewrite Hn. destruct (next_month_day _ _) as [c [m' d']]. cbn [fst snd] in *.
  rewrite !march_date_carry.
  destruct (k + 1 <? year_len y); cbn [negb] in Ht; bool_hyps; subst; f_equal; f_equal; lia.
Qed.

Lemma civil_step :
  civil_from_days 0 = (1970, 1, 1) /\
  forall z, civil_from_days (z + 1) = next_day (civil_from_days z).
Proof.
  split; [reflexivity|]. intros z.
  set (e := (z + 719468) / 146097).
  pose proof (Z.div_mod (z + 719468) 146097 ltac:(lia)) as Hdm.
  pose proof (Z.mod_pos_bound (z + 719468) 146097 ltac:(lia)) as Hb.
  destruct (year_decompose _ Hb) as (y & k & Hy & Hk & Hdoe).
  assert (Hz : z + 719468 = e * 146097 + (year_start y + k)) by (unfold e; lia).
  rewrite (civil_march z e y k Hz Hy Hk).
  assert (Hlen : year_len (y + e * 400) = year_len y).
  { unfold year_len, leap. replace (y + e * 400 + 1) with (y + 1 + e * 400) by lia.
    rewrite Z.mod_add by lia. replace (y + 1 + e * 400) with (y + 1 + (e * 100) * 4) by lia.
    rewrite Z.mod_add by lia. replace (y + 1 + (e * 100) * 4) with (y + 1 + (e * 4) * 100) by lia.
    by rewrite Z.mod_add by lia. }
  rewrite next_day_march, Hlen by (rewrite Hlen; lia).
  destruct (year_facts y Hy) as (_ & _ & H3 & H4).
  case_if; bool_hyps.
  - apply civil_march; lia.
  - assert (k + 1 = year_len y) by lia.
    destruct (Z_lt_le_dec y 399).
    + replace (y + e * 400 + 1) with (y + 1 + e * 400) by lia.
      apply civil_march; [rewrite H3 by done; lia|lia|]. unfold year_len; case_if; lia.
    + replace (y + e * 400 + 1) with (0 + (e + 1) * 400) by lia.
      apply civil_march; [rewrite Z.add_0_r; change (year_start 0) with 0; lia|lia|].
      unfold year_len; case_if; lia.
Qed.

(** the quota calendar is the Gregorian one.  [civil_from_days] maps day 0
    to 1970-01-01, and for every day number (before or after the epoch) the
    next day number to the next date, with the month lengths and the leap
    years of the proleptic Gregorian calendar. *)
Theorem civil_from_days_correct :
  civil_from_days 0 = (1970, 1, 1) /\
  forall z, civil_from_days (z + 1) = next_day (civil_from_days z).
Proof. apply civil_step. Qed.

(** ** Quota periods *)

Lemma month_day_table :
  forallb (fun k => let '(m, d) := month_day k in
    in_range 1 12 m && in_range 1 31 d) (seqZ 0 366) = true.
Proof. vm_compute. reflexivity. Qed.

Lemma civil_valid z : let '(_, m, d) := civil_from_days z in 1 <= m <= 12 /\ 1 <= d <= 31.
Proof.
  pose proof (Z.div_mod (z + 719468) 146097 ltac:(lia)) as Hdm.
  pose proof (Z.mod_pos_bound (z + 719468) 146097 ltac:(lia)) as Hb.
  destruct (year_decompose _ Hb) as (y & k & Hy & Hk & Hdoe).
  rewrite (civil_march z ((z + 719468) / 146097) y k) by lia.
  assert (Hk' : 0 <= k < 366) by (unfold year_len in Hk; case_if_in Hk; lia).
  pose proof (forallb_seqZ _ _ k month_day_table Hk') as Ht. cbv beta in Ht.
  unfold march_date. destruct (month_day k) as [m d]. unfold in_range in Ht. lia.
Qed.

Definition day_of (z : Z) : Z := let '(_, _, d) := civil_from_days z in d.

Lemma month_key_next unix start_day :
  month_key (unix + 86400) start_day =
  month_key unix start_day +
  (if day_of (unix / 86400 + 1) =? clamp 1 28 start_day then 1 else 0).
Proof.
  unfold month_key, day_of. replace (unix + 86400) with (unix + 1 * 86400) by lia.
  rewrite Z.div_add by lia. set (z := unix / 86400).
  pose proof (civil_valid z) as Hv.
  pose proof (proj2 civil_step z) as Hn.
  pose proof (clamp_bounds 1 28 start_day ltac:(lia)) as Hc.
  set (st := clamp 1 28 start_day) in *. clearbody st.
  destruct (civil_from_days z) as [[y m] d]. rewrite Hn. unfold next_day.
  assert (28 <= month_len (leap y) m <= 31) by (unfold month_len; repeat case_if; lia).
  repeat (case_if; bool_hyps; try lia).
Qed.

Lemma month_key_mono a b start_day : a <= b -> month_key a start_day <= month_key b start_day.
Proof.
  intros Hab.
  assert (Hday : forall a b, a / 86400 = b / 86400 -> month_key a start_day = month_key b start_day)
    by (intros ? ? He; unfold month_key; by rewrite He).
  assert (Hn : forall n : nat, month_key a start_day <= month_key (a + Z.of_nat n * 86400) start_day).
  { induction n as [|n IH]; [by rewrite Z.add_0_r|].
    replace (a + Z.of_nat (S n) * 86400) with (a + Z.of_nat n * 86400 + 86400) by lia.
    rewrite month_key_next. case_if; lia. }
  specialize (Hn (Z.to_nat (b / 86400 - a / 86400))).
  assert (a / 86400 <= b / 86400) by (apply Z.div_le_mono; lia).
  rewrite Z2Nat.id in Hn by lia.
  rewrite (Hday b (a + (b / 86400 - a / 86400) * 86400)); [done|].
  rewrite Z.div_add by lia. lia.
Qed.

(** the monthly window rolls once a month, on the configured day.  From any
    second to the same second of the next day the period key grows by one if
    that day's date is the start day (clamped to 28), and stays otherwise. *)
Theorem month_key_rolls unix start_day :
  month_key (unix + 86400) start_day =
  month_key unix start_day +
  (if day_of (unix / 86400 + 1) =? clamp 1 28 start_day then 1 else 0).
Proof. apply month_key_next. Qed.

(** ** Accounting *)

Lemma sum_windows_insert f (m : VolumeDoc) i w :
  sum_windows f (<[i := w]> m) = sum_windows f m + f w - from_option f 0 (m !! i).
Proof.
  assert (Hfresh : forall m : VolumeDoc, m !! i = None ->
    sum_windows f (<[i := w]> m) = f w + sum_windows f m).
  { clear m. intros m Hm. unfold sum_windows. apply (map_fold_insert_L (fun _ w acc => f w + acc)); [|done]. intros. lia. }
  destruct (m !! i) as [w0|] eqn:Hi; simpl; [|rewrite Hfresh by done; lia].
  rewrite <- insert_delete_eq, Hfresh by apply lookup_delete_eq.
  assert (sum_windows f m = f w0 + sum_windows f (delete i m)) as ->; [|lia].
  unfold sum_windows. apply (map_fold_delete_L (fun _ w acc => f w + acc)); [|done]. intros. lia.
Qed.

Lemma sum_windows_zero f (m : VolumeDoc) :
  (forall i w, m !! i = Some w -> f w = 0) -> sum_windows f m = 0.
Proof.
  intros Hz. unfold sum_windows. 
  apply (map_fold_weak_ind (fun s m => (forall i w, m !! i = Some w -> f w = 0) -> s = 0)); [done| |done].
  clear. intros i w m s Hi IH Hz. rewrite (Hz i w) by apply lookup_insert_eq.
  rewrite IH; [done|]. intros j w' Hj. apply (Hz j w').
  rewrite lookup_insert_ne; [done|]. congruence.
Qed.

(** One credited download: server, bytes, time. *)
Record Credit := { c_server : ServerId; c_bytes : Z; c_unix : Z }.

Definition book_add (start_day : Z) (b : VolumeBook) (c : Credit) : VolumeBook :=
  add b (c_server c) (c_bytes c) (c_unix c) start_day.

Definition empty_book : VolumeBook := {| doc := ∅; dirty := false |}.

Definition credited (p : Credit -> bool) (cs : list Credit) : Z :=
  sum_Z (map (fun c => if p c then c_bytes c else 0) cs).

Lemma credited_snoc p cs c : credited p (cs ++ [c]) = credited p cs + (if p c then c_bytes c else 0).
Proof. unfold credited. rewrite map_app, sum_Z_app. simpl. lia. Qed.

Lemma credited_bound p cs : Forall (fun c => 0 <= c_bytes c) cs ->
  0 <= credited p cs <= credited (fun _ => true) cs.
Proof. unfold credited. induction 1 as [|c cs Hc _ IH]; simpl; [lia|]. case_if; lia. Qed.

(** What the book holds after the credits [cs], the last of them at [last]. *)
Record book_inv (start_day : Z) (cs : list Credit) (last : Z) (b : VolumeBook) : Prop := {
  inv_window : forall s w, doc b !! s = Some w ->
    total_bytes w = credited (fun c => c_server c =? s) cs /\
    0 <= day_bytes w <= credited (fun _ => true) cs /\
    0 <= month_bytes w <= credited (fun _ => true) cs /\
    w_day_key w <= day_key last /\ w_month_key w <= month_key last start_day;
  inv_absent : forall s, doc b !! s = None -> credited (fun c => c_server c =? s) cs = 0;
  inv_day : forall now, last <= now ->
    sum_windows (fun w => if w_day_key w =? day_key now then day_bytes w else 0) (doc b)
    = credited (fun c => day_key (c_unix c) =? day_key now) cs;
  inv_month : forall now, last <= now ->
    sum_windows (fun w => if w_month_key w =? month_key now start_day then month_bytes w else 0) (doc b)
    = credited (fun c => month_key (c_unix c) start_day =? month_key now start_day) cs
}.

Lemma wrap64_id n : is_u64 n -> wrap64 n = n.
Proof. unfold is_u64, u64_max, wrap64. intros. apply Z.mod_small. lia. Qed.

Lemma day_key_mono a b : a <= b -> day_key a <= day_key b.
Proof. intros. apply Z.div_le_mono; lia. Qed.

(** The change one credit makes to a windowed sum. *)
Lemma window_sum_step (kf : VolumeWindow -> Z) (bf : VolumeWindow -> Z) (m : VolumeDoc) s w' b k key :
  (forall i w, m !! i = Some w -> kf w <= k) -> k <= key ->
  kf w' = k ->
  bf w' = (if kf (default VolumeWindow_default (m !! s)) =? k
           then bf (default VolumeWindow_default (m !! s)) else 0) + b ->
  bf VolumeWindow_default = 0 ->
  sum_windows (fun w => if kf w =? key then bf w else 0) (<[s := w']> m) =
  sum_windows (fun w => if kf w =? key then bf w else 0) m + (if k =? key then b else 0).
Proof.
  intros Hle Hkk Hk Hb H0. rewrite sum_windows_insert, Hk.
  destruct (k =? key) eqn:E; bool_hyps.
  - subst key. rewrite Hb. destruct (m !! s) as [w0|]; simpl; [lia|].
    rewrite H0. case_if; lia.
  - destruct (m !! s) as [w0|] eqn:Hs; simpl; [|lia].
    pose proof (Hle _ _ Hs). destruct (kf w0 =? key) eqn:?; lia.
Qed.

Lemma book_inv_add start_day cs last b c :
  book_inv start_day cs last b -> last <= c_unix c -> 0 <= c_bytes c ->
  Forall (fun c => 0 <= c_bytes c) cs -> credited (fun _ => true) cs + c_bytes c <= u64_max ->
  book_inv start_day (cs ++ [c]) (c_unix c) (book_add start_day b c).
Proof.
  intros [Hw Ha Hd Hm] Hlast Hb Hpos Hmax.
  destruct c as [s by_ t]. cbn [c_server c_bytes c_unix book_add] in *.
  pose proof (day_key_mono _ _ Hlast) as Hdk. pose proof (month_key_mono _ _ start_day Hlast) as Hmk.
  pose proof (credited_bound (fun c => c_server c =? s) cs Hpos) as Hcb.
  set (w0 := default VolumeWindow_default (doc b !! s)).
  assert (Hw0 : total_bytes w0 = credited (fun c => c_server c =? s) cs /\
    0 <= day_bytes w0 <= credited (fun _ => true) cs /\
    0 <= month_bytes w0 <= credited (fun _ => true) cs).
  { unfold w0. destruct (doc b !! s) as [w|] eqn:Hs; simpl.
    - by destruct (Hw s w Hs) as (? & ? & ? & _).
    - rewrite (Ha s Hs). pose proof (credited_bound (fun _ => true) cs Hpos). lia. }
  destruct Hw0 as (T0 & D0 & M0).
  set (w' := add_window w0 by_ (day_key t) (month_key t start_day)).
  assert (Hw' : total_bytes w' = total_bytes w0 + by_ /\
    day_bytes w' = (if w_day_key w0 =? day_key t then day_bytes w0 else 0) + by_ /\
    month_bytes w' = (if w_month_key w0 =? month_key t start_day then month_bytes w0 else 0) + by_).
  { unfold w', add_window. cbn [total_bytes day_bytes month_bytes].
    rewrite !wrap64_id; [split_and!; [done|by destruct (_ =? _)..]|..];
      unfold is_u64; repeat case_if; lia. }
  destruct Hw' as (T' & D' & M').
  assert (Hdoc : doc (book_add start_day b {| c_server := s; c_bytes := by_; c_unix := t |})
    = <[s := w']> (doc b)) by done.
  assert (K1 : w_day_key w' = day_key t) by done.
  assert (K2 : w_month_key w' = month_key t start_day) by done.
  clearbody w'. split; rewrite Hdoc.
  - intros s' w [[<- <-]|[Hne Hs']]%lookup_insert_Some; rewrite !credited_snoc; simpl.
    + rewrite Z.eqb_refl, T', D', M', T0, K1, K2. split_and!; try done; try (case_if; lia); lia.
    + destruct (Hw s' w Hs') as (? & ? & ? & ? & ?).
      destruct (s =? s') eqn:?; [bool_hyps; congruence|]. lia.
  - intros s' [Hs' Hne]%lookup_insert_None. rewrite credited_snoc. simpl.
    rewrite (Ha s' Hs'). destruct (s =? s') eqn:?; [bool_hyps; congruence|]. lia.
  - intros now Hnow. rewrite credited_snoc, <- (Hd now) by lia. simpl.
    rewrite (window_sum_step w_day_key day_bytes (doc b) s w' by_ (day_key t)); [done|..|exact K1|exact D'|done].
    + intros i w Hi. destruct (Hw i w Hi) as (_ & _ & _ & ? & _). lia.
    + by apply day_key_mono.
  - intros now Hnow. rewrite credited_snoc, <- (Hm now) by lia. simpl.
    rewrite (window_sum_step w_month_key month_bytes (doc b) s w' by_ (month_key t start_day));
      [done|..|exact K2|exact M'|done].
    + intros i w Hi. destruct (Hw i w Hi) as (_ & _ & _ & _ & ?). lia.
    + by apply month_key_mono.
Qed.

(** Credits at times that do not go back. *)
Fixpoint ordered (from : Z) (cs : list Credit) : Prop :=
  match cs with
  | [] => True
  | c :: cs' => from <= c_unix c /\ ordered (c_unix c) cs'
  end.

Definition last_time (from : Z) (cs : list Credit) : Z := default from (c_unix <$> last cs).

Lemma book_inv_all start_day cs : forall pre last0 b,
  book_inv start_day pre last0 b -> ordered last0 cs ->
  Forall (fun c => 0 <= c_bytes c) (pre ++ cs) -> credited (fun _ => true) (pre ++ cs) <= u64_max ->
  book_inv start_day (pre ++ cs) (last_time last0 cs) (fold_left (book_add start_day) cs b).
Proof.
  induction cs as [|c cs IH]; intros pre last0 b Hinv Hord Hpos Hmax.
  { rewrite app_nil_r. done. }
  destruct Hord as [H1 H2]. simpl. rewrite (cons_middle c pre cs) in *. rewrite app_assoc in *.
  assert (last_time last0 (c :: cs) = last_time (c_unix c) cs) as ->.
  { unfold last_time. destruct cs using rev_ind; [done|]. by rewrite app_comm_cons, !last_snoc. }
  apply IH; [|done..].
  apply Forall_app in Hpos as [[Hpre Hc]%Forall_app Hcs].
  apply Forall_cons in Hc as [Hc _].
  apply (book_inv_add _ _ last0); try done.
  revert Hmax. unfold credited. rewrite !map_app, !sum_Z_app. simpl.
  pose proof (credited_bound (fun _ => true) cs Hcs) as Hb. unfold credited in Hb. lia.
Qed.

(** the quota sums are exact.  For credits in time order that total at most
    [u64::MAX], whatever the servers and however the days and quota months
    interleave, the book's day total at a later time is the sum of the bytes
    credited that civil day, its month total the sum of the bytes credited in
    that quota period, and each server's lifetime total the sum of its own
    credits; nothing wraps and no window leaks into the next. *)
Theorem volume_accounting start_day t0 cs now :
  ordered t0 cs -> Forall (fun c => 0 <= c_bytes c) cs ->
  credited (fun _ => true) cs <= u64_max -> last_time t0 cs <= now ->
  let b := fold_left (book_add start_day) cs empty_book in
  day_total (doc b) now = credited (fun c => day_key (c_unix c) =? day_key now) cs /\
  month_total (doc b) now start_day =
    credited (fun c => month_key (c_unix c) start_day =? month_key now start_day) cs /\
  forall s, from_option total_bytes 0 (doc b !! s) = credited (fun c => c_server c =? s) cs.
Proof.
  intros Hord Hpos Hmax Hnow b.
  assert (Hinit : book_inv start_day [] t0 empty_book).
  { split; try done; intros; by rewrite sum_windows_zero. }
  pose proof (book_inv_all start_day cs [] t0 empty_book Hinit Hord Hpos Hmax) as [Hw Ha Hd Hm].
  simpl in *. fold b in Hw, Ha, Hd, Hm.
  unfold day_total, month_total. rewrite Hd, Hm by done.
  pose proof (credited_bound (fun c => day_key (c_unix c) =? day_key now) cs Hpos).
  pose proof (credited_bound (fun c => month_key (c_unix c) start_day =? month_key now start_day) cs Hpos).
  rewrite !wrap64_id by (unfold is_u64; lia). split_and!; [done..|].
  intros s. destruct (doc b !! s) as [w|] eqn:Hs; simpl.
  - by destruct (Hw s w Hs).
  - by rewrite Ha.
Qed.

Lemma volume_accounting_witness :
  let cs := [ {| c_server := 1; c_bytes := 100; c_unix := 1709164800 |};
              {| c_server := 2; c_bytes := 30; c_unix := 1709251199 |};
              {| c_server := 1; c_bytes := 7; c_unix := 1709251200 |} ] in
  let b := fold_left (book_add 1) cs empty_book in
  let now := 1709251300 in
  day_total (doc b) now = credited (fun c => day_key (c_unix c) =? day_key now) cs /\
  month_total (doc b) now 1 = credited (fun c => month_key (c_unix c) 1 =? month_key now 1) cs /\
  forall s, from_option total_bytes 0 (doc b !! s) = credited (fun c => c_server c =? s) cs.
Proof.
  intros cs b now. apply (volume_accounting 1 0 cs now).
  - vm_compute. repeat split; discriminate.
  - repeat constructor; vm_compute; discriminate.
  - vm_compute. discriminate.
  - vm_compute. discriminate.
Defined.

(** ** The limiting filesystem *)

Definition min_opt (a b : option Z) : option Z :=
  match a, b with
  | Some x, Some y => Some (Z.min x y)
  | Some x, None => Some x
  | None, b => b
  end.

Definition min_known (rs : list StorageVolumeReading) : option Z :=
  foldr min_opt None (map available_bytes rs).

#[export] Instance min_opt_assoc : Assoc (=) min_opt.
Proof. intros [x|] [y|] [z|]; simpl; try done. f_equal. lia. Qed.
#[export] Instance min_opt_comm : Comm (=) min_opt.
Proof. intros [x|] [y|]; simpl; try done. f_equal. lia. Qed.

Lemma min_opt_none_r a : min_opt a None = a.
Proof. by destruct a. Qed.

Lemma min_known_cons r rs : min_known (r :: rs) = min_opt (available_bytes r) (min_known rs).
Proof. done. Qed.

Lemma min_known_app l1 l2 : min_known (l1 ++ l2) = min_opt (min_known l1) (min_known l2).
Proof.
  unfold min_known. induction l1 as [|r l1 IH]; simpl; [done|]. by rewrite IH, assoc by apply _.
Qed.

Lemma min_by_available_spec rs :
  match min_by_available (omap known rs) with
  | None => min_known rs = None
  | Some (a, r) => available_bytes r = Some a /\ r ∈ rs /\ min_known rs = Some a
  end.
Proof.
  induction rs as [|r rs IH]; [done|].
  rewrite min_known_cons.
  change (omap known (r :: rs)) with
    (match known r with Some x => x :: omap known rs | None => omap known rs end).
  unfold known at 1. destruct (available_bytes r) as [a|] eqn:Ha; cbn [fmap option_fmap option_map min_by_available].
  - destruct (min_by_available (omap known rs)) as [[b r']|].
    + destruct IH as (H1 & H2 & ->). cbn [fst]. case_if; bool_hyps; simpl.
      * split_and!; [done|by right|]. f_equal. lia.
      * split_and!; [done|by left|]. f_equal. lia.
    + rewrite IH. simpl. split_and!; [done|by left|done].
  - destruct (min_by_available (omap known rs)) as [[b r']|]; [|done].
    destruct IH as (H1 & H2 & H3). split_and!; [done|by right|done].
Qed.

Lemma select_available rs :
  g_available_bytes (select_limiting_volume rs) = min_known rs.
Proof.
  pose proof (min_by_available_spec rs) as Hs. unfold select_limiting_volume.
  destruct (min_by_available (omap known rs)) as [[a r]|]; simpl; [|done].
  destruct Hs as (-> & _ & ->). done.
Qed.

Lemma merge_available g r :
  available_bytes (merge_reading g r) = min_opt (available_bytes g) (available_bytes r).
Proof.
  unfold merge_reading; simpl.
  destruct (available_bytes r) as [a|] eqn:E, (available_bytes g) as [b|] eqn:E'; simpl;
    rewrite ?E, ?E'; try done. case_if; f_equal; lia.
Qed.

Lemma merge_into_spec gs d r gs' : merge_into gs d r = Some gs' ->
  min_known gs' = min_opt (min_known gs) (available_bytes r) /\
  forallb current gs' = forallb current gs && current r /\
  map device_id gs' = map device_id gs /\ gs' <> [].
Proof.
  revert gs'. induction gs as [|g gs IH]; intros gs'; simpl; [done|].
  case_if; bool_hyps.
  - intros [= <-]. rewrite !min_known_cons, merge_available. split_and!; [|simpl|done..].
    + rewrite <- !(assoc min_opt). f_equal. apply (comm min_opt).
    + destruct (current g), (current r), (forallb current gs); done.
  - destruct (merge_into gs d r) as [gs''|]; [|done]. simpl. intros [= <-].
    destruct (IH gs'' eq_refl) as (H1 & H2 & H3 & _).
    rewrite !min_known_cons, H1. simpl. rewrite H2, H3. split_and!; [by rewrite (assoc min_opt)|by rewrite andb_assoc|done..].
Qed.

Lemma merge_into_None gs d r : merge_into gs d r = None -> Some d ∉ map device_id gs.
Proof.
  induction gs as [|g gs IH]; simpl; [intros _ ?%elem_of_nil; done|].
  case_if; bool_hyps; [done|]. intros Hn%fmap_None.
  intros [?|?]%elem_of_cons; [congruence|]. by apply IH.
Qed.

(** Groups with a known device are one per device. *)
Definition devices (gs : list StorageVolumeReading) : list Z := omap device_id gs.

Lemma devices_map gs gs' : map device_id gs = map device_id gs' -> devices gs = devices gs'.
Proof.
  unfold devices. revert gs'. induction gs as [|g gs IH]; intros [|g' gs'] H; try done.
  injection H as H1 H2. cbn [omap list_omap]. rewrite H1.
  destruct (device_id g'); [f_equal|]; exact (IH gs' H2).
Qed.

Lemma coalesce_step_spec gs r : NoDup (devices gs) ->
  min_known (coalesce_step gs r) = min_opt (min_known gs) (available_bytes r) /\
  forallb current (coalesce_step gs r) = forallb current gs && current r /\
  NoDup (devices (coalesce_step gs r)) /\ coalesce_step gs r <> [].
Proof.
  intros Hnd. unfold coalesce_step.
  assert (Happ : (forall d, device_id r = Some d -> Some d ∉ map device_id gs) ->
    min_known (gs ++ [r]) = min_opt (min_known gs) (available_bytes r) /\
    forallb current (gs ++ [r]) = forallb current gs && current r /\
    NoDup (devices (gs ++ [r])) /\ gs ++ [r] <> []).
  { intros Hd. rewrite min_known_app. unfold min_known at 2. simpl. rewrite min_opt_none_r.
    split_and!; [done| | |by destruct gs].
    - rewrite forallb_app. simpl. by rewrite andb_true_r.
    - unfold devices in *. rewrite omap_app. simpl.
      destruct (device_id r) as [d|]; [|by rewrite app_nil_r].
      apply NoDup_app. split; [done|]. split; [|apply NoDup_singleton].
      intros d' Hin ->%list_elem_of_singleton. apply (Hd d eq_refl).
      apply list_elem_of_omap in Hin as (g & Hg & He). rewrite <- He. by apply list_elem_of_fmap_2. }
  destruct (device_id r) as [d|] eqn:Hd; simpl; [|by apply Happ].
  destruct (merge_into gs d r) as [gs'|] eqn:Hm.
  - destruct (merge_into_spec _ _ _ _ Hm) as (H1 & H2 & H3 & H4). split_and!; try done.
    by rewrite (devices_map _ _ H3).
  - apply Happ. intros ? [= <-]. by apply (merge_into_None _ _ r).
Qed.

Lemma coalesce_fold rs : forall gs, NoDup (devices gs) ->
  let out := fold_left coalesce_step rs gs in
  min_known out = min_opt (min_known gs) (min_known rs) /\
  forallb current out = forallb current gs && forallb current rs /\
  NoDup (devices out) /\ (out = [] <-> gs = [] /\ rs = []).
Proof.
  induction rs as [|r rs IH]; intros gs Hnd; simpl.
  { unfold min_known at 3. simpl. rewrite min_opt_none_r, andb_true_r. tauto. }
  destruct (coalesce_step_spec gs r Hnd) as (H1 & H2 & H3 & H4).
  destruct (IH _ H3) as (I1 & I2 & I3 & I4).
  rewrite min_known_cons, I1, I2, H1, H2, (assoc min_opt), andb_assoc. split_and!; try done.
  split; [intros [? _]%I4; done | intros [_ ?]; done].
Qed.

(** coalescing loses no constraint.  The space the disk guard acts on is the
    least known free space of all measured roots, however they share
    filesystems; it is unknown only when every reading is; every known device
    appears in one group; and [all_roots_known] holds only when there is a
    reading and all of them are current. *)
Theorem limiting_volume_correct rs :
  let g := select_limiting_volume (coalesce_storage_volumes rs) in
  g_available_bytes g = min_known rs /\
  NoDup (devices (volumes g)) /\
  all_roots_known g = negb (bool_decide (rs = [])) && forallb current rs.
Proof.
  destruct (coalesce_fold rs [] ltac:(constructor)) as (H1 & H2 & H3 & H4).
  change (fold_left coalesce_step rs []) with (coalesce_storage_volumes rs) in *.
  simpl in *. rewrite select_available, H1. split; [done|].
  set (gs := coalesce_storage_volumes rs) in *.
  assert (Hv : volumes (select_limiting_volume gs) = gs)
    by (unfold select_limiting_volume; by destruct (min_by_available _) as [[??]|]).
  rewrite Hv. split; [done|].
  assert (Hk : all_roots_known (select_limiting_volume gs) =
    negb (bool_decide (length gs = 0%nat)) && forallb current gs)
    by (unfold select_limiting_volume; by destruct (min_by_available _) as [[??]|]).
  rewrite Hk, H2. f_equal. f_equal. apply bool_decide_ext.
  rewrite length_zero_iff_nil. tauto.
Qed.

Lemma probe_merge_current measured : forall lk acc,
  map current (snd (fold_left probe_step measured (lk, acc))) =
  map current acc ++ map (fun m => current (snd m)) measured.
Proof.
  induction measured as [|[p r] measured IH]; intros lk acc; simpl; [by rewrite app_nil_r|].
  destruct (current r) eqn:Hc; [|destruct (lk !! p) as [prev|]];
    rewrite IH, map_app, <- app_assoc; simpl; by rewrite ?Hc.
Qed.

(** stale data is never evidence of recovery.  After a probe cycle in which
    any root timed out or was unreadable, [all_roots_known] is false, whatever
    the last-known readings say; it is true exactly when every root was
    measured in this cycle. *)
Theorem probe_all_known last_known measured :
  all_roots_known (snd (probe_with last_known measured)) =
  negb (bool_decide (measured = [])) && forallb (fun m => current (snd m)) measured.
Proof.
  unfold probe_with. pose proof (probe_merge_current measured last_known []) as Hc.
  fold (probe_merge last_known measured) in Hc.
  destruct (probe_merge last_known measured) as [lk rs]. simpl in *.
  destruct (coalesce_fold rs [] ltac:(constructor)) as (_ & H2 & _ & H4).
  change (fold_left coalesce_step rs []) with (coalesce_storage_volumes rs) in *. simpl in *.
  set (gs := coalesce_storage_volumes rs) in *.
  assert (Hk : all_roots_known (select_limiting_volume gs) =
    negb (bool_decide (length gs = 0%nat)) && forallb current gs)
    by (unfold select_limiting_volume; by destruct (min_by_available _) as [[??]|]).
  assert (Hf : forallb current rs = forallb (fun m => current (snd m)) measured).
  { clear -Hc. revert rs Hc. induction measured as [|m ms IH]; intros [|r rs] Hc; try done.
    simpl in *. injection Hc as -> Hc. by rewrite (IH rs Hc). }
  rewrite Hk, H2, Hf. f_equal. f_equal. apply bool_decide_ext.
  rewrite length_zero_iff_nil, H4. apply (f_equal length) in Hc. rewrite !length_map in Hc.
  split; [intros [_ ->]; by destruct measured | intros ->; split; [done|by destruct rs]].
Qed.
