(* ===== verification/EventHub.v ===== *)
(** * The event hub ([crates/nzbd-api/src/eventhub.rs])

    Sequence-stamped engine events with a replay ring.  The JSON body is a
    parameter ([stamp] inserts the sequence number and renders it).  Beside the
    whole operations the file gives the pump's publication as its three atomic
    steps (claim a number, store in the ring, send), so that the theorem on
    resuming clients covers every interleaving of a reconnect with the pump. *)

From S2P Require Import Prelude RustStr.

Definition RING : nat := 1024.

Record SeqFrame := { seq : Z; frame_name : str; data : str }.

Record EventId := { id_boot : Z; id_seq : Z }.

(** [raw.trim().split_once('-')], both halves parsed as [u64]. *)
Definition EventId_parse (raw : str) : option EventId :=
  match split_at_first (lit "-") (trim raw) with
  | None => None
  | Some (b, s) =>
      match parse_uint 10 u64_max b, parse_uint 10 u64_max s with
      | Some b, Some s => Some {| id_boot := b; id_seq := s |}
      | _, _ => None
      end
  end.

Definition EventId_display (id : EventId) : str :=
  show_dec (id_boot id) ++ lit "-" ++ show_dec (id_seq id).

Inductive Replay := Live | Frames (fs : list SeqFrame) | Reset_.

(** [next] is a [u64] counter from 1; it is not wrapped here (2^64 events). *)
Record EventHub := {
  boot : Z;
  next : Z;
  ring : list SeqFrame;
  tx : list SeqFrame;
  counts : gmap str Z;
  sse_clients : Z
}.

Definition hub_new (b : Z) : EventHub := {|
  boot := b; next := 1; ring := []; tx := []; counts := ∅; sse_clients := 0 |}.

(** [if ring.len() == RING { pop_front } push_back]. *)
Definition ring_push (r : list SeqFrame) (f : SeqFrame) : list SeqFrame :=
  (if bool_decide (length r = RING) then tail r else r) ++ [f].

Definition bump (m : gmap str Z) (k : str) : gmap str Z :=
  <[k := default 0 (m !! k) + 1]> m.

(** [replay] from the counter it loaded and the ring it locked. *)
Definition replay_at (b highest : Z) (r : list SeqFrame) (last_event_id : option EventId) : Replay :=
  match last_event_id with
  | None => Live
  | Some id =>
      if negb (id_boot id =? b) then Reset_
      else
        let last := id_seq id in
        if highest <? last then Reset_
        else
          match seq <$> head r with
          | None => if last =? highest then Live else Reset_
          | Some oldest =>
              if last + 1 <? oldest then Reset_
              else
                let frames := List.filter (fun f => last <? seq f) r in
                if bool_decide (length frames = 0%nat) then Live else Frames frames
          end
  end.

Definition replay (h : EventHub) (last_event_id : option EventId) : Replay :=
  replay_at (boot h) (sat_sub (next h) 1) (ring h) last_event_id.

(** ** The stream of one client ([sse_events] of [lib.rs])

    What the subscription delivers, and what is written to the client: the frames
    and notices that carry facts of the engine ([tick], [hb] and [log] have no id). *)

Inductive LiveItem := Item (f : SeqFrame) | Lagged (n : Z).

Inductive SseOut := O_Frame (f : SeqFrame) | O_Reset | O_Lagged (n : Z).

(** The loop over the subscription; [sent] is the highest number written so far. *)
Fixpoint follow (sent : Z) (items : list LiveItem) : list SseOut :=
  match items with
  | [] => []
  | Item f :: items' => if seq f <=? sent then follow sent items' else O_Frame f :: follow (seq f) items'
  | Lagged n :: items' => O_Lagged n :: follow sent items'
  end.

Definition sse_events (r : Replay) (items : list LiveItem) : list SseOut :=
  match r with
  | Live => follow 0 items
  | Reset_ => O_Reset :: follow 0 items
  | Frames fs => map O_Frame fs ++ follow (fold_left (fun m f => Z.max m (seq f)) fs 0) items
  end.

(** A broadcast receiver delivers what is sent after the subscription in order; where
    it fell behind, the number of frames it passed over stands for them. *)
Inductive received : list SeqFrame -> list LiveItem -> Prop :=
| received_nil : received [] []
| received_item f fs items : received fs items -> received (f :: fs) (Item f :: items)
| received_lag run fs items : received fs items -> received (run ++ fs) (Lagged (Z.of_nat (length run)) :: items).

(** The stream writes [fs] in order and once each; only where it tells of a lag may
    some be left out. *)
Inductive delivers : list SeqFrame -> list SseOut -> Prop :=
| delivers_nil : delivers [] []
| delivers_frame f fs out : delivers fs out -> delivers (f :: fs) (O_Frame f :: out)
| delivers_lag n run fs out : Z.of_nat (length run) <= n -> delivers fs out -> delivers (run ++ fs) (O_Lagged n :: out).

(** [stream_guard] and its [Drop]. *)
Definition stream_guard (h : EventHub) : EventHub := {|
  boot := boot h; next := next h; ring := ring h; tx := tx h; counts := counts h;
  sse_clients := sse_clients h + 1 |}.
Definition drop_guard (h : EventHub) : EventHub := {|
  boot := boot h; next := next h; ring := ring h; tx := tx h; counts := counts h;
  sse_clients := sse_clients h - 1 |}.

Section Publish.
Context {Body : Type} (stamp : Body -> Z -> str).

Definition make_frame (s : Z) (ev : str * Body) : SeqFrame := {|
  seq := s; frame_name := fst ev; data := stamp (snd ev) s |}.

Definition publish_raw (h : EventHub) (ev : str * Body) : EventHub :=
  let s := next h in
  let frame := make_frame s ev in
  {| boot := boot h; next := s + 1; ring := ring_push (ring h) frame;
     tx := tx h ++ [frame]; counts := bump (counts h) (fst ev); sse_clients := sse_clients h |}.

Fixpoint frames_from (s : Z) (evs : list (str * Body)) : list SeqFrame :=
  match evs with
  | [] => []
  | ev :: evs' => make_frame s ev :: frames_from (s + 1) evs'
  end.

(** ** Event ids *)

Lemma show_dec_no_dash n : 0 <= n -> Forall (fun c => (c =? 45) = false) (show_dec n).
Proof.
  intros Hn. eapply Forall_impl; [by apply show_dec_digits|]. intros c.
  unfold is_ascii_digit, in_range. simpl. lia.
Qed.

Lemma split_dash a b : Forall (fun c => (c =? 45) = false) a ->
  split_at_first (lit "-") (a ++ lit "-" ++ b) = Some (a, b).
Proof.
  intros Ha. induction Ha as [|c a Hc Ha IH]; [done|].
  cbn [app split_at_first]. change (lit "-") with [45] at 1. cbn [strip_prefix].
  rewrite Z.eqb_sym, Hc, IH. done.
Qed.

(** ** The ring *)

Lemma frames_from_app s a b :
  frames_from s (a ++ b) = frames_from s a ++ frames_from (s + Z.of_nat (length a)) b.
Proof.
  revert s. induction a as [|ev a IH]; intros s; simpl; [by rewrite Z.add_0_r|].
  rewrite IH. do 3 f_equal. lia.
Qed.

Lemma frames_from_length s evs : length (frames_from s evs) = length evs.
Proof. revert s. induction evs; intros; simpl; [done|]. by rewrite IHevs. Qed.

End Publish.

(** The frames a ring of this size keeps of [fs]. *)
Definition lastn {A} (n : nat) (l : list A) : list A := drop (length l - n) l.

Lemma lastn_push (l : list SeqFrame) f : ring_push (lastn RING l) f = lastn RING (l ++ [f]).
Proof.
  unfold ring_push, lastn. rewrite length_drop, length_app. simpl length.
  assert (Hr : (0 < RING)%nat) by (unfold RING; lia). generalize dependent RING. intros R Hr.
  case_if; bool_hyps.
  - replace (length l + 1 - R)%nat with (S (length l - R)) by lia.
    rewrite drop_app_le by lia. f_equal. apply tail_drop_S.
  - replace (length l - R)%nat with 0%nat by lia.
    by replace (length l + 1 - R)%nat with 0%nat by lia.
Qed.

(** Frames numbered consecutively from [s]. *)
Fixpoint numbered (s : Z) (fs : list SeqFrame) : Prop :=
  match fs with
  | [] => True
  | f :: fs' => seq f = s /\ numbered (s + 1) fs'
  end.

Lemma numbered_app s a b :
  numbered s (a ++ b) <-> numbered s a /\ numbered (s + Z.of_nat (length a)) b.
Proof.
  revert s. induction a as [|f a IH]; intros s; simpl; [rewrite Z.add_0_r; tauto|].
  rewrite IH. replace (s + 1 + Z.of_nat (length a)) with (s + Z.of_nat (S (length a))) by lia. tauto.
Qed.

Lemma numbered_drop s fs k : numbered s fs -> (k <= length fs)%nat ->
  numbered (s + Z.of_nat k) (drop k fs).
Proof.
  intros Hn Hk. rewrite <- (take_drop k fs), numbered_app in Hn. destruct Hn as [_ Hn].
  by rewrite length_take_le in Hn.
Qed.

Lemma numbered_filter fs : forall s last, numbered s fs -> s <= last + 1 ->
  List.filter (fun f => last <? seq f) fs = drop (Z.to_nat (last + 1 - s)) fs.
Proof.
  induction fs as [|f fs IH]; intros s last Hn Hs; simpl; [by rewrite drop_nil|].
  destruct Hn as [<- Hn]. destruct (last <? seq f) eqn:E; bool_hyps.
  - replace (Z.to_nat (last + 1 - seq f)) with 0%nat by lia. simpl. f_equal.
    clear -Hn E. revert Hn. generalize (seq f) E. intros q Hq. revert q Hq.
    induction fs as [|g fs IH]; intros q Hq Hn; [done|]. destruct Hn as [Hg Hn].
    simpl. destruct (last <? seq g) eqn:?; [|lia]. f_equal. apply (IH (q + 1)); [lia|done].
  - rewrite (IH (seq f + 1)) by (done || lia).
    replace (Z.to_nat (last + 1 - seq f)) with (S (Z.to_nat (last + 1 - (seq f + 1)))) by lia. done.
Qed.

(** What a resume gives when [stored] is everything ever stored. *)
Lemma replay_at_stored b highest stored last :
  numbered 1 stored -> 0 <= last ->
  match replay_at b highest (lastn RING stored) (Some {| id_boot := b; id_seq := last |}) with
  | Live => drop (Z.to_nat last) stored = []
  | Frames fs => fs = drop (Z.to_nat last) stored /\ fs <> []
  | Reset_ => highest < last \/ (stored = [] /\ last <> highest) \/
      (Z.of_nat (length stored) - Z.of_nat RING > last)
  end.
Proof.
  intros Hn Hlast. unfold replay_at. cbn [id_boot id_seq]. rewrite Z.eqb_refl. cbn [negb].
  destruct (highest <? last) eqn:E1; bool_hyps; [by left|].
  set (k := (length stored - RING)%nat).
  assert (Hr : (0 < RING)%nat) by (unfold RING; lia). generalize dependent RING. intros R k Hr.
  assert (Hnk : numbered (1 + Z.of_nat k) (lastn R stored)) by (apply numbered_drop; [done|lia]).
  unfold lastn in *. fold k in Hnk |- *.
  destruct (drop k stored) as [|f fs] eqn:Hd; cbn [head fmap option_fmap option_map].
  - assert (stored = []) as ->.
    { apply (f_equal length) in Hd. rewrite length_drop in Hd. apply length_zero_iff_nil. simpl in Hd. lia. }
    destruct (last =? highest) eqn:E2; bool_hyps; [by rewrite drop_nil|]. right; left. done.
  - assert (Hf : seq f = 1 + Z.of_nat k) by (by destruct Hnk). rewrite Hf.
    destruct (last + 1 <? 1 + Z.of_nat k) eqn:E2; bool_hyps.
    { right; right. lia. }
    rewrite (numbered_filter _ _ last Hnk) by lia. rewrite <- Hd, drop_drop.
    replace (k + Z.to_nat (last + 1 - (1 + Z.of_nat k)))%nat with (Z.to_nat last) by lia.
    case_if; bool_hyps.
    + by apply length_zero_iff_nil.
    + split; [done|]. intros Hnil. by rewrite Hnil in *.
Qed.

(** event ids survive the wire.  Every id printed as [boot-seq] parses back
    to itself. *)
Theorem event_id_roundtrip id : is_u64 (id_boot id) -> is_u64 (id_seq id) ->
  EventId_parse (EventId_display id) = Some id.
Proof.
  destruct id as [b s]. unfold is_u64. cbn [id_boot id_seq]. intros Hb Hs.
  unfold EventId_parse, EventId_display. cbn [id_boot id_seq].
  assert (Htrim : trim (show_dec b ++ lit "-" ++ show_dec s) = show_dec b ++ lit "-" ++ show_dec s).
  { apply trim_none. repeat (apply Forall_app; split).
    - eapply Forall_impl; [apply show_dec_alnum; lia|apply alnum_not_whitespace].
    - by repeat constructor.
    - eapply Forall_impl; [apply show_dec_alnum; lia|apply alnum_not_whitespace]. }
  rewrite Htrim, split_dash by (apply show_dec_no_dash; lia).
  by rewrite !parse_show_dec by lia.
Qed.

Lemma event_id_roundtrip_witness :
  EventId_parse (EventId_display {| id_boot := 1709251300000000000; id_seq := 51 |})
  = Some {| id_boot := 1709251300000000000; id_seq := 51 |}.
Proof. apply event_id_roundtrip; split; vm_compute; discriminate. Defined.

Section Run.
Context {Body : Type} (stamp : Body -> Z -> str).

Definition run_events (b : Z) (evs : list (str * Body)) : EventHub :=
  fold_left (publish_raw stamp) evs (hub_new b).

Lemma numbered_frames_from s evs : numbered s (frames_from stamp s evs).
Proof. revert s. induction evs as [|ev evs IH]; intros s; simpl; [done|]. split; [done|apply IH]. Qed.

Lemma run_events_spec b evs :
  let h := run_events b evs in
  boot h = b /\ next h = Z.of_nat (length evs) + 1 /\
  ring h = lastn RING (frames_from stamp 1 evs) /\ tx h = frames_from stamp 1 evs.
Proof.
  induction evs as [|ev evs IH] using rev_ind; [done|].
  unfold run_events in *. rewrite fold_left_app. simpl.
  destruct IH as (H1 & H2 & H3 & H4). rewrite H1, H2, H3, H4, lastn_push, frames_from_app.
  rewrite length_app. simpl. replace (Z.of_nat (length evs) + 1) with (1 + Z.of_nat (length evs)) by lia.
  split_and!; [done|lia|done..].
Qed.

(** a resuming client gets exactly what it missed.  After any events, a
    client quoting the last id it saw receives: nothing when it is current;
    the frames after its id, all of them, in order, once, when the ring still
    holds them; and an explicit reset when its id is from another boot, was
    never issued, or lies more than the ring's 1024 frames back. *)
Theorem replay_complete b evs id : 0 <= id_seq id ->
  let n := Z.of_nat (length evs) in
  replay (run_events b evs) (Some id) =
  if negb (id_boot id =? b) then Reset_
  else if n <? id_seq id then Reset_
  else if id_seq id <? n - Z.of_nat RING then Reset_
  else if id_seq id =? n then Live
  else Frames (drop (Z.to_nat (id_seq id)) (frames_from stamp 1 evs)).
Proof.
  intros Hid n. destruct id as [b' last]. cbn [id_boot id_seq] in *.
  destruct (run_events_spec b evs) as (H1 & H2 & H3 & _).
  unfold replay. rewrite H1, H2, H3. unfold sat_sub.
  replace (Z.max 0 (Z.of_nat (length evs) + 1 - 1)) with n by lia.
  destruct (b' =? b) eqn:Hb; cbn [negb]; bool_hyps; [subst b'|unfold replay_at; cbn [id_boot]; by rewrite (proj2 (Z.eqb_neq b' b) Hb)].
  pose proof (replay_at_stored b n (frames_from stamp 1 evs) last (numbered_frames_from 1 evs) Hid) as Hs.
  pose proof (frames_from_length stamp 1 evs) as Hlen.
  assert (Hd : length (drop (Z.to_nat last) (frames_from stamp 1 evs)) = (length evs - Z.to_nat last)%nat)
    by (by rewrite length_drop, Hlen).
  assert (HR : 0 < Z.of_nat RING) by done.
  destruct (n <? last) eqn:E1; bool_hyps.
  { unfold replay_at. cbn [id_boot id_seq]. rewrite Z.eqb_refl. cbn [negb].
    by rewrite (proj2 (Z.ltb_lt n last)) by lia. }
  destruct (last <? n - Z.of_nat RING) eqn:E2; bool_hyps.
  { unfold replay_at. cbn [id_boot id_seq]. rewrite Z.eqb_refl. cbn [negb].
    rewrite (proj2 (Z.ltb_ge n last)) by lia.
    assert (Hnk : numbered (1 + Z.of_nat (length evs - RING)) (lastn RING (frames_from stamp 1 evs))).
    { unfold lastn. rewrite Hlen. apply numbered_drop; [apply numbered_frames_from|]. rewrite Hlen. lia. }
    destruct (lastn RING (frames_from stamp 1 evs)) as [|f fs] eqn:Hl.
    - apply (f_equal length) in Hl. unfold lastn in Hl. rewrite length_drop, Hlen in Hl.
      simpl in Hl. lia.
    - destruct Hnk as [Hf _]. cbn [head fmap option_fmap option_map]. rewrite Hf.
      by rewrite (proj2 (Z.ltb_lt (last + 1) _)) by lia. }
  destruct (replay_at b n _ _) as [|fs|].
  - rewrite Hs in Hd. simpl in Hd. by destruct (last =? n) eqn:?; [|lia].
  - destruct Hs as [-> Hne]. destruct (last =? n) eqn:E3; bool_hyps; [|done].
    destruct Hne. apply length_zero_iff_nil. lia.
  - destruct Hs as [?|[[Hnil ?]|?]]; [lia| |lia].
    rewrite Hnil in Hlen. simpl in Hlen. lia.
Qed.

(** ** Every interleaving with the pump *)

(** The hub between the pump's atomic steps: a number claimed but not yet in
    the ring, a frame in the ring but not yet sent. *)
Record PumpState := { hub : EventHub; pending : option SeqFrame; unsent : option SeqFrame }.

Definition start (b : Z) : PumpState := {| hub := hub_new b; pending := None; unsent := None |}.

Definition set_hub (h : EventHub) (n : Z) (r t : list SeqFrame) (c : gmap str Z) : EventHub := {|
  boot := boot h; next := n; ring := r; tx := t; counts := c; sse_clients := sse_clients h |}.

Inductive pump_step : PumpState -> PumpState -> Prop :=
| step_claim h ev :
    pump_step {| hub := h; pending := None; unsent := None |}
      {| hub := set_hub h (next h + 1) (ring h) (tx h) (counts h);
         pending := Some (make_frame stamp (next h) ev); unsent := None |}
| step_store h f :
    pump_step {| hub := h; pending := Some f; unsent := None |}
      {| hub := set_hub h (next h) (ring_push (ring h) f) (tx h) (bump (counts h) (frame_name f));
         pending := None; unsent := Some f |}
| step_send h f :
    pump_step {| hub := h; pending := None; unsent := Some f |}
      {| hub := set_hub h (next h) (ring h) (tx h ++ [f]) (counts h); pending := None; unsent := None |}.

(** The three steps in a row are [publish_raw]. *)
Lemma steps_publish h ev :
  rtc pump_step {| hub := h; pending := None; unsent := None |}
    {| hub := publish_raw stamp h ev; pending := None; unsent := None |}.
Proof.
  eapply rtc_l; [apply (step_claim h ev)|]. eapply rtc_l; [apply step_store|].
  eapply rtc_l; [apply step_send|]. apply rtc_refl.
Qed.

Definition option_list {A} (o : option A) : list A := match o with Some a => [a] | None => [] end.
Definition stored (st : PumpState) : list SeqFrame := tx (hub st) ++ option_list (unsent st).

Record pump_inv (b : Z) (st : PumpState) : Prop := {
  pi_boot : boot (hub st) = b;
  pi_numbered : numbered 1 (stored st ++ option_list (pending st));
  pi_next : next (hub st) = 1 + Z.of_nat (length (stored st ++ option_list (pending st)));
  pi_ring : ring (hub st) = lastn RING (stored st)
}.

Lemma pump_inv_start b : pump_inv b (start b).
Proof. split; done. Qed.

Lemma pump_inv_step b st st' : pump_inv b st -> pump_step st st' -> pump_inv b st'.
Proof.
  intros [H1 H2 H3 H4] Hst. destruct Hst; unfold stored in *; simpl in *;
    rewrite ?app_nil_r, ?length_app in *; simpl in *.
  - split; unfold stored; simpl; rewrite ?app_nil_r; try done.
    + apply numbered_app. split; [done|]. rewrite <- H3. done.
    + rewrite length_app. simpl. lia.
  - split; unfold stored; simpl; rewrite ?app_nil_r; try done.
    + rewrite length_app. simpl. lia.
    + by rewrite H4, lastn_push.
  - split; unfold stored; simpl; rewrite ?app_nil_r; try done.
    rewrite length_app. simpl. lia.
Qed.

Lemma pump_inv_steps b st st' : rtc pump_step st st' -> pump_inv b st -> pump_inv b st'.
Proof. induction 1; intros; [done|]. eauto using pump_inv_step. Qed.

Lemma pump_tx_mono st st' : rtc pump_step st st' ->
  tx (hub st) `prefix_of` tx (hub st') /\ stored st `prefix_of` stored st'.
Proof.
  induction 1 as [|st st1 st2 Hst _ [IH1 IH2]]; [done|].
  split; (etransitivity; [|eassumption]); destruct Hst; unfold stored; simpl;
    rewrite ?app_nil_r; try done; by apply prefix_app_r.
Qed.

Lemma delivers_app fs gs out : delivers gs out -> delivers (fs ++ gs) (map O_Frame fs ++ out).
Proof. intros H. induction fs; [done|]. by constructor. Qed.

Definition is_item (i : LiveItem) : Prop := match i with Item _ => True | Lagged _ => False end.
Definition is_lag (o : SseOut) : Prop := match o with O_Lagged _ => True | _ => False end.

Lemma delivers_all fs out : delivers fs out -> Forall (fun o => ~ is_lag o) out ->
  out = map O_Frame fs.
Proof.
  induction 1 as [|f fs out _ IH|n run fs out _ _ IH]; intros Ha; [done| |]; inversion Ha as [|? ? Hx Hy]; subst; [|by destruct Hx].
  cbn [map]. f_equal. by apply IH.
Qed.

Lemma follow_no_lag items : Forall is_item items -> forall m, Forall (fun o => ~ is_lag o) (follow m items).
Proof. induction 1 as [|[f|n] items Hi _ IH]; intros m; [constructor| |done]. cbn [follow]. case_if; [apply IH|]. constructor; [by intros []|apply IH]. Qed.

Lemma sse_quiet r items : Forall is_item items -> Forall (fun o => ~ is_lag o) (sse_events r items).
Proof.
  intros Hi. destruct r as [|fs|]; cbn [sse_events]; [by apply follow_no_lag| |].
  - apply Forall_app. split; [|by apply follow_no_lag]. induction fs; constructor; [by intros []|done].
  - constructor; [by intros []|by apply follow_no_lag].
Qed.

(** The loop leaves out exactly the frames up to [m]. *)
Lemma follow_delivers fs items : received fs items -> forall m k, numbered (k + 1) fs ->
  delivers (drop (Z.to_nat (m - k)) fs) (follow m items).
Proof.
  induction 1 as [|f fs items _ IH|run fs items _ IH]; intros m k Hn; cbn [follow].
  - rewrite drop_nil. constructor.
  - destruct Hn as [Hf Hn]. destruct (seq f <=? m) eqn:E; bool_hyps.
    + replace (Z.to_nat (m - k)) with (S (Z.to_nat (m - (k + 1)))) by lia. cbn [drop]. by apply IH.
    + replace (Z.to_nat (m - k)) with 0%nat by lia. cbn [drop]. constructor.
      specialize (IH (seq f) (k + 1) Hn). by replace (Z.to_nat (seq f - (k + 1))) with 0%nat in IH by lia.
  - apply numbered_app in Hn as [_ Hn]. rewrite drop_app. constructor; [rewrite length_drop; lia|].
    replace (Z.to_nat (m - k) - length run)%nat with (Z.to_nat (m - (k + Z.of_nat (length run)))) by lia. apply IH.
    by replace (k + Z.of_nat (length run) + 1) with (k + 1 + Z.of_nat (length run)) by lia.
Qed.

Lemma numbered_max fs s m : numbered s fs -> m < s -> fs <> [] ->
  fold_left (fun m f => Z.max m (seq f)) fs m = s + Z.of_nat (length fs) - 1.
Proof.
  revert s m. induction fs as [|f fs IH]; intros s m Hn Hm Hne; [done|]. destruct Hn as [Hf Hn]. cbn [fold_left length].
  destruct fs as [|g fs]; [simpl; lia|]. rewrite (IH (s + 1)) by (done || lia). lia.
Qed.

(** Frames stored and not sent yet, over those that were sent. *)
Lemma prefixes_meet {A} (a b c : list A) : a `prefix_of` c -> b `prefix_of` c ->
  let all := a ++ drop (length a) b in a `prefix_of` all /\ b `prefix_of` all /\ all `prefix_of` c.
Proof.
  intros Ha Hb all. split; [by apply prefix_app_r|]. destruct (decide (length a <= length b)%nat) as [l|g].
  - assert (all = b) as ->; [|done]. destruct (prefix_weak_total a b c Ha Hb) as [[t ->]|[t ->]].
    + unfold all. by rewrite drop_app_length.
    + unfold all. rewrite length_app in *. destruct t; [|simpl in *; lia]. rewrite app_nil_r, (drop_ge b) by lia. by rewrite app_nil_r.
  - assert (all = a) as -> by (unfold all; rewrite drop_ge by lia; by rewrite app_nil_r). split; [|done].
    destruct (prefix_weak_total a b c Ha Hb) as [[t ->]|H]; [rewrite length_app in g; lia|done].
Qed.

(** C39: a resumed stream has no hole.  Whatever steps the pump takes between a
    client's subscription, its reading of the counter and its reading of the ring, and
    afterwards: a client that quotes a frame sent before it subscribed is told to reset,
    or its stream writes, in order and once each, all frames after that one (every one
    sent, at most one more that is stored), and leaves some out only where it says that
    the receiver lagged; without a lag it writes exactly these frames. *)
Theorem resume_no_loss b s0 s1 s2 s3 last items :
  rtc pump_step (start b) s0 -> rtc pump_step s0 s1 -> rtc pump_step s1 s2 ->
  rtc pump_step s2 s3 -> 0 <= last <= Z.of_nat (length (tx (hub s0))) ->
  received (drop (length (tx (hub s0))) (tx (hub s3))) items ->
  let r := replay_at b (sat_sub (next (hub s1)) 1) (ring (hub s2)) (Some {| id_boot := b; id_seq := last |}) in
  let out := sse_events r items in
  (r = Reset_ /\ head out = Some O_Reset) \/
  exists all, tx (hub s3) `prefix_of` all /\ all `prefix_of` stored s3 /\
    let missed := drop (Z.to_nat last) all in
    numbered (last + 1) missed /\ delivers missed out /\
    (Forall is_item items -> out = map O_Frame missed).
Proof.
  intros R0 R1 R2 R3 Hlast Hrec r out.
  pose proof (pump_inv_steps b _ _ R0 (pump_inv_start b)) as I0.
  pose proof (pump_inv_steps b _ _ R2 (pump_inv_steps b _ _ R1 I0)) as I2.
  pose proof (pump_inv_steps b _ _ R3 I2) as I3.
  assert (Hn : forall s, pump_inv b s -> numbered 1 (stored s)).
  { intros s Hs. apply numbered_app with (b := option_list (pending s)), Hs. }
  pose proof (Hn _ I2) as Hn2. pose proof (Hn _ I3) as Hn3.
  destruct (pump_tx_mono s0 s2) as [T02 _]; [by etransitivity|]. destruct (pump_tx_mono s2 s3 R3) as [T23 S23].
  assert (T2 : tx (hub s2) `prefix_of` stored s2) by (by apply prefix_app_r).
  assert (T3 : tx (hub s3) `prefix_of` stored s3) by (by apply prefix_app_r).
  destruct (prefixes_meet (stored s2) (tx (hub s3)) (stored s3) S23 T3) as (A2 & A3 & AS).
  set (all := stored s2 ++ drop (length (stored s2)) (tx (hub s3))) in *.
  assert (Hl02 : (length (tx (hub s0)) <= length (stored s2))%nat).
  { transitivity (length (tx (hub s2))); by apply prefix_length. }
  assert (Hna : numbered 1 all) by (destruct AS as [t Et]; rewrite Et in Hn3; by apply numbered_app in Hn3 as [? _]).
  assert (Hla : (length (stored s2) <= length all)%nat) by (by apply prefix_length).
  assert (Hm : numbered (last + 1) (drop (Z.to_nat last) all)).
  { replace (last + 1) with (1 + Z.of_nat (Z.to_nat last)) by lia. apply numbered_drop; [done|lia]. }
  set (a := length (tx (hub s0))) in *.
  assert (Hlive : numbered (Z.of_nat a + 1) (drop a (tx (hub s3)))).
  { replace (Z.of_nat a + 1) with (1 + Z.of_nat a) by lia. apply numbered_drop.
    - destruct T3 as [t Et]. rewrite Et in Hn3. by apply numbered_app in Hn3 as [? _].
    - transitivity (length (tx (hub s2))); by apply prefix_length. }
  assert (Hout : r <> Reset_ -> delivers (drop (Z.to_nat last) all) out).
  { intros Hr. unfold out. clear out. subst r. rewrite (pi_ring _ _ I2) in *.
    pose proof (replay_at_stored b (sat_sub (next (hub s1)) 1) (stored s2) last Hn2 ltac:(lia)) as Hrep.
    destruct (replay_at _ _ _ _) as [|fs|]; [| |done]; cbn [sse_events].
    - assert (Hl2 : (length (stored s2) <= Z.to_nat last)%nat).
      { apply (f_equal length) in Hrep. rewrite length_drop in Hrep. simpl in Hrep. lia. }
      assert (Ed : drop (Z.to_nat last) all = drop a (tx (hub s3))).
      { unfold all. rewrite drop_app_ge by lia. rewrite drop_drop. f_equal. lia. }
      rewrite Ed. pose proof (follow_delivers _ _ Hrec 0 (Z.of_nat a) Hlive) as D.
      by replace (Z.to_nat (0 - Z.of_nat a)) with 0%nat in D by lia.
    - destruct Hrep as [-> Hne]. assert (Hl2 : (Z.to_nat last < length (stored s2))%nat).
      { destruct (decide (Z.to_nat last < length (stored s2))%nat); [done|]. rewrite drop_ge in Hne by lia. done. }
      rewrite (numbered_max _ (last + 1) 0); [| |lia|done].
      2:{ replace (last + 1) with (1 + Z.of_nat (Z.to_nat last)) by lia. apply numbered_drop; [done|lia]. }
      unfold all. rewrite drop_app_le by lia. apply delivers_app.
      pose proof (follow_delivers _ _ Hrec (Z.of_nat (length (stored s2))) (Z.of_nat a) Hlive) as D.
      rewrite drop_drop in D. rewrite length_drop.
      replace (a + Z.to_nat (Z.of_nat (length (stored s2)) - Z.of_nat a))%nat with (length (stored s2)) in D by lia.
      by replace (last + 1 + Z.of_nat (length (stored s2) - Z.to_nat last) - 1) with (Z.of_nat (length (stored s2))) by lia. }
  destruct r as [|fs|] eqn:Er; [right|right|by left].
  all: exists all; split; [done|]; split; [done|]; split; [done|]; split; [by apply Hout|].
  all: intros Hi; apply delivers_all; [by apply Hout|by apply sse_quiet].
Qed.

End Run.

Lemma replay_complete_witness :
  let stamp := fun (b : str) (_ : Z) => b in
  let evs := [(lit "a", lit "x"); (lit "b", lit "y")] in
  replay (run_events stamp 7 evs) (Some {| id_boot := 7; id_seq := 1 |}) =
  if negb (7 =? 7) then Reset_
  else if 2 <? 1 then Reset_
  else if 1 <? 2 - Z.of_nat RING then Reset_
  else if 1 =? 2 then Live
  else Frames (drop (Z.to_nat 1) (frames_from stamp 1 evs)).
Proof. intros stamp evs. apply (replay_complete stamp 7 evs {| id_boot := 7; id_seq := 1 |}). vm_compute. discriminate. Defined.

(** The second frame is in the ring when the client reads it, and sent afterwards; the
    client gets it once. *)
Lemma resume_no_loss_witness :
  let stamp := fun (b : str) (_ : Z) => b in
  let h1 := publish_raw stamp (hub_new 7) (lit "a", lit "x") in
  let f2 := make_frame stamp 2 (lit "b", lit "y") in
  let f3 := make_frame stamp 3 (lit "c", lit "z") in
  let s0 := {| hub := h1; pending := None; unsent := None |} in
  let s2 := {| hub := set_hub h1 3 (ring_push (ring h1) f2) (tx h1) (bump (counts h1) (lit "b"));
               pending := None; unsent := Some f2 |} in
  let s3 := {| hub := publish_raw stamp (publish_raw stamp h1 (lit "b", lit "y")) (lit "c", lit "z");
               pending := None; unsent := None |} in
  let r := replay_at 7 (sat_sub (next (hub s0)) 1) (ring (hub s2)) (Some {| id_boot := 7; id_seq := 1 |}) in
  let items := [Item f2; Item f3] in
  sse_events r items = [O_Frame f2; O_Frame f3] /\
  ((r = Reset_ /\ head (sse_events r items) = Some O_Reset) \/
   exists all, tx (hub s3) `prefix_of` all /\ all `prefix_of` stored s3 /\
    let missed := drop (Z.to_nat 1) all in
    numbered (1 + 1) missed /\ delivers missed (sse_events r items) /\
    (Forall is_item items -> sse_events r items = map O_Frame missed)).
Proof.
  intros stamp h1 f2 f3 s0 s2 s3 r items. split; [reflexivity|].
  apply (resume_no_loss stamp 7 s0 s0 s2 s3 1 items).
  - apply steps_publish.
  - apply rtc_refl.
  - eapply rtc_l; [apply (step_claim stamp h1 (lit "b", lit "y"))|]. eapply rtc_l; [apply step_store|]. apply rtc_refl.
  - eapply rtc_l; [apply step_send|]. apply (steps_publish stamp (publish_raw stamp h1 (lit "b", lit "y")) (lit "c", lit "z")).
  - vm_compute. split; discriminate.
  - vm_compute. repeat constructor.
Defined.
