(* ===== verification/Nntp.v ===== *)
(** * The NNTP codec ([crates/nzbd-nntp/src/lib.rs])

    Responses, commands and the reader of dot-terminated text blocks. *)

From S2P Require Import Prelude RustStr.

Inductive NntpError := MalformedResponse | IllegalArgument.

(** ** Responses *)

Definition CAPABILITIES_FOLLOW : Z := 101.
Definition ARTICLE_FOLLOWS : Z := 220.
Definition HEAD_FOLLOWS : Z := 221.
Definition BODY_FOLLOWS : Z := 222.
Definition NO_ARTICLE_WITH_NUMBER : Z := 420.
Definition NO_NEXT_ARTICLE : Z := 421.
Definition NO_PREV_ARTICLE : Z := 422.
Definition NO_ARTICLE_IN_RANGE : Z := 423.
Definition NO_SUCH_ARTICLE : Z := 430.

Record Response := { code : Z; text : str }.

Definition strip_crlf (line : bytes) : bytes :=
  trim_end_matches (fun b => (b =? 13) || (b =? 10)) line.

(** [from_utf8(&line[..3]).unwrap()] cannot panic: the three bytes are digits. *)
Definition Response_parse (line0 : bytes) : result Response NntpError :=
  let line := strip_crlf line0 in
  if (Z.of_nat (length line) <? 3) || negb (forallb is_ascii_digit (take 3 line)) then
    Err MalformedResponse
  else
    match parse_uint 10 u16_max (take 3 line) with
    | None => Err MalformedResponse
    | Some c => Ok {| code := c; text := from_utf8_lossy (drop 4 line) |}
    end.

Definition is_positive (r : Response) : bool := (200 <=? code r) && (code r <? 300).

Definition is_article_missing (r : Response) : bool :=
  bool_decide (code r ∈ [NO_SUCH_ARTICLE; NO_ARTICLE_WITH_NUMBER; NO_ARTICLE_IN_RANGE;
                         NO_NEXT_ARTICLE; NO_PREV_ARTICLE]).

Definition expects_multiline (r : Response) : bool :=
  bool_decide (code r ∈ [CAPABILITIES_FOLLOW; ARTICLE_FOLLOWS; HEAD_FOLLOWS; BODY_FOLLOWS;
                         215; 224; 225; 230; 231]).

(** ** Commands *)

Inductive Command :=
| Capabilities | ModeReader | AuthInfoUser (u : str) | AuthInfoPass (p : str) | Group (g : str)
| BodyCmd (id : str) | Head (id : str) | Article (id : str) | Stat (id : str)
| CompressDeflate | DateCmd | QuitCmd.

(** The bytes of an argument: CR, LF and NUL are ASCII, so testing the
    characters is testing the bytes. *)
Definition check (arg : str) : result str NntpError :=
  if existsb (fun b => (b =? 13) || (b =? 10) || (b =? 0)) arg then Err IllegalArgument else Ok arg.

Definition msgid (arg : str) : result str NntpError :=
  let? arg := check arg in
  let arg := trim arg in
  let bare := trim_end_matches (fun c => c =? 62) (trim_start_matches (fun c => c =? 60) arg) in
  if bool_decide (bare = []) then Err IllegalArgument
  else Ok (lit "<" ++ bare ++ lit ">").

Definition CRLF : str := [13; 10].

Definition encode (c : Command) : result str NntpError :=
  match c with
  | Capabilities => Ok (lit "CAPABILITIES" ++ CRLF)
  | ModeReader => Ok (lit "MODE READER" ++ CRLF)
  | AuthInfoUser u => let? u := check u in Ok (lit "AUTHINFO USER " ++ u ++ CRLF)
  | AuthInfoPass p => let? p := check p in Ok (lit "AUTHINFO PASS " ++ p ++ CRLF)
  | Group g => let? g := check g in Ok (lit "GROUP " ++ g ++ CRLF)
  | BodyCmd id => let? id := msgid id in Ok (lit "BODY " ++ id ++ CRLF)
  | Head id => let? id := msgid id in Ok (lit "HEAD " ++ id ++ CRLF)
  | Article id => let? id := msgid id in Ok (lit "ARTICLE " ++ id ++ CRLF)
  | Stat id => let? id := msgid id in Ok (lit "STAT " ++ id ++ CRLF)
  | CompressDeflate => Ok (lit "COMPRESS DEFLATE" ++ CRLF)
  | DateCmd => Ok (lit "DATE" ++ CRLF)
  | QuitCmd => Ok (lit "QUIT" ++ CRLF)
  end.

(** [Display], which hides the password. *)
Definition Command_display (c : Command) : str :=
  match c with
  | AuthInfoPass _ => lit "AUTHINFO PASS ***"
  | other =>
      trim_end_matches is_whitespace (match encode other with Ok s => s | Err _ => [] end)
  end.

(** ** Multiline blocks *)

Record MultilineReader := {
  content : bytes;
  at_line_start : bool;
  dot : Z;
  done_ : bool
}.

Definition reader_new : MultilineReader := {|
  content := []; at_line_start := true; dot := 0; done_ := false |}.

Definition reader_byte (r : MultilineReader) (b : Z) : MultilineReader :=
  if dot r =? 1 then
    if b =? 46 then
      {| content := content r ++ [46]; at_line_start := false; dot := 0; done_ := done_ r |}
    else if b =? 13 then
      {| content := content r; at_line_start := at_line_start r; dot := 2; done_ := done_ r |}
    else if b =? 10 then
      {| content := content r; at_line_start := at_line_start r; dot := 0; done_ := true |}
    else
      {| content := content r ++ [46; b]; at_line_start := false; dot := 0; done_ := done_ r |}
  else if dot r =? 2 then
    if b =? 10 then
      {| content := content r; at_line_start := at_line_start r; dot := 0; done_ := true |}
    else
      {| content := content r ++ [46; 13; b]; at_line_start := b =? 10; dot := 0; done_ := done_ r |}
  else if at_line_start r && (b =? 46) then
    {| content := content r; at_line_start := at_line_start r; dot := 1; done_ := done_ r |}
  else
    {| content := content r ++ [b]; at_line_start := b =? 10; dot := dot r; done_ := done_ r |}.

Fixpoint reader_loop (r : MultilineReader) (buf : bytes) (i : nat) : MultilineReader * nat :=
  match buf with
  | [] => (r, i)
  | b :: buf' => if done_ r then (r, i) else reader_loop (reader_byte r b) buf' (S i)
  end.

Definition reader_push (r : MultilineReader) (buf : bytes) : MultilineReader * (nat * bool) :=
  let '(r', i) := reader_loop r buf 0 in (r', (i, done_ r')).

Definition into_lines (r : MultilineReader) : list str :=
  List.filter (fun l => negb (bool_decide (l = [])))
    (map (fun l => from_utf8_lossy (strip_crlf l)) (split_chars (fun b => b =? 10) (content r))).

(** The sender's side of a block (RFC 3977): each line with CRLF, a leading dot
    doubled, and the terminator. *)
Definition stuff_line (l : bytes) : bytes := (if bool_decide (head l = Some 46) then [46] else []) ++ l ++ CRLF.
Definition send_block (lines : list bytes) : bytes := concat (map stuff_line lines) ++ lit "." ++ CRLF.

(** The reads of a connection until the block is complete, and what is left. *)
Fixpoint read_block (r : MultilineReader) (chunks : list bytes) : option (MultilineReader * bytes) :=
  match chunks with
  | [] => None
  | c :: cs =>
      let '(r', (n, fin)) := reader_push r c in
      if fin then Some (r', drop n c ++ concat cs) else read_block r' cs
  end.

Example block_ex :
  read_block reader_new [send_block [lit ".a"; []; lit "b"] ++ lit "223 next"]
  = Some ({| content := lit ".a" ++ CRLF ++ CRLF ++ lit "b" ++ CRLF; at_line_start := true;
             dot := 0; done_ := true |}, lit "223 next").
Proof. vm_compute. reflexivity. Qed.

(** ** One command per line *)

Lemma check_Ok arg x : check arg = Ok x -> x = arg /\ Forall (fun c => c <> 13 /\ c <> 10 /\ c <> 0) arg.
Proof.
  unfold check. destruct (existsb _ arg) eqn:E; [done|]. intros [= <-]. split; [done|].
  apply Forall_forall. intros c Hc.
  assert (Hb : ((c =? 13) || (c =? 10) || (c =? 0)) = false).
  { apply not_true_iff_false. intros Ht. apply not_true_iff_false in E. apply E, existsb_elem. eauto. }
  lia.
Qed.

Lemma msgid_Ok arg x : msgid arg = Ok x ->
  exists bare, x = lit "<" ++ bare ++ lit ">" /\ bare <> [] /\
    Forall (fun c => c <> 13 /\ c <> 10 /\ c <> 0) bare /\
    (head bare <> Some 60) /\ (last bare <> Some 62).
Proof.
  unfold msgid. destruct (check arg) as [a|] eqn:E; [|done]. simpl.
  apply check_Ok in E as [-> Hc].
  set (bare := trim_end_matches _ _). case_if; bool_hyps; [done|]. intros [= <-].
  exists bare. split_and!; [done|done|..].
  - unfold bare, trim. auto with nzbd.
  - intros Hh. by apply trim_ends_head in Hh.
  - intros Hh. by apply trim_end_last in Hh.
Qed.

(** no command injection.  Every command line [encode] produces is one line:
    a nonempty body without CR, LF or NUL, then one CRLF; so an argument taken
    from an NZB or the configuration can never start a second command. *)
Theorem encode_single_line c s : encode c = Ok s ->
  exists body, s = body ++ CRLF /\ body <> [] /\ Forall (fun b => b <> 13 /\ b <> 10 /\ b <> 0) body.
Proof.
  intros He.
  assert (Hlit : forall l, forallb (fun b => negb ((b =? 13) || (b =? 10) || (b =? 0))) l = true ->
    Forall (fun b => b <> 13 /\ b <> 10 /\ b <> 0) l).
  { intros l. rewrite forallb_elem, Forall_forall. intros Hl b Hb%Hl. lia. }
  assert (Hmk : forall p x, p <> [] ->
    forallb (fun b => negb ((b =? 13) || (b =? 10) || (b =? 0))) p = true ->
    Forall (fun b => b <> 13 /\ b <> 10 /\ b <> 0) x ->
    s = p ++ x ++ CRLF -> exists body, s = body ++ CRLF /\ body <> [] /\
      Forall (fun b => b <> 13 /\ b <> 10 /\ b <> 0) body).
  { intros p x Hp Hpl Hx ->. exists (p ++ x). rewrite <- app_assoc. split_and!; [done| |].
    - intros [? _]%app_nil. done.
    - apply Forall_app. auto. }
  destruct c; cbn [encode] in He;
    try (apply Ok_inj in He; eapply (Hmk _ []); [| |constructor|exact (eq_sym He)]; done);
    match type of He with
    | result_bind (check ?a) _ = _ =>
        destruct (check a) as [x|] eqn:Hc; [|done]; apply check_Ok in Hc as [-> Hx];
        apply Ok_inj in He; eapply Hmk; [| |exact Hx|exact (eq_sym He)]; done
    | result_bind (msgid ?a) _ = _ =>
        destruct (msgid a) as [x|] eqn:Hc; [|done]; apply msgid_Ok in Hc as (bare & -> & _ & Hx & _);
        apply Ok_inj in He;
        eapply (Hmk _ (lit "<" ++ bare ++ lit ">")); [| | |exact (eq_sym He)]; [done|done|];
        repeat (apply Forall_app; split); try done; by apply Hlit
    end.
Qed.

Lemma encode_single_line_witness :
  exists body, lit "BODY <a@b>" ++ CRLF = body ++ CRLF /\ body <> [] /\
    Forall (fun b => b <> 13 /\ b <> 10 /\ b <> 0) body.
Proof. apply (encode_single_line (BodyCmd (lit " <a@b> "))). reflexivity. Defined.

(** ** Reading blocks *)

Lemma reader_loop_app r a b i :
  reader_loop r (a ++ b) i = let '(r1, n) := reader_loop r a i in reader_loop r1 b n.
Proof.
  revert r i. induction a as [|x a IH]; intros r i; [done|]. simpl.
  destruct (done_ r) eqn:Hd; [destruct b; simpl; by rewrite ?Hd|]. apply IH.
Qed.

Lemma reader_loop_shift r buf i k :
  reader_loop r buf (i + k) = let '(r', n) := reader_loop r buf i in (r', (n + k)%nat).
Proof.
  revert r i. induction buf as [|b buf IH]; intros r i; simpl; [done|].
  case_if; [done|]. apply (IH _ (S i)).
Qed.

Lemma reader_loop_count r buf i r' n : reader_loop r buf i = (r', n) ->
  (i <= n <= i + length buf)%nat /\ (done_ r' = false -> n = (i + length buf)%nat).
Proof.
  revert r i. induction buf as [|b buf IH]; intros r i; simpl.
  { intros [= <- <-]. lia. }
  destruct (done_ r) eqn:Hd; [intros [= <- <-]; split; [lia|congruence]|].
  intros Hl%IH. lia.
Qed.

(** The whole stream at once. *)
Definition read_stream (r : MultilineReader) (s : bytes) : option (MultilineReader * bytes) :=
  let '(r', n) := reader_loop r s 0 in if done_ r' then Some (r', drop n s) else None.

Lemma read_block_stream chunks : forall r, done_ r = false ->
  read_block r chunks = read_stream r (concat chunks).
Proof.
  induction chunks as [|c cs IH]; intros r Hr; simpl.
  { unfold read_stream. simpl. by rewrite Hr. }
  unfold read_stream, reader_push. rewrite reader_loop_app.
  destruct (reader_loop r c 0) as [r1 n] eqn:H1.
  destruct (reader_loop_count _ _ _ _ _ H1) as [Hn Hfull]. simpl in Hn, Hfull.
  destruct (done_ r1) eqn:Hd.
  - assert (reader_loop r1 (concat cs) n = (r1, n)) as ->
      by (destruct (concat cs); simpl; by rewrite ?Hd).
    rewrite Hd. by rewrite drop_app_le by lia.
  - rewrite IH by done. unfold read_stream. rewrite (Hfull eq_refl).
    pose proof (reader_loop_shift r1 (concat cs) 0 (length c)) as Hs. simpl in Hs. rewrite Hs.
    destruct (reader_loop r1 (concat cs) 0) as [r2 m]. case_if; [|done].
    by rewrite Nat.add_comm, drop_app_add.
Qed.

Definition at_start (c : bytes) : MultilineReader := {|
  content := c; at_line_start := true; dot := 0; done_ := false |}.

Lemma reader_plain c l i : Forall (fun b => b <> 10) l ->
  reader_loop {| content := c; at_line_start := false; dot := 0; done_ := false |} (l ++ CRLF) i =
  (at_start (c ++ l ++ CRLF), (i + length l + 2)%nat).
Proof.
  intros Hl. revert c i. induction Hl as [|b l Hb Hl IH]; intros c i.
  - simpl. unfold reader_byte; simpl. rewrite <- app_assoc. f_equal. lia.
  - cbn [app reader_loop done_]. unfold reader_byte; cbn [dot at_line_start andb content done_].
    simpl (0 =? 1). simpl (0 =? 2). cbv iota. replace (b =? 10) with false by lia.
    rewrite IH, <- app_assoc. f_equal. simpl. lia.
Qed.

(** One stuffed line through the reader. *)
Lemma reader_line c l i : Forall (fun b => b <> 10) l ->
  reader_loop (at_start c) (stuff_line l) i =
  (at_start (c ++ l ++ CRLF), (i + length (stuff_line l))%nat).
Proof.
  intros Hl. unfold stuff_line. destruct l as [|b l].
  { simpl. unfold reader_byte; simpl. rewrite <- app_assoc. f_equal. lia. }
  apply Forall_cons in Hl as [Hb Hl]. cbn [head]. case_if; bool_hyps.
  - injection Heqb0 as ->. simpl app. simpl reader_loop.
    unfold reader_byte at 2; simpl. unfold reader_byte; simpl. 
    rewrite reader_plain by done. rewrite <- app_assoc. f_equal.
    rewrite length_app. simpl. lia.
  - assert (b <> 46) by congruence.
    simpl app. cbn [reader_loop done_ at_start]. unfold reader_byte, at_start at 1; simpl.
    replace (b =? 46) with false by lia. replace (b =? 10) with false by lia.
    rewrite reader_plain by done. rewrite <- app_assoc. f_equal. rewrite length_app. simpl. lia.
Qed.

Lemma reader_block lines : forall c i, Forall (Forall (fun b => b <> 10)) lines ->
  reader_loop (at_start c) (concat (map stuff_line lines)) i =
  (at_start (c ++ concat (map (fun l => l ++ CRLF) lines)),
   (i + length (concat (map stuff_line lines)))%nat).
Proof.
  induction lines as [|l lines IH]; intros c i Hl; simpl.
  { rewrite app_nil_r. f_equal. lia. }
  apply Forall_cons in Hl as [Hl Hls].
  rewrite reader_loop_app, reader_line, IH by done. rewrite <- !app_assoc, length_app. f_equal. lia.
Qed.

(** dot-stuffed blocks are read back whole.  For any lines without LF, sent
    as RFC 3977 prescribes and cut into reads anywhere, with the next response
    behind them, the reader completes, holds exactly the lines (undotted, with
    their CRLFs) and leaves exactly the next response unread. *)
Theorem multiline_roundtrip lines chunks next : Forall (Forall (fun b => b <> 10)) lines ->
  concat chunks = send_block lines ++ next ->
  exists r, read_block reader_new chunks = Some (r, next) /\
    done_ r = true /\ content r = concat (map (fun l => l ++ CRLF) lines).
Proof.
  intros Hl Hc. rewrite read_block_stream, Hc by done. unfold read_stream, send_block.
  rewrite <- app_assoc. rewrite reader_loop_app.
  change reader_new with (at_start []). rewrite reader_block by done. cbn [app Nat.add].
  exists {| content := concat (map (fun l => l ++ CRLF) lines); at_line_start := true; dot := 0; done_ := true |}.
  split; [|done]. simpl. unfold reader_byte at 3; simpl. unfold reader_byte at 2; simpl.
  unfold reader_byte; simpl.
  assert (Hend : forall r n, done_ r = true -> reader_loop r next n = (r, n))
    by (intros r n Hr; destruct next; simpl; by rewrite ?Hr).
  rewrite Hend by done. simpl. do 2 f_equal.
  replace (S (S (S (length (concat (map stuff_line lines))))))
    with (length (concat (map stuff_line lines)) + 3)%nat by lia.
  by rewrite drop_app_add.
Qed.

Lemma multiline_roundtrip_witness :
  let lines := [lit ".a"; []; lit "b"] in
  exists r, read_block reader_new [take 3 (send_block lines); drop 3 (send_block lines) ++ lit "200"]
      = Some (r, lit "200") /\
    done_ r = true /\ content r = concat (map (fun l => l ++ CRLF) lines).
Proof.
  intros lines. apply (multiline_roundtrip lines).
  - repeat constructor; discriminate.
  - reflexivity.
Defined.
