(* ===== verification/Nzb.v ===== *)
(** * The NZB parser ([crates/nzbd-nzb/src/lib.rs]) and writer
    ([crates/nzbd-engine/src/queue.rs], [job_to_nzb])

    The XML tokenizer is the [quick_xml] library; the parser is modelled as the
    function it is over the events that library yields (attributes decoded,
    text of one event trimmed by the code).  Since version 0.38 the library
    reports every entity or character reference in text as an event of its
    own, [GeneralRef], which the parser's last arm ignores. *)

From S2P Require Import Prelude RustStr Types.

Inductive NzbError := Xml | NotNzb | EmptyNzb.

Record NzbMeta := { title : option str; meta_password : option str; meta_category : option str }.

Record ParsedSegment := { ps_message_id : str; ps_number : Z; ps_bytes : Z }.

Record ParsedFile := {
  pf_subject : str;
  poster : option str;
  pf_date : option Z;
  pf_groups : list str;
  pf_segments : list ParsedSegment
}.

Record ParsedNzb := { meta : NzbMeta; nzb_files : list ParsedFile }.

Definition file_encoded_size (f : ParsedFile) : Z := sum_Z (map ps_bytes (pf_segments f)).
Definition encoded_size (n : ParsedNzb) : Z := sum_Z (map file_encoded_size (nzb_files n)).

(** The text between the first two quotes of the subject, or the subject. *)
Definition filename_hint (f : ParsedFile) : str :=
  let whole := trim (pf_subject f) in
  match split_at_first [34] (pf_subject f) with
  | None => whole
  | Some (_, rest) =>
      match split_at_first [34] rest with
      | None => whole
      | Some (quoted, _) =>
          let name := trim quoted in
          if bool_decide (name = []) then whole else name
      end
  end.

Definition looks_like_par2 (f : ParsedFile) : bool :=
  ends_with (lit ".par2") (to_ascii_lowercase (filename_hint f)).

(** ** The event loop *)

Inductive XmlEvent :=
| Start (name : str) (attrs : list (str * str))
| Text (content : str)
| GeneralRef (entity : str)
| EndTag (name : str)
| OtherEvent
| XmlFailure.

Inductive TextTarget := TT_Group | TT_Segment | TT_Meta.

Record ParseState := {
  nzb : ParsedNzb;
  saw_root : bool;
  cur_file : option ParsedFile;
  cur_segment : option ParsedSegment;
  text_target : option TextTarget;
  meta_type : option str
}.

Definition parse_init : ParseState := {|
  nzb := {| meta := {| title := None; meta_password := None; meta_category := None |};
            nzb_files := [] |};
  saw_root := false; cur_file := None; cur_segment := None; text_target := None;
  meta_type := None |}.

Definition file_attr (f : ParsedFile) (kv : str * str) : ParsedFile :=
  let '(k, v) := kv in
  if bool_decide (k = lit "subject") then
    {| pf_subject := v; poster := poster f; pf_date := pf_date f; pf_groups := pf_groups f;
       pf_segments := pf_segments f |}
  else if bool_decide (k = lit "poster") then
    {| pf_subject := pf_subject f; poster := Some v; pf_date := pf_date f; pf_groups := pf_groups f;
       pf_segments := pf_segments f |}
  else if bool_decide (k = lit "date") then
    {| pf_subject := pf_subject f; poster := poster f; pf_date := parse_i64 (trim v);
       pf_groups := pf_groups f; pf_segments := pf_segments f |}
  else f.

Definition segment_attr (s : ParsedSegment) (kv : str * str) : ParsedSegment :=
  let '(k, v) := kv in
  if bool_decide (k = lit "bytes") then
    {| ps_message_id := ps_message_id s; ps_number := ps_number s;
       ps_bytes := default 0 (parse_uint 10 u64_max (trim v)) |}
  else if bool_decide (k = lit "number") then
    {| ps_message_id := ps_message_id s;
       ps_number := default 0 (parse_uint 10 u32_max (trim v)); ps_bytes := ps_bytes s |}
  else s.

Definition set_cur_file (f : option ParsedFile) (st : ParseState) : ParseState := {|
  nzb := nzb st; saw_root := saw_root st; cur_file := f; cur_segment := cur_segment st;
  text_target := text_target st; meta_type := meta_type st |}.
Definition set_target (t : option TextTarget) (st : ParseState) : ParseState := {|
  nzb := nzb st; saw_root := saw_root st; cur_file := cur_file st; cur_segment := cur_segment st;
  text_target := t; meta_type := meta_type st |}.
Definition set_cur_segment (s : option ParsedSegment) (st : ParseState) : ParseState := {|
  nzb := nzb st; saw_root := saw_root st; cur_file := cur_file st; cur_segment := s;
  text_target := text_target st; meta_type := meta_type st |}.
Definition set_meta (m : NzbMeta) (st : ParseState) : ParseState := {|
  nzb := {| meta := m; nzb_files := nzb_files (nzb st) |}; saw_root := saw_root st;
  cur_file := cur_file st; cur_segment := cur_segment st;
  text_target := text_target st; meta_type := meta_type st |}.
Definition push_file (f : ParsedFile) (st : ParseState) : ParseState := {|
  nzb := {| meta := meta (nzb st); nzb_files := nzb_files (nzb st) ++ [f] |};
  saw_root := saw_root st; cur_file := cur_file st; cur_segment := cur_segment st;
  text_target := text_target st; meta_type := meta_type st |}.

Section Parse.
(** [str::to_lowercase], over the Unicode tables; used on [meta type=] only. *)
Context (to_lowercase : str -> str).

Definition on_start (st : ParseState) (nm : str) (attrs : list (str * str)) : ParseState :=
  if bool_decide (nm = lit "nzb") then
    {| nzb := nzb st; saw_root := true; cur_file := cur_file st; cur_segment := cur_segment st;
       text_target := text_target st; meta_type := meta_type st |}
  else if bool_decide (nm = lit "file") then
    set_cur_file (Some (fold_left file_attr attrs
      {| pf_subject := []; poster := None; pf_date := None; pf_groups := []; pf_segments := [] |})) st
  else if bool_decide (nm = lit "group") then set_target (Some TT_Group) st
  else if bool_decide (nm = lit "segment") then
    set_target (Some TT_Segment)
      (set_cur_segment (Some (fold_left segment_attr attrs
        {| ps_message_id := []; ps_number := 0; ps_bytes := 0 |})) st)
  else if bool_decide (nm = lit "meta") then
    {| nzb := nzb st; saw_root := saw_root st; cur_file := cur_file st; cur_segment := cur_segment st;
       text_target := Some TT_Meta;
       meta_type := to_lowercase <$> (snd <$> find (fun kv => bool_decide (fst kv = lit "type")) attrs) |}
  else st.

Definition on_text (st : ParseState) (content : str) : ParseState :=
  match text_target st with
  | None => st
  | Some target =>
      let text := trim content in
      if bool_decide (text = []) then st
      else
        match target with
        | TT_Group =>
            match cur_file st with
            | None => st
            | Some f =>
                set_cur_file (Some {| pf_subject := pf_subject f; poster := poster f;
                  pf_date := pf_date f; pf_groups := pf_groups f ++ [text];
                  pf_segments := pf_segments f |}) st
            end
        | TT_Segment =>
            match cur_segment st with
            | None => st
            | Some s =>
                set_cur_segment (Some {| ps_message_id := ps_message_id s ++ text;
                  ps_number := ps_number s; ps_bytes := ps_bytes s |}) st
            end
        | TT_Meta =>
            let m := meta (nzb st) in
            match meta_type st with
            | None => st
            | Some ty =>
                if bool_decide (ty = lit "password") then
                  set_meta {| title := title m; meta_password := Some text; meta_category := meta_category m |} st
                else if bool_decide (ty = lit "category") then
                  set_meta {| title := title m; meta_password := meta_password m; meta_category := Some text |} st
                else if bool_decide (ty = lit "title") || bool_decide (ty = lit "name") then
                  set_meta {| title := Some text; meta_password := meta_password m; meta_category := meta_category m |} st
                else st
            end
        end
  end.

Definition clean_id (s : ParsedSegment) : str :=
  trim_end_matches (fun c => c =? 62) (trim_start_matches (fun c => c =? 60) (trim (ps_message_id s))).

Definition on_end (st : ParseState) (nm : str) : ParseState :=
  if bool_decide (nm = lit "file") then
    match cur_file st with
    | None => st
    | Some f =>
        let segs := dedup_by_key ps_number (sort_by_key ps_number (pf_segments f)) in
        let f := {| pf_subject := pf_subject f; poster := poster f; pf_date := pf_date f;
                    pf_groups := pf_groups f; pf_segments := segs |} in
        let st := set_cur_file None st in
        if negb (bool_decide (length segs = 0%nat)) then push_file f st else st
    end
  else if bool_decide (nm = lit "segment") then
    match cur_segment st with
    | None => set_target None st
    | Some s =>
        let id := clean_id s in
        let st := set_target None (set_cur_segment None st) in
        if negb (bool_decide (id = [])) then
          match cur_file st with
          | None => st
          | Some f =>
              set_cur_file (Some {| pf_subject := pf_subject f; poster := poster f;
                pf_date := pf_date f; pf_groups := pf_groups f;
                pf_segments := pf_segments f ++
                  [{| ps_message_id := id; ps_number := ps_number s; ps_bytes := ps_bytes s |}] |}) st
          end
        else st
    end
  else if bool_decide (nm = lit "group") || bool_decide (nm = lit "meta") then set_target None st
  else st.

(** One turn of the loop; [None] is the reader's error ([?]). *)
Definition on_event (st : ParseState) (ev : XmlEvent) : option ParseState :=
  match ev with
  | Start nm attrs => Some (on_start st nm attrs)
  | Text content => Some (on_text st content)
  | EndTag nm => Some (on_end st nm)
  | GeneralRef _ | OtherEvent => Some st
  | XmlFailure => None
  end.

Fixpoint parse_loop (st : ParseState) (evs : list XmlEvent) : option ParseState :=
  match evs with
  | [] => Some st
  | ev :: evs' => match on_event st ev with None => None | Some st' => parse_loop st' evs' end
  end.

Definition parse (evs : list XmlEvent) : result ParsedNzb NzbError :=
  match parse_loop parse_init evs with
  | None => Err Xml
  | Some st =>
      if negb (saw_root st) then Err NotNzb
      else if bool_decide (length (nzb_files (nzb st)) = 0%nat) then Err EmptyNzb
      else Ok (nzb st)
  end.

End Parse.

(** ** Writing a job back as an NZB *)

Definition replace_char (c : Z) (by_ : str) (s : str) : str :=
  concat (map (fun x => if x =? c then by_ else [x]) s).

Definition esc_xml (s : str) : str :=
  replace_char 34 (lit "&quot;") (replace_char 62 (lit "&gt;")
    (replace_char 60 (lit "&lt;") (replace_char 38 (lit "&amp;") s))).

Definition Q : str := [34].
Definition NL : str := [10].

(** [Display] of an [i64]. *)
Definition show_i64 (n : Z) : str := if n <? 0 then lit "-" ++ show_dec (- n) else show_dec n.

Definition nzb_segment (s : Segment) : str :=
  lit "      <segment bytes=" ++ Q ++ show_dec (seg_size s) ++ Q ++ lit " number=" ++ Q
  ++ show_dec (number s) ++ Q ++ lit ">" ++ esc_xml (message_id s) ++ lit "</segment>" ++ NL.

Definition nzb_file (f : FileEntry) : str :=
  let subj := if bool_decide (trim (subject f) = []) then filename f else subject f in
  lit "  <file poster=" ++ Q ++ lit "nzbd" ++ Q ++ lit " date=" ++ Q ++ show_i64 (default 0 (date f))
  ++ Q ++ lit " subject=" ++ Q ++ esc_xml subj ++ Q ++ lit ">" ++ NL
  ++ lit "    <groups>" ++ NL
  ++ concat (map (fun g => lit "      <group>" ++ esc_xml g ++ lit "</group>" ++ NL) (groups f))
  ++ lit "    </groups>" ++ NL ++ lit "    <segments>" ++ NL
  ++ concat (map nzb_segment (segments f))
  ++ lit "    </segments>" ++ NL ++ lit "  </file>" ++ NL.

Definition job_to_nzb (j : Job) : str :=
  lit "<?xml version=" ++ Q ++ lit "1.0" ++ Q ++ lit " encoding=" ++ Q ++ lit "UTF-8" ++ Q ++ lit "?>" ++ NL
  ++ lit "<nzb xmlns=" ++ Q ++ lit "http://www.newzbin.com/DTD/2003/nzb" ++ Q ++ lit ">" ++ NL
  ++ lit "  <head>" ++ NL
  ++ lit "    <meta type=" ++ Q ++ lit "title" ++ Q ++ lit ">" ++ esc_xml (name j) ++ lit "</meta>" ++ NL
  ++ (match category j with
      | Some c => lit "    <meta type=" ++ Q ++ lit "category" ++ Q ++ lit ">" ++ esc_xml c ++ lit "</meta>" ++ NL
      | None => []
      end)
  ++ lit "  </head>" ++ NL
  ++ concat (map nzb_file (files j))
  ++ lit "</nzb>" ++ NL.

(** ** What a parsed NZB satisfies *)















Definition sample_events (id : list XmlEvent) : list XmlEvent :=
  [ Start (lit "nzb") []; Start (lit "file") [(lit "subject", lit "s")];
    Start (lit "segment") [(lit "bytes", lit "10"); (lit "number", lit "1")] ]
  ++ id ++ [EndTag (lit "segment"); EndTag (lit "file")].


(** The blanks inside the brackets stay: the text is trimmed before they go. *)
Example padded_id_kept :
  exists f s, parse to_ascii_lowercase (sample_events [Text (lit "<a@b >")]) =
    Ok {| meta := {| title := None; meta_password := None; meta_category := None |}; nzb_files := [f] |} /\
  pf_segments f = [s] /\ ps_message_id s = lit "a@b ".
Proof. do 2 eexists. split; [vm_compute; reflexivity|]. split; reflexivity. Qed.

(** entity references in text are lost.  The parser reads every document as
    if its references (and comments) were not there: a message-id or a title
    written with an entity is read without that character.  (The crate's header
    promises entities in message-ids, the tokenizer reports them as events the
    loop ignores.) *)
Theorem references_ignored lower evs :
  parse lower evs =
  parse lower (List.filter (fun ev => match ev with GeneralRef _ | OtherEvent => false | _ => true end) evs).
Proof.
  unfold parse. enough (Hl : forall st, parse_loop lower st evs =
    parse_loop lower st (List.filter (fun ev => match ev with GeneralRef _ | OtherEvent => false | _ => true end) evs))
    by (by rewrite Hl).
  induction evs as [|ev evs IH]; intros st; [done|]. destruct ev; simpl; auto.
Qed.

(** The id [part&1@news] of a document, [part&amp;1@news] in XML, is read as
    [part1@news], the id of another article. *)
Example entity_in_message_id :
  parse to_ascii_lowercase
    (sample_events [Text (lit "part"); GeneralRef (lit "amp"); Text (lit "1@news")]) =
  parse to_ascii_lowercase (sample_events [Text (lit "part1@news")]).
Proof. vm_compute. reflexivity. Qed.

(** ** Escaping *)

Definition esc_char (c : Z) : str :=
  if c =? 38 then lit "&amp;" else if c =? 60 then lit "&lt;" else if c =? 62 then lit "&gt;"
  else if c =? 34 then lit "&quot;" else [c].

Lemma replace_char_app c b s t : replace_char c b (s ++ t) = replace_char c b s ++ replace_char c b t.
Proof. unfold replace_char. by rewrite map_app, concat_app. Qed.

Lemma esc_xml_chars s : esc_xml s = concat (map esc_char s).
Proof.
  unfold esc_xml. induction s as [|c s IH]; [done|].
  change (c :: s) with ([c] ++ s). rewrite !replace_char_app, IH.
  change (map esc_char ([c] ++ s)) with (esc_char c :: map esc_char s). simpl concat. f_equal.
  unfold esc_char, replace_char. simpl. repeat (case_if; simpl; try done).
Qed.

Lemma esc_char_prefix a b x y : esc_char a ++ x = esc_char b ++ y -> a = b /\ x = y.
Proof.
  unfold esc_char.
  change (lit "&amp;") with [38; 97; 109; 112; 59]. change (lit "&lt;") with [38; 108; 116; 59].
  change (lit "&gt;") with [38; 103; 116; 59]. change (lit "&quot;") with [38; 113; 117; 111; 116; 59].
  repeat case_if; bool_hyps; cbn [app]; intros He; injection He; intros; subst;
    try done; try (split; congruence); exfalso; congruence.
Qed.

(** a written NZB cannot be broken by its data.  Escaped text holds no angle
    bracket and no quote, so no name, group or message-id can close the element
    or the attribute it is written in; and escaping is injective, no two texts
    are written alike. *)
Theorem esc_xml_safe s :
  Forall (fun c => c <> 60 /\ c <> 62 /\ c <> 34) (esc_xml s) /\
  forall t, esc_xml t = esc_xml s -> t = s.
Proof.
  setoid_rewrite esc_xml_chars. split.
  - induction s as [|c s IH]; simpl; [constructor|]. apply Forall_app. split; [|done].
    unfold esc_char. repeat case_if; bool_hyps; repeat constructor; done || lia.
  - induction s as [|c s IH]; intros [|d t]; simpl; intros He.
    + done.
    + exfalso. apply (f_equal length) in He. unfold esc_char in He. repeat case_if_in He; done.
    + exfalso. apply (f_equal length) in He. unfold esc_char in He. repeat case_if_in He; done.
    + apply esc_char_prefix in He as [-> He]. f_equal. by apply IH.
Qed.
