(* ===== verification/JobNames.v ===== *)
(** * Naming a job ([crates/nzbd-engine/src/queue.rs], lines 597-1050)

    How the daemon turns what a client handed it into a job name and a storage
    directory.  [percent_decode] slices its string at a byte index, which
    panics inside a character, so every function that decodes a name is a
    computation in [run]. *)

From S2P Require Import Prelude RustStr Types Nzb.

(** ** Cleaning a raw name *)

Definition first_piece (p : Z -> bool) (s : str) : str := default [] (head (split_chars p s)).
Definition last_piece (p : Z -> bool) (s : str) : str := default [] (last (split_chars p s)).

(** Does what follows an [&] look like [k=v]? *)
Definition param_like (rest : str) : bool :=
  let p := first_piece (fun c => c =? 38) rest in
  contains (lit "=") p && negb (contains (lit " ") (first_piece (fun c => c =? 61) p)).

(** The [while let] loop: cut at the first [&] that starts query parameters. *)
Fixpoint cut_params (s : str) : str :=
  match s with
  | [] => []
  | c :: t => if (c =? 38) && param_like t then [] else c :: cut_params t
  end.

Definition is_boundary (rest : bytes) : bool :=
  match rest with
  | [] => true
  | b :: _ => negb (is_cont b)
  end.

(** The loop of [percent_decode] over the bytes.  [&s[i + 1..i + 3]] panics when
    [i + 3] is inside a character; the two bytes are parsed as they are, a
    non-ASCII one is never a digit. *)
Fixpoint percent_loop (bs : bytes) : run bytes :=
  match bs with
  | [] => Ret []
  | b :: t =>
      let plain := let! r := percent_loop t in Ret (b :: r) in
      if b =? 37 then
        match t with
        | b1 :: b2 :: t' =>
            if is_boundary t' then
              match parse_uint 16 u8_max [b1; b2] with
              | Some v => let! r := percent_loop t' in Ret (v :: r)
              | None => plain
              end
            else Panic
        | _ => plain
        end
      else plain
  end.

Definition percent_decode (s : str) : run str :=
  if negb (contains (lit "%") s) then Ret s
  else let! out := percent_loop (utf8_encode s) in Ret (from_utf8_lossy out).

Definition strip_ext (name ext : str) : str := default name (strip_suffix ext name).

Definition strip_name_junk (raw : str) : run str :=
  let name := trim raw in
  let name :=
    if starts_with (lit "http://") name || starts_with (lit "https://") name then
      let no_query := first_piece (fun c => (c =? 63) || (c =? 35)) name in
      last_piece (fun c => c =? 47) no_query
    else name in
  let before_query := first_piece (fun c => c =? 63) name in
  let! name := percent_decode (trim (cut_params before_query)) in
  let name := fold_left strip_ext [lit ".nzb"; lit ".NZB"; lit ".Nzb"] name in
  Ret (trim (trim_matches (fun c => c =? 46) (trim name))).

(** ** Is a name informative? *)

Definition count (p : Z -> bool) (s : str) : Z := Z.of_nat (length (List.filter p s)).

Definition looks_obfuscated (name : str) : bool :=
  let core := List.filter is_ascii_alphanumeric name in
  let len := Z.of_nat (length core) in
  if (len <? 16) || contains (lit " ") name then false
  else
    let hexish := count is_ascii_hexdigit core in
    let word_chars := count is_ascii_alphabetic name in
    (len * 9 <=? hexish * 10) && (word_chars * 3 <? len * 2).

Definition one_of (l : str) (c : Z) : bool := existsb (Z.eqb c) l.

Definition looks_like_token (name : str) : bool :=
  let n := trim name in
  (16 <=? Z.of_nat (length n))
  && negb (existsb (one_of (lit " .-_()[]")) n)
  && forallb (fun c => is_ascii_alphanumeric c || one_of (lit "+/=") c) n.

Definition is_posting_artifact (name : str) : bool :=
  let informative := sum_Z (map (fun t => Z.of_nat (length t))
    (List.filter (fun t => negb (bool_decide (t = []))
        && negb (eq_ignore_ascii_case t (lit "yenc")) && negb (forallb is_ascii_digit t))
      (split_chars (fun c => negb (is_ascii_alphanumeric c)) name))) in
  informative <? 3.

Definition is_uninformative (name : str) : bool :=
  looks_obfuscated name || looks_like_token name || is_posting_artifact name.

Definition is_uninformative_name (name : str) : run bool :=
  let! c := strip_name_junk name in Ret (bool_decide (c = []) || is_uninformative c).

Definition name_is_open (j : Job) : run bool :=
  if name_provisional j then Ret true else is_uninformative_name (name j).

(** ** Evidence *)

(** [candidates.flatten().find_map(|c| informative(strip_name_junk(c)))]. *)
Fixpoint first_informative (l : list (option str)) : run (option str) :=
  match l with
  | [] => Ret None
  | None :: l' => first_informative l'
  | Some candidate :: l' =>
      let! c := strip_name_junk candidate in
      if negb (bool_decide (c = [])) && negb (is_uninformative c) then Ret (Some c)
      else first_informative l'
  end.

Fixpoint common_prefix (a b : str) : str :=
  match a, b with
  | x :: a', y :: b' => if x =? y then x :: common_prefix a' b' else []
  | _, _ => []
  end.

(** The prefix shared by all names, [None] as soon as it is empty. *)
Fixpoint shared_prefix (prefix : str) (names : list str) : option str :=
  match names with
  | [] => Some prefix
  | n :: names' =>
      let p := common_prefix prefix n in
      if bool_decide (p = []) then None else shared_prefix p names'
  end.

Definition not_payload (n : str) : bool :=
  let l := to_ascii_lowercase n in
  ends_with (lit ".par2") l || ends_with (lit ".nfo") l || ends_with (lit ".sfv") l.

Definition long_enough (s : str) : option str :=
  if 4 <=? Z.of_nat (length s) then Some s else None.

Definition separators : str := lit ".-_ ".

Definition common_stem (names0 : list str) : option str :=
  match List.filter (fun n => negb (not_payload n)) names0 with
  | [] => None
  | [n] =>
      let stem :=
        match split_at_last (lit ".") n with
        | Some (base, ext) =>
            if (utf8_len ext <=? 4) && forallb is_ascii_alphanumeric ext then base else n
        | None => n
        end in
      long_enough stem
  | n0 :: names =>
      match shared_prefix n0 names with
      | None => None
      | Some s =>
          let s := trim_end_matches is_ascii_digit s in
          let s := trim_end_matches (one_of separators) s in
          let lower := to_ascii_lowercase s in
          let s :=
            match find (fun w => ends_with w lower)
                    [lit ".part"; lit ".vol"; lit ".disc"; lit ".cd"; lit ".r"; lit ".s"] with
            | Some w => take (length s - length w) s
            | None => s
            end in
          long_enough (trim_end_matches (one_of separators) s)
      end
  end.

(** [par2_base_of]: the main [.par2] wins at once, else the first volume. *)
Fixpoint par2_base_loop (names : list str) (best : option str) : option str :=
  match names with
  | [] => best
  | hint :: names' =>
      if negb (ends_with (lit ".par2") (to_ascii_lowercase hint)) then par2_base_loop names' best
      else
        let base := take (length hint - 5) hint in
        match split_at_last (lit ".vol") (to_ascii_lowercase base) with
        | Some (before, _) =>
            par2_base_loop names'
              (match best with Some b => Some b | None => Some (take (length before) base) end)
        | None => Some base
        end
  end.

Definition par2_base_of (names : list str) : option str := par2_base_loop names None.

Definition hints (n : ParsedNzb) : list str := map filename_hint (nzb_files n).
Definition par2_base_name (n : ParsedNzb) : option str := par2_base_of (hints n).
Definition common_file_stem (n : ParsedNzb) : option str := common_stem (hints n).

Definition name_from_evidence (raw : str) (n : ParsedNzb) : run (option str) :=
  let! cleaned := strip_name_junk raw in
  if negb (bool_decide (cleaned = [])) && negb (is_uninformative cleaned) then Ret (Some cleaned)
  else first_informative [title (meta n); par2_base_name n; common_file_stem n].

Definition clean_job_name (raw : str) (n : ParsedNzb) : run str :=
  let! cleaned := strip_name_junk raw in
  let! ev := name_from_evidence raw n in
  match ev with
  | Some nm => Ret nm
  | None => if bool_decide (cleaned = []) then Ret (lit "download") else Ret cleaned
  end.

Definition name_from_files (names : list str) : run (option str) :=
  first_informative [par2_base_of names; common_stem names].

(** [name_from_par2] over the names of the FileDesc packets. *)
Definition name_from_par2 (descs : list str) : run (option str) :=
  match common_stem descs with
  | None => Ret None
  | Some candidate =>
      let! c := strip_name_junk candidate in
      Ret (if negb (bool_decide (c = [])) && negb (is_uninformative c) then Some c else None)
  end.

(** ** Who asked for it *)

Definition CLIENT_PARAM : str := lit "*Client".
Definition URL_PARAM : str := lit "*URL".
Definition DOT_SEP : str := [32; 0xB7; 32].

(** [str::split] by a string. *)
Fixpoint split_str (fuel : nat) (pat s : str) : list str :=
  match fuel, split_at_first pat s with
  | S fuel', Some (a, b) => a :: split_str fuel' pat b
  | _, _ => [s]
  end.

Definition is_number (l : str) : bool := bool_decide (is_Some (parse_uint 10 u32_max l)).

Definition url_host (url : str) : option str :=
  let rest := default url (nth_error (split_str (length url) (lit "://") url) 1) in
  let host := first_piece (one_of (lit "/?#")) rest in
  let host := last_piece (fun c => c =? 64) host in
  if starts_with (lit "[") host || (1 <? count (fun c => c =? 58) host) then None
  else
    let host := first_piece (fun c => c =? 58) host in
    let labels := List.filter (fun l => negb (bool_decide (l = []))
                    && negb (eq_ignore_ascii_case l (lit "www")))
                    (split_chars (fun c => c =? 46) host) in
    let len := length labels in
    if bool_decide (len = 0%nat) || forallb is_number labels then None
    else
      let drop := if (3 <=? Z.of_nat len) && (utf8_len (nth (len - 2) labels []) <=? 3)
                  then 2%nat else 1%nat in
      match nth_error labels (len - (drop + 1)) with
      | Some l => if is_number l then None else Some l
      | None => None
      end.

Definition param (j : Job) (k : str) : option str :=
  snd <$> find (fun kv => bool_decide (fst kv = k)) (params j).

Definition nonempty (o : option str) : option str :=
  match o with
  | Some s => if bool_decide (s = []) then None else Some s
  | None => None
  end.

Fixpoint join_with (sep : str) (l : list str) : str :=
  match l with
  | [] => []
  | [x] => x
  | x :: xs => x ++ sep ++ join_with sep xs
  end.

Definition requestor_name (j : Job) : run (option str) :=
  let asked :=
    match nonempty (param j CLIENT_PARAM) with
    | Some client => [client]
    | None => match nonempty (category j) with Some cat => [cat] | None => [] end
    end in
  let from := match param j URL_PARAM ≫= url_host with Some host => [host] | None => [] end in
  let parts := asked ++ from in
  if bool_decide (length parts = 0%nat) then Ret None
  else
    let! ident := strip_name_junk
      (if bool_decide (original_name j = []) then name j else original_name j) in
    let short := take 8 ident in
    let last_part :=
      if bool_decide (short = []) || existsb (fun p => eq_ignore_ascii_case p short) parts
      then lit "#" ++ show_dec (job_id j) else short in
    Ret (Some (join_with DOT_SEP (parts ++ [last_part]))).

(** ** Storage names *)

Definition sanitize_char (c : Z) : Z :=
  if existsb (Z.eqb c) [47; 92; 58; 42; 63; 34; 60; 62; 124; 0] then 95
  else if is_control c then 95 else c.

Definition sanitize_name (nm : str) : str :=
  let cleaned := map sanitize_char nm in
  let trimmed := trim (trim_matches (fun c => c =? 46) (trim cleaned)) in
  let out := if bool_decide (trimmed = []) then lit "unnamed" else trimmed in
  take 200 out.

Definition job_dir_name (j : Job) : str :=
  if bool_decide (dir_name j = []) then sanitize_name (name j) else dir_name j.

Definition rename_job (j : Job) (new_name : str) (storage_too provisional : bool) : Job :=
  if bool_decide (new_name = []) || bool_decide (new_name = name j) then j
  else
    let orig := if bool_decide (original_name j = []) then name j else original_name j in
    let dir := if storage_too then sanitize_name new_name else dir_name j in
    set_naming new_name dir orig provisional j.

Example names_ex :
  strip_name_junk (lit "https://idx.example/get/Show.S01E01%20x.nzb?apikey=1") = Ret (lit "Show.S01E01 x") /\
  strip_name_junk (lit "A & B.nzb&i=1&r=2") = Ret (lit "A & B") /\
  url_host (lit "https://api.indexer.example.co.uk/x") = Some (lit "example") /\
  url_host (lit "http://127.0.0.1:8080/x") = None /\
  common_stem [lit "Show.part01.rar"; lit "Show.part02.rar"; lit "x.par2"] = Some (lit "Show") /\
  par2_base_of [lit "a.vol0+1.par2"; lit "Main.par2"] = Some (lit "Main") /\
  is_uninformative (lit "yEnc (1/44)") = true /\ is_uninformative (lit "Show.S01E01.1080p") = false.
Proof. vm_compute. done. Qed.

(** ** Storage names are one path component *)

Definition reserved : list Z := [47; 92; 58; 42; 63; 34; 60; 62; 124; 0].
Definition safe_char (c : Z) : Prop := (c ∉ reserved) /\ is_control c = false.

#[export] Instance safe_char_dec c : Decision (safe_char c).
Proof. apply _. Defined.

Lemma safe_chars_lit l : forallb (fun c => bool_decide (safe_char c)) l = true -> Forall safe_char l.
Proof. rewrite forallb_elem, Forall_forall. intros Hl c Hc%Hl. by bool_hyps. Qed.

Lemma sanitize_char_safe c : safe_char (sanitize_char c).
Proof.
  assert (H95 : safe_char 95) by (apply (bool_decide_unpack _); vm_compute; exact I).
  unfold sanitize_char. fold reserved.
  destruct (existsb (Z.eqb c) reserved) eqn:E; [done|].
  destruct (is_control c) eqn:Ec; [done|].
  split; [|done]. intros Hc. apply not_true_iff_false in E. apply E, existsb_elem.
  exists c. split; [done|]. apply Z.eqb_refl.
Qed.

(** every job and file name becomes one storable path component: at least
    one character, at most 200, no separator, no character Windows reserves, no
    control character. *)
Theorem sanitize_name_safe nm :
  sanitize_name nm <> [] /\ Z.of_nat (length (sanitize_name nm)) <= 200 /\
  Forall safe_char (sanitize_name nm).
Proof.
  unfold sanitize_name. set (trimmed := trim (trim_matches _ _)).
  assert (Ht : Forall safe_char trimmed).
  { unfold trimmed, trim. repeat apply trim_matches_forall.
    apply Forall_map, Forall_true. intros c. apply sanitize_char_safe. }
  split_and!.
  - case_if; bool_hyps; [done|]. by destruct trimmed.
  - rewrite length_take. lia.
  - apply Forall_take. case_if; [|done].
    apply safe_chars_lit. vm_compute. reflexivity.
Qed.

(** but that component may be the parent directory.  The dots are trimmed
    once, the blanks around them once more after: a name such as [. .. .]
    becomes [..], so a job or a quoted subject can name a path outside its
    directory. *)
Theorem sanitize_name_parent : exists nm, sanitize_name nm = lit "..".
Proof. exists (lit ". .. ."). vm_compute. reflexivity. Qed.

(** ** Decoding *)

Lemma pieces_forall (P : Z -> Prop) p s : Forall P s -> Forall (Forall P) (split_chars p s).
Proof.
  induction 1 as [|c s Hc Hs IH]; simpl; [repeat constructor|]. case_if; [by constructor|].
  destruct (split_chars p s) as [|w ws]; [by repeat constructor|].
  inversion IH; subst. constructor; [by constructor|done].
Qed.

Lemma first_piece_forall (P : Z -> Prop) p s : Forall P s -> Forall P (first_piece p s).
Proof.
  intros Hs%(pieces_forall P p). unfold first_piece. destruct (split_chars p s) as [|w ws]; simpl; [constructor|].
  by inversion Hs.
Qed.

Lemma last_piece_forall (P : Z -> Prop) p s : Forall P s -> Forall P (last_piece p s).
Proof.
  intros Hs%(pieces_forall P p). unfold last_piece.
  destruct (last (split_chars p s)) as [w|] eqn:E; simpl; [|constructor].
  apply last_Some in E as [l E]. rewrite E in Hs. apply Forall_app in Hs as [_ Hs]. by inversion Hs.
Qed.

Lemma cut_params_forall (P : Z -> Prop) s : Forall P s -> Forall P (cut_params s).
Proof. induction 1; simpl; [constructor|]. case_if; [constructor|by constructor]. Qed.

Lemma percent_loop_total bs : Forall (fun b => is_cont b = false) bs -> exists r, percent_loop bs = Ret r.
Proof.
  intros Hb. remember (length bs) as n eqn:Hn. revert bs Hb Hn.
  induction n as [n IH] using lt_wf_ind. intros bs Hb ->.
  destruct Hb as [|b t Hb Ht]; [by eexists|]. cbn [percent_loop].
  destruct (IH (length t) ltac:(simpl; lia) t Ht eq_refl) as [r Hr]. rewrite Hr.
  case_if; [|by eexists]. destruct Ht as [|b1 t1 Hb1 [|b2 t2 Hb2 Ht2]]; [by eexists..|].
  assert (is_boundary t2 = true) as ->.
  { destruct Ht2 as [|b3 t3 Hb3 _]; [done|]. simpl. by rewrite Hb3. }
  destruct (parse_uint 16 u8_max [b1; b2]); [|by eexists].
  destruct (IH (length t2) ltac:(simpl; lia) t2 Ht2 eq_refl) as [r2 ->]. by eexists.
Qed.

Lemma ascii_not_cont b : is_ascii b -> is_cont b = false.
Proof. unfold is_ascii, is_cont, in_range. lia. Qed.

Lemma percent_decode_total s : Forall is_ascii s -> exists r, percent_decode s = Ret r.
Proof.
  intros Hs. unfold percent_decode. case_if; [by eexists|].
  rewrite utf8_encode_ascii by done.
  destruct (percent_loop_total s) as [r ->]; [|by eexists].
  eapply Forall_impl; [exact Hs|]. apply ascii_not_cont.
Qed.

(** names in ASCII are always cleaned.  [strip_name_junk] returns for every
    ASCII name, whatever percent signs, queries and extensions it holds. *)
Theorem strip_name_junk_total raw : Forall is_ascii raw -> exists s, strip_name_junk raw = Ret s.
Proof.
  intros Hr. unfold strip_name_junk.
  set (nm := if starts_with _ _ || _ then _ else _).
  assert (Hn : Forall is_ascii nm).
  { unfold nm. case_if; [apply last_piece_forall, first_piece_forall|]; by apply trim_matches_forall. }
  destruct (percent_decode_total (trim (cut_params (first_piece (fun c => c =? 63) nm)))) as [r ->].
  - by apply trim_matches_forall, cut_params_forall, first_piece_forall.
  - simpl. by eexists.
Qed.

Lemma strip_name_junk_total_witness : exists s, strip_name_junk (lit "100%.nzb") = Ret s.
Proof. apply strip_name_junk_total. vm_compute. repeat (constructor; [split; [discriminate|reflexivity]|]). constructor. Defined.

(** a percent sign before a non-ASCII character stops the daemon's naming.
    [percent_decode] slices two bytes after the sign without asking whether they
    end a character, so the name [%a] followed by e-acute panics. *)
Theorem strip_name_junk_panics : exists raw, Forall is_scalar raw /\ strip_name_junk raw = Panic.
Proof.
  exists (lit "%a" ++ [0xE9]). split; [|vm_compute; reflexivity].
  repeat constructor; vm_compute; intuition discriminate.
Qed.

(** The encoder of RFC 3986: every byte as [%XX]. *)
Definition percent_encode (s : str) : str :=
  concat (map (fun b => lit "%" ++ pad_zeros 2 (show_radix 16 b)) (utf8_encode s)).

Definition hex2 (b : Z) : str := [digit_char (b / 16); digit_char (b mod 16)].

Lemma pad_hex2_table :
  forallb (fun b => bool_decide (pad_zeros 2 (show_radix 16 b) = hex2 b)
    && bool_decide (parse_uint 16 u8_max (hex2 b) = Some b)) (seqZ 0 256) = true.
Proof. vm_compute. reflexivity. Qed.

Lemma pad_hex2 b : is_u8 b -> pad_zeros 2 (show_radix 16 b) = hex2 b /\ parse_uint 16 u8_max (hex2 b) = Some b.
Proof.
  intros Hb. pose proof pad_hex2_table as Ht. rewrite forallb_elem in Ht.
  specialize (Ht b). rewrite elem_of_seqZ in Ht. unfold is_u8, u8_max in Hb.
  specialize (Ht ltac:(lia)). bool_hyps. done.
Qed.

Lemma percent_loop_encode bs : Forall is_u8 bs ->
  percent_loop (concat (map (fun b => lit "%" ++ pad_zeros 2 (show_radix 16 b)) bs)) = Ret bs.
Proof.
  induction 1 as [|b bs Hb Hbs IH]; [done|]. cbn [map concat].
  destruct (pad_hex2 b Hb) as [-> Hp].
  change (lit "%" ++ hex2 b) with (37 :: digit_char (b / 16) :: digit_char (b mod 16) :: []).
  cbn [app percent_loop]. rewrite Z.eqb_refl.
  assert (is_boundary (concat (map (fun b => lit "%" ++ pad_zeros 2 (show_radix 16 b)) bs)) = true) as ->
    by (destruct bs; [done|reflexivity]).
  change [digit_char (b / 16); digit_char (b mod 16)] with (hex2 b). rewrite Hp, IH. done.
Qed.

Lemma utf8_encode_bytes s : Forall is_scalar s -> Forall is_u8 (utf8_encode s).
Proof.
  induction 1 as [|c s [Hc _] Hs IH]; [constructor|].
  change (utf8_encode (c :: s)) with (utf8_encode_char c ++ utf8_encode s).
  apply Forall_app. split; [|done]. unfold utf8_encode_char, is_u8, u8_max.
  pose proof (base64_split c ltac:(lia)). pose proof (base64_split (c / 64) ltac:(lia)).
  pose proof (Z.mod_pos_bound (c / 4096) 64). pose proof (Z.mod_pos_bound c 64).
  assert (c / 64 / 64 = c / 4096) by (rewrite Z.div_div by lia; done).
  assert (c / 64 / 64 / 64 = c / 262144) by (rewrite !Z.div_div by lia; done).
  pose proof (base64_split (c / 64 / 64) ltac:(lia)).
  repeat case_if; bool_hyps; repeat constructor; lia.
Qed.

(** percent-decoding inverts percent-encoding for every name, whatever its
    characters. *)
Theorem percent_roundtrip s : Forall is_scalar s -> s <> [] ->
  percent_decode (percent_encode s) = Ret s.
Proof.
  intros Hs Hne. unfold percent_decode.
  assert (contains (lit "%") (percent_encode s) = true) as ->.
  { destruct s as [|c s]; [done|]. unfold percent_encode.
    change (utf8_encode (c :: s)) with (utf8_encode_char c ++ utf8_encode s).
    unfold utf8_encode_char. by repeat case_if. }
  cbn [negb]. rewrite utf8_encode_ascii.
  - unfold percent_encode. rewrite percent_loop_encode by (by apply utf8_encode_bytes).
    cbn [run_bind]. by rewrite from_utf8_lossy_encode.
  - unfold percent_encode.
    pose proof (utf8_encode_bytes s Hs) as Hb. induction Hb as [|b bs Hb _ IH]; [constructor|].
    cbn [map concat]. apply Forall_app. split; [|done]. apply Forall_app. split; [by repeat constructor|].
    unfold is_u8 in Hb. eapply Forall_impl; [apply pad_zeros_alnum, show_radix_alnum; lia|]. apply alnum_ascii.
Qed.

Lemma percent_roundtrip_witness : percent_decode (percent_encode [0x41; 0xE9; 0x25]) = Ret [0x41; 0xE9; 0x25].
Proof.
  apply percent_roundtrip; [|done]. repeat constructor; vm_compute; intuition discriminate.
Defined.

(** ** Names carry information *)

Lemma first_informative_spec l nm : first_informative l = Ret (Some nm) ->
  nm <> [] /\ is_uninformative nm = false.
Proof.
  induction l as [|[c|] l IH]; [done| |exact IH]. cbn [first_informative].
  destruct (strip_name_junk c) as [c'|]; [|done]. cbn [run_bind].
  case_if; bool_hyps; [by intros [= <-]|exact IH].
Qed.

Lemma name_from_evidence_spec raw n nm : name_from_evidence raw n = Ret (Some nm) ->
  nm <> [] /\ is_uninformative nm = false.
Proof.
  unfold name_from_evidence. destruct (strip_name_junk raw) as [c|]; [|done]. cbn [run_bind].
  case_if; bool_hyps; [by intros [= <-]|]. apply first_informative_spec.
Qed.

(** evidence beats a bad hint, and a good hint beats evidence.  A name taken
    from the hint or the document is never empty, a hash, a token or a posting
    artifact; an informative hint is kept as cleaned, whatever the document
    says; and the name a job is admitted with is never empty. *)
Theorem job_name_informative raw n nm :
  clean_job_name raw n = Ret nm ->
  nm <> [] /\
  (forall ev, name_from_evidence raw n = Ret (Some ev) -> nm = ev /\ is_uninformative nm = false) /\
  (forall c, strip_name_junk raw = Ret c -> c <> [] -> is_uninformative c = false -> nm = c).
Proof.
  unfold clean_job_name. destruct (strip_name_junk raw) as [c|] eqn:Hc; [|done]. cbn [run_bind].
  destruct (name_from_evidence raw n) as [ev|] eqn:Hev; [|done]. cbn [run_bind].
  intros Hnm. split_and!.
  - destruct ev as [e|]; [injection Hnm as <-; by apply name_from_evidence_spec in Hev as [? _]|].
    case_if_in Hnm; bool_hyps; by injection Hnm as <-.
  - intros e [= ->]. injection Hnm as <-. by apply name_from_evidence_spec in Hev as [_ ?].
  - intros c' [= <-] Hne Hu. unfold name_from_evidence in Hev. rewrite Hc in Hev. cbn [run_bind] in Hev.
    rewrite bool_decide_false, Hu in Hev by done. injection Hev as <-. by injection Hnm as <-.
Qed.

Lemma job_name_informative_witness :
  let n := {| meta := {| title := Some (lit "Show.S01E01.1080p"); meta_password := None; meta_category := None |};
              nzb_files := [] |} in
  let raw := lit "cc310b9901757996b0bdfd880c666e3812e6531d" in
  lit "Show.S01E01.1080p" <> [] /\
  (forall ev, name_from_evidence raw n = Ret (Some ev) ->
     lit "Show.S01E01.1080p" = ev /\ is_uninformative (lit "Show.S01E01.1080p") = false) /\
  (forall c, strip_name_junk raw = Ret c -> c <> [] -> is_uninformative c = false -> lit "Show.S01E01.1080p" = c).
Proof. intros n raw. apply (job_name_informative raw n). vm_compute. reflexivity. Defined.

(** a placeholder name does not feed on itself.  Renaming a job, any number
    of times and to anything, does not change the placeholder that
    [requestor_name] offers for it: the short id comes from what the client
    called the job first. *)
Theorem requestor_name_stable j nm storage_too provisional : name j <> [] ->
  requestor_name (rename_job j nm storage_too provisional) = requestor_name j.
Proof.
  intros Hne. unfold rename_job. case_if; [done|].
  unfold requestor_name, param. cbn [set_naming params category original_name name job_id].
  destruct (bool_decide (original_name j = [])) eqn:Ho; bool_hyps.
  - rewrite (bool_decide_false (name j = [])) by done. done.
  - cbv iota. rewrite (bool_decide_false (original_name j = [])) by done. done.
Qed.

Lemma requestor_name_stable_witness :
  let j := {| job_id := 182; kind := JobKind_Url; name := lit "cc310b99017579"; dir_name := lit "d";
              name_provisional := false; queued_at_unix := 0; original_name := []; category := None;
              priority := 0; dupe := DupeInfo_default;
              params := [(CLIENT_PARAM, lit "monarr/0.11.0"); (URL_PARAM, lit "https://drunkenslug.com/g")];
              files := []; totals := JobTotals_default; status := JS_Fetching; torrent := None;
              stages := [] |} in
  requestor_name (rename_job j (lit "monarr") true true) = requestor_name j.
Proof. apply requestor_name_stable. discriminate. Defined.
