(* ===== verification/Queue.v ===== *)
(** * The queue's state ([crates/nzbd-engine/src/queue.rs], lines 20-655)

    [QueueState] with its admission, naming, recovery and accounting
    operations.  The clock is an argument ([now]); [str::to_lowercase] is a
    parameter (its Unicode tables).  Operations that clean a name are
    computations in [run]: cleaning can panic ([JobNames]). *)

From S2P Require Import Prelude RustStr Types Nzb JobNames.

(** ** State *)

Record PendingAdmission := {
  pa_job_id : JobId;
  pa_source : TorrentSource;
  secret_ref : str;
  pa_category : option str;
  pa_priority : Z;
  pa_paused : bool;
  pa_seed_ratio_limit : option f64;
  pa_seed_time_limit_secs : option Z;
  pa_stop_seeding_on_complete : option bool;
  pa_params : list (str * str);
  pa_client : option str
}.

Record AddOpts := {
  o_category : option str;
  o_priority : Z;
  o_seed_ratio_limit : option f64;
  o_seed_time_limit_secs : option Z;
  o_stop_seeding_on_complete : option bool;
  o_dupe : option DupeInfo;
  o_paused : bool;
  o_params : list (str * str);
  o_client : option str
}.

Record QueueState := mkQueue {
  jobs : list Job;
  pending_admissions : list PendingAdmission;
  next_job_id : Z;
  next_file_id : Z;
  download_paused : bool;
  speed_limit_bps : option Z;
  max_active_downloads : Z
}.

Definition QUEUE_SCHEMA_VERSION : Z := 4.

Record QueueSnapshotDoc := {
  schema_version : Z;
  q_pending_admissions : list PendingAdmission;
  q_jobs : list Job;
  q_next_job_id : Z;
  q_next_file_id : Z;
  q_download_paused : bool;
  q_speed_limit_bps : option Z;
  q_max_active_downloads : Z
}.

Record TorrentAdmissionCommit := {
  tc_name : str;
  tc_category : option str;
  tc_priority : Z;
  tc_paused : bool;
  tc_params : list (str * str);
  tc_record : TorrentRecord
}.

Definition MIN_ACTIVE_DOWNLOADS : Z := 1.
Definition MAX_ACTIVE_DOWNLOADS : Z := 100.
Definition clamp_active_downloads (n : Z) : Z := clamp MIN_ACTIVE_DOWNLOADS MAX_ACTIVE_DOWNLOADS n.

Definition queue_default : QueueState := {|
  jobs := []; pending_admissions := []; next_job_id := 0; next_file_id := 0;
  download_paused := false; speed_limit_bps := None; max_active_downloads := MIN_ACTIVE_DOWNLOADS |}.

Record SegRef := { sr_job : JobId; sr_file : FileId; seg_number : Z }.

Definition set_jobs (js : list Job) (q : QueueState) : QueueState :=
  mkQueue js (pending_admissions q) (next_job_id q) (next_file_id q) (download_paused q)
    (speed_limit_bps q) (max_active_downloads q).
Definition set_pending (ps : list PendingAdmission) (q : QueueState) : QueueState :=
  mkQueue (jobs q) ps (next_job_id q) (next_file_id q) (download_paused q)
    (speed_limit_bps q) (max_active_downloads q).
Definition set_next_job_id (n : Z) (q : QueueState) : QueueState :=
  mkQueue (jobs q) (pending_admissions q) n (next_file_id q) (download_paused q)
    (speed_limit_bps q) (max_active_downloads q).
Definition set_next_file_id (n : Z) (q : QueueState) : QueueState :=
  mkQueue (jobs q) (pending_admissions q) (next_job_id q) n (download_paused q)
    (speed_limit_bps q) (max_active_downloads q).

(** ** Lookup and update by id: the first match, as [find] and [position] *)

Definition find_job (q : QueueState) (id : JobId) : option Job :=
  find (fun j => job_id j =? id) (jobs q).

Fixpoint update_first {A} (p : A -> bool) (f : A -> A) (l : list A) : list A :=
  match l with
  | [] => []
  | x :: l' => if p x then f x :: l' else x :: update_first p f l'
  end.

Definition update_job (q : QueueState) (id : JobId) (f : Job -> Job) : QueueState :=
  set_jobs (update_first (fun j => job_id j =? id) f (jobs q)) q.

(** [file_mut], [segment_mut]: what a write through them does. *)
Definition update_file (q : QueueState) (job : JobId) (file : FileId) (f : FileEntry -> FileEntry) : QueueState :=
  update_job q job (fun j => set_files (update_first (fun x => file_id x =? file) f (files j)) j).

Definition set_segments (ss : list Segment) (f : FileEntry) : FileEntry := {|
  file_id := file_id f; subject := subject f; filename := filename f;
  filename_confirmed := filename_confirmed f; is_par2 := is_par2 f; paused := paused f;
  groups := groups f; date := date f; segments := ss; file_crc32 := file_crc32 f;
  finalized := finalized f |}.

Definition update_segment (q : QueueState) (r : SegRef) (g : Segment -> Segment) : QueueState :=
  update_file q (sr_job r) (sr_file r)
    (fun f => set_segments (update_first (fun s => number s =? seg_number r) g (segments f)) f).

(** ** Accounting *)

Definition count_segment (par : bool) (t : JobTotals) (s : Segment) : JobTotals :=
  let sz := seg_size s in
  let ok := if is_done (state s) then 1 else 0 in
  let bad := if is_failed (state s) then 1 else 0 in
  {| size := size t + sz;
     par_size := if par then par_size t + sz else par_size t;
     failed_size := failed_size t + bad * sz;
     failed_par_size := if par then failed_par_size t + bad * sz else failed_par_size t;
     success_size := success_size t + ok * sz;
     total_articles := total_articles t + 1;
     success_articles := success_articles t + ok;
     failed_articles := failed_articles t + bad |}.

Definition totals_of (fs : list FileEntry) : JobTotals :=
  fold_left (fun t f => fold_left (count_segment (is_par2 f)) (segments f) t) fs JobTotals_default.

Definition recompute_job_totals (j : Job) : Job := set_totals (totals_of (files j)) j.

Definition recompute_all_totals (q : QueueState) : QueueState :=
  set_jobs (map recompute_job_totals (jobs q)) q.

Definition to_fetch (s : Segment) : bool := is_pending (state s) || is_leased (state s).

Definition job_remaining (j : Job) : Z :=
  sum_Z (map seg_size (List.filter to_fetch
    (concat (map segments (List.filter (fun f => negb (paused f)) (files j)))))).

Definition remaining_bytes (q : QueueState) : Z :=
  sum_Z (map job_remaining (List.filter (fun j =>
    match status j with JS_Queued | JS_Downloading | JS_Paused => true | _ => false end) (jobs q))).

(** ** Directories *)

Definition unique_dir_name (q : QueueState) (id : JobId) (want : str) : str :=
  if existsb (fun j => negb (job_id j =? id) && bool_decide (dir_name j = want)) (jobs q)
  then want ++ lit "." ++ show_dec id else want.

Definition set_job_name (q : QueueState) (id : JobId) (nm : str) (storage_too provisional : bool)
    : QueueState :=
  match find_job q id with
  | None => q
  | Some _ =>
      let q := update_job q id (fun j => rename_job j nm storage_too provisional) in
      if storage_too then
        update_job q id (fun j => set_dir_name (unique_dir_name q id (dir_name j)) j)
      else q
  end.

(** ** Admission *)

Definition relative_ref (id : JobId) : str :=
  lit "torrents/pending/" ++ show_dec id ++ lit ".source".

Definition reserve_torrent_admission (q : QueueState) (src : TorrentSource) (o : AddOpts)
    : QueueState * JobId :=
  let id := wrap32 (next_job_id q + 1) in
  let p := {| pa_job_id := id; pa_source := src; secret_ref := relative_ref id;
              pa_category := o_category o; pa_priority := o_priority o; pa_paused := o_paused o;
              pa_seed_ratio_limit := o_seed_ratio_limit o;
              pa_seed_time_limit_secs := o_seed_time_limit_secs o;
              pa_stop_seeding_on_complete := o_stop_seeding_on_complete o;
              pa_params := o_params o; pa_client := o_client o |} in
  (set_pending (pending_admissions q ++ [p]) (set_next_job_id id q), id).

Definition cancel_torrent_admission (q : QueueState) (id : JobId) : QueueState * bool :=
  let kept := List.filter (fun p => negb (pa_job_id p =? id)) (pending_admissions q) in
  (set_pending kept q, negb (bool_decide (length (pending_admissions q) = length kept))).

(** [match params.find(k) { Some(slot) => slot.1 = value, None => push }]. *)
Definition set_param (ps : list (str * str)) (kv : str * str) : list (str * str) :=
  if existsb (fun p => bool_decide (fst p = fst kv)) ps
  then update_first (fun p => bool_decide (fst p = fst kv)) (fun p => (fst p, snd kv)) ps
  else ps ++ [kv].

Definition same_torrent (r : TorrentRecord) (j : Job) : bool :=
  match torrent j with
  | Some t => bool_decide (info_hash_v1 t = info_hash_v1 r)
  | None => false
  end && match status j with JS_Failed | JS_Deleted => false | _ => true end.

Definition torrent_job (q : QueueState) (now : Z) (id : JobId) (c : TorrentAdmissionCommit) : Job := {|
  job_id := id; kind := JobKind_Torrent; name := tc_name c;
  dir_name := unique_dir_name q id (sanitize_name (tc_name c)); name_provisional := false;
  queued_at_unix := now; original_name := []; category := tc_category c; priority := tc_priority c;
  dupe := DupeInfo_default; params := tc_params c; files := [];
  totals := {| size := total_bytes (tc_record c); par_size := 0; failed_size := 0;
               failed_par_size := 0; success_size := 0; total_articles := 0;
               success_articles := 0; failed_articles := 0 |};
  status := if tc_paused c then JS_Paused else JS_Queued;
  torrent := Some (tc_record c); stages := [] |}.

Definition commit_torrent_admission (q : QueueState) (now : Z) (id : JobId) (c : TorrentAdmissionCommit)
    : QueueState * option (result JobId JobId) :=
  if negb (existsb (fun p => pa_job_id p =? id) (pending_admissions q)) then (q, None)
  else
    match find (same_torrent (tc_record c)) (jobs q) with
    | Some existing =>
        let q := set_jobs (update_first (same_torrent (tc_record c))
          (fun j => set_asked (category j) (fold_left set_param (tc_params c) (params j)) j) (jobs q)) q in
        (fst (cancel_torrent_admission q id), Some (Err (job_id existing)))
    | None =>
        let q := fst (cancel_torrent_admission q id) in
        (set_jobs (jobs q ++ [torrent_job q now id c]) q, Some (Ok id))
    end.

Section Admit.
Context (to_lowercase : str -> str).

Definition parsed_segment (s : ParsedSegment) : Segment := {|
  message_id := ps_message_id s; number := ps_number s; seg_size := Z.min (ps_bytes s) u32_max;
  state := Pending |}.

(** One turn of [build_files]: the counter of the lower-cased name, the
    [.dupN] suffix from the second on. *)
Definition build_file (pause_extra_pars : bool) (acc : Z * gmap str Z * list FileEntry)
    (pf : ParsedFile) : Z * gmap str Z * list FileEntry :=
  let '(next, seen, out) := acc in
  let id := wrap32 (next + 1) in
  let base := sanitize_name (filename_hint pf) in
  let n := default 0 (seen !! to_lowercase base) + 1 in
  let seen := <[to_lowercase base := n]> seen in
  let fname := if 1 <? n then base ++ lit ".dup" ++ show_dec (n - 1) else base in
  let lower := to_lowercase fname in
  let par := ends_with (lit ".par2") lower in
  let extra := par && contains (lit ".vol") lower in
  (id, seen, out ++ [{|
     file_id := id; subject := pf_subject pf; filename := fname; filename_confirmed := false;
     is_par2 := par; paused := pause_extra_pars && extra; groups := pf_groups pf;
     date := pf_date pf; segments := map parsed_segment (pf_segments pf); file_crc32 := None;
     finalized := false |}]).

Definition build_files (q : QueueState) (parsed : ParsedNzb) (pause_extra_pars : bool)
    : QueueState * list FileEntry :=
  let '(next, _, fs) := fold_left (build_file pause_extra_pars) (nzb_files parsed)
    (next_file_id q, ∅, []) in
  (set_next_file_id next q, fs).

Definition or_else (a b : option str) : option str := match a with Some _ => a | None => b end.

Definition admit_nzb (q : QueueState) (now : Z) (nm : str) (parsed : ParsedNzb) (cat : option str)
    (prio : Z) (pause_extra_pars : bool) : QueueState * JobId :=
  let id := wrap32 (next_job_id q + 1) in
  let '(q, fs) := build_files (set_next_job_id id q) parsed pause_extra_pars in
  let j := recompute_job_totals {|
    job_id := id; kind := JobKind_Nzb; name := nm;
    dir_name := unique_dir_name q id (sanitize_name nm); name_provisional := false;
    queued_at_unix := now; original_name := []; category := or_else cat (meta_category (meta parsed));
    priority := prio; dupe := DupeInfo_default; params := []; files := fs;
    totals := JobTotals_default; status := JS_Queued; torrent := None; stages := [] |} in
  (set_jobs (jobs q ++ [j]) q, id).

Definition admit_url (q : QueueState) (now : Z) (nm url : str) (cat : option str) (prio : Z)
    : QueueState * JobId :=
  let id := wrap32 (next_job_id q + 1) in
  let q := set_next_job_id id q in
  (set_jobs (jobs q ++ [{|
     job_id := id; kind := JobKind_Url; name := nm;
     dir_name := unique_dir_name q id (sanitize_name nm); name_provisional := false;
     queued_at_unix := now; original_name := []; category := cat; priority := prio;
     dupe := DupeInfo_default; params := [(URL_PARAM, url)]; files := [];
     totals := JobTotals_default; status := JS_Fetching; torrent := None; stages := [] |}]) q, id).

(** The job's new name once its NZB is there. *)
Definition fetched_name (j : Job) (parsed : ParsedNzb) : run Job :=
  let hint := if name_provisional j then [] else name j in
  let! ev := name_from_evidence hint parsed in
  match ev with
  | Some real => Ret (rename_job j real true false)
  | None =>
      if negb (name_provisional j) then
        let! nm := clean_job_name hint parsed in
        Ret (set_naming nm (dir_name j) (original_name j) (name_provisional j) j)
      else Ret j
  end.

Definition complete_url_fetch (q0 : QueueState) (id : JobId) (parsed : ParsedNzb)
    (pause_extra_pars : bool) : run (QueueState * bool) :=
  let '(q, fs) := build_files q0 parsed pause_extra_pars in
  match find_job q id with
  | None => Ret (q, false)
  | Some j =>
      match status j with
      | JS_Fetching =>
          let j := match category j with
                   | None => set_asked (meta_category (meta parsed)) (params j) j
                   | Some _ => j
                   end in
          let! j := fetched_name j parsed in
          let j := recompute_job_totals (set_status JS_Queued (set_files fs j)) in
          Ret (update_job q id (fun _ => j), true)
      | _ => Ret (q, false)
      end
  end.

End Admit.

(** ** Snapshots *)

Definition to_doc (q : QueueState) : QueueSnapshotDoc := {|
  schema_version := QUEUE_SCHEMA_VERSION; q_pending_admissions := pending_admissions q;
  q_jobs := jobs q; q_next_job_id := next_job_id q; q_next_file_id := next_file_id q;
  q_download_paused := download_paused q; q_speed_limit_bps := speed_limit_bps q;
  q_max_active_downloads := max_active_downloads q |}.

Definition unlease (s : Segment) : Segment :=
  match state s with
  | Leased _ => {| message_id := message_id s; number := number s; seg_size := seg_size s; state := Pending |}
  | _ => s
  end.

Definition restart_torrent (now : Z) (st : JobStatus) (t : TorrentRecord) : TorrentRecord :=
  if bool_decide (st = JS_Queued) && bool_decide (control_intent t = TCI_Running)
     && bool_decide (torrent_ready_at_unix t = None)
     && match removal_intent t with None => true | Some _ => false end
     && bool_decide (phase t ∈ [TP_Queued; TP_Downloading; Checking; PausedDownload])
  then {| info_hash_v1 := info_hash_v1 t; source := source t; metadata_file := metadata_file t;
          payload_root := payload_root t; phase := TP_Queued; control_intent := control_intent t;
          removal_intent := removal_intent t; removal_outcome := removal_outcome t;
          removal_confirmed_at_unix := removal_confirmed_at_unix t; torrent_files := torrent_files t;
          total_bytes := total_bytes t; selected_bytes := selected_bytes t;
          downloaded_bytes := downloaded_bytes t; uploaded_bytes := uploaded_bytes t;
          seeding_seconds := seeding_seconds t; torrent_ready_at_unix := torrent_ready_at_unix t;
          content_path := content_path t; seed_policy := seed_policy t; stop_reason := stop_reason t;
          last_activity_unix := Some now; last_error := last_error t |}
  else t.

Definition recover_job (now : Z) (j : Job) : Job :=
  let fs := map (fun f => set_segments (map unlease (segments f)) f) (files j) in
  let st := match status j with JS_Downloading => JS_Queued | s => s end in
  set_work fs (totals j) st (restart_torrent now st <$> torrent j) j.

(** First pass of [repair_names_and_directories]: an open name yields to the
    job's own file list; the directory moves only while nothing is on disk. *)
Definition repair_name (j : Job) : run Job :=
  let! open := name_is_open j in
  if negb open then Ret j
  else
    let! real := name_from_files (map filename (files j)) in
    match real with
    | None => Ret j
    | Some real => Ret (rename_job j real (success_articles (totals j) =? 0) false)
    end.

Fixpoint repair_names (js : list Job) : run (list Job) :=
  match js with
  | [] => Ret []
  | j :: js' => let! j := repair_name j in let! js' := repair_names js' in Ret (j :: js')
  end.

(** Second pass, by index: each job sees the directories as repaired so far. *)
Fixpoint repair_dirs (todo : nat) (i : nat) (q : QueueState) : QueueState :=
  match todo with
  | O => q
  | S todo' =>
      match jobs q !! i with
      | None => q
      | Some j =>
          let q :=
            if bool_decide (dir_name j = []) || negb (success_articles (totals j) =? 0) then q
            else set_jobs (<[i := set_dir_name (unique_dir_name q (job_id j) (dir_name j)) j]> (jobs q)) q in
          repair_dirs todo' (S i) q
      end
  end.

Definition repair_names_and_directories (q : QueueState) : run QueueState :=
  let! js := repair_names (jobs q) in
  let q := set_jobs js q in
  Ret (repair_dirs (length (jobs q)) 0 q).

Definition from_doc (now : Z) (d : QueueSnapshotDoc) : run QueueState :=
  repair_names_and_directories {|
    jobs := map (recover_job now) (q_jobs d); pending_admissions := q_pending_admissions d;
    next_job_id := q_next_job_id d; next_file_id := q_next_file_id d;
    download_paused := q_download_paused d; speed_limit_bps := q_speed_limit_bps d;
    max_active_downloads := clamp_active_downloads (q_max_active_downloads d) |}.

(** [from_runtime_doc]: this build adopts no torrent rows. *)
Definition from_runtime_doc (now : Z) (d : QueueSnapshotDoc) : run (result QueueState str) :=
  if existsb (fun j => bool_decide (kind j = JobKind_Torrent)) (q_jobs d) then
    Ret (Err (lit "queue.json contains BitTorrent jobs, but this build has no production torrent backend; the queue was left unchanged"))
  else let! q := from_doc now d in Ret (Ok q).

(** ** Identifiers *)

Definition all_ids (q : QueueState) : list JobId :=
  map job_id (jobs q) ++ map pa_job_id (pending_admissions q).
Definition job_file_ids (j : Job) : list FileId := map file_id (files j).
Definition all_file_ids (q : QueueState) : list FileId := concat (map job_file_ids (jobs q)).

Record queue_wf (q : QueueState) : Prop := {
  wf_ids : NoDup (all_ids q);
  wf_ids_le : Forall (fun i => 0 < i <= next_job_id q) (all_ids q);
  wf_fids : NoDup (all_file_ids q);
  wf_fids_le : Forall (fun i => 0 < i <= next_file_id q) (all_file_ids q);
  wf_next : 0 <= next_job_id q /\ 0 <= next_file_id q
}.

Lemma update_first_map {A B} (h : A -> B) p f (l : list A) :
  (forall x, h (f x) = h x) -> map h (update_first p f l) = map h l.
Proof.
  intros Hf. induction l as [|x l IH]; simpl; [done|]. case_if; simpl; [by rewrite Hf|by rewrite IH].
Qed.

(** An operation that keeps the ids keeps the invariant. *)
Lemma queue_wf_same q q' :
  queue_wf q -> all_ids q' ≡ₚ all_ids q -> all_file_ids q' = all_file_ids q ->
  next_job_id q' = next_job_id q -> next_file_id q <= next_file_id q' -> queue_wf q'.
Proof.
  intros [H1 H2 H3 H4 H5] Hi Hf Hn Hn'. split; rewrite ?Hi, ?Hf, ?Hn; try done; try lia.
  eapply Forall_impl; [exact H4|]. simpl. lia.
Qed.

(** A fresh job: one more id, new file ids above the old ones. *)
Lemma queue_wf_admit q q' j : queue_wf q ->
  jobs q' = jobs q ++ [j] -> pending_admissions q' = pending_admissions q ->
  job_id j = next_job_id q + 1 -> next_job_id q' = next_job_id q + 1 ->
  NoDup (job_file_ids j) ->
  Forall (fun i => next_file_id q < i <= next_file_id q') (job_file_ids j) ->
  next_file_id q <= next_file_id q' ->
  queue_wf q'.
Proof.
  intros [H1 H2 H3 H4 H5] Hj Hp Hid Hn Hnd Hfi Hle.
  assert (Hi : all_ids q' ≡ₚ (next_job_id q + 1) :: all_ids q).
  { unfold all_ids. rewrite Hj, Hp, map_app, <- app_assoc. simpl. rewrite Hid.
    symmetry. apply Permutation_middle. }
  assert (Hf : all_file_ids q' = all_file_ids q ++ job_file_ids j).
  { unfold all_file_ids. rewrite Hj, map_app, concat_app. simpl. by rewrite app_nil_r. }
  rewrite Forall_forall in H2, H4, Hfi.
  split; rewrite ?Hi, ?Hf, ?Hn.
  - constructor; [|done]. intros Hin%H2. lia.
  - constructor; [lia|]. apply Forall_forall. intros i Hin%H2. lia.
  - apply NoDup_app. split_and!; [done| |done]. intros i Hin%H4 Hin'%Hfi. lia.
  - apply Forall_app. split; apply Forall_forall; [intros i Hin%H4|intros i Hin%Hfi]; lia.
  - lia.
Qed.

(** *** Files *)

Lemma build_files_fold lower pause pfs : forall next seen out,
  0 <= next -> next + Z.of_nat (length pfs) <= u32_max ->
  let '(next', _, out') := fold_left (build_file lower pause) pfs (next, seen, out) in
  next' = next + Z.of_nat (length pfs) /\
  map file_id out' = map file_id out ++ seqZ (next + 1) (Z.of_nat (length pfs)).
Proof.
  induction pfs as [|pf pfs IH]; intros next seen out Hn Hmax.
  { simpl. rewrite app_nil_r. split; [lia|done]. }
  cbn [fold_left build_file]. cbn [length] in *.
  assert (Hw : wrap32 (next + 1) = next + 1).
  { unfold wrap32. apply Z.mod_small. unfold u32_max in Hmax. lia. }
  rewrite Hw.
  set (seen' := <[_ := _]> seen). set (e := {| file_id := _ |}).
  specialize (IH (next + 1) seen' (out ++ [e]) ltac:(lia) ltac:(lia)).
  destruct (fold_left (build_file lower pause) pfs _) as [[n' s'] o'].
  destruct IH as [-> ->]. split; [lia|]. rewrite map_app, <- app_assoc. simpl. f_equal.
  rewrite (seqZ_cons (next + 1) (Z.of_nat (S (length pfs)))) by lia. f_equal. f_equal; lia.
Qed.

Lemma build_files_spec lower q parsed pause q' fs :
  build_files lower q parsed pause = (q', fs) -> 0 <= next_file_id q ->
  next_file_id q + Z.of_nat (length (nzb_files parsed)) <= u32_max ->
  q' = set_next_file_id (next_file_id q + Z.of_nat (length (nzb_files parsed))) q /\
  NoDup (map file_id fs) /\
  Forall (fun i => next_file_id q < i <= next_file_id q') (map file_id fs).
Proof.
  intros Hb H0 Hmax. unfold build_files in Hb.
  pose proof (build_files_fold lower pause (nzb_files parsed) (next_file_id q) ∅ [] H0 Hmax) as Hs.
  destruct (fold_left _ _ _) as [[n' s'] o']. injection Hb as <- <-.
  destruct Hs as [-> Hids]. split; [done|]. simpl in Hids. rewrite Hids. split; [apply NoDup_seqZ|].
  apply Forall_forall. intros i Hi%elem_of_seqZ. simpl. lia.
Qed.

(** *** Operations *)

Inductive QueueOp :=
| OpReserve (src : TorrentSource) (o : AddOpts)
| OpCancel (id : JobId)
| OpCommit (now : Z) (id : JobId) (c : TorrentAdmissionCommit)
| OpAdmitNzb (now : Z) (nm : str) (parsed : ParsedNzb) (cat : option str) (prio : Z) (pause : bool)
| OpAdmitUrl (now : Z) (nm url : str) (cat : option str) (prio : Z)
| OpCompleteUrl (id : JobId) (parsed : ParsedNzb) (pause : bool)
| OpSetName (id : JobId) (nm : str) (storage_too provisional : bool)
| OpRecompute
| OpRestart (now : Z).

Definition apply_op (lower : str -> str) (q : QueueState) (op : QueueOp) : run QueueState :=
  match op with
  | OpReserve src o => Ret (fst (reserve_torrent_admission q src o))
  | OpCancel id => Ret (fst (cancel_torrent_admission q id))
  | OpCommit now id c => Ret (fst (commit_torrent_admission q now id c))
  | OpAdmitNzb now nm parsed cat prio pause => Ret (fst (admit_nzb lower q now nm parsed cat prio pause))
  | OpAdmitUrl now nm url cat prio => Ret (fst (admit_url q now nm url cat prio))
  | OpCompleteUrl id parsed pause =>
      let! r := complete_url_fetch lower q id parsed pause in Ret (fst r)
  | OpSetName id nm storage prov => Ret (set_job_name q id nm storage prov)
  | OpRecompute => Ret (recompute_all_totals q)
  | OpRestart now => from_doc now (to_doc q)
  end.

(** The [u32] counters do not wrap in this operation. *)
Definition has_room (q : QueueState) (op : QueueOp) : Prop :=
  next_job_id q < u32_max /\
  match op with
  | OpAdmitNzb _ _ parsed _ _ _ | OpCompleteUrl _ parsed _ =>
      next_file_id q + Z.of_nat (length (nzb_files parsed)) <= u32_max
  | _ => True
  end.

Lemma next_id_room q : queue_wf q -> next_job_id q < u32_max ->
  wrap32 (next_job_id q + 1) = next_job_id q + 1.
Proof. intros [_ _ _ _ ?] ?. unfold wrap32. apply Z.mod_small. unfold u32_max in *. lia. Qed.

Lemma rename_job_ids j nm s p :
  job_id (rename_job j nm s p) = job_id j /\ files (rename_job j nm s p) = files j /\
  totals (rename_job j nm s p) = totals j /\ status (rename_job j nm s p) = status j.
Proof. unfold rename_job. by case_if. Qed.

Lemma update_job_ids q id f : (forall j, job_id (f j) = job_id j) ->
  (forall j, job_file_ids (f j) = job_file_ids j) ->
  all_ids (update_job q id f) = all_ids q /\ all_file_ids (update_job q id f) = all_file_ids q.
Proof.
  intros H1 H2. unfold all_ids, all_file_ids, update_job. simpl.
  rewrite (update_first_map job_id), (update_first_map job_file_ids) by done. done.
Qed.

Lemma cancel_ids q id : queue_wf q -> queue_wf (fst (cancel_torrent_admission q id)).
Proof.
  intros [H1 H2 H3 H4 H5]. unfold cancel_torrent_admission. simpl.
  assert (Hsub : forall l, sublist (map pa_job_id (List.filter (fun p => negb (pa_job_id p =? id)) l)) (map pa_job_id l)).
  { induction l as [|p l IH]; simpl; [done|]. case_if; simpl; by constructor. }
  assert (Hs : sublist (all_ids (set_pending (List.filter (fun p => negb (pa_job_id p =? id)) (pending_admissions q)) q)) (all_ids q)).
  { unfold all_ids. simpl. by apply sublist_app. }
  split; try done.
  - eapply sublist_NoDup; [exact H1|exact Hs].
  - rewrite Forall_forall in H2 |- *. intros i Hi. apply H2.
    eapply elem_of_submseteq; [exact Hi|by apply sublist_submseteq].
Qed.

Lemma queue_wf_reserve q src o : queue_wf q -> next_job_id q < u32_max ->
  queue_wf (fst (reserve_torrent_admission q src o)).
Proof.
  intros Hwf Hroom. pose proof Hwf as [H1 H2 H3 H4 H5].
  unfold reserve_torrent_admission. rewrite next_id_room by done. simpl.
  set (q' := set_pending _ _).
  assert (Hi : all_ids q' ≡ₚ (next_job_id q + 1) :: all_ids q).
  { unfold all_ids, q'. simpl. rewrite map_app, app_assoc. simpl.
    by rewrite (Permutation_app_comm _ [_]). }
  rewrite Forall_forall in H2. split; rewrite ?Hi; try done.
  - constructor; [|done]. intros Hin%H2. lia.
  - constructor; simpl; [lia|]. apply Forall_forall. intros i Hin%H2. lia.
  - simpl. lia.
Qed.

Lemma filter_remove_id ps id : NoDup (map pa_job_id ps) -> existsb (fun p => pa_job_id p =? id) ps = true ->
  map pa_job_id ps ≡ₚ id :: map pa_job_id (List.filter (fun p => negb (pa_job_id p =? id)) ps).
Proof.
  induction ps as [|p ps IH]; simpl; [done|]. intros [Hn Hnd]%NoDup_cons.
  destruct (pa_job_id p =? id) eqn:E; bool_hyps; simpl; intros Hex.
  - subst id. f_equiv. assert (Hall : List.filter (fun p0 => negb (pa_job_id p0 =? pa_job_id p)) ps = ps); [|by rewrite Hall].
    clear -Hn. induction ps as [|r ps IH]; simpl; [done|].
    destruct (pa_job_id r =? pa_job_id p) eqn:E; bool_hyps; simpl.
    + destruct Hn. simpl. rewrite E. by left.
    + f_equal. apply IH. intros Hin. apply Hn. by right.
  - rewrite (IH Hnd Hex). constructor.
Qed.

Lemma queue_wf_commit q now id c : queue_wf q -> queue_wf (fst (commit_torrent_admission q now id c)).
Proof.
  intros Hwf. unfold commit_torrent_admission.
  destruct (existsb (fun p => pa_job_id p =? id) (pending_admissions q)) eqn:Hex; cbn [negb]; [|done].
  destruct (find (same_torrent (tc_record c)) (jobs q)) as [j|].
  - apply cancel_ids. set (f := fun j => set_asked _ _ j).
    assert (Hi : map job_id (update_first (same_torrent (tc_record c)) f (jobs q)) = map job_id (jobs q))
      by (by apply update_first_map).
    assert (Hf : map job_file_ids (update_first (same_torrent (tc_record c)) f (jobs q)) = map job_file_ids (jobs q))
      by (by apply update_first_map).
    apply (queue_wf_same q); try done.
    + unfold all_ids. simpl. by rewrite Hi.
    + unfold all_file_ids. simpl. by rewrite Hf.
  - pose proof Hwf as [H1 _ _ _ _].
    apply NoDup_app in H1 as (_ & _ & Hnd).
    pose proof (filter_remove_id _ _ Hnd Hex) as Hperm.
    unfold cancel_torrent_admission. cbn [fst].
    apply (queue_wf_same q); try done.
    + unfold all_ids. simpl. rewrite map_app, <- app_assoc. simpl. by rewrite Hperm.
    + unfold all_file_ids. simpl. rewrite map_app, concat_app. simpl. by rewrite !app_nil_r.
Qed.

Lemma queue_wf_admit_nzb lower q now nm parsed cat prio pause : queue_wf q ->
  has_room q (OpAdmitNzb now nm parsed cat prio pause) ->
  queue_wf (fst (admit_nzb lower q now nm parsed cat prio pause)).
Proof.
  intros Hwf [Hr Hf]. unfold admit_nzb. rewrite next_id_room by done.
  destruct (build_files lower (set_next_job_id (next_job_id q + 1) q) parsed pause) as [q1 fs] eqn:Hb.
  destruct (build_files_spec _ _ _ _ _ _ Hb) as (-> & Hnd & Hall); [apply Hwf|done|].
  simpl in *. eapply queue_wf_admit; simpl; try reflexivity; try done.
  unfold job_file_ids. lia.
Qed.

Lemma queue_wf_admit_url q now nm url cat prio : queue_wf q -> next_job_id q < u32_max ->
  queue_wf (fst (admit_url q now nm url cat prio)).
Proof.
  intros Hwf Hr. unfold admit_url. rewrite next_id_room by done. simpl.
  eapply queue_wf_admit; simpl; try reflexivity; try done; constructor.
Qed.

Lemma fetched_name_ids j parsed j' : fetched_name j parsed = Ret j' -> job_id j' = job_id j.
Proof.
  unfold fetched_name. destruct (name_from_evidence _ _) as [[ev|]|]; cbn [run_bind]; [..|done].
  - intros [= <-]. apply rename_job_ids.
  - case_if; [|by intros [= <-]]. destruct (clean_job_name _ _); cbn [run_bind]; [|done]. by intros [= <-].
Qed.

Lemma update_first_split {A} (p : A -> bool) f l x : find p l = Some x ->
  exists a b, l = a ++ x :: b /\ update_first p f l = a ++ f x :: b.
Proof.
  induction l as [|y l IH]; simpl; [done|]. case_if.
  - intros [= ->]. by exists [], l.
  - intros Hf%IH. destruct Hf as (a & b & -> & ->). by exists (y :: a), b.
Qed.

(** Giving a job new files, numbered above all others. *)
Lemma queue_wf_replace q q' id j old : queue_wf q ->
  find_job q id = Some old -> job_id j = id -> job_id old = id ->
  jobs q' = update_first (fun x => job_id x =? id) (fun _ => j) (jobs q) ->
  pending_admissions q' = pending_admissions q -> next_job_id q' = next_job_id q ->
  NoDup (job_file_ids j) ->
  Forall (fun i => next_file_id q < i <= next_file_id q') (job_file_ids j) ->
  next_file_id q <= next_file_id q' -> queue_wf q'.
Proof.
  intros [H1 H2 H3 H4 H5] Hfind Hj Hold Hjobs Hp Hn Hnd Hfresh Hle.
  destruct (update_first_split _ (fun _ => j) _ _ Hfind) as (a & b & Ha & Hu).
  rewrite Hu in Hjobs.
  assert (Hids : all_ids q' = all_ids q).
  { unfold all_ids. rewrite Hjobs, Ha, Hp, !map_app. simpl. by rewrite Hj, Hold. }
  set (fa := concat (map job_file_ids a)). set (fb := concat (map job_file_ids b)).
  assert (Hf : all_file_ids q' = fa ++ job_file_ids j ++ fb).
  { unfold all_file_ids. rewrite Hjobs, map_app, concat_app. done. }
  assert (Hf0 : all_file_ids q = fa ++ job_file_ids old ++ fb).
  { unfold all_file_ids. rewrite Ha, map_app, concat_app. done. }
  rewrite Hf0 in H3, H4. rewrite !Forall_app in H4. destruct H4 as (L1 & _ & L3).
  apply NoDup_app in H3 as (N1 & N2 & N3). apply NoDup_app in N3 as (_ & N4 & N5).
  rewrite Forall_forall in L1, L3, Hfresh.
  split; rewrite ?Hids, ?Hf, ?Hn; try done.
  - apply NoDup_app. split_and!; [done| |].
    + intros i Hi. rewrite elem_of_app. intros [Hi'|Hi'].
      * apply L1 in Hi. apply Hfresh in Hi'. lia.
      * apply (N2 i Hi). apply elem_of_app. by right.
    + apply NoDup_app. split_and!; [done| |done]. intros i Hi%Hfresh Hi'%L3. lia.
  - rewrite !Forall_app. split_and!; apply Forall_forall; [intros i Hi%L1|intros i Hi%Hfresh|intros i Hi%L3]; lia.
  - lia.
Qed.

Lemma find_job_id q id j : find_job q id = Some j -> job_id j = id.
Proof. intros [_ Hf]%find_some. by bool_hyps. Qed.

Lemma queue_wf_complete lower q id parsed pause q' : queue_wf q ->
  has_room q (OpCompleteUrl id parsed pause) ->
  apply_op lower q (OpCompleteUrl id parsed pause) = Ret q' -> queue_wf q'.
Proof.
  intros Hwf [Hr Hf]. simpl. unfold complete_url_fetch.
  destruct (build_files lower q parsed pause) as [q1 fs] eqn:Hb.
  destruct (build_files_spec _ _ _ _ _ _ Hb) as (-> & Hnd & Hall); [apply Hwf|done|]. simpl in Hall.
  set (q1 := set_next_file_id _ q).
  assert (Hskip : queue_wf q1) by (apply (queue_wf_same q); try done; simpl; lia).
  change (find_job q1 id) with (find_job q id).
  destruct (find_job q id) as [old|] eqn:Hfind; [|by intros [= <-]].
  pose proof (find_job_id _ _ _ Hfind) as Hold.
  destruct (status old); try (by intros [= <-]).
  set (j0 := match category old with Some _ => _ | None => _ end).
  assert (Hj0 : job_id j0 = id) by (unfold j0; by destruct (category old)).
  destruct (fetched_name j0 parsed) as [j1|] eqn:Hn; cbn [run_bind]; [|done].
  apply fetched_name_ids in Hn. intros [= <-].
  eapply (queue_wf_replace q _ id _ old Hwf Hfind); try reflexivity; simpl; try done; lia.
Qed.

(** *** Recovery *)

(** A torrent comes back as it was; one that should run and has not finished waits for
    its turn again, active from now on. *)
Definition torrent_recovered (now : Z) (st : JobStatus) (t t' : TorrentRecord) : Prop :=
  info_hash_v1 t' = info_hash_v1 t /\ source t' = source t /\ metadata_file t' = metadata_file t /\
  payload_root t' = payload_root t /\ control_intent t' = control_intent t /\ removal_intent t' = removal_intent t /\
  removal_outcome t' = removal_outcome t /\ removal_confirmed_at_unix t' = removal_confirmed_at_unix t /\
  torrent_files t' = torrent_files t /\ total_bytes t' = total_bytes t /\ selected_bytes t' = selected_bytes t /\
  downloaded_bytes t' = downloaded_bytes t /\ uploaded_bytes t' = uploaded_bytes t /\
  seeding_seconds t' = seeding_seconds t /\ torrent_ready_at_unix t' = torrent_ready_at_unix t /\
  content_path t' = content_path t /\ seed_policy t' = seed_policy t /\ stop_reason t' = stop_reason t /\
  last_error t' = last_error t /\
  ((phase t' = phase t /\ last_activity_unix t' = last_activity_unix t) \/
   (phase t' = TP_Queued /\ last_activity_unix t' = Some now /\ phase t ∈ [TP_Queued; TP_Downloading; Checking; PausedDownload] /\
    st = JS_Queued /\ control_intent t = TCI_Running /\ torrent_ready_at_unix t = None /\ removal_intent t = None)).

(** What a restart may change of a job. *)
Record recovered (now : Z) (j j' : Job) : Prop := {
  rc_id : job_id j' = job_id j;
  rc_kind : kind j' = kind j;
  rc_queued_at : queued_at_unix j' = queued_at_unix j;
  rc_category : category j' = category j;
  rc_priority : priority j' = priority j;
  rc_dupe : dupe j' = dupe j;
  rc_params : params j' = params j;
  rc_totals : totals j' = totals j;
  rc_stages : stages j' = stages j;
  rc_files : files j' = map (fun f => set_segments (map unlease (segments f)) f) (files j);
  rc_status : status j' = (match status j with JS_Downloading => JS_Queued | s => s end);
  rc_torrent : option_Forall2 (torrent_recovered now (status j')) (torrent j) (torrent j');
  rc_dir : success_articles (totals j) <> 0 -> dir_name j' = dir_name j;
  rc_name : name_is_open j <> Ret true ->
    name j' = name j /\ original_name j' = original_name j /\ name_provisional j' = name_provisional j
}.

Lemma restart_torrent_recovered now st t : torrent_recovered now st t (restart_torrent now st t).
Proof.
  unfold restart_torrent. match goal with |- context [if ?b then _ else _] => destruct b eqn:E end; unfold torrent_recovered;
    do 19 (split; [done|]); [right|by left]. bool_hyps. cbn. destruct (removal_intent t); [done|]. by split_and!.
Qed.

Lemma recover_job_recovered now j : recovered now j (recover_job now j).
Proof. constructor; try done. simpl. destruct (torrent j); constructor. apply restart_torrent_recovered. Qed.

(** The repairs rename an open job, and move the directory of an untouched one. *)
Lemma rename_recovered now j j1 nm st p : recovered now j j1 -> name_is_open j = Ret true ->
  (st = true -> success_articles (totals j1) = 0) ->
  recovered now j (rename_job j1 nm st p).
Proof.
  intros R Hopen Hst. unfold rename_job. case_if; [done|]. destruct R. constructor; try done.
  intros Hs. destruct st; [|by auto]. by destruct Hs; rewrite <- rc_totals0; apply Hst.
Qed.

(** Whether a name is open is read off fields that the first step keeps. *)
Lemma recovered_open now j : name_is_open (recover_job now j) = name_is_open j.
Proof. done. Qed.

Lemma repair_name_recovered now j j2 : repair_name (recover_job now j) = Ret j2 -> recovered now j j2.
Proof.
  pose proof (recover_job_recovered now j) as R. unfold repair_name. rewrite recovered_open.
  destruct (name_is_open j) as [o|] eqn:Eo; cbn [run_bind]; [|done].
  case_if; [by intros [= <-]|]. destruct o; [|done]. destruct (name_from_files _) as [[real|]|]; cbn [run_bind]; [..|done].
  - intros [= <-]. apply rename_recovered; [done|done|]. intros. by bool_hyps.
  - by intros [= <-].
Qed.

Lemma repair_names_recovered now js : forall js2,
  repair_names (map (recover_job now) js) = Ret js2 -> Forall2 (recovered now) js js2.
Proof.
  induction js as [|j js IH]; intros js2; cbn [map repair_names].
  { intros [= <-]. constructor. }
  destruct (repair_name (recover_job now j)) as [j2|] eqn:E; cbn [run_bind]; [|done].
  destruct (repair_names (map (recover_job now) js)) as [js2'|] eqn:E'; cbn [run_bind]; [|done].
  intros [= <-]. constructor; [by apply repair_name_recovered|by apply IH].
Qed.

Lemma recovered_moved now j j1 dir : recovered now j j1 -> success_articles (totals j1) = 0 ->
  recovered now j (set_dir_name dir j1).
Proof. intros [] Hs. constructor; try done. intros Hn. by destruct Hn; rewrite <- rc_totals0. Qed.

Lemma repair_dirs_recovered now js todo : forall i q, Forall2 (recovered now) js (jobs q) ->
  Forall2 (recovered now) js (jobs (repair_dirs todo i q)) /\
  pending_admissions (repair_dirs todo i q) = pending_admissions q /\
  next_job_id (repair_dirs todo i q) = next_job_id q /\
  next_file_id (repair_dirs todo i q) = next_file_id q /\
  download_paused (repair_dirs todo i q) = download_paused q /\
  speed_limit_bps (repair_dirs todo i q) = speed_limit_bps q /\
  max_active_downloads (repair_dirs todo i q) = max_active_downloads q.
Proof.
  induction todo as [|todo IH]; intros i q HF; [done|]. cbn [repair_dirs].
  destruct (jobs q !! i) as [j|] eqn:Hi; [|done].
  set (q1 := if _ || _ then _ else _).
  assert (H1 : Forall2 (recovered now) js (jobs q1)).
  { unfold q1. case_if; [done|]. simpl.
    destruct (Forall2_lookup_r _ _ _ _ _ HF Hi) as (j0 & Hj0 & Hr).
    rewrite <- (list_insert_id js i j0 Hj0). apply Forall2_insert; [done|]. apply recovered_moved; [done|].
    apply orb_false_iff in Heqb as [_ Hb]. by bool_hyps. }
  assert (H2 : pending_admissions q1 = pending_admissions q /\ next_job_id q1 = next_job_id q /\
    next_file_id q1 = next_file_id q /\ download_paused q1 = download_paused q /\
    speed_limit_bps q1 = speed_limit_bps q /\ max_active_downloads q1 = max_active_downloads q)
    by (unfold q1; by case_if).
  destruct (IH (S i) q1 H1) as (I1 & I2 & I3 & I4 & I5 & I6 & I7).
  destruct H2 as (E1 & E2 & E3 & E4 & E5 & E6).
  rewrite I2, I3, I4, I5, I6, I7. split_and!; congruence || done.
Qed.

Lemma from_doc_recovered now d q : from_doc now d = Ret q ->
  Forall2 (recovered now) (q_jobs d) (jobs q) /\
  pending_admissions q = q_pending_admissions d /\ next_job_id q = q_next_job_id d /\
  next_file_id q = q_next_file_id d /\ download_paused q = q_download_paused d /\
  speed_limit_bps q = q_speed_limit_bps d /\
  max_active_downloads q = clamp_active_downloads (q_max_active_downloads d).
Proof.
  unfold from_doc, repair_names_and_directories. cbn [jobs].
  destruct (repair_names (map (recover_job now) (q_jobs d))) as [js|] eqn:E; cbn [run_bind]; [|done].
  intros [= <-]. by apply repair_dirs_recovered, repair_names_recovered.
Qed.

Lemma recovered_ids now js js' : Forall2 (recovered now) js js' ->
  map job_id js' = map job_id js /\ map job_file_ids js' = map job_file_ids js.
Proof.
  induction 1 as [|j j' js js' Hr _ [IH1 IH2]]; [done|]. simpl. rewrite IH1, IH2, (rc_id _ _ _ Hr). split; [done|]. f_equal.
  unfold job_file_ids. by rewrite (rc_files _ _ _ Hr), map_map.
Qed.

Lemma queue_wf_set_name q id nm storage prov : queue_wf q -> queue_wf (set_job_name q id nm storage prov).
Proof.
  intros Hwf. unfold set_job_name. destruct (find_job q id); [|done].
  assert (H1 : queue_wf (update_job q id (fun j => rename_job j nm storage prov))).
  { destruct (update_job_ids q id (fun j => rename_job j nm storage prov)) as [E1 E2].
    - intros. apply rename_job_ids.
    - intros x. unfold job_file_ids. f_equal. apply rename_job_ids.
    - apply (queue_wf_same q); rewrite ?E1, ?E2; done. }
  destruct storage; [|done].
  set (q1 := update_job q id _) in *.
  destruct (update_job_ids q1 id (fun j => set_dir_name (unique_dir_name q1 id (dir_name j)) j)) as [E1 E2]; [done..|].
  apply (queue_wf_same q1); rewrite ?E1, ?E2; done.
Qed.

(** identifiers stay unique.  Job ids (of queued jobs and reserved
    admissions together) and file ids are pairwise distinct and at most the
    counters that issue them; every operation of the queue keeps it so,
    reservation, cancellation, commit, admission by NZB or URL, the arrival of
    a URL's NZB, renaming, recounting and a restart from the snapshot. *)
Theorem queue_ids_invariant lower q op q' :
  queue_wf q -> has_room q op -> apply_op lower q op = Ret q' -> queue_wf q'.
Proof.
  intros Hwf Hroom. destruct op.
  - intros [= <-]. apply queue_wf_reserve; [done|apply Hroom].
  - intros [= <-]. by apply cancel_ids.
  - intros [= <-]. by apply queue_wf_commit.
  - intros [= <-]. by apply queue_wf_admit_nzb.
  - intros [= <-]. apply queue_wf_admit_url; [done|apply Hroom].
  - by apply queue_wf_complete.
  - intros [= <-]. by apply queue_wf_set_name.
  - intros [= <-]. apply (queue_wf_same q); try done.
    + unfold all_ids. simpl. rewrite map_map. done.
    + unfold all_file_ids. simpl. rewrite map_map. done.
  - intros Hd%from_doc_recovered. destruct Hd as (HF & Hp & Hn & Hnf & _).
    destruct (recovered_ids _ _ _ HF) as [E1 E2]. simpl in *.
    apply (queue_wf_same q); try done; [| |lia].
    + unfold all_ids. by rewrite E1, Hp.
    + unfold all_file_ids. by rewrite E2.
Qed.

Definition sample_nzb (subjects : list str) : ParsedNzb := {|
  meta := {| title := None; meta_password := None; meta_category := None |};
  nzb_files := map (fun s => {| pf_subject := s; poster := None; pf_date := None; pf_groups := [];
    pf_segments := [{| ps_message_id := lit "a@b"; ps_number := 1; ps_bytes := 100 |}] |}) subjects |}.

Lemma queue_wf_default : queue_wf queue_default.
Proof. split; try constructor; vm_compute; discriminate. Qed.

Lemma queue_ids_invariant_witness :
  queue_wf (fst (admit_nzb to_ascii_lowercase queue_default 0 (lit "n") (sample_nzb [lit "f"; lit "f"]) None 0 true)).
Proof.
  apply (queue_ids_invariant to_ascii_lowercase queue_default
    (OpAdmitNzb 0 (lit "n") (sample_nzb [lit "f"; lit "f"]) None 0 true)).
  - apply queue_wf_default.
  - split; vm_compute; [reflexivity|discriminate].
  - reflexivity.
Defined.

(** C33: a restart loses no progress and leaves no lease.  If recovery from a
    snapshot completes, the jobs come back in order with their ids, kinds, priorities,
    categories, queueing times, duplicate keys, parameters, totals and stages; every
    segment is as saved except that leases are pending again, and none is left leased; a
    downloading job is queued, any other status is kept; of a torrent at most the phase
    and the time of last activity change, and only when it should run and is unfinished;
    only an open name changes; a job that has written data keeps its directory; the
    admissions, counters and limits are restored, the concurrency brought into
    1..=100. *)
Theorem restart_preserves now q q' : from_doc now (to_doc q) = Ret q' ->
  Forall2 (recovered now) (jobs q) (jobs q') /\
  (forall j f s, j ∈ jobs q' -> f ∈ files j -> s ∈ segments f -> is_leased (state s) = false) /\
  pending_admissions q' = pending_admissions q /\ next_job_id q' = next_job_id q /\
  next_file_id q' = next_file_id q /\ download_paused q' = download_paused q /\
  speed_limit_bps q' = speed_limit_bps q /\
  max_active_downloads q' = Z.max 1 (Z.min 100 (max_active_downloads q)).
Proof.
  intros Hd. destruct (from_doc_recovered _ _ _ Hd) as (HF & H1 & H2 & H3 & H4 & H5 & H6). simpl in *.
  split_and!; try done.
  - intros j' f s Hj Hf Hs. apply list_elem_of_lookup in Hj as [i Hj].
    destruct (Forall2_lookup_r _ _ _ _ _ HF Hj) as (j & _ & Hr). rewrite (rc_files _ _ _ Hr) in Hf.
    apply list_elem_of_fmap in Hf as (f0 & -> & _). simpl in Hs.
    apply list_elem_of_fmap in Hs as (s0 & -> & _). unfold unlease. by destruct (state s0) eqn:E; simpl; rewrite ?E.
  - rewrite H6. unfold clamp_active_downloads, clamp, MIN_ACTIVE_DOWNLOADS, MAX_ACTIVE_DOWNLOADS. repeat case_if; bool_hyps; lia.
Qed.

(** a job's totals are an accounting.  Recounting a job whose segment sizes
    are unsigned gives nested figures: recovery data within the total, failed
    recovery bytes within the recovery data and within the failures, failures
    outside the recovery data within the rest (the premises of the health
    formulas), and successes plus failures never exceed the total, in bytes and
    in articles. *)
Theorem recompute_totals_wf j :
  Forall (fun f => Forall (fun s => 0 <= seg_size s) (segments f)) (files j) ->
  let t := totals (recompute_job_totals j) in
  0 <= par_size t <= size t /\ 0 <= failed_par_size t <= par_size t /\
  failed_par_size t <= failed_size t /\
  failed_size t - failed_par_size t <= size t - par_size t /\
  success_size t + failed_size t <= size t /\ 0 <= success_size t /\
  success_articles t + failed_articles t <= total_articles t /\
  total_articles t = Z.of_nat (length (concat (map segments (files j)))) /\
  size t = sum_Z (map seg_size (concat (map segments (files j)))).
Proof.
  intros Hall. unfold recompute_job_totals, set_totals. simpl. unfold totals_of.
  set (P := fun (t : JobTotals) (n : Z) (sz : Z) =>
    0 <= par_size t <= size t /\ 0 <= failed_par_size t <= par_size t /\
    failed_par_size t <= failed_size t /\
    failed_size t - failed_par_size t <= size t - par_size t /\
    success_size t + failed_size t <= size t /\ 0 <= success_size t /\
    success_articles t + failed_articles t <= total_articles t /\
    total_articles t = n /\ size t = sz /\
    (success_size t - 0 + failed_par_size t <= size t)).
  assert (Hseg : forall par ss t n sz, Forall (fun s => 0 <= seg_size s) ss -> P t n sz ->
    P (fold_left (count_segment par) ss t) (n + Z.of_nat (length ss)) (sz + sum_Z (map seg_size ss))).
  { intros par ss. induction ss as [|s ss IH]; intros t n sz Hs Ht; simpl.
    { by rewrite !Z.add_0_r. }
    inversion Hs; subst.
    replace (n + Z.of_nat (S (length ss))) with (n + 1 + Z.of_nat (length ss)) by lia.
    rewrite Z.add_assoc. apply IH; [done|].
    unfold P, count_segment in *. cbn [size par_size failed_size failed_par_size success_size
      total_articles success_articles failed_articles].
    destruct (state s); cbn [is_done is_failed]; destruct par; lia. }
  assert (Hfiles : forall fs t n sz, Forall (fun f => Forall (fun s => 0 <= seg_size s) (segments f)) fs ->
    P t n sz ->
    P (fold_left (fun t f => fold_left (count_segment (is_par2 f)) (segments f) t) fs t)
      (n + Z.of_nat (length (concat (map segments fs)))) (sz + sum_Z (map seg_size (concat (map segments fs))))).
  { induction fs as [|f fs IH]; intros t n sz Hf Ht; simpl.
    { by rewrite !Z.add_0_r. }
    inversion Hf; subst. rewrite length_app, map_app, sum_Z_app, Nat2Z.inj_add, !Z.add_assoc.
    apply IH; [done|]. by apply Hseg. }
  assert (H0 : P JobTotals_default 0 0) by (unfold P; simpl; lia).
  specialize (Hfiles (files j) JobTotals_default 0 0 Hall H0). unfold P in Hfiles. simpl in Hfiles. tauto.
Qed.

Lemma recompute_totals_wf_witness :
  let j := fst (admit_nzb to_ascii_lowercase queue_default 0 (lit "n") (sample_nzb [lit "f.par2"; lit "f"]) None 0 true) in
  exists job, job ∈ jobs j /\
  let t := totals (recompute_job_totals job) in
  0 <= par_size t <= size t /\ 0 <= failed_par_size t <= par_size t /\
  failed_par_size t <= failed_size t /\
  failed_size t - failed_par_size t <= size t - par_size t /\
  success_size t + failed_size t <= size t /\ 0 <= success_size t /\
  success_articles t + failed_articles t <= total_articles t /\
  total_articles t = Z.of_nat (length (concat (map segments (files job)))) /\
  size t = sum_Z (map seg_size (concat (map segments (files job)))).
Proof.
  intros j. eexists. split; [by left|]. apply recompute_totals_wf.
  vm_compute. repeat constructor; discriminate.
Defined.

(** A URL job that waits for its NZB. *)
Lemma restart_preserves_witness :
  let q := fst (admit_url queue_default 0 (lit "Some.Show.S01") (lit "http://x") None 0) in
  exists q', Forall2 (recovered 9) (jobs q) (jobs q') /\
  (forall j f s, j ∈ jobs q' -> f ∈ files j -> s ∈ segments f -> is_leased (state s) = false) /\
  pending_admissions q' = pending_admissions q /\ next_job_id q' = next_job_id q /\
  next_file_id q' = next_file_id q /\ download_paused q' = download_paused q /\
  speed_limit_bps q' = speed_limit_bps q /\
  max_active_downloads q' = Z.max 1 (Z.min 100 (max_active_downloads q)).
Proof. intros q. eexists. apply (restart_preserves 9 q). vm_compute. reflexivity. Defined.

(** ** Directories *)

(** the directory a job is given is its own, unless a job already sits in
    the numbered alternative.  No other job has the directory that
    [unique_dir_name] returns, provided none has the wanted name with this
    job's id appended. *)
Theorem unique_dir_fresh q id want j :
  (forall j', j' ∈ jobs q -> job_id j' <> id -> dir_name j' <> want ++ lit "." ++ show_dec id) ->
  j ∈ jobs q -> job_id j <> id -> dir_name j <> unique_dir_name q id want.
Proof.
  intros Hsuf Hj Hid. unfold unique_dir_name. destruct (existsb _ (jobs q)) eqn:E; [by apply Hsuf|].
  intros Hd. apply not_true_iff_false in E. apply E, existsb_elem. exists j. split; [done|].
  apply andb_true_iff. split; [apply negb_true_iff; lia|]. by apply bool_decide_eq_true.
Qed.

Definition queue_two_dirs : QueueState :=
  let q := fst (admit_url queue_default 0 (lit "Show") (lit "u") None 0) in
  fst (admit_url q 0 (lit "Show.3") (lit "u") None 0).

Lemma unique_dir_fresh_witness : exists j, j ∈ jobs queue_two_dirs /\
  dir_name j <> unique_dir_name queue_two_dirs 4 (lit "Show").
Proof.
  eexists. split; [by left|]. apply unique_dir_fresh; [|by left|vm_compute; discriminate].
  intros j' Hj _.
  repeat (apply elem_of_cons in Hj as [->|Hj]; [vm_compute; discriminate|]). by apply elem_of_nil in Hj.
Defined.

(** the numbered alternative can be taken.  With jobs named [Show] and
    [Show.3] queued, the third job named [Show] is given [Show.3], the
    directory of the second. *)
Theorem unique_dir_collision : exists q nm now,
  let q' := fst (admit_url q now nm (lit "u") None 0) in
  ~ NoDup (map dir_name (jobs q')) /\ NoDup (map dir_name (jobs q)).
Proof.
  exists queue_two_dirs, (lit "Show"), 0. split; apply (bool_decide_unpack _); vm_compute; exact I.
Qed.

(** an arriving NZB can put two jobs in one directory.  A URL job admitted
    under a hash takes its name, and with it its directory, from the fetched
    NZB without the uniqueness check, so it shares the directory of the job
    already queued under that name. *)
Theorem url_fetch_shares_directory : exists q id parsed q',
  NoDup (map dir_name (jobs q)) /\
  complete_url_fetch to_ascii_lowercase q id parsed true = Ret (q', true) /\
  ~ NoDup (map dir_name (jobs q')).
Proof.
  exists (fst (admit_url
      (fst (admit_nzb to_ascii_lowercase queue_default 0 (lit "Some.Show.S01E01") (sample_nzb [lit "x"]) None 0 true))
      0 (lit "cc310b9901757996b0bdfd880c666e3812e6531d") (lit "http://idx/1") None 0)), 2,
    (sample_nzb [[34] ++ lit "Some.Show.S01E01.par2" ++ [34]]).
  eexists. split; [|split; [vm_compute; reflexivity|]]; apply (bool_decide_unpack _); vm_compute; exact I.
Qed.

(** two files of one NZB can get one file name.  The suffix that separates
    equal names is not checked against the names that follow: [a], [a] and
    [a.dup1] become [a], [a.dup1] and [a.dup1]. *)
Theorem build_files_collision : exists parsed,
  ~ NoDup (map filename (snd (build_files to_ascii_lowercase queue_default parsed true))).
Proof.
  exists (sample_nzb [lit "a"; lit "a"; lit "a.dup1"]). apply (bool_decide_unpack _). vm_compute. exact I.
Qed.
