(* ===== verification/Selection.v ===== *)
(** * Choosing the next segment ([crates/nzbd-engine/src/queue.rs], lines
    1056-1290, and [torrent_wants_download_slot] of [backend.rs])

    Which jobs may download (the active set), and which pending segment a
    connection of one server is given.  Built on the failover ladder, whose
    contract ([Failover.current_candidates_spec_aux]) carries the proofs. *)

From S2P Require Import Prelude RustStr Types Failover Nzb JobNames Queue.

Definition STALLED_SLOT_YIELD_SECS : Z := 60.

Definition torrent_wants_download_slot (t : TorrentRecord) (queued_at now : Z) : bool :=
  if negb (phase_wants_download_slot (phase t)) then false
  else if bool_decide (phase t = TP_Queued) then true
  else if bool_decide (last_activity_unix t = None) && negb (bool_decide (phase t = TP_Downloading)) then true
  else
    let last_activity := default queued_at (last_activity_unix t) in
    sat_sub_i64 now last_activity <? STALLED_SLOT_YIELD_SECS.

Definition SHARED_DOWNLOAD_FLOOR_BPS : Z := 1024 * 1024.

Definition allocate_download_budget (aggregate : option Z) (usenet_active torrent_active : bool)
    (usenet_rate torrent_rate : Z) : option Z * option Z :=
  match aggregate with
  | None => (None, None)
  | Some limit =>
      match usenet_active, torrent_active with
      | true, false => (Some limit, None)
      | false, true => (None, Some limit)
      | false, false => (Some limit, None)
      | true, true =>
          let half := limit / 2 in
          let floor := Z.min SHARED_DOWNLOAD_FLOOR_BPS half in
          if usenet_rate <? half then
            let usenet := Z.min (Z.max usenet_rate floor) half in
            (Some usenet, Some (sat_sub limit usenet))
          else if torrent_rate <? half then
            let torrent := Z.min (Z.max torrent_rate floor) half in
            (Some (sat_sub limit torrent), Some torrent)
          else (Some half, Some (sat_sub limit half))
      end
  end.

(** ** Context *)

Record SelectionCtx := {
  ladder : Ladder;
  attempts_map : gmap (Z * Z * Z) SegmentAttempt;
  is_blocked : ServerId -> bool;
  delegated : gset JobId;
  post_fetch_files : gmap JobId (gset FileId);
  regular_downloads : bool;
  article_retries : Z;
  now_unix : Z;
  propagation_delay_secs : Z;
  soft_hold : bool;
  rotate : nat
}.

Record SelectionResult := { lease : option SegRef; exhausted : list SegRef }.

Definition ref_key (r : SegRef) : Z * Z * Z := (sr_job r, sr_file r, seg_number r).

(** ** The active set *)

Definition job_schedulable (j : Job) (paused : bool) : bool :=
  match status j with
  | JS_Queued | JS_Downloading => force_priority j || negb paused
  | JS_Paused => force_priority j
  | _ => false
  end.

Definition file_allowed (allowed : option (gset FileId)) (f : FileEntry) : bool :=
  match allowed with
  | Some a => bool_decide (file_id f ∈ a)
  | None => true
  end.

Definition has_backend_work (j : Job) (now : Z) (allowed : option (gset FileId)) : bool :=
  match kind j with
  | JobKind_Torrent =>
      match torrent j with
      | Some t => torrent_wants_download_slot t (queued_at_unix j) now
      | None => false
      end
  | JobKind_Nzb | JobKind_Url =>
      existsb (fun f => negb (paused f) && negb (is_terminal f) && file_allowed allowed f
        && existsb (fun s => is_pending (state s)) (segments f)) (files j)
  end.

Definition has_leased (j : Job) : bool :=
  existsb (fun f => existsb (fun s => is_leased (state s)) (segments f)) (files j).

Definition stalled_retry (j : Job) (now : Z) : bool :=
  match torrent j with
  | Some t =>
      bool_decide (phase t = TP_Queued) &&
      match last_activity_unix t with
      | Some last => STALLED_SLOT_YIELD_SECS <=? sat_sub_i64 now last
      | None => false
      end
  | None => false
  end.

(** The sort key [(stalled_retry, Reverse(priority))].  Priorities are [i32], so
    the pair is ordered as this integer is ([scheduling_key_lex]). *)
Definition scheduling_priority (now : Z) (j : Job) : Z :=
  (if stalled_retry j now then 2 ^ 33 else 0) - priority j.

(** The filters, the stable sort and the truncation that [next_for_server] and
    [active_set] share. *)
Definition candidates (q : QueueState) (deleg : gset JobId) (pff : gmap JobId (gset FileId))
    (regular soft : bool) (now : Z) : list Job :=
  List.filter (fun j =>
    (negb (bool_decide (job_id j ∈ deleg)) || bool_decide (is_Some (pff !! job_id j)))
    && (regular || bool_decide (is_Some (pff !! job_id j)))
    && job_schedulable j (download_paused q || soft)
    && has_backend_work j now (pff !! job_id j)) (jobs q).

Definition active_order (q : QueueState) (deleg : gset JobId) (pff : gmap JobId (gset FileId))
    (regular soft : bool) (now : Z) : list Job :=
  take (Z.to_nat (clamp_active_downloads (max_active_downloads q)))
    (sort_by_key (scheduling_priority now) (candidates q deleg pff regular soft now)).

Definition active_set_with_recovery (q : QueueState) deleg pff regular soft now : list JobId :=
  map job_id (active_order q deleg pff regular soft now).

Definition active_set (q : QueueState) (deleg : gset JobId) (soft : bool) (now : Z) : list JobId :=
  active_set_with_recovery q deleg ∅ true soft now.

Definition is_downloading (j : Job) : bool :=
  match status j with JS_Downloading => true | _ => false end.

Definition jobs_to_requeue_with_recovery (q : QueueState) deleg pff regular soft now : list JobId :=
  let active := active_set_with_recovery q deleg pff regular soft now in
  map job_id (List.filter (fun j => is_downloading j && negb (bool_decide (job_id j ∈ active))
    && negb (has_leased j)) (jobs q)).

Definition jobs_to_requeue (q : QueueState) (deleg : gset JobId) (soft : bool) (now : Z) : list JobId :=
  jobs_to_requeue_with_recovery q deleg ∅ true soft now.

(** ** The scan *)

(** [rotate_left(ctx.rotate % len)] of a list longer than one. *)
Definition rotate_list {A} (by_ : nat) (l : list A) : list A :=
  if (1 <? Z.of_nat (length l)) then
    let n := (by_ mod length l)%nat in drop n l ++ take n l
  else l.

Definition file_skipped (ctx : SelectionCtx) (allowed : option (gset FileId)) (f : FileEntry) : bool :=
  paused f || is_terminal f || negb (file_allowed allowed f)
  || ((0 <? propagation_delay_secs ctx) &&
      match date f with
      | Some d => now_unix ctx <? d + propagation_delay_secs ctx
      | None => false
      end).

Definition age_days (ctx : SelectionCtx) (f : FileEntry) : option Z :=
  (fun d => wrap32 (Z.max 0 (now_unix ctx - d) / 86400)) <$> date f.

(** What the loops carry: the attempts, the exhausted segments, the lease. *)
Definition Scan : Type := gmap (Z * Z * Z) SegmentAttempt * list SegRef * option SegRef.

(** One pending segment through the ladder. *)
Definition scan_ref (ctx : SelectionCtx) (server : ServerDef) (age : option Z) (r : SegRef) (sc : Scan) : Scan :=
  let '(atts, ex, found) := sc in
  match found with
  | Some _ => sc
  | None =>
      let att := default (attempt_new (article_retries ctx)) (atts !! ref_key r) in
      let '(att', c) := current_candidates (ladder ctx) att (is_blocked ctx) age in
      let atts := <[ref_key r := att']> atts in
      match c with
      | Servers ids => if bool_decide (server_id server ∈ ids) then (atts, ex, Some r) else (atts, ex, None)
      | WaitForBlocked => (atts, ex, None)
      | Exhausted => (atts, ex ++ [r], None)
      end
  end.

Definition scan_file (ctx : SelectionCtx) (server : ServerDef) (allowed : option (gset FileId)) (j : Job)
    (sc : Scan) (f : FileEntry) : Scan :=
  if file_skipped ctx allowed f then sc
  else
    fold_left (fun sc s =>
      if negb (is_pending (state s)) then sc
      else scan_ref ctx server (age_days ctx f)
             {| sr_job := job_id j; sr_file := file_id f; seg_number := number s |} sc)
      (segments f) sc.

Definition scan_job (ctx : SelectionCtx) (server : ServerDef) (sc : Scan) (j : Job) : Scan :=
  fold_left (scan_file ctx server (post_fetch_files ctx !! job_id j) j) (files j) sc.

(** [return] inside the loops: a found lease makes the rest of the scan idle. *)
Definition next_for_server (q : QueueState) (server : ServerDef) (ctx : SelectionCtx)
    : gmap (Z * Z * Z) SegmentAttempt * SelectionResult :=
  let order := rotate_list (rotate ctx)
    (active_order q (delegated ctx) (post_fetch_files ctx) (regular_downloads ctx) (soft_hold ctx) (now_unix ctx)) in
  let '(atts, ex, found) := fold_left (scan_job ctx server) order (attempts_map ctx, [], None) in
  (atts, {| lease := found; exhausted := ex |}).

(** ** The scan as one list *)

Definition Offer : Type := Job * FileEntry * Segment.

Definition offer_ref (o : Offer) : SegRef :=
  let '(j, f, s) := o in {| sr_job := job_id j; sr_file := file_id f; seg_number := number s |}.
Definition offer_age (ctx : SelectionCtx) (o : Offer) : option Z := age_days ctx (snd (fst o)).

Definition file_offers (ctx : SelectionCtx) (j : Job) (f : FileEntry) : list Offer :=
  if file_skipped ctx (post_fetch_files ctx !! job_id j) f then []
  else map (fun s => (j, f, s)) (List.filter (fun s => is_pending (state s)) (segments f)).

Definition offers (ctx : SelectionCtx) (order : list Job) : list Offer :=
  concat (map (fun j => concat (map (file_offers ctx j) (files j))) order).

Definition scan_offer (ctx : SelectionCtx) (server : ServerDef) (sc : Scan) (o : Offer) : Scan :=
  scan_ref ctx server (offer_age ctx o) (offer_ref o) sc.

Lemma fold_left_concat {A B} (f : A -> B -> A) (ls : list (list B)) a :
  fold_left f (concat ls) a = fold_left (fun a l => fold_left f l a) ls a.
Proof. revert a. induction ls as [|l ls IH]; intros a; simpl; [done|]. by rewrite fold_left_app, IH. Qed.

Lemma fold_left_map {A B C} (f : A -> B -> A) (g : C -> B) (l : list C) a :
  fold_left f (map g l) a = fold_left (fun a x => f a (g x)) l a.
Proof. revert a. induction l as [|x l IH]; intros a; simpl; [done|]. apply IH. Qed.

Lemma fold_left_ext {A B} (f g : A -> B -> A) (l : list B) a :
  (forall a x, f a x = g a x) -> fold_left f l a = fold_left g l a.
Proof. intros He. revert a. induction l as [|x l IH]; intros a; simpl; [done|]. by rewrite He, IH. Qed.

Lemma fold_left_filter {A B} (f : A -> B -> A) (p : B -> bool) (l : list B) a :
  fold_left (fun a x => if negb (p x) then a else f a x) l a = fold_left f (List.filter p l) a.
Proof. revert a. induction l as [|x l IH]; intros a; simpl; [done|]. rewrite IH. by destruct (p x). Qed.

Lemma scan_order ctx server order sc :
  fold_left (scan_job ctx server) order sc = fold_left (scan_offer ctx server) (offers ctx order) sc.
Proof.
  unfold offers. rewrite fold_left_concat, fold_left_map. apply fold_left_ext. intros sc1 j.
  unfold scan_job. rewrite fold_left_concat, fold_left_map. apply fold_left_ext. intros sc2 f.
  unfold scan_file, file_offers. case_if; [done|].
  rewrite fold_left_map, <- fold_left_filter. done.
Qed.

(** ** What the scan does *)

Definition initial_attempt (ctx : SelectionCtx) (r : SegRef) : SegmentAttempt :=
  default (attempt_new (article_retries ctx)) (attempts_map ctx !! ref_key r).

(** The same article history: the scan moves tiers, nothing else. *)
Definition same_history (a b : SegmentAttempt) : Prop := exists t, a = with_tier t b.

Definition histories (ctx : SelectionCtx) (atts : gmap (Z * Z * Z) SegmentAttempt) : Prop :=
  forall r, same_history (default (attempt_new (article_retries ctx)) (atts !! ref_key r)) (initial_attempt ctx r).

Lemma same_history_refl a : same_history a a.
Proof. exists (att_tier a). by destruct a. Qed.

Lemma same_history_trans a b c : same_history a b -> same_history b c -> same_history a c.
Proof. intros [t ->] [t' ->]. by exists t. Qed.

(** The ladder offers the segment of [o] to [server] / does not. *)
Definition offered (ctx : SelectionCtx) (server : ServerDef) (o : Offer) : Prop :=
  exists att att' ids, same_history att (initial_attempt ctx (offer_ref o)) /\
    current_candidates (ladder ctx) att (is_blocked ctx) (offer_age ctx o) = (att', Servers ids) /\
    server_id server ∈ ids.

Definition not_offered (ctx : SelectionCtx) (server : ServerDef) (o : Offer) : Prop :=
  exists att att' c, same_history att (initial_attempt ctx (offer_ref o)) /\
    current_candidates (ladder ctx) att (is_blocked ctx) (offer_age ctx o) = (att', c) /\
    match c with Servers ids => server_id server ∉ ids | _ => True end.

Definition given_up (ctx : SelectionCtx) (o : Offer) : Prop :=
  exists att att', same_history att (initial_attempt ctx (offer_ref o)) /\
    current_candidates (ladder ctx) att (is_blocked ctx) (offer_age ctx o) = (att', Exhausted).

Definition scan_post (ctx : SelectionCtx) (server : ServerDef) (seen : list Offer) (sc : Scan) : Prop :=
  let '(atts, ex, found) := sc in
  histories ctx atts /\
  (forall r, r ∈ ex -> exists o, o ∈ seen /\ offer_ref o = r /\ given_up ctx o) /\
  match found with
  | Some r => exists o, o ∈ seen /\ offer_ref o = r /\ offered ctx server o
  | None => forall o, o ∈ seen -> not_offered ctx server o
  end.

Lemma histories_insert ctx atts r att' : histories ctx atts ->
  same_history att' (initial_attempt ctx r) -> histories ctx (<[ref_key r := att']> atts).
Proof.
  intros Hh Hs r'. destruct (decide (ref_key r' = ref_key r)) as [He|Hne].
  - rewrite He, lookup_insert_eq. simpl.
    assert (initial_attempt ctx r' = initial_attempt ctx r) as ->; [|done].
    unfold initial_attempt. by rewrite He.
  - rewrite lookup_insert_ne by done. apply Hh.
Qed.

Lemma scan_offer_post ss ctx server seen o sc : ladder ctx = ladder_new ss ->
  scan_post ctx server seen sc -> scan_post ctx server (seen ++ [o]) (scan_offer ctx server sc o).
Proof.
  intros Hl. destruct sc as [[atts ex] found]. intros (Hh & Hex & Hf).
  assert (Hmono : forall r, r ∈ ex -> exists o', o' ∈ seen ++ [o] /\ offer_ref o' = r /\ given_up ctx o').
  { intros r Hr. destruct (Hex r Hr) as (o' & ? & ? & ?). exists o'. set_solver. }
  unfold scan_offer, scan_ref. destruct found as [r|].
  { split_and!; [done..|]. destruct Hf as (o' & ? & ? & ?). exists o'. set_solver. }
  set (att := default _ _). pose proof (Hh (offer_ref o)) as Hatt. fold att in Hatt.
  pose proof (current_candidates_spec_aux ss att (is_blocked ctx) (offer_age ctx o)) as Hc.
  rewrite <- Hl in Hc.
  destruct (current_candidates (ladder ctx) att (is_blocked ctx) (offer_age ctx o)) as [att' c] eqn:Hcc.
  destruct Hc as (Ht & _).
  assert (Hh' : histories ctx (<[ref_key (offer_ref o) := att']> atts)).
  { apply histories_insert; [done|]. eapply same_history_trans; [|exact Hatt]. by exists (att_tier att'). }
  assert (Hno : match c with Servers ids => server_id server ∉ ids | _ => True end ->
    forall o', o' ∈ seen ++ [o] -> not_offered ctx server o').
  { intros Hn o' [Ho'| ->%list_elem_of_singleton]%elem_of_app; [by apply Hf|].
    by exists att, att', c. }
  destruct c as [ids| |].
  - case_if; bool_hyps.
    + split_and!; [done..|]. exists o. split; [set_solver|]. split; [done|]. by exists att, att', ids.
    + split_and!; [done..|]. by apply Hno.
  - split_and!; [done..|]. by apply Hno.
  - split_and!; [done| |by apply Hno].
    intros r [Hr| ->%list_elem_of_singleton]%elem_of_app; [by apply Hmono|].
    exists o. split; [set_solver|]. split; [done|]. by exists att, att'.
Qed.

Lemma scan_offers_post ss ctx server l : forall seen sc, ladder ctx = ladder_new ss ->
  scan_post ctx server seen sc ->
  scan_post ctx server (seen ++ l) (fold_left (scan_offer ctx server) l sc).
Proof.
  induction l as [|o l IH]; intros seen sc Hl Hs; simpl; [by rewrite app_nil_r|].
  rewrite cons_middle, app_assoc. apply IH; [done|]. by eapply scan_offer_post.
Qed.

(** The jobs and files an offer comes from. *)
Lemma elem_of_offers ctx order j f s : (j, f, s) ∈ offers ctx order <->
  j ∈ order /\ f ∈ files j /\ s ∈ segments f /\ is_pending (state s) = true /\
  file_skipped ctx (post_fetch_files ctx !! job_id j) f = false.
Proof.
  unfold offers. split.
  - intros Hin%list_elem_of_In. apply in_concat in Hin as (x & Hx & Hin).
    apply in_map_iff in Hx as (j' & <- & Hj).
    apply in_concat in Hin as (y & Hy & Hin).
    apply in_map_iff in Hy as (f' & <- & Hf'). unfold file_offers in Hin.
    destruct (file_skipped _ _ f') eqn:Hsk; [done|].
    apply in_map_iff in Hin as (s' & [= <- <- <-] & Hs'). apply filter_In in Hs' as [Hs' Hp].
    split_and!; try done; by apply list_elem_of_In.
  - intros (Hj & Hf & Hs & Hp & Hsk). apply list_elem_of_In, in_concat.
    exists (concat (map (file_offers ctx j) (files j))). split.
    + apply in_map_iff. exists j. split; [done|]. by apply list_elem_of_In.
    + apply in_concat. exists (file_offers ctx j f). split.
      * apply in_map_iff. exists f. split; [done|]. by apply list_elem_of_In.
      * unfold file_offers. rewrite Hsk. apply in_map_iff. exists s. split; [done|].
        apply filter_In. split; [by apply list_elem_of_In|done].
Qed.

Lemma elem_of_rotate {A} n (l : list A) x : x ∈ rotate_list n l <-> x ∈ l.
Proof.
  unfold rotate_list. case_if; [|done]. 
  assert (Hl : x ∈ l <-> x ∈ take (n mod length l) l ++ drop (n mod length l) l) by (by rewrite take_drop).
  rewrite Hl, !elem_of_app. tauto.
Qed.

Lemma elem_of_active q deleg pff regular soft now j :
  j ∈ active_order q deleg pff regular soft now -> j ∈ candidates q deleg pff regular soft now.
Proof.
  unfold active_order. intros Hj. apply (elem_of_sort_by_key (scheduling_priority now)).
  rewrite <- (take_drop (Z.to_nat (clamp_active_downloads (max_active_downloads q)))).
  apply elem_of_app. by left.
Qed.

Lemma elem_of_candidates q deleg pff regular soft now j :
  j ∈ candidates q deleg pff regular soft now ->
  j ∈ jobs q /\ job_schedulable j (download_paused q || soft) = true /\
  (job_id j ∈ deleg -> is_Some (pff !! job_id j)) /\
  has_backend_work j now (pff !! job_id j) = true.
Proof.
  unfold candidates. rewrite elem_of_filter_bool. intros [Hj Hb]. bool_hyps. split_and!; try done.
  intros Hd. rewrite bool_decide_true in H by done. simpl in H. by bool_hyps.
Qed.

(** A server the ladder offers can have the article. *)
Lemma candidates_server ss att blk age att' ids id :
  current_candidates (ladder_new ss) att blk age = (att', Servers ids) -> id ∈ ids ->
  exists s, s ∈ ss /\ server_id s = id /\ active s = true /\
    is_group_failed (ladder_new ss) att s = false /\ retention_exceeded s age = false /\ blk id = false.
Proof.
  intros Hc Hin. pose proof (current_candidates_spec_aux ss att blk age) as Hs. rewrite Hc in Hs.
  destruct Hs as (Heq & _ & _ & -> & _).
  apply list_elem_of_fmap in Hin as (s & -> & (Hel & Hb)%elem_of_filter_bool).
  rewrite Heq in Hel. apply eligible_spec in Hel as (H1 & H2 & _ & H4 & H5).
  exists s. split_and!; try done. by apply negb_true_iff in Hb.
Qed.

Lemma group_failed_history ss a b s : same_history a b ->
  is_group_failed (ladder_new ss) a s = is_group_failed (ladder_new ss) b s.
Proof. by intros [t ->]. Qed.

(** Only pending segments are reported exhausted. *)
Lemma exhausted_pending q server ss ctx atts res r : ladder ctx = ladder_new ss ->
  next_for_server q server ctx = (atts, res) -> r ∈ exhausted res ->
  exists j f s, r = {| sr_job := job_id j; sr_file := file_id f; seg_number := number s |} /\
    j ∈ jobs q /\ f ∈ files j /\ s ∈ segments f /\ state s = Pending.
Proof.
  intros Hl Hn Hr. unfold next_for_server in Hn. rewrite scan_order in Hn.
  set (order := rotate_list _ _) in Hn.
  assert (Hinit : scan_post ctx server [] (attempts_map ctx, [], None)).
  { split_and!; [intros r'; apply same_history_refl|by intros r' ?%elem_of_nil|by intros o ?%elem_of_nil]. }
  pose proof (scan_offers_post ss ctx server (offers ctx order) [] _ Hl Hinit) as Hpost. simpl in Hpost.
  destruct (fold_left _ _ _) as [[atts1 ex1] found]. injection Hn as <- <-.
  destruct Hpost as (_ & Hex & _). destruct (Hex r Hr) as ([[j f] s] & Ho & <- & _).
  apply elem_of_offers in Ho as (Hj & Hf & Hs & Hp & _).
  unfold order in Hj. apply elem_of_rotate in Hj.
  pose proof (elem_of_candidates _ _ _ _ _ _ _ (elem_of_active _ _ _ _ _ _ _ Hj)) as (Hjq & _).
  exists j, f, s. split_and!; try done. by destruct (state s).
Qed.

(** What a granted lease is; [lease_sound] states it. *)
Lemma lease_sound_aux q server ss ctx atts r ex : ladder ctx = ladder_new ss ->
  next_for_server q server ctx = (atts, {| lease := Some r; exhausted := ex |}) ->
  exists j f s srv,
    r = {| sr_job := job_id j; sr_file := file_id f; seg_number := number s |} /\
    j ∈ jobs q /\ f ∈ files j /\ s ∈ segments f /\ state s = Pending /\
    file_skipped ctx (post_fetch_files ctx !! job_id j) f = false /\
    (download_paused q || soft_hold ctx = true -> force_priority j = true) /\
    job_id j ∈ active_set_with_recovery q (delegated ctx) (post_fetch_files ctx)
                 (regular_downloads ctx) (soft_hold ctx) (now_unix ctx) /\
    srv ∈ ss /\ server_id srv = server_id server /\ active srv = true /\
    is_group_failed (ladder_new ss) (initial_attempt ctx r) srv = false /\
    retention_exceeded srv (age_days ctx f) = false /\ is_blocked ctx (server_id server) = false.
Proof.
  intros Hl Hn. unfold next_for_server in Hn. rewrite scan_order in Hn.
  set (order := rotate_list _ _) in Hn.
  assert (Hinit : scan_post ctx server [] (attempts_map ctx, [], None)).
  { split_and!; [intros r'; apply same_history_refl|by intros r' ?%elem_of_nil|by intros o ?%elem_of_nil]. }
  pose proof (scan_offers_post ss ctx server (offers ctx order) [] _ Hl Hinit) as Hpost. simpl in Hpost.
  destruct (fold_left _ _ _) as [[atts1 ex1] found]. injection Hn as <- -> <-.
  destruct Hpost as (_ & _ & [[j f] s] & Ho & Hr & att & att' & ids & Hh & Hc & Hid).
  apply elem_of_offers in Ho as (Hj & Hf & Hs & Hp & Hsk).
  unfold order in Hj. apply elem_of_rotate in Hj.
  pose proof (elem_of_candidates _ _ _ _ _ _ _ (elem_of_active _ _ _ _ _ _ _ Hj)) as (Hjq & Hsch & _ & _).
  rewrite Hl in Hc.
  destruct (candidates_server _ _ _ _ _ _ _ Hc Hid) as (srv & S1 & S2 & S3 & S4 & S5 & S6).
  rewrite (group_failed_history _ _ _ _ Hh), Hr in S4.
  exists j, f, s, srv. split_and!; try done.
  - by destruct (state s).
  - intros Hpause. unfold job_schedulable in Hsch. rewrite Hpause in Hsch.
    destruct (status j); try done; simpl in Hsch; by rewrite orb_false_r in Hsch.
  - by apply list_elem_of_fmap_2.
Qed.

(** ** The ladder's own answer for each segment

    With the references of the queue distinct, each segment meets the ladder with the
    attempts it came with. *)

Definition file_refs (j : Job) (f : FileEntry) : list SegRef :=
  map (fun s => {| sr_job := job_id j; sr_file := file_id f; seg_number := number s |}) (segments f).
Definition segment_refs (q : QueueState) : list SegRef :=
  concat (map (fun j => concat (map (file_refs j) (files j))) (jobs q)).

Definition offered_now (ctx : SelectionCtx) (server : ServerDef) (o : Offer) : Prop := exists att' ids,
  current_candidates (ladder ctx) (initial_attempt ctx (offer_ref o)) (is_blocked ctx) (offer_age ctx o) = (att', Servers ids) /\
  server_id server ∈ ids.
Definition withheld_now (ctx : SelectionCtx) (server : ServerDef) (o : Offer) : Prop := exists att' c,
  current_candidates (ladder ctx) (initial_attempt ctx (offer_ref o)) (is_blocked ctx) (offer_age ctx o) = (att', c) /\
  match c with Servers ids => server_id server ∉ ids | _ => True end.
Definition given_up_now (ctx : SelectionCtx) (o : Offer) : Prop := exists att',
  current_candidates (ladder ctx) (initial_attempt ctx (offer_ref o)) (is_blocked ctx) (offer_age ctx o) = (att', Exhausted).

Definition scan_exact (ctx : SelectionCtx) (server : ServerDef) (seen : list Offer) (sc : Scan) : Prop :=
  let '(atts, ex, found) := sc in
  (forall r, r ∉ map offer_ref seen -> atts !! ref_key r = attempts_map ctx !! ref_key r) /\
  (forall r, r ∈ ex -> exists o, o ∈ seen /\ offer_ref o = r /\ given_up_now ctx o) /\
  match found with
  | Some r => exists o, o ∈ seen /\ offer_ref o = r /\ offered_now ctx server o
  | None => forall o, o ∈ seen -> withheld_now ctx server o
  end.

Lemma ref_key_inj r r' : ref_key r = ref_key r' -> r = r'.
Proof. destruct r, r'. unfold ref_key. simpl. by intros [= -> -> ->]. Qed.

Lemma scan_exact_step ctx server seen o sc : offer_ref o ∉ map offer_ref seen ->
  scan_exact ctx server seen sc -> scan_exact ctx server (seen ++ [o]) (scan_offer ctx server sc o).
Proof.
  destruct sc as [[atts ex] found]. intros Hnew (Ha & Hex & Hf).
  assert (Hmono : forall r, r ∈ ex -> exists o', o' ∈ seen ++ [o] /\ offer_ref o' = r /\ given_up_now ctx o').
  { intros r Hr. destruct (Hex r Hr) as (o' & ? & ? & ?). exists o'. set_solver. }
  unfold scan_offer, scan_ref. destruct found as [r|].
  { split_and!; [|done|destruct Hf as (o' & ? & ? & ?); exists o'; set_solver].
    intros r' Hr'. apply Ha. rewrite map_app in Hr'. set_solver. }
  rewrite (Ha _ Hnew). fold (initial_attempt ctx (offer_ref o)).
  destruct (current_candidates (ladder ctx) (initial_attempt ctx (offer_ref o)) _ _) as [att' c] eqn:Hc.
  assert (Ha' : forall r, r ∉ map offer_ref (seen ++ [o]) ->
    <[ref_key (offer_ref o) := att']> atts !! ref_key r = attempts_map ctx !! ref_key r).
  { intros r Hr. rewrite map_app in Hr. rewrite lookup_insert_ne by (intros E%ref_key_inj; set_solver). apply Ha. set_solver. }
  assert (Hno : match c with Servers ids => server_id server ∉ ids | _ => True end ->
    forall o', o' ∈ seen ++ [o] -> withheld_now ctx server o').
  { intros Hn o' [Ho'| ->%list_elem_of_singleton]%elem_of_app; [by apply Hf|]. by exists att', c. }
  destruct c as [ids| |].
  - case_if; bool_hyps; (split_and!; [done..|]); [|by apply Hno].
    exists o. split; [set_solver|]. split; [done|]. by exists att', ids.
  - split_and!; [done..|]. by apply Hno.
  - split_and!; [done| |by apply Hno]. intros r [Hr| ->%list_elem_of_singleton]%elem_of_app; [by apply Hmono|].
    exists o. split; [set_solver|]. split; [done|]. by exists att'.
Qed.

Lemma scan_exact_all ctx server l : forall seen sc, NoDup (map offer_ref (seen ++ l)) ->
  scan_exact ctx server seen sc -> scan_exact ctx server (seen ++ l) (fold_left (scan_offer ctx server) l sc).
Proof.
  induction l as [|o l IH]; intros seen sc Hd Hs; simpl; [by rewrite app_nil_r|].
  rewrite cons_middle, app_assoc in Hd |- *. apply IH; [done|]. apply scan_exact_step; [|done].
  rewrite !map_app in Hd. apply NoDup_app in Hd as [Hd _]. apply NoDup_app in Hd as (_ & Hd & _). intros Hin. apply (Hd _ Hin).
  set_solver.
Qed.

Lemma concat_submseteq {A B} (f g : A -> list B) l k : l ⊆+ k -> (forall x, f x ⊆+ g x) -> concat (map f l) ⊆+ concat (map g k).
Proof.
  intros [t Ht]%submseteq_Permutation Hfg. transitivity (concat (map g l)).
  - clear Ht. induction l as [|x l IH]; [done|]. cbn [map concat]. by apply submseteq_app.
  - assert (E : concat (map g k) ≡ₚ concat (map g (l ++ t))).
    { rewrite Ht. done. }
    rewrite E, map_app, concat_app. apply submseteq_inserts_r. done.
Qed.

Lemma filter_sublist {A} (p : A -> bool) l : List.filter p l `sublist_of` l.
Proof. induction l as [|x l IH]; [done|]. simpl. destruct (p x); by constructor. Qed.

Lemma active_submseteq q deleg pff regular soft now n :
  rotate_list n (active_order q deleg pff regular soft now) ⊆+ jobs q.
Proof.
  transitivity (active_order q deleg pff regular soft now).
  - unfold rotate_list. case_if; [|done]. set (l := active_order _ _ _ _ _ _). set (k := (n mod length l)%nat).
    assert (E : drop k l ++ take k l ≡ₚ l) by (by rewrite Permutation_app_comm, take_drop). by rewrite E.
  - unfold active_order. etransitivity; [apply sublist_submseteq, sublist_take|].
    rewrite sort_by_key_perm. apply sublist_submseteq, filter_sublist.
Qed.

Lemma offers_nodup q ctx n : NoDup (segment_refs q) ->
  NoDup (map offer_ref (offers ctx (rotate_list n (active_order q (delegated ctx) (post_fetch_files ctx)
    (regular_downloads ctx) (soft_hold ctx) (now_unix ctx))))).
Proof.
  intros Hd. assert (H : map offer_ref (offers ctx (rotate_list n (active_order q (delegated ctx) (post_fetch_files ctx)
    (regular_downloads ctx) (soft_hold ctx) (now_unix ctx)))) ⊆+ segment_refs q).
  { unfold offers, segment_refs. rewrite concat_map, map_map. apply concat_submseteq; [apply active_submseteq|].
    intros j. rewrite concat_map, map_map. apply concat_submseteq; [done|]. intros f. unfold file_offers, file_refs.
    case_if; [apply submseteq_nil_l|]. rewrite map_map. apply sublist_submseteq, fmap_sublist, filter_sublist. }
  apply submseteq_Permutation in H as [t Ht]. rewrite Ht in Hd. by apply NoDup_app in Hd as [? _].
Qed.

(** *** What the ladder means by it *)

(** The segment [s] may be fetched now. *)
Record fetchable (q : QueueState) (ctx : SelectionCtx) (j : Job) (f : FileEntry) (s : Segment) : Prop := {
  ft_active : j ∈ active_order q (delegated ctx) (post_fetch_files ctx) (regular_downloads ctx) (soft_hold ctx) (now_unix ctx);
  ft_file : f ∈ files j;
  ft_segment : s ∈ segments f;
  ft_pending : state s = Pending;
  ft_allowed : file_skipped ctx (post_fetch_files ctx !! job_id j) f = false
}.

(** The server can have the article of [r], and no level below its own is to be tried
    first: from the level the article has reached, every level below offers nothing but
    blocked fill servers. *)
Record server_turn (ss : list ServerDef) (ctx : SelectionCtx) (age : option Z) (r : SegRef) (srv : ServerDef) : Prop := {
  st_known : srv ∈ ss;
  st_active : active srv = true;
  st_unblocked : is_blocked ctx (server_id srv) = false;
  st_not_failed : is_group_failed (ladder_new ss) (initial_attempt ctx r) srv = false;
  st_retained : retention_exceeded srv age = false;
  st_reached : att_tier (initial_attempt ctx r) <= tier srv;
  st_below : forall t, att_tier (initial_attempt ctx r) <= t < tier srv ->
    skippable (ladder_new ss) (initial_attempt ctx r) (is_blocked ctx) age t
}.

Lemma elem_of_usable l att blk age srv : srv ∈ servers l -> active srv = true -> tier srv = att_tier att ->
  is_group_failed l att srv = false -> retention_exceeded srv age = false -> blk (server_id srv) = false ->
  srv ∈ eligible l att age /\ server_id srv ∈ usable l att blk age.
Proof.
  intros H1 H2 H3 H4 H5 H6. assert (He : srv ∈ eligible l att age) by (by apply eligible_spec). split; [done|].
  apply list_elem_of_fmap. exists srv. split; [done|]. apply elem_of_filter_bool. by rewrite H6.
Qed.

Lemma skippable_blocked ss att blk age srv : srv ∈ ss -> active srv = true -> is_group_failed (ladder_new ss) att srv = false ->
  retention_exceeded srv age = false -> skippable (ladder_new ss) att blk age (tier srv) -> blk (server_id srv) = true.
Proof. intros H1 H2 H3 H4 Hs. apply (Hs srv). by apply eligible_spec. Qed.

Lemma usable_not_skippable ss att blk age att' ids : att' = with_tier (att_tier att') att ->
  ids = usable (ladder_new ss) att' blk age -> ids <> [] -> ~ skippable (ladder_new ss) att blk age (att_tier att').
Proof.
  intros Ea -> Hn Hs. destruct (usable (ladder_new ss) att' blk age) as [|id ids] eqn:E; [done|].
  assert (Hin : id ∈ usable (ladder_new ss) att' blk age) by (rewrite E; by left).
  apply list_elem_of_fmap in Hin as (s & -> & [He Hb]%elem_of_filter_bool). rewrite Ea in He.
  destruct (Hs s He) as [Hbl _]. by rewrite Hbl in Hb.
Qed.

Lemma offered_turn ss ctx server o : ladder ctx = ladder_new ss -> offered_now ctx server o ->
  exists srv, server_id srv = server_id server /\ server_turn ss ctx (offer_age ctx o) (offer_ref o) srv.
Proof.
  intros Hl (att' & ids & Hc & Hid). rewrite Hl in Hc.
  pose proof (current_candidates_spec_aux ss (initial_attempt ctx (offer_ref o)) (is_blocked ctx) (offer_age ctx o)) as Hs.
  rewrite Hc in Hs. destruct Hs as (Ea & Ht & Hbelow & -> & _).
  apply list_elem_of_fmap in Hid as (srv & E & [He Hb]%elem_of_filter_bool). exists srv. split; [done|].
  rewrite Ea in He. apply eligible_spec in He as (H1 & H2 & H3 & H4 & H5). cbn in H3. rewrite <- H3 in *.
  constructor; try done. by apply negb_true_iff.
Qed.

Lemma withheld_turn ss ctx server o srv : ladder ctx = ladder_new ss -> withheld_now ctx server o ->
  server_id srv = server_id server -> ~ server_turn ss ctx (offer_age ctx o) (offer_ref o) srv.
Proof.
  intros Hl (att' & c & Hc & Hno) Hid []. rewrite Hl in Hc. set (att := initial_attempt ctx (offer_ref o)) in *.
  pose proof (current_candidates_spec_aux ss att (is_blocked ctx) (offer_age ctx o)) as Hs.
  rewrite Hc in Hs. destruct Hs as (Ea & Ht & Hbelow & Hend).
  assert (Hskip : ~ skippable (ladder_new ss) att (is_blocked ctx) (offer_age ctx o) (tier srv)).
  { intros Hk. apply (skippable_blocked ss att) in Hk; try done. congruence. }
  assert (Hus : att_tier att' = tier srv -> srv ∈ eligible (ladder_new ss) att' (offer_age ctx o) /\
      server_id srv ∈ usable (ladder_new ss) att' (is_blocked ctx) (offer_age ctx o)).
  { intros E. apply elem_of_usable; try done. by rewrite Ea. }
  destruct (Z.lt_trichotomy (att_tier att') (tier srv)) as [L|[E|G]]; [| |by destruct Hskip; apply Hbelow].
  - specialize (st_below0 (att_tier att') (conj Ht L)). destruct c as [ids| |].
    + destruct Hend as [Hi Hn]. by apply (usable_not_skippable ss att _ _ att' ids Ea Hi Hn).
    + destruct Hend as [_ (s & Hs & Hf)]. rewrite Ea in Hs. destruct (st_below0 s Hs) as [_ Hall].
      by rewrite (Hall s Hs) in Hf.
    + by apply Hskip, Hend.
  - destruct (Hus E) as [_ Hu]. destruct c as [ids| |].
    + destruct Hend as [-> _]. apply Hno. by rewrite <- Hid.
    + destruct Hend as [Hn _]. rewrite Hn in Hu. by apply elem_of_nil in Hu.
    + by apply Hskip, Hend.
Qed.

(** C27: a lease is what the queue and the ladder say, no more and no less.  With the
    segments' references distinct, a connection of [server] is given a pending segment
    of a permitted file of a job of the active set (with the queue paused or on hold, a
    job of force priority) for which it is the server's turn: it is configured, active,
    unblocked, within retention, has not failed the article itself or through its group,
    and no lower level is to be tried first.  It is turned away only when it is this
    server's turn for no such segment; and a segment reported exhausted is such a
    segment for which every level left offers nothing but blocked fill servers. *)
Theorem lease_sound q server ss ctx atts res : ladder ctx = ladder_new ss -> NoDup (segment_refs q) ->
  next_for_server q server ctx = (atts, res) ->
  match lease res with
  | Some r => exists j f s srv,
      r = {| sr_job := job_id j; sr_file := file_id f; seg_number := number s |} /\ j ∈ jobs q /\
      fetchable q ctx j f s /\ (download_paused q || soft_hold ctx = true -> force_priority j = true) /\
      server_id srv = server_id server /\ server_turn ss ctx (age_days ctx f) r srv
  | None => forall j f s srv, fetchable q ctx j f s -> server_id srv = server_id server ->
      ~ server_turn ss ctx (age_days ctx f) {| sr_job := job_id j; sr_file := file_id f; seg_number := number s |} srv
  end /\
  forall r, r ∈ exhausted res -> exists j f s,
    r = {| sr_job := job_id j; sr_file := file_id f; seg_number := number s |} /\ fetchable q ctx j f s /\
    forall t, att_tier (initial_attempt ctx r) <= t ->
      skippable (ladder_new ss) (initial_attempt ctx r) (is_blocked ctx) (age_days ctx f) t.
Proof.
  intros Hl Hd Hn. unfold next_for_server in Hn. rewrite scan_order in Hn. pose proof (offers_nodup q ctx (rotate ctx) Hd) as Hnd.
  set (order := rotate_list _ _) in *.
  assert (Hinit : scan_exact ctx server [] (attempts_map ctx, [], None)).
  { split_and!; [done|by intros r' ?%elem_of_nil|by intros o ?%elem_of_nil]. }
  pose proof (scan_exact_all ctx server (offers ctx order) [] _ Hnd Hinit) as Hpost. simpl in Hpost.
  destruct (fold_left _ _ _) as [[atts1 ex] found]. injection Hn as <- <-. cbn [lease exhausted].
  assert (Hft : forall j f s, (j, f, s) ∈ offers ctx order <-> fetchable q ctx j f s).
  { intros j f s. rewrite elem_of_offers. unfold order. rewrite elem_of_rotate. split.
    - intros (H1 & H2 & H3 & H4 & H5). constructor; try done. by destruct (state s).
    - intros []. split_and!; try done. by rewrite ft_pending0. }
  destruct Hpost as (_ & Hex & Hf). split.
  - destruct found as [r|].
    + destruct Hf as ([[j f] s] & Ho & <- & Hoff). apply Hft in Ho. pose proof (ft_active _ _ _ _ _ Ho) as Hj.
      apply elem_of_active, elem_of_candidates in Hj as (Hjq & Hsch & _ & _).
      destruct (offered_turn ss ctx server _ Hl Hoff) as (srv & Hid & Hturn). exists j, f, s, srv. split_and!; try done.
      intros Hpause. unfold job_schedulable in Hsch. rewrite Hpause in Hsch.
      destruct (status j); try done; simpl in Hsch; by rewrite orb_false_r in Hsch.
    + intros j f s srv Hfe Hid. by apply (withheld_turn ss ctx server (j, f, s)), Hid; [|apply Hf, Hft].
  - intros r Hr. destruct (Hex r Hr) as ([[j f] s] & Ho & <- & att' & Hc). exists j, f, s. split; [done|]. split; [by apply Hft|].
    pose proof (current_candidates_spec_aux ss (initial_attempt ctx (offer_ref (j, f, s))) (is_blocked ctx) (age_days ctx f)) as Hs.
    rewrite <- Hl in Hs. cbn [offer_age fst snd] in Hc. unfold offer_age in Hc. cbn [fst snd] in Hc. rewrite Hc in Hs.
    destruct Hs as (_ & _ & _ & Hs). intros t Ht. rewrite <- Hl. by apply Hs.
Qed.

(** a connection is turned away only when there is nothing for it.  When no
    lease is granted, for every pending segment of every file that may be
    fetched, of every job in the active set, the ladder does not offer this
    server at this moment; and every segment reported exhausted is such a
    segment, with no server left. *)
Theorem no_lease_complete q server ss ctx atts ex : ladder ctx = ladder_new ss ->
  next_for_server q server ctx = (atts, {| lease := None; exhausted := ex |}) ->
  (forall j f s, j ∈ active_order q (delegated ctx) (post_fetch_files ctx)
                     (regular_downloads ctx) (soft_hold ctx) (now_unix ctx) ->
     f ∈ files j -> s ∈ segments f -> state s = Pending ->
     file_skipped ctx (post_fetch_files ctx !! job_id j) f = false ->
     not_offered ctx server (j, f, s)) /\
  (forall r, r ∈ ex -> exists o, offer_ref o = r /\ given_up ctx o).
Proof.
  intros Hl Hn. unfold next_for_server in Hn. rewrite scan_order in Hn.
  set (order := rotate_list _ _) in Hn.
  assert (Hinit : scan_post ctx server [] (attempts_map ctx, [], None)).
  { split_and!; [intros r'; apply same_history_refl|by intros r' ?%elem_of_nil|by intros o ?%elem_of_nil]. }
  pose proof (scan_offers_post ss ctx server (offers ctx order) [] _ Hl Hinit) as Hpost. simpl in Hpost.
  destruct (fold_left _ _ _) as [[atts1 ex1] found]. injection Hn as <- -> <-.
  destruct Hpost as (_ & Hex & Hno). split.
  - intros j f s Hj Hf Hs Hp Hsk. apply Hno, elem_of_offers. split_and!; try done.
    + unfold order. by apply elem_of_rotate.
    + by rewrite Hp.
  - intros r Hr. destruct (Hex r Hr) as (o & _ & ? & ?). by exists o.
Qed.

(** ** Who is in the active set *)

Lemma scheduling_key_lex now a b :
  - 2 ^ 31 <= priority a < 2 ^ 31 -> - 2 ^ 31 <= priority b < 2 ^ 31 ->
  (scheduling_priority now a <= scheduling_priority now b <->
   (stalled_retry a now = false /\ stalled_retry b now = true) \/
   (stalled_retry a now = stalled_retry b now /\ priority b <= priority a)).
Proof.
  unfold scheduling_priority. intros Ha Hb.
  destruct (stalled_retry a now), (stalled_retry b now); split; intros;
    try (right; split; [done|lia]); try (left; done); try lia;
    destruct H as [[? ?]|[? ?]]; done || lia.
Qed.

Lemma sorted_key_app {A} (key : A -> Z) (a b : list A) x y :
  sorted_key key (a ++ b) -> x ∈ a -> y ∈ b -> key x <= key y.
Proof.
  unfold sorted_key. intros Hs Hx Hy. induction a as [|z a IH]; [by apply elem_of_nil in Hx|].
  inversion Hs as [|? ? Hs' Hz]; subst. apply elem_of_cons in Hx as [->|Hx]; [|by apply IH].
  rewrite Forall_forall in Hz. apply Hz. set_solver.
Qed.

(** priority decides who downloads.  The active set holds at most the
    configured number of jobs (between 1 and 100); a job that could download
    but is left out means the set is full, and no job inside comes after it in
    scheduling order (force and higher priorities first, stalled retries last);
    the jobs inside are in that order. *)
Theorem active_set_top q deleg pff regular soft now :
  let order := active_order q deleg pff regular soft now in
  let cap := clamp_active_downloads (max_active_downloads q) in
  Z.of_nat (length order) <= cap /\ sorted_key (scheduling_priority now) order /\
  forall b, b ∈ candidates q deleg pff regular soft now -> b ∉ order ->
    Z.of_nat (length order) = cap /\
    forall a, a ∈ order -> scheduling_priority now a <= scheduling_priority now b.
Proof.
  cbv zeta. unfold active_order. set (cs := candidates q deleg pff regular soft now).
  set (cap := clamp_active_downloads (max_active_downloads q)).
  assert (Hcap : 1 <= cap <= 100) by (apply clamp_bounds; done).
  pose proof (sort_by_key_sorted (scheduling_priority now) cs) as Hs.
  set (l := sort_by_key (scheduling_priority now) cs) in *.
  split_and!.
  - rewrite length_take. lia.
  - rewrite <- (take_drop (Z.to_nat cap) l) in Hs. unfold sorted_key in *.
    revert Hs. generalize (take (Z.to_nat cap) l) (drop (Z.to_nat cap) l). intros a b.
    induction a as [|x a IH]; intros Hs; [constructor|]. inversion Hs as [|? ? Hs' Hx]; subst.
    apply Forall_app in Hx as [Hx _]. constructor; [by apply IH|done].
  - intros b Hb Hnb.
    assert (Hbl : b ∈ drop (Z.to_nat cap) l).
    { assert (Hb' : b ∈ l) by (by apply elem_of_sort_by_key).
      rewrite <- (take_drop (Z.to_nat cap) l) in Hb'. by apply elem_of_app in Hb' as [?|?]. }
    split.
    + assert (length (drop (Z.to_nat cap) l) <> 0%nat) by (intros H0; destruct (drop _ l); [by apply elem_of_nil in Hbl|done]).
      rewrite length_drop in H. rewrite length_take. lia.
    + intros a Ha. eapply sorted_key_app; [rewrite (take_drop (Z.to_nat cap)); exact Hs|done|done].
Qed.

(** the speed limit is shared without loss.  With both protocols active the
    two shares add up to the operator's ceiling and each side keeps at least
    the smaller of 1 MiB/s and half the ceiling; with one active it gets all. *)
Theorem budget_shares limit usenet torrent ur tr : 0 <= limit -> 0 <= ur -> 0 <= tr ->
  match allocate_download_budget (Some limit) usenet torrent ur tr with
  | (Some u, Some t) =>
      usenet = true /\ torrent = true /\ u + t = limit /\
      Z.min SHARED_DOWNLOAD_FLOOR_BPS (limit / 2) <= u /\
      Z.min SHARED_DOWNLOAD_FLOOR_BPS (limit / 2) <= t
  | (Some u, None) => torrent = false /\ u = limit
  | (None, Some t) => usenet = false /\ torrent = true /\ t = limit
  | (None, None) => False
  end.
Proof.
  intros Hl Hu Ht. assert (Hh : 0 <= limit / 2) by (apply Z.div_pos; lia).
  pose proof (Z.div_mod limit 2 ltac:(lia)). pose proof (Z.mod_pos_bound limit 2 ltac:(lia)).
  unfold allocate_download_budget, sat_sub. generalize SHARED_DOWNLOAD_FLOOR_BPS. intros fl.
  destruct usenet, torrent; try done. repeat case_if; bool_hyps; split_and!; try done; lia.
Qed.

Lemma budget_shares_witness :
  match allocate_download_budget (Some 10000000) true true 100 9000000 with
  | (Some u, Some t) =>
      true = true /\ true = true /\ u + t = 10000000 /\
      Z.min SHARED_DOWNLOAD_FLOOR_BPS (10000000 / 2) <= u /\
      Z.min SHARED_DOWNLOAD_FLOOR_BPS (10000000 / 2) <= t
  | (Some u, None) => true = false /\ u = 10000000
  | (None, Some t) => true = false /\ true = true /\ t = 10000000
  | (None, None) => False
  end.
Proof. apply budget_shares; vm_compute; discriminate. Defined.

(** ** A concrete queue *)

Definition sample_server (id : Z) : ServerDef := {|
  server_id := id; server_name := []; host := []; port := 563; tls := TlsMode_Tls; username := None;
  password := None; active := true; tier := 0; group := 0; fill := false; max_connections := 8;
  pipeline_depth := 2; retention_days := 0; cert_verification := Cert_Strict |}.

Definition sample_queue : QueueState :=
  fst (admit_nzb to_ascii_lowercase queue_default 0 (lit "n") (sample_nzb [lit "f"]) None 0 true).

Definition sample_ctx : SelectionCtx := {|
  ladder := ladder_new [sample_server 1]; attempts_map := ∅; is_blocked := fun _ => false;
  delegated := ∅; post_fetch_files := ∅; regular_downloads := true; article_retries := 3;
  now_unix := 1000; propagation_delay_secs := 0; soft_hold := false; rotate := 0 |}.

Lemma lease_sound_witness :
  let r := {| sr_job := 1; sr_file := 1; seg_number := 1 |} in
  exhausted (snd (next_for_server sample_queue (sample_server 1) sample_ctx)) = [] /\
  exists j f s srv,
    r = {| sr_job := job_id j; sr_file := file_id f; seg_number := number s |} /\ j ∈ jobs sample_queue /\
    fetchable sample_queue sample_ctx j f s /\
    (download_paused sample_queue || soft_hold sample_ctx = true -> force_priority j = true) /\
    server_id srv = server_id (sample_server 1) /\ server_turn [sample_server 1] sample_ctx (age_days sample_ctx f) r srv.
Proof.
  intros r. split; [by vm_compute|].
  refine (proj1 (lease_sound sample_queue (sample_server 1) [sample_server 1] sample_ctx _ {| lease := Some r; exhausted := [] |} eq_refl _ _)).
  - vm_compute. repeat constructor; set_solver.
  - vm_compute. reflexivity.
Defined.

Lemma no_lease_complete_witness :
  (forall j f s, j ∈ active_order sample_queue (delegated sample_ctx) (post_fetch_files sample_ctx)
                     (regular_downloads sample_ctx) (soft_hold sample_ctx) (now_unix sample_ctx) ->
     f ∈ files j -> s ∈ segments f -> state s = Pending ->
     file_skipped sample_ctx (post_fetch_files sample_ctx !! job_id j) f = false ->
     not_offered sample_ctx (sample_server 2) (j, f, s)) /\
  (forall r, r ∈ [] -> exists o, offer_ref o = r /\ given_up sample_ctx o).
Proof.
  eapply (no_lease_complete sample_queue (sample_server 2) [sample_server 1] sample_ctx _ []).
  - reflexivity.
  - vm_compute. reflexivity.
Defined.
