(* ===== verification/ParSelect.v ===== *)
(** * Choosing recovery volumes ([crates/nzbd-engine/src/queue.rs], lines
    1291-1422)

    Pricing the paused par2 files of a job in recovery blocks, picking a set
    that covers a damage, and the final verdict on a download's health. *)

From S2P Require Import Prelude RustStr Types Nzb Queue.

(** The decimal digits at the start of [s], as [u32]. *)
Fixpoint digit_prefix (s : str) : str :=
  match s with
  | c :: s' => if is_ascii_digit c then c :: digit_prefix s' else []
  | [] => []
  end.

Definition digits (s : str) : option Z := parse_uint 10 u32_max (digit_prefix s).

Definition vol_par_blocks (fname : str) : option Z :=
  let lower := to_ascii_lowercase fname in
  match split_at_last (lit ".vol") lower with
  | None => None
  | Some (_, rest) =>
      match find_char (fun c => (c =? 43) || (c =? 45)) rest with
      | None => None
      | Some sep =>
          match digits (drop (S sep) rest) with
          | None => None
          | Some count =>
              if bool_decide (rest !! sep = Some 43) then Some count
              else
                match digits rest with
                | None => None
                | Some start => if start <=? count then Some (wrap32 (count - start + 1)) else None
                end
          end
      end
  end.

Record ParCandidate := { pc_id : FileId; blocks : Z; pc_bytes : Z; estimated : bool }.

Definition file_bytes (f : FileEntry) : Z := sum_Z (map seg_size (segments f)).

Definition paused_pars (j : Job) : list FileEntry :=
  List.filter (fun f => paused f && is_par2 f) (files j).

Definition price_par (block_size : option Z) (f : FileEntry) : option ParCandidate :=
  let b := file_bytes f in
  match vol_par_blocks (filename f) with
  | Some n => Some {| pc_id := file_id f; blocks := Z.max n 1; pc_bytes := b; estimated := false |}
  | None =>
      match block_size with
      | Some bs =>
          if 0 <? bs then
            Some {| pc_id := file_id f; blocks := Z.min (Z.max (b / bs) 1) u32_max; pc_bytes := b;
                    estimated := true |}
          else None
      | None => None
      end
  end.

(** (priced, unpriceable), both in file order. *)
Definition price_paused_pars (j : Job) (block_size : option Z) : list ParCandidate * list FileId :=
  (omap (price_par block_size) (paused_pars j),
   map file_id (List.filter (fun f => bool_decide (price_par block_size f = None)) (paused_pars j))).

(** [min_by_key]: the first of the smallest. *)
Fixpoint min_file (l : list FileEntry) : option FileEntry :=
  match l with
  | [] => None
  | f :: l' =>
      match min_file l' with
      | None => Some f
      | Some g => if file_bytes g <? file_bytes f then Some g else Some f
      end
  end.

Definition smallest_paused_par (j : Job) : option FileId := file_id <$> min_file (paused_pars j).

(** Largest first until [needed] is reached; [have] is a [u32]. *)
Fixpoint accumulate (l : list (FileId * Z)) (needed have : Z) : list FileId :=
  match l with
  | [] => []
  | (id, b) :: l' => if needed <=? have then [] else id :: accumulate l' needed (wrap32 (have + b))
  end.

Definition pick_par_files (candidates : list (FileId * Z)) (needed : Z) : list FileId :=
  let sorted := sort_by_key snd candidates in
  match find (fun c => needed <=? snd c) sorted with
  | Some (id, _) => [id]
  | None => accumulate (reverse sorted) needed 0
  end.

Definition final_status (j : Job) : JobStatus * Z :=
  let health := calc (totals j) in
  let critical := calc_critical (totals j) true in
  if health <? critical then (JS_Failed, health) else (JS_Completed, health).

Example vol_ex :
  vol_par_blocks (lit "a.vol003+04.PAR2") = Some 4 /\ vol_par_blocks (lit "a.vol10-12.par2") = Some 3 /\
  vol_par_blocks (lit "a.par2") = None /\ pick_par_files [(1, 2); (2, 8); (3, 4)] 3 = [3] /\
  pick_par_files [(1, 2); (2, 8); (3, 4)] 11 = [2; 3].
Proof. vm_compute. done. Qed.

(** ** Picking *)

Definition total (sel : list (FileId * Z)) : Z := sum_Z (map snd sel).

#[export] Instance sum_Z_perm : Proper ((≡ₚ) ==> (=)) sum_Z.
Proof. induction 1; unfold sum_Z in *; simpl in *; lia. Qed.

Lemma total_app a b : total (a ++ b) = total a + total b.
Proof. unfold total. by rewrite map_app, sum_Z_app. Qed.

(** The accumulation takes a prefix, and the least that reaches [needed]. *)
Lemma accumulate_spec needed l : forall have, 0 <= have -> needed <= 2 ^ 31 -> 
  Forall (fun c => 0 <= snd c < needed) l -> (have < needed \/ needed <= have < 2 ^ 32) ->
  exists k, accumulate l needed have = map fst (take k l) /\
    (needed <= have + total (take k l) \/ take k l = l) /\
    (forall k', (k' < length (take k l))%nat -> have + total (take k' l) < needed).
Proof.
  induction l as [|[id b] l IH]; intros have Hh Hn Hl Hb; simpl.
  { exists 0%nat. split_and!; [done|by right|]. simpl. lia. }
  inversion Hl as [|? ? Hb0 Hl']; subst. simpl in Hb0.
  destruct (needed <=? have) eqn:E; bool_hyps.
  { exists 0%nat. split_and!; [done|left; unfold total; simpl; lia|]. simpl. lia. }
  assert (Hw : wrap32 (have + b) = have + b).
  { unfold wrap32. apply Z.mod_small. change (2 ^ 31) with 2147483648 in *. lia. }
  rewrite Hw.
  destruct (IH (have + b)) as (k & Hacc & Hcov & Hmin); [lia|done|done|change (2 ^ 32) with 4294967296; change (2 ^ 31) with 2147483648 in *; lia|].
  exists (S k). rewrite Hacc. split_and!.
  - done.
  - unfold total in *. simpl. destruct Hcov as [?|Hk]; [left; lia|right; by rewrite Hk].
  - intros [|k'] Hk'; unfold total in *; simpl in *; [lia|].
    specialize (Hmin k' ltac:(lia)). lia.
Qed.

(** the recovery volumes picked cover the damage if any can.  The files
    chosen are distinct candidates; they reach the needed blocks, or they are
    all the candidates there are; if one file suffices, it is the only one
    chosen and no sufficient file is smaller; otherwise no fewer of the largest
    would do.  (For needs up to 2^31 blocks, where the [u32] sum cannot wrap.) *)
Theorem pick_par_files_spec cs needed : 0 < needed <= 2 ^ 31 -> Forall (fun c => 0 <= snd c) cs ->
  exists sel, pick_par_files cs needed = map fst sel /\ sel ⊆+ cs /\
    (needed <= total sel \/ sel ≡ₚ cs) /\
    (forall c, c ∈ cs -> needed <= snd c ->
       exists c', sel = [c'] /\ needed <= snd c' <= snd c) /\
    (forall k, (k < length sel)%nat -> total (take k sel) < needed).
Proof.
  intros Hn Hpos. unfold pick_par_files.
  pose proof (sort_by_key_perm snd cs) as Hperm. pose proof (sort_by_key_sorted snd cs) as Hsorted.
  set (sorted := sort_by_key snd cs) in *. clearbody sorted.
  destruct (find (fun c => needed <=? snd c) sorted) as [[id b]|] eqn:Hf.
  - assert (Hsplit : exists pre post, sorted = pre ++ (id, b) :: post /\
      Forall (fun c => snd c < needed) pre /\ needed <= b).
    { clear -Hf. induction sorted as [|c l IH]; simpl in Hf; [done|]. case_if_in Hf; bool_hyps.
      - injection Hf as ->. exists [], l. split_and!; [done|constructor|done].
      - destruct (IH Hf) as (pre & post & -> & Hpre & Hb). exists (c :: pre), post.
        split_and!; [done| |done]. by constructor. }
    destruct Hsplit as (pre & post & -> & Hpre & Hb).
    exists [(id, b)]. split_and!; [done| |left; unfold total; simpl; lia| |].
    + rewrite <- Hperm. apply singleton_submseteq_l. set_solver.
    + intros c Hc Hcn. exists (id, b). split; [done|]. simpl. split; [done|].
      rewrite <- Hperm in Hc. apply elem_of_app in Hc as [Hc|Hc].
      { rewrite Forall_forall in Hpre. specialize (Hpre c Hc). simpl in Hpre. lia. }
      apply elem_of_cons in Hc as [->|Hc]; [done|].
      assert (Hs : sorted_key snd ((id, b) :: post)).
      { clear -Hsorted. induction pre as [|x pre IH]; [done|]. inversion Hsorted; subst. by apply IH. }
      inversion Hs as [|? ? _ Hall]; subst. rewrite Forall_forall in Hall. by apply (Hall c).
    + intros [|k] Hk; simpl in *; [unfold total; simpl; lia|lia].
  - assert (Hsmall : Forall (fun c => 0 <= snd c < needed) (reverse sorted)).
    { apply Forall_reverse. rewrite Forall_forall. intros c Hc.
      assert ((needed <=? snd c) = false) by (apply (find_none _ _ Hf); by apply list_elem_of_In).
      rewrite Hperm in Hc. rewrite Forall_forall in Hpos. specialize (Hpos c Hc). bool_hyps. lia. }
    destruct (accumulate_spec needed (reverse sorted) 0 ltac:(lia) ltac:(lia) Hsmall ltac:(lia))
      as (k & -> & Hcov & Hmin).
    exists (take k (reverse sorted)).
    assert (Hrev : reverse sorted ≡ₚ cs) by (by rewrite reverse_Permutation).
    split_and!; [done| | | |].
    + rewrite <- Hrev. apply sublist_submseteq, sublist_take.
    + destruct Hcov as [?|Hall]; [by left|right; by rewrite Hall].
    + intros c Hc Hcn. exfalso. rewrite <- Hrev in Hc. rewrite Forall_forall in Hsmall.
      specialize (Hsmall c Hc). simpl in Hsmall. lia.
    + intros k' Hk'. specialize (Hmin k' Hk'). rewrite take_take.
      rewrite length_take in Hk'. replace (k' `min` k)%nat with k' by lia. lia.
Qed.

Lemma pick_par_files_spec_witness :
  let cs := [(1, 2); (2, 8); (3, 4)] in
  exists sel, pick_par_files cs 11 = map fst sel /\ sel ⊆+ cs /\
    (11 <= total sel \/ sel ≡ₚ cs) /\
    (forall c, c ∈ cs -> 11 <= snd c -> exists c', sel = [c'] /\ 11 <= snd c' <= snd c) /\
    (forall k, (k < length sel)%nat -> total (take k sel) < 11).
Proof.
  apply (pick_par_files_spec [(1, 2); (2, 8); (3, 4)] 11).
  - vm_compute. split; [reflexivity|discriminate].
  - repeat constructor; vm_compute; discriminate.
Defined.

(** a repairable job is not failed.  A download whose recovery data all
    arrived and covers the failed bytes ends as completed. *)
Theorem repairable_completes j : totals_wf (totals j) -> 1000 * size (totals j) <= u64_max ->
  failed_par_size (totals j) = 0 -> failed_size (totals j) <= par_size (totals j) ->
  fst (final_status j) = JS_Completed.
Proof.
  intros Hw Hs H0 Hr. pose proof (repairable_not_critical_aux (totals j) true Hw Hs H0 Hr) as Hc.
  unfold final_status. destruct (calc (totals j) <? calc_critical (totals j) true) eqn:E; [lia|done].
Qed.

Lemma repairable_completes_witness :
  let t := {| size := 1000; par_size := 100; failed_size := 60; failed_par_size := 0;
              success_size := 940; total_articles := 10; success_articles := 9;
              failed_articles := 1 |} in
  exists j, j ∈ jobs (fst (admit_nzb to_ascii_lowercase queue_default 0 (lit "n") (sample_nzb [lit "f"]) None 0 true)) /\
  fst (final_status (set_totals t j)) = JS_Completed.
Proof.
  intros t. eexists. split; [by left|].
  eapply repairable_completes; [constructor|..]; unfold t, u64_max; cbn; lia.
Defined.
