(* ===== verification/Fs.v ===== *)
(** * The state directory and its I/O ([crates/nzbd-state/src/fsx.rs])

    The wrappers of [fsx] over a model of the file system: what the running
    process sees, and what a crash may leave of it.  A computation runs against
    a script of fates: each file-system call succeeds, fails (a write after some
    of its bytes), or is the one during which the machine stops.  [wp] is the
    program logic for such computations, with a condition for the crash. *)

From S2P Require Import Prelude RustStr.

(** ** Errors *)

Inductive IoKind := NotFound | PermissionDenied | OtherIo.

Inductive StateError :=
| SE_Io (k : IoKind)
| SE_Serde
| SE_Corrupt (why : str).

Definition io_kind (e : StateError) : option IoKind :=
  match e with SE_Io k => Some k | _ => None end.
Definition is_not_found (e : StateError) : bool :=
  match io_kind e with Some NotFound => true | _ => false end.
Definition is_permission_denied (e : StateError) : bool :=
  match io_kind e with Some PermissionDenied => true | _ => false end.

(** ** The disk

    A file is its bytes and how many of them are known to survive a crash.
    [json_old] are the entries that [queue.json] may still be found with until
    the directory is synced; [jobs_old] the files removed from under [jobs/],
    whose directories nothing syncs. *)

Record DFile := { content : bytes; durable : nat }.

Record Disk := mkDisk {
  top : gmap str DFile;                    (* the state directory *)
  jobdirs : gmap str (gmap str DFile);     (* jobs/<id>/ *)
  json_old : list (option DFile);
  jobs_old : list (str * str * DFile)
}.

Definition empty_file : DFile := {| content := []; durable := 0 |}.
Definition extend (buf : bytes) (f : DFile) : DFile :=
  {| content := content f ++ buf; durable := durable f |}.
Definition settle (f : DFile) : DFile :=
  {| content := content f; durable := length (content f) |}.

Definition set_top (t : gmap str DFile) (d : Disk) : Disk := mkDisk t (jobdirs d) (json_old d) (jobs_old d).
Definition set_jobdirs (j : gmap str (gmap str DFile)) (d : Disk) : Disk := mkDisk (top d) j (json_old d) (jobs_old d).

Definition job_file (d : Disk) (dir nm : str) : option DFile := jobdirs d !! dir ≫= (.!! nm).
Definition alter_job_file (g : DFile -> DFile) (dir nm : str) (d : Disk) : Disk :=
  set_jobdirs (alter (alter g nm) dir (jobdirs d)) d.

(** ** Computations *)

Inductive Fate :=
| Succeed
| Fault (k : IoKind) (n : nat)
| CrashAt (n : nat).

Record World := { disk : Disk; fates : list Fate }.

Inductive outcome (A : Type) : Type :=
| Val (a : A)
| Fails (e : StateError)
| Crashed.
Arguments Val {A} a.
Arguments Fails {A} e.
Arguments Crashed {A}.

Definition io (A : Type) : Type := World -> outcome A * World.

Definition io_ret {A} (a : A) : io A := fun w => (Val a, w).
Definition io_fail {A} (e : StateError) : io A := fun w => (Fails e, w).
Definition io_bind {A B} (m : io A) (k : A -> io B) : io B := fun w =>
  match m w with
  | (Val a, w') => k a w'
  | (Fails e, w') => (Fails e, w')
  | (Crashed, w') => (Crashed, w')
  end.

(** [match m { Ok(a) => .., Err(e) => .. }] *)
Definition io_try {A} (m : io A) : io (result A StateError) := fun w =>
  match m w with
  | (Val a, w') => (Val (Ok a), w')
  | (Fails e, w') => (Val (Err e), w')
  | (Crashed, w') => (Crashed, w')
  end.

Notation "'let*' x := m 'in' k" := (io_bind m (fun x => k))
  (at level 10, x pattern, k at level 200) : nzbd_scope.

(** One call: [act] when it succeeds, [part n] when it stops part-way. *)
Definition prim {A} (act : Disk -> result A StateError * Disk) (part : nat -> Disk -> Disk) : io A := fun w =>
  match fates w with
  | Fault k n :: fs => (Fails (SE_Io k), {| disk := part n (disk w); fates := fs |})
  | CrashAt n :: fs => (Crashed, {| disk := part n (disk w); fates := fs |})
  | fs =>
      match act (disk w) with
      | (Ok a, d) => (Val a, {| disk := d; fates := tail fs |})
      | (Err e, d) => (Fails e, {| disk := d; fates := tail fs |})
      end
  end.

Definition unchanged (n : nat) (d : Disk) : Disk := d.

(** ** The wrappers *)

Definition create_dir_all (dir : str) : io unit :=
  prim (fun d => (Ok tt, set_jobdirs (partial_alter (fun o => Some (default ∅ o)) dir (jobdirs d)) d)) unchanged.

Definition open_append (dir nm : str) : io unit :=
  prim (fun d => (Ok tt, set_jobdirs (alter (partial_alter (fun o => Some (default empty_file o)) nm) dir (jobdirs d)) d))
    unchanged.

Definition write_all (dir nm : str) (buf : bytes) : io unit :=
  prim (fun d => (Ok tt, alter_job_file (extend buf) dir nm d))
    (fun n d => alter_job_file (extend (take n buf)) dir nm d).

Definition sync_data (dir nm : str) : io unit :=
  prim (fun d => (Ok tt, alter_job_file settle dir nm d)) unchanged.

Definition read_dir (dir : str) : io (list str) :=
  prim (fun d =>
    (match jobdirs d !! dir with
     | Some fs => Ok (map fst (map_to_list fs))
     | None => Err (SE_Io NotFound)
     end, d)) unchanged.

Definition read_jobs_dir : io (list str) :=
  prim (fun d => (Ok (map fst (map_to_list (jobdirs d))), d)) unchanged.

Definition open_file (dir nm : str) : io unit :=
  prim (fun d =>
    (match job_file d dir nm with Some _ => Ok tt | None => Err (SE_Io NotFound) end, d)) unchanged.

Definition read_file (dir nm : str) : io bytes :=
  prim (fun d =>
    (match job_file d dir nm with Some f => Ok (content f) | None => Err (SE_Io NotFound) end, d)) unchanged.

(** Entry by entry: an interrupted removal leaves a part of the directory. *)
Definition remove_some (n : nat) (fs : gmap str DFile) : gmap str DFile :=
  foldr delete fs (take n (map fst (map_to_list fs))).

Definition entries_of (dir : str) (d : Disk) : list (str * str * DFile) :=
  match jobdirs d !! dir with
  | Some fs => map (fun '(nm, f) => (dir, nm, f)) (map_to_list fs)
  | None => []
  end.

Definition removing (dir : str) (j : gmap str (gmap str DFile)) (d : Disk) : Disk :=
  mkDisk (top d) j (json_old d) (entries_of dir d ++ jobs_old d).

Definition remove_dir_all (dir : str) : io unit :=
  prim (fun d =>
    match jobdirs d !! dir with
    | Some _ => (Ok tt, removing dir (delete dir (jobdirs d)) d)
    | None => (Err (SE_Io NotFound), d)
    end)
    (fun n d => removing dir (alter (remove_some n) dir (jobdirs d)) d).

Definition create (nm : str) : io unit :=
  prim (fun d => (Ok tt, set_top (<[nm := empty_file]> (top d)) d)) unchanged.

Definition open_append_top (nm : str) : io unit :=
  prim (fun d => (Ok tt, set_top (partial_alter (fun o => Some (default empty_file o)) nm (top d)) d)) unchanged.

Definition write_whole (nm : str) (buf : bytes) : io unit :=
  prim (fun d => (Ok tt, set_top (alter (extend buf) nm (top d)) d))
    (fun n d => set_top (alter (extend (take n buf)) nm (top d)) d).

Definition sync_top (nm : str) : io unit :=
  prim (fun d => (Ok tt, set_top (alter settle nm (top d)) d)) unchanged.

Definition rename (from to : str) : io unit :=
  prim (fun d =>
    match top d !! from with
    | Some f => (Ok tt, mkDisk (<[to := f]> (delete from (top d))) (jobdirs d) ((top d !! to) :: json_old d) (jobs_old d))
    | None => (Err (SE_Io NotFound), d)
    end) unchanged.

Definition remove_file (nm : str) : io unit :=
  prim (fun d =>
    match top d !! nm with
    | Some _ => (Ok tt, set_top (delete nm (top d)) d)
    | None => (Err (SE_Io NotFound), d)
    end) unchanged.

Definition exists_file (nm : str) : io bool :=
  prim (fun d => (Ok (bool_decide (is_Some (top d !! nm))), d)) unchanged.

Definition sync_dir : io unit :=
  prim (fun d => (Ok tt, mkDisk (top d) (jobdirs d) [] (jobs_old d))) unchanged.

Definition read (nm : str) : io bytes :=
  prim (fun d =>
    (match top d !! nm with Some f => Ok (content f) | None => Err (SE_Io NotFound) end, d)) unchanged.

(** ** Crashes

    A file keeps a prefix that holds what was synced; [queue.json] is found with
    any entry it had since the directory was last synced.  No directory under
    [jobs/] is ever synced: an entry made there may vanish and one removed there
    may come back, unless [names] says that the file system, when it syncs a
    file, also commits the entries that lead to it (as ext4, XFS and Btrfs do;
    POSIX does not ask it), and the file found there was synced. *)

Definition crash_file (f f' : DFile) : Prop :=
  exists n, (durable f <= n <= length (content f))%nat /\
    f' = {| content := take n (content f); durable := n |}.

Definition entry_committed (names : bool) (o : option DFile) : Prop :=
  names = true /\ exists f, o = Some f /\ (0 < durable f)%nat.

(** The entry found where [o] was, and before it, removed, the files [olds]. *)
Inductive crash_entry (names : bool) (olds : DFile -> Prop) (o : option DFile) : option DFile -> Prop :=
| entry_found f f' : o = Some f -> crash_file f f' -> crash_entry names olds o (Some f')
| entry_lost : ~ entry_committed names o -> crash_entry names olds o None
| entry_back f f' : ~ entry_committed names o -> olds f -> crash_file f f' -> crash_entry names olds o (Some f').

Definition QUEUE_JSON : str := lit "queue.json".
Definition QUEUE_TMP : str := lit "queue.json.tmp".

Record crash_disk (names : bool) (d d' : Disk) : Prop := {
  cd_json : exists o, o ∈ (top d !! QUEUE_JSON) :: json_old d /\
              option_Forall2 crash_file o (top d' !! QUEUE_JSON);
  cd_old : json_old d' = [] /\ jobs_old d' = [];
  cd_top : forall nm, nm <> QUEUE_JSON -> nm <> QUEUE_TMP ->
             crash_entry names (fun _ => False) (top d !! nm) (top d' !! nm);
  cd_jobs : forall dir nm,
              crash_entry names (fun f => (dir, nm, f) ∈ jobs_old d) (job_file d dir nm) (job_file d' dir nm)
}.

(** ** The program logic

    [wp m Q E C w]: from [w], [m] ends in [Q] with its value, in [E] with its
    error, or stops in [C]. *)

Definition wp {A} (m : io A) (Q : A -> World -> Prop) (E : StateError -> World -> Prop)
    (C : World -> Prop) (w : World) : Prop :=
  match m w with
  | (Val a, w') => Q a w'
  | (Fails e, w') => E e w'
  | (Crashed, w') => C w'
  end.

(** No call fails; one may be interrupted. *)
Definition calm (fs : list Fate) : Prop := Forall (fun f => match f with Fault _ _ => False | _ => True end) fs.

Lemma wp_ret {A} (a : A) (Q : A -> World -> Prop) E C w : Q a w -> wp (io_ret a) Q E C w.
Proof. done. Qed.

Lemma wp_fail {A} e (Q : A -> World -> Prop) (E : StateError -> World -> Prop) C w : E e w -> wp (io_fail e) Q E C w.
Proof. done. Qed.

Lemma wp_bind {A B} (m : io A) (k : A -> io B) Q E C w :
  wp m (fun a w' => wp (k a) Q E C w') E C w -> wp (io_bind m k) Q E C w.
Proof. unfold wp, io_bind. by destruct (m w) as [[a|e|] w']. Qed.

Lemma wp_try {A} (m : io A) Q E C w :
  wp m (fun a w' => Q (Ok a) w') (fun e w' => Q (Err e) w') C w -> wp (io_try m) Q E C w.
Proof. unfold wp, io_try. by destruct (m w) as [[a|e|] w']. Qed.

Lemma wp_mono {A} (m : io A) (Q Q' : A -> World -> Prop) (E E' : StateError -> World -> Prop)
    (C C' : World -> Prop) w :
  wp m Q E C w -> (forall a w', Q a w' -> Q' a w') -> (forall e w', E e w' -> E' e w') ->
  (forall w', C w' -> C' w') -> wp m Q' E' C' w.
Proof. unfold wp. intros H HQ HE HC. destruct (m w) as [[a|e|] w']; auto. Qed.

(** A call under calm fates: it succeeds, or it is the crash. *)
Lemma wp_prim {A} act part (Q : A -> World -> Prop) E C w : calm (fates w) ->
  (forall fs, calm fs ->
     match act (disk w) with
     | (Ok a, d) => Q a {| disk := d; fates := fs |}
     | (Err e, d) => E e {| disk := d; fates := fs |}
     end) ->
  (forall n fs, C {| disk := part n (disk w); fates := fs |}) ->
  wp (prim act part) Q E C w.
Proof.
  unfold wp, prim. intros Hc HQ HC.
  destruct (fates w) as [|[|k n|n] fs] eqn:Hf; simpl.
  - specialize (HQ [] ltac:(constructor)). by destruct (act (disk w)) as [[a|e] d].
  - inversion Hc; subst. specialize (HQ fs ltac:(done)). by destruct (act (disk w)) as [[a|e] d].
  - inversion Hc. done.
  - apply HC.
Qed.

(** The same with any fate. *)
Lemma wp_prim_any {A} act part (Q : A -> World -> Prop) E C w :
  (forall fs,
     match act (disk w) with
     | (Ok a, d) => Q a {| disk := d; fates := fs |}
     | (Err e, d) => E e {| disk := d; fates := fs |}
     end) ->
  (forall k n fs, E (SE_Io k) {| disk := part n (disk w); fates := fs |}) ->
  (forall n fs, C {| disk := part n (disk w); fates := fs |}) ->
  wp (prim act part) Q E C w.
Proof.
  unfold wp, prim. intros HQ HE HC.
  destruct (fates w) as [|[|k n|n] fs] eqn:Hf; simpl; [| |apply HE|apply HC].
  - specialize (HQ []). by destruct (act (disk w)) as [[a|e] d].
  - specialize (HQ fs). by destruct (act (disk w)) as [[a|e] d].
Qed.

Lemma crash_file_durable f f' : durable f = length (content f) -> crash_file f f' -> f' = f.
Proof.
  intros Hd (n & Hn & ->). destruct f as [c k]. simpl in *. assert (n = length c) as -> by lia.
  by rewrite firstn_all, Hd.
Qed.

(** ** Behaviour whatever the fates

    A computation consumes its script and stops only where the script says. *)

Definition crashes (fs : list Fate) : Prop := exists n, CrashAt n ∈ fs.

Definition behaves {A} (m : io A) : Prop := forall w,
  match m w with
  | (Crashed, _) => crashes (fates w)
  | (_, w') => fates w' `suffix_of` fates w
  end.

Lemma behaves_ret {A} (a : A) : behaves (io_ret a).
Proof. intros w. simpl. reflexivity. Qed.

Lemma behaves_fail {A} e : behaves (@io_fail A e).
Proof. intros w. simpl. reflexivity. Qed.

Lemma crashes_suffix fs fs' : fs' `suffix_of` fs -> crashes fs' -> crashes fs.
Proof. intros [l ->] [n Hn]. exists n. apply elem_of_app. by right. Qed.

Lemma behaves_bind {A B} (m : io A) (k : A -> io B) :
  behaves m -> (forall a, behaves (k a)) -> behaves (io_bind m k).
Proof.
  intros Hm Hk w. unfold io_bind. specialize (Hm w). destruct (m w) as [[a|e|] w1]; [|done|done].
  specialize (Hk a w1). destruct (k a w1) as [[b|e|] w2];
    [by transitivity (fates w1)..|by eapply crashes_suffix].
Qed.

Lemma behaves_try {A} (m : io A) : behaves m -> behaves (io_try m).
Proof. intros Hm w. unfold io_try. specialize (Hm w). by destruct (m w) as [[a|e|] w1]. Qed.

Lemma behaves_prim {A} (act : Disk -> result A StateError * Disk) part : behaves (prim act part).
Proof.
  intros w. unfold prim. destruct (fates w) as [|[|k n|n] fs] eqn:Hf.
  - destruct (act (disk w)) as [[a|e] d]; simpl; reflexivity.
  - destruct (act (disk w)) as [[a|e] d]; simpl; by apply suffix_cons_r.
  - simpl. by apply suffix_cons_r.
  - exists n. left.
Qed.

#[export] Hint Resolve behaves_ret behaves_fail behaves_bind behaves_try behaves_prim : nzbd.

(** Structural descent through binds, tests and matches. *)
Ltac behave :=
  repeat first
    [ progress eauto with nzbd
    | apply behaves_bind; [|intros ?]
    | apply behaves_try
    | case_if
    | match goal with |- behaves (match ?x with _ => _ end) => destruct x end ].

(** [m] does not fail, its value satisfies [P], and it stops only by a crash of
    the script, or if [X] (a panic) holds. *)
Definition ensures_or (X : Prop) {A} (m : io A) (P : A -> Prop) : Prop := forall w,
  match m w with
  | (Val a, w') => P a /\ fates w' `suffix_of` fates w
  | (Fails _, _) => False
  | (Crashed, _) => crashes (fates w) \/ X
  end.
Abbreviation ensures := (ensures_or False).

Lemma ensures_ret X {A} (a : A) (P : A -> Prop) : P a -> ensures_or X (io_ret a) P.
Proof. intros H w. simpl. split; [done|reflexivity]. Qed.

Lemma ensures_bind X {A B} (m : io A) (k : A -> io B) P Q :
  ensures_or X m P -> (forall a, P a -> ensures_or X (k a) Q) -> ensures_or X (io_bind m k) Q.
Proof.
  intros Hm Hk w. specialize (Hm w). unfold io_bind in *. destruct (m w) as [[a|e|] w1]; [|done|done].
  destruct Hm as [Ha Hs]. specialize (Hk a Ha w1). destruct (k a w1) as [[b|e|] w2]; [|done|].
  - destruct Hk. split; [done|]. by transitivity (fates w1).
  - destruct Hk as [Hk|Hk]; [left; by eapply crashes_suffix|by right].
Qed.

Lemma ensures_mono X {A} (m : io A) (P Q : A -> Prop) :
  ensures_or X m P -> (forall a, P a -> Q a) -> ensures_or X m Q.
Proof. intros Hm HPQ w. specialize (Hm w). destruct (m w) as [[a|e|] w1]; [|done|done]. naive_solver. Qed.

Lemma ensures_weaken X {A} (m : io A) (P : A -> Prop) : ensures m P -> ensures_or X m P.
Proof. intros Hm w. specialize (Hm w). destruct (m w) as [[a|e|] w1]; naive_solver. Qed.

Lemma ensures_try X {A} (m : io A) : behaves m -> ensures_or X (io_try m) (fun _ => True).
Proof. intros Hm w. unfold io_try. specialize (Hm w). destruct (m w) as [[a|e|] w1]; naive_solver. Qed.
