(* ===== verification/Codec.v ===== *)
(** * Encodings of the records on disk ([crates/nzbd-state/src/lib.rs])

    What the store relies on of [serde_json], as the interfaces [JournalCodec]
    and [DocCodec], and one encoding that satisfies each. *)

From Stdlib Require Import SpecFloat.
From S2P Require Import Prelude RustStr Types Queue.

(** ** Records and their encoding *)

Record JournalRecord := {
  jr_job : JobId;
  jr_file : FileId;
  jr_segment_number : Z;
  jr_offset : Z;
  jr_len : Z;
  jr_crc32 : Z;
  jr_file_size : Z
}.

#[export] Instance JournalRecord_eq_dec : EqDecision JournalRecord.
Proof. solve_decision. Defined.

(** What the store relies on of [serde_json]: a record is one non-empty line, it
    parses back, and an object that is never closed does not parse, neither a
    proper prefix of a record nor one with another record behind it. *)
Class JournalCodec := {
  to_vec : JournalRecord -> bytes;
  from_slice : bytes -> option JournalRecord;
  from_to : forall r, from_slice (to_vec r) = Some r;
  to_vec_nonempty : forall r, to_vec r <> [];
  to_vec_line : forall r, Forall (fun b => b <> 10) (to_vec r);
  from_torn : forall r n, (n < length (to_vec r))%nat -> from_slice (take n (to_vec r)) = None;
  from_glued : forall r r' n, (0 < n < length (to_vec r))%nat ->
    from_slice (take n (to_vec r) ++ to_vec r') = None
}.

(** A document without its seed ratios, which are floating-point numbers: JSON
    has none for the infinite ones, and a finite one may come back rounded. *)
Definition drop_policy (p : SeedPolicy) : SeedPolicy := {|
  stop_on_complete := stop_on_complete p; ratio_limit := None; time_limit_secs := time_limit_secs p |}.

Definition drop_ratio (t : TorrentRecord) : TorrentRecord := {|
  info_hash_v1 := info_hash_v1 t; source := source t; metadata_file := metadata_file t;
  payload_root := payload_root t; phase := phase t; control_intent := control_intent t;
  removal_intent := removal_intent t; removal_outcome := removal_outcome t;
  removal_confirmed_at_unix := removal_confirmed_at_unix t; torrent_files := torrent_files t;
  total_bytes := total_bytes t; selected_bytes := selected_bytes t;
  downloaded_bytes := downloaded_bytes t; uploaded_bytes := uploaded_bytes t;
  seeding_seconds := seeding_seconds t; torrent_ready_at_unix := torrent_ready_at_unix t;
  content_path := content_path t; seed_policy := drop_policy (seed_policy t);
  stop_reason := stop_reason t; last_activity_unix := last_activity_unix t; last_error := last_error t |}.

Definition drop_job_ratio (j : Job) : Job := set_torrent (drop_ratio <$> torrent j) j.

Definition drop_pending_ratio (p : PendingAdmission) : PendingAdmission := {|
  pa_job_id := pa_job_id p; pa_source := pa_source p; secret_ref := secret_ref p;
  pa_category := pa_category p; pa_priority := pa_priority p; pa_paused := pa_paused p;
  pa_seed_ratio_limit := None; pa_seed_time_limit_secs := pa_seed_time_limit_secs p;
  pa_stop_seeding_on_complete := pa_stop_seeding_on_complete p; pa_params := pa_params p;
  pa_client := pa_client p |}.

Definition drop_ratios (d : QueueSnapshotDoc) : QueueSnapshotDoc := {|
  schema_version := schema_version d; q_pending_admissions := map drop_pending_ratio (q_pending_admissions d);
  q_jobs := map drop_job_ratio (q_jobs d); q_next_job_id := q_next_job_id d;
  q_next_file_id := q_next_file_id d; q_download_paused := q_download_paused d;
  q_speed_limit_bps := q_speed_limit_bps d; q_max_active_downloads := q_max_active_downloads d |}.

(** The snapshot document parses back, the seed ratios aside; its header alone
    may be asked for the schema version. *)
Class DocCodec := {
  doc_to_vec : QueueSnapshotDoc -> bytes;
  doc_from_slice : bytes -> option QueueSnapshotDoc;
  header_from_slice : bytes -> option Z;
  doc_from_to : forall d, drop_ratios <$> doc_from_slice (doc_to_vec d) = Some (drop_ratios d)
}.

(** ** A concrete encoding

    A record is the sequence of its fields, a list is its length and its
    elements, a variant its tag and its content. *)

Class Ser (A : Type) := {
  ser : A -> list Z;
  deser : list Z -> option (A * list Z);
  deser_ser : forall a l, deser (ser a ++ l) = Some (a, l)
}.

#[export] Instance Z_ser : Ser Z.
Proof.
  refine {| ser z := [z]; deser l := match l with z :: l => Some (z, l) | [] => None end |}. done.
Defined.

#[export] Instance unit_ser : Ser unit.
Proof. refine {| ser _ := []; deser l := Some (tt, l) |}. by intros []. Defined.

#[export] Instance prod_ser {A B} `{Ser A, Ser B} : Ser (A * B).
Proof.
  refine {| ser p := ser (fst p) ++ ser (snd p);
            deser l := deser l ≫= fun '(a, l) => deser l ≫= fun '(b, l) => Some ((a, b), l) |}.
  intros [a b] l. simpl. rewrite <- app_assoc, deser_ser. simpl. by rewrite deser_ser.
Defined.

#[export] Instance sum_ser {A B} `{Ser A, Ser B} : Ser (A + B).
Proof.
  refine {| ser x := match x with inl a => 0 :: ser a | inr b => 1 :: ser b end;
            deser l := match l with
                       | 0 :: l => prod_map inl id <$> deser l
                       | _ :: l => prod_map inr id <$> deser l
                       | [] => None
                       end |}.
  intros [a|b] l; simpl; by rewrite deser_ser.
Defined.

Fixpoint deser_many {A} `{Ser A} (n : nat) (l : list Z) : option (list A * list Z) :=
  match n with
  | O => Some ([], l)
  | S n => deser l ≫= fun '(a, l) => deser_many n l ≫= fun '(xs, l) => Some (a :: xs, l)
  end.

#[export] Instance list_ser {A} `{Ser A} : Ser (list A).
Proof.
  refine {| ser xs := Z.of_nat (length xs) :: concat (map ser xs);
            deser l := match l with n :: l => deser_many (Z.to_nat n) l | [] => None end |}.
  intros xs l. simpl. rewrite Nat2Z.id. induction xs as [|x xs IH]; [done|]. simpl.
  rewrite <- app_assoc, deser_ser. simpl. by rewrite IH.
Defined.

(** A type seen as another one. *)
Lemma deser_via {A B} `{Ser B} (f : A -> B) (g : B -> A) : (forall a, g (f a) = a) ->
  forall a l, (prod_map g id <$> deser (ser (f a) ++ l)) = Some (a, l).
Proof. intros Hg a l. rewrite deser_ser. simpl. by rewrite Hg. Qed.

Definition ser_via {A B} `{Ser B} (f : A -> B) (g : B -> A) (Hg : forall a, g (f a) = a) : Ser A := {|
  ser a := ser (f a); deser l := prod_map g id <$> deser l; deser_ser := deser_via f g Hg |}.

#[export] Instance bool_ser : Ser bool.
Proof. refine (ser_via (fun b : bool => if b then 1 else 0) (fun z => z =? 1) _). by intros []. Defined.

#[export] Instance positive_ser : Ser positive.
Proof. exact (ser_via Zpos Z.to_pos (fun p => eq_refl)). Defined.

#[export] Instance option_ser {A} `{Ser A} : Ser (option A).
Proof.
  refine (ser_via (fun o => match o with None => inl tt | Some a => inr a end)
            (fun s => match s with inl _ => None | inr a => Some a end) _).
  by intros [].
Defined.

#[export] Instance f64_ser : Ser f64.
Proof.
  refine (ser_via
    (fun x => match x with
              | S754_zero b => inl (inl b)
              | S754_infinity b => inl (inr b)
              | S754_nan => inr (inl tt)
              | S754_finite b m e => inr (inr (b, m, e))
              end)
    (fun c => match c with
              | inl (inl b) => S754_zero b
              | inl (inr b) => S754_infinity b
              | inr (inl _) => S754_nan
              | inr (inr (b, m, e)) => S754_finite b m e
              end) _).
  by intros [].
Defined.

#[export] Instance JobKind_ser : Ser JobKind.
Proof.
  refine (ser_via (fun x => match x with JobKind_Nzb => 0 | JobKind_Url => 1 | JobKind_Torrent => 2 end)
    (fun n : Z => match n with 0 => JobKind_Nzb | 1 => JobKind_Url | _ => JobKind_Torrent end) _).
  by intros [].
Defined.

#[export] Instance TorrentSource_ser : Ser TorrentSource.
Proof.
  refine (ser_via (fun x => match x with TS_Metainfo => 0 | TS_Magnet => 1 | TS_Url => 2 end)
    (fun n : Z => match n with 0 => TS_Metainfo | 1 => TS_Magnet | _ => TS_Url end) _).
  by intros [].
Defined.

#[export] Instance TorrentPhase_ser : Ser TorrentPhase.
Proof.
  refine (ser_via (fun x => match x with FetchingSource => 0 | FetchingMetadata => 1 | TP_Queued => 2 | Checking => 3 | TP_Downloading => 4 | Seeding => 5 | PausedDownload => 6 | PausedSeed => 7 | MissingFiles => 8 | TP_Failed => 9 end)
    (fun n : Z => match n with 0 => FetchingSource | 1 => FetchingMetadata | 2 => TP_Queued | 3 => Checking | 4 => TP_Downloading | 5 => Seeding | 6 => PausedDownload | 7 => PausedSeed | 8 => MissingFiles | _ => TP_Failed end) _).
  by intros [].
Defined.

#[export] Instance TorrentControlIntent_ser : Ser TorrentControlIntent.
Proof.
  refine (ser_via (fun x => match x with TCI_Running => 0 | TCI_Paused => 1 end)
    (fun n : Z => match n with 0 => TCI_Running | _ => TCI_Paused end) _).
  by intros [].
Defined.

#[export] Instance TorrentPayloadDisposition_ser : Ser TorrentPayloadDisposition.
Proof.
  refine (ser_via (fun x => match x with Retained => 0 | PayloadDeleted => 1 end)
    (fun n : Z => match n with 0 => Retained | _ => PayloadDeleted end) _).
  by intros [].
Defined.

#[export] Instance TorrentStopReason_ser : Ser TorrentStopReason.
Proof.
  refine (ser_via (fun x => match x with Manual => 0 | DownloadComplete => 1 | RatioLimit => 2 | TimeLimit => 3 | StorageFull => 4 end)
    (fun n : Z => match n with 0 => Manual | 1 => DownloadComplete | 2 => RatioLimit | 3 => TimeLimit | _ => StorageFull end) _).
  by intros [].
Defined.

#[export] Instance DupeMode_ser : Ser DupeMode.
Proof.
  refine (ser_via (fun x => match x with DupeScore => 0 | DupeAll => 1 | DupeForce => 2 end)
    (fun n : Z => match n with 0 => DupeScore | 1 => DupeAll | _ => DupeForce end) _).
  by intros [].
Defined.

#[export] Instance PostStage_ser : Ser PostStage.
Proof.
  refine (ser_via (fun x => match x with ParRename => 0 | ParVerify => 1 | ParRepair => 2 | RarRename => 3 | Unpack => 4 | Cleanup => 5 | Move => 6 | PostUnpackRename => 7 | Script => 8 end)
    (fun n : Z => match n with 0 => ParRename | 1 => ParVerify | 2 => ParRepair | 3 => RarRename | 4 => Unpack | 5 => Cleanup | 6 => Move | 7 => PostUnpackRename | _ => Script end) _).
  by intros [].
Defined.

#[export] Instance TorrentRemovalIntent_ser : Ser TorrentRemovalIntent.
Proof.
  refine (ser_via
    (fun x => (delete_data x))
    (fun a0 =>
       {| delete_data := a0 |}) _).
  by intros [].
Defined.

#[export] Instance SeedPolicy_ser : Ser SeedPolicy.
Proof.
  refine (ser_via
    (fun x => (stop_on_complete x, ratio_limit x, time_limit_secs x))
    (fun '(a0, a1, a2) =>
       {| stop_on_complete := a0; ratio_limit := a1; time_limit_secs := a2 |}) _).
  by intros [].
Defined.

#[export] Instance TorrentFileRecord_ser : Ser TorrentFileRecord.
Proof.
  refine (ser_via
    (fun x => (tf_path x, tf_length x, tf_selected x, tf_downloaded_bytes x))
    (fun '(a0, a1, a2, a3) =>
       {| tf_path := a0; tf_length := a1; tf_selected := a2; tf_downloaded_bytes := a3 |}) _).
  by intros [].
Defined.

#[export] Instance TorrentRecord_ser : Ser TorrentRecord.
Proof.
  refine (ser_via
    (fun x => (info_hash_v1 x, source x, metadata_file x, payload_root x, phase x, control_intent x,
      removal_intent x, removal_outcome x, removal_confirmed_at_unix x, torrent_files x,
      total_bytes x, selected_bytes x, downloaded_bytes x, uploaded_bytes x, seeding_seconds x,
      torrent_ready_at_unix x, content_path x, seed_policy x, stop_reason x, last_activity_unix x,
      last_error x))
    (fun '(a0, a1, a2, a3, a4, a5, a6, a7, a8, a9, a10, a11, a12, a13, a14, a15, a16, a17, a18,
      a19, a20) =>
       {| info_hash_v1 := a0; source := a1; metadata_file := a2; payload_root := a3; phase := a4;
       control_intent := a5; removal_intent := a6; removal_outcome := a7;
       removal_confirmed_at_unix := a8; torrent_files := a9; total_bytes := a10; selected_bytes :=
       a11; downloaded_bytes := a12; uploaded_bytes := a13; seeding_seconds := a14;
       torrent_ready_at_unix := a15; content_path := a16; seed_policy := a17; stop_reason := a18;
       last_activity_unix := a19; last_error := a20 |}) _).
  by intros [].
Defined.

#[export] Instance DupeInfo_ser : Ser DupeInfo.
Proof.
  refine (ser_via
    (fun x => (dupe_key x, dupe_score x, dupe_mode x))
    (fun '(a0, a1, a2) =>
       {| dupe_key := a0; dupe_score := a1; dupe_mode := a2 |}) _).
  by intros [].
Defined.

#[export] Instance JobTotals_ser : Ser JobTotals.
Proof.
  refine (ser_via
    (fun x => (size x, par_size x, failed_size x, failed_par_size x, success_size x, total_articles x,
      success_articles x, failed_articles x))
    (fun '(a0, a1, a2, a3, a4, a5, a6, a7) =>
       {| size := a0; par_size := a1; failed_size := a2; failed_par_size := a3; success_size :=
       a4; total_articles := a5; success_articles := a6; failed_articles := a7 |}) _).
  by intros [].
Defined.

#[export] Instance SegmentState_ser : Ser SegmentState.
Proof.
  refine (ser_via
    (fun x => match x with
              | Pending => inl false | Failed => inl true
              | Leased s => inr (inl s) | Done off len crc => inr (inr (off, len, crc))
              end)
    (fun c => match c with
              | inl false => Pending | inl true => Failed
              | inr (inl s) => Leased s | inr (inr (off, len, crc)) => Done off len crc
              end) _).
  by intros [].
Defined.

#[export] Instance JobStatus_ser : Ser JobStatus.
Proof.
  refine (ser_via
    (fun x => match x with
              | JS_Queued => inl 0 | JS_Downloading => inl 1 | JS_Paused => inl 2 | JS_Fetching => inl 3
              | JS_PostQueued => inl 4 | JS_Completed => inl 5 | JS_Failed => inl 6 | JS_Deleted => inl 7
              | JS_Post st => inr st
              end)
    (fun c => match c with
              | inl 0 => JS_Queued | inl 1 => JS_Downloading | inl 2 => JS_Paused | inl 3 => JS_Fetching
              | inl 4 => JS_PostQueued | inl 5 => JS_Completed | inl 6 => JS_Failed | inl _ => JS_Deleted
              | inr st => JS_Post st
              end) _).
  by intros [].
Defined.

#[export] Instance Segment_ser : Ser Segment.
Proof.
  refine (ser_via
    (fun x => (message_id x, number x, seg_size x, state x))
    (fun '(a0, a1, a2, a3) =>
       {| message_id := a0; number := a1; seg_size := a2; state := a3 |}) _).
  by intros [].
Defined.

#[export] Instance FileEntry_ser : Ser FileEntry.
Proof.
  refine (ser_via
    (fun x => (file_id x, subject x, filename x, filename_confirmed x, is_par2 x, paused x, groups x, date
      x, segments x, file_crc32 x, finalized x))
    (fun '(a0, a1, a2, a3, a4, a5, a6, a7, a8, a9, a10) =>
       {| file_id := a0; subject := a1; filename := a2; filename_confirmed := a3; is_par2 := a4;
       paused := a5; groups := a6; date := a7; segments := a8; file_crc32 := a9; finalized := a10
       |}) _).
  by intros [].
Defined.

#[export] Instance StageSpan_ser : Ser StageSpan.
Proof.
  refine (ser_via
    (fun x => (stage x, started_at_unix x, span_ms x))
    (fun '(a0, a1, a2) =>
       {| stage := a0; started_at_unix := a1; span_ms := a2 |}) _).
  by intros [].
Defined.

#[export] Instance Job_ser : Ser Job.
Proof.
  refine (ser_via
    (fun x => (job_id x, kind x, name x, dir_name x, name_provisional x, queued_at_unix x, original_name
      x, category x, priority x, dupe x, params x, files x, totals x, status x, torrent x, stages
      x))
    (fun '(a0, a1, a2, a3, a4, a5, a6, a7, a8, a9, a10, a11, a12, a13, a14, a15) =>
       {| job_id := a0; kind := a1; name := a2; dir_name := a3; name_provisional := a4;
       queued_at_unix := a5; original_name := a6; category := a7; priority := a8; dupe := a9;
       params := a10; files := a11; totals := a12; status := a13; torrent := a14; stages := a15 |}) _).
  by intros [].
Defined.

#[export] Instance PendingAdmission_ser : Ser PendingAdmission.
Proof.
  refine (ser_via
    (fun x => (pa_job_id x, pa_source x, secret_ref x, pa_category x, pa_priority x, pa_paused x,
      pa_seed_ratio_limit x, pa_seed_time_limit_secs x, pa_stop_seeding_on_complete x, pa_params
      x, pa_client x))
    (fun '(a0, a1, a2, a3, a4, a5, a6, a7, a8, a9, a10) =>
       {| pa_job_id := a0; pa_source := a1; secret_ref := a2; pa_category := a3; pa_priority :=
       a4; pa_paused := a5; pa_seed_ratio_limit := a6; pa_seed_time_limit_secs := a7;
       pa_stop_seeding_on_complete := a8; pa_params := a9; pa_client := a10 |}) _).
  by intros [].
Defined.

#[export] Instance QueueSnapshotDoc_ser : Ser QueueSnapshotDoc.
Proof.
  refine (ser_via
    (fun x => (schema_version x, q_pending_admissions x, q_jobs x, q_next_job_id x, q_next_file_id x,
      q_download_paused x, q_speed_limit_bps x, q_max_active_downloads x))
    (fun '(a0, a1, a2, a3, a4, a5, a6, a7) =>
       {| schema_version := a0; q_pending_admissions := a1; q_jobs := a2; q_next_job_id := a3;
       q_next_file_id := a4; q_download_paused := a5; q_speed_limit_bps := a6;
       q_max_active_downloads := a7 |}) _).
  by intros [].
Defined.

Definition counted_doc : DocCodec.
Proof.
  refine {|
    doc_to_vec d := ser d;
    doc_from_slice b := fst <$> deser b;
    header_from_slice b := None |}.
  intros d. rewrite <- (app_nil_r (ser d)), deser_ser. done.
Defined.

(** A field of a record, away from the line feed. *)
Definition field_byte (z : Z) : Z := if 0 <=? z then 2 * z + 12 else -2 * z + 11.
Definition byte_field (b : Z) : Z := if b mod 2 =? 0 then (b - 12) / 2 else (11 - b) / 2.

Lemma byte_field_byte z : byte_field (field_byte z) = z.
Proof.
  unfold byte_field, field_byte. destruct (0 <=? z) eqn:E; bool_hyps.
  - replace (2 * z + 12) with ((z + 6) * 2) by lia. rewrite Z_mod_mult. simpl.
    replace ((z + 6) * 2 - 12) with (z * 2) by lia. by rewrite Z_div_mult.
  - replace (-2 * z + 11) with (1 + (5 - z) * 2) by lia. rewrite Z_mod_plus_full. simpl.
    replace (11 - (1 + (5 - z) * 2)) with (z * 2) by lia. by rewrite Z_div_mult.
Qed.

Definition counted_journal : JournalCodec.
Proof.
  refine {|
    to_vec r := map field_byte [jr_job r; jr_file r; jr_segment_number r; jr_offset r; jr_len r; jr_crc32 r; jr_file_size r];
    from_slice b :=
      match map byte_field b with
      | [a; b; c; d; e; f; g] =>
          Some {| jr_job := a; jr_file := b; jr_segment_number := c; jr_offset := d; jr_len := e;
                  jr_crc32 := f; jr_file_size := g |}
      | _ => None
      end |}.
  - intros []. simpl. by rewrite !byte_field_byte.
  - done.
  - intros r. apply Forall_fmap, Forall_true. intros z. unfold field_byte. simpl. case_if; bool_hyps; lia.
  - intros r n Hn. simpl in Hn. by do 7 (destruct n as [|n]; [done|]); lia.
  - intros r r' n Hn. simpl in Hn. destruct n as [|n]; [lia|].
    by do 6 (destruct n as [|n]; [done|]); lia.
Defined.
