(* ===== verification/Store.v ===== *)
(** * Journals and the queue snapshot ([crates/nzbd-state/src/lib.rs])

    The segment journals (the legacy single one and the fenced ones per job),
    the atomic snapshot and the unclean-shutdown marker, over the file system of
    [Fs].  The JSON encodings are the interfaces [JournalCodec] and [DocCodec]. *)

From S2P Require Import Prelude RustStr Types Queue Fs Codec.

Section Store.
Context {jc : JournalCodec} {dc : DocCodec}.

Definition journal_line (r : JournalRecord) : bytes := to_vec r ++ [10].

(** Every intact record, up to the first line that does not parse. *)
Fixpoint intact (lines : list bytes) : list JournalRecord :=
  match lines with
  | [] => []
  | l :: ls =>
      if bool_decide (l = []) then intact ls
      else match from_slice l with Some r => r :: intact ls | None => [] end
  end.

Definition replay_bytes (b : bytes) : list JournalRecord := intact (split_chars (Z.eqb 10) b).

(** ** The legacy journal *)

Record FsJournal := { fj_dirty : bool }.

Definition LEGACY : str := lit "segments.journal".

Definition FsJournal_open : io FsJournal :=
  let* _ := open_append_top LEGACY in io_ret {| fj_dirty := false |}.

Definition FsJournal_append (j : FsJournal) (rec : JournalRecord) : io (FsJournal * result unit StateError) :=
  let* r := io_try (write_whole LEGACY (journal_line rec)) in
  match r with
  | Err e => io_ret (j, Err e)
  | Ok _ => io_ret ({| fj_dirty := true |}, Ok tt)
  end.

Definition FsJournal_sync (j : FsJournal) : io (FsJournal * result unit StateError) :=
  if fj_dirty j then
    let* r := io_try (sync_top LEGACY) in
    match r with
    | Err e => io_ret (j, Err e)
    | Ok _ => io_ret ({| fj_dirty := false |}, Ok tt)
    end
  else io_ret (j, Ok tt).

Definition FsJournal_replay : io (list JournalRecord) :=
  let* r := io_try (read LEGACY) in
  match r with
  | Ok b => io_ret (replay_bytes b)
  | Err e => if is_not_found e then io_ret [] else io_fail e
  end.

Definition FsJournal_compact (j : FsJournal) : io (FsJournal * result unit StateError) :=
  let* r := io_try (let* _ := create LEGACY in sync_top LEGACY) in
  match r with
  | Err e => io_ret (j, Err e)
  | Ok _ => io_ret ({| fj_dirty := false |}, Ok tt)
  end.

(** ** The fenced journals per job *)

Definition sanitize_suffix (s : str) : str :=
  let cleaned := map (fun c => if is_ascii_alphanumeric c || (c =? 45) || (c =? 95) then c else 95) s in
  if bool_decide (cleaned = []) then lit "local" else cleaned.

Record JobJournals := mkJournals {
  jj_suffix : str;
  jj_open : gset JobId;
  jj_dirty : bool
}.

Definition JobJournals_open (suffix : str) : JobJournals := mkJournals (sanitize_suffix suffix) ∅ false.

Definition job_dir (job : JobId) : str := show_dec job.
Definition journal_file (j : JobJournals) : str := lit "journal." ++ jj_suffix j.

Definition file_for (j : JobJournals) (job : JobId) : io (JobJournals * result unit StateError) :=
  if bool_decide (job ∈ jj_open j) then io_ret (j, Ok tt)
  else
    let* r := io_try (let* _ := create_dir_all (job_dir job) in open_append (job_dir job) (journal_file j)) in
    match r with
    | Err e => io_ret (j, Err e)
    | Ok _ => io_ret (mkJournals (jj_suffix j) ({[job]} ∪ jj_open j) (jj_dirty j), Ok tt)
    end.

Definition append (j : JobJournals) (rec : JournalRecord) : io (JobJournals * result unit StateError) :=
  let* (j, r) := file_for j (jr_job rec) in
  match r with
  | Err e => io_ret (j, Err e)
  | Ok _ =>
      let* r := io_try (write_all (job_dir (jr_job rec)) (journal_file j) (journal_line rec)) in
      match r with
      | Err e => io_ret (j, Err e)
      | Ok _ => io_ret (mkJournals (jj_suffix j) (jj_open j) true, Ok tt)
      end
  end.

Fixpoint sync_each (nm : str) (l : list JobId) : io unit :=
  match l with
  | [] => io_ret tt
  | job :: l' => let* _ := sync_data (job_dir job) nm in sync_each nm l'
  end.

Definition sync (j : JobJournals) : io (JobJournals * result unit StateError) :=
  if jj_dirty j then
    let* r := io_try (sync_each (journal_file j) (elements (jj_open j))) in
    match r with
    | Err e => io_ret (j, Err e)
    | Ok _ => io_ret (mkJournals (jj_suffix j) (jj_open j) false, Ok tt)
    end
  else io_ret (j, Ok tt).

Fixpoint replay_files (dir : str) (names : list str) : io (list JournalRecord) :=
  match names with
  | [] => io_ret []
  | nm :: names' =>
      if negb (starts_with (lit "journal.") nm) then replay_files dir names'
      else
        let* o := io_try (open_file dir nm) in
        match o with
        | Err _ => replay_files dir names'
        | Ok _ =>
            let* b := read_file dir nm in
            let* rest := replay_files dir names' in
            io_ret (replay_bytes b ++ rest)
        end
  end.

Definition replay_dir (dir : str) : io (list JournalRecord) :=
  let* r := io_try (read_dir dir) in
  match r with
  | Ok names => replay_files dir names
  | Err e => if is_not_found e then io_ret [] else io_fail e
  end.

Definition replay_job (job : JobId) : io (list JournalRecord) := replay_dir (job_dir job).

Fixpoint replay_dirs (dirs : list str) : io (list JournalRecord) :=
  match dirs with
  | [] => io_ret []
  | d :: dirs' =>
      let* rs := replay_dir d in
      let* rest := replay_dirs dirs' in
      io_ret (rs ++ rest)
  end.

Definition replay_all : io (list JournalRecord) :=
  let* r := io_try read_jobs_dir in
  match r with
  | Ok dirs => replay_dirs dirs
  | Err e => if is_not_found e then io_ret [] else io_fail e
  end.

Definition remove_job (j : JobJournals) (job : JobId) : io (JobJournals * result unit StateError) :=
  let j := mkJournals (jj_suffix j) (jj_open j ∖ {[job]}) (jj_dirty j) in
  let* r := io_try (remove_dir_all (job_dir job)) in
  match r with
  | Err e => if is_not_found e then io_ret (j, Ok tt) else io_ret (j, Err e)
  | Ok _ => io_ret (j, Ok tt)
  end.

(** ** The snapshot *)

Definition OLDEST_QUEUE_SCHEMA_VERSION : Z := 1.

Definition validate_queue_schema_version (v : Z) : result unit StateError :=
  if QUEUE_SCHEMA_VERSION <? v then Err (SE_Corrupt (lit "newer"))
  else if v <? OLDEST_QUEUE_SCHEMA_VERSION then Err (SE_Corrupt (lit "older"))
  else Ok tt.

Definition of_result {A} (r : result A StateError) : io A :=
  match r with Ok a => io_ret a | Err e => io_fail e end.

Definition save_guarded (d : QueueSnapshotDoc) (guard : bool) : io Z :=
  if negb (schema_version d =? QUEUE_SCHEMA_VERSION) then io_fail (SE_Corrupt (lit "schema"))
  else
    let bytes := doc_to_vec d in
    let* _ := create QUEUE_TMP in
    let* _ := write_whole QUEUE_TMP bytes in
    let* _ := sync_top QUEUE_TMP in
    if negb guard then io_fail (SE_Corrupt (lit "fenced: no longer the authority"))
    else
      let* _ := rename QUEUE_TMP QUEUE_JSON in
      let* _ := sync_dir in
      io_ret (Z.of_nat (length bytes)).

Definition save (d : QueueSnapshotDoc) : io Z := save_guarded d true.

Definition load : io (option QueueSnapshotDoc) :=
  let* r := io_try (read QUEUE_JSON) in
  match r with
  | Err e => if is_not_found e then io_ret None else io_fail e
  | Ok b =>
      match doc_from_slice b with
      | Some d => let* _ := of_result (validate_queue_schema_version (schema_version d)) in io_ret (Some d)
      | None =>
          match header_from_slice b with
          | Some v =>
              let* _ := of_result (validate_queue_schema_version v) in
              io_fail (SE_Corrupt (lit "queue.json"))
          | None => io_fail (SE_Corrupt (lit "queue.json"))
          end
      end
  end.

(** ** The unclean-shutdown marker *)

Definition marker_file (tag : str) : str := lit "unclean." ++ sanitize_suffix tag.

Definition check_and_arm (tag : str) : io bool :=
  let* r := io_try (exists_file (marker_file tag)) in
  let was_unclean := match r with Ok b => b | Err _ => false end in
  let* _ := create (marker_file tag) in
  io_ret was_unclean.

Definition disarm (tag : str) : io unit :=
  let* r := io_try (remove_file (marker_file tag)) in
  match r with
  | Err e => if is_not_found e then io_ret tt else io_fail e
  | Ok _ => io_ret tt
  end.

End Store.

(** ** Replay *)

Section Replay.
Context {jc : JournalCodec}.

Definition journal_bytes (rs : list JournalRecord) : bytes := concat (map journal_line rs).

Lemma no_lf r : Forall (fun c => (10 =? c) = false) (to_vec r).
Proof. eapply Forall_impl; [apply to_vec_line|]. intros b Hb. cbv beta in Hb. lia. Qed.

Lemma replay_line r b : replay_bytes (journal_line r ++ b) = r :: replay_bytes b.
Proof.
  unfold replay_bytes, journal_line. rewrite <- app_assoc. cbn [app].
  rewrite split_chars_app by (done || apply no_lf). cbn [intact].
  rewrite bool_decide_eq_false_2 by apply to_vec_nonempty. by rewrite from_to.
Qed.

Lemma replay_journal rs b : replay_bytes (journal_bytes rs ++ b) = rs ++ replay_bytes b.
Proof.
  induction rs as [|r rs IH]; [done|]. unfold journal_bytes in *. cbn [map concat].
  by rewrite <- app_assoc, replay_line, IH.
Qed.

Lemma replay_torn r n : (n <= length (to_vec r))%nat ->
  replay_bytes (take n (to_vec r)) = if bool_decide (n = length (to_vec r)) then [r] else [].
Proof.
  intros Hn. unfold replay_bytes.
  rewrite split_chars_none by (apply Forall_take, no_lf). cbn [intact].
  case_bool_decide as He; case_bool_decide as Hl; subst; try done.
  - rewrite firstn_all in He. by apply to_vec_nonempty in He.
  - by rewrite firstn_all, from_to.
  - by rewrite from_torn by lia.
Qed.

Lemma journal_bytes_cons r rs : journal_bytes (r :: rs) = journal_line r ++ journal_bytes rs.
Proof. done. Qed.

Lemma journal_bytes_app rs rs' : journal_bytes (rs ++ rs') = journal_bytes rs ++ journal_bytes rs'.
Proof. unfold journal_bytes. by rewrite map_app, concat_app. Qed.

Lemma length_line r : length (journal_line r) = S (length (to_vec r)).
Proof. unfold journal_line. rewrite length_app. simpl. lia. Qed.

(** However a journal is cut, replay gives a prefix of its records, with every
    record whose line is whole. *)
Lemma replay_cut rs : forall n, exists k, replay_bytes (take n (journal_bytes rs)) = take k rs /\
  (forall i, (i <= length rs)%nat -> (length (journal_bytes (take i rs)) <= n)%nat -> (i <= k)%nat).
Proof.
  induction rs as [|r rs IH]; intros n.
  { exists 0%nat. unfold journal_bytes. simpl. rewrite take_nil. split; [done|]. intros. lia. }
  rewrite journal_bytes_cons. destruct (decide (length (journal_line r) <= n)%nat) as [Hle|Hlt].
  - destruct (IH (n - length (journal_line r))%nat) as (k & Hk & Hall). exists (S k).
    rewrite take_app, firstn_all2 by done. rewrite replay_line, Hk. split; [done|].
    intros [|i] Hi Hlen; [lia|]. cbn [take] in Hlen. rewrite journal_bytes_cons, length_app in Hlen.
    apply le_n_S, Hall; [simpl in Hi|]; lia.
  - rewrite length_line in Hlt. rewrite take_app_le by (rewrite length_line; lia).
    unfold journal_line. rewrite take_app_le by lia. rewrite replay_torn by lia.
    exists (if bool_decide (n = length (to_vec r)) then 1 else 0)%nat. split; [by case_bool_decide|].
    intros [|i] Hi Hlen; [lia|]. cbn [take] in Hlen.
    rewrite journal_bytes_cons, length_app, length_line in Hlen. lia.
Qed.

(** replay of a cut journal is exact.  Wherever a journal of whole records is
    cut (a crash, a torn append), replay returns a prefix of the records, in
    order, that holds every record whose line is whole, and nothing else. *)
Theorem journal_torn_replay rs n : exists k,
  replay_bytes (take n (journal_bytes rs)) = take k rs /\
  (forall i, (i <= length rs)%nat -> (length (journal_bytes (take i rs)) <= n)%nat -> (i <= k)%nat).
Proof. apply replay_cut. Qed.

End Replay.

(** ** The snapshot is replaced atomically *)

Section Snapshot.
Context {dc : DocCodec}.

(** [queue.json] is on disk, whatever happens. *)
Record committed (o : option DFile) (d : Disk) : Prop := {
  co_json : top d !! QUEUE_JSON = o;
  co_old : json_old d = [];
  co_durable : forall f, o = Some f -> durable f = length (content f)
}.

Definition doc_file (doc : QueueSnapshotDoc) : DFile :=
  {| content := doc_to_vec doc; durable := length (doc_to_vec doc) |}.

(** Between the rename and the directory's sync. *)
Record renamed (o : option DFile) (doc : QueueSnapshotDoc) (d : Disk) : Prop := {
  re_json : top d !! QUEUE_JSON = Some (doc_file doc);
  re_old : json_old d = [o];
  re_durable : forall f, o = Some f -> durable f = length (content f)
}.

Lemma committed_crash names o d d' : committed o d -> crash_disk names d d' -> top d' !! QUEUE_JSON = o.
Proof.
  intros [H1 H2 H3] [(v & Hv & Hf) _ _ _]. rewrite H2, H1 in Hv.
  apply list_elem_of_singleton in Hv as ->. inversion Hf as [f f' Hc Ho He|Ho He]; subst; [|done].
  rewrite (crash_file_durable f f'); [done| |done]. by apply H3.
Qed.

Lemma renamed_crash names o doc d d' : renamed o doc d -> crash_disk names d d' ->
  top d' !! QUEUE_JSON = o \/ top d' !! QUEUE_JSON = Some (doc_file doc).
Proof.
  intros [H1 H2 H3] [(v & Hv & Hf) _ _ _]. rewrite H2, H1 in Hv.
  apply elem_of_cons in Hv as [->|Hv].
  - right. inversion Hf as [f f' Hc Ho He|Ho He]; subst.
    by rewrite (crash_file_durable (doc_file doc) f').
  - left. apply list_elem_of_singleton in Hv as ->. inversion Hf as [f f' Hc Ho He|Ho He]; subst; [|done].
    rewrite (crash_file_durable f f'); [done| |done]. by apply H3.
Qed.

Lemma committed_top o d t : committed o d -> t !! QUEUE_JSON = top d !! QUEUE_JSON -> committed o (set_top t d).
Proof. intros [H1 H2 H3] Ht. split; simpl; [congruence|done|done]. Qed.

Lemma tmp_json : QUEUE_TMP <> QUEUE_JSON.
Proof. done. Qed.

Lemma committed_alter o d g : committed o d -> committed o (set_top (alter g QUEUE_TMP (top d)) d).
Proof. intros H. apply committed_top; [done|]. by rewrite lookup_alter_ne. Qed.

Definition same_jobs (j : gmap str (gmap str DFile)) (w : World) : Prop := jobdirs (disk w) = j.

(** The steps of a save: before the rename the old snapshot is committed, after
    it either may survive, at the end the new one is committed. *)
Lemma wp_save_guarded doc guard o w : committed o (disk w) ->
  let j := jobdirs (disk w) in
  let mid := fun w' => same_jobs j w' /\ (committed o (disk w') \/ (guard = true /\ renamed o doc (disk w'))) in
  wp (save_guarded doc guard)
    (fun _ w' => same_jobs j w' /\ guard = true /\ committed (Some (doc_file doc)) (disk w'))
    (fun _ w' => mid w') mid w.
Proof.
  intros Hc j mid. unfold save_guarded. destruct (schema_version doc =? _); [|by split; [|left]].
  cbn [negb]. apply wp_bind, wp_prim_any; cbn [disk].
  2,3: by split; [|left].
  intros fs1. set (d1 := set_top _ _).
  assert (C1 : committed o d1) by (apply committed_top; [done|]; by rewrite lookup_insert_ne).
  apply wp_bind, wp_prim_any; cbn [disk].
  2,3: intros; split; [done|left; by apply committed_alter].
  intros fs2. set (d2 := set_top _ d1). assert (C2 : committed o d2) by (by apply committed_alter).
  apply wp_bind, wp_prim_any; cbn [disk].
  2,3: by split; [|left].
  intros fs3. set (d3 := set_top _ d2). assert (C3 : committed o d3) by (by apply committed_alter).
  assert (T3 : top d3 !! QUEUE_TMP = Some (doc_file doc)).
  { unfold d3, d2, d1, set_top. cbn [top]. by rewrite !lookup_alter_eq, lookup_insert_eq. }
  destruct guard; cbn [negb]; [|by split; [|left]].
  apply wp_bind, wp_prim_any; cbn [disk].
  2,3: by split; [|left].
  intros fs4. rewrite T3. set (d4 := mkDisk _ _ _ _).
  assert (R4 : renamed o doc d4).
  { destruct C3 as [H1 H2 H3]. split; unfold d4; cbn [top json_old]; [by rewrite lookup_insert_eq|by rewrite H1, H2|done]. }
  apply wp_bind, wp_prim_any; cbn [disk].
  2,3: by split; [|right].
  intros fs5. apply wp_ret. split; [done|]. split; [done|]. destruct R4 as [R1 R2 R3].
  split; [done|done|]. by intros f [= <-].
Qed.

(** C24: saving the snapshot is atomic.  Whatever call of a save fails or is cut
    short by a crash, after any number of bytes, [queue.json] is found with the
    old document or the new one, whole; with the new one whenever the save
    returned, and with the old one whenever the guard refused.  The journals are
    not touched. *)
Theorem save_atomic names doc guard o w res w' dd :
  committed o (disk w) -> save_guarded doc guard w = (res, w') -> crash_disk names (disk w') dd ->
  (top dd !! QUEUE_JSON = o \/ (guard = true /\ top dd !! QUEUE_JSON = Some (doc_file doc))) /\
  (forall n, res = Val n -> top dd !! QUEUE_JSON = Some (doc_file doc)) /\
  jobdirs (disk w') = jobdirs (disk w).
Proof.
  intros Hc Hs Hd. pose proof (wp_save_guarded doc guard o w Hc) as Hw. cbv zeta in Hw.
  unfold wp in Hw. rewrite Hs in Hw. destruct res as [n|e|].
  - destruct Hw as (Hj & Hg & Hw). pose proof (committed_crash _ _ _ _ Hw Hd). split_and!; auto.
  - destruct Hw as (Hj & [Hw|[Hg Hw]]); split_and!; try done.
    + left. by eapply committed_crash.
    + destruct (renamed_crash _ _ _ _ _ Hw Hd); auto.
  - destruct Hw as (Hj & [Hw|[Hg Hw]]); split_and!; try done.
    + left. by eapply committed_crash.
    + destruct (renamed_crash _ _ _ _ _ Hw Hd); auto.
Qed.

End Snapshot.

(** A crash between the rename and the directory's sync leaves the old snapshot,
    here none. *)
Lemma save_atomic_witness :
  let doc := to_doc queue_default in
  let w := {| disk := mkDisk ∅ ∅ [] []; fates := [Succeed; Succeed; Succeed; Succeed; CrashAt 0] |} in
  let r := save_guarded (dc := counted_doc) doc true w in
  let dd := mkDisk ∅ ∅ [] [] in
  crash_disk false (disk (snd r)) dd /\
  (top dd !! QUEUE_JSON = None \/ (true = true /\ top dd !! QUEUE_JSON = Some (doc_file (dc := counted_doc) doc))) /\
  (forall n, fst r = Val n -> top dd !! QUEUE_JSON = Some (doc_file (dc := counted_doc) doc)) /\
  jobdirs (disk (snd r)) = jobdirs (disk w).
Proof.
  intros doc w r dd.
  assert (Hd : crash_disk false (disk (snd r)) dd).
  { split; [|done| |].
    - exists None. split; [|constructor]. right. left.
    - intros nm H1 H2.
      assert (top (disk (snd r)) = {[QUEUE_JSON := doc_file (dc := counted_doc) doc]}) as -> by (by vm_compute).
      rewrite lookup_singleton_ne by done. constructor. by intros [].
    - intros dir nm. constructor. by intros []. }
  split; [exact Hd|].
  apply (save_atomic (dc := counted_doc) false doc true None w (fst r) (snd r) dd); [|done|exact Hd].
  by split.
Defined.

(** ** A failed append *)

Section Torn.
Context {jc : JournalCodec}.

Lemma job_file_alter g dir nm d : job_file (alter_job_file g dir nm d) dir nm = g <$> job_file d dir nm.
Proof.
  unfold job_file, alter_job_file, set_jobdirs. cbn [jobdirs]. rewrite lookup_alter_eq.
  destruct (jobdirs d !! dir) as [fs|]; [|done]. simpl. by rewrite lookup_alter_eq.
Qed.

Lemma job_file_alter_ne g dir nm dir' nm' d : (dir, nm) <> (dir', nm') ->
  job_file (alter_job_file g dir nm d) dir' nm' = job_file d dir' nm'.
Proof.
  intros Hne. unfold job_file, alter_job_file, set_jobdirs. cbn [jobdirs].
  destruct (decide (dir = dir')) as [->|Hd]; [|by rewrite lookup_alter_ne].
  rewrite lookup_alter_eq. destruct (jobdirs d !! dir') as [fs|]; [|done]. simpl.
  rewrite lookup_alter_ne; [done|]. congruence.
Qed.

(** What is on disk after [n] bytes of one record and all of the next. *)
Lemma replay_glued rs r1 r2 n : (0 < n < length (to_vec r1))%nat ->
  replay_bytes (journal_bytes rs ++ take n (journal_line r1) ++ journal_line r2) = rs.
Proof.
  intros Hn. rewrite replay_journal. unfold journal_line at 1. rewrite take_app_le by lia.
  unfold journal_line, replay_bytes. rewrite app_assoc.
  rewrite split_chars_app by (done || (apply Forall_app; split; [apply Forall_take|]; apply no_lf)).
  cbn [intact]. rewrite bool_decide_eq_false_2.
  - rewrite from_glued by lia. by rewrite app_nil_r.
  - intros E. apply app_nil in E as [_ E]. by apply to_vec_nonempty in E.
Qed.

(** a failed append loses the records after it.  When the write of one
    record stops part-way (a full volume), the next append goes on in the same
    line: it reports success, and so does the sync that follows, yet replay
    stops before it.  Only the records written before the failure come back. *)
Theorem failed_append_loses_later rs r1 r2 n w f suffix :
  (0 < n < length (to_vec r1))%nat -> jr_job r2 = jr_job r1 ->
  let j := mkJournals suffix {[jr_job r1]} false in
  let dir := job_dir (jr_job r1) in
  job_file (disk w) dir (journal_file j) = Some f -> content f = journal_bytes rs ->
  fates w = [Fault OtherIo n] ->
  exists w' f',
    (let* (j1, a1) := append j r1 in
     let* (j2, a2) := append j1 r2 in
     let* (j3, s) := sync j2 in
     io_ret (a1, a2, s)) w = (Val (Err (SE_Io OtherIo), Ok tt, Ok tt), w') /\
    job_file (disk w') dir (journal_file j) = Some f' /\
    durable f' = length (content f') /\ replay_bytes (content f') = rs.
Proof.
  intros Hn Hr2 j dir Hf Hcont Hfates.
  eexists {| disk := _; fates := [] |}, (settle (extend (journal_line r2) (extend (take n (journal_line r1)) f))).
  split; [|split].
  - unfold append, file_for, io_bind. cbn [jj_open j].
    rewrite (bool_decide_eq_true_2 (jr_job r1 ∈ {[jr_job r1]})) by set_solver.
    unfold io_try, io_ret, write_all, prim at 1. rewrite Hfates. cbn [jj_open j].
    rewrite Hr2, (bool_decide_eq_true_2 (jr_job r1 ∈ {[jr_job r1]})) by set_solver.
    unfold prim. cbn [fates tail disk]. unfold sync. cbn [jj_dirty jj_open jj_suffix].
    change (jj_open j) with ({[jr_job r1]} : gset JobId). rewrite elements_singleton. reflexivity.
  - cbn [disk]. unfold journal_file in *. cbn [jj_suffix j] in *.
    by rewrite !job_file_alter, Hf.
  - split; [done|]. simpl. rewrite Hcont, <- app_assoc. by apply replay_glued.
Qed.

End Torn.

Lemma failed_append_loses_later_witness :
  let jc := counted_journal in
  let rec n := {| jr_job := 1; jr_file := 1; jr_segment_number := n; jr_offset := 0; jr_len := 5; jr_crc32 := 7;
                  jr_file_size := 0 |} in
  let j := mkJournals (lit "local") {[1]} false in
  let f := {| content := journal_bytes [rec 1]; durable := 0 |} in
  let w := {| disk := mkDisk ∅ {[lit "1" := {[lit "journal.local" := f]}]} [] []; fates := [Fault OtherIo 3] |} in
  exists w' f',
    (let* (j1, a1) := append j (rec 2) in
     let* (j2, a2) := append j1 (rec 3) in
     let* (j3, s) := sync j2 in
     io_ret (a1, a2, s)) w = (Val (Err (SE_Io OtherIo), Ok tt, Ok tt), w') /\
    job_file (disk w') (job_dir 1) (journal_file j) = Some f' /\
    durable f' = length (content f') /\ replay_bytes (content f') = [rec 1].
Proof.
  intros jc rec j f w.
  apply (failed_append_loses_later (jc := jc) [rec 1] (rec 2) (rec 3) 3 w f (lit "local")); [simpl; lia|done| |done|done].
  vm_compute. reflexivity.
Defined.
