(* ===== verification/Owner.v ===== *)
(** * The queue owner's segment life cycle ([crates/nzbd-engine/src/owner.rs])

    The single writer of the queue: it hands out leases, takes the writers' and
    connections' reports, fails segments, completes files and jobs, journals
    every written segment and saves the snapshot.  Handlers run in the I/O monad
    of [Fs]; channels, clocks and the allocation inventory are the environment
    [Env].  The read model it publishes, its watch counters and its log are not
    part of the state. *)

From S2P Require Import Prelude RustStr Crc32 Types Failover Volumes Nzb JobNames Queue Selection ParSelect Fs Codec Store.

(** ** State *)

Inductive Event :=
| E_SegmentExhausted (job : JobId) (file : FileId) (segment : Z)
| E_FileFinished (job : JobId) (file : FileId) (filename : str) (ok : bool)
| E_JobFinished (job : JobId) (name : str) (status : JobStatus) (health : Z)
| E_ServerBlocked (server : ServerId) (seconds : Z)
| E_JobAdded (job : JobId) (name : str)
| E_JobDeleted (job : JobId)
| E_UrlFetchResolved (job : JobId)
| E_JobAssigned (job : JobId) (node : option str)
| E_QueuePauseChanged (paused : bool) (source : str)
| E_SpeedLimitChanged (bytes_per_sec : option Z)
| E_MaxActiveDownloadsChanged (n : Z).

Inductive WriteCmd := Finalize (file_size : Z) (combined_crc : option Z).

(** The answer of a writer's bounded channel. *)
Inductive SendOutcome := SendOk | SendFull | SendClosed.

Inductive BackendCommand :=
| BC_Start (job : JobId)
| BC_Pause (job : JobId)
| BC_PauseForSeedPolicy (job : JobId)
| BC_PauseForStorage (job : JobId)
| BC_PauseForScheduler (job : JobId)
| BC_Resume (job : JobId)
| BC_Remove (job : JobId) (del : bool) (content : option str) (fs : list TorrentFileRecord) (allowed_roots : list str)
| BC_SetPriority (job : JobId) (prio : Z)
| BC_SetDownloadLimit (bytes_per_sec : option Z)
| BC_SetUploadLimit (bytes_per_sec : option Z).

Record Owner := mkOwner {
  o_state : QueueState;
  o_attempts : gmap (Z * Z * Z) SegmentAttempt;
  o_blocked : gmap ServerId Z;
  o_writers : gset FileId;
  o_retiring : gset JobId;
  o_allocated : gset JobId;
  o_finalize_sent : gset FileId;
  o_pending_finalize : list (JobId * FileId);
  o_inspections : gmap JobId Z;
  o_file_sizes : gmap FileId Z;
  o_write_failures : gmap JobId str;
  o_delegated : gmap JobId str;
  o_post_fetch : gmap JobId (gset FileId);
  o_retry_counts : gmap JobId Z;
  o_journal : JobJournals;
  o_persist : bool;
  o_dirty : bool;
  o_volumes : VolumeBook;
  o_quota_reached : bool;
  o_disk_low : bool;
  o_rotate : nat;
  o_commands : list (FileId * WriteCmd);
  o_events : list Event;
  o_enospc_latched : bool;
  o_enospc_observed : Z;
  o_enospc_where : option str;
  o_backend_pending : list BackendCommand;
  o_backend_started : gset JobId;
  o_guard_tick : Z
}.

Definition with_state (x : QueueState) (o : Owner) : Owner :=
  mkOwner x (o_attempts o) (o_blocked o) (o_writers o) (o_retiring o) (o_allocated o)
    (o_finalize_sent o) (o_pending_finalize o) (o_inspections o) (o_file_sizes o)
    (o_write_failures o) (o_delegated o) (o_post_fetch o) (o_retry_counts o) (o_journal o)
    (o_persist o) (o_dirty o) (o_volumes o) (o_quota_reached o) (o_disk_low o) (o_rotate o)
    (o_commands o) (o_events o) (o_enospc_latched o) (o_enospc_observed o) (o_enospc_where o)
    (o_backend_pending o) (o_backend_started o) (o_guard_tick o).
Definition with_attempts (x : gmap (Z * Z * Z) SegmentAttempt) (o : Owner) : Owner :=
  mkOwner (o_state o) x (o_blocked o) (o_writers o) (o_retiring o) (o_allocated o)
    (o_finalize_sent o) (o_pending_finalize o) (o_inspections o) (o_file_sizes o)
    (o_write_failures o) (o_delegated o) (o_post_fetch o) (o_retry_counts o) (o_journal o)
    (o_persist o) (o_dirty o) (o_volumes o) (o_quota_reached o) (o_disk_low o) (o_rotate o)
    (o_commands o) (o_events o) (o_enospc_latched o) (o_enospc_observed o) (o_enospc_where o)
    (o_backend_pending o) (o_backend_started o) (o_guard_tick o).
Definition with_blocked (x : gmap ServerId Z) (o : Owner) : Owner :=
  mkOwner (o_state o) (o_attempts o) x (o_writers o) (o_retiring o) (o_allocated o)
    (o_finalize_sent o) (o_pending_finalize o) (o_inspections o) (o_file_sizes o)
    (o_write_failures o) (o_delegated o) (o_post_fetch o) (o_retry_counts o) (o_journal o)
    (o_persist o) (o_dirty o) (o_volumes o) (o_quota_reached o) (o_disk_low o) (o_rotate o)
    (o_commands o) (o_events o) (o_enospc_latched o) (o_enospc_observed o) (o_enospc_where o)
    (o_backend_pending o) (o_backend_started o) (o_guard_tick o).
Definition with_writers (x : gset FileId) (o : Owner) : Owner :=
  mkOwner (o_state o) (o_attempts o) (o_blocked o) x (o_retiring o) (o_allocated o)
    (o_finalize_sent o) (o_pending_finalize o) (o_inspections o) (o_file_sizes o)
    (o_write_failures o) (o_delegated o) (o_post_fetch o) (o_retry_counts o) (o_journal o)
    (o_persist o) (o_dirty o) (o_volumes o) (o_quota_reached o) (o_disk_low o) (o_rotate o)
    (o_commands o) (o_events o) (o_enospc_latched o) (o_enospc_observed o) (o_enospc_where o)
    (o_backend_pending o) (o_backend_started o) (o_guard_tick o).
Definition with_retiring (x : gset JobId) (o : Owner) : Owner :=
  mkOwner (o_state o) (o_attempts o) (o_blocked o) (o_writers o) x (o_allocated o)
    (o_finalize_sent o) (o_pending_finalize o) (o_inspections o) (o_file_sizes o)
    (o_write_failures o) (o_delegated o) (o_post_fetch o) (o_retry_counts o) (o_journal o)
    (o_persist o) (o_dirty o) (o_volumes o) (o_quota_reached o) (o_disk_low o) (o_rotate o)
    (o_commands o) (o_events o) (o_enospc_latched o) (o_enospc_observed o) (o_enospc_where o)
    (o_backend_pending o) (o_backend_started o) (o_guard_tick o).
Definition with_delegated (x : gmap JobId str) (o : Owner) : Owner :=
  mkOwner (o_state o) (o_attempts o) (o_blocked o) (o_writers o) (o_retiring o) (o_allocated o)
    (o_finalize_sent o) (o_pending_finalize o) (o_inspections o) (o_file_sizes o)
    (o_write_failures o) x (o_post_fetch o) (o_retry_counts o) (o_journal o)
    (o_persist o) (o_dirty o) (o_volumes o) (o_quota_reached o) (o_disk_low o) (o_rotate o)
    (o_commands o) (o_events o) (o_enospc_latched o) (o_enospc_observed o) (o_enospc_where o)
    (o_backend_pending o) (o_backend_started o) (o_guard_tick o).
Definition with_allocated (x : gset JobId) (o : Owner) : Owner :=
  mkOwner (o_state o) (o_attempts o) (o_blocked o) (o_writers o) (o_retiring o) x
    (o_finalize_sent o) (o_pending_finalize o) (o_inspections o) (o_file_sizes o)
    (o_write_failures o) (o_delegated o) (o_post_fetch o) (o_retry_counts o) (o_journal o)
    (o_persist o) (o_dirty o) (o_volumes o) (o_quota_reached o) (o_disk_low o) (o_rotate o)
    (o_commands o) (o_events o) (o_enospc_latched o) (o_enospc_observed o) (o_enospc_where o)
    (o_backend_pending o) (o_backend_started o) (o_guard_tick o).
Definition with_finalize_sent (x : gset FileId) (o : Owner) : Owner :=
  mkOwner (o_state o) (o_attempts o) (o_blocked o) (o_writers o) (o_retiring o) (o_allocated o)
    x (o_pending_finalize o) (o_inspections o) (o_file_sizes o) (o_write_failures o)
    (o_delegated o) (o_post_fetch o) (o_retry_counts o) (o_journal o) (o_persist o) (o_dirty o)
    (o_volumes o) (o_quota_reached o) (o_disk_low o) (o_rotate o) (o_commands o) (o_events o)
    (o_enospc_latched o) (o_enospc_observed o) (o_enospc_where o) (o_backend_pending o)
    (o_backend_started o) (o_guard_tick o).
Definition with_pending_finalize (x : list (JobId * FileId)) (o : Owner) : Owner :=
  mkOwner (o_state o) (o_attempts o) (o_blocked o) (o_writers o) (o_retiring o) (o_allocated o)
    (o_finalize_sent o) x (o_inspections o) (o_file_sizes o) (o_write_failures o) (o_delegated
    o) (o_post_fetch o) (o_retry_counts o) (o_journal o) (o_persist o) (o_dirty o) (o_volumes
    o) (o_quota_reached o) (o_disk_low o) (o_rotate o) (o_commands o) (o_events o)
    (o_enospc_latched o) (o_enospc_observed o) (o_enospc_where o) (o_backend_pending o)
    (o_backend_started o) (o_guard_tick o).
Definition with_inspections (x : gmap JobId Z) (o : Owner) : Owner :=
  mkOwner (o_state o) (o_attempts o) (o_blocked o) (o_writers o) (o_retiring o) (o_allocated o)
    (o_finalize_sent o) (o_pending_finalize o) x (o_file_sizes o) (o_write_failures o)
    (o_delegated o) (o_post_fetch o) (o_retry_counts o) (o_journal o) (o_persist o) (o_dirty o)
    (o_volumes o) (o_quota_reached o) (o_disk_low o) (o_rotate o) (o_commands o) (o_events o)
    (o_enospc_latched o) (o_enospc_observed o) (o_enospc_where o) (o_backend_pending o)
    (o_backend_started o) (o_guard_tick o).
Definition with_file_sizes (x : gmap FileId Z) (o : Owner) : Owner :=
  mkOwner (o_state o) (o_attempts o) (o_blocked o) (o_writers o) (o_retiring o) (o_allocated o)
    (o_finalize_sent o) (o_pending_finalize o) (o_inspections o) x (o_write_failures o)
    (o_delegated o) (o_post_fetch o) (o_retry_counts o) (o_journal o) (o_persist o) (o_dirty o)
    (o_volumes o) (o_quota_reached o) (o_disk_low o) (o_rotate o) (o_commands o) (o_events o)
    (o_enospc_latched o) (o_enospc_observed o) (o_enospc_where o) (o_backend_pending o)
    (o_backend_started o) (o_guard_tick o).
Definition with_write_failures (x : gmap JobId str) (o : Owner) : Owner :=
  mkOwner (o_state o) (o_attempts o) (o_blocked o) (o_writers o) (o_retiring o) (o_allocated o)
    (o_finalize_sent o) (o_pending_finalize o) (o_inspections o) (o_file_sizes o) x
    (o_delegated o) (o_post_fetch o) (o_retry_counts o) (o_journal o) (o_persist o) (o_dirty o)
    (o_volumes o) (o_quota_reached o) (o_disk_low o) (o_rotate o) (o_commands o) (o_events o)
    (o_enospc_latched o) (o_enospc_observed o) (o_enospc_where o) (o_backend_pending o)
    (o_backend_started o) (o_guard_tick o).
Definition with_post_fetch (x : gmap JobId (gset FileId)) (o : Owner) : Owner :=
  mkOwner (o_state o) (o_attempts o) (o_blocked o) (o_writers o) (o_retiring o) (o_allocated o)
    (o_finalize_sent o) (o_pending_finalize o) (o_inspections o) (o_file_sizes o)
    (o_write_failures o) (o_delegated o) x (o_retry_counts o) (o_journal o) (o_persist o)
    (o_dirty o) (o_volumes o) (o_quota_reached o) (o_disk_low o) (o_rotate o) (o_commands o)
    (o_events o) (o_enospc_latched o) (o_enospc_observed o) (o_enospc_where o)
    (o_backend_pending o) (o_backend_started o) (o_guard_tick o).
Definition with_retry_counts (x : gmap JobId Z) (o : Owner) : Owner :=
  mkOwner (o_state o) (o_attempts o) (o_blocked o) (o_writers o) (o_retiring o) (o_allocated o)
    (o_finalize_sent o) (o_pending_finalize o) (o_inspections o) (o_file_sizes o)
    (o_write_failures o) (o_delegated o) (o_post_fetch o) x (o_journal o) (o_persist o)
    (o_dirty o) (o_volumes o) (o_quota_reached o) (o_disk_low o) (o_rotate o) (o_commands o)
    (o_events o) (o_enospc_latched o) (o_enospc_observed o) (o_enospc_where o)
    (o_backend_pending o) (o_backend_started o) (o_guard_tick o).
Definition with_journal (x : JobJournals) (o : Owner) : Owner :=
  mkOwner (o_state o) (o_attempts o) (o_blocked o) (o_writers o) (o_retiring o) (o_allocated o)
    (o_finalize_sent o) (o_pending_finalize o) (o_inspections o) (o_file_sizes o)
    (o_write_failures o) (o_delegated o) (o_post_fetch o) (o_retry_counts o) x (o_persist o)
    (o_dirty o) (o_volumes o) (o_quota_reached o) (o_disk_low o) (o_rotate o) (o_commands o)
    (o_events o) (o_enospc_latched o) (o_enospc_observed o) (o_enospc_where o)
    (o_backend_pending o) (o_backend_started o) (o_guard_tick o).
Definition with_persist (x : bool) (o : Owner) : Owner :=
  mkOwner (o_state o) (o_attempts o) (o_blocked o) (o_writers o) (o_retiring o) (o_allocated o)
    (o_finalize_sent o) (o_pending_finalize o) (o_inspections o) (o_file_sizes o)
    (o_write_failures o) (o_delegated o) (o_post_fetch o) (o_retry_counts o) (o_journal o) x
    (o_dirty o) (o_volumes o) (o_quota_reached o) (o_disk_low o) (o_rotate o) (o_commands o)
    (o_events o) (o_enospc_latched o) (o_enospc_observed o) (o_enospc_where o)
    (o_backend_pending o) (o_backend_started o) (o_guard_tick o).
Definition with_dirty (x : bool) (o : Owner) : Owner :=
  mkOwner (o_state o) (o_attempts o) (o_blocked o) (o_writers o) (o_retiring o) (o_allocated o)
    (o_finalize_sent o) (o_pending_finalize o) (o_inspections o) (o_file_sizes o)
    (o_write_failures o) (o_delegated o) (o_post_fetch o) (o_retry_counts o) (o_journal o)
    (o_persist o) x (o_volumes o) (o_quota_reached o) (o_disk_low o) (o_rotate o) (o_commands
    o) (o_events o) (o_enospc_latched o) (o_enospc_observed o) (o_enospc_where o)
    (o_backend_pending o) (o_backend_started o) (o_guard_tick o).
Definition with_volumes (x : VolumeBook) (o : Owner) : Owner :=
  mkOwner (o_state o) (o_attempts o) (o_blocked o) (o_writers o) (o_retiring o) (o_allocated o)
    (o_finalize_sent o) (o_pending_finalize o) (o_inspections o) (o_file_sizes o)
    (o_write_failures o) (o_delegated o) (o_post_fetch o) (o_retry_counts o) (o_journal o)
    (o_persist o) (o_dirty o) x (o_quota_reached o) (o_disk_low o) (o_rotate o) (o_commands o)
    (o_events o) (o_enospc_latched o) (o_enospc_observed o) (o_enospc_where o)
    (o_backend_pending o) (o_backend_started o) (o_guard_tick o).
Definition with_quota_reached (x : bool) (o : Owner) : Owner :=
  mkOwner (o_state o) (o_attempts o) (o_blocked o) (o_writers o) (o_retiring o) (o_allocated o)
    (o_finalize_sent o) (o_pending_finalize o) (o_inspections o) (o_file_sizes o)
    (o_write_failures o) (o_delegated o) (o_post_fetch o) (o_retry_counts o) (o_journal o)
    (o_persist o) (o_dirty o) (o_volumes o) x (o_disk_low o) (o_rotate o) (o_commands o)
    (o_events o) (o_enospc_latched o) (o_enospc_observed o) (o_enospc_where o)
    (o_backend_pending o) (o_backend_started o) (o_guard_tick o).
Definition with_disk_low (x : bool) (o : Owner) : Owner :=
  mkOwner (o_state o) (o_attempts o) (o_blocked o) (o_writers o) (o_retiring o) (o_allocated o)
    (o_finalize_sent o) (o_pending_finalize o) (o_inspections o) (o_file_sizes o)
    (o_write_failures o) (o_delegated o) (o_post_fetch o) (o_retry_counts o) (o_journal o)
    (o_persist o) (o_dirty o) (o_volumes o) (o_quota_reached o) x (o_rotate o) (o_commands o)
    (o_events o) (o_enospc_latched o) (o_enospc_observed o) (o_enospc_where o)
    (o_backend_pending o) (o_backend_started o) (o_guard_tick o).
Definition with_rotate (x : nat) (o : Owner) : Owner :=
  mkOwner (o_state o) (o_attempts o) (o_blocked o) (o_writers o) (o_retiring o) (o_allocated o)
    (o_finalize_sent o) (o_pending_finalize o) (o_inspections o) (o_file_sizes o)
    (o_write_failures o) (o_delegated o) (o_post_fetch o) (o_retry_counts o) (o_journal o)
    (o_persist o) (o_dirty o) (o_volumes o) (o_quota_reached o) (o_disk_low o) x (o_commands o)
    (o_events o) (o_enospc_latched o) (o_enospc_observed o) (o_enospc_where o)
    (o_backend_pending o) (o_backend_started o) (o_guard_tick o).
Definition with_commands (x : list (FileId * WriteCmd)) (o : Owner) : Owner :=
  mkOwner (o_state o) (o_attempts o) (o_blocked o) (o_writers o) (o_retiring o) (o_allocated o)
    (o_finalize_sent o) (o_pending_finalize o) (o_inspections o) (o_file_sizes o)
    (o_write_failures o) (o_delegated o) (o_post_fetch o) (o_retry_counts o) (o_journal o)
    (o_persist o) (o_dirty o) (o_volumes o) (o_quota_reached o) (o_disk_low o) (o_rotate o) x
    (o_events o) (o_enospc_latched o) (o_enospc_observed o) (o_enospc_where o)
    (o_backend_pending o) (o_backend_started o) (o_guard_tick o).
Definition with_events (x : list Event) (o : Owner) : Owner :=
  mkOwner (o_state o) (o_attempts o) (o_blocked o) (o_writers o) (o_retiring o) (o_allocated o)
    (o_finalize_sent o) (o_pending_finalize o) (o_inspections o) (o_file_sizes o)
    (o_write_failures o) (o_delegated o) (o_post_fetch o) (o_retry_counts o) (o_journal o)
    (o_persist o) (o_dirty o) (o_volumes o) (o_quota_reached o) (o_disk_low o) (o_rotate o)
    (o_commands o) x (o_enospc_latched o) (o_enospc_observed o) (o_enospc_where o)
    (o_backend_pending o) (o_backend_started o) (o_guard_tick o).
Definition with_enospc_latched (x : bool) (o : Owner) : Owner :=
  mkOwner (o_state o) (o_attempts o) (o_blocked o) (o_writers o) (o_retiring o) (o_allocated o)
    (o_finalize_sent o) (o_pending_finalize o) (o_inspections o) (o_file_sizes o)
    (o_write_failures o) (o_delegated o) (o_post_fetch o) (o_retry_counts o) (o_journal o)
    (o_persist o) (o_dirty o) (o_volumes o) (o_quota_reached o) (o_disk_low o) (o_rotate o)
    (o_commands o) (o_events o) x (o_enospc_observed o) (o_enospc_where o) (o_backend_pending
    o) (o_backend_started o) (o_guard_tick o).
Definition with_enospc_observed (x : Z) (o : Owner) : Owner :=
  mkOwner (o_state o) (o_attempts o) (o_blocked o) (o_writers o) (o_retiring o) (o_allocated o)
    (o_finalize_sent o) (o_pending_finalize o) (o_inspections o) (o_file_sizes o)
    (o_write_failures o) (o_delegated o) (o_post_fetch o) (o_retry_counts o) (o_journal o)
    (o_persist o) (o_dirty o) (o_volumes o) (o_quota_reached o) (o_disk_low o) (o_rotate o)
    (o_commands o) (o_events o) (o_enospc_latched o) x (o_enospc_where o) (o_backend_pending o)
    (o_backend_started o) (o_guard_tick o).
Definition with_enospc_where (x : option str) (o : Owner) : Owner :=
  mkOwner (o_state o) (o_attempts o) (o_blocked o) (o_writers o) (o_retiring o) (o_allocated o)
    (o_finalize_sent o) (o_pending_finalize o) (o_inspections o) (o_file_sizes o)
    (o_write_failures o) (o_delegated o) (o_post_fetch o) (o_retry_counts o) (o_journal o)
    (o_persist o) (o_dirty o) (o_volumes o) (o_quota_reached o) (o_disk_low o) (o_rotate o)
    (o_commands o) (o_events o) (o_enospc_latched o) (o_enospc_observed o) x (o_backend_pending
    o) (o_backend_started o) (o_guard_tick o).
Definition with_backend_pending (x : list BackendCommand) (o : Owner) : Owner :=
  mkOwner (o_state o) (o_attempts o) (o_blocked o) (o_writers o) (o_retiring o) (o_allocated o)
    (o_finalize_sent o) (o_pending_finalize o) (o_inspections o) (o_file_sizes o)
    (o_write_failures o) (o_delegated o) (o_post_fetch o) (o_retry_counts o) (o_journal o)
    (o_persist o) (o_dirty o) (o_volumes o) (o_quota_reached o) (o_disk_low o) (o_rotate o)
    (o_commands o) (o_events o) (o_enospc_latched o) (o_enospc_observed o) (o_enospc_where o) x
    (o_backend_started o) (o_guard_tick o).
Definition with_backend_started (x : gset JobId) (o : Owner) : Owner :=
  mkOwner (o_state o) (o_attempts o) (o_blocked o) (o_writers o) (o_retiring o) (o_allocated o)
    (o_finalize_sent o) (o_pending_finalize o) (o_inspections o) (o_file_sizes o)
    (o_write_failures o) (o_delegated o) (o_post_fetch o) (o_retry_counts o) (o_journal o)
    (o_persist o) (o_dirty o) (o_volumes o) (o_quota_reached o) (o_disk_low o) (o_rotate o)
    (o_commands o) (o_events o) (o_enospc_latched o) (o_enospc_observed o) (o_enospc_where o)
    (o_backend_pending o) x (o_guard_tick o).
Definition with_guard_tick (x : Z) (o : Owner) : Owner :=
  mkOwner (o_state o) (o_attempts o) (o_blocked o) (o_writers o) (o_retiring o) (o_allocated o)
    (o_finalize_sent o) (o_pending_finalize o) (o_inspections o) (o_file_sizes o)
    (o_write_failures o) (o_delegated o) (o_post_fetch o) (o_retry_counts o) (o_journal o)
    (o_persist o) (o_dirty o) (o_volumes o) (o_quota_reached o) (o_disk_low o) (o_rotate o)
    (o_commands o) (o_events o) (o_enospc_latched o) (o_enospc_observed o) (o_enospc_where o)
    (o_backend_pending o) (o_backend_started o) x.

(** What a handler reads of the world: configuration, the clocks, the channels
    of the running writers, the allocation inventory and the snapshot's guard. *)
Record Env := {
  e_servers : list ServerDef;
  e_article_retries : Z;
  e_propagation_delay : Z;
  e_quota_start_day : Z;
  e_health_abort : bool;
  e_retry_interval : Z;
  e_download_enabled : bool;
  e_now_unix : Z;
  e_instant : Z;
  e_guard : bool;
  e_chan : FileId -> SendOutcome;
  e_allocate : JobId -> bool;
  e_try_command : BackendCommand -> SendOutcome;
  e_min_free_disk : Z;
  e_disk_reading : DiskGuardReading;
  e_daily_quota : Z;
  e_monthly_quota : Z;
  e_volume_path : str;
  e_volume_files : list (str * str * option VolumeDoc)
}.

Definition emit (ev : Event) (o : Owner) : Owner := with_events (o_events o ++ [ev]) o.

(** ** The disk and quota guards *)

Definition disk_guard_decision (was_held write_latched : bool) (reading : DiskGuardReading) (floor : Z) : bool * bool :=
  let free := g_available_bytes reading in
  let clear_at := sat_mul64 floor 2 in
  let write_latched :=
    if write_latched && (0 <? clear_at) && all_roots_known reading
       && match free with Some a => clear_at <=? a | None => false end
    then false else write_latched in
  let below_floor := (0 <? floor) && match free with Some a => a <? floor | None => false end in
  let incomplete_hold := was_held && negb (all_roots_known reading) in
  (write_latched, write_latched || below_floor || incomplete_hold).

Definition MAX_PENDING_BACKEND_COMMANDS : nat := 64.

Section Guards.
Variable env : Env.

Definition enqueue_backend_command (o : Owner) (c : BackendCommand) : Owner * bool :=
  let retain :=
    if (length (o_backend_pending o) =? MAX_PENDING_BACKEND_COMMANDS)%nat then (o, false)
    else (with_backend_pending (o_backend_pending o ++ [c]) o, true) in
  match o_backend_pending o with
  | _ :: _ => retain
  | [] =>
      match e_try_command env c with
      | SendFull => retain
      | _ => (o, true)
      end
  end.

(** A command that the closed channel refuses is dropped. *)
Fixpoint flush_backend_commands (pending : list BackendCommand) (o : Owner) : Owner :=
  match pending with
  | [] => with_backend_pending [] o
  | c :: pending' =>
      match e_try_command env c with
      | SendOk => flush_backend_commands pending' o
      | SendFull => with_backend_pending (c :: pending') o
      | SendClosed => with_backend_pending pending' o
      end
  end.

Definition runs_incomplete (j : Job) : bool :=
  bool_decide (kind j = JobKind_Torrent)
  && match torrent j with
     | Some t =>
         bool_decide (torrent_ready_at_unix t = None)
         && match removal_intent t with None => true | Some _ => false end
         && bool_decide (control_intent t = TCI_Running)
     | None => false
     end.

Definition pause_for_storage (o : Owner) (job : JobId) : Owner :=
  let '(o, accepted) := enqueue_backend_command o (BC_PauseForStorage job) in
  if accepted then with_backend_started (o_backend_started o ∖ {[job]}) o else o.

Definition pause_incomplete_torrents_for_storage (o : Owner) : Owner :=
  fold_left pause_for_storage (map job_id (List.filter runs_incomplete (jobs (o_state o)))) o.

Definition observe_out_of_space (o : Owner) (whence : str) : Owner :=
  let o := with_enospc_observed (o_enospc_observed o + 1) o in
  let o := with_enospc_where (Some whence) o in
  let o := with_enospc_latched true o in
  if o_disk_low o then o else pause_incomplete_torrents_for_storage (with_disk_low true o).

Definition storage_full (j : Job) : bool :=
  match torrent j with
  | Some t =>
      bool_decide (control_intent t = TCI_Running) && bool_decide (phase t = PausedDownload)
      && bool_decide (last_error t = Some (lit "storage full"))
  | None => false
  end.

Definition requeue_torrent (t : TorrentRecord) : TorrentRecord := {|
  info_hash_v1 := info_hash_v1 t; source := source t; metadata_file := metadata_file t;
  payload_root := payload_root t; phase := TP_Queued; control_intent := control_intent t;
  removal_intent := removal_intent t; removal_outcome := removal_outcome t;
  removal_confirmed_at_unix := removal_confirmed_at_unix t; torrent_files := torrent_files t;
  Types.total_bytes := Types.total_bytes t; selected_bytes := selected_bytes t;
  downloaded_bytes := downloaded_bytes t; uploaded_bytes := uploaded_bytes t;
  seeding_seconds := seeding_seconds t; torrent_ready_at_unix := torrent_ready_at_unix t;
  content_path := content_path t; seed_policy := seed_policy t; stop_reason := None;
  last_activity_unix := last_activity_unix t; last_error := None |}.

Definition release_torrent (j : Job) : Job :=
  if storage_full j then set_status JS_Queued (set_torrent (requeue_torrent <$> torrent j) j) else j.

Definition release_torrents_after_storage_recovery (o : Owner) : Owner :=
  let o' := with_state (set_jobs (map release_torrent (jobs (o_state o))) (o_state o)) o in
  if existsb storage_full (jobs (o_state o)) then with_dirty true o' else o'.

Definition update_disk_guard (o : Owner) : Owner :=
  let was := o_disk_low o in
  let '(latched, low) := disk_guard_decision was (o_enospc_latched o) (e_disk_reading env) (e_min_free_disk env) in
  let o := with_disk_low low (with_enospc_latched latched o) in
  if Bool.eqb low was then o
  else if low then pause_incomplete_torrents_for_storage o
  else release_torrents_after_storage_recovery o.

Definition update_quota_guard (o : Owner) : Owner :=
  if (0 <? e_daily_quota env) || (0 <? e_monthly_quota env) then
    let '(day, month) :=
      cluster_totals (o_volumes o) (e_volume_path env) (e_volume_files env) (e_now_unix env) (e_quota_start_day env) in
    with_quota_reached
      (((0 <? e_daily_quota env) && (e_daily_quota env <=? day))
       || ((0 <? e_monthly_quota env) && (e_monthly_quota env <=? month))) o
  else o.

End Guards.

(** ** Lookups through the ids *)

Definition find_file (q : QueueState) (job : JobId) (file : FileId) : option FileEntry :=
  find_job q job ≫= fun j => find (fun f => file_id f =? file) (files j).

Definition seg_at (q : QueueState) (r : SegRef) : option Segment :=
  find_file q (sr_job r) (sr_file r) ≫= fun f => find (fun s => number s =? seg_number r) (segments f).

Definition set_seg_state (st : SegmentState) (s : Segment) : Segment := {|
  message_id := message_id s; number := number s; seg_size := seg_size s; state := st |}.

Definition set_finalized (crc : option Z) (f : FileEntry) : FileEntry := {|
  file_id := file_id f; subject := subject f; filename := filename f;
  filename_confirmed := filename_confirmed f; is_par2 := is_par2 f; paused := paused f;
  groups := groups f; date := date f; segments := segments f; file_crc32 := crc;
  finalized := true |}.

Definition recompute (job : JobId) (o : Owner) : Owner :=
  with_state (update_job (o_state o) job recompute_job_totals) o.

(** ** The whole-file CRC *)

Fixpoint combine_loop_crcs (sorted : list (Z * Z * Z)) (expect : Z) (acc : option Z) : option Z :=
  match sorted with
  | [] => acc
  | (off, len, crc) :: sorted' =>
      if negb (off =? expect) then None
      else combine_loop_crcs sorted' (expect + len)
             (Some (match acc with None => crc | Some prev => crc32_combine prev crc len end))
  end.

Definition combine_crcs (sorted : list (Z * Z * Z)) : option Z := combine_loop_crcs sorted 0 None.

(** ** Persistence *)

Section Owner.
Context {jc : JournalCodec} {dc : DocCodec}.
Variable env : Env.

(** The directories of [jobs/] that are not delegated, removed one by one;
    failures are only logged. *)
Fixpoint compact_dirs (dirs : list str) (o : Owner) : io Owner :=
  match dirs with
  | [] => io_ret o
  | d :: dirs' =>
      match parse_uint 10 u32_max d with
      | None => compact_dirs dirs' o
      | Some id =>
          if bool_decide (is_Some (o_delegated o !! id)) then compact_dirs dirs' o
          else
            let* (j, _) := remove_job (o_journal o) id in
            compact_dirs dirs' (with_journal j o)
      end
  end.

Definition save_snapshot_result (o : Owner) : io (Owner * result bool StateError) :=
  if negb (o_persist o) then io_ret (with_dirty false o, Ok false)
  else
    let* r := io_try (save_guarded (to_doc (o_state o)) (e_guard env)) in
    match r with
    | Err e => io_ret (o, Err e)
    | Ok _ =>
        let* entries := io_try read_jobs_dir in
        let* o := match entries with Ok dirs => compact_dirs dirs o | Err _ => io_ret o end in
        io_ret (with_dirty false o, Ok true)
    end.

Definition on_snapshot_save_error (e : StateError) (o : Owner) : Owner :=
  match e with SE_Corrupt _ => with_persist false o | _ => o end.

Definition save_snapshot (o : Owner) : io (Owner * bool) :=
  let* (o, r) := save_snapshot_result o in
  match r with
  | Ok saved => io_ret (o, saved)
  | Err e => io_ret (on_snapshot_save_error e o, false)
  end.

(** ** Writers *)

Definition ensure_allocation (o : Owner) (job : JobId) : Owner * bool :=
  if bool_decide (job ∈ o_retiring o) then (o, false)
  else if bool_decide (job ∈ o_allocated o) then (o, true)
  else
    match find_job (o_state o) job with
    | None => (o, false)
    | Some _ => if e_allocate env job then (with_allocated ({[job]} ∪ o_allocated o) o, true) else (o, false)
    end.

(** The writer's channel as the next [try_send] finds it: a running writer's, a
    fresh one (empty), or one nobody reads. *)
Definition writer_for (o : Owner) (job : JobId) (file : FileId) : Owner * SendOutcome :=
  if bool_decide (file ∈ o_writers o) && negb (match e_chan env file with SendClosed => true | _ => false end)
  then (o, e_chan env file)
  else
    let '(o, allocated) := ensure_allocation o job in
    if negb allocated then (o, SendClosed)
    else (with_writers ({[file]} ∪ o_writers o) o, SendOk).

Definition done_parts (f : FileEntry) : list (Z * Z * Z) :=
  omap (fun s => match state s with Done off len crc => Some (off, len, crc) | _ => None end) (segments f).

Definition combined_crc_of (f : FileEntry) : option Z :=
  let segs := sort_by_key (fun p => fst (fst p)) (done_parts f) in
  if forallb (fun s => is_done (state s)) (segments f) then combine_crcs segs else None.

Definition send_finalize (o : Owner) (job : JobId) (file : FileId) : Owner :=
  match find_file (o_state o) job file with
  | None => o
  | Some f =>
      let combined_crc := combined_crc_of f in
      let file_size :=
        match o_file_sizes o !! file with
        | Some n => if 0 <? n then n else 0
        | None => 0
        end in
      let '(o, sent) := writer_for o job file in
      match sent with
      | SendOk =>
          with_finalize_sent ({[file]} ∪ o_finalize_sent o)
            (with_commands (o_commands o ++ [(file, Finalize file_size combined_crc)]) o)
      | SendFull => with_pending_finalize (o_pending_finalize o ++ [(job, file)]) o
      | SendClosed =>
          with_writers (o_writers o ∖ {[file]})
            (with_pending_finalize (o_pending_finalize o ++ [(job, file)]) o)
      end
  end.

(** ** Completion *)

Definition open_post_stage (j : Job) : option PostStage :=
  if existsb (fun '(k, _) => bool_decide (k = PP_DONE_PARAM)) (params j) then None
  else
    match last (stages j) with
    | Some sp => match span_ms sp with None => Some (stage sp) | Some _ => None end
    | None => None
    end.

Definition file_settled (f : FileEntry) : bool :=
  paused f || (is_terminal f && (negb (has_any_done f) || finalized f)).

Definition job_complete (j : Job) : bool :=
  negb (bool_decide (files j = [])) && forallb file_settled (files j).

Definition active_status (st : JobStatus) : bool :=
  match st with JS_Queued | JS_Downloading | JS_Paused => true | _ => false end.

(** The status a finished download phase leaves: the open post-processing
    stage, else a failure if a write did not land, else the health verdict. *)
Definition finished_status (write_failed : bool) (j : Job) : JobStatus :=
  match open_post_stage j with
  | Some st => JS_Post st
  | None => if write_failed then JS_Failed else fst (final_status j)
  end.

Definition forget_files (fids : list FileId) (o : Owner) : Owner :=
  foldr (fun fid o =>
    with_writers (o_writers o ∖ {[fid]}) (with_file_sizes (delete fid (o_file_sizes o)) o)) o fids.

Definition check_job_complete (o : Owner) (job : JobId) : io Owner :=
  if bool_decide (is_Some (o_delegated o !! job)) then io_ret o
  else if match o_inspections o !! job with Some n => 0 <? n | None => false end then io_ret o
  else
    match find_job (o_state o) job with
    | None => io_ret o
    | Some j =>
        if negb (active_status (status j)) then io_ret o
        else if negb (job_complete j) then io_ret o
        else
          let st := finished_status (bool_decide (is_Some (o_write_failures o !! job))) j in
          let o := with_write_failures (delete job (o_write_failures o)) o in
          let o := with_state (update_job (o_state o) job (set_status st)) o in
          let o := with_attempts (filter (fun '((k, _, _), _) => k <> job) (o_attempts o)) o in
          let o := with_post_fetch (delete job (o_post_fetch o)) o in
          let o := forget_files (map file_id (files j)) o in
          let* (o, _) := save_snapshot o in
          match open_post_stage j with
          | Some _ => io_ret o
          | None => io_ret (emit (E_JobFinished job (name j) st (snd (final_status j))) o)
          end
    end.

Definition after_file_change (o : Owner) (job : JobId) (file : FileId) : io Owner :=
  match find_file (o_state o) job file with
  | None => io_ret o
  | Some f =>
      if negb (is_terminal f) || finalized f then check_job_complete o job
      else if has_any_done f then
        if bool_decide (file ∈ o_finalize_sent o) then io_ret o
        else io_ret (send_finalize o job file)
      else
        let o := with_state (update_file (o_state o) job file (fun f => set_finalized (file_crc32 f) f)) o in
        let o := emit (E_FileFinished job file (filename f) false) o in
        check_job_complete (with_dirty true o) job
  end.

(** ** Failures *)

(** Every pending segment of the job's unfinished files, as first listed. *)
Definition pending_refs (j : Job) : list (FileId * list Z) :=
  map (fun f => (file_id f, map number (List.filter (fun s => is_pending (state s)) (segments f))))
    (List.filter (fun f => negb (is_terminal f)) (files j)).

Definition fail_number (job : JobId) (file : FileId) (o : Owner) (n : Z) : Owner :=
  let r := {| sr_job := job; sr_file := file; seg_number := n |} in
  with_attempts (delete (ref_key r) (o_attempts o))
    (with_state (update_segment (o_state o) r (set_seg_state Failed)) o).

Fixpoint abort_files (job : JobId) (l : list (FileId * list Z)) (o : Owner) : io Owner :=
  match l with
  | [] => io_ret o
  | (file, ns) :: l' =>
      let o := recompute job (fold_left (fail_number job file) ns o) in
      let* o := after_file_change o job file in
      abort_files job l' o
  end.

Definition maybe_abort_unhealthy (o : Owner) (job : JobId) : io Owner :=
  if negb (e_health_abort env) then io_ret o
  else
    match find_job (o_state o) job with
    | None => io_ret o
    | Some j =>
        if negb (active_status (status j)) then io_ret o
        else if calc_critical (totals j) true <=? calc (totals j) then io_ret o
        else abort_files job (pending_refs j) o
    end.

Definition fail_segment (o : Owner) (r : SegRef) : io Owner :=
  match seg_at (o_state o) r with
  | None => io_ret o
  | Some s =>
      if is_done (state s) || is_failed (state s) then io_ret o
      else
        let o := fail_number (sr_job r) (sr_file r) o (seg_number r) in
        let o := recompute (sr_job r) o in
        let o := emit (E_SegmentExhausted (sr_job r) (sr_file r) (seg_number r)) o in
        let* o := after_file_change o (sr_job r) (sr_file r) in
        maybe_abort_unhealthy o (sr_job r)
  end.

Fixpoint fail_segments (rs : list SegRef) (o : Owner) : io Owner :=
  match rs with
  | [] => io_ret o
  | r :: rs' => let* o := fail_segment o r in fail_segments rs' o
  end.

(** A disk error of the writer: every segment of the file that is not done. *)
Definition fail_whole_file (o : Owner) (job : JobId) (file : FileId) : io Owner :=
  match find_file (o_state o) job file with
  | None => io_ret o
  | Some f =>
      fail_segments
        (map (fun s => {| sr_job := job; sr_file := file; seg_number := number s |})
           (List.filter (fun s => negb (is_done (state s))) (segments f))) o
  end.

Definition block_server (o : Owner) (server : ServerId) : Owner :=
  let newly := match o_blocked o !! server with Some prev => prev <=? e_instant env | None => true end in
  let o := with_blocked (<[server := e_instant env + e_retry_interval env]> (o_blocked o)) o in
  if newly then emit (E_ServerBlocked server (e_retry_interval env)) o else o.

Definition server_blocked (o : Owner) (server : ServerId) : bool :=
  match o_blocked o !! server with Some until => e_instant env <? until | None => false end.

Definition release_lease (s : Segment) : Segment :=
  if is_leased (state s) then set_seg_state Pending s else s.

Definition file_age_days (q : QueueState) (r : SegRef) : option Z :=
  find_file q (sr_job r) (sr_file r) ≫= fun f =>
    (fun d => wrap32 (Z.max 0 (e_now_unix env - d) / 86400)) <$> date f.

Definition on_segment_failed (o : Owner) (r : SegRef) (server : ServerId) (out : AttemptOutcome) : io Owner :=
  let o := with_retry_counts (<[sr_job r := default 0 (o_retry_counts o !! sr_job r) + 1]> (o_retry_counts o)) o in
  let l := ladder_new (e_servers env) in
  let att := default (attempt_new (e_article_retries env)) (o_attempts o !! ref_key r) in
  let '(att, verdict) := on_outcome att server out in
  let '(att, exhausted) :=
    match verdict with
    | NextServer => is_exhausted l att (file_age_days (o_state o) r)
    | Verdict_Failed => (att, true)
    | _ => (att, false)
    end in
  let o := with_attempts (<[ref_key r := att]> (o_attempts o)) o in
  let o := with_state (update_segment (o_state o) r release_lease) o in
  let o := match verdict with RetrySame true => block_server o server | _ => o end in
  if exhausted then fail_segment o r else io_ret o.

(** ** Written segments *)

Definition journal_record (r : SegRef) (off len crc fsize : Z) : JournalRecord := {|
  jr_job := sr_job r; jr_file := sr_file r; jr_segment_number := seg_number r;
  jr_offset := off; jr_len := len; jr_crc32 := crc; jr_file_size := fsize |}.

(** A failed append is only logged. *)
Definition on_segment_written (o : Owner) (r : SegRef) (off len crc fsize : Z) (server : ServerId) : io Owner :=
  let o := with_volumes (Volumes.add (o_volumes o) server len (e_now_unix env) (e_quota_start_day env)) o in
  let o := if 0 <? fsize then with_file_sizes (<[sr_file r := fsize]> (o_file_sizes o)) o else o in
  match seg_at (o_state o) r with
  | None => io_ret o
  | Some s =>
      if is_done (state s) then io_ret o
      else
        let o := with_state (update_segment (o_state o) r (set_seg_state (Done off len crc))) o in
        let* (j, _) := append (o_journal o) (journal_record r off len crc fsize) in
        let o := with_journal j o in
        let o := with_attempts (delete (ref_key r) (o_attempts o)) o in
        after_file_change (recompute (sr_job r) o) (sr_job r) (sr_file r)
  end.

(** A panic stops the owner. *)
Definition of_run {A} (m : run A) : io A :=
  match m with Ret a => io_ret a | Panic => fun w => (Crashed, w) end.

(** [maybe_learn_name_from]: the inspection itself runs elsewhere. *)
Definition maybe_learn_name_from (o : Owner) (job : JobId) : io Owner :=
  match find_job (o_state o) job with
  | None => io_ret o
  | Some j =>
      let* is_open := of_run (name_is_open j) in
      if negb is_open then io_ret o
      else io_ret (with_inspections (<[job := default 0 (o_inspections o !! job) + 1]> (o_inspections o)) o)
  end.

Definition on_writer_finalized (o : Owner) (job : JobId) (file : FileId) (ok has_path : bool)
    (combined_crc : option Z) : io Owner :=
  let o := with_writers (o_writers o ∖ {[file]}) o in
  let o := with_finalize_sent (o_finalize_sent o ∖ {[file]}) o in
  let o := with_file_sizes (delete file (o_file_sizes o)) o in
  match find_file (o_state o) job file with
  | None => io_ret o
  | Some f =>
      let o := with_state (update_file (o_state o) job file
                 (fun f => set_finalized (if ok then combined_crc else file_crc32 f) f)) o in
      let o :=
        if ok then o
        else
          match o_write_failures o !! job with
          | Some _ => o
          | None =>
              with_write_failures
                (<[job := lit "could not write " ++ filename f ++ lit " to disk"]> (o_write_failures o)) o
          end in
      let* o := if ok && has_path then maybe_learn_name_from o job else io_ret o in
      let o := emit (E_FileFinished job file (filename f) ok) o in
      check_job_complete (with_dirty true o) job
  end.

(** [adopt_learned_name], [on_job_name_inspected] *)
Definition adopt_learned_name (o : Owner) (job : JobId) (nm : str) : io Owner :=
  match find_job (o_state o) job with
  | None => io_ret o
  | Some j =>
      let* is_open := of_run (name_is_open j) in
      if negb is_open then io_ret o
      else io_ret (with_dirty true (with_state (set_job_name (o_state o) job nm false false) o))
  end.

Definition on_job_name_inspected (o : Owner) (job : JobId) (nm : option str) : io Owner :=
  let o :=
    match o_inspections o !! job with
    | Some n => with_inspections (if 1 <? n then <[job := n - 1]> (o_inspections o) else delete job (o_inspections o)) o
    | None => o
    end in
  let* o := match nm with Some nm => adopt_learned_name o job nm | None => io_ret o end in
  check_job_complete o job.

(** ** Scheduling *)

Definition selection_ctx (o : Owner) : SelectionCtx := {|
  ladder := ladder_new (e_servers env); attempts_map := o_attempts o;
  is_blocked := server_blocked o; delegated := dom (o_delegated o);
  post_fetch_files := o_post_fetch o; regular_downloads := e_download_enabled env;
  article_retries := e_article_retries env; now_unix := e_now_unix env;
  propagation_delay_secs := e_propagation_delay env; soft_hold := o_quota_reached o;
  rotate := o_rotate o |}.

Definition start_download (j : Job) : Job :=
  match status j with JS_Queued => set_status JS_Downloading j | _ => j end.

(** The [for] loop of [grant_work], [max] rounds at most. *)
Fixpoint grant_loop (max : nat) (server : ServerDef) (leases : list (SegRef * str)) (o : Owner)
    : io (Owner * list (SegRef * str)) :=
  match max with
  | O => io_ret (o, leases)
  | S max' =>
      let '(atts, res) := next_for_server (o_state o) server (selection_ctx o) in
      let* o := fail_segments (exhausted res) (with_attempts atts o) in
      match lease res with
      | None => io_ret (o, leases)
      | Some r =>
          let '(o, allocated) := ensure_allocation o (sr_job r) in
          if negb allocated then io_ret (o, leases)
          else
            match seg_at (o_state o) r with
            | None => io_ret (o, leases)
            | Some s =>
                let o := with_state (update_segment (o_state o) r (set_seg_state (Leased (server_id server)))) o in
                let '(o, _) := writer_for o (sr_job r) (sr_file r) in
                let o := with_state (update_job (o_state o) (sr_job r) start_download) o in
                let o := with_rotate (S (o_rotate o)) o in
                grant_loop max' server (leases ++ [(r, message_id s)]) o
            end
      end
  end.

Definition grant_work (o : Owner) (server : ServerId) (max : nat) : io (Owner * list (SegRef * str)) :=
  if o_disk_low o || server_blocked o server then io_ret (o, [])
  else
    match find (fun s => server_id s =? server) (e_servers env) with
    | None => io_ret (o, [])
    | Some s => grant_loop max s [] o
    end.

(** ** The labels and the durable part of the tick *)

(** [settle_download_labels]: jobs without work or lease are queued again. *)
Definition settle_download_labels (o : Owner) : Owner :=
  match jobs_to_requeue_with_recovery (o_state o) (dom (o_delegated o)) (o_post_fetch o)
          (e_download_enabled env) (o_quota_reached o) (e_now_unix env) with
  | [] => o
  | demoted =>
      with_dirty true
        (with_state (fold_left (fun q id => update_job q id (set_status JS_Queued)) demoted (o_state o)) o)
  end.

Fixpoint retry_finalize (pending : list (JobId * FileId)) (o : Owner) : Owner :=
  match pending with
  | [] => o
  | (j, f) :: pending' =>
      retry_finalize pending' (if bool_decide (f ∈ o_finalize_sent o) then o else send_finalize o j f)
  end.

(** ** Steps of the transfer

    What [on_msg] does with the messages of connections and writers.  The whole
    [on_msg], with the commands, is [Dispatch.on_msg]; the tick is
    [Desk.desk_tick]. *)

Definition is_out_of_space (msg : str) : bool :=
  let lower := to_ascii_lowercase msg in
  existsb (fun pat => contains pat lower)
    [lit "no space left on device"; lit "os error 28"; lit "disk quota exceeded"; lit "os error 122";
     lit "no storage space"].

Inductive TransferStep :=
| WorkRequest (server : ServerId) (max : nat)
| SegmentWritten (r : SegRef) (off len crc fsize : Z) (server : ServerId)
| SegmentFailed (r : SegRef) (server : ServerId) (out : AttemptOutcome)
| ConnectFailed (server : ServerId)
| WriterFinalized (job : JobId) (file : FileId) (ok has_path : bool) (combined_crc : option Z)
| JobNameInspected (job : JobId) (nm : option str)
| OutOfSpace (whence : str)
| WriterError (job : JobId) (file : FileId) (error : str).

Definition transfer_step (o : Owner) (m : TransferStep) : io Owner :=
  match m with
  | WorkRequest server max => let* (o, _) := grant_work o server (Nat.max max 1) in io_ret o
  | SegmentWritten r off len crc fsize server => on_segment_written o r off len crc fsize server
  | SegmentFailed r server out => on_segment_failed o r server out
  | ConnectFailed server => io_ret (block_server o server)
  | WriterFinalized job file ok has_path crc => on_writer_finalized o job file ok has_path crc
  | JobNameInspected job nm => on_job_name_inspected o job nm
  | OutOfSpace whence => io_ret (observe_out_of_space env o whence)
  | WriterError job file error =>
      let o := if is_out_of_space error then observe_out_of_space env o error else o in
      fail_whole_file o job file
  end.

End Owner.

(** ** Recovery

    [recover], as far as the queue goes: the snapshot, the legacy journal (which
    is then removed), the journals of every job.  A panic in the naming repair
    stops it. *)

Section Recover.
Context {jc : JournalCodec} {dc : DocCodec}.

Definition record_ref (rec : JournalRecord) : SegRef := {|
  sr_job := jr_job rec; sr_file := jr_file rec; seg_number := jr_segment_number rec |}.

Definition fold_record (acc : QueueState * gmap FileId Z) (rec : JournalRecord) : QueueState * gmap FileId Z :=
  let '(q, sizes) := acc in
  let sizes := if 0 <? jr_file_size rec then <[jr_file rec := jr_file_size rec]> sizes else sizes in
  match seg_at q (record_ref rec) with
  | Some s =>
      if is_done (state s) then (q, sizes)
      else (update_segment q (record_ref rec)
              (set_seg_state (Done (jr_offset rec) (jr_len rec) (jr_crc32 rec))), sizes)
  | None => (q, sizes)
  end.

Definition recover (now : Z) (persist : bool) : io (QueueState * gmap FileId Z) :=
  if negb persist then io_ret (queue_default, ∅)
  else
    let* doc := load in
    let* q := match doc with Some d => of_run (from_doc now d) | None => io_ret queue_default end in
    let* _ := FsJournal_open in
    let* replayed := FsJournal_replay in
    let* _ := match replayed with
              | [] => io_ret (Ok tt)
              | _ :: _ => io_try (remove_file LEGACY)
              end in
    let* rest := replay_all in
    let '(q, sizes) := fold_left fold_record (replayed ++ rest) (q, ∅) in
    io_ret (recompute_all_totals q, sizes).

End Recover.

(** ** A concrete owner *)

Definition sample_env : Env := {|
  e_servers := [sample_server 1]; e_article_retries := 3; e_propagation_delay := 0; e_quota_start_day := 1;
  e_health_abort := true; e_retry_interval := 10; e_download_enabled := true; e_now_unix := 1000;
  e_instant := 0; e_guard := true; e_chan := fun _ => SendOk; e_allocate := fun _ => true;
  e_try_command := fun _ => SendOk; e_min_free_disk := 0; e_disk_reading := select_limiting_volume [];
  e_daily_quota := 0; e_monthly_quota := 0; e_volume_path := []; e_volume_files := [] |}.

Definition owner_of (q : QueueState) : Owner := {|
  o_state := q; o_attempts := ∅; o_blocked := ∅; o_writers := ∅; o_retiring := ∅; o_allocated := ∅;
  o_finalize_sent := ∅; o_pending_finalize := []; o_inspections := ∅; o_file_sizes := ∅;
  o_write_failures := ∅; o_delegated := ∅; o_post_fetch := ∅; o_retry_counts := ∅;
  o_journal := JobJournals_open []; o_persist := true; o_dirty := false; o_volumes := empty_book;
  o_quota_reached := false; o_disk_low := false; o_rotate := 0; o_commands := []; o_events := [];
  o_enospc_latched := false; o_enospc_observed := 0; o_enospc_where := None; o_backend_pending := [];
  o_backend_started := ∅; o_guard_tick := 0 |}.

Definition empty_world : World := {| disk := mkDisk ∅ ∅ [] []; fates := [] |}.
