(* ===== verification/OwnerInv.v ===== *)
(** * Invariants of the queue owner

    What every handler of [Owner] keeps: the identifiers of the queue, every
    segment that is done, and totals that agree with the segments. *)

From S2P Require Import Prelude RustStr Crc32 Types Failover Volumes Nzb JobNames Queue Selection ParSelect Fs Codec Store Owner.

#[local] Unset Default Proof Using.

#[export] Instance SegRef_eq_dec : EqDecision SegRef.
Proof. solve_decision. Defined.

(** ** Updates by id, seen through the lookups *)

Lemma find_update_same {A} (p : A -> bool) f l : (forall x, p x = true -> p (f x) = true) ->
  find p (update_first p f l) = f <$> find p l.
Proof.
  intros Hp. induction l as [|x l IH]; [done|]. simpl. destruct (p x) eqn:E; simpl.
  - by rewrite Hp.
  - by rewrite E.
Qed.

Lemma find_update_other {A} (p p' : A -> bool) f l :
  (forall x, p x = true -> p' x = false /\ p' (f x) = false) ->
  find p' (update_first p f l) = find p' l.
Proof.
  intros Hp. induction l as [|x l IH]; [done|]. simpl. destruct (p x) eqn:E; simpl.
  - by destruct (Hp x E) as [-> ->].
  - by rewrite IH.
Qed.

Lemma find_job_update q id id' f : (forall j, job_id (f j) = job_id j) ->
  find_job (update_job q id f) id' = if id' =? id then f <$> find_job q id' else find_job q id'.
Proof.
  intros Hf. unfold find_job, update_job, set_jobs. cbn [jobs]. destruct (id' =? id) eqn:E; bool_hyps; subst.
  - apply find_update_same. intros j. by rewrite Hf.
  - apply find_update_other. intros j. rewrite Hf. intros. bool_hyps. lia.
Qed.

Lemma find_file_update q job file f job' file' : (forall x, file_id (f x) = file_id x) ->
  find_file (update_file q job file f) job' file' =
  if (job' =? job) && (file' =? file) then f <$> find_file q job' file' else find_file q job' file'.
Proof.
  intros Hf. unfold find_file, update_file. rewrite find_job_update by done.
  destruct (job' =? job) eqn:E; [|done]. destruct (find_job q job') as [j|]; [|by case_if].
  simpl. destruct (file' =? file) eqn:E'; bool_hyps; subst; simpl.
  - apply find_update_same. intros x. by rewrite Hf.
  - apply find_update_other. intros x. rewrite Hf. intros. bool_hyps. lia.
Qed.

Lemma seg_at_update_segment q r g r' : (forall s, number (g s) = number s) ->
  seg_at (update_segment q r g) r' = if decide (r' = r) then g <$> seg_at q r' else seg_at q r'.
Proof.
  intros Hg. unfold seg_at, update_segment. rewrite find_file_update by done.
  destruct r as [j f n], r' as [j' f' n']. simpl.
  destruct (decide _) as [[= -> -> ->]|Hne].
  - rewrite !Z.eqb_refl. simpl. destruct (find_file q j f) as [x|]; [|done]. simpl.
    apply find_update_same. intros s. by rewrite Hg.
  - destruct (j' =? j) eqn:E1; [|done]. destruct (f' =? f) eqn:E2; [|done]. simpl. bool_hyps. subst.
    destruct (find_file q j f) as [x|]; [|done]. simpl. apply find_update_other.
    intros s Hs. rewrite Hg. bool_hyps. destruct (decide (n' = n)) as [->|]; [done|]. lia.
Qed.

Lemma seg_at_update_file q job file f r : (forall x, file_id (f x) = file_id x) ->
  (forall x, segments (f x) = segments x) -> seg_at (update_file q job file f) r = seg_at q r.
Proof.
  intros Hf Hs. unfold seg_at. rewrite find_file_update by done. case_if; [|done].
  destruct (find_file q _ _) as [x|]; [|done]. simpl. by rewrite Hs.
Qed.

Lemma seg_at_update_job q job f r : (forall j, job_id (f j) = job_id j) ->
  (forall j, files (f j) = files j) -> seg_at (update_job q job f) r = seg_at q r.
Proof.
  intros Hf Hs. unfold seg_at, find_file. rewrite find_job_update by done. case_if; [|done].
  destruct (find_job q _) as [x|]; [|done]. simpl. by rewrite Hs.
Qed.

(** ** Shape *)

Definition file_shape (f : FileEntry) : FileId * list Z := (file_id f, map number (segments f)).
Definition job_shape (j : Job) : JobId * list (FileId * list Z) := (job_id j, map file_shape (files j)).
Definition shape (q : QueueState) : list (JobId * list (FileId * list Z)) := map job_shape (jobs q).

Lemma shape_update_job q job f : (forall j, job_shape (f j) = job_shape j) ->
  shape (update_job q job f) = shape q.
Proof. intros Hf. unfold shape, update_job, set_jobs. cbn [jobs]. by apply update_first_map. Qed.

Lemma shape_update_file q job file f : (forall x, file_shape (f x) = file_shape x) ->
  shape (update_file q job file f) = shape q.
Proof.
  intros Hf. apply shape_update_job. intros j. unfold job_shape. simpl. f_equal.
  by apply update_first_map.
Qed.

Lemma shape_update_segment q r g : (forall s, number (g s) = number s) ->
  shape (update_segment q r g) = shape q.
Proof.
  intros Hg. apply shape_update_file. intros f. unfold file_shape. simpl. f_equal.
  by apply update_first_map.
Qed.

(** ** Progress *)

Definition done_value (s : Segment) : option (Z * Z * Z) :=
  match state s with Done off len crc => Some (off, len, crc) | _ => None end.
Definition done_at (q : QueueState) (r : SegRef) : option (Z * Z * Z) := seg_at q r ≫= done_value.

(** [q'] has the identifiers of [q] and keeps what was done. *)
Record evolves (q q' : QueueState) : Prop := {
  ev_shape : shape q' = shape q;
  ev_done : forall r v, done_at q r = Some v -> done_at q' r = Some v
}.

#[export] Instance evolves_refl : Reflexive evolves.
Proof. by split. Qed.

#[export] Instance evolves_trans : Transitive evolves.
Proof. intros q1 q2 q3 [A1 A2] [B1 B2]. split; [congruence|auto]. Qed.

Lemma evolves_same_segments q q' : shape q' = shape q -> (forall r, seg_at q' r = seg_at q r) -> evolves q q'.
Proof. intros Hs Hr. split; [done|]. intros r v. unfold done_at. by rewrite Hr. Qed.

Lemma evolves_update_job q job f : (forall j, job_id (f j) = job_id j) ->
  (forall j, files (f j) = files j) -> evolves q (update_job q job f).
Proof.
  intros Hf Hs. apply evolves_same_segments.
  - apply shape_update_job. intros j. unfold job_shape. by rewrite Hf, Hs.
  - intros r. by apply seg_at_update_job.
Qed.

Lemma evolves_update_file q job file f : (forall x, file_id (f x) = file_id x) ->
  (forall x, segments (f x) = segments x) -> evolves q (update_file q job file f).
Proof.
  intros Hf Hs. apply evolves_same_segments.
  - apply shape_update_file. intros x. unfold file_shape. by rewrite Hf, Hs.
  - intros r. by apply seg_at_update_file.
Qed.

(** A segment that is not done may change. *)
Lemma evolves_update_segment q r g : (forall s, number (g s) = number s) ->
  (forall s, seg_at q r = Some s -> is_done (state s) = true -> g s = s) ->
  evolves q (update_segment q r g).
Proof.
  intros Hg Hd. split; [by apply shape_update_segment|]. intros r' v. unfold done_at.
  rewrite seg_at_update_segment by done. destruct (decide (r' = r)) as [->|]; [|done].
  destruct (seg_at q r) as [s|] eqn:E; [|done]. simpl. intros Hv. rewrite Hd; [done|done|].
  unfold done_value in Hv. by destruct (state s).
Qed.

(** The same segments, done as before. *)
Record same_done (q q' : QueueState) : Prop := {
  sd_shape : shape q' = shape q;
  sd_done : forall r, done_at q' r = done_at q r
}.

#[export] Instance same_done_preorder : PreOrder same_done.
Proof.
  split; [by split|]. intros q1 q2 q3 [A1 A2] [B1 B2]. split; [congruence|]. intros r. by rewrite B2.
Qed.

Lemma same_done_segments q q' : shape q' = shape q -> (forall r, seg_at q' r = seg_at q r) -> same_done q q'.
Proof. intros Hs Hr. split; [done|]. intros r. unfold done_at. by rewrite Hr. Qed.

Lemma same_done_update_job q job f : (forall j, job_id (f j) = job_id j) ->
  (forall j, files (f j) = files j) -> same_done q (update_job q job f).
Proof.
  intros Hf Hs. apply same_done_segments.
  - apply shape_update_job. intros j. unfold job_shape. by rewrite Hf, Hs.
  - intros r. by apply seg_at_update_job.
Qed.

Lemma same_done_update_file q job file f : (forall x, file_id (f x) = file_id x) ->
  (forall x, segments (f x) = segments x) -> same_done q (update_file q job file f).
Proof.
  intros Hf Hs. apply same_done_segments.
  - apply shape_update_file. intros x. unfold file_shape. by rewrite Hf, Hs.
  - intros r. by apply seg_at_update_file.
Qed.

Lemma done_at_update_segment q r g r' : (forall s, number (g s) = number s) ->
  done_at (update_segment q r g) r' =
  if decide (r' = r) then seg_at q r ≫= fun s => done_value (g s) else done_at q r'.
Proof.
  intros Hg. unfold done_at. rewrite seg_at_update_segment by done. case_decide as H; [subst|done].
  by destruct (seg_at q r).
Qed.

(** A segment that is not done may change to anything else that is not. *)
Lemma same_done_update_segment q r g : (forall s, number (g s) = number s) ->
  (forall s, seg_at q r = Some s -> done_value (g s) = done_value s) ->
  same_done q (update_segment q r g).
Proof.
  intros Hg Hd. split; [by apply shape_update_segment|]. intros r'.
  rewrite done_at_update_segment by done. case_decide as H; [subst|done]. unfold done_at.
  destruct (seg_at q r) as [s|] eqn:E; [|done]. simpl. by apply Hd.
Qed.

(** ** Totals *)

Definition job_totals_ok (j : Job) : Prop := files j <> [] -> totals j = totals_of (files j).
Definition totals_ok (q : QueueState) : Prop := Forall job_totals_ok (jobs q).

Lemma Forall_update_first {A} (P : A -> Prop) p f l : (forall x, P x -> P (f x)) ->
  Forall P l -> Forall P (update_first p f l).
Proof. intros Hf. induction 1; simpl; [constructor|]. case_if; constructor; auto. Qed.

Lemma totals_ok_update_job q job f : (forall j, job_totals_ok j -> job_totals_ok (f j)) ->
  totals_ok q -> totals_ok (update_job q job f).
Proof. intros Hf. unfold totals_ok, update_job, set_jobs. cbn [jobs]. by apply Forall_update_first. Qed.

Lemma totals_ok_same j f : files (f j) = files j -> totals (f j) = totals j -> job_totals_ok j -> job_totals_ok (f j).
Proof. unfold job_totals_ok. by intros -> ->. Qed.

Lemma totals_of_update (p : FileEntry -> bool) f fs :
  (forall x, segments (f x) = segments x) -> (forall x, is_par2 (f x) = is_par2 x) ->
  totals_of (update_first p f fs) = totals_of fs.
Proof.
  intros Hs Hp. unfold totals_of. generalize JobTotals_default. induction fs as [|x fs IH]; intros t; [done|].
  simpl. case_if; simpl; [by rewrite Hs, Hp|apply IH].
Qed.

Lemma update_first_nil {A} (p : A -> bool) f l : update_first p f l = [] -> l = [].
Proof. destruct l as [|x l]; [done|]. simpl. by case_if. Qed.

Lemma totals_ok_update_file q job file f :
  (forall x, segments (f x) = segments x) -> (forall x, is_par2 (f x) = is_par2 x) ->
  totals_ok q -> totals_ok (update_file q job file f).
Proof.
  intros Hs Hp. apply totals_ok_update_job. intros j Hj. unfold job_totals_ok in *. simpl. intros Hne.
  rewrite totals_of_update by done. apply Hj. by intros E; rewrite E in Hne.
Qed.

(** The totals are right once [job] is recounted. *)
Definition almost_ok (job : JobId) (q : QueueState) : Prop :=
  totals_ok (update_job q job recompute_job_totals).

Lemma recompute_ok j : job_totals_ok (recompute_job_totals j).
Proof. done. Qed.

Lemma almost_of_ok job q : totals_ok q -> almost_ok job q.
Proof. apply totals_ok_update_job. intros j _. apply recompute_ok. Qed.

Lemma almost_update job q f : (forall j, job_id (f j) = job_id j) -> almost_ok job q -> almost_ok job (update_job q job f).
Proof.
  intros Hf. unfold almost_ok, totals_ok, update_job, set_jobs. cbn [jobs].
  induction (jobs q) as [|j l IH]; [done|]. simpl. destruct (job_id j =? job) eqn:E; simpl.
  - rewrite Hf, E. intros H. inversion H; subst. constructor; [apply recompute_ok|done].
  - rewrite E. intros H. inversion H; subst. constructor; [done|]. by apply IH.
Qed.

Lemma almost_update_segment q r g : almost_ok (sr_job r) q -> almost_ok (sr_job r) (update_segment q r g).
Proof. by apply almost_update. Qed.

Lemma totals_ok_update_segment q r g : (forall par t s, count_segment par t (g s) = count_segment par t s) ->
  totals_ok q -> totals_ok (update_segment q r g).
Proof.
  intros Hg. apply totals_ok_update_job. intros j Hj. unfold job_totals_ok in *. simpl. intros Hne.
  rewrite Hj by (by intros E; rewrite E in Hne). unfold totals_of.
  assert (Hseg : forall p par ss t, fold_left (count_segment par) (update_first p g ss) t = fold_left (count_segment par) ss t).
  { intros p par ss. induction ss as [|x ss IH]; intros t; [done|]. simpl. case_if; simpl; [by rewrite Hg|apply IH]. }
  clear -Hseg. generalize JobTotals_default. induction (files j) as [|f fs IH]; intros t; [done|]. simpl.
  case_if; simpl; [by rewrite Hseg|apply IH].
Qed.

(** ** Unique references *)

Definition unique_refs (q : QueueState) : Prop :=
  NoDup (map fst (shape q)) /\
  Forall (fun js => NoDup (map fst (snd js)) /\ Forall (fun fs => NoDup (snd fs)) (snd js)) (shape q).

Lemma find_unique {A} (k : A -> Z) l x : NoDup (map k l) -> x ∈ l -> find (fun y => k y =? k x) l = Some x.
Proof.
  induction l as [|y l IH]; intros Hn Hx; [by apply elem_of_nil in Hx|]. simpl.
  inversion Hn as [|? ? Hy Hn']; subst. apply elem_of_cons in Hx as [->|Hx]; [by rewrite Z.eqb_refl|].
  destruct (k y =? k x) eqn:E; bool_hyps; [|by apply IH].
  exfalso. apply Hy. rewrite E. by apply list_elem_of_fmap_2.
Qed.

Lemma unique_job q j : unique_refs q -> j ∈ jobs q ->
  find_job q (job_id j) = Some j /\ NoDup (map file_id (files j)) /\
  (forall f, f ∈ files j -> NoDup (map number (segments f))).
Proof.
  intros [Hn Hf] Hj. unfold shape in *. rewrite map_map in Hn. split; [by apply find_unique|].
  rewrite Forall_forall in Hf. specialize (Hf (job_shape j) ltac:(by apply list_elem_of_fmap_2)) as [H1 H2].
  simpl in *. rewrite map_map in H1. split; [done|]. intros f Hfj.
  rewrite Forall_forall in H2. by apply (H2 (file_shape f)), list_elem_of_fmap_2.
Qed.

Lemma seg_at_elem q j f s : unique_refs q -> j ∈ jobs q -> f ∈ files j -> s ∈ segments f ->
  seg_at q {| sr_job := job_id j; sr_file := file_id f; seg_number := number s |} = Some s.
Proof.
  intros Hu Hj Hf Hs. destruct (unique_job q j Hu Hj) as (H1 & H2 & H3).
  unfold seg_at, find_file. simpl. rewrite H1. simpl. rewrite (find_unique file_id _ f) by done. simpl.
  apply (find_unique number); [by apply H3|done].
Qed.

Lemma unique_shape q q' : shape q' = shape q -> unique_refs q -> unique_refs q'.
Proof. unfold unique_refs. by intros ->. Qed.

Lemma find_job_elem q id j : find_job q id = Some j -> j ∈ jobs q /\ job_id j = id.
Proof.
  intros H. apply find_some in H as [H1 H2]. bool_hyps. split; [by apply list_elem_of_In|done].
Qed.

(** ** The handlers *)

Record keeps (q q' : QueueState) : Prop := {
  k_done : same_done q q';
  k_totals : totals_ok q -> totals_ok q'
}.

#[export] Instance keeps_preorder : PreOrder keeps.
Proof.
  split; [by split|]. intros q1 q2 q3 [A1 A2] [B1 B2]. split; [by etransitivity|auto].
Qed.

(** The same segments altogether. *)
Definition counters (q : QueueState) : Z * Z * list PendingAdmission := (next_job_id q, next_file_id q, pending_admissions q).

Record quiet (q q' : QueueState) : Prop := {
  qt_counters : counters q' = counters q;
  qt_shape : shape q' = shape q;
  qt_segs : forall r, seg_at q' r = seg_at q r;
  qt_totals : totals_ok q -> totals_ok q'
}.

#[export] Instance quiet_preorder : PreOrder quiet.
Proof.
  split; [by split|]. intros q1 q2 q3 [A0 A1 A2 A3] [B0 B1 B2 B3]. split; [congruence|congruence| |auto]. intros r. by rewrite B2.
Qed.

Lemma quiet_keeps q q' : quiet q q' -> keeps q q'.
Proof. intros [H0 H1 H2 H3]. split; [by apply same_done_segments|done]. Qed.

Lemma quiet_update_job q job f : (forall j, job_id (f j) = job_id j) ->
  (forall j, files (f j) = files j) -> (forall j, totals (f j) = totals j) -> quiet q (update_job q job f).
Proof.
  intros H1 H2 H3. split; [done|..].
  - apply shape_update_job. intros j. unfold job_shape. by rewrite H1, H2.
  - intros r. by apply seg_at_update_job.
  - apply totals_ok_update_job. intros j. by apply totals_ok_same.
Qed.

Lemma find_map {A} (p : A -> bool) (f : A -> A) l : (forall x, p (f x) = p x) -> find p (map f l) = f <$> find p l.
Proof. intros H. induction l as [|x l IH]; [done|]. simpl. rewrite H. by case_if. Qed.

Lemma quiet_map_jobs q f : (forall j, job_id (f j) = job_id j) ->
  (forall j, files (f j) = files j) -> (forall j, totals (f j) = totals j) -> quiet q (set_jobs (map f (jobs q)) q).
Proof.
  intros H1 H2 H3. split; [done|..].
  - unfold shape, set_jobs. cbn [jobs]. rewrite map_map. apply map_ext. intros j. unfold job_shape. by rewrite H1, H2.
  - intros r. unfold seg_at, find_file, find_job, set_jobs. cbn [jobs]. rewrite find_map by (intros j; by rewrite H1).
    destruct (find _ (jobs q)) as [j|]; [|done]. simpl. by rewrite H2.
  - unfold totals_ok, set_jobs. cbn [jobs]. intros H. apply Forall_fmap. eapply Forall_impl; [exact H|].
    intros j. by apply totals_ok_same.
Qed.

Lemma quiet_finalized q job file crc :
  quiet q (update_file q job file (fun f => set_finalized (crc f) f)).
Proof.
  split; [done|by apply shape_update_file|intros r; by apply seg_at_update_file|by apply totals_ok_update_file].
Qed.

(** *** Parts of the owner that a handler leaves alone *)

Lemma forget_files_core fids o :
  o_state (forget_files fids o) = o_state o /\ o_journal (forget_files fids o) = o_journal o.
Proof. induction fids as [|f fids IH]; [done|]. simpl. by destruct IH. Qed.

Lemma ensure_allocation_core env o job o' b : ensure_allocation env o job = (o', b) ->
  o_state o' = o_state o /\ o_journal o' = o_journal o.
Proof.
  unfold ensure_allocation. repeat case_if; try destruct (find_job _ _); repeat case_if; by intros [= <- <-].
Qed.

Lemma writer_for_core env o job file o' out : writer_for env o job file = (o', out) ->
  o_state o' = o_state o /\ o_journal o' = o_journal o.
Proof.
  unfold writer_for. case_if; [by intros [= <- <-]|].
  destruct (ensure_allocation env o job) as [o1 b] eqn:E. apply ensure_allocation_core in E.
  case_if; by intros [= <- <-].
Qed.

Lemma send_finalize_core env o job file :
  o_state (send_finalize env o job file) = o_state o /\ o_journal (send_finalize env o job file) = o_journal o.
Proof.
  unfold send_finalize. destruct (find_file _ _ _) as [f|]; [|done].
  destruct (writer_for env o job file) as [o' out] eqn:E. apply writer_for_core in E. by destruct out.
Qed.

Lemma retry_finalize_core env pending : forall o,
  o_state (retry_finalize env pending o) = o_state o /\ o_journal (retry_finalize env pending o) = o_journal o.
Proof.
  induction pending as [|[j f] pending IH]; intros o; [done|]. simpl.
  destruct (IH (if bool_decide (f ∈ o_finalize_sent o) then o else send_finalize env o j f)) as [-> ->].
  case_if; [done|]. apply send_finalize_core.
Qed.

Lemma block_server_core env o server :
  o_state (block_server env o server) = o_state o /\ o_journal (block_server env o server) = o_journal o.
Proof. unfold block_server. by case_if. Qed.

(** ** The handlers, over any invariant of the queue, the journals and the disk

    [I q j w] holds between the steps, [C w] where the machine stops. *)

Section Handlers.
Context {jc : JournalCodec} {dc : DocCodec}.
Variable I : QueueState -> JobJournals -> World -> Prop.
Variable C : World -> Prop.
Variable env : Env.

Definition inv (o : Owner) (w : World) : Prop := I (o_state o) (o_journal o) w.
Definition no_error (e : StateError) (w : World) : Prop := False.

(** [m] leads from [o] to an owner that is related to it and keeps the invariant. *)
Definition leads (R : QueueState -> QueueState -> Prop) (o : Owner) (m : io Owner) (w : World) : Prop :=
  wp m (fun o' w' => R (o_state o) (o_state o') /\ inv o' w') no_error C w.

Hypothesis I_done : forall q q' j w, I q j w -> same_done q q' -> I q' j w.
Hypothesis I_save : forall o w, inv o w ->
  wp (save_snapshot env o) (fun p w' => o_state (fst p) = o_state o /\ inv (fst p) w') no_error C w.

Lemma leads_ret (R : QueueState -> QueueState -> Prop) o o' w : R (o_state o) (o_state o') -> inv o' w -> leads R o (io_ret o') w.
Proof. done. Qed.

Lemma leads_bind R S T o m k w : leads R o m w ->
  (forall o' w', R (o_state o) (o_state o') -> inv o' w' -> leads S o' (k o') w') ->
  (forall q1 q2 q3, R q1 q2 -> S q2 q3 -> T q1 q3) -> leads T o (io_bind m k) w.
Proof.
  intros Hm Hk HT. apply wp_bind. eapply wp_mono; [exact Hm| |done|done]. intros o1 w1 [H1 I1].
  eapply wp_mono; [apply (Hk o1 w1 H1 I1)| |done|done]. intros o2 w2 [H2 I2]. split; [by eapply HT|done].
Qed.

(** A change of the owner before the rest of a handler. *)
Lemma leads_from (R S : QueueState -> QueueState -> Prop) o o1 m w : R (o_state o) (o_state o1) ->
  (forall q1 q2 q3, R q1 q2 -> S q2 q3 -> S q1 q3) -> leads S o1 m w -> leads S o m w.
Proof.
  intros HR HS Hm. eapply wp_mono; [exact Hm| |done|done]. intros o2 w2 [H2 I2]. split; [by eapply HS|done].
Qed.

Lemma leads_weaken (R S : QueueState -> QueueState -> Prop) o m w :
  (forall q1 q2, R q1 q2 -> S q1 q2) -> leads R o m w -> leads S o m w.
Proof. intros HRS Hm. eapply wp_mono; [exact Hm| |done|done]. naive_solver. Qed.

Lemma inv_quiet o o' w : inv o w -> quiet (o_state o) (o_state o') -> o_journal o' = o_journal o -> inv o' w.
Proof. unfold inv. intros Hi Hq ->. eapply I_done; [done|]. by apply k_done, quiet_keeps. Qed.

Lemma inv_keeps o o' w : inv o w -> keeps (o_state o) (o_state o') -> o_journal o' = o_journal o -> inv o' w.
Proof. unfold inv. intros Hi Hq ->. eapply I_done; [done|]. by apply k_done. Qed.

Lemma check_job_complete_quiet o job w : inv o w -> leads quiet o (check_job_complete env o job) w.
Proof.
  intros Hi. unfold check_job_complete. case_if; [by apply leads_ret|]. case_if; [by apply leads_ret|].
  destruct (find_job (o_state o) job) as [j|]; [|by apply leads_ret].
  destruct (active_status (status j)); cbn [negb]; [|by apply leads_ret].
  destruct (job_complete j); cbn [negb]; [|by apply leads_ret].
  set (st := finished_status _ _). set (o1 := forget_files _ _).
  assert (E : o_state o1 = update_job (o_state o) job (set_status st) /\ o_journal o1 = o_journal o).
  { unfold o1. match goal with |- context [forget_files ?l ?x] => destruct (forget_files_core l x) as [-> ->] end. done. }
  destruct E as [E1 E2].
  assert (Hq : quiet (o_state o) (o_state o1)) by (rewrite E1; by apply quiet_update_job).
  assert (Hi1 : inv o1 w) by (eapply inv_quiet; [exact Hi|exact Hq|exact E2]).
  apply wp_bind. eapply wp_mono; [apply (I_save o1 w Hi1)| |done|done]. intros [o2 b] w2 [Ho Hi2]. simpl in Ho, Hi2.
  destruct (open_post_stage j); apply leads_ret; simpl; rewrite ?Ho; done.
Qed.

Lemma after_file_change_quiet o job file w : inv o w -> leads quiet o (after_file_change env o job file) w.
Proof.
  intros Hi. unfold after_file_change. destruct (find_file (o_state o) job file) as [f|]; [|by apply leads_ret].
  case_if; [by apply check_job_complete_quiet|]. case_if.
  - case_if; [by apply leads_ret|]. destruct (send_finalize_core env o job file) as [E1 E2].
    apply leads_ret; [by rewrite E1|]. unfold inv. by rewrite E1, E2.
  - set (o1 := with_dirty true _).
    assert (Hq : quiet (o_state o) (o_state o1)) by apply (quiet_finalized _ _ _ file_crc32).
    eapply leads_from; [exact Hq|intros; by etransitivity|]. apply check_job_complete_quiet.
    by eapply inv_quiet.
Qed.

Lemma after_file_change_keeps o job file w : inv o w -> leads keeps o (after_file_change env o job file) w.
Proof. intros Hi. eapply leads_weaken; [apply quiet_keeps|by apply after_file_change_quiet]. Qed.

(** ** Failing segments *)

Definition not_done (q : QueueState) (job : JobId) (file : FileId) (n : Z) : Prop :=
  done_at q {| sr_job := job; sr_file := file; seg_number := n |} = None.

Lemma fail_number_same job file o n : not_done (o_state o) job file n ->
  same_done (o_state o) (o_state (fail_number job file o n)).
Proof.
  intros Hd. simpl. apply same_done_update_segment; [done|]. intros s Hs.
  unfold not_done, done_at in Hd. rewrite Hs in Hd. simpl in Hd. by rewrite Hd.
Qed.

Lemma not_done_same q q' job file ns : same_done q q' -> Forall (not_done q job file) ns -> Forall (not_done q' job file) ns.
Proof.
  intros Hs Hd. eapply Forall_impl; [exact Hd|]. intros n Hn. unfold not_done in *. by rewrite (sd_done _ _ Hs).
Qed.

Lemma fail_numbers job file ns : forall o, Forall (not_done (o_state o) job file) ns ->
  let o' := fold_left (fail_number job file) ns o in
  same_done (o_state o) (o_state o') /\ (almost_ok job (o_state o) -> almost_ok job (o_state o')) /\
  o_journal o' = o_journal o.
Proof.
  induction ns as [|n ns IH]; intros o Hd; simpl; [done|]. inversion Hd as [|? ? Hn Hd']; subst.
  pose proof (fail_number_same job file o n Hn) as S1.
  destruct (IH (fail_number job file o n)) as (S2 & A2 & E2); [by eapply not_done_same|].
  split_and!; [by etransitivity| |done]. intros Ha. apply A2. simpl.
  by apply (almost_update_segment _ {| sr_job := job; sr_file := file; seg_number := n |}).
Qed.

(** Failing and recounting. *)
Lemma fail_recompute job file ns o : Forall (not_done (o_state o) job file) ns ->
  let o' := recompute job (fold_left (fail_number job file) ns o) in
  keeps (o_state o) (o_state o') /\ o_journal o' = o_journal o.
Proof.
  intros Hd. destruct (fail_numbers job file ns o Hd) as (S & A & E). split; [split|done].
  - etransitivity; [exact S|]. by apply same_done_update_job.
  - intros Ht. by apply A, almost_of_ok.
Qed.

Lemma abort_files_keeps job l : forall o w, inv o w ->
  Forall (fun p => Forall (not_done (o_state o) job (fst p)) (snd p)) l ->
  leads keeps o (abort_files env job l o) w.
Proof.
  induction l as [|[file ns] l IH]; intros o w Hi Hd; simpl; [by apply leads_ret|].
  inversion Hd as [|? ? Hn Hd']; subst. simpl in Hn.
  destruct (fail_recompute job file ns o Hn) as [K1 E1]. set (o1 := recompute _ _) in *.
  eapply leads_from; [exact K1|intros; by etransitivity|].
  eapply leads_bind; [apply after_file_change_keeps; by eapply inv_keeps| |intros; by etransitivity].
  intros o2 w2 K2 Hi2. apply IH; [done|]. eapply Forall_impl; [exact Hd'|]. intros p Hp.
  eapply not_done_same; [|exact Hp]. apply k_done. by etransitivity.
Qed.

Lemma pending_not_done q j : unique_refs q -> find_job q (job_id j) = Some j ->
  Forall (fun p => Forall (not_done q (job_id j) (fst p)) (snd p)) (pending_refs j).
Proof.
  intros Hu Hj. apply find_job_elem in Hj as [Hj _]. apply Forall_forall. intros [file ns] Hp.
  apply list_elem_of_fmap in Hp as (f & [= -> ->] & Hf). apply elem_of_filter_bool in Hf as [Hf _].
  apply Forall_forall. intros n Hn. apply list_elem_of_fmap in Hn as (s & -> & Hs).
  apply elem_of_filter_bool in Hs as [Hs Hp]. unfold not_done, done_at. simpl.
  rewrite (seg_at_elem q j f s) by done. simpl. unfold done_value. by destruct (state s).
Qed.

Lemma maybe_abort_keeps o job w : unique_refs (o_state o) -> inv o w -> leads keeps o (maybe_abort_unhealthy env o job) w.
Proof.
  intros Hu Hi. unfold maybe_abort_unhealthy. case_if; [by apply leads_ret|].
  destruct (find_job (o_state o) job) as [j|] eqn:Hj; [|by apply leads_ret].
  case_if; [by apply leads_ret|]. case_if; [by apply leads_ret|].
  pose proof (find_job_elem _ _ _ Hj) as [_ <-]. apply abort_files_keeps; [done|]. by apply pending_not_done.
Qed.

Lemma keeps_unique q q' : keeps q q' -> unique_refs q -> unique_refs q'.
Proof. intros [[Hs _] _]. by apply unique_shape. Qed.

Lemma fail_segment_keeps o r w : unique_refs (o_state o) -> inv o w -> leads keeps o (fail_segment env o r) w.
Proof.
  intros Hu Hi. unfold fail_segment. destruct (seg_at (o_state o) r) as [s|] eqn:Hs; [|by apply leads_ret].
  case_if; [by apply leads_ret|]. bool_hyps.
  destruct (fail_recompute (sr_job r) (sr_file r) [seg_number r] o) as [K1 E1].
  { constructor; [|constructor]. unfold not_done, done_at. destruct r as [a b c]. simpl in *. rewrite Hs. simpl.
    unfold done_value. by destruct (state s). }
  set (o1 := emit _ _). eapply (leads_from keeps keeps o o1); [exact K1|intros; by etransitivity|].
  assert (Hi1 : inv o1 w) by (by eapply (inv_keeps o o1)).
  eapply leads_bind; [by apply after_file_change_keeps| |intros; by etransitivity].
  intros o2 w2 K2 Hi2. apply maybe_abort_keeps; [|done]. eapply keeps_unique; [exact K2|]. by eapply keeps_unique.
Qed.

Lemma fail_segments_keeps rs : forall o w, unique_refs (o_state o) -> inv o w -> leads keeps o (fail_segments env rs o) w.
Proof.
  induction rs as [|r rs IH]; intros o w Hu Hi; simpl; [by apply leads_ret|].
  eapply leads_bind; [by apply fail_segment_keeps| |intros; by etransitivity].
  intros o1 w1 K1 Hi1. apply IH; [by eapply keeps_unique|done].
Qed.

Lemma fail_whole_file_keeps o job file w : unique_refs (o_state o) -> inv o w -> leads keeps o (fail_whole_file env o job file) w.
Proof.
  intros Hu Hi. unfold fail_whole_file. destruct (find_file _ _ _); [|by apply leads_ret]. by apply fail_segments_keeps.
Qed.

(** ** Leases and reports *)

Lemma release_keeps q r : keeps q (update_segment q r release_lease).
Proof.
  unfold release_lease. split.
  - apply same_done_update_segment; [intros s; by case_if|]. intros s _. unfold done_value.
    by destruct (state s) eqn:E; simpl; rewrite ?E.
  - apply totals_ok_update_segment. intros par t s. unfold count_segment. by destruct (state s) eqn:E; simpl; rewrite ?E.
Qed.

Lemma on_segment_failed_keeps o r server out w : unique_refs (o_state o) -> inv o w ->
  leads keeps o (on_segment_failed env o r server out) w.
Proof.
  intros Hu Hi. unfold on_segment_failed. cbv zeta.
  destruct (on_outcome _ server out) as [att verdict].
  destruct (match verdict with NextServer => _ | _ => _ end) as [att' exh].
  set (o0 := with_state (update_segment _ r release_lease) _).
  set (o1 := match verdict with RetrySame true => _ | _ => _ end).
  assert (E1 : o_state o1 = o_state o0 /\ o_journal o1 = o_journal o0).
  { unfold o1. destruct verdict as [|[]| |]; try done. apply block_server_core. }
  destruct E1 as [E1 E2].
  assert (K1 : keeps (o_state o) (o_state o1)) by (rewrite E1; apply release_keeps).
  assert (Hi1 : inv o1 w) by (eapply inv_keeps; [exact Hi|exact K1|exact E2]).
  eapply leads_from; [exact K1|intros; by etransitivity|].
  destruct exh; [|by apply leads_ret]. apply fail_segment_keeps; [by eapply keeps_unique|done].
Qed.

(** What a report of a written part makes of the queue. *)
Definition after_written (q : QueueState) (r : SegRef) (v : Z * Z * Z) (r' : SegRef) : option (Z * Z * Z) :=
  if bool_decide (r' = r) && bool_decide (is_Some (seg_at q r)) && bool_decide (done_at q r = None)
  then Some v else done_at q r'.

Record written (r : SegRef) (v : Z * Z * Z) (q q' : QueueState) : Prop := {
  wr_shape : shape q' = shape q;
  wr_done : forall r', done_at q' r' = after_written q r v r';
  wr_totals : totals_ok q -> totals_ok q'
}.

Lemma after_written_none q r v : seg_at q r = None \/ done_at q r <> None -> written r v q q.
Proof.
  intros Hn. split; [done| |done]. intros r'. unfold after_written.
  case_bool_decide as E1; case_bool_decide as E2; case_bool_decide as E3; try done.
  destruct Hn as [Hn|Hn]; [rewrite Hn in E2; by destruct E2|done].
Qed.

(** The new part entered, before and after the recount. *)
Lemma written_enter q r off len crc s : seg_at q r = Some s -> is_done (state s) = false ->
  let q' := update_segment q r (set_seg_state (Done off len crc)) in
  shape q' = shape q /\ (forall r', done_at q' r' = after_written q r (off, len, crc) r') /\
  written r (off, len, crc) q (update_job q' (sr_job r) recompute_job_totals).
Proof.
  intros Hs Hd q'.
  assert (Hshape : shape q' = shape q) by (by apply shape_update_segment).
  assert (Hdone : forall r', done_at q' r' = after_written q r (off, len, crc) r').
  { intros r'. unfold q'. rewrite done_at_update_segment by done. unfold after_written.
    assert (Hn : done_at q r = None) by (unfold done_at; rewrite Hs; simpl; unfold done_value; by destruct (state s)).
    rewrite (bool_decide_eq_true_2 (is_Some (seg_at q r))) by (by rewrite Hs).
    rewrite (bool_decide_eq_true_2 (done_at q r = None)) by done.
    case_decide; case_bool_decide; rewrite ?Hs; done. }
  pose proof (same_done_update_job q' (sr_job r) recompute_job_totals ltac:(done) ltac:(done)) as [S1 S2].
  split_and!; try done. split; [congruence|intros r'; by rewrite S2|].
  intros Ht. by apply almost_update_segment, almost_of_ok.
Qed.

(** The journal takes the record of the part just entered. *)
Definition append_keeps (q : QueueState) (r : SegRef) (off len crc fsize : Z) : Prop := forall s j w,
  seg_at q r = Some s -> is_done (state s) = false -> I q j w ->
  wp (append j (journal_record r off len crc fsize))
    (fun p w' => I (update_segment q r (set_seg_state (Done off len crc))) (fst p) w') no_error C w.

Lemma on_segment_written_done o r off len crc fsize server w : inv o w -> append_keeps (o_state o) r off len crc fsize ->
  leads (written r (off, len, crc)) o (on_segment_written env o r off len crc fsize server) w.
Proof.
  intros Hi Hap. unfold on_segment_written. cbv zeta. set (o0 := if 0 <? fsize then _ else _).
  assert (E0 : o_state o0 = o_state o /\ o_journal o0 = o_journal o) by (unfold o0; by case_if).
  destruct E0 as [E0 E0']. assert (Hi0 : inv o0 w) by (unfold inv; by rewrite E0, E0').
  eapply (leads_from (fun q q' => q' = q) _ o o0); [done|by intros ? ? ? ->|].
  destruct (seg_at (o_state o0) r) as [s|] eqn:Hs.
  2: { apply leads_ret; [apply after_written_none; by left|done]. }
  assert (Hd : done_at (o_state o0) r = done_value s) by (unfold done_at; by rewrite Hs).
  destruct (is_done (state s)) eqn:Ed.
  { apply leads_ret; [|done]. apply after_written_none. right. rewrite Hd. unfold done_value. by destruct (state s). }
  rewrite <- E0 in Hap.
  apply wp_bind. eapply wp_mono; [by apply (Hap s (o_journal o0) w)| |done|done].
  intros [j a] w1 Hi1. cbn [fst] in Hi1. set (o1 := recompute (sr_job r) _).
  destruct (written_enter (o_state o0) r off len crc s Hs Ed) as (_ & _ & W1).
  assert (Hi2 : inv o1 w1).
  { unfold inv, o1. cbn [recompute o_state o_journal with_state with_attempts with_journal].
    eapply I_done; [exact Hi1|]. by apply same_done_update_job. }
  eapply wp_mono; [apply (after_file_change_keeps o1); exact Hi2| |done|done]. intros o2 w2 [[[K1 K2] K3] Hi3].
  split; [|done]. destruct W1 as [X1 X2 X3]. split; [by rewrite K1|intros r'; by rewrite K2|intros; by apply K3, X3].
Qed.

(** ** Finished files and names; a panic in the naming code stops the owner *)

Hypothesis I_panic : forall q j w, I q j w -> C w.

Lemma leads_run {A} (R : QueueState -> QueueState -> Prop) o (m : run A) k w : inv o w ->
  (forall a, m = Ret a -> leads R o (k a) w) -> leads R o (io_bind (of_run m) k) w.
Proof.
  intros Hi Hk. destruct m as [a|]; [by apply Hk|]. unfold leads, wp, io_bind. simpl. by eapply I_panic.
Qed.

Lemma learn_state o job w : inv o w -> leads eq o (maybe_learn_name_from o job) w.
Proof.
  intros Hi. unfold maybe_learn_name_from. destruct (find_job _ _); [|by apply leads_ret].
  apply leads_run; [done|]. intros b _. case_if; by apply leads_ret.
Qed.

Lemma on_writer_finalized_keeps o job file ok has_path crc w : inv o w ->
  leads keeps o (on_writer_finalized env o job file ok has_path crc) w.
Proof.
  intros Hi. unfold on_writer_finalized. cbn [with_writers with_finalize_sent with_file_sizes o_state].
  destruct (find_file _ _ _) as [f|]; [|by apply leads_ret].
  set (o1 := with_state _ _).
  assert (Q1 : quiet (o_state o) (o_state o1)) by apply (quiet_finalized _ _ _ (fun f => if ok then crc else file_crc32 f)).
  set (o2 := if ok then o1 else _).
  assert (H2 : o_state o2 = o_state o1 /\ o_journal o2 = o_journal o1)
    by (unfold o2; destruct ok; [done|]; by destruct (_ !! _)).
  destruct H2 as [E2 J2]. rewrite <- E2 in Q1.
  assert (Hi2 : inv o2 w) by (eapply inv_quiet; [exact Hi|exact Q1|exact J2]).
  eapply leads_from; [apply quiet_keeps, Q1|intros; by etransitivity|].
  eapply (leads_bind eq keeps); [|  |by intros ? ? ? ->].
  - case_if; [by apply learn_state|by apply leads_ret].
  - intros o3 w3 E3 Hi3. eapply leads_weaken; [apply quiet_keeps|].
    eapply (leads_from eq _ o3 (with_dirty true (emit (E_FileFinished job file (filename f) ok) o3)));
      [done|by intros ? ? ? ->|]. by apply check_job_complete_quiet.
Qed.

Lemma adopt_keeps o job nm w : inv o w -> leads keeps o (adopt_learned_name o job nm) w.
Proof.
  intros Hi. unfold adopt_learned_name. destruct (find_job _ _) as [j|] eqn:Hj; [|by apply leads_ret].
  apply leads_run; [done|]. intros b _. case_if; [by apply leads_ret|]. set (o1 := with_dirty true _).
  assert (Q1 : quiet (o_state o) (o_state o1)).
  { simpl. unfold set_job_name. rewrite Hj. apply quiet_update_job; intros x; apply rename_job_ids. }
  apply leads_ret; [by apply quiet_keeps|]. by eapply inv_quiet.
Qed.

Lemma on_job_name_inspected_keeps o job nm w : inv o w -> leads keeps o (on_job_name_inspected env o job nm) w.
Proof.
  intros Hi. unfold on_job_name_inspected. set (o1 := match o_inspections o !! job with Some _ => _ | None => _ end).
  assert (H1 : o_state o1 = o_state o /\ o_journal o1 = o_journal o) by (unfold o1; by destruct (_ !! _)).
  destruct H1 as [E1 J1]. assert (Hi1 : inv o1 w) by (unfold inv; by rewrite E1, J1).
  eapply (leads_from eq keeps o o1); [done|by intros ? ? ? ->|].
  eapply leads_bind; [| |intros; by etransitivity].
  - destruct nm; [by apply adopt_keeps|by apply leads_ret].
  - intros o2 w2 K2 Hi2. eapply leads_weaken; [apply quiet_keeps|by apply check_job_complete_quiet].
Qed.

End Handlers.
