(* ===== verification/Leases.v ===== *)
(** * Leases are exclusive ([grant_work] of [crates/nzbd-engine/src/owner.rs])

    A segment is in the hands of at most one connection: [grant_work] hands out
    only pending segments, each once, and leaves every lease it finds alone,
    whatever failures and health aborts it runs on the way. *)

From S2P Require Import Prelude RustStr Crc32 Types Failover Volumes Nzb JobNames Queue Selection ParSelect Fs Codec Store Owner OwnerInv.

#[local] Unset Default Proof Using.

(** From [q] to [q'], pending segments may have failed; nothing else changed. *)
Record settles (q q' : QueueState) : Prop := {
  st_shape : shape q' = shape q;
  st_seg : forall r s, seg_at q r = Some s -> exists s', seg_at q' r = Some s' /\
             (s' = s \/ (state s = Pending /\ s' = set_seg_state Failed s));
  st_none : forall r, seg_at q r = None -> seg_at q' r = None
}.

#[export] Instance settles_preorder : PreOrder settles.
Proof.
  split; [by split; eauto|]. intros q1 q2 q3 [A1 A2 A3] [B1 B2 B3]. split; [congruence| |auto].
  intros r s Hs. destruct (A2 r s Hs) as (s1 & H1 & D1). destruct (B2 r s1 H1) as (s2 & H2 & D2).
  exists s2. split; [done|]. destruct D1 as [->|[? ->]]; [done|]. destruct D2 as [->|[? _]]; [by right|done].
Qed.

Lemma quiet_settles q q' : quiet q q' -> settles q q'.
Proof. intros [_ H1 H2 _]. split; [done| |intros r; by rewrite H2]. intros r s Hs. exists s. rewrite H2. auto. Qed.

Lemma set_failed_id s : state s = Failed -> set_seg_state Failed s = s.
Proof. destruct s. simpl. by intros ->. Qed.

Lemma settles_fail q r : (forall s, seg_at q r = Some s -> state s = Pending \/ state s = Failed) ->
  settles q (update_segment q r (set_seg_state Failed)).
Proof.
  intros Hp. split; [by apply shape_update_segment| |].
  2: { intros r' Hr. rewrite seg_at_update_segment by done. case_decide; by rewrite Hr. }
  intros r' s Hs. rewrite seg_at_update_segment by done. case_decide as E; [subst|by eauto].
  rewrite Hs. eexists. split; [reflexivity|]. destruct (Hp s Hs) as [H|H]; [by right|left; by apply set_failed_id].
Qed.

(** Segments that may fail without touching a lease. *)
Definition failable (q : QueueState) (r : SegRef) : Prop :=
  forall s, seg_at q r = Some s -> state s = Pending \/ state s = Failed.

Lemma failable_settles q q' r : settles q q' -> failable q r -> failable q' r.
Proof.
  intros H Hf s' Hs'. destruct (seg_at q r) as [s|] eqn:Hs.
  - destruct (st_seg _ _ H r s Hs) as (s1 & H1 & D). rewrite Hs' in H1. injection H1 as <-.
    destruct D as [->|[_ ->]]; [by apply Hf|by right].
  - by rewrite (st_none _ _ H r Hs) in Hs'.
Qed.

Section Grant.
Context {jc : JournalCodec} {dc : DocCodec}.
Variable I : QueueState -> JobJournals -> World -> Prop.
Variable C : World -> Prop.
Variable env : Env.
Hypothesis I_done : forall q q' j w, I q j w -> same_done q q' -> I q' j w.
Hypothesis I_save : forall o w, inv I o w ->
  wp (save_snapshot env o) (fun p w' => o_state (fst p) = o_state o /\ inv I (fst p) w') no_error C w.

Definition ref (job : JobId) (file : FileId) (n : Z) : SegRef := {| sr_job := job; sr_file := file; seg_number := n |}.

Lemma fail_numbers_settles job file ns : forall o, Forall (fun n => failable (o_state o) (ref job file n)) ns ->
  settles (o_state o) (o_state (fold_left (fail_number job file) ns o)).
Proof.
  induction ns as [|n ns IH]; intros o Hd; simpl; [done|]. inversion Hd as [|? ? Hn Hd']; subst.
  assert (S1 : settles (o_state o) (o_state (fail_number job file o n))) by (by apply settles_fail).
  etransitivity; [exact S1|]. apply IH. eapply Forall_impl; [exact Hd'|]. intros m. by apply failable_settles.
Qed.

Lemma recompute_settles job o : settles (o_state o) (o_state (recompute job o)).
Proof.
  simpl. destruct (same_done_update_job (o_state o) job recompute_job_totals) as [Hs _]; [done..|].
  split; [done| |]; intros r; [intros s Hr; exists s|]; rewrite seg_at_update_job by done; auto.
Qed.

Lemma settles_same q q' : settles q q' -> same_done q q'.
Proof.
  intros H. split; [apply (st_shape _ _ H)|]. intros r. unfold done_at. destruct (seg_at q r) as [s|] eqn:Hs.
  - destruct (st_seg _ _ H r s Hs) as (s' & -> & [->|[Hp ->]]); [done|]. simpl. unfold done_value. by rewrite Hp.
  - by rewrite (st_none _ _ H r Hs).
Qed.

Lemma inv_settles o o' w : inv I o w -> settles (o_state o) (o_state o') -> o_journal o' = o_journal o -> inv I o' w.
Proof. unfold inv. intros Hi Hs ->. eapply I_done; [done|]. by apply settles_same. Qed.

Lemma fail_numbers_journal job file ns : forall o, o_journal (fold_left (fail_number job file) ns o) = o_journal o.
Proof. induction ns as [|n ns IH]; intros o; [done|]. simpl. by rewrite IH. Qed.

Lemma abort_files_settles job l : forall o w, inv I o w ->
  Forall (fun p => Forall (fun n => failable (o_state o) (ref job (fst p) n)) (snd p)) l ->
  leads I C settles o (abort_files env job l o) w.
Proof.
  induction l as [|[file ns] l IH]; intros o w Hi Hd; simpl; [by apply leads_ret|].
  inversion Hd as [|? ? Hn Hd']; subst. simpl in Hn.
  set (o1 := recompute _ _).
  assert (S1 : settles (o_state o) (o_state o1)).
  { etransitivity; [apply (fail_numbers_settles job file ns o Hn)|apply recompute_settles]. }
  assert (Hi1 : inv I o1 w) by (eapply inv_settles; [exact Hi|exact S1|apply fail_numbers_journal]).
  eapply leads_from; [exact S1|intros; by etransitivity|].
  eapply leads_bind; [by apply after_file_change_quiet| |intros ? ? ? ?%quiet_settles ?; by etransitivity].
  intros o2 w2 Q2 Hi2. apply IH; [done|]. eapply Forall_impl; [exact Hd'|]. intros p Hp.
  eapply Forall_impl; [exact Hp|]. intros n. apply failable_settles. etransitivity; [exact S1|by apply quiet_settles].
Qed.

Lemma pending_failable q j : unique_refs q -> find_job q (job_id j) = Some j ->
  Forall (fun p => Forall (fun n => failable q (ref (job_id j) (fst p) n)) (snd p)) (pending_refs j).
Proof.
  intros Hu Hj. apply find_job_elem in Hj as [Hj _]. apply Forall_forall. intros [file ns] Hp.
  apply list_elem_of_fmap in Hp as (f & [= -> ->] & Hf). apply elem_of_filter_bool in Hf as [Hf _].
  apply Forall_forall. intros n Hn. apply list_elem_of_fmap in Hn as (s & -> & Hs).
  apply elem_of_filter_bool in Hs as [Hs Hp]. intros s'. simpl. unfold ref.
  rewrite (seg_at_elem q j f s) by done. intros [= <-]. left. by destruct (state s).
Qed.

Lemma fail_segment_settles o r w : unique_refs (o_state o) -> failable (o_state o) r -> inv I o w ->
  leads I C settles o (fail_segment env o r) w.
Proof.
  intros Hu Hf Hi. unfold fail_segment. destruct (seg_at (o_state o) r) as [s|] eqn:Hs; [|by apply leads_ret].
  case_if; [by apply leads_ret|]. clear Heqb. set (o1 := emit _ _).
  assert (S1 : settles (o_state o) (o_state o1)).
  { unfold o1. cbn [emit o_state with_events]. etransitivity; [|apply recompute_settles].
    simpl. destruct r as [a b c]. by apply settles_fail. }
  assert (Hi1 : inv I o1 w) by (by eapply inv_settles).
  eapply leads_from; [exact S1|intros; by etransitivity|].
  eapply leads_bind; [by apply after_file_change_quiet| |intros ? ? ? ?%quiet_settles ?; by etransitivity].
  intros o2 w2 Q2 Hi2.
  assert (Hu2 : unique_refs (o_state o2)).
  { eapply unique_shape; [|exact Hu]. rewrite (qt_shape _ _ Q2). apply (st_shape _ _ S1). }
  unfold maybe_abort_unhealthy. case_if; [by apply leads_ret|].
  destruct (find_job (o_state o2) (sr_job r)) as [j|] eqn:Hj; [|by apply leads_ret].
  case_if; [by apply leads_ret|]. case_if; [by apply leads_ret|].
  pose proof (find_job_elem _ _ _ Hj) as [_ He]. rewrite <- He in Hj |- *.
  apply abort_files_settles; [done|]. by apply pending_failable.
Qed.

Lemma fail_segments_settles rs : forall o w, unique_refs (o_state o) -> Forall (failable (o_state o)) rs -> inv I o w ->
  leads I C settles o (fail_segments env rs o) w.
Proof.
  induction rs as [|r rs IH]; intros o w Hu Hf Hi; simpl; [by apply leads_ret|]. inversion Hf; subst.
  eapply leads_bind; [by apply fail_segment_settles| |intros; by etransitivity]. intros o1 w1 S1 Hi1. apply IH; [| |done].
  - eapply unique_shape; [apply (st_shape _ _ S1)|done].
  - eapply Forall_impl; [done|]. intros r'. by apply failable_settles.
Qed.

(** ** The grant *)

Record granted (sid : ServerId) (q q' : QueueState) (new : list (SegRef * str)) : Prop := {
  g_shape : shape q' = shape q;
  g_kept : forall r s, seg_at q r = Some s -> state s <> Pending -> seg_at q' r = Some s;
  g_done : forall r, done_at q' r = done_at q r;
  g_nodup : NoDup (map fst new);
  g_new : forall r m, (r, m) ∈ new -> exists s, seg_at q r = Some s /\ state s = Pending /\
            message_id s = m /\ seg_at q' r = Some (set_seg_state (Leased sid) s)
}.

Lemma settles_done q q' : settles q q' -> forall r, done_at q' r = done_at q r.
Proof. intros H. apply (sd_done _ _ (settles_same _ _ H)). Qed.

Lemma granted_settles sid q q' : settles q q' -> granted sid q q' [].
Proof.
  intros H. split; [apply (st_shape _ _ H)| |by apply settles_done|constructor|by intros ? ? ?%elem_of_nil].
  intros r s Hs Hne. destruct (st_seg _ _ H r s Hs) as (s' & -> & [->|[Hp _]]); done.
Qed.

(** One more lease, on a segment that is still pending or has just failed. *)
Lemma granted_cons sid q q1 q2 r s0 new : settles q q1 -> seg_at q r = Some s0 -> state s0 = Pending ->
  granted sid (update_segment q1 r (set_seg_state (Leased sid))) q2 new ->
  granted sid q q2 ((r, message_id s0) :: new).
Proof.
  intros HS Hr Hp [G1 G2 G3 G4 G5]. set (q1' := update_segment _ _ _) in *.
  destruct (st_seg _ _ HS r s0 Hr) as (s1 & H1 & D1).
  assert (Hq1 : seg_at q1' r = Some (set_seg_state (Leased sid) s0)).
  { unfold q1'. rewrite seg_at_update_segment by done. rewrite decide_True by done. rewrite H1. simpl.
    f_equal. by destruct D1 as [->|[_ ->]]. }
  assert (Hoth : forall r', r' <> r -> seg_at q1' r' = seg_at q1 r').
  { intros r' Hne. unfold q1'. rewrite seg_at_update_segment by done. by rewrite decide_False. }
  assert (Hnew : forall r' m, (r', m) ∈ new -> r' <> r).
  { intros r' m Hin ->. destruct (G5 r m Hin) as (s & Hs & Hps & _). rewrite Hq1 in Hs. by injection Hs as <-. }
  split.
  - rewrite G1. unfold q1'. rewrite shape_update_segment by done. apply (st_shape _ _ HS).
  - intros r' s Hs Hne. apply G2; [|done]. rewrite Hoth by (intros ->; by rewrite Hr in Hs; injection Hs as <-).
    by destruct (st_seg _ _ HS r' s Hs) as (s' & -> & [->|[? _]]).
  - intros r'. rewrite G3. rewrite <- (settles_done _ _ HS r'). unfold q1'.
    rewrite done_at_update_segment by done. case_decide as E; [subst|done]. unfold done_at. rewrite H1. simpl.
    unfold done_value. simpl. by destruct D1 as [->|[_ ->]]; [rewrite Hp|].
  - simpl. constructor; [|done]. intros Hin. apply list_elem_of_fmap in Hin as ([r' m] & -> & Hin).
    by apply (Hnew _ _ Hin).
  - intros r' m Hin. apply elem_of_cons in Hin as [[= -> ->]|Hin].
    + exists s0. split_and!; try done. by apply G2.
    + destruct (G5 r' m Hin) as (s & Hs & Hps & Hm & Hf). rewrite (Hoth r' (Hnew r' m Hin)) in Hs.
      exists s. split_and!; try done. destruct (seg_at q r') as [s'|] eqn:Hq.
      * destruct (st_seg _ _ HS r' s' Hq) as (s2 & H2 & D2). rewrite Hs in H2. injection H2 as <-.
        destruct D2 as [->|[_ ->]]; [done|]. done.
      * by rewrite (st_none _ _ HS r' Hq) in Hs.
Qed.

Lemma granted_quiet sid q q1 q2 new : quiet q q1 -> granted sid q1 q2 new -> granted sid q q2 new.
Proof.
  intros [_ H1 H2 _] [G1 G2 G3 G4 G5]. split; [congruence| | |done|].
  - intros r s Hs. apply G2. by rewrite H2.
  - intros r. rewrite G3. unfold done_at. by rewrite H2.
  - intros r m Hin. destruct (G5 r m Hin) as (s & Hs & ?). exists s. by rewrite H2 in Hs.
Qed.

Lemma start_download_quiet q job : quiet q (update_job q job start_download).
Proof. apply quiet_update_job; intros j; unfold start_download; by destruct (status j). Qed.

Lemma grant_loop_granted max server : forall leases o w, unique_refs (o_state o) -> inv I o w ->
  wp (grant_loop env max server leases o)
    (fun p w' => (exists new, snd p = leases ++ new /\ granted (server_id server) (o_state o) (o_state (fst p)) new)
                 /\ inv I (fst p) w') no_error C w.
Proof.
  induction max as [|max IH]; intros leases o w Hu Hi; cbn [grant_loop].
  { apply wp_ret. split; [|done]. exists []. by rewrite app_nil_r; split; [|apply granted_settles]. }
  destruct (next_for_server (o_state o) server (selection_ctx env o)) as [atts res] eqn:Hn.
  apply wp_bind. eapply wp_mono; [apply (fail_segments_settles _ (with_attempts atts o) w); [done| |exact Hi]| |done|done].
  { apply Forall_forall. intros r Hr.
    destruct (exhausted_pending _ _ (e_servers env) (selection_ctx env o) _ _ _ eq_refl Hn Hr) as (j & f & s & -> & Hj & Hf & Hs & Hp).
    intros s'. simpl. rewrite (seg_at_elem _ j f s) by done. intros [= <-]. by left. }
  intros o1 w1 [S1 Hi1]. cbn [with_attempts o_state] in S1.
  assert (Hstop : exists new, leases = leases ++ new /\ granted (server_id server) (o_state o) (o_state o1) new)
    by (exists []; rewrite app_nil_r; split; [done|by apply granted_settles]).
  destruct (lease res) as [r|] eqn:Hl; [|by apply wp_ret].
  destruct (ensure_allocation env o1 (sr_job r)) as [o2 b] eqn:Ha.
  destruct (ensure_allocation_core _ _ _ _ _ Ha) as [E2 J2].
  assert (Hi2 : inv I o2 w1) by (unfold inv; by rewrite E2, J2).
  destruct b; cbn [negb]; [|apply wp_ret; simpl; by rewrite E2].
  destruct (seg_at (o_state o2) r) as [s1|] eqn:Hs1; [|apply wp_ret; simpl; by rewrite E2].
  destruct res as [l ex]. cbn [lease] in Hl. subst l.
  destruct (lease_sound_aux _ _ (e_servers env) (selection_ctx env o) _ _ _ eq_refl Hn) as (j & f & s0 & _ & Hr & Hj & Hf & Hs & Hp & _).
  assert (H0 : seg_at (o_state o) r = Some s0) by (subst r; by apply seg_at_elem).
  rewrite E2 in Hs1. destruct (st_seg _ _ S1 r s0 H0) as (s' & Hs' & D). rewrite Hs1 in Hs'. injection Hs' as <-.
  assert (Hm : message_id s1 = message_id s0) by (by destruct D as [->|[_ ->]]).
  set (o3 := with_state _ o2). destruct (writer_for env o3 (sr_job r) (sr_file r)) as [o4 out] eqn:Hw.
  destruct (writer_for_core _ _ _ _ _ _ Hw) as [E4 J4]. cbv zeta.
  set (o5 := with_rotate _ _). set (qL := update_segment (o_state o1) r (set_seg_state (Leased (server_id server)))).
  assert (Q5 : quiet qL (o_state o5)).
  { unfold o5. cbn [o_state with_rotate with_state]. rewrite E4. unfold o3. cbn [o_state with_state]. rewrite E2.
    apply start_download_quiet. }
  assert (SL : same_done (o_state o1) qL).
  { apply same_done_update_segment; [done|]. intros s Hss. rewrite Hs1 in Hss. injection Hss as <-.
    unfold done_value. simpl. by destruct D as [->|[_ ->]]; [rewrite Hp|]. }
  assert (Hi5 : inv I o5 w1).
  { unfold inv, o5. cbn [o_journal with_rotate with_state]. rewrite J4. unfold o3. cbn [o_journal with_state]. rewrite J2.
    eapply I_done; [exact Hi1|]. etransitivity; [exact SL|]. by apply k_done, quiet_keeps. }
  eapply wp_mono; [apply (IH _ o5 w1)| |done|done].
  - eapply unique_shape; [|exact Hu]. rewrite (qt_shape _ _ Q5), (sd_shape _ _ SL). apply (st_shape _ _ S1).
  - done.
  - intros [o6 L] w6 [(new & -> & G) Hi6]. cbn [fst snd] in *. split; [|done]. exists ((r, message_id s1) :: new).
    split; [by rewrite <- app_assoc|]. rewrite Hm.
    eapply granted_cons; [exact S1|done|done|]. by eapply granted_quiet.
Qed.

Lemma grant_work_granted o server max w : unique_refs (o_state o) -> inv I o w ->
  wp (grant_work env o server max)
    (fun p w' => granted server (o_state o) (o_state (fst p)) (snd p) /\ inv I (fst p) w') no_error C w.
Proof.
  intros Hu Hi. unfold grant_work. case_if; [by apply wp_ret; split; [apply granted_settles|]|].
  destruct (find _ (e_servers env)) as [srv|] eqn:Hf; [|by apply wp_ret; split; [apply granted_settles|]].
  apply find_some in Hf as [_ Hid]. bool_hyps.
  eapply wp_mono; [by apply (grant_loop_granted max srv [] o w)| |done|done].
  intros [o' L] w' [(new & HL & G) Hi']. simpl in *. subst L. by rewrite <- Hid.
Qed.

(** ** Every message *)

Lemma requeue_quiet ids : forall q, quiet q (fold_left (fun q id => update_job q id (set_status JS_Queued)) ids q).
Proof.
  induction ids as [|id ids IH]; intros q; [done|]. simpl. etransitivity; [|apply IH]. by apply quiet_update_job.
Qed.

Lemma settle_labels_quiet o : quiet (o_state o) (o_state (settle_download_labels env o)) /\
  o_journal (settle_download_labels env o) = o_journal o.
Proof.
  unfold settle_download_labels. destruct (jobs_to_requeue_with_recovery _ _ _ _ _ _); [done|].
  split; [apply requeue_quiet|done].
Qed.

Lemma pause_for_storage_core l : forall o,
  o_state (fold_left (pause_for_storage env) l o) = o_state o /\
  o_journal (fold_left (pause_for_storage env) l o) = o_journal o.
Proof.
  induction l as [|job l IH]; intros o; [done|]. simpl. destruct (IH (pause_for_storage env o job)) as [-> ->].
  unfold pause_for_storage, enqueue_backend_command.
  destruct (o_backend_pending o); [destruct (e_try_command env _)|]; repeat case_if; done.
Qed.

Lemma observe_core o whence : o_state (observe_out_of_space env o whence) = o_state o /\
  o_journal (observe_out_of_space env o whence) = o_journal o.
Proof.
  unfold observe_out_of_space. cbn [o_disk_low with_enospc_latched with_enospc_where with_enospc_observed].
  case_if; [done|]. unfold pause_incomplete_torrents_for_storage.
  match goal with |- context [fold_left _ ?l ?x] => destruct (pause_for_storage_core l x) as [-> ->] end. done.
Qed.

Lemma flush_core l : forall o, o_state (flush_backend_commands env l o) = o_state o /\
  o_journal (flush_backend_commands env l o) = o_journal o.
Proof. induction l as [|c l IH]; intros o; [done|]. simpl. by destruct (e_try_command env c). Qed.

Lemma update_disk_guard_quiet o : quiet (o_state o) (o_state (update_disk_guard env o)) /\
  o_journal (update_disk_guard env o) = o_journal o.
Proof.
  unfold update_disk_guard. destruct (disk_guard_decision _ _ _ _) as [latched low].
  case_if; [done|]. case_if.
  - unfold pause_incomplete_torrents_for_storage.
    match goal with |- context [fold_left _ ?l ?x] => destruct (pause_for_storage_core l x) as [-> ->] end. done.
  - unfold release_torrents_after_storage_recovery. cbv zeta.
    assert (Q : forall q, quiet q (set_jobs (map release_torrent (jobs q)) q)).
    { intros q. apply quiet_map_jobs; intros j; unfold release_torrent; by case_if. }
    case_if; (split; [apply Q|done]).
Qed.

(** What a message makes of the parts that are done. *)
Definition expected_done (q : QueueState) (m : TransferStep) (r : SegRef) : option (Z * Z * Z) :=
  match m with
  | SegmentWritten r' off len crc _ _ => after_written q r' (off, len, crc) r
  | _ => done_at q r
  end.

Record handles (m : TransferStep) (q q' : QueueState) : Prop := {
  h_shape : shape q' = shape q;
  h_done : forall r, done_at q' r = expected_done q m r;
  h_totals : match m with WorkRequest _ _ => True | _ => totals_ok q -> totals_ok q' end
}.

Lemma keeps_handles m q q' : match m with SegmentWritten _ _ _ _ _ _ => False | _ => True end -> keeps q q' -> handles m q q'.
Proof. intros Hm [[H1 H2] H3]. split; [done| |by destruct m]. intros r. rewrite H2. by destruct m. Qed.

(** The messages whose handler runs the naming code. *)
Definition names_job (m : TransferStep) : bool :=
  match m with WriterFinalized _ _ _ _ _ | JobNameInspected _ _ => true | _ => false end.

Lemma transfer_step_handles o m w : unique_refs (o_state o) -> inv I o w ->
  (names_job m = true -> forall q j w, I q j w -> C w) ->
  match m with
  | SegmentWritten r off len crc fsize _ => append_keeps I C (o_state o) r off len crc fsize
  | _ => True
  end ->
  leads I C (handles m) o (transfer_step env o m) w.
Proof.
  intros Hu Hi Hpanic Hap. destruct m; cbn [transfer_step names_job] in *; try specialize (Hpanic eq_refl).
  - apply wp_bind. eapply wp_mono; [by apply grant_work_granted| |done|done].
    intros [o' L] w' [[G1 _ G3 _ _] Hi']. by apply wp_ret.
  - eapply wp_mono; [by apply on_segment_written_done| |done|done]. intros o' w' [[W1 W2 W3] Hi']. split; [by split|done].
  - eapply leads_weaken; [intros ? ? K; by eapply keeps_handles|by apply on_segment_failed_keeps].
  - destruct (block_server_core env o server) as [E J]. apply leads_ret; [|unfold inv; by rewrite E, J].
    rewrite E. by apply keeps_handles.
  - eapply leads_weaken; [intros ? ? K; by eapply keeps_handles|by apply on_writer_finalized_keeps].
  - eapply leads_weaken; [intros ? ? K; by eapply keeps_handles|by apply on_job_name_inspected_keeps].
  - destruct (observe_core o whence) as [E J]. apply leads_ret; [|unfold inv; by rewrite E, J].
    rewrite E. by apply keeps_handles.
  - set (o1 := if is_out_of_space error then _ else _).
    assert (H1 : o_state o1 = o_state o /\ o_journal o1 = o_journal o) by (unfold o1; case_if; [apply observe_core|done]).
    destruct H1 as [S1 J1].
    eapply (leads_from I C eq _ o o1); [by rewrite S1|by intros ? ? ? ->|].
    eapply leads_weaken; [intros ? ? K; by eapply keeps_handles|].
    apply fail_whole_file_keeps; [done..|by rewrite S1|unfold inv; by rewrite S1, J1].
Qed.

End Grant.

(** ** With any fates: the script is consumed, and only it stops the owner *)

Section Fates.
Context {jc : JournalCodec} {dc : DocCodec}.
Variable env : Env.

Lemma wp_ensures {A} (m : io A) (P : A -> Prop) fs w : ensures m P -> fates w `suffix_of` fs ->
  wp m (fun a w' => P a /\ fates w' `suffix_of` fs) no_error (fun _ => crashes fs) w.
Proof.
  intros Hm Hw. specialize (Hm w). unfold wp. destruct (m w) as [[a|e|] w']; [|done|].
  - destruct Hm. split; [done|]. by transitivity (fates w).
  - destruct Hm as [Hc|[]]. by eapply crashes_suffix.
Qed.

(** What saving touches of the owner. *)
Definition persisted (o o' : Owner) : Prop := exists j p d, o' = with_journal j (with_persist p (with_dirty d o)).

#[local] Instance persisted_preorder : PreOrder persisted.
Proof.
  split.
  - intros o. exists (o_journal o), (o_persist o), (o_dirty o). by destruct o.
  - intros o1 o2 o3 (j & p & d & ->) (j' & p' & d' & ->). by exists j', p', d'.
Qed.

Lemma compact_dirs_persisted dirs : forall o, ensures (compact_dirs dirs o) (persisted o).
Proof.
  induction dirs as [|d dirs IH]; intros o; simpl; [by apply ensures_ret|].
  destruct (parse_uint _ _ d) as [id|]; [|apply IH]. case_if; [apply IH|].
  eapply ensures_bind with (P := fun _ => True).
  - unfold remove_job. eapply ensures_bind; [apply ensures_try; behave|].
    intros [u|e] _; [by apply ensures_ret|]. case_if; by apply ensures_ret.
  - intros [j r] _. eapply ensures_mono; [apply IH|]. intros o' Ho'. etransitivity; [|exact Ho'].
    exists j, (o_persist o), (o_dirty o). by destruct o.
Qed.

Lemma with_dirty_persisted o b : persisted o (with_dirty b o).
Proof. exists (o_journal o), (o_persist o), b. by destruct o. Qed.

Lemma save_result_persisted o : ensures (save_snapshot_result env o) (fun p => persisted o (fst p)).
Proof.
  unfold save_snapshot_result. destruct (o_persist o); cbn [negb]; [|by apply ensures_ret, with_dirty_persisted].
  eapply ensures_bind; [apply ensures_try; behave|]. intros [n|e] _; [|by apply ensures_ret].
  eapply ensures_bind; [apply ensures_try; behave|]. intros [dirs|e] _.
  - eapply ensures_bind; [apply compact_dirs_persisted|]. intros o' Ho. apply ensures_ret. simpl.
    etransitivity; [exact Ho|apply with_dirty_persisted].
  - eapply ensures_bind; [by apply (ensures_ret _ _ (fun o' => o' = o))|]. intros o' ->.
    apply ensures_ret, with_dirty_persisted.
Qed.

Lemma save_snapshot_persisted o : ensures (save_snapshot env o) (fun p => persisted o (fst p)).
Proof.
  unfold save_snapshot. eapply ensures_bind; [apply save_result_persisted|].
  intros [o' [saved|e]] Ho; apply ensures_ret; simpl in *; [done|].
  etransitivity; [exact Ho|]. unfold on_snapshot_save_error. destruct e; try reflexivity.
  exists (o_journal o'), false, (o_dirty o'). by destruct o'.
Qed.

Lemma save_snapshot_state o : ensures (save_snapshot env o) (fun p => o_state (fst p) = o_state o).
Proof. eapply ensures_mono; [apply save_snapshot_persisted|]. by intros [o' b] (j & p & d & E); simpl in *; subst o'. Qed.

Lemma append_total (j : JobJournals) rec : ensures (append j rec) (fun _ => True).
Proof.
  unfold append, file_for. eapply ensures_bind with (P := fun _ => True).
  - case_if; [by apply ensures_ret|]. eapply ensures_bind; [apply ensures_try; behave|].
    intros [u|e] _; by apply ensures_ret.
  - intros [j' [u|e]] _; [|by apply ensures_ret]. eapply ensures_bind; [apply ensures_try; behave|].
    intros [u'|e] _; by apply ensures_ret.
Qed.

Lemma sync_each_behaves nm l : behaves (sync_each nm l).
Proof. induction l; simpl; [apply behaves_ret|]. apply behaves_bind; [apply behaves_prim|done]. Qed.

Lemma sync_total (j : JobJournals) : ensures (sync j) (fun _ => True).
Proof.
  unfold sync. case_if; [|by apply ensures_ret]. eapply ensures_bind; [apply ensures_try, sync_each_behaves|].
  intros [u|e] _; by apply ensures_ret.
Qed.

(** The weakest invariant: the script so far. *)
Definition script (fs : list Fate) (q : QueueState) (j : JobJournals) (w : World) : Prop := fates w `suffix_of` fs.

Lemma script_save fs o w : inv (script fs) o w ->
  wp (save_snapshot env o) (fun p w' => o_state (fst p) = o_state o /\ inv (script fs) (fst p) w') no_error (fun _ => crashes fs) w.
Proof. intros Hi. apply wp_ensures; [apply save_snapshot_state|exact Hi]. Qed.

Lemma wp_any (X : Prop) {A} (m : io A) (P : A -> Prop) fs w : ensures m P -> fates w `suffix_of` fs ->
  wp m (fun a w' => P a /\ fates w' `suffix_of` fs) no_error (fun _ => crashes fs \/ X) w.
Proof. intros Hm Hw. eapply wp_mono; [by apply (wp_ensures m P fs)|done|done|by left]. Qed.

(** Every message, under any script; only a crash or, where a job is named, a
    panic stops it. *)
Lemma transfer_step_script (X : Prop) o m fs w : unique_refs (o_state o) -> fates w `suffix_of` fs ->
  (names_job m = true -> X) ->
  leads (script fs) (fun _ => crashes fs \/ X) (handles m) o (transfer_step env o m) w.
Proof.
  intros Hu Hw HX. apply transfer_step_handles; try done.
  - intros o1 w1 Hi. apply wp_any; [apply save_snapshot_state|exact Hi].
  - intros Hn q j w1 _. right. by apply HX.
  - destruct m; try done. intros s j w1 _ _ Hi.
    eapply wp_mono; [apply (wp_any X _ (fun _ => True) fs); [apply append_total|exact Hi]| |done|done]. by intros ? ? [_ ?].
Qed.

End Fates.

(** C5: leases are exclusive.  A batch of work hands out only segments that were
    pending, each at most once and with its own message id, and leaves them
    leased to that server; every segment that was leased, done or failed before
    is as it was, whatever exhausted segments are failed and whatever jobs are
    aborted on the way, whichever I/O calls fail.  The batch always ends, unless
    the machine stops. *)
Theorem leases_exclusive {dc : DocCodec} env o server max w :
  unique_refs (o_state o) ->
  match grant_work env o server max w with
  | (Val (o', leases), _) =>
      NoDup (map fst leases) /\
      (forall r m, (r, m) ∈ leases -> exists s, seg_at (o_state o) r = Some s /\ state s = Pending /\
         message_id s = m /\ seg_at (o_state o') r = Some (set_seg_state (Leased server) s)) /\
      (forall r s, seg_at (o_state o) r = Some s -> state s <> Pending -> seg_at (o_state o') r = Some s) /\
      shape (o_state o') = shape (o_state o)
  | (Fails _, _) => False
  | (Crashed, _) => crashes (fates w)
  end.
Proof.
  intros Hu.
  pose proof (grant_work_granted (script (fates w)) (fun _ => crashes (fates w)) env
    ltac:(done) (script_save env (fates w)) o server max w Hu ltac:(unfold inv, script; reflexivity)) as H. unfold wp in H.
  destruct (grant_work env o server max w) as [[[o' L]|e|] w']; [|done|done].
  destruct H as [[G1 G2 _ G4 G5] _]. split_and!; done.
Qed.

Lemma sample_unique : unique_refs sample_queue.
Proof. split; [apply (bool_decide_unpack _); by vm_compute|]. repeat constructor; vm_compute; set_solver. Qed.

Lemma leases_exclusive_witness :
  let o := owner_of sample_queue in
  match grant_work (dc := counted_doc) sample_env o 1 4 empty_world with
  | (Val (o', leases), _) =>
      NoDup (map fst leases) /\
      (forall r m, (r, m) ∈ leases -> exists s, seg_at (o_state o) r = Some s /\ state s = Pending /\
         message_id s = m /\ seg_at (o_state o') r = Some (set_seg_state (Leased 1) s)) /\
      (forall r s, seg_at (o_state o) r = Some s -> state s <> Pending -> seg_at (o_state o') r = Some s) /\
      shape (o_state o') = shape (o_state o)
  | (Fails _, _) => False
  | (Crashed, _) => crashes (fates empty_world)
  end.
Proof. intros o. exact (leases_exclusive (dc := counted_doc) sample_env o 1 4 empty_world sample_unique). Defined.

(** C28: totals stay an exact count.  No message but a request for work can leave
    a job's totals different from a recount of its segments; and every message
    keeps the queue's identifiers.  A handler always returns, unless the machine
    stops or the naming code panics. *)
Theorem totals_exact {jc : JournalCodec} {dc : DocCodec} env o m w :
  unique_refs (o_state o) -> totals_ok (o_state o) -> (forall server max, m <> WorkRequest server max) ->
  match transfer_step env o m w with
  | (Val o', _) => totals_ok (o_state o') /\ shape (o_state o') = shape (o_state o)
  | (Fails _, _) => False
  | (Crashed, _) => crashes (fates w) \/ names_job m = true
  end.
Proof.
  intros Hu Ht Hm.
  pose proof (transfer_step_script env (names_job m = true) o m (fates w) w Hu ltac:(reflexivity) id) as H. unfold leads, wp in H.
  destruct (transfer_step env o m w) as [[o'|e|] w']; [|done|done]. destruct H as [[H1 _ H3] _].
  destruct m; try (by split; auto). by destruct (Hm server max).
Qed.

Lemma totals_exact_witness :
  let o := owner_of sample_queue in
  let m := SegmentWritten {| sr_job := 1; sr_file := 1; seg_number := 1 |} 0 90 7 90 1 in
  match transfer_step (jc := counted_journal) (dc := counted_doc) sample_env o m empty_world with
  | (Val o', _) => totals_ok (o_state o') /\ shape (o_state o') = shape (o_state o)
  | (Fails _, _) => False
  | (Crashed, _) => crashes (fates empty_world) \/ names_job m = true
  end.
Proof.
  intros o m. apply (totals_exact (jc := counted_journal) (dc := counted_doc) sample_env o m empty_world).
  - apply sample_unique.
  - repeat constructor.
  - discriminate.
Defined.

(** ** A lease after the abort *)

(** Two files: the first is older than the server's retention, the second has no
    date. *)
Definition aged_queue : QueueState :=
  fst (admit_nzb to_ascii_lowercase queue_default 0 (lit "n")
    {| meta := {| title := None; meta_password := None; meta_category := None |};
       nzb_files := map (fun '(s, d) => {| pf_subject := s; poster := None; pf_date := d; pf_groups := [];
         pf_segments := [{| ps_message_id := lit "a@b"; ps_number := 1; ps_bytes := 100 |}] |})
         [(lit "old", Some 0); (lit "new", None)] |} None 0 true).

Definition short_server : ServerDef := {|
  server_id := 1; server_name := []; host := []; port := 563; tls := TlsMode_Tls; username := None;
  password := None; active := true; tier := 0; group := 0; fill := false; max_connections := 8;
  pipeline_depth := 2; retention_days := 1; cert_verification := Cert_Strict |}.

Definition aged_env : Env := {|
  e_servers := [short_server]; e_article_retries := 3; e_propagation_delay := 0; e_quota_start_day := 1;
  e_health_abort := true; e_retry_interval := 10; e_download_enabled := true; e_now_unix := 1000000;
  e_instant := 0; e_guard := true; e_chan := fun _ => SendOk; e_allocate := fun _ => true;
  e_try_command := fun _ => SendOk; e_min_free_disk := 0; e_disk_reading := select_limiting_volume [];
  e_daily_quota := 0; e_monthly_quota := 0; e_volume_path := []; e_volume_files := [] |}.

#[local] Instance Event_eq_dec : EqDecision Event.
Proof. solve_decision. Defined.
#[local] Instance SegmentState_eq_dec : EqDecision SegmentState.
Proof. solve_decision. Defined.
#[local] Instance JobTotals_eq_dec : EqDecision JobTotals.
Proof. solve_decision. Defined.

Definition totals_okb (q : QueueState) : bool :=
  forallb (fun j => match files j with [] => true | _ => bool_decide (totals j = totals_of (files j)) end) (jobs q).

Lemma totals_okb_spec q : totals_ok q -> totals_okb q = true.
Proof.
  unfold totals_ok, totals_okb. rewrite forallb_forall, Forall_forall. intros H j Hj.
  specialize (H j ltac:(by apply list_elem_of_In)). unfold job_totals_ok in H.
  destruct (files j); [done|]. apply bool_decide_eq_true_2. by apply H.
Qed.

(** a request for work can lease a segment of a job it has just declared
    failed.  The scan that found the lease also reports an exhausted segment;
    failing that one aborts the unhealthy job, which fails every pending segment,
    the one about to be leased too, and finishes the job; the segment is then
    overwritten with a lease.  The job is reported failed while one of its
    segments is leased, and its totals no longer agree with its segments. *)
Theorem grant_after_abort : exists q env,
  unique_refs q /\ totals_ok q /\
  match grant_work (dc := counted_doc) env (owner_of q) 1 1 empty_world with
  | (Val (o', [(r, _)]), _) =>
      E_JobFinished (sr_job r) (lit "n") JS_Failed 0 ∈ o_events o' /\
      status <$> find_job (o_state o') (sr_job r) = Some JS_Failed /\
      state <$> seg_at (o_state o') r = Some (Leased 1) /\ ~ totals_ok (o_state o')
  | _ => False
  end.
Proof.
  exists aged_queue, aged_env. split; [|split].
  - split; [apply (bool_decide_unpack _); by vm_compute|]. repeat constructor; vm_compute; set_solver.
  - repeat constructor.
  - assert (H : match grant_work (dc := counted_doc) aged_env (owner_of aged_queue) 1 1 empty_world with
      | (Val (o', [(r, _)]), _) =>
          bool_decide (E_JobFinished (sr_job r) (lit "n") JS_Failed 0 ∈ o_events o') &&
          bool_decide (status <$> find_job (o_state o') (sr_job r) = Some JS_Failed) &&
          bool_decide (state <$> seg_at (o_state o') r = Some (Leased 1)) && negb (totals_okb (o_state o'))
      | _ => false
      end = true) by (vm_compute; reflexivity).
    destruct (grant_work _ _ _ _ _) as [[[o' [|[r m] [|]]]|e|] w']; try done.
    bool_hyps. split_and!; try done. intros Ht%totals_okb_spec. congruence.
Qed.
