(* ===== verification/Completion.v ===== *)
(** * When a file and a job are finished ([crates/nzbd-engine/src/owner.rs])

    The whole-file CRC the owner sends with the finalize command, the report it
    makes of a finished job, and the disk guard that holds and releases work. *)

From S2P Require Import Prelude RustStr Crc32 Types Failover Volumes Nzb JobNames Queue Selection ParSelect Fs Codec Store Owner OwnerInv Leases.

(** ** The whole-file CRC *)

Definition slice (data : bytes) (off len : Z) : bytes := take (Z.to_nat len) (drop (Z.to_nat off) data).

(** The part was read from, or written to, these bytes. *)
Definition part_of (data : bytes) (p : Z * Z * Z) : Prop :=
  let '(off, len, crc) := p in
  0 <= off /\ 0 <= len /\ off + len <= Z.of_nat (length data) /\ crc = crc32_ref (slice data off len).

Definition part_len (p : Z * Z * Z) : Z := snd (fst p).

Lemma slice_app data off len len' : 0 <= off -> 0 <= len -> 0 <= len' ->
  slice data off len ++ slice data (off + len) len' = slice data off (len + len').
Proof.
  intros. unfold slice. rewrite !Z2Nat.inj_add, <- drop_drop by lia. by rewrite take_take_drop.
Qed.

Lemma slice_length data off len : 0 <= off -> 0 <= len -> off + len <= Z.of_nat (length data) ->
  Z.of_nat (length (slice data off len)) = len.
Proof. intros. unfold slice. rewrite length_take, length_drop. lia. Qed.

Lemma slice_u8 data off len : Forall is_u8 data -> Forall is_u8 (slice data off len).
Proof. intros H. by apply Forall_take, Forall_drop. Qed.

(** The loop carries the CRC of what it has covered. *)
Lemma combine_loop_crcs_spec data sorted : Forall is_u8 data -> Z.of_nat (length data) <= u64_max ->
  Forall (part_of data) sorted -> forall expect acc c,
  0 <= expect ->
  match acc with Some prev => prev = crc32_ref (slice data 0 expect) | None => expect = 0 end ->
  combine_loop_crcs sorted expect acc = Some c ->
  c = crc32_ref (slice data 0 (expect + sum_Z (map part_len sorted))).
Proof.
  intros Hu Hmax Hall. induction Hall as [|[[off len] crc] sorted Hp Hall IH]; intros expect acc c He Hacc Hc; simpl in *.
  - subst acc. by rewrite Z.add_0_r.
  - destruct (off =? expect) eqn:E; cbn [negb] in Hc; [|done]. bool_hyps. subst off.
    destruct Hp as (H1 & H2 & H3 & Hcrc).
    change (part_len (expect, len, crc)) with len. rewrite Z.add_assoc.
    eapply (IH (expect + len)); [lia| |exact Hc]. cbv beta iota.
    destruct acc as [prev|].
    + subst prev crc. rewrite <- (slice_length data expect len) at 2 by lia.
      etransitivity; [apply crc32_combine_aux; [by apply slice_u8|rewrite slice_length; lia]|].
      rewrite <- (slice_app data 0 expect len) by lia. done.
    + subst expect. by rewrite Z.add_0_l.
Qed.

(** the CRC sent with a finalize command is the CRC of the file.  If every
    part that is done has the CRC of its range of the file's bytes, then a
    combined CRC, when the owner computes one, is that of the file from its first
    byte to the end of the parts; and one is computed only when every segment of
    the file is done. *)
Theorem combined_crc_sound f data c :
  Forall is_u8 data -> Z.of_nat (length data) <= u64_max ->
  Forall (part_of data) (done_parts f) ->
  combined_crc_of f = Some c ->
  Forall (fun s => is_done (state s) = true) (segments f) /\
  c = crc32_ref (slice data 0 (sum_Z (map part_len (done_parts f)))).
Proof.
  intros Hu Hmax Hp. unfold combined_crc_of. set (key := fun p : Z * Z * Z => fst (fst p)).
  destruct (forallb _ (segments f)) eqn:Hd; [|done]. intros Hc. split.
  { rewrite forallb_forall in Hd. apply Forall_forall. intros s Hs. by apply Hd, list_elem_of_In. }
  pose proof (sort_by_key_perm key (done_parts f)) as Hperm.
  unfold combine_crcs in Hc. eapply (combine_loop_crcs_spec data _ Hu Hmax) in Hc; [| |lia|done].
  - rewrite Hc, Z.add_0_l. do 2 f_equal. by apply sum_Z_perm, Permutation_map.
  - by rewrite Hperm.
Qed.

Lemma combined_crc_sound_witness :
  let part n off len crc := {| message_id := []; number := n; seg_size := 0; state := Done off len crc |} in
  let data := [104; 101; 108; 108; 111] in
  let f := {| file_id := 1; subject := []; filename := []; filename_confirmed := false; is_par2 := false;
              paused := false; groups := []; date := None;
              segments := [part 2 3 2 (crc32_ref [108; 111]); part 1 0 3 (crc32_ref [104; 101; 108])];
              file_crc32 := None; finalized := false |} in
  Forall (fun s => is_done (state s) = true) (segments f) /\
  crc32_ref data = crc32_ref (slice data 0 (sum_Z (map part_len (done_parts f)))).
Proof.
  intros part data f. apply (combined_crc_sound f data (crc32_ref data)).
  - repeat constructor; vm_compute; discriminate.
  - vm_compute. discriminate.
  - repeat constructor; vm_compute; discriminate.
  - vm_compute. reflexivity.
Defined.

(** ** Finished jobs *)

Section Finish.
Context {dc : DocCodec}.
Variable env : Env.

(** Nothing is left to do for the job, and nothing else decides about it. *)
Record finishable (o : Owner) (job : JobId) (j : Job) : Prop := {
  fi_job : find_job (o_state o) job = Some j;
  fi_active : active_status (status j) = true;
  fi_local : o_delegated o !! job = None;
  fi_named : forall n, o_inspections o !! job = Some n -> n <= 0;
  fi_files : files j <> [] /\ forall f, f ∈ files j -> paused f = false ->
               (forall s, s ∈ segments f -> is_done (state s) || is_failed (state s) = true) /\
               (has_any_done f = true -> finalized f = true)
}.

Lemma job_complete_spec j : job_complete j = true <->
  files j <> [] /\ forall f, f ∈ files j -> paused f = false ->
    (forall s, s ∈ segments f -> is_done (state s) || is_failed (state s) = true) /\
    (has_any_done f = true -> finalized f = true).
Proof.
  unfold job_complete. rewrite andb_true_iff, negb_true_iff, bool_decide_eq_false, forallb_forall.
  apply and_iff_compat_l. split.
  - intros H f Hf Hp. specialize (H f ltac:(by apply list_elem_of_In)). unfold file_settled, is_terminal in H.
    rewrite Hp in H. simpl in H. apply andb_true_iff in H as [H1 H2]. rewrite forallb_forall in H1. split.
    + intros s Hs. by apply H1, list_elem_of_In.
    + intros Hd. by rewrite Hd in H2.
  - intros H f Hf%list_elem_of_In. unfold file_settled, is_terminal. destruct (paused f) eqn:Hp; [done|].
    destruct (H f Hf Hp) as [H1 H2]. simpl. apply andb_true_iff. split.
    + apply forallb_forall. intros s Hs. by apply H1, list_elem_of_In.
    + destruct (has_any_done f); [by rewrite H2|done].
Qed.

(** The owner once the job is finished with [st]. *)
Record finished (o : Owner) (job : JobId) (j : Job) (o' : Owner) : Prop := {
  fd_state : o_state o' =
    update_job (o_state o) job (set_status (finished_status (bool_decide (is_Some (o_write_failures o !! job))) j));
  fd_events : o_events o' = o_events o ++
    match open_post_stage j with
    | Some _ => []
    | None => [E_JobFinished job (name j)
                 (finished_status (bool_decide (is_Some (o_write_failures o !! job))) j) (calc (totals j))]
    end;
  fd_attempts : forall file n, o_attempts o' !! (job, file, n) = None
}.

Lemma forget_files_other fids : forall o,
  o_events (forget_files fids o) = o_events o /\ o_state (forget_files fids o) = o_state o /\
  o_attempts (forget_files fids o) = o_attempts o.
Proof. induction fids as [|f fids IH]; intros o; [done|]. simpl. by destruct (IH o) as (? & ? & ?). Qed.

Lemma health_of_final j : snd (final_status j) = calc (totals j).
Proof. unfold final_status. by case_if. Qed.

Lemma check_job_complete_finished o job j : finishable o job j ->
  ensures (check_job_complete env o job) (finished o job j).
Proof.
  intros [H1 H2 H3 H4 H5%job_complete_spec]. unfold check_job_complete.
  rewrite H3, H1, H2, H5. cbn [negb]. rewrite bool_decide_eq_false_2 by (by intros [? ?]).
  destruct (match o_inspections o !! job with Some n => _ | None => _ end) eqn:E.
  { destruct (o_inspections o !! job) as [n|] eqn:En; [|done]. specialize (H4 n eq_refl). lia. }
  set (st := finished_status _ j). set (o1 := forget_files _ _).
  assert (F1 : o_state o1 = update_job (o_state o) job (set_status st) /\ o_events o1 = o_events o /\
    forall file n, o_attempts o1 !! (job, file, n) = None).
  { unfold o1. match goal with |- context [forget_files ?l ?x] => destruct (forget_files_other l x) as (-> & -> & ->) end.
    split_and!; [done..|]. intros file n. simpl. apply map_lookup_filter_None. right. by intros ? _ []. }
  destruct F1 as (S1 & V1 & A1).
  eapply ensures_bind; [apply save_snapshot_persisted|]. intros [o2 b] (jn & p & d & E2). cbn [fst] in E2. subst o2.
  destruct (open_post_stage j) eqn:Ho; apply ensures_ret; split; cbn; rewrite ?Ho, ?app_nil_r; try done.
  by rewrite V1, health_of_final.
Qed.

Lemma check_job_complete_idle o job w : (forall j, ~ finishable o job j) ->
  check_job_complete env o job w = (Val o, w).
Proof.
  intros Hn. unfold check_job_complete. case_bool_decide as H3; [done|].
  destruct (match o_inspections o !! job with Some n => _ | None => _ end) eqn:H4; [done|].
  destruct (find_job (o_state o) job) as [j|] eqn:H1; [|done].
  destruct (active_status (status j)) eqn:H2; [|done]. destruct (job_complete j) eqn:H5; [|done].
  exfalso. apply (Hn j). split; [done..| | |by apply job_complete_spec].
  - by apply eq_None_not_Some.
  - intros n Hi. rewrite Hi in H4. lia.
Qed.

Lemma finishable_dec o job : (exists j, finishable o job j) \/ forall j, ~ finishable o job j.
Proof.
  destruct (find_job (o_state o) job) as [j|] eqn:H1; [|by right; intros j [H _ _ _ _]; rewrite H1 in H].
  destruct (active_status (status j)) eqn:H2.
  2: { right. intros j' [H H' _ _ _]. rewrite H1 in H. injection H as <-. by rewrite H2 in H'. }
  destruct (decide (o_delegated o !! job = None)) as [H3|H3]; [|by right; intros j' [_ _ H _ _]].
  destruct (job_complete j) eqn:H5.
  2: { right. intros j' [H _ _ _ H']. rewrite H1 in H. injection H as <-. apply job_complete_spec in H'. by rewrite H5 in H'. }
  destruct (o_inspections o !! job) as [n|] eqn:H4.
  - destruct (decide (n <= 0)) as [Hn|Hn].
    + left. exists j. split; [done..| |by apply job_complete_spec]. intros m Hm. rewrite H4 in Hm. by injection Hm as <-.
    + right. intros j' [_ _ _ H _]. by apply Hn, H.
  - left. exists j. split; [done..| |by apply job_complete_spec]. intros m Hm. by rewrite H4 in Hm.
Qed.

Lemma finished_status_inactive b j : active_status (finished_status b j) = false.
Proof. unfold finished_status, final_status. destruct (open_post_stage j); [done|]. destruct b; [done|]. by case_if. Qed.

Lemma finished_status_completed b j : finished_status b j = JS_Completed <->
  open_post_stage j = None /\ b = false /\ calc_critical (totals j) true <= calc (totals j).
Proof.
  unfold finished_status, final_status. destruct (open_post_stage j); [naive_solver|]. destruct b; [naive_solver|].
  destruct (_ <? _) eqn:E; simpl; bool_hyps; naive_solver lia.
Qed.

Lemma finished_idle o job j o' : finishable o job j -> finished o job j o' -> forall j', ~ finishable o' job j'.
Proof.
  intros [H1 _ _ _ _] [Hs _ _] j' [Hj' Ha _ _ _]. rewrite Hs, find_job_update, Z.eqb_refl, H1 in Hj' by done.
  injection Hj' as <-. cbn in Ha. by rewrite finished_status_inactive in Ha.
Qed.

End Finish.

(** a job is reported finished once, and honestly.  Looking for completion
    changes nothing unless the job is active, local, fully named and every file
    that is not paused has all its segments done or failed and, if anything was
    written, is finalized.  Then the job leaves its active status, in which it
    would be looked at again; it is declared completed exactly when no write
    failed, no post-processing stage is open and its health is not critical; one
    event says so, unless post-processing owns the job; and its attempts are
    forgotten.  The check ends whatever I/O fails. *)
Theorem job_finished_once {dc : DocCodec} env o job w :
  match check_job_complete env o job w with
  | (Val o', _) =>
      (o' = o /\ forall j, ~ finishable o job j) \/
      (exists j, finishable o job j /\ finished o job j o' /\
         (status <$> find_job (o_state o') job = Some JS_Completed <->
            o_write_failures o !! job = None /\ open_post_stage j = None /\
            calc_critical (totals j) true <= calc (totals j)) /\
         forall env' w', check_job_complete env' o' job w' = (Val o', w'))
  | (Fails _, _) => False
  | (Crashed, _) => crashes (fates w)
  end.
Proof.
  destruct (finishable_dec o job) as [[j Hj]|Hn].
  2: { rewrite check_job_complete_idle by done. by left. }
  pose proof (check_job_complete_finished env o job j Hj w) as H.
  destruct (check_job_complete env o job w) as [[o'|e|] w']; [|done|by destruct H].
  destruct H as [Hf _]. right. exists j. split_and!; [done..| |].
  - rewrite (fd_state _ _ _ _ Hf), find_job_update, Z.eqb_refl, (fi_job _ _ _ Hj) by done. simpl.
    rewrite (inj_iff Some), finished_status_completed, bool_decide_eq_false, <- eq_None_not_Some. naive_solver.
  - intros env' w2. apply check_job_complete_idle. by eapply finished_idle.
Qed.

(** ** The disk guard *)

(** a hold is only released on evidence.  A write that ran out of space
    releases work only after a reading that covers every volume and shows at
    least twice the floor free; a hold of any kind is never released on an
    incomplete reading, nor while the free space is below the floor; and a
    reading below the floor always holds. *)
Theorem disk_guard_release was latched reading floor :
  let r := disk_guard_decision was latched reading floor in
  (latched = true -> fst r = false ->
     0 < floor /\ all_roots_known reading = true /\
     exists a, g_available_bytes reading = Some a /\ sat_mul64 floor 2 <= a) /\
  (latched = false -> fst r = false) /\
  (was = true -> snd r = false -> all_roots_known reading = true) /\
  (snd r = false -> fst r = false /\ forall a, g_available_bytes reading = Some a -> 0 < floor -> floor <= a).
Proof.
  unfold disk_guard_decision, sat_mul64, u64_max. cbn [fst snd].
  destruct latched, was, (all_roots_known reading), (g_available_bytes reading) as [a|];
    split_and!; intros; try done; repeat match goal with H : context [if ?b then _ else _] |- _ => destruct b eqn:?; simpl in H end;
    repeat case_if; bool_hyps; try done; split_and!; try done; try lia; naive_solver lia.
Qed.
