(* ===== verification/Recovery.v ===== *)
(** * The ledger of the parts that are done

    What a list of messages enters in it, and the queues it describes.  Restart and
    Progress compare the owner's loop with it. *)

From S2P Require Import Prelude RustStr Crc32 Types Failover Volumes Nzb JobNames Queue Selection ParSelect Fs Codec Store Owner OwnerInv Leases.

(** ** The ledger *)

Definition Ledger : Type := SegRef -> option (Z * Z * Z).

Definition ledger_step (ex : SegRef -> bool) (a : Ledger) (m : TransferStep) : Ledger := fun r =>
  match m with
  | SegmentWritten r' off len crc _ _ =>
      if bool_decide (r = r') && ex r' && bool_decide (a r' = None) then Some (off, len, crc) else a r
  | _ => a r
  end.

Definition segment_exists (q : QueueState) (r : SegRef) : bool := bool_decide (is_Some (seg_at q r)).

Lemma fmap_find {A B} (f : A -> B) (p : B -> bool) l : f <$> find (fun x => p (f x)) l = find p (map f l).
Proof. induction l as [|x l IH]; [done|]. simpl. by case_if. Qed.

(** The ids alone say which references resolve. *)
Lemma seg_at_shape q r :
  number <$> seg_at q r =
  (find (fun js => fst js =? sr_job r) (shape q) ≫= fun js =>
   find (fun fs => fst fs =? sr_file r) (snd js) ≫= fun fs =>
   find (fun n => n =? seg_number r) (snd fs)).
Proof.
  unfold seg_at, find_file, find_job, shape.
  rewrite <- (fmap_find job_shape (fun js => fst js =? sr_job r)). simpl.
  destruct (find (fun j => job_id j =? sr_job r) (jobs q)) as [j|]; [|done]. simpl.
  rewrite <- (fmap_find file_shape (fun fs => fst fs =? sr_file r)). simpl.
  destruct (find (fun f => file_id f =? sr_file r) (files j)) as [f|]; [|done]. simpl.
  by rewrite <- (fmap_find number (fun n => n =? seg_number r)).
Qed.

Lemma segment_exists_shape q q' r : shape q' = shape q -> segment_exists q' r = segment_exists q r.
Proof.
  intros Hs. unfold segment_exists. apply bool_decide_ext.
  rewrite <- (fmap_is_Some number (seg_at q' r)), <- (fmap_is_Some number (seg_at q r)).
  by rewrite !seg_at_shape, Hs.
Qed.

Lemma expected_ledger q m r : expected_done q m r = ledger_step (segment_exists q) (done_at q) m r.
Proof. by destruct m. Qed.

Section Messages.
Context {jc : JournalCodec} {dc : DocCodec}.

Lemma ledger_step_ext ex a a' m : (forall r, a r = a' r) -> forall r, ledger_step ex a m r = ledger_step ex a' m r.
Proof. intros H r. destruct m; simpl; by rewrite ?H. Qed.

Lemma ledger_fold_ext ex ms : forall a a', (forall r, a r = a' r) -> forall r,
  fold_left (ledger_step ex) ms a r = fold_left (ledger_step ex) ms a' r.
Proof. induction ms as [|m ms IH]; intros a a' H r; simpl; [done|]. apply IH. by apply ledger_step_ext. Qed.

Lemma ledger_step_ex ex ex' a m r : (forall r, ex r = ex' r) -> ledger_step ex a m r = ledger_step ex' a m r.
Proof. intros H. destruct m; simpl; by rewrite ?H. Qed.

(** The queue after [ms], against the ledger. *)
Record ledgered (ms : list TransferStep) (q q' : QueueState) : Prop := {
  le_shape : shape q' = shape q;
  le_done : forall r, done_at q' r = fold_left (ledger_step (segment_exists q)) ms (done_at q) r
}.

Lemma ledger_fold_ex ex ex' ms : (forall r, ex r = ex' r) -> forall a r,
  fold_left (ledger_step ex) ms a r = fold_left (ledger_step ex') ms a r.
Proof.
  intros Hex. induction ms as [|m ms IH]; intros a r; simpl; [done|]. rewrite IH.
  apply ledger_fold_ext. intros r'. by apply ledger_step_ex.
Qed.

(** What more messages do, seen before and after the first ones. *)
Lemma ledgered_fold ms ms' q q' r : ledgered ms q q' ->
  fold_left (ledger_step (segment_exists q')) ms' (done_at q') r =
  fold_left (ledger_step (segment_exists q)) (ms ++ ms') (done_at q) r.
Proof.
  intros [H1 H2]. rewrite fold_left_app, (ledger_fold_ex _ (segment_exists q)) by (intros r'; by apply segment_exists_shape).
  by apply ledger_fold_ext.
Qed.

Lemma ledgered_app ms ms' q q' q'' : ledgered ms q q' -> ledgered ms' q' q'' -> ledgered (ms ++ ms') q q''.
Proof.
  intros H1 [H2 H3]. split; [rewrite H2; apply (le_shape _ _ _ H1)|]. intros r. rewrite H3. by apply ledgered_fold.
Qed.

Lemma handles_ledgered m q q' : handles m q q' -> ledgered [m] q q'.
Proof. intros [H1 H2 _]. split; [done|]. intros r. rewrite H2. apply expected_ledger. Qed.

Lemma quiet_ledgered q q' : quiet q q' -> ledgered [] q q'.
Proof. intros Q. by destruct (k_done _ _ (quiet_keeps _ _ Q)). Qed.

(** Entries stay, and name existing segments. *)
Lemma ledger_step_keeps ex a m r v : a r = Some v -> ledger_step ex a m r = Some v.
Proof.
  intros Ha. destruct m; try done. cbn. case_bool_decide as E; [subst|done]. rewrite Ha.
  rewrite (bool_decide_eq_false_2 (Some v = None)) by done. by rewrite andb_false_r.
Qed.

Lemma ledger_keeps ex ms : forall a r v, a r = Some v -> fold_left (ledger_step ex) ms a r = Some v.
Proof. induction ms as [|m ms IH]; intros a r v Ha; [done|]. simpl. by apply IH, ledger_step_keeps. Qed.

Lemma ledger_exists ex ms : forall a, (forall r v, a r = Some v -> ex r = true) ->
  forall r v, fold_left (ledger_step ex) ms a r = Some v -> ex r = true.
Proof.
  induction ms as [|m ms IH]; intros a Ha r v; simpl; [apply Ha|]. apply IH. clear -Ha. intros r v.
  destruct m; cbn; try apply Ha. case_bool_decide as E; [subst|apply Ha].
  destruct (ex _) eqn:Ex; [done|]. cbn. intros Hv. rewrite <- Ex. by eapply Ha.
Qed.

End Messages.
