(* ===== verification/Crash.v ===== *)
(** * Progress and the disk ([crates/nzbd-engine/src/owner.rs], [crates/nzbd-state])

    The invariant that ties the queue to what is on disk: the committed snapshot
    and the journals together hold every part that is done, and those that were
    done at the last sync would survive a crash.  Restart runs the owner's loop
    under it. *)

From S2P Require Import Prelude RustStr Crc32 Types Failover Volumes Nzb JobNames Queue Selection ParSelect Fs Codec Store Owner OwnerInv Leases Recovery.

#[local] Unset Default Proof Using.

Section Crash.
Context {jc : JournalCodec} {dc : DocCodec}.

(** ** What a journal holds *)

Definition is_journal (nm : str) : Prop := starts_with (lit "journal.") nm = true.

Definition record_value (rec : JournalRecord) : Z * Z * Z := (jr_offset rec, jr_len rec, jr_crc32 rec).

(** [rec] is a whole line of the file, and one that a crash leaves whole. *)
Definition line_in (rec : JournalRecord) (f : DFile) : Prop :=
  exists rs, journal_bytes (rs ++ [rec]) `prefix_of` content f.
Definition line_safe (rec : JournalRecord) (f : DFile) : Prop :=
  exists rs, journal_bytes (rs ++ [rec]) `prefix_of` content f /\
    (length (journal_bytes (rs ++ [rec])) <= durable f <= length (content f))%nat.

Variable q0 : QueueState.     (* the queue whose identifiers are kept *)
Variable L : Ledger.          (* every part that was ever reported *)

(** A record of the ledger, or of a part the queue does not have (of a job that
    is long gone). *)
Definition known (rec : JournalRecord) : Prop :=
  segment_exists q0 (record_ref rec) = true -> L (record_ref rec) = Some (record_value rec).

(** The file is a journal of such records, cut somewhere. *)
Definition journal_of (f : DFile) : Prop :=
  exists rs n, content f = take n (journal_bytes rs) /\ Forall known rs.

Lemma journal_of_crash f f' : journal_of f -> crash_file f f' -> Forall known (replay_bytes (content f')).
Proof.
  intros (rs & n & Hc & HL) (m & _ & ->). simpl. rewrite Hc, take_take.
  destruct (replay_cut rs (m `min` n)) as (k & -> & _). by apply Forall_take.
Qed.

Lemma prefix_take {A} (a l : list A) n : a `prefix_of` l -> (length a <= n)%nat -> a `prefix_of` take n l.
Proof. intros [k ->] Hn. rewrite take_app, firstn_all2 by done. by eexists. Qed.

Lemma line_safe_crash rec f f' : line_safe rec f -> crash_file f f' -> rec ∈ replay_bytes (content f').
Proof.
  intros (rs & Hp & Hd) (m & Hm & ->). simpl.
  destruct (prefix_take _ _ m Hp ltac:(lia)) as [k ->]. rewrite replay_journal.
  apply elem_of_app. left. apply elem_of_app. right. left.
Qed.

Lemma line_safe_durable rec f : line_safe rec f -> (0 < durable f)%nat.
Proof.
  intros (rs & _ & Hd & _). unfold journal_bytes in Hd. rewrite map_app, concat_app, length_app in Hd.
  cbn [map concat] in Hd. unfold journal_line in Hd. rewrite !length_app in Hd. simpl in Hd. lia.
Qed.

Lemma line_in_settle rec f : line_in rec f -> line_safe rec (settle f).
Proof. intros (rs & Hp). exists rs. simpl. split; [done|]. apply prefix_length in Hp. lia. Qed.

(** ** After the crash *)

Definition within (S : Ledger) : Prop := forall r v, S r = Some v -> L r = Some v.

(** A snapshot that may be found. *)
Record snap_ok (s : QueueState) : Prop := {
  sn_shape : shape s = shape q0;
  sn_within : within (done_at s)
}.

(** The record of a part, in some journal of the disk. *)
Definition recorded (P : JournalRecord -> DFile -> Prop) (d : Disk) (r : SegRef) (v : Z * Z * Z) : Prop :=
  exists dir nm f rec, is_journal nm /\ job_file d dir nm = Some f /\
    record_ref rec = r /\ record_value rec = v /\ P rec f.

Definition legacy_empty (d : Disk) : Prop := forall f, top d !! LEGACY = Some f -> content f = [].

(** The disk a restart finds: a whole snapshot, journals of reported parts, and
    every part of [S] in one of them. *)
Definition good (S : Ledger) (d : Disk) : Prop := exists s,
  top d !! QUEUE_JSON = Some (doc_file (to_doc s)) /\ snap_ok s /\ legacy_empty d /\
  (forall dir nm f, job_file d dir nm = Some f -> is_journal nm ->
     Forall known (replay_bytes (content f))) /\
  (forall r v, S r = Some v -> done_at s r = Some v \/
     recorded (fun rec f => rec ∈ replay_bytes (content f)) d r v).

(** ** Replaying it *)

Definition still (d : Disk) : World := {| disk := d; fates := [] |}.

Definition file_records (d : Disk) (dir nm : str) : list JournalRecord :=
  if starts_with (lit "journal.") nm then
    match job_file d dir nm with Some f => replay_bytes (content f) | None => [] end
  else [].

Lemma replay_files_still d dir names :
  replay_files dir names (still d) = (Val (concat (map (file_records d dir) names)), still d).
Proof.
  induction names as [|nm names IH]; [done|]. cbn [replay_files map concat]. unfold file_records at 1.
  destruct (starts_with _ nm); cbn [negb]; [|exact IH].
  unfold io_bind at 1, io_try, open_file, prim at 1. cbn [fates disk still].
  destruct (job_file d dir nm) as [f|] eqn:E; [|exact IH].
  unfold io_bind, read_file, prim. cbn [fates disk tail]. rewrite E. change {| disk := d; fates := [] |} with (still d).
  by rewrite IH.
Qed.

Definition dir_records (d : Disk) (dir : str) : list JournalRecord :=
  match jobdirs d !! dir with
  | Some fs => concat (map (file_records d dir) (map fst (map_to_list fs)))
  | None => []
  end.

Lemma replay_dir_still d dir : replay_dir dir (still d) = (Val (dir_records d dir), still d).
Proof.
  unfold replay_dir, dir_records, io_bind, io_try, read_dir, prim. cbn [fates disk still tail].
  destruct (jobdirs d !! dir) as [fs|]; [|done]. apply replay_files_still.
Qed.

Lemma replay_dirs_still d dirs :
  replay_dirs dirs (still d) = (Val (concat (map (dir_records d) dirs)), still d).
Proof.
  induction dirs as [|dir dirs IH]; [done|]. cbn [replay_dirs map concat].
  unfold io_bind. by rewrite replay_dir_still, IH.
Qed.

Definition all_records (d : Disk) : list JournalRecord :=
  concat (map (dir_records d) (map fst (map_to_list (jobdirs d)))).

Lemma replay_all_still d : replay_all (still d) = (Val (all_records d), still d).
Proof. unfold replay_all, io_bind, io_try, read_jobs_dir, prim. cbn [fates disk still tail]. apply replay_dirs_still. Qed.

Lemma elem_of_keys {A} (m : gmap str A) k : k ∈ map fst (map_to_list m) <-> is_Some (m !! k).
Proof.
  rewrite list_elem_of_fmap. split.
  - intros ([k' x] & -> & H%elem_of_map_to_list). by exists x.
  - intros [x H]. exists (k, x). split; [done|]. by apply elem_of_map_to_list.
Qed.

Lemma elem_of_concat_map {A B} (f : A -> list B) l y : y ∈ concat (map f l) <-> exists x, x ∈ l /\ y ∈ f x.
Proof.
  induction l as [|x l IH]; simpl.
  - split; [by intros ?%elem_of_nil|by intros (x & ?%elem_of_nil & _)].
  - rewrite elem_of_app, IH. setoid_rewrite elem_of_cons. naive_solver.
Qed.

Lemma elem_of_all_records d rec : rec ∈ all_records d <->
  exists dir nm f, is_journal nm /\ job_file d dir nm = Some f /\ rec ∈ replay_bytes (content f).
Proof.
  unfold all_records. rewrite elem_of_concat_map. setoid_rewrite elem_of_keys. split.
  - intros (dir & [fs Hd] & Hr). unfold dir_records in Hr. rewrite Hd in Hr.
    apply elem_of_concat_map in Hr as (nm & _ & Hr). unfold file_records in Hr.
    destruct (starts_with _ nm) eqn:Hj; [|by apply elem_of_nil in Hr].
    destruct (job_file d dir nm) as [f|] eqn:Hf; [|by apply elem_of_nil in Hr]. by exists dir, nm, f.
  - intros (dir & nm & f & Hj & Hf & Hr). pose proof Hf as Hf'. unfold job_file in Hf'.
    destruct (jobdirs d !! dir) as [fs|] eqn:Hd; [|done]. simpl in Hf'. exists dir. split; [by exists fs|].
    unfold dir_records. rewrite Hd. apply elem_of_concat_map. exists nm. split; [by apply elem_of_keys; exists f|].
    unfold file_records, is_journal in *. by rewrite Hj, Hf.
Qed.

(** ** Folding the records *)

Lemma done_exists q r v : done_at q r = Some v -> segment_exists q r = true.
Proof. unfold done_at, segment_exists. destruct (seg_at q r); [|done]. intros _. by apply bool_decide_eq_true_2. Qed.

Lemma fold_record_step q sizes rec : exists q' sizes', fold_record (q, sizes) rec = (q', sizes') /\
  shape q' = shape q /\ forall r, done_at q' r = after_written q (record_ref rec) (record_value rec) r.
Proof.
  unfold fold_record. set (sizes' := if 0 <? jr_file_size rec then _ else _).
  destruct (seg_at q (record_ref rec)) as [s|] eqn:Hs.
  - destruct (is_done (state s)) eqn:Hd.
    + exists q, sizes'. split_and!; [done..|]. apply wr_done, after_written_none. right.
      unfold done_at. rewrite Hs. simpl. unfold done_value. by destruct (state s).
    + eexists _, sizes'. split; [reflexivity|].
      destruct (written_enter q (record_ref rec) (jr_offset rec) (jr_len rec) (jr_crc32 rec) s Hs Hd) as (H1 & H2 & _).
      by split.
  - exists q, sizes'. split_and!; [done..|]. apply wr_done, after_written_none. by left.
Qed.

Lemma after_written_cases q r0 v0 r v : after_written q r0 v0 r = Some v ->
  done_at q r = Some v \/ (r = r0 /\ v = v0).
Proof. unfold after_written. repeat case_bool_decide; simpl; naive_solver. Qed.

Lemma after_written_keeps q r0 v0 r v : done_at q r = Some v -> after_written q r0 v0 r = Some v.
Proof. unfold after_written. intros H. repeat case_bool_decide; simpl; naive_solver. Qed.

Record folded (R : list JournalRecord) (q q' : QueueState) : Prop := {
  fo_shape : shape q' = shape q;
  fo_keeps : forall r v, done_at q r = Some v -> done_at q' r = Some v;
  fo_from : forall r v, done_at q' r = Some v ->
    done_at q r = Some v \/ exists rec, rec ∈ R /\ record_ref rec = r /\ record_value rec = v;
  fo_all : forall rec, rec ∈ R -> segment_exists q (record_ref rec) = true -> is_Some (done_at q' (record_ref rec))
}.

Lemma fold_records R : forall q sizes, exists q' sizes',
  fold_left fold_record R (q, sizes) = (q', sizes') /\ folded R q q'.
Proof.
  induction R as [|rec R IH]; intros q sizes.
  { exists q, sizes. split; [done|]. split; [done..|by left|]. by intros ? ?%elem_of_nil. }
  destruct (fold_record_step q sizes rec) as (q1 & s1 & E1 & H1 & D1).
  destruct (IH q1 s1) as (q2 & s2 & E2 & [F1 F2 F3 F4]).
  assert (X : forall r, segment_exists q1 r = segment_exists q r) by (intros r; by apply segment_exists_shape).
  exists q2, s2. split; [cbn [fold_left]; by rewrite E1|]. split.
  - congruence.
  - intros r v Hr. apply F2. rewrite D1. by apply after_written_keeps.
  - intros r v Hr. destruct (F3 r v Hr) as [H|(rec' & Hin & H)].
    + rewrite D1 in H. apply after_written_cases in H as [H|[-> ->]]; [by left|right].
      exists rec. split; [left|done].
    + right. exists rec'. split; [by right|done].
  - intros rec' [->|Hin]%elem_of_cons He; [|apply F4; [done|by rewrite X]].
    assert (is_Some (done_at q1 (record_ref rec))) as [v Hv]; [|by exists v; apply F2].
    rewrite D1. unfold after_written. rewrite bool_decide_eq_true_2 by done.
    unfold segment_exists in He. rewrite He. simpl.
    destruct (done_at q (record_ref rec)) as [v|]; [exists v|exists (record_value rec)]; done.
Qed.

Lemma recompute_all_same q : same_done q (recompute_all_totals q).
Proof.
  apply same_done_segments.
  - unfold shape, recompute_all_totals, set_jobs. cbn [jobs]. rewrite map_map. by apply map_ext.
  - intros r. unfold seg_at, find_file, find_job, recompute_all_totals, set_jobs. cbn [jobs].
    rewrite find_map by done. by destruct (find _ (jobs q)).
Qed.

(** ** The snapshot comes back *)

Definition restarted (j j' : Job) : Prop :=
  job_id j' = job_id j /\ files j' = map (fun f => set_segments (map unlease (segments f)) f) (files j).

Lemma restarted_jobs now doc s q : drop_ratios doc = drop_ratios (to_doc s) -> from_doc now doc = Ret q ->
  Forall2 restarted (jobs s) (jobs q).
Proof.
  intros Hd Hq. apply from_doc_recovered in Hq as [Hr _]. injection Hd as _ _ Hj _ _ _ _ _. clear -Hr Hj.
  revert Hj. generalize (jobs s) as js. induction Hr as [|j j' l l' Hj Hl IH]; intros [|x js] E; try done.
  simpl in E. injection E as E1 E2 E3 E4 E5 E6 E7 E8 E9 E10 E11 E12 E13 E14 E15 E16 E17.
  constructor; [|by apply IH]. destruct Hj as [R1 _ _ _ _ _ _ _ _ R7 _ _ _ _]. split; congruence.
Qed.

Lemma restarted_queue s q : Forall2 restarted (jobs s) (jobs q) ->
  shape q = shape s /\ forall r, done_at q r = done_at s r.
Proof.
  intros HF. split.
  - unfold shape. induction HF as [|j j' l l' [H1 H2] _ IH]; [done|]. simpl. rewrite IH. f_equal.
    unfold job_shape. rewrite H1, H2, map_map. f_equal. apply map_ext. intros f. unfold file_shape. simpl.
    rewrite map_map. f_equal. apply map_ext. intros x. unfold unlease. by destruct (state x).
  - intros r. unfold done_at, seg_at, find_file, find_job.
    assert (HJ : forall n, option_Forall2 restarted (find (fun j => job_id j =? n) (jobs s)) (find (fun j => job_id j =? n) (jobs q))).
    { intros n. induction HF as [|j j' l l' [H1 H2] _ IH]; [constructor|]. simpl. rewrite H1. case_if; [by constructor|done]. }
    destruct (HJ (sr_job r)) as [j j' [_ H2]|]; [|done]. simpl. rewrite H2.
    rewrite (find_map (fun f => file_id f =? sr_file r)) by done.
    destruct (find _ (files j)) as [f|]; [|done]. simpl.
    rewrite (find_map (fun x => number x =? seg_number r)) by (intros x; unfold unlease; by destruct (state x)).
    destruct (find _ (segments f)) as [x|]; [|done]. simpl. unfold done_value, unlease. destruct (state x) eqn:E; simpl; by rewrite ?E.
Qed.

(** ** Recovery from a good disk *)

Lemma load_still d doc : top d !! QUEUE_JSON = Some (doc_file doc) -> schema_version doc = QUEUE_SCHEMA_VERSION ->
  exists doc', load (still d) = (Val (Some doc'), still d) /\ doc_from_slice (doc_to_vec doc) = Some doc' /\
    drop_ratios doc' = drop_ratios doc.
Proof.
  intros Ht Hv. pose proof (doc_from_to doc) as Hf. destruct (doc_from_slice (doc_to_vec doc)) as [doc'|] eqn:E; [|done].
  apply (inj Some) in Hf. exists doc'. split_and!; [|done|done].
  assert (Hs : schema_version doc' = QUEUE_SCHEMA_VERSION) by (etransitivity; [exact (f_equal schema_version Hf)|exact Hv]).
  unfold load, io_bind, io_try, read, prim. cbn [fates disk still tail]. rewrite Ht. cbn [content doc_file]. rewrite E.
  unfold validate_queue_schema_version. rewrite Hs. reflexivity.
Qed.

Lemma replay_empty : replay_bytes [] = [].
Proof. reflexivity. Qed.

(** The legacy journal is opened, which creates it, and holds nothing. *)
Lemma legacy_still d : legacy_empty d ->
  exists t, FsJournal_open (still d) = (Val {| fj_dirty := false |}, still (set_top t d)) /\
    FsJournal_replay (still (set_top t d)) = (Val [], still (set_top t d)).
Proof.
  intros Hl. unfold FsJournal_open, open_append_top, io_bind, prim. cbn [fates disk still tail].
  eexists. split; [reflexivity|]. unfold FsJournal_replay, io_bind, io_try, read, prim. cbn [fates disk still tail set_top top].
  rewrite lookup_partial_alter_eq. destruct (top d !! LEGACY) as [f|] eqn:E; simpl; [|done]. by rewrite (Hl f E).
Qed.

Definition panics_on (now : Z) (d : Disk) : Prop := exists f doc,
  top d !! QUEUE_JSON = Some f /\ doc_from_slice (content f) = Some doc /\ from_doc now doc = Panic.

Hypothesis L_exists : forall r v, L r = Some v -> segment_exists q0 r = true.

Record recovers_to (S : Ledger) (q : QueueState) : Prop := {
  rt_shape : shape q = shape q0;
  rt_synced : forall r v, S r = Some v -> done_at q r = Some v;
  rt_within : within (done_at q)
}.

(** What a snapshot, restarted, and the records of the disk add up to. *)
Lemma good_folded S d s q1 q2 : top d !! QUEUE_JSON = Some (doc_file (to_doc s)) -> snap_ok s ->
  (forall dir nm f, job_file d dir nm = Some f -> is_journal nm ->
     Forall known (replay_bytes (content f))) ->
  (forall r v, S r = Some v -> done_at s r = Some v \/
     recorded (fun rec f => rec ∈ replay_bytes (content f)) d r v) ->
  within S -> shape q1 = shape s -> (forall r, done_at q1 r = done_at s r) ->
  folded (all_records d) q1 q2 -> recovers_to S (recompute_all_totals q2).
Proof.
  intros Ht [Hsh Hw] Hf HS HSw Hs1 Hd1 [F1 F2 F3 F4]. destruct (recompute_all_same q2) as [R1 R2].
  assert (HR : forall rec, rec ∈ all_records d -> known rec).
  { intros rec (dir & nm & f & Hj & Hjf & Hin)%elem_of_all_records.
    specialize (Hf dir nm f Hjf Hj). rewrite Forall_forall in Hf. by apply Hf. }
  assert (HW : within (done_at q2)).
  { intros r v Hv. destruct (F3 r v Hv) as [H|(rec & Hin & <- & <-)]; [apply Hw; by rewrite <- Hd1|].
    apply HR; [done|]. rewrite <- (segment_exists_shape q0 q2) by congruence. by eapply done_exists. }
  split; [congruence| |intros r v; rewrite R2; apply HW].
  intros r v Hv. rewrite R2. destruct (HS r v Hv) as [H|(dir & nm & f & rec & Hj & Hjf & <- & <- & Hin)].
  - apply F2. by rewrite Hd1.
  - assert (Hall : rec ∈ all_records d) by (apply elem_of_all_records; by exists dir, nm, f).
    assert (He : segment_exists q0 (record_ref rec) = true) by (by eapply L_exists, HSw).
    pose proof (HR rec Hall He) as HL. destruct (F4 rec Hall) as [v Hd2].
    + by rewrite (segment_exists_shape q0) by congruence.
    + rewrite Hd2. pose proof (HW _ _ Hd2). congruence.
Qed.

Lemma recover_good now S d : within S -> good S d ->
  match recover now true (still d) with
  | (Val (q, _), _) => recovers_to S q
  | (Fails _, _) => False
  | (Crashed, _) => panics_on now d
  end.
Proof.
  intros HSw (s & Ht & Hs & Hl & Hf & HS). unfold recover. cbn [negb].
  destruct (load_still d (to_doc s) Ht eq_refl) as (doc & Hload & Hdoc & Hdrop).
  unfold io_bind at 1. rewrite Hload. unfold io_bind at 1.
  destruct (from_doc now doc) as [q1|] eqn:Hq; [|by exists (doc_file (to_doc s)), doc].
  destruct (restarted_queue s q1 ltac:(by eapply restarted_jobs)) as [S1 D1]. cbn [of_run io_ret].
  destruct (legacy_still d Hl) as (t & Ho & Hr). unfold io_bind at 1. rewrite Ho.
  unfold io_bind at 1. rewrite Hr. unfold io_bind at 1. cbn [io_ret]. unfold io_bind at 1.
  rewrite replay_all_still. cbn [app]. change (all_records (set_top t d)) with (all_records d).
  destruct (fold_records (all_records d) q1 ∅) as (q2 & sizes & E & HF). rewrite E. cbn [io_ret].
  by eapply good_folded.
Qed.

(** ** While the owner runs *)

Definition pending_at (j : JobJournals) (d : Disk) (r : SegRef) (v : Z * Z * Z) : Prop :=
  jj_dirty j = true /\ exists job f rec, job ∈ jj_open j /\
    job_file d (job_dir job) (journal_file j) = Some f /\
    record_ref rec = r /\ record_value rec = v /\ line_in rec f.

Definition covers (S : Ledger) (s : QueueState) (d : Disk) : Prop :=
  forall r v, S r = Some v -> done_at s r = Some v \/ recorded line_safe d r v.

Definition files_of (P : DFile -> Prop) (d : Disk) : Prop :=
  forall dir nm f, job_file d dir nm = Some f -> is_journal nm -> P f.

Definition gone_of (P : DFile -> Prop) (d : Disk) : Prop :=
  forall dir nm f, (dir, nm, f) ∈ jobs_old d -> is_journal nm -> P f.

Definition whole_journal (f : DFile) : Prop := (durable f <= length (content f))%nat /\
  exists rs, content f = journal_bytes rs /\ Forall known rs.

(** The committed snapshot [s], the journals and the queue agree: every part that
    is done is in the snapshot, or in a journal as of the last sync, or in a line
    that the next sync will settle; those of [S] would survive now. *)
Record holds (S : Ledger) (s q : QueueState) (j : JobJournals) (d : Disk) : Prop := {
  ho_snap : committed (Some (doc_file (to_doc s))) d;
  ho_evolves : evolves s q;
  ho_shape : shape q = shape q0;
  ho_within : within (done_at q);
  ho_covered : forall r v, done_at q r = Some v ->
    done_at s r = Some v \/ recorded line_safe d r v \/ pending_at j d r v;
  ho_synced : covers S s d;
  ho_sub : forall r v, S r = Some v -> done_at q r = Some v;
  ho_files : files_of whole_journal d;
  ho_gone : gone_of journal_of d;
  ho_open : forall job, job ∈ jj_open j -> is_u32 job /\ is_Some (job_file d (job_dir job) (journal_file j));
  ho_legacy : legacy_empty d
}.

(** What a crash may interrupt. *)
Record safe (S : Ledger) (d : Disk) : Prop := {
  sf_snap : exists s, snap_ok s /\ covers S s d /\
    (committed (Some (doc_file (to_doc s))) d \/
     exists s', snap_ok s' /\ covers S s' d /\ renamed (Some (doc_file (to_doc s'))) (to_doc s) d);
  sf_within : within S;
  sf_files : files_of journal_of d;
  sf_gone : gone_of journal_of d;
  sf_legacy : legacy_empty d
}.

Lemma whole_journal_of f : whole_journal f -> journal_of f.
Proof. intros (_ & rs & Hc & HL). exists rs, (length (content f)). by rewrite Hc, firstn_all. Qed.

Lemma holds_snap_ok S s q j d : holds S s q j d -> snap_ok s.
Proof.
  intros H. destruct (ho_evolves _ _ _ _ _ H) as [E1 E2]. split.
  - rewrite <- E1. apply (ho_shape _ _ _ _ _ H).
  - intros r v Hv. by eapply ho_within, E2.
Qed.

Lemma holds_safe S s q j d : holds S s q j d -> safe S d.
Proof.
  intros H. split; [|intros r v Hv; by eapply ho_within, ho_sub|intros dir nm f Hf Hj; by eapply whole_journal_of, ho_files|
    apply (ho_gone _ _ _ _ _ H)|apply (ho_legacy _ _ _ _ _ H)].
  exists s. split_and!; [by eapply holds_snap_ok|apply (ho_synced _ _ _ _ _ H)|left; apply (ho_snap _ _ _ _ _ H)].
Qed.

Lemma crash_legacy d dd : crash_disk true d dd -> legacy_empty d -> legacy_empty dd.
Proof.
  intros Hc Hl f' Hf'. pose proof (cd_top _ _ _ Hc LEGACY ltac:(done) ltac:(done)) as Hx. rewrite Hf' in Hx.
  inversion Hx as [f f2 Hf (n & Hn & ->)| |f f2 _ []]; subst. simpl. rewrite (Hl f) by done. apply take_nil.
Qed.

(** A file found after the crash was there, or had been removed. *)
Lemma crash_job_file d dd dir nm f' : crash_disk true d dd -> job_file dd dir nm = Some f' ->
  exists f, (job_file d dir nm = Some f \/ (dir, nm, f) ∈ jobs_old d) /\ crash_file f f'.
Proof. intros Hc Hf. pose proof (cd_jobs _ _ _ Hc dir nm) as Hx. rewrite Hf in Hx. inversion Hx; subst; eauto. Qed.

(** A synced file is found where it was. *)
Lemma crash_kept d dd dir nm f : crash_disk true d dd -> job_file d dir nm = Some f -> (0 < durable f)%nat ->
  exists f', job_file dd dir nm = Some f' /\ crash_file f f'.
Proof.
  intros Hc Hf Hd. pose proof (cd_jobs _ _ _ Hc dir nm) as Hx. rewrite Hf in Hx.
  assert (He : entry_committed true (Some f)) by (by split; [|exists f]).
  inversion Hx as [f1 f' E Hcf|Hn|f1 f' Hn]; [|done..]. injection E as <-. by exists f'.
Qed.

Lemma covers_crash S s d dd : crash_disk true d dd -> covers S s d -> forall r v, S r = Some v ->
  done_at s r = Some v \/ recorded (fun rec f => rec ∈ replay_bytes (content f)) dd r v.
Proof.
  intros Hc HS r v Hv. destruct (HS r v Hv) as [H|(dir & nm & f & rec & Hj & Hf & Hr & Hw & Hl)]; [by left|right].
  destruct (crash_kept _ _ _ _ _ Hc Hf (line_safe_durable _ _ Hl)) as (f' & Hf' & Hcf).
  exists dir, nm, f', rec. split_and!; try done. by eapply line_safe_crash.
Qed.

(** A crash leaves a good disk. *)
Lemma safe_good S d dd : safe S d -> crash_disk true d dd -> good S dd.
Proof.
  intros [(s & Hs & HS & Hsnap) _ Hf Hg Hl] Hc.
  assert (HF : files_of (fun f => Forall known (replay_bytes (content f))) dd).
  { intros dir nm f' Hf' Hj. destruct (crash_job_file _ _ _ _ _ Hc Hf') as (f & [Hjf|Hjf] & Hcf);
      (eapply journal_of_crash; [|exact Hcf]); [by eapply Hf|by eapply Hg]. }
  assert (HG : forall x, snap_ok x -> covers S x d -> top dd !! QUEUE_JSON = Some (doc_file (to_doc x)) -> good S dd).
  { intros x Hx HSx Ht. exists x. split_and!; [done..| |done|by eapply covers_crash]. by eapply crash_legacy. }
  destruct Hsnap as [Hco|(s' & Hs' & HS' & Hre)].
  - apply (HG s); [done..|]. by eapply committed_crash.
  - destruct (renamed_crash _ _ _ _ _ Hre Hc); [by apply (HG s')|by apply (HG s)].
Qed.

(** ** Growing files *)

Record grown (f f' : DFile) : Prop := {
  gf_content : content f `prefix_of` content f';
  gf_durable : (durable f <= durable f')%nat;
  gf_bound : (durable f <= length (content f) -> durable f' <= length (content f'))%nat
}.

Record grows (d d' : Disk) : Prop := {
  gr_top : top d' = top d;
  gr_old : json_old d' = json_old d;
  gr_gone : jobs_old d' = jobs_old d;
  gr_files : forall dir nm f, job_file d dir nm = Some f -> exists f', job_file d' dir nm = Some f' /\ grown f f'
}.

Lemma grown_refl f : grown f f.
Proof. by split. Qed.

Lemma grown_extend f buf : grown f (extend buf f).
Proof. split; simpl; [by eexists|done|]. rewrite length_app. lia. Qed.

Lemma grown_settle f : (durable f <= length (content f))%nat -> grown f (settle f).
Proof. by split. Qed.

Lemma grows_refl d : grows d d.
Proof. split; [done..|]. intros dir nm f Hf. exists f. split; [done|apply grown_refl]. Qed.

Lemma grows_alter g dir nm d : (forall f, job_file d dir nm = Some f -> grown f (g f)) ->
  grows d (alter_job_file g dir nm d).
Proof.
  intros Hg. split; [done..|]. intros dir' nm' f Hf. destruct (decide ((dir, nm) = (dir', nm'))) as [[= <- <-]|Hne].
  - rewrite job_file_alter, Hf. exists (g f). split; [done|by apply Hg].
  - rewrite job_file_alter_ne by done. exists f. split; [done|apply grown_refl].
Qed.

Lemma line_in_grown rec f f' : line_in rec f -> grown f f' -> line_in rec f'.
Proof. intros (rs & Hp) [Hg _ _]. exists rs. by transitivity (content f). Qed.

Lemma line_safe_grown rec f f' : line_safe rec f -> grown f f' -> line_safe rec f'.
Proof. intros (rs & Hp & Hd) [Hg H1 H2]. exists rs. split; [by transitivity (content f)|]. specialize (H2 ltac:(lia)). lia. Qed.

Lemma recorded_grows (P : JournalRecord -> DFile -> Prop) d d' r v : (forall rec f f', P rec f -> grown f f' -> P rec f') ->
  grows d d' -> recorded P d r v -> recorded P d' r v.
Proof.
  intros HP Hg (dir & nm & f & rec & Hj & Hf & H1 & H2 & H3).
  destruct (gr_files _ _ Hg _ _ _ Hf) as (f' & Hf' & Hgf). exists dir, nm, f', rec. split_and!; try done. by eapply HP.
Qed.

Lemma covers_grows S s d d' : grows d d' -> covers S s d -> covers S s d'.
Proof.
  intros Hg HS r v Hv. destruct (HS r v Hv); [by left|right].
  eapply recorded_grows; [|done|done]. intros ? ? ?; apply line_safe_grown.
Qed.

Lemma pending_grows j j' d d' r v : grows d d' -> pending_at j d r v ->
  jj_suffix j' = jj_suffix j -> jj_open j ⊆ jj_open j' -> jj_dirty j' = true -> pending_at j' d' r v.
Proof.
  intros Hg (Hd & job & f & rec & Ho & Hf & H1 & H2 & H3) Hs Hsub Hd'.
  destruct (gr_files _ _ Hg _ _ _ Hf) as (f' & Hf' & Hgf). split; [done|]. exists job, f', rec.
  unfold journal_file in *. rewrite Hs. split_and!; try done; [by apply Hsub|by eapply line_in_grown].
Qed.

Lemma committed_grows o d d' : grows d d' -> committed o d -> committed o d'.
Proof. intros [Ht Ho _ _] [H1 H2 H3]. split; [by rewrite Ht|by rewrite Ho|done]. Qed.

Lemma legacy_grows d d' : grows d d' -> legacy_empty d -> legacy_empty d'.
Proof. intros [Ht _ _ _]. unfold legacy_empty. by rewrite Ht. Qed.

Lemma gone_grows P d d' : grows d d' -> gone_of P d -> gone_of P d'.
Proof. intros Hg. unfold gone_of. by rewrite (gr_gone _ _ Hg). Qed.

Lemma holds_grows S s q j d d' : holds S s q j d -> grows d d' -> files_of whole_journal d' -> holds S s q j d'.
Proof.
  intros [H1 H2 H3 H4 H5 H6 H7 H8 HG H9 H10] Hg Hf. split; try done.
  - by eapply committed_grows.
  - intros r v Hv. destruct (H5 r v Hv) as [H|[H|H]]; [by left|right; left|right; right].
    + eapply recorded_grows; [|done|done]. intros ? ? ?; apply line_safe_grown.
    + eapply pending_grows; [done|done..|]. apply H.
  - by eapply covers_grows.
  - by eapply gone_grows.
  - intros job Hj. destruct (H9 job Hj) as [Hu [f Hjf]]. split; [done|].
    destruct (gr_files _ _ Hg _ _ _ Hjf) as (f' & Hf' & _). by exists f'.
  - by eapply legacy_grows.
Qed.

Lemma safe_grows S s q j d d' : holds S s q j d -> grows d d' -> files_of journal_of d' -> safe S d'.
Proof.
  intros H Hg Hf. split; [|by eapply sf_within, holds_safe|done|by eapply gone_grows, ho_gone|by eapply legacy_grows, ho_legacy].
  exists s. split_and!; [by eapply holds_snap_ok|by eapply covers_grows, ho_synced|left; by eapply committed_grows, ho_snap].
Qed.

(** ** Opening a journal *)

Definition created (dir : str) (d : Disk) : Disk :=
  set_jobdirs (partial_alter (fun o => Some (default ∅ o)) dir (jobdirs d)) d.
Definition opened (dir nm : str) (d : Disk) : Disk :=
  set_jobdirs (alter (partial_alter (fun o => Some (default empty_file o)) nm) dir (jobdirs d)) d.

Lemma job_file_created dir d dir' nm : job_file (created dir d) dir' nm = job_file d dir' nm.
Proof.
  unfold job_file, created, set_jobdirs. cbn [jobdirs]. destruct (decide (dir = dir')) as [<-|Hne].
  - rewrite lookup_partial_alter_eq. by destruct (jobdirs d !! dir).
  - by rewrite lookup_partial_alter_ne.
Qed.

Lemma job_file_opened dir nm d dir' nm' : is_Some (jobdirs d !! dir) ->
  job_file (opened dir nm d) dir' nm' =
  if decide ((dir', nm') = (dir, nm)) then Some (default empty_file (job_file d dir nm)) else job_file d dir' nm'.
Proof.
  intros [fs Hfs]. unfold job_file, opened, set_jobdirs. cbn [jobdirs]. destruct (decide (dir' = dir)) as [->|Hd].
  - rewrite lookup_alter_eq, Hfs. simpl. destruct (decide (nm' = nm)) as [->|Hn].
    + rewrite decide_True by done. by rewrite lookup_partial_alter_eq.
    + rewrite decide_False by congruence. by rewrite lookup_partial_alter_ne.
  - rewrite decide_False by congruence. by rewrite lookup_alter_ne.
Qed.

Lemma grows_opened dir nm d : grows d (opened dir nm (created dir d)) /\
  job_file (opened dir nm (created dir d)) dir nm = Some (default empty_file (job_file d dir nm)) /\
  forall dir' nm', (dir', nm') <> (dir, nm) -> job_file (opened dir nm (created dir d)) dir' nm' = job_file d dir' nm'.
Proof.
  assert (Hs : is_Some (jobdirs (created dir d) !! dir)).
  { unfold created, set_jobdirs. cbn [jobdirs]. rewrite lookup_partial_alter_eq. by eexists. }
  split_and!.
  - split; [done..|]. intros dir' nm' f Hf. rewrite job_file_opened, !job_file_created by done.
    exists f. split; [|apply grown_refl]. case_decide as E; [|done]. injection E as -> ->. by rewrite Hf.
  - rewrite job_file_opened, job_file_created by done. by rewrite decide_True.
  - intros dir' nm' Hne. rewrite job_file_opened, !job_file_created by done. by rewrite decide_False.
Qed.

(** ** Appending *)

Lemma is_journal_file j : is_journal (journal_file j).
Proof. done. Qed.

Lemma holds_opened S s q j d job : holds S s q j d -> is_u32 job ->
  is_Some (job_file d (job_dir job) (journal_file j)) ->
  holds S s q (mkJournals (jj_suffix j) ({[job]} ∪ jj_open j) (jj_dirty j)) d.
Proof.
  intros [H1 H2 H3 H4 H5 H6 H7 H8 HG H9 H10] Hu Hs. split; try done.
  - intros r v Hv. destruct (H5 r v Hv) as [H|[H|H]]; [by left|right; by left|right; right].
    eapply pending_grows; [apply grows_refl|exact H|done|set_solver|apply H].
  - cbn [jj_open]. intros job' [->%elem_of_singleton|Hj]%elem_of_union; [done|by apply H9].
Qed.

Lemma whole_opened dir nm d : files_of whole_journal d -> files_of whole_journal (opened dir nm (created dir d)).
Proof.
  intros Hf dir' nm' f Hjf Hj. destruct (grows_opened dir nm d) as (_ & H1 & H2).
  destruct (decide ((dir', nm') = (dir, nm))) as [[= -> ->]|Hne]; [|rewrite H2 in Hjf by done; by eapply Hf].
  rewrite H1 in Hjf. injection Hjf as <-. destruct (job_file d dir nm) as [f|] eqn:E; [by eapply Hf|].
  split; [done|]. exists []. by split.
Qed.

Definition stops_safe (S : Ledger) (w : World) : Prop := safe S (disk w).

Lemma wp_file_for S s q j job w : calm (fates w) -> holds S s q j (disk w) -> is_u32 job ->
  wp (file_for j job) (fun p w' => snd p = Ok tt /\ calm (fates w') /\ holds S s q (fst p) (disk w') /\
    job ∈ jj_open (fst p)) no_error (stops_safe S) w.
Proof.
  intros Hc Hh Hu. unfold file_for. case_bool_decide as Hj; [by apply wp_ret|].
  apply wp_bind, wp_try, wp_bind. apply wp_prim; [done| |intros n fs; by eapply holds_safe].
  intros fs Hfs. cbn [disk]. change (set_jobdirs _ (disk w)) with (created (job_dir job) (disk w)).
  assert (Hh1 : holds S s q j (created (job_dir job) (disk w))).
  { eapply holds_grows; [exact Hh| |].
    - split; [done..|]. intros dir nm f Hf. rewrite job_file_created. exists f. split; [done|apply grown_refl].
    - intros dir nm f. rewrite job_file_created. apply (ho_files _ _ _ _ _ Hh). }
  apply wp_prim; [done| |intros n fs'; by eapply holds_safe].
  intros fs' Hfs'. cbn [disk]. change (set_jobdirs _ (created _ _)) with (opened (job_dir job) (journal_file j) (created (job_dir job) (disk w))).
  apply wp_ret. cbn [fst snd disk jj_open]. destruct (grows_opened (job_dir job) (journal_file j) (disk w)) as (Hg & Hf & _).
  split_and!; [done..| |set_solver]. apply holds_opened; [|done|by rewrite Hf; eexists].
  eapply holds_grows; [exact Hh|exact Hg|by apply whole_opened, (ho_files _ _ _ _ _ Hh)].
Qed.

Lemma journal_bytes_one rec : journal_bytes [rec] = journal_line rec.
Proof. unfold journal_bytes. simpl. by rewrite app_nil_r. Qed.

Lemma whole_extend f rec : whole_journal f -> known rec ->
  whole_journal (extend (journal_line rec) f) /\ line_in rec (extend (journal_line rec) f).
Proof.
  intros (Hd & rs & Hc & HL) Hr. assert (E : content f ++ journal_line rec = journal_bytes (rs ++ [rec])).
  { by rewrite journal_bytes_app, journal_bytes_one, Hc. }
  split.
  - split; [simpl; rewrite length_app; lia|]. exists (rs ++ [rec]). split; [done|]. apply Forall_app. split; [done|by constructor].
  - exists rs. simpl. by rewrite E.
Qed.

Lemma cut_extend f rec n : whole_journal f -> known rec ->
  journal_of (extend (take n (journal_line rec)) f).
Proof.
  intros (Hd & rs & Hc & HL) Hr. exists (rs ++ [rec]), (length (content f) + n)%nat. split.
  - simpl. by rewrite journal_bytes_app, journal_bytes_one, <- Hc, take_app_add.
  - apply Forall_app. split; [done|by constructor].
Qed.

Lemma files_of_alter (P : DFile -> Prop) g dir nm d : files_of P d -> (forall f, job_file d dir nm = Some f -> is_journal nm -> P (g f)) ->
  files_of P (alter_job_file g dir nm d).
Proof.
  intros Hf Hg dir' nm' f Hjf Hj. destruct (decide ((dir, nm) = (dir', nm'))) as [[= <- <-]|Hne].
  - rewrite job_file_alter in Hjf. destruct (job_file d dir nm) as [f0|] eqn:E; [|done]. injection Hjf as <-. by apply Hg.
  - rewrite job_file_alter_ne in Hjf by done. by eapply Hf.
Qed.

Lemma files_of_impl (P Q : DFile -> Prop) d : (forall f, P f -> Q f) -> files_of P d -> files_of Q d.
Proof. intros HPQ Hf dir nm f H Hj. by eapply HPQ, Hf. Qed.

(** A new part: the queue has it, the journal has its line. *)
Lemma holds_written S s q j d r off len crc fsize sg f : holds S s q j d ->
  seg_at q r = Some sg -> is_done (state sg) = false -> L r = Some (off, len, crc) ->
  sr_job r ∈ jj_open j -> job_file d (job_dir (sr_job r)) (journal_file j) = Some f ->
  holds S s (update_segment q r (set_seg_state (Done off len crc))) (mkJournals (jj_suffix j) (jj_open j) true)
    (alter_job_file (extend (journal_line (journal_record r off len crc fsize))) (job_dir (sr_job r)) (journal_file j) d).
Proof.
  intros Hh Hs Hd HL Hj Hf. set (rec := journal_record r off len crc fsize). set (d' := alter_job_file _ _ _ d).
  destruct (written_enter q r off len crc sg Hs Hd) as (W1 & W2 & _). set (q' := update_segment q r _) in *.
  assert (Hrec : known rec) by (intros _; by destruct r).
  assert (Hg : grows d d') by (apply grows_alter; intros; apply grown_extend).
  assert (Hfs : files_of whole_journal d').
  { apply files_of_alter; [apply (ho_files _ _ _ _ _ Hh)|]. intros f0 Hf0 Hj0. apply whole_extend; [|done]. by eapply ho_files. }
  assert (He : evolves q q').
  { split; [done|]. intros r' v Hv. rewrite W2. by apply after_written_keeps. }
  assert (H' := holds_grows S s q j d d' Hh Hg Hfs). destruct H' as [H1 H2 H3 H4 H5 H6 H7 H8 HG H9 H10].
  split; try done.
  - by etransitivity.
  - by rewrite W1.
  - intros r' v Hv. rewrite W2 in Hv. apply after_written_cases in Hv as [Hv|[-> ->]]; [by apply H4|done].
  - intros r' v Hv. rewrite W2 in Hv. apply after_written_cases in Hv as [Hv|[-> ->]].
    + destruct (H5 r' v Hv) as [H|[H|H]]; [by left|right; by left|right; right].
      by eapply pending_grows; [apply grows_refl|exact H|..].
    + right. right. split; [done|]. exists (sr_job r), (extend (journal_line rec) f), rec.
      split_and!; [done| |by destruct r|done|].
      * unfold d'. change (journal_file (mkJournals _ _ _)) with (journal_file j). by rewrite job_file_alter, Hf.
      * apply whole_extend; [|done]. by eapply (ho_files _ _ _ _ _ Hh).
  - intros r' v Hv. apply (ev_done _ _ He). by apply (ho_sub _ _ _ _ _ Hh).
Qed.

Lemma wp_append S s q j r off len crc fsize sg w : calm (fates w) -> holds S s q j (disk w) ->
  seg_at q r = Some sg -> is_done (state sg) = false -> L r = Some (off, len, crc) -> is_u32 (sr_job r) ->
  wp (append j (journal_record r off len crc fsize))
    (fun p w' => calm (fates w') /\
       holds S s (update_segment q r (set_seg_state (Done off len crc))) (fst p) (disk w'))
    no_error (stops_safe S) w.
Proof.
  intros Hc Hh Hs Hd HL Hu. unfold append. apply wp_bind. change (jr_job _) with (sr_job r).
  eapply wp_mono; [by apply wp_file_for| |done|done].
  intros [j1 res] w1 (Hres & Hc1 & Hh1 & Hj1). cbn [fst snd] in *. subst res.
  destruct (ho_open _ _ _ _ _ Hh1 _ Hj1) as [_ [f Hf]].
  apply wp_bind, wp_try, wp_prim; [done| |].
  - intros fs Hfs. apply wp_ret. cbn [fst disk fates]. split; [done|]. by eapply holds_written.
  - intros n fs. unfold stops_safe. cbn [disk]. eapply safe_grows; [exact Hh1| |].
    + apply grows_alter. intros; apply grown_extend.
    + apply files_of_alter; [eapply files_of_impl; [apply whole_journal_of|apply (ho_files _ _ _ _ _ Hh1)]|].
      intros f0 Hf0 Hj0. apply cut_extend; [by eapply (ho_files _ _ _ _ _ Hh1)|intros _; by destruct r].
Qed.

(** ** Syncing *)

Lemma whole_settle f : whole_journal f -> whole_journal (settle f).
Proof. intros (Hd & rs & Hc). split; [done|by exists rs]. Qed.

Lemma holds_settle S s q j d dir nm : holds S s q j d -> is_journal nm -> holds S s q j (alter_job_file settle dir nm d).
Proof.
  intros Hh Hj. eapply holds_grows; [exact Hh| |].
  - apply grows_alter. intros f Hf. apply grown_settle. by apply (ho_files _ _ _ _ _ Hh dir nm).
  - apply files_of_alter; [apply (ho_files _ _ _ _ _ Hh)|]. intros f Hf _. apply whole_settle. by eapply (ho_files _ _ _ _ _ Hh).
Qed.

Definition settled_at (j : JobJournals) (d : Disk) (job : JobId) : Prop :=
  exists f, job_file d (job_dir job) (journal_file j) = Some f /\ settle f = f.

Lemma settled_alter j d job job' : settled_at j d job ->
  settled_at j (alter_job_file settle (job_dir job') (journal_file j) d) job.
Proof.
  intros (f & Hf & Hs). destruct (decide (job_dir job' = job_dir job)) as [E|Hne].
  - rewrite E. exists (settle f). split; [|done]. by rewrite job_file_alter, Hf.
  - exists f. split; [|done]. rewrite job_file_alter_ne by congruence. done.
Qed.

Lemma wp_sync_each S s q j l : forall w, calm (fates w) -> holds S s q j (disk w) ->
  (forall job, job ∈ l -> job ∈ jj_open j) ->
  wp (sync_each (journal_file j) l)
    (fun _ w' => calm (fates w') /\ holds S s q j (disk w') /\
       forall job, job ∈ l \/ settled_at j (disk w) job -> settled_at j (disk w') job)
    no_error (stops_safe S) w.
Proof.
  induction l as [|job l IH]; intros w Hc Hh Hl; cbn [sync_each].
  { apply wp_ret. split_and!; [done..|]. by intros job [?%elem_of_nil|?]. }
  apply wp_bind, wp_prim; [done| |intros n fs; by eapply holds_safe].
  intros fs Hfs. set (w1 := {| disk := _; fates := fs |}).
  assert (Hh1 : holds S s q j (disk w1)) by (by apply holds_settle).
  eapply wp_mono; [apply (IH w1 Hfs Hh1)| |done|done].
  - intros job' Hj'. apply Hl. by right.
  - intros _ w2 (Hc2 & Hh2 & Hs2). split_and!; [done..|].
    intros job' [[->|Hin]%elem_of_cons|Hset]; [|apply Hs2; by left|apply Hs2; right; by apply settled_alter].
    apply Hs2. right. destruct (ho_open _ _ _ _ _ Hh job ltac:(by apply Hl; left)) as [_ [f Hf]].
    exists (settle f). split; [|done]. simpl. by rewrite job_file_alter, Hf.
Qed.

(** Once clean, everything that is done would survive. *)
Lemma holds_clean S s q j d : holds S s q j d ->
  (forall r v, pending_at j d r v -> recorded line_safe d r v) -> holds (done_at q) s q j d.
Proof.
  intros [H1 H2 H3 H4 H5 H6 H7 H8 HG H9 H10] Hp. split; try done.
  intros r v Hv. destruct (H5 r v Hv) as [H|[H|H]]; [by left|by right|right; by apply Hp].
Qed.

Lemma holds_undirty S s q j d : holds S s q j d -> (forall r v, pending_at j d r v -> recorded line_safe d r v) ->
  holds S s q (mkJournals (jj_suffix j) (jj_open j) false) d.
Proof.
  intros [H1 H2 H3 H4 H5 H6 H7 H8 HG H9 H10] Hp. split; try done.
  intros r v Hv. destruct (H5 r v Hv) as [H|[H|H]]; [by left|right; by left|right; left; by apply Hp].
Qed.

Lemma holds_weaken S S' s q j d : holds S' s q j d -> (forall r v, S r = Some v -> S' r = Some v) -> holds S s q j d.
Proof. intros [H1 H2 H3 H4 H5 H6 H7 H8 HG H9 H10] Hs. split; try done; intros r v Hv; [apply H6|apply H7]; by apply Hs. Qed.

(** After a sync, whatever is done is durable. *)
Lemma wp_sync S s q j w : calm (fates w) -> holds S s q j (disk w) ->
  wp (sync j) (fun p w' => calm (fates w') /\ holds (done_at q) s q (fst p) (disk w')) no_error (stops_safe S) w.
Proof.
  intros Hc Hh. unfold sync. destruct (jj_dirty j) eqn:Hd.
  - apply wp_bind, wp_try. eapply wp_mono; [apply (wp_sync_each S s q j _ w Hc Hh)| |done|done].
    + intros job. by rewrite elem_of_elements.
    + intros _ w1 (Hc1 & Hh1 & Hs). apply wp_ret. cbn [fst].
      assert (Hp : forall r v, pending_at j (disk w1) r v -> recorded line_safe (disk w1) r v).
      { intros r v (_ & job & f & rec & Hj & Hf & H1 & H2 & H3).
        destruct (Hs job ltac:(left; by rewrite elem_of_elements)) as (f' & Hf' & Hset).
        rewrite Hf in Hf'. injection Hf' as <-. exists (job_dir job), (journal_file j), f, rec.
        split_and!; try done. rewrite <- Hset. by apply line_in_settle. }
      split; [done|]. apply holds_undirty in Hh1; [|done]. eapply holds_clean; [exact Hh1|]. by intros ? ? [? _].
  - apply wp_ret. cbn [fst]. split; [done|]. eapply holds_clean; [exact Hh|]. intros r v [Hdd _]. by rewrite Hd in Hdd.
Qed.

(** ** Saving *)

(** Only the snapshot and its temporary file may differ. *)
Record elsewhere (d d' : Disk) : Prop := {
  el_jobs : jobdirs d' = jobdirs d;
  el_gone : jobs_old d' = jobs_old d;
  el_top : forall nm, nm <> QUEUE_JSON -> nm <> QUEUE_TMP -> top d' !! nm = top d !! nm
}.

Lemma elsewhere_tmp d g : elsewhere d (set_top (partial_alter g QUEUE_TMP (top d)) d).
Proof. split; [done..|]. intros nm _ Hn. simpl. by rewrite lookup_partial_alter_ne. Qed.

Lemma elsewhere_trans d1 d2 d3 : elsewhere d1 d2 -> elsewhere d2 d3 -> elsewhere d1 d3.
Proof. intros [A1 A3 A2] [B1 B3 B2]. split; [congruence..|]. intros nm H1 H2. by rewrite B2, A2. Qed.

(** A save under calm fates: the crash, the guard or the new snapshot. *)
Lemma wp_save_calm doc guard o w : calm (fates w) -> committed o (disk w) ->
  wp (save_guarded doc guard)
    (fun _ w' => calm (fates w') /\ elsewhere (disk w) (disk w') /\ committed (Some (doc_file doc)) (disk w'))
    (fun _ w' => calm (fates w') /\ elsewhere (disk w) (disk w') /\ committed o (disk w'))
    (fun w' => elsewhere (disk w) (disk w') /\ (committed o (disk w') \/ renamed o doc (disk w'))) w.
Proof.
  intros Hc Hco. assert (E0 : elsewhere (disk w) (disk w)) by done. unfold save_guarded.
  destruct (schema_version doc =? _); [|by apply wp_fail]. cbn [negb].
  apply wp_bind, wp_prim; [done| |intros; by split; [|left]].
  intros fs1 F1. cbn [disk fates]. set (d1 := set_top _ (disk w)).
  assert (E1 : elsewhere (disk w) d1) by apply (elsewhere_tmp (disk w) (fun _ => Some empty_file)).
  assert (C1 : committed o d1) by (apply committed_top; [done|]; by rewrite lookup_insert_ne).
  apply wp_bind, wp_prim; [done| |].
  2: { intros n fs. cbn [disk]. split; [|left; by apply committed_alter].
       eapply elsewhere_trans; [exact E1|apply (elsewhere_tmp d1 (fmap _))]. }
  intros fs2 F2. cbn [disk fates]. set (d2 := set_top _ d1).
  assert (E2 : elsewhere (disk w) d2) by (eapply elsewhere_trans; [exact E1|apply (elsewhere_tmp d1 (fmap _))]).
  assert (C2 : committed o d2) by (by apply committed_alter).
  apply wp_bind, wp_prim; [done| |intros; by split; [|left]].
  intros fs3 F3. cbn [disk fates]. set (d3 := set_top _ d2).
  assert (E3 : elsewhere (disk w) d3) by (eapply elsewhere_trans; [exact E2|apply (elsewhere_tmp d2 (fmap _))]).
  assert (C3 : committed o d3) by (by apply committed_alter).
  assert (T3 : top d3 !! QUEUE_TMP = Some (doc_file doc)).
  { unfold d3, d2, d1, set_top. cbn [top]. by rewrite !lookup_alter_eq, lookup_insert_eq. }
  destruct guard; cbn [negb]; [|by apply wp_fail].
  apply wp_bind, wp_prim; [done| |intros; by split; [|left]].
  intros fs4 F4. cbn [disk fates]. rewrite T3. set (d4 := mkDisk _ _ _ _).
  assert (E4 : elsewhere (disk w) d4).
  { eapply elsewhere_trans; [exact E3|]. split; [done..|]. intros nm H1 H2. unfold d4. cbn [top].
    by rewrite lookup_insert_ne, lookup_delete_ne. }
  assert (R4 : renamed o doc d4).
  { destruct C3 as [H1 H2 H3]. split; unfold d4; cbn [top json_old]; [by rewrite lookup_insert_eq|by rewrite H1, H2|done]. }
  apply wp_bind, wp_prim; [done| |intros; by split; [|right]].
  intros fs5 F5. apply wp_ret. cbn [disk fates]. split; [done|]. split; [by destruct E4|].
  destruct R4 as [R1 R2 R3]. split; [done|done|]. by intros f [= <-].
Qed.

Lemma recorded_jobs P d d' r v : jobdirs d' = jobdirs d -> recorded P d r v -> recorded P d' r v.
Proof. intros Hj (dir & nm & f & rec & H1 & H2 & H3). exists dir, nm, f, rec. unfold job_file in *. by rewrite Hj. Qed.

Lemma files_jobs P d d' : jobdirs d' = jobdirs d -> files_of P d -> files_of P d'.
Proof. intros Hj H dir nm f Hf. unfold job_file in Hf. rewrite Hj in Hf. by apply (H dir nm f). Qed.

Lemma covers_jobs S s d d' : jobdirs d' = jobdirs d -> covers S s d -> covers S s d'.
Proof. intros Hj H r v Hv. destruct (H r v Hv); [by left|right]. by eapply recorded_jobs. Qed.

Lemma pending_jobs j d d' r v : jobdirs d' = jobdirs d -> pending_at j d r v -> pending_at j d' r v.
Proof. intros Hj (Hd & job & f & rec & H1 & H2). split; [done|]. exists job, f, rec. unfold job_file in *. by rewrite Hj. Qed.

Lemma gone_elsewhere P d d' : elsewhere d d' -> gone_of P d -> gone_of P d'.
Proof. intros He. unfold gone_of. by rewrite (el_gone _ _ He). Qed.

Lemma legacy_elsewhere d d' : elsewhere d d' -> legacy_empty d -> legacy_empty d'.
Proof. intros [_ _ Ht] Hl f Hf. apply Hl. by rewrite <- (Ht LEGACY). Qed.

Lemma holds_elsewhere S s q j d d' : holds S s q j d -> elsewhere d d' -> committed (Some (doc_file (to_doc s))) d' -> holds S s q j d'.
Proof.
  intros [H1 H2 H3 H4 H5 H6 H7 H8 HG H9 H10] He Hc. pose proof (el_jobs _ _ He) as Hj. split; try done.
  - intros r v Hv. destruct (H5 r v Hv) as [H|[H|H]]; [by left|right; left; by eapply recorded_jobs|right; right; by eapply pending_jobs].
  - by eapply covers_jobs.
  - by eapply files_jobs.
  - by eapply gone_elsewhere.
  - intros job Hjo. unfold job_file in *. rewrite Hj. by apply H9.
  - by eapply legacy_elsewhere.
Qed.

(** The queue itself is the snapshot. *)
Lemma holds_saved S s q j d d' : holds S s q j d -> elsewhere d d' -> committed (Some (doc_file (to_doc q))) d' -> holds S q q j d'.
Proof.
  intros [H1 H2 H3 H4 H5 H6 H7 H8 HG H9 H10] He Hc. pose proof (el_jobs _ _ He) as Hj. split; try done.
  - by left.
  - intros r v Hv. left. by apply H7.
  - by eapply files_jobs.
  - by eapply gone_elsewhere.
  - intros job Hjo. unfold job_file in *. rewrite Hj. by apply H9.
  - by eapply legacy_elsewhere.
Qed.

Lemma safe_renamed S s q j d d' : holds S s q j d -> elsewhere d d' ->
  renamed (Some (doc_file (to_doc s))) (to_doc q) d' -> safe S d'.
Proof.
  intros Hh He Hr. pose proof (el_jobs _ _ He) as Hj. split.
  - exists q. split_and!.
    + split; [apply (ho_shape _ _ _ _ _ Hh)|apply (ho_within _ _ _ _ _ Hh)].
    + intros r v Hv. left. by apply (ho_sub _ _ _ _ _ Hh).
    + right. exists s. split_and!; [by eapply holds_snap_ok| |done].
      eapply covers_jobs; [exact Hj|apply (ho_synced _ _ _ _ _ Hh)].
  - by eapply sf_within, holds_safe.
  - eapply files_jobs; [exact Hj|]. eapply files_of_impl; [apply whole_journal_of|apply (ho_files _ _ _ _ _ Hh)].
  - eapply gone_elsewhere; [exact He|apply (ho_gone _ _ _ _ _ Hh)].
  - eapply legacy_elsewhere; [exact He|apply (ho_legacy _ _ _ _ _ Hh)].
Qed.

(** ** Compacting *)

Lemma job_dir_inj a b : is_u32 a -> is_u32 b -> job_dir a = job_dir b -> a = b.
Proof.
  intros Ha Hb E. apply (inj Some). rewrite <- (parse_show_dec u32_max a), <- (parse_show_dec u32_max b) by done.
  unfold job_dir in E. by rewrite E.
Qed.

Definition without (dir : str) (d : Disk) : Disk := removing dir (delete dir (jobdirs d)) d.

Lemma job_file_without dir d dir' nm :
  job_file (without dir d) dir' nm = if decide (dir' = dir) then None else job_file d dir' nm.
Proof.
  unfold job_file, without, removing. cbn [jobdirs]. case_decide as E; [subst; by rewrite lookup_delete_eq|].
  by rewrite lookup_delete_ne.
Qed.

(** Once the queue is the snapshot, journals may go. *)
Lemma holds_fewer S q j j' d d' : holds S q q j d -> top d' = top d -> json_old d' = json_old d ->
  gone_of journal_of d' ->
  (forall dir nm f, job_file d' dir nm = Some f -> job_file d dir nm = Some f) ->
  jj_suffix j' = jj_suffix j ->
  (forall job, job ∈ jj_open j' -> job ∈ jj_open j /\ forall nm, job_file d' (job_dir job) nm = job_file d (job_dir job) nm) ->
  holds S q q j' d'.
Proof.
  intros [H1 H2 H3 H4 H5 H6 H7 H8 HG H9 H10] Ht Ho Hg Hf Hs Hj. split; try done.
  - destruct H1 as [C1 C2 C3]. split; [by rewrite Ht|by rewrite Ho|done].
  - by left.
  - intros r v Hv. left. by apply H7.
  - intros dir nm f Hjf. by apply (H8 dir nm f), Hf.
  - intros job Hjo. destruct (Hj job Hjo) as [Hin Hsame]. unfold journal_file. rewrite Hs, Hsame. by apply H9.
  - unfold legacy_empty. by rewrite Ht.
Qed.

Lemma gone_removing S s q j d dir jd : holds S s q j d -> gone_of journal_of (removing dir jd d).
Proof.
  intros Hh dir' nm f Hin Hj. cbn [removing jobs_old] in Hin. apply elem_of_app in Hin as [Hin|Hin]; [|by eapply ho_gone].
  unfold entries_of in Hin. destruct (jobdirs d !! dir) as [fs|] eqn:E; [|by apply elem_of_nil in Hin].
  apply list_elem_of_fmap in Hin as ([nm' f'] & [= -> -> ->] & Hin). apply elem_of_map_to_list in Hin.
  eapply whole_journal_of, (ho_files _ _ _ _ _ Hh dir nm' f'); [|done]. unfold job_file. by rewrite E.
Qed.

Lemma remove_some_sub (n : nat) (fs : gmap str DFile) nm f : remove_some n fs !! nm = Some f -> fs !! nm = Some f.
Proof.
  unfold remove_some. generalize (take n (map fst (map_to_list fs))). intros l.
  induction l as [|k l IH]; [done|]. simpl. intros H. apply lookup_delete_Some in H as [_ H]. by apply IH.
Qed.

Lemma wp_remove_job S q j id w : calm (fates w) -> is_u32 id -> holds S q q j (disk w) ->
  wp (remove_job j id) (fun p w' => calm (fates w') /\ holds S q q (fst p) (disk w')) no_error (stops_safe S) w.
Proof.
  intros Hc Hu Hh. unfold remove_job. set (j' := mkJournals _ _ _).
  assert (Hopen : forall job, job ∈ jj_open j' -> job ∈ jj_open j /\ job_dir job <> job_dir id).
  { intros job Hj. cbn in Hj. apply elem_of_difference in Hj as [Hj Hn]. split; [done|]. intros E.
    apply Hn, elem_of_singleton. apply job_dir_inj; [by apply (ho_open _ _ _ _ _ Hh)|done..]. }
  apply wp_bind, wp_try, wp_prim; [done| |].
  - intros fs Hfs. destruct (jobdirs (disk w) !! job_dir id) as [fd|] eqn:Hd.
    + apply wp_ret. cbn [fst disk fates]. split; [done|]. change (removing _ _ (disk w)) with (without (job_dir id) (disk w)).
      eapply holds_fewer; [exact Hh|done|done|by eapply gone_removing| |done|].
      * intros dir nm f. rewrite job_file_without. by case_decide.
      * intros job Hj. destruct (Hopen job Hj) as [Hin Hne]. split; [done|]. intros nm.
        rewrite job_file_without. by rewrite decide_False.
    + apply wp_ret. cbn [fst disk fates]. split; [done|]. eapply holds_fewer; [exact Hh|done|done|apply (ho_gone _ _ _ _ _ Hh)|done..|].
      intros job Hj. by destruct (Hopen job Hj).
  - intros n fs. unfold stops_safe. cbn [disk]. eapply holds_safe.
    eapply (holds_fewer S q j (mkJournals (jj_suffix j) ∅ (jj_dirty j))); [exact Hh|done|done|by eapply gone_removing| |done|].
    + intros dir nm f. unfold job_file, removing. cbn [jobdirs]. destruct (decide (dir = job_dir id)) as [->|Hne].
      * rewrite lookup_alter_eq. destruct (jobdirs (disk w) !! job_dir id) as [fd|]; [|done]. simpl. apply remove_some_sub.
      * by rewrite lookup_alter_ne.
    + intros job Hj. by apply elem_of_empty in Hj.
Qed.

Lemma wp_compact S q dirs : forall o w, calm (fates w) -> o_state o = q -> holds S q q (o_journal o) (disk w) ->
  wp (compact_dirs dirs o) (fun o' w' => o_state o' = q /\ calm (fates w') /\ holds S q q (o_journal o') (disk w'))
    no_error (stops_safe S) w.
Proof.
  induction dirs as [|dir dirs IH]; intros o w Hc Ho Hh; cbn [compact_dirs]; [by apply wp_ret|].
  destruct (parse_uint 10 u32_max dir) as [id|] eqn:Hp; [|by apply IH].
  apply parse_uint_bounds in Hp as Hu; [|done..]. case_if; [by apply IH|].
  apply wp_bind. eapply wp_mono; [apply (wp_remove_job S q (o_journal o) id w Hc Hu Hh)| |done|done].
  intros [j' r] w1 [Hc1 Hh1]. cbn [fst] in Hh1. by apply IH.
Qed.

(** ** The invariant of the run *)

Definition alive (S : Ledger) (q : QueueState) (j : JobJournals) (w : World) : Prop :=
  calm (fates w) /\ exists s, holds S s q j (disk w).

Lemma wp_save S env o w : inv (alive S) o w ->
  wp (save_snapshot env o) (fun p w' => o_state (fst p) = o_state o /\ inv (alive S) (fst p) w') no_error (stops_safe S) w.
Proof.
  intros [Hc [s Hh]]. unfold save_snapshot, save_snapshot_result. apply wp_bind.
  destruct (o_persist o); cbn [negb]; [|by apply wp_ret, wp_ret; split; [|split; [|exists s]]].
  apply wp_bind, wp_try. eapply wp_mono; [apply (wp_save_calm _ _ _ w Hc (ho_snap _ _ _ _ _ Hh))| | |].
  - intros n w1 (Hc1 & He & Hco). pose proof (holds_saved _ _ _ _ _ _ Hh He Hco) as Hh1.
    apply wp_bind, wp_try, wp_prim; [done| |intros k fs; by eapply holds_safe].
    intros fs Hfs. cbn [disk]. apply wp_bind. eapply wp_mono; [by apply (wp_compact S (o_state o) _ o)| |done|done].
    intros o' w2 (Ho & Hc2 & Hh2). apply wp_ret, wp_ret. cbn. split; [done|]. split; [done|].
    exists (o_state o). cbn. by rewrite Ho.
  - intros e w1 (Hc1 & He & Hco). apply wp_ret, wp_ret. cbn. split; [by destruct e|]. split; [done|].
    exists s. pose proof (holds_elsewhere _ _ _ _ _ _ Hh He Hco) as Hh1. by destruct e.
  - intros w1 (He & [Hco|Hre]).
    + eapply holds_safe, holds_elsewhere; [exact Hh|exact He|exact Hco].
    + by eapply safe_renamed.
Qed.

Lemma alive_done S q q' j w : alive S q j w -> same_done q q' -> alive S q' j w.
Proof.
  intros [Hc [s [H1 H2 H3 H4 H5 H6 H7 H8 HG H9 H10]]] [Q1 Q2]. split; [done|]. exists s. split; try done.
  - etransitivity; [exact H2|]. split; [done|]. intros r v. by rewrite Q2.
  - congruence.
  - intros r v. rewrite Q2. apply H4.
  - intros r v. rewrite Q2. apply H5.
  - intros r v. rewrite Q2. apply H7.
Qed.

Lemma alive_safe S q j w : alive S q j w -> stops_safe S w.
Proof. intros [_ [s H]]. by eapply holds_safe. Qed.

Lemma wp_sync_alive S q j w : alive S q j w -> wp (sync j) (fun p w' => alive S q (fst p) w') no_error (stops_safe S) w.
Proof.
  intros [Hc [s H]]. eapply wp_mono; [by apply (wp_sync S s q j w)| |done|done].
  intros [j' r] w' [Hc' H']. split; [done|]. exists s. eapply holds_weaken; [exact H'|]. apply (ho_sub _ _ _ _ _ H).
Qed.

Hypothesis ids_ok : Forall (fun js => is_u32 (fst js)) (shape q0).

Lemma seg_at_u32 q r s : shape q = shape q0 -> seg_at q r = Some s -> is_u32 (sr_job r).
Proof.
  intros Hq Hs. unfold seg_at, find_file in Hs. destruct (find_job q (sr_job r)) as [j|] eqn:Hj; [|done].
  apply find_job_elem in Hj as [Hj <-]. rewrite <- Hq in ids_ok. rewrite Forall_forall in ids_ok.
  apply (ids_ok (job_shape j)). by apply list_elem_of_fmap_2.
Qed.

(** The ledger that the messages [ms] lead to is [L]. *)
Definition heads_to (ms : list TransferStep) (q : QueueState) : Prop :=
  forall r, fold_left (ledger_step (segment_exists q)) ms (done_at q) r = L r.

Lemma transfer_step_alive S env o m ms w : unique_refs (o_state o) -> inv (alive S) o w -> heads_to (m :: ms) (o_state o) ->
  leads (alive S) (stops_safe S) (handles m) o (transfer_step env o m) w.
Proof.
  intros Hu Hi HL. apply transfer_step_handles; [apply alive_done|apply wp_save|done|done| |].
  - intros _ q j w' Ha. by eapply alive_safe.
  - destruct m as [|r off len crc fsize server| | | | | |]; try done. intros s j w' Hs Hd [Hc [sn Hh]].
    assert (HLr : L r = Some (off, len, crc)).
    { rewrite <- HL. simpl. apply ledger_keeps. cbn. unfold segment_exists. rewrite Hs.
      rewrite !bool_decide_eq_true_2; [done|by unfold done_at; rewrite Hs; simpl; unfold done_value; destruct (state s)|by eexists|done]. }
    eapply wp_mono; [apply (wp_append S sn _ j r off len crc fsize s w' Hc Hh Hs Hd HLr)| |done|done].
    + eapply seg_at_u32; [apply (ho_shape _ _ _ _ _ Hh)|exact Hs].
    + intros p w1 [Hc1 Hh1]. split; [done|by exists sn].
Qed.

End Crash.
