(* ===== verification/Control.v ===== *)
(** * The replicated control store ([crates/nzbd-cluster/src/control.rs])

    The tables, the SQL statements with their triggers, and the client methods
    of [ControlStore].  The replicated database executes statements one at a
    time, in one order ([exec], [exec_txn], rolled back when a constraint or a
    trigger refuses); a client method is a sequence of such statements, between
    which other clients' statements run and after which a reply may be lost
    ([Net]).  Text that the code serializes as JSON is kept as the value. *)

From S2P Require Import Prelude RustStr Types Queue.

(** ** Tables *)

Record LeaseRow := mkLeaseRow {
  wl_cluster_id : str;
  wl_job_id : Z;
  wl_job_incarnation : str;
  wl_owner_node_id : str;
  wl_owner_incarnation : str;
  wl_kind : str;
  wl_scope_json : str;
  wl_fence : Z;
  wl_revision : Z;
  wl_job_revision : Z;
  wl_expires_at_ms : Z;
  wl_terminal : bool;
  wl_updated_at_ms : Z
}.

Record ControlJobRow := mkJobRow {
  cj_incarnation : str;
  cj_revision : Z;
  cj_intent : str;
  cj_result_ref : option str;
  cj_result_id : option str;
  cj_deleted : bool;
  cj_updated_at_ms : Z
}.

(** The JSON envelope of a command receipt. *)
Record Envelope := mkEnvelope {
  env_command : str;
  env_next_intent : str;
  env_deleted : bool
}.

Record CommandRow := mkCommandRow {
  cr_job_id : Z;
  cr_expected_revision : Z;
  cr_applied_revision : Z;
  cr_command : Envelope;
  cr_applied_at_ms : Z
}.

Record LeaseToken := mkToken {
  t_resource : str;
  t_owner_node_id : str;
  t_owner_incarnation : str;
  t_fence : Z;
  t_revision : Z;
  t_expires_at_unix_ms : Z
}.

Record PublicationRow := mkPublicationRow {
  pb_token : LeaseToken;
  pb_expected_job_revision : Z;
  pb_result_id : str;
  pb_result_ref : str;
  pb_result_job : str;
  pb_accepted_at_ms : Z
}.

Record RangeRow := mkRangeRow {
  rg_job_id : Z;
  rg_scope_json : str;
  rg_result_id : str;
  rg_result_ref : str;
  rg_accepted_at_ms : Z
}.

Inductive ScriptState := Started | ScriptDone.

Record ScriptRow := mkScriptRow {
  sc_resource : str;
  sc_job_id : Z;
  sc_state : ScriptState;
  sc_started_at_ms : Z;
  sc_finished_at_ms : option Z
}.

Record BudgetRow := mkBudgetRow { bs_revision : Z; bs_state_json : str; bs_updated_at_ms : Z }.

Record Control := mkControl {
  work_leases : gmap str LeaseRow;
  control_jobs : gmap Z ControlJobRow;
  command_receipts : gmap str CommandRow;
  publication_receipts : gmap str PublicationRow;
  range_results : gmap str RangeRow;
  script_receipts : gmap str ScriptRow;
  provider_budget_state : gmap str BudgetRow;
  control_counters : gmap str Z;
  cluster_meta : gmap str (str * Z)
}.

Definition empty_control : Control := mkControl ∅ ∅ ∅ ∅ ∅ ∅ ∅ ∅ ∅.

Definition set_leases (m : gmap str LeaseRow) (c : Control) : Control :=
  mkControl m (control_jobs c) (command_receipts c) (publication_receipts c) (range_results c)
    (script_receipts c) (provider_budget_state c) (control_counters c) (cluster_meta c).
Definition set_jobs (m : gmap Z ControlJobRow) (c : Control) : Control :=
  mkControl (work_leases c) m (command_receipts c) (publication_receipts c) (range_results c)
    (script_receipts c) (provider_budget_state c) (control_counters c) (cluster_meta c).
Definition set_commands (m : gmap str CommandRow) (c : Control) : Control :=
  mkControl (work_leases c) (control_jobs c) m (publication_receipts c) (range_results c)
    (script_receipts c) (provider_budget_state c) (control_counters c) (cluster_meta c).
Definition set_publications (m : gmap str PublicationRow) (c : Control) : Control :=
  mkControl (work_leases c) (control_jobs c) (command_receipts c) m (range_results c)
    (script_receipts c) (provider_budget_state c) (control_counters c) (cluster_meta c).
Definition set_ranges (m : gmap str RangeRow) (c : Control) : Control :=
  mkControl (work_leases c) (control_jobs c) (command_receipts c) (publication_receipts c) m
    (script_receipts c) (provider_budget_state c) (control_counters c) (cluster_meta c).
Definition set_scripts (m : gmap str ScriptRow) (c : Control) : Control :=
  mkControl (work_leases c) (control_jobs c) (command_receipts c) (publication_receipts c) (range_results c)
    m (provider_budget_state c) (control_counters c) (cluster_meta c).
Definition set_budgets (m : gmap str BudgetRow) (c : Control) : Control :=
  mkControl (work_leases c) (control_jobs c) (command_receipts c) (publication_receipts c) (range_results c)
    (script_receipts c) m (control_counters c) (cluster_meta c).
Definition set_counters (m : gmap str Z) (c : Control) : Control :=
  mkControl (work_leases c) (control_jobs c) (command_receipts c) (publication_receipts c) (range_results c)
    (script_receipts c) (provider_budget_state c) m (cluster_meta c).
Definition set_meta (m : gmap str (str * Z)) (c : Control) : Control :=
  mkControl (work_leases c) (control_jobs c) (command_receipts c) (publication_receipts c) (range_results c)
    (script_receipts c) (provider_budget_state c) (control_counters c) m.

(** ** Statements *)

Record LeaseArgs := mkLeaseArgs {
  la_resource : str;
  la_cluster_id : str;
  la_job_id : Z;
  la_job_incarnation : str;
  la_owner_node_id : str;
  la_owner_incarnation : str;
  la_kind : str;
  la_scope_json : str;
  la_job_revision : Z
}.

Inductive Stmt :=
| InsertLease (a : LeaseArgs) (expiry now : Z)
| RenewLease (t : LeaseToken) (expiry now : Z)
| ReleaseLease (t : LeaseToken) (now : Z)
| SeedJob (job : Z) (incarnation intent : str) (now : Z)
| InsertJob (job : Z) (incarnation intent : str) (now : Z)
| InsertCommand (id : str) (row : CommandRow)
| InsertPublication (id : str) (row : PublicationRow)
| BeginScript (id : str) (t : LeaseToken) (now : Z)
| FinishScript (id : str) (t : LeaseToken) (now : Z)
| SaveBudget (cluster : str) (revision : Z) (state : str) (now : Z)
| InsertCounter (nm : str) (value : Z)
| InsertMeta (cluster fingerprint : str) (now : Z).

(** Rows changed, and the row a RETURNING clause gives. *)
Record Reply := mkReply { changed : Z; returning : option LeaseToken; after : Control }.

Definition unchanged (c : Control) : Reply := mkReply 0 None c.

Definition token_of (resource : str) (l : LeaseRow) : LeaseToken :=
  mkToken resource (wl_owner_node_id l) (wl_owner_incarnation l) (wl_fence l) (wl_revision l)
    (wl_expires_at_ms l).

(** The columns a token names are those of the row. *)
#[export] Instance token_eq_dec : EqDecision LeaseToken.
Proof. solve_decision. Defined.

Definition names (t : LeaseToken) (l : LeaseRow) : bool := bool_decide (token_of (t_resource t) l = t).

(** [owner..., terminal=0 AND expires_at_ms > now]. *)
Definition live (t : LeaseToken) (now : Z) (l : LeaseRow) : bool :=
  names t l && negb (wl_terminal l) && (now <? wl_expires_at_ms l).

Definition i64_max : Z := 9223372036854775807.

(** [revision + 1]: SQLite's addition overflows into a REAL, which the STRICT
    table refuses. *)
Definition next_revision (r : Z) : result Z str :=
  if r <? i64_max then Ok (r + 1) else Err (lit "cannot store REAL value in INTEGER column").

Definition fresh_lease (a : LeaseArgs) (expiry now : Z) : LeaseRow :=
  mkLeaseRow (la_cluster_id a) (la_job_id a) (la_job_incarnation a) (la_owner_node_id a)
    (la_owner_incarnation a) (la_kind a) (la_scope_json a) 1 1 (la_job_revision a) expiry false now.

Definition taken_lease (a : LeaseArgs) (expiry now : Z) (l : LeaseRow) : LeaseRow :=
  mkLeaseRow (la_cluster_id a) (la_job_id a) (la_job_incarnation a) (la_owner_node_id a)
    (la_owner_incarnation a) (la_kind a) (la_scope_json a) (wl_fence l + 1) (wl_revision l + 1)
    (la_job_revision a) expiry false now.

Definition put_lease (resource : str) (l : LeaseRow) (c : Control) : Reply :=
  mkReply 1 (Some (token_of resource l)) (set_leases (<[resource := l]> (work_leases c)) c).

Definition with_expiry (expiry revision now : Z) (terminal : bool) (l : LeaseRow) : LeaseRow :=
  mkLeaseRow (wl_cluster_id l) (wl_job_id l) (wl_job_incarnation l) (wl_owner_node_id l)
    (wl_owner_incarnation l) (wl_kind l) (wl_scope_json l) (wl_fence l) revision
    (wl_job_revision l) expiry terminal now.

(** [acquire]'s INSERT ... ON CONFLICT DO UPDATE ... WHERE. *)
Definition exec_acquire (a : LeaseArgs) (expiry now : Z) (c : Control) : result Reply str :=
  if la_job_revision a <=? 0 then Err (lit "CHECK constraint failed: job_revision > 0")
  else
  match work_leases c !! la_resource a with
  | None => Ok (put_lease (la_resource a) (fresh_lease a expiry now) c)
  | Some l =>
      if (wl_expires_at_ms l <=? now) && (wl_fence l <? i64_max) && (wl_revision l <? i64_max)
      then Ok (put_lease (la_resource a) (taken_lease a expiry now l) c)
      else Ok (unchanged c)
  end.

Definition exec_renew (t : LeaseToken) (expiry now : Z) (c : Control) : result Reply str :=
  match work_leases c !! t_resource t with
  | Some l =>
      if live t now l then
        let? r := next_revision (wl_revision l) in
        Ok (put_lease (t_resource t) (with_expiry expiry r now (wl_terminal l) l) c)
      else Ok (unchanged c)
  | None => Ok (unchanged c)
  end.

Definition exec_release (t : LeaseToken) (now : Z) (c : Control) : result Reply str :=
  match work_leases c !! t_resource t with
  | Some l =>
      if names t l && negb (wl_terminal l) then
        let? r := next_revision (wl_revision l) in
        Ok (mkReply 1 None (after (put_lease (t_resource t) (with_expiry now r now true l) c)))
      else Ok (unchanged c)
  | None => Ok (unchanged c)
  end.

Definition new_job (incarnation intent : str) (now : Z) : ControlJobRow :=
  mkJobRow incarnation 1 intent None None false now.

Definition put_job (job : Z) (j : ControlJobRow) (c : Control) : Control :=
  set_jobs (<[job := j]> (control_jobs c)) c.

(** [command_validate], the receipt, [command_apply]. *)
Definition exec_command (id : str) (row : CommandRow) (c : Control) : result Reply str :=
  match control_jobs c !! cr_job_id row with
  | Some j =>
      if negb (cj_revision j =? cr_expected_revision row) then Err (lit "stale job revision")
      else if bool_decide (is_Some (command_receipts c !! id))
      then Err (lit "UNIQUE constraint failed: command_receipts.command_id")
      else if cr_applied_revision row <=? 0 then Err (lit "CHECK constraint failed: revision > 0")
      else
        let j' := mkJobRow (cj_incarnation j) (cr_applied_revision row) (env_next_intent (cr_command row))
                    (cj_result_ref j) (cj_result_id j) (env_deleted (cr_command row)) (cr_applied_at_ms row) in
        let c := set_commands (<[id := row]> (command_receipts c)) c in
        Ok (mkReply 1 None (put_job (cr_job_id row) j' c))
  | None => Err (lit "stale job revision")
  end.

Definition SEGMENT : str := lit "segment".

(** [publication_validate]'s second check. *)
Definition job_current (l : LeaseRow) (expected : Z) (c : Control) : bool :=
  match control_jobs c !! wl_job_id l with
  | Some j => bool_decide (cj_incarnation j = wl_job_incarnation l) && (cj_revision j =? expected) && negb (cj_deleted j)
  | None => false
  end.

Definition has_result {A} (f : A -> option str) (id : str) (rows : list A) : bool :=
  existsb (fun r => bool_decide (f r = Some id)) rows.

(** [publication_apply]: the range result of a segment lease. *)
Definition apply_range (resource : str) (l : LeaseRow) (row : PublicationRow) (c : Control) : result Control str :=
  if negb (bool_decide (wl_kind l = SEGMENT)) then Ok c
  else if bool_decide (is_Some (range_results c !! resource))
  then Err (lit "UNIQUE constraint failed: range_results.resource")
  else if has_result (fun r => Some (rg_result_id r)) (pb_result_id row) (map snd (map_to_list (range_results c)))
  then Err (lit "UNIQUE constraint failed: range_results.result_id")
  else
    let r := mkRangeRow (wl_job_id l) (wl_scope_json l) (pb_result_id row) (pb_result_ref row) (pb_accepted_at_ms row) in
    Ok (set_ranges (<[resource := r]> (range_results c)) c).

(** ... or the new generation of the job. *)
Definition apply_result (l : LeaseRow) (row : PublicationRow) (c : Control) : result Control str :=
  if bool_decide (wl_kind l = SEGMENT) then Ok c
  else
    match control_jobs c !! wl_job_id l with
    | None => Ok c
    | Some j =>
        let? r := next_revision (cj_revision j) in
        if has_result cj_result_id (pb_result_id row) (map snd (map_to_list (delete (wl_job_id l) (control_jobs c))))
        then Err (lit "UNIQUE constraint failed: control_jobs.result_id")
        else Ok (put_job (wl_job_id l)
               (mkJobRow (cj_incarnation j) r (pb_result_job row) (Some (pb_result_ref row)) (Some (pb_result_id row))
                  (cj_deleted j) (pb_accepted_at_ms row)) c)
    end.

Definition exec_publication (id : str) (row : PublicationRow) (c : Control) : result Reply str :=
  let t := pb_token row in
  match work_leases c !! t_resource t with
  | None => Err (lit "stale lease token")
  | Some l =>
      if negb (live t (pb_accepted_at_ms row) l) then Err (lit "stale lease token")
      else if negb (job_current l (pb_expected_job_revision row) c) then Err (lit "stale job revision")
      else if bool_decide (is_Some (publication_receipts c !! id))
      then Err (lit "UNIQUE constraint failed: publication_receipts.receipt_id")
      else if has_result (fun r => Some (pb_result_id r)) (pb_result_id row)
                (map snd (map_to_list (publication_receipts c)))
      then Err (lit "UNIQUE constraint failed: publication_receipts.result_id")
      else
        let c := set_publications (<[id := row]> (publication_receipts c)) c in
        let? c := apply_range (t_resource t) l row c in
        let? c := apply_result l row c in
        let? r := next_revision (wl_revision l) in
        let l' := with_expiry (wl_expires_at_ms l) r (pb_accepted_at_ms row) true l in
        Ok (mkReply 1 None (set_leases (<[t_resource t := l']> (work_leases c)) c))
  end.

Definition exec_begin (id : str) (t : LeaseToken) (now : Z) (c : Control) : result Reply str :=
  match work_leases c !! t_resource t with
  | Some l =>
      if live t now l && negb (bool_decide (is_Some (script_receipts c !! id)))
      then Ok (mkReply 1 None (set_scripts
             (<[id := mkScriptRow (t_resource t) (wl_job_id l) Started now None]> (script_receipts c)) c))
      else Ok (unchanged c)
  | None => Ok (unchanged c)
  end.

Definition exec_finish (id : str) (t : LeaseToken) (now : Z) (c : Control) : result Reply str :=
  match script_receipts c !! id, work_leases c !! t_resource t with
  | Some s, Some l =>
      if bool_decide (sc_resource s = t_resource t) && (match sc_state s with Started => true | _ => false end) && live t now l
      then Ok (mkReply 1 None (set_scripts
             (<[id := mkScriptRow (sc_resource s) (sc_job_id s) ScriptDone (sc_started_at_ms s) (Some now)]>
                (script_receipts c)) c))
      else Ok (unchanged c)
  | _, _ => Ok (unchanged c)
  end.

Definition exec (s : Stmt) (c : Control) : result Reply str :=
  match s with
  | InsertLease a expiry now => exec_acquire a expiry now c
  | RenewLease t expiry now => exec_renew t expiry now c
  | ReleaseLease t now => exec_release t now c
  | SeedJob job inc intent now =>
      match control_jobs c !! job with
      | Some _ => Ok (unchanged c)
      | None => Ok (mkReply 1 None (put_job job (new_job inc intent now) c))
      end
  | InsertJob job inc intent now =>
      match control_jobs c !! job with
      | Some _ => Err (lit "UNIQUE constraint failed: control_jobs.job_id")
      | None => Ok (mkReply 1 None (put_job job (new_job inc intent now) c))
      end
  | InsertCommand id row => exec_command id row c
  | InsertPublication id row => exec_publication id row c
  | BeginScript id t now => exec_begin id t now c
  | FinishScript id t now => exec_finish id t now c
  | SaveBudget cluster rev state now =>
      if rev <=? 0 then Err (lit "CHECK constraint failed: revision > 0")
      else
        match provider_budget_state c !! cluster with
        | Some b =>
            if bs_revision b <? rev
            then Ok (mkReply 1 None (set_budgets (<[cluster := mkBudgetRow rev state now]> (provider_budget_state c)) c))
            else Ok (unchanged c)
        | None => Ok (mkReply 1 None (set_budgets (<[cluster := mkBudgetRow rev state now]> (provider_budget_state c)) c))
        end
  | InsertCounter nm value =>
      if value <? 0 then Err (lit "CHECK constraint failed: value >= 0")
      else match control_counters c !! nm with
      | Some _ => Err (lit "UNIQUE constraint failed: control_counters.name")
      | None => Ok (mkReply 1 None (set_counters (<[nm := value]> (control_counters c)) c))
      end
  | InsertMeta cluster fingerprint now =>
      match cluster_meta c !! cluster with
      | Some _ => Err (lit "UNIQUE constraint failed: cluster_meta.cluster_id")
      | None => Ok (mkReply 1 None (set_meta (<[cluster := (fingerprint, now)]> (cluster_meta c)) c))
      end
  end.

(** A transaction: all the statements, or none. *)
Fixpoint exec_txn (ss : list Stmt) (c : Control) : result Control str :=
  match ss with
  | [] => Ok c
  | s :: ss' => let? r := exec s c in exec_txn ss' (after r)
  end.

(** The store after a statement or a transaction of any client, refused or not. *)
Definition settle_txn (ss : list Stmt) (c : Control) : Control :=
  match exec_txn ss c with Ok c' => c' | Err _ => c end.

Definition settle_all (h : list (list Stmt)) (c : Control) : Control :=
  fold_left (fun c ss => settle_txn ss c) h c.

(** ** A client and its network

    Each request of a client waits for the transactions of other clients that
    are ordered before it; it is delivered, or never sent, or its reply is lost
    after it took effect.  The client's clock moves at each request. *)

Inductive Delivery := Delivered | NotSent | ReplyLost.

Record Turn := mkTurn { others : list (list Stmt); delivery : Delivery; clock : Z }.

Record Net := mkNet { db : Control; turns : list Turn; now_ms : Z }.

Definition M (A : Type) : Type := Net -> result A str * Net.

Definition m_ret {A} (a : A) : M A := fun n => (Ok a, n).
Definition m_fail {A} (e : str) : M A := fun n => (Err e, n).
Definition m_bind {A B} (m : M A) (k : A -> M B) : M B := fun n =>
  match m n with
  | (Ok a, n') => k a n'
  | (Err e, n') => (Err e, n')
  end.
Definition m_lift {A} (r : result A str) : M A := fun n => (r, n).
Definition m_try {A} (m : M A) : M (result A str) := fun n => let '(r, n') := m n in (Ok r, n').

Notation "'let#' x := m 'in' k" := (m_bind m (fun x => k))
  (at level 10, x pattern, k at level 200) : nzbd_scope.

Definition unreachable : str := lit "no quorum".

(** One round trip: a function of the store at the moment it is ordered. *)
Definition request {A} (f : Control -> result (A * Control) str) : M A := fun n =>
  match turns n with
  | [] =>
      match f (db n) with
      | Ok (a, c) => (Ok a, mkNet c [] (now_ms n))
      | Err e => (Err e, mkNet (db n) [] (now_ms n))
      end
  | u :: us =>
      let c := settle_all (others u) (db n) in
      match delivery u with
      | NotSent => (Err unreachable, mkNet c us (clock u))
      | Delivered =>
          match f c with
          | Ok (a, c') => (Ok a, mkNet c' us (clock u))
          | Err e => (Err e, mkNet c us (clock u))
          end
      | ReplyLost =>
          match f c with
          | Ok (_, c') => (Err unreachable, mkNet c' us (clock u))
          | Err _ => (Err unreachable, mkNet c us (clock u))
          end
      end
  end.

Definition execute (s : Stmt) : M Reply :=
  request (fun c => let? r := exec s c in Ok (r, after r)).
Definition txn (ss : list Stmt) : M unit :=
  request (fun c => let? c' := exec_txn ss c in Ok (tt, c')).
Definition query {A} (f : Control -> A) : M A := request (fun c => Ok (f c, c)).

Definition prefixed {A} (what : str) (m : M A) : M A := fun n =>
  match m n with
  | (Err e, n') => (Err (what ++ lit ": " ++ e), n')
  | r => r
  end.

Definition unix_ms : M Z := fun n =>
  (if now_ms n <? 0 then Err (lit "system clock precedes unix epoch")
   else if now_ms n <=? i64_max then Ok (now_ms n) else Err (lit "unix millisecond overflow"), n).

(** ** The client methods *)

Inductive LeaseClaim :=
| Acquired (t : LeaseToken)
| Held (owner_node_id : str) (fence expires_at_unix_ms : Z).

Inductive MutationOutcome :=
| Applied (revision : Z)
| Duplicate (revision : Z)
| Conflict.

Inductive ScriptReceiptOutcome := Run | AlreadyDone | Ambiguous | ScriptConflict.

Definition validate_field (label value : str) (max : Z) : result unit str :=
  if bool_decide (value = []) || (max <? utf8_len value)
  then Err (label ++ lit " must contain 1..=" ++ show_dec max ++ lit " bytes") else Ok tt.

Definition validate_identity (resource node incarnation : str) : result unit str :=
  let? _ := validate_field (lit "resource") resource 256 in
  let? _ := validate_field (lit "owner node") node 128 in
  validate_field (lit "owner incarnation") incarnation 128.

Definition i64_value (label : str) (value : Z) : result Z str :=
  if value =? 0 then Err (label ++ lit " must be greater than zero")
  else if value <=? i64_max then Ok value else Err (label ++ lit " is too large").

(** [ttl] in milliseconds. *)
Definition expiry (now ttl : Z) : result Z str :=
  let ttl := Z.max 1000 (Z.min 300000 ttl) in
  if now + ttl <=? i64_max then Ok (now + ttl) else Err (lit "lease expiry overflow").

(** [u64::try_from] of a column. *)
Definition u64_column (v : Z) : result Z str :=
  if v <? 0 then Err (lit "out of range integral type conversion attempted") else Ok v.

Definition try_token (t : LeaseToken) : result LeaseToken str :=
  let? _ := u64_column (t_fence t) in
  let? _ := u64_column (t_revision t) in
  Ok t.

Definition token_params (t : LeaseToken) : result unit str :=
  let? _ := i64_value (lit "fence") (t_fence t) in
  let? _ := i64_value (lit "lease revision") (t_revision t) in
  Ok tt.

Definition open_lease (resource : str) (c : Control) : option LeaseToken :=
  match work_leases c !! resource with
  | Some l => if wl_terminal l then None else Some (token_of resource l)
  | None => None
  end.

Definition current_lease (resource : str) : M (option LeaseToken) :=
  let# row := prefixed (lit "read lease") (query (open_lease resource)) in
  match row with
  | None => m_ret None
  | Some t => let# t := m_lift (try_token t) in m_ret (Some t)
  end.

Definition acquire (a : LeaseArgs) (ttl : Z) : M LeaseClaim :=
  let# _ := m_lift (validate_identity (la_resource a) (la_owner_node_id a) (la_owner_incarnation a)) in
  let# now := unix_ms in
  let# exp := m_lift (expiry now ttl) in
  let# _ := m_lift (i64_value (lit "job id") (la_job_id a)) in
  let# _ := m_lift (i64_value (lit "job revision") (la_job_revision a)) in
  let# r := prefixed (lit "acquire lease") (execute (InsertLease a exp now)) in
  match returning r with
  | Some row => let# t := m_lift (try_token row) in m_ret (Acquired t)
  | None =>
      let# held := current_lease (la_resource a) in
      match held with
      | Some h => m_ret (Held (t_owner_node_id h) (t_fence h) (t_expires_at_unix_ms h))
      | None => m_fail (lit "lease acquire changed no row and the resource disappeared")
      end
  end.

Definition renew (t : LeaseToken) (ttl : Z) : M (option LeaseToken) :=
  let# _ := m_lift (validate_identity (t_resource t) (t_owner_node_id t) (t_owner_incarnation t)) in
  let# now := unix_ms in
  let# exp := m_lift (expiry now ttl) in
  let# _ := m_lift (token_params t) in
  let# r := prefixed (lit "renew lease") (execute (RenewLease t exp now)) in
  match returning r with
  | None => m_ret None
  | Some row => let# t := m_lift (try_token row) in m_ret (Some t)
  end.

Definition release (t : LeaseToken) : M bool :=
  let# now := unix_ms in
  let# _ := m_lift (token_params t) in
  let# r := prefixed (lit "release lease") (execute (ReleaseLease t now)) in
  m_ret (changed r =? 1).

Definition seed_job (job : Z) (incarnation intent : str) : M unit :=
  let# now := unix_ms in
  let# _ := m_lift (i64_value (lit "job id") job) in
  let# _ := prefixed (lit "seed control job") (execute (SeedJob job incarnation intent now)) in
  m_ret tt.

Definition job_identity (job : Z) : M (option (str * Z)) :=
  let# _ := m_lift (i64_value (lit "job id") job) in
  let# row := prefixed (lit "read replicated job identity") (query (fun c => control_jobs c !! job)) in
  match row with
  | Some j =>
      if cj_deleted j then m_ret None
      else let# r := m_lift (u64_column (cj_revision j)) in m_ret (Some (cj_incarnation j, r))
  | None => m_ret None
  end.

(** [scalar_revision] *)
Definition scalar_revision (f : Control -> option Z) : M (option Z) :=
  let# row := prefixed (lit "read durable receipt") (query f) in
  match row with
  | None => m_ret None
  | Some r => let# r := m_lift (u64_column r) in m_ret (Some r)
  end.

Definition command_receipt (id : str) : M (option Z) :=
  scalar_revision (fun c => cr_applied_revision <$> command_receipts c !! id).
Definition publication_receipt (id : str) : M (option Z) :=
  scalar_revision (fun c => (fun p => pb_expected_job_revision p + 1) <$> publication_receipts c !! id).

(** The last lines of [apply_command] and [publish_result]. *)
Definition mutation (what : str) (revision : Z) (m : M Reply) : M MutationOutcome :=
  let# inserted := m_try m in
  match inserted with
  | Ok r => m_ret (if changed r =? 1 then Applied revision else Conflict)
  | Err e => if contains (lit "stale") e then m_ret Conflict else m_fail (what ++ lit ": " ++ e)
  end.

Definition apply_command (id : str) (job expected : Z) (command next_intent : str) (deleted : bool)
    : M MutationOutcome :=
  let# seen := command_receipt id in
  match seen with
  | Some revision => m_ret (Duplicate revision)
  | None =>
      let# now := unix_ms in
      let# next := m_lift (if expected + 1 <=? u64_max then Ok (expected + 1) else Err (lit "job revision exhausted")) in
      let# _ := m_lift (i64_value (lit "job id") job) in
      let# _ := m_lift (i64_value (lit "expected revision") expected) in
      let# _ := m_lift (i64_value (lit "applied revision") next) in
      mutation (lit "apply command transaction") next
        (execute (InsertCommand id (mkCommandRow job expected next (mkEnvelope command next_intent deleted) now)))
  end.

Definition publish_result (id : str) (t : LeaseToken) (expected : Z) (result_id result_ref result_job : str)
    : M MutationOutcome :=
  let# seen := publication_receipt id in
  match seen with
  | Some revision => m_ret (Duplicate revision)
  | None =>
      let# now := unix_ms in
      let# _ := m_lift (token_params t) in
      let# _ := m_lift (i64_value (lit "expected job revision") expected) in
      mutation (lit "publish result") (Z.min (expected + 1) u64_max)
        (execute (InsertPublication id (mkPublicationRow t expected result_id result_ref result_job now)))
  end.

Definition script_state (id : str) : M (option ScriptState) :=
  prefixed (lit "read script receipt") (query (fun c => sc_state <$> script_receipts c !! id)).

Definition begin_script (id : str) (t : LeaseToken) : M ScriptReceiptOutcome :=
  let# now := unix_ms in
  let# _ := m_lift (token_params t) in
  let# r := prefixed (lit "begin script receipt") (execute (BeginScript id t now)) in
  if changed r =? 1 then m_ret Run
  else
    let# st := script_state id in
    m_ret (match st with
           | Some ScriptDone => AlreadyDone
           | Some Started => Ambiguous
           | None => ScriptConflict
           end).

Definition finish_script (id : str) (t : LeaseToken) : M ScriptReceiptOutcome :=
  let# now := unix_ms in
  let# _ := m_lift (token_params t) in
  let# r := prefixed (lit "finish script receipt") (execute (FinishScript id t now)) in
  if changed r =? 1 then m_ret AlreadyDone
  else
    let# st := script_state id in
    m_ret (match st with Some ScriptDone => AlreadyDone | _ => ScriptConflict end).

Definition save_budget_state (cluster : str) (revision : Z) (state : str) : M unit :=
  let# rev := m_lift (i64_value (lit "budget revision") revision) in
  let# now := unix_ms in
  let# _ := prefixed (lit "persist provider budget state") (execute (SaveBudget cluster rev state now)) in
  m_ret tt.

Definition load_budget_state (cluster : str) : M (option str) :=
  prefixed (lit "load provider budget state") (query (fun c => bs_state_json <$> provider_budget_state c !! cluster)).

(** ** Jobs and their replicated rows

    [serde_json] and SHA-256 are parameters. *)

Section Jobs.
Context (encode_job : Job -> str) (decode_job : str -> result Job str) (sha256_hex : str -> str).

Definition show_bool (b : bool) : str := if b then lit "true" else lit "false".

Definition read_job (what : str) (job : Z) : M (option ControlJobRow) :=
  let# id := m_lift (i64_value (lit "job id") job) in
  prefixed what (query (fun c => control_jobs c !! id)).

Definition opt_is_none_or {A} (p : A -> bool) (o : option A) : bool :=
  match o with Some a => p a | None => true end.

(** One turn of [reconcile_job]'s loop: the answer, or another turn. *)
Definition reconcile_turn (job : Z) (desired : option str) : M (option (option (str * Z * bool))) :=
  let# row := read_job (lit "read replicated job for reconciliation") job in
  match row with
  | None =>
      match desired with
      | None => m_ret (Some None)
      | Some intent =>
          let# _ := seed_job job (lit "job-" ++ sha256_hex intent) intent in m_ret None
      end
  | Some row =>
      let deleted := negb (bool_decide (is_Some desired)) in
      if eqb (cj_deleted row) deleted && opt_is_none_or (fun i => bool_decide (i = cj_intent row)) desired then
        let# r := m_lift (u64_column (cj_revision row)) in
        m_ret (Some (Some (cj_incarnation row, r, cj_deleted row)))
      else
        let# expected := m_lift (u64_column (cj_revision row)) in
        let next := default (cj_intent row) desired in
        let command := if deleted then lit "delete" else lit "replace_intent" in
        let material := show_dec job ++ lit ":" ++ show_dec expected ++ lit ":" ++ show_bool deleted ++ lit ":" ++ next in
        let# outcome := apply_command (lit "reconcile:" ++ sha256_hex material) job expected command next deleted in
        match outcome with
        | Applied r | Duplicate r => m_ret (Some (Some (cj_incarnation row, r, deleted)))
        | Conflict => m_ret None
        end
  end.

Fixpoint reconcile_loop (tries : nat) (job : Z) (desired : option str) : M (option (str * Z * bool)) :=
  match tries with
  | O => m_fail (lit "replicated job reconciliation remained conflicted")
  | S tries' =>
      let# r := reconcile_turn job desired in
      match r with
      | Some answer => m_ret answer
      | None => reconcile_loop tries' job desired
      end
  end.

Definition reconcile_job (job : Z) (j : option Job) : M (option (str * Z * bool)) :=
  reconcile_loop 4 job (encode_job <$> j).

(** The statement of one changed row of a request, if it changes anything. *)
Definition delta_stmt (now : Z) (change : Z * option Job) : M (option Stmt) :=
  let '(job, desired_job) := change in
  let# row := read_job (lit "read replicated job before request commit") job in
  let desired := encode_job <$> desired_job in
  match row with
  | None =>
      match desired with
      | None => m_fail (lit "request attempted to delete unknown job " ++ show_dec job)
      | Some intent => m_ret (Some (InsertJob job (lit "job-" ++ sha256_hex intent) intent now))
      end
  | Some row =>
      let deleted := negb (bool_decide (is_Some desired)) in
      let next := default (cj_intent row) desired in
      if eqb (cj_deleted row) deleted && (deleted || bool_decide (next = cj_intent row)) then m_ret None
      else
        let# expected := m_lift (u64_column (cj_revision row)) in
        let# _ := m_lift (i64_value (lit "expected revision") expected) in
        let# applied := m_lift (i64_value (lit "applied revision") (expected + 1)) in
        let material := show_dec job ++ lit ":" ++ show_dec expected ++ lit ":" ++ show_bool deleted ++ lit ":" ++ next in
        let command := if deleted then lit "delete" else lit "replace_intent" in
        m_ret (Some (InsertCommand (lit "request:" ++ sha256_hex material)
          (mkCommandRow job expected applied (mkEnvelope command next deleted) now)))
  end.

Fixpoint delta_stmts (now : Z) (changes : list (Z * option Job)) : M (list Stmt) :=
  match changes with
  | [] => m_ret []
  | ch :: changes' =>
      let# s := delta_stmt now ch in
      let# ss := delta_stmts now changes' in
      m_ret (match s with Some s => s :: ss | None => ss end)
  end.

Definition commit_job_delta (changes : list (Z * option Job)) : M unit :=
  match changes with
  | [] => m_ret tt
  | _ =>
      let# now := unix_ms in
      let# ss := delta_stmts now changes in
      match ss with
      | [] => m_ret tt
      | _ => prefixed (lit "commit replicated request delta") (txn ss)
      end
  end.

Definition param (key : str) (j : Job) : option (str * str) :=
  List.find (fun kv => bool_decide (fst kv = key)) (params j).

Definition commit_url_resolution (j : Job) : M unit :=
  let# row := read_job (lit "read URL placeholder") (job_id j) in
  match row with
  | None => m_fail (lit "URL placeholder is not durable")
  | Some row =>
      let# prior := prefixed (lit "decode URL placeholder") (m_lift (decode_job (cj_intent row))) in
      if cj_deleted row || negb (bool_decide (status prior = JS_Fetching)) || bool_decide (status j = JS_Fetching)
         || negb (job_id prior =? job_id j) || negb (bool_decide (param (lit "*URL") prior = param (lit "*URL") j))
      then m_fail (lit "URL resolution no longer matches its durable placeholder")
      else
        let# expected := m_lift (u64_column (cj_revision row)) in
        let next := encode_job j in
        let material := show_dec (job_id j) ++ lit ":" ++ show_dec expected ++ lit ":" ++ next in
        let# outcome := apply_command (lit "url-resolution:" ++ sha256_hex material) (job_id j) expected
                          (lit "url_resolution") next false in
        match outcome with
        | Applied _ | Duplicate _ => m_ret tt
        | Conflict => m_fail (lit "URL resolution lost a revision race")
        end
  end.

Definition migration_identity : M (option (str * str)) :=
  prefixed (lit "read control migration identity")
    (query (fun c => (fun '(cl, (fp, _)) => (cl, fp)) <$> head (map_to_list (cluster_meta c)))).

Definition migrate_legacy_snapshot (cluster fingerprint : str) (snapshot : QueueSnapshotDoc) : M bool :=
  let# existing := migration_identity in
  match existing with
  | Some (cl, _) =>
      if bool_decide (cl = cluster) then m_ret false
      else m_fail (lit "control store already belongs to another cluster")
  | None =>
      let# now := unix_ms in
      let jobs := map (fun j => let intent := encode_job j in
        InsertJob (job_id j) (lit "legacy-" ++ sha256_hex intent) intent now) (q_jobs snapshot) in
      let# committed := m_try (txn (jobs ++
        [InsertCounter (lit "next_job_id") (q_next_job_id snapshot);
         InsertCounter (lit "next_file_id") (q_next_file_id snapshot);
         InsertMeta cluster fingerprint now])) in
      match committed with
      | Ok _ => m_ret true
      | Err e =>
          let# rows := migration_identity in
          match rows with
          | Some (cl, _) => if bool_decide (cl = cluster) then m_ret false
                            else m_fail (lit "commit legacy control migration: " ++ e)
          | None => m_fail (lit "commit legacy control migration: " ++ e)
          end
      end
  end.

End Jobs.
