(* ===== verification/Fencing.v ===== *)
(** * Fenced leases, publications and commands ([crates/nzbd-cluster/src/control.rs])

    What holds of every history of the replicated store, whatever clients run,
    whatever their clocks show and whichever replies are lost: an old lease token
    is refused for ever, a lease that has not expired changes only by its own
    token, a fence publishes at most once, no command is lost to another, and a
    retried publication is answered from its receipt. *)

From S2P Require Import Prelude RustStr Types Queue Control.

#[local] Unset Default Proof Using.

(** ** What one statement does to a lease *)

Inductive lease_step : option LeaseRow -> option LeaseRow -> Prop :=
| lease_same o : lease_step o o
| lease_new l : wl_fence l = 1 -> wl_revision l = 1 -> wl_terminal l = false -> lease_step None (Some l)
| lease_taken l l' : wl_fence l' = wl_fence l + 1 -> wl_revision l' = wl_revision l + 1 ->
    wl_terminal l' = false -> lease_step (Some l) (Some l')
| lease_kept l l' : wl_fence l' = wl_fence l -> wl_revision l' = wl_revision l + 1 ->
    wl_owner_node_id l' = wl_owner_node_id l -> wl_owner_incarnation l' = wl_owner_incarnation l ->
    wl_terminal l = false -> lease_step (Some l) (Some l').
#[local] Hint Constructors lease_step : core.

Lemma next_revision_Ok r r' : next_revision r = Ok r' -> r' = r + 1.
Proof. unfold next_revision. case_match; congruence. Qed.

Lemma apply_range_rest res l row c c' : apply_range res l row c = Ok c' ->
  work_leases c' = work_leases c /\ control_jobs c' = control_jobs c /\
  publication_receipts c' = publication_receipts c /\ command_receipts c' = command_receipts c.
Proof. unfold apply_range. repeat case_match; intros [= <-]; done. Qed.

Lemma apply_result_rest l row c c' : apply_result l row c = Ok c' ->
  work_leases c' = work_leases c /\ range_results c' = range_results c /\
  publication_receipts c' = publication_receipts c /\ command_receipts c' = command_receipts c.
Proof.
  unfold apply_result, next_revision. repeat case_match; simpl; try congruence; intros [= <-]; done.
Qed.

(** A publication that is accepted, taken apart. *)
Record published (id : str) (row : PublicationRow) (c c' : Control) (l : LeaseRow) : Prop := {
  pd_lease : work_leases c !! t_resource (pb_token row) = Some l;
  pd_live : live (pb_token row) (pb_accepted_at_ms row) l = true;
  pd_job : job_current l (pb_expected_job_revision row) c = true;
  pd_new : publication_receipts c !! id = None;
  pd_leases : work_leases c' = <[t_resource (pb_token row) :=
    with_expiry (wl_expires_at_ms l) (wl_revision l + 1) (pb_accepted_at_ms row) true l]> (work_leases c);
  pd_receipts : publication_receipts c' = <[id := row]> (publication_receipts c);
  pd_commands : command_receipts c' = command_receipts c;
  pd_ranges : exists c1, apply_range (t_resource (pb_token row)) l row
    (set_publications (<[id := row]> (publication_receipts c)) c) = Ok c1 /\ range_results c' = range_results c1;
  pd_jobs : exists c1 c2, control_jobs c1 = control_jobs c /\ apply_result l row c1 = Ok c2 /\ control_jobs c' = control_jobs c2
}.

Lemma exec_published id row c r : exec_publication id row c = Ok r -> exists l, published id row c (after r) l /\ returning r = None.
Proof.
  unfold exec_publication. destruct (work_leases c !! _) as [l|] eqn:El; [|done].
  destruct (negb (live _ _ _)) eqn:E1; [done|]. destruct (negb (job_current _ _ _)) eqn:E2; [done|].
  case_bool_decide as E3; [done|]. destruct (has_result _ _ _); [done|].
  destruct (apply_range _ _ _ _) as [c1|] eqn:E5; [|done]. simpl.
  destruct (apply_result _ _ _) as [c2|] eqn:E6; [|done]. simpl.
  destruct (next_revision _) as [v|] eqn:E7; [|done]. simpl. intros [= <-]. exists l. split; [|done].
  apply next_revision_Ok in E7 as ->.
  destruct (apply_range_rest _ _ _ _ _ E5) as (R1 & R2 & R3 & R4).
  destruct (apply_result_rest _ _ _ _ E6) as (S1 & S2 & S3 & S4).
  split; simpl; bool_hyps; try done.
  - by apply eq_None_not_Some.
  - by rewrite S1, R1.
  - by rewrite S3, R3.
  - by rewrite S4, R4.
  - exists c1. by rewrite S2.
  - by exists c1, c2.
Qed.

Lemma live_terminal t now l : live t now l = true -> wl_terminal l = false.
Proof. unfold live. intros H. bool_hyps. by destruct (wl_terminal l). Qed.

Lemma lease_step_insert (m : gmap str LeaseRow) k l res : lease_step (m !! k) (Some l) ->
  lease_step (m !! res) (<[k := l]> m !! res).
Proof. intros H. destruct (decide (k = res)) as [<-|]; by simplify_map_eq. Qed.

Lemma exec_lease s c r : exec s c = Ok r -> forall res, lease_step (work_leases c !! res) (work_leases (after r) !! res).
Proof.
  intros H res. destruct s; simpl in H.
  - unfold exec_acquire in H. destruct (_ <=? 0); [done|]. destruct (work_leases c !! _) as [l|] eqn:E.
    + case_match; injection H as <-; [|done]. simpl. apply lease_step_insert. rewrite E. by apply lease_taken.
    + injection H as <-. simpl. apply lease_step_insert. rewrite E. by apply lease_new.
  - unfold exec_renew in H. destruct (work_leases c !! _) as [l|] eqn:E; [|by injection H as <-].
    destruct (live t now l) eqn:El; [|by injection H as <-].
    destruct (next_revision _) as [v|] eqn:En; [|done]. injection H as <-. simpl. apply lease_step_insert.
    rewrite E. apply next_revision_Ok in En. apply lease_kept; try done. by eapply live_terminal.
  - unfold exec_release in H. destruct (work_leases c !! _) as [l|] eqn:E; [|by injection H as <-].
    destruct (_ && _) eqn:El; [|by injection H as <-].
    destruct (next_revision _) as [v|] eqn:En; [|done]. injection H as <-. simpl. apply lease_step_insert.
    rewrite E. apply next_revision_Ok in En. bool_hyps. by apply lease_kept.
  - destruct (control_jobs c !! job); by injection H as <-.
  - destruct (control_jobs c !! job); [done|]. by injection H as <-.
  - unfold exec_command in H. repeat case_match; try done. by injection H as <-.
  - apply exec_published in H as (l & [] & _). rewrite pd_leases0. apply lease_step_insert. rewrite pd_lease0.
    apply lease_kept; try done. by eapply live_terminal.
  - unfold exec_begin in H. repeat case_match; by injection H as <-.
  - unfold exec_finish in H. repeat case_match; by injection H as <-.
  - repeat case_match; try done; by injection H as <-.
  - repeat case_match; try done; by injection H as <-.
  - repeat case_match; try done; by injection H as <-.
Qed.

(** A statement that returned a token. *)
Definition granted (s : Stmt) (t : LeaseToken) (c c' : Control) : Prop :=
  exists r, exec s c = Ok r /\ returning r = Some t /\ after r = c'.

(** A token and the row it names. *)
Definition holds (t : LeaseToken) (c : Control) : Prop :=
  exists l, work_leases c !! t_resource t = Some l /\ token_of (t_resource t) l = t /\ wl_terminal l = false.

Lemma holds_put res l c t : wl_terminal l = false -> returning (put_lease res l c) = Some t ->
  holds t (after (put_lease res l c)).
Proof. intros Hl [= <-]. exists l. simpl. by rewrite lookup_insert_eq. Qed.

Lemma granted_holds s t c c' : granted s t c c' -> holds t c'.
Proof.
  intros (r & H & Ht & <-). destruct s; simpl in H.
  - unfold exec_acquire in H. destruct (_ <=? 0); [done|].
    destruct (work_leases c !! _) as [l|]; [case_match|]; simplify_eq; try done; by apply holds_put.
  - unfold exec_renew in H. destruct (work_leases c !! _) as [l|]; [|by simplify_eq].
    destruct (live t0 now l) eqn:El; [|by simplify_eq]. apply live_terminal in El.
    destruct (next_revision _); [|done]. simplify_eq/=. by eapply holds_put.
  - unfold exec_release in H. repeat (case_match; simplify_eq/=). destruct (next_revision _); by simplify_eq/=.
  - by repeat (case_match; simplify_eq/=).
  - by repeat (case_match; simplify_eq/=).
  - unfold exec_command in H. by repeat (case_match; simplify_eq/=).
  - apply exec_published in H as (l & _ & Hr). congruence.
  - unfold exec_begin in H. by repeat (case_match; simplify_eq/=).
  - unfold exec_finish in H. by repeat (case_match; simplify_eq/=).
  - by repeat (case_match; simplify_eq/=).
  - by repeat (case_match; simplify_eq/=).
  - by repeat (case_match; simplify_eq/=).
Qed.

(** ** Histories *)

Section Histories.
Context (I : Control -> Prop) (ok : Stmt -> Prop).
Hypothesis I_step : forall s c r, ok s -> I c -> exec s c = Ok r -> I (after r).

Lemma txn_keeps ss : forall c c', Forall ok ss -> I c -> exec_txn ss c = Ok c' -> I c'.
Proof.
  induction ss as [|s ss IH]; intros c c' Hok Hc; simpl; [by intros [= <-]|].
  destruct (exec s c) as [r|] eqn:E; [|done]. simpl. apply Forall_cons in Hok as [Hs Hss].
  apply IH; [done|]. by eapply I_step.
Qed.

Lemma settle_txn_keeps ss c : Forall ok ss -> I c -> I (settle_txn ss c).
Proof. intros Hok Hc. unfold settle_txn. destruct (exec_txn ss c) eqn:E; [|done]. by eapply txn_keeps. Qed.

Lemma settle_all_keeps h : forall c, Forall (Forall ok) h -> I c -> I (settle_all h c).
Proof.
  induction h as [|ss h IH]; intros c Hok Hc; [done|]. apply Forall_cons in Hok as [Hs Hh].
  apply IH; [done|]. by apply settle_txn_keeps.
Qed.
End Histories.

Lemma any_history (h : list (list Stmt)) : Forall (Forall (fun _ => True)) h.
Proof. apply Forall_true. intros. by apply Forall_true. Qed.

(** ** Stale tokens *)

(** The row is at least the pair. *)
Definition beyond (res : str) (fence revision : Z) (c : Control) : Prop :=
  exists l, work_leases c !! res = Some l /\ fence <= wl_fence l /\ revision <= wl_revision l.

Lemma beyond_step res f v s c r : beyond res f v c -> exec s c = Ok r -> beyond res f v (after r).
Proof.
  intros (l & Hl & Hf & Hv) H. pose proof (exec_lease _ _ _ H res) as HS. rewrite Hl in HS.
  destruct (work_leases (after r) !! res) as [l'|] eqn:Eo; inversion HS; simplify_eq; (eexists; split; [exact Eo|lia]).
Qed.

Lemma beyond_all h res f v c : beyond res f v c -> beyond res f v (settle_all h c).
Proof. intros H. apply (settle_all_keeps _ (fun _ => True)); [|apply any_history|done]. intros; by eapply beyond_step. Qed.

Lemma beyond_stale t f l c : work_leases c !! t_resource t = Some l ->
  beyond (t_resource t) f (t_revision t + 1) c -> names t l = false.
Proof.
  intros Hl (l' & Hl' & _ & Hv). simplify_eq. unfold names. apply bool_decide_eq_false_2.
  intros E. rewrite <- E in Hv. simpl in Hv. lia.
Qed.

(** The statements that present a token. *)
Definition presents (t : LeaseToken) (s : Stmt) : Prop :=
  match s with
  | RenewLease t' _ _ | ReleaseLease t' _ | BeginScript _ t' _ | FinishScript _ t' _ => t' = t
  | InsertPublication _ row => pb_token row = t
  | _ => False
  end.

(** Refused: nothing changes, or the trigger raises. *)
Definition refused (s : Stmt) (c : Control) : Prop :=
  exec s c = Ok (unchanged c) \/ exec s c = Err (lit "stale lease token").

Lemma stale_refused t f s c : beyond (t_resource t) f (t_revision t + 1) c -> presents t s -> refused s c.
Proof.
  intros Hb Hp. pose proof Hb as (l & Hl & _). pose proof (beyond_stale t f l c Hl Hb) as Hn.
  assert (Hd : forall now, live t now l = false) by (intros now; unfold live; by rewrite Hn).
  destruct s; simpl in Hp; try done; subst; unfold refused; simpl.
  - unfold exec_renew. rewrite Hl, Hd. by left.
  - unfold exec_release. rewrite Hl, Hn. by left.
  - unfold exec_publication. rewrite Hl, Hd. by right.
  - unfold exec_begin. rewrite Hl, Hd. by left.
  - unfold exec_finish. rewrite Hl. destruct (script_receipts c !! id); rewrite ?Hd, ?andb_false_r; by left.
Qed.

Lemma holds_beyond t c : holds t c -> beyond (t_resource t) (t_fence t) (t_revision t) c.
Proof. intros (l & Hl & <- & _). exists l. simpl. auto with lia. Qed.

(** A grant is above the row it found. *)
Lemma granted_above s t c c' res f v : granted s t c c' -> t_resource t = res -> beyond res f v c ->
  f <= t_fence t /\ v + 1 <= t_revision t /\ (forall a e n, s = InsertLease a e n -> f + 1 <= t_fence t).
Proof.
  intros (r & H & Ht & <-) <- (l & Hl & Hf & Hv). destruct s; simpl in H; try (by repeat (case_match; simplify_eq/=)).
  - unfold exec_acquire in H. destruct (_ <=? 0); [done|].
    destruct (work_leases c !! la_resource a) as [l'|] eqn:E; [case_match|]; simplify_eq; simpl in Ht; simplify_eq/=;
      split_and!; intros; lia.
  - unfold exec_renew in H. destruct (work_leases c !! t_resource t0) as [l'|] eqn:E; [|by simplify_eq].
    destruct (live t0 now l'); [|by simplify_eq]. destruct (next_revision _) as [w|] eqn:En; [|done].
    apply next_revision_Ok in En as ->. simplify_eq/=. split_and!; [lia|lia|done].
  - unfold exec_release in H. repeat (case_match; simplify_eq/=). destruct (next_revision _); by simplify_eq/=.
  - unfold exec_command in H. by repeat (case_match; simplify_eq/=).
  - apply exec_published in H as (l' & _ & Hr). congruence.
  - unfold exec_begin in H. by repeat (case_match; simplify_eq/=).
  - unfold exec_finish in H. by repeat (case_match; simplify_eq/=).
Qed.

(** C25: fencing.  Whatever transactions run in between, a later grant of a lease
    has a higher revision than an earlier one, and a higher fence when it is an
    acquisition; and from then on, forever, the earlier token is refused
    everywhere: it cannot renew, release, publish a result, or begin or finish a
    script. *)
Theorem lease_fencing c0 s1 t1 c1 h1 s2 t2 c2 h2 :
  granted s1 t1 c0 c1 -> granted s2 t2 (settle_all h1 c1) c2 -> t_resource t2 = t_resource t1 ->
  t_fence t1 <= t_fence t2 /\ t_revision t1 < t_revision t2 /\
  (forall a e n, s2 = InsertLease a e n -> t_fence t1 < t_fence t2) /\
  (forall s, presents t1 s -> refused s (settle_all h2 c2)).
Proof.
  intros G1 G2 Hres. pose proof (holds_beyond _ _ (granted_holds _ _ _ _ G1)) as B1.
  apply (beyond_all h1) in B1. destruct (granted_above _ _ _ _ _ _ _ G2 Hres B1) as (A1 & A2 & A3).
  split; [done|]. split; [lia|]. split; [intros a e n E; specialize (A3 a e n E); lia|].
  intros s Hs. apply (stale_refused t1 (t_fence t2)); [|done]. apply (beyond_all h2).
  rewrite <- Hres. destruct (holds_beyond _ _ (granted_holds _ _ _ _ G2)) as (l & Hl & Hf & Hv).
  exists l. split; [done|]. lia.
Qed.

(** ** A lease that has not expired *)

(** Statements that neither come after the expiry nor are the holder's own. *)
Definition bystander (t : LeaseToken) (s : Stmt) : Prop :=
  match s with
  | InsertLease a _ now => la_resource a = t_resource t -> now < t_expires_at_unix_ms t
  | RenewLease t' _ _ | ReleaseLease t' _ => t' <> t
  | InsertPublication _ row => pb_token row <> t
  | _ => True
  end.

Lemma holds_other res l t c : holds t c -> res <> t_resource t -> holds t (set_leases (<[res := l]> (work_leases c)) c).
Proof. intros (l' & Hl & H) Hne. exists l'. simpl. by rewrite lookup_insert_ne. Qed.

Lemma holds_names t t' l c : holds t c -> work_leases c !! t_resource t' = Some l -> t_resource t' = t_resource t ->
  names t' l = true -> t' = t.
Proof.
  intros (l' & Hl & Ht & _) Hl' E Hn. rewrite E in Hl'. simplify_eq. apply bool_decide_eq_true in Hn.
  by rewrite <- Hn, <- Ht, E.
Qed.

Lemma live_names t now l : live t now l = true -> names t l = true.
Proof. unfold live. intros H. by bool_hyps. Qed.

Lemma holds_same_leases t c c' : holds t c -> work_leases c' = work_leases c -> holds t c'.
Proof. intros (l & Hl & H) E. exists l. by rewrite E. Qed.

Lemma holds_step t s c r : bystander t s -> holds t c -> exec s c = Ok r -> holds t (after r).
Proof.
  intros Hb Hh H. destruct s; simpl in Hb, H;
    try (by repeat (case_match; simplify_eq/=); eapply holds_same_leases).
  - unfold exec_acquire in H. destruct (_ <=? 0); [done|].
    destruct (decide (la_resource a = t_resource t)) as [E|E].
    + destruct Hh as (l & Hl & Ht & Hterm). rewrite E, Hl in H. specialize (Hb E).
      replace (wl_expires_at_ms l <=? now) with false in H by (rewrite <- Ht in Hb; simpl in Hb; lia).
      simplify_eq/=. by exists l.
    + repeat (case_match; simplify_eq/=); try done; by apply holds_other.
  - unfold exec_renew in H. destruct (work_leases c !! t_resource t0) as [l|] eqn:El; [|by simplify_eq/=].
    destruct (live t0 now l) eqn:Elv; [|by simplify_eq/=]. destruct (next_revision _); [|done]. simplify_eq/=.
    destruct (decide (t_resource t0 = t_resource t)) as [E|E]; [|by apply holds_other].
    by destruct Hb; eapply holds_names, live_names.
  - unfold exec_release in H. destruct (work_leases c !! t_resource t0) as [l|] eqn:El; [|by simplify_eq/=].
    destruct (_ && _) eqn:Elv; [|by simplify_eq/=]. destruct (next_revision _); [|done]. simplify_eq/=.
    destruct (decide (t_resource t0 = t_resource t)) as [E|E]; [|by apply holds_other].
    bool_hyps. by destruct Hb; eapply holds_names.
  - unfold exec_command in H. repeat (case_match; simplify_eq/=); by eapply holds_same_leases.
  - apply exec_published in H as (l & [] & _).
    destruct (decide (t_resource (pb_token row) = t_resource t)) as [E|E].
    + by destruct Hb; eapply holds_names, live_names.
    + destruct Hh as (l' & Hl' & H'). exists l'. by rewrite pd_leases0, lookup_insert_ne.
  - unfold exec_begin in H. repeat (case_match; simplify_eq/=); by eapply holds_same_leases.
  - unfold exec_finish in H. repeat (case_match; simplify_eq/=); by eapply holds_same_leases.
Qed.

(** exclusion.  While the clocks of the others are before its expiry, a lease
    can be changed by nothing but its own token: whatever transactions run, the
    token still names the row, and a renewal in time succeeds. *)
Theorem lease_held_until_expiry s t c c' h :
  granted s t c c' -> Forall (Forall (bystander t)) h ->
  holds t (settle_all h c') /\
  forall expiry now, now < t_expires_at_unix_ms t -> t_revision t < i64_max ->
    granted (RenewLease t expiry now)
      (mkToken (t_resource t) (t_owner_node_id t) (t_owner_incarnation t) (t_fence t) (t_revision t + 1) expiry)
      (settle_all h c') (settle_txn [RenewLease t expiry now] (settle_all h c')).
Proof.
  intros G Hh. assert (HH : holds t (settle_all h c')).
  { apply (settle_all_keeps _ (bystander t)); [intros; by eapply holds_step|done|by eapply granted_holds]. }
  split; [done|]. intros expiry now Hnow Hr. destruct HH as (l & Hl & Ht & Hterm).
  assert (E : wl_revision l = t_revision t /\ wl_expires_at_ms l = t_expires_at_unix_ms t) by (by rewrite <- Ht).
  destruct E as [E1 E2].
  assert (Hx : exec (RenewLease t expiry now) (settle_all h c') =
    Ok (put_lease (t_resource t) (with_expiry expiry (wl_revision l + 1) now false l) (settle_all h c'))).
  { simpl. unfold exec_renew, live, names. rewrite Hl, Ht, Hterm, bool_decide_eq_true_2 by done.
    replace (now <? wl_expires_at_ms l) with true by lia. simpl. unfold next_revision.
    by replace (wl_revision l <? i64_max) with true by lia. }
  eexists. split; [exact Hx|]. split.
  - clear Hx Hl. destruct t. unfold token_of in *. simpl in *. by simplify_eq.
  - unfold settle_txn. cbn [exec_txn]. by rewrite Hx.
Qed.

(** ** Publications *)

Record publications (c : Control) : Prop := {
  pub_fence : forall id p, publication_receipts c !! id = Some p ->
    exists l, work_leases c !! t_resource (pb_token p) = Some l /\
      (t_fence (pb_token p) < wl_fence l \/ t_fence (pb_token p) = wl_fence l /\ wl_terminal l = true);
  pub_once : forall id1 id2 p1 p2, publication_receipts c !! id1 = Some p1 -> publication_receipts c !! id2 = Some p2 ->
    t_resource (pb_token p1) = t_resource (pb_token p2) -> t_fence (pb_token p1) = t_fence (pb_token p2) -> id1 = id2;
  pub_range : forall res g, range_results c !! res = Some g ->
    exists id p, publication_receipts c !! id = Some p /\ t_resource (pb_token p) = res /\
      pb_result_id p = rg_result_id g /\ pb_result_ref p = rg_result_ref g;
  pub_job : forall job j rid, control_jobs c !! job = Some j -> cj_result_id j = Some rid ->
    exists id p, publication_receipts c !! id = Some p /\ pb_result_id p = rid /\ cj_result_ref j = Some (pb_result_ref p)
}.

(** A statement that publishes nothing. *)
Lemma publications_other c c' : publications c ->
  publication_receipts c' = publication_receipts c -> range_results c' = range_results c ->
  (forall res, lease_step (work_leases c !! res) (work_leases c' !! res)) ->
  (forall res l l', work_leases c !! res = Some l -> work_leases c' !! res = Some l' ->
     wl_fence l' = wl_fence l -> wl_terminal l = true -> wl_terminal l' = true) ->
  (forall job j, control_jobs c' !! job = Some j -> cj_result_id j = None \/
     exists j0, control_jobs c !! job = Some j0 /\ cj_result_id j = cj_result_id j0 /\ cj_result_ref j = cj_result_ref j0) ->
  publications c'.
Proof.
  intros [P1 P2 P3 P4] E1 E2 HL HT HJ. split.
  - intros id p. rewrite E1. intros Hp. destruct (P1 id p Hp) as (l & Hl & Hf).
    pose proof (HL (t_resource (pb_token p))) as HS. rewrite Hl in HS.
    destruct (work_leases c' !! t_resource (pb_token p)) as [l'|] eqn:El'; [|by inversion HS].
    exists l'. split; [done|]. pose proof (HT _ _ _ Hl El') as Ht.
    inversion HS; simplify_eq; destruct Hf as [Hf|[Hf Hf']]; try (left; lia); try (right; split; [congruence|auto]).
  - rewrite E1. done.
  - intros res g. rewrite E1, E2. apply P3.
  - intros job j rid Hj Hr. rewrite E1. destruct (HJ job j Hj) as [Hn|(j0 & Hj0 & Ei & Er)]; [congruence|].
    rewrite Er. rewrite Ei in Hr. by eapply P4.
Qed.

Lemma apply_range_cases res l row c c' : apply_range res l row c = Ok c' ->
  range_results c' = range_results c \/
  (range_results c !! res = None /\ range_results c' = <[res :=
     mkRangeRow (wl_job_id l) (wl_scope_json l) (pb_result_id row) (pb_result_ref row) (pb_accepted_at_ms row)]> (range_results c)).
Proof.
  unfold apply_range. destruct (negb _); [intros [= <-]; by left|].
  destruct (range_results c !! res) as [g|]; [by rewrite bool_decide_eq_true_2|].
  rewrite bool_decide_eq_false_2 by (by intros [??]). destruct (has_result _ _ _); [done|]. intros [= <-]. by right.
Qed.

Lemma apply_result_cases l row c c' : apply_result l row c = Ok c' ->
  control_jobs c' = control_jobs c \/
  exists j, control_jobs c !! wl_job_id l = Some j /\ control_jobs c' = <[wl_job_id l :=
    mkJobRow (cj_incarnation j) (cj_revision j + 1) (pb_result_job row) (Some (pb_result_ref row))
      (Some (pb_result_id row)) (cj_deleted j) (pb_accepted_at_ms row)]> (control_jobs c).
Proof.
  unfold apply_result. case_bool_decide; [intros [= <-]; by left|].
  destruct (control_jobs c !! wl_job_id l) as [j|] eqn:E; [|intros [= <-]; by left].
  destruct (next_revision _) as [v|] eqn:Ev; [|done]. simpl. case_match; [done|]. intros [= <-].
  apply next_revision_Ok in Ev as ->. right. by exists j.
Qed.

Lemma publications_publish id row c c' l : published id row c c' l -> publications c -> publications c'.
Proof.
  intros [D1 D2 D3 D4 D5 D6 D7 D8 D9] [P1 P2 P3 P4].
  pose proof (live_names _ _ _ D2) as Hn. apply bool_decide_eq_true in Hn.
  pose proof (live_terminal _ _ _ D2) as Hterm.
  assert (HN : forall id2 p2, publication_receipts c !! id2 = Some p2 ->
    t_resource (pb_token p2) = t_resource (pb_token row) -> t_fence (pb_token p2) <> t_fence (pb_token row)).
  { intros id2 p2 Hp2 Er Ef. destruct (P1 id2 p2 Hp2) as (l2 & Hl2 & Hf). rewrite Er, D1 in Hl2. simplify_eq.
    assert (t_fence (pb_token row) = wl_fence l2) by (by rewrite <- Hn). destruct Hf as [Hf|[_ Hf]]; [lia|congruence]. }
  assert (HP : forall id2 p2, publication_receipts c !! id2 = Some p2 -> publication_receipts c' !! id2 = Some p2).
  { intros id2 p2 Hp2. rewrite D6, lookup_insert_ne; [done|congruence]. }
  split.
  - intros id2 p2. rewrite D6, D5. destruct (decide (id = id2)) as [<-|Hne].
    + rewrite lookup_insert_eq. intros [= <-]. rewrite lookup_insert_eq. eexists. split; [done|]. right. simpl. by rewrite <- Hn.
    + rewrite lookup_insert_ne by done. intros Hp2. destruct (P1 id2 p2 Hp2) as (l2 & Hl2 & Hf).
      destruct (decide (t_resource (pb_token row) = t_resource (pb_token p2))) as [E|E].
      * rewrite E, lookup_insert_eq. eexists. split; [done|]. simpl. rewrite E, Hl2 in D1. simplify_eq.
        destruct Hf as [Hf|[Hf _]]; auto.
      * rewrite lookup_insert_ne by done. eauto.
  - intros id1 id2 p1 p2. rewrite D6. intros [[<- <-]|[Hne1 Hp1]]%lookup_insert_Some [[<- <-]|[Hne2 Hp2]]%lookup_insert_Some Er Ef; try done.
    + by destruct (HN id2 p2 Hp2).
    + by destruct (HN id1 p1 Hp1).
    + by eapply P2.
  - intros res g. destruct D8 as (c1 & HR & ->). destruct (apply_range_cases _ _ _ _ _ HR) as [E|[_ E]]; rewrite E.
    + simpl. intros Hg. destruct (P3 res g Hg) as (id2 & p2 & Hp2 & ?). eauto.
    + intros [[<- <-]|[_ Hg]]%lookup_insert_Some.
      * exists id, row. rewrite D6, lookup_insert_eq. done.
      * destruct (P3 res g Hg) as (id2 & p2 & Hp2 & ?). eauto.
  - intros job j rid. destruct D9 as (c1 & c2 & E1 & HR & ->).
    destruct (apply_result_cases _ _ _ _ HR) as [E|(j0 & Hj0 & E)]; rewrite E, ?E1.
    + intros Hj Hr. destruct (P4 job j rid Hj Hr) as (id2 & p2 & Hp2 & ?). eauto.
    + intros [[<- <-]|[_ Hj]]%lookup_insert_Some Hr.
      * simpl in *. simplify_eq. exists id, row. by rewrite D6, lookup_insert_eq.
      * destruct (P4 job j rid Hj Hr) as (id2 & p2 & Hp2 & ?). eauto.
Qed.

Lemma terminal_insert (m : gmap str LeaseRow) k l0 l1 : m !! k = Some l0 ->
  (wl_fence l1 = wl_fence l0 -> wl_terminal l0 = true -> wl_terminal l1 = true) ->
  forall res l l', m !! res = Some l -> <[k := l1]> m !! res = Some l' ->
    wl_fence l' = wl_fence l -> wl_terminal l = true -> wl_terminal l' = true.
Proof.
  intros Hk H res l l' Hl [[<- <-]|[Hne Hl']]%lookup_insert_Some; simplify_eq; [done|congruence].
Qed.

Lemma terminal_fresh (m : gmap str LeaseRow) k l1 : m !! k = None ->
  forall res l l', m !! res = Some l -> <[k := l1]> m !! res = Some l' ->
    wl_fence l' = wl_fence l -> wl_terminal l = true -> wl_terminal l' = true.
Proof. intros Hk res l l' Hl [[<- <-]|[Hne Hl']]%lookup_insert_Some; simplify_eq; congruence. Qed.

(** What a statement that publishes nothing leaves alone. *)
Lemma exec_unpublished s c r : (forall id row, s <> InsertPublication id row) -> exec s c = Ok r ->
  publication_receipts (after r) = publication_receipts c /\ range_results (after r) = range_results c /\
  (forall res l l', work_leases c !! res = Some l -> work_leases (after r) !! res = Some l' ->
     wl_fence l' = wl_fence l -> wl_terminal l = true -> wl_terminal l' = true) /\
  (forall job j, control_jobs (after r) !! job = Some j -> cj_result_id j = None \/
     exists j0, control_jobs c !! job = Some j0 /\ cj_result_id j = cj_result_id j0 /\ cj_result_ref j = cj_result_ref j0).
Proof.
  intros Hs H.
  assert (HJ : forall job j, control_jobs c !! job = Some j -> cj_result_id j = None \/
     exists j0, control_jobs c !! job = Some j0 /\ cj_result_id j = cj_result_id j0 /\ cj_result_ref j = cj_result_ref j0) by eauto.
  assert (HT : forall res l l', work_leases c !! res = Some l -> work_leases c !! res = Some l' ->
     wl_fence l' = wl_fence l -> wl_terminal l = true -> wl_terminal l' = true) by (intros; congruence).
  destruct s; simpl in H; try (by destruct (Hs id row));
    try (unfold exec_begin, exec_finish in H; repeat (case_match; simplify_eq/=); by split_and!).
  - unfold exec_acquire in H. destruct (_ <=? 0); [done|].
    destruct (work_leases c !! la_resource a) as [l0|] eqn:E; [case_match|]; simplify_eq/=; split_and!; try done.
    + apply (terminal_insert _ _ l0); [done|]. simpl. lia.
    + by apply terminal_fresh.
  - unfold exec_renew in H. destruct (work_leases c !! t_resource t) as [l0|] eqn:E; [|by simplify_eq/=].
    destruct (live t now l0); [|by simplify_eq/=]. destruct (next_revision _); [|done]. simplify_eq/=. split_and!; try done.
    by apply (terminal_insert _ _ l0).
  - unfold exec_release in H. destruct (work_leases c !! t_resource t) as [l0|] eqn:E; [|by simplify_eq/=].
    destruct (_ && _); [|by simplify_eq/=]. destruct (next_revision _); [|done]. simplify_eq/=. split_and!; try done.
    by apply (terminal_insert _ _ l0).
  - destruct (control_jobs c !! job) as [j|] eqn:E; simplify_eq/=; split_and!; try done.
    intros job' j [[<- <-]|[_ Hj]]%lookup_insert_Some; eauto.
  - destruct (control_jobs c !! job) as [j|] eqn:E; simplify_eq/=; split_and!; try done.
    intros job' j [[<- <-]|[_ Hj]]%lookup_insert_Some; eauto.
  - unfold exec_command in H. destruct (control_jobs c !! cr_job_id row) as [j0|] eqn:E; [|done].
    repeat (case_match; [done|]). simplify_eq/=. split_and!; try done.
    intros job' j [[<- <-]|[_ Hj]]%lookup_insert_Some; eauto.
Qed.

Lemma publications_step s c r : publications c -> exec s c = Ok r -> publications (after r).
Proof.
  intros HP H. destruct s; try (match type of H with exec ?s _ = _ =>
    destruct (exec_unpublished s c r ltac:(done) H) as (H1 & H2 & H3 & H4) end;
    eapply publications_other; [exact HP|exact H1|exact H2|intros; by eapply exec_lease|exact H3|exact H4]).
  apply exec_published in H as (l & Hp & _). by eapply publications_publish.
Qed.

Lemma empty_publications : publications empty_control.
Proof. split; intros *; simpl; by rewrite ?lookup_empty. Qed.

(** Receipts and range results are final. *)
Lemma receipts_step s c r : exec s c = Ok r ->
  publication_receipts c ⊆ publication_receipts (after r) /\ range_results c ⊆ range_results (after r) /\
  command_receipts c ⊆ command_receipts (after r).
Proof.
  intros H. destruct s; simpl in H; try (unfold exec_acquire, exec_renew, exec_release, exec_begin, exec_finish in H;
    repeat (case_match; simplify_eq/=); by split_and!).
  - unfold exec_renew in H. repeat (case_match; simplify_eq/=; [|by split_and!]). destruct (next_revision _); by simplify_eq/=.
  - unfold exec_release in H. repeat (case_match; simplify_eq/=; [|by split_and!]). destruct (next_revision _); by simplify_eq/=.
  - unfold exec_command in H. destruct (control_jobs c !! _) as [j0|]; [|done]. destruct (negb _); [done|].
    case_bool_decide as E; [done|]. case_match; [done|]. simplify_eq/=. split_and!; try done.
    apply insert_subseteq. by apply eq_None_not_Some.
  - apply exec_published in H as (l & [D1 D2 D3 D4 D5 D6 D7 D8 D9] & _). rewrite D6, D7. split_and!; try done.
    + by apply insert_subseteq.
    + destruct D8 as (c1 & HR & ->). destruct (apply_range_cases _ _ _ _ _ HR) as [->|[Hn ->]]; [done|].
      by apply insert_subseteq.
Qed.

Lemma receipts_all h c :
  publication_receipts c ⊆ publication_receipts (settle_all h c) /\ range_results c ⊆ range_results (settle_all h c) /\
  command_receipts c ⊆ command_receipts (settle_all h c).
Proof.
  apply (settle_all_keeps (fun c' => publication_receipts c ⊆ publication_receipts c' /\
     range_results c ⊆ range_results c' /\ command_receipts c ⊆ command_receipts c') (fun _ => True)); [|apply any_history|done].
  intros s c' r _ (H1 & H2 & H3) H. destruct (receipts_step _ _ _ H) as (R1 & R2 & R3).
  split_and!; by etransitivity.
Qed.

(** results are published once.  In every store the clients can reach, a
    lease publishes at most one result for each fence; every range result, and
    the result a job carries, is that of an accepted publication; and whatever
    runs afterwards, an accepted publication and a range's result stay as they
    are. *)
Theorem published_once h :
  let c := settle_all h empty_control in
  (forall id1 id2 p1 p2, publication_receipts c !! id1 = Some p1 -> publication_receipts c !! id2 = Some p2 ->
     t_resource (pb_token p1) = t_resource (pb_token p2) -> t_fence (pb_token p1) = t_fence (pb_token p2) -> id1 = id2) /\
  (forall res g, range_results c !! res = Some g ->
     exists id p, publication_receipts c !! id = Some p /\ t_resource (pb_token p) = res /\
     pb_result_id p = rg_result_id g /\ pb_result_ref p = rg_result_ref g) /\
  (forall job j rid, control_jobs c !! job = Some j -> cj_result_id j = Some rid ->
     exists id p, publication_receipts c !! id = Some p /\ pb_result_id p = rid /\ cj_result_ref j = Some (pb_result_ref p)) /\
  (forall h', publication_receipts c ⊆ publication_receipts (settle_all h' c) /\
     range_results c ⊆ range_results (settle_all h' c)).
Proof.
  intros c. destruct (settle_all_keeps publications (fun _ => True) (fun s c r _ => publications_step s c r) h
    empty_control (any_history h) empty_publications) as [P1 P2 P3 P4].
  split; [exact P2|]. split; [exact P3|]. split; [exact P4|]. intros h'. by destruct (receipts_all h' c) as (R1 & R2 & _).
Qed.

(** ** Commands *)

(** What the clients send: the applied revision is the one after the expected. *)
Definition client_stmt (s : Stmt) : Prop :=
  match s with InsertCommand _ row => cr_applied_revision row = cr_expected_revision row + 1 | _ => True end.

(** The row of a job after a statement. *)
Inductive job_step : option ControlJobRow -> option ControlJobRow -> Prop :=
| job_same o : job_step o o
| job_new j : cj_revision j = 1 -> job_step None (Some j)
| job_next j j' : cj_revision j' = cj_revision j + 1 -> cj_incarnation j' = cj_incarnation j -> job_step (Some j) (Some j').
#[local] Hint Constructors job_step : core.

Lemma job_step_insert (m : gmap Z ControlJobRow) k j job : job_step (m !! k) (Some j) ->
  job_step (m !! job) (<[k := j]> m !! job).
Proof. intros H. destruct (decide (k = job)) as [<-|]; by simplify_map_eq. Qed.

Lemma exec_job s c r : client_stmt s -> exec s c = Ok r -> forall job, job_step (control_jobs c !! job) (control_jobs (after r) !! job).
Proof.
  intros Hs H job. destruct s; simpl in H; try (unfold exec_acquire, exec_begin, exec_finish in H;
    repeat (case_match; simplify_eq/=); by auto).
  - unfold exec_renew in H. repeat (case_match; simplify_eq/=; [|by auto]). destruct (next_revision _); simplify_eq/=; auto.
  - unfold exec_release in H. repeat (case_match; simplify_eq/=; [|by auto]). destruct (next_revision _); simplify_eq/=; auto.
  - destruct (control_jobs c !! job0) as [j|] eqn:E; simplify_eq/=; [done|]. apply job_step_insert. rewrite E. by apply job_new.
  - destruct (control_jobs c !! job0) as [j|] eqn:E; simplify_eq/=. apply job_step_insert. rewrite E. by apply job_new.
  - unfold exec_command in H. destruct (control_jobs c !! cr_job_id row) as [j|] eqn:E; [|done].
    destruct (negb _) eqn:Er; [done|]. repeat (case_match; [done|]). simplify_eq/=. apply job_step_insert. rewrite E.
    bool_hyps. apply job_next; simpl; [lia|done].
  - apply exec_published in H as (l & [D1 D2 D3 D4 D5 D6 D7 D8 D9] & _). destruct D9 as (c1 & c2 & E1 & HR & ->).
    destruct (apply_result_cases _ _ _ _ HR) as [->|(j & Hj & ->)]; rewrite E1; [done|].
    apply job_step_insert. rewrite <- E1, Hj. by apply job_next.
Qed.

Record commands (c : Control) : Prop := {
  cmd_job : forall id r, command_receipts c !! id = Some r ->
    cr_applied_revision r = cr_expected_revision r + 1 /\
    exists j, control_jobs c !! cr_job_id r = Some j /\ cr_applied_revision r <= cj_revision j;
  cmd_once : forall id1 id2 r1 r2, command_receipts c !! id1 = Some r1 -> command_receipts c !! id2 = Some r2 ->
    cr_job_id r1 = cr_job_id r2 -> cr_expected_revision r1 = cr_expected_revision r2 -> id1 = id2
}.

Lemma job_step_le o o' j : job_step o o' -> o = Some j -> exists j', o' = Some j' /\ cj_revision j <= cj_revision j'.
Proof. intros H ->. inversion H; subst; eexists; (split; [done|lia]). Qed.

Lemma commands_other s c r : client_stmt s -> commands c -> exec s c = Ok r ->
  command_receipts (after r) = command_receipts c -> commands (after r).
Proof.
  intros Hs [C1 C2] H E. split; rewrite E; [|done]. intros id row Hr. destruct (C1 id row Hr) as (Ha & j & Hj & Hle).
  split; [done|]. destruct (job_step_le _ _ j (exec_job s c r Hs H _) Hj) as (j' & Hj' & Hle'). exists j'. split; [done|lia].
Qed.

(** Only a command files a receipt. *)
Lemma exec_receipts s c r : exec s c = Ok r -> command_receipts (after r) = command_receipts c \/
  exists id row, s = InsertCommand id row /\ command_receipts (after r) = <[id := row]> (command_receipts c).
Proof.
  intros H. destruct s; try (left; simpl in H;
    unfold exec_acquire, exec_begin, exec_finish in H; by repeat (case_match; simplify_eq/=)).
  - left. simpl in H. unfold exec_renew in H.
    repeat (case_match; simplify_eq/=; [|done]). by destruct (next_revision _); simplify_eq/=.
  - left. simpl in H. unfold exec_release in H.
    repeat (case_match; simplify_eq/=; [|done]). by destruct (next_revision _); simplify_eq/=.
  - right. exists id, row. split; [done|]. simpl in H. unfold exec_command in H.
    destruct (control_jobs c !! cr_job_id row); [|done]. by repeat (case_match; [done|]); simplify_eq/=.
  - left. simpl in H. apply exec_published in H as (l & [] & _). done.
Qed.

Lemma commands_step s c r : client_stmt s -> commands c -> exec s c = Ok r -> commands (after r).
Proof.
  intros Hs HC H. destruct s; try (apply (commands_other _ _ _ Hs HC H); simpl in H;
    unfold exec_acquire, exec_begin, exec_finish in H; by repeat (case_match; simplify_eq/=)).
  - apply (commands_other _ _ _ Hs HC H). simpl in H. unfold exec_renew in H.
    repeat (case_match; simplify_eq/=; [|done]). by destruct (next_revision _); simplify_eq/=.
  - apply (commands_other _ _ _ Hs HC H). simpl in H. unfold exec_release in H.
    repeat (case_match; simplify_eq/=; [|done]). by destruct (next_revision _); simplify_eq/=.
  - pose proof H as H0. simpl in H. unfold exec_command in H. destruct (control_jobs c !! cr_job_id row) as [j|] eqn:E; [|done].
    destruct (negb _) eqn:Er; [done|]. case_bool_decide as En; [done|]. case_match; [done|]. simplify_eq/=.
    apply eq_None_not_Some in En. bool_hyps. destruct HC as [C1 C2].
    assert (HB : forall id2 r2, command_receipts c !! id2 = Some r2 -> cr_job_id r2 = cr_job_id row ->
      cr_expected_revision r2 < cr_expected_revision row).
    { intros id2 r2 H2 Ej. destruct (C1 id2 r2 H2) as (Ha & j2 & Hj2 & Hle). rewrite Ej, E in Hj2. simplify_eq. lia. }
    split; simpl.
    + intros id2 r2 [[<- <-]|[Hne H2]]%lookup_insert_Some.
      * split; [done|]. rewrite lookup_insert_eq. eexists. split; [done|]. simpl. lia.
      * destruct (C1 id2 r2 H2) as (Ha & j2 & Hj2 & Hle). split; [done|].
        destruct (decide (cr_job_id row = cr_job_id r2)) as [Ej|Ej].
        -- rewrite Ej, lookup_insert_eq. eexists. split; [done|]. specialize (HB id2 r2 H2 (eq_sym Ej)). simpl. lia.
        -- rewrite lookup_insert_ne by done. eauto.
    + intros id1 id2 r1 r2 [[<- <-]|[Hn1 G1]]%lookup_insert_Some [[<- <-]|[Hn2 G2]]%lookup_insert_Some Ej Ee; try done.
      * specialize (HB id2 r2 G2 (eq_sym Ej)). lia.
      * specialize (HB id1 r1 G1 Ej). lia.
      * by eapply C2.
  - apply (commands_other _ _ _ Hs HC H). simpl in H. apply exec_published in H as (l & [] & _). done.
Qed.

(** no lost update.  In every store the clients can reach, two applied
    commands on a job never started from the same revision, each raised the
    revision it expected by one, and no revision is ever taken back: a further
    statement leaves a job's row as it is, creates it at revision 1, or writes
    the next revision. *)
Theorem no_lost_update h : Forall (Forall client_stmt) h ->
  let c := settle_all h empty_control in
  (forall id r, command_receipts c !! id = Some r ->
     cr_applied_revision r = cr_expected_revision r + 1 /\
     exists j, control_jobs c !! cr_job_id r = Some j /\ cr_applied_revision r <= cj_revision j) /\
  (forall id1 id2 r1 r2, command_receipts c !! id1 = Some r1 -> command_receipts c !! id2 = Some r2 ->
     cr_job_id r1 = cr_job_id r2 -> cr_expected_revision r1 = cr_expected_revision r2 -> id1 = id2) /\
  (forall s r job, client_stmt s -> exec s c = Ok r -> job_step (control_jobs c !! job) (control_jobs (after r) !! job)).
Proof.
  intros Hh c. assert (H0 : commands empty_control) by (split; intros *; simpl; by rewrite ?lookup_empty).
  destruct (settle_all_keeps commands client_stmt commands_step h empty_control Hh H0) as [C1 C2].
  split; [exact C1|]. split; [exact C2|]. intros s r job Hs Hr. by apply (exec_job s).
Qed.

(** ** Retries *)

(** The store as a request finds it. *)
Definition arrival (n : Net) : Control :=
  match turns n with [] => db n | u :: _ => settle_all (others u) (db n) end.

Lemma query_spec {A} (f : Control -> A) n : match query f n with
  | (Ok a, n') => a = f (arrival n) /\ db n' = arrival n
  | (Err _, n') => db n' = arrival n
  end.
Proof. unfold query, request, arrival. destruct (turns n) as [|u us]; [done|]. by destruct (delivery u). Qed.

Lemma publication_receipt_spec id n : match publication_receipt id n with
  | (Ok a, n') => db n' = arrival n /\ a = (fun p => pb_expected_job_revision p + 1) <$> publication_receipts (arrival n) !! id
  | (Err _, n') => db n' = arrival n
  end.
Proof.
  unfold publication_receipt, scalar_revision, m_bind, prefixed. pose proof (query_spec (fun c => (fun p =>
    pb_expected_job_revision p + 1) <$> publication_receipts c !! id) n) as H.
  destruct (query _ n) as [[a|e] n1]; [|done]. destruct H as [-> H].
  destruct (publication_receipts (arrival n) !! id) as [p|]; simpl; [|done].
  unfold m_lift, m_ret, u64_column. by destruct (_ <? 0).
Qed.

Lemma execute_spec s n : match execute s n with
  | (Ok r, n') => exec s (arrival n) = Ok r /\ db n' = after r
  | (Err _, n') => db n' = arrival n \/ exists r, exec s (arrival n) = Ok r /\ db n' = after r
  end.
Proof.
  unfold execute, request, arrival. destruct (turns n) as [|u us].
  - destruct (exec s (db n)); simpl; [done|by left].
  - destruct (delivery u); destruct (exec s _) eqn:E; simpl; eauto.
Qed.

Lemma stored_receipt id p t e rid ref job n : publication_receipts (arrival n) !! id = Some p ->
  0 <= pb_expected_job_revision p ->
  match publish_result id t e rid ref job n with
  | (Ok (Duplicate v), n') => v = pb_expected_job_revision p + 1 /\ db n' = arrival n
  | (Err _, n') => db n' = arrival n
  | _ => False
  end.
Proof.
  intros Hp He. unfold publish_result, m_bind. pose proof (publication_receipt_spec id n) as H. rewrite Hp in H.
  destruct (publication_receipt id n) as [[a|err] n1]; [|done]. by destruct H as [H ->].
Qed.

Lemma publish_applied id t e rid ref job n v n1 : is_u64 e ->
  publish_result id t e rid ref job n = (Ok (Applied v), n1) ->
  v = e + 1 /\ 1 <= e /\ exists now, publication_receipts (db n1) !! id = Some (mkPublicationRow t e rid ref job now).
Proof.
  intros He. unfold publish_result, m_bind. destruct (publication_receipt id n) as [[[w|]|err] n0]; try done.
  unfold unix_ms. destruct (now_ms n0 <? 0); [done|]. destruct (now_ms n0 <=? i64_max); [|done].
  unfold m_lift. destruct (token_params t); [|done].
  unfold i64_value. destruct (e =? 0) eqn:E0; [done|]. destruct (e <=? i64_max) eqn:E1; [|done].
  unfold mutation, m_bind, m_try.
  pose proof (execute_spec (InsertPublication id (mkPublicationRow t e rid ref job (now_ms n0))) n0) as H9.
  destruct (execute _ n0) as [[r|err] n2]; simpl.
  - destruct (changed r =? 1) eqn:Ec; [|done]. intros [= <- <-]. destruct H9 as [Hx ->].
    unfold is_u64, i64_max, u64_max in *. split; [lia|]. split; [lia|].
    simpl in Hx. apply exec_published in Hx as (l & [] & _). exists (now_ms n0). by rewrite pd_receipts0, lookup_insert_eq.
  - by case_match.
Qed.

Lemma arrival_receipts id p n : publication_receipts (db n) !! id = Some p -> publication_receipts (arrival n) !! id = Some p.
Proof.
  unfold arrival. destruct (turns n) as [|u us]; [done|]. intros Hp. destruct (receipts_all (others u) (db n)) as (R & _).
  by apply (lookup_weaken _ _ _ _ Hp).
Qed.

(** publishing again is harmless.  When a publication was answered as
    applied, its receipt is stored and the job's new revision is the one after
    the expected; and then, whatever transactions ran since, calling again under
    the same receipt changes nothing and answers with that same revision, or with
    a network error. *)
Theorem publish_retry id t e rid ref job n v n1 : is_u64 e ->
  publish_result id t e rid ref job n = (Ok (Applied v), n1) ->
  v = e + 1 /\ (exists p, publication_receipts (db n1) !! id = Some p /\ pb_token p = t /\
    pb_expected_job_revision p = e /\ pb_result_id p = rid /\ pb_result_ref p = ref /\ pb_result_job p = job) /\
  forall h n2 t' e' rid' ref' job', db n2 = settle_all h (db n1) ->
    match publish_result id t' e' rid' ref' job' n2 with
    | (Ok (Duplicate v'), n3) => v' = v /\ db n3 = arrival n2
    | (Err _, n3) => db n3 = arrival n2
    | _ => False
    end.
Proof.
  intros He H. destruct (publish_applied _ _ _ _ _ _ _ _ _ He H) as (-> & He1 & now & Hp).
  split; [done|]. split; [by eexists|]. intros h n2 t' e' rid' ref' job' Hn2.
  assert (Hp2 : publication_receipts (arrival n2) !! id = Some (mkPublicationRow t e rid ref job now)).
  { apply arrival_receipts. rewrite Hn2. destruct (receipts_all h (db n1)) as (R & _). by apply (lookup_weaken _ _ _ _ Hp). }
  apply (stored_receipt id _ t' e' rid' ref' job' n2) in Hp2; [exact Hp2|simpl; lia].
Qed.

(** ** Reconciliation *)

(** No other client, no lost message, a clock in range. *)
Definition quiet (n : Net) : Prop := turns n = [] /\ 0 <= now_ms n <= i64_max.

Lemma quiet_read_job what job n : quiet n -> 1 <= job <= i64_max ->
  read_job what job n = (Ok (control_jobs (db n) !! job), n).
Proof.
  intros [Ht Hn] Hj. unfold read_job, m_bind, m_lift, i64_value, prefixed, query, request.
  replace (job =? 0) with false by lia. replace (job <=? i64_max) with true by lia. rewrite Ht.
  by destruct n as [c us now]; simpl in *; subst.
Qed.

Lemma quiet_clock n : quiet n -> unix_ms n = (Ok (now_ms n), n).
Proof.
  intros [_ Hn]. unfold unix_ms. replace (now_ms n <? 0) with false by lia. by replace (now_ms n <=? i64_max) with true by lia.
Qed.

Lemma quiet_execute s n r : quiet n -> exec s (db n) = Ok r ->
  execute s n = (Ok r, mkNet (after r) [] (now_ms n)).
Proof. intros [Ht _] H. unfold execute, request. rewrite Ht, H. done. Qed.

Lemma quiet_seed job inc intent n : quiet n -> 1 <= job <= i64_max -> control_jobs (db n) !! job = None ->
  seed_job job inc intent n = (Ok tt, mkNet (put_job job (new_job inc intent (now_ms n)) (db n)) [] (now_ms n)).
Proof.
  intros Hq Hj Hn. unfold seed_job, m_bind. rewrite (quiet_clock n Hq). unfold m_lift, i64_value, prefixed.
  replace (job =? 0) with false by lia. replace (job <=? i64_max) with true by lia.
  rewrite (quiet_execute _ n (mkReply 1 None (put_job job (new_job inc intent (now_ms n)) (db n))) Hq); [done|].
  simpl. by rewrite Hn.
Qed.

Lemma quiet_receipt id n : quiet n -> command_receipts (db n) !! id = None -> command_receipt id n = (Ok None, n).
Proof.
  intros [Ht Hn] Hid. unfold command_receipt, scalar_revision, prefixed, query, request, m_bind. rewrite Ht, Hid.
  by destruct n as [c us now]; simpl in *; subst.
Qed.

Lemma quiet_command id job e command next deleted n j : quiet n -> 1 <= job <= i64_max -> 1 <= e < i64_max ->
  control_jobs (db n) !! job = Some j -> cj_revision j = e -> command_receipts (db n) !! id = None ->
  exists n', apply_command id job e command next deleted n = (Ok (Applied (e + 1)), n') /\ quiet n' /\
    control_jobs (db n') !! job = Some (mkJobRow (cj_incarnation j) (e + 1) next (cj_result_ref j) (cj_result_id j)
      deleted (now_ms n)) /\
    exists r, exec (InsertCommand id (mkCommandRow job e (e + 1) (mkEnvelope command next deleted) (now_ms n))) (db n) = Ok r /\
      db n' = after r.
Proof.
  intros Hq Hj He Hr <- Hid. pose proof Hq as [Ht Hn].
  unfold apply_command, m_bind at 1. rewrite (quiet_receipt _ _ Hq Hid).
  unfold m_bind, m_lift, i64_value, mutation, m_try. rewrite (quiet_clock _ Hq).
  unfold i64_max, u64_max in *.
  replace (cj_revision j + 1 <=? 18446744073709551615) with true by lia.
  replace (job =? 0) with false by lia. replace (job <=? 9223372036854775807) with true by lia.
  replace (cj_revision j =? 0) with false by lia. replace (cj_revision j <=? 9223372036854775807) with true by lia.
  replace (cj_revision j + 1 =? 0) with false by lia. replace (cj_revision j + 1 <=? 9223372036854775807) with true by lia.
  cbv beta iota. unfold m_bind. set (row := mkCommandRow _ _ _ _ _).
  set (c' := put_job job (mkJobRow (cj_incarnation j) (cj_revision j + 1) next (cj_result_ref j) (cj_result_id j) deleted (now_ms n))
    (set_commands (<[id := row]> (command_receipts (db n))) (db n))).
  assert (Hx : exec (InsertCommand id row) (db n) = Ok (mkReply 1 None c')).
  { simpl. unfold exec_command. simpl. rewrite Hr. replace (negb (cj_revision j =? cj_revision j)) with false by lia.
    rewrite Hid, bool_decide_eq_false_2 by (by intros [??]). by replace (cj_revision j + 1 <=? 0) with false by lia. }
  rewrite (quiet_execute _ _ _ Hq Hx). eexists. split; [done|]. split; [by split|]. split; [|by exists (mkReply 1 None c')].
  simpl. by rewrite lookup_insert_eq.
Qed.

Section Reconcile.
Context (encode_job : Job -> str) (sha256_hex : str -> str).

Definition reconcile_id (job e : Z) (deleted : bool) (next : str) : str :=
  lit "reconcile:" ++ sha256_hex (show_dec job ++ lit ":" ++ show_dec e ++ lit ":" ++ show_bool deleted ++ lit ":" ++ next).

(** What the clients send: commands as [client_stmt] has them, and under the id of
    a reconciliation only one for that job and revision. *)
Definition client_of (s : Stmt) : Prop := client_stmt s /\
  match s with
  | InsertCommand id row => forall job e deleted next, 0 <= job -> 0 <= e -> id = reconcile_id job e deleted next ->
      cr_job_id row = job /\ cr_expected_revision row = e
  | _ => True
  end.

Definition reachable (c : Control) : Prop := exists h, Forall (Forall client_of) h /\ c = settle_all h empty_control.

(** No two reconciliations of different jobs or revisions share an id. *)
Definition collision_free : Prop := forall job e deleted next job' e' deleted' next',
  0 <= job -> 0 <= e -> 0 <= job' -> 0 <= e' ->
  reconcile_id job e deleted next = reconcile_id job' e' deleted' next' -> job = job' /\ e = e'.

Record reconcilable (c : Control) : Prop := {
  rb_commands : commands c;
  rb_named : forall job e deleted next row, 0 <= job -> 0 <= e -> command_receipts c !! reconcile_id job e deleted next = Some row ->
    cr_job_id row = job /\ cr_expected_revision row = e
}.

Lemma reconcilable_step s c r : client_of s -> reconcilable c -> exec s c = Ok r -> reconcilable (after r).
Proof.
  intros [Hs Hn] [HC HN] H. split; [by eapply commands_step|]. intros job e deleted next row H1 H2.
  destruct (exec_receipts s c r H) as [E|(id & row' & -> & E)]; rewrite E; [by apply HN|].
  intros [[Ei <-]|[_ Hrow]]%lookup_insert_Some; [by apply (Hn _ _ _ _ H1 H2 Ei)|by eapply HN].
Qed.

Lemma reachable_reconcilable c : reachable c -> reconcilable c.
Proof.
  intros (h & Hh & ->). apply (settle_all_keeps _ client_of reconcilable_step); [done|].
  split; [split|]; intros *; simpl; by rewrite ?lookup_empty.
Qed.

Lemma reachable_exec s c r : client_of s -> reachable c -> exec s c = Ok r -> reachable (after r).
Proof.
  intros Hs (h & Hh & ->) H. exists (h ++ [[s]]). split; [apply Forall_app; split; [done|by apply Forall_singleton, Forall_singleton]|].
  unfold settle_all at 1. rewrite fold_left_app. fold (settle_all h empty_control). cbn [fold_left].
  unfold settle_txn. cbn [exec_txn]. by rewrite H.
Qed.

(** A job's own revision was not commanded yet. *)
Lemma unfiled c job j deleted next : 0 <= job -> 0 <= cj_revision j -> reconcilable c -> control_jobs c !! job = Some j ->
  command_receipts c !! reconcile_id job (cj_revision j) deleted next = None.
Proof.
  intros H1 H2 [HC HN] Hj. destruct (command_receipts c !! _) as [row|] eqn:E; [|done].
  destruct (HN _ _ _ _ _ H1 H2 E) as [E1 E2].
  destruct (cmd_job _ HC _ _ E) as (Ha & j' & Hj' & Hle). rewrite E1, Hj in Hj'. injection Hj' as <-. lia.
Qed.

(** One turn over an existing row answers. *)
Lemma turn_answers job desired n j : quiet n -> 1 <= job <= i64_max -> control_jobs (db n) !! job = Some j ->
  1 <= cj_revision j < i64_max -> reachable (db n) ->
  exists n' j', reconcile_turn sha256_hex job desired n =
      (Ok (Some (Some (cj_incarnation j, cj_revision j', negb (bool_decide (is_Some desired))))), n') /\
    control_jobs (db n') !! job = Some j' /\ cj_deleted j' = negb (bool_decide (is_Some desired)) /\
    cj_incarnation j' = cj_incarnation j /\ (forall intent, desired = Some intent -> cj_intent j' = intent) /\
    cj_revision j' <= cj_revision j + 1 /\ quiet n' /\ (collision_free -> reachable (db n')).
Proof.
  intros Hq Hj Hr He Hc. unfold reconcile_turn. unfold m_bind at 1. rewrite (quiet_read_job _ _ _ Hq Hj), Hr.
  unfold u64_column, m_lift. replace (cj_revision j <? 0) with false by lia.
  destruct (_ && _) eqn:E.
  - apply andb_true_iff in E as [E1 E2]. apply eqb_prop in E1. exists n, j. rewrite <- E1. split; [done|].
    split_and!; try done; [|lia]. intros intent ->. by apply bool_decide_eq_true in E2.
  - unfold m_bind at 1. unfold m_bind at 1. set (deleted := negb (bool_decide (is_Some desired))).
    set (next := default (cj_intent j) desired).
    destruct (quiet_command (reconcile_id job (cj_revision j) deleted next) job (cj_revision j)
      (if deleted then lit "delete" else lit "replace_intent") next deleted n j Hq Hj He Hr eq_refl
      (unfiled (db n) job j deleted next ltac:(lia) ltac:(lia) (reachable_reconcilable _ Hc) Hr)) as (n' & Hcmd & Hq' & Hn' & r & Hx & Hdb).
    unfold reconcile_id in Hcmd. rewrite Hcmd. exists n'. eexists. split; [|split; [exact Hn'|]]; [done|].
    split_and!; try done; [by intros intent -> |]. intros Hcf. rewrite Hdb. eapply reachable_exec; [|exact Hc|exact Hx].
    split; [done|]. intros job' e' deleted' next' H1 H2 Ei. by destruct (Hcf job (cj_revision j) deleted next job' e' deleted' next' ltac:(lia) ltac:(lia) H1 H2 Ei) as [<- <-].
Qed.

(** C29: on a quiet network reconciliation succeeds.  Whatever transactions made
    the store, as long as a command filed under a reconciliation's id was of that
    job and revision and the job's revision is not exhausted, it answers with the
    job's stored incarnation, revision and deletion mark, the row carries the
    desired intent, and a job that is gone on both sides is left alone.  The
    network is as quiet afterwards, the revision has risen by at most one (two,
    where the row was new), and, unless two reconciliations' hashes collide, the
    store is again such a store: so the next edit or deletion converges too. *)
Theorem reconcile_converges job desired n : quiet n -> 1 <= job <= i64_max -> reachable (db n) ->
  (forall j, control_jobs (db n) !! job = Some j -> 1 <= cj_revision j < i64_max) ->
  exists a n', reconcile_job encode_job sha256_hex job desired n = (Ok a, n') /\ quiet n' /\
    (collision_free -> reachable (db n')) /\
    match a with
    | None => desired = None /\ control_jobs (db n) !! job = None /\ n' = n
    | Some (inc, rev, deleted) =>
        exists j, control_jobs (db n') !! job = Some j /\ cj_incarnation j = inc /\ cj_revision j = rev /\
          cj_deleted j = deleted /\ deleted = negb (bool_decide (is_Some desired)) /\
          (forall d, desired = Some d -> cj_intent j = encode_job d) /\
          (forall j0, control_jobs (db n) !! job = Some j0 -> cj_incarnation j0 = inc) /\
          rev <= match control_jobs (db n) !! job with Some j0 => cj_revision j0 + 1 | None => 2 end
    end.
Proof.
  intros Hq Hj Hc He. unfold reconcile_job.
  assert (HA : forall n1 j1 tries, quiet n1 -> control_jobs (db n1) !! job = Some j1 -> 1 <= cj_revision j1 < i64_max ->
    reachable (db n1) ->
    exists n' j', reconcile_loop sha256_hex (S tries) job (encode_job <$> desired) n1 =
      (Ok (Some (cj_incarnation j1, cj_revision j', negb (bool_decide (is_Some desired)))), n') /\
      control_jobs (db n') !! job = Some j' /\ cj_deleted j' = negb (bool_decide (is_Some desired)) /\
      cj_incarnation j' = cj_incarnation j1 /\ (forall d, desired = Some d -> cj_intent j' = encode_job d) /\
      cj_revision j' <= cj_revision j1 + 1 /\ quiet n' /\ (collision_free -> reachable (db n'))).
  { intros n1 j1 tries Hq1 Hr1 He1 Hc1.
    destruct (turn_answers job (encode_job <$> desired) n1 j1 Hq1 Hj Hr1 He1 Hc1) as (n' & j' & Ht & H1 & H2 & H3 & H4 & H5 & H6 & H7).
    exists n', j'. simpl. unfold m_bind at 1. rewrite Ht.
    assert (Es : bool_decide (is_Some (encode_job <$> desired)) = bool_decide (is_Some desired)) by (apply bool_decide_ext; by rewrite fmap_is_Some).
    rewrite Es in *. split_and!; try done. intros d ->. by apply H4. }
  destruct (control_jobs (db n) !! job) as [j|] eqn:Er.
  - destruct (HA n j 3%nat Hq Er (He j eq_refl) Hc) as (n' & j' & H0 & H1 & H2 & H3 & H4 & H5 & H6 & H7).
    eexists _, n'. split; [exact H0|]. split; [done|]. split; [done|]. simpl. exists j'. split_and!; try done. by intros j0 [= <-].
  - destruct desired as [d|].
    2:{ eexists None, n. split; [|by split_and!]. cbn [reconcile_loop fmap option_fmap option_map]. unfold m_bind at 1, reconcile_turn, m_bind at 1.
        by rewrite (quiet_read_job _ _ _ Hq Hj), Er. }
    set (inc := lit "job-" ++ sha256_hex (encode_job d)).
    set (n1 := mkNet (put_job job (new_job inc (encode_job d) (now_ms n)) (db n)) [] (now_ms n)).
    assert (Hn1 : control_jobs (db n1) !! job = Some (new_job inc (encode_job d) (now_ms n))).
    { subst n1. simpl. by rewrite lookup_insert_eq. }
    assert (Hc1 : reachable (db n1)).
    { apply (reachable_exec (SeedJob job inc (encode_job d) (now_ms n)) (db n) (mkReply 1 None (db n1))); [by split|done|].
      simpl. by rewrite Er. }
    destruct (HA n1 (new_job inc (encode_job d) (now_ms n)) 2%nat) as (n' & j' & H0 & H1 & H2 & H3 & H4 & H5 & H6 & H7); try done.
    { by destruct Hq as [_ Hq]. }
    eexists _, n'. split.
    + change (reconcile_loop sha256_hex 4 job (encode_job <$> Some d) n) with
        ((let# r := reconcile_turn sha256_hex job (Some (encode_job d)) in
          match r with Some answer => m_ret answer | None => reconcile_loop sha256_hex 3 job (encode_job <$> Some d) end) n).
      unfold m_bind at 1, reconcile_turn, m_bind at 1. rewrite (quiet_read_job _ _ _ Hq Hj), Er.
      unfold m_bind at 1. rewrite (quiet_seed _ _ _ _ Hq Hj Er). exact H0.
    + split; [done|]. split; [done|]. simpl in *. exists j'. by split_and!.
Qed.
End Reconcile.

(** ** Concrete clients *)

Definition sample_lease : LeaseArgs :=
  mkLeaseArgs (lit "work/job/1/download") (lit "c") 1 (lit "inc") (lit "a") (lit "boot") (lit "download") (lit "{}") 1.

Definition seeded : Control := settle_all [[SeedJob 1 (lit "inc") (lit "{}") 5]] empty_control.

Definition grant_at (s : Stmt) (c : Control) : option LeaseToken :=
  match exec s c with Ok r => returning r | Err _ => None end.
Definition after_of (s : Stmt) (c : Control) : Control :=
  match exec s c with Ok r => after r | Err _ => c end.

Lemma granted_at s c t : grant_at s c = Some t -> granted s t c (after_of s c).
Proof. unfold grant_at, after_of, granted. destruct (exec s c) as [r|]; [|done]. by exists r. Qed.

(** The node [a] acquires; its lease expires and the node [b] acquires. *)
Lemma lease_fencing_witness :
  let s1 := InsertLease sample_lease 30010 10 in
  let s2 := InsertLease (mkLeaseArgs (la_resource sample_lease) (lit "c") 1 (lit "inc") (lit "b") (lit "boot")
              (lit "download") (lit "{}") 1) 60020 30010 in
  exists t1 t2, t_resource t2 = t_resource t1 /\ t_fence t1 < t_fence t2 /\
    refused (RenewLease t1 90000 30011) (after_of s2 (after_of s1 seeded)).
Proof.
  intros s1 s2.
  exists (mkToken (la_resource sample_lease) (lit "a") (lit "boot") 1 1 30010),
    (mkToken (la_resource sample_lease) (lit "b") (lit "boot") 2 2 60020).
  pose proof (granted_at s1 seeded (mkToken (la_resource sample_lease) (lit "a") (lit "boot") 1 1 30010) ltac:(by vm_compute)) as G1.
  pose proof (granted_at s2 (after_of s1 seeded) (mkToken (la_resource sample_lease) (lit "b") (lit "boot") 2 2 60020) ltac:(by vm_compute)) as G2.
  destruct (lease_fencing _ _ _ _ [] _ _ _ [] G1 G2 eq_refl) as (_ & _ & H3 & H4).
  split; [done|]. split; [by eapply H3|]. by apply H4.
Defined.

(** Another node's attempt, before the expiry, changes nothing. *)
Lemma lease_held_until_expiry_witness :
  let t := mkToken (la_resource sample_lease) (lit "a") (lit "boot") 1 1 30010 in
  let h := [[InsertLease (mkLeaseArgs (la_resource sample_lease) (lit "c") 1 (lit "inc") (lit "b") (lit "boot")
              (lit "download") (lit "{}") 1) 60020 20000]] in
  holds t (settle_all h (after_of (InsertLease sample_lease 30010 10) seeded)).
Proof.
  intros t h.
  apply (lease_held_until_expiry (InsertLease sample_lease 30010 10) t seeded).
  - apply granted_at. by vm_compute.
  - repeat constructor; vm_compute; done.
Defined.

Lemma no_lost_update_witness :
  let cmd n := InsertCommand (show_dec n) (mkCommandRow 1 n (n + 1) (mkEnvelope [] [] false) 9) in
  let h := [[SeedJob 1 (lit "inc") (lit "{}") 5]; [cmd 1]; [cmd 1]; [cmd 2]] in
  exists j, control_jobs (settle_all h empty_control) !! 1 = Some j /\ cj_revision j = 3 /\
  forall id1 id2 r1 r2, command_receipts (settle_all h empty_control) !! id1 = Some r1 ->
    command_receipts (settle_all h empty_control) !! id2 = Some r2 ->
    cr_job_id r1 = cr_job_id r2 -> cr_expected_revision r1 = cr_expected_revision r2 -> id1 = id2.
Proof.
  intros cmd h. eexists. split; [by vm_compute|]. split; [done|].
  apply (no_lost_update h). repeat constructor.
Defined.

Definition sample_net (c : Control) : Net := mkNet c [] 20.

Lemma publish_retry_witness :
  let c := after_of (InsertLease sample_lease 30010 10) seeded in
  let t := mkToken (la_resource sample_lease) (lit "a") (lit "boot") 1 1 30010 in
  let publish := publish_result (lit "r") t 1 (lit "id") (lit "ref") (lit "{}") in
  match publish (mkNet (db (snd (publish (sample_net c)))) [] 25) with
  | (Ok (Duplicate v), _) => v = 2
  | (Err _, _) => True
  | _ => False
  end.
Proof.
  intros c t publish.
  destruct (publish_retry (lit "r") t 1 (lit "id") (lit "ref") (lit "{}") (sample_net c) 2 (snd (publish (sample_net c)))
    ltac:(done) ltac:(by vm_compute)) as (_ & _ & H).
  specialize (H [] (mkNet (db (snd (publish (sample_net c)))) [] 25) t 1 (lit "id") (lit "ref") (lit "{}") eq_refl).
  fold publish in H. destruct (publish (mkNet _ [] 25)) as [[[]|] ?]; try done. by destruct H.
Defined.

Lemma digits_cut a b x y : Forall (fun c => is_ascii_digit c = true) a -> Forall (fun c => is_ascii_digit c = true) b ->
  a ++ lit ":" ++ x = b ++ lit ":" ++ y -> a = b /\ x = y.
Proof.
  intros Ha. revert b. induction Ha as [|c a Hc _ IH]; intros b Hb E; destruct Hb as [|c' b Hc' Hb].
  - split; [done|]. by injection E.
  - injection E as <- _. vm_compute in Hc'. done.
  - injection E as -> _. vm_compute in Hc. done.
  - injection E as <- E. destruct (IH b Hb E) as [-> ->]. done.
Qed.

(** The whole text, kept instead of its hash, does not collide. *)
Lemma text_collision_free : collision_free (fun s => s).
Proof.
  intros job e deleted next job' e' deleted' next' H1 H2 H3 H4 E. apply (inj (app (lit "reconcile:"))) in E.
  apply digits_cut in E as [Ej E]; [|by apply show_dec_digits..]. apply digits_cut in E as [Ee _]; [|by apply show_dec_digits..].
  split; by apply show_dec_inj.
Qed.

Lemma seeded_reachable : reachable (fun s => s) seeded.
Proof. exists [[SeedJob 1 (lit "inc") (lit "{}") 5]]. split; [|done]. by apply Forall_singleton, Forall_singleton. Qed.

(** A job is edited and then deleted. *)
Definition edited_job : option Job := head (jobs (fst (admit_url queue_default 0 (lit "b") (lit "u") None 0))).

Lemma reconcile_converges_witness :
  exists rev n1 n2, reconcile_job name (fun s => s) 1 edited_job (sample_net seeded) = (Ok (Some (lit "inc", 2, false)), n1) /\
    reconcile_job name (fun s => s) 1 None n1 = (Ok (Some (lit "inc", rev, true)), n2) /\
    exists j, control_jobs (db n2) !! 1 = Some j /\ cj_deleted j = true.
Proof.
  destruct (reconcile_converges name (fun s => s) 1 edited_job (sample_net seeded)) as (a & n1 & H1 & Q1 & R1 & _);
    [by split|by split|apply seeded_reachable| |].
  { intros j. assert (control_jobs seeded !! 1 = Some (new_job (lit "inc") (lit "{}") 5)) as E by (by vm_compute).
    simpl. rewrite E. by intros [= <-]. }
  assert (X : match reconcile_job name (fun s => s) 1 edited_job (sample_net seeded) with
    | (Ok a, n1) => Some (a, control_jobs (db n1) !! 1) | _ => None end =
    Some (Some (lit "inc", 2, false), Some (mkJobRow (lit "inc") 2 (lit "b") None None false 20))) by by vm_compute.
  rewrite H1 in X. injection X as -> E1.
  destruct (reconcile_converges name (fun s => s) 1 None n1 Q1 ltac:(by split) (R1 text_collision_free)) as (a2 & n2 & H2 & _ & _ & A2).
  { intros j. rewrite E1. by intros [= <-]. }
  destruct a2 as [[[inc rev] del]|]; [|destruct A2 as (_ & A2 & _); by rewrite E1 in A2].
  destruct A2 as (j & J1 & J2 & J3 & J4 & J5 & _ & J6 & _). specialize (J6 _ E1). cbn in J5, J6. subst del inc.
  exists rev, n1, n2. rewrite J5, <- J6 in H2. split; [exact H1|]. split; [exact H2|]. exists j. split; [exact J1|congruence].
Defined.

