(* ===== verification/Par2.v ===== *)
(** * The PAR2 reader ([crates/nzbd-par2/src/lib.rs]) and the quick verification
    ([crates/nzbd-post/src/par2.rs])

    [scan] walks the packets of one recovery file; [load_set] merges the files of
    a directory; [quick_check_file] compares a downloaded file's CRC with the
    slice CRCs of the recovery set without reading the file.  The theorems: the
    walk inverts the writing of packets and reads a torn file as far as its
    packets are whole; the quick check decides whether the data is the original
    up to a CRC collision. *)

From S2P Require Import Prelude RustStr Crc32.

(** ** Packets *)

Definition le_value (bs : bytes) : Z := foldr (fun b acc => b + 256 * acc) 0 bs.

Fixpoint le_bytes (n : nat) (v : Z) : bytes :=
  match n with
  | O => []
  | S n' => v mod 256 :: le_bytes n' (v / 256)
  end.

(** [&b[lo..hi]] of a slice long enough. *)
Definition sub (lo hi : nat) (b : bytes) : bytes := take (hi - lo) (drop lo b).

Definition chars (s : String.string) : bytes := lit s.

(** [PAR2\0PKT] *)
Definition MAGIC : bytes := chars "PAR2" ++ [0] ++ chars "PKT".

Definition PT_MAIN : bytes := chars "PAR 2.0" ++ [0] ++ chars "Main" ++ [0; 0; 0; 0].
Definition PT_FILEDESC : bytes := chars "PAR 2.0" ++ [0] ++ chars "FileDesc".
Definition PT_IFSC : bytes := chars "PAR 2.0" ++ [0] ++ chars "IFSC" ++ [0; 0; 0; 0].
Definition PT_RECVSLIC : bytes := chars "PAR 2.0" ++ [0] ++ chars "RecvSlic".

Record FileDesc := mkDesc {
  fd_id : bytes;
  fd_name : str;
  fd_length : Z;
  fd_md5_16k : bytes
}.

Record Scan := mkScan {
  slice_size : Z;
  descs : list FileDesc;
  crcs : list (bytes * list Z);
  exponents : list Z
}.

Definition Scan_default : Scan := mkScan 0 [] [] [].

Definition has_descs (s : Scan) : bool := negb (bool_decide (descs s = [])).

Definition is_par2 (head : bytes) : bool := bool_decide (take (length MAGIC) head = MAGIC).

(** [body[16..].chunks_exact(20)]: the CRC is the last four bytes of each. *)
Fixpoint slice_crcs_of (fuel : nat) (b : bytes) : list Z :=
  match fuel with
  | O => []
  | S fuel' =>
      if (length b <? 20)%nat then []
      else le_value (sub 16 20 b) :: slice_crcs_of fuel' (drop 20 b)
  end.

Definition lossy_name (b : bytes) : str := trim_end_matches (Z.eqb 0) (from_utf8_lossy b).

(** One packet; the ids seen, and what was read so far. *)
Definition apply_packet (st : list bytes * Scan) (ptype body : bytes) : list bytes * Scan :=
  let '(seen, out) := st in
  if bool_decide (ptype = PT_MAIN) && (12 <=? length body)%nat then
    (seen, mkScan (le_value (sub 0 8 body)) (descs out) (crcs out) (exponents out))
  else if bool_decide (ptype = PT_FILEDESC) && (56 <=? length body)%nat then
    let id := sub 0 16 body in
    if bool_decide (id ∈ seen) then (seen, out)
    else
      let d := mkDesc id (lossy_name (drop 56 body)) (le_value (sub 48 56 body)) (sub 32 48 body) in
      (seen ++ [id], mkScan (slice_size out) (descs out ++ [d]) (crcs out) (exponents out))
  else if bool_decide (ptype = PT_IFSC) && (16 <=? length body)%nat then
    let id := sub 0 16 body in
    if existsb (fun '(k, _) => bool_decide (k = id)) (crcs out) then (seen, out)
    else
      let v := slice_crcs_of (length body) (drop 16 body) in
      (seen, mkScan (slice_size out) (descs out) (crcs out ++ [(id, v)]) (exponents out))
  else if bool_decide (ptype = PT_RECVSLIC) && (4 <=? length body)%nat then
    let e := le_value (sub 0 4 body) in
    if bool_decide (e ∈ exponents out) then (seen, out)
    else (seen, mkScan (slice_size out) (descs out) (crcs out) (exponents out ++ [e]))
  else (seen, out).

Definition usize_limit : Z := 2 ^ 64.

(** The walk, at byte [pos] with [rest] ahead.  [pos + len] overflows a [usize]
    when the length field is close to [2^64]: the addition panics, or wraps to a
    position before [pos] at which the slice of the body panics. *)
Fixpoint scan_loop (fuel : nat) (pos : Z) (rest : bytes) (st : list bytes * Scan) : run (list bytes * Scan) :=
  match fuel with
  | O => Ret st
  | S fuel' =>
      if (length rest <? 64)%nat then Ret st
      else if negb (bool_decide (take 8 rest = MAGIC)) then scan_loop fuel' (pos + 4) (drop 4 rest) st
      else
        let len := le_value (sub 8 16 rest) in
        if len <? 64 then Ret st
        else if usize_limit <=? pos + len then Panic
        else if Z.of_nat (length rest) <? len then Ret st
        else
          let n := Z.to_nat len in
          scan_loop fuel' (pos + len) (drop n rest) (apply_packet st (sub 48 64 rest) (sub 64 n rest))
  end.

Definition scan (b : bytes) : run Scan :=
  let! st := scan_loop (S (length b)) 0 b ([], Scan_default) in Ret (snd st).

(** ** The recovery set of a directory *)

Record Par2File := mkPar2File {
  pf_id : bytes;
  pf_name : str;
  pf_length : Z;
  pf_md5_16k : bytes;
  pf_slice_crcs : list Z
}.

Record Par2Set := mkPar2Set {
  ps_slice_size : Z;
  ps_files : list Par2File;
  ps_recovery_blocks : Z;
  ps_main_path : option str
}.

(** [descs.insert]: the last description of an id, at the place of the first. *)
Fixpoint insert_desc (d : FileDesc) (l : list FileDesc) : list FileDesc :=
  match l with
  | [] => [d]
  | d' :: l' => if bool_decide (fd_id d' = fd_id d) then d :: l' else d' :: insert_desc d l'
  end.

Definition merge_scan (acc : Scan) (s : Scan) : Scan :=
  mkScan (if 0 <? slice_size s then slice_size s else slice_size acc)
    (fold_left (fun l d => insert_desc d l) (descs s) (descs acc))
    (fold_left (fun l '(id, v) => if existsb (fun '(k, _) => bool_decide (k = id)) l then l else l ++ [(id, v)]) (crcs s) (crcs acc))
    (fold_left (fun l e => if bool_decide (e ∈ l) then l else l ++ [e]) (exponents s) (exponents acc)).

(** The smallest file with descriptions is the main one, a later one first. *)
Definition pick_main (main : option str * Z) (path : str) (b : bytes) (s : Scan) : option str * Z :=
  if has_descs s && (Z.of_nat (length b) <=? snd main) then (Some path, Z.of_nat (length b)) else main.

Fixpoint merge_scans (files : list (str * bytes)) (acc : Scan) (main : option str * Z) : run (Scan * option str) :=
  match files with
  | [] => Ret (acc, fst main)
  | (path, b) :: files' => let! s := scan b in merge_scans files' (merge_scan acc s) (pick_main main path b s)
  end.

Definition lookup_crcs (id : bytes) (l : list (bytes * list Z)) : list Z :=
  match List.find (fun '(k, _) => bool_decide (k = id)) l with Some (_, v) => v | None => [] end.

(** [load_dir], over the readable [*.par2] files in name order. *)
Definition load_set (files : list (str * bytes)) : run (option Par2Set) :=
  let! (s, main) := merge_scans files Scan_default (None, u64_max) in
  if bool_decide (descs s = []) || (slice_size s =? 0) then Ret None
  else
    Ret (Some (mkPar2Set (slice_size s)
      (map (fun d => mkPar2File (fd_id d) (fd_name d) (fd_length d) (fd_md5_16k d) (lookup_crcs (fd_id d) (crcs s))) (descs s))
      (Z.of_nat (length (exponents s))) main)).

(** ** Quick verification *)

Section Quick.
Context {H : Type} {hasher : Crc32Hasher H}.

(** [zero_crc]: the hasher over [len] zero bytes, 8192 at a time. *)
Fixpoint zero_loop (fuel : nat) (h : H) (left : Z) : H :=
  match fuel with
  | O => h
  | S fuel' =>
      if left <=? 0 then h
      else
        let n := Z.min left 8192 in
        zero_loop fuel' (hasher_update h (replicate (Z.to_nat n) 0)) (left - n)
  end.

Definition zero_crc (len : Z) : Z :=
  hasher_finalize (zero_loop (Z.to_nat (len / 8192 + 1)) hasher_new len).

Definition div_ceil (a b : Z) : Z := (a + b - 1) / b.

(** The fold of the slice CRCs. *)
Definition fold_crcs (slice : Z) (l : list Z) : option Z :=
  fold_left (fun acc crc => Some (match acc with None => crc | Some prev => crc32_combine prev crc slice end)) l None.

Definition quick_check_file (f : Par2File) (slice disk_len whole_crc : Z) : bool :=
  if negb (disk_len =? pf_length f) || bool_decide (pf_slice_crcs f = []) || (slice =? 0) then false
  else
    let n_slices := div_ceil (pf_length f) slice in
    if negb (Z.of_nat (length (pf_slice_crcs f)) =? n_slices) then false
    else
      let pad := wrap64 (wrap64 (n_slices * slice) - pf_length f) in
      let actual := if 0 <? pad then crc32_combine whole_crc (zero_crc pad) pad else whole_crc in
      bool_decide (fold_crcs slice (pf_slice_crcs f) = Some actual).

Record DownloadEvidence := mkEvidence { ev_name : str; ev_disk_len : Z; ev_crc32 : option Z }.

Inductive VerifyResult :=
| Intact | Repairable (blocks_available blocks_needed : Z) | NeedMoreBlocks (blocks_needed : Z) | Unrepairable.

Definition file_ok (set : Par2Set) (evidence : list DownloadEvidence) (f : Par2File) : bool :=
  match List.find (fun e => bool_decide (ev_name e = pf_name f)) evidence with
  | Some e =>
      match ev_crc32 e with
      | Some crc => quick_check_file f (ps_slice_size set) (ev_disk_len e) crc
      | None => false
      end
  | None => false
  end.

Definition quick_verify (set : Par2Set) (evidence : list DownloadEvidence) : VerifyResult :=
  if forallb (file_ok set evidence) (ps_files set) then Intact
  else Repairable (ps_recovery_blocks set) 0.

End Quick.

(** ** Writing packets *)

Record Packet := mkPacket { pk_hash : bytes; pk_set : bytes; pk_type : bytes; pk_body : bytes }.

Definition packet_len (p : Packet) : Z := 64 + Z.of_nat (length (pk_body p)).

Definition packet_bytes (p : Packet) : bytes :=
  MAGIC ++ le_bytes 8 (packet_len p) ++ pk_hash p ++ pk_set p ++ pk_type p ++ pk_body p.

Record packet_ok (p : Packet) : Prop := {
  po_hash : length (pk_hash p) = 16%nat;
  po_set : length (pk_set p) = 16%nat;
  po_type : length (pk_type p) = 16%nat
}.

Lemma length_le_bytes n v : length (le_bytes n v) = n.
Proof. revert v. induction n as [|n IH]; intros v; simpl; [done|]. by rewrite IH. Qed.

Lemma le_value_bytes n : forall v, 0 <= v < 256 ^ Z.of_nat n -> le_value (le_bytes n v) = v.
Proof.
  induction n as [|n IH]; intros v Hv; [simpl in *; lia|]. cbn [le_bytes le_value foldr].
  rewrite Nat2Z.inj_succ, Z.pow_succ_r in Hv by lia. change (foldr _ 0 (le_bytes n (v / 256))) with (le_value (le_bytes n (v / 256))).
  rewrite IH.
  - pose proof (Z.div_mod v 256 ltac:(lia)). lia.
  - split; [apply Z.div_pos; lia|]. apply Z.div_lt_upper_bound; lia.
Qed.

Lemma sub_app lo (a b c : bytes) hi : length a = lo -> length b = (hi - lo)%nat -> sub lo hi (a ++ b ++ c) = b.
Proof. intros <- Hb. unfold sub. by rewrite drop_app_length, <- Hb, take_app_length. Qed.

Lemma length_packet p : packet_ok p -> Z.of_nat (length (packet_bytes p)) = packet_len p.
Proof.
  intros [H1 H2 H3]. unfold packet_bytes, packet_len. rewrite !length_app, length_le_bytes, H1, H2, H3.
  change (length MAGIC) with 8%nat. lia.
Qed.

(** The header and the body of a packet at the front of the input. *)
Lemma packet_fields p tl : packet_ok p -> packet_len p < usize_limit ->
  take 8 (packet_bytes p ++ tl) = MAGIC /\ le_value (sub 8 16 (packet_bytes p ++ tl)) = packet_len p /\
  sub 48 64 (packet_bytes p ++ tl) = pk_type p /\ sub 64 (length (packet_bytes p)) (packet_bytes p ++ tl) = pk_body p.
Proof.
  intros Hp Hl. pose proof (length_packet p Hp) as HL. destruct Hp as [H1 H2 H3].
  set (n := length (packet_bytes p)) in *. unfold packet_bytes. rewrite <- !app_assoc. split; [done|]. split_and!.
  - rewrite (sub_app 8 MAGIC _ _ 16) by (rewrite ?length_le_bytes; done).
    apply le_value_bytes. unfold packet_len, usize_limit in *. change (256 ^ Z.of_nat 8) with (2 ^ 64). lia.
  - rewrite (app_assoc MAGIC), (app_assoc (MAGIC ++ _)), (app_assoc ((MAGIC ++ _) ++ _)).
    apply sub_app; rewrite ?length_app, ?length_le_bytes, ?H1, ?H2; done.
  - rewrite (app_assoc MAGIC), (app_assoc (MAGIC ++ _)), (app_assoc ((MAGIC ++ _) ++ _)), (app_assoc (((MAGIC ++ _) ++ _) ++ _)).
    apply sub_app; rewrite ?length_app, ?length_le_bytes, ?H1, ?H2, ?H3; [done|]. unfold packet_len in HL. lia.
Qed.

Definition read_packets (ps : list Packet) (st : list bytes * Scan) : list bytes * Scan :=
  fold_left (fun st p => apply_packet st (pk_type p) (pk_body p)) ps st.

(** How many of the packets lie whole within the first [n] bytes. *)
Fixpoint whole (n : nat) (ps : list Packet) : nat :=
  match ps with
  | [] => O
  | p :: ps' => if (length (packet_bytes p) <=? n)%nat then S (whole (n - length (packet_bytes p)) ps') else O
  end.

Definition written (ps : list Packet) : bytes := concat (map packet_bytes ps).

Lemma written_cons p ps : written (p :: ps) = packet_bytes p ++ written ps.
Proof. done. Qed.

Lemma sub_take lo hi n (b : bytes) : (lo <= hi <= n)%nat -> sub lo hi (take n b) = sub lo hi b.
Proof.
  intros H. unfold sub. rewrite !take_drop_commute, take_take.
  by replace ((lo + (hi - lo)) `min` n)%nat with (lo + (hi - lo))%nat by lia.
Qed.

Lemma scan_loop_torn ps : forall fuel pos n st, Forall packet_ok ps -> 0 <= pos ->
  pos + Z.of_nat (length (written ps)) < usize_limit -> (length (take n (written ps)) < fuel)%nat ->
  scan_loop fuel pos (take n (written ps)) st = Ret (read_packets (take (whole n ps) ps) st).
Proof.
  induction ps as [|p ps IH]; intros fuel pos n st Hok Hpos Hlim Hf.
  { destruct fuel; [lia|]. unfold written. simpl. by rewrite take_nil. }
  apply Forall_cons in Hok as [Hp Hok]. destruct fuel as [|fuel]; [lia|].
  pose proof (length_packet p Hp) as HL. unfold packet_len in HL.
  assert (HW : length (written (p :: ps)) = (length (packet_bytes p) + length (written ps))%nat) by (by rewrite written_cons, length_app).
  rewrite HW in Hlim. cbn [whole]. destruct (length (packet_bytes p) <=? n)%nat eqn:En.
  - apply Nat.leb_le in En.
    assert (Ht : take n (written (p :: ps)) = packet_bytes p ++ take (n - length (packet_bytes p)) (written ps)).
    { rewrite written_cons, take_app. by rewrite (take_ge (packet_bytes p)). }
    rewrite Ht in *. set (tl := take (n - length (packet_bytes p)) (written ps)) in *.
    destruct (packet_fields p tl Hp) as (F1 & F2 & F3 & F4); [unfold packet_len, usize_limit in *; lia|].
    cbn [scan_loop]. rewrite length_app in *.
    replace (length (packet_bytes p) + length tl <? 64)%nat with false by lia.
    rewrite F1, bool_decide_eq_true_2, F2 by done. cbn [negb]. unfold packet_len, usize_limit in *.
    replace (64 + Z.of_nat (length (pk_body p)) <? 64) with false by lia.
    replace (2 ^ 64 <=? pos + (64 + Z.of_nat (length (pk_body p)))) with false by lia.
    replace (Z.of_nat (length (packet_bytes p) + length tl) <? 64 + Z.of_nat (length (pk_body p))) with false by lia.
    replace (Z.to_nat (64 + Z.of_nat (length (pk_body p)))) with (length (packet_bytes p)) by lia.
    rewrite F3, F4, drop_app_length. cbn [take]. subst tl. apply IH; [done|lia|lia|lia].
  - apply Nat.leb_gt in En. cbn [take read_packets fold_left]. cbn [scan_loop].
    assert (Ht : take n (written (p :: ps)) = take n (packet_bytes p)).
    { rewrite written_cons. by rewrite take_app_le by lia. }
    rewrite Ht in *. rewrite length_take in *. destruct (n `min` length (packet_bytes p) <? 64)%nat eqn:E64; [done|].
    apply Nat.ltb_ge in E64.
    destruct (packet_fields p [] Hp) as (F1 & F2 & _ & _); [unfold packet_len, usize_limit in *; lia|]. rewrite app_nil_r in F1, F2.
    assert (S1 : take 8 (take n (packet_bytes p)) = MAGIC) by (rewrite take_take, Nat.min_l by lia; done).
    rewrite S1, bool_decide_eq_true_2, sub_take, F2 by (done || lia). cbn [negb]. unfold packet_len, usize_limit in *.
    replace (64 + Z.of_nat (length (pk_body p)) <? 64) with false by lia.
    replace (2 ^ 64 <=? pos + (64 + Z.of_nat (length (pk_body p)))) with false by lia.
    by replace (Z.of_nat (n `min` length (packet_bytes p)) <? 64 + Z.of_nat (length (pk_body p))) with true by lia.
Qed.

Lemma whole_all ps : forall n, (length (written ps) <= n)%nat -> whole n ps = length ps.
Proof.
  induction ps as [|p ps IH]; intros n Hn; [done|]. rewrite written_cons, length_app in Hn. cbn [whole length].
  replace (length (packet_bytes p) <=? n)%nat with true by lia. by rewrite IH by lia.
Qed.

(** the PAR2 walk inverts the writing of packets, and reads a torn file as
    far as it goes: of a file of packets cut after any number of bytes, exactly
    the packets that lie whole in what is left are read, in order, and nothing
    else; of the uncut file, all of them. *)
Theorem scan_torn ps n : Forall packet_ok ps -> Z.of_nat (length (written ps)) < usize_limit ->
  scan (take n (written ps)) = Ret (snd (read_packets (take (whole n ps) ps) ([], Scan_default))) /\
  scan (written ps) = Ret (snd (read_packets ps ([], Scan_default))).
Proof.
  intros Hok Hlim.
  assert (HS : forall m, scan (take m (written ps)) = Ret (snd (read_packets (take (whole m ps) ps) ([], Scan_default)))).
  { intros m. unfold scan. by rewrite scan_loop_torn by (done || lia). }
  split; [apply HS|]. specialize (HS (length (written ps))). by rewrite firstn_all, whole_all, firstn_all in HS.
Qed.

Definition sample_packet : Packet :=
  mkPacket (replicate 16 1) (replicate 16 2) PT_FILEDESC
    (replicate 16 7 ++ replicate 16 0 ++ replicate 16 9 ++ le_bytes 8 1234 ++ lit "a.mkv" ++ [0; 0; 0]).

Lemma sample_packet_ok : packet_ok sample_packet.
Proof. done. Qed.

Lemma scan_torn_witness :
  let ps := [mkPacket (replicate 16 1) (replicate 16 2) PT_MAIN (le_bytes 8 4096 ++ [1; 0; 0; 0]); sample_packet] in
  exists s, scan (written ps) = Ret s /\ slice_size s = 4096 /\ map fd_name (descs s) = [lit "a.mkv"] /\
  exists s', scan (take 200 (written ps)) = Ret s' /\ slice_size s' = 4096 /\ descs s' = [].
Proof.
  intros ps. destruct (scan_torn ps 200) as [H1 H2]; [by repeat constructor|by vm_compute|].
  eexists. split; [exact H2|]. split; [by vm_compute|]. split; [by vm_compute|].
  eexists. split; [exact H1|]. split; by vm_compute.
Defined.

(** the walk is not tolerant of every length.  After any packet, a header
    whose length field is [2^64 - 1] makes the reader panic instead of stopping. *)
Theorem scan_length_panics p tl : packet_ok p -> packet_len p < usize_limit -> (48 <= length tl)%nat ->
  scan (packet_bytes p ++ MAGIC ++ le_bytes 8 (2 ^ 64 - 1) ++ tl) = Panic.
Proof.
  intros Hp Hl Htl. set (r := MAGIC ++ le_bytes 8 (2 ^ 64 - 1) ++ tl).
  pose proof (length_packet p Hp) as HL. destruct (packet_fields p r Hp Hl) as (F1 & F2 & F3 & F4). unfold packet_len in *.
  assert (Hr : length r = (16 + length tl)%nat) by (subst r; by rewrite !length_app, length_le_bytes).
  unfold scan. rewrite length_app. cbn [scan_loop]. rewrite length_app.
  replace (length (packet_bytes p) + length r <? 64)%nat with false by lia.
  rewrite F1, bool_decide_eq_true_2, F2 by done. cbn [negb]. unfold usize_limit in *.
  replace (64 + Z.of_nat (length (pk_body p)) <? 64) with false by lia.
  replace (2 ^ 64 <=? 0 + (64 + Z.of_nat (length (pk_body p)))) with false by lia.
  replace (Z.of_nat (length (packet_bytes p) + length r) <? 64 + Z.of_nat (length (pk_body p))) with false by lia.
  replace (Z.to_nat (64 + Z.of_nat (length (pk_body p)))) with (length (packet_bytes p)) by lia.
  rewrite drop_app_length. destruct (length (packet_bytes p) + length r)%nat as [|fuel] eqn:E; [lia|].
  cbn [scan_loop]. rewrite Hr. replace (16 + length tl <? 64)%nat with false by lia.
  assert (R1 : take 8 r = MAGIC) by done.
  assert (R2 : sub 8 16 r = le_bytes 8 (2 ^ 64 - 1)) by (apply sub_app; done).
  rewrite R1, bool_decide_eq_true_2, R2, le_value_bytes by done. cbn [negb].
  replace (2 ^ 64 - 1 <? 64) with false by lia. by replace (2 ^ 64 <=? _) with true by lia.
Qed.

Lemma scan_length_panics_witness :
  packet_ok sample_packet /\
  scan (packet_bytes sample_packet ++ MAGIC ++ le_bytes 8 (2 ^ 64 - 1) ++ replicate 48 0) = Panic.
Proof.
  split; [apply sample_packet_ok|]. apply (scan_length_panics sample_packet (replicate 48 0)); [apply sample_packet_ok|by vm_compute|simpl; lia].
Defined.

(** ** The quick check is exact *)

Lemma crc_bit_zero x : word x -> crc_bit x = 0 -> x = 0.
Proof.
  unfold word. intros Hx. rewrite crc_bit_alt. intros H%Z.lxor_eq. rewrite Z.shiftr_div_pow2 in H by lia.
  change (2 ^ 1) with 2 in H. pose proof (Z.div_mod x 2 ltac:(lia)). destruct (Z.testbit x 0) eqn:E.
  - assert (x / 2 < 2 ^ 31) by (apply Z.div_lt_upper_bound; lia). unfold POLY in H. lia.
  - rewrite Z.bit0_odd, <- Z.negb_even in E. apply negb_false_iff in E. rewrite Zeven_mod in E. lia.
Qed.

Lemma crc_bits_zero n x : word x -> crc_bits n x = 0 -> x = 0.
Proof.
  intros Hx. induction n as [|n IH]; [done|]. simpl. intros H. apply IH, crc_bit_zero; [|done]. by apply crc_bits_word.
Qed.

(** Appending the same bytes does not hide a difference. *)
Lemma crc32_ref_app_inj a b z : Forall is_u8 a -> Forall is_u8 b ->
  crc32_ref (a ++ z) = crc32_ref (b ++ z) -> crc32_ref a = crc32_ref b.
Proof.
  intros Ha Hb H. unfold crc32_ref in *. rewrite !crc_raw_app in H. set (ra := crc_raw _ a) in *. set (rb := crc_raw _ b) in *.
  assert (Hra : word ra) by (apply crc_raw_word; [by vm_compute|done]).
  assert (Hrb : word rb) by (apply crc_raw_word; [by vm_compute|done]).
  assert (E : crc_raw ra z = crc_raw rb z).
  { apply (f_equal (fun v => Z.lxor v 0xFFFFFFFF)) in H. by rewrite !Z.lxor_assoc, Z.lxor_nilpotent, !Z.lxor_0_r in H. }
  assert (D : rb = Z.lxor ra (Z.lxor ra rb)) by (by rewrite <- Z.lxor_assoc, Z.lxor_nilpotent, Z.lxor_0_l).
  rewrite D, crc_raw_shift in E.
  assert (Z0 : crc_bits (8 * length z) (Z.lxor ra rb) = 0).
  { apply (f_equal (Z.lxor (crc_raw ra z))) in E. by rewrite <- Z.lxor_assoc, Z.lxor_nilpotent, Z.lxor_0_l in E. }
  apply crc_bits_zero in Z0; [|by apply word_lxor]. apply Z.lxor_eq in Z0. by rewrite Z0.
Qed.

Lemma fold_crcs_slices slice chunks : slice <= u64_max ->
  Forall (fun c => Z.of_nat (length c) = slice /\ Forall is_u8 c) chunks -> chunks <> [] ->
  fold_crcs slice (map crc32_ref chunks) = Some (crc32_ref (concat chunks)).
Proof.
  intros Hs Hc Hne. unfold fold_crcs. destruct chunks as [|c cs]; [done|]. apply Forall_cons in Hc as [[_ Hu] Hc]. simpl.
  assert (HG : forall cs acc, Forall (fun c => Z.of_nat (length c) = slice /\ Forall is_u8 c) cs -> Forall is_u8 acc ->
    fold_left (fun a crc => Some (match a with None => crc | Some prev => crc32_combine prev crc slice end))
      (map crc32_ref cs) (Some (crc32_ref acc)) = Some (crc32_ref (acc ++ concat cs))).
  { clear -Hs. intros cs. induction cs as [|c cs IH]; intros acc Hc Ha; simpl; [by rewrite app_nil_r|].
    apply Forall_cons in Hc as [[Hl Hu] Hc].
    assert (E : crc32_combine (crc32_ref acc) (crc32_ref c) slice = crc32_ref (acc ++ c)).
    { rewrite <- Hl. apply crc32_combine_aux; [done|lia]. }
    rewrite E, IH, app_assoc; [done|done|by apply Forall_app]. }
  by apply HG.
Qed.

Lemma zero_loop_spec {H} {hasher : Crc32Hasher H} fuel : forall left chunks, 0 <= left -> left <= 8192 * Z.of_nat fuel ->
  hasher_finalize (zero_loop fuel (fold_left hasher_update chunks hasher_new) left) =
  crc32_ref (concat chunks ++ replicate (Z.to_nat left) 0).
Proof.
  assert (HZ : forall chunks, hasher_finalize (fold_left hasher_update chunks hasher_new) = crc32_ref (concat chunks ++ replicate (Z.to_nat 0) 0)).
  { intros chunks. change (Z.to_nat 0) with O. cbn [replicate]. by rewrite app_nil_r, hasher_clone_finalize. }
  induction fuel as [|fuel IH]; intros left chunks H0 Hf; cbn [zero_loop]; [by replace left with 0 by lia|]. destruct (left <=? 0) eqn:E.
  - by replace left with 0 by lia.
  - remember (Z.min left 8192) as n eqn:En. specialize (IH (left - n) (chunks ++ [replicate (Z.to_nat n) 0]) ltac:(lia) ltac:(lia)).
    rewrite fold_left_app in IH. cbn [fold_left] in IH. rewrite IH, concat_app. cbn [concat].
    rewrite app_nil_r, <- app_assoc, <- replicate_add. do 3 f_equal. lia.
Qed.

Lemma zero_crc_spec {H} {hasher : Crc32Hasher H} len : 0 <= len -> zero_crc len = crc32_ref (replicate (Z.to_nat len) 0).
Proof.
  intros Hl. unfold zero_crc. apply (zero_loop_spec _ len []); [done|].
  pose proof (Z.div_mod len 8192 ltac:(lia)). pose proof (Z.mod_pos_bound len 8192 ltac:(lia)).
  rewrite Z2Nat.id by (pose proof (Z.div_pos len 8192 ltac:(lia) ltac:(lia)); lia). lia.
Qed.

(** The recovery set describes [orig]: its slices are those of [orig] with the
    last one filled up with zeros. *)
Record describes (f : Par2File) (slice : Z) (orig : bytes) (chunks : list bytes) (pad : nat) : Prop := {
  ds_length : pf_length f = Z.of_nat (length orig);
  ds_crcs : pf_slice_crcs f = map crc32_ref chunks;
  ds_chunks : Forall (fun c => Z.of_nat (length c) = slice) chunks;
  ds_data : concat chunks = orig ++ replicate pad 0;
  ds_pad : Z.of_nat pad < slice
}.

Lemma length_chunks slice chunks : Forall (fun c : bytes => Z.of_nat (length c) = slice) chunks ->
  Z.of_nat (length (concat chunks)) = Z.of_nat (length chunks) * slice.
Proof. induction 1 as [|c cs Hc Hcs IH]; [done|]. simpl. rewrite length_app. lia. Qed.

Lemma describes_count f slice orig chunks pad : describes f slice orig chunks pad ->
  Z.of_nat (length chunks) * slice = Z.of_nat (length orig) + Z.of_nat pad /\
  Z.of_nat (length chunks) = div_ceil (Z.of_nat (length orig)) slice.
Proof.
  intros [D1 D2 D3 D4 D5]. pose proof (length_chunks _ _ D3) as HL.
  rewrite D4, length_app, length_replicate in HL. split; [lia|]. unfold div_ceil.
  apply (Z.div_unique_pos _ _ _ (slice - 1 - Z.of_nat pad)); lia.
Qed.

Lemma quick_check_aux {H} {hasher : Crc32Hasher H} f slice orig chunks pad disk :
  describes f slice orig chunks pad -> 0 < slice <= u64_max -> Forall is_u8 orig -> Forall is_u8 disk ->
  orig <> [] -> length disk = length orig ->
  quick_check_file f slice (Z.of_nat (length disk)) (crc32_ref disk) = true <->
  crc32_ref (disk ++ replicate pad 0) = crc32_ref (orig ++ replicate pad 0).
Proof.
  intros D Hs Ho Hd Hne Hlen. destruct (describes_count _ _ _ _ _ D) as [Hn Hc]. destruct D as [D1 D2 D3 D4 D5].
  assert (Hch : chunks <> []) by (intros ->; simpl in *; destruct orig; simpl in *; [done|lia]).
  unfold quick_check_file. rewrite D1, D2, Hlen, Z.eqb_refl. cbn [negb orb].
  rewrite bool_decide_eq_false_2 by (by destruct chunks). replace (slice =? 0) with false by lia. cbn [orb].
  rewrite <- Hc, length_map, Z.eqb_refl. cbn [negb].
  assert (Hpad : wrap64 (wrap64 (Z.of_nat (length chunks) * slice) - Z.of_nat (length orig)) = Z.of_nat pad).
  { unfold wrap64. rewrite Zminus_mod_idemp_l, Hn. replace (_ + _ - _) with (Z.of_nat pad) by lia.
    apply Z.mod_small. unfold u64_max in Hs. lia. }
  rewrite Hpad, fold_crcs_slices; [|lia| |done].
  2:{ apply Forall_forall. intros c Hin. split; [by eapply Forall_forall in D3|].
      assert (HU : Forall is_u8 (concat chunks)).
      { rewrite D4. apply Forall_app. split; [done|]. apply Forall_replicate. by split. }
      apply Forall_concat in HU. by eapply (proj1 (Forall_forall _ _) HU). }
  rewrite D4, bool_decide_eq_true. destruct (0 <? Z.of_nat pad) eqn:Ep.
  - rewrite zero_crc_spec, Nat2Z.id by lia.
    replace (Z.of_nat pad) with (Z.of_nat (length (replicate pad 0))) by (by rewrite length_replicate).
    rewrite crc32_combine_aux; [|done|rewrite length_replicate; lia]. split; congruence.
  - replace pad with O by lia. cbn [replicate]. rewrite !app_nil_r. split; congruence.
Qed.

(** C36: the quick verification is exact.  Whatever a recovery set says of the
    original file, the check of a downloaded file (its length, and the CRC that
    the engine merged from its parts) succeeds just when the file is not empty,
    has the original's length and the original's CRC-32: the padding of the last
    slice and the folding of the slice CRCs hide no difference and invent none. *)
Theorem quick_check_exact {H} {hasher : Crc32Hasher H} f slice orig chunks pad disk :
  describes f slice orig chunks pad -> 0 < slice <= u64_max -> Forall is_u8 orig -> Forall is_u8 disk ->
  quick_check_file f slice (Z.of_nat (length disk)) (crc32_ref disk) = true <->
  orig <> [] /\ length disk = length orig /\ crc32_ref disk = crc32_ref orig.
Proof.
  intros D Hs Ho Hd. destruct (decide (length disk = length orig)) as [Hlen|Hlen].
  - destruct (decide (orig = [])) as [->|Hne].
    + split; [|by intros [? _]]. intros Hq. exfalso. destruct (describes_count _ _ _ _ _ D) as [Hn Hc]. destruct D as [D1 D2 D3 D4 D5].
      destruct chunks as [|c cs]; [|simpl in *; lia]. unfold quick_check_file in Hq. rewrite D2 in Hq. simpl in Hq.
      by rewrite orb_true_r in Hq.
    + rewrite (quick_check_aux f slice orig chunks pad disk) by done. split.
      * intros HE. split_and!; [done|done|]. by eapply crc32_ref_app_inj.
      * intros (_ & _ & HE). by rewrite <- !crc32_combine_aux, HE by (done || (rewrite length_replicate; destruct D; lia)).
  - split; [|by intros (_ & ? & _)]. intros Hq. exfalso. destruct D as [D1 _ _ _ _]. unfold quick_check_file in Hq.
    rewrite D1 in Hq. replace (Z.of_nat (length disk) =? Z.of_nat (length orig)) with false in Hq by lia. done.
Qed.

(** A file of five bytes in slices of four. *)
Lemma quick_check_exact_witness :
  let f := mkPar2File [] (lit "a") 5 [] (map crc32_ref [[1; 2; 3; 4]; [5; 0; 0; 0]]) in
  quick_check_file f 4 5 (crc32_ref [1; 2; 3; 4; 5]) = true <->
  [1; 2; 3; 4; 5] <> [] /\ 5%nat = 5%nat /\ crc32_ref [1; 2; 3; 4; 5] = crc32_ref [1; 2; 3; 4; 5].
Proof.
  intros f. apply (quick_check_exact f 4 [1; 2; 3; 4; 5] [[1; 2; 3; 4]; [5; 0; 0; 0]] 3 [1; 2; 3; 4; 5]).
  - by split; repeat constructor.
  - done.
  - by repeat constructor.
  - by repeat constructor.
Defined.
