(* ===== verification/Tree.v ===== *)
(** * Files and directories of a job ([std::fs], [std::path])

    The part of the standard library that the renaming passes use, over a tree
    of files without symbolic links: a path is the list of its components from
    the root.  [join] resolves [.] and [..] as the system does when the path is
    used.  Directory listings come in name order where the code sorts them. *)

From stdpp Require Import sorting.
From S2P Require Import Prelude RustStr.

Definition path : Type := list str.

Record Tree := mkTree { files : gmap path bytes; dirs : gset path }.

Definition parent (p : path) : path := removelast p.
Definition file_name (p : path) : str := List.last p [].
Definition child (dir : path) (nm : str) : path := dir ++ [nm].

(** ** Names: [Path::extension] and [Path::file_stem] *)

Definition split_name (nm : str) : str * option str :=
  if bool_decide (nm = lit "..") then (nm, None)
  else
    match split_at_last (lit ".") nm with
    | None => (nm, None)
    | Some ([], _) => (nm, None)
    | Some (before, after) => (before, Some after)
    end.

Definition extension (nm : str) : option str := snd (split_name nm).
Definition file_stem (nm : str) : str := fst (split_name nm).

Example stem_ex : (file_stem (lit "a.tar.gz"), extension (lit "a.tar.gz"), extension (lit ".hidden"), extension (lit "x.")) =
  (lit "a.tar", Some (lit "gz"), None, Some []).
Proof. reflexivity. Qed.

Definition ext_is (nm ext : str) : bool :=
  match extension nm with Some e => eq_ignore_ascii_case e ext | None => false end.

(** [dir.join(name)], as the system resolves it. *)
Definition resolve_step (p : path) (comp : str) : path :=
  if bool_decide (comp = []) || bool_decide (comp = lit ".") then p
  else if bool_decide (comp = lit "..") then removelast p
  else p ++ [comp].

Definition join (dir : path) (nm : str) : path :=
  fold_left resolve_step (split_chars (Z.eqb 47) nm) (if starts_with (lit "/") nm then [] else dir).

(** A name that is one plain component. *)
Definition plain (nm : str) : Prop :=
  nm <> [] /\ nm <> lit "." /\ nm <> lit ".." /\ Forall (fun c => c <> 47) nm.

Lemma split_one nm : Forall (fun c => c <> 47) nm -> split_chars (Z.eqb 47) nm = [nm].
Proof.
  induction 1 as [|c nm Hc _ IH]; [done|]. cbn [split_chars]. by replace (47 =? c) with false by lia; rewrite IH.
Qed.

Lemma starts_no_slash nm : Forall (fun c => c <> 47) nm -> starts_with (lit "/") nm = false.
Proof.
  intros H. unfold starts_with. change (lit "/") with [47]. destruct H as [|c nm Hc H]; [done|]. cbn [strip_prefix].
  by replace (47 =? c) with false by lia.
Qed.

Lemma join_plain dir nm : plain nm -> join dir nm = child dir nm.
Proof.
  intros (H1 & H2 & H3 & H4). unfold join. rewrite starts_no_slash, split_one by done. cbn [fold_left].
  unfold resolve_step. by rewrite !bool_decide_eq_false_2.
Qed.

(** ** The calls *)

Definition exists_path (t : Tree) (p : path) : bool :=
  bool_decide (is_Some (files t !! p)) || bool_decide (p ∈ dirs t).

(** Byte order of the components' UTF-8 is the order of their scalars. *)
Fixpoint str_leb (a b : str) : bool :=
  match a, b with
  | [], _ => true
  | _ :: _, [] => false
  | x :: a', y :: b' => (x <? y) || ((x =? y) && str_leb a' b')
  end.

Fixpoint path_leb (a b : path) : bool :=
  match a, b with
  | [], _ => true
  | _ :: _, [] => false
  | x :: a', y :: b' => if bool_decide (x = y) then path_leb a' b' else str_leb x y
  end.

Definition sort_names (l : list str) : list str := merge_sort (fun a b => str_leb a b) l.
Definition sort_paths (l : list path) : list path := merge_sort (fun a b => path_leb a b) l.

(** The plain files of a directory, sorted. *)
Definition files_of (t : Tree) (dir : path) : list str :=
  sort_names (omap (fun '(p, _) => if bool_decide (parent p = dir) && negb (bool_decide (p = [])) then Some (file_name p) else None)
    (map_to_list (files t))).

Definition head (t : Tree) (p : path) (n : nat) : bytes := take n (default [] (files t !! p)).

(** [std::fs::rename] of a file, where nothing is in the way: what the system
    lets succeed is [allowed]. *)
Section Rename.
Context (allowed : path -> path -> bool).

Definition rename (t : Tree) (from to : path) : option Tree :=
  match files t !! from with
  | Some b =>
      if allowed from to && bool_decide (parent to ∈ dirs t) && negb (bool_decide (to ∈ dirs t)) && negb (bool_decide (to = []))
      then Some (mkTree (<[to := b]> (delete from (files t))) (dirs t))
      else None
  | None => None
  end.

(** [safe_rename] of [rename.rs]: refuses to clobber. *)
Definition safe_rename (t : Tree) (from to : path) : option Tree :=
  if exists_path t to then None else rename t from to.

(** ** Renaming loses nothing *)

(** The contents of all files, wherever they are. *)
Definition contents (t : Tree) : list bytes := map snd (map_to_list (files t)).

Record keeps_data (t t' : Tree) : Prop := {
  kd_contents : contents t' ≡ₚ contents t;
  kd_dirs : dirs t' = dirs t
}.

#[global] Instance keeps_data_preorder : PreOrder keeps_data.
Proof.
  split; [by split|]. intros t1 t2 t3 [H1 H2] [H3 H4]. split; [by rewrite H3|congruence].
Qed.

Lemma rename_keeps t from to t' : exists_path t to = false -> rename t from to = Some t' -> keeps_data t t'.
Proof.
  unfold rename, exists_path. intros He. destruct (files t !! from) as [b|] eqn:Ef; [|done].
  case_match; [|done]. intros [= <-]. split; [|done]. unfold contents. simpl.
  apply orb_false_iff in He as [He _]. apply bool_decide_eq_false in He. apply eq_None_not_Some in He.
  rewrite map_to_list_insert by (rewrite lookup_delete_ne; congruence). simpl.
  by rewrite <- (map_to_list_delete (files t) from b) by done.
Qed.

Lemma safe_rename_keeps t from to t' : safe_rename t from to = Some t' -> keeps_data t t'.
Proof. unfold safe_rename. destruct (exists_path t to) eqn:E; [done|]. by apply rename_keeps. Qed.

Lemma rename_other t from to t' p : rename t from to = Some t' -> p <> from -> p <> to -> files t' !! p = files t !! p.
Proof.
  unfold rename. destruct (files t !! from); [|done]. case_match; [|done]. intros [= <-] H1 H2. simpl.
  by rewrite lookup_insert_ne, lookup_delete_ne.
Qed.

Lemma safe_rename_other t from to t' p : safe_rename t from to = Some t' -> p <> from -> is_Some (files t !! p) ->
  files t' !! p = files t !! p.
Proof.
  unfold safe_rename. destruct (exists_path t to) eqn:E; [done|]. intros H Hp [b Hb]. eapply rename_other; [done|done|].
  intros ->. unfold exists_path in E. rewrite Hb in E. by rewrite bool_decide_eq_true_2 in E.
Qed.

Lemma safe_rename_moved t from to t' : safe_rename t from to = Some t' -> from <> to -> files t' !! to = files t !! from.
Proof.
  unfold safe_rename, rename. destruct (exists_path t to); [done|]. destruct (files t !! from) as [b|]; [|done].
  case_match; [|done]. intros [= <-] Hne. simpl. by rewrite lookup_insert_eq.
Qed.

End Rename.
