(* ===== verification/Rename.v ===== *)
(** * Recovering file names ([crates/nzbd-post/src/rename.rs])

    [par_rename] gives files the names that the recovery set records for their
    first 16 KiB; [rar_rename] gives archive volumes found by content their
    extension back.  MD5 is a parameter, as is Unicode lowercasing and which
    renames the system lets succeed.  The theorems: no pass loses or overwrites
    a file, a name comes from the recovery set's own description of the
    content, and continuation volumes stay where they are. *)

From S2P Require Import Prelude RustStr Par2 Tree.

Definition PAR2_MAGIC : bytes := MAGIC.
Definition RAR_MAGIC : bytes := lit "Rar!" ++ [0x1a; 0x07].
Definition SEVENZIP_MAGIC : bytes := lit "7z" ++ [0xbc; 0xaf; 0x27; 0x1c].
Definition ZIP_MAGIC : bytes := lit "PK" ++ [0x03; 0x04].

(** The pairs a pass reports, and the tree it leaves. *)
Definition Renames : Type := list (path * path).

Section Passes.
Context (allowed : path -> path -> bool) (md5 : bytes -> bytes) (to_lowercase : str -> str).

(** One [safe_rename] of a pass. *)
Definition apply_rename (st : Tree * Renames) (from to : path) : Tree * Renames :=
  match safe_rename allowed (fst st) from to with
  | Some t => (t, snd st ++ [(from, to)])
  | None => st
  end.

(** ** [par_rename] *)

Definition md5_16k (t : Tree) (p : path) : option bytes :=
  let data := head t p 16384 in
  if bool_decide (data = []) then None else Some (md5 data).

Definition par2_ext : str := lit "par2".

Definition restore_par2 (dir : path) (st : Tree * Renames) (nm : str) : Tree * Renames :=
  if negb (ext_is nm par2_ext) && bool_decide (head (fst st) (child dir nm) 8 = PAR2_MAGIC)
  then apply_rename st (child dir nm) (child dir (file_stem nm ++ lit ".par2"))
  else st.

Definition par2_files (t : Tree) (dir : path) : list (str * bytes) :=
  map (fun nm => (nm, default [] (files t !! child dir nm))) (List.filter (fun nm => ext_is nm par2_ext) (files_of t dir)).

(** [wanted]: of descriptions with one hash, the last. *)
Definition wanted (set : Par2Set) (hash : bytes) : option str :=
  pf_name <$> List.find (fun f => bool_decide (pf_md5_16k f = hash)) (rev (ps_files set)).

Definition match_file (set : Par2Set) (dir : path) (st : Tree * Renames) (nm : str) : Tree * Renames :=
  if ext_is nm par2_ext then st
  else if existsb (fun f => bool_decide (pf_name f = nm)) (ps_files set) then st
  else
    match md5_16k (fst st) (child dir nm) with
    | None => st
    | Some hash =>
        match wanted set hash with
        | None => st
        | Some true_name => apply_rename st (child dir nm) (join dir true_name)
        end
    end.

Definition par_rename (t : Tree) (dir : path) : run (Tree * Renames) :=
  let st := fold_left (restore_par2 dir) (files_of t dir) (t, []) in
  let! set := load_set (par2_files (fst st) dir) in
  match set with
  | None => Ret st
  | Some set => Ret (fold_left (match_file set dir) (files_of (fst st) dir) st)
  end.

(** ** Volumes *)

(** A variable-length integer at [pos], as far as ten bytes. *)
Fixpoint vint_loop (n : nat) (i v : Z) (data : bytes) (pos : nat) : option (Z * nat) :=
  match n with
  | O => None
  | S n' =>
      match data !! pos with
      | None => None
      | Some b =>
          let v := Z.lor v (wrap64 (Z.shiftl (Z.land b 0x7f) (7 * i))) in
          if Z.land b 0x80 =? 0 then Some (v, S pos) else vint_loop n' (i + 1) v data (S pos)
      end
  end.

Definition vint (data : bytes) (pos : nat) : option (Z * nat) := vint_loop 10 0 0 data pos.

Definition rar5_volume_number (data : bytes) : option Z :=
  if (length data <? 8)%nat || negb (bool_decide (take 7 data = RAR_MAGIC ++ [0x01])) then None
  else
    match vint data 12 with
    | None => None
    | Some (_, pos) =>
        match vint data pos with
        | None => None
        | Some (htype, pos) =>
            if negb (htype =? 1) then None
            else
              match vint data pos with
              | None => None
              | Some (hflags, pos) =>
                  match (if negb (Z.land hflags 1 =? 0) then vint data pos else Some (0, pos)) with
                  | None => None
                  | Some (_, pos) =>
                      match vint data pos with
                      | None => None
                      | Some (arcflags, pos) =>
                          if negb (Z.land arcflags 2 =? 0) then fst <$> vint data pos
                          else if negb (Z.land arcflags 1 =? 0) then Some 0 else None
                      end
                  end
              end
        end
    end.

Definition split_volume_ext (ext : str) : bool :=
  match utf8_encode ext with
  | [a; b; c] =>
      (is_ascii_digit a && is_ascii_digit b && is_ascii_digit c)
      || (is_ascii_alphabetic a && is_ascii_digit b && is_ascii_digit c)
  | _ => false
  end.

Definition known_exts : list str :=
  [lit "rar"; lit "7z"; lit "zip"; lit "par2"; lit "nzb"; lit "sfv"; lit "nfo"; lit "srr"].

Definition lower_ext (nm : str) : str := to_lowercase (default [] (extension nm)).

Definition left_alone (nm : str) : bool :=
  bool_decide (lower_ext nm ∈ known_exts) || split_volume_ext (lower_ext nm).

(** One file of the scan: an archive is renamed at once, a RAR volume is kept
    for later with its number. *)
Definition scan_archive (dir : path) (acc : (Tree * Renames) * list (str * option Z)) (nm : str)
    : (Tree * Renames) * list (str * option Z) :=
  let '(st, rars) := acc in
  if left_alone nm then acc
  else
    let h := head (fst st) (child dir nm) 32 in
    if starts_with RAR_MAGIC h then (st, rars ++ [(nm, rar5_volume_number h)])
    else if starts_with SEVENZIP_MAGIC h
    then (apply_rename st (child dir nm) (child dir (file_stem nm ++ lit ".7z")), rars)
    else if starts_with ZIP_MAGIC h
    then (apply_rename st (child dir nm) (child dir (file_stem nm ++ lit ".zip")), rars)
    else acc.

(** The order of the volumes: by number when every one has a number. *)
Definition ordered_rars (rars : list (str * option Z)) : list str :=
  if forallb (fun '(_, n) => bool_decide (is_Some n)) rars
  then map fst (sort_by_key (fun r => default 0 (snd r)) rars)
  else map fst rars.

Fixpoint number_rars (dir : path) (base : str) (i : Z) (names : list str) (st : Tree * Renames) : Tree * Renames :=
  match names with
  | [] => st
  | nm :: names' =>
      number_rars dir base (i + 1) names'
        (apply_rename st (child dir nm) (child dir (base ++ lit ".part" ++ pad_zeros 2 (show_dec (i + 1)) ++ lit ".rar")))
  end.

Definition rar_rename (t : Tree) (dir : path) : Tree * Renames :=
  let '(st, rars) := fold_left (scan_archive dir) (files_of t dir) ((t, []), []) in
  match rars with
  | [] => st
  | [(nm, _)] => apply_rename st (child dir nm) (child dir (file_stem nm ++ lit ".rar"))
  | (nm, _) :: _ => number_rars dir (file_stem nm) 0 (ordered_rars rars) st
  end.

(** ** What a pass may do *)

(** A pass goes from tree to tree by renames that refuse to clobber; [P] holds of
    every file it renames. *)
Inductive passes (P : path -> Prop) : Tree * Renames -> Tree * Renames -> Prop :=
| passes_refl st : passes P st st
| passes_step st from to st' : P from -> passes P (apply_rename st from to) st' -> passes P st st'.
#[local] Hint Constructors passes : core.

Lemma passes_one P st from to : P from -> passes P st (apply_rename st from to).
Proof. eauto. Qed.

Lemma passes_trans P st1 st2 st3 : passes P st1 st2 -> passes P st2 st3 -> passes P st1 st3.
Proof. induction 1; eauto. Qed.

Lemma passes_fold {A} P (f : Tree * Renames -> A -> Tree * Renames) l :
  (forall st a, a ∈ l -> passes P st (f st a)) -> forall st, passes P st (fold_left f l st).
Proof.
  induction l as [|a l IH]; intros Hf st; [done|]. simpl. eapply passes_trans; [apply Hf; left|].
  apply IH. intros st' a' Ha'. apply Hf. by right.
Qed.

Lemma apply_rename_keeps st from to : keeps_data (fst st) (fst (apply_rename st from to)).
Proof. unfold apply_rename. destruct (safe_rename _ _ _ _) eqn:E; [|done]. by eapply safe_rename_keeps. Qed.

Lemma passes_keeps P st st' : passes P st st' -> keeps_data (fst st) (fst st').
Proof. induction 1 as [|st from to st' _ _ IH]; [done|]. etransitivity; [apply apply_rename_keeps|exact IH]. Qed.

(** A file that the pass does not rename stays as it is. *)
Lemma passes_untouched P st st' p : passes P st st' -> ~ P p -> is_Some (files (fst st) !! p) ->
  files (fst st') !! p = files (fst st) !! p.
Proof.
  induction 1 as [|st from to st' HP _ IH]; intros Hp Hs; [done|].
  assert (E : files (fst (apply_rename st from to)) !! p = files (fst st) !! p).
  { unfold apply_rename. destruct (safe_rename _ _ _ _) eqn:E; [|done]. simpl.
    eapply safe_rename_other; [done|congruence|done]. }
  rewrite IH; [done|done|by rewrite E].
Qed.

Definition anything : path -> Prop := fun _ => True.

Lemma par_rename_passes t dir st : par_rename t dir = Ret st -> passes anything (t, []) st.
Proof.
  unfold par_rename. set (st1 := fold_left _ _ _).
  assert (H1 : passes anything (t, []) st1).
  { apply passes_fold. intros st' nm _. unfold restore_par2. case_match; [by apply passes_one|done]. }
  destruct (load_set _) as [[set|]|]; simpl; [| |done]; intros [= <-]; [|done].
  eapply passes_trans; [exact H1|]. apply passes_fold. intros st' nm _. unfold match_file.
  repeat (case_match; try done). by apply passes_one.
Qed.

Lemma number_rars_passes P dir base names : (forall nm, nm ∈ names -> P (child dir nm)) ->
  forall i st, passes P st (number_rars dir base i names st).
Proof.
  induction names as [|nm names IH]; intros HP i st; [done|]. simpl.
  eapply passes_step; [apply HP; left|]. apply IH. intros nm' Hn. apply HP. by right.
Qed.

Definition renamable (dir p : path) : Prop := exists nm, p = child dir nm /\ left_alone nm = false.

Lemma scan_archive_step dir st rars nm st' rars' : scan_archive dir (st, rars) nm = (st', rars') ->
  passes (renamable dir) st st' /\ forall r, r ∈ rars' -> r ∈ rars \/ left_alone (fst r) = false.
Proof.
  unfold scan_archive. destruct (left_alone nm) eqn:El; [intros [= <- <-]; auto|].
  assert (HP : forall to, passes (renamable dir) st (apply_rename st (child dir nm) to)).
  { intros to. apply passes_one. by exists nm. }
  repeat case_match; intros [= <- <-]; (split; [auto|]); auto.
  intros r [Hin|Hin]%elem_of_app; [auto|]. apply list_elem_of_singleton in Hin as ->. auto.
Qed.

Lemma scan_archives dir names : forall st rars st' rars',
  fold_left (scan_archive dir) names (st, rars) = (st', rars') ->
  (forall r, r ∈ rars -> left_alone (fst r) = false) ->
  passes (renamable dir) st st' /\ forall r, r ∈ rars' -> left_alone (fst r) = false.
Proof.
  induction names as [|nm names IH]; intros st rars st' rars'; cbn [fold_left]; [intros [= <- <-]; auto|].
  destruct (scan_archive dir (st, rars) nm) as [st1 rars1] eqn:E1. intros H Hr.
  apply scan_archive_step in E1 as [P1 R1]. apply IH in H as [P2 R2].
  - split; [by eapply passes_trans|done].
  - intros r Hin. destruct (R1 r Hin) as [Hin'|Hl]; auto.
Qed.

Lemma ordered_rars_elem rars nm : nm ∈ ordered_rars rars -> exists r, r ∈ rars /\ fst r = nm.
Proof.
  unfold ordered_rars. case_match; intros (r & -> & Hr)%list_elem_of_fmap; exists r; (split; [|done]); [|done].
  by apply elem_of_sort_by_key in Hr.
Qed.

Lemma rar_rename_passes t dir : passes (renamable dir) (t, []) (rar_rename t dir).
Proof.
  unfold rar_rename. destruct (fold_left _ _ _) as [st rars] eqn:E.
  apply scan_archives in E as [H1 H2]; [|intros r []%not_elem_of_nil].
  destruct rars as [|[nm n] [|r rars]]; [done| |].
  - eapply passes_trans; [exact H1|]. apply passes_one. exists nm. split; [done|]. apply (H2 (nm, n)). by left.
  - eapply passes_trans; [exact H1|]. apply number_rars_passes. intros nm' (r' & Hr & <-)%ordered_rars_elem.
    exists (fst r'). split; [done|]. by apply H2.
Qed.

(** C37: recovering names loses nothing.  Whatever the directory holds, whatever
    the recovery files claim and whichever renames the system refuses, both
    passes leave every file's content in the tree exactly once, and the
    directories as they are. *)
Theorem renaming_keeps_data t dir :
  keeps_data t (fst (rar_rename t dir)) /\
  match par_rename t dir with
  | Ret (t', _) => keeps_data t t'
  | Panic => True
  end.
Proof.
  split; [by apply (passes_keeps _ _ _ (rar_rename_passes t dir))|].
  destruct (par_rename t dir) as [st|] eqn:E; [|done]. destruct st as [t' rs].
  by apply (passes_keeps _ _ _ (par_rename_passes _ _ _ E)).
Qed.

(** continuation volumes are never renamed.  [rar_rename] leaves every file
    whose extension is a known one or names a split volume ([.001], [.r00],
    [.z01], ...) under its name with its content. *)
Theorem volumes_stay t dir nm b : left_alone nm = true -> files t !! child dir nm = Some b ->
  files (fst (rar_rename t dir)) !! child dir nm = Some b.
Proof.
  intros Hl Hb. rewrite (passes_untouched _ _ _ (child dir nm) (rar_rename_passes t dir)); [done| |by exists b].
  intros (nm' & E & Hn). apply app_inj_tail in E as [_ ->]. congruence.
Qed.

(** ** Where a name comes from *)

Definition md5_of (b : bytes) : bytes := md5 (take 16384 b).

(** The evidence for one reported rename, of a file that holds [b]. *)
Definition evidence (dir : path) (to : path) (b : bytes) : Prop :=
  (take 8 b = PAR2_MAGIC /\ exists nm, to = child dir (file_stem nm ++ lit ".par2")) \/
  (exists set f, f ∈ ps_files set /\ to = join dir (pf_name f) /\ md5_of b = pf_md5_16k f).

Definition evidenced (dir : path) (st : Tree * Renames) : Prop :=
  forall from to, (from, to) ∈ snd st -> exists b, b ∈ contents (fst st) /\ evidence dir to b.

Lemma elem_of_contents t p b : files t !! p = Some b -> b ∈ contents t.
Proof. intros Hb. apply list_elem_of_fmap. exists (p, b). split; [done|]. by apply elem_of_map_to_list. Qed.

Lemma apply_rename_evidenced dir st from to : evidenced dir st ->
  (forall b, files (fst st) !! from = Some b -> evidence dir to b) -> evidenced dir (apply_rename st from to).
Proof.
  intros Hs Hb. pose proof (apply_rename_keeps st from to) as [HK _]. unfold apply_rename in *.
  destruct (safe_rename _ _ _ _) as [t'|] eqn:E; [|done]. intros f' to' Hin. simpl in *. setoid_rewrite HK.
  apply elem_of_app in Hin as [Hin|Hin]; [by apply (Hs f' to')|]. apply list_elem_of_singleton in Hin. simplify_eq.
  unfold safe_rename, rename in E. destruct (exists_path _ _); [done|]. destruct (files (fst st) !! from) as [b|] eqn:Ef; [|done].
  exists b. split; [by eapply elem_of_contents|by apply Hb].
Qed.

Lemma fold_evidenced {A} dir (f : Tree * Renames -> A -> Tree * Renames) l :
  (forall st a, evidenced dir st -> evidenced dir (f st a)) ->
  forall st, evidenced dir st -> evidenced dir (fold_left f l st).
Proof. intros Hf. induction l as [|a l IH]; intros st Hs; [done|]. by apply IH, Hf. Qed.

(** a name comes from evidence.  Every rename that [par_rename] reports is of
    a file that is a PAR2 file by its first bytes and gets that extension, or
    whose first 16 KiB have the MD5 that a description of the recovery set
    records, and the new name is the one that description gives. *)
Theorem par_named_by_evidence t dir t' rs from to : par_rename t dir = Ret (t', rs) -> (from, to) ∈ rs ->
  exists b, b ∈ contents t /\ evidence dir to b.
Proof.
  intros H Hin. pose proof (passes_keeps _ _ _ (par_rename_passes _ _ _ H)) as [HK _]. setoid_rewrite <- HK.
  enough (evidenced dir (t', rs)) as HE by (by apply (HE from to)).
  revert H. unfold par_rename. set (st1 := fold_left _ _ _).
  assert (H1 : evidenced dir st1).
  { apply fold_evidenced; [|intros f' t0 []%not_elem_of_nil]. intros st nm Hs. unfold restore_par2.
    case_match eqn:E; [|done]. apply apply_rename_evidenced; [done|]. intros b Hb. bool_hyps. left.
    unfold head in *. rewrite Hb in *. split; [done|by eexists]. }
  destruct (load_set _) as [[set|]|]; simpl; [|intros [= <-]; done|done]. intros [= <-].
  apply fold_evidenced; [|done]. intros st nm Hs. unfold match_file. case_match; [done|]. case_match; [done|].
  destruct (md5_16k _ _) as [hash|] eqn:Eh; [|done]. destruct (wanted set hash) as [true_name|] eqn:Ew; [|done].
  apply apply_rename_evidenced; [done|]. intros b Hb. right. unfold md5_16k, head in Eh. rewrite Hb in Eh. simpl in Eh.
  case_match; [done|]. simplify_eq. unfold wanted in Ew. apply fmap_Some in Ew as (f & Hf & ->).
  apply find_some in Hf as [Hf Hh]. apply bool_decide_eq_true in Hh. exists set, f. split_and!; [|done|done].
  apply list_elem_of_In. by apply in_rev.
Qed.

End Passes.

(** ** Concrete directories *)

Definition toy_md5 (b : bytes) : bytes := take 16 (b ++ replicate 16 0).

(** A recovery file that describes one file of three bytes. *)
Definition recovery_file (nm : str) : bytes :=
  written [mkPacket (replicate 16 1) (replicate 16 2) PT_MAIN (le_bytes 8 4096 ++ [1; 0; 0; 0]);
    mkPacket (replicate 16 1) (replicate 16 2) PT_FILEDESC
      (replicate 16 7 ++ replicate 16 0 ++ toy_md5 [1; 2; 3] ++ le_bytes 8 3 ++ nm)].

Definition job_dir_path : path := [lit "downloads"; lit "job"].

Definition sample_tree (nm : str) : Tree := {|
  files := {[ child job_dir_path (lit "a.par2") := recovery_file nm; child job_dir_path (lit "x") := [1; 2; 3];
              child job_dir_path (lit "v.r00") := lit "Rar!" ++ [0x1a; 0x07; 0x00] ]};
  dirs := {[ [lit "downloads"]; job_dir_path ]} |}.

Lemma par_named_by_evidence_witness :
  exists t' rs, par_rename (fun _ _ => true) toy_md5 (sample_tree (lit "movie.mkv")) job_dir_path = Ret (t', rs) /\
    rs = [(child job_dir_path (lit "x"), child job_dir_path (lit "movie.mkv"))] /\
    exists b, b ∈ contents (sample_tree (lit "movie.mkv")) /\ evidence toy_md5 job_dir_path (child job_dir_path (lit "movie.mkv")) b.
Proof.
  destruct (par_rename (fun _ _ => true) toy_md5 (sample_tree (lit "movie.mkv")) job_dir_path) as [[t' rs]|] eqn:E; [|by vm_compute in E].
  assert (Hrs : match par_rename (fun _ _ => true) toy_md5 (sample_tree (lit "movie.mkv")) job_dir_path with
    Ret (_, rs) => rs = [(child job_dir_path (lit "x"), child job_dir_path (lit "movie.mkv"))] | Panic => False end) by (by vm_compute).
  rewrite E in Hrs. exists t', rs. split; [done|]. split; [done|].
  eapply (par_named_by_evidence _ _ _ _ _ _ (child job_dir_path (lit "x"))); [exact E|]. rewrite Hrs. by left.
Defined.

Lemma volumes_stay_witness :
  files (fst (rar_rename (fun _ _ => true) to_ascii_lowercase (sample_tree (lit "m")) job_dir_path)) !!
    child job_dir_path (lit "v.r00") = Some (lit "Rar!" ++ [0x1a; 0x07; 0x00]).
Proof.
  apply (volumes_stay (fun _ _ => true) to_ascii_lowercase (sample_tree (lit "m")) job_dir_path (lit "v.r00")); by vm_compute.
Defined.

(** a recovery file can move a file out of the job's directory.  The names
    of a recovery set are joined to the directory as they are: a description
    named [../evil] moves the file that matches it into the parent directory. *)
Theorem par_rename_escapes :
  match par_rename (fun _ _ => true) toy_md5 (sample_tree (lit "../evil")) job_dir_path with
  | Ret (t', _) => files t' !! [lit "downloads"; lit "evil"] = Some [1; 2; 3] /\
      files t' !! child job_dir_path (lit "x") = None
  | Panic => False
  end.
Proof. by vm_compute. Qed.
