(* ===== verification/Deobfuscate.v ===== *)
(** * Final-name deobfuscation ([crates/nzbd-post/src/deobfuscate.rs])

    The last pass over a finished job's directory: a dominant file with a
    meaningless name takes the job's name, and a season pack of hex-grade names
    is numbered; files of the same stem follow.  The order in which the system
    lists a directory is a parameter.  The theorems: nothing is lost or
    overwritten, free names are found in bounded steps, and what the pass leaves
    alone. *)

From stdpp Require Import sorting.
From S2P Require Import Prelude RustStr Par2 Tree Rename.

#[local] Unset Default Proof Using.

Definition SKIP_EXTS : list str :=
  [lit "vob"; lit "rar"; lit "par2"; lit "mts"; lit "m2ts"; lit "cpi"; lit "clpi"; lit "mpl"; lit "mpls"; lit "bdm";
   lit "bdmv"; lit "nzb"; lit "sfv"; lit "srr"].

Definition VIDEO_EXTS : list str :=
  [lit "mkv"; lit "mp4"; lit "avi"; lit "m4v"; lit "mpg"; lit "mpeg"; lit "wmv"; lit "mov"; lit "webm"; lit "ts"; lit "flv"].

Definition ext_of (p : path) : str := to_ascii_lowercase (default [] (extension (file_name p))).
Definition stem_of (p : path) : str := file_stem (file_name p).

Definition skip_ext (p : path) : bool := bool_decide (ext_of p ∈ SKIP_EXTS) || split_volume_ext (ext_of p).
Definition video_ext (p : path) : bool := bool_decide (ext_of p ∈ VIDEO_EXTS).

(** ** Names that are noise *)

Definition is_digit_at (b : bytes) (i : nat) : bool :=
  match b !! i with Some c => is_ascii_digit c | None => false end.

Fixpoint take_digits (b : bytes) : nat :=
  match b with c :: b' => if is_ascii_digit c then S (take_digits b') else O | [] => O end.

(** [SxxEyy] or [NxNN] at index [i] of the bytes. *)
Definition episode_at (b : bytes) (i : nat) : bool :=
  match b !! i with
  | None => false
  | Some c =>
      (((c =? 115) || (c =? 83)) &&
       let d := take_digits (drop (S i) b) in
       (1 <=? d)%nat && (d <=? 2)%nat &&
       match b !! (i + 1 + d)%nat with
       | Some e => ((e =? 101) || (e =? 69)) && is_digit_at b (i + 2 + d)
       | None => false
       end)
      || ((c =? 120) && (0 <? i)%nat && is_digit_at b (i - 1) && is_digit_at b (i + 1) && is_digit_at b (i + 2))
  end.

Definition episode_pattern (stem : str) : bool :=
  let b := utf8_encode stem in existsb (episode_at b) (seq 0 (length b)).

Example episode_ex : map (fun s => episode_pattern (lit s)) ["Show.S01E02"; "a.1x02.b"; "deadbeef"; "s123e4"; "S1E"]%string =
  [true; true; false; false; false].
Proof. vm_compute. reflexivity. Qed.

Definition is_hex (s : str) : bool :=
  negb (bool_decide (s = [])) && forallb is_ascii_hexdigit (utf8_encode s).

Definition count (p : Z -> bool) (s : str) : nat := length (List.filter p s).

Definition is_uuid (stem : str) : bool :=
  let parts := split_chars (Z.eqb 45) stem in
  (length parts =? 5)%nat &&
  forallb (fun '(n, p) => (utf8_len p =? n) && is_hex p) (zip [8; 4; 4; 4; 12] parts).

Definition is_definitely_obfuscated (stem : str) : bool :=
  let b := utf8_encode stem in
  if episode_pattern stem then false
  else if (16 <=? utf8_len stem) && is_hex stem then true
  else if is_uuid stem then true
  else if (40 <=? utf8_len stem) && forallb (fun c => (c =? 46) || is_ascii_digit c || in_range 97 102 c) b then true
  else if (30 <=? count is_ascii_hexdigit b)%nat && (2 <=? count (Z.eqb 91) b)%nat && (2 <=? count (Z.eqb 93) b)%nat then true
  else starts_with (lit "abc.xyz") stem.

(** [upper / lower <= 0.25] in [f64] is exact for the lengths a name can have. *)
Definition is_probably_obfuscated (stem : str) : bool :=
  if episode_pattern stem then false
  else if is_definitely_obfuscated stem then true
  else
    let upper := count is_ascii_upper stem in
    let lower := count is_ascii_lower stem in
    let letters := (upper + lower)%nat in
    let digits := count is_ascii_digit stem in
    let spacish := count (fun c => (c =? 32) || (c =? 46) || (c =? 95)) stem in
    if (2 <=? upper)%nat && (2 <=? lower)%nat && (1 <=? spacish)%nat then false
    else if (3 <=? spacish)%nat then false
    else if (4 <=? letters)%nat && (4 <=? digits)%nat && (1 <=? spacish)%nat then false
    else if match stem with c :: _ => is_ascii_upper c | [] => false end && (2 <=? lower)%nat && (4 * upper <=? lower)%nat
    then false
    else true.

Example obfuscated_ex :
  (is_definitely_obfuscated (lit "deadbeefdeadbeef"), is_definitely_obfuscated (lit "b082fa0b-eaa6-44d3-aa01-045d5b8d0b36"),
   is_probably_obfuscated (lit "Great Distro"), is_probably_obfuscated (lit "jfoiejfo32j")) = (true, true, false, true).
Proof. vm_compute. reflexivity. Qed.

(** ** The walk and the renames *)

Section Pass.
Context (allowed : path -> path -> bool) (listing : list path -> list path).

Definition hidden (nm : str) : bool := starts_with (lit ".") nm.

Fixpoint strip_dir (dir p : path) : option path :=
  match dir, p with
  | [], _ => Some p
  | a :: dir', b :: p' => if bool_decide (a = b) then strip_dir dir' p' else None
  | _ :: _, [] => None
  end.

(** [collect_files]: the files under [dir], at most six levels down, nothing
    hidden on the way. *)
Definition collected (dir p : path) : bool :=
  match strip_dir dir p with
  | Some rel => negb (bool_decide (rel = [])) && (length rel <=? 6)%nat && forallb (fun nm => negb (hidden nm)) rel
  | None => false
  end.

Definition collect_files (t : Tree) (dir : path) : list path :=
  listing (List.filter (collected dir) (map fst (map_to_list (files t)))).

(** [for n in 2..]: [find_free] stops within the fuel, see [find_free_spec]. *)
Definition candidate (dir : path) (stem suffix : str) (n : Z) : path :=
  join dir (stem ++ lit " (" ++ show_dec n ++ lit ")" ++ suffix).

Fixpoint find_free (fuel : nat) (t : Tree) (dir : path) (stem suffix : str) (n : Z) : path :=
  let cand := candidate dir stem suffix n in
  match fuel with
  | O => cand
  | S fuel' => if negb (exists_path t cand) then cand else find_free fuel' t dir stem suffix (n + 1)
  end.

Definition known_paths (t : Tree) : gset path := dom (files t) ∪ dirs t.

Definition unique_target (t : Tree) (dir : path) (stem suffix : str) : path :=
  let first := join dir (stem ++ suffix) in
  if negb (exists_path t first) then first
  else find_free (S (size (known_paths t))) t dir stem suffix 2.

Definition companion (old_stem new_stem : str) (dir : path) (st : Tree * Renames) (f : path) : Tree * Renames :=
  if negb (bool_decide (parent f = dir)) then st
  else
    match strip_prefix old_stem (file_name f) with
    | None => st
    | Some suffix =>
        let target := unique_target (fst st) dir new_stem suffix in
        match rename allowed (fst st) f target with
        | Some t => (t, snd st ++ [(f, target)])
        | None => st
        end
    end.

Definition rename_with_companions (old_stem new_stem : str) (dir : path) (all_files : list path)
    (st : Tree * Renames) : Tree * Renames :=
  fold_left (companion old_stem new_stem dir) all_files st.

(** [trim_end_matches] of a string: as often as it ends so. *)
Fixpoint trim_end_str (fuel : nat) (pat s : str) : str :=
  match fuel with
  | O => s
  | S fuel' => match strip_suffix pat s with Some s' => trim_end_str fuel' pat s' | None => s end
  end.

Definition job_stem (job_name : str) : str :=
  let s := trim job_name in trim (trim_end_str (length s) (lit ".nzb") s).

Definition size_of (t : Tree) (p : path) : Z := Z.of_nat (length (default [] (files t !! p))).

(** Biggest first, then by path. *)
Definition cand_leb (t : Tree) (a b : path) : bool :=
  (size_of t b <? size_of t a) || ((size_of t a =? size_of t b) && path_leb a b).

Definition candidates (t : Tree) (fs : list path) : list path :=
  merge_sort (fun a b => cand_leb t a b) (List.filter (fun p => negb (skip_ext p)) fs).

Definition is_protected (protected : gset str) (p : path) : bool := bool_decide (file_name p ∈ protected).

Definition dominant (t : Tree) (cands : list path) : bool :=
  match cands with
  | a :: b :: _ => Z.min (3 * size_of t b) u64_max <=? size_of t a
  | _ => true
  end.

Fixpoint rename_pack (job : str) (i : Z) (pack : list path) (fs : list path) (st : Tree * Renames) : Tree * Renames :=
  match pack with
  | [] => st
  | p :: pack' =>
      rename_pack job (i + 1) pack' fs
        (rename_with_companions (stem_of p) (job ++ lit " - " ++ pad_zeros 2 (show_dec (i + 1))) (parent p) fs st)
  end.

Definition pack_of (t : Tree) (cands : list path) : list path :=
  match cands with
  | [] => []
  | c :: _ => List.filter (fun p => (size_of t c / 4 <=? size_of t p) && video_ext p) cands
  end.

Definition deobfuscate_dir (t : Tree) (dir : path) (job_name : str) (protected : gset str) : Tree * Renames :=
  let job := job_stem job_name in
  if bool_decide (job = []) || is_definitely_obfuscated job then (t, [])
  else
    let fs := collect_files t dir in
    let cands := candidates t fs in
    match cands with
    | [] => (t, [])
    | c :: _ =>
        if dominant t cands then
          if negb (is_protected protected c) && is_probably_obfuscated (stem_of c)
             && negb (eq_ignore_ascii_case (stem_of c) job)
          then rename_with_companions (stem_of c) job (parent c) fs (t, [])
          else (t, [])
        else
          let pack := pack_of t cands in
          if (length pack <? 2)%nat || existsb (is_protected protected) pack
             || negb (forallb (fun p => is_definitely_obfuscated (stem_of p)) pack)
          then (t, [])
          else rename_pack job 0 (sort_paths pack) fs (t, [])
    end.

(** ** Free names *)

Lemma split_slash_app a b : Forall (fun c => c <> 47) b ->
  exists ws w, split_chars (Z.eqb 47) (a ++ b) = ws ++ [w ++ b] /\ forall b', Forall (fun c => c <> 47) b' ->
    split_chars (Z.eqb 47) (a ++ b') = ws ++ [w ++ b'].
Proof.
  intros Hb. induction a as [|c a IH].
  - exists [], []. simpl. split; [by apply split_one|]. intros b' Hb'. by apply split_one.
  - destruct IH as (ws & w & IH1 & IH2). destruct (47 =? c) eqn:E.
    + exists ([] :: ws), w. cbn [app split_chars]. rewrite E. split; [by rewrite IH1|]. intros b' Hb'. by rewrite IH2.
    + destruct ws as [|w0 ws].
      * exists [], (c :: w). cbn [app split_chars]. rewrite E. split; [by rewrite IH1|]. intros b' Hb'. by rewrite IH2.
      * exists ((c :: w0) :: ws), w. cbn [app split_chars]. rewrite E. split; [by rewrite IH1|]. intros b' Hb'. by rewrite IH2.
Qed.

Lemma show_dec_no_slash n : 0 <= n -> Forall (fun c => c <> 47) (show_dec n).
Proof.
  intros Hn. eapply Forall_impl; [by apply show_dec_alnum|]. intros c H ->. by vm_compute in H.
Qed.

Definition tail_of (n : Z) (suffix : str) : str := lit " (" ++ show_dec n ++ lit ")" ++ suffix.

Lemma tail_no_slash n suffix : 0 <= n -> Forall (fun c => c <> 47) suffix -> Forall (fun c => c <> 47) (tail_of n suffix).
Proof.
  intros Hn Hs. unfold tail_of. repeat (apply Forall_app; split); [by repeat constructor|by apply show_dec_no_slash|by repeat constructor|done].
Qed.

(** The candidates of one call differ in their last component only. *)
Lemma candidate_shape dir stem suffix : Forall (fun c => c <> 47) suffix ->
  exists q w, forall n, 0 <= n -> candidate dir stem suffix n = q ++ [w ++ tail_of n suffix].
Proof.
  intros Hs. destruct (split_slash_app stem (tail_of 2 suffix) (tail_no_slash 2 suffix ltac:(done) Hs)) as (ws & w & _ & Hw).
  set (start := if starts_with (lit "/") (stem ++ tail_of 2 suffix) then [] else dir).
  exists (fold_left resolve_step ws start), w. intros n Hn. unfold candidate, join. fold (tail_of n suffix).
  rewrite Hw by (by apply tail_no_slash).
  replace (starts_with (lit "/") (stem ++ tail_of n suffix)) with (starts_with (lit "/") (stem ++ tail_of 2 suffix)).
  2:{ unfold starts_with, tail_of. destruct stem as [|c stem]; [done|]. change (lit "/") with [47]. cbn [app strip_prefix]. by destruct (47 =? c). }
  rewrite fold_left_app. cbn [fold_left]. fold start.
  assert (HT : exists x, tail_of n suffix = 32 :: 40 :: x) by (by eexists). destruct HT as [x ->].
  unfold resolve_step at 1. rewrite !bool_decide_eq_false_2; [done|..].
  - change (lit "..") with [46; 46]. destruct w as [|a [|a' [|]]]; simpl; congruence.
  - change (lit ".") with [46]. destruct w as [|a [|]]; simpl; congruence.
  - by destruct w.
Qed.

Lemma candidate_inj dir stem suffix n m : Forall (fun c => c <> 47) suffix -> is_u32 n -> is_u32 m ->
  candidate dir stem suffix n = candidate dir stem suffix m -> n = m.
Proof.
  intros Hs Hn Hm H. destruct (candidate_shape dir stem suffix Hs) as (q & w & Hq). rewrite !Hq in H by (destruct Hn, Hm; lia).
  apply app_inj_tail in H as [_ H]. apply app_inv_head in H. unfold tail_of in H. apply app_inv_head in H.
  apply app_inv_tail in H. apply (inj Some).
  by rewrite <- (parse_show_dec u32_max n), <- (parse_show_dec u32_max m), H by done.
Qed.

Lemma exists_known t p : exists_path t p = true <-> p ∈ known_paths t.
Proof.
  unfold exists_path, known_paths. rewrite orb_true_iff, !bool_decide_eq_true, elem_of_union, elem_of_dom. done.
Qed.

Lemma find_free_all fuel t dir stem suffix : forall n, exists_path t (find_free fuel t dir stem suffix n) = true ->
  forall m, n <= m < n + Z.of_nat fuel -> exists_path t (candidate dir stem suffix m) = true.
Proof.
  induction fuel as [|fuel IH]; intros n H m Hm; [lia|]. cbn [find_free] in H.
  destruct (exists_path t (candidate dir stem suffix n)) eqn:E; simpl in H; [|congruence].
  destruct (decide (m = n)) as [->|Hne]; [done|]. apply (IH (n + 1)); [done|lia].
Qed.

(** With one step more than there are paths, a free one is found. *)
Lemma find_free_spec t dir stem suffix : Forall (fun c => c <> 47) suffix ->
  Z.of_nat (size (known_paths t)) < u32_max - 2 ->
  exists_path t (find_free (S (size (known_paths t))) t dir stem suffix 2) = false.
Proof.
  intros Hs Hsz. destruct (exists_path t _) eqn:E; [|done]. exfalso.
  pose proof (find_free_all _ _ _ _ _ _ E) as HA. set (k := size (known_paths t)) in *.
  set (cs := map (fun i => candidate dir stem suffix (2 + Z.of_nat i)) (seq 0 (S k))).
  assert (HN : NoDup cs).
  { apply NoDup_fmap_2_strong; [|apply NoDup_seq]. intros i j Hi%elem_of_seq Hj%elem_of_seq H.
    apply candidate_inj in H; [lia|done|unfold is_u32, u32_max in *; lia|unfold is_u32, u32_max in *; lia]. }
  assert (HS : (list_to_set cs : gset path) ⊆ known_paths t).
  { intros p Hp%elem_of_list_to_set. apply list_elem_of_fmap in Hp as (i & -> & Hi%elem_of_seq). apply exists_known, HA. lia. }
  apply subseteq_size in HS. rewrite size_list_to_set in HS by done. subst cs. rewrite length_map, length_seq in HS. lia.
Qed.

Lemma unique_target_free t dir stem suffix : Forall (fun c => c <> 47) suffix ->
  Z.of_nat (size (known_paths t)) < u32_max - 2 -> exists_path t (unique_target t dir stem suffix) = false.
Proof.
  intros Hs Hsz. unfold unique_target. destruct (exists_path t (join dir (stem ++ suffix))) eqn:E; simpl; [|done].
  by apply find_free_spec.
Qed.

(** ** The pass *)

Definition no_slash (p : path) : Prop := Forall (fun c => c <> 47) (file_name p).

Definition small (t : Tree) : Prop := Z.of_nat (size (files t) + size (dirs t)) < u32_max - 2.

Lemma keeps_small t t' : keeps_data t t' -> small t -> small t'.
Proof.
  intros [H1 H2] Hs. unfold small in *. rewrite H2. apply Permutation_length in H1. unfold contents in H1.
  rewrite !length_map in H1. by rewrite <- !length_map_to_list, H1, length_map_to_list.
Qed.

Lemma small_known t : small t -> Z.of_nat (size (known_paths t)) < u32_max - 2.
Proof.
  unfold small, known_paths. intros Hs. pose proof (size_union_alt (dom (files t)) (dirs t)) as HU.
  rewrite size_dom in HU. pose proof (subseteq_size (dirs t ∖ dom (files t)) (dirs t) ltac:(set_solver)). lia.
Qed.

Lemma strip_prefix_suffix p s r : strip_prefix p s = Some r -> Forall (fun c => c <> 47) s -> Forall (fun c => c <> 47) r.
Proof. intros ->%strip_prefix_Some H. by apply Forall_app in H as [_ H]. Qed.

Definition follows (old_stem : str) (dir f : path) : Prop := parent f = dir /\ starts_with old_stem (file_name f) = true.

Lemma companion_passes old_stem new_stem dir st f : no_slash f -> small (fst st) ->
  passes allowed (follows old_stem dir) st (companion old_stem new_stem dir st f).
Proof.
  intros Hf Hs. unfold companion. destruct (bool_decide (parent f = dir)) eqn:Ep; simpl; [|constructor].
  apply bool_decide_eq_true in Ep. destruct (strip_prefix old_stem (file_name f)) as [suffix|] eqn:Es; [|constructor].
  set (target := unique_target (fst st) dir new_stem suffix).
  assert (HT : exists_path (fst st) target = false).
  { apply unique_target_free; [by eapply strip_prefix_suffix|by apply small_known]. }
  assert (E : rename allowed (fst st) f target = safe_rename allowed (fst st) f target) by (unfold safe_rename; by rewrite HT).
  cbv zeta. fold target. rewrite E. change (passes allowed (follows old_stem dir) st (apply_rename allowed st f target)).
  apply passes_one. split; [done|]. unfold starts_with. by rewrite Es.
Qed.

Lemma companions_pass old_stem new_stem dir fs : Forall no_slash fs -> forall st, small (fst st) ->
  passes allowed (follows old_stem dir) st (rename_with_companions old_stem new_stem dir fs st).
Proof.
  induction 1 as [|f fs Hf Hfs IH]; intros st Hs; [constructor|]. cbn [rename_with_companions fold_left].
  pose proof (companion_passes old_stem new_stem dir st f Hf Hs) as HP.
  eapply passes_trans; [exact HP|]. apply IH. eapply keeps_small; [by eapply passes_keeps|done].
Qed.

Lemma passes_impl (P Q : path -> Prop) st st' : (forall p, P p -> Q p) -> passes allowed P st st' -> passes allowed Q st st'.
Proof. intros H. induction 1; [constructor|]. eapply passes_step; [by apply H|done]. Qed.

(** A file whose name makes others follow it. *)
Definition noise (fs : list path) (protected : gset str) (c : path) : Prop :=
  c ∈ fs /\ skip_ext c = false /\ is_protected protected c = false /\ is_probably_obfuscated (stem_of c) = true.

Definition follows_noise (fs : list path) (protected : gset str) (p : path) : Prop :=
  exists c, noise fs protected c /\ follows (stem_of c) (parent c) p.

Lemma pack_passes fs protected job pack : Forall no_slash fs -> Forall (noise fs protected) pack ->
  forall i st, small (fst st) -> passes allowed (follows_noise fs protected) st (rename_pack job i pack fs st).
Proof.
  intros Hfs. induction 1 as [|c pack Hc Hp IH]; intros i st Hs; [constructor|]. cbn [rename_pack].
  pose proof (companions_pass (stem_of c) (job ++ lit " - " ++ pad_zeros 2 (show_dec (i + 1))) (parent c) fs Hfs st Hs) as HP.
  eapply passes_trans; [eapply passes_impl; [|exact HP]; intros p H; by exists c|].
  apply IH. eapply keeps_small; [by eapply passes_keeps|done].
Qed.

Lemma definitely_probably stem : is_definitely_obfuscated stem = true -> is_probably_obfuscated stem = true.
Proof.
  intros H. unfold is_probably_obfuscated. destruct (episode_pattern stem) eqn:E; [|by rewrite H].
  unfold is_definitely_obfuscated in H. by rewrite E in H.
Qed.

Lemma candidates_elem t fs c : c ∈ candidates t fs -> c ∈ fs /\ skip_ext c = false.
Proof.
  unfold candidates. rewrite merge_sort_Permutation, elem_of_filter_bool. intros [H1 H2]. split; [done|].
  by destruct (skip_ext c).
Qed.

(** The system lists every entry once. *)
Hypothesis listing_perm : forall l, listing l ≡ₚ l.

Lemma collect_elem t dir p : p ∈ collect_files t dir -> is_Some (files t !! p).
Proof.
  unfold collect_files. rewrite listing_perm, elem_of_filter_bool. intros [H _].
  apply list_elem_of_fmap in H as ([p' b] & -> & H). apply elem_of_map_to_list in H. by exists b.
Qed.

Lemma deobfuscate_passes t dir job protected : (forall p, is_Some (files t !! p) -> no_slash p) -> small t ->
  passes allowed (follows_noise (collect_files t dir) protected) (t, []) (deobfuscate_dir t dir job protected).
Proof.
  intros Hn Hs. unfold deobfuscate_dir. case_match; [constructor|]. set (fs := collect_files t dir).
  assert (Hfs : Forall no_slash fs) by (apply Forall_forall; intros p Hp; by apply Hn, (collect_elem t dir)).
  pose proof (candidates_elem t fs) as HC. set (cands := candidates t fs) in *.
  destruct cands as [|c cs] eqn:Ec; [constructor|]. rewrite <- Ec in *. assert (Hc : c ∈ cands) by (rewrite Ec; left).
  destruct (dominant t cands).
  - case_match eqn:E; [|constructor]. bool_hyps. eapply passes_impl; [|by apply companions_pass].
    intros p Hp. exists c. split; [|done]. destruct (HC c Hc). by split_and!.
  - cbv zeta. match goal with |- context [if ?b then _ else _] => destruct b eqn:E end; [constructor|]. apply orb_false_iff in E as [E E3]. apply orb_false_iff in E as [_ E2].
    apply negb_false_iff in E3. rewrite forallb_forall in E3. apply pack_passes; [done| |done].
    apply Forall_forall. intros p Hp. unfold sort_paths in Hp. rewrite merge_sort_Permutation in Hp.
    assert (Hp' : p ∈ cands). { unfold pack_of in Hp. rewrite Ec in Hp. rewrite elem_of_filter_bool in Hp. rewrite Ec. by destruct Hp. }
    destruct (HC p Hp') as [G1 G2]. split_and!; try done.
    + destruct (is_protected protected p) eqn:Epr; [|done]. rewrite <- E2. symmetry. apply existsb_exists. exists p.
      by rewrite <- list_elem_of_In.
    + apply definitely_probably, E3. by apply list_elem_of_In.
Qed.

(** deobfuscation is safe.  In a tree whose names are names, the pass loses
    and overwrites nothing: every file's content is still there exactly once, and
    the directories are as they were.  And it is conservative: a file moves only
    when its name begins with the stem of a file of its own directory that was
    found under the job, is of no excluded kind, is not protected, and has a name
    that looks obfuscated. *)
Theorem deobfuscate_safe t dir job protected : (forall p, is_Some (files t !! p) -> no_slash p) -> small t ->
  let t' := fst (deobfuscate_dir t dir job protected) in
  keeps_data t t' /\
  forall p b, files t !! p = Some b -> ~ follows_noise (collect_files t dir) protected p -> files t' !! p = Some b.
Proof.
  intros Hn Hs t'. pose proof (deobfuscate_passes t dir job protected Hn Hs) as HP.
  split; [by apply (passes_keeps _ _ _ _ HP)|]. intros p b Hb Hf.
  subst t'. rewrite (passes_untouched _ _ _ _ p HP Hf) by (by exists b). done.
Qed.

End Pass.

(** ** A protected companion *)

Definition noise_tree : Tree := {|
  files := {[ child job_dir_path (lit "deadbeefdeadbeef.mkv") := replicate 40 7;
              child job_dir_path (lit "deadbeefdeadbeef.dut.srt") := [1; 2];
              child job_dir_path (lit "readme.txt") := [3] ]};
  dirs := {[ [lit "downloads"]; job_dir_path ]} |}.

Lemma noise_names p : is_Some (files noise_tree !! p) -> no_slash p.
Proof.
  intros [b Hb]. assert (HM : map_Forall (fun p (_ : bytes) => no_slash p) (files noise_tree)).
  { apply (bool_decide_unpack _). by vm_compute. }
  by apply (HM p b).
Qed.

Lemma deobfuscate_safe_witness :
  let t' := fst (deobfuscate_dir (fun _ _ => true) (fun l => l) noise_tree job_dir_path (lit "Movie.nzb") ∅) in
  files t' !! child job_dir_path (lit "Movie.mkv") = Some (replicate 40 7) /\ keeps_data noise_tree t'.
Proof.
  intros t'. split; [by vm_compute|].
  apply (deobfuscate_safe (fun _ _ => true) (fun l => l) (fun l => Permutation_refl l) noise_tree job_dir_path (lit "Movie.nzb") ∅).
  - apply noise_names.
  - by vm_compute.
Defined.

(** protection does not cover companions.  A file whose name the recovery set
    proves is renamed all the same when the dominant file it shares its stem with
    is not protected. *)
Theorem protected_companion_renamed :
  let protected := {[ lit "deadbeefdeadbeef.dut.srt" ]} in
  let t' := fst (deobfuscate_dir (fun _ _ => true) (fun l => l) noise_tree job_dir_path (lit "Movie.nzb") protected) in
  files t' !! child job_dir_path (lit "deadbeefdeadbeef.dut.srt") = None /\
  files t' !! child job_dir_path (lit "Movie.dut.srt") = Some [1; 2].
Proof. by vm_compute. Qed.
