(* ===== verification/Range.v ===== *)
(** * Article ranges of one file ([crates/nzbd-cluster/src/range.rs])

    A large file is split into ranges of articles that several nodes download;
    one node then assembles the accepted ranges.  What [assemble] reads (the
    accepted jobs and their payloads) and which of its file-system calls fail are
    parameters; the output file is the bytes written to it.  The theorems: the
    ranges partition the file's articles, and an assembly that succeeds has
    published a file that the articles tile without overlap or gap, each with its
    own CRC. *)

From S2P Require Import Prelude RustStr Crc32 Types Queue Completion.

#[local] Unset Default Proof Using.

Definition TARGET_ARTICLES : nat := 32.

Record RangeScope := mkScope {
  sc_job : Z;
  sc_file : Z;
  first_article : Z;
  last_article : Z;
  range_index : Z;
  range_count : Z
}.

(** [slice::chunks] *)
Fixpoint chunks_of {A} (fuel n : nat) (l : list A) : list (list A) :=
  match fuel, l with
  | _, [] => []
  | O, _ => []
  | S fuel', _ => take n l :: chunks_of fuel' n (drop n l)
  end.

Definition chunks {A} (n : nat) (l : list A) : list (list A) := chunks_of (length l) n l.

Definition first_number (c : list Segment) : Z := match c with s :: _ => number s | [] => 0 end.
Definition last_number (c : list Segment) : Z := match last c with Some s => number s | None => 0 end.

Definition unpaused (j : Job) : list FileEntry := List.filter (fun f => negb (paused f)) (files j).

Definition scope_of (j : Job) (f : FileEntry) (count : nat) (i : nat) (c : list Segment) : RangeScope :=
  mkScope (job_id j) (file_id f) (first_number c) (last_number c) (wrap32 (Z.of_nat i)) (wrap32 (Z.of_nat count)).

Definition scopes (j : Job) : list RangeScope :=
  match unpaused j with
  | [] => []
  | f :: rest =>
      if negb (bool_decide (rest = [])) || (length (segments f) <? TARGET_ARTICLES * 2)%nat then []
      else
        let cs := chunks TARGET_ARTICLES (segments f) in
        imap (scope_of j f (length cs)) cs
  end.

Definition is_split_candidate (j : Job) : bool := negb (bool_decide (scopes j = [])).

Definition resource (s : RangeScope) : str :=
  lit "work/job/" ++ show_dec (sc_job s) ++ lit "/file/" ++ show_dec (sc_file s) ++ lit "/articles/"
  ++ show_dec (first_article s) ++ lit "-" ++ show_dec (last_article s).

Definition assembly_resource (job file : Z) : str :=
  lit "work/job/" ++ show_dec job ++ lit "/file/" ++ show_dec file ++ lit "/assemble".

Definition in_scope (s : RangeScope) (g : Segment) : bool :=
  (first_article s <=? number g) && (number g <=? last_article s).

Definition find_file_of (file : Z) (j : Job) : option FileEntry :=
  List.find (fun f => file_id f =? file) (files j).

Definition with_result (ss : list Segment) (crc : option Z) (fin : bool) (f : FileEntry) : FileEntry := {|
  file_id := file_id f; subject := subject f; filename := filename f;
  filename_confirmed := filename_confirmed f; is_par2 := is_par2 f; paused := paused f;
  groups := groups f; date := date f; segments := ss; file_crc32 := crc; finalized := fin |}.

Definition with_dir (dir : str) (fs : list FileEntry) (st : JobStatus) (ps : list (str * str)) (j : Job) : Job := {|
  job_id := job_id j; kind := kind j; name := name j; dir_name := dir;
  name_provisional := name_provisional j; queued_at_unix := queued_at_unix j;
  original_name := original_name j; category := category j; priority := priority j;
  dupe := dupe j; params := ps; files := fs; totals := totals j; status := st; torrent := torrent j;
  stages := stages j |}.

Definition work_view (j : Job) (s : RangeScope) (fence : Z) : result Job str :=
  match find_file_of (sc_file s) j with
  | None => Err (lit "range file disappeared")
  | Some f =>
      let ss := List.filter (in_scope s) (segments f) in
      if bool_decide (ss = []) then Err (lit "range contains no articles")
      else
        let dir := lit ".nzbd-cluster/range-work/job-" ++ show_dec (sc_job s) ++ lit "/file-" ++ show_dec (sc_file s)
          ++ lit "/" ++ show_dec (first_article s) ++ lit "-" ++ show_dec (last_article s) ++ lit "-fence-" ++ show_dec fence in
        Ok (recompute_job_totals (with_dir dir [with_result ss None false f] JS_Queued (params j) j))
  end.

(** ** Assembly *)

Record AcceptedRange := mkAccepted { ar_scope : RangeScope; ar_result_ref : str }.
Record AssembleScope := mkAssemble { as_job : Z; as_file : Z; as_ranges : list AcceptedRange }.

Inductive IoStep := CreateDir | CreateOutput | WriteArticle (n : Z) | Flush | Publish | FlushDir | ReadBack.

(** What the loop over the accepted ranges keeps. *)
Record Asm := mkAsm {
  output : bytes;
  terminal : gmap Z SegmentState;
  file_size : Z;
  spans : list (Z * Z * Z)
}.

(** [seek] and [write_all]: a gap reads as zeros. *)
Definition write_at (off : nat) (data buf : bytes) : bytes :=
  match data with
  | [] => buf
  | _ => take off (buf ++ replicate (off - length buf) 0) ++ data ++ drop (off + length data) buf
  end.

(** [set_len] *)
Definition set_len (n : nat) (buf : bytes) : bytes := take n (buf ++ replicate (n - length buf) 0).

Section Assemble.
Context (read_job : str -> result Job str) (payload : str -> str -> option bytes) (fails : IoStep -> bool).

Definition io_step (s : IoStep) : result unit str :=
  if fails s then Err (lit "i/o error") else Ok tt.

(** [seek] and [read_exact]. *)
Definition read_article (input : bytes) (off len : Z) (n : Z) : result bytes str :=
  if (len =? 0) || (off + len <=? Z.of_nat (length input)) then Ok (slice input off len)
  else Err (lit "read article " ++ show_dec n).

Definition take_article (s : RangeScope) (input : bytes) (a : Asm) (g : Segment) : result Asm str :=
  if negb (in_scope s g) then Err (lit "article " ++ show_dec (number g) ++ lit " escaped its accepted range")
  else
    match state g with
    | Done off len crc =>
        let? data := read_article input off len (number g) in
        if negb (crc32_ref data =? crc) then Err (lit "article " ++ show_dec (number g) ++ lit " CRC mismatch")
        else
          let? _ := io_step (WriteArticle (number g)) in
          let a' := mkAsm (write_at (Z.to_nat off) data (output a)) (<[number g := state g]> (terminal a))
            (Z.max (file_size a) (sat_add64 off len)) (spans a ++ [(off, sat_add64 off len, number g)]) in
          if bool_decide (is_Some (terminal a !! number g))
          then Err (lit "article " ++ show_dec (number g) ++ lit " was supplied more than once")
          else Ok a'
    | _ => Err (lit "article " ++ show_dec (number g) ++ lit " is not durably complete")
    end.

Fixpoint take_articles (s : RangeScope) (input : bytes) (gs : list Segment) (a : Asm) : result Asm str :=
  match gs with
  | [] => Ok a
  | g :: gs' => let? a := take_article s input a g in take_articles s input gs' a
  end.

Definition take_range (j : Job) (scope : AssembleScope) (fname : str) (a : Asm) (r : AcceptedRange) : result Asm str :=
  if negb (sc_job (ar_scope r) =? as_job scope) || negb (sc_file (ar_scope r) =? as_file scope)
  then Err (lit "accepted range identity does not match assembly")
  else
    let? partial := read_job (ar_result_ref r) in
    match find_file_of (as_file scope) partial with
    | None => Err (lit "accepted range names another file")
    | Some pf =>
        if negb (job_id partial =? job_id j) || negb (length (files partial) =? 1)%nat || negb (bool_decide (filename pf = fname))
        then Err (lit "accepted range job identity mismatch")
        else
          match payload (ar_result_ref r) (filename pf) with
          | None => Err (lit "open accepted range payload")
          | Some input => take_articles (ar_scope r) input (segments pf) a
          end
    end.

Fixpoint take_ranges (j : Job) (scope : AssembleScope) (fname : str) (rs : list AcceptedRange) (a : Asm) : result Asm str :=
  match rs with
  | [] => Ok a
  | r :: rs' => let? a := take_range j scope fname a r in take_ranges j scope fname rs' a
  end.

(** Each expected article takes its state out of [terminal]. *)
Fixpoint place (ss : list Segment) (t : gmap Z SegmentState) : result (list Segment * gmap Z SegmentState) str :=
  match ss with
  | [] => Ok ([], t)
  | s :: ss' =>
      match t !! number s with
      | None => Err (lit "article " ++ show_dec (number s) ++ lit " has no accepted range")
      | Some st =>
          let? (ss', t') := place ss' (delete (number s) t) in
          Ok ({| message_id := message_id s; number := number s; seg_size := seg_size s; state := st |} :: ss', t')
      end
  end.

(** The spans, by their starts, follow each other from [cursor]. *)
Fixpoint tile (cursor : Z) (l : list (Z * Z * Z)) : result Z str :=
  match l with
  | [] => Ok cursor
  | (start, stop, n) :: l' =>
      if negb (start =? cursor) || (stop <=? start)
      then Err (lit "article " ++ show_dec n ++ lit " creates an overlap or byte gap at " ++ show_dec cursor)
      else tile stop l'
  end.

Definition check_ranges (j : Job) (scope : AssembleScope) : result unit str :=
  let expected := scopes j in
  if bool_decide (expected = []) || negb (length expected =? length (as_ranges scope))%nat
  then Err (lit "assembly does not contain the exact expected range set")
  else
    let es : gset str := list_to_set (map resource expected) in
    let ss : gset str := list_to_set (map (fun r => resource (ar_scope r)) (as_ranges scope)) in
    if negb (bool_decide (es = ss)) || negb (base.size ss =? length (as_ranges scope))%nat
    then Err (lit "assembly ranges overlap, duplicate, or leave a gap")
    else Ok tt.

(** Up to the rename: the file's articles and the bytes to publish. *)
Definition build (j : Job) (scope : AssembleScope) (f : FileEntry) : result (list Segment * bytes) str :=
  let? _ := io_step CreateDir in
  let? _ := io_step CreateOutput in
  let? a := take_ranges j scope (filename f) (as_ranges scope) (mkAsm [] ∅ 0 []) in
  let? (ss, rest) := place (segments f) (terminal a) in
  if negb (bool_decide (rest = ∅)) then Err (lit "assembly supplied articles outside the authoritative file")
  else
    let? cursor := tile 0 (sort_by_key (fun s => fst (fst s)) (spans a)) in
    if negb (cursor =? file_size a) then Err (lit "assembled byte coverage is incomplete")
    else
      let? _ := io_step Flush in
      Ok (ss, set_len (Z.to_nat (file_size a)) (output a)).

Definition assembled_dir (scope : AssembleScope) (fence : Z) : str :=
  lit ".nzbd-cluster/assembly/job-" ++ show_dec (as_job scope) ++ lit "/file-" ++ show_dec (as_file scope)
  ++ lit "/fence-" ++ show_dec fence.

Definition update_file_at (file : Z) (g : FileEntry -> FileEntry) (fs : list FileEntry) : list FileEntry :=
  update_first (fun f => file_id f =? file) g fs.

(** The answer, and the file that was published. *)
Definition assemble (j : Job) (scope : AssembleScope) (fence : Z) : result Job str * option bytes :=
  if negb (as_job scope =? job_id j) then (Err (lit "assembly scope names another job"), None)
  else
    match check_ranges j scope with
    | Err e => (Err e, None)
    | Ok _ =>
        match find_file_of (as_file scope) j with
        | None => (Err (lit "assembly file disappeared"), None)
        | Some f =>
            match build j scope f with
            | Err e => (Err e, None)
            | Ok (ss, data) =>
                if fails Publish then (Err (lit "publish private assembly"), None)
                else if fails FlushDir then (Err (lit "flush private assembly directory"), Some data)
                else if fails ReadBack then (Err (lit "read assembled output"), Some data)
                else
                  let whole_crc := crc32_ref data in
                  if match file_crc32 f with Some c => negb (c =? whole_crc) | None => false end
                  then (Err (lit "assembled file CRC does not match the advertised whole-file CRC"), Some data)
                  else
                    let fs := update_file_at (as_file scope) (with_result ss (Some whole_crc) true) (files j) in
                    let fs := List.filter (fun f => file_id f =? as_file scope) fs in
                    (Ok (recompute_job_totals (with_dir (assembled_dir scope fence) fs JS_Completed
                       (params j ++ [(lit "*Cluster:original-dir", dir_name j)]) j)), Some data)
            end
        end
    end.

End Assemble.

(** ** Writing articles into the output *)

Lemma lookup_write_at off (d b : bytes) i : d <> [] ->
  write_at off d b !! i =
    if (i <? off)%nat then (if (i <? length b)%nat then b !! i else Some 0)
    else if (i <? off + length d)%nat then d !! (i - off)%nat else b !! i.
Proof.
  intros Hd. unfold write_at. destruct d as [|x d]; [done|]. set (dd := x :: d).
  assert (Hl : length (take off (b ++ replicate (off - length b) 0)) = off) by (rewrite length_take, length_app, length_replicate; lia).
  destruct (i <? off)%nat eqn:E1; [apply Nat.ltb_lt in E1|apply Nat.ltb_ge in E1].
  - rewrite lookup_app_l by lia. rewrite lookup_take_lt by lia.
    destruct (i <? length b)%nat eqn:E2; [apply Nat.ltb_lt in E2; by rewrite lookup_app_l by lia|apply Nat.ltb_ge in E2].
    rewrite lookup_app_r by lia. apply lookup_replicate_2. lia.
  - rewrite lookup_app_r by lia. rewrite Hl.
    destruct (i <? off + length dd)%nat eqn:E2; [apply Nat.ltb_lt in E2|apply Nat.ltb_ge in E2].
    + by rewrite lookup_app_l by lia.
    + rewrite lookup_app_r by lia. rewrite lookup_drop. f_equal. lia.
Qed.

Lemma length_write_at off (d b : bytes) : d <> [] -> length (write_at off d b) = (length b `max` (off + length d))%nat.
Proof.
  intros Hd. unfold write_at. destruct d as [|x d]; [done|].
  rewrite !length_app, length_take, length_app, length_replicate, length_drop. lia.
Qed.

Lemma length_set_len n b : length (set_len n b) = n.
Proof. unfold set_len. rewrite length_take, length_app, length_replicate. lia. Qed.

Lemma slice_ext (a b : bytes) off len : 0 <= off -> 0 <= len ->
  (forall i, (Z.to_nat off <= i < Z.to_nat (off + len))%nat -> a !! i = b !! i) -> slice a off len = slice b off len.
Proof.
  intros Ho Hl H. unfold slice. apply list_eq. intros i.
  destruct (decide (i < Z.to_nat len)%nat).
  - rewrite !lookup_take_lt, !lookup_drop by lia. apply H. lia.
  - rewrite !lookup_take_ge by lia. done.
Qed.

Lemma slice_set_len b off len n : 0 <= off -> 0 <= len -> off + len <= n -> off + len <= Z.of_nat (length b) ->
  slice (set_len (Z.to_nat n) b) off len = slice b off len.
Proof.
  intros. apply slice_ext; [done..|]. intros i Hi. unfold set_len.
  rewrite lookup_take_lt by lia. rewrite lookup_app_l by lia. done.
Qed.

Lemma slice_write_same off (d b : bytes) : 0 <= off -> d <> [] ->
  slice (write_at (Z.to_nat off) d b) off (Z.of_nat (length d)) = d.
Proof.
  intros Ho Hd. unfold slice. apply list_eq. intros i.
  destruct (decide (i < length d)%nat).
  - rewrite lookup_take_lt, lookup_drop, lookup_write_at by (done || lia).
    rewrite (proj2 (Nat.ltb_ge _ _)) by lia. rewrite (proj2 (Nat.ltb_lt _ _)) by lia. f_equal. lia.
  - rewrite lookup_take_ge by lia. symmetry. apply lookup_ge_None_2. lia.
Qed.

(** Two spans of bytes with no byte in common. *)
Definition apart (x y : Z * Z * Z) : Prop := snd (fst x) <= fst (fst y) \/ snd (fst y) <= fst (fst x).

Lemma slice_write_apart off (d b : bytes) st len : 0 <= off -> 0 <= st -> 0 <= len ->
  st + len <= Z.of_nat (length b) -> off + Z.of_nat (length d) <= st \/ st + len <= off ->
  slice (write_at (Z.to_nat off) d b) st len = slice b st len.
Proof.
  intros Ho Hs Hl Hb Ha. destruct d as [|x d]; [done|]. apply slice_ext; [done..|]. intros i Hi.
  rewrite lookup_write_at by done.
  destruct (i <? Z.to_nat off)%nat eqn:E1; [|apply Nat.ltb_ge in E1].
  - by rewrite (proj2 (Nat.ltb_lt _ _)) by lia.
  - rewrite (proj2 (Nat.ltb_ge _ _)); [done|]. lia.
Qed.

(** ** What the loops keep *)

(** An article placed at its offset holds the bytes its CRC was taken of. *)
Definition holds (out : bytes) (t : gmap Z SegmentState) (x : Z * Z * Z) : Prop :=
  exists len crc, t !! snd x = Some (Done (fst (fst x)) len crc) /\
    (fst (fst x) < snd (fst x) -> fst (fst x) + len = snd (fst x) /\ snd (fst x) <= Z.of_nat (length out) /\
      crc = crc32_ref (slice out (fst (fst x)) len)).

Record asm_ok (a : Asm) : Prop := {
  spans_done : forall n st, terminal a !! n = Some st -> exists x off len crc, st = Done off len crc /\ x ∈ spans a /\ snd x = n;
  spans_held :
    (forall x, x ∈ spans a -> 0 <= fst (fst x) < snd (fst x)) ->
    (forall x y, x ∈ spans a -> y ∈ spans a -> x <> y -> apart x y) ->
    forall x, x ∈ spans a -> holds (output a) (terminal a) x
}.

Section Sound.
Context (read_job : str -> result Job str) (payload : str -> str -> option bytes) (fails : IoStep -> bool).
Context (payload_u64 : forall r n b, payload r n = Some b -> Z.of_nat (length b) <= u64_max).

Lemma io_step_Ok s x : io_step fails s = Ok x -> fails s = false.
Proof. unfold io_step. by destruct (fails s). Qed.

Lemma take_article_ok s input a g a' : Z.of_nat (length input) <= u64_max -> asm_ok a ->
  take_article fails s input a g = Ok a' -> asm_ok a'.
Proof.
  intros Hu HA. unfold take_article. case_if; [done|]. destruct (state g) as [| |off len crc|]; try done.
  unfold read_article. case_if; [|done]. simpl. case_if; [done|].
  destruct (io_step fails (WriteArticle (number g))) eqn:Eio; [|done]. simpl.
  case_bool_decide as Ht; [done|]. intros [= <-]. apply eq_None_not_Some in Ht.
  set (d := slice input off len) in *. bool_hyps.
  destruct HA as [H1 H2]. constructor; cbn [terminal spans output].
  - intros n st. destruct (decide (n = number g)) as [->|Hn].
    + rewrite lookup_insert_eq. intros [= <-]. exists (off, sat_add64 off len, number g), off, len, crc.
      split_and!; [done|set_solver|done].
    + rewrite lookup_insert_ne by done. intros (x & o & l & c & -> & Hx & <-)%H1. exists x, o, l, c. set_solver.
  - intros Hpos Hap x Hx.
    assert (HN : forall y, y ∈ spans a -> snd y <> number g).
    { intros y Hy E. assert (HB : holds (output a) (terminal a) y) by (apply H2; set_solver).
      destruct HB as (l & c & HB & _). rewrite E in HB. congruence. }
    assert (Hnew : 0 <= off < sat_add64 off len) by (apply (Hpos (off, sat_add64 off len, number g)); set_solver).
    assert (Hlen : 0 < len /\ off + len <= Z.of_nat (length input)) by (unfold sat_add64 in Hnew; lia).
    assert (Hsat : sat_add64 off len = off + len) by (unfold sat_add64; lia).
    assert (Hd : Z.of_nat (length d) = len) by (unfold d; rewrite slice_length by lia; lia).
    assert (Hne : d <> []) by (intros E; rewrite E in Hd; simpl in Hd; lia).
    apply elem_of_app in Hx. destruct Hx as [Hx|Hx%list_elem_of_singleton].
    + assert (HB : holds (output a) (terminal a) x) by (apply H2; set_solver).
      destruct HB as (l & c & HB & HC). exists l, c. split; [rewrite lookup_insert_ne; [done|by intros ?; eapply HN]|].
      intros Hlt. destruct (HC Hlt) as (E1 & E2 & ->). split_and!; [done|rewrite length_write_at by done; lia|].
      f_equal. symmetry. apply slice_write_apart; try lia; [apply (Hpos x); set_solver|].
      assert (HAp : apart x (off, sat_add64 off len, number g)).
      { apply Hap; [set_solver..|]. intros ->. by eapply HN. }
      destruct HAp as [HAp|HAp]; simpl in HAp; lia.
    + subst x. exists len, crc. simpl. rewrite lookup_insert_eq. split; [done|]. intros _.
      rewrite length_write_at by done. split_and!; [lia|lia|].
      rewrite <- Hd, slice_write_same by (done || lia). done.
Qed.

Lemma take_articles_ok s input gs a a' : Z.of_nat (length input) <= u64_max -> asm_ok a ->
  take_articles fails s input gs a = Ok a' -> asm_ok a'.
Proof.
  intros Hu. induction gs as [|g gs IH] in a |- *; intros HA; simpl; [by intros [= <-]|].
  destruct (take_article fails s input a g) as [a1|] eqn:E; [|done]. simpl. apply IH. by eapply take_article_ok.
Qed.

Lemma take_ranges_ok j scope fname rs a a' : asm_ok a ->
  take_ranges read_job payload fails j scope fname rs a = Ok a' -> asm_ok a'.
Proof.
  induction rs as [|r rs IH] in a |- *; intros HA; simpl; [by intros [= <-]|].
  destruct (take_range read_job payload fails j scope fname a r) as [a1|] eqn:E; [|done]. simpl. apply IH.
  revert E. unfold take_range. case_if; [done|]. destruct (read_job _) as [pj|]; [|done]. simpl.
  destruct (find_file_of _ _) as [pf|]; [|done]. case_if; [done|].
  destruct (payload _ _) as [input|] eqn:Ep; [|done]. apply take_articles_ok; [by eapply payload_u64|done].
Qed.

End Sound.

Lemma asm_ok_init : asm_ok (mkAsm [] ∅ 0 []).
Proof. constructor; simpl; [intros n st; by rewrite lookup_empty|intros _ _ x Hx; by apply elem_of_nil in Hx]. Qed.

(** ** Tiling *)

Lemma tile_spec c l e : tile c l = Ok e ->
  c <= e /\ Forall (fun x => c <= fst (fst x) < snd (fst x) /\ snd (fst x) <= e) l /\
  (forall x y, x ∈ l -> y ∈ l -> x <> y -> apart x y) /\
  (forall i, c <= i < e -> exists x, x ∈ l /\ fst (fst x) <= i < snd (fst x)).
Proof.
  induction l as [|[[st en] n] l IH] in c |- *; simpl.
  - intros [= <-]. split_and!; [lia|done|intros x y Hx; by apply elem_of_nil in Hx|lia].
  - case_if; [done|]. bool_hyps. subst. intros H. destruct (IH _ H) as (I1 & I2 & I3 & I4).
    split_and!; [lia| | |].
    + constructor; [simpl; lia|]. eapply Forall_impl; [apply I2|]. simpl. intros. lia.
    + assert (HA : forall x, x ∈ l -> apart (c, en, n) x).
      { intros x Hx. rewrite Forall_forall in I2. left. simpl. apply I2 in Hx. lia. }
      assert (HB : forall x, x ∈ l -> apart x (c, en, n)).
      { intros x Hx. destruct (HA x Hx); [by right|by left]. }
      intros x y. rewrite !elem_of_cons. intros [->|Hx] [->|Hy] Hne; auto. done.
    + intros i Hi. destruct (decide (i < en)).
      * exists (c, en, n). split; [set_solver|simpl; lia].
      * destruct (I4 i) as (x & Hx & Hxi); [lia|]. exists x. split; [set_solver|done].
Qed.

(** ** Placing the states *)

Lemma place_spec ss t ss' t' : place ss t = Ok (ss', t') ->
  map (fun s => (message_id s, number s, seg_size s)) ss' = map (fun s => (message_id s, number s, seg_size s)) ss /\
  NoDup (map number ss') /\
  (forall s, s ∈ ss' -> t !! number s = Some (state s)) /\
  (forall n st, t !! n = Some st -> t' !! n = Some st \/ exists s, s ∈ ss' /\ number s = n /\ state s = st).
Proof.
  induction ss as [|s ss IH] in ss', t |- *; simpl.
  - intros [= <- <-]. split_and!; [done|constructor|by intros s Hs%elem_of_nil|auto].
  - destruct (t !! number s) as [st|] eqn:E; [|done].
    destruct (place ss (delete (number s) t)) as [[ss1 t1]|] eqn:Ep; [|done]. simpl. intros [= <- <-].
    destruct (IH _ _ Ep) as (I1 & I2 & I3 & I4). simpl. split_and!.
    + by f_equal.
    + constructor; [|done]. intros (x & Hx1 & Hx2)%list_elem_of_fmap. apply I3 in Hx2.
      rewrite <- Hx1, lookup_delete_eq in Hx2. done.
    + intros x [->|Hx]%elem_of_cons; [done|]. apply I3 in Hx.
      destruct (decide (number x = number s)) as [En|En]; [by rewrite En, lookup_delete_eq in Hx|by rewrite lookup_delete_ne in Hx].
    + intros n st' Hn. destruct (decide (n = number s)) as [->|Hne].
      * right. eexists. split; [by left|]. simpl. split; [done|congruence].
      * destruct (I4 n st') as [H|(x & Hx & H1 & H2)]; [by rewrite lookup_delete_ne|by left|].
        right. exists x. split; [by right|done].
Qed.

(** ** Soundness of an assembly *)

Definition same_articles (a b : list Segment) : Prop :=
  map (fun s => (message_id s, number s, seg_size s)) a = map (fun s => (message_id s, number s, seg_size s)) b.

(** The article occupies bytes [off..off+len) of [data], and its CRC is theirs. *)
Definition occupies (data : bytes) (s : Segment) (off len : Z) : Prop :=
  exists crc, state s = Done off len crc /\ 0 <= off /\ 0 < len /\ off + len <= Z.of_nat (length data) /\
    crc = crc32_ref (slice data off len).

(** Every article occupies its bytes, and every byte belongs to one article. *)
Definition tiled_by (data : bytes) (ss : list Segment) : Prop :=
  (forall s, s ∈ ss -> exists off len, occupies data s off len) /\
  (forall i, 0 <= i < Z.of_nat (length data) ->
    exists! s, s ∈ ss /\ exists off len, occupies data s off len /\ off <= i < off + len).

Lemma build_spec read_job payload fails j scope f ss data :
  (forall r n b, payload r n = Some b -> Z.of_nat (length b) <= u64_max) ->
  build read_job payload fails j scope f = Ok (ss, data) -> same_articles ss (segments f) /\ tiled_by data ss.
Proof.
  intros Hpay. unfold build. destruct (io_step fails CreateDir) as [[]|]; [|done]. destruct (io_step fails CreateOutput) as [[]|]; [|done]. simpl.
  destruct (take_ranges _ _ _ _ _ _ _ _) as [a|] eqn:Ea; [|done]. simpl.
  destruct (place (segments f) (terminal a)) as [[ss1 rest]|] eqn:Ep; [|done]. simpl.
  case_bool_decide as Er; [|done]. simpl. destruct (tile 0 _) as [e|] eqn:Et; [|done]. simpl.
  case_if; [done|]. bool_hyps. destruct (io_step fails Flush) as [[]|]; [|done]. simpl. intros [= <- <-]. subst e rest.
  pose proof (take_ranges_ok read_job payload fails Hpay _ _ _ _ _ _ asm_ok_init Ea) as [D1 D2].
  destruct (tile_spec _ _ _ Et) as (T1 & T2 & T3 & T4). destruct (place_spec _ _ _ _ Ep) as (P1 & P2 & P3 & P4).
  rewrite Forall_forall in T2.
  assert (Hin : forall x, x ∈ sort_by_key (fun s => fst (fst s)) (spans a) <-> x ∈ spans a) by (intros; apply elem_of_sort_by_key).
  assert (HH : forall x, x ∈ spans a -> holds (output a) (terminal a) x).
  { apply D2; [intros x Hx%Hin%T2; lia|intros x y Hx%Hin Hy%Hin; by apply T3]. }
  split; [done|]. set (data := set_len _ _).
  assert (Hlen : Z.of_nat (length data) = file_size a) by (unfold data; rewrite length_set_len; lia).
  assert (Hocc : forall x s, x ∈ spans a -> s ∈ ss1 -> number s = snd x -> occupies data s (fst (fst x)) (snd (fst x) - fst (fst x))).
  { intros x s Hx Hs En. destruct (HH x Hx) as (len & crc & H1 & H2). apply Hin, T2 in Hx.
    destruct H2 as (H2 & H3 & H4); [lia|]. apply P3 in Hs. exists crc. rewrite En, H1 in Hs.
    replace (snd (fst x) - fst (fst x)) with len by lia. split_and!; [congruence|lia..|].
    subst crc. f_equal. unfold data. symmetry. apply slice_set_len; lia. }
  assert (Hspan : forall s off len, occupies data s off len -> s ∈ ss1 -> exists x, x ∈ spans a /\ x = (off, off + len, number s)).
  { intros s off len (crc & E1 & E2 & E3 & E4 & _) Hs. pose proof (P3 _ Hs) as Hst.
    destruct (D1 _ _ Hst) as ([[st en] n] & o & l & c & Eo & Hx & Hn). simpl in Hn. exists (st, en, n). split; [done|].
    destruct (HH _ Hx) as (l' & c' & F1 & F2). pose proof (T2 _ (proj2 (Hin _) Hx)) as F3. simpl in *.
    destruct F2 as (F2 & _); [lia|]. rewrite Hn, Hst, E1 in F1. injection F1 as -> -> ->. subst. done. }
  assert (Hfind : forall x, x ∈ spans a -> exists s, s ∈ ss1 /\ number s = snd x).
  { intros x Hx. destruct (HH x Hx) as (len & crc & H1 & _). destruct (P4 _ _ H1) as [H|(s & Hs & Hn & _)]; [done|by exists s]. }
  split.
  - intros s Hs. destruct (D1 _ _ (P3 _ Hs)) as (x & _ & _ & _ & _ & Hx & Hn). eexists _, _. by apply (Hocc x).
  - intros i Hi. rewrite Hlen in Hi. destruct (T4 i Hi) as (x & Hx%Hin & Hxi). destruct (Hfind x Hx) as (s & Hs & Hn).
    exists s. split; [split; [done|]|].
    + eexists _, _. split; [by apply (Hocc x)|lia].
    + intros s' [Hs' (off & len & Ho & Hi')]. destruct (Hspan _ _ _ Ho Hs') as (y & Hy & Ey).
      destruct (decide (x = y)) as [->|Hxy].
      * apply (NoDup_map_inj number ss1); [done..|]. rewrite Hn, Ey. done.
      * assert (G : apart x y) by (apply T3; [by apply Hin..|done]). subst y. destruct G as [G|G]; simpl in G; lia.
Qed.

Lemma find_file_update_at file g fs : (forall x, file_id (g x) = file_id x) ->
  List.find (fun f => file_id f =? file) (List.filter (fun f => file_id f =? file) (update_file_at file g fs)) =
  g <$> List.find (fun f => file_id f =? file) fs.
Proof.
  intros Hg. unfold update_file_at. induction fs as [|x fs IH]; [done|]. simpl. destruct (file_id x =? file) eqn:E; simpl.
  - by rewrite Hg, E; simpl; rewrite Hg, E.
  - by rewrite E.
Qed.

(** C35: assembly is sound.  When [assemble] succeeds it has published a file
    which the articles of the split file, each under its number and message id,
    tile: every article is [Done] over a range of bytes whose CRC-32 is the one
    reported for it, and every byte of the file belongs to exactly one article.
    The file's CRC in the job is that of the whole published file, and equals the
    advertised one where there is one. *)
Theorem assemble_sound read_job payload fails j scope fence j' data :
  (forall r n b, payload r n = Some b -> Z.of_nat (length b) <= u64_max) ->
  assemble read_job payload fails j scope fence = (Ok j', Some data) ->
  exists f f', find_file_of (as_file scope) j = Some f /\ find_file_of (as_file scope) j' = Some f' /\
    status j' = JS_Completed /\ finalized f' = true /\ same_articles (segments f') (segments f) /\
    tiled_by data (segments f') /\
    file_crc32 f' = Some (crc32_ref data) /\ (forall c, file_crc32 f = Some c -> c = crc32_ref data).
Proof.
  intros Hpay. unfold assemble. case_if; [done|]. destruct (check_ranges _ _); [|done].
  destruct (find_file_of (as_file scope) j) as [f|] eqn:Ef; [|done].
  destruct (build _ _ _ _ _ _) as [[ss data0]|] eqn:Eb; [|done].
  do 3 (case_if; [done|]). case_if; [done|]. intros [= <- <-].
  destruct (build_spec _ _ _ _ _ _ _ _ Hpay Eb) as [H1 H2].
  exists f, (with_result ss (Some (crc32_ref data0)) true f). split_and!; try done.
  - unfold find_file_of in *. simpl. rewrite find_file_update_at by done. by rewrite Ef.
  - intros c Ec. rewrite Ec in *. bool_hyps. done.
Qed.

(** ** The ranges partition the articles *)

Definition ascending (l : list Segment) : Prop := Sorted.StronglySorted (fun a b => number a < number b) l.

Definition articles_of (f : FileEntry) (s : RangeScope) : list Segment := List.filter (in_scope s) (segments f).

Lemma filter_none {A} (p : A -> bool) l : (forall x, x ∈ l -> p x = false) -> List.filter p l = [].
Proof. induction l as [|x l IH]; intros H; [done|]. simpl. rewrite H by by left. apply IH. intros y Hy. apply H. by right. Qed.

Lemma filter_every {A} (p : A -> bool) l : (forall x, x ∈ l -> p x = true) -> List.filter p l = l.
Proof. induction l as [|x l IH]; intros H; [done|]. simpl. rewrite H by by left. f_equal. apply IH. intros y Hy. apply H. by right. Qed.

Lemma ascending_app_inv a b : ascending (a ++ b) -> ascending a /\ ascending b /\ forall x y, x ∈ a -> y ∈ b -> number x < number y.
Proof.
  unfold ascending. induction a as [|x a IH]; simpl; intros H.
  - split_and!; [constructor|done|by intros x y Hx%elem_of_nil].
  - apply Sorted.StronglySorted_inv in H as [H1 H2]. destruct (IH H1) as (I1 & I2 & I3). rewrite Forall_forall in H2. split_and!.
    + constructor; [done|]. apply Forall_forall. intros y Hy. apply H2. set_solver.
    + done.
    + intros u v [->|Hu]%elem_of_cons Hv; [apply H2; set_solver|by apply I3].
Qed.

(** In an ascending list the bounds of a contiguous part select that part. *)
Lemma bounds_select pre c post : c <> [] -> ascending (pre ++ c ++ post) ->
  List.filter (fun g => (first_number c <=? number g) && (number g <=? last_number c)) (pre ++ c ++ post) = c.
Proof.
  intros Hc Hs. apply ascending_app_inv in Hs as (_ & Hs & H1). apply ascending_app_inv in Hs as (Hs & _ & H2).
  assert (Hf : exists x, x ∈ c /\ first_number c = number x /\ forall y, y ∈ c -> number x <= number y).
  { destruct c as [|x c]; [done|]. exists x. apply Sorted.StronglySorted_inv in Hs as [_ Hs]. rewrite Forall_forall in Hs.
    split_and!; [by left|done|]. intros y [->|Hy]%elem_of_cons; [done|]. apply Hs in Hy. lia. }
  assert (Hl : exists x, x ∈ c /\ last_number c = number x /\ forall y, y ∈ c -> number y <= number x).
  { destruct (exists_last Hc) as (c' & x & ->). exists x. apply ascending_app_inv in Hs as (_ & _ & Hs).
    unfold last_number. rewrite last_snoc. split_and!; [set_solver|done|]. intros y [Hy| ->%list_elem_of_singleton]%elem_of_app; [|done].
    apply Z.lt_le_incl, Hs; set_solver. }
  destruct Hf as (x & Hx & -> & Hmin), Hl as (z & Hz & -> & Hmax).
  rewrite !List.filter_app, (filter_none _ pre), (filter_every _ c), (filter_none _ post), app_nil_r; [done|..]; intros y Hy.
  - specialize (H2 z y Hz Hy). apply andb_false_iff. right. apply Z.leb_gt. lia.
  - apply Hmin in Hy as ?. apply Hmax in Hy. apply andb_true_iff. rewrite !Z.leb_le. lia.
  - specialize (H1 y x Hy). apply andb_false_iff. left. apply Z.leb_gt. apply H1. set_solver.
Qed.

Definition selects (l c : list Segment) : Prop :=
  c <> [] /\ List.filter (fun g => (first_number c <=? number g) && (number g <=? last_number c)) l = c.

Lemma chunks_of_spec (n : nat) fuel pre (l : list Segment) : (0 < n)%nat -> (length l <= fuel)%nat -> ascending (pre ++ l) ->
  concat (chunks_of fuel n l) = l /\
  Forall (fun c => (length c <= n)%nat /\ selects (pre ++ l) c) (chunks_of fuel n l) /\
  Forall (fun c => exists x, x ∈ l /\ first_number c = number x) (chunks_of fuel n l) /\
  Sorted.StronglySorted (fun a b => first_number a < first_number b) (chunks_of fuel n l).
Proof.
  intros Hn. induction fuel as [|fuel IH] in pre, l |- *; intros Hl Hs.
  - destruct l; [by repeat constructor|simpl in Hl; lia].
  - destruct l as [|x l]; [by repeat constructor|]. set (l0 := x :: l) in *.
    assert (Hc : chunks_of (S fuel) n l0 = take n l0 :: chunks_of fuel n (drop n l0)) by done. rewrite Hc.
    assert (Hne : exists r, take n l0 = x :: r) by (destruct n; [lia|by eexists]). destruct Hne as [r Hne].
    assert (Hs' : ascending ((pre ++ take n l0) ++ drop n l0)) by (by rewrite <- app_assoc, take_drop).
    destruct (IH (pre ++ take n l0) (drop n l0)) as (I1 & I2 & I3 & I4); [rewrite length_drop; unfold l0 in *; simpl in *; lia|done|].
    split_and!.
    + simpl. rewrite I1. apply take_drop.
    + constructor.
      * split; [rewrite length_take; lia|]. split; [by rewrite Hne|].
        pose proof (bounds_select pre (take n l0) (drop n l0)) as HB. rewrite take_drop in HB. apply HB; [by rewrite Hne|done].
      * eapply Forall_impl; [apply I2|]. simpl. intros c [? G]. by rewrite <- app_assoc, take_drop in G.
    + constructor; [exists x; rewrite Hne; split; [by left|done]|].
      eapply Forall_impl; [apply I3|]. simpl. intros c (y & Hy & E). exists y. split; [|done].
      rewrite <- (take_drop n l0). apply elem_of_app. by right.
    + constructor; [done|]. eapply Forall_impl; [apply I3|]. simpl. intros c (y & Hy & ->). rewrite Hne.
      apply ascending_app_inv in Hs' as (_ & _ & G). apply (G x y); [|done]. rewrite Hne. set_solver.
Qed.

Lemma app_sep_inj {A} (s : A) x y r r' : s ∉ x -> s ∉ y -> x ++ s :: r = y ++ s :: r' -> x = y.
Proof.
  revert y. induction x as [|a x IH]; intros [|b y] Hx Hy E; simpl in E; try done.
  - injection E as -> _. set_solver.
  - injection E as -> _. set_solver.
  - injection E as -> E. f_equal. apply IH; set_solver.
Qed.

Lemma resource_inj_first a b : sc_job a = sc_job b -> sc_file a = sc_file b -> 0 <= first_article a -> 0 <= first_article b ->
  resource a = resource b -> first_article a = first_article b.
Proof.
  intros Hj Hf Ha Hb E. unfold resource in E. rewrite Hj, Hf in E. do 5 apply app_inv_head in E.
  apply show_dec_inj; [done..|]. eapply (app_sep_inj 45); [..|exact E].
  all: intros Hin; apply show_dec_digits in Ha, Hb; rewrite Forall_forall in Ha, Hb; first [apply Ha in Hin|apply Hb in Hin]; by vm_compute in Hin.
Qed.

Definition splittable (j : Job) (f : FileEntry) : Prop :=
  unpaused j = [f] /\ (TARGET_ARTICLES * 2 <= length (segments f))%nat.

Lemma scopes_of j f : splittable j f ->
  scopes j = imap (scope_of j f (length (chunks TARGET_ARTICLES (segments f)))) (chunks TARGET_ARTICLES (segments f)).
Proof.
  intros [E L]. unfold scopes. rewrite E. rewrite bool_decide_eq_true_2 by done. simpl negb. rewrite (proj2 (Nat.ltb_ge _ _)) by done. done.
Qed.

(** the ranges partition the articles.  For a job whose one unpaused file has
    64 articles or more, with ascending numbers, the articles of the scopes are,
    in order, the articles of the file, none missing and none twice; every scope
    has between 1 and 32 of them; no two scopes have the same resource name; and
    the work view of a scope is a job with exactly that scope's articles. *)
Theorem ranges_partition j f : splittable j f -> ascending (segments f) -> Forall (fun s => 0 <= number s) (segments f) ->
  find_file_of (file_id f) j = Some f ->
  concat (map (articles_of f) (scopes j)) = segments f /\ NoDup (map resource (scopes j)) /\
  forall s, s ∈ scopes j -> (1 <= length (articles_of f s) <= TARGET_ARTICLES)%nat /\
    forall fence, exists v f', work_view j s fence = Ok v /\ files v = [f'] /\ segments f' = articles_of f s.
Proof.
  intros HS Hasc Hpos Hfind. rewrite (scopes_of j f HS).
  destruct (chunks_of_spec TARGET_ARTICLES (length (segments f)) [] (segments f)) as (C1 & C2 & C3 & C4); [unfold TARGET_ARTICLES; lia|done|done|].
  fold (chunks TARGET_ARTICLES (segments f)) in *. set (cs := chunks TARGET_ARTICLES (segments f)) in *. simpl in C2.
  assert (Hart : forall n i c, c ∈ cs -> articles_of f (scope_of j f n i c) = c).
  { intros n i c Hc. rewrite Forall_forall in C2. apply C2 in Hc as (_ & _ & G). exact G. }
  assert (Hmap : forall n k l, (forall c, c ∈ l -> c ∈ cs) -> map (articles_of f) (imap (fun i => scope_of j f n (k + i)) l) = l).
  { intros n k l. induction l as [|c l IH] in k |- *; intros Hl; [done|]. simpl. f_equal.
    - apply Hart, Hl. by left.
    - rewrite (imap_ext _ (fun i => scope_of j f n (S k + i))); [|intros; simpl; f_equal; lia]. apply IH. intros c' Hc. apply Hl. by right. }
  split_and!.
  - rewrite <- C1. f_equal. exact (Hmap (length cs) 0%nat cs (fun c H => H)).
  - assert (Hres : forall n k l, Sorted.StronglySorted (fun a b => first_number a < first_number b) l ->
      (forall c, c ∈ l -> 0 <= first_number c) -> NoDup (map resource (imap (fun i => scope_of j f n (k + i)) l))).
    { intros n k l. induction l as [|c l IH] in k |- *; intros Hl Hp; [constructor|].
      apply Sorted.StronglySorted_inv in Hl as [Hl Hc]. simpl. constructor.
      - intros (s & Es & Hs)%list_elem_of_fmap. apply elem_of_lookup_imap in Hs as (i & c' & -> & Hc'). apply list_elem_of_lookup_2 in Hc'.
        apply resource_inj_first in Es; try done; simpl in *; [|by apply Hp; left|by apply Hp; right].
        rewrite Forall_forall in Hc. apply Hc in Hc'. lia.
      - rewrite (imap_ext _ (fun i => scope_of j f n (S k + i))); [|intros; simpl; f_equal; lia]. apply IH; [done|].
        intros c' Hc'. apply Hp. by right. }
    apply (Hres (length cs) 0%nat); [done|]. intros c Hc. rewrite Forall_forall in C3. apply C3 in Hc as (x & Hx & ->).
    rewrite Forall_forall in Hpos. by apply Hpos.
  - intros s Hs. apply elem_of_lookup_imap in Hs as (i & c & -> & Hc%list_elem_of_lookup_2). rewrite (Hart _ _ _ Hc).
    rewrite Forall_forall in C2. destruct (C2 _ Hc) as (G1 & G2 & G3). split; [destruct c; [done|simpl in *; lia]|].
    intros fence. unfold work_view. simpl sc_file. rewrite Hfind.
    change (List.filter (in_scope _) (segments f)) with (articles_of f (scope_of j f (length cs) i c)). rewrite (Hart _ _ _ Hc).
    rewrite bool_decide_eq_false_2 by done. eexists _, _. by split_and!.
Qed.

(** ** A split file *)

Definition range_article (i : nat) : Segment :=
  {| message_id := show_dec (Z.of_nat i); number := Z.of_nat i + 1; seg_size := 1; state := Pending |}.

Definition range_file : FileEntry := {|
  file_id := 3; subject := []; filename := lit "big.bin"; filename_confirmed := true; is_par2 := false; paused := false;
  groups := []; date := None; segments := map range_article (seq 0 70); file_crc32 := None; finalized := false |}.

Definition range_job : Job := {|
  job_id := 7; kind := JobKind_Nzb; name := lit "big"; dir_name := lit "big"; name_provisional := false;
  queued_at_unix := 0; original_name := []; category := None; priority := 0; dupe := DupeInfo_default; params := [];
  files := [range_file]; totals := JobTotals_default; status := JS_Queued; torrent := None; stages := [] |}.

Definition range_data : bytes := map (fun i => Z.of_nat i) (seq 0 70).

(** What a node that downloaded the articles of [s] left. *)
Definition range_done (g : Segment) : Segment :=
  {| message_id := message_id g; number := number g; seg_size := seg_size g;
     state := Done (number g - 1) 1 (crc32_ref [number g - 1]) |}.

Definition range_result (s : RangeScope) : Job :=
  with_dir [] [with_result (map range_done (articles_of range_file s)) None true range_file] JS_Completed [] range_job.

Definition range_ref (s : RangeScope) : str := show_dec (first_article s).

Definition range_read (r : str) : result Job str :=
  match List.find (fun s => bool_decide (range_ref s = r)) (scopes range_job) with
  | Some s => Ok (range_result s)
  | None => Err []
  end.

Definition range_assembly : AssembleScope :=
  mkAssemble 7 3 (map (fun s => mkAccepted s (range_ref s)) (rev (scopes range_job))).

Definition range_run : result Job str * option bytes :=
  assemble range_read (fun _ _ => Some range_data) (fun _ => false) range_job range_assembly 5.

Example range_run_done : match range_run with (Ok _, Some d) => d = range_data | _ => False end.
Proof. by vm_compute. Qed.

Lemma assemble_sound_witness :
  match range_run with
  | (Ok j', Some data) => data = range_data /\
      exists f', find_file_of 3 j' = Some f' /\ tiled_by data (segments f') /\ file_crc32 f' = Some (crc32_ref data)
  | _ => False
  end.
Proof.
  destruct range_run as [[j'|e] [data|]] eqn:E; try by vm_compute in E.
  split; [by vm_compute in E; injection E as _ <-|].
  destruct (assemble_sound range_read (fun _ _ => Some range_data) (fun _ => false) range_job range_assembly 5 j' data) as (f & f' & H).
  - intros _ _ b [= <-]. by vm_compute.
  - exact E.
  - clear E. destruct H as (_ & H1 & _ & _ & _ & H2 & H3 & _). exists f'. split; [exact H1|]. split; [exact H2|exact H3].
Defined.

Lemma range_articles_ascending n k : ascending (map range_article (seq k n)).
Proof.
  unfold ascending. induction n as [|n IH] in k |- *; [constructor|]. simpl. constructor; [apply IH|].
  apply Forall_forall. intros x (i & -> & Hi)%list_elem_of_fmap. apply elem_of_seq in Hi. simpl. lia.
Qed.

Lemma ranges_partition_witness :
  splittable range_job range_file /\ concat (map (articles_of range_file) (scopes range_job)) = segments range_file.
Proof.
  assert (HS : splittable range_job range_file) by (split; [done|apply Nat.leb_le; by vm_compute]).
  split; [done|]. apply (ranges_partition range_job range_file HS).
  - apply range_articles_ascending.
  - apply Forall_forall. intros x (i & -> & Hi)%list_elem_of_fmap. simpl. lia.
  - done.
Defined.
