(* ===== verification/Election.v ===== *)
(** * Leader election over the shared volume ([crates/nzbd-cluster/src/election.rs])

    [election_task] as a state machine that takes one step per access to the
    lease file, so that the nodes of a cluster interleave between a read and the
    write that follows it.  Times are nanoseconds of a monotonic clock; counters
    wrap as in the release profile.  The theorems: while a write follows its read
    within two lease intervals, epochs of successive offices increase and only the
    latest office passes the snapshot guard; a lone eligible node takes office in
    bounded time and keeps it. *)

From S2P Require Import Prelude RustStr.

#[local] Unset Default Proof Using.

Record LeaderRecord := mkLeader { lr_epoch : Z; lr_node : str; lr_api_url : str; lr_seq : Z }.

#[export] Instance LeaderRecord_eq_dec : EqDecision LeaderRecord.
Proof. solve_decision. Defined.

Record LeaderView := mkView { lv_record : option LeaderRecord; lv_is_me : bool }.

Definition view_default : LeaderView := mkView None false.

Definition leader_url (v : LeaderView) : option str := lr_api_url <$> lv_record v.
Definition view_epoch (v : LeaderView) : Z := match lv_record v with Some r => lr_epoch r | None => 0 end.

Record ElectionCfg := mkElection {
  ec_node : str;
  ec_api_url : str;
  eligible : bool;
  ec_priority : Z;
  lease_interval : Z;
  takeover_after : Z
}.

(** Where the task is: the next access to the lease file, or the sleep before it. *)
Inductive Pc :=
| Looping                          (* the top of the loop: reads the file *)
| Renewing (rec : LeaderRecord)    (* writes the renewal of the record read *)
| Reasserting                      (* writes its record again *)
| Peeking (deadline : Z)           (* reads the file during the stagger *)
| Claiming                         (* reads the epoch to exceed *)
| ClaimWriting (new_epoch : Z)     (* writes the claim *)
| Verifying (new_epoch : Z)        (* reads the claim back *)
| Stopped.

Record Node := mkNode {
  pc : Pc;
  wake : Z;
  im_leader : bool;
  my_epoch : Z;
  last_seen : option (Z * Z);
  last_change : Z;
  view : LeaderView
}.

Definition node_start (now : Z) : Node := mkNode Looping now false 0 None now view_default.

Definition goto (p : Pc) (at_ : Z) (n : Node) : Node :=
  mkNode p at_ (im_leader n) (my_epoch n) (last_seen n) (last_change n) (view n).
Definition set_leader (l : bool) (e : Z) (n : Node) : Node :=
  mkNode (pc n) (wake n) l e (last_seen n) (last_change n) (view n).
Definition saw (r : LeaderRecord) (now : Z) (n : Node) : Node :=
  mkNode (pc n) (wake n) (im_leader n) (my_epoch n) (Some (lr_epoch r, lr_seq r)) now (view n).
Definition publish (r : option LeaderRecord) (is_me : bool) (n : Node) : Node :=
  mkNode (pc n) (wake n) (im_leader n) (my_epoch n) (last_seen n) (last_change n) (mkView r is_me).

(** [send_if_modified] wakes the watchers when the view differs. *)
Definition publish_notifies (r : option LeaderRecord) (is_me : bool) (n : Node) : bool :=
  negb (bool_decide (lv_record (view n) = r)) || negb (Bool.eqb (lv_is_me (view n)) is_me).

Section Task.
Context (hash : str -> Z) (cfg : ElectionCfg).

Definition millis (d : Z) : Z := d / 1000000.

Definition hash_jitter : Z := hash (ec_node cfg).

Definition stagger : Z :=
  lease_interval cfg * 3 * Z.min (ec_priority cfg) 16
  + hash_jitter mod Z.max (millis (lease_interval cfg)) 1 * 1000000.

Definition half : Z := lease_interval cfg / 2.

Definition record_of (epoch seq : Z) : LeaderRecord := mkLeader epoch (ec_node cfg) (ec_api_url cfg) seq.

Definition is_mine (epoch : Z) (r : LeaderRecord) : bool := bool_decide (lr_node r = ec_node cfg) && (lr_epoch r =? epoch).

(** The head of the stagger loop, and what follows the loop. *)
Definition stagger_on (cancelled : bool) (deadline now : Z) (n : Node) : Node :=
  let remaining := sat_sub deadline now in
  if cancelled then goto Stopped now n
  else if remaining =? 0 then goto Claiming now n
  else goto (Peeking deadline) (now + Z.min remaining half) n.

Definition has_changed (rec : option LeaderRecord) (n : Node) : bool :=
  match rec, last_seen n with
  | Some r, Some seen => negb (bool_decide ((lr_epoch r, lr_seq r) = seen))
  | Some _, None => true
  | None, _ => false
  end.

Definition follow (cancelled : bool) (now : Z) (rec : option LeaderRecord) (n : Node) : Node :=
  let n := match rec with
           | Some r => if has_changed rec n then publish rec false (saw r now n) else n
           | None => n
           end in
  let stale := match rec with Some _ => takeover_after cfg <=? now - last_change n | None => true end in
  if stale && eligible cfg then stagger_on cancelled (now + stagger) now n else goto Looping (now + half) n.

(** A leader's read: renew, step down or reassert. *)
Definition lead (now : Z) (rec : option LeaderRecord) (n : Node) : Node :=
  match rec with
  | Some r =>
      if is_mine (my_epoch n) r then goto (Renewing r) now n
      else if (my_epoch n <=? lr_epoch r) && negb (bool_decide (lr_node r = ec_node cfg)) then
        goto Looping (now + lease_interval cfg) (publish rec false (saw r now (set_leader false (my_epoch n) n)))
      else goto Reasserting now n
  | None => goto Reasserting now n
  end.

(** The end of a renewal: [fallback] is published when the write failed. *)
Definition renew (ok : bool) (now : Z) (renewed : LeaderRecord) (fallback : option LeaderRecord) (n : Node)
    : Node * option LeaderRecord :=
  let next := goto Looping (now + lease_interval cfg) n in
  if ok then (publish (Some renewed) true next, Some renewed)
  else (publish fallback false (set_leader false (my_epoch n) next), None).

(** One step: the node, and the record it wrote.  [rec] is what a read returns,
    [ok] whether a write succeeds. *)
Definition step (cancelled : bool) (now : Z) (rec : option LeaderRecord) (ok : bool) (n : Node) : Node * option LeaderRecord :=
  match pc n with
  | Stopped => (n, None)
  | Looping =>
      if cancelled then (goto Stopped now n, None)
      else if im_leader n then (lead now rec n, None)
      else (follow cancelled now rec n, None)
  | Renewing r => renew ok now (record_of (my_epoch n) (wrap64 (lr_seq r + 1))) (Some r) n
  | Reasserting => renew ok now (record_of (my_epoch n) 1) None n
  | Peeking deadline =>
      if has_changed rec n then
        (goto Looping now (match rec with Some r => publish rec false (saw r now n) | None => n end), None)
      else (stagger_on cancelled deadline now n, None)
  | Claiming =>
      let current := match rec with Some r => lr_epoch r | None => 0 end in
      (goto (ClaimWriting (wrap64 (current + 1))) now n, None)
  | ClaimWriting e =>
      if ok then (goto (Verifying e) (now + lease_interval cfg * 2) n, Some (record_of e 1))
      else (goto Looping (now + lease_interval cfg) n, None)
  | Verifying e =>
      if cancelled then (goto Stopped now n, None)
      else
        match rec with
        | Some r =>
            if is_mine e r then (goto Looping now (publish rec true (set_leader true e n)), None)
            else (goto Looping now (publish rec false (saw r now n)), None)
        | None => (goto Looping now n, None)
        end
  end.

(** The engine's snapshot-commit guard. *)
Definition persist_guard (v : LeaderView) (file : option LeaderRecord) : bool :=
  lv_is_me v && match file with Some r => is_mine (view_epoch v) r | None => false end.

End Task.

(** ** A cluster of nodes around one lease file *)

Record Cluster := mkCluster {
  nodes : list Node;
  lease_file : option LeaderRecord;
  clock : Z;
  offices : list (Z * nat)     (* the offices taken, in order: epoch and node *)
}.

Record Event := mkEvent { ev_node : nat; ev_now : Z; ev_cancelled : bool; ev_read : bool; ev_write : bool }.

Definition took_office (n n' : Node) : bool := negb (im_leader n) && im_leader n'.

Definition writing (p : Pc) : bool :=
  match p with Renewing _ | Reasserting | ClaimWriting _ => true | _ => false end.

Section Cluster.
Context (hash : str -> Z) (cfgs : list ElectionCfg).

Definition cluster_step (c : Cluster) (ev : Event) : Cluster :=
  match nodes c !! ev_node ev, cfgs !! ev_node ev with
  | Some n, Some cfg =>
      let rec := if ev_read ev then lease_file c else None in
      let '(n', w) := step hash cfg (ev_cancelled ev) (ev_now ev) rec (ev_write ev) n in
      mkCluster (<[ev_node ev := n']> (nodes c)) (match w with Some r => Some r | None => lease_file c end) (ev_now ev)
        (if took_office n n' then offices c ++ [(my_epoch n', ev_node ev)] else offices c)
  | _, _ => c
  end.

Definition cluster_run (evs : list Event) (c : Cluster) : Cluster := fold_left cluster_step evs c.

Definition cluster_start (now : Z) (f : option LeaderRecord) : Cluster :=
  mkCluster (map (fun _ => node_start now) cfgs) f now [].

(** The reads a write builds on: a claimant's, of the epoch to exceed, and a
    leader's, of the record to renew. *)
Definition read_matters (n : Node) : bool :=
  match pc n with Claiming => true | Looping => im_leader n | _ => false end.

(** Time goes forward, a sleep is slept unless the node is cancelled, the reads
    that matter see the file, a write follows its read within [window], and a claim
    does not wrap. *)
Definition timely (window : Z) (c : Cluster) (ev : Event) : bool :=
  (clock c <=? ev_now ev) &&
  match nodes c !! ev_node ev with
  | Some n =>
      implb (read_matters n) (ev_read ev) &&
      implb (negb (ev_cancelled ev) || writing (pc n)) (wake n <=? ev_now ev) &&
      implb (writing (pc n)) (ev_now ev <? wake n + window) &&
      match pc n, lease_file c with
      | Claiming, Some r => (0 <=? lr_epoch r) && (lr_epoch r <? u64_max)
      | _, _ => true
      end
  | None => true
  end.

Fixpoint timely_run (window : Z) (c : Cluster) (evs : list Event) : bool :=
  match evs with
  | [] => true
  | ev :: evs' => timely window c ev && timely_run window (cluster_step c ev) evs'
  end.

(** ** What one step does *)

Definition pending_epoch (n : Node) : option Z :=
  match pc n with
  | Renewing _ | Reasserting => Some (my_epoch n)
  | ClaimWriting e => Some e
  | _ => None
  end.

Definition role_ok (n : Node) : Prop :=
  match pc n with
  | Renewing _ | Reasserting => im_leader n = true
  | Peeking _ | Claiming | ClaimWriting _ | Verifying _ => im_leader n = false
  | _ => True
  end /\
  (lv_is_me (view n) = true -> im_leader n = true /\ view_epoch (view n) = my_epoch n).

Definition verifying (n : Node) : option Z := match pc n with Verifying e => Some e | _ => None end.

Inductive effect (canc : bool) (cfg : ElectionCfg) (now : Z) (file : option LeaderRecord) (n : Node) : Node -> option LeaderRecord -> Prop :=
| eff_quiet n' : pending_epoch n' = None -> verifying n' = None -> (im_leader n' = true -> im_leader n = true) ->
    my_epoch n' = my_epoch n -> effect canc cfg now file n n' None
| eff_claim n' : pc n = Claiming -> wake n' = now -> im_leader n' = false -> im_leader n = false -> verifying n' = None -> my_epoch n' = my_epoch n ->
    pending_epoch n' = Some (wrap64 (match file with Some r => lr_epoch r | None => 0 end + 1)) -> effect canc cfg now file n n' None
| eff_keep n' : pc n = Looping -> wake n' = now -> im_leader n' = true -> im_leader n = true -> my_epoch n' = my_epoch n -> verifying n' = None ->
    pending_epoch n' = Some (my_epoch n) ->
    (forall r, file = Some r -> lr_epoch r < my_epoch n \/ lr_node r = ec_node cfg) -> effect canc cfg now file n n' None
| eff_write n' p r : pending_epoch n = Some p -> writing (pc n) = true -> lr_epoch r = p -> lr_node r = ec_node cfg ->
    im_leader n' = im_leader n -> my_epoch n' = my_epoch n -> pending_epoch n' = None ->
    (im_leader n = true -> p = my_epoch n /\ verifying n' = None) ->
    (im_leader n = false -> verifying n' = Some p /\ wake n' = now + lease_interval cfg * 2) -> effect canc cfg now file n n' (Some r)
| eff_office n' e r : canc = false -> verifying n = Some e -> file = Some r -> is_mine cfg e r = true ->
    im_leader n' = true -> my_epoch n' = e -> pending_epoch n' = None -> verifying n' = None -> effect canc cfg now file n n' None.

Lemma stagger_on_quiet cfg canc d now n :
  let n' := stagger_on cfg canc d now n in
  pending_epoch n' = None /\ verifying n' = None /\ im_leader n' = im_leader n /\ my_epoch n' = my_epoch n /\ view n' = view n.
Proof. unfold stagger_on. repeat case_if; done. Qed.

Lemma follow_quiet cfg canc now file n : let n' := follow hash cfg canc now file n in
  pending_epoch n' = None /\ verifying n' = None /\ im_leader n' = im_leader n /\ my_epoch n' = my_epoch n /\
  (lv_is_me (view n') = true -> view n' = view n).
Proof.
  intros n'. subst n'. unfold follow.
  set (n1 := match file with Some r => _ | None => n end).
  assert (H1 : im_leader n1 = im_leader n /\ my_epoch n1 = my_epoch n /\ (lv_is_me (view n1) = true -> view n1 = view n)).
  { subst n1. destruct file as [r|]; [|done]. case_if; done. }
  destruct H1 as (E1 & E2 & E3). match goal with |- context [?s && eligible cfg] => destruct (s && eligible cfg) end; [|by split_and!; try exact E3].
  destruct (stagger_on_quiet cfg canc (now + stagger hash cfg) now n1) as (G1 & G2 & G3 & G4 & G5). rewrite G1, G2, G3, G4, G5. by split_and!; try exact E3.
Qed.

Lemma step_effect cfg canc now file ok n : role_ok n ->
  effect canc cfg now file n (fst (step hash cfg canc now file ok n)) (snd (step hash cfg canc now file ok n)).
Proof.
  intros [HR HV]. unfold step. destruct (pc n) as [|r| |d| |e|e|] eqn:Epc.
  - case_if; [by apply eff_quiet|]. case_if.
    + simpl. unfold lead. destruct file as [r|]; [|by apply eff_keep].
      case_if; [apply eff_keep; try done; intros r' [= <-]; right; by unfold is_mine in *; bool_hyps|].
      case_if; [by apply eff_quiet|]. apply eff_keep; try done. intros r' [= <-].
      apply andb_false_iff in Heqb2 as [G|G]; bool_hyps; [left; lia|by right].
    + destruct (follow_quiet cfg canc now file n) as (G1 & G2 & G3 & G4 & _). apply eff_quiet; simpl; try done; intros; congruence.
  - unfold renew. case_if; simpl; [|by apply eff_quiet].
    eapply eff_write; try done; [unfold pending_epoch; by rewrite Epc|by rewrite Epc|by rewrite HR].
  - unfold renew. case_if; simpl; [|by apply eff_quiet].
    eapply eff_write; try done; [unfold pending_epoch; by rewrite Epc|by rewrite Epc|by rewrite HR].
  - case_if; simpl.
    + destruct file as [r|]; by apply eff_quiet.
    + destruct (stagger_on_quiet cfg canc d now n) as (G1 & G2 & G3 & G4 & _). apply eff_quiet; simpl; try done; intros; congruence.
  - by apply eff_claim.
  - case_if; simpl; [|by apply eff_quiet].
    eapply eff_write; try done; [unfold pending_epoch; by rewrite Epc|by rewrite Epc|by rewrite HR].
  - case_if; [by apply eff_quiet|]. destruct file as [r|]; [|by apply eff_quiet]. case_if; [|by apply eff_quiet].
    eapply eff_office; try done. unfold verifying. by rewrite Epc.
  - simpl. apply eff_quiet; try done; unfold pending_epoch, verifying; by rewrite Epc.
Qed.

Lemma role_ok_goto_quiet p t n :
  match p with Looping | Stopped => True | _ => False end -> role_ok n -> role_ok (goto p t n).
Proof. intros Hp [_ HV]. split; [by destruct p|exact HV]. Qed.

Lemma role_ok_follower p t n : im_leader n = false -> (lv_is_me (view n) = true -> False) ->
  match p with Renewing _ | Reasserting => False | _ => True end -> role_ok (goto p t n).
Proof. intros Hl Hv Hp. split; [by destruct p|]. intros H. by destruct (Hv H). Qed.

Lemma step_role cfg canc now file ok n : role_ok n -> role_ok (fst (step hash cfg canc now file ok n)).
Proof.
  intros HN. pose proof HN as [HR HV].
  assert (HF : im_leader n = false -> lv_is_me (view n) = true -> False) by (intros E [H _]%HV; congruence).
  unfold step. destruct (pc n) as [|r| |d| |e|e|] eqn:Epc; simpl in HR.
  - case_if; [by apply role_ok_goto_quiet|]. case_if; simpl.
    + unfold lead. destruct file as [r|]; [|split; [done|exact (proj2 HN)]].
      case_if; [split; [done|exact (proj2 HN)]|]. case_if; split; try done. exact (proj2 HN).
    + unfold follow. set (n1 := match file with Some r => _ | None => n end).
      assert (H1 : im_leader n1 = false /\ (lv_is_me (view n1) = true -> False)).
      { subst n1. destruct file as [r|]; [|by auto]. case_if; by auto. }
      destruct H1 as [H1 H2]. match goal with |- context [?s && eligible cfg] => destruct (s && eligible cfg) end; [|by apply role_ok_follower].
      unfold stagger_on. repeat case_if; by apply role_ok_follower.
  - unfold renew. case_if; split; done.
  - unfold renew. case_if; split; done.
  - case_if; simpl.
    + destruct file as [r|]; [by split|by apply role_ok_goto_quiet].
    + unfold stagger_on. repeat case_if; apply role_ok_follower; auto.
  - apply role_ok_follower; auto.
  - case_if; apply role_ok_follower; auto.
  - case_if; [apply role_ok_follower; auto|]. destruct file as [r|]; [|apply role_ok_follower; auto].
    case_if; [|by split]. split; [done|]. simpl. intros _. split; [done|]. unfold is_mine in Heqb0. bool_hyps. done.
  - done.
Qed.

(** ** The invariant *)

Section Ordered.
Context (window : Z) (names_distinct : NoDup (map ec_node cfgs)).
Context (window_short : Forall (fun cfg => window <= lease_interval cfg * 2) cfgs).

(** No write that comes from a read made before an office was taken is still to
    come: it is overdue, or it writes a later epoch, or it renews the office. *)
Definition settled (c : Cluster) (e : Z) (i : nat) : Prop :=
  forall j m p, nodes c !! j = Some m -> pending_epoch m = Some p ->
    wake m + window <= clock c \/ e < p \/ (p = e /\ j = i /\ im_leader m = true).

Definition names_office (f : option LeaderRecord) (e : Z) (i : nat) : Prop :=
  exists r, f = Some r /\ (e < lr_epoch r \/ (lr_epoch r = e /\ exists cfg, cfgs !! i = Some cfg /\ lr_node r = ec_node cfg)).

Record cluster_inv (c : Cluster) : Prop := {
  inv_role : forall i n, nodes c !! i = Some n -> role_ok n;
  inv_own : forall i n cfg r, nodes c !! i = Some n -> cfgs !! i = Some cfg -> im_leader n = true ->
    lease_file c = Some r -> lr_node r = ec_node cfg -> lr_epoch r = my_epoch n;
  inv_time : forall i n p, nodes c !! i = Some n -> pending_epoch n = Some p -> wake n <= clock c;
  inv_claim : forall i n cfg e r, nodes c !! i = Some n -> cfgs !! i = Some cfg -> verifying n = Some e ->
    wake n - lease_interval cfg * 2 <= clock c /\
    (lease_file c = Some r -> is_mine cfg e r = true ->
     forall j m p, nodes c !! j = Some m -> pending_epoch m = Some p -> wake n - lease_interval cfg * 2 < wake m -> e < p);
  inv_office : forall e i, (e, i) ∈ offices c -> names_office (lease_file c) e i /\ settled c e i /\
    (forall m e', nodes c !! i = Some m -> verifying m = Some e' -> e < e');
  inv_sorted : Sorted.StronglySorted (fun a b => fst a < fst b) (offices c);
  inv_leads : forall i n, nodes c !! i = Some n -> im_leader n = true -> (my_epoch n, i) ∈ offices c
}.

Lemma same_name i j ci cj : cfgs !! i = Some ci -> cfgs !! j = Some cj -> ec_node ci = ec_node cj -> i = j.
Proof.
  intros Hi Hj E. eapply NoDup_lookup; [exact names_distinct| |].
  - rewrite list_lookup_fmap, Hi. done.
  - by rewrite list_lookup_fmap, Hj, E.
Qed.

Lemma sorted_snoc {A} (R : A -> A -> Prop) l x : Sorted.StronglySorted R l -> Forall (fun y => R y x) l -> Sorted.StronglySorted R (l ++ [x]).
Proof.
  induction l as [|y l IH]; intros Hs Hf; simpl; [by repeat constructor|].
  apply Sorted.StronglySorted_inv in Hs as [Hs Hy]. apply Forall_cons in Hf as [Hyx Hf].
  constructor; [by apply IH|]. apply Forall_app. by repeat constructor.
Qed.

Lemma lookup_upd (l : list Node) i n' j m : is_Some (l !! i) -> <[i := n']> l !! j = Some m -> (j = i /\ m = n') \/ (j <> i /\ l !! j = Some m).
Proof.
  intros Hi. destruct (decide (j = i)) as [->|Hne].
  - rewrite list_lookup_insert_eq by (by apply lookup_lt_is_Some). intros [= ->]. by left.
  - rewrite list_lookup_insert_ne by done. by right.
Qed.

(** Node [i] changed and nothing else: a step without a write or an office. *)
Lemma cluster_quiet c i n n' cfg now : cluster_inv c -> nodes c !! i = Some n -> cfgs !! i = Some cfg -> clock c <= now -> role_ok n' ->
  (im_leader n' = true -> im_leader n = true) -> my_epoch n' = my_epoch n -> verifying n' = None ->
  (forall p, pending_epoch n' = Some p -> wake n' = now /\
    (forall r, lease_file c = Some r -> lr_epoch r < p \/ (im_leader n' = true /\ p = my_epoch n /\ lr_epoch r = my_epoch n /\ lr_node r = ec_node cfg))) ->
  cluster_inv (mkCluster (<[i := n']> (nodes c)) (lease_file c) now (offices c)).
Proof.
  intros I Hn Hc Ht HR Hl He Hv Hp. assert (Hi : is_Some (nodes c !! i)) by by exists n.
  constructor; cbn [nodes lease_file clock offices].
  - intros j m Hm. apply lookup_upd in Hm as [[-> ->]|[? Hm]]; [done|by eapply inv_role|done].
  - intros j m cj r Hm Hj HL Hf En. apply lookup_upd in Hm as [[-> ->]|[? Hm]]; [|by eapply (inv_own c I j)|done].
    rewrite He. by eapply (inv_own c I i); try done; apply Hl.
  - intros j m p Hm Hpm. apply lookup_upd in Hm as [[-> ->]|[? Hm]]; [|pose proof (inv_time c I _ _ _ Hm Hpm); lia|done].
    destruct (Hp p Hpm) as [-> _]. lia.
  - intros j m cj e r Hm Hj Hve. apply lookup_upd in Hm as [[-> ->]|[? Hm]]; [congruence| |done].
    destruct (inv_claim c I j m cj e r Hm Hj Hve) as [C1 C2]. split; [lia|]. intros Hf Hmine k mk p Hk Hpk Hw.
    apply lookup_upd in Hk as [[-> ->]|[? Hk]]; [|by eapply C2|done].
    destruct (Hp p Hpk) as [_ HG]. unfold is_mine in Hmine. bool_hyps.
    destruct (HG r Hf) as [G|(_ & _ & _ & En)]; [lia|].
    assert (j = i) by (eapply same_name; [exact Hj|exact Hc|congruence]). done.
  - intros e k Hk. destruct (inv_office c I e k Hk) as (O1 & O2 & O3). split_and!; [done| |].
    + intros j m p Hm Hpm. cbn [nodes clock] in *. apply lookup_upd in Hm as [[-> ->]|[? Hm]]; [|destruct (O2 _ _ _ Hm Hpm) as [?|?]; [left; lia|by right]|done].
      destruct (Hp p Hpm) as [_ HG]. destruct O1 as (r & Hf & HO). right.
      destruct (HG r Hf) as [G|(G1 & G2 & G3 & En)]; [left; destruct HO as [?|[? _]]; lia|].
      destruct HO as [?|(HO & ck & Hck & Enk)]; [left; lia|]. right. split_and!; [lia| |done].
      eapply same_name; [exact Hc|exact Hck|congruence].
    + intros m e' Hm Hvm. apply lookup_upd in Hm as [[-> ->]|[? Hm]]; [congruence|by eapply O3|done].
  - apply (inv_sorted c I).
  - intros j m Hm HL. apply lookup_upd in Hm as [[-> ->]|[? Hm]]; [|by apply (inv_leads c I)|done].
    rewrite He. apply (inv_leads c I); auto.
Qed.

(** Node [i] wrote its record. *)
Lemma cluster_write c i n n' cfg now p r : cluster_inv c -> nodes c !! i = Some n -> cfgs !! i = Some cfg -> clock c <= now -> role_ok n' ->
  pending_epoch n = Some p -> now < wake n + window -> lr_epoch r = p -> lr_node r = ec_node cfg ->
  im_leader n' = im_leader n -> my_epoch n' = my_epoch n -> pending_epoch n' = None ->
  (im_leader n = true -> p = my_epoch n /\ verifying n' = None) ->
  (im_leader n = false -> verifying n' = Some p /\ wake n' = now + lease_interval cfg * 2) ->
  cluster_inv (mkCluster (<[i := n']> (nodes c)) (Some r) now (offices c)).
Proof.
  intros I Hn Hc Ht HR Hpn Hw Hre Hrn Hl He Hp' Hlead Hfol. assert (Hi : is_Some (nodes c !! i)) by by exists n.
  constructor; cbn [nodes lease_file clock offices].
  - intros j m Hm. apply lookup_upd in Hm as [[-> ->]|[? Hm]]; [done|by eapply inv_role|done].
  - intros j m cj r0 Hm Hj HL [= <-] En.
    assert (j = i) by (eapply same_name; [exact Hj|exact Hc|congruence]). subst j.
    apply lookup_upd in Hm as [[_ ->]|[? _]]; [|done|done]. rewrite He. rewrite Hl in HL. destruct (Hlead HL) as [-> _]. done.
  - intros j m q Hm Hpm. apply lookup_upd in Hm as [[-> ->]|[? Hm]]; [congruence|pose proof (inv_time c I _ _ _ Hm Hpm); lia|done].
  - intros j m cj e r0 Hm Hj Hve. apply lookup_upd in Hm as [[-> ->]|[? Hm]]; [| |done].
    + rewrite Hc in Hj. injection Hj as <-. destruct (im_leader n) eqn:EL; [destruct (Hlead eq_refl); congruence|].
      destruct (Hfol eq_refl) as [Hv2 Hw2]. rewrite Hw2. split; [lia|]. intros _ _ k mk q Hk Hpk Hwk.
      apply lookup_upd in Hk as [[-> ->]|[? Hk]]; [congruence| |done].
      pose proof (inv_time c I _ _ _ Hk Hpk). lia.
    + destruct (inv_claim c I j m cj e r0 Hm Hj Hve) as [C1 _]. split; [lia|]. intros [= <-] Hmine. unfold is_mine in Hmine. bool_hyps.
      assert (j = i) by (eapply same_name; [exact Hj|exact Hc|congruence]). done.
  - intros e k Hk. destruct (inv_office c I e k Hk) as (O1 & O2 & O3).
    assert (Hgood : e < p \/ (p = e /\ i = k /\ im_leader n = true)).
    { destruct (O2 i n p Hn Hpn) as [G|G]; [lia|done]. }
    split_and!.
    + exists r. split; [done|]. rewrite Hre. destruct Hgood as [?|(-> & -> & _)]; [by left|]. right. split; [done|]. by exists cfg.
    + intros j m q Hm Hpm. cbn [nodes clock] in *. apply lookup_upd in Hm as [[-> ->]|[? Hm]]; [congruence| |done].
      destruct (O2 _ _ _ Hm Hpm) as [?|?]; [left; lia|by right].
    + intros m e' Hm Hvm. apply lookup_upd in Hm as [[-> ->]|[? Hm]]; [|by eapply O3|done].
      destruct (im_leader n) eqn:EL; [destruct (Hlead eq_refl); congruence|].
      destruct (Hfol eq_refl) as [Hv2 _]. destruct Hgood as [?|(_ & _ & ?)]; [|done]. congruence.
  - apply (inv_sorted c I).
  - intros j m Hm HL. apply lookup_upd in Hm as [[-> ->]|[? Hm]]; [|by apply (inv_leads c I)|done].
    rewrite He. apply (inv_leads c I); [done|congruence].
Qed.

(** Node [i] found its claim intact. *)
Lemma cluster_take c i n n' cfg now e r : cluster_inv c -> nodes c !! i = Some n -> cfgs !! i = Some cfg -> clock c <= now -> role_ok n' ->
  wake n <= now -> verifying n = Some e -> lease_file c = Some r -> is_mine cfg e r = true ->
  my_epoch n' = e -> pending_epoch n' = None -> verifying n' = None ->
  cluster_inv (mkCluster (<[i := n']> (nodes c)) (lease_file c) now (offices c ++ [(e, i)])).
Proof.
  intros I Hn Hc Ht HR Hw Hvn Hf Hmine He Hp' Hv'. assert (Hi : is_Some (nodes c !! i)) by by exists n.
  destruct (inv_claim c I i n cfg e r Hn Hc Hvn) as [C1 C2]. specialize (C2 Hf Hmine).
  pose proof Hmine as Hmine'. unfold is_mine in Hmine'. bool_hyps.
  assert (Hlater : forall e0 k, (e0, k) ∈ offices c -> e0 < e).
  { intros e0 k Hk. destruct (inv_office c I e0 k Hk) as ((r' & Hf' & HO) & _ & O3). rewrite Hf in Hf'. injection Hf' as <-.
    destruct HO as [?|(HO & ck & Hck & Enk)]; [lia|].
    assert (k = i) by (eapply same_name; [exact Hck|exact Hc|congruence]). subst k. by eapply O3. }
  constructor; cbn [nodes lease_file clock offices].
  - intros j m Hm. apply lookup_upd in Hm as [[-> ->]|[? Hm]]; [done|by eapply inv_role|done].
  - intros j m cj r0 Hm Hj HL Hf0 En. apply lookup_upd in Hm as [[-> ->]|[? Hm]]; [|by eapply (inv_own c I j)|done].
    congruence.
  - intros j m q Hm Hpm. apply lookup_upd in Hm as [[-> ->]|[? Hm]]; [congruence|pose proof (inv_time c I _ _ _ Hm Hpm); lia|done].
  - intros j m cj e0 r0 Hm Hj Hve. apply lookup_upd in Hm as [[-> ->]|[? Hm]]; [congruence| |done].
    destruct (inv_claim c I j m cj e0 r0 Hm Hj Hve) as [D1 D2]. split; [lia|]. intros Hf0 Hm0 k mk q Hk Hpk.
    apply lookup_upd in Hk as [[-> ->]|[? Hk]]; [congruence|by eapply D2|done].
  - intros e0 k [Hk|Hk%list_elem_of_singleton]%elem_of_app.
    + destruct (inv_office c I e0 k Hk) as (O1 & O2 & O3). split_and!; [done| |].
      * intros j m q Hm Hpm. cbn [nodes clock] in *. apply lookup_upd in Hm as [[-> ->]|[? Hm]]; [congruence| |done].
        destruct (O2 _ _ _ Hm Hpm) as [?|?]; [left; lia|by right].
      * intros m e' Hm Hvm. apply lookup_upd in Hm as [[-> ->]|[? Hm]]; [congruence|by eapply O3|done].
    + injection Hk as -> ->. split_and!.
      * exists r. split; [done|]. right. split; [done|]. by exists cfg.
      * intros j m q Hm Hpm. cbn [nodes clock] in *. apply lookup_upd in Hm as [[-> ->]|[? Hm]]; [congruence| |done].
        destruct (decide (wake n - lease_interval cfg * 2 < wake m)) as [G|G]; [right; left; by eapply C2|].
        left. rewrite Forall_lookup in window_short. specialize (window_short _ _ Hc). lia.
      * intros m e' Hm Hvm. apply lookup_upd in Hm as [[_ ->]|[? _]]; [congruence|done|done].
  - apply sorted_snoc; [apply (inv_sorted c I)|]. apply Forall_forall. intros [e0 k] Hk. simpl. by eapply Hlater.
  - intros j m Hm HL. apply elem_of_app. apply lookup_upd in Hm as [[-> ->]|[? Hm]]; [right; rewrite He; by left| |done].
    left. by apply (inv_leads c I).
Qed.

Lemma cluster_steps c ev : cluster_inv c -> timely window c ev = true -> cluster_inv (cluster_step c ev).
Proof.
  intros I HT. unfold timely in HT. apply andb_true_iff in HT as [Ht Hn].
  apply Z.leb_le in Ht. unfold cluster_step. set (i := ev_node ev) in *.
  destruct (nodes c !! i) as [n|] eqn:En; [|done]. destruct (cfgs !! i) as [cfg|] eqn:Ec; [|done].
  apply andb_true_iff in Hn as [Hn H3]. apply andb_true_iff in Hn as [Hn H2]. apply andb_true_iff in Hn as [Hread H1].
  pose proof (inv_role c I _ _ En) as HR. set (rec := if ev_read ev then lease_file c else None) in *.
  assert (Hrec : read_matters n = true -> rec = lease_file c) by (intros E; rewrite E in Hread; subst rec; by destruct (ev_read ev)).
  assert (Hseen : forall r, rec = Some r -> lease_file c = Some r) by (intros r; subst rec; by destruct (ev_read ev)).
  pose proof (step_effect cfg (ev_cancelled ev) (ev_now ev) rec (ev_write ev) n HR) as HE.
  pose proof (step_role cfg (ev_cancelled ev) (ev_now ev) rec (ev_write ev) n HR) as HR'.
  destruct (step _ _ _ _ _ _ _) as [n' w]. simpl in HE, HR'. unfold took_office.
  destruct HE as [n' E1 E2 E3 E4|n' E0 E1 E2 E3 E4 E6 E5|n' E0 E1 E2 E3 E4 E5 E6 E7|n' p r E1 E2 E3 E4 E5 E6 E7 E8 E9|n' e r E0 E1 E2 E3 E4 E5 E6 E7].
  - replace (negb (im_leader n) && im_leader n') with false by (destruct (im_leader n); [done|destruct (im_leader n'); [by specialize (E3 eq_refl)|done]]).
    eapply cluster_quiet; try done. intros p Hp. congruence.
  - rewrite E3, E2. eapply cluster_quiet; try done; [congruence|]. rewrite Hrec in E5 by (unfold read_matters; by rewrite E0).
    intros p Hp. rewrite E5 in Hp. injection Hp as <-. split; [done|]. intros r Hr. left. rewrite E0, Hr in H3.
    bool_hyps. rewrite Hr. unfold wrap64. rewrite Z.mod_small; unfold u64_max in *; lia.
  - rewrite E3, E2. eapply cluster_quiet; try done. intros p Hp. rewrite E6 in Hp. injection Hp as <-. split; [done|].
    rewrite Hrec in E7 by (unfold read_matters; by rewrite E0, E3). intros r Hr. destruct (E7 r Hr) as [?|Hown]; [by left|]. right. split_and!; try done.
    by eapply (inv_own c I).
  - replace (negb (im_leader n) && im_leader n') with false by (rewrite E5; by destruct (im_leader n)).
    rewrite E2 in H2. simpl in H2. bool_hyps. eapply cluster_write; try done; auto.
  - assert (EL : im_leader n = false) by (destruct HR as [HR _]; unfold verifying in E1; destruct (pc n); done).
    rewrite EL, E4, E5. eapply cluster_take; try done; [|by apply Hseen]. rewrite E0 in H1. simpl in H1. by bool_hyps.
Qed.

Lemma cluster_starts now f : cluster_inv (cluster_start now f).
Proof.
  assert (HN : forall i n, nodes (cluster_start now f) !! i = Some n -> n = node_start now).
  { intros i n. simpl. rewrite list_lookup_fmap. destruct (cfgs !! i); [by intros [= <-]|done]. }
  constructor.
  - intros i n ->%HN. done.
  - intros i n cfg r ->%HN. done.
  - intros i n p ->%HN. done.
  - intros i n cfg e r ->%HN. done.
  - intros e i Hin. by apply elem_of_nil in Hin.
  - constructor.
  - intros i n ->%HN. done.
Qed.

Lemma cluster_runs evs c : cluster_inv c -> timely_run window c evs = true -> cluster_inv (cluster_run evs c).
Proof.
  unfold cluster_run. induction evs as [|ev evs IH] in c |- *; intros I; [done|]. intros [H1 H2]%andb_true_iff. simpl. apply IH; [by apply cluster_steps|done].
Qed.

End Ordered.

(** C30: offices follow each other.  From the start of a cluster whose nodes have
    distinct names, while every write follows its read within a [window] no longer
    than the two lease intervals for which a claimant waits, and while the reads of
    the lease file that a claimant and a leader make before they write succeed (the
    reads of the others may fail): each office taken has
    a greater epoch than every office before it, so no two nodes ever hold office
    in one epoch. *)
Theorem epochs_increase window now f evs :
  NoDup (map ec_node cfgs) -> Forall (fun cfg => window <= lease_interval cfg * 2) cfgs ->
  timely_run window (cluster_start now f) evs = true ->
  Sorted.StronglySorted (fun a b => fst a < fst b) (offices (cluster_run evs (cluster_start now f))).
Proof. intros Hd Hw Hr. apply (inv_sorted window). by apply cluster_runs, Hr; [..|apply cluster_starts]. Qed.

(** the snapshot guard passes for the latest office only.  In such a run, when
    the guard lets node [i] commit a snapshot, [i] holds the office of the epoch in
    its view, and no office of a later epoch has been taken by any node. *)
Theorem guard_latest window now f evs i cfg n :
  NoDup (map ec_node cfgs) -> Forall (fun cfg => window <= lease_interval cfg * 2) cfgs ->
  timely_run window (cluster_start now f) evs = true ->
  let c := cluster_run evs (cluster_start now f) in
  nodes c !! i = Some n -> cfgs !! i = Some cfg -> persist_guard cfg (view n) (lease_file c) = true ->
  (view_epoch (view n), i) ∈ offices c /\
  forall e k, (e, k) ∈ offices c -> e <= view_epoch (view n) /\ (e = view_epoch (view n) -> k = i).
Proof.
  intros Hd Hw Hr c Hn Hc HG. assert (I : cluster_inv window c) by (by apply cluster_runs, Hr; [..|apply cluster_starts]).
  unfold persist_guard in HG. bool_hyps. destruct (lease_file c) as [r|] eqn:Ef; [|done].
  destruct (inv_role _ c I i n Hn) as [_ HV]. destruct (HV ltac:(done)) as [HL HE]. rewrite HE in *. unfold is_mine in *. bool_hyps.
  split; [by apply (inv_leads _ c I)|]. intros e k Hk. destruct (inv_office _ c I e k Hk) as ((r' & Hf & HO) & _ & _).
  assert (r' = r) by congruence. subst r'. destruct HO as [?|(HO & ck & Hck & Enk)]; [split; lia|]. split; [lia|]. intros _.
  eapply same_name; [exact Hd|exact Hck|exact Hc|congruence].
Qed.

End Cluster.


(** ** A node that runs alone *)

Section Alone.
Context (hash : str -> Z) (cfgs : list ElectionCfg) (i : nat) (cfg : ElectionCfg) (delay : Z).
Context (Hcfg : cfgs !! i = Some cfg) (Heligible : eligible cfg = true) (Hpriority : 0 <= ec_priority cfg).
Context (Hinterval : 2 <= lease_interval cfg) (Htakeover : 0 <= takeover_after cfg) (Hdelay : 0 <= delay).

(** Only node [i] takes a step, [late] after it could have, and its accesses succeed. *)
Definition solo (late : Z) (c : Cluster) : Cluster :=
  match nodes c !! i with
  | Some n => cluster_step hash cfgs c (mkEvent i (Z.max (clock c) (wake n) + late) false true true)
  | None => c
  end.

Fixpoint solo_run (lates : nat -> Z) (k : nat) (c : Cluster) : Cluster :=
  match k with
  | O => c
  | S k' => solo_run (fun m => lates (S m)) k' (solo (lates O) c)
  end.

(** What node [i] sees of the cluster. *)
Record sees (c : Cluster) (n : Node) (f : option LeaderRecord) (t : Z) : Prop := {
  sees_node : nodes c !! i = Some n;
  sees_file : lease_file c = f;
  sees_clock : clock c = t
}.

Lemma solo_sees late c n f t : sees c n f t ->
  let t' := Z.max t (wake n) + late in
  let '(n', w) := step hash cfg false t' f true n in
  sees (solo late c) n' (match w with Some r => Some r | None => f end) t'.
Proof.
  intros [Hn <- <-]. unfold solo. rewrite Hn. unfold cluster_step. simpl ev_node. rewrite Hn, Hcfg. simpl.
  destruct (step _ _ _ _ _ _ _) as [n' w]. split; [|done..]. apply list_lookup_insert_eq. by eapply lookup_lt_Some.
Qed.

(** [P] holds after at most [k] steps, however late each is. *)
Fixpoint within (k : nat) (P : Cluster -> Prop) (c : Cluster) : Prop :=
  P c \/ match k with O => False | S k' => forall late, 0 <= late <= delay -> within k' P (solo late c) end.

Lemma within_now k (P : Cluster -> Prop) c : P c -> within k P c.
Proof. destruct k; by left. Qed.

Lemma within_step k P c : (forall late, 0 <= late <= delay -> within k P (solo late c)) -> within (S k) P c.
Proof. intros H. by right. Qed.

Lemma within_more k m P c : within k P c -> within (k + m) P c.
Proof.
  induction k as [|k IH] in c |- *; simpl; intros [H|H]; [by apply within_now|done|by left|]. right. intros late Hl. by apply IH, H.
Qed.

Lemma within_bind k m P Q c : within k P c -> (forall c', P c' -> within m Q c') -> within (k + m) Q c.
Proof.
  intros H HPQ. induction k as [|k IH] in c, H |- *; simpl in *.
  - destruct H as [H|[]]. by apply HPQ.
  - destruct H as [H|H].
    + pose proof (within_more m (S k) Q c (HPQ c H)) as G. rewrite Nat.add_comm in G. exact G.
    + right. intros late Hl. apply IH. by apply H.
Qed.

Lemma within_run k P c lates : within k P c -> (forall m, 0 <= lates m <= delay) -> exists j, P (solo_run lates j c).
Proof.
  induction k as [|k IH] in c, lates |- *; simpl; intros [H|H] Hl; [by exists O|done|by exists O|].
  destruct (IH (solo (lates O) c) (fun m => lates (S m))) as [j Hj]; [by apply H|auto|]. by exists (S j).
Qed.

Lemma half_pos : 1 <= half cfg.
Proof. unfold half. assert (2 / 2 <= lease_interval cfg / 2) by (apply Z.div_le_mono; lia). done. Qed.

Lemma stagger_nonneg : 0 <= stagger hash cfg.
Proof. unfold stagger. pose proof (Z.mod_pos_bound (hash_jitter hash cfg) (Z.max (millis (lease_interval cfg)) 1)). nia. Qed.

(** The record in the file is the one the node has seen. *)
Definition known (f : option LeaderRecord) (n : Node) : Prop :=
  match f with Some r => last_seen n = Some (lr_epoch r, lr_seq r) | None => True end.

Lemma known_unchanged f n : known f n -> has_changed f n = false.
Proof. unfold known, has_changed. destruct f as [r|]; [|done]. intros ->. by rewrite bool_decide_eq_true_2. Qed.

(** The stagger: about to claim, or peeking until [d]. *)
Definition staggering (f : option LeaderRecord) (d : Z) (c : Cluster) : Prop :=
  exists n t, sees c n f t /\ im_leader n = false /\ known f n /\ t <= d /\
    (pc n = Claiming /\ wake n <= t \/ pc n = Peeking d /\ wake n = t + Z.min (d - t) (half cfg)).

Lemma stagger_on_staggering c n f t d : sees c (stagger_on cfg false d t n) f t -> im_leader n = false -> known f n -> t <= d ->
  staggering f d c.
Proof.
  intros HS HL HK Ht. exists (stagger_on cfg false d t n), t. pose proof half_pos. split; [done|].
  unfold stagger_on, sat_sub in *. case_if; simpl.
  - split_and!; auto; try by destruct f. left. split; [done|]. simpl. lia.
  - bool_hyps. split_and!; auto; try by destruct f. right. simpl. split; [done|]. lia.
Qed.

(** ** Watching the lease go stale *)

Definition watching (f : option LeaderRecord) (n : Node) : Prop := pc n = Looping /\ im_leader n = false /\ known f n.

Definition candidate (f : option LeaderRecord) (tmax : Z) (c : Cluster) : Prop :=
  exists d, d <= tmax + stagger hash cfg /\ d <= clock c + stagger hash cfg /\ staggering f d c.

Lemma candidate_later f t1 t2 c : t1 <= t2 -> candidate f t1 c -> candidate f t2 c.
Proof. intros H (d & Hd & HS). exists d. split; [lia|done]. Qed.

Lemma watch m f c n t : sees c n f t -> watching f n ->
  takeover_after cfg <= Z.max t (wake n) - last_change n + Z.of_nat m * half cfg ->
  within (S m) (candidate f (Z.max t (wake n) + Z.of_nat m * half cfg + (Z.of_nat m + 1) * delay)) c.
Proof.
  pose proof half_pos as Hh. pose proof stagger_nonneg as Hst.
  induction m as [|m IH] in c, n, t |- *; intros HS (Hpc & HL & HK) Hm; apply within_step; intros late Hl;
    pose proof (solo_sees late _ _ _ _ HS) as H1; unfold step in H1; rewrite Hpc, HL in H1; unfold follow in H1;
    rewrite (known_unchanged _ _ HK), Heligible in H1; set (t1 := Z.max t (wake n) + late) in *.
  - assert (HE : match f with Some _ => takeover_after cfg <=? t1 - last_change n | None => true end && true = true).
    { destruct f; [|done]. rewrite andb_true_r. apply Z.leb_le. lia. }
    assert (H2 : sees (solo late c) (stagger_on cfg false (t1 + stagger hash cfg) t1 n) f t1) by (destruct f; by rewrite HE in H1).
    apply within_now. exists (t1 + stagger hash cfg). split_and!; [lia|by rewrite (sees_clock _ _ _ _ H2)|]. eapply stagger_on_staggering; [exact H2|done|done|lia].
  - destruct (match f with Some _ => takeover_after cfg <=? t1 - last_change n | None => true end && true) eqn:HE.
    + assert (H2 : sees (solo late c) (stagger_on cfg false (t1 + stagger hash cfg) t1 n) f t1) by (destruct f; by rewrite HE in H1).
      apply within_now. exists (t1 + stagger hash cfg). split_and!; [nia|by rewrite (sees_clock _ _ _ _ H2)|]. eapply stagger_on_staggering; [exact H2|done|done|lia].
    + assert (H2 : sees (solo late c) (goto Looping (t1 + half cfg) n) f t1) by (destruct f; by rewrite HE in H1).
      specialize (IH _ _ _ H2 ltac:(by split_and!; [..|by destruct f])). simpl wake in IH. simpl last_change in IH.
      replace (within (S m)) with (within (S m + 0)) by (by rewrite Nat.add_0_r).
      eapply within_bind; [apply IH; lia|]. intros c' Hc'. apply within_now. eapply candidate_later; [|exact Hc']. nia.
Qed.

(** ** The stagger ends *)

Definition claiming (f : option LeaderRecord) (tmax : Z) (c : Cluster) : Prop :=
  exists n t, sees c n f t /\ pc n = Claiming /\ im_leader n = false /\ wake n <= t <= tmax.

Lemma stagger_ends m f d c : staggering f d c -> d - clock c <= Z.of_nat m * half cfg ->
  within (S m) (claiming f (d + delay)) c.
Proof.
  pose proof half_pos as Hh.
  induction m as [|m IH] in c |- *; intros (n & t & HS & HL & HK & Ht & [[Hpc Hw]|[Hpc Hw]]) Hm.
  1, 3: apply within_now; exists n, t; split_and!; auto; lia.
  all: apply within_step; intros late Hl; pose proof (solo_sees late _ _ _ _ HS) as H1; unfold step in H1; rewrite Hpc in H1;
    rewrite (known_unchanged _ _ HK) in H1; set (t1 := Z.max t (wake n) + late) in *; pose proof (sees_clock _ _ _ _ HS) as Hclk.
  - assert (H2 : sees (solo late c) (goto Claiming t1 n) f t1).
    { unfold stagger_on, sat_sub in H1. replace (Z.max 0 (d - t1) =? 0) with true in H1 by (symmetry; apply Z.eqb_eq; lia). done. }
    apply within_now. eexists _, _. split_and!; [exact H2|done|done|simpl; lia..].
  - destruct (decide (t1 < d)) as [G|G].
    + assert (HG : staggering f d (solo late c)) by (eapply stagger_on_staggering; [exact H1|done|done|lia]).
      apply IH; [done|].
      pose proof (sees_clock _ _ _ _ H1) as Hc1. rewrite Hc1. unfold t1. lia.
    + assert (H2 : sees (solo late c) (goto Claiming t1 n) f t1).
      { unfold stagger_on, sat_sub in H1. replace (Z.max 0 (d - t1) =? 0) with true in H1 by (symmetry; apply Z.eqb_eq; lia). done. }
      apply within_now. eexists _, _. split_and!; [exact H2|done|done|simpl; lia..].
Qed.

(** ** Taking office and keeping it *)

Definition in_office (c : Cluster) : Prop :=
  exists n r t, sees c n (Some r) t /\ im_leader n = true /\ is_mine cfg (my_epoch n) r = true /\
    (pc n = Looping \/ exists r', pc n = Renewing r') /\
    lv_is_me (view n) = true /\ view_epoch (view n) = my_epoch n.

Definition office_by (tmax : Z) (c : Cluster) : Prop := in_office c /\ clock c <= tmax.

Lemma is_mine_own e s : is_mine cfg e (record_of cfg e s) = true.
Proof. unfold is_mine, record_of. simpl. rewrite bool_decide_eq_true_2 by done. apply Z.eqb_refl. Qed.

Lemma claim_wins f tmax c : claiming f tmax c -> within 3 (office_by (tmax + lease_interval cfg * 2 + 3 * delay)) c.
Proof.
  intros (n & t & HS & Hpc & HL & Hw & Ht).
  apply within_step. intros l1 Hl1. pose proof (solo_sees l1 _ _ _ _ HS) as H1. unfold step in H1. rewrite Hpc in H1.
  set (t1 := Z.max t (wake n) + l1) in *. set (e := wrap64 _) in H1. cbn [goto pc wake] in H1.
  apply within_step. intros l2 Hl2. pose proof (solo_sees l2 _ _ _ _ H1) as H2. unfold step in H2. cbn [goto pc wake] in H2.
  set (t2 := Z.max t1 t1 + l2) in *.
  apply within_step. intros l3 Hl3. pose proof (solo_sees l3 _ _ _ _ H2) as H3. unfold step in H3. cbn [goto pc wake] in H3.
  rewrite is_mine_own in H3. cbn [fst snd] in H3. set (t3 := Z.max t2 (t2 + lease_interval cfg * 2) + l3) in *.
  apply within_now. split; [|rewrite (sees_clock _ _ _ _ H3); lia].
  eexists _, _, t3. split_and!; [exact H3|done|apply is_mine_own|by left|done|done].
Qed.

Lemma office_kept late c : 0 <= late <= delay -> in_office c -> in_office (solo late c).
Proof.
  intros Hl (n & r & t & HS & HL & HM & Hpc & Hme & Hep). pose proof (solo_sees late _ _ _ _ HS) as H1.
  unfold step in H1. destruct Hpc as [Hpc|[r' Hpc]]; rewrite Hpc in H1.
  - rewrite HL in H1. unfold lead in H1. rewrite HM in H1.
    eexists _, r, _. split_and!; [exact H1|done|done|right; by eexists|done|done].
  - unfold renew in H1. eexists _, _, _. split_and!; [exact H1|done|apply is_mine_own|by left|done|done].
Qed.

Lemma office_kept_run k lates c : (forall m, 0 <= lates m <= delay) -> in_office c -> in_office (solo_run lates k c).
Proof. induction k as [|k IH] in c, lates |- *; intros Hl Hc; [done|]. apply IH; [auto|]. by apply office_kept. Qed.

Lemma solo_run_add k m lates c : solo_run lates (k + m) c = solo_run (fun x => lates (k + x)%nat) m (solo_run lates k c).
Proof. induction k as [|k IH] in c, lates |- *; [done|]. simpl. apply IH. Qed.

(** The time a lone node needs: the lease goes stale, the stagger, the claim's two
    intervals, and what polling twice an interval and being late add. *)
Definition takeover_bound : Z :=
  takeover_after cfg + stagger hash cfg + lease_interval cfg * 3 + (takeover_after cfg / half cfg + 7) * delay.

Lemma half_twice : 2 * half cfg <= lease_interval cfg.
Proof. unfold half. apply Z.mul_div_le. lia. Qed.

Definition stagger_steps : nat := S (Z.to_nat (stagger hash cfg)) + 3.
Definition watch_steps : nat := S (S (Z.to_nat (takeover_after cfg / half cfg))).

Lemma candidate_office f tmax c : candidate f tmax c ->
  within stagger_steps (office_by (tmax + stagger hash cfg + lease_interval cfg * 2 + 4 * delay)) c.
Proof.
  pose proof half_pos as Hh. pose proof stagger_nonneg as Hs. intros (d & Hd & Hd' & HS).
  eapply within_bind; [apply (stagger_ends (Z.to_nat (stagger hash cfg))); [exact HS|nia]|].
  intros c1 H1. replace 3%nat with (3 + 0)%nat by done. eapply within_bind; [apply (claim_wins _ _ _ H1)|].
  intros c2 [H2 H3]. apply within_now. split; [done|lia].
Qed.

Lemma watch_office f c n t : sees c n f t -> watching f n -> last_change n <= Z.max t (wake n) ->
  within (watch_steps + stagger_steps) (office_by (Z.max t (wake n) + takeover_after cfg + half cfg + stagger hash cfg
    + lease_interval cfg * 2 + (takeover_after cfg / half cfg + 6) * delay)) c.
Proof.
  intros HS HW Hb. pose proof half_pos as Hh.
  pose proof (Z.div_mod (takeover_after cfg) (half cfg) ltac:(lia)) as Hdiv.
  pose proof (Z.mod_pos_bound (takeover_after cfg) (half cfg) ltac:(lia)) as Hmod.
  pose proof (Z.div_pos (takeover_after cfg) (half cfg) ltac:(lia) ltac:(lia)) as Hq.
  set (q := takeover_after cfg / half cfg) in *. unfold watch_steps. fold q. set (m := S (Z.to_nat q)).
  assert (Hm : Z.of_nat m = q + 1) by lia.
  eapply within_bind; [apply (watch m _ _ _ _ HS HW); nia|]. intros c1 H1.
  replace stagger_steps with (stagger_steps + 0)%nat by lia. eapply within_bind; [apply (candidate_office _ _ _ H1)|].
  intros c2 [G1 G2]. apply within_now. split; [done|nia].
Qed.

Lemma office_by_later t1 t2 k c : t1 <= t2 -> within k (office_by t1) c -> within k (office_by t2) c.
Proof.
  intros Ht H. replace k with (k + 0)%nat by lia. eapply within_bind; [exact H|]. intros c' [H1 H2]. apply within_now. split; [done|lia].
Qed.

Lemma alone_office c n f t : sees c n f t -> pc n = Looping -> im_leader n = false -> wake n <= t -> last_change n <= t ->
  within (S (watch_steps + stagger_steps)) (office_by (t + takeover_bound)) c.
Proof.
  intros HS Hpc HL Hw Hlc. pose proof half_pos as Hh. pose proof half_twice as H2. pose proof stagger_nonneg as Hst.
  pose proof (Z.div_pos (takeover_after cfg) (half cfg) ltac:(lia) ltac:(lia)) as Hq. unfold takeover_bound.
  destruct (has_changed f n) eqn:EC.
  - destruct f as [r|]; [|done]. apply within_step. intros late Hl. pose proof (solo_sees late _ _ _ _ HS) as H1.
    unfold step in H1. rewrite Hpc, HL in H1. unfold follow in H1. rewrite EC, Heligible in H1. set (t1 := Z.max t (wake n) + late) in *.
    set (n1 := publish _ _ _) in H1. simpl in H1. destruct (takeover_after cfg <=? t1 - t1) eqn:ES; simpl in H1.
    + assert (HC : candidate (Some r) t1 (solo late c)).
      { exists (t1 + stagger hash cfg). split_and!; [lia|by rewrite (sees_clock _ _ _ _ H1)|]. eapply stagger_on_staggering; [exact H1|done|done|lia]. }
      rewrite Nat.add_comm. apply within_more. eapply office_by_later; [|by apply (candidate_office _ _ _ HC)]. nia.
    + eapply office_by_later; [|apply (watch_office _ _ _ _ H1); [by split_and!|simpl; lia]]. cbn [wake goto]. nia.
  - assert (HK : known f n).
    { unfold known, has_changed in *. destruct f as [r|]; [|done]. destruct (last_seen n); [|done].
      apply negb_false_iff, bool_decide_eq_true in EC. by rewrite EC. }
    replace (S (watch_steps + stagger_steps)) with (watch_steps + stagger_steps + 1)%nat by lia. apply within_more.
    eapply office_by_later; [|apply (watch_office _ _ _ _ HS); [by split_and!|lia]]. nia.
Qed.

(** C31: an eligible node that is left alone takes office.  In any state of the
    cluster, whatever the lease file holds, let the other nodes be silent and let
    node [i], which follows and is about to poll, take its steps at most [delay]
    late: no later than [takeover_bound] from now it is in office, and from then on
    the snapshot guard always passes for it. *)
Theorem lone_node_takes_office c n lates :
  nodes c !! i = Some n -> pc n = Looping -> im_leader n = false -> wake n <= clock c -> last_change n <= clock c ->
  (forall m, 0 <= lates m <= delay) ->
  exists k, clock (solo_run lates k c) <= clock c + takeover_bound /\
    forall k', (k <= k')%nat -> exists n', nodes (solo_run lates k' c) !! i = Some n' /\
      persist_guard cfg (view n') (lease_file (solo_run lates k' c)) = true.
Proof.
  intros Hn Hpc HL Hw Hlc Hl. assert (HS : sees c n (lease_file c) (clock c)) by done.
  destruct (within_run _ _ _ lates (alone_office _ _ _ _ HS Hpc HL Hw Hlc) Hl) as [k [HO Ht]].
  exists k. split; [done|]. intros k' Hk'. replace k' with (k + (k' - k))%nat by lia. rewrite solo_run_add.
  destruct (office_kept_run (k' - k) (fun x => lates (k + x)%nat) _ (fun m => Hl _) HO) as (n' & r & t & [G1 G2 _] & _ & G4 & _ & G6 & G7).
  exists n'. split; [done|]. unfold persist_guard. by rewrite G2, G6, G7, G4.
Qed.

End Alone.

(** ** A takeover *)

Definition secs (n : Z) : Z := n * 1000000000.

Definition sample_cfgs : list ElectionCfg :=
  [mkElection (lit "a") (lit "http://a") true 0 (secs 1) (secs 2); mkElection (lit "b") (lit "http://b") true 1 (secs 1) (secs 2)].

Definition no_jitter (s : str) : Z := 0.

Definition go (i : nat) (t : Z) : Event := mkEvent i t false true true.

(** [a] takes office, renews once and sleeps; [b] watches the lease go stale, waits
    out its stagger and takes over; then [a] wakes up. *)
Definition takeover_events : list Event :=
  [go 0 0; go 0 0; go 0 0; go 0 (secs 2); go 0 (secs 2); go 0 (secs 2); go 1 (secs 2); go 1 (secs 3); go 1 (secs 4)]
  ++ map (fun k => go 1 (secs 4 + Z.of_nat k * 500000000)) (seq 1 6)
  ++ [go 1 (secs 7); go 1 (secs 7); go 1 (secs 9); go 0 (secs 10)].

Definition sample_run (evs : list Event) : Cluster := cluster_run no_jitter sample_cfgs evs (cluster_start sample_cfgs 0 None).

Lemma epochs_increase_witness :
  let c := sample_run takeover_events in
  offices c = [(1, 0%nat); (2, 1%nat)] /\ Sorted.StronglySorted (fun a b => fst a < fst b) (offices c).
Proof.
  split; [by vm_compute|]. apply (epochs_increase no_jitter sample_cfgs (secs 2)).
  - apply (bool_decide_unpack _). by vm_compute.
  - by repeat constructor.
  - by vm_compute.
Defined.

Lemma guard_latest_witness :
  match nodes (sample_run takeover_events) !! 1%nat with
  | Some n => (view_epoch (view n), 1%nat) ∈ offices (sample_run takeover_events)
  | None => False
  end.
Proof.
  unfold sample_run. destruct (nodes _ !! 1%nat) as [n|] eqn:Hn; [|by vm_compute in Hn].
  apply (guard_latest no_jitter sample_cfgs (secs 2) 0 None takeover_events 1%nat
    (mkElection (lit "b") (lit "http://b") true 1 (secs 1) (secs 2)) n).
  - apply (bool_decide_unpack _). by vm_compute.
  - by repeat constructor.
  - by vm_compute.
  - exact Hn.
  - exact eq_refl.
  - vm_compute in Hn. injection Hn as <-. by vm_compute.
Defined.

(** the wait is what separates epochs.  A node whose claim reaches the volume
    more than two intervals after it read the file takes office in the epoch of a
    node that took office in between: both views say so, in the same epoch. *)
Theorem late_claim_shares_epoch :
  let c := sample_run [go 0 0; go 0 0; go 1 0; go 1 (secs 3); go 1 (secs 3); go 1 (secs 3); go 1 (secs 5); go 0 (secs 5); go 0 (secs 7)] in
  offices c = [(1, 1%nat); (1, 0%nat)] /\
  map (fun n => (lv_is_me (view n), view_epoch (view n))) (nodes c) = [(true, 1); (true, 1)].
Proof. by vm_compute. Qed.

(** The two reads that must succeed.  After the takeover [b] falls silent; [a]
    finds the lease stale and claims it, but the read of the epoch to exceed is
    torn, and the code takes that for an empty file: every write is in time, and
    [a] takes office in epoch 1 again, after 2. *)
Definition torn_claim : list Event :=
  [go 0 (secs 11); go 0 (secs 12); mkEvent 0 (secs 12) false false true; go 0 (secs 12); go 0 (secs 14)].

Lemma torn_read_restarts_epochs : offices (sample_run (takeover_events ++ torn_claim)) = [(1, 0%nat); (2, 1%nat); (1, 0%nat)].
Proof. by vm_compute. Qed.

(** [b] is alone with the record of a node that is gone. *)
Lemma lone_node_takes_office_witness :
  let c := cluster_start sample_cfgs 0 (Some (mkLeader 7 (lit "c") [] 30)) in
  exists k, clock (solo_run no_jitter sample_cfgs 1 (fun _ => 0) k c) <= secs 8 /\
    forall k', (k <= k')%nat -> exists n', nodes (solo_run no_jitter sample_cfgs 1 (fun _ => 0) k' c) !! 1%nat = Some n' /\
      lv_is_me (view n') = true.
Proof.
  intros c.
  destruct (lone_node_takes_office no_jitter sample_cfgs 1
    (mkElection (lit "b") (lit "http://b") true 1 (secs 1) (secs 2)) 0 eq_refl eq_refl ltac:(done) ltac:(done) ltac:(done) ltac:(done)
    c (node_start 0) (fun _ => 0)) as (k & Hk & HK); try done.
  exists k. split; [eapply Z.le_trans; [exact Hk|]; by vm_compute|]. intros k' Hk'. destruct (HK k' Hk') as (n' & Hn' & HG). exists n'. split; [exact Hn'|].
  unfold persist_guard in HG. by apply andb_true_iff in HG as [HG _].
Defined.
