(* ===== verification/Office.v ===== *)
(** * The replicated election ([replicated_election_task] of
    [crates/nzbd-cluster/src/election.rs])

    One round of the task over the client of the control store: the lease of
    ["cluster/leader"] is the office, its fence is the epoch, and the lease file
    only a projection of it.  The theorems: who publishes that it leads holds the
    lease in the store, and across nodes an epoch has one owner and only rises. *)

From S2P Require Import Prelude RustStr Types Queue Control Fencing Election.

#[local] Unset Default Proof Using.

Definition leader_resource : str := lit "cluster/leader".

Record Replica := mkReplica { rp_token : option LeaseToken; rp_seq : Z; rp_view : LeaderView }.

Definition replica_start : Replica := mkReplica None 0 view_default.

(** A round goes on to the next sleep, or the task ends. *)
Inductive Round := Again (rp : Replica) (written : option LeaderRecord) | Ended (rp : Replica).

Section Replicated.
Context (hash : str -> Z) (cfg : ElectionCfg) (cluster_id owner_incarnation : str).

Definition step_ms : Z := Z.max (Z.max (millis (lease_interval cfg)) 1 / 17) 1.

Definition replicated_stagger_ms : Z :=
  step_ms * Z.min (ec_priority cfg) 16 + hash_jitter hash cfg mod step_ms.

Definition projected_leader (file : option LeaderRecord) (fence : option Z) : option LeaderRecord :=
  match file with
  | Some r => if match fence with Some e => e =? lr_epoch r | None => true end then Some r else None
  | None => None
  end.

Definition leader_claim : LeaseArgs :=
  mkLeaseArgs leader_resource cluster_id 1 (lit "cluster-leader") (ec_node cfg) owner_incarnation (lit "leader") (lit "{}") 1.

(** In office under a token: the projection is written and the view published. *)
Definition in_charge (t : LeaseToken) (seq : Z) : Round :=
  let record := record_of cfg (t_fence t) seq in
  Again (mkReplica (Some t) seq (mkView (Some record) true)) (Some record).

Definition demoted (file : option LeaderRecord) (fence : option Z) (rp : Replica) : Round :=
  Again (mkReplica None (rp_seq rp) (mkView (projected_leader file fence) false)) None.

(** One round of the loop; [file] is the projection when it is read, [cancelled]
    says whether the task was cancelled at its top and during the stagger. *)
Definition replicated_round (cancelled cancelled_later : bool) (file : option LeaderRecord) (rp : Replica) : M Round :=
  if cancelled then m_ret (Ended rp)
  else
    match rp_token rp with
    | Some current =>
        let# r := m_try (Control.renew current (millis (takeover_after cfg))) in
        match r with
        | Ok (Some renewed) => m_ret (in_charge renewed (sat_add64 (rp_seq rp) 1))
        | _ => m_ret (demoted file None rp)
        end
    | None =>
        if eligible cfg then
          if cancelled_later then m_ret (Ended rp)
          else
            let# r := m_try (acquire leader_claim (millis (takeover_after cfg))) in
            match r with
            | Ok (Acquired t) => m_ret (in_charge t 1)
            | Ok (Held _ fence _) => m_ret (demoted file (Some fence) rp)
            | Err _ => m_ret (demoted file None rp)
            end
        else m_ret (Again rp None)
    end.

(** After the loop. *)
Definition replicated_end (rp : Replica) : M unit :=
  match rp_token rp with
  | Some t => let# _ := m_try (release t) in m_ret tt
  | None => m_ret tt
  end.

(** ** What a round leaves *)

(** The stagger is shorter than an election interval. *)
Lemma replicated_stagger_short : 17 <= millis (lease_interval cfg) -> 0 <= ec_priority cfg ->
  0 <= replicated_stagger_ms < millis (lease_interval cfg).
Proof.
  intros HL Hp. unfold replicated_stagger_ms, step_ms. rewrite (Z.max_l (millis _) 1) by lia.
  set (L := millis (lease_interval cfg)) in *. assert (1 <= L / 17) by (apply Z.div_le_lower_bound; lia).
  rewrite Z.max_l by lia. pose proof (Z.mul_div_le L 17 ltac:(lia)).
  pose proof (Z.mod_pos_bound (hash_jitter hash cfg) (L / 17) ltac:(lia)). nia.
Qed.

(** The tail of a method whose statement returned a row. *)
Lemma returned_token {B} (row : LeaseToken) (k : LeaseToken -> B) n b n' :
  (let# t := m_lift (try_token row) in m_ret (k t)) n = (Ok b, n') -> b = k row /\ n' = n.
Proof.
  unfold m_bind, m_lift, try_token, m_ret. destruct (u64_column (t_fence row)); [|done]. destruct (u64_column (t_revision row)); [|done].
  simpl. by intros [= <- <-].
Qed.

Lemma prefixed_Ok {A} what (m : M A) n a n' : prefixed what m n = (Ok a, n') -> m n = (Ok a, n').
Proof. unfold prefixed. by destruct (m n) as [[?|?] ?]. Qed.

Lemma renew_granted t ttl n t' n' : Control.renew t ttl n = (Ok (Some t'), n') ->
  exists exp now, granted (RenewLease t exp now) t' (arrival n) (db n').
Proof.
  unfold Control.renew, m_bind at 1 2 3 4, m_lift. destruct (validate_identity _ _ _); [|done].
  destruct (unix_ms n) as [[now|] n1] eqn:Eu; [|done]. assert (n1 = n) as -> by (unfold unix_ms in Eu; congruence).
  destruct (expiry now ttl) as [exp|]; [|done]. destruct (token_params t); [|done].
  intros H. unfold m_bind at 1 in H.
  destruct (prefixed _ _ n) as [[r|] n2] eqn:Ep; [|done]. apply prefixed_Ok in Ep.
  pose proof (execute_spec (RenewLease t exp now) n) as HE. rewrite Ep in HE. destruct HE as [HE Hdb].
  destruct (returning r) as [row|] eqn:Er; [|done]. apply (returned_token row Some) in H as [[= ->] ->].
  exists exp, now, r. split_and!; done.
Qed.

Lemma acquire_granted a ttl n t n' : acquire a ttl n = (Ok (Acquired t), n') ->
  exists exp now, granted (InsertLease a exp now) t (arrival n) (db n').
Proof.
  unfold acquire, m_bind at 1 2 3 4 5, m_lift. destruct (validate_identity _ _ _); [|done].
  destruct (unix_ms n) as [[now|] n1] eqn:Eu; [|done]. assert (n1 = n) as -> by (unfold unix_ms in Eu; congruence).
  destruct (expiry now ttl) as [exp|]; [|done]. destruct (i64_value _ (la_job_id a)); [|done]. destruct (i64_value _ (la_job_revision a)); [|done].
  intros H. unfold m_bind at 1 in H.
  destruct (prefixed _ _ n) as [[r|] n2] eqn:Ep; [|done]. apply prefixed_Ok in Ep.
  pose proof (execute_spec (InsertLease a exp now) n) as HE. rewrite Ep in HE. destruct HE as [HE Hdb].
  destruct (returning r) as [row|] eqn:Er.
  - apply (returned_token row Acquired) in H as [[= ->] ->]. exists exp, now, r. split_and!; done.
  - unfold m_bind in H. destruct (current_lease _ n2) as [[[h|]|] ?]; done.
Qed.

Lemma granted_lease a exp now t c c' : granted (InsertLease a exp now) t c c' ->
  t_resource t = la_resource a /\ t_owner_node_id t = la_owner_node_id a /\ t_owner_incarnation t = la_owner_incarnation a.
Proof.
  intros (r & H & Ht & _). simpl in H. unfold exec_acquire in H. destruct (_ <=? 0); [done|].
  destruct (work_leases c !! _); [case_if_in H|]; injection H as <-; simpl in Ht; by simplify_eq/=.
Qed.

Lemma granted_renewal t0 exp now t c c' : granted (RenewLease t0 exp now) t c c' ->
  t_resource t = t_resource t0 /\ t_owner_node_id t = t_owner_node_id t0 /\ t_owner_incarnation t = t_owner_incarnation t0 /\
  t_fence t = t_fence t0 /\ holds t0 c.
Proof.
  intros (r & H & Ht & _). simpl in H. unfold exec_renew in H. destruct (work_leases c !! _) as [l|] eqn:El; [|by injection H as <-].
  case_if_in H; [|by injection H as <-]. destruct (next_revision _); [|done]. simpl in H. injection H as <-. simpl in Ht.
  injection Ht as <-. simpl. unfold live, names in *. bool_hyps. rewrite <- H. simpl. split_and!; try done.
  exists l. simpl. rewrite H. by split_and!.
Qed.

(** The node's token is of the leader lease and in its name. *)
Definition own_token (rp : Replica) : Prop :=
  match rp_token rp with
  | Some t => t_resource t = leader_resource /\ t_owner_node_id t = ec_node cfg /\ t_owner_incarnation t = owner_incarnation
  | None => True
  end.

Lemma round_in_charge c1 c2 file rp n rp' w n' : own_token rp ->
  replicated_round c1 c2 file rp n = (Ok (Again rp' w), n') -> lv_is_me (rp_view rp') = true -> rp' <> rp ->
  exists t s, rp_token rp' = Some t /\ own_token rp' /\ view_epoch (rp_view rp') = t_fence t /\ granted s t (arrival n) (db n') /\
    match rp_token rp with
    | Some t0 => t_fence t = t_fence t0 /\ holds t0 (arrival n)
    | None => exists a e m, s = InsertLease a e m
    end.
Proof.
  intros Hown. unfold replicated_round. case_if; [done|]. unfold own_token in Hown. destruct (rp_token rp) as [t0|].
  - unfold m_bind, m_try. destruct (Control.renew t0 _ n) as [[[t|]|] n1] eqn:E; intros [= <- <- <-]; try done. intros _ _.
    apply renew_granted in E as (exp & now & G). destruct (granted_renewal _ _ _ _ _ _ G) as (G1 & G2 & G3 & G4 & G5).
    exists t, (RenewLease t0 exp now). split_and!; try done. unfold own_token. simpl. by rewrite G1, G2, G3.
  - case_if; [|intros [= -> <- <-] _ ?; done]. case_if; [done|].
    unfold m_bind, m_try. destruct (acquire leader_claim _ n) as [[[t|]|] n1] eqn:E; intros [= <- <- <-]; try done. intros _ _.
    apply acquire_granted in E as (exp & now & G). destruct (granted_lease _ _ _ _ _ _ G) as (G1 & G2 & G3).
    exists t, (InsertLease leader_claim exp now). split_and!; try done. by exists leader_claim, exp, now.
Qed.

End Replicated.

(** The office is beyond [e], or still the owner's at [e]. *)
Definition office_after (e : Z) (node inc : str) (c : Control) : Prop :=
  exists l, work_leases c !! leader_resource = Some l /\
    (e < wl_fence l \/ (wl_fence l = e /\ wl_owner_node_id l = node /\ wl_owner_incarnation l = inc)).

Lemma office_after_step e node inc s c r : office_after e node inc c -> exec s c = Ok r -> office_after e node inc (after r).
Proof.
  intros (l & Hl & HO) H. pose proof (exec_lease _ _ _ H leader_resource) as HS. rewrite Hl in HS.
  destruct (work_leases (after r) !! leader_resource) as [l'|] eqn:Eo; inversion HS as [|?|? ? Hf|? ? Hf ? Hn Hi]; subst;
    (eexists; split; [exact Eo|]); [done|left; lia|]. rewrite Hf, Hn, Hi. done.
Qed.

Lemma office_after_all h e node inc c : office_after e node inc c -> office_after e node inc (settle_all h c).
Proof. intros H. apply (settle_all_keeps _ (fun _ => True)); [|apply any_history|done]. intros; by eapply office_after_step. Qed.

Lemma office_after_arrival e node inc n : office_after e node inc (db n) -> office_after e node inc (arrival n).
Proof. intros H. unfold arrival. destruct (turns n); [done|by apply office_after_all]. Qed.

Lemma holds_office t c : holds t c -> t_resource t = leader_resource ->
  office_after (t_fence t) (t_owner_node_id t) (t_owner_incarnation t) c.
Proof. intros (l & Hl & Ht & _) Hr. rewrite Hr in *. exists l. split; [done|]. right. by rewrite <- Ht. Qed.

(** C32: epochs of the replicated election.  A node whose round ends with its view
    saying it leads holds, at that moment, the leader lease in the store, in its
    name, with its epoch as the fence.  When later, after any transactions of
    anyone, a round of any node ends that way too, that epoch is not smaller, it
    is greater when that node had to acquire the lease, and it is the same only
    for the same node and incarnation. *)
Theorem replicated_epochs_increase cfg1 cl1 inc1 cfg2 cl2 inc2 a1 b1 f1 rp1 n1 rp1' w1 n1' h a2 b2 f2 rp2 n2 rp2' w2 n2' :
  own_token cfg1 inc1 rp1 -> replicated_round cfg1 cl1 inc1 a1 b1 f1 rp1 n1 = (Ok (Again rp1' w1), n1') ->
  lv_is_me (rp_view rp1') = true -> rp1' <> rp1 ->
  own_token cfg2 inc2 rp2 -> replicated_round cfg2 cl2 inc2 a2 b2 f2 rp2 n2 = (Ok (Again rp2' w2), n2') ->
  lv_is_me (rp_view rp2') = true -> rp2' <> rp2 -> db n2 = settle_all h (db n1') ->
  (exists t, rp_token rp1' = Some t /\ holds t (db n1') /\ t_resource t = leader_resource /\
     t_owner_node_id t = ec_node cfg1 /\ t_fence t = view_epoch (rp_view rp1')) /\
  view_epoch (rp_view rp1') <= view_epoch (rp_view rp2') /\
  (rp_token rp2 = None -> view_epoch (rp_view rp1') < view_epoch (rp_view rp2')) /\
  (view_epoch (rp_view rp1') = view_epoch (rp_view rp2') -> ec_node cfg1 = ec_node cfg2 /\ inc1 = inc2).
Proof.
  intros O1 R1 M1 N1 O2 R2 M2 N2 Hdb.
  destruct (round_in_charge _ _ _ _ _ _ _ _ _ _ _ O1 R1 M1 N1) as (t1 & s1 & T1 & Own1 & E1 & G1 & _).
  destruct (round_in_charge _ _ _ _ _ _ _ _ _ _ _ O2 R2 M2 N2) as (t2 & s2 & T2 & Own2 & E2 & G2 & K2).
  unfold own_token in Own1, Own2. rewrite T1 in Own1. rewrite T2 in Own2. destruct Own1 as (A1 & A2 & A3), Own2 as (B1 & B2 & B3).
  pose proof (holds_office _ _ (granted_holds _ _ _ _ G1) A1) as OA.
  assert (OB : office_after (t_fence t1) (t_owner_node_id t1) (t_owner_incarnation t1) (arrival n2)).
  { apply office_after_arrival. rewrite Hdb. by apply office_after_all. }
  destruct OB as (l & Hl & HO). rewrite E1, E2.
  assert (Hbey : beyond (t_resource t2) (wl_fence l) (wl_revision l) (arrival n2)) by (rewrite B1; exists l; split; [done|lia]).
  destruct (granted_above _ _ _ _ _ _ _ G2 eq_refl Hbey) as (Q1 & _ & Q3).
  split; [exists t1; split_and!; [done|by eapply granted_holds|done..]|].
  split_and!.
  - destruct HO as [?|[? _]]; lia.
  - intros HN. rewrite HN in K2. destruct K2 as (a & e & m & ->). specialize (Q3 a e m eq_refl). destruct HO as [?|[? _]]; lia.
  - intros Eq. destruct HO as [?|(HF & Hn & Hi)]; [lia|].
    destruct (rp_token rp2) as [t0|] eqn:T0.
    + destruct K2 as (KF & l0 & Hl0 & Ht0 & _). unfold own_token in O2. rewrite T0 in O2. destruct O2 as (P1 & P2 & P3).
      rewrite P1, Hl in Hl0. injection Hl0 as <-. rewrite <- Ht0 in P2, P3. simpl in P2, P3. split; congruence.
    + destruct K2 as (a & e & m & ->). specialize (Q3 a e m eq_refl). lia.
Qed.

(** [a] takes office and goes silent; [b] takes over when the lease has expired. *)
Definition office_cfg (node : str) : ElectionCfg := mkElection node (lit "http://" ++ node) true 0 (secs 1) (secs 2).

Definition office_round (node : str) (n : Net) : result Round str * Net :=
  replicated_round (office_cfg node) (lit "c") (lit "boot") false false None replica_start n.

Definition office_net1 : Net := mkNet empty_control [] 10.
Definition office_net2 : Net := mkNet (db (snd (office_round (lit "a") office_net1))) [] 5000.

Definition round_of (r : result Round str) : Replica :=
  match r with Ok (Again rp _) | Ok (Ended rp) => rp | Err _ => replica_start end.

Lemma replicated_epochs_increase_witness :
  view_epoch (rp_view (round_of (fst (office_round (lit "a") office_net1)))) <
  view_epoch (rp_view (round_of (fst (office_round (lit "b") office_net2)))).
Proof.
  set (r1 := round_of (fst (office_round (lit "a") office_net1))). set (r2 := round_of (fst (office_round (lit "b") office_net2))).
  destruct (replicated_epochs_increase (office_cfg (lit "a")) (lit "c") (lit "boot") (office_cfg (lit "b")) (lit "c") (lit "boot")
    false false None replica_start office_net1 r1 (lv_record (rp_view r1)) (snd (office_round (lit "a") office_net1)) []
    false false None replica_start office_net2 r2 (lv_record (rp_view r2)) (snd (office_round (lit "b") office_net2))) as (_ & _ & H & _).
  - done.
  - by vm_compute.
  - by vm_compute.
  - intros H. by apply (f_equal rp_seq) in H.
  - done.
  - by vm_compute.
  - by vm_compute.
  - intros H. by apply (f_equal rp_seq) in H.
  - done.
  - by apply H.
Defined.
