(* ===== verification/Float.v ===== *)
(** * Floating point, as far as the code computes with it

    The conversions and operations of Rust's [f64] on the standard library's
    executable IEEE 754 model ([SpecFloat], binary64, round to nearest even). *)

From S2P Require Import Prelude RustStr Types.
From Stdlib Require Import SpecFloat.

Definition f64_prec : Z := 53.
Definition f64_emax : Z := 1024.

(** [n as f64] for an unsigned [n]. *)
Definition f64_of_u64 (n : Z) : f64 := binary_normalize f64_prec f64_emax n 0 false.

Definition f64_zero : f64 := S754_zero false.

Definition f64_add : f64 -> f64 -> f64 := SFadd f64_prec f64_emax.
Definition f64_sub : f64 -> f64 -> f64 := SFsub f64_prec f64_emax.
Definition f64_mul : f64 -> f64 -> f64 := SFmul f64_prec f64_emax.
Definition f64_div : f64 -> f64 -> f64 := SFdiv f64_prec f64_emax.

Definition f64_is_finite (x : f64) : bool :=
  match x with S754_zero _ | S754_finite _ _ _ => true | _ => false end.

Definition f64_le : f64 -> f64 -> bool := SFleb.
Definition f64_lt : f64 -> f64 -> bool := SFltb.
Definition f64_ge (x y : f64) : bool := SFleb y x.

(** [f64::max], [f64::min]: the other operand when one is a NaN. *)
Definition f64_max (x y : f64) : f64 :=
  match x, y with
  | S754_nan, _ => y
  | _, S754_nan => x
  | _, _ => if SFltb x y then y else x
  end.
Definition f64_min (x y : f64) : f64 :=
  match x, y with
  | S754_nan, _ => y
  | _, S754_nan => x
  | _, _ => if SFltb y x then y else x
  end.

(** The integer part of a finite positive value. *)
Definition f64_trunc (x : f64) : Z :=
  match x with
  | S754_finite false m e => if 0 <=? e then Z.shiftl (Zpos m) e else Z.shiftr (Zpos m) (- e)
  | _ => 0
  end.

(** [x as u64]: truncated and saturated; a NaN is 0. *)
Definition f64_to_u64 (x : f64) : Z :=
  match x with
  | S754_infinity false => u64_max
  | _ => Z.min (f64_trunc x) u64_max
  end.

Example f64_ex :
  f64_to_u64 (f64_mul (f64_div (f64_of_u64 3) (f64_of_u64 2)) (f64_of_u64 1024)) = 1536 /\
  f64_to_u64 (f64_of_u64 u64_max) = u64_max /\ f64_lt (f64_of_u64 1) f64_zero = false.
Proof. by vm_compute. Qed.
