(* ===== verification/Torrents.v ===== *)
(** * Torrent jobs in the queue ([crates/nzbd-engine/src/torrent_runtime.rs],
    the facts of [backend.rs])

    Seed policies, the restore plan, the payload paths that may be deleted, the
    associations between jobs and engine handles, and the folding of the backend's
    progress samples and facts into a job.  Paths are Unix text;
    [canonicalize] is a parameter. *)

From S2P Require Import Prelude RustStr Types JobNames Queue Float.
From Stdlib Require Import SpecFloat.

#[local] Unset Default Proof Using.

#[export] Instance f64_eq_dec : EqDecision f64.
Proof. solve_decision. Defined.
#[export] Instance SeedPolicy_eq_dec : EqDecision SeedPolicy.
Proof. solve_decision. Defined.
#[export] Instance TorrentFileRecord_eq_dec : EqDecision TorrentFileRecord.
Proof. solve_decision. Defined.
#[export] Instance TorrentRemovalIntent_eq_dec : EqDecision TorrentRemovalIntent.
Proof. solve_decision. Defined.
#[export] Instance TorrentPayloadDisposition_eq_dec : EqDecision TorrentPayloadDisposition.
Proof. solve_decision. Defined.
#[export] Instance TorrentStopReason_eq_dec : EqDecision TorrentStopReason.
Proof. solve_decision. Defined.
#[export] Instance TorrentSource_eq_dec : EqDecision TorrentSource.
Proof. solve_decision. Defined.
#[export] Instance TorrentRecord_eq_dec : EqDecision TorrentRecord.
Proof. solve_decision. Defined.

Definition MAX_RESTORE_DIAGNOSTICS : nat := 64.
Definition SEED_CHECKPOINT_SECS : Z := 30.
Definition SEED_CHECKPOINT_BYTES : Z := 8 * 1024 * 1024.
Definition STORAGE_FULL_ERROR : str := lit "storage full".

(** ** Seed policies *)

Definition normalized_seed_policy (ratio : option f64) (time_secs : option Z) : SeedPolicy := {|
  stop_on_complete := false;
  ratio_limit := match ratio with
                 | Some r => if f64_is_finite r && f64_lt f64_zero r then Some r else None
                 | None => None
                 end;
  time_limit_secs := match time_secs with Some s => if 0 <? s then Some s else None | None => None end |}.

Definition seed_policy_stop_reason (t : TorrentRecord) : option TorrentStopReason :=
  if stop_on_complete (seed_policy t) && bool_decide (is_Some (torrent_ready_at_unix t)) then Some DownloadComplete
  else if match ratio_limit (seed_policy t) with
          | Some limit => (0 <? selected_bytes t)
              && f64_ge (f64_of_u64 (uploaded_bytes t)) (f64_mul (f64_of_u64 (selected_bytes t)) limit)
          | None => false
          end then Some RatioLimit
  else if match time_limit_secs (seed_policy t) with Some limit => limit <=? seeding_seconds t | None => false end
  then Some TimeLimit
  else None.

Definition seed_policy_reached (t : TorrentRecord) : bool := bool_decide (is_Some (seed_policy_stop_reason t)).

Definition seed_checkpoint_due (t : TorrentRecord) (saved_uploaded saved_seconds : Z) : bool :=
  (SEED_CHECKPOINT_BYTES <=? sat_sub (uploaded_bytes t) saved_uploaded)
  || (SEED_CHECKPOINT_SECS <=? sat_sub (seeding_seconds t) saved_seconds).

(** ** Paths *)

Inductive Component := RootDir | CurDir | ParentDir | Normal (s : str).

Definition is_absolute (p : str) : bool := starts_with (lit "/") p.

Definition component_of (s : str) : list Component :=
  if bool_decide (s = []) || bool_decide (s = lit ".") then []
  else if bool_decide (s = lit "..") then [ParentDir] else [Normal s].

(** [Path::components]: empty and [.] components go, except a leading [.]. *)
Definition components (p : str) : list Component :=
  let pieces := split_chars (Z.eqb 47) p in
  if is_absolute p then RootDir :: concat (map component_of pieces)
  else match pieces with
       | s :: rest => (if bool_decide (s = lit ".") then [CurDir] else component_of s) ++ concat (map component_of rest)
       | [] => []
       end.

Definition safe_relative_path (p : str) : bool :=
  negb (bool_decide (p = [])) && negb (is_absolute p)
  && forallb (fun c => match c with Normal _ => true | _ => false end) (components p).

Definition path_join (dir p : str) : str :=
  if is_absolute p then p
  else if bool_decide (dir = []) || bool_decide (last dir = Some 47) then dir ++ p else dir ++ lit "/" ++ p.

(** The names below the root. *)
Fixpoint normalize_loop (acc : list str) (cs : list Component) : option (list str) :=
  match cs with
  | [] => Some acc
  | RootDir :: cs' => normalize_loop [] cs'
  | CurDir :: cs' => normalize_loop acc cs'
  | Normal s :: cs' => normalize_loop (acc ++ [s]) cs'
  | ParentDir :: cs' => match acc with [] => None | _ => normalize_loop (removelast acc) cs' end
  end.

Definition normalize_absolute (p : str) : option (list str) :=
  if is_absolute p then normalize_loop [] (components p) else None.

Fixpoint prefix_of (root p : list str) : bool :=
  match root, p with
  | [], _ => true
  | x :: root', y :: p' => bool_decide (x = y) && prefix_of root' p'
  | _, [] => false
  end.

Section Paths.
Context (canonicalize : list str -> option (list str)).

(** The nearest ancestor that exists; the path is given from its leaf up. *)
Fixpoint nearest (rev_path : list str) : option (list str) :=
  match canonicalize (rev rev_path) with
  | Some c => Some c
  | None => match rev_path with [] => None | _ :: up => nearest up end
  end.

Definition payload_is_within_root (p root : str) : bool :=
  match normalize_absolute p, normalize_absolute root with
  | Some p, Some root =>
      prefix_of root p
      && match canonicalize root with
         | Some croot => match nearest (rev p) with Some c => prefix_of croot c | None => false end
         | None => false
         end
  | _, _ => false
  end.

Definition within_roots (roots : list str) (p : str) : bool := existsb (payload_is_within_root p) roots.

Inductive RemovalRefusal := UnsafeRoot | InventoryMismatch.

Definition validate_removal_payload (content : str) (fs : list TorrentFileRecord) (roots : list str) : result unit RemovalRefusal :=
  if negb (within_roots roots content) then Err UnsafeRoot
  else if forallb (fun f => safe_relative_path (tf_path f) && payload_is_within_root (path_join content (tf_path f)) content) fs
  then Ok tt else Err InventoryMismatch.

(** ** The restore plan *)

Record RestoreRequest := mkRequest {
  rr_job : JobId;
  rr_info_hash_v1 : str;
  rr_metadata_file : str;
  rr_selected_files : list nat;
  preferred_engine_id : option Z;
  start_paused : bool;
  resume_after_restore : bool;
  force_recheck : bool;
  trusted_downloaded_bytes : Z
}.

Inductive RestoreDiagnostic :=
| MissingTorrentRecord | InvalidInfoHash | UnsafeMetadataPath | DuplicateInfoHash | DuplicatePreferredIdentity
| DeletedRecord | RD_RemovalIntent | UnsafePayloadRoot.

Record RestorePlan := mkPlan { requests : list RestoreRequest; diagnostics : list RestoreDiagnostic }.

Definition push_diagnostic (d : RestoreDiagnostic) (p : RestorePlan) : RestorePlan :=
  if (length (diagnostics p) <? MAX_RESTORE_DIAGNOSTICS)%nat then mkPlan (requests p) (diagnostics p ++ [d]) else p.

Record ObservedResumeState := mkObserved { engine_id : Z; os_verified_bytes : Z; finished : bool }.

Definition valid_hash (h : str) : bool :=
  (length h =? 40)%nat && forallb (fun c => is_ascii_digit c || ((97 <=? c) && (c <=? 102))) h.

(** What a job's own record says against restoring it. *)
Definition refusal (roots : list str) (j : Job) : option RestoreDiagnostic :=
  match torrent j with
  | None => Some MissingTorrentRecord
  | Some t =>
      if match removal_intent t with Some _ => true | None => false end then Some RD_RemovalIntent
      else if bool_decide (status j = JS_Deleted) then Some DeletedRecord
      else if negb (valid_hash (info_hash_v1 t)) then Some InvalidInfoHash
      else if negb (safe_relative_path (metadata_file t)) then Some UnsafeMetadataPath
      else if match content_path t with Some p => negb (within_roots roots p) | None => false end then Some UnsafePayloadRoot
      else None
  end.

Fixpoint selected_from (n : nat) (fs : list TorrentFileRecord) : list nat :=
  match fs with
  | [] => []
  | f :: fs' => (if tf_selected f then [n] else []) ++ selected_from (S n) fs'
  end.

Definition request_of (allowed : gset JobId) (state : option ObservedResumeState) (j : Job) (t : TorrentRecord) : RestoreRequest := {|
  rr_job := job_id j; rr_info_hash_v1 := info_hash_v1 t; rr_metadata_file := metadata_file t;
  rr_selected_files := selected_from 0 (torrent_files t);
  preferred_engine_id := engine_id <$> state;
  start_paused := true;
  resume_after_restore :=
    bool_decide (control_intent t = TCI_Running) && negb (bool_decide (phase t = TP_Failed))
    && (bool_decide (phase t = Seeding) || bool_decide (phase t = PausedSeed) || bool_decide (job_id j ∈ allowed));
  force_recheck :=
    match state with
    | Some s => negb (Bool.eqb (finished s) (bool_decide (is_Some (torrent_ready_at_unix t))))
                || negb (os_verified_bytes s =? downloaded_bytes t)
    | None => false
    end;
  trusted_downloaded_bytes := downloaded_bytes t |}.

Fixpoint plan_loop (observed : gmap str ObservedResumeState) (roots : list str) (allowed : gset JobId)
    (hashes : gset str) (ids : gset Z) (js : list Job) (p : RestorePlan) : RestorePlan :=
  match js with
  | [] => p
  | j :: js' =>
      match refusal roots j, torrent j with
      | Some d, _ => plan_loop observed roots allowed hashes ids js' (push_diagnostic d p)
      | None, None => plan_loop observed roots allowed hashes ids js' p
      | None, Some t =>
          if bool_decide (info_hash_v1 t ∈ hashes)
          then plan_loop observed roots allowed hashes ids js' (push_diagnostic DuplicateInfoHash p)
          else
            let hashes := {[info_hash_v1 t]} ∪ hashes in
            let state := observed !! info_hash_v1 t in
            match state with
            | Some s =>
                if bool_decide (engine_id s ∈ ids)
                then plan_loop observed roots allowed hashes ids js' (push_diagnostic DuplicatePreferredIdentity p)
                else plan_loop observed roots allowed hashes ({[engine_id s]} ∪ ids) js'
                       (mkPlan (requests p ++ [request_of allowed state j t]) (diagnostics p))
            | None =>
                plan_loop observed roots allowed hashes ids js'
                  (mkPlan (requests p ++ [request_of allowed state j t]) (diagnostics p))
            end
      end
  end.

Definition is_torrent_kind (j : Job) : bool := bool_decide (kind j = JobKind_Torrent).

Definition plan_restore_with_roots (js : list Job) (observed : gmap str ObservedResumeState) (roots : list str)
    (allowed : gset JobId) : RestorePlan :=
  plan_loop observed roots allowed ∅ ∅ (List.filter is_torrent_kind js) (mkPlan [] []).

Definition plan_restore (js : list Job) (observed : gmap str ObservedResumeState) (root : str) (allowed : gset JobId) : RestorePlan :=
  plan_restore_with_roots js observed [root] allowed.

(** [Err count] *)
Definition refuse_disabled_with_live_torrents (js : list Job) : result unit Z :=
  let count := Z.of_nat (length (List.filter (fun j => is_torrent_kind j && negb (bool_decide (status j = JS_Deleted))) js)) in
  if count =? 0 then Ok tt else Err count.

(** ** Facts *)

Inductive StopReason := SR_Paused | SeedPolicyReached | SR_Removed | Shutdown | SR_StorageFull | SchedulerYield | MissingContent | Transient.

Inductive RemovalOutcome := DataDeleted | DataKept | RefusedUnsafeRoot | RefusedInventoryMismatch.

Record TorrentMetadata := mkMetadata { md_info_hash_v1 : str; md_name : str; md_total_bytes : Z; md_selected_bytes : Z }.

Record TransferProgress := mkProgress {
  tp_downloaded_bytes : Z;
  verified_bytes : Z;
  file_progress_bytes : list Z;
  tp_uploaded_bytes : Z;
  download_bps : Z;
  upload_bps : Z;
  useful_peers : Z;
  tp_last_activity_unix : option Z
}.

Inductive BackendFact :=
| F_MetadataReady (job : JobId) (m : TorrentMetadata)
| F_Ready (job : JobId) (content : str)
| F_Stopped (job : JobId) (reason : StopReason)
| F_Resumed (job : JobId)
| F_Removed (job : JobId) (outcome : RemovalOutcome)
| F_Failed (job : JobId) (error : str).

Definition fact_job (f : BackendFact) : JobId :=
  match f with
  | F_MetadataReady j _ | F_Ready j _ | F_Stopped j _ | F_Resumed j | F_Removed j _ | F_Failed j _ => j
  end.

(** The fields of a record that folding changes. *)
Definition fold_record_fields (t : TorrentRecord) (hash : str) (ph : TorrentPhase) (fs : list TorrentFileRecord)
    (total selected downloaded uploaded : Z) (ready : option Z) (content : option str) (stop : option TorrentStopReason)
    (activity : option Z) (err : option str) : TorrentRecord := {|
  info_hash_v1 := hash; source := source t; metadata_file := metadata_file t; payload_root := payload_root t;
  phase := ph; control_intent := control_intent t; removal_intent := removal_intent t;
  removal_outcome := removal_outcome t; removal_confirmed_at_unix := removal_confirmed_at_unix t;
  torrent_files := fs; total_bytes := total; selected_bytes := selected; downloaded_bytes := downloaded;
  uploaded_bytes := uploaded; seeding_seconds := seeding_seconds t; torrent_ready_at_unix := ready;
  content_path := content; seed_policy := seed_policy t; stop_reason := stop; last_activity_unix := activity;
  last_error := err |}.

(** A change of phase, stop reason, activity and error. *)
Definition with_phase (ph : TorrentPhase) (stop : option TorrentStopReason) (activity : option Z) (err : option str)
    (t : TorrentRecord) : TorrentRecord :=
  fold_record_fields t (info_hash_v1 t) ph (torrent_files t) (total_bytes t) (selected_bytes t) (downloaded_bytes t)
    (uploaded_bytes t) (torrent_ready_at_unix t) (content_path t) stop activity err.

Definition torrent_changed (j : Job) (st : JobStatus) (t : TorrentRecord) : Job := set_status st (set_torrent (Some t) j).

(** [==] of two records whose ratio limits are the same: a NaN differs from itself. *)
Definition nan_limit (t : TorrentRecord) : bool :=
  match ratio_limit (seed_policy t) with Some S754_nan => true | _ => false end.

Definition same_torrent_record (a b : option TorrentRecord) : bool :=
  bool_decide (a = b) && negb (match a with Some t => nan_limit t | None => false end).

Definition fact_state_changed (before after : Job) : bool :=
  negb (bool_decide (name before = name after) && bool_decide (dir_name before = dir_name after)
        && Bool.eqb (name_provisional before) (name_provisional after)
        && bool_decide (original_name before = original_name after) && bool_decide (status before = status after)
        && same_torrent_record (torrent before) (torrent after)).

Record ReconcileOutcome := mkOutcome { durable_changed : bool; storage_hold : bool }.

Definition max_activity (old new : option Z) : option Z :=
  match old, new with
  | Some a, Some b => Some (Z.max a b)
  | Some _, None => old
  | None, _ => new
  end.

Fixpoint verified_files (fs : list TorrentFileRecord) (ps : list Z) : list TorrentFileRecord :=
  match fs, ps with
  | f :: fs', p :: ps' =>
      let v := Z.min p (tf_length f) in
      (if tf_downloaded_bytes f <? v
       then {| tf_path := tf_path f; tf_length := tf_length f; tf_selected := tf_selected f; tf_downloaded_bytes := v |}
       else f) :: verified_files fs' ps'
  | _, _ => fs
  end.

Definition progressed (p : TransferProgress) (t : TorrentRecord) : TorrentRecord :=
  fold_record_fields t (info_hash_v1 t) (phase t) (verified_files (torrent_files t) (file_progress_bytes p)) (total_bytes t)
    (selected_bytes t) (Z.max (downloaded_bytes t) (Z.min (verified_bytes p) (selected_bytes t)))
    (Z.max (uploaded_bytes t) (tp_uploaded_bytes p)) (torrent_ready_at_unix t) (content_path t) (stop_reason t)
    (max_activity (last_activity_unix t) (tp_last_activity_unix p)) (last_error t).

Definition reconcile_progress (j : Job) (p : TransferProgress) : Job * ReconcileOutcome :=
  match torrent j with
  | Some t =>
      if is_torrent_kind j
      then (set_torrent (Some (progressed p t)) j, mkOutcome (negb (bool_decide (progressed p t = t))) false)
      else (j, mkOutcome false false)
  | None => (j, mkOutcome false false)
  end.

Definition complete_file (f : TorrentFileRecord) : TorrentFileRecord :=
  if tf_selected f
  then {| tf_path := tf_path f; tf_length := tf_length f; tf_selected := tf_selected f; tf_downloaded_bytes := tf_length f |}
  else f.

Definition fact_metadata (m : TorrentMetadata) (j : Job) (t : TorrentRecord) : Job :=
  let ph := match phase t with FetchingSource | FetchingMetadata => TP_Queued | p => p end in
  let t := fold_record_fields t (md_info_hash_v1 m) ph (torrent_files t) (md_total_bytes m) (md_selected_bytes m)
             (downloaded_bytes t) (uploaded_bytes t) (torrent_ready_at_unix t) (content_path t) (stop_reason t)
             (last_activity_unix t) (last_error t) in
  let j := set_torrent (Some t) j in
  if name_provisional j then
    if bool_decide (name j = md_name m) then set_naming (name j) (dir_name j) (original_name j) false j
    else rename_job j (md_name m) true false
  else j.

Definition fact_ready (roots : list str) (now : Z) (latest : option TransferProgress) (content : str) (j : Job) (t : TorrentRecord) : option Job :=
  if negb (within_roots roots content) then None
  else
    let verified := match latest with Some p => verified_bytes p | None => 0 end in
    if (verified <? selected_bytes t) || (selected_bytes t =? 0) then None
    else
      let is_paused := bool_decide (status j = JS_Paused) in
      let t := fold_record_fields t (info_hash_v1 t) (if is_paused then PausedSeed else Seeding) (map complete_file (torrent_files t))
                 (total_bytes t) (selected_bytes t) (selected_bytes t) (uploaded_bytes t)
                 (Some (default now (torrent_ready_at_unix t))) (Some content) (stop_reason t) (last_activity_unix t) None in
      Some (torrent_changed j (if is_paused then JS_Paused else JS_Downloading) t).

Definition is_ready (t : TorrentRecord) : bool := bool_decide (is_Some (torrent_ready_at_unix t)).

Definition fact_stopped (reason : StopReason) (j : Job) (t : TorrentRecord) : Job :=
  match reason with
  | SR_Paused =>
      torrent_changed j JS_Paused (with_phase (if is_ready t then PausedSeed else PausedDownload) (stop_reason t) (last_activity_unix t) None t)
  | SR_StorageFull =>
      torrent_changed j JS_Paused
        (with_phase (if is_ready t then PausedSeed else PausedDownload) (Some StorageFull) (last_activity_unix t) (Some STORAGE_FULL_ERROR) t)
  | SchedulerYield => torrent_changed j JS_Queued (with_phase TP_Queued (stop_reason t) (last_activity_unix t) None t)
  | MissingContent => torrent_changed j JS_Paused (with_phase MissingFiles (stop_reason t) (last_activity_unix t) (last_error t) t)
  | Transient =>
      if bool_decide (status j = JS_Paused) then j
      else if is_ready t then torrent_changed j JS_Downloading (with_phase Seeding (stop_reason t) (last_activity_unix t) (last_error t) t)
      else match phase t with
           | TP_Queued | TP_Downloading =>
               torrent_changed j JS_Downloading (with_phase TP_Downloading (stop_reason t) (last_activity_unix t) (last_error t) t)
           | _ => j
           end
  | SeedPolicyReached =>
      let stop := match stop_reason t with Some r => Some r | None => seed_policy_stop_reason t end in
      torrent_changed j JS_Paused (with_phase PausedSeed stop (last_activity_unix t) (last_error t) t)
  | SR_Removed | Shutdown => j
  end.

Definition fact_resumed (now : Z) (j : Job) (t : TorrentRecord) : Job :=
  if bool_decide (status j = JS_Paused)
  then set_torrent (Some (with_phase (phase t) (stop_reason t) (last_activity_unix t) None t)) j
  else torrent_changed j JS_Downloading (with_phase (if is_ready t then Seeding else TP_Downloading) None (Some now) None t).

Definition fact_removed (outcome : RemovalOutcome) (j : Job) (t : TorrentRecord) : Job :=
  match outcome with
  | RefusedUnsafeRoot | RefusedInventoryMismatch =>
      set_torrent (Some (with_phase (phase t) (stop_reason t) (last_activity_unix t) (Some (lit "torrent removal refused unsafe payload")) t)) j
  | _ => j
  end.

(** The job after a fact; a readiness that is not proven is ignored. *)
Definition folded_fact (j : Job) (t : TorrentRecord) (fact : BackendFact) (latest : option TransferProgress) (now : Z) (roots : list str)
    : option Job :=
  match fact with
  | F_MetadataReady _ m => Some (fact_metadata m j t)
  | F_Ready _ content => fact_ready roots now latest content j t
  | F_Stopped _ reason => Some (fact_stopped reason j t)
  | F_Resumed _ => Some (fact_resumed now j t)
  | F_Removed _ outcome => Some (fact_removed outcome j t)
  | F_Failed _ e => Some (torrent_changed j JS_Failed (with_phase TP_Failed (stop_reason t) (last_activity_unix t) (Some e) t))
  end.

Definition holds_storage (fact : BackendFact) : bool :=
  match fact with F_Stopped _ SR_StorageFull => true | _ => false end.

Definition reconcile_fact_with_roots (j : Job) (fact : BackendFact) (latest : option TransferProgress) (now : Z) (roots : list str)
    : Job * ReconcileOutcome :=
  match torrent j with
  | Some t =>
      if negb (fact_job fact =? job_id j) || negb (is_torrent_kind j) || bool_decide (status j = JS_Deleted)
      then (j, mkOutcome false false)
      else
        match folded_fact j t fact latest now roots with
        | Some j' => (j', mkOutcome (fact_state_changed j j') (holds_storage fact))
        | None => (j, mkOutcome false false)
        end
  | None => (j, mkOutcome false false)
  end.

Definition reconcile_fact (j : Job) (fact : BackendFact) (latest : option TransferProgress) (now : Z) (root : str)
    : Job * ReconcileOutcome :=
  reconcile_fact_with_roots j fact latest now [root].

End Paths.

(** ** Associations *)

Record EngineIdentity := mkIdentity { ei_id : Z; ei_info_hash_v1 : str }.

Record RuntimeAssociations := mkAssoc {
  as_jobs : gmap JobId EngineIdentity;
  as_hashes : gmap str JobId;
  as_ids : gmap Z JobId
}.

Inductive AssociationError := Duplicate.

Definition associate (job : JobId) (i : EngineIdentity) (a : RuntimeAssociations) : result RuntimeAssociations AssociationError :=
  if bool_decide (is_Some (as_jobs a !! job)) || bool_decide (is_Some (as_hashes a !! ei_info_hash_v1 i))
     || bool_decide (is_Some (as_ids a !! ei_id i)) then Err Duplicate
  else Ok (mkAssoc (<[job := i]> (as_jobs a)) (<[ei_info_hash_v1 i := job]> (as_hashes a)) (<[ei_id i := job]> (as_ids a))).

Inductive EngineStructuralFact :=
| EF_Ready (content : str) | EF_Stopped (reason : StopReason) | EF_StorageFull | EF_MissingContent | EF_Transient
| EF_Unrecoverable (error : str).

Definition translate_fact (a : RuntimeAssociations) (i : EngineIdentity) (f : EngineStructuralFact) : option BackendFact :=
  match as_ids a !! ei_id i with
  | Some job =>
      if bool_decide (as_hashes a !! ei_info_hash_v1 i = Some job) then
        Some (match f with
              | EF_Ready content => F_Ready job content
              | EF_Stopped reason => F_Stopped job reason
              | EF_StorageFull => F_Stopped job SR_StorageFull
              | EF_MissingContent => F_Stopped job MissingContent
              | EF_Transient => F_Stopped job Transient
              | EF_Unrecoverable e => F_Failed job e
              end)
      else None
  | None => None
  end.

(** ** Deleting a payload *)

Lemma prefix_of_app a b : prefix_of a (a ++ b) = true.
Proof. induction a as [|x a IH]; [done|]. simpl. by rewrite bool_decide_eq_true_2. Qed.

Lemma prefix_of_spec a p : prefix_of a p = true -> exists b, p = a ++ b.
Proof.
  induction a as [|x a IH] in p |- *; intros H; [by exists p|]. destruct p as [|y p]; [done|]. simpl in H. bool_hyps. subst y.
  destruct (IH p) as [b ->]; [done|]. by exists b.
Qed.

Lemma prefix_of_trans a b c : prefix_of a b = true -> prefix_of b c = true -> prefix_of a c = true.
Proof. intros [x ->]%prefix_of_spec [y ->]%prefix_of_spec. rewrite <- app_assoc. apply prefix_of_app. Qed.

Section Confined.
Context (canonicalize : list str -> option (list str)).

(** The text names a place at or below [root], both as written and, as far as it
    exists, after links are resolved. *)
Definition confined (root p : str) : Prop :=
  exists nroot np croot cp, normalize_absolute root = Some nroot /\ normalize_absolute p = Some np /\
    canonicalize nroot = Some croot /\ nearest canonicalize (rev np) = Some cp /\
    prefix_of nroot np = true /\ prefix_of croot cp = true.

Lemma within_confined p root : payload_is_within_root canonicalize p root = true -> confined root p.
Proof.
  unfold payload_is_within_root. destruct (normalize_absolute p) as [np|] eqn:Ep; [|done].
  destruct (normalize_absolute root) as [nr|] eqn:Er; [|done]. intros H. apply andb_true_iff in H as [H1 H2].
  destruct (canonicalize nr) as [cr|] eqn:Ec; [|done]. destruct (nearest canonicalize (rev np)) as [cp|] eqn:En; [|done].
  exists nr, np, cr, cp. by split_and!.
Qed.

Lemma nearest_exists p c : canonicalize p = Some c -> nearest canonicalize (rev p) = Some c.
Proof.
  assert (HQ : forall q, canonicalize (rev q) = Some c -> nearest canonicalize q = Some c)
    by (intros q H; destruct q; cbn [nearest]; by rewrite H).
  intros H. apply HQ. by rewrite rev_involutive.
Qed.

Lemma confined_trans root mid p : confined root mid -> confined mid p -> confined root p.
Proof.
  intros (nr & nm & cr & cm & E1 & E2 & E3 & E4 & E5 & E6) (nm' & np & cm' & cp & F1 & F2 & F3 & F4 & F5 & F6).
  rewrite E2 in F1. injection F1 as <-. rewrite (nearest_exists _ _ F3) in E4. injection E4 as <-.
  exists nr, np, cr, cp. split_and!; try done; by eapply prefix_of_trans.
Qed.

(** C38: only payload below a configured root is deleted.  When the check that
    precedes a deletion passes, there is one allowed root such that the payload
    and every file of its inventory lie at or below it, both by their written
    paths and where links lead. *)
Theorem removal_confined content fs roots : validate_removal_payload canonicalize content fs roots = Ok tt ->
  exists root, root ∈ roots /\ confined root content /\ forall f, f ∈ fs -> confined root (path_join content (tf_path f)).
Proof.
  unfold validate_removal_payload. case_if; [done|]. case_if; [|done]. intros _. bool_hyps.
  unfold within_roots in *. apply existsb_elem in Heqb as (root & Hr & Hc). exists root. split; [done|].
  split; [by apply within_confined|]. intros f Hf. rewrite forallb_elem in Heqb0. apply Heqb0 in Hf.
  apply andb_true_iff in Hf as [_ Hf]. eapply confined_trans; [by apply within_confined|by apply within_confined].
Qed.

(** ** Restoring *)

Record plan_inv (js : list Job) (observed : gmap str ObservedResumeState) (roots : list str) (allowed : gset JobId)
    (hashes : gset str) (ids : gset Z) (p : RestorePlan) : Prop := {
  pi_hashes : NoDup (map rr_info_hash_v1 (requests p));
  pi_hashes_in : Forall (fun r => rr_info_hash_v1 r ∈ hashes) (requests p);
  pi_ids : NoDup (omap preferred_engine_id (requests p));
  pi_ids_in : forall i, i ∈ ids <-> i ∈ omap preferred_engine_id (requests p);
  pi_known : forall h, h ∈ hashes -> h ∈ map rr_info_hash_v1 (requests p) \/
    exists s, observed !! h = Some s /\ engine_id s ∈ ids;
  pi_from : Forall (fun r => exists j t, j ∈ js /\ is_torrent_kind j = true /\ torrent j = Some t /\ refusal canonicalize roots j = None /\
    r = request_of allowed (observed !! info_hash_v1 t) j t) (requests p);
  pi_bound : (length (diagnostics p) <= MAX_RESTORE_DIAGNOSTICS)%nat
}.

Definition answered (observed : gmap str ObservedResumeState) (p : RestorePlan) (t : TorrentRecord) : Prop :=
  info_hash_v1 t ∈ map rr_info_hash_v1 (requests p) \/
  exists s, observed !! info_hash_v1 t = Some s /\ engine_id s ∈ omap preferred_engine_id (requests p).

Lemma push_requests d p : requests (push_diagnostic d p) = requests p.
Proof. unfold push_diagnostic. by case_match. Qed.

Lemma plan_inv_push js observed roots allowed hashes ids p d : plan_inv js observed roots allowed hashes ids p ->
  plan_inv js observed roots allowed hashes ids (push_diagnostic d p).
Proof.
  intros []. constructor; rewrite ?push_requests; try done. unfold push_diagnostic. case_match eqn:E; [|done].
  apply Nat.ltb_lt in E. simpl. rewrite length_app. simpl. lia.
Qed.

Lemma plan_inv_add js observed roots allowed hashes ids p j t : plan_inv js observed roots allowed hashes ids p ->
  j ∈ js -> is_torrent_kind j = true -> torrent j = Some t -> refusal canonicalize roots j = None -> info_hash_v1 t ∉ hashes ->
  (forall s, observed !! info_hash_v1 t = Some s -> engine_id s ∉ ids) ->
  plan_inv js observed roots allowed ({[info_hash_v1 t]} ∪ hashes)
    (match observed !! info_hash_v1 t with Some s => {[engine_id s]} ∪ ids | None => ids end)
    (mkPlan (requests p ++ [request_of allowed (observed !! info_hash_v1 t) j t]) (diagnostics p)).
Proof.
  intros [H1 H2 H3 H4 H5 H6 H7] Hj Hk Ht Hr Hh Hi. set (st := observed !! info_hash_v1 t) in *.
  assert (Hom : omap preferred_engine_id (requests p ++ [request_of allowed st j t]) =
    omap preferred_engine_id (requests p) ++ match st with Some s => [engine_id s] | None => [] end).
  { rewrite omap_app. f_equal. by destruct st. }
  constructor; cbn [requests diagnostics]; rewrite ?map_app, ?Hom.
  - apply NoDup_app. split_and!; [done| |apply NoDup_singleton]. intros h Hin [->|?%elem_of_nil]%elem_of_cons; [|done].
    apply list_elem_of_fmap in Hin as (r & E & Hr'). rewrite Forall_forall in H2. apply H2 in Hr'. rewrite <- E in Hr'. done.
  - apply Forall_app. split; [eapply Forall_impl; [exact H2|]; set_solver|]. repeat constructor. simpl. set_solver.
  - destruct st as [s|]; [|by rewrite app_nil_r]. apply NoDup_app. split_and!; [done| |apply NoDup_singleton].
    intros i Hin%H4 ->%list_elem_of_singleton. by eapply Hi.
  - intros i. destruct st as [s|]; rewrite elem_of_app, ?H4; [set_solver|]. rewrite <- H4. set_solver.
  - intros h [->%elem_of_singleton|Hh']%elem_of_union; [left; set_solver|].
    destruct (H5 h Hh') as [?|(s & E & Hs)]; [left; set_solver|]. right. exists s. split; [done|]. destruct st; set_solver.
  - apply Forall_app. split; [done|]. repeat constructor. by exists j, t.
  - done.
Qed.

Lemma plan_loop_requests observed roots allowed js : forall hashes ids p r, r ∈ requests p ->
  r ∈ requests (plan_loop canonicalize observed roots allowed hashes ids js p).
Proof.
  induction js as [|j js IH]; intros hashes ids p r Hr; [done|]. simpl.
  destruct (refusal _ _ _); [apply IH; by rewrite push_requests|]. destruct (torrent j) as [t|]; [|by apply IH].
  case_bool_decide; [apply IH; by rewrite push_requests|].
  destruct (observed !! _) as [s|]; [case_bool_decide; [apply IH; by rewrite push_requests|]|]; apply IH; simpl; set_solver.
Qed.

Lemma answered_mono observed p p' t : (forall r, r ∈ requests p -> r ∈ requests p') -> answered observed p t -> answered observed p' t.
Proof.
  intros H [Hh|(s & E & Hs)].
  - left. apply list_elem_of_fmap in Hh as (r & E & Hr). apply list_elem_of_fmap. exists r. by split; [|apply H].
  - right. exists s. split; [done|]. apply list_elem_of_omap in Hs as (r & Hr & Er). apply list_elem_of_omap. exists r. split; [by apply H|done].
Qed.

Lemma plan_loop_spec all observed roots allowed js : forall hashes ids p,
  (forall j, j ∈ js -> j ∈ all) -> Forall (fun j => is_torrent_kind j = true) js -> plan_inv all observed roots allowed hashes ids p ->
  let p' := plan_loop canonicalize observed roots allowed hashes ids js p in
  (exists hashes' ids', plan_inv all observed roots allowed hashes' ids' p') /\
  forall j t, j ∈ js -> torrent j = Some t -> refusal canonicalize roots j = None -> answered observed p' t.
Proof.
  induction js as [|j js IH]; intros hashes ids p Hall Hk HP p'.
  { split; [by exists hashes, ids|]. intros j t Hj. by apply elem_of_nil in Hj. }
  apply Forall_cons in Hk as [Hkj Hk]. assert (Hall' : forall j, j ∈ js -> j ∈ all) by (intros; apply Hall; by right).
  assert (Hstep : forall hashes1 ids1 p1, plan_inv all observed roots allowed hashes1 ids1 p1 ->
    (forall t, torrent j = Some t -> refusal canonicalize roots j = None -> answered observed p1 t) ->
    p' = plan_loop canonicalize observed roots allowed hashes1 ids1 js p1 ->
    (exists hashes' ids', plan_inv all observed roots allowed hashes' ids' p') /\
    forall j' t, j' ∈ j :: js -> torrent j' = Some t -> refusal canonicalize roots j' = None -> answered observed p' t).
  { intros h1 i1 p1 HP1 HA ->. destruct (IH h1 i1 p1 Hall' Hk HP1) as [I1 I2]. split; [done|].
    intros j' t [->|Hj]%elem_of_cons Ht Hr; [|by eapply I2].
    eapply answered_mono; [|by apply HA]. intros r Hr'. by apply plan_loop_requests. }
  subst p'. cbn [plan_loop] in Hstep |- *. destruct (refusal canonicalize roots j) as [d|] eqn:Er.
  { eapply Hstep; [by apply plan_inv_push| |done]. done. }
  destruct (torrent j) as [t|] eqn:Et; [|eapply Hstep; [exact HP|done|done]].
  case_bool_decide as Hh.
  { eapply Hstep; [by apply plan_inv_push| |done]. intros t' [= <-] _. unfold answered. rewrite push_requests.
    destruct (pi_known _ _ _ _ _ _ _ HP _ Hh) as [?|(s & E & Hs)]; [by left|]. right. exists s. split; [done|]. by apply (pi_ids_in _ _ _ _ _ _ _ HP). }
  assert (Hnew : forall p1, p1 = mkPlan (requests p ++ [request_of allowed (observed !! info_hash_v1 t) j t]) (diagnostics p) ->
    forall t', Some t = Some t' -> @None RestoreDiagnostic = None -> answered observed p1 t').
  { intros p1 -> t' [= <-] _. left. cbn [requests]. rewrite map_app. set_solver. }
  pose proof (plan_inv_add all observed roots allowed hashes ids p j t HP) as Hadd.
  destruct (observed !! info_hash_v1 t) as [s|] eqn:Es.
  - case_bool_decide as Hid.
    + eapply (Hstep ({[info_hash_v1 t]} ∪ hashes) ids (push_diagnostic DuplicatePreferredIdentity p)); [| |done].
      * apply plan_inv_push. destruct HP as [P1 P2 P3 P4 P5 P6 P7]. constructor; try done.
        { eapply Forall_impl; [exact P2|]. set_solver. }
        intros h [->%elem_of_singleton|Hh']%elem_of_union; [right; by exists s|by apply P5].
      * intros t' [= <-] _. right. exists s. rewrite push_requests. split; [done|]. by apply (pi_ids_in _ _ _ _ _ _ _ HP).
    + eapply Hstep; [apply Hadd|by apply Hnew|done]; try done; [apply Hall; by left|by intros ? [= <-]].
  - eapply Hstep; [apply Hadd|by apply Hnew|done]; try done. apply Hall. by left.
Qed.

(** the restore plan.  No two requests name the same torrent or ask for the
    same engine handle; every request comes from a torrent job of the queue that
    is neither deleted nor being removed, with a valid hash, a metadata path that
    stays below its directory and a payload inside a configured root; it starts
    paused, and is resumed only when the operator's intent is to run.  Every
    such job has its request, unless another one holds its hash or its handle.
    And the diagnostics are bounded. *)
Theorem restore_plan_sound js observed roots allowed :
  let p := plan_restore_with_roots canonicalize js observed roots allowed in
  NoDup (map rr_info_hash_v1 (requests p)) /\ NoDup (omap preferred_engine_id (requests p)) /\
  (forall r, r ∈ requests p -> exists j t, j ∈ js /\ torrent j = Some t /\ rr_job r = job_id j /\ rr_info_hash_v1 r = info_hash_v1 t /\
    removal_intent t = None /\ status j <> JS_Deleted /\ valid_hash (info_hash_v1 t) = true /\
    safe_relative_path (metadata_file t) = true /\
    (forall c, content_path t = Some c -> within_roots canonicalize roots c = true) /\
    start_paused r = true /\ (resume_after_restore r = true -> control_intent t = TCI_Running /\ phase t <> TP_Failed)) /\
  (forall j t, j ∈ js -> is_torrent_kind j = true -> torrent j = Some t -> refusal canonicalize roots j = None -> answered observed p t) /\
  (length (diagnostics p) <= MAX_RESTORE_DIAGNOSTICS)%nat.
Proof.
  intros p.
  assert (H0 : plan_inv js observed roots allowed ∅ ∅ (mkPlan [] [])).
  { constructor; simpl; [constructor|constructor|constructor|set_solver|set_solver|constructor|lia]. }
  destruct (plan_loop_spec js observed roots allowed (List.filter is_torrent_kind js) ∅ ∅ (mkPlan [] [])) as [(h & i & HP) HA]; [| |done|].
  { intros j Hj. by apply elem_of_filter_bool in Hj as [? _]. }
  { apply Forall_forall. intros j Hj. by apply elem_of_filter_bool in Hj as [_ ?]. }
  fold (plan_restore_with_roots canonicalize js observed roots allowed) in HP, HA. fold p in HP, HA.
  destruct HP as [P1 _ P3 _ _ P6 P7]. split_and!; [done|done| | |done].
  - intros r Hr. rewrite Forall_forall in P6. destruct (P6 r Hr) as (j & t & Hj & Hk & Ht & Href & ->). exists j, t.
    unfold refusal in Href. rewrite Ht in Href. destruct (removal_intent t); [done|].
    repeat (case_if_in Href; [done|]). bool_hyps. split_and!; try done.
    + intros c Hc. rewrite Hc in Heqb2. by bool_hyps.
    + cbn [resume_after_restore request_of]. intros H. bool_hyps. done.
  - intros j t Hj Hk. apply HA. apply elem_of_filter_bool. done.
Qed.

End Confined.

(** ** What the backend's reports do to a job *)

Inductive BackendInput :=
| Sample (p : TransferProgress)
| Fact (f : BackendFact) (latest : option TransferProgress) (now : Z).

Section Reports.
Context (canonicalize : list str -> option (list str)) (roots : list str).

Definition fold_input (j : Job) (i : BackendInput) : Job :=
  match i with
  | Sample p => fst (reconcile_progress j p)
  | Fact f latest now => fst (reconcile_fact_with_roots canonicalize j f latest now roots)
  end.

Definition ready_at (j : Job) : option Z := torrent j ≫= torrent_ready_at_unix.

(** The input is a readiness that the samples prove for the job as it is. *)
Definition proves_ready (j : Job) (i : BackendInput) : Prop :=
  exists t content p now, i = Fact (F_Ready (job_id j) content) (Some p) now /\ torrent j = Some t /\
    within_roots canonicalize roots content = true /\ selected_bytes t <> 0 /\ selected_bytes t <= verified_bytes p.

Lemma rename_torrent j nm s b : torrent (rename_job j nm s b) = torrent j.
Proof. unfold rename_job. by case_if. Qed.

Lemma fold_input_ready j i : (forall t, torrent j = Some t -> 0 <= selected_bytes t) ->
  ready_at (fold_input j i) = ready_at j \/ proves_ready j i.
Proof.
  intros Hsel. unfold fold_input, ready_at. destruct i as [p|f latest now].
  - left. unfold reconcile_progress. destruct (torrent j) as [t|] eqn:Et; [|by simpl; rewrite ?Et]. case_if; by simpl; rewrite ?Et.
  - unfold reconcile_fact_with_roots. destruct (torrent j) as [t|] eqn:Et; [|left; by simpl; rewrite ?Et].
    case_if; [left; by simpl; rewrite ?Et|]. bool_hyps. specialize (Hsel t eq_refl).
    destruct f as [id m|id content|id reason|id|id outcome|id e]; simpl in *.
    + left. unfold fact_metadata. case_if; simpl; [|done]. case_if; simpl; [done|]. by rewrite rename_torrent.
    + unfold fact_ready. case_if; simpl; [left; by simpl; rewrite ?Et|]. case_if; simpl; [left; by simpl; rewrite ?Et|]. right. bool_hyps.
      destruct latest as [p|]; [|lia]. exists t, content, p, now. subst id. split_and!; done.
    + left. destruct reason; simpl; rewrite ?Et; try done. case_if; [by simpl; rewrite ?Et|]. case_if; [done|].
      by destruct (phase t); simpl; rewrite ?Et.
    + left. unfold fact_resumed. by case_if.
    + left. destruct outcome; simpl; by rewrite ?Et.
    + by left.
Qed.

(** readiness is proven.  Whatever samples and facts the backend sends, a
    torrent that was not ready becomes ready only at a [Ready] fact whose payload
    is inside a configured root, at a moment when the latest sample shows every
    selected byte, and at least one, verified. *)
Theorem ready_is_proven ins j :
  (forall pre i post, ins = pre ++ i :: post -> forall t, torrent (fold_left fold_input pre j) = Some t -> 0 <= selected_bytes t) ->
  ready_at j = None -> ready_at (fold_left fold_input ins j) <> None ->
  exists pre i post, ins = pre ++ i :: post /\ proves_ready (fold_left fold_input pre j) i.
Proof.
  induction ins as [|i ins IH] in j |- *; intros Hsel H0 H1; [done|]. simpl in H1.
  destruct (fold_input_ready j i) as [E|HP]; [intros t; by apply (Hsel [] i ins)| |by exists [], i, ins].
  destruct (IH (fold_input j i)) as (pre & i' & post & -> & HP); [|by rewrite E|done|].
  - intros pre i' post -> t. by apply (Hsel (i :: pre) i' post).
  - by exists (i :: pre), i', post.
Qed.

End Reports.

(** ** Charging the download quota *)

Definition downloaded (j : Job) : Z := match torrent j with Some t => downloaded_bytes t | None => 0 end.

(** What [fold_backend_progress] credits to the volume book for one sample. *)
Definition charged (j : Job) (p : TransferProgress) : Z := sat_sub (downloaded (fst (reconcile_progress j p))) (downloaded j).

Fixpoint charges (j : Job) (ps : list TransferProgress) : Z :=
  match ps with
  | [] => 0
  | p :: ps' => charged j p + charges (fst (reconcile_progress j p)) ps'
  end.

Lemma progress_downloaded j p t : is_torrent_kind j = true -> torrent j = Some t ->
  exists t', torrent (fst (reconcile_progress j p)) = Some t' /\ is_torrent_kind (fst (reconcile_progress j p)) = true /\
    selected_bytes t' = selected_bytes t /\ downloaded_bytes t <= downloaded_bytes t' <= Z.max (downloaded_bytes t) (selected_bytes t) /\
    Z.min (verified_bytes p) (selected_bytes t) <= downloaded_bytes t'.
Proof.
  intros Hk Ht. unfold reconcile_progress. rewrite Ht, Hk. simpl. eexists. split; [done|]. split; [done|]. simpl. lia.
Qed.

(** a byte is charged once.  Over any sequence of samples, however an engine's
    count of verified bytes falls back and catches up, the bytes charged to the
    quota are the growth of the checkpoint, and never more than what was missing
    of the selection. *)
Theorem progress_charged_once ps j t : is_torrent_kind j = true -> torrent j = Some t ->
  charges j ps = downloaded (fold_left (fun j p => fst (reconcile_progress j p)) ps j) - downloaded j /\
  0 <= charges j ps <= sat_sub (selected_bytes t) (downloaded_bytes t).
Proof.
  intros Hk Ht. induction ps as [|p ps IH] in j, t, Hk, Ht |- *; simpl; [unfold sat_sub; lia|].
  destruct (progress_downloaded j p t Hk Ht) as (t' & Ht' & Hk' & Es & Hd & _). destruct (IH _ _ Hk' Ht') as [I1 I2].
  rewrite I1. rewrite I1 in I2. unfold charged, sat_sub in *. unfold downloaded in *. rewrite Ht, Ht' in *. lia.
Qed.

(** ** A concrete torrent *)

Definition torrent_record : TorrentRecord := {|
  info_hash_v1 := replicate 40 97; source := TS_Magnet; metadata_file := lit "torrents/1.torrent"; payload_root := lit "/data";
  phase := TP_Downloading; control_intent := TCI_Running; removal_intent := None; removal_outcome := None;
  removal_confirmed_at_unix := None; torrent_files := [{| tf_path := lit "a/b.bin"; tf_length := 100; tf_selected := true; tf_downloaded_bytes := 0 |}];
  total_bytes := 100; selected_bytes := 100; downloaded_bytes := 20; uploaded_bytes := 0; seeding_seconds := 0;
  torrent_ready_at_unix := None; content_path := None;
  seed_policy := {| stop_on_complete := false; ratio_limit := Some (f64_of_u64 2); time_limit_secs := None |};
  stop_reason := None; last_activity_unix := None; last_error := None |}.

Definition sample_torrent_job (id : JobId) (t : TorrentRecord) : Job := {|
  job_id := id; kind := JobKind_Torrent; name := lit "t"; dir_name := lit "t"; name_provisional := false;
  queued_at_unix := 0; original_name := []; category := None; priority := 0; dupe := DupeInfo_default; params := [];
  files := []; totals := JobTotals_default; status := JS_Downloading; torrent := Some t; stages := [] |}.

(** A file system without links. *)
Definition no_links (p : list str) : option (list str) := Some p.

Definition sampled (v : Z) : TransferProgress := mkProgress v v [v] 0 0 0 0 None.

Lemma removal_confined_witness :
  confined no_links (lit "/data") (path_join (lit "/data/t") (lit "a/b.bin")).
Proof.
  destruct (removal_confined no_links (lit "/data/t") (torrent_files torrent_record) [lit "/data"]) as (root & Hr & _ & Hf).
  - by vm_compute.
  - apply list_elem_of_singleton in Hr as ->. apply (Hf {| tf_path := lit "a/b.bin"; tf_length := 100; tf_selected := true; tf_downloaded_bytes := 0 |}).
    by left.
Defined.

Lemma ready_is_proven_witness :
  exists pre i post, [Sample (sampled 0); Sample (sampled 100); Fact (F_Ready 1 (lit "/data/t")) (Some (sampled 100)) 50] = pre ++ i :: post /\
    proves_ready no_links [lit "/data"] (fold_left (fold_input no_links [lit "/data"]) pre (sample_torrent_job 1 torrent_record)) i.
Proof.
  apply (ready_is_proven no_links [lit "/data"]).
  - intros pre i post E t Ht. destruct pre as [|? [|? [|? [|? ?]]]]; injection E; intros; subst; try done; vm_compute in Ht; by injection Ht as <-.
  - by vm_compute.
  - by vm_compute.
Defined.

Lemma progress_charged_once_witness :
  charges (sample_torrent_job 1 torrent_record) [sampled 60; sampled 0; sampled 40; sampled 200] = 80 /\
  charges (sample_torrent_job 1 torrent_record) [sampled 60; sampled 0; sampled 40; sampled 200] <= 100 - 20.
Proof.
  split; [by vm_compute|].
  by apply (progress_charged_once [sampled 60; sampled 0; sampled 40; sampled 200] (sample_torrent_job 1 torrent_record) torrent_record).
Defined.
