(* ===== verification/History.v ===== *)
(** * The history store ([crates/nzbd-state/src/lib.rs], [src/history.rs],
    [src/history/sync.rs], [src/history/sync/incremental.rs])

    What a job leaves behind: the entry and the record of the job, the local
    index (a table with a cursor, a table of tombstones and the retention floor),
    the portable logs of all the nodes, and the incremental reconciliation of the
    index with the logs. *)

From S2P Require Import Prelude RustStr Types Queue JobNames.

#[local] Unset Default Proof Using.

(** ** Entries *)

Record HistoryFile := mkHistoryFile {
  hf_name : str; hf_size : Z; hf_segments_total : Z; hf_segments_done : Z; hf_segments_failed : Z; hf_par2 : bool
}.

Record TorrentHistoryRecord := mkTorrentHistory {
  th_info_hash_v1 : str;
  th_downloaded_bytes : Z;
  th_uploaded_bytes : Z;
  th_seeding_seconds : Z;
  th_ready_at_unix : option Z;
  th_terminal_reason : str;
  th_payload : TorrentPayloadDisposition
}.

Record JobRecord := mkJobRecord {
  rec_kind : JobKind;
  rec_files : list HistoryFile;
  rec_total_articles : Z;
  rec_success_articles : Z;
  rec_failed_articles : Z;
  rec_retried_articles : Z;
  rec_par_size : Z;
  rec_url : option str;
  rec_client : option str;
  rec_category : option str;
  rec_queued_at_unix : option Z;
  rec_original_name : option str;
  rec_dir_name : option str;
  rec_torrent : option TorrentHistoryRecord
}.

Definition history_file (f : FileEntry) : HistoryFile := {|
  hf_name := filename f;
  hf_size := sum_Z (map seg_size (segments f));
  hf_segments_total := wrap32 (Z.of_nat (length (segments f)));
  hf_segments_done := wrap32 (Z.of_nat (length (List.filter (fun s => is_done (state s)) (segments f))));
  hf_segments_failed := wrap32 (Z.of_nat (length (List.filter (fun s => is_failed (state s)) (segments f))));
  hf_par2 := is_par2 f |}.

Definition torrent_history (st : JobStatus) (t : TorrentRecord) : option TorrentHistoryRecord :=
  (fun payload => {|
    th_info_hash_v1 := info_hash_v1 t; th_downloaded_bytes := downloaded_bytes t; th_uploaded_bytes := uploaded_bytes t;
    th_seeding_seconds := seeding_seconds t; th_ready_at_unix := torrent_ready_at_unix t;
    th_terminal_reason := if bool_decide (st = JS_Failed) then lit "failed" else lit "removed";
    th_payload := payload |}) <$> removal_outcome t.

Definition from_job (j : Job) : JobRecord := {|
  rec_kind := kind j;
  rec_files := map history_file (files j);
  rec_total_articles := total_articles (totals j);
  rec_success_articles := success_articles (totals j);
  rec_failed_articles := failed_articles (totals j);
  rec_retried_articles := 0;
  rec_par_size := par_size (totals j);
  rec_url := param j URL_PARAM;
  rec_client := param j CLIENT_PARAM;
  rec_category := category j;
  rec_queued_at_unix := if 0 <? queued_at_unix j then Some (queued_at_unix j) else None;
  rec_original_name := nonempty (Some (original_name j));
  rec_dir_name := nonempty (Some (dir_name j));
  rec_torrent := torrent j ≫= torrent_history (status j) |}.

Record HistoryEntry := mkEntry {
  he_job : JobId;
  he_name : str;
  he_category : option str;
  he_final_dir : option str;
  he_status : str;
  he_size : Z;
  he_health : Z;
  he_params : list (str * str);
  he_dupe_key : str;
  he_dupe_score : Z;
  he_completed_at_unix : Z;
  he_hidden : bool;
  he_first_seen_at_unix : option Z;
  he_last_seen_at_unix : option Z;
  he_seen_count : Z;
  he_removed_at_unix : option Z;
  he_picked_up_by : option str;
  he_record : option JobRecord;
  he_stages : list StageSpan;
  he_seq : Z
}.
