(* ===== verification/Desk.v ===== *)
(** * The queue owner's torrent lane ([crates/nzbd-engine/src/owner.rs])

    What [Owner] leaves out of the owner actor's state, and its operations on
    torrents: commands to the backend behind the durable queue, the start and
    yield decisions, the shared download budget, seed policies, the folding of
    samples and facts, and the retirement of removed torrents.  The backend's
    channels and the history store are the environment [Lane]. *)

From S2P Require Import Prelude RustStr Crc32 Types Failover Volumes Nzb JobNames Queue Selection ParSelect Fs Codec Store Owner Float Torrents History.

#[local] Unset Default Proof Using.

Record MirrorStats := mkMirror {
  ms_done_articles : Z;
  ms_failed_articles : Z;
  ms_downloaded_bytes : Z;
  ms_health : Z;
  ms_remaining_bytes : option Z;
  ms_stages : list StageSpan
}.

Record SeedCheckpoint := mkCheckpoint { sc_uploaded_bytes : Z; sc_seeding_seconds : Z }.

(** The rest of the actor's fields. *)
Record Desk := mkDesk {
  d_owner : Owner;
  d_mirror : gmap JobId MirrorStats;
  d_progress : gmap JobId TransferProgress;
  d_seed_clock : gmap JobId Z;
  d_checkpoints : gmap JobId SeedCheckpoint;
  d_applied_usenet : option (option Z);
  d_applied_torrent : option (option Z);
  d_limiter : option Z;
  d_cluster_budgets : gmap ServerId Z;
  d_user_caps : gmap ServerId Z;
  d_generation : Z;
  d_allowances : gmap ServerId Z;
  d_enabled : bool
}.

Definition with_owner (x : Owner) (d : Desk) : Desk :=
  mkDesk x (d_mirror d) (d_progress d) (d_seed_clock d) (d_checkpoints d) (d_applied_usenet d) (d_applied_torrent d)
    (d_limiter d) (d_cluster_budgets d) (d_user_caps d) (d_generation d) (d_allowances d) (d_enabled d).
Definition with_mirror (x : gmap JobId MirrorStats) (d : Desk) : Desk :=
  mkDesk (d_owner d) x (d_progress d) (d_seed_clock d) (d_checkpoints d) (d_applied_usenet d) (d_applied_torrent d)
    (d_limiter d) (d_cluster_budgets d) (d_user_caps d) (d_generation d) (d_allowances d) (d_enabled d).
Definition with_progress (x : gmap JobId TransferProgress) (d : Desk) : Desk :=
  mkDesk (d_owner d) (d_mirror d) x (d_seed_clock d) (d_checkpoints d) (d_applied_usenet d) (d_applied_torrent d)
    (d_limiter d) (d_cluster_budgets d) (d_user_caps d) (d_generation d) (d_allowances d) (d_enabled d).
Definition with_seed_clock (x : gmap JobId Z) (d : Desk) : Desk :=
  mkDesk (d_owner d) (d_mirror d) (d_progress d) x (d_checkpoints d) (d_applied_usenet d) (d_applied_torrent d)
    (d_limiter d) (d_cluster_budgets d) (d_user_caps d) (d_generation d) (d_allowances d) (d_enabled d).
Definition with_checkpoints (x : gmap JobId SeedCheckpoint) (d : Desk) : Desk :=
  mkDesk (d_owner d) (d_mirror d) (d_progress d) (d_seed_clock d) x (d_applied_usenet d) (d_applied_torrent d)
    (d_limiter d) (d_cluster_budgets d) (d_user_caps d) (d_generation d) (d_allowances d) (d_enabled d).
Definition with_limits (usenet torrent : option (option Z)) (limiter : option Z) (d : Desk) : Desk :=
  mkDesk (d_owner d) (d_mirror d) (d_progress d) (d_seed_clock d) (d_checkpoints d) usenet torrent
    limiter (d_cluster_budgets d) (d_user_caps d) (d_generation d) (d_allowances d) (d_enabled d).
Definition with_budgets (cluster user : gmap ServerId Z) (generation : Z) (allowances : gmap ServerId Z) (d : Desk) : Desk :=
  mkDesk (d_owner d) (d_mirror d) (d_progress d) (d_seed_clock d) (d_checkpoints d) (d_applied_usenet d) (d_applied_torrent d)
    (d_limiter d) cluster user generation allowances (d_enabled d).
Definition with_enabled (x : bool) (d : Desk) : Desk :=
  mkDesk (d_owner d) (d_mirror d) (d_progress d) (d_seed_clock d) (d_checkpoints d) (d_applied_usenet d) (d_applied_torrent d)
    (d_limiter d) (d_cluster_budgets d) (d_user_caps d) (d_generation d) (d_allowances d) x.

Definition on_owner (f : Owner -> Owner) (d : Desk) : Desk := with_owner (f (d_owner d)) d.

Definition queue (d : Desk) : QueueState := o_state (d_owner d).

(** [durable_seed_checkpoints] *)
Definition durable_seed_checkpoints (q : QueueState) : gmap JobId SeedCheckpoint :=
  list_to_map (omap (fun j => (fun t => (job_id j, mkCheckpoint (uploaded_bytes t) (seeding_seconds t))) <$> torrent j)
    (rev (jobs q))).

(** ** Edits of a torrent record *)

Definition edit_torrent (ph : TorrentPhase) (ci : TorrentControlIntent) (ri : option TorrentRemovalIntent)
    (ro : option TorrentPayloadDisposition) (rc : option Z) (seconds : Z) (ready : option Z) (content : option str)
    (policy : SeedPolicy) (stop : option TorrentStopReason) (activity : option Z) (t : TorrentRecord) : TorrentRecord := {|
  info_hash_v1 := info_hash_v1 t; source := source t; metadata_file := metadata_file t; payload_root := payload_root t;
  phase := ph; control_intent := ci; removal_intent := ri; removal_outcome := ro; removal_confirmed_at_unix := rc;
  torrent_files := torrent_files t; Types.total_bytes := Types.total_bytes t; selected_bytes := selected_bytes t;
  downloaded_bytes := downloaded_bytes t; uploaded_bytes := uploaded_bytes t; seeding_seconds := seconds;
  torrent_ready_at_unix := ready; content_path := content; seed_policy := policy; stop_reason := stop;
  last_activity_unix := activity; last_error := last_error t |}.

Definition intend_pause (reason : TorrentStopReason) (t : TorrentRecord) : TorrentRecord :=
  edit_torrent (phase t) TCI_Paused (removal_intent t) (removal_outcome t) (removal_confirmed_at_unix t) (seeding_seconds t)
    (torrent_ready_at_unix t) (content_path t) (seed_policy t) (Some reason) (last_activity_unix t) t.

Definition intend_run (now : Z) (t : TorrentRecord) : TorrentRecord :=
  let missing := bool_decide (phase t = MissingFiles) in
  let ready := if missing then None else torrent_ready_at_unix t in
  let content := if missing then None else content_path t in
  edit_torrent (match ready with None => TP_Queued | Some _ => phase t end) TCI_Running (removal_intent t) (removal_outcome t)
    (removal_confirmed_at_unix t) (seeding_seconds t) ready content (seed_policy t) None
    (match ready with None => Some now | Some _ => last_activity_unix t end) t.

Definition intend_removal (delete_files : bool) (t : TorrentRecord) : TorrentRecord :=
  edit_torrent (phase t) (control_intent t) (Some {| delete_data := delete_files |}) (removal_outcome t) (removal_confirmed_at_unix t)
    (seeding_seconds t) (torrent_ready_at_unix t) (content_path t) (seed_policy t) (stop_reason t) (last_activity_unix t) t.

Definition removal_confirmed (o : TorrentPayloadDisposition) (now : Z) (t : TorrentRecord) : TorrentRecord :=
  edit_torrent (phase t) (control_intent t) (removal_intent t) (Some o) (Some now) (seeding_seconds t) (torrent_ready_at_unix t)
    (content_path t) (seed_policy t) (stop_reason t) (last_activity_unix t) t.

Definition seeded_for (seconds : Z) (t : TorrentRecord) : TorrentRecord :=
  edit_torrent (phase t) (control_intent t) (removal_intent t) (removal_outcome t) (removal_confirmed_at_unix t) seconds
    (torrent_ready_at_unix t) (content_path t) (seed_policy t) (stop_reason t) (last_activity_unix t) t.

Definition with_policy (p : SeedPolicy) (t : TorrentRecord) : TorrentRecord :=
  edit_torrent (phase t) (control_intent t) (removal_intent t) (removal_outcome t) (removal_confirmed_at_unix t) (seeding_seconds t)
    (torrent_ready_at_unix t) (content_path t) p (stop_reason t) (last_activity_unix t) t.

Definition put_torrent (f : TorrentRecord -> TorrentRecord) (j : Job) : Job := set_torrent (f <$> torrent j) j.

(** ** The environment *)

Record Lane := mkLane {
  l_env : Env;
  l_payload_roots : list str;
  l_canonicalize : list str -> option (list str);
  l_latest : gmap JobId TransferProgress;           (* [latest_progress] *)
  l_facts : list BackendFact;                       (* [try_structural] until it is empty *)
  l_record : option (HistoryEntry -> bool);         (* [record_seq_durable], where there is a history *)
  l_prepare_forget : JobId -> bool                  (* [artifacts.prepare_forget] succeeds *)
}.

Section Lane.
Context {jc : JournalCodec} {dc : DocCodec}.
Variable lane : Lane.

(** The actor's own setting decides whether it downloads. *)
Definition env_of (d : Desk) : Env := {|
  e_servers := e_servers (l_env lane); e_article_retries := e_article_retries (l_env lane);
  e_propagation_delay := e_propagation_delay (l_env lane); e_quota_start_day := e_quota_start_day (l_env lane);
  e_health_abort := e_health_abort (l_env lane); e_retry_interval := e_retry_interval (l_env lane);
  e_download_enabled := d_enabled d; e_now_unix := e_now_unix (l_env lane); e_instant := e_instant (l_env lane);
  e_guard := e_guard (l_env lane); e_chan := e_chan (l_env lane); e_allocate := e_allocate (l_env lane);
  e_try_command := e_try_command (l_env lane); e_min_free_disk := e_min_free_disk (l_env lane);
  e_disk_reading := e_disk_reading (l_env lane); e_daily_quota := e_daily_quota (l_env lane);
  e_monthly_quota := e_monthly_quota (l_env lane); e_volume_path := e_volume_path (l_env lane);
  e_volume_files := e_volume_files (l_env lane) |}.

Definition now_of : Z := e_now_unix (l_env lane).

(** [save_snapshot_result], whose success checkpoints the seed counters, and
    [save_snapshot]. *)
Definition save_result (d : Desk) : io (Desk * result bool StateError) :=
  let q := queue d in
  let* (o, r) := save_snapshot_result (env_of d) (d_owner d) in
  let d := with_owner o d in
  io_ret (match r with Ok true => with_checkpoints (durable_seed_checkpoints q) d | _ => d end, r).

Definition save (d : Desk) : io (Desk * bool) :=
  let* (d, r) := save_result d in
  match r with
  | Ok saved => io_ret (d, saved)
  | Err e => io_ret (on_owner (on_snapshot_save_error e) d, false)
  end.

(** [self.persist && !self.save_snapshot()] is a refusal. *)
Definition persisted (d : Desk) : io (Desk * bool) :=
  if o_persist (d_owner d) then save d else io_ret (d, true).

Definition persist_then_command (c : BackendCommand) (d : Desk) : io (Desk * bool) :=
  match o_backend_pending (d_owner d) with
  | _ :: _ =>
      if (length (o_backend_pending (d_owner d)) =? MAX_PENDING_BACKEND_COMMANDS)%nat then io_ret (d, false)
      else
        let* (d, ok) := persisted d in
        if ok then io_ret (on_owner (fun o => with_backend_pending (o_backend_pending o ++ [c]) o) d, true)
        else io_ret (d, false)
  | [] =>
      let* (d, ok) := persisted d in
      if ok then
        let '(o, queued) := enqueue_backend_command (l_env lane) (d_owner d) c in
        io_ret (with_owner o d, queued)
      else io_ret (d, false)
  end.

Definition edit_job (job : JobId) (f : Job -> Job) (d : Desk) : Desk :=
  on_owner (fun o => with_state (update_job (o_state o) job f) o) d.

Definition dirty (d : Desk) : Desk := on_owner (with_dirty true) d.

Definition enqueue (c : BackendCommand) (d : Desk) : Desk * bool :=
  let '(o, queued) := enqueue_backend_command (l_env lane) (d_owner d) c in (with_owner o d, queued).

(** ** Starting and yielding *)

Definition held (o : Owner) : bool := o_quota_reached o || o_disk_low o.

Definition running_record (t : TorrentRecord) : bool :=
  bool_decide (control_intent t = TCI_Running) && match removal_intent t with None => true | Some _ => false end.

Definition seeds_on (j : Job) : bool :=
  match torrent j with
  | Some t => bool_decide (is_Some (torrent_ready_at_unix t)) && running_record t
  | None => false
  end.

Definition desired_set (o : Owner) : gset JobId :=
  list_to_set (active_set (o_state o) (dom (o_delegated o)) (held o) now_of)
  ∪ list_to_set (map job_id (List.filter seeds_on (jobs (o_state o)))).

Definition runnable (q : QueueState) (job : JobId) : bool :=
  match find_job q job with
  | Some j => is_torrent_kind j && negb (bool_decide (status j = JS_Paused))
      && match torrent j with Some t => running_record t | None => false end
  | None => false
  end.

Definition start_torrent (o : Owner) (job : JobId) : Owner :=
  if negb (runnable (o_state o) job) || bool_decide (job ∈ o_backend_started o) then o
  else
    let '(o, queued) := enqueue_backend_command (l_env lane) o (BC_Start job) in
    if queued then with_backend_started ({[job]} ∪ o_backend_started o) o else o.

Definition yields (q : QueueState) (desired : gset JobId) (job : JobId) : bool :=
  negb (bool_decide (job ∈ desired))
  && match find_job q job with
     | Some j => match torrent j with Some t => bool_decide (torrent_ready_at_unix t = None) | None => false end
     | None => false
     end.

Definition yield_torrent (o : Owner) (job : JobId) : Owner :=
  let '(o, queued) := enqueue_backend_command (l_env lane) o (BC_PauseForScheduler job) in
  if queued then with_backend_started (o_backend_started o ∖ {[job]}) o else o.

(** The code iterates over hash sets; here over the elements as [gset] lists them. *)
Definition schedule_torrent_starts (o : Owner) : Owner :=
  let desired := desired_set o in
  let o := fold_left start_torrent (elements desired) o in
  fold_left yield_torrent (List.filter (yields (o_state o) desired) (elements (o_backend_started o))) o.

(** ** The shared download budget *)

Definition rebalance_download_budget (usenet_rate : Z) (d : Desk) : Desk :=
  let o := d_owner d in
  let active := active_set (o_state o) (dom (o_delegated o)) (held o) now_of in
  let is_torrent (id : JobId) := match find_job (o_state o) id with Some j => is_torrent_kind j | None => false end in
  let is_other (id : JobId) := match find_job (o_state o) id with Some j => negb (is_torrent_kind j) | None => false end in
  let torrent_jobs := List.filter is_torrent active in
  let torrent_rate := sum_Z (map (fun '(_, p) => download_bps p)
    (List.filter (fun '(id, _) => existsb (Z.eqb id) torrent_jobs) (map_to_list (d_progress d)))) in
  let '(usenet_limit, torrent_limit) :=
    allocate_download_budget (speed_limit_bps (o_state o)) (existsb is_other active) (negb (bool_decide (torrent_jobs = [])))
      usenet_rate torrent_rate in
  let d := if bool_decide (d_applied_usenet d = Some usenet_limit) then d
           else with_limits (Some usenet_limit) (d_applied_torrent d) usenet_limit d in
  if bool_decide (d_applied_torrent d = Some torrent_limit) then d
  else
    let '(d, queued) := enqueue (BC_SetDownloadLimit torrent_limit) d in
    if queued then with_limits (d_applied_usenet d) (Some torrent_limit) (d_limiter d) d else d.

(** ** Seed policies *)

Definition seeding_live (j : Job) : bool :=
  match torrent j with
  | Some t => bool_decide (phase t = Seeding) && bool_decide (control_intent t = TCI_Running)
  | None => false
  end.

(** [now.saturating_sub(last) as u64]: a negative difference wraps. *)
Definition elapsed_since (last now : Z) : Z := wrap64 (sat_sub_i64 now last).

Definition accrue (clock : gmap JobId Z) (j : Job) : Job :=
  if seeding_live j then
    put_torrent (fun t => seeded_for (sat_add64 (seeding_seconds t) (elapsed_since (default now_of (clock !! job_id j)) now_of)) t) j
  else j.

Definition stops_seeding (j : Job) : option (JobId * TorrentStopReason) :=
  if seeding_live j then (torrent j ≫= seed_policy_stop_reason) ≫= fun r => Some (job_id j, r) else None.

Definition stop_seeding (d : Desk) (job : JobId) (reason : TorrentStopReason) : io Desk :=
  match find_job (queue d) job with
  | None => io_ret d
  | Some before =>
      let d := dirty (edit_job job (fun j => set_status JS_Paused (put_torrent (intend_pause reason) j)) d) in
      let* (d, ok) := persist_then_command (BC_PauseForSeedPolicy job) d in
      io_ret (if ok then d else edit_job job (fun _ => before) d)
  end.

Fixpoint stop_all (l : list (JobId * TorrentStopReason)) (d : Desk) : io Desk :=
  match l with
  | [] => io_ret d
  | (job, reason) :: l' => let* d := stop_seeding d job reason in stop_all l' d
  end.

Definition checkpoint_due (d : Desk) (j : Job) : bool :=
  match torrent j with
  | Some t =>
      let c := default (mkCheckpoint 0 0) (d_checkpoints d !! job_id j) in
      seed_checkpoint_due t (sc_uploaded_bytes c) (sc_seeding_seconds c)
  | None => false
  end.

(** True asks for an immediate save. *)
Definition update_seed_policies (d : Desk) : io (Desk * bool) :=
  let js := jobs (queue d) in
  let clock := d_seed_clock d in
  let changed := existsb (fun j => seeding_live j && (0 <? elapsed_since (default now_of (clock !! job_id j)) now_of)) js in
  let js' := map (accrue clock) js in
  let reached := omap stops_seeding js' in
  let live := List.filter seeding_live js in
  let d := with_seed_clock (list_to_map (map (fun j => (job_id j, now_of)) live)) d in
  let d := on_owner (fun o => with_state (set_jobs js' (o_state o)) o) d in
  let d := if changed then dirty d else d in
  let* d := stop_all reached d in
  io_ret (d, existsb (checkpoint_due d) (jobs (queue d))).

(** ** Folding what the backend reports *)

Definition downloaded_of (j : Job) : Z := match torrent j with Some t => downloaded_bytes t | None => 0 end.

Definition fold_progress (d : Desk) (entry : JobId * TransferProgress) : Desk :=
  let '(id, p) := entry in
  match find_job (queue d) id with
  | None => d
  | Some j =>
      let '(j', out) := reconcile_progress j p in
      let delta := match torrent j' with Some t => sat_sub (downloaded_bytes t) (downloaded_of j) | None => 0 end in
      let d := edit_job id (fun _ => j') d in
      let d := if durable_changed out then dirty d else d in
      let d :=
        if 0 <? delta then
          on_owner (fun o => with_volumes (Volumes.add (o_volumes o) TORRENT_SOURCE_ID delta now_of (e_quota_start_day (l_env lane))) o) d
        else d in
      with_progress (<[id := p]> (d_progress d)) d
  end.

Definition fold_backend_progress (d : Desk) : Desk :=
  let d := fold_left fold_progress (map_to_list (l_latest lane)) d in
  with_progress (filter (fun '(id, _) => id ∈ map job_id (jobs (queue d))) (d_progress d)) d.

Definition fact_starts (f : BackendFact) (started : gset JobId) : gset JobId :=
  match f with
  | F_Resumed job => {[job]} ∪ started
  | F_Stopped job _ | F_Removed job _ | F_Failed job _ => started ∖ {[job]}
  | F_MetadataReady _ _ | F_Ready _ _ => started
  end.

Definition disposition_of (o : RemovalOutcome) : option TorrentPayloadDisposition :=
  match o with
  | DataDeleted => Some PayloadDeleted
  | DataKept => Some Retained
  | RefusedUnsafeRoot | RefusedInventoryMismatch => None
  end.

(** [job_mut(job).and_then(|record| record.torrent.as_mut())] *)
Definition edit_torrent_of (job : JobId) (f : TorrentRecord -> TorrentRecord) (d : Desk) : Desk :=
  match find_job (queue d) job ≫= torrent with
  | Some _ => dirty (edit_job job (put_torrent f) d)
  | None => d
  end.

Definition payload_write_under (roots : list str) : str :=
  match roots with
  | root :: _ => lit "torrent payload write under " ++ root
  | [] => lit "torrent payload write"
  end.

Definition is_failure (f : BackendFact) : bool := match f with F_Failed _ _ => true | _ => false end.

Definition reconcile (f : BackendFact) (d : Desk) : Desk :=
  match find_job (queue d) (fact_job f) with
  | None => d
  | Some j =>
      let '(j', out) :=
        reconcile_fact_with_roots (l_canonicalize lane) j f (d_progress d !! fact_job f) now_of (l_payload_roots lane) in
      let d := edit_job (fact_job f) (fun _ => j') d in
      let d := if durable_changed out then dirty d else d in
      let d := if is_failure f then edit_torrent_of (fact_job f) (removal_confirmed Retained now_of) d else d in
      if storage_hold out then on_owner (fun o => observe_out_of_space (l_env lane) o (payload_write_under (l_payload_roots lane))) d
      else d
  end.

Definition fold_fact (d : Desk) (f : BackendFact) : Desk :=
  let d := on_owner (fun o => with_backend_started (fact_starts f (o_backend_started o)) o) d in
  match f with
  | F_Removed job outcome =>
      match disposition_of outcome with
      | Some disposition => edit_torrent_of job (removal_confirmed disposition now_of) d
      | None => reconcile f d
      end
  | _ => reconcile f d
  end.

Definition fold_backend_structural (d : Desk) : Desk := fold_left fold_fact (l_facts lane) d.

(** ** Deleting a job *)

Fixpoint remove_first {A} (p : A -> bool) (l : list A) : list A :=
  match l with
  | [] => []
  | x :: l' => if p x then l' else x :: remove_first p l'
  end.

Definition drop_file (o : Owner) (f : FileEntry) : Owner :=
  with_finalize_sent (o_finalize_sent o ∖ {[file_id f]})
    (with_file_sizes (delete (file_id f) (o_file_sizes o)) (with_writers (o_writers o ∖ {[file_id f]}) o)).

(** What [delete_job] and [remove_job_silent] both forget about a job. *)
Definition forget (job : JobId) (j : Job) (d : Desk) : Desk :=
  let d := on_owner (fun o =>
    let o := with_state (set_jobs (remove_first (fun x => job_id x =? job) (jobs (o_state o))) (o_state o)) o in
    let o := fold_left drop_file (files j) o in
    let o := with_pending_finalize (List.filter (fun '(k, _) => negb (k =? job)) (o_pending_finalize o)) o in
    let o := with_attempts (filter (fun '((k, _, _), _) => k <> job) (o_attempts o)) o in
    with_post_fetch (delete job (o_post_fetch o)) (with_delegated (delete job (o_delegated o)) o)) d in
  with_mirror (delete job (d_mirror d)) d.

Definition delete_job (job : JobId) (delete_files : bool) (d : Desk) : io (Desk * bool) :=
  if delete_files then io_ret (d, false)
  else
    match find_job (queue d) job with
    | None => io_ret (d, false)
    | Some j =>
        if negb (l_prepare_forget lane job) then io_ret (d, false)
        else
          let d := on_owner (fun o => with_allocated (o_allocated o ∖ {[job]}) (with_retiring (o_retiring o ∖ {[job]}) o)) d in
          let d := forget job j d in
          let* d :=
            if o_persist (d_owner d) then
              let* (jn, _) := remove_job (o_journal (d_owner d)) job in
              io_ret (on_owner (with_journal jn) d)
            else io_ret d in
          let* (d, _) := save d in
          io_ret (on_owner (emit (E_JobDeleted job)) d, true)
    end.

(** ** Retiring removed torrents *)

Definition terminal_entry (j : Job) (t : TorrentRecord) (completed_at : Z) : HistoryEntry := {|
  he_job := job_id j; he_name := name j; he_category := category j;
  he_final_dir := match removal_outcome t with Some Retained => content_path t | _ => None end;
  he_status := if bool_decide (status j = JS_Failed) then lit "FAILURE/TORRENT" else lit "DELETED";
  he_size := selected_bytes t; he_health := 1000; he_params := params j;
  he_dupe_key := dupe_key (dupe j); he_dupe_score := dupe_score (dupe j); he_completed_at_unix := completed_at;
  he_hidden := false; he_first_seen_at_unix := None; he_last_seen_at_unix := None; he_seen_count := 0;
  he_removed_at_unix := None; he_picked_up_by := None; he_record := Some (from_job j); he_stages := stages j; he_seq := 0 |}.

Definition awaits_retirement (j : Job) : bool :=
  match torrent j with Some t => bool_decide (is_Some (removal_outcome t)) | None => false end.

Definition retire (d : Desk) (j : Job) : io Desk :=
  match torrent j ≫= (fun t => (fun at_unix => (t, at_unix)) <$> removal_confirmed_at_unix t) with
  | None => io_ret d
  | Some (t, at_unix) =>
      let recorded := match l_record lane with Some record => record (terminal_entry j t at_unix) | None => true end in
      if recorded then let* (d, _) := delete_job (job_id j) false d in io_ret d else io_ret d
  end.

Fixpoint retire_all (l : list Job) (d : Desk) : io Desk :=
  match l with
  | [] => io_ret d
  | j :: l' => let* d := retire d j in retire_all l' d
  end.

Definition finalize_confirmed_torrent_removals (d : Desk) : io Desk :=
  match List.filter awaits_retirement (jobs (queue d)) with
  | [] => io_ret d
  | pending =>
      let* (d, ok) := persisted d in
      if ok then retire_all pending d else io_ret d
  end.

(** ** The tick

    [on_tick]; the measurement of the wire gives [usenet_rate], and the publishing
    and the volumes' file are not part of the state. *)

Definition desk_tick (usenet_rate : Z) (save_due : bool) (d : Desk) : io Desk :=
  let d := on_owner (fun o => flush_backend_commands (l_env lane) (o_backend_pending o) o) d in
  let d := fold_backend_structural (fold_backend_progress d) in
  let* d := finalize_confirmed_torrent_removals d in
  let* (d, checkpoint) := update_seed_policies d in
  let d := on_owner (fun o =>
    let o := with_guard_tick (wrap32 (o_guard_tick o + 1)) o in
    let o := settle_download_labels (env_of d) o in
    let o := schedule_torrent_starts o in
    let o := update_disk_guard (l_env lane) o in
    if o_guard_tick o mod 10 =? 1 then update_quota_guard (l_env lane) o else o) d in
  let d := rebalance_download_budget usenet_rate d in
  let d := on_owner (fun o => with_blocked (filter (fun '(_, until) => e_instant (l_env lane) < until) (o_blocked o)) o) d in
  let* (jn, _) := sync (o_journal (d_owner d)) in
  let d := on_owner (with_journal jn) d in
  let pending := o_pending_finalize (d_owner d) in
  let d := on_owner (fun o => retry_finalize (env_of d) pending (with_pending_finalize [] o)) d in
  if o_dirty (d_owner d) && (checkpoint || save_due) then let* (d, _) := save d in io_ret d else io_ret d.

End Lane.

(** ** A concrete desk *)

Definition sample_lane : Lane := {|
  l_env := sample_env; l_payload_roots := [lit "/data"]; l_canonicalize := no_links; l_latest := ∅; l_facts := [];
  l_record := Some (fun _ => true); l_prepare_forget := fun _ => true |}.

Definition desk_of (q : QueueState) : Desk := {|
  d_owner := owner_of q; d_mirror := ∅; d_progress := ∅; d_seed_clock := ∅; d_checkpoints := ∅; d_applied_usenet := None;
  d_applied_torrent := None; d_limiter := None; d_cluster_budgets := ∅; d_user_caps := ∅; d_generation := 0;
  d_allowances := ∅; d_enabled := true |}.
