(* ===== verification/Commands.v ===== *)
(** * The queue owner's commands ([crates/nzbd-engine/src/owner.rs])

    [on_command] and what it calls: admissions, additions, the operator's controls,
    the exchange of jobs with other nodes, and the adoption of authority.  The
    inventory of payload directories, the protected sources and the directory
    names are the environment [Shelf]. *)

From S2P Require Import Prelude RustStr Crc32 Types Failover Volumes Nzb JobNames Queue Selection ParSelect Fs Codec Store Owner Float Torrents History Desk.

#[local] Unset Default Proof Using.

Inductive MoveOp := MoveTop | MoveUp | MoveDown | MoveBottom.

Inductive QueueCommand :=
| ReserveTorrentAdmission (src : TorrentSource) (secret : bytes) (opts : AddOpts)
| CommitTorrentAdmission (job : JobId) (commit : TorrentAdmissionCommit)
| CancelTorrentAdmission (job : JobId)
| AddParsed (nm : str) (parsed : ParsedNzb) (cat : option str) (prio : Z) (dup : option DupeInfo) (start_paused : bool)
    (ps : list (str * str))
| AddUrl (nm url : str) (cat : option str) (prio : Z) (dup : option DupeInfo) (start_paused : bool) (ps : list (str * str))
| CompleteUrlFetch (job : JobId) (parsed : ParsedNzb)
| FailUrlFetch (job : JobId)
| SetFilePaused (job : JobId) (file : FileId) (paused : bool)
| DeleteFile (job : JobId) (file : FileId)
| Pause (job : JobId)
| Resume (job : JobId)
| QuiescePayload (job : JobId)
| Delete (job : JobId) (delete_files : bool)
| SetPriority (job : JobId) (prio : Z)
| SetCategory (job : JobId) (cat : option str)
| SetTorrentSeedPolicy (job : JobId) (policy : SeedPolicy)
| Move (job : JobId) (op : MoveOp)
| PauseAll (src : str)
| ResumeAll (src : str)
| SetSpeedLimit (bytes_per_sec : option Z)
| SetTorrentUploadLimit (bytes_per_sec : option Z)
| SetMaxActiveDownloads (n : Z)
| ImportJob (job : Job) (fold_journals emit_finished : bool)
| ImportJobIfPresent (job : Job)
| ExportJob (job : JobId)
| RemoveJobSilent (job : JobId)
| SetDelegated (job : JobId) (node : option str)
| MirrorProgress (job : JobId) (stats : MirrorStats)
| FoldJobJournals (job : JobId)
| SetServerBudgets (budgets : gmap ServerId Z)
| SetDownloadEnabled (enabled : bool)
| SetServerConnectionCaps (caps : list (ServerId * Z))
| AdoptAuthority
| AdoptReplicatedAuthority (js : list Job)
| SetJobStatus (job : JobId) (st : JobStatus)
| EnterPostStage (job : JobId) (st : PostStage) (at_unix : Z) (prev_ms : option Z)
| ClosePostStage (job : JobId) (at_unix : Z) (ms : option Z)
| UnpauseParBlocks (job : JobId) (blocks : Z) (block_size : option Z)
| RetainJobs (keep : list JobId).

Inductive Reply :=
| R_None
| R_Bool (ok : bool)
| R_Reserved (r : result JobId StateError)
| R_Committed (r : option (result JobId JobId))
| R_Cancelled (r : result bool StateError)
| R_Added (r : result JobId StateError)
| R_Url (job : JobId) (fresh : bool)
| R_Quiesced (r : result unit str)
| R_Count (n : Z)
| R_Job (j : option Job)
| R_Budgets (generation : Z) (applied : gmap ServerId Z)
| R_Caps (applied : gmap ServerId Z)
| R_Adopted (r : result unit StateError).

Record Shelf := mkShelf {
  s_lane : Lane;
  s_pause_extra_pars : bool;
  s_to_lowercase : str -> str;
  s_rate : Z;                                            (* the published download rate *)
  s_write_secret : JobId -> bytes -> result str StateError;
  s_remove_secret : JobId -> result unit StateError;
  s_entries : list str;                                  (* the names under [dest_dir] *)
  s_create_dir : str -> bool;
  s_is_dir : str -> bool;
  s_inventoried : JobId -> bool;                         (* [artifacts.for_job] finds an owner *)
  s_register : JobId -> str -> bool                      (* [register_legacy_active] succeeds *)
}.

(** ** Edits of a job *)

Definition set_priority (p : Z) (j : Job) : Job := {|
  job_id := job_id j; kind := kind j; name := name j; dir_name := dir_name j; name_provisional := name_provisional j;
  queued_at_unix := queued_at_unix j; original_name := original_name j; category := category j; priority := p;
  dupe := dupe j; params := params j; files := files j; totals := totals j; status := status j; torrent := torrent j;
  stages := stages j |}.

Definition set_dupe (x : DupeInfo) (j : Job) : Job := {|
  job_id := job_id j; kind := kind j; name := name j; dir_name := dir_name j; name_provisional := name_provisional j;
  queued_at_unix := queued_at_unix j; original_name := original_name j; category := category j; priority := priority j;
  dupe := x; params := params j; files := files j; totals := totals j; status := status j; torrent := torrent j;
  stages := stages j |}.

Definition set_stages (x : list StageSpan) (j : Job) : Job := {|
  job_id := job_id j; kind := kind j; name := name j; dir_name := dir_name j; name_provisional := name_provisional j;
  queued_at_unix := queued_at_unix j; original_name := original_name j; category := category j; priority := priority j;
  dupe := dupe j; params := params j; files := files j; totals := totals j; status := status j; torrent := torrent j;
  stages := x |}.

Definition set_params (ps : list (str * str)) (j : Job) : Job := set_asked (category j) ps j.

Definition set_file_paused (b : bool) (f : FileEntry) : FileEntry := {|
  file_id := file_id f; subject := subject f; filename := filename f; filename_confirmed := filename_confirmed f;
  is_par2 := is_par2 f; paused := b; groups := groups f; date := date f; segments := segments f;
  file_crc32 := file_crc32 f; finalized := finalized f |}.

(** [close_span]: the last span, when it is open; the wall clock where nothing
    was measured. *)
Definition close_span (measured : option Z) (at_unix : Z) (j : Job) : Job :=
  match rev (stages j) with
  | prev :: earlier =>
      match span_ms prev with
      | Some _ => j
      | None =>
          let ms := match measured with Some m => m | None => wrap64 (Z.max (sat_sub_i64 at_unix (started_at_unix prev)) 0 * 1000) end in
          set_stages (rev ({| stage := stage prev; started_at_unix := started_at_unix prev; span_ms := Some ms |} :: earlier)) j
      end
  | [] => j
  end.

Definition recovered_post_fetch_files (j : Job) : option (gset FileId) :=
  if negb (active_status (status j)) || bool_decide (open_post_stage j = None) then None
  else
    let fs : gset FileId :=
      list_to_set (map file_id (List.filter (fun f => is_par2 f && negb (paused f) && negb (is_terminal f)) (files j))) in
    if bool_decide (fs = ∅) then None else Some fs.

(** The directory of a new allocation: [base], or [base.job-<id>-<n>] with the
    first [n] that is free.  One candidate more than there are names is enough. *)
Definition dir_candidate (base : str) (id : JobId) (n : nat) : str :=
  base ++ lit ".job-" ++ show_dec id ++ lit "-" ++ show_dec (Z.of_nat n).

Fixpoint free_dir (entries : list str) (base : str) (id : JobId) (fuel n : nat) : str :=
  match fuel with
  | O => dir_candidate base id n
  | S fuel' =>
      if bool_decide (dir_candidate base id n ∈ entries) then free_dir entries base id fuel' (S n)
      else dir_candidate base id n
  end.

Definition move_target (op : MoveOp) (idx last : nat) : nat :=
  match op with
  | MoveTop => 0
  | MoveUp => idx - 1
  | MoveDown => Nat.min (idx + 1) last
  | MoveBottom => last
  end.

Fixpoint index_where {A} (p : A -> bool) (l : list A) : option nat :=
  match l with
  | [] => None
  | x :: l' => if p x then Some O else S <$> index_where p l'
  end.

Definition insert_at {A} (n : nat) (x : A) (l : list A) : list A := take n l ++ x :: drop n l.

Definition move_jobs (js : list Job) (job : JobId) (op : MoveOp) : option (list Job) :=
  match index_where (fun j => job_id j =? job) js with
  | None => None
  | Some idx =>
      let target := move_target op idx (length js - 1) in
      if (target =? idx)%nat then Some js
      else
        match js !! idx with
        | Some j => Some (insert_at target j (delete idx js))
        | None => Some js
        end
  end.

(** ** Handlers *)

Section Commands.
Context {jc : JournalCodec} {dc : DocCodec}.
Variable shelf : Shelf.

Definition lane_of : Lane := s_lane shelf.
Definition commands_now : Z := now_of lane_of.

(** The environment the owner's own operations see. *)
Definition desk_env (d : Desk) : Env := env_of lane_of d.

Definition on_queue (f : QueueState -> QueueState) (d : Desk) : Desk := on_owner (fun o => with_state (f (o_state o)) o) d.

Definition raise (ev : Event) (d : Desk) : Desk := on_owner (emit ev) d.

(** [let _ = self.save_snapshot()], where the answer is not looked at. *)
Definition saved (d : Desk) : io Desk := let* (d, _) := save lane_of d in io_ret d.

Definition lift (f : Owner -> io Owner) (d : Desk) : io Desk :=
  let* o := f (d_owner d) in io_ret (with_owner o d).

(** An edit of a job that stands if [act] accepts it; otherwise the job is put
    back as it was. *)
Definition attempt (job : JobId) (edit : Job -> Job) (act : Desk -> io (Desk * bool)) (d : Desk) : io (Desk * bool) :=
  let before := find_job (queue d) job in
  let* (d, ok) := act (dirty (edit_job job edit d)) in
  if ok then io_ret (d, true)
  else io_ret (match before with Some j => edit_job job (fun _ => j) d | None => d end, false).

(** *** Admissions *)

Definition put_secret_ref (r : str) (p : PendingAdmission) : PendingAdmission := {|
  pa_job_id := pa_job_id p; pa_source := pa_source p; secret_ref := r; pa_category := pa_category p;
  pa_priority := pa_priority p; pa_paused := pa_paused p; pa_seed_ratio_limit := pa_seed_ratio_limit p;
  pa_seed_time_limit_secs := pa_seed_time_limit_secs p; pa_stop_seeding_on_complete := pa_stop_seeding_on_complete p;
  pa_params := pa_params p; pa_client := pa_client p |}.

Definition on_reserve (src : TorrentSource) (secret : bytes) (opts : AddOpts) (d : Desk) : io (Desk * Reply) :=
  let '(q, id) := reserve_torrent_admission (queue d) src opts in
  let d := on_queue (fun _ => q) d in
  match s_write_secret shelf id secret with
  | Ok r =>
      let d := on_queue (fun q => set_pending (update_first (fun p => pa_job_id p =? id) (put_secret_ref r) (pending_admissions q)) q) d in
      let* d := saved d in io_ret (d, R_Reserved (Ok id))
  | Err e => io_ret (on_queue (fun q => fst (cancel_torrent_admission q id)) d, R_Reserved (Err e))
  end.

Definition on_commit (job : JobId) (c : TorrentAdmissionCommit) (d : Desk) : io (Desk * Reply) :=
  let '(q, r) := commit_torrent_admission (queue d) commands_now job c in
  let d := on_queue (fun _ => q) d in
  match r with
  | Some _ => let* d := saved d in io_ret (d, R_Committed r)
  | None => io_ret (d, R_Committed None)
  end.

Definition needs_ownership : StateError :=
  SE_Corrupt (lit "torrent admission cancellation requires durable queue ownership").

Definition on_cancel (job : JobId) (d : Desk) : io (Desk * Reply) :=
  let before := pending_admissions (queue d) in
  let '(q, removed) := cancel_torrent_admission (queue d) job in
  let d := on_queue (fun _ => q) d in
  if negb removed then io_ret (d, R_Cancelled (Ok false))
  else
    let* (d, r) := save_result lane_of d in
    match r with
    | Ok true =>
        io_ret (d, R_Cancelled (match s_remove_secret shelf job with Ok _ => Ok true | Err e => Err e end))
    | Ok false => io_ret (on_queue (set_pending before) d, R_Cancelled (Err needs_ownership))
    | Err e =>
        io_ret (on_owner (on_snapshot_save_error e) (on_queue (set_pending before) d), R_Cancelled (Err e))
    end.

(** *** Additions *)

(** [name_from_requestor]: the new name, when the job's own is open. *)
Definition name_from_requestor (job : JobId) (storage_too : bool) (d : Desk) : io (Desk * option str) :=
  match find_job (queue d) job with
  | None => io_ret (d, None)
  | Some j =>
      let* is_open := of_run (name_is_open j) in
      if negb is_open then io_ret (d, None)
      else
        let* better := of_run (requestor_name j) in
        match better with
        | None => io_ret (d, None)
        | Some nm => io_ret (on_queue (fun q => set_job_name q job nm storage_too true) d, Some nm)
        end
  end.

Definition asked_for (dup : option DupeInfo) (st : option JobStatus) (ps : list (str * str)) (j : Job) : Job :=
  let j := match dup with Some x => set_dupe x j | None => j end in
  let j := match st with Some s => set_status s j | None => j end in
  set_params (params j ++ ps) j.

Definition avoid_dir (id : JobId) (j : Job) : Job :=
  let base := job_dir_name j in
  if bool_decide (base ∈ s_entries shelf)
  then set_dir_name (free_dir (s_entries shelf) base id (length (s_entries shelf)) 0) j
  else j.

Definition on_add_parsed (nm : str) (parsed : ParsedNzb) (cat : option str) (prio : Z) (dup : option DupeInfo)
    (start_paused : bool) (ps : list (str * str)) (d : Desk) : io (Desk * Reply) :=
  let '(q, id) := admit_nzb (s_to_lowercase shelf) (queue d) commands_now nm parsed cat prio (s_pause_extra_pars shelf) in
  let d := edit_job id (asked_for dup (if start_paused then Some JS_Paused else None) ps) (on_queue (fun _ => q) d) in
  let* (d, better) := name_from_requestor id true d in
  let nm := default nm better in
  let d := edit_job id (avoid_dir id) d in
  let '(o, allocated) := ensure_allocation (desk_env d) (d_owner d) id in
  let d := with_owner o d in
  if negb allocated then
    io_ret (on_queue (fun q => set_jobs (List.filter (fun j => negb (job_id j =? id)) (jobs q)) q) d,
            R_Added (Err (SE_Corrupt (lit "payload allocation"))))
  else
    let* d := saved d in
    io_ret (raise (E_JobAdded id nm) d, R_Added (Ok id)).

Definition fetching_url (url : str) (j : Job) : bool :=
  bool_decide (status j = JS_Fetching) && existsb (fun '(k, v) => bool_decide (k = URL_PARAM) && bool_decide (v = url)) (params j).

Definition ADD_PAUSED_PARAM : str := lit "*AddPaused".

Definition on_add_url (nm url : str) (cat : option str) (prio : Z) (dup : option DupeInfo) (start_paused : bool)
    (ps : list (str * str)) (d : Desk) : io (Desk * Reply) :=
  match find (fetching_url url) (jobs (queue d)) with
  | Some j =>
      let* d := match ps with
                | [] => io_ret d
                | _ :: _ => saved (edit_job (job_id j) (fun j => set_params (fold_left set_param ps (params j)) j) d)
                end in
      io_ret (d, R_Url (job_id j) false)
  | None =>
      let '(q, id) := admit_url (queue d) commands_now nm url cat prio in
      let hold := if start_paused then [(ADD_PAUSED_PARAM, lit "yes")] else [] in
      let d := edit_job id (asked_for dup None (hold ++ ps)) (on_queue (fun _ => q) d) in
      let* (d, better) := name_from_requestor id true d in
      let* d := saved d in
      io_ret (raise (E_JobAdded id (default nm better)) d, R_Url id true)
  end.

Definition is_add_paused (kv : str * str) : bool := bool_decide (fst kv = ADD_PAUSED_PARAM).

Definition apply_add_paused (j : Job) : Job :=
  if existsb is_add_paused (params j) then set_status JS_Paused (set_params (remove_first is_add_paused (params j)) j) else j.

Definition on_complete_url_fetch (job : JobId) (parsed : ParsedNzb) (d : Desk) : io (Desk * Reply) :=
  let* (q, ok) := of_run (complete_url_fetch (s_to_lowercase shelf) (queue d) job parsed (s_pause_extra_pars shelf)) in
  let d := on_queue (fun _ => q) d in
  if negb ok then io_ret (d, R_Bool false)
  else
    let* (d, _) := name_from_requestor job true (edit_job job apply_add_paused d) in
    let* d := saved d in
    io_ret (raise (E_UrlFetchResolved job) d, R_Bool true).

Definition on_fail_url_fetch (job : JobId) (d : Desk) : io (Desk * Reply) :=
  match find_job (queue d) job with
  | Some j =>
      if bool_decide (status j = JS_Fetching) then
        let* d := saved (edit_job job (set_status JS_Failed) d) in
        io_ret (raise (E_UrlFetchResolved job) (raise (E_JobFinished job (name j) JS_Failed 0) d), R_None)
      else io_ret (d, R_None)
  | None => io_ret (d, R_None)
  end.

(** *** Files of a job *)

Definition checked (job : JobId) (d : Desk) : io Desk := lift (fun o => check_job_complete (desk_env d) o job) d.

Definition on_set_file_paused (job : JobId) (file : FileId) (p : bool) (d : Desk) : io (Desk * Reply) :=
  let recovery_allows :=
    match o_post_fetch (d_owner d) !! job with Some allowed => p || bool_decide (file ∈ allowed) | None => true end in
  if negb (recovery_allows && bool_decide (is_Some (find_file (queue d) job file))) then io_ret (d, R_Bool false)
  else
    let d := on_queue (fun q => update_job (update_file q job file (set_file_paused p)) job recompute_job_totals) d in
    let* d := checked job (dirty d) in
    io_ret (d, R_Bool true).

Definition without_file (file : FileId) (j : Job) : Job :=
  recompute_job_totals (set_files (List.filter (fun f => negb (file_id f =? file)) (files j)) j).

Definition on_delete_file (job : JobId) (file : FileId) (d : Desk) : io (Desk * Reply) :=
  match find_job (queue d) job with
  | Some j =>
      if existsb (fun f => file_id f =? file) (files j) then
        let d := dirty (edit_job job (without_file file) d) in
        let d := on_owner (fun o =>
          with_post_fetch (alter (fun allowed : gset FileId => allowed ∖ {[file]}) job (o_post_fetch o))
            (with_writers (o_writers o ∖ {[file]}) o)) d in
        let* d := checked job d in
        io_ret (d, R_Bool true)
      else io_ret (d, R_Bool false)
  | None => io_ret (d, R_Bool false)
  end.

(** *** Controls *)

Definition live_status (st : JobStatus) : bool := match st with JS_Queued | JS_Downloading => true | _ => false end.

Definition has_torrent (j : Job) : bool := is_torrent_kind j && bool_decide (is_Some (torrent j)).

Definition replied (m : io (Desk * bool)) : io (Desk * Reply) := let* (d, ok) := m in io_ret (d, R_Bool ok).

Definition on_pause (job : JobId) (d : Desk) : io (Desk * Reply) :=
  match find_job (queue d) job with
  | Some j =>
      if live_status (status j) then
        if has_torrent j then
          replied (attempt job (fun j => set_status JS_Paused (put_torrent (intend_pause Manual) j))
                     (persist_then_command lane_of (BC_Pause job)) d)
        else io_ret (dirty (edit_job job (set_status JS_Paused) d), R_Bool true)
      else io_ret (d, R_Bool false)
  | None => io_ret (d, R_Bool false)
  end.

Definition seed_is_over (j : Job) : bool :=
  match torrent j with
  | Some t =>
      (bool_decide (phase t = Seeding) || bool_decide (phase t = PausedSeed))
      && bool_decide (is_Some (torrent_ready_at_unix t)) && seed_policy_reached t
  | None => false
  end.

Definition on_resume (job : JobId) (d : Desk) : io (Desk * Reply) :=
  if bool_decide (job ∈ o_retiring (d_owner d)) then io_ret (d, R_Bool false)
  else
    match find_job (queue d) job with
    | None => io_ret (d, R_Bool false)
    | Some j =>
        if seed_is_over j then io_ret (d, R_Bool false)
        else if negb (bool_decide (status j = JS_Paused)) then io_ret (d, R_Bool false)
        else if has_torrent j then
          replied (attempt job (fun j => set_status JS_Queued (put_torrent (intend_run commands_now) j)) (persisted lane_of) d)
        else io_ret (dirty (edit_job job (set_status JS_Queued) d), R_Bool true)
    end.

Definition in_post (st : JobStatus) : bool := match st with JS_Post _ | JS_PostQueued => true | _ => false end.

(** The writers that are stopped are handed to the caller, who waits for them. *)
Definition on_quiesce (job : JobId) (d : Desk) : io (Desk * Reply) :=
  if bool_decide (is_Some (o_delegated (d_owner d) !! job)) then
    io_ret (d, R_Quiesced (Err (lit "remote writer lease must be retired before payload deletion")))
  else
    match find_job (queue d) job with
    | None => io_ret (d, R_Quiesced (Err (lit "job not found")))
    | Some j =>
        if bool_decide (is_Some (torrent j)) || in_post (status j) then
          io_ret (d, R_Quiesced (Err (lit "post-processing or torrent ownership must quiesce before deletion")))
        else if negb (l_prepare_forget lane_of job) then io_ret (d, R_Quiesced (Err (lit "payload inventory")))
        else
          let d := edit_job job (set_status JS_Paused) d in
          let d := on_owner (fun o =>
            let o := with_retiring ({[job]} ∪ o_retiring o) (with_allocated (o_allocated o ∖ {[job]}) o) in
            let o := fold_left (fun o f => with_writers (o_writers o ∖ {[file_id f]}) o) (files j) o in
            let o := with_attempts (filter (fun '((k, _, _), _) => k <> job) (o_attempts o)) o in
            with_pending_finalize (List.filter (fun '(k, _) => negb (k =? job)) (o_pending_finalize o)) o) d in
          let* d := saved d in
          io_ret (d, R_Quiesced (Ok tt))
    end.

Definition on_delete (job : JobId) (delete_files : bool) (d : Desk) : io (Desk * Reply) :=
  match find_job (queue d) job ≫= torrent with
  | Some t =>
      replied (attempt job (put_torrent (intend_removal delete_files))
        (persist_then_command lane_of (BC_Remove job delete_files (content_path t) (torrent_files t) (l_payload_roots lane_of))) d)
  | None => replied (delete_job lane_of job delete_files d)
  end.

Definition on_set_priority (job : JobId) (p : Z) (d : Desk) : io (Desk * Reply) :=
  match find_job (queue d) job with
  | Some j =>
      if is_torrent_kind j && negb (priority j =? p)
      then replied (attempt job (set_priority p) (persist_then_command lane_of (BC_SetPriority job p)) d)
      else io_ret (dirty (edit_job job (set_priority p) d), R_Bool true)
  | None => io_ret (d, R_Bool false)
  end.

Definition on_set_category (job : JobId) (cat : option str) (d : Desk) : io (Desk * Reply) :=
  match find_job (queue d) job with
  | Some _ => let* d := saved (edit_job job (fun j => set_asked cat (params j) j) d) in io_ret (d, R_Bool true)
  | None => io_ret (d, R_Bool false)
  end.

Definition bad_policy (p : SeedPolicy) : bool :=
  match ratio_limit p with Some v => negb (f64_is_finite v) || f64_le v f64_zero | None => false end
  || match time_limit_secs p with Some s => s =? 0 | None => false end.

Definition on_set_seed_policy (job : JobId) (p : SeedPolicy) (d : Desk) : io (Desk * Reply) :=
  if bad_policy p then io_ret (d, R_Bool false)
  else
    match find_job (queue d) job ≫= torrent with
    | None => io_ret (d, R_Bool false)
    | Some _ =>
        let* (d, ok) := attempt job (put_torrent (with_policy p)) (persisted lane_of) d in
        if ok then let* (d, _) := update_seed_policies lane_of d in io_ret (d, R_Bool true)
        else io_ret (d, R_Bool false)
    end.

Definition on_move (job : JobId) (op : MoveOp) (d : Desk) : Desk * Reply :=
  match move_jobs (jobs (queue d)) job op with
  | None => (d, R_Bool false)
  | Some js =>
      let moved := match index_where (fun j => job_id j =? job) (jobs (queue d)) with
                   | Some idx => negb (move_target op idx (length (jobs (queue d)) - 1) =? idx)%nat
                   | None => false
                   end in
      let d := on_queue (set_jobs js) d in
      (if moved then dirty d else d, R_Bool true)
  end.

(** *** The queue's own settings *)

Definition set_download_paused (b : bool) (q : QueueState) : QueueState := {|
  jobs := jobs q; pending_admissions := pending_admissions q; next_job_id := next_job_id q; next_file_id := next_file_id q;
  download_paused := b; speed_limit_bps := speed_limit_bps q; max_active_downloads := max_active_downloads q |}.

Definition set_speed_limit (l : option Z) (q : QueueState) : QueueState := {|
  jobs := jobs q; pending_admissions := pending_admissions q; next_job_id := next_job_id q; next_file_id := next_file_id q;
  download_paused := download_paused q; speed_limit_bps := l; max_active_downloads := max_active_downloads q |}.

Definition set_max_active (n : Z) (q : QueueState) : QueueState := {|
  jobs := jobs q; pending_admissions := pending_admissions q; next_job_id := next_job_id q; next_file_id := next_file_id q;
  download_paused := download_paused q; speed_limit_bps := speed_limit_bps q; max_active_downloads := n |}.

Definition on_pause_all (src : str) (d : Desk) : Desk :=
  raise (E_QueuePauseChanged true src) (dirty (on_queue (set_download_paused true) d)).

Definition clear_enospc_latch (o : Owner) : Owner :=
  if o_enospc_latched o then update_disk_guard (l_env lane_of) (with_disk_low false (with_enospc_latched false o)) else o.

Definition on_resume_all (src : str) (d : Desk) : Desk :=
  let d := on_owner clear_enospc_latch (on_queue (set_download_paused false) d) in
  raise (E_QueuePauseChanged false src) (dirty d).

Definition on_set_speed_limit (l : option Z) (d : Desk) : Desk :=
  let d := with_limits None None (d_limiter d) (on_queue (set_speed_limit l) d) in
  raise (E_SpeedLimitChanged l) (dirty (rebalance_download_budget lane_of (s_rate shelf) d)).

Definition on_set_max_active (n : Z) (d : Desk) : Desk * Reply :=
  let n := clamp_active_downloads n in
  let d := dirty (on_queue (set_max_active n) d) in
  let d := on_owner (fun o => settle_download_labels (desk_env d) o) d in
  (raise (E_MaxActiveDownloadsChanged n) d, R_Count n).

(** *** Jobs of other nodes *)

Definition unlease_file (f : FileEntry) : FileEntry := set_segments (map unlease (segments f)) f.

Definition from_the_wire (j : Job) : Job :=
  let j := set_files (map unlease_file (files j)) j in
  match status j with JS_Downloading => set_status JS_Queued j | _ => j end.

Definition terminal_status (st : JobStatus) : bool :=
  match st with JS_Completed | JS_Failed | JS_Deleted => true | _ => false end.

Definition is_normal (c : Component) : bool := match c with Normal _ => true | _ => false end.

(** Whether the granted payload could be put into the inventory; the directory of
    a live job loses the local allocation on the way. *)
Definition take_payload (j : Job) (o : Owner) : Owner * bool :=
  let dir := job_dir_name j in
  let untyped := bool_decide (torrent j = None) in
  let '(o, ok) :=
    if untyped && negb (terminal_status (status j)) then
      if negb (forallb is_normal (components dir)) || negb (s_create_dir shelf dir) then (o, false)
      else (with_allocated (o_allocated o ∖ {[job_id j]}) o, s_register shelf (job_id j) dir)
    else (o, true) in
  if ok && untyped && negb (s_inventoried shelf (job_id j)) && s_is_dir shelf dir && negb (s_register shelf (job_id j) dir)
  then (o, false) else (o, ok).

Definition max_list (l : list Z) : Z := fold_left Z.max l 0.

Definition remove_job_silent (job : JobId) (d : Desk) : Desk * bool :=
  match find_job (queue d) job with
  | None => (d, false)
  | Some j => (forget job j d, true)
  end.

(** One record of [fold_job_journals]: the state, the files it touched and
    whether it applied. *)
Definition fold_journal_record (job : JobId) (acc : Owner * list FileId) (rec : JournalRecord) : Owner * list FileId :=
  let '(o, touched) := acc in
  if negb (jr_job rec =? job) then (o, touched)
  else
    let r := record_ref rec in
    let o := if 0 <? jr_file_size rec then with_file_sizes (<[jr_file rec := jr_file_size rec]> (o_file_sizes o)) o else o in
    match seg_at (o_state o) r with
    | None => (o, touched)
    | Some s =>
        if is_done (state s) then (o, touched)
        else
          let o := with_state (update_segment (o_state o) r (set_seg_state (Done (jr_offset rec) (jr_len rec) (jr_crc32 rec)))) o in
          let o := with_attempts (delete (jr_job rec, jr_file rec, jr_segment_number rec) (o_attempts o)) o in
          (o, if bool_decide (jr_file rec ∈ touched) then touched else touched ++ [jr_file rec])
    end.

Fixpoint after_files (env : Env) (job : JobId) (fs : list FileId) (o : Owner) : io Owner :=
  match fs with
  | [] => io_ret o
  | f :: fs' => let* o := after_file_change env o job f in after_files env job fs' o
  end.

(** The code visits the touched files in the order of a hash set; here in the
    order of their first record. *)
Definition fold_job_journals (env : Env) (job : JobId) (o : Owner) : io Owner :=
  let* r := io_try (replay_job job) in
  match r with
  | Err _ => io_ret o
  | Ok recs =>
      let '(o, touched) := fold_left (fold_journal_record job) recs (o, []) in
      match touched with
      | [] => io_ret o
      | _ :: _ => after_files env job touched (recompute job o)
      end
  end.

Definition set_next_ids (j f : Z) (q : QueueState) : QueueState := set_next_file_id f (set_next_job_id j q).

Definition import_job (j : Job) (fold_journals emit_finished : bool) (d : Desk) : io (Desk * bool) :=
  let j := from_the_wire j in
  let '(o, ok) := take_payload j (d_owner d) in
  let d := with_owner o d in
  if negb ok then io_ret (d, false)
  else
    let id := job_id j in
    let d := on_queue (fun q => set_next_ids (Z.max (next_job_id q) id)
                                  (Z.max (next_file_id q) (max_list (map file_id (files j)))) q) d in
    let '(d, _) := remove_job_silent id d in
    let d := on_queue (fun q => update_job (set_jobs (jobs q ++ [j]) q) id recompute_job_totals) d in
    let d := with_mirror (delete id (d_mirror d)) (on_owner (fun o => with_delegated (delete id (o_delegated o)) o) d) in
    let* d := if fold_journals then lift (fold_job_journals (desk_env d) id) d else io_ret d in
    let d := on_owner (fun o =>
      with_post_fetch (partial_alter (fun _ => find_job (o_state o) id ≫= recovered_post_fetch_files) id (o_post_fetch o)) o) d in
    let d := dirty d in
    let* (d, committed) := if o_persist (d_owner d) then save lane_of d else io_ret (d, false) in
    let d := if terminal_status (status j) && emit_finished
             then raise (E_JobFinished id (name j) (status j) (calc (totals j))) d else d in
    io_ret (d, committed).

Definition restore_entry {A} (id : JobId) (o : option A) (m : gmap JobId A) : gmap JobId A := partial_alter (fun _ => o) id m.

Definition on_import_if_present (j : Job) (d : Desk) : io (Desk * Reply) :=
  let id := job_id j in
  let previous := find_job (queue d) id in
  let previous_delegated := o_delegated (d_owner d) !! id in
  let previous_mirror := d_mirror d !! id in
  let previous_post_fetch := o_post_fetch (d_owner d) !! id in
  let* (d, committed) :=
    match previous with Some _ => import_job j false false d | None => io_ret (d, false) end in
  if committed then io_ret (d, R_Bool true)
  else
    let '(d, _) := remove_job_silent id d in
    let d := match previous with Some p => on_queue (fun q => set_jobs (jobs q ++ [p]) q) d | None => d end in
    let d := on_owner (fun o =>
      with_post_fetch (restore_entry id previous_post_fetch (o_post_fetch o))
        (with_delegated (restore_entry id previous_delegated (o_delegated o)) o)) d in
    io_ret (with_mirror (restore_entry id previous_mirror (d_mirror d)) d, R_Bool false).

Definition on_set_delegated (job : JobId) (node : option str) (d : Desk) : Desk * Reply :=
  match find_job (queue d) job with
  | None => (d, R_Bool false)
  | Some _ =>
      let d :=
        match node with
        | Some n => on_owner (fun o => with_delegated (<[job := n]> (o_delegated o)) o) d
        | None =>
            with_mirror (delete job (d_mirror d))
              (on_owner (fun o => with_post_fetch (delete job (o_post_fetch o)) (with_delegated (delete job (o_delegated o)) o)) d)
        end in
      (raise (E_JobAssigned job node) d, R_Bool true)
  end.

Definition on_mirror_progress (job : JobId) (stats : MirrorStats) (d : Desk) : Desk :=
  if bool_decide (is_Some (o_delegated (d_owner d) !! job)) then with_mirror (<[job := stats]> (d_mirror d)) d else d.

(** *** Connection allowances *)

(** [publish_conn_budgets]: the smaller of what the cluster grants and what the
    operator asked for, where both have an opinion. *)
Definition effective_allowances (cluster user : gmap ServerId Z) : gmap ServerId Z :=
  union_with (fun c u => Some (Z.min c u)) cluster user.

Definition publish_conn_budgets (d : Desk) : Desk :=
  with_budgets (d_cluster_budgets d) (d_user_caps d) (sat_add64 (d_generation d) 1)
    (effective_allowances (d_cluster_budgets d) (d_user_caps d)) d.

Definition on_set_budgets (budgets : gmap ServerId Z) (d : Desk) : Desk * Reply :=
  let d := publish_conn_budgets (with_budgets budgets (d_user_caps d) (d_generation d) (d_allowances d) d) in
  (d, R_Budgets (d_generation d) (d_allowances d)).

Definition clamp_cap (servers : list ServerDef) (acc : gmap ServerId Z) (cap : ServerId * Z) : gmap ServerId Z :=
  let '(id, want) := cap in
  let ceiling := match find (fun s => server_id s =? id) servers with Some s => max_connections s | None => 0 end in
  if ceiling =? 0 then acc else <[id := clamp 1 ceiling want]> acc.

Definition on_set_caps (caps : list (ServerId * Z)) (d : Desk) : Desk * Reply :=
  let applied := fold_left (clamp_cap (e_servers (l_env lane_of))) caps ∅ in
  (publish_conn_budgets (with_budgets (d_cluster_budgets d) applied (d_generation d) (d_allowances d) d), R_Caps applied).

(** *** Authority *)

Definition to_finalize (j : Job) : list (JobId * FileId) :=
  map (fun f => (job_id j, file_id f)) (List.filter (fun f => is_terminal f && has_any_done f && negb (finalized f)) (files j)).

Fixpoint check_all (env : Env) (l : list JobId) (o : Owner) : io Owner :=
  match l with
  | [] => io_ret o
  | job :: l' => let* o := check_job_complete env o job in check_all env l' o
  end.

Definition startup_pass (env : Env) (o : Owner) : io Owner :=
  let live := List.filter (fun j => live_status (status j)) (jobs (o_state o)) in
  let o' := fold_left (fun o '(j, f) => send_finalize env o j f) (concat (map to_finalize live)) o in
  check_all env (map job_id live) o'.

Fixpoint fold_journals_of (env : Env) (l : list JobId) (o : Owner) : io Owner :=
  match l with
  | [] => io_ret o
  | job :: l' => let* o := fold_job_journals env job o in fold_journals_of env l' o
  end.

(** The snapshot's jobs that are not here already, in its order. *)
Definition push_missing (q : QueueState) (j : Job) : QueueState :=
  match find_job q (job_id j) with Some _ => q | None => set_jobs (jobs q ++ [j]) q end.

Definition merge_snapshot (s : QueueState) (d : Desk) : Desk :=
  let d := on_queue (fun q => set_download_paused (download_paused s)
                       (set_next_ids (Z.max (next_job_id q) (next_job_id s)) (Z.max (next_file_id q) (next_file_id s)) q)) d in
  let d :=
    match speed_limit_bps (queue d) with
    | Some _ => d
    | None => with_limits (d_applied_usenet d) (d_applied_torrent d) (speed_limit_bps s) (on_queue (set_speed_limit (speed_limit_bps s)) d)
    end in
  on_queue (fun q => fold_left push_missing (jobs s) q) d.

(** The shared snapshot, merged, or why it cannot be adopted. *)
Definition adopt_snapshot (d : Desk) : io (Desk * result unit StateError) :=
  let refused (e : StateError) := io_ret (on_owner (with_persist false) d, Err e) in
  let* r := io_try load in
  match r with
  | Err e => refused e
  | Ok None => io_ret (d, Ok tt)
  | Ok (Some doc) =>
      let* s := of_run (from_runtime_doc commands_now doc) in
      match s with
      | Err e => refused (SE_Corrupt e)
      | Ok s => io_ret (merge_snapshot s d, Ok tt)
      end
  end.

Definition adopt_authority (d : Desk) : io (Desk * result unit StateError) :=
  let* (d, r) := adopt_snapshot d in
  match r with
  | Err e => io_ret (d, Err e)
  | Ok _ =>
      let d := on_owner (with_persist true) d in
      let* d := lift (fold_journals_of (desk_env d) (map job_id (jobs (queue d)))) d in
      let d := on_queue recompute_all_totals d in
      let* d := lift (startup_pass (desk_env d)) d in
      let* d := saved d in
      io_ret (d, Ok tt)
  end.

Definition on_adopt_replicated (js : list Job) (d : Desk) : io (Desk * Reply) :=
  let d := on_queue (fun q => recompute_all_totals
             (set_next_ids (max_list (map job_id js)) (max_list (concat (map job_file_ids js)))
                (set_pending [] (set_jobs js q)))) d in
  let* d := saved (dirty d) in
  io_ret (d, R_None).

(** *** Post-processing *)

Definition on_set_job_status (job : JobId) (st : JobStatus) (d : Desk) : io (Desk * Reply) :=
  if bool_decide (job ∈ o_retiring (d_owner d)) then io_ret (d, R_Bool false)
  else
    match find_job (queue d) job with
    | None => io_ret (d, R_Bool false)
    | Some _ =>
        let d := dirty (edit_job job (set_status st) d) in
        let* d := if o_persist (d_owner d) && terminal_status st then saved d else io_ret d in
        io_ret (d, R_Bool true)
    end.

Definition enter_stage (st : PostStage) (at_unix : Z) (prev_ms : option Z) (j : Job) : Job :=
  let j := close_span prev_ms at_unix j in
  set_status (JS_Post st) (set_stages (stages j ++ [{| stage := st; started_at_unix := at_unix; span_ms := None |}]) j).

Definition on_enter_post_stage (job : JobId) (st : PostStage) (at_unix : Z) (prev_ms : option Z) (d : Desk) : Desk * Reply :=
  match find_job (queue d) job with
  | None => (d, R_Bool false)
  | Some _ => (dirty (edit_job job (enter_stage st at_unix prev_ms) d), R_Bool true)
  end.

Definition on_close_post_stage (job : JobId) (at_unix : Z) (ms : option Z) (d : Desk) : Desk :=
  match find_job (queue d) job with
  | None => d
  | Some _ => dirty (edit_job job (close_span ms at_unix) d)
  end.

(** *** Delayed recovery volumes *)

Definition after_download (st : JobStatus) : bool :=
  match st with JS_Completed | JS_PostQueued | JS_Post _ => true | _ => false end.

(** What to unpause: the priced candidates that cover the need, or the smallest
    volume when none could be priced. *)
Definition chosen_pars (j : Job) (blocks_wanted : Z) (block_size : option Z) : list ParCandidate * option FileId :=
  match fst (price_paused_pars j block_size) with
  | [] => ([], smallest_paused_par j)
  | priced =>
      let ids := pick_par_files (map (fun c => (pc_id c, blocks c)) priced) (Z.max blocks_wanted 1) in
      (List.filter (fun c => bool_decide (pc_id c ∈ ids)) priced, None)
  end.

Definition unpause_files (ids : list FileId) (j : Job) : Job :=
  set_files (fold_left (fun fs id => update_first (fun f => file_id f =? id) (set_file_paused false) fs) ids (files j)) j.

Definition unpause_par_blocks (job : JobId) (blocks_wanted : Z) (block_size : option Z) (d : Desk) : Desk * Z :=
  match find_job (queue d) job with
  | None => (d, 0)
  | Some j =>
      match paused_pars j with
      | [] => (d, 0)
      | _ :: _ =>
          let '(cs, last_resort) := chosen_pars j blocks_wanted block_size in
          let freed := fold_left (fun n c => wrap32 (n + blocks c)) cs 0 in
          let freed := match last_resort with Some _ => Z.max freed 1 | None => freed end in
          let ids := map pc_id cs ++ match last_resort with Some id => [id] | None => [] end in
          let d := edit_job job (unpause_files ids) d in
          if 0 <? freed then
            let d := edit_job job (fun j => if after_download (status j) then set_status JS_Queued j else j) d in
            let d := edit_job job recompute_job_totals d in
            let d := on_owner (fun o =>
              with_post_fetch (<[job := list_to_set ids ∪ default ∅ (o_post_fetch o !! job)]> (o_post_fetch o)) o) d in
            (dirty d, freed)
          else (d, freed)
      end
  end.

Definition on_retain (keep : list JobId) (d : Desk) : Desk :=
  let d := on_owner (with_persist false) d in
  let gone := List.filter (fun id => negb (bool_decide (id ∈ keep))) (map job_id (jobs (queue d))) in
  let d := fold_left (fun d id => fst (remove_job_silent id d)) gone d in
  with_mirror ∅ (on_owner (fun o => with_post_fetch ∅ (with_delegated ∅ o)) d).

(** *** Dispatch *)

Definition pure_reply (r : Desk * Reply) : io (Desk * Reply) := io_ret r.
Definition no_reply (d : Desk) : io (Desk * Reply) := io_ret (d, R_None).

Definition on_command (d : Desk) (c : QueueCommand) : io (Desk * Reply) :=
  match c with
  | ReserveTorrentAdmission src secret opts => on_reserve src secret opts d
  | CommitTorrentAdmission job commit => on_commit job commit d
  | CancelTorrentAdmission job => on_cancel job d
  | AddParsed nm parsed cat prio dup start_paused ps => on_add_parsed nm parsed cat prio dup start_paused ps d
  | AddUrl nm url cat prio dup start_paused ps => on_add_url nm url cat prio dup start_paused ps d
  | CompleteUrlFetch job parsed => on_complete_url_fetch job parsed d
  | FailUrlFetch job => on_fail_url_fetch job d
  | SetFilePaused job file p => on_set_file_paused job file p d
  | DeleteFile job file => on_delete_file job file d
  | Pause job => on_pause job d
  | Resume job => on_resume job d
  | QuiescePayload job => on_quiesce job d
  | Delete job delete_files => on_delete job delete_files d
  | SetPriority job prio => on_set_priority job prio d
  | SetCategory job cat => on_set_category job cat d
  | SetTorrentSeedPolicy job policy => on_set_seed_policy job policy d
  | Move job op => pure_reply (on_move job op d)
  | PauseAll src => no_reply (on_pause_all src d)
  | ResumeAll src => no_reply (on_resume_all src d)
  | SetSpeedLimit l => no_reply (on_set_speed_limit l d)
  | SetTorrentUploadLimit l => no_reply (fst (enqueue lane_of (BC_SetUploadLimit l) d))
  | SetMaxActiveDownloads n => pure_reply (on_set_max_active n d)
  | ImportJob j folds finished => let* (d, _) := import_job j folds finished d in io_ret (d, R_None)
  | ImportJobIfPresent j => on_import_if_present j d
  | ExportJob job => io_ret (d, R_Job (find_job (queue d) job))
  | RemoveJobSilent job => let '(d, ok) := remove_job_silent job d in io_ret (d, R_Bool ok)
  | SetDelegated job node => pure_reply (on_set_delegated job node d)
  | MirrorProgress job stats => no_reply (on_mirror_progress job stats d)
  | FoldJobJournals job => let* d := lift (fold_job_journals (desk_env d) job) d in io_ret (d, R_None)
  | SetServerBudgets budgets => pure_reply (on_set_budgets budgets d)
  | SetDownloadEnabled enabled => no_reply (with_enabled enabled d)
  | SetServerConnectionCaps caps => pure_reply (on_set_caps caps d)
  | AdoptAuthority => let* (d, r) := adopt_authority d in io_ret (d, R_Adopted r)
  | AdoptReplicatedAuthority js => on_adopt_replicated js d
  | SetJobStatus job st => on_set_job_status job st d
  | EnterPostStage job st at_unix prev_ms => pure_reply (on_enter_post_stage job st at_unix prev_ms d)
  | ClosePostStage job at_unix ms => no_reply (on_close_post_stage job at_unix ms d)
  | UnpauseParBlocks job n size => let '(d, freed) := unpause_par_blocks job n size d in io_ret (d, R_Count freed)
  | RetainJobs keep => no_reply (on_retain keep d)
  end.

End Commands.

(** ** A concrete shelf *)

Definition sample_shelf : Shelf := {|
  s_lane := sample_lane; s_pause_extra_pars := true; s_to_lowercase := to_ascii_lowercase; s_rate := 0;
  s_write_secret := fun _ _ => Ok (lit "secret"); s_remove_secret := fun _ => Ok tt; s_entries := [lit "Show"];
  s_create_dir := fun _ => true; s_is_dir := fun _ => false; s_inventoried := fun _ => false; s_register := fun _ _ => true |}.
