(* ===== verification/Accounts.v ===== *)
(** * What every command keeps

    Whatever commands the owner runs, job ids stay unique and below the counter
    and the totals of every job stay an exact recount of its segments. *)

From S2P Require Import Prelude RustStr Crc32 Types Failover Volumes Nzb JobNames Queue Selection ParSelect Fs Codec Store Owner OwnerInv Leases Float Torrents History Desk Commands.

#[local] Unset Default Proof Using.

(** ** The accounts *)

Record ids_ok (q : QueueState) : Prop := {
  io_unique : NoDup (map job_id (jobs q));
  io_bound : Forall (fun id => id <= next_job_id q) (all_ids q)
}.

Definition accounted (q : QueueState) : Prop := ids_ok q /\ totals_ok q.

Lemma bound_app q : Forall (fun id => id <= next_job_id q) (all_ids q) <->
  Forall (fun j => job_id j <= next_job_id q) (jobs q) /\
  Forall (fun p => pa_job_id p <= next_job_id q) (pending_admissions q).
Proof. unfold all_ids. by rewrite Forall_app, !Forall_fmap. Qed.

Lemma shape_ids q q' : shape q' = shape q -> map job_id (jobs q') = map job_id (jobs q).
Proof.
  unfold shape. intros H. apply (f_equal (map fst)) in H. rewrite !map_map in H. exact H.
Qed.

Lemma ids_ok_quiet q q' : quiet q q' -> ids_ok q -> ids_ok q'.
Proof.
  intros [Hc Hs _ _] [H1 H2]. injection Hc as E1 _ E3. pose proof (shape_ids _ _ Hs) as E.
  split; [by rewrite E|]. unfold all_ids in *. by rewrite E, E1, E3.
Qed.

Lemma accounted_quiet q q' : quiet q q' -> accounted q -> accounted q'.
Proof. intros Hq [H1 H2]. split; [by eapply ids_ok_quiet|by apply (qt_totals _ _ Hq)]. Qed.

Lemma update_ids (id : JobId) f l : (forall j, job_id j = id -> job_id (f j) = id) ->
  map job_id (update_first (fun j => job_id j =? id) f l) = map job_id l.
Proof.
  intros Hf. induction l as [|j l IH]; [done|]. simpl. destruct (job_id j =? id) eqn:E; simpl; [|by rewrite IH].
  apply Z.eqb_eq in E. by rewrite Hf, E.
Qed.

Lemma Forall_update_at {A} (P : A -> Prop) p f l : (forall x, p x = true -> P x -> P (f x)) ->
  Forall P l -> Forall P (update_first p f l).
Proof. intros Hf. induction 1 as [|x l Hx Hl IH]; simpl; [constructor|]. destruct (p x) eqn:E; constructor; auto. Qed.

Lemma ids_ok_update q id f : (forall j, job_id j = id -> job_id (f j) = id) -> ids_ok q -> ids_ok (update_job q id f).
Proof.
  intros Hf [H1 H2]. unfold update_job. split; unfold all_ids in *; cbn [set_jobs jobs pending_admissions next_job_id];
    by rewrite update_ids.
Qed.

(** An edit of one job, each of whose outcomes keeps the id and the totals. *)
Lemma accounted_update q id f :
  (forall j, job_id j = id -> job_id (f j) = id) -> (forall j, job_id j = id -> job_totals_ok j -> job_totals_ok (f j)) ->
  accounted q -> accounted (update_job q id f).
Proof.
  intros Hf Ht [H1 H2]. split; [by apply ids_ok_update|]. unfold totals_ok, update_job, set_jobs. cbn [jobs].
  apply Forall_update_at; [|done]. intros j E. apply Ht. by apply Z.eqb_eq.
Qed.

Lemma accounted_edit q id f : (forall j, job_id (f j) = job_id j) ->
  (forall j, files (f j) = files j) -> (forall j, totals (f j) = totals j) -> accounted q -> accounted (update_job q id f).
Proof. intros H1 H2 H3. apply accounted_quiet. by apply quiet_update_job. Qed.

Lemma accounted_recompute q id : ids_ok q -> (forall j, j ∈ jobs q -> job_id j <> id -> job_totals_ok j) ->
  accounted (update_job q id recompute_job_totals).
Proof.
  intros H1 H2. split; [by apply ids_ok_update|]. unfold totals_ok, update_job, set_jobs. cbn [jobs].
  destruct H1 as [H1 _]. induction (jobs q) as [|j l IH]; [constructor|]. apply NoDup_cons in H1 as [Hn H1].
  cbn [map update_first]. destruct (job_id j =? id) eqn:E.
  - constructor; [done|]. apply Forall_forall. intros x Hx. apply H2; [by right|]. apply Z.eqb_eq in E.
    intros Ex. apply Hn. rewrite E, <- Ex. apply list_elem_of_fmap. by exists x.
  - constructor; [apply H2; [left|by apply Z.eqb_neq]|]. apply IH; [done|]. intros x Hx. apply H2. by right.
Qed.

Lemma Forall_sublist {A} (P : A -> Prop) l l' : l `sublist_of` l' -> Forall P l' -> Forall P l.
Proof. rewrite !Forall_forall. intros Hs H x Hx. apply H. by eapply elem_of_sublist. Qed.

Lemma accounted_jobs q js : js `sublist_of` jobs q -> accounted q -> accounted (set_jobs js q).
Proof.
  intros Hs [[H1 H2] H3]. split.
  - split; cbn [set_jobs jobs]; [eapply sublist_NoDup; [exact H1|by apply fmap_sublist]|].
    apply bound_app. apply bound_app in H2 as [H2 H4]. split; [|done]. by eapply Forall_sublist.
  - by eapply Forall_sublist.
Qed.

Lemma remove_first_sublist {A} (p : A -> bool) l : remove_first p l `sublist_of` l.
Proof. induction l as [|x l IH]; [done|]. simpl. destruct (p x); [by apply sublist_cons|by apply sublist_skip]. Qed.

Lemma accounted_pending q ps : (forall p, p ∈ ps -> exists p', p' ∈ pending_admissions q /\ pa_job_id p' = pa_job_id p) ->
  accounted q -> accounted (set_pending ps q).
Proof.
  intros Hs [[H1 H2] H3]. split; [|done]. split; [done|]. apply bound_app. apply bound_app in H2 as [H2 H4].
  split; [done|]. cbn [set_pending pending_admissions next_job_id]. apply Forall_forall. intros p Hp.
  destruct (Hs p Hp) as (p' & Hp' & <-). by rewrite Forall_forall in H4; apply H4.
Qed.

Lemma ids_ok_push q j : ids_ok q -> job_id j ∉ map job_id (jobs q) -> job_id j <= next_job_id q ->
  ids_ok (set_jobs (jobs q ++ [j]) q).
Proof.
  intros [H1 H2] Hn Hb. split; cbn [set_jobs jobs].
  - rewrite map_app. apply NoDup_app. split_and!; [done| |apply NoDup_singleton].
    intros x Hx ->%list_elem_of_singleton. by apply Hn.
  - apply bound_app. apply bound_app in H2 as [H2 H4]. split; [|done]. apply Forall_app. by split; [|constructor].
Qed.

Lemma accounted_push q j : accounted q -> job_id j ∉ map job_id (jobs q) -> job_id j <= next_job_id q ->
  job_totals_ok j -> accounted (set_jobs (jobs q ++ [j]) q).
Proof.
  intros [H1 H2] Hn Hb Hj. split; [by apply ids_ok_push|]. apply Forall_app. by split; [|constructor].
Qed.

Lemma ids_ok_counters q n f : next_job_id q <= n -> ids_ok q -> ids_ok (set_next_ids n f q).
Proof.
  intros Hn [H1 H2]. split; [done|]. eapply Forall_impl; [exact H2|]. simpl. lia.
Qed.

Lemma accounted_counters q n f : next_job_id q <= n -> accounted q -> accounted (set_next_ids n f q).
Proof. intros Hn [H1 H2]. split; [by apply ids_ok_counters|done]. Qed.

Lemma fresh_id q : ids_ok q -> 0 <= next_job_id q < u32_max -> wrap32 (next_job_id q + 1) = next_job_id q + 1 /\
  next_job_id q + 1 ∉ map job_id (jobs q).
Proof.
  intros [_ H2] Hb. split; [unfold wrap32, u32_max in *; apply Z.mod_small; lia|].
  apply bound_app in H2 as [H2 _]. intros (j & E & Hj)%list_elem_of_fmap. rewrite Forall_forall in H2.
  specialize (H2 j Hj). simpl in H2. lia.
Qed.

(** ** The owner's own operations *)

Lemma ensures_leads (R : QueueState -> QueueState -> Prop) o (m : io Owner) :
  (forall fs w, fates w `suffix_of` fs -> leads (script fs) (fun _ => crashes fs) R o m w) ->
  ensures m (fun o' => R (o_state o) (o_state o')).
Proof.
  intros H w. specialize (H (fates w) w ltac:(reflexivity)). unfold leads, wp, inv, script, no_error in H.
  destruct (m w) as [[a|e|] w']; [done|done|by left].
Qed.

Section Quiet.
Context {jc : JournalCodec} {dc : DocCodec}.
Variable env : Env.

Lemma check_quiet o job : ensures (check_job_complete env o job) (fun o' => quiet (o_state o) (o_state o')).
Proof.
  apply ensures_leads. intros fs w Hw. apply check_job_complete_quiet; try done. intros o1 w1. apply script_save.
Qed.

Lemma after_change_quiet o job file : ensures (after_file_change env o job file) (fun o' => quiet (o_state o) (o_state o')).
Proof.
  apply ensures_leads. intros fs w Hw. apply after_file_change_quiet; try done. intros o1 w1. apply script_save.
Qed.

Lemma check_all_quiet l : forall o, ensures (check_all env l o) (fun o' => quiet (o_state o) (o_state o')).
Proof.
  induction l as [|job l IH]; intros o; simpl; [apply ensures_ret; reflexivity|]. eapply ensures_bind; [apply check_quiet|].
  intros o1 H1. eapply ensures_mono; [apply IH|]. intros o2 H2. etransitivity; [exact H1|exact H2].
Qed.

Lemma after_files_quiet job fs : forall o, ensures (after_files env job fs o) (fun o' => quiet (o_state o) (o_state o')).
Proof.
  induction fs as [|f fs IH]; intros o; simpl; [apply ensures_ret; reflexivity|]. eapply ensures_bind; [apply after_change_quiet|].
  intros o1 H1. eapply ensures_mono; [apply IH|]. intros o2 H2. etransitivity; [exact H1|exact H2].
Qed.

Lemma send_finalizes_state l : forall o, o_state (fold_left (fun o '(j, f) => send_finalize env o j f) l o) = o_state o.
Proof. induction l as [|[j f] l IH]; intros o; [done|]. simpl. rewrite IH. apply send_finalize_core. Qed.

Lemma startup_quiet o : ensures (startup_pass env o) (fun o' => quiet (o_state o) (o_state o')).
Proof.
  unfold startup_pass. eapply ensures_mono; [apply check_all_quiet|]. intros o2 H2. cbv beta in H2.
  by rewrite send_finalizes_state in H2.
Qed.

(** *** Folding a job's journals *)

Lemma recompute_idem q job : update_job (update_job q job recompute_job_totals) job recompute_job_totals =
  update_job q job recompute_job_totals.
Proof.
  unfold update_job, set_jobs. cbn [jobs pending_admissions next_job_id next_file_id download_paused speed_limit_bps max_active_downloads].
  f_equal. induction (jobs q) as [|j l IH]; [done|]. simpl. destruct (job_id j =? job) eqn:E; simpl; rewrite E; [done|by rewrite IH].
Qed.

(** While the records of [job] are folded, its ids stay and its totals are right
    up to a recount. *)
Record folding (job : JobId) (q q' : QueueState) : Prop := {
  fl_counters : counters q' = counters q;
  fl_ids : map job_id (jobs q') = map job_id (jobs q);
  fl_almost : almost_ok job q -> almost_ok job q'
}.

Lemma fold_journal_record_cases job o touched rec :
  let '(o1, t1) := fold_journal_record job (o, touched) rec in
  (o_state o1 = o_state o /\ t1 = touched) \/
  (t1 <> [] /\ exists g, (forall s, number (g s) = number s) /\ sr_job (record_ref rec) = job /\
     o_state o1 = update_segment (o_state o) (record_ref rec) g).
Proof.
  unfold fold_journal_record. destruct (jr_job rec =? job) eqn:Ej; cbn [negb]; [|by left]. apply Z.eqb_eq in Ej.
  set (o0 := if 0 <? jr_file_size rec then _ else _).
  assert (E0 : o_state o0 = o_state o) by (unfold o0; by case_if). rewrite E0.
  destruct (seg_at (o_state o) (record_ref rec)) as [s|]; [|by left].
  destruct (is_done (state s)); [by left|]. right. split; [case_bool_decide; [by destruct touched; [apply elem_of_nil in H|]|by destruct touched]|].
  eexists. split_and!; [|exact Ej|reflexivity]. done.
Qed.

Lemma fold_records_folding job recs : forall o touched,
  let '(o', touched') := fold_left (fold_journal_record job) recs (o, touched) in
  folding job (o_state o) (o_state o') /\ (touched' = [] -> touched = [] /\ o_state o' = o_state o).
Proof.
  induction recs as [|rec recs IH]; intros o touched; [by split|]. cbn [fold_left].
  pose proof (fold_journal_record_cases job o touched rec) as Hc.
  destruct (fold_journal_record job (o, touched) rec) as [o1 t1]. specialize (IH o1 t1).
  destruct (fold_left _ recs (o1, t1)) as [o2 t2]. destruct IH as [[F1 F2 F3] F4].
  destruct Hc as [[E ->]|(Ht & g & Hg & Hj & E)].
  - rewrite E in *. split; [by split|exact F4].
  - split.
    + rewrite E in *. split; [by rewrite F1|rewrite F2; apply shape_ids; by apply shape_update_segment|].
      intros H. apply F3. rewrite <- Hj in *. by apply almost_update_segment.
    + intros H. by destruct (F4 H).
Qed.

Lemma ids_ok_folding job q q' : folding job q q' -> ids_ok q -> ids_ok q'.
Proof.
  intros [F1 F2 _] [H1 H2]. injection F1 as E1 _ E3. split; [by rewrite F2|]. unfold all_ids in *. by rewrite F2, E1, E3.
Qed.

Lemma replay_files_behaves dir names : behaves (replay_files dir names).
Proof. induction names as [|n names IH]; simpl; behave. Qed.

Lemma fold_job_journals_ids o job : ids_ok (o_state o) ->
  ensures (fold_job_journals env job o) (fun o' => ids_ok (o_state o') /\ (totals_ok (o_state o) -> totals_ok (o_state o')) /\
    counters (o_state o') = counters (o_state o)).
Proof.
  intros Hi. unfold fold_job_journals. eapply ensures_bind.
  { apply ensures_try. unfold replay_job, replay_dir. behave. apply replay_files_behaves. }
  intros [recs|e] _; [|by apply ensures_ret]. pose proof (fold_records_folding job recs o []) as H.
  destruct (fold_left _ recs (o, [])) as [o1 t1]. destruct H as [Hf Ht]. destruct t1 as [|f fs].
  - destruct (Ht eq_refl) as [_ E]. apply ensures_ret. by rewrite E.
  - eapply ensures_mono; [apply after_files_quiet|]. intros o2 Hq. cbv beta in Hq.
    assert (Hr : ids_ok (o_state (recompute job o1))) by (apply ids_ok_update; [done|by eapply ids_ok_folding]).
    split_and!; [by eapply ids_ok_quiet| |].
    + intros Hto. apply (qt_totals _ _ Hq). apply (fl_almost _ _ _ Hf). by apply almost_of_ok.
    + rewrite (qt_counters _ _ Hq). exact (fl_counters _ _ _ Hf).
Qed.

Lemma fold_journals_of_ids l : forall o, ids_ok (o_state o) -> ensures (fold_journals_of env l o) (fun o' => ids_ok (o_state o')).
Proof.
  induction l as [|job l IH]; intros o Hi; simpl; [by apply ensures_ret|]. eapply ensures_bind; [by apply fold_job_journals_ids|].
  intros o1 [H1 _]. by apply IH.
Qed.
End Quiet.

(** ** The torrent lane *)

(** Keeps the accounts; a panic is let through. *)
Definition keeps_accounts (m : io Desk) : Prop := ensures_or True m (fun d => accounted (queue d)).
Definition keeps_with {A} (m : io (Desk * A)) : Prop := ensures_or True m (fun p => accounted (queue (fst p))).

Lemma keeps_with_ret {A} d (a : A) : accounted (queue d) -> keeps_with (io_ret (d, a)).
Proof. intros H. by apply ensures_ret. Qed.

Lemma keeps_bind {A} (m : io Desk) (k : Desk -> io (Desk * A)) : keeps_accounts m ->
  (forall d, accounted (queue d) -> keeps_with (k d)) -> keeps_with (io_bind m k).
Proof. intros Hm Hk. eapply ensures_bind; [exact Hm|]. exact Hk. Qed.

Lemma keeps_with_bind {A B} (m : io (Desk * A)) (k : Desk * A -> io (Desk * B)) : keeps_with m ->
  (forall d a, accounted (queue d) -> keeps_with (k (d, a))) -> keeps_with (io_bind m k).
Proof. intros Hm Hk. eapply ensures_bind; [exact Hm|]. intros [d a]. apply Hk. Qed.

Lemma keeps_fst {A} (m : io (Desk * A)) : keeps_with m -> keeps_accounts (io_bind m (fun '(d, _) => io_ret d)).
Proof. intros Hm. eapply ensures_bind; [exact Hm|]. intros [d a] H. by apply ensures_ret. Qed.

Section Lane.
Context {jc : JournalCodec} {dc : DocCodec}.
Variable lane : Lane.

Lemma save_result_queue d : ensures (save_result lane d) (fun p => queue (fst p) = queue d).
Proof.
  unfold save_result. eapply ensures_bind; [apply save_result_persisted|]. intros [o r] (jn & p & b & E). simpl in E. subst o.
  apply ensures_ret. by destruct r as [[]|].
Qed.

Lemma save_queue d : ensures (Desk.save lane d) (fun p => queue (fst p) = queue d).
Proof.
  unfold Desk.save. eapply ensures_bind; [apply save_result_queue|]. intros [d' [b|e]] E; apply ensures_ret; simpl in *; [done|].
  rewrite <- E. unfold queue, on_owner, with_owner, on_snapshot_save_error. by destruct e.
Qed.

Lemma persisted_queue d : ensures (Desk.persisted lane d) (fun p => queue (fst p) = queue d).
Proof. unfold Desk.persisted. case_if; [apply save_queue|by apply ensures_ret]. Qed.

Lemma enqueue_state env o c : o_state (fst (enqueue_backend_command env o c)) = o_state o.
Proof. unfold enqueue_backend_command. repeat case_match; simplify_eq; done. Qed.

Lemma persist_then_command_queue c d : ensures (persist_then_command lane c d) (fun p => queue (fst p) = queue d).
Proof.
  unfold persist_then_command. destruct (o_backend_pending (d_owner d)).
  - eapply ensures_bind; [apply persisted_queue|]. intros [d' ok] E. simpl in E. destruct ok; [|by apply ensures_ret].
    pose proof (enqueue_state (l_env lane) (d_owner d') c) as Hs. destruct (enqueue_backend_command _ _ _) as [o q]. apply ensures_ret.
    simpl in *. unfold queue, with_owner in *. simpl. congruence.
  - case_if; [by apply ensures_ret|]. eapply ensures_bind; [apply persisted_queue|]. intros [d' ok] E. simpl in E.
    destruct ok; by apply ensures_ret.
Qed.

Lemma keeps_of_queue {A} (m : io (Desk * A)) d : accounted (queue d) -> ensures m (fun p => queue (fst p) = queue d) -> keeps_with m.
Proof. intros Hd Hm. eapply ensures_mono; [by apply ensures_weaken|]. intros p E. cbv beta in *. by rewrite E. Qed.

Lemma save_keeps d : accounted (queue d) -> keeps_with (Desk.save lane d).
Proof. intros H. eapply keeps_of_queue; [exact H|apply save_queue]. Qed.

(** *** Deleting *)

Lemma forget_queue job j d : queue (forget job j d) = set_jobs (remove_first (fun x => job_id x =? job) (jobs (queue d))) (queue d).
Proof.
  unfold forget, queue. cbn [with_mirror d_owner on_owner with_owner with_post_fetch with_delegated with_attempts with_pending_finalize o_state].
  set (o := with_state _ _). assert (E : forall fs o, o_state (fold_left drop_file fs o) = o_state o).
  { intros fs. induction fs as [|f fs IH]; intros o1; [done|]. simpl. by rewrite IH. }
  by rewrite E.
Qed.

Lemma forget_keeps job j d : accounted (queue d) -> accounted (queue (forget job j d)).
Proof. rewrite forget_queue. apply accounted_jobs, remove_first_sublist. Qed.

Lemma delete_job_keeps job b d : accounted (queue d) -> keeps_with (delete_job lane job b d).
Proof.
  intros Hd. unfold delete_job. case_if; [by apply keeps_with_ret|].
  destruct (find_job (queue d) job) as [j|]; [|by apply keeps_with_ret].
  destruct (l_prepare_forget lane job); cbn [negb]; [|by apply keeps_with_ret].
  set (d1 := on_owner _ d). assert (H1 : accounted (queue (forget job j d1))) by (by apply forget_keeps).
  apply keeps_bind.
  - case_if; [|by apply ensures_ret]. eapply ensures_bind with (P := fun _ => True); [|by intros [jn r] _; apply ensures_ret].
    apply ensures_weaken. unfold remove_job. eapply ensures_bind; [apply ensures_try; behave|].
    intros [u|e] _; [by apply ensures_ret|]. case_if; by apply ensures_ret.
  - intros d2 H2. apply keeps_with_bind; [by apply save_keeps|]. intros d3 b3 H3. by apply keeps_with_ret.
Qed.

(** *** Seed policies *)

Lemma edit_job_queue job f d : queue (edit_job job f d) = update_job (queue d) job f.
Proof. done. Qed.

Lemma restore_keeps d job j : find_job (queue d) job = Some j -> job_totals_ok j -> forall d', accounted (queue d') ->
  accounted (queue (edit_job job (fun _ => j) d')).
Proof.
  intros Hj Ht d' Hd. rewrite edit_job_queue. apply find_job_id in Hj. by apply accounted_update.
Qed.

Lemma found_totals q job j : accounted q -> find_job q job = Some j -> job_totals_ok j.
Proof. intros [_ Ht] Hj. apply find_job_elem in Hj as [Hj _]. unfold totals_ok in Ht. rewrite Forall_forall in Ht. by apply Ht. Qed.

Lemma stop_seeding_keeps d job r : accounted (queue d) -> keeps_accounts (stop_seeding lane d job r).
Proof.
  intros Hd. unfold stop_seeding. destruct (find_job (queue d) job) as [j|] eqn:Hj; [|by apply ensures_ret].
  set (d1 := dirty _). assert (H1 : accounted (queue d1)) by (by apply accounted_edit).
  eapply ensures_bind; [eapply (keeps_of_queue _ d1); [exact H1|apply persist_then_command_queue]|]. intros [d2 ok] H2.
  apply ensures_ret. destruct ok; [done|]. eapply restore_keeps; [exact Hj|exact (found_totals _ _ _ Hd Hj)|done].
Qed.

Lemma stop_all_keeps l : forall d, accounted (queue d) -> keeps_accounts (stop_all lane l d).
Proof.
  induction l as [|[job r] l IH]; intros d Hd; simpl; [by apply ensures_ret|].
  eapply ensures_bind; [by apply stop_seeding_keeps|]. intros d1 H1. by apply IH.
Qed.

Lemma update_seed_policies_keeps d : accounted (queue d) -> keeps_with (update_seed_policies lane d).
Proof.
  intros Hd. unfold update_seed_policies. apply keeps_bind; [|intros d1 H1; by apply keeps_with_ret]. apply stop_all_keeps.
  set (js := map _ _). assert (H : accounted (set_jobs js (queue d))).
  { eapply accounted_quiet; [|exact Hd]. apply quiet_map_jobs; intros j; unfold accrue; by case_if. }
  by case_if.
Qed.

End Lane.

(** ** The handlers *)

Section Handlers.
Context {jc : JournalCodec} {dc : DocCodec}.
Variable shelf : Shelf.

Lemma saved_keeps d : accounted (queue d) -> keeps_accounts (saved shelf d).
Proof. intros Hd. unfold saved. apply keeps_fst. by apply save_keeps. Qed.

Lemma lift_quiet f d : accounted (queue d) -> (forall o, ensures (f o) (fun o' => quiet (o_state o) (o_state o'))) ->
  keeps_accounts (lift f d).
Proof.
  intros Hd Hf. unfold lift. eapply ensures_bind; [apply ensures_weaken, Hf|]. intros o H. apply ensures_ret.
  exact (accounted_quiet _ _ H Hd).
Qed.

Lemma checked_keeps job d : accounted (queue d) -> keeps_accounts (checked shelf job d).
Proof. intros Hd. apply lift_quiet; [done|]. intros o. apply check_quiet. Qed.

Lemma attempt_keeps job f act d : accounted (queue d) -> (forall j, job_id (f j) = job_id j) ->
  (forall j, files (f j) = files j) -> (forall j, totals (f j) = totals j) ->
  (forall d, ensures (act d) (fun p => queue (fst p) = queue d)) -> keeps_with (attempt job f act d).
Proof.
  intros Hd H1 H2 H3 Ha. unfold attempt. set (d1 := dirty _). assert (Hd1 : accounted (queue d1)) by (by apply accounted_edit).
  apply keeps_with_bind; [eapply (keeps_of_queue _ d1); [exact Hd1|apply Ha]|]. intros d2 ok Hd2.
  destruct ok; apply keeps_with_ret; [done|]. destruct (find_job (queue d) job) as [j|] eqn:Hj; [|done].
  eapply restore_keeps; [exact Hj|exact (found_totals _ _ _ Hd Hj)|done].
Qed.

Lemma replied_keeps m : keeps_with m -> keeps_with (replied m).
Proof. intros Hm. apply keeps_with_bind; [done|]. intros d ok Hd. by apply keeps_with_ret. Qed.

Lemma edit_keeps job f d : accounted (queue d) -> (forall j, job_id (f j) = job_id j) ->
  (forall j, files (f j) = files j) -> (forall j, totals (f j) = totals j) -> accounted (queue (dirty (edit_job job f d))).
Proof. intros Hd H1 H2 H3. by apply accounted_edit. Qed.

(** *** Controls *)

Lemma on_pause_keeps job d : accounted (queue d) -> keeps_with (on_pause shelf job d).
Proof.
  intros Hd. unfold on_pause. destruct (find_job (queue d) job) as [j|]; [|by apply keeps_with_ret].
  case_if; [|by apply keeps_with_ret]. case_if; [|by apply keeps_with_ret, edit_keeps].
  apply replied_keeps, attempt_keeps; try done. intros d1. apply persist_then_command_queue.
Qed.

Lemma on_resume_keeps job d : accounted (queue d) -> keeps_with (on_resume shelf job d).
Proof.
  intros Hd. unfold on_resume. case_if; [by apply keeps_with_ret|].
  destruct (find_job (queue d) job) as [j|]; [|by apply keeps_with_ret].
  do 2 (case_if; [by apply keeps_with_ret|]). case_if; [|by apply keeps_with_ret, edit_keeps].
  apply replied_keeps, attempt_keeps; try done. intros d1. apply persisted_queue.
Qed.

Lemma on_delete_keeps job b d : accounted (queue d) -> keeps_with (on_delete shelf job b d).
Proof.
  intros Hd. unfold on_delete. destruct (find_job (queue d) job ≫= torrent) as [t|]; apply replied_keeps; [|by apply delete_job_keeps].
  apply attempt_keeps; try done. intros d1. apply persist_then_command_queue.
Qed.

Lemma on_set_priority_keeps job p d : accounted (queue d) -> keeps_with (on_set_priority shelf job p d).
Proof.
  intros Hd. unfold on_set_priority. destruct (find_job (queue d) job) as [j|]; [|by apply keeps_with_ret].
  case_if; [|by apply keeps_with_ret, edit_keeps]. apply replied_keeps, attempt_keeps; try done. intros d1. apply persist_then_command_queue.
Qed.

Lemma on_set_category_keeps job cat d : accounted (queue d) -> keeps_with (on_set_category shelf job cat d).
Proof.
  intros Hd. unfold on_set_category. destruct (find_job (queue d) job) as [j|]; [|by apply keeps_with_ret].
  apply keeps_bind; [by apply saved_keeps, accounted_edit|]. intros d1 H1. by apply keeps_with_ret.
Qed.

Lemma on_set_seed_policy_keeps job p d : accounted (queue d) -> keeps_with (on_set_seed_policy shelf job p d).
Proof.
  intros Hd. unfold on_set_seed_policy. case_if; [by apply keeps_with_ret|].
  destruct (find_job (queue d) job ≫= torrent) as [t|]; [|by apply keeps_with_ret].
  apply keeps_with_bind; [apply attempt_keeps; try done; intros d1; apply persisted_queue|]. intros d1 ok H1.
  destruct ok; [|by apply keeps_with_ret]. apply keeps_with_bind; [by apply update_seed_policies_keeps|].
  intros d2 b H2. by apply keeps_with_ret.
Qed.

Lemma on_quiesce_keeps job d : accounted (queue d) -> keeps_with (on_quiesce shelf job d).
Proof.
  intros Hd. unfold on_quiesce. case_if; [by apply keeps_with_ret|].
  destruct (find_job (queue d) job) as [j|]; [|by apply keeps_with_ret].
  do 2 (case_if; [by apply keeps_with_ret|]). apply keeps_bind; [|intros d1 H1; by apply keeps_with_ret].
  apply saved_keeps. cbn [on_owner with_owner queue d_owner with_pending_finalize with_attempts o_state].
  assert (E : forall fs o, o_state (fold_left (fun o f => with_writers (o_writers o ∖ {[file_id f]}) o) fs o) = o_state o).
  { intros fs. induction fs as [|f fs IH]; intros o1; [done|]. simpl. by rewrite IH. }
  unfold queue. cbn [on_owner with_owner d_owner with_pending_finalize with_attempts o_state]. rewrite E. by apply accounted_edit.
Qed.

(** *** Files *)

Lemma on_set_file_paused_keeps job file p d : accounted (queue d) -> keeps_with (on_set_file_paused shelf job file p d).
Proof.
  intros Hd. unfold on_set_file_paused. case_if; [by apply keeps_with_ret|].
  apply keeps_bind; [|intros d1 H1; by apply keeps_with_ret]. apply checked_keeps. unfold queue. simpl.
  apply accounted_update; [done|done|]. destruct Hd as [H1 H2]. split; [by apply ids_ok_update|by apply totals_ok_update_file].
Qed.

Lemma on_delete_file_keeps job file d : accounted (queue d) -> keeps_with (on_delete_file shelf job file d).
Proof.
  intros Hd. unfold on_delete_file. destruct (find_job (queue d) job) as [j|]; [|by apply keeps_with_ret].
  case_if; [|by apply keeps_with_ret]. apply keeps_bind; [|intros d1 H1; by apply keeps_with_ret]. apply checked_keeps.
  by apply accounted_update.
Qed.

(** *** The queue's settings *)

Lemma accounted_jobs_eq q q' : jobs q' = jobs q -> pending_admissions q' = pending_admissions q -> next_job_id q <= next_job_id q' ->
  accounted q -> accounted q'.
Proof.
  intros E1 E2 Hn [[H1 H2] H3]. split; [|unfold totals_ok; by rewrite E1]. split; [by rewrite E1|]. unfold all_ids in *. rewrite E1, E2.
  eapply Forall_impl; [exact H2|]. simpl. lia.
Qed.

Lemma move_jobs_perm js job op js' : move_jobs js job op = Some js' -> js' ≡ₚ js.
Proof.
  unfold move_jobs. destruct (index_where _ js) as [idx|]; [|done]. case_if; [by intros [= <-]|].
  destruct (js !! idx) as [j|] eqn:E; [|by intros [= <-]]. intros [= <-]. unfold insert_at.
  rewrite <- Permutation_middle, take_drop. symmetry. by apply delete_Permutation.
Qed.

Lemma accounted_perm q js : js ≡ₚ jobs q -> accounted q -> accounted (set_jobs js q).
Proof.
  intros Hp [[H1 H2] H3]. split; [split|]; cbn [set_jobs jobs].
  - by rewrite Hp.
  - apply bound_app. apply bound_app in H2 as [H2 H4]. split; [|done]. cbn [set_jobs jobs]. by rewrite Hp.
  - unfold totals_ok. cbn [set_jobs jobs]. by rewrite Hp.
Qed.

Lemma on_move_keeps job op d : accounted (queue d) -> accounted (queue (fst (on_move job op d))).
Proof.
  intros Hd. unfold on_move. destruct (move_jobs _ job op) as [js|] eqn:E; [|done]. cbn [fst].
  assert (H : accounted (set_jobs js (queue d))) by (apply accounted_perm; [by eapply move_jobs_perm|done]). by case_if.
Qed.

Lemma disk_guard_keeps env o : accounted (o_state o) -> accounted (o_state (update_disk_guard env o)).
Proof. apply accounted_quiet, update_disk_guard_quiet. Qed.

Lemma on_resume_all_keeps src d : accounted (queue d) -> accounted (queue (on_resume_all shelf src d)).
Proof.
  intros Hd. unfold on_resume_all, queue. cbn [raise dirty on_owner with_owner d_owner emit with_events with_dirty o_state].
  unfold clear_enospc_latch. case_if; [apply disk_guard_keeps|]; by eapply accounted_jobs_eq; [..|exact Hd].
Qed.

Lemma rebalance_queue lane rate d : queue (rebalance_download_budget lane rate d) = queue d.
Proof.
  unfold rebalance_download_budget. destruct (allocate_download_budget _ _ _ _ _) as [u t]. case_if.
  - case_if; [done|]. unfold enqueue. pose proof (enqueue_state (l_env lane) (d_owner d) (BC_SetDownloadLimit t)) as E.
    destruct (enqueue_backend_command _ _ _) as [o b]. by case_if.
  - set (d1 := with_limits _ _ _ d). case_if; [done|]. unfold enqueue.
    pose proof (enqueue_state (l_env lane) (d_owner d1) (BC_SetDownloadLimit t)) as E.
    destruct (enqueue_backend_command _ _ _) as [o b]. by case_if.
Qed.

Lemma on_set_speed_limit_keeps l d : accounted (queue d) -> accounted (queue (on_set_speed_limit shelf l d)).
Proof.
  intros Hd. unfold on_set_speed_limit. set (d1 := with_limits _ _ _ _).
  change (accounted (queue (rebalance_download_budget (lane_of shelf) (s_rate shelf) d1))). rewrite rebalance_queue.
  by eapply accounted_jobs_eq; [..|exact Hd].
Qed.

Lemma on_set_max_active_keeps n d : accounted (queue d) -> accounted (queue (fst (on_set_max_active shelf n d))).
Proof.
  intros Hd. unfold on_set_max_active. cbn [fst]. set (d1 := dirty _).
  eapply accounted_quiet; [apply settle_labels_quiet|]. by eapply accounted_jobs_eq; [..|exact Hd].
Qed.

(** *** Admissions *)

Lemma on_reserve_keeps src secret opts d : accounted (queue d) -> 0 <= next_job_id (queue d) < u32_max ->
  keeps_with (on_reserve shelf src secret opts d).
Proof.
  intros Hd Hr. unfold on_reserve. destruct (reserve_torrent_admission (queue d) src opts) as [q id] eqn:E.
  destruct (fresh_id _ (proj1 Hd) Hr) as [En _].
  assert (Hq : accounted q).
  { destruct Hd as [[H1 H2] H3]. unfold reserve_torrent_admission in E. rewrite En in E. injection E as <- <-.
    split; [|done]. split; [done|]. apply bound_app. apply bound_app in H2 as [H2 H4]. simpl. split.
    - eapply Forall_impl; [exact H2|]. simpl. lia.
    - apply Forall_app. split; [eapply Forall_impl; [exact H4|]; simpl; lia|]. constructor; [simpl; lia|constructor]. }
  destruct (s_write_secret shelf id secret).
  - apply keeps_bind; [|intros d1 H1; by apply keeps_with_ret]. apply saved_keeps. apply accounted_pending; [|done].
    intros p Hp. cbn [on_queue on_owner with_owner d_owner with_state o_state] in *.
    assert (HM : map pa_job_id (update_first (fun p => pa_job_id p =? id) (put_secret_ref a) (pending_admissions q)) = map pa_job_id (pending_admissions q))
      by (by apply update_first_map).
    assert (Hin : pa_job_id p ∈ map pa_job_id (pending_admissions q)).
    { rewrite <- HM. apply list_elem_of_fmap. by exists p. }
    apply list_elem_of_fmap in Hin as (p' & E' & Hp'). by exists p'.
  - apply keeps_with_ret. apply accounted_pending; [|done]. intros p Hp. exists p. split; [|done].
    eapply elem_of_sublist; [exact Hp|apply filter_sublist].
Qed.

Lemma cancel_keeps q id : accounted q -> accounted (fst (cancel_torrent_admission q id)).
Proof.
  intros H. apply accounted_pending; [|done]. intros p Hp. exists p. split; [|done]. eapply elem_of_sublist; [exact Hp|apply filter_sublist].
Qed.

Lemma on_commit_keeps job c d : accounted (queue d) -> job ∉ map job_id (jobs (queue d)) -> keeps_with (on_commit shelf job c d).
Proof.
  intros Hd Hn. unfold on_commit. destruct (commit_torrent_admission _ _ job c) as [q r] eqn:E.
  assert (Hq : accounted q).
  { unfold commit_torrent_admission in E. 
    destruct (existsb (fun p => pa_job_id p =? job) (pending_admissions (queue d))) eqn:Hex; cbn [negb] in E; [|by injection E as <- <-].
    destruct (find _ (jobs (queue d))) as [j|].
    - injection E as <- <-. set (f := fun j => set_asked _ _ j).
      apply (cancel_keeps (set_jobs (update_first (same_torrent (tc_record c)) f (jobs (queue d))) (queue d)) job).
      assert (Hi : map job_id (update_first (same_torrent (tc_record c)) f (jobs (queue d))) = map job_id (jobs (queue d)))
        by (by apply update_first_map).
      destruct Hd as [[H1 H2] H3]. split; [split|].
      + cbn [set_jobs jobs]. by rewrite Hi.
      + unfold all_ids in *. cbn [set_jobs jobs pending_admissions next_job_id]. by rewrite Hi.
      + unfold totals_ok. cbn [set_jobs jobs]. by apply Forall_update_first.
    - injection E as <- <-. set (q1 := fst (cancel_torrent_admission (queue d) job)).
      assert (H1 : accounted q1) by (by apply cancel_keeps). apply (accounted_push q1); [done|exact Hn| |by intros []].
      destruct Hd as [[_ H2] _]. apply bound_app in H2 as [_ H4]. 
      apply existsb_exists in Hex as (p & Hp & Ep). bool_hyps. rewrite Forall_forall in H4. specialize (H4 p ltac:(by apply list_elem_of_In)).
      simpl in *. lia. }
  destruct r; [|by apply keeps_with_ret]. apply keeps_bind; [by apply saved_keeps|]. intros d1 H1. by apply keeps_with_ret.
Qed.

Lemma on_cancel_keeps job d : accounted (queue d) -> keeps_with (on_cancel shelf job d).
Proof.
  intros Hd. unfold on_cancel. destruct (cancel_torrent_admission (queue d) job) as [q removed] eqn:E.
  assert (Hq : accounted q) by (replace q with (fst (cancel_torrent_admission (queue d) job)) by (by rewrite E); by apply cancel_keeps).
  case_if; [by apply keeps_with_ret|].
  eapply ensures_bind; [apply ensures_weaken, save_result_queue|]. intros [d1 r] E1. cbn [fst] in E1.
  assert (Hb : accounted (set_pending (pending_admissions (queue d)) (queue d1))).
  { rewrite E1. unfold cancel_torrent_admission in E. injection E as <- _. destruct Hd as [[H1 H2] H3]. by split. }
  destruct r as [[]|e]; [apply keeps_with_ret; by rewrite E1|by apply keeps_with_ret|]. apply keeps_with_ret.
  by destruct e.
Qed.

(** *** Additions *)

Lemma ensures_run {A} (m : run A) : ensures_or True (of_run m) (fun a => m = Ret a).
Proof. destruct m; [by apply ensures_ret|]. intros w. by right. Qed.

Lemma set_job_name_keeps q id nm s p : accounted q -> accounted (set_job_name q id nm s p).
Proof.
  intros Hq. unfold set_job_name. destruct (find_job q id); [|done].
  assert (H : accounted (update_job q id (fun j => rename_job j nm s p))).
  { apply accounted_edit; try done; intros x; unfold rename_job; by case_if. }
  case_if; [|done]. by apply accounted_edit.
Qed.

Lemma name_from_requestor_keeps job b d : accounted (queue d) -> keeps_with (name_from_requestor job b d).
Proof.
  intros Hd. unfold name_from_requestor. destruct (find_job (queue d) job) as [j|]; [|by apply keeps_with_ret].
  eapply ensures_bind; [apply ensures_run|]. intros is_open _. case_if; [by apply keeps_with_ret|].
  eapply ensures_bind; [apply ensures_run|]. intros [nm|] _; apply keeps_with_ret; [|done]. by apply set_job_name_keeps.
Qed.

Lemma build_files_next lower q parsed pause : exists n, fst (build_files lower q parsed pause) = set_next_file_id n q.
Proof. unfold build_files. destruct (fold_left _ _ _) as [[n s] o]. by exists n. Qed.

Lemma asked_for_same dup st ps j : let j' := asked_for dup st ps j in job_id j' = job_id j /\ files j' = files j /\ totals j' = totals j.
Proof. unfold asked_for. by destruct dup, st. Qed.

Lemma accounted_asked q id dup st ps : accounted q -> accounted (update_job q id (asked_for dup st ps)).
Proof. apply accounted_edit; intros j; by destruct (asked_for_same dup st ps j) as (? & ? & ?). Qed.

Lemma on_add_parsed_keeps nm parsed cat prio dup st ps d : accounted (queue d) -> 0 <= next_job_id (queue d) < u32_max ->
  keeps_with (on_add_parsed shelf nm parsed cat prio dup st ps d).
Proof.
  intros Hd Hr. unfold on_add_parsed. destruct (admit_nzb _ _ _ _ _ _ _ _) as [q id] eqn:E.
  destruct (fresh_id _ (proj1 Hd) Hr) as [En Hn].
  assert (Hq : accounted q).
  { unfold admit_nzb in E. rewrite En in E. destruct (build_files_next (s_to_lowercase shelf) (set_next_job_id (next_job_id (queue d) + 1) (queue d)) parsed (s_pause_extra_pars shelf)) as [n Eb].
    destruct (build_files _ _ _ _) as [q1 fs]. simpl in Eb. subst q1. injection E as <- <-.
    set (q1 := set_next_file_id _ _). apply (accounted_push q1); [|exact Hn|simpl; lia|done].
    eapply accounted_jobs_eq; [..|exact Hd]; simpl; lia || done. }
  apply keeps_with_bind; [by apply name_from_requestor_keeps, accounted_asked|]. intros d1 better H1.
  destruct (ensure_allocation _ _ id) as [o allocated] eqn:Ea. apply ensure_allocation_core in Ea as [Eo _].
  assert (Ho : accounted (o_state o)).
  { rewrite Eo. apply accounted_edit; try done; intros x; unfold avoid_dir; by case_if. }
  case_if.
  - apply keeps_with_ret. apply (accounted_jobs (o_state o)); [apply filter_sublist|done].
  - apply keeps_bind; [by apply saved_keeps|]. intros d2 H2. by apply keeps_with_ret.
Qed.

Lemma on_add_url_keeps nm url cat prio dup st ps d : accounted (queue d) -> 0 <= next_job_id (queue d) < u32_max ->
  keeps_with (on_add_url shelf nm url cat prio dup st ps d).
Proof.
  intros Hd Hr. unfold on_add_url. destruct (find (fetching_url url) _) as [j|].
  - apply keeps_bind; [|intros d1 H1; by apply keeps_with_ret]. destruct ps; [by apply ensures_ret|].
    apply saved_keeps. by apply accounted_edit.
  - destruct (admit_url _ _ _ _ _ _) as [q id] eqn:E. destruct (fresh_id _ (proj1 Hd) Hr) as [En Hn].
    assert (Hq : accounted q).
    { unfold admit_url in E. rewrite En in E. injection E as <- <-. set (q1 := set_next_job_id _ _).
      apply (accounted_push q1); [|exact Hn|simpl; lia|by intros []]. eapply accounted_jobs_eq; [..|exact Hd]; simpl; lia || done. }
    apply keeps_with_bind; [by apply name_from_requestor_keeps, accounted_asked|]. intros d1 better H1.
    apply keeps_bind; [by apply saved_keeps|]. intros d2 H2. by apply keeps_with_ret.
Qed.

Lemma complete_url_fetch_keeps lower q id parsed pause q' ok : accounted q ->
  complete_url_fetch lower q id parsed pause = Ret (q', ok) -> accounted q'.
Proof.
  intros Hq. unfold complete_url_fetch. destruct (build_files_next lower q parsed pause) as [n Eb].
  destruct (build_files lower q parsed pause) as [q1 fs]. simpl in Eb. subst q1.
  assert (H1 : accounted (set_next_file_id n q)) by (by eapply accounted_jobs_eq; [..|exact Hq]).
  destruct (find_job (set_next_file_id n q) id) as [j|] eqn:Hj; [|by intros [= <- <-]].
  destruct (status j); try (by intros [= <- <-]). set (j0 := match category j with Some _ => j | None => _ end).
  assert (E0 : job_id j0 = job_id j) by (unfold j0; by destruct (category j)).
  destruct (fetched_name j0 parsed) as [j1|] eqn:Hf; cbn [run_bind]; [|done]. intros [= <- _].
  apply fetched_name_ids in Hf. apply find_job_id in Hj. apply accounted_update; [|done|done]. intros x _. simpl. congruence.
Qed.

Lemma on_complete_keeps job parsed d : accounted (queue d) -> keeps_with (on_complete_url_fetch shelf job parsed d).
Proof.
  intros Hd. unfold on_complete_url_fetch. eapply ensures_bind; [apply ensures_run|]. intros [q ok] E.
  assert (Hq : accounted q) by (by eapply complete_url_fetch_keeps).
  case_if; [by apply keeps_with_ret|]. apply keeps_with_bind.
  - apply name_from_requestor_keeps. apply accounted_edit; try done; intros x; unfold apply_add_paused; by case_if.
  - intros d1 nm H1. apply keeps_bind; [by apply saved_keeps|]. intros d2 H2. by apply keeps_with_ret.
Qed.

Lemma on_fail_keeps job d : accounted (queue d) -> keeps_with (on_fail_url_fetch shelf job d).
Proof.
  intros Hd. unfold on_fail_url_fetch. destruct (find_job (queue d) job) as [j|]; [|by apply keeps_with_ret].
  case_if; [|by apply keeps_with_ret]. apply keeps_bind; [by apply saved_keeps, accounted_edit|]. intros d1 H1. by apply keeps_with_ret.
Qed.

(** *** Jobs of other nodes *)

Lemma remove_silent_keeps job d : accounted (queue d) -> accounted (queue (fst (remove_job_silent job d))).
Proof. intros Hd. unfold remove_job_silent. destruct (find_job (queue d) job) as [j|]; [by apply forget_keeps|done]. Qed.

Lemma removed_jobs job d : NoDup (map job_id (jobs (queue d))) ->
  job ∉ map job_id (jobs (queue (fst (remove_job_silent job d)))).
Proof.
  intros Hn. unfold remove_job_silent. destruct (find_job (queue d) job) as [j|] eqn:E; cbn [fst].
  - rewrite forget_queue. cbn [set_jobs jobs]. clear E. induction (jobs (queue d)) as [|x l IH]; [apply not_elem_of_nil|].
    apply NoDup_cons in Hn as [Hx Hn]. cbn [map remove_first]. destruct (job_id x =? job) eqn:Ex; bool_hyps; [by subst|].
    simpl. apply not_elem_of_cons. split; [congruence|by apply IH].
  - intros (j & Ej & Hj)%list_elem_of_fmap. unfold find_job in E. apply list_elem_of_In in Hj. apply (find_none _ _ E) in Hj.
    bool_hyps. congruence.
Qed.

Lemma take_payload_state j o : o_state (fst (take_payload shelf j o)) = o_state o.
Proof. unfold take_payload. repeat case_match; simplify_eq; done. Qed.

(** A job that is new here, pushed and recounted. *)
Lemma push_recount q j : accounted q -> job_id j ∉ map job_id (jobs q) -> job_id j <= next_job_id q ->
  accounted (update_job (set_jobs (jobs q ++ [j]) q) (job_id j) recompute_job_totals).
Proof.
  intros Hq Hn Hb. apply accounted_recompute; [by apply ids_ok_push; [apply Hq| |]|]. intros x Hx Hne.
  cbn [set_jobs jobs] in Hx. apply elem_of_app in Hx as [Hx| ->%list_elem_of_singleton]; [|done].
  destruct Hq as [_ Ht]. unfold totals_ok in Ht. rewrite Forall_forall in Ht. by apply Ht.
Qed.

(** Also, the counter does not fall. *)
Definition counts_up (d : Desk) {A} (m : io (Desk * A)) : Prop :=
  ensures_or True m (fun p => accounted (queue (fst p)) /\ next_job_id (queue d) <= next_job_id (queue (fst p))).

Lemma counts_keep d {A} (m : io (Desk * A)) : counts_up d m -> keeps_with m.
Proof. intros Hm. eapply ensures_mono; [exact Hm|]. by intros p [H _]. Qed.

Lemma remove_silent_next job d : next_job_id (queue (fst (remove_job_silent job d))) = next_job_id (queue d).
Proof. unfold remove_job_silent. destruct (find_job _ _); cbn [fst]; [by rewrite forget_queue|done]. Qed.

Lemma import_job_counts j folds finished d : accounted (queue d) -> counts_up d (import_job shelf j folds finished d).
Proof.
  intros Hd. unfold import_job. set (j' := from_the_wire j). pose proof (take_payload_state j' (d_owner d)) as Es.
  destruct (take_payload shelf j' (d_owner d)) as [o ok]. cbn [fst] in Es.
  assert (Ho : accounted (o_state o)) by (by rewrite Es).
  case_if; [apply ensures_ret; split; [done|]; change (next_job_id (o_state (d_owner d)) <= next_job_id (o_state o)); by rewrite Es|].
  set (d1 := on_queue _ (with_owner o d)). assert (H1 : accounted (queue d1)) by (apply accounted_counters; [lia|done]).
  assert (Hup : next_job_id (queue d) <= next_job_id (queue d1) /\ job_id j' <= next_job_id (queue d1)).
  { unfold d1, queue. simpl. rewrite Es. lia. }
  pose proof (remove_silent_keeps (job_id j') d1 H1) as H2. pose proof (removed_jobs (job_id j') d1 (io_unique _ (proj1 H1))) as Hn.
  pose proof (remove_silent_next (job_id j') d1) as En. destruct (remove_job_silent (job_id j') d1) as [d2 b]. cbn [fst] in *.
  pose proof (push_recount (queue d2) j' H2 Hn ltac:(lia)) as H3. set (d3 := with_mirror _ _).
  assert (Hup3 : next_job_id (queue d) <= next_job_id (queue d3)) by (unfold d3, queue in *; simpl in *; lia).
  apply (ensures_bind _ _ _ (fun d4 => accounted (queue d4) /\ next_job_id (queue d) <= next_job_id (queue d4))).
  - destruct folds; [|by apply ensures_ret]. unfold lift.
    eapply ensures_bind; [apply ensures_weaken, fold_job_journals_ids; exact (proj1 H3)|].
    intros o1 (Hi & Ht & Hc). apply ensures_ret. split; [split; [exact Hi|apply Ht; exact (proj2 H3)]|].
    injection Hc as Hc _ _. change (next_job_id (queue d) <= next_job_id (o_state o1)). by rewrite Hc.
  - intros d4 [H4 Hup4]. apply (ensures_bind _ _ _ (fun p => accounted (queue (fst p)) /\ next_job_id (queue d) <= next_job_id (queue (fst p)))).
    + set (d5 := dirty _). case_if; [|by apply ensures_ret].
      eapply ensures_mono; [apply ensures_weaken, save_queue|]. intros p E. cbv beta in E. rewrite E. by split.
    + intros [d6 committed] H6. apply ensures_ret. by case_if.
Qed.

Lemma import_if_present_keeps j d : accounted (queue d) -> keeps_with (on_import_if_present shelf j d).
Proof.
  intros Hd. unfold on_import_if_present.
  apply (ensures_bind _ _ _ (fun p => accounted (queue (fst p)) /\ next_job_id (queue d) <= next_job_id (queue (fst p)))).
  { destruct (find_job (queue d) (job_id j)); [by apply import_job_counts|by apply ensures_ret]. }
  intros [d1 committed] [H1 Hup]. cbn [fst] in *. case_if; [by apply keeps_with_ret|].
  pose proof (remove_silent_keeps (job_id j) d1 H1) as H2. pose proof (removed_jobs (job_id j) d1 (io_unique _ (proj1 H1))) as Hn.
  pose proof (remove_silent_next (job_id j) d1) as En.
  destruct (remove_job_silent (job_id j) d1) as [d2 b]. cbn [fst] in *. apply keeps_with_ret.
  destruct (find_job (queue d) (job_id j)) as [p|] eqn:Hp; [|done].
  pose proof (found_totals _ _ _ Hd Hp) as Ht. apply find_job_elem in Hp as [Hp Ep].
  apply (accounted_push (queue d2)); [done|by rewrite Ep| |done].
  destruct Hd as [[_ Hb] _]. apply bound_app in Hb as [Hb _]. rewrite Forall_forall in Hb. specialize (Hb p Hp). simpl in Hb. lia.
Qed.

(** *** Allowances, delegation, post-processing *)

Lemma on_set_delegated_keeps job node d : accounted (queue d) -> accounted (queue (fst (on_set_delegated job node d))).
Proof. intros Hd. unfold on_set_delegated. by destruct (find_job (queue d) job), node. Qed.

Lemma close_span_same ms at_unix j : let j' := close_span ms at_unix j in job_id j' = job_id j /\ files j' = files j /\ totals j' = totals j.
Proof. unfold close_span. destruct (rev (stages j)) as [|sp l]; [done|]. by destruct (span_ms sp). Qed.

Lemma on_enter_stage_keeps job st at_unix ms d : accounted (queue d) ->
  accounted (queue (fst (on_enter_post_stage job st at_unix ms d))).
Proof.
  intros Hd. unfold on_enter_post_stage. destruct (find_job (queue d) job); [|done]. cbn [fst].
  apply accounted_edit; try done; intros x; by destruct (close_span_same ms at_unix x) as (? & ? & ?).
Qed.

Lemma on_close_stage_keeps job at_unix ms d : accounted (queue d) -> accounted (queue (on_close_post_stage job at_unix ms d)).
Proof.
  intros Hd. unfold on_close_post_stage. destruct (find_job (queue d) job); [|done].
  apply accounted_edit; try done; intros x; by destruct (close_span_same ms at_unix x) as (? & ? & ?).
Qed.

Lemma on_set_status_keeps job st d : accounted (queue d) -> keeps_with (on_set_job_status shelf job st d).
Proof.
  intros Hd. unfold on_set_job_status. case_if; [by apply keeps_with_ret|].
  destruct (find_job (queue d) job); [|by apply keeps_with_ret]. apply keeps_bind; [|intros d1 H1; by apply keeps_with_ret].
  case_if; [by apply saved_keeps, edit_keeps|by apply ensures_ret, edit_keeps].
Qed.

Lemma unpause_keeps job n size d : accounted (queue d) -> accounted (queue (fst (unpause_par_blocks job n size d))).
Proof.
  intros Hd. unfold unpause_par_blocks. destruct (find_job (queue d) job) as [j|]; [|done].
  destruct (paused_pars j); [done|]. destruct (chosen_pars j n size) as [cs lr]. 
  set (ids := map pc_id cs ++ _). set (freed := match lr with Some _ => _ | None => _ end).
  assert (Hu : accounted (update_job (queue d) job (unpause_files ids))).
  { apply accounted_update; [done| |done]. intros x _ Hx. unfold job_totals_ok, unpause_files in *. simpl.
    assert (HT : forall fs, totals_of (fold_left (fun fs id => update_first (fun f => file_id f =? id) (set_file_paused false) fs) ids fs) = totals_of fs).
    { clear. induction ids as [|id ids IH]; intros fs; [done|]. simpl. rewrite IH. by apply totals_of_update. }
    assert (HN : forall fs, fold_left (fun fs id => update_first (fun f => file_id f =? id) (set_file_paused false) fs) ids fs <> [] -> fs <> []).
    { clear. induction ids as [|id ids IH]; intros fs; [done|]. simpl. intros H%IH E. subst fs. by apply H. }
    intros H%HN. rewrite HT. by apply Hx. }
  case_if; [|done]. cbn [fst]. unfold queue. simpl. apply accounted_update; [done|done|].
  apply accounted_edit; try done; intros x; by case_if.
Qed.

Lemma on_retain_keeps keep d : accounted (queue d) -> accounted (queue (on_retain keep d)).
Proof.
  intros Hd. unfold on_retain. set (gone := List.filter _ _). set (d1 := on_owner (with_persist false) d) in *.
  assert (H1 : accounted (queue d1)) by done. clearbody d1 gone.
  assert (H2 : forall l d, accounted (queue d) -> accounted (queue (fold_left (fun d id => fst (remove_job_silent id d)) l d))).
  { clear. induction l as [|id l IH]; intros d Hd; [done|]. simpl. by apply IH, remove_silent_keeps. }
  by apply H2.
Qed.

(** *** Authority *)

(** A snapshot on disk keeps its own counter. *)
Definition counts_its_jobs (now : Z) : Prop := forall w doc w' s,
  load w = (Val (Some doc), w') -> from_runtime_doc now doc = Ret (Ok s) -> Forall (fun j => job_id j <= next_job_id s) (jobs s).

Lemma not_found q id : find_job q id = None -> id ∉ map job_id (jobs q).
Proof.
  intros E (j & Ej & Hj)%list_elem_of_fmap. unfold find_job in E. apply list_elem_of_In in Hj. apply (find_none _ _ E) in Hj.
  bool_hyps. congruence.
Qed.

Lemma push_missing_ids l : forall q, ids_ok q -> Forall (fun j => job_id j <= next_job_id q) l -> ids_ok (fold_left push_missing l q).
Proof.
  induction l as [|j l IH]; intros q Hq Hl; [done|]. inversion Hl as [|? ? Hj Hl']; subst. cbn [fold_left]. unfold push_missing at 2.
  destruct (find_job q (job_id j)) eqn:E; [by apply IH|]. apply IH; [|done]. by apply ids_ok_push; [| apply not_found|].
Qed.

Lemma merge_snapshot_ids s d : ids_ok (queue d) -> Forall (fun j => job_id j <= next_job_id s) (jobs s) ->
  ids_ok (queue (merge_snapshot s d)).
Proof.
  intros Hd Hs. unfold merge_snapshot. set (d1 := on_queue _ d).
  assert (H1 : ids_ok (queue d1)).
  { destruct (ids_ok_counters (queue d) (Z.max (next_job_id (queue d)) (next_job_id s)) (next_file_id (queue d)) ltac:(lia) Hd) as [A B]. by split. }
  assert (Hb : next_job_id s <= next_job_id (queue d1)) by (unfold d1, queue; simpl; lia).
  set (d2 := match speed_limit_bps (queue d1) with Some _ => d1 | None => _ end).
  assert (H2 : ids_ok (queue d2) /\ next_job_id (queue d2) = next_job_id (queue d1)) by 
    (unfold d2; destruct (speed_limit_bps _); split; try done; destruct H1 as [A B]; by split).
  destruct H2 as [H2 E2]. apply push_missing_ids; [exact H2|]. eapply Forall_impl; [exact Hs|]. intros j Hj. cbv beta in Hj.
  change (job_id j <= next_job_id (queue d2)). rewrite E2. lia.
Qed.

Lemma load_behaves : behaves load.
Proof. unfold load. behave. all: try (destruct (validate_queue_schema_version _)); behave. Qed.

Lemma adopt_snapshot_ids d : ids_ok (queue d) -> counts_its_jobs (commands_now shelf) ->
  ensures_or True (adopt_snapshot shelf d) (fun p => ids_ok (queue (fst p)) /\ (forall e, snd p = Err e -> queue (fst p) = queue d)).
Proof.
  intros Hd Hc. unfold adopt_snapshot. apply (ensures_bind _ _ _ (fun r => forall doc, r = Ok (Some doc) -> exists w w', load w = (Val (Some doc), w'))).
  - intros w. pose proof (load_behaves w) as Hb. unfold io_try. destruct (load w) as [[o|e|] w'] eqn:E; [| |by left].
    + split; [|done]. intros doc [= ->]. by exists w, w'.
    + split; [|done]. done.
  - intros [[doc|]|e] Hl; [|by apply ensures_ret|by apply ensures_ret].
    eapply ensures_bind; [apply ensures_run|]. intros [s|e] Es; [|by apply ensures_ret].
    destruct (Hl doc eq_refl) as (w & w' & E). apply ensures_ret. split; [|done].
    apply merge_snapshot_ids; [done|]. by eapply Hc.
Qed.

Lemma recompute_all_ok q : ids_ok q -> accounted (recompute_all_totals q).
Proof.
  intros [H1 H2]. assert (E : map job_id (map recompute_job_totals (jobs q)) = map job_id (jobs q)) by (by rewrite map_map).
  split; [split|].
  - cbn [recompute_all_totals set_jobs jobs]. by rewrite E.
  - unfold all_ids in *. cbn [recompute_all_totals set_jobs jobs pending_admissions next_job_id]. by rewrite E.
  - unfold totals_ok, recompute_all_totals, set_jobs. cbn [jobs]. apply Forall_fmap. by apply Forall_true.
Qed.

Lemma adopt_authority_keeps d : accounted (queue d) -> counts_its_jobs (commands_now shelf) -> keeps_with (adopt_authority shelf d).
Proof.
  intros Hd Hc. unfold adopt_authority. eapply ensures_bind; [by apply adopt_snapshot_ids; [apply Hd|]|].
  intros [d1 [u|e]] [H1 He]; cbn [fst snd] in *; [|apply keeps_with_ret; by rewrite (He e)].
  set (d2 := on_owner (with_persist true) d1).
  apply (ensures_bind _ _ _ (fun d3 => ids_ok (queue d3))).
  { unfold lift. eapply ensures_bind; [apply ensures_weaken, fold_journals_of_ids; exact H1|]. intros o H. by apply ensures_ret. }
  intros d3 H3. apply keeps_bind; [apply lift_quiet; [by apply recompute_all_ok|intros o; apply startup_quiet]|].
  intros d4 H4. apply keeps_bind; [by apply saved_keeps|]. intros d5 H5. by apply keeps_with_ret.
Qed.

Lemma fold_max l : forall a, a <= fold_left Z.max l a /\ Forall (fun x => x <= fold_left Z.max l a) l.
Proof.
  induction l as [|x l IH]; intros a; simpl; [split; [lia|constructor]|]. destruct (IH (Z.max a x)) as [H1 H2].
  split; [lia|]. constructor; [lia|done].
Qed.

Lemma on_adopt_replicated_keeps js d : NoDup (map job_id js) -> keeps_with (on_adopt_replicated shelf js d).
Proof.
  intros Hn. unfold on_adopt_replicated. apply keeps_bind; [|intros d1 H1; by apply keeps_with_ret]. apply saved_keeps.
  apply (recompute_all_ok (set_next_ids _ _ (set_pending [] (set_jobs js (queue d))))). split; [done|].
  apply bound_app. split; [|constructor]. apply Forall_forall. intros j Hj. destruct (fold_max (map job_id js) 0) as [_ H].
  rewrite Forall_forall in H. apply H. apply list_elem_of_fmap. by exists j.
Qed.

(** ** Every command *)

(** What the environment owes a command: ids are not exhausted, a reserved id is
    in no job, the jobs of a replicated authority are distinct, a snapshot's
    counter covers its jobs. *)
Definition sound_input (q : QueueState) (c : QueueCommand) : Prop :=
  match c with
  | ReserveTorrentAdmission _ _ _ | AddParsed _ _ _ _ _ _ _ | AddUrl _ _ _ _ _ _ _ => 0 <= next_job_id q < u32_max
  | CommitTorrentAdmission job _ => job ∉ map job_id (jobs q)
  | AdoptReplicatedAuthority js => NoDup (map job_id js)
  | AdoptAuthority => counts_its_jobs (commands_now shelf)
  | _ => True
  end.

Lemma on_command_keeps d c : accounted (queue d) -> sound_input (queue d) c -> keeps_with (on_command shelf d c).
Proof.
  intros Hd Hc. destruct c; cbn [on_command sound_input] in *; unfold pure_reply, no_reply.
  - by apply on_reserve_keeps.
  - by apply on_commit_keeps.
  - by apply on_cancel_keeps.
  - by apply on_add_parsed_keeps.
  - by apply on_add_url_keeps.
  - by apply on_complete_keeps.
  - by apply on_fail_keeps.
  - by apply on_set_file_paused_keeps.
  - by apply on_delete_file_keeps.
  - by apply on_pause_keeps.
  - by apply on_resume_keeps.
  - by apply on_quiesce_keeps.
  - by apply on_delete_keeps.
  - by apply on_set_priority_keeps.
  - by apply on_set_category_keeps.
  - by apply on_set_seed_policy_keeps.
  - apply ensures_ret. by apply on_move_keeps.
  - apply keeps_with_ret. by eapply accounted_jobs_eq; [..|exact Hd].
  - apply keeps_with_ret. by apply on_resume_all_keeps.
  - apply keeps_with_ret. by apply on_set_speed_limit_keeps.
  - apply keeps_with_ret. unfold enqueue. pose proof (enqueue_state (l_env (lane_of shelf)) (d_owner d) (BC_SetUploadLimit bytes_per_sec)) as E.
    destruct (enqueue_backend_command _ _ _) as [o b]. cbn [fst] in *. unfold queue. simpl. by rewrite E.
  - apply ensures_ret. by apply on_set_max_active_keeps.
  - apply keeps_with_bind; [by eapply counts_keep, import_job_counts|]. intros d1 b H1. by apply keeps_with_ret.
  - by apply import_if_present_keeps.
  - by apply keeps_with_ret.
  - pose proof (remove_silent_keeps job d Hd) as H. destruct (remove_job_silent job d). by apply keeps_with_ret.
  - apply ensures_ret. by apply on_set_delegated_keeps.
  - apply keeps_with_ret. unfold on_mirror_progress. by case_if.
  - apply keeps_bind; [|intros d1 H1; by apply keeps_with_ret]. unfold lift.
    eapply ensures_bind; [apply ensures_weaken, fold_job_journals_ids; apply Hd|]. intros o (H1 & H2 & _). apply ensures_ret.
    split; [exact H1|apply H2, Hd].
  - by apply keeps_with_ret.
  - by apply keeps_with_ret.
  - by apply keeps_with_ret.
  - apply keeps_with_bind; [by apply adopt_authority_keeps|]. intros d1 r H1. by apply keeps_with_ret.
  - by apply on_adopt_replicated_keeps.
  - by apply on_set_status_keeps.
  - apply ensures_ret. by apply on_enter_stage_keeps.
  - apply keeps_with_ret. by apply on_close_stage_keeps.
  - pose proof (unpause_keeps job blocks block_size d Hd) as H. destruct (unpause_par_blocks job blocks block_size d). by apply keeps_with_ret.
  - apply keeps_with_ret. by apply on_retain_keeps.
Qed.
End Handlers.

(** ** The tick *)

Section Tick.
Context {jc : JournalCodec} {dc : DocCodec}.
Variable lane : Lane.

Definition same_books (j j' : Job) : Prop := job_id j' = job_id j /\ files j' = files j /\ totals j' = totals j.

Lemma same_books_put q id j j' : accounted q -> find_job q id = Some j -> same_books j j' -> accounted (update_job q id (fun _ => j')).
Proof.
  intros Hq Hj (E1 & E2 & E3). pose proof (found_totals _ _ _ Hq Hj) as Ht. apply find_job_id in Hj.
  apply accounted_update; [intros; congruence| |done]. intros x _ _. unfold job_totals_ok in *. by rewrite E2, E3.
Qed.

Lemma rename_books j nm s p : same_books j (rename_job j nm s p).
Proof. unfold rename_job. by case_if. Qed.

Lemma progress_books j p : same_books j (fst (reconcile_progress j p)).
Proof. unfold reconcile_progress. destruct (torrent j); [|done]. by case_if. Qed.

Lemma folded_books j t f latest now roots canon j' : folded_fact canon j t f latest now roots = Some j' -> same_books j j'.
Proof.
  destruct f; simpl; try (by intros [= <-]).
  - intros [= <-]. unfold fact_metadata. set (j0 := set_torrent _ j). case_if; [|done]. case_if; [done|].
    exact (rename_books j0 (md_name m) true false).
  - unfold fact_ready. repeat (case_if; [done|]). by intros [= <-].
  - intros [= <-]. unfold fact_stopped. repeat case_match; done.
  - intros [= <-]. unfold fact_resumed. by case_if.
  - intros [= <-]. by destruct outcome.
Qed.

Lemma fact_books canon j f latest now roots : same_books j (fst (reconcile_fact_with_roots canon j f latest now roots)).
Proof.
  unfold reconcile_fact_with_roots. destruct (torrent j) as [t|]; [|done]. case_if; [done|].
  destruct (folded_fact canon j t f latest now roots) as [j'|] eqn:E; [|done]. by eapply folded_books.
Qed.

Lemma fold_progress_keeps d e : accounted (queue d) -> accounted (queue (fold_progress lane d e)).
Proof.
  intros Hd. destruct e as [id p]. unfold fold_progress. destruct (find_job (queue d) id) as [j|] eqn:Hj; [|done].
  pose proof (progress_books j p) as Hb. destruct (reconcile_progress j p) as [j' out]. cbn [fst] in Hb.
  pose proof (same_books_put _ _ _ _ Hd Hj Hb) as H. destruct (durable_changed out); by case_if.
Qed.

Lemma foldl_keeps {A} (f : Desk -> A -> Desk) l : (forall d a, accounted (queue d) -> accounted (queue (f d a))) ->
  forall d, accounted (queue d) -> accounted (queue (fold_left f l d)).
Proof. intros Hf. induction l as [|a l IH]; intros d Hd; [done|]. simpl. by apply IH, Hf. Qed.

Lemma edit_torrent_of_keeps job f d : accounted (queue d) -> accounted (queue (edit_torrent_of job f d)).
Proof. intros Hd. unfold edit_torrent_of. destruct (find_job (queue d) job ≫= torrent); [|done]. by apply accounted_edit. Qed.

Lemma observe_state env o w : o_state (observe_out_of_space env o w) = o_state o.
Proof.
  unfold observe_out_of_space. cbn [o_disk_low with_enospc_latched with_enospc_where with_enospc_observed]. destruct (o_disk_low o); [done|].
  unfold pause_incomplete_torrents_for_storage. set (l := map job_id _). set (o1 := with_disk_low true _).
  change (o_state o) with (o_state o1). clearbody l o1. revert o1. induction l as [|id l IH]; intros o1; [done|]. simpl. rewrite IH.
  unfold pause_for_storage. pose proof (enqueue_state env o1 (BC_PauseForStorage id)) as E.
  destruct (enqueue_backend_command env o1 _) as [o2 b]. by destruct b.
Qed.

Lemma reconcile_keeps d f : accounted (queue d) -> accounted (queue (reconcile lane f d)).
Proof.
  intros Hd. unfold reconcile. destruct (find_job (queue d) (fact_job f)) as [j|] eqn:Hj; [|done].
  pose proof (fact_books (l_canonicalize lane) j f (d_progress d !! fact_job f) (now_of lane) (l_payload_roots lane)) as Hb.
  destruct (reconcile_fact_with_roots _ _ _ _ _ _) as [j' out]. cbn [fst] in Hb.
  pose proof (same_books_put _ _ _ _ Hd Hj Hb) as H. set (d1 := edit_job _ _ d).
  set (d2 := if durable_changed out then dirty d1 else d1). assert (H2 : accounted (queue d2)) by (unfold d2; by destruct (durable_changed out)).
  set (d3 := if is_failure f then _ else d2). assert (H3 : accounted (queue d3)) by (unfold d3; destruct (is_failure f); [by apply edit_torrent_of_keeps|done]).
  destruct (storage_hold out); [|done]. unfold queue. simpl. by rewrite observe_state.
Qed.

Lemma fold_fact_keeps d f : accounted (queue d) -> accounted (queue (fold_fact lane d f)).
Proof.
  intros Hd. unfold fold_fact. destruct f; try by apply reconcile_keeps.
  destruct (disposition_of outcome); [by apply edit_torrent_of_keeps|by apply reconcile_keeps].
Qed.

Lemma retire_all_keeps l : forall d, accounted (queue d) -> keeps_accounts (retire_all lane l d).
Proof.
  induction l as [|j l IH]; intros d Hd; simpl; [by apply ensures_ret|]. eapply ensures_bind with (P := fun d => accounted (queue d)); [|exact IH].
  unfold retire. destruct (torrent j ≫= _) as [[t at_unix]|]; [|by apply ensures_ret]. case_if; [|by apply ensures_ret].
  by apply keeps_fst, delete_job_keeps.
Qed.

Lemma finalize_keeps d : accounted (queue d) -> keeps_accounts (finalize_confirmed_torrent_removals lane d).
Proof.
  intros Hd. unfold finalize_confirmed_torrent_removals. destruct (List.filter _ _); [by apply ensures_ret|].
  eapply ensures_bind; [eapply (keeps_of_queue _ d); [exact Hd|apply persisted_queue]|]. intros [d1 ok] H1.
  destruct ok; [by apply retire_all_keeps|by apply ensures_ret].
Qed.

Lemma flush_state env l : forall o, o_state (flush_backend_commands env l o) = o_state o.
Proof. induction l as [|c l IH]; intros o; [done|]. simpl. destruct (e_try_command env c); [apply IH|done|done]. Qed.

Lemma start_torrent_state o job : o_state (start_torrent lane o job) = o_state o.
Proof.
  unfold start_torrent. case_if; [done|]. pose proof (enqueue_state (l_env lane) o (BC_Start job)) as E.
  destruct (enqueue_backend_command _ o _) as [o1 b]. by destruct b.
Qed.

Lemma yield_torrent_state o job : o_state (yield_torrent lane o job) = o_state o.
Proof.
  unfold yield_torrent. pose proof (enqueue_state (l_env lane) o (BC_PauseForScheduler job)) as E.
  destruct (enqueue_backend_command _ o _) as [o1 b]. by destruct b.
Qed.

Lemma schedule_state o : o_state (schedule_torrent_starts lane o) = o_state o.
Proof.
  unfold schedule_torrent_starts. 
  assert (HF : forall (f : Owner -> JobId -> Owner) l o, (forall o x, o_state (f o x) = o_state o) -> o_state (fold_left f l o) = o_state o).
  { intros f l. induction l as [|x l IH]; intros o1 Hf; [done|]. simpl. by rewrite IH, Hf. }
  rewrite HF by apply yield_torrent_state. apply HF, start_torrent_state.
Qed.

Lemma retry_finalize_state env l o : o_state (retry_finalize env l o) = o_state o.
Proof. apply retry_finalize_core. Qed.

Lemma retry_queue env l d : queue (on_owner (fun o => retry_finalize env l (with_pending_finalize [] o)) d) = queue d.
Proof. apply (retry_finalize_state env l (with_pending_finalize [] (d_owner d))). Qed.

Lemma desk_tick_keeps rate due d : accounted (queue d) -> keeps_accounts (desk_tick lane rate due d).
Proof.
  intros Hd. unfold desk_tick. set (d0 := on_owner _ d). assert (H0 : accounted (queue d0)) by (unfold d0, queue; simpl; by rewrite flush_state).
  eapply ensures_bind with (P := fun d => accounted (queue d)).
  { apply finalize_keeps. apply foldl_keeps; [apply fold_fact_keeps|]. unfold fold_backend_progress. unfold queue. simpl.
    apply (foldl_keeps (fold_progress lane)); [apply fold_progress_keeps|done]. }
  intros d1 H1. eapply ensures_bind with (P := fun p => accounted (queue (fst p))); [by apply update_seed_policies_keeps|].
  intros [d2 checkpoint] H2. cbn [fst] in H2. set (d3 := on_owner _ d2).
  assert (H3 : accounted (queue d3)).
  { unfold d3, queue. cbn [on_owner with_owner d_owner]. set (o1 := settle_download_labels _ _).
    assert (Ho : accounted (o_state o1)) by (eapply accounted_quiet; [apply settle_labels_quiet|done]).
    assert (Hs : accounted (o_state (update_disk_guard (l_env lane) (schedule_torrent_starts lane o1))))
      by (apply disk_guard_keeps; by rewrite schedule_state).
    case_if; [|done]. unfold update_quota_guard. case_if; [|done]. by destruct (cluster_totals _ _ _ _ _). }
  set (d4 := rebalance_download_budget lane rate d3). assert (H4 : accounted (queue d4)) by (unfold d4; by rewrite rebalance_queue).
  clearbody d4. clear d3 H3. set (d5 := on_owner _ d4). eapply ensures_bind with (P := fun _ => True); [apply ensures_weaken, sync_total|].
  intros [jn r] _. set (d6 := on_owner (with_journal jn) d5). set (d7 := on_owner _ d6).
  assert (H7 : accounted (queue d7)) by (unfold d7; rewrite retry_queue; exact H4). clearbody d7.
  case_if; [by apply keeps_fst, save_keeps|by apply ensures_ret].
Qed.
End Tick.

(** ** The invariant *)

Inductive Input :=
| I_Command (shelf : Shelf) (c : QueueCommand)
| I_Tick (lane : Lane) (usenet_rate : Z) (save_due : bool).

Definition on_input {jc : JournalCodec} {dc : DocCodec} (d : Desk) (i : Input) : io Desk :=
  match i with
  | I_Command shelf c => let* (d, _) := on_command shelf d c in io_ret d
  | I_Tick lane rate due => desk_tick lane rate due d
  end.

Definition input_ok {jc : JournalCodec} {dc : DocCodec} (d : Desk) (i : Input) : Prop :=
  match i with I_Command shelf c => sound_input shelf (queue d) c | I_Tick _ _ _ => True end.

(** C6: every command and every tick of the queue owner, whatever the file
    system, the backend and the history answer, keeps the job ids unique and at
    most the counter, and the totals of every job an exact recount of its
    segments; none of them fails.  Ids must not be exhausted where one is
    allocated, and the jobs that other nodes or a snapshot bring must agree with
    themselves. *)
Theorem commands_accounted {jc : JournalCodec} {dc : DocCodec} d i w :
  accounted (queue d) -> input_ok d i ->
  match on_input d i w with
  | (Val d', _) => accounted (queue d')
  | (Fails _, _) => False
  | (Crashed, _) => True
  end.
Proof.
  intros Hd Hi. assert (H : keeps_accounts (on_input d i)).
  { destruct i as [shelf c|lane rate due]; [by apply keeps_fst, on_command_keeps|by apply desk_tick_keeps]. }
  specialize (H w). destruct (on_input d i w) as [[d'|e|] w']; [by destruct H|done|done].
Qed.

Lemma commands_accounted_witness :
  let d := desk_of sample_queue in
  match on_input (jc := counted_journal) (dc := counted_doc) d (I_Command sample_shelf (DeleteFile 1 1)) empty_world with
  | (Val d', _) => map files (jobs (queue d')) = [[]] /\ accounted (queue d')
  | _ => False
  end.
Proof.
  intros d. assert (H : accounted (queue d)).
  { split; [split; vm_compute; repeat constructor; try (by intros ?%elem_of_nil); done|]. vm_compute. by repeat constructor. }
  pose proof (commands_accounted (jc := counted_journal) (dc := counted_doc) d (I_Command sample_shelf (DeleteFile 1 1)) empty_world H I) as Ht.
  destruct (on_input _ _ _) as [[d'|e|] w'] eqn:E; [|done|by vm_compute in E]. split; [|exact Ht].
  change (match (Val d', w') with (Val d0, _) => map files (jobs (queue d0)) = [[]] | _ => True end). rewrite <- E. by vm_compute.
Defined.
