(* ===== verification/Dispatch.v ===== *)
(** * The queue owner's loop ([crates/nzbd-engine/src/owner.rs])

    Everything that reaches the owner ([EngineMsg]), its dispatch ([on_msg]) and
    the loop of [run], which takes one message or one tick at a time.  The
    answers sent back are not part of the state. *)

From S2P Require Import Prelude RustStr Crc32 Types Failover Volumes Nzb JobNames Queue Selection ParSelect Fs Codec Store Owner OwnerInv Leases Recovery Float Torrents History Desk Commands Accounts.

#[local] Unset Default Proof Using.

Inductive EngineMsg :=
| Command (c : QueueCommand)
| WorkRequest (server : ServerId) (max : nat)
| SegmentWritten (r : SegRef) (off len crc fsize : Z) (server : ServerId)
| SegmentFailed (r : SegRef) (server : ServerId) (out : AttemptOutcome)
| ConnectFailed (server : ServerId)
| WriterFinalized (job : JobId) (file : FileId) (ok has_path : bool) (combined_crc : option Z)
| WriterError (job : JobId) (file : FileId) (error : str)
| OutOfSpace (whence : str)
| JobNameInspected (job : JobId) (nm : option str).

Section Dispatch.
Context {jc : JournalCodec} {dc : DocCodec}.

Definition on_msg (shelf : Shelf) (d : Desk) (m : EngineMsg) : io Desk :=
  let env := desk_env shelf d in
  match m with
  | Command c => let* (d, _) := on_command shelf d c in io_ret d
  | WorkRequest server max => lift (fun o => let* (o, _) := grant_work env o server (Nat.max max 1) in io_ret o) d
  | SegmentWritten r off len crc fsize server => lift (fun o => on_segment_written env o r off len crc fsize server) d
  | SegmentFailed r server out => lift (fun o => on_segment_failed env o r server out) d
  | ConnectFailed server => io_ret (on_owner (fun o => block_server env o server) d)
  | WriterFinalized job file ok has_path crc => lift (fun o => on_writer_finalized env o job file ok has_path crc) d
  | WriterError job file error =>
      let d := if is_out_of_space error then on_owner (fun o => observe_out_of_space env o error) d else d in
      lift (fun o => fail_whole_file env o job file) d
  | OutOfSpace whence => io_ret (on_owner (fun o => observe_out_of_space env o whence) d)
  | JobNameInspected job nm => lift (fun o => on_job_name_inspected env o job nm) d
  end.

(** One turn of the loop. *)
Inductive Turn :=
| Received (shelf : Shelf) (m : EngineMsg)
| Ticked (lane : Lane) (usenet_rate : Z) (save_due : bool).

Definition turn (d : Desk) (t : Turn) : io Desk :=
  match t with
  | Received shelf m => on_msg shelf d m
  | Ticked lane rate due => desk_tick lane rate due d
  end.

Fixpoint run_turns (ts : list Turn) (d : Desk) : io Desk :=
  match ts with
  | [] => io_ret d
  | t :: ts' => let* d := turn d t in run_turns ts' d
  end.

(** ** The messages of the transfer *)

Definition transfer_of (m : EngineMsg) : option TransferStep :=
  match m with
  | Command _ => None
  | WorkRequest server max => Some (Owner.WorkRequest server max)
  | SegmentWritten r off len crc fsize server => Some (Owner.SegmentWritten r off len crc fsize server)
  | SegmentFailed r server out => Some (Owner.SegmentFailed r server out)
  | ConnectFailed server => Some (Owner.ConnectFailed server)
  | WriterFinalized job file ok has_path crc => Some (Owner.WriterFinalized job file ok has_path crc)
  | WriterError job file error => Some (Owner.WriterError job file error)
  | OutOfSpace whence => Some (Owner.OutOfSpace whence)
  | JobNameInspected job nm => Some (Owner.JobNameInspected job nm)
  end.

(** Such a message is a step of the owner's transfer. *)
Lemma on_msg_transfer shelf d m x : transfer_of m = Some x ->
  on_msg shelf d m = lift (fun o => transfer_step (desk_env shelf d) o x) d.
Proof. destruct m; intros [= <-]; cbn [on_msg transfer_step]; [done..| |done|done]. by case_if. Qed.

Definition step_of (t : Turn) : option TransferStep :=
  match t with
  | Received _ m => transfer_of m
  | Ticked _ _ _ => None
  end.

(** ** A tick that retires nothing *)

Definition flushed (lane : Lane) (d : Desk) : Desk :=
  on_owner (fun o => flush_backend_commands (l_env lane) (o_backend_pending o) o) d.
Definition folded_in (lane : Lane) (d : Desk) : Desk := fold_backend_structural lane (fold_backend_progress lane (flushed lane d)).

(** The torrents whose confirmed removal this tick would record and retire. *)
Definition retires (lane : Lane) (d : Desk) : list Job := List.filter awaits_retirement (jobs (queue (folded_in lane d))).

End Dispatch.
