(* ===== verification/DeskInv.v ===== *)
(** * The whole tick under an invariant of the queue and its journals

    [desk_tick], with all it does for torrents, leaves the transfer's parts as
    they were when it retires no torrent; on the way it syncs the journals once
    and saves only through the owner's save.  As for the owner's handlers
    ([OwnerInv]), stated over an arbitrary invariant that survives those two. *)

From S2P Require Import Prelude RustStr Crc32 Types Failover Volumes Nzb JobNames Queue Selection ParSelect Fs Codec Store Owner OwnerInv Leases Recovery Float Torrents History Desk Commands Accounts Dispatch.

#[local] Unset Default Proof Using.

Lemma update_first_found {A} (p : A -> bool) (f g : A -> A) l x : find p l = Some x -> f x = g x ->
  update_first p f l = update_first p g l.
Proof.
  intros Hx E. induction l as [|y l IH]; [done|]. simpl in *. destruct (p y); [by injection Hx as ->; rewrite E|].
  by rewrite IH.
Qed.

(** [j'] with the id, files and totals of [j]. *)
Definition books_of (j' j : Job) : Job := {|
  job_id := job_id j; kind := kind j'; name := name j'; dir_name := dir_name j'; name_provisional := name_provisional j';
  queued_at_unix := queued_at_unix j'; original_name := original_name j'; category := category j'; priority := priority j';
  dupe := dupe j'; params := params j'; files := files j; totals := totals j; status := status j'; torrent := torrent j';
  stages := stages j' |}.

Lemma quiet_put q id j j' : find_job q id = Some j -> same_books j j' -> quiet q (update_job q id (fun _ => j')).
Proof.
  intros Hj (E1 & E2 & E3). unfold update_job.
  rewrite (update_first_found _ _ (books_of j') _ j Hj); [by apply (quiet_update_job q id (books_of j'))|].
  unfold books_of. rewrite <- E1, <- E2, <- E3. by destruct j'.
Qed.

(** What a step of the desk leaves alone. *)
Record undisturbing (d d' : Desk) : Prop := {
  ud_quiet : quiet (queue d) (queue d');
  ud_journal : o_journal (d_owner d') = o_journal (d_owner d)
}.

#[export] Instance undisturbing_preorder : PreOrder undisturbing.
Proof. split; [by split|]. intros d1 d2 d3 [A1 A2] [B1 B2]. split; [by etransitivity|congruence]. Qed.

Lemma undisturbing_eq d d' : queue d' = queue d -> o_journal (d_owner d') = o_journal (d_owner d) -> undisturbing d d'.
Proof. intros E1 E2. split; [by rewrite E1|done]. Qed.

Lemma enqueue_core env o c : o_state (fst (enqueue_backend_command env o c)) = o_state o /\
  o_journal (fst (enqueue_backend_command env o c)) = o_journal o.
Proof. unfold enqueue_backend_command. repeat case_match; simplify_eq; done. Qed.

Lemma foldl_undisturbing {A} (f : Desk -> A -> Desk) l : (forall d a, undisturbing d (f d a)) ->
  forall d, undisturbing d (fold_left f l d).
Proof. intros Hf. induction l as [|a l IH]; intros d; [done|]. simpl. by etransitivity; [|apply IH]. Qed.

Lemma foldl_core {A} (f : Owner -> A -> Owner) l : (forall o a, o_state (f o a) = o_state o /\ o_journal (f o a) = o_journal o) ->
  forall o, o_state (fold_left f l o) = o_state o /\ o_journal (fold_left f l o) = o_journal o.
Proof. intros Hf. induction l as [|a l IH]; intros o; [done|]. simpl. destruct (IH (f o a)) as [-> ->]. apply Hf. Qed.

Section DeskInv.
Context {jc : JournalCodec} {dc : DocCodec}.
Variable lane : Lane.

(** ** What the tick does outside of the disk *)

Lemma put_undisturbing d id j j' : find_job (queue d) id = Some j -> same_books j j' ->
  undisturbing d (edit_job id (fun _ => j') d).
Proof. intros Hj Hb. split; [by apply (quiet_put _ _ j)|done]. Qed.

Lemma edit_undisturbing d id f : (forall j, same_books j (f j)) -> undisturbing d (edit_job id f d).
Proof. intros Hf. split; [|done]. apply quiet_update_job; intros j; apply Hf. Qed.

Lemma fold_progress_undisturbing d e : undisturbing d (fold_progress lane d e).
Proof.
  destruct e as [id p]. unfold fold_progress. destruct (find_job (queue d) id) as [j|] eqn:Hj; [|done].
  pose proof (progress_books j p) as Hb. destruct (reconcile_progress j p) as [j' out]. cbn [fst] in Hb.
  pose proof (put_undisturbing _ _ _ _ Hj Hb) as [H1 H2]. destruct (durable_changed out); case_if; by split.
Qed.

Lemma edit_torrent_undisturbing job f d : undisturbing d (edit_torrent_of job f d).
Proof.
  unfold edit_torrent_of. destruct (find_job (queue d) job ≫= torrent); [|done].
  by destruct (edit_undisturbing d job (put_torrent f) ltac:(done)).
Qed.

Lemma observe_undisturbing env w d : undisturbing d (on_owner (fun o => observe_out_of_space env o w) d).
Proof. destruct (observe_core env (d_owner d) w) as [E1 E2]. by apply undisturbing_eq. Qed.

Lemma reconcile_undisturbing d f : undisturbing d (reconcile lane f d).
Proof.
  unfold reconcile. destruct (find_job (queue d) (fact_job f)) as [j|] eqn:Hj; [|done].
  pose proof (fact_books (l_canonicalize lane) j f (d_progress d !! fact_job f) (now_of lane) (l_payload_roots lane)) as Hb.
  destruct (reconcile_fact_with_roots _ _ _ _ _ _) as [j' out]. cbn [fst] in Hb.
  transitivity (edit_job (fact_job f) (fun _ => j') d); [by eapply put_undisturbing|]. set (d1 := edit_job _ _ d).
  transitivity (if durable_changed out then dirty d1 else d1); [by destruct (durable_changed out)|]. set (d2 := if _ : bool then _ else d1).
  set (d3 := if is_failure f then _ else d2).
  transitivity d3; [unfold d3; destruct (is_failure f); [apply edit_torrent_undisturbing|done]|].
  destruct (storage_hold out); [apply observe_undisturbing|done].
Qed.

Lemma fold_fact_undisturbing d f : undisturbing d (fold_fact lane d f).
Proof.
  unfold fold_fact. set (d1 := on_owner _ d). transitivity d1; [done|].
  destruct f; try apply reconcile_undisturbing.
  destruct (disposition_of outcome); [apply edit_torrent_undisturbing|apply reconcile_undisturbing].
Qed.

Lemma folded_in_undisturbing d : undisturbing d (folded_in lane d).
Proof.
  unfold folded_in. transitivity (flushed lane d).
  { destruct (flush_core (l_env lane) (o_backend_pending (d_owner d)) (d_owner d)) as [E1 E2]. by apply undisturbing_eq. }
  transitivity (fold_backend_progress lane (flushed lane d)); [|apply foldl_undisturbing, fold_fact_undisturbing].
  transitivity (fold_left (fold_progress lane) (map_to_list (l_latest lane)) (flushed lane d)); [|by split].
  apply foldl_undisturbing, fold_progress_undisturbing.
Qed.

(** The guards and the torrents' starts. *)
Definition guarded_tick (d : Desk) : Desk :=
  on_owner (fun o =>
    let o := with_guard_tick (wrap32 (o_guard_tick o + 1)) o in
    let o := settle_download_labels (env_of lane d) o in
    let o := schedule_torrent_starts lane o in
    let o := update_disk_guard (l_env lane) o in
    if o_guard_tick o mod 10 =? 1 then update_quota_guard (l_env lane) o else o) d.

Lemma schedule_core o : o_state (schedule_torrent_starts lane o) = o_state o /\
  o_journal (schedule_torrent_starts lane o) = o_journal o.
Proof.
  unfold schedule_torrent_starts.
  assert (Hs : forall o job, o_state (start_torrent lane o job) = o_state o /\ o_journal (start_torrent lane o job) = o_journal o).
  { intros o1 job. unfold start_torrent. case_if; [done|].
    pose proof (enqueue_core (l_env lane) o1 (BC_Start job)). destruct (enqueue_backend_command _ o1 _) as [o2 b]. by destruct b. }
  assert (Hy : forall o job, o_state (yield_torrent lane o job) = o_state o /\ o_journal (yield_torrent lane o job) = o_journal o).
  { intros o1 job. unfold yield_torrent.
    pose proof (enqueue_core (l_env lane) o1 (BC_PauseForScheduler job)). destruct (enqueue_backend_command _ o1 _) as [o2 b]. by destruct b. }
  match goal with |- context [fold_left (yield_torrent lane) ?l ?o] => destruct (foldl_core _ l Hy o) as [-> ->] end.
  apply foldl_core, Hs.
Qed.

Lemma guarded_tick_undisturbing d : undisturbing d (guarded_tick d).
Proof.
  set (o1 := with_guard_tick (wrap32 (o_guard_tick (d_owner d) + 1)) (d_owner d)).
  set (o2 := settle_download_labels (env_of lane d) o1). set (o3 := schedule_torrent_starts lane o2).
  set (o4 := update_disk_guard (l_env lane) o3).
  destruct (settle_labels_quiet (env_of lane d) o1) as [Q2 J2]. fold o2 in Q2, J2.
  destruct (schedule_core o2) as [S3 J3]. fold o3 in S3, J3.
  destruct (update_disk_guard_quiet (l_env lane) o3) as [Q4 J4]. fold o4 in Q4, J4.
  assert (H4 : undisturbing d (with_owner o4 d)).
  { split; [|change (o_journal o4 = o_journal o1); congruence]. unfold queue at 2. cbn [with_owner d_owner]. etransitivity; [exact Q2|]. by rewrite <- S3. }
  unfold guarded_tick, on_owner. fold o1 o2 o3 o4. case_if; [|done].
  etransitivity; [exact H4|]. unfold update_quota_guard. case_if; [|done]. by destruct (cluster_totals _ _ _ _ _).
Qed.

Lemma rebalance_journal rate d : o_journal (d_owner (rebalance_download_budget lane rate d)) = o_journal (d_owner d).
Proof.
  unfold rebalance_download_budget. destruct (allocate_download_budget _ _ _ _ _) as [u t]. cbv zeta.
  set (d1 := if bool_decide _ then d else _). assert (E1 : o_journal (d_owner d1) = o_journal (d_owner d)) by (unfold d1; by case_if).
  case_if; [done|]. unfold enqueue. pose proof (enqueue_core (l_env lane) (d_owner d1) (BC_SetDownloadLimit t)) as [_ E].
  destruct (enqueue_backend_command _ _ _) as [o b]. cbn [fst] in E. rewrite <- E1, <- E. by case_if.
Qed.

(** The tick, cut at its passages through the disk. *)
Definition after_sync (due : bool) (jn : JobJournals) (d : Desk) : io Desk :=
  let d := on_owner (with_journal jn) d in
  let pending := o_pending_finalize (d_owner d) in
  let d := on_owner (fun o => retry_finalize (env_of lane d) pending (with_pending_finalize [] o)) d in
  if o_dirty (d_owner d) && due then let* (d, _) := save lane d in io_ret d else io_ret d.

Definition before_sync (rate : Z) (d : Desk) : Desk :=
  on_owner (fun o => with_blocked (filter (fun '(_, until) => e_instant (l_env lane) < until) (o_blocked o)) o)
    (rebalance_download_budget lane rate (guarded_tick d)).

Lemma desk_tick_cut rate due d : retires lane d = [] ->
  desk_tick lane rate due d =
    let* (d, checkpoint) := update_seed_policies lane (folded_in lane d) in
    let d := before_sync rate d in
    let* (jn, _) := sync (o_journal (d_owner d)) in after_sync (checkpoint || due) jn d.
Proof.
  intros Hr. assert (E : finalize_confirmed_torrent_removals lane (folded_in lane d) = io_ret (folded_in lane d)).
  { unfold finalize_confirmed_torrent_removals. unfold retires in Hr. by rewrite Hr. }
  unfold desk_tick. fold (flushed lane d). fold (folded_in lane d). rewrite E.
  change (io_bind (io_ret (folded_in lane d)) ?k) with (k (folded_in lane d)). cbv beta.
  unfold before_sync, after_sync, guarded_tick. cbv zeta. f_equal.
Qed.

Lemma before_sync_undisturbing rate d : undisturbing d (before_sync rate d).
Proof.
  pose proof (guarded_tick_undisturbing d) as H. unfold before_sync. generalize dependent (guarded_tick d). intros d1 H.
  transitivity d1; [done|]. pose proof (rebalance_queue lane rate d1) as E1. pose proof (rebalance_journal rate d1) as E2.
  generalize dependent (rebalance_download_budget lane rate d1). intros d2 E1 E2. by apply undisturbing_eq.
Qed.

(** ** What it does to the disk *)

Variable I : QueueState -> JobJournals -> World -> Prop.
Variable C : World -> Prop.
Hypothesis I_done : forall q q' j w, I q j w -> same_done q q' -> I q' j w.
Hypothesis I_save : forall env o w, inv I o w ->
  wp (save_snapshot env o) (fun p w' => o_state (fst p) = o_state o /\ inv I (fst p) w') no_error C w.

Definition minds (d : Desk) (w : World) : Prop := inv I (d_owner d) w.

Lemma minds_undisturbing d d' w : minds d w -> undisturbing d d' -> minds d' w.
Proof. intros Hi [Q J]. by eapply inv_quiet. Qed.

Lemma save_minds d w : minds d w ->
  wp (Desk.save lane d) (fun p w' => queue (fst p) = queue d /\ minds (fst p) w') no_error C w.
Proof.
  intros Hi. pose proof (I_save (env_of lane d) (d_owner d) w Hi) as H.
  unfold Desk.save, Desk.save_result. unfold wp, save_snapshot, io_bind in *.
  destruct (save_snapshot_result (env_of lane d) (d_owner d) w) as [[[o r]|e|] w']; [|done|done].
  destruct r as [[]|e]; cbn [io_ret fst] in *; exact H.
Qed.

Lemma persisted_minds d w : minds d w ->
  wp (Desk.persisted lane d) (fun p w' => queue (fst p) = queue d /\ minds (fst p) w') no_error C w.
Proof. intros Hi. unfold Desk.persisted. case_if; [by apply save_minds|by apply wp_ret]. Qed.

Lemma persist_then_command_minds c d w : minds d w ->
  wp (persist_then_command lane c d) (fun p w' => queue (fst p) = queue d /\ minds (fst p) w') no_error C w.
Proof.
  intros Hi. unfold persist_then_command. destruct (o_backend_pending (d_owner d)).
  - apply wp_bind. eapply wp_mono; [by apply persisted_minds| |done|done]. intros [d1 ok] w1 [E H1]. cbn [fst] in *.
    destruct ok; [|by apply wp_ret]. pose proof (enqueue_core (l_env lane) (d_owner d1) c) as [S J].
    destruct (enqueue_backend_command _ _ _) as [o b]. apply wp_ret. cbn [fst] in *. split; [by rewrite <- E|].
    unfold minds, inv. cbn [with_owner d_owner]. by rewrite S, J.
  - case_if; [by apply wp_ret|]. apply wp_bind. eapply wp_mono; [by apply persisted_minds| |done|done].
    intros [d1 ok] w1 [E H1]. cbn [fst] in *. by destruct ok; apply wp_ret.
Qed.

Lemma stop_seeding_minds d job r w : minds d w ->
  wp (stop_seeding lane d job r) (fun d' w' => quiet (queue d) (queue d') /\ minds d' w') no_error C w.
Proof.
  intros Hi. unfold stop_seeding. destruct (find_job (queue d) job) as [j|] eqn:Hj; [|by apply wp_ret].
  set (stop := fun j => set_status JS_Paused (put_torrent (intend_pause r) j)).
  assert (U1 : undisturbing d (dirty (edit_job job stop d))) by (by destruct (edit_undisturbing d job stop ltac:(done))).
  set (d1 := dirty _) in *. apply wp_bind.
  eapply wp_mono; [apply persist_then_command_minds; by eapply minds_undisturbing| |done|done].
  intros [d2 ok] w2 [E H2]. cbn [fst] in *. apply wp_ret. destruct ok.
  - split; [rewrite E; apply U1|done].
  - assert (F : find_job (queue d2) job = Some (stop j)).
    { rewrite E. unfold d1. change (find_job (update_job (queue d) job stop) job = Some (stop j)).
      rewrite find_job_update, Z.eqb_refl by done. by rewrite Hj. }
    assert (U3 : undisturbing d2 (edit_job job (fun _ => j) d2)) by (by eapply put_undisturbing).
    split; [|by eapply minds_undisturbing]. etransitivity; [apply U1|]. rewrite <- E. apply U3.
Qed.

Lemma stop_all_minds l : forall d w, minds d w ->
  wp (stop_all lane l d) (fun d' w' => quiet (queue d) (queue d') /\ minds d' w') no_error C w.
Proof.
  induction l as [|[job r] l IH]; intros d w Hi; cbn [stop_all]; [by apply wp_ret|].
  apply wp_bind. eapply wp_mono; [by apply stop_seeding_minds| |done|done]. intros d1 w1 [Q1 H1].
  eapply wp_mono; [by apply IH| |done|done]. intros d2 w2 [Q2 H2]. split; [by etransitivity|done].
Qed.

Lemma update_seed_policies_minds d w : minds d w ->
  wp (update_seed_policies lane d) (fun p w' => quiet (queue d) (queue (fst p)) /\ minds (fst p) w') no_error C w.
Proof.
  intros Hi. unfold update_seed_policies. cbv zeta. set (js := map _ _). set (d1 := if existsb _ _ then _ else _).
  assert (U1 : undisturbing d d1).
  { assert (Q : quiet (queue d) (set_jobs js (queue d))) by (apply quiet_map_jobs; intros j; unfold accrue; by case_if).
    unfold d1. case_if; by split. }
  apply wp_bind. eapply wp_mono; [apply stop_all_minds; by eapply minds_undisturbing| |done|done].
  intros d2 w2 [Q2 H2]. apply wp_ret. split; [|done]. etransitivity; [apply U1|exact Q2].
Qed.

(** The whole tick; [J] is what holds from its sync on. *)
Lemma desk_tick_minds (J : QueueState -> JobJournals -> World -> Prop) rate due d w :
  (forall q j w, I q j w -> wp (sync j) (fun p w' => J q (fst p) w') no_error C w) ->
  (forall env o w, inv J o w ->
     wp (save_snapshot env o) (fun p w' => o_state (fst p) = o_state o /\ inv J (fst p) w') no_error C w) ->
  retires lane d = [] -> minds d w ->
  wp (desk_tick lane rate due d) (fun d' w' => quiet (queue d) (queue d') /\ inv J (d_owner d') w') no_error C w.
Proof.
  intros J_sync J_save Hr Hi. rewrite desk_tick_cut by done.
  pose proof (folded_in_undisturbing d) as U0. apply wp_bind.
  eapply wp_mono; [apply update_seed_policies_minds; by eapply minds_undisturbing| |done|done].
  intros [d1 checkpoint] w1 [Q1 H1]. cbn [fst] in *. cbv zeta. pose proof (before_sync_undisturbing rate d1) as U2.
  assert (Q : quiet (queue d) (queue (before_sync rate d1))).
  { etransitivity; [apply U0|]. etransitivity; [exact Q1|apply U2]. }
  pose proof (minds_undisturbing _ _ _ H1 U2) as H2. generalize dependent (before_sync rate d1). clear -J_sync J_save.
  intros d2 _ Q H2. apply wp_bind. eapply wp_mono; [apply (J_sync _ _ _ H2)| |done|done]. intros [jn a] w3 H3. cbn [fst] in H3.
  unfold after_sync. cbv zeta. set (d3 := on_owner (with_journal jn) d2).
  set (d4 := on_owner (fun o => retry_finalize _ _ _) d3).
  destruct (retry_finalize_core (env_of lane d3) (o_pending_finalize (d_owner d3)) (with_pending_finalize [] (d_owner d3))) as [S4 J4].
  assert (H4 : inv J (d_owner d4) w3 /\ queue d4 = queue d2) by (unfold inv, d4, queue; cbn [on_owner with_owner d_owner]; by rewrite S4, J4).
  destruct H4 as [H4 E4]. rewrite <- E4 in Q. case_if; [|by apply wp_ret].
  apply wp_bind. pose proof (J_save (env_of lane d4) (d_owner d4) w3 H4) as H5.
  unfold Desk.save, Desk.save_result. unfold wp, save_snapshot, io_bind in *.
  destruct (save_snapshot_result (env_of lane d4) (d_owner d4) w3) as [[[o r]|e|] w5]; [|done|done].
  destruct r as [[]|e]; cbn [io_ret fst] in *; destruct H5 as [E5 H5]; (split; [|exact H5]); unfold queue in *; cbn; by rewrite E5.
Qed.

End DeskInv.
