(* ===== verification/Restart.v ===== *)
(** * Progress survives crashes ([crates/nzbd-engine/src/owner.rs], [crates/nzbd-state])

    The owner's loop keeps the invariant of [Crash] over transfer messages and
    whole ticks, so that [recover] gives back what was done at the last of the
    ticks ([crash_recovery]); and what that rests on: a file system that commits
    a synced file's entry ([unsynced_entry_lost]). *)

From S2P Require Import Prelude RustStr Crc32 Types Failover Volumes Nzb JobNames Queue Selection ParSelect Fs Codec Store Owner OwnerInv Leases Recovery Crash Float Torrents History Desk Commands Accounts Dispatch DeskInv.

#[local] Unset Default Proof Using.

Section Turns.
Context {jc : JournalCodec} {dc : DocCodec}.

(** No command, and no torrent whose removal was confirmed is retired. *)
Definition peaceful (d : Desk) (t : Turn) : Prop :=
  match t with
  | Received _ (Command _) => False
  | Received _ _ => True
  | Ticked lane _ _ => retires lane d = []
  end.

Fixpoint undisturbed (ts : list Turn) (d : Desk) (w : World) : Prop :=
  match ts with
  | [] => True
  | t :: ts' => peaceful d t /\ match turn d t w with (Val d', w') => undisturbed ts' d' w' | _ => True end
  end.

Definition steps_of (ts : list Turn) : list TransferStep := omap step_of ts.

(** ** The invariant, turn by turn *)

Variable q0 : QueueState.
Variable L : Ledger.
Hypothesis L_exists : forall r v, L r = Some v -> segment_exists q0 r = true.
Hypothesis ids_ok : Forall (fun js => is_u32 (fst js)) (shape q0).

Abbreviation alive := (alive q0 L).
Abbreviation stops_safe := (stops_safe q0 L).

Lemma turn_alive S d t ms w : peaceful d t -> unique_refs (queue d) -> inv (alive S) (d_owner d) w ->
  heads_to L (steps_of [t] ++ ms) (queue d) ->
  wp (turn d t) (fun d' w' => ledgered (steps_of [t]) (queue d) (queue d') /\ inv (alive S) (d_owner d') w') no_error (stops_safe S) w.
Proof.
  intros Hp Hu Hi HL. destruct t as [shelf m|lane rate due]; cbn [turn].
  - destruct (transfer_of m) as [x|] eqn:Hx; [|by destruct m].
    assert (Es : steps_of [Received shelf m] = [x]) by (unfold steps_of; simpl; by rewrite Hx). rewrite Es in *.
    rewrite (on_msg_transfer shelf d m x Hx). unfold lift. apply wp_bind.
    eapply wp_mono; [by apply (transfer_step_alive q0 L L_exists ids_ok S _ (d_owner d) x ms w)| |done|done].
    intros o' w' [H1 H2]. apply wp_ret. split; [by apply handles_ledgered|done].
  - eapply wp_mono.
    + apply (desk_tick_minds lane (alive S) (stops_safe S) (alive_done q0 L S) (wp_save q0 L S) (alive S)); try done.
      * apply wp_sync_alive.
      * apply wp_save.
    + intros d' w' [Q H]. split; [by apply quiet_ledgered|done].
    + done.
    + done.
Qed.

Lemma run_alive S rest ts : forall d w, unique_refs (queue d) -> inv (alive S) (d_owner d) w -> undisturbed ts d w ->
  heads_to L (steps_of ts ++ rest) (queue d) ->
  wp (run_turns ts d) (fun d' w' => ledgered (steps_of ts) (queue d) (queue d') /\ inv (alive S) (d_owner d') w')
    no_error (stops_safe S) w.
Proof.
  induction ts as [|t ts IH]; intros d w Hu Hi Hp HL; cbn [run_turns]; [by apply wp_ret|]. destruct Hp as [Hp Hps].
  assert (Es : steps_of (t :: ts) = steps_of [t] ++ steps_of ts) by (unfold steps_of; simpl; by destruct (step_of t)).
  rewrite Es, <- app_assoc in *. pose proof (turn_alive S d t (steps_of ts ++ rest) w Hp Hu Hi HL) as H1.
  apply wp_bind. unfold wp in H1. unfold wp at 1. destruct (turn d t w) as [[d1|e|] w1]; [|done|done]. destruct H1 as [H1 Hi1].
  eapply wp_mono; [apply (IH d1 w1)| |done|done]; [by eapply unique_shape; [apply (le_shape _ _ _ H1)|]|done|done| |].
  - intros r. rewrite (ledgered_fold _ _ _ _ _ H1). apply HL.
  - intros d2 w2 [H2 Hi2]. split; [by eapply ledgered_app|done].
Qed.

(** A tick makes everything done so far durable. *)
Lemma tick_alive S lane rate due d w : retires lane d = [] -> inv (alive S) (d_owner d) w ->
  wp (desk_tick lane rate due d) (fun d' w' => quiet (queue d) (queue d') /\ inv (alive (done_at (queue d))) (d_owner d') w')
    no_error (stops_safe S) w.
Proof.
  intros Hr Hi. set (S2 := done_at (queue d)).
  assert (HSS : forall r v, S r = Some v -> S2 r = Some v) by (destruct Hi as [_ [s H]]; apply (ho_sub _ _ _ _ _ _ _ H)).
  assert (Hsub : forall w', stops_safe S2 w' -> stops_safe S w').
  { intros w' [(s & Hs & HS & Hsn) Hw Hf Hg Hl]. split; [|by intros r v Hv; eapply Hw, HSS|done..].
    exists s. split_and!; [done|intros r v Hv; by apply HS, HSS|].
    destruct Hsn as [?|(s' & Hs' & HS' & ?)]; [by left|right]. exists s'. split_and!; [done|intros r v Hv; by apply HS', HSS|done]. }
  apply (desk_tick_minds lane (fun q j w => alive S q j w /\ forall r, done_at q r = S2 r) (stops_safe S)); [| | | |done|by split].
  - intros q q' j w' [Ha Hd] Hq. split; [by eapply alive_done|]. intros r. by rewrite (sd_done _ _ Hq).
  - intros env o w' [Ha Hd]. eapply wp_mono; [by apply (wp_save q0 L S env o w')| |done|done].
    intros p w2 [E H]. split; [done|]. split; [exact H|]. intros r. by rewrite E.
  - intros q j w' [[Hc [s Hh]] Hd]. eapply wp_mono; [by apply (wp_sync q0 L S s q j w')| |done|done].
    intros [j' x] w1 [Hc1 Hh1]. split; [done|]. exists s. eapply holds_weaken; [exact Hh1|]. intros r v Hv. by rewrite Hd.
  - intros env o w' Hj. eapply wp_mono; [by apply (wp_save q0 L S2 env o w')|done|done|apply Hsub].
Qed.

End Turns.

(** ** The theorem *)

Section Start.
Context {jc : JournalCodec} {dc : DocCodec}.

(** The owner has just saved: the snapshot is the queue, no journal is left, and
    those that were removed hold nothing else of the queue's parts. *)
Record started (o : Owner) (w : World) : Prop := {
  st_saved : committed (Some (doc_file (to_doc (o_state o)))) (disk w);
  st_journals : forall dir nm f, job_file (disk w) dir nm = Some f -> ~ is_journal nm;
  st_gone : gone_of (journal_of (o_state o) (done_at (o_state o))) (disk w);
  st_open : jj_open (o_journal o) = ∅;
  st_legacy : legacy_empty (disk w);
  st_calm : calm (fates w);
  st_unique : unique_refs (o_state o);
  st_ids : Forall (fun js => is_u32 (fst js)) (shape (o_state o))
}.

Lemma started_alive L o w : started o w -> (forall r v, done_at (o_state o) r = Some v -> L r = Some v) ->
  inv (alive (o_state o) L (done_at (o_state o))) o w.
Proof.
  intros [H1 H2 Hg H3 H4 H5 H6 H7] HL. split; [done|]. exists (o_state o). split; try done.
  - by left.
  - by intros r v Hv; left.
  - intros dir nm f Hf Hj. by destruct (H2 dir nm f).
  - intros dir nm f Hf Hj. destruct (Hg dir nm f Hf Hj) as (rs & n & Hc & HF). exists rs, n. split; [done|].
    eapply Forall_impl; [exact HF|]. intros rec Hk He. by apply HL, Hk.
  - rewrite H3. by intros job ?%elem_of_empty.
Qed.

(** The ledger of all the messages. *)
Definition ledger_of (q : QueueState) (ms : list TransferStep) : Ledger :=
  fold_left (ledger_step (segment_exists q)) ms (done_at q).

End Start.

(** C4: progress survives crashes.  From an owner that has just saved, let its
    loop take any messages of connections and writers and any ticks, then a
    tick, then any of them again, and let the machine stop at any file-system
    call (or after the last), the calls before it succeeding; no command comes
    and no torrent is retired meanwhile.  Each unsynced file keeps any prefix of
    what was written after its last sync, one that was never synced may be gone,
    and a removed one may be back; an entry whose file was synced stays (on a
    file system that commits the entry with the file; see
    [unsynced_entry_lost]).  Unless the naming repair panics on the snapshot,
    recovery succeeds; the queue has its identifiers, every part that was done
    when the tick began is done, with its offset, length and CRC, and nothing is
    done that no message reported. *)
Theorem crash_recovery {jc : JournalCodec} {dc : DocCodec} now ts1 lane rate due ts2 d0 d1 d2 w0 w1 w2 w3 res dd :
  started (d_owner d0) w0 ->
  undisturbed ts1 d0 w0 -> retires lane d1 = [] -> undisturbed ts2 d2 w2 ->
  run_turns ts1 d0 w0 = (Val d1, w1) -> turn d1 (Ticked lane rate due) w1 = (Val d2, w2) -> run_turns ts2 d2 w2 = (res, w3) ->
  crash_disk true (disk w3) dd ->
  match recover now true {| disk := dd; fates := [] |} with
  | (Val (q, _), _) =>
      shape q = shape (queue d0) /\
      (forall r v, done_at (queue d1) r = Some v -> done_at q r = Some v) /\
      (forall r v, done_at q r = Some v -> ledger_of (queue d0) (steps_of ts1 ++ steps_of ts2) r = Some v)
  | (Fails _, _) => False
  | (Crashed, _) => panics_on now dd
  end.
Proof.
  intros Hst P1 PT P2 H1 Ht H2 Hdd. set (q0 := queue d0). set (L := ledger_of q0 (steps_of ts1 ++ steps_of ts2)).
  assert (HLk : forall r v, done_at q0 r = Some v -> L r = Some v) by (intros r v; apply ledger_keeps).
  assert (HLe : forall r v, L r = Some v -> segment_exists q0 r = true) by (apply ledger_exists; apply done_exists).
  pose proof (st_unique _ _ Hst) as Hu. pose proof (st_ids _ _ Hst) as Hids.
  pose proof (run_alive q0 L HLe Hids (done_at q0) (steps_of ts2) ts1 d0 w0 Hu (started_alive L _ w0 Hst HLk) P1
    ltac:(by intros r)) as W1. unfold wp in W1. rewrite H1 in W1. destruct W1 as [[E1 D1] I1].
  pose proof (tick_alive q0 L (done_at q0) lane rate due d1 w1 PT I1) as WT. unfold wp in WT. cbn [turn] in Ht. rewrite Ht in WT.
  destruct WT as [QT IT]. destruct (k_done _ _ (quiet_keeps _ _ QT)) as [ET DT].
  assert (Hu2 : unique_refs (queue d2)) by (eapply unique_shape; [etransitivity; [exact ET|exact E1]|exact Hu]).
  assert (HL2 : heads_to L (steps_of ts2 ++ []) (queue d2)).
  { intros r. rewrite app_nil_r. unfold L, ledger_of. rewrite fold_left_app.
    rewrite (ledger_fold_ex _ (segment_exists q0)) by (intros r'; apply segment_exists_shape; etransitivity; [exact ET|exact E1]).
    apply ledger_fold_ext. intros r'. by rewrite DT, D1. }
  pose proof (run_alive q0 L HLe Hids (done_at (queue d1)) [] ts2 d2 w2 Hu2 IT P2 HL2) as W2. unfold wp in W2.
  rewrite H2 in W2.
  assert (Hsafe : safe q0 L (done_at (queue d1)) (disk w3)).
  { destruct res as [d3|e|]; [|done|exact W2]. destruct W2 as [_ I3]. by eapply alive_safe. }
  pose proof (recover_good q0 L HLe now _ dd (sf_within _ _ _ _ Hsafe) (safe_good _ _ _ _ _ Hsafe Hdd)) as HR. unfold still in HR.
  destruct (recover now true _) as [[[q sizes]|e|] w4]; [|done..]. by destruct HR as [R1 R2 R3].
Qed.

(** The crash that loses all that was not synced. *)
Definition lose_file (f : DFile) : DFile := {| content := take (durable f) (content f); durable := durable f |}.
Definition lose (d : Disk) : Disk := mkDisk (lose_file <$> top d) ((fun fs : gmap str DFile => lose_file <$> fs) <$> jobdirs d) [] [].

Definition within_file (f : DFile) : Prop := (durable f <= length (content f))%nat.
#[export] Instance within_file_dec f : Decision (within_file f).
Proof. unfold within_file. apply _. Defined.

Lemma lose_entry names olds o : (forall f, o = Some f -> within_file f) -> crash_entry names olds o (lose_file <$> o).
Proof.
  destruct o as [f|]; intros H; simpl.
  - apply (entry_found _ _ _ f); [done|]. exists (durable f). split; [|done]. split; [done|]. by apply H.
  - apply entry_lost. by intros [_ (f & [=] & _)].
Qed.

Lemma lose_json d : map_Forall (fun _ => within_file) (top d) ->
  exists o, o ∈ (top d !! QUEUE_JSON) :: json_old d /\ option_Forall2 crash_file o (top (lose d) !! QUEUE_JSON).
Proof.
  intros Ht. exists (top d !! QUEUE_JSON). split; [left|]. cbn [lose top]. rewrite lookup_fmap.
  destruct (top d !! QUEUE_JSON) as [f|] eqn:E; constructor. exists (durable f). split; [|done]. split; [done|].
  exact (Ht QUEUE_JSON f E).
Qed.

Lemma lose_crash names d : map_Forall (fun _ => within_file) (top d) ->
  map_Forall (fun _ => map_Forall (fun _ => within_file)) (jobdirs d) -> crash_disk names d (lose d).
Proof.
  intros Ht Hj. split; [by apply lose_json|done| |].
  - intros nm _ _. cbn [lose top]. rewrite lookup_fmap. apply lose_entry. intros f. apply (Ht nm).
  - intros dir nm. unfold job_file. cbn [lose jobdirs]. rewrite lookup_fmap.
    destruct (jobdirs d !! dir) as [fs|] eqn:E; simpl.
    + rewrite lookup_fmap. apply lose_entry. intros f. by apply (Hj dir fs).
    + by apply (lose_entry names _ None).
Qed.

Definition value_of (d : Desk) (r : outcome Desk * World) : Desk := match fst r with Val d' => d' | _ => d end.

(** Two files of one part each. *)
Definition two_files : QueueState :=
  fst (admit_nzb to_ascii_lowercase queue_default 0 (lit "n") (sample_nzb [lit "f"; lit "g"]) None 0 true).

Definition saved_world (q : QueueState) (fs : list Fate) : World :=
  {| disk := mkDisk {[QUEUE_JSON := doc_file (dc := counted_doc) (to_doc q)]} ∅ [] []; fates := fs |}.

Lemma two_files_started fs : calm fs ->
  started (jc := counted_journal) (dc := counted_doc) (owner_of two_files) (saved_world two_files fs).
Proof.
  intros Hc. split; [| | | |by vm_compute|exact Hc|..].
  - split; [by vm_compute|done|]. by intros f [= <-].
  - intros dir nm f. unfold job_file. simpl. by rewrite lookup_empty.
  - by intros dir nm f ?%elem_of_nil.
  - done.
  - split; [apply (bool_decide_unpack _); by vm_compute|]. repeat constructor; vm_compute; set_solver.
  - repeat constructor; apply (bool_decide_unpack _); by vm_compute.
Qed.

(** A part is reported before the tick and another after it; the machine stops
    while the second one's record is written, and what was not synced is lost. *)
Lemma crash_recovery_witness :
  let r f := {| sr_job := 1; sr_file := f; seg_number := 1 |} in
  let ts1 := [Received sample_shelf (SegmentWritten (r 1) 0 90 7 90 1)] in
  let ts2 := [Received sample_shelf (SegmentWritten (r 2) 0 90 8 90 1)] in
  let d0 := desk_of two_files in let w0 := saved_world two_files (repeat Succeed 4 ++ [CrashAt 3]) in
  let s1 := run_turns (jc := counted_journal) (dc := counted_doc) ts1 d0 w0 in
  let d1 := value_of d0 s1 in
  let s2 := turn (jc := counted_journal) (dc := counted_doc) d1 (Ticked sample_lane 0 false) (snd s1) in
  let s3 := run_turns (jc := counted_journal) (dc := counted_doc) ts2 (value_of d1 s2) (snd s2) in
  let dd := lose (disk (snd s3)) in
  fst s3 = Crashed /\
  done_at (queue d1) (r 1) = Some (0, 90, 7) /\
  match recover (jc := counted_journal) (dc := counted_doc) 1000 true {| disk := dd; fates := [] |} with
  | (Val (q, _), _) =>
      shape q = shape two_files /\
      (forall r v, done_at (queue d1) r = Some v -> done_at q r = Some v) /\
      (forall r v, done_at q r = Some v -> ledger_of two_files (steps_of ts1 ++ steps_of ts2) r = Some v)
  | (Fails _, _) => False
  | (Crashed, _) => panics_on (dc := counted_doc) 1000 dd
  end.
Proof.
  intros r ts1 ts2 d0 w0 s1 d1 s2 s3 dd. split; [by vm_compute|]. split; [by vm_compute|].
  apply (crash_recovery (jc := counted_journal) (dc := counted_doc) 1000 ts1 sample_lane 0 false ts2
           d0 d1 (value_of d1 s2) w0 (snd s1) (snd s2) (snd s3) (fst s3) dd).
  - apply two_files_started. repeat constructor.
  - split; [done|by vm_compute].
  - by vm_compute.
  - split; [done|by vm_compute].
  - by vm_compute.
  - by vm_compute.
  - apply surjective_pairing.
  - apply lose_crash; apply (bool_decide_unpack _); by vm_compute.
Defined.

(** ** What POSIX alone gives

    [JobJournals::file_for] creates [jobs/<id>/journal.<node>] and syncs neither
    directory.  Where syncing a file does not commit its entry, a crash right
    after the tick may lose the whole journal, and with it a part that was done. *)
Definition entries_lost (d : Disk) : Disk := mkDisk (lose_file <$> top d) ∅ [] [].

Lemma unsynced_entry_lost :
  let r := {| sr_job := 1; sr_file := 1; seg_number := 1 |} in
  let s := run_turns (jc := counted_journal) (dc := counted_doc)
    [Received sample_shelf (SegmentWritten r 0 90 7 90 1); Ticked sample_lane 0 false] (desk_of two_files) (saved_world two_files []) in
  let dd := entries_lost (disk (snd s)) in
  crash_disk false (disk (snd s)) dd /\
  match s, recover (jc := counted_journal) (dc := counted_doc) 1000 true {| disk := dd; fates := [] |} with
  | (Val d, _), (Val (q, _), _) => done_at (queue d) r = Some (0, 90, 7) /\ done_at q r = None
  | _, _ => False
  end.
Proof.
  intros r s dd. split; [|by vm_compute].
  split; [apply lose_json; apply (bool_decide_unpack _); by vm_compute|done| |].
  - intros nm _ _. cbn [dd entries_lost top]. rewrite lookup_fmap. apply lose_entry. intros f.
    apply (bool_decide_unpack (map_Forall (fun _ => within_file) (top (disk (snd s))))). by vm_compute.
  - intros dir nm. apply entry_lost. by intros [? _].
Qed.
