(* ===== verification/Carry.v ===== *)
(** * What a command and a tick do to the parts that are done

    Per handler of [Commands] and [Desk]: a part that is done stays done with its
    offset, length and CRC, unless the command names it ([loses]), and none
    becomes done, unless the command brings it ([gains]). *)

From S2P Require Import Prelude RustStr Crc32 Types Failover Volumes Nzb JobNames Queue Selection ParSelect Fs Codec Store Owner OwnerInv Leases Recovery Float Torrents History Desk Commands Accounts Dispatch DeskInv.

#[local] Unset Default Proof Using.

(** ** Done parts, job by job *)

Definition done_in (j : Job) (file : FileId) (n : Z) : option (Z * Z * Z) :=
  find (fun f => file_id f =? file) (files j) ≫= fun f => find (fun s => number s =? n) (segments f) ≫= done_value.

Lemma done_at_in q r : done_at q r = find_job q (sr_job r) ≫= fun j => done_in j (sr_file r) (seg_number r).
Proof.
  unfold done_at, seg_at, find_file, done_in. destruct (find_job q (sr_job r)) as [j|]; [|done]. cbn.
  by destruct (find _ (files j)).
Qed.

Lemma done_at_files q q' r : map (fun j => (job_id j, files j)) (jobs q') = map (fun j => (job_id j, files j)) (jobs q) ->
  done_at q' r = done_at q r.
Proof.
  intros E. rewrite !done_at_in. set (g := fun jf : JobId * list FileEntry => 
    find (fun f => file_id f =? sr_file r) (snd jf) ≫= fun f => find (fun s => number s =? seg_number r) (segments f) ≫= done_value).
  assert (H : forall q, (find_job q (sr_job r) ≫= fun j => done_in j (sr_file r) (seg_number r)) =
    (find (fun jf => fst jf =? sr_job r) (map (fun j => (job_id j, files j)) (jobs q)) ≫= g)).
  { intros q1. rewrite <- (fmap_find (fun j => (job_id j, files j)) (fun jf => fst jf =? sr_job r)). cbn.
    unfold find_job. by destruct (find _ (jobs q1)). }
  by rewrite !H, E.
Qed.

Lemma find_remove_other (id id' : JobId) l : id' <> id ->
  find (fun j => job_id j =? id') (remove_first (fun j => job_id j =? id) l) = find (fun j => job_id j =? id') l.
Proof.
  intros Hne. induction l as [|j l IH]; [done|]. cbn [remove_first find]. destruct (job_id j =? id) eqn:E; cbn [find].
  - bool_hyps. assert (job_id j =? id' = false) as -> by lia. done.
  - by rewrite IH.
Qed.

Lemma find_push (id : JobId) l j : find (fun x => job_id x =? id) (l ++ [j]) =
  match find (fun x => job_id x =? id) l with Some x => Some x | None => if job_id j =? id then Some j else None end.
Proof. induction l as [|x l IH]; [done|]. cbn [app find]. by destruct (job_id x =? id). Qed.

Definition undone (j : Job) : Prop := forall file n, done_in j file n = None.

Lemma undone_pending j : Forall (fun f => Forall (fun s => done_value s = None) (segments f)) (files j) -> undone j.
Proof.
  intros HF file n. unfold done_in. destruct (find _ (files j)) as [f|] eqn:Ef; [|done]. cbn.
  apply find_some in Ef as [Hf _]. rewrite Forall_forall in HF. specialize (HF f ltac:(by apply list_elem_of_In)).
  destruct (find _ (segments f)) as [s|] eqn:Es; [|done]. cbn. apply find_some in Es as [Hs _].
  rewrite Forall_forall in HF. apply HF. by apply list_elem_of_In.
Qed.

Lemma build_files_pending lower q parsed pause :
  Forall (fun f => Forall (fun s => done_value s = None) (segments f)) (snd (build_files lower q parsed pause)).
Proof.
  unfold build_files.
  assert (H : forall pfs next seen out, Forall (fun f => Forall (fun s => done_value s = None) (segments f)) out ->
    Forall (fun f => Forall (fun s => done_value s = None) (segments f))
      (snd (fold_left (build_file lower pause) pfs (next, seen, out)))).
  { induction pfs as [|pf pfs IH]; intros next seen out Ho; [done|]. cbn [fold_left build_file]. apply IH.
    apply Forall_app. split; [done|]. constructor; [|constructor]. cbn [segments]. apply Forall_fmap. by apply Forall_true. }
  specialize (H (nzb_files parsed) (next_file_id q) ∅ [] ltac:(constructor)).
  by destruct (fold_left _ _ _) as [[n s] o].
Qed.

(** ** The relation *)

Section Carried.
Variable q0 : QueueState.
Variables loses gains : SegRef -> bool.

(** What a command may do to one part. *)
Definition passes (r : SegRef) (o o' : option (Z * Z * Z)) : Prop := loses r = false ->
  (forall v, o = Some v -> o' = Some v) /\ (gains r = false -> forall v, o' = Some v -> o = Some v).

Definition carried (q : QueueState) : Prop := forall r, passes r (done_at q0 r) (done_at q r).

Lemma part_passes_trans r o1 o2 o3 : passes r o1 o2 -> passes r o2 o3 -> passes r o1 o3.
Proof. intros H1 H2 Hl. destruct (H1 Hl) as [A1 B1], (H2 Hl) as [A2 B2]. auto. Qed.

Lemma passes_same r o o' : o' = o -> passes r o o'.
Proof. intros ->. by split. Qed.

Lemma passes_lost r o o' : loses r = true -> passes r o o'.
Proof. intros H Hl. congruence. Qed.

Lemma carried_refl : carried q0.
Proof. intros r. by apply passes_same. Qed.

Lemma carried_step q q' : carried q -> (forall r, passes r (done_at q r) (done_at q' r)) -> carried q'.
Proof. intros Hq Hs r. by eapply part_passes_trans. Qed.

Lemma carried_done q q' : (forall r, done_at q' r = done_at q r) -> carried q -> carried q'.
Proof. intros E Hq. eapply carried_step; [exact Hq|]. intros r. by apply passes_same. Qed.

Lemma carried_quiet q q' : quiet q q' -> carried q -> carried q'.
Proof. intros [_ _ Hs _]. apply carried_done. intros r. unfold done_at. by rewrite Hs. Qed.

Lemma carried_jobs_eq q q' : jobs q' = jobs q -> carried q -> carried q'.
Proof. intros E. apply carried_done. intros r. apply done_at_files. by rewrite E. Qed.

Lemma carried_files q q' : map (fun j => (job_id j, files j)) (jobs q') = map (fun j => (job_id j, files j)) (jobs q) ->
  carried q -> carried q'.
Proof. intros E. apply carried_done. intros r. by apply done_at_files. Qed.

Lemma carried_edit q id f : (forall j, job_id (f j) = job_id j) -> (forall j, files (f j) = files j) ->
  carried q -> carried (update_job q id f).
Proof. intros H1 H2. apply carried_done. intros r. unfold done_at. by rewrite seg_at_update_job. Qed.

(** Whatever happens to a job whose parts may all be lost. *)
Lemma carried_lost q q' job : (forall r, sr_job r = job -> loses r = true) ->
  (forall id, id <> job -> find_job q' id = find_job q id) -> carried q -> carried q'.
Proof.
  intros Hl Hs Hq. eapply carried_step; [exact Hq|]. intros r. destruct (decide (sr_job r = job)) as [E|E].
  - by apply passes_lost, Hl.
  - apply passes_same. by rewrite !done_at_in, Hs.
Qed.

Lemma carried_push q q' j : jobs q' = jobs q ++ [j] -> undone j \/ (forall r, sr_job r = job_id j -> gains r = true) ->
  carried q -> carried q'.
Proof.
  intros E Hj Hq. eapply carried_step; [exact Hq|]. intros r Hl. rewrite !done_at_in. unfold find_job. rewrite E, find_push.
  destruct (find _ (jobs q)) as [x|]; [by split|]. split; [done|]. intros Hg v. destruct (job_id j =? sr_job r) eqn:Ej; [|done].
  bool_hyps. cbn. destruct Hj as [Hj|Hj]; [by rewrite Hj|]. rewrite Hj in Hg; [done|by symmetry].
Qed.

(** A job that is put back as it was found. *)
Lemma carried_put q q' job j : find_job q job = Some j -> carried q -> carried q' ->
  carried (update_job q' job (fun _ => j)).
Proof.
  intros Hj Hq Hq' r. pose proof (find_job_id _ _ _ Hj) as E. destruct (decide (sr_job r = job)) as [Er|Er].
  - destruct (find_job q' job) as [x|] eqn:Hx.
    + assert (F : done_at (update_job q' job (fun _ => j)) r = done_at q r).
      { rewrite !done_at_in, Er, Hj. unfold find_job, update_job, set_jobs in *. cbn [jobs].
        rewrite find_update_same by (intros y _; lia). by rewrite Hx. }
      rewrite F. apply Hq.
    + assert (F : done_at (update_job q' job (fun _ => j)) r = done_at q' r); [|rewrite F; apply Hq'].
      rewrite !done_at_in, Er. unfold find_job, update_job, set_jobs in *. cbn [jobs].
      rewrite find_update_same by (intros y _; lia). by rewrite Hx.
  - assert (F : done_at (update_job q' job (fun _ => j)) r = done_at q' r); [|rewrite F; apply Hq'].
    rewrite !done_at_in. unfold find_job, update_job, set_jobs. cbn [jobs].
    rewrite find_update_other; [done|]. intros y Hy. bool_hyps. lia.
Qed.

(** ** Computations *)

Definition bears (m : io Desk) : Prop := ensures_or True m (fun d => carried (queue d)).
Definition bears_with {A} (m : io (Desk * A)) : Prop := ensures_or True m (fun p => carried (queue (fst p))).

Lemma bears_ret d : carried (queue d) -> bears (io_ret d).
Proof. intros H. by apply ensures_ret. Qed.

Lemma bears_with_ret {A} d (a : A) : carried (queue d) -> bears_with (io_ret (d, a)).
Proof. intros H. by apply ensures_ret. Qed.

Lemma bears_bind {A} (m : io Desk) (k : Desk -> io (Desk * A)) : bears m ->
  (forall d, carried (queue d) -> bears_with (k d)) -> bears_with (io_bind m k).
Proof. intros Hm Hk. eapply ensures_bind; [exact Hm|]. exact Hk. Qed.

Lemma bears_with_bind {A B} (m : io (Desk * A)) (k : Desk * A -> io (Desk * B)) : bears_with m ->
  (forall d a, carried (queue d) -> bears_with (k (d, a))) -> bears_with (io_bind m k).
Proof. intros Hm Hk. eapply ensures_bind; [exact Hm|]. intros [d a]. apply Hk. Qed.

Lemma bears_fst {A} (m : io (Desk * A)) : bears_with m -> bears (io_bind m (fun '(d, _) => io_ret d)).
Proof. intros Hm. eapply ensures_bind; [exact Hm|]. intros [d a] H. by apply ensures_ret. Qed.

Lemma bears_of_queue {A} (m : io (Desk * A)) d : carried (queue d) -> ensures m (fun p => queue (fst p) = queue d) -> bears_with m.
Proof. intros Hd Hm. eapply ensures_mono; [by apply ensures_weaken|]. intros p E. cbv beta in *. by rewrite E. Qed.

Lemma bears_replied (m : io (Desk * bool)) : bears_with m -> bears_with (replied m).
Proof. intros Hm. apply bears_with_bind; [done|]. intros d ok Hd. by apply bears_with_ret. Qed.

Section Lane.
Context {jc : JournalCodec} {dc : DocCodec}.
Variable lane : Lane.

Lemma save_bears d : carried (queue d) -> bears_with (Desk.save lane d).
Proof. intros H. eapply bears_of_queue; [exact H|apply save_queue]. Qed.

Lemma lift_bears f d : carried (queue d) -> (forall o, ensures (f o) (fun o' => quiet (o_state o) (o_state o'))) -> bears (lift f d).
Proof.
  intros Hd Hf. unfold lift. eapply ensures_bind; [apply ensures_weaken, Hf|]. intros o H. apply ensures_ret.
  exact (carried_quiet _ _ H Hd).
Qed.

Lemma restore_bears d job j : find_job (queue d) job = Some j -> carried (queue d) -> forall d', carried (queue d') ->
  carried (queue (edit_job job (fun _ => j) d')).
Proof. intros Hj Hd d' Hd'. by apply (carried_put (queue d) (queue d')). Qed.

Lemma attempt_bears job f act d : carried (queue d) -> (forall j, job_id (f j) = job_id j) -> (forall j, files (f j) = files j) ->
  (forall d, ensures (act d) (fun p => queue (fst p) = queue d)) -> bears_with (attempt job f act d).
Proof.
  intros Hd H1 H2 Ha. unfold attempt. set (d1 := dirty _). assert (Hd1 : carried (queue d1)) by (by apply carried_edit).
  apply bears_with_bind; [eapply (bears_of_queue _ d1); [exact Hd1|apply Ha]|]. intros d2 ok Hd2.
  destruct ok; apply bears_with_ret; [done|]. destruct (find_job (queue d) job) as [j|] eqn:Hj; [|done].
  by eapply restore_bears.
Qed.

(** ** Deleting and seeding *)

Lemma carried_forget job j d : (forall r, sr_job r = job -> loses r = true) -> carried (queue d) -> carried (queue (forget job j d)).
Proof.
  intros Hl. rewrite forget_queue. apply (carried_lost _ _ job Hl). intros id Hne. by apply find_remove_other.
Qed.

Lemma delete_job_bears job b d : (forall r, sr_job r = job -> loses r = true) -> carried (queue d) ->
  bears_with (delete_job lane job b d).
Proof.
  intros Hl Hd. unfold delete_job. case_if; [by apply bears_with_ret|].
  destruct (find_job (queue d) job) as [j|]; [|by apply bears_with_ret].
  destruct (l_prepare_forget lane job); cbn [negb]; [|by apply bears_with_ret].
  set (d1 := on_owner _ d). assert (H1 : carried (queue (forget job j d1))) by (by apply carried_forget).
  apply bears_bind.
  - case_if; [|by apply bears_ret]. eapply ensures_bind with (P := fun _ => True); [|by intros [jn r] _; apply ensures_ret].
    apply ensures_weaken. unfold remove_job. eapply ensures_bind; [apply ensures_try; behave|].
    intros [u|e] _; [by apply ensures_ret|]. case_if; by apply ensures_ret.
  - intros d2 H2. apply bears_with_bind; [by apply save_bears|]. intros d3 b3 H3. by apply bears_with_ret.
Qed.

Lemma stop_seeding_bears d job r : carried (queue d) -> bears (stop_seeding lane d job r).
Proof.
  intros Hd. unfold stop_seeding. destruct (find_job (queue d) job) as [j|] eqn:Hj; [|by apply bears_ret].
  set (d1 := dirty _). assert (H1 : carried (queue d1)) by (by apply carried_edit).
  eapply ensures_bind; [eapply (bears_of_queue _ d1); [exact H1|apply persist_then_command_queue]|]. intros [d2 ok] H2.
  apply ensures_ret. destruct ok; [done|]. by eapply restore_bears.
Qed.

Lemma stop_all_bears l : forall d, carried (queue d) -> bears (stop_all lane l d).
Proof.
  induction l as [|[job r] l IH]; intros d Hd; simpl; [by apply bears_ret|].
  eapply ensures_bind; [by apply stop_seeding_bears|]. intros d1 H1. by apply IH.
Qed.

Lemma update_seed_policies_bears d : carried (queue d) -> bears_with (update_seed_policies lane d).
Proof.
  intros Hd. unfold update_seed_policies. apply bears_bind; [|intros d1 H1; by apply bears_with_ret]. apply stop_all_bears.
  set (js := map _ _). assert (H : carried (set_jobs js (queue d))).
  { eapply carried_quiet; [|exact Hd]. apply quiet_map_jobs; intros j; unfold accrue; by case_if. }
  by case_if.
Qed.
End Lane.

(** ** The commands *)

Section Handlers.
Context {jc : JournalCodec} {dc : DocCodec}.
Variable shelf : Shelf.

Lemma saved_bears d : carried (queue d) -> bears (saved shelf d).
Proof. intros Hd. unfold saved. apply bears_fst. by apply save_bears. Qed.

Lemma checked_bears job d : carried (queue d) -> bears (checked shelf job d).
Proof. intros Hd. apply lift_bears; [done|]. intros o. apply check_quiet. Qed.

(** *** Controls *)

Lemma on_pause_bears job d : carried (queue d) -> bears_with (on_pause shelf job d).
Proof.
  intros Hd. unfold on_pause. destruct (find_job (queue d) job) as [j|]; [|by apply bears_with_ret].
  case_if; [|by apply bears_with_ret]. case_if; [|by apply bears_with_ret, carried_edit].
  apply bears_replied, attempt_bears; try done. intros d1. apply persist_then_command_queue.
Qed.

Lemma on_resume_bears job d : carried (queue d) -> bears_with (on_resume shelf job d).
Proof.
  intros Hd. unfold on_resume. case_if; [by apply bears_with_ret|].
  destruct (find_job (queue d) job) as [j|]; [|by apply bears_with_ret].
  do 2 (case_if; [by apply bears_with_ret|]). case_if; [|by apply bears_with_ret, carried_edit].
  apply bears_replied, attempt_bears; try done. intros d1. apply persisted_queue.
Qed.

Lemma on_delete_bears job b d : (forall r, sr_job r = job -> loses r = true) -> carried (queue d) ->
  bears_with (on_delete shelf job b d).
Proof.
  intros Hl Hd. unfold on_delete. destruct (find_job (queue d) job ≫= torrent) as [t|]; apply bears_replied; [|by apply delete_job_bears].
  apply attempt_bears; try done. intros d1. apply persist_then_command_queue.
Qed.

Lemma on_set_priority_bears job p d : carried (queue d) -> bears_with (on_set_priority shelf job p d).
Proof.
  intros Hd. unfold on_set_priority. destruct (find_job (queue d) job) as [j|]; [|by apply bears_with_ret].
  case_if; [|by apply bears_with_ret, carried_edit]. apply bears_replied, attempt_bears; try done. intros d1. apply persist_then_command_queue.
Qed.

Lemma on_set_category_bears job cat d : carried (queue d) -> bears_with (on_set_category shelf job cat d).
Proof.
  intros Hd. unfold on_set_category. destruct (find_job (queue d) job) as [j|]; [|by apply bears_with_ret].
  apply bears_bind; [by apply saved_bears, carried_edit|]. intros d1 H1. by apply bears_with_ret.
Qed.

Lemma on_set_seed_policy_bears job p d : carried (queue d) -> bears_with (on_set_seed_policy shelf job p d).
Proof.
  intros Hd. unfold on_set_seed_policy. case_if; [by apply bears_with_ret|].
  destruct (find_job (queue d) job ≫= torrent) as [t|]; [|by apply bears_with_ret].
  apply bears_with_bind; [apply attempt_bears; try done; intros d1; apply persisted_queue|]. intros d1 ok H1.
  destruct ok; [|by apply bears_with_ret]. apply bears_with_bind; [by apply update_seed_policies_bears|].
  intros d2 b H2. by apply bears_with_ret.
Qed.

Lemma on_quiesce_bears job d : carried (queue d) -> bears_with (on_quiesce shelf job d).
Proof.
  intros Hd. unfold on_quiesce. case_if; [by apply bears_with_ret|].
  destruct (find_job (queue d) job) as [j|]; [|by apply bears_with_ret].
  do 2 (case_if; [by apply bears_with_ret|]). apply bears_bind; [|intros d1 H1; by apply bears_with_ret].
  apply saved_bears. unfold queue. cbn [on_owner with_owner d_owner with_pending_finalize with_attempts o_state].
  assert (E : forall fs o, o_state (fold_left (fun o f => with_writers (o_writers o ∖ {[file_id f]}) o) fs o) = o_state o).
  { intros fs. induction fs as [|f fs IH]; intros o1; [done|]. simpl. by rewrite IH. }
  rewrite E. by apply carried_edit.
Qed.

(** *** Files *)

Lemma on_set_file_paused_bears job file p d : carried (queue d) -> bears_with (on_set_file_paused shelf job file p d).
Proof.
  intros Hd. unfold on_set_file_paused. case_if; [by apply bears_with_ret|].
  apply bears_bind; [|intros d1 H1; by apply bears_with_ret]. apply checked_bears. unfold queue. simpl.
  apply carried_edit; [done|done|]. eapply carried_done; [|exact Hd]. intros r. unfold done_at. by rewrite seg_at_update_file.
Qed.

Lemma find_filter_other (p p' : FileEntry -> bool) l : (forall f, p f = true -> p' f = true) ->
  find p (List.filter p' l) = find p l.
Proof.
  intros H. induction l as [|f l IH]; [done|]. simpl. destruct (p' f) eqn:E'; simpl; [by rewrite IH|].
  destruct (p f) eqn:E; [|done]. by rewrite H in E'.
Qed.

Lemma on_delete_file_bears job file d : (forall r, sr_job r = job -> sr_file r = file -> loses r = true) -> carried (queue d) ->
  bears_with (on_delete_file shelf job file d).
Proof.
  intros Hl Hd. unfold on_delete_file. destruct (find_job (queue d) job) as [j|]; [|by apply bears_with_ret].
  case_if; [|by apply bears_with_ret]. apply bears_bind; [|intros d1 H1; by apply bears_with_ret]. apply checked_bears.
  change (carried (update_job (queue d) job (without_file file))). eapply carried_step; [exact Hd|]. intros r.
  rewrite !done_at_in, find_job_update by done. destruct (sr_job r =? job) eqn:E; [|by apply passes_same]. bool_hyps.
  destruct (decide (sr_file r = file)) as [Ef|Ef]; [by apply passes_lost, Hl|]. apply passes_same.
  destruct (find_job (queue d) (sr_job r)) as [x|]; [|done]. cbn. unfold done_in. cbn [without_file recompute_job_totals files set_files].
  rewrite find_filter_other; [done|]. intros f Hf. bool_hyps. lia.
Qed.

(** *** The queue's settings *)

Lemma find_perm (id : JobId) l l' : NoDup (map job_id l) -> l' ≡ₚ l ->
  find (fun j => job_id j =? id) l' = find (fun j => job_id j =? id) l.
Proof.
  intros Hn Hp. assert (Hn' : NoDup (map job_id l')) by (by rewrite Hp).
  destruct (find (fun j => job_id j =? id) l) as [j|] eqn:E.
  - apply find_some in E as [Hj Ej]. bool_hyps. subst id. apply find_unique; [done|]. rewrite Hp. by apply list_elem_of_In.
  - destruct (find (fun j => job_id j =? id) l') as [j|] eqn:E'; [|done]. apply find_some in E' as [Hj Ej].
    apply list_elem_of_In in Hj. rewrite Hp in Hj. apply list_elem_of_In in Hj. by rewrite (find_none _ _ E j Hj) in Ej.
Qed.

Lemma on_move_bears job op d : NoDup (map job_id (jobs (queue d))) -> carried (queue d) -> carried (queue (fst (on_move job op d))).
Proof.
  intros Hn Hd. unfold on_move. destruct (move_jobs _ job op) as [js|] eqn:E; [|done]. cbn [fst].
  assert (H : carried (set_jobs js (queue d))); [|by case_if].
  eapply carried_done; [|exact Hd]. intros r. rewrite !done_at_in. unfold find_job, set_jobs. cbn [jobs].
  rewrite (find_perm _ (jobs (queue d)) js); [done|done|by eapply move_jobs_perm].
Qed.

Lemma disk_guard_bears env o : carried (o_state o) -> carried (o_state (update_disk_guard env o)).
Proof. apply carried_quiet, update_disk_guard_quiet. Qed.

Lemma on_resume_all_bears src d : carried (queue d) -> carried (queue (on_resume_all shelf src d)).
Proof.
  intros Hd. unfold on_resume_all, queue. cbn [raise dirty on_owner with_owner d_owner emit with_events with_dirty o_state].
  unfold clear_enospc_latch. case_if; [apply disk_guard_bears|]; by eapply carried_jobs_eq; [..|exact Hd].
Qed.

Lemma on_set_speed_limit_bears l d : carried (queue d) -> carried (queue (on_set_speed_limit shelf l d)).
Proof.
  intros Hd. unfold on_set_speed_limit. set (d1 := with_limits _ _ _ _).
  change (carried (queue (rebalance_download_budget (lane_of shelf) (s_rate shelf) d1))). rewrite rebalance_queue.
  by eapply carried_jobs_eq; [..|exact Hd].
Qed.

Lemma on_set_max_active_bears n d : carried (queue d) -> carried (queue (fst (on_set_max_active shelf n d))).
Proof.
  intros Hd. unfold on_set_max_active. cbn [fst]. set (d1 := dirty _).
  eapply carried_quiet; [apply settle_labels_quiet|]. by eapply carried_jobs_eq; [..|exact Hd].
Qed.

(** *** Admissions *)

Lemma on_reserve_bears src secret opts d : carried (queue d) -> bears_with (on_reserve shelf src secret opts d).
Proof.
  intros Hd. unfold on_reserve. destruct (reserve_torrent_admission (queue d) src opts) as [q id] eqn:E.
  assert (Hq : carried q) by (unfold reserve_torrent_admission in E; injection E as <- <-; by eapply carried_jobs_eq; [..|exact Hd]).
  destruct (s_write_secret shelf id secret).
  - apply bears_bind; [|intros d1 H1; by apply bears_with_ret]. apply saved_bears. by eapply carried_jobs_eq; [..|exact Hq].
  - apply bears_with_ret. by eapply carried_jobs_eq; [..|exact Hq].
Qed.

Lemma on_commit_bears job c d : carried (queue d) -> bears_with (on_commit shelf job c d).
Proof.
  intros Hd. unfold on_commit. destruct (commit_torrent_admission _ _ job c) as [q r] eqn:E.
  assert (Hq : carried q).
  { unfold commit_torrent_admission in E. destruct (existsb _ (pending_admissions (queue d))); cbn [negb] in E; [|by injection E as <- <-].
    destruct (find _ (jobs (queue d))) as [j|]; injection E as <- <-.
    - eapply carried_files; [|exact Hd]. cbn [cancel_torrent_admission fst set_pending set_jobs jobs]. by apply update_first_map.
    - eapply carried_push; [reflexivity|by left; intros file n|]. by eapply carried_jobs_eq; [..|exact Hd]. }
  destruct r; [|by apply bears_with_ret]. apply bears_bind; [by apply saved_bears|]. intros d1 H1. by apply bears_with_ret.
Qed.

Lemma on_cancel_bears job d : carried (queue d) -> bears_with (on_cancel shelf job d).
Proof.
  intros Hd. unfold on_cancel. destruct (cancel_torrent_admission (queue d) job) as [q removed] eqn:E.
  assert (Hq : carried q) by (unfold cancel_torrent_admission in E; injection E as <- _; by eapply carried_jobs_eq; [..|exact Hd]).
  case_if; [by apply bears_with_ret|].
  eapply ensures_bind; [apply ensures_weaken, save_result_queue|]. intros [d1 r] E1. cbn [fst] in E1.
  assert (H1 : carried (queue d1)) by (by rewrite E1).
  assert (Hb : carried (set_pending (pending_admissions (queue d)) (queue d1))) by (by eapply carried_jobs_eq; [..|exact H1]).
  destruct r as [[]|e]; apply bears_with_ret; [done..|]. by destruct e.
Qed.

(** *** Additions *)

Lemma set_job_name_bears q id nm s p : carried q -> carried (set_job_name q id nm s p).
Proof.
  intros Hq. unfold set_job_name. destruct (find_job q id); [|done].
  assert (H : carried (update_job q id (fun j => rename_job j nm s p))).
  { apply carried_edit; try done; intros x; unfold rename_job; by case_if. }
  case_if; [|done]. by apply carried_edit.
Qed.

Lemma name_from_requestor_bears job b d : carried (queue d) -> bears_with (name_from_requestor job b d).
Proof.
  intros Hd. unfold name_from_requestor. destruct (find_job (queue d) job) as [j|]; [|by apply bears_with_ret].
  eapply ensures_bind; [apply ensures_run|]. intros is_open _. case_if; [by apply bears_with_ret|].
  eapply ensures_bind; [apply ensures_run|]. intros [nm|] _; apply bears_with_ret; [|done]. by apply set_job_name_bears.
Qed.

Lemma carried_asked q id dup st ps : carried q -> carried (update_job q id (asked_for dup st ps)).
Proof. apply carried_edit; intros j; by destruct (asked_for_same dup st ps j) as (? & ? & ?). Qed.

Lemma find_filter_ids (id id' : JobId) (l : list Job) : id' <> id ->
  find (fun j => job_id j =? id') (List.filter (fun j => negb (job_id j =? id)) l) = find (fun j => job_id j =? id') l.
Proof.
  intros Hne. induction l as [|j l IH]; [done|]. simpl. destruct (job_id j =? id) eqn:E; simpl; [|by rewrite IH].
  bool_hyps. assert (job_id j =? id' = false) as -> by lia. done.
Qed.

Lemma on_add_parsed_bears nm parsed cat prio dup st ps d :
  (forall r, sr_job r = wrap32 (next_job_id (queue d) + 1) -> loses r = true) -> carried (queue d) ->
  bears_with (on_add_parsed shelf nm parsed cat prio dup st ps d).
Proof.
  intros Hl Hd. unfold on_add_parsed. destruct (admit_nzb _ _ _ _ _ _ _ _) as [q id] eqn:E.
  assert (Hq : carried q /\ id = wrap32 (next_job_id (queue d) + 1)).
  { unfold admit_nzb in E. set (q1 := set_next_job_id _ _) in E.
    pose proof (build_files_pending (s_to_lowercase shelf) q1 parsed (s_pause_extra_pars shelf)) as Hp.
    destruct (build_files_next (s_to_lowercase shelf) q1 parsed (s_pause_extra_pars shelf)) as [n Eb].
    destruct (build_files _ _ _ _) as [q2 fs]. cbn [fst snd] in *. subst q2. injection E as <- <-. split; [|done].
    eapply carried_push; [reflexivity|left; by apply undone_pending|]. by eapply carried_jobs_eq; [..|exact Hd]. }
  destruct Hq as [Hq Eid]. rewrite <- Eid in Hl. apply bears_with_bind; [by apply name_from_requestor_bears, carried_asked|]. intros d1 better H1.
  destruct (ensure_allocation _ _ id) as [o allocated] eqn:Ea. apply ensure_allocation_core in Ea as [Eo _].
  assert (Ho : carried (o_state o)).
  { rewrite Eo. apply carried_edit; try done; intros x; unfold avoid_dir; by case_if. }
  case_if.
  - apply bears_with_ret. apply (carried_lost (o_state o) _ id Hl); [|done]. intros id' Hne. by apply find_filter_ids.
  - apply bears_bind; [by apply saved_bears|]. intros d2 H2. by apply bears_with_ret.
Qed.

Lemma on_add_url_bears nm url cat prio dup st ps d : carried (queue d) ->
  bears_with (on_add_url shelf nm url cat prio dup st ps d).
Proof.
  intros Hd. unfold on_add_url. destruct (find (fetching_url url) _) as [j|].
  - apply bears_bind; [|intros d1 H1; by apply bears_with_ret]. destruct ps; [by apply bears_ret|].
    apply saved_bears. by apply carried_edit.
  - destruct (admit_url _ _ _ _ _ _) as [q id] eqn:E.
    assert (Hq : carried q).
    { unfold admit_url in E. injection E as <- <-.
      eapply carried_push; [reflexivity|by left; intros file n|]. by eapply carried_jobs_eq; [..|exact Hd]. }
    apply bears_with_bind; [by apply name_from_requestor_bears, carried_asked|]. intros d1 better H1.
    apply bears_bind; [by apply saved_bears|]. intros d2 H2. by apply bears_with_ret.
Qed.

Lemma complete_url_fetch_bears lower q id parsed pause q' ok : (forall r, sr_job r = id -> loses r = true) -> carried q ->
  complete_url_fetch lower q id parsed pause = Ret (q', ok) -> carried q'.
Proof.
  intros Hl Hq. unfold complete_url_fetch. destruct (build_files_next lower q parsed pause) as [n Eb].
  destruct (build_files lower q parsed pause) as [q1 fs]. simpl in Eb. subst q1.
  assert (H1 : carried (set_next_file_id n q)) by (by eapply carried_jobs_eq; [..|exact Hq]).
  destruct (find_job (set_next_file_id n q) id) as [j|] eqn:Hj; [|by intros [= <- <-]].
  destruct (status j); try (by intros [= <- <-]). set (j0 := match category j with Some _ => j | None => _ end).
  assert (E0 : job_id j0 = job_id j) by (unfold j0; by destruct (category j)).
  destruct (fetched_name j0 parsed) as [j1|] eqn:Hf; cbn [run_bind]; [|done]. intros [= <- _].
  apply fetched_name_ids in Hf. apply find_job_id in Hj. apply (carried_lost (set_next_file_id n q) _ id Hl); [|exact H1].
  intros id' Hne. unfold find_job, update_job, set_jobs. cbn [jobs]. apply find_update_other. intros y Hy. bool_hyps.
  simpl. rewrite Hf, E0, Hj. split; lia.
Qed.

Lemma on_complete_bears job parsed d : (forall r, sr_job r = job -> loses r = true) -> carried (queue d) ->
  bears_with (on_complete_url_fetch shelf job parsed d).
Proof.
  intros Hl Hd. unfold on_complete_url_fetch. eapply ensures_bind; [apply ensures_run|]. intros [q ok] E.
  assert (Hq : carried q) by (by eapply complete_url_fetch_bears).
  case_if; [by apply bears_with_ret|]. apply bears_with_bind.
  - apply name_from_requestor_bears. apply carried_edit; try done; intros x; unfold apply_add_paused; by case_if.
  - intros d1 nm H1. apply bears_bind; [by apply saved_bears|]. intros d2 H2. by apply bears_with_ret.
Qed.

Lemma on_fail_bears job d : carried (queue d) -> bears_with (on_fail_url_fetch shelf job d).
Proof.
  intros Hd. unfold on_fail_url_fetch. destruct (find_job (queue d) job) as [j|]; [|by apply bears_with_ret].
  case_if; [|by apply bears_with_ret]. apply bears_bind; [by apply saved_bears, carried_edit|]. intros d1 H1. by apply bears_with_ret.
Qed.

(** *** Jobs of other nodes *)

Lemma remove_silent_bears job d : (forall r, sr_job r = job -> loses r = true) -> carried (queue d) ->
  carried (queue (fst (remove_job_silent job d))).
Proof. intros Hl Hd. unfold remove_job_silent. destruct (find_job (queue d) job) as [j|]; [by apply carried_forget|done]. Qed.

(** Folding records only adds, and only to [job]. *)
Lemma fold_records_bears job recs : (forall r, sr_job r = job -> gains r = true) -> forall o touched, carried (o_state o) ->
  carried (o_state (fst (fold_left (fold_journal_record job) recs (o, touched)))).
Proof.
  intros Hg. induction recs as [|rec recs IH]; intros o touched Ho; [done|]. cbn [fold_left].
  assert (H1 : carried (o_state (fst (fold_journal_record job (o, touched) rec)))).
  { unfold fold_journal_record. destruct (jr_job rec =? job) eqn:Ej; cbn [negb fst]; [|done]. bool_hyps.
    set (o0 := if 0 <? jr_file_size rec then _ else _). assert (E0 : o_state o0 = o_state o) by (unfold o0; by case_if).
    assert (C0 : carried (o_state o0)) by (by rewrite E0). clearbody o0. clear E0 Ho.
    destruct (seg_at (o_state o0) (record_ref rec)) as [s|] eqn:Es; [|done].
    destruct (is_done (state s)) eqn:Ed; [done|]. cbn [fst with_attempts with_state o_state].
    eapply carried_step; [exact C0|]. intros r. rewrite done_at_update_segment by done.
    case_decide as E; [subst r|by apply passes_same]. intros _. split.
    - unfold done_at. rewrite Es. cbn. unfold done_value. by destruct (state s).
    - rewrite Hg by done. done. }
  destruct (fold_journal_record job (o, touched) rec) as [o1 t1]. by apply IH.
Qed.

Lemma fold_job_journals_bears env o job : (forall r, sr_job r = job -> gains r = true) -> carried (o_state o) ->
  ensures (fold_job_journals env job o) (fun o' => carried (o_state o')).
Proof.
  intros Hg Ho. unfold fold_job_journals. eapply ensures_bind.
  { apply ensures_try. unfold replay_job, replay_dir. behave. apply replay_files_behaves. }
  intros [recs|e] _; [|by apply ensures_ret]. pose proof (fold_records_bears job recs Hg o [] Ho) as H.
  destruct (fold_left _ recs (o, [])) as [o1 t1]. cbn [fst] in H. destruct t1 as [|f fs]; [by apply ensures_ret|].
  eapply ensures_mono; [apply after_files_quiet|]. intros o2 Hq. eapply carried_quiet; [exact Hq|].
  by apply carried_edit.
Qed.

Lemma import_job_bears j folds finished d : (forall r, sr_job r = job_id j -> loses r = true /\ gains r = true) ->
  carried (queue d) -> bears_with (import_job shelf j folds finished d).
Proof.
  intros Hlg Hd. assert (Hl : forall r, sr_job r = job_id j -> loses r = true) by (intros r E; by apply Hlg).
  assert (Hg : forall r, sr_job r = job_id j -> gains r = true) by (intros r E; by apply Hlg).
  unfold import_job. set (j' := from_the_wire j). assert (Ej : job_id j' = job_id j) by (unfold j', from_the_wire; by case_match).
  pose proof (take_payload_state shelf j' (d_owner d)) as Es.
  destruct (take_payload shelf j' (d_owner d)) as [o ok]. cbn [fst] in Es.
  assert (Ho : carried (o_state o)) by (by rewrite Es).
  case_if; [by apply bears_with_ret|].
  set (d1 := on_queue _ (with_owner o d)). assert (H1 : carried (queue d1)) by (by eapply carried_jobs_eq; [..|exact Ho]).
  pose proof (remove_silent_bears (job_id j') d1 ltac:(by rewrite Ej) H1) as H2.
  destruct (remove_job_silent (job_id j') d1) as [d2 b]. cbn [fst] in H2.
  assert (H3 : carried (update_job (set_jobs (jobs (queue d2) ++ [j']) (queue d2)) (job_id j') recompute_job_totals)).
  { apply carried_edit; [done|done|]. eapply carried_push; [reflexivity|right; by rewrite Ej|exact H2]. }
  set (d3 := with_mirror _ _). apply bears_bind.
  - destruct folds; [|by apply bears_ret]. unfold lift.
    eapply ensures_bind; [apply ensures_weaken, fold_job_journals_bears; [by rewrite Ej|exact H3]|].
    intros o1 H4. by apply ensures_ret.
  - intros d4 H4. apply bears_with_bind.
    + set (d5 := dirty _). case_if; [by apply save_bears|by apply bears_with_ret].
    + intros d6 committed H6. apply bears_with_ret. by case_if.
Qed.

Lemma import_if_present_bears j d : (forall r, sr_job r = job_id j -> loses r = true /\ gains r = true) -> carried (queue d) ->
  bears_with (on_import_if_present shelf j d).
Proof.
  intros Hlg Hd. assert (Hl : forall r, sr_job r = job_id j -> loses r = true) by (intros r E; by apply Hlg).
  unfold on_import_if_present. apply bears_with_bind.
  { destruct (find_job (queue d) (job_id j)); [by apply import_job_bears|by apply bears_with_ret]. }
  intros d1 committed H1. case_if; [by apply bears_with_ret|].
  pose proof (remove_silent_bears (job_id j) d1 Hl H1) as H2. destruct (remove_job_silent (job_id j) d1) as [d2 b]. cbn [fst] in H2.
  apply bears_with_ret. destruct (find_job (queue d) (job_id j)) as [p|] eqn:Hp; [|exact H2]. apply find_job_id in Hp.
  change (carried (set_jobs (jobs (queue d2) ++ [p]) (queue d2))). eapply carried_push; [reflexivity| |exact H2].
  right. intros r E. apply Hlg. congruence.
Qed.

(** *** Delegation and post-processing *)

Lemma on_set_delegated_bears job node d : carried (queue d) -> carried (queue (fst (on_set_delegated job node d))).
Proof. intros Hd. unfold on_set_delegated. by destruct (find_job (queue d) job), node. Qed.

Lemma on_enter_stage_bears job st at_unix ms d : carried (queue d) ->
  carried (queue (fst (on_enter_post_stage job st at_unix ms d))).
Proof.
  intros Hd. unfold on_enter_post_stage. destruct (find_job (queue d) job); [|done]. cbn [fst].
  apply carried_edit; try done; intros x; by destruct (close_span_same ms at_unix x) as (? & ? & ?).
Qed.

Lemma on_close_stage_bears job at_unix ms d : carried (queue d) -> carried (queue (on_close_post_stage job at_unix ms d)).
Proof.
  intros Hd. unfold on_close_post_stage. destruct (find_job (queue d) job); [|done].
  apply carried_edit; try done; intros x; by destruct (close_span_same ms at_unix x) as (? & ? & ?).
Qed.

Lemma on_set_status_bears job st d : carried (queue d) -> bears_with (on_set_job_status shelf job st d).
Proof.
  intros Hd. unfold on_set_job_status. case_if; [by apply bears_with_ret|].
  destruct (find_job (queue d) job); [|by apply bears_with_ret]. apply bears_bind; [|intros d1 H1; by apply bears_with_ret].
  case_if; [by apply saved_bears, carried_edit|by apply bears_ret, carried_edit].
Qed.

Lemma find_unpause ids (file : FileId) : forall fs,
  segments <$> find (fun f => file_id f =? file)
    (fold_left (fun fs id => update_first (fun f => file_id f =? id) (set_file_paused false) fs) ids fs) =
  segments <$> find (fun f => file_id f =? file) fs.
Proof.
  induction ids as [|id ids IH]; intros fs; [done|]. cbn [fold_left]. rewrite IH.
  destruct (decide (id = file)) as [<-|Hne].
  - rewrite find_update_same by done. by destruct (find _ fs).
  - rewrite find_update_other; [done|]. intros f Hf. bool_hyps. cbn. split; lia.
Qed.

Lemma unpause_bears job n size d : carried (queue d) -> carried (queue (fst (unpause_par_blocks job n size d))).
Proof.
  intros Hd. unfold unpause_par_blocks. destruct (find_job (queue d) job) as [j|]; [|done].
  destruct (paused_pars j); [done|]. destruct (chosen_pars j n size) as [cs lr].
  set (ids := map pc_id cs ++ _). set (freed := match lr with Some _ => _ | None => _ end).
  assert (Hu : carried (update_job (queue d) job (unpause_files ids))).
  { eapply carried_done; [|exact Hd]. intros r. rewrite !done_at_in, find_job_update by done. case_if; [|done].
    destruct (find_job (queue d) (sr_job r)) as [x|]; [|done]. cbn. unfold done_in. cbn [unpause_files set_files files].
    pose proof (find_unpause ids (sr_file r) (files x)) as F.
    destruct (find _ (fold_left _ _ _)), (find _ (files x)); simplify_eq/=; [|done..]. by rewrite F. }
  case_if; [|done]. cbn [fst]. unfold queue. simpl. apply carried_edit; [done|done|].
  apply carried_edit; [intros x; by case_if..|exact Hu].
Qed.

Lemma on_retain_bears keep d : (forall r, sr_job r ∉ keep -> loses r = true) -> carried (queue d) -> carried (queue (on_retain keep d)).
Proof.
  intros Hl Hd. unfold on_retain. set (gone := List.filter _ _). set (d1 := on_owner (with_persist false) d) in *.
  assert (H1 : carried (queue d1)) by done.
  assert (Hg : Forall (fun id => id ∉ keep) gone).
  { apply Forall_forall. intros id Hid. apply list_elem_of_In, filter_In in Hid as [_ Hid]. by bool_hyps. }
  clearbody d1 gone. assert (H2 : carried (queue (fold_left (fun d id => fst (remove_job_silent id d)) gone d1))); [|exact H2].
  clear Hd. revert d1 H1. induction Hg as [|id gone Hid _ IH]; intros d1 H1; [done|]. cbn [fold_left]. apply IH, remove_silent_bears; [|done].
  intros r E. apply Hl. by rewrite E.
Qed.

(** *** Authority *)

Lemma push_missing_bears l : (forall r, gains r = true) -> forall q, carried q -> carried (fold_left push_missing l q).
Proof.
  intros Hg. induction l as [|j l IH]; intros q Hq; [done|]. cbn [fold_left]. apply IH. unfold push_missing.
  destruct (find_job q (job_id j)); [done|]. eapply carried_push; [reflexivity|by right|exact Hq].
Qed.

Lemma merge_snapshot_bears s d : (forall r, gains r = true) -> carried (queue d) -> carried (queue (merge_snapshot s d)).
Proof.
  intros Hg Hd. unfold merge_snapshot. set (d1 := on_queue _ d).
  assert (H1 : carried (queue d1)) by (by eapply carried_jobs_eq; [..|exact Hd]).
  set (d2 := match speed_limit_bps (queue d1) with Some _ => d1 | None => _ end).
  assert (H2 : carried (queue d2)) by (unfold d2; destruct (speed_limit_bps _); [done|]; by eapply carried_jobs_eq; [..|exact H1]).
  by apply push_missing_bears.
Qed.

Lemma fold_journals_of_bears env l : (forall r, gains r = true) -> forall o, carried (o_state o) ->
  ensures (fold_journals_of env l o) (fun o' => carried (o_state o')).
Proof.
  intros Hg. induction l as [|job l IH]; intros o Ho; simpl; [by apply ensures_ret|].
  eapply ensures_bind; [by apply fold_job_journals_bears|]. intros o1 H1. by apply IH.
Qed.

Lemma adopt_snapshot_bears d : (forall r, gains r = true) -> carried (queue d) -> bears_with (adopt_snapshot shelf d).
Proof.
  intros Hg Hd. unfold adopt_snapshot. eapply ensures_bind; [apply ensures_try, load_behaves|].
  intros [[doc|]|e] _; [|by apply bears_with_ret..]. eapply ensures_bind; [apply ensures_run|].
  intros [s|e] _; apply bears_with_ret; [by apply merge_snapshot_bears|done].
Qed.

Lemma recompute_all_bears q : carried q -> carried (recompute_all_totals q).
Proof. apply carried_files. cbn [recompute_all_totals set_jobs jobs]. by rewrite map_map. Qed.

Lemma adopt_authority_bears d : (forall r, gains r = true) -> carried (queue d) -> bears_with (adopt_authority shelf d).
Proof.
  intros Hg Hd. unfold adopt_authority. apply bears_with_bind; [by apply adopt_snapshot_bears|].
  intros d1 [u|e] H1; [|by apply bears_with_ret]. set (d2 := on_owner (with_persist true) d1). apply bears_bind.
  { unfold lift. eapply ensures_bind; [apply ensures_weaken, fold_journals_of_bears; [done|exact H1]|]. intros o H. by apply ensures_ret. }
  intros d3 H3. apply bears_bind; [apply lift_bears; [by apply recompute_all_bears|intros o; apply startup_quiet]|].
  intros d4 H4. apply bears_bind; [by apply saved_bears|]. intros d5 H5. by apply bears_with_ret.
Qed.

Lemma on_adopt_replicated_bears js d : (forall r, loses r = true) -> bears_with (on_adopt_replicated shelf js d).
Proof.
  intros Hl. unfold on_adopt_replicated. apply bears_bind; [|intros d1 H1; by apply bears_with_ret]. apply saved_bears.
  intros r. by apply passes_lost.
Qed.

End Handlers.
End Carried.
