(* ===== verification/Progress.v ===== *)
(** * The owner refines a ledger of done parts ([crates/nzbd-engine/src/owner.rs])

    Over any turns of the loop, commands and ticks with all they do for torrents
    included: a part is done exactly when a plain ledger of the reports has it,
    for as long as no command withdraws it or brings its job
    ([owner_refines_ledger]). *)

From S2P Require Import Prelude RustStr Crc32 Types Failover Volumes Nzb JobNames Queue Selection ParSelect Fs Codec Store Owner OwnerInv Leases Recovery Float Torrents History Desk Commands Accounts Dispatch DeskInv Carry.

#[local] Unset Default Proof Using.

(** ** What a turn may withdraw and bring *)

Definition withdraws (d : Desk) (t : Turn) (r : SegRef) : bool :=
  match t with
  | Received _ (Command c) =>
      match c with
      | Delete job _ | RemoveJobSilent job | CompleteUrlFetch job _ => sr_job r =? job
      | DeleteFile job file => (sr_job r =? job) && (sr_file r =? file)
      | ImportJob j _ _ | ImportJobIfPresent j => sr_job r =? job_id j
      | AddParsed _ _ _ _ _ _ _ => sr_job r =? wrap32 (next_job_id (queue d) + 1)
      | RetainJobs keep => bool_decide (sr_job r ∉ keep)
      | AdoptReplicatedAuthority _ => true
      | _ => false
      end
  | Received _ _ => false
  | Ticked _ _ _ => existsb (fun j => (job_id j =? sr_job r) && bool_decide (is_Some (torrent j))) (jobs (queue d))
  end.

Definition brings (t : Turn) (r : SegRef) : bool :=
  match t with
  | Received _ (Command c) =>
      match c with
      | ImportJob j _ _ | ImportJobIfPresent j => sr_job r =? job_id j
      | FoldJobJournals job => sr_job r =? job
      | AdoptAuthority | AdoptReplicatedAuthority _ => true
      | _ => false
      end
  | _ => false
  end.

(** ** Commands *)

Section Turns.
Context {jc : JournalCodec} {dc : DocCodec}.

Lemma on_command_bears shelf d c : NoDup (map job_id (jobs (queue d))) ->
  let t := Received shelf (Command c) in
  bears_with (queue d) (withdraws d t) (brings t) (on_command shelf d c).
Proof.
  intros Hn t. assert (Hd : carried (queue d) (withdraws d t) (brings t) (queue d)) by apply carried_refl.
  destruct c; subst t; cbn [on_command withdraws brings] in *; unfold pure_reply, no_reply.
  - by apply on_reserve_bears.
  - by apply on_commit_bears.
  - by apply on_cancel_bears.
  - apply on_add_parsed_bears; [|done]. intros r E. by apply Z.eqb_eq.
  - by apply on_add_url_bears.
  - apply on_complete_bears; [|done]. intros r E. by apply Z.eqb_eq.
  - by apply on_fail_bears.
  - by apply on_set_file_paused_bears.
  - apply on_delete_file_bears; [|done]. intros r E1 E2. cbn. by rewrite E1, E2, !Z.eqb_refl.
  - by apply on_pause_bears.
  - by apply on_resume_bears.
  - by apply on_quiesce_bears.
  - apply on_delete_bears; [|done]. intros r E. by apply Z.eqb_eq.
  - by apply on_set_priority_bears.
  - by apply on_set_category_bears.
  - by apply on_set_seed_policy_bears.
  - apply ensures_ret. by apply on_move_bears.
  - apply bears_with_ret. by eapply carried_jobs_eq; [..|exact Hd].
  - apply bears_with_ret. by apply on_resume_all_bears.
  - apply bears_with_ret. by apply on_set_speed_limit_bears.
  - apply bears_with_ret. unfold enqueue. pose proof (enqueue_state (l_env (lane_of shelf)) (d_owner d) (BC_SetUploadLimit bytes_per_sec)) as E.
    destruct (enqueue_backend_command _ _ _) as [o b]. cbn [fst] in *. unfold queue at 2. simpl. by rewrite E.
  - apply ensures_ret. by apply on_set_max_active_bears.
  - apply bears_with_bind; [apply import_job_bears; [|done]|intros d1 b H1; by apply bears_with_ret].
    intros r E. cbn. by rewrite E, Z.eqb_refl.
  - apply import_if_present_bears; [|done]. intros r E. cbn. by rewrite E, Z.eqb_refl.
  - by apply bears_with_ret.
  - pose proof (remove_silent_bears (queue d) (fun r => sr_job r =? job) (fun _ => false) job d) as H.
    destruct (remove_job_silent job d). apply bears_with_ret. apply H; [|done]. intros r E. by apply Z.eqb_eq.
  - apply ensures_ret. by apply on_set_delegated_bears.
  - apply bears_with_ret. unfold on_mirror_progress. by case_if.
  - apply bears_bind; [|intros d1 H1; by apply bears_with_ret]. unfold lift.
    eapply ensures_bind; [apply ensures_weaken, fold_job_journals_bears; [|exact Hd]|].
    + intros r E. by apply Z.eqb_eq.
    + intros o H. by apply ensures_ret.
  - by apply bears_with_ret.
  - by apply bears_with_ret.
  - by apply bears_with_ret.
  - apply bears_with_bind; [by apply adopt_authority_bears|]. intros d1 r H1. by apply bears_with_ret.
  - by apply on_adopt_replicated_bears.
  - by apply on_set_status_bears.
  - apply ensures_ret. by apply on_enter_stage_bears.
  - apply bears_with_ret. by apply on_close_stage_bears.
  - pose proof (unpause_bears (queue d) (fun _ => false) (fun _ => false) job blocks block_size d Hd) as H.
    destruct (unpause_par_blocks job blocks block_size d). by apply bears_with_ret.
  - apply bears_with_ret. apply on_retain_bears; [|done]. intros r E. by apply bool_decide_eq_true_2.
Qed.

(** ** The tick

    Only jobs that were torrents when it began can be retired. *)

Section Tick.
Variable lane : Lane.
Variable q0 : QueueState.
Variable gains : SegRef -> bool.

Definition torrents_in (q : QueueState) (r : SegRef) : bool :=
  existsb (fun j => (job_id j =? sr_job r) && bool_decide (is_Some (torrent j))) (jobs q).

Abbreviation lost := (torrents_in q0).

(** Carried, and the torrents are among those of the beginning. *)
Definition ticking (q : QueueState) : Prop :=
  carried q0 lost gains q /\ Forall (fun j => is_Some (torrent j) -> forall r, sr_job r = job_id j -> lost r = true) (jobs q).

Lemma ticking_start : ticking q0.
Proof.
  split; [apply carried_refl|]. apply Forall_forall. intros j Hj Ht r E. apply existsb_exists. exists j.
  split; [by apply list_elem_of_In|]. rewrite E, Z.eqb_refl. by apply bool_decide_eq_true_2.
Qed.

(** One job edited, a torrent only if it was one. *)
Lemma ticking_edit q id f : (forall j, job_id (f j) = job_id j) -> (forall j, files (f j) = files j) ->
  (forall j, is_Some (torrent (f j)) -> is_Some (torrent j)) -> ticking q -> ticking (update_job q id f).
Proof.
  intros H1 H2 H3 [Hc HF]. split; [by apply carried_edit|]. unfold update_job, set_jobs. cbn [jobs].
  apply Forall_update_first; [|done]. intros j Hj Ht r E. apply Hj; [by apply H3|congruence].
Qed.

Lemma ticking_put q id j j' : find_job q id = Some j -> same_books j j' -> (is_Some (torrent j') -> is_Some (torrent j)) ->
  ticking q -> ticking (update_job q id (fun _ => j')).
Proof.
  intros Hj (E1 & E2 & E3) Ht Hq. set (f := fun x => if bool_decide (is_Some (torrent x)) then books_of j' x else set_torrent None (books_of j' x)).
  unfold update_job. rewrite (update_first_found _ _ f _ j Hj).
  - apply (ticking_edit q id f); [intros x; unfold f; by case_if..| |done]. intros x. unfold f. case_bool_decide; [done|]. by intros [].
  - unfold f. assert (B : books_of j' j = j') by (unfold books_of; rewrite <- E1, <- E2, <- E3; by destruct j').
    case_bool_decide as Hb; [by rewrite B|]. rewrite B. assert (T : torrent j' = None) by (destruct (torrent j'); [by destruct Hb; apply Ht|done]).
    unfold set_torrent. rewrite <- T. by destruct j'.
Qed.

Lemma progress_torrent j p : is_Some (torrent (fst (reconcile_progress j p))) -> is_Some (torrent j).
Proof. unfold reconcile_progress. destruct (torrent j) as [t|] eqn:E; [by eexists|cbn [fst]; by rewrite E]. Qed.

Lemma fact_torrent canon j f latest now roots :
  is_Some (torrent (fst (reconcile_fact_with_roots canon j f latest now roots))) -> is_Some (torrent j).
Proof. unfold reconcile_fact_with_roots. destruct (torrent j) as [t|] eqn:E; [by eexists|cbn [fst]; by rewrite E]. Qed.

Lemma fold_progress_ticking d e : ticking (queue d) -> ticking (queue (fold_progress lane d e)).
Proof.
  intros Hd. destruct e as [id p]. unfold fold_progress. destruct (find_job (queue d) id) as [j|] eqn:Hj; [|done].
  pose proof (progress_books j p) as Hb. pose proof (progress_torrent j p) as Ht.
  destruct (reconcile_progress j p) as [j' out]. cbn [fst] in *.
  pose proof (ticking_put _ _ _ _ Hj Hb Ht Hd) as H. destruct (durable_changed out); by case_if.
Qed.

Lemma edit_torrent_ticking job f d : ticking (queue d) -> ticking (queue (edit_torrent_of job f d)).
Proof.
  intros Hd. unfold edit_torrent_of. destruct (find_job (queue d) job ≫= torrent); [|done].
  apply (ticking_edit (queue d)); [done..| |done]. intros j. cbn. by rewrite fmap_is_Some.
Qed.

Lemma reconcile_ticking d f : ticking (queue d) -> ticking (queue (reconcile lane f d)).
Proof.
  intros Hd. unfold reconcile. destruct (find_job (queue d) (fact_job f)) as [j|] eqn:Hj; [|done].
  pose proof (fact_books (l_canonicalize lane) j f (d_progress d !! fact_job f) (now_of lane) (l_payload_roots lane)) as Hb.
  pose proof (fact_torrent (l_canonicalize lane) j f (d_progress d !! fact_job f) (now_of lane) (l_payload_roots lane)) as Ht.
  destruct (reconcile_fact_with_roots _ _ _ _ _ _) as [j' out]. cbn [fst] in *.
  pose proof (ticking_put _ _ _ _ Hj Hb Ht Hd) as H. set (d1 := edit_job _ _ d).
  set (d2 := if durable_changed out then dirty d1 else d1). assert (H2 : ticking (queue d2)) by (unfold d2; by destruct (durable_changed out)).
  set (d3 := if is_failure f then _ else d2). assert (H3 : ticking (queue d3)) by (unfold d3; destruct (is_failure f); [by apply edit_torrent_ticking|done]).
  destruct (storage_hold out); [|done]. unfold queue. simpl. by rewrite observe_state.
Qed.

Lemma fold_fact_ticking d f : ticking (queue d) -> ticking (queue (fold_fact lane d f)).
Proof.
  intros Hd. unfold fold_fact. destruct f; try by apply reconcile_ticking.
  destruct (disposition_of outcome); [by apply edit_torrent_ticking|by apply reconcile_ticking].
Qed.

Lemma foldl_ticking {A} (f : Desk -> A -> Desk) l : (forall d a, ticking (queue d) -> ticking (queue (f d a))) ->
  forall d, ticking (queue d) -> ticking (queue (fold_left f l d)).
Proof. intros Hf. induction l as [|a l IH]; intros d Hd; [done|]. simpl. by apply IH, Hf. Qed.

Lemma folded_in_ticking d : ticking (queue d) -> ticking (queue (folded_in lane d)).
Proof.
  intros Hd. apply foldl_ticking; [apply fold_fact_ticking|].
  change (ticking (queue (fold_left (fold_progress lane) (map_to_list (l_latest lane)) (flushed lane d)))).
  apply foldl_ticking; [apply fold_progress_ticking|]. unfold flushed, queue. simpl. by rewrite flush_state.
Qed.

Lemma retire_all_bears l : Forall (fun j => forall r, sr_job r = job_id j -> lost r = true) l ->
  forall d, carried q0 lost gains (queue d) -> bears q0 lost gains (retire_all lane l d).
Proof.
  induction 1 as [|j l Hj _ IH]; intros d Hd; simpl; [by apply bears_ret|].
  eapply ensures_bind; [|exact IH]. unfold retire. destruct (torrent j ≫= _) as [[t at_unix]|]; [|by apply bears_ret].
  case_if; [|by apply bears_ret]. by apply bears_fst, delete_job_bears.
Qed.

Lemma finalize_bears d : ticking (queue d) -> bears q0 lost gains (finalize_confirmed_torrent_removals lane d).
Proof.
  intros [Hd HF]. unfold finalize_confirmed_torrent_removals. destruct (List.filter _ _) as [|j l] eqn:E; [by apply bears_ret|].
  eapply ensures_bind; [eapply (bears_of_queue _ _ _ _ d); [exact Hd|apply persisted_queue]|]. intros [d1 ok] H1.
  destruct ok; [|by apply bears_ret]. apply retire_all_bears; [|done]. rewrite <- E. apply Forall_forall. intros x Hx.
  apply list_elem_of_In, filter_In in Hx as [Hx Hw]. rewrite Forall_forall in HF. apply HF; [by apply list_elem_of_In|].
  unfold awaits_retirement in Hw. destruct (torrent x); [by eexists|done].
Qed.

Lemma desk_tick_bears rate due d : queue d = q0 -> bears q0 lost gains (desk_tick lane rate due d).
Proof.
  intros E. unfold desk_tick. fold (flushed lane d). fold (folded_in lane d).
  eapply ensures_bind; [apply finalize_bears, folded_in_ticking; rewrite E; apply ticking_start|].
  intros d1 H1. eapply ensures_bind; [by apply (update_seed_policies_bears q0 lost gains)|]. intros [d2 checkpoint] H2. cbn [fst] in H2.
  pose proof (guarded_tick_undisturbing lane d2) as [Q3 _]. pose proof (carried_quiet _ _ _ _ _ Q3 H2) as H3. clear H2 Q3.
  change (on_owner _ d2) with (guarded_tick lane d2). generalize dependent (guarded_tick lane d2). intros d3 H3.
  set (d4 := rebalance_download_budget lane rate d3). assert (H4 : carried q0 lost gains (queue d4)) by (unfold d4; by rewrite rebalance_queue).
  clearbody d4. clear d3 H3. set (d5 := on_owner _ d4). eapply ensures_bind with (P := fun _ => True); [apply ensures_weaken, sync_total|].
  intros [jn r] _. set (d6 := on_owner (with_journal jn) d5). set (d7 := on_owner _ d6).
  assert (H7 : carried q0 lost gains (queue d7)) by (unfold d7; rewrite retry_queue; exact H4). clearbody d7.
  case_if; [by apply bears_fst, save_bears|by apply bears_ret].
Qed.
End Tick.

(** ** One turn *)

(** The entry of [r] once the turn's report, if any, was taken: the first for a
    part of the queue enters it. *)
Definition entered (d : Desk) (t : Turn) (r : SegRef) (entry : option (Z * Z * Z)) : option (Z * Z * Z) :=
  match t with
  | Received _ (SegmentWritten r' off len crc _ _) =>
      if bool_decide (r = r') && segment_exists (queue d) r && bool_decide (entry = None) then Some (off, len, crc) else entry
  | _ => entry
  end.

Definition turned (d : Desk) (t : Turn) (d' : Desk) : Prop := forall r, withdraws d t r = false ->
  (forall v, done_at (queue d) r = Some v -> done_at (queue d') r = Some v) /\
  (brings t r = false -> done_at (queue d') r = entered d t r (done_at (queue d) r)).

Lemma turned_carried d t d' : match t with Received _ (SegmentWritten _ _ _ _ _ _) => False | _ => True end ->
  carried (queue d) (withdraws d t) (brings t) (queue d') -> turned d t d'.
Proof.
  intros Ht Hc r Hw. destruct (Hc r Hw) as [H1 H2]. split; [done|]. intros Hb. specialize (H2 Hb).
  replace (entered d t r (done_at (queue d) r)) with (done_at (queue d) r) by (by destruct t as [? []|]).
  destruct (done_at (queue d) r) as [v|]; [by apply H1|]. destruct (done_at (queue d') r) as [v|]; [symmetry; by apply H2|done].
Qed.

Lemma turned_handles d t x d' : step_of t = Some x -> (forall r, withdraws d t r = false /\ brings t r = false) ->
  handles x (queue d) (queue d') -> turned d t d'.
Proof.
  intros Hx _ [_ Hh _] r _.
  assert (E : done_at (queue d') r = entered d t r (done_at (queue d) r)).
  { rewrite Hh, expected_ledger. destruct t as [shelf m|]; [|done]. destruct m; cbn in Hx; simplify_eq; try done.
    cbn. case_bool_decide as Er; [by subst|done]. }
  split; [|by intros _]. intros v Hv. rewrite E, Hv. unfold entered. destruct t as [? []|]; try done.
  rewrite (bool_decide_eq_false_2 (Some v = None)) by done. by rewrite andb_false_r.
Qed.

Definition refs_unique (d : Desk) (t : Turn) : Prop :=
  match t with Received _ _ => unique_refs (queue d) | Ticked _ _ _ => True end.
#[export] Instance refs_unique_dec d t : Decision (refs_unique d t).
Proof. destruct t; unfold refs_unique, unique_refs; apply _. Defined.

Lemma unique_ids q : unique_refs q -> NoDup (map job_id (jobs q)).
Proof. intros [Hn _]. unfold shape in Hn. by rewrite map_map in Hn. Qed.

Lemma turn_turned d t : refs_unique d t -> ensures_or True (turn d t) (turned d t).
Proof.
  intros Hu. destruct t as [shelf m|lane rate due]; cbn [turn refs_unique] in *.
  - destruct (transfer_of m) as [x|] eqn:Hx.
    + rewrite (on_msg_transfer _ _ _ _ Hx). unfold lift. apply (ensures_bind _ _ _ (fun o' => handles x (queue d) (o_state o'))).
      * intros w. pose proof (transfer_step_script (desk_env shelf d) True (d_owner d) x (fates w) w Hu ltac:(reflexivity) ltac:(done)) as H.
        unfold leads, wp, inv, script in H. destruct (transfer_step _ _ _ w) as [[o'|e|] w']; [done|done|by right].
      * intros o' H. apply ensures_ret. apply (turned_handles d (Received shelf m) x); [done| |done]. intros r. by destruct m.
    + destruct m; try done. cbn [on_msg]. eapply ensures_bind; [apply on_command_bears; by apply unique_ids|].
      intros [d' rep] H. apply ensures_ret. cbn [fst] in H. by apply turned_carried.
  - eapply ensures_mono; [by apply (desk_tick_bears lane (queue d) (fun _ => false))|]. intros d' H. by apply turned_carried.
Qed.

(** ** Any turns, with one part under watch *)

Record Watch := { w_entry : option (Z * Z * Z); w_withdrawn : bool; w_brought : bool }.

Definition watch (r : SegRef) (d : Desk) (t : Turn) (k : Watch) : Watch := {|
  w_entry := entered d t r (w_entry k);
  w_withdrawn := w_withdrawn k || withdraws d t r;
  w_brought := w_brought k || brings t r |}.

Fixpoint run_watched (r : SegRef) (ts : list Turn) (d : Desk) (k : Watch) : io (Desk * Watch) :=
  match ts with
  | [] => io_ret (d, k)
  | t :: ts' => let* d' := turn d t in run_watched r ts' d' (watch r d t k)
  end.

(** The watch changes nothing of the run. *)
Lemma run_watched_turns r ts : forall d k w,
  run_turns ts d w = (let* (d', _) := run_watched r ts d k in io_ret d') w.
Proof.
  induction ts as [|t ts IH]; intros d k w; [done|]. cbn [run_turns run_watched]. unfold io_bind in *.
  destruct (turn d t w) as [[d1|e|] w1]; [|done..]. by rewrite (IH d1 (watch r d t k) w1).
Qed.

Definition watching (r : SegRef) (d : Desk) : Watch :=
  {| w_entry := done_at (queue d) r; w_withdrawn := false; w_brought := false |}.

(** When a message is handled, no two jobs share an id, no two files of a job, no
    two segments of a file. *)
Fixpoint unique_along (ts : list Turn) (d : Desk) (w : World) : Prop :=
  match ts with
  | [] => True
  | t :: ts' => refs_unique d t /\ match turn d t w with (Val d', w') => unique_along ts' d' w' | _ => True end
  end.

#[export] Instance unique_along_dec ts : forall d w, Decision (unique_along ts d w).
Proof.
  induction ts as [|t ts IH]; intros d w; cbn [unique_along]; [apply _|].
  destruct (turn d t w) as [[d'|e|] w']; apply _.
Defined.

(** What the watch makes of a queue, given what was done at the start. *)
Definition agrees (r : SegRef) (start : option (Z * Z * Z)) (d : Desk) (k : Watch) : Prop := w_withdrawn k = false ->
  (forall v, start = Some v -> done_at (queue d) r = Some v) /\ (w_brought k = false -> done_at (queue d) r = w_entry k).

Lemma agrees_watch r start d t d' k : turned d t d' -> agrees r start d k -> agrees r start d' (watch r d t k).
Proof.
  intros Ht Ha Hw. cbn [watch w_withdrawn w_brought w_entry] in *. bool_hyps.
  match goal with H : w_withdrawn k = false |- _ => destruct (Ha H) as [A1 A2] end.
  match goal with H : withdraws d t r = false |- _ => destruct (Ht r H) as [T1 T2] end.
  split; [by intros v Hv; apply T1, A1|]. intros Hb. bool_hyps. by rewrite T2, A2.
Qed.

Lemma run_watched_agrees r start ts : forall d k w, unique_along ts d w -> agrees r start d k ->
  match run_watched r ts d k w with
  | (Val (d', k'), _) => agrees r start d' k'
  | (Fails _, _) => False
  | (Crashed, _) => True
  end.
Proof.
  induction ts as [|t ts IH]; intros d k w Hu Ha; [done|]. destruct Hu as [Hu Hus]. cbn [run_watched]. unfold io_bind.
  pose proof (turn_turned d t Hu w) as Ht. destruct (turn d t w) as [[d1|e|] w1]; [|done|done].
  apply IH; [done|]. by eapply agrees_watch; [apply Ht|].
Qed.

End Turns.

(** C3: the owner refines a ledger of done parts.  Over any turns of its loop
    (messages, commands among them, and ticks), with any I/O failures, watch any
    part: the ledger has it as done from the first report that came for it while
    it was in the queue, with that report's offset, length and CRC.  As long as
    no turn withdrew it (a command that takes out or replaces its file or its
    job, or a tick when its job is a torrent) or brought it (a command that
    imports or adopts jobs, or folds a journal), the queue has it exactly as the
    ledger does; and a part that was done at the start stays done, with the same
    offset, length and CRC, even if more was brought.  No turn ends in an error.
    References must be unique when a message is handled, as the parser and the
    id counters make them. *)
Theorem owner_refines_ledger {jc : JournalCodec} {dc : DocCodec} r ts d w :
  unique_along ts d w ->
  match run_watched r ts d (watching r d) w with
  | (Val (d', k), _) =>
      w_withdrawn k = false ->
      (forall v, done_at (queue d) r = Some v -> done_at (queue d') r = Some v) /\
      (w_brought k = false -> done_at (queue d') r = w_entry k)
  | (Fails _, _) => False
  | (Crashed, _) => True
  end.
Proof.
  intros Hu. apply (run_watched_agrees r (done_at (queue d) r) ts d (watching r d) w Hu). by intros _.
Qed.

(** A report, a second one, a pause, a tick, and the deletion of another file. *)
Lemma owner_refines_ledger_witness :
  let d := desk_of (fst (admit_nzb to_ascii_lowercase queue_default 0 (lit "n") (sample_nzb [lit "f"; lit "g"]) None 0 true)) in
  let r := {| sr_job := 1; sr_file := 1; seg_number := 1 |} in
  let ts := map (Received sample_shelf) [WorkRequest 1 2; SegmentWritten r 0 90 7 90 1; SegmentWritten r 5 80 6 90 1; Command (Pause 1)]
    ++ [Ticked sample_lane 0 true; Received sample_shelf (Command (DeleteFile 1 2))] in
  match run_watched (jc := counted_journal) (dc := counted_doc) r ts d (watching r d) empty_world with
  | (Val (d', k), _) => done_at (queue d') r = Some (0, 90, 7) /\
      (w_withdrawn k = false ->
       (forall v, done_at (queue d) r = Some v -> done_at (queue d') r = Some v) /\
       (w_brought k = false -> done_at (queue d') r = w_entry k))
  | _ => False
  end.
Proof.
  intros d r ts.
  assert (Hu : unique_along (jc := counted_journal) (dc := counted_doc) ts d empty_world).
  { apply (bool_decide_unpack _). by vm_compute. }
  pose proof (owner_refines_ledger (jc := counted_journal) (dc := counted_doc) r ts d empty_world Hu) as H.
  assert (E : match run_watched (jc := counted_journal) (dc := counted_doc) r ts d (watching r d) empty_world with
    | (Val (d', _), _) => done_at (queue d') r | _ => None end = Some (0, 90, 7)) by by vm_compute.
  destruct (run_watched _ _ _ _ _) as [[[d' k]|e|] w']; [by split|done|done].
Defined.
