(* ===== verification/Operator.v ===== *)
(** * What the operator is promised

    Where a node keeps its own queue file, an accepted control of a torrent is in
    [queue.json] before it is answered, a
    removed torrent is in the history before it leaves the queue, an import is all
    or nothing, and recovery data is released only where it is wanted. *)

From S2P Require Import Prelude RustStr Crc32 Types Failover Volumes Nzb JobNames Queue Selection ParSelect Fs Codec Store Owner OwnerInv Leases Float Torrents History Desk Commands Accounts.

#[local] Unset Default Proof Using.

(** ** What [queue.json] may be found as

    [json_all P d]: whatever of the entries that [queue.json] has or had is found
    after a crash, it is whole and satisfies [P]. *)

Definition json_all (P : option DFile -> Prop) (d : Disk) : Prop :=
  Forall (fun o => P o /\ forall f, o = Some f -> durable f = length (content f)) (top d !! QUEUE_JSON :: json_old d).

Lemma json_all_crash names P d dd : json_all P d -> crash_disk names d dd -> P (top dd !! QUEUE_JSON).
Proof.
  intros H [[o [Ho Hf]] _ _ _]. unfold json_all in H. rewrite Forall_forall in H. destruct (H o Ho) as [HP Hd].
  destruct Hf as [f f' Hc|]; [|done]. by rewrite (crash_file_durable _ _ (Hd f eq_refl) Hc).
Qed.

Lemma json_all_top P d t : json_all P d -> t !! QUEUE_JSON = top d !! QUEUE_JSON -> json_all P (set_top t d).
Proof. unfold json_all, set_top. cbn [top json_old]. by intros H ->. Qed.

Lemma json_all_jobs P d g : json_all P d -> json_all P (set_jobdirs g d).
Proof. done. Qed.

Lemma json_all_mono (P Q : option DFile -> Prop) d : json_all P d -> (forall o, P o -> Q o) -> json_all Q d.
Proof. intros H HPQ. eapply Forall_impl; [exact H|]. intros o [H1 H2]. by split; [apply HPQ|]. Qed.

Section Saves.
Context {jc : JournalCodec} {dc : DocCodec}.

(** A save, from any state of the directory: at its end the new document is the
    only one that can be found; on the way, the old ones and the new one. *)
Lemma wp_save_json P doc guard w : json_all P (disk w) -> (guard = true -> P (Some (doc_file doc))) ->
  wp (save_guarded doc guard)
    (fun _ w' => committed (Some (doc_file doc)) (disk w') /\ json_all P (disk w'))
    (fun _ w' => json_all P (disk w')) (fun w' => json_all P (disk w')) w.
Proof.
  intros HP Hdoc. unfold save_guarded. destruct (schema_version doc =? _); [|by apply wp_fail]. cbn [negb].
  apply wp_bind, wp_prim_any; cbn [disk]; [|done..].
  intros fs1. set (d1 := set_top _ _).
  assert (H1 : json_all P d1) by (apply json_all_top; [done|]; by rewrite lookup_insert_ne).
  assert (Ha : forall g d, json_all P d -> json_all P (set_top (alter g QUEUE_TMP (top d)) d)).
  { intros g d H. apply json_all_top; [done|]. by rewrite lookup_alter_ne. }
  apply wp_bind, wp_prim_any; cbn [disk]; [|intros; by apply Ha..].
  intros fs2. set (d2 := set_top _ d1). assert (H2 : json_all P d2) by (by apply Ha).
  apply wp_bind, wp_prim_any; cbn [disk]; [|done..].
  intros fs3. set (d3 := set_top _ d2). assert (H3 : json_all P d3) by (by apply Ha).
  assert (T3 : top d3 !! QUEUE_TMP = Some (doc_file doc)).
  { unfold d3, d2, d1, set_top. cbn [top]. by rewrite !lookup_alter_eq, lookup_insert_eq. }
  destruct guard; cbn [negb]; [|by apply wp_fail].
  apply wp_bind, wp_prim_any; cbn [disk]; [|done..]. intros fs4. rewrite T3. set (d4 := mkDisk _ _ _ _).
  assert (H4 : json_all P d4).
  { apply Forall_cons. split; [|exact H3]. cbn [d4 top]. rewrite lookup_insert_eq. split; [by apply Hdoc|]. by intros f [= <-]. }
  apply wp_bind, wp_prim_any; cbn [disk]; [|done..]. intros fs5.
  assert (T4 : top d4 !! QUEUE_JSON = Some (doc_file doc)) by apply lookup_insert_eq.
  apply wp_ret. split.
  - split; [exact T4|done|by intros f [= <-]].
  - apply Forall_cons in H4 as [H4 _]. by apply Forall_singleton.
Qed.

(** A computation that does not fail and touches neither [queue.json] nor its
    neighbours. *)
Definition leaves_top {A} (m : io A) : Prop := forall w,
  match m w with
  | (Fails _, _) => False
  | (_, w') => top (disk w') = top (disk w) /\ json_old (disk w') = json_old (disk w)
  end.

Lemma leaves_ret {A} (a : A) : leaves_top (io_ret a).
Proof. by intros w. Qed.

Lemma leaves_bind {A B} (m : io A) (k : A -> io B) : leaves_top m -> (forall a, leaves_top (k a)) -> leaves_top (io_bind m k).
Proof.
  intros Hm Hk w. unfold io_bind. specialize (Hm w). destruct (m w) as [[a|e|] w1]; [|done|done].
  specialize (Hk a w1). destruct Hm as [H1 H2]. by destruct (k a w1) as [[b|e|] w2]; rewrite <- ?H1, <- ?H2.
Qed.

Lemma leaves_try_prim {A} (act : Disk -> result A StateError * Disk) part :
  (forall d, top (snd (act d)) = top d /\ json_old (snd (act d)) = json_old d) ->
  (forall n d, top (part n d) = top d /\ json_old (part n d) = json_old d) -> leaves_top (io_try (prim act part)).
Proof.
  intros Ha Hp w. unfold io_try, prim. specialize (Ha (disk w)).
  destruct (fates w) as [|[|k n|n] fs]; try apply Hp; by destruct (act (disk w)) as [[a|e] d].
Qed.

Lemma remove_job_leaves j id : leaves_top (remove_job j id).
Proof.
  unfold remove_job. apply leaves_bind; [|intros [u|e]; [apply leaves_ret|case_if; apply leaves_ret]].
  apply leaves_try_prim; [|done]. intros d. by destruct (jobdirs d !! _).
Qed.

Lemma compact_dirs_leaves dirs : forall o, leaves_top (compact_dirs dirs o).
Proof.
  induction dirs as [|dir dirs IH]; intros o; cbn [compact_dirs]; [apply leaves_ret|].
  destruct (parse_uint 10 u32_max dir); [|done]. case_if; [done|].
  apply leaves_bind; [apply remove_job_leaves|]. by intros [j' r].
Qed.

Lemma wp_leaves {A} (m : io A) (R : Disk -> Prop) w : leaves_top m ->
  (forall d, top d = top (disk w) -> json_old d = json_old (disk w) -> R d) ->
  wp m (fun _ w' => R (disk w')) (fun _ _ => False) (fun w' => R (disk w')) w.
Proof. intros Hm HR. unfold wp. specialize (Hm w). destruct (m w) as [[a|e|] w1]; [|done|]; destruct Hm; auto. Qed.

Lemma json_all_same P d d' : json_all P d -> top d' = top d -> json_old d' = json_old d -> json_all P d'.
Proof. unfold json_all. by intros H -> ->. Qed.

Lemma committed_same o d d' : committed o d -> top d' = top d -> json_old d' = json_old d -> committed o d'.
Proof. intros [H1 H2 H3] E1 E2. split; [by rewrite E1|by rewrite E2|done]. Qed.

Lemma wp_also {A} (m : io A) P Q E C w : ensures m P -> wp m Q E C w -> wp m (fun a w' => P a /\ Q a w') E C w.
Proof. unfold wp. intros Hm H. specialize (Hm w). destruct (m w) as [[a|e|] w1]; [|done|done]. by destruct Hm. Qed.

Variable lane : Lane.

Definition doc_of (q : QueueState) : option DFile := Some (doc_file (to_doc q)).

(** An operation that saves the queue it was given, and says whether it did. *)
Definition saves (act : Desk -> io (Desk * bool)) : Prop := forall d P w,
  o_persist (d_owner d) = true -> json_all P (disk w) -> P (doc_of (queue d)) ->
  wp (act d) (fun p w' => queue (fst p) = queue d /\ json_all P (disk w') /\ (snd p = true -> committed (doc_of (queue d)) (disk w')))
    (fun _ _ => False) (fun w' => json_all P (disk w')) w.

Lemma save_result_json d P w : json_all P (disk w) -> P (doc_of (queue d)) ->
  wp (save_result lane d) (fun p w' => queue (fst p) = queue d /\ json_all P (disk w') /\
      (o_persist (d_owner d) = true -> forall b, snd p = Ok b -> committed (doc_of (queue d)) (disk w')))
    (fun _ _ => False) (fun w' => json_all P (disk w')) w.
Proof.
  intros HP Hdoc. apply wp_also; [apply save_result_queue|]. unfold save_result, save_snapshot_result.
  apply wp_bind. destruct (o_persist (d_owner d)); cbn [negb]; [|by repeat apply wp_ret].
  apply wp_bind, wp_try. eapply wp_mono; [by apply (wp_save_json P)| | |done].
  2: intros e w1 H1; apply wp_ret, wp_ret; by split.
  intros n w1 [Hc H1]. apply wp_bind.
  set (R := fun x : Disk => json_all P x /\ committed (doc_of (queue d)) x).
  assert (HR : forall w' d', R (disk w') -> top d' = top (disk w') -> json_old d' = json_old (disk w') -> R d').
  { intros w' d' [A1 A2] E1 E2. split; [by eapply json_all_same|by eapply committed_same]. }
  eapply wp_mono; [apply (wp_leaves _ R); [apply leaves_try_prim; [by intros|done]|by intros; eapply HR; [split|..]]|
    |done|by intros w' []]. cbn beta.
  intros entries w2 H2. apply wp_bind. eapply wp_mono; [apply (wp_leaves _ R); [|by intros; eapply HR]| |done|by intros w' []].
  { destruct entries; [apply compact_dirs_leaves|apply leaves_ret]. }
  cbn beta. intros o w3 [H3 C3]. apply wp_ret, wp_ret. by split.
Qed.

Lemma save_json d P w : json_all P (disk w) -> P (doc_of (queue d)) ->
  wp (Desk.save lane d) (fun p w' => queue (fst p) = queue d /\ json_all P (disk w') /\
      (o_persist (d_owner d) = true -> snd p = true -> committed (doc_of (queue d)) (disk w')))
    (fun _ _ => False) (fun w' => json_all P (disk w')) w.
Proof.
  intros HP Hdoc. apply wp_also; [apply save_queue|]. unfold Desk.save. apply wp_bind.
  eapply wp_mono; [by apply save_result_json| |done|done]. intros [d1 [b|e]] w1 (_ & H1 & H2); apply wp_ret; split; try done.
  intros Hp. cbn [snd]. intros ->. by eapply H2.
Qed.

Lemma persisted_saves : saves (Desk.persisted lane).
Proof.
  intros d P w Hp HP Hdoc. unfold Desk.persisted. rewrite Hp. eapply wp_mono; [by apply save_json| |done|done].
  intros [d' ok] w' (H1 & H2 & H3). split_and!; try done. by apply H3.
Qed.

Lemma persist_then_command_saves c : saves (persist_then_command lane c).
Proof.
  intros d P w Hp HP Hdoc. apply wp_also; [apply persist_then_command_queue|]. unfold persist_then_command.
  pose proof (persisted_saves d P w Hp HP Hdoc) as HS. destruct (o_backend_pending (d_owner d)).
  - apply wp_bind. eapply wp_mono; [exact HS| |done|done]. intros [d' ok] w' (H1 & H2 & H3).
    destruct ok; [|by apply wp_ret]. destruct (enqueue_backend_command _ _ c) as [o' queued]. apply wp_ret. split; [done|].
    intros _. by apply H3.
  - case_if; [by apply wp_ret|]. apply wp_bind. eapply wp_mono; [exact HS| |done|done]. intros [d' ok] w' (H1 & H2 & H3).
    destruct ok; [|by apply wp_ret]. apply wp_ret. split; [done|]. intros _. by apply H3.
Qed.

(** ** Controls of a torrent *)

Lemma update_first_back {A} (p : A -> bool) f l x : (forall y, p y = true -> p (f y) = true) -> find p l = Some x ->
  update_first p (fun _ => x) (update_first p f l) = l.
Proof.
  intros Hf. induction l as [|y l IH]; [done|]. simpl. destruct (p y) eqn:E; simpl.
  - intros [= ->]. by rewrite Hf.
  - intros Hx. rewrite E. f_equal. by apply IH.
Qed.

Lemma update_job_back q job f j : (forall j, job_id (f j) = job_id j) -> find_job q job = Some j ->
  update_job (update_job q job f) job (fun _ => j) = q.
Proof.
  intros Hf Hj. unfold update_job, set_jobs. cbn. rewrite update_first_back; [by destruct q| |done].
  intros y. by rewrite Hf.
Qed.

Definition answered_with (d : Desk) (q : QueueState) (P : option DFile -> Prop) (p : Desk * bool) (w : World) : Prop :=
  json_all P (disk w) /\
  if snd p then queue (fst p) = q /\ committed (doc_of q) (disk w) else queue (fst p) = queue d.

Lemma attempt_saves job f act d j P w : saves act -> (forall j, job_id (f j) = job_id j) -> find_job (queue d) job = Some j ->
  o_persist (d_owner d) = true -> json_all P (disk w) -> P (doc_of (update_job (queue d) job f)) ->
  wp (attempt job f act d) (answered_with d (update_job (queue d) job f) P) (fun _ _ => False) (fun w' => json_all P (disk w')) w.
Proof.
  intros Hact Hf Hj Hp HP Hdoc. unfold attempt. rewrite Hj. apply wp_bind.
  eapply wp_mono; [apply (Hact (dirty (edit_job job f d)) P); [done|exact HP|exact Hdoc]| |done|done].
  intros [d' ok] w' (E & H1 & H2). cbn [fst snd] in E, H2. change (queue (dirty (edit_job job f d))) with (update_job (queue d) job f) in *.
  destruct ok; apply wp_ret; (split; [done|]); cbn [fst snd]; [by split; [|apply H2]|].
  rewrite edit_job_queue, E. by apply update_job_back.
Qed.

End Saves.

(** The edit that a control asks for. *)
Definition asked (now : Z) (c : QueueCommand) : option (JobId * (Job -> Job)) :=
  match c with
  | Pause job => Some (job, fun j => set_status JS_Paused (put_torrent (intend_pause Manual) j))
  | Resume job => Some (job, fun j => set_status JS_Queued (put_torrent (intend_run now) j))
  | Delete job delete_files => Some (job, put_torrent (intend_removal delete_files))
  | SetPriority job p => Some (job, set_priority p)
  | _ => None
  end.

Definition changes_priority (c : QueueCommand) (j : Job) : Prop :=
  match c with SetPriority _ p => priority j <> p | _ => True end.

Lemma wp_replied {jc : JournalCodec} {dc : DocCodec} (m : io (Desk * bool)) Q (E : StateError -> World -> Prop) C w :
  wp m (fun p w' => Q (fst p, R_Bool (snd p)) w') E C w -> wp (replied m) Q E C w.
Proof. intros H. unfold replied. apply wp_bind. eapply wp_mono; [exact H| |done|done]. by intros [d ok] w' H'. Qed.

(** C7: a control is durable before it is answered, on a node that keeps its own
    queue file ([o_persist]; a worker's queue lives with the leader, and there
    nothing is saved, see [worker_control_unsaved]).  When the owner accepts the
    pause, resume, removal or new priority of a torrent, the queue holds the
    request, and whatever crash follows, [queue.json] is the snapshot of that
    queue.  When it refuses, the queue is as it was.  In every case, also when the
    machine stops during the call, [queue.json] is the old snapshot or the one
    with the request, and the call does not fail. *)
Theorem control_durable {jc : JournalCodec} {dc : DocCodec} shelf d c job edit j old w :
  asked (commands_now shelf) c = Some (job, edit) -> find_job (queue d) job = Some j -> has_torrent j = true ->
  changes_priority c j -> o_persist (d_owner d) = true -> committed old (disk w) ->
  let requested := update_job (queue d) job edit in
  match on_command shelf d c w with
  | (Val (d', R_Bool true), w') => queue d' = requested /\ (forall names dd, crash_disk names (disk w') dd -> top dd !! QUEUE_JSON = doc_of requested)
  | (Val (d', R_Bool false), w') => queue d' = queue d /\
      (forall names dd, crash_disk names (disk w') dd -> top dd !! QUEUE_JSON = old \/ top dd !! QUEUE_JSON = doc_of requested)
  | (Crashed, w') => forall names dd, crash_disk names (disk w') dd -> top dd !! QUEUE_JSON = old \/ top dd !! QUEUE_JSON = doc_of requested
  | _ => False
  end.
Proof.
  intros Ha Hj Ht Hc Hp Hold requested. set (P o := o = old \/ o = doc_of requested).
  assert (HP : json_all P (disk w)).
  { destruct Hold as [H1 H2 H3]. unfold json_all. rewrite H1, H2. apply Forall_singleton. split; [by left|done]. }
  assert (H : wp (on_command shelf d c) (fun p w' => json_all P (disk w') /\ exists ok, snd p = R_Bool ok /\
      if ok then queue (fst p) = requested /\ committed (doc_of requested) (disk w') else queue (fst p) = queue d)
      (fun _ _ => False) (fun w' => json_all P (disk w')) w).
  { assert (Hrefuse : wp (io_ret (d, R_Bool false)) (fun p w' => json_all P (disk w') /\ exists ok, snd p = R_Bool ok /\
        if ok then queue (fst p) = requested /\ committed (doc_of requested) (disk w') else queue (fst p) = queue d)
        (fun _ _ => False) (fun w' => json_all P (disk w')) w) by (apply wp_ret; split; [done|by exists false]).
    assert (Htry : forall act, saves act -> (forall j, job_id (edit j) = job_id j) ->
      wp (replied (attempt job edit act d)) (fun p w' => json_all P (disk w') /\ exists ok, snd p = R_Bool ok /\
        if ok then queue (fst p) = requested /\ committed (doc_of requested) (disk w') else queue (fst p) = queue d)
        (fun _ _ => False) (fun w' => json_all P (disk w')) w).
    { intros act Hact Hid. apply wp_replied. eapply wp_mono; [apply (attempt_saves job edit act d j P w); try done; by right| |done|done].
      intros [d' ok] w' [H1 H2]. cbn [fst snd] in *. split; [done|]. by exists ok. }
    pose proof Ht as Ht'. apply andb_true_iff in Ht' as [Hk Hs]. apply bool_decide_eq_true_1 in Hs as [t Et].
    destruct c; try done; simpl in Ha; injection Ha as <- <-; cbn [on_command].
    - unfold on_pause. rewrite Hj, Ht. case_if; [|done]. by apply Htry; [apply persist_then_command_saves|].
    - unfold on_resume. case_if; [done|]. rewrite Hj. case_if; [done|]. case_if; [done|]. rewrite Ht.
      by apply Htry; [apply persisted_saves|].
    - unfold on_delete. rewrite Hj. cbn. rewrite Et. by apply Htry; [apply persist_then_command_saves|].
    - unfold on_set_priority. rewrite Hj, Hk. simpl in Hc. apply Z.eqb_neq in Hc. rewrite Hc. simpl.
      by apply Htry; [apply persist_then_command_saves|]. }
  unfold wp in H. destruct (on_command shelf d c w) as [[[d' r]|e|] w']; [|done|].
  - destruct H as [H1 (ok & E & H2)]. cbn [fst snd] in *. subst r. destruct ok.
    + destruct H2 as [Hq Hco]. split; [done|]. intros names dd Hdd. by eapply committed_crash.
    + split; [done|]. intros names dd Hdd. by apply (json_all_crash names P (disk w')).
  - intros names dd Hdd. by apply (json_all_crash names P (disk w')).
Qed.

Definition control_desk : Desk :=
  desk_of (set_next_ids 1 0 (set_jobs [sample_torrent_job 1 torrent_record] sample_queue)).

Lemma control_durable_witness :
  match on_command (jc := counted_journal) (dc := counted_doc) sample_shelf control_desk (Pause 1) empty_world with
  | (Val (d', R_Bool true), w') => map status (jobs (queue d')) = [JS_Paused] /\
      forall names dd, crash_disk names (disk w') dd -> exists q, top dd !! QUEUE_JSON = doc_of (dc := counted_doc) q /\ map status (jobs q) = [JS_Paused]
  | _ => False
  end.
Proof.
  pose proof (control_durable (jc := counted_journal) (dc := counted_doc) sample_shelf control_desk (Pause 1) 1
    (fun j => set_status JS_Paused (put_torrent (intend_pause Manual) j)) (sample_torrent_job 1 torrent_record) None empty_world
    eq_refl eq_refl eq_refl I eq_refl ltac:(by split)) as H.
  cbv zeta in H. destruct (on_command _ _ _ _) as [[[d' r]|e|] w'] eqn:E.
  - destruct r; try done. destruct ok.
    + destruct H as [Hq H]. rewrite Hq. split; [by vm_compute|]. intros names dd Hdd. eexists. split; [by eapply H|by vm_compute].
    + assert (F : match on_command (jc := counted_journal) (dc := counted_doc) sample_shelf control_desk (Pause 1) empty_world with
        | (Val (_, R_Bool false), _) => false | _ => true end = true) by by vm_compute.
      by rewrite E in F.
  - done.
  - assert (F : match on_command (jc := counted_journal) (dc := counted_doc) sample_shelf control_desk (Pause 1) empty_world with
      | (Crashed, _) => false | _ => true end = true) by by vm_compute.
    by rewrite E in F.
Defined.

(** A worker accepts the same control, and has no file to show for it. *)
Lemma worker_control_unsaved :
  match on_command (jc := counted_journal) (dc := counted_doc) sample_shelf (on_owner (with_persist false) control_desk) (Pause 1) empty_world with
  | (Val (d', R_Bool ok), w') => ok = true /\ map status (jobs (queue d')) = [JS_Paused] /\ top (disk w') !! QUEUE_JSON = None
  | _ => False
  end.
Proof. by vm_compute. Qed.

(** ** Retiring a removed torrent *)

Section Retire.
Context {jc : JournalCodec} {dc : DocCodec}.
Variable lane : Lane.

(** The history holds the terminal entry of a confirmed removal. *)
Definition in_history (j : Job) : Prop := exists t at_unix,
  torrent j = Some t /\ is_Some (removal_outcome t) /\ removal_confirmed_at_unix t = Some at_unix /\
  match l_record lane with Some record => record (terminal_entry j t at_unix) = true | None => True end.

(** Nothing but such torrents left the queue. *)
Definition only_recorded_left (q q' : QueueState) : Prop :=
  jobs q' `sublist_of` jobs q /\ forall j, j ∈ jobs q -> j ∈ jobs q' \/ in_history j.

Lemma remove_first_left {A} (p : A -> bool) l x : x ∈ l -> x ∈ remove_first p l \/ p x = true.
Proof.
  induction l as [|y l IH]; [by intros ?%elem_of_nil|]. intros [->|Hx]%elem_of_cons; simpl.
  - destruct (p y); [by right|left; left].
  - destruct (p y); [by left|]. destruct (IH Hx); [left; by right|by right].
Qed.

Lemma removed_left q0 q j : NoDup (map job_id (jobs q0)) -> j ∈ jobs q0 -> in_history j -> only_recorded_left q0 q ->
  only_recorded_left q0 (set_jobs (remove_first (fun x => job_id x =? job_id j) (jobs q)) q).
Proof.
  intros Hn Hj Hh [H1 H2]. split; cbn [set_jobs jobs].
  - etransitivity; [apply remove_first_sublist|exact H1].
  - intros x Hx. destruct (H2 x Hx) as [Hq|Hq]; [|by right].
    destruct (remove_first_left (fun x => job_id x =? job_id j) _ x Hq) as [?|E]; [by left|]. right.
    apply Z.eqb_eq in E. by rewrite (NoDup_map_inj _ _ _ _ Hn Hx Hj E).
Qed.

Definition queue_found (old : option DFile) (q0 : QueueState) (o : option DFile) : Prop :=
  o = old \/ exists q, o = doc_of q /\ only_recorded_left q0 q.

Definition retiring_ok (old : option DFile) (q0 : QueueState) (d : Desk) (w : World) : Prop :=
  only_recorded_left q0 (queue d) /\ json_all (queue_found old q0) (disk w).

Lemma retire_left old q0 j d w : NoDup (map job_id (jobs q0)) -> j ∈ jobs q0 -> awaits_retirement j = true -> retiring_ok old q0 d w ->
  wp (retire lane d j) (retiring_ok old q0) (fun _ _ => False) (fun w' => json_all (queue_found old q0) (disk w')) w.
Proof.
  intros Hn Hj Ha H. pose proof H as [H1 H2]. unfold retire.
  destruct (torrent j ≫= _) as [[t at_unix]|] eqn:Et; [|by apply wp_ret]. case_if; [|by apply wp_ret].
  assert (Hh : in_history j).
  { unfold awaits_retirement in Ha. destruct (torrent j) as [t0|] eqn:E0; [|done]. simpl in Et.
    destruct (removal_confirmed_at_unix t0) as [a|] eqn:Ea; [|done]. simpl in Et. injection Et as -> ->.
    apply bool_decide_eq_true_1 in Ha. exists t, at_unix. split_and!; try done. by destruct (l_record lane). }
  apply wp_bind. unfold delete_job. destruct (find_job (queue d) (job_id j)) as [j'|]; [|by apply wp_ret, wp_ret].
  destruct (l_prepare_forget lane (job_id j)); cbn [negb]; [|by apply wp_ret, wp_ret].
  set (d1 := forget _ j' _). assert (Q1 : only_recorded_left q0 (queue d1)).
  { unfold d1. rewrite forget_queue. cbn [on_owner with_owner with_allocated with_retiring queue d_owner o_state].
    by apply removed_left. }
  apply wp_bind. eapply wp_mono with (Q := fun d2 w2 => queue d2 = queue d1 /\ json_all (queue_found old q0) (disk w2))
    (E := fun _ _ => False) (C := fun w' => json_all (queue_found old q0) (disk w')); [| |done|done].
  - case_if; [|by apply wp_ret]. apply wp_bind.
    eapply wp_mono; [apply (wp_leaves _ (json_all (queue_found old q0))); [apply remove_job_leaves|intros; by eapply json_all_same]| |done|done].
    intros [jn r] w2 Hw2. by apply wp_ret.
  - intros d2 w2 [E2 J2]. apply wp_bind. eapply wp_mono; [apply save_json; [exact J2|]| |done|done].
    + right. exists (queue d2). by rewrite E2.
    + intros [d3 b] w3 (E3 & J3 & _). apply wp_ret, wp_ret. split; [|done]. change (only_recorded_left q0 (queue d3)).
      cbn [fst] in E3. by rewrite E3, E2.
Qed.

Lemma retire_all_left old q0 l : NoDup (map job_id (jobs q0)) -> forall d w,
  Forall (fun j => j ∈ jobs q0 /\ awaits_retirement j = true) l -> retiring_ok old q0 d w ->
  wp (retire_all lane l d) (retiring_ok old q0) (fun _ _ => False) (fun w' => json_all (queue_found old q0) (disk w')) w.
Proof.
  intros Hn. induction l as [|j l IH]; intros d w Hl H; cbn [retire_all]; [by apply wp_ret|].
  apply Forall_cons in Hl as [[Hj Ha] Hl]. apply wp_bind. eapply wp_mono; [by apply retire_left| |done|done].
  intros d' w' H'. by apply IH.
Qed.

(** C8: no torrent is lost on its way to the history.  Whatever the file system
    and the history answer, and wherever the machine stops, every torrent that is
    no longer in the queue, nor in the [queue.json] that is found afterwards, had
    its removal confirmed and its terminal entry recorded in the history; and the
    retirement does not fail. *)
Theorem retired_in_history d old w : NoDup (map job_id (jobs (queue d))) -> committed old (disk w) ->
  match finalize_confirmed_torrent_removals lane d w with
  | (Val d', w') => only_recorded_left (queue d) (queue d') /\
      forall names dd, crash_disk names (disk w') dd -> queue_found old (queue d) (top dd !! QUEUE_JSON)
  | (Fails _, _) => False
  | (Crashed, w') => forall names dd, crash_disk names (disk w') dd -> queue_found old (queue d) (top dd !! QUEUE_JSON)
  end.
Proof.
  intros Hn [H1 H2 H3]. set (P := queue_found old (queue d)).
  assert (HP : json_all P (disk w)).
  { unfold json_all. rewrite H1, H2. apply Forall_singleton. split; [by left|done]. }
  assert (Hself : only_recorded_left (queue d) (queue d)) by (split; [done|by left]).
  assert (H : wp (finalize_confirmed_torrent_removals lane d) (retiring_ok old (queue d)) (fun _ _ => False)
    (fun w' => json_all P (disk w')) w).
  { unfold finalize_confirmed_torrent_removals. destruct (List.filter awaits_retirement (jobs (queue d))) as [|j l] eqn:El; [by apply wp_ret|].
    apply wp_bind. eapply wp_mono with (Q := fun p w' => queue (fst p) = queue d /\ json_all P (disk w'))
      (E := fun _ _ => False) (C := fun w' => json_all P (disk w')); [| |done|done].
    - unfold Desk.persisted. case_if; [|by apply wp_ret]. eapply wp_mono; [apply save_json; [exact HP|]| |done|done].
      + right. by exists (queue d).
      + by intros p w' (E & J & _).
    - intros [d' ok] w' [E J]. cbn [fst] in E. destruct ok; [|apply wp_ret; split; [by rewrite E|done]].
      apply retire_all_left; [done| |split; [by rewrite E|done]]. rewrite <- El. apply List.Forall_forall. intros x [Hx Hp]%filter_In.
      split; [by apply list_elem_of_In|done]. }
  unfold wp in H. destruct (finalize_confirmed_torrent_removals lane d w) as [[d'|e|] w']; [|done|].
  - destruct H as [Q J]. split; [done|]. intros names dd Hdd. by apply (json_all_crash names P (disk w')).
  - intros names dd Hdd. by apply (json_all_crash names P (disk w')).
Qed.

End Retire.

Definition removed_desk : Desk :=
  let t := removal_confirmed Retained 5 torrent_record in
  desk_of (set_next_ids 2 0 (set_jobs [sample_torrent_job 1 t; sample_torrent_job 2 torrent_record] sample_queue)).

Lemma retired_in_history_witness :
  match finalize_confirmed_torrent_removals (dc := counted_doc) sample_lane removed_desk empty_world with
  | (Val d', w') => map job_id (jobs (queue d')) = [2] /\ only_recorded_left sample_lane (queue removed_desk) (queue d')
  | _ => False
  end.
Proof.
  assert (Hn : NoDup (map job_id (jobs (queue removed_desk)))) by (vm_compute; repeat constructor; set_solver).
  pose proof (retired_in_history (dc := counted_doc) sample_lane removed_desk None empty_world Hn ltac:(by split)) as H.
  assert (F : match finalize_confirmed_torrent_removals (dc := counted_doc) sample_lane removed_desk empty_world with
    | (Val d', _) => map job_id (jobs (queue d')) = [2] | _ => False end) by by vm_compute.
  destruct (finalize_confirmed_torrent_removals _ _ _) as [[d'|e|] w']; [|done..]. by destruct H.
Defined.

(** ** An import is all or nothing *)

Section Importing.
Context {jc : JournalCodec} {dc : DocCodec}.
Variable shelf : Shelf.

Definition without (id : JobId) (q : QueueState) : list Job := remove_first (fun x => job_id x =? id) (jobs q).

(** The same but for what is kept of one job. *)
Record same_but (id : JobId) (d d' : Desk) : Prop := {
  sb_jobs : without id (queue d') = without id (queue d);
  sb_delegated : delete id (o_delegated (d_owner d')) = delete id (o_delegated (d_owner d));
  sb_post_fetch : delete id (o_post_fetch (d_owner d')) = delete id (o_post_fetch (d_owner d));
  sb_mirror : delete id (d_mirror d') = delete id (d_mirror d)
}.

Lemma same_but_trans id d1 d2 d3 : same_but id d1 d2 -> same_but id d2 d3 -> same_but id d1 d3.
Proof. intros [? ? ? ?] [? ? ? ?]. split; congruence. Qed.

Lemma remove_first_none {A} (p : A -> bool) l : Forall (fun x => p x = false) l -> remove_first p l = l.
Proof. induction 1 as [|x l Hx _ IH]; [done|]. simpl. by rewrite Hx, IH. Qed.

Lemma remove_first_app {A} (p : A -> bool) l l' : Forall (fun x => p x = false) l -> remove_first p (l ++ l') = l ++ remove_first p l'.
Proof. induction 1 as [|x l Hx _ IH]; [done|]. simpl. by rewrite Hx, IH. Qed.

Lemma without_none id q : NoDup (map job_id (jobs q)) -> Forall (fun j => (job_id j =? id) = false) (without id q).
Proof.
  unfold without. induction (jobs q) as [|j l IH]; simpl; [constructor|]. intros [Hj Hn]%NoDup_cons.
  destruct (job_id j =? id) eqn:E; [|constructor; auto]. apply Z.eqb_eq in E. rewrite Forall_forall. intros x Hx.
  apply Z.eqb_neq. intros E'. apply Hj. rewrite E, <- E'. by apply list_elem_of_fmap_2.
Qed.

Lemma forget_fields id j d : jobs (queue (forget id j d)) = without id (queue d) /\
  o_delegated (d_owner (forget id j d)) = delete id (o_delegated (d_owner d)) /\
  o_post_fetch (d_owner (forget id j d)) = delete id (o_post_fetch (d_owner d)) /\
  d_mirror (forget id j d) = delete id (d_mirror d).
Proof.
  rewrite forget_queue. split; [done|]. unfold forget.
  cbn [with_mirror on_owner with_owner d_owner d_mirror with_post_fetch with_delegated with_attempts with_pending_finalize o_delegated o_post_fetch].
  assert (E : forall fs o, o_delegated (fold_left drop_file fs o) = o_delegated o /\ o_post_fetch (fold_left drop_file fs o) = o_post_fetch o).
  { induction fs as [|f fs IH]; intros o; [done|]. simpl. by rewrite !(proj1 (IH _)), !(proj2 (IH _)). }
  by rewrite !(proj1 (E _ _)), !(proj2 (E _ _)).
Qed.

Lemma remove_silent_same id d : NoDup (map job_id (jobs (queue d))) ->
  let d' := fst (remove_job_silent id d) in same_but id d d' /\ jobs (queue d') = without id (queue d).
Proof.
  intros Hn d'. unfold d', remove_job_silent. destruct (find_job (queue d) id) as [j|] eqn:Ej; cbn [fst].
  - destruct (forget_fields id j d) as (E1 & E2 & E3 & E4). split; [|done]. split; rewrite ?E2, ?E3, ?E4, ?delete_delete_eq; try done.
    unfold without at 1. rewrite E1. by apply remove_first_none, without_none.
  - split; [by split|]. symmetry. apply remove_first_none, Forall_forall. intros x Hx. apply Z.eqb_neq. intros <-.
    by apply not_found in Ej as []; apply list_elem_of_fmap_2.
Qed.

Lemma restore_entry_same {A} id (m m' : gmap JobId A) : delete id m' = delete id m -> restore_entry id (m !! id) m' = m.
Proof.
  intros E. unfold restore_entry. apply map_eq. intros k. destruct (decide (k = id)) as [->|Hk]; [by rewrite lookup_partial_alter_eq|].
  rewrite lookup_partial_alter_ne by done. by rewrite <- (lookup_delete_ne m' id k), E, lookup_delete_ne.
Qed.

Lemma save_same id d : ensures (Desk.save (lane_of shelf) d) (fun p => same_but id d (fst p)).
Proof.
  unfold Desk.save, save_result. eapply ensures_bind with (P := fun p => same_but id d (fst p)).
  - eapply ensures_bind; [apply save_result_persisted|]. intros [o r] (jn & p & b & E). simpl in E. subst o.
    apply ensures_ret. by destruct r as [[]|].
  - intros [d' [b|e]] [H1 H2 H3 H4]; apply ensures_ret; [by split|]. cbn [fst] in *. by destruct e; split.
Qed.

Lemma take_payload_fields j o : o_delegated (fst (take_payload shelf j o)) = o_delegated o /\
  o_post_fetch (fst (take_payload shelf j o)) = o_post_fetch o.
Proof. unfold take_payload. repeat case_match; simplify_eq; done. Qed.

(** What an import leaves: refused, nothing but the job's own entries changed;
    accepted, the job is the last of the queue, and the queue is on the disk. *)
Definition import_left (j : Job) (d : Desk) (p : Desk * bool) (w : World) : Prop :=
  same_but (job_id j) d (fst p) /\
  (snd p = true -> jobs (queue (fst p)) = without (job_id j) (queue d) ++ [recompute_job_totals (from_the_wire j)] /\
     committed (doc_of (queue (fst p))) (disk w)) /\
  NoDup (map job_id (jobs (queue (fst p)))).

Lemma update_last (id : JobId) f l j : Forall (fun x => (job_id x =? id) = false) l -> job_id j = id ->
  update_first (fun x => job_id x =? id) f (l ++ [j]) = l ++ [f j].
Proof.
  intros Hl Hj. induction Hl as [|x l Hx _ IH]; simpl; [by rewrite Hj, Z.eqb_refl|]. by rewrite Hx, IH.
Qed.

Lemma wire_id j : job_id (from_the_wire j) = job_id j.
Proof. unfold from_the_wire. by case_match. Qed.

Lemma import_job_left j d w : NoDup (map job_id (jobs (queue d))) -> json_all (fun _ => True) (disk w) ->
  wp (import_job shelf j false false d) (import_left j d) (fun _ _ => False) (fun _ => True) w.
Proof.
  intros Hn HP. set (id := job_id j). unfold import_job. pose proof (wire_id j) as Eid. fold id in Eid.
  set (j' := from_the_wire j) in *. pose proof (take_payload_state shelf j' (d_owner d)) as Es.
  pose proof (take_payload_fields j' (d_owner d)) as [Ed Ep].
  destruct (take_payload shelf j' (d_owner d)) as [o ok]. cbn [fst] in *.
  assert (S0 : same_but id d (with_owner o d)).
  { split; unfold without, queue; cbn [with_owner d_owner d_mirror]; congruence. }
  destruct ok; cbn [negb]; [|apply wp_ret; split_and!; [done|done|unfold queue; cbn [fst with_owner d_owner]; by rewrite Es]].
  rewrite Eid. set (d1 := on_queue _ (with_owner o d)).
  assert (S1 : same_but id d d1) by (by destruct S0; split).
  assert (N1 : NoDup (map job_id (jobs (queue d1)))) by (change (NoDup (map job_id (jobs (o_state o)))); by rewrite Es).
  pose proof (remove_silent_same id d1 N1) as [S2 J2]. destruct (remove_job_silent id d1) as [d2 b2]. cbn [fst] in *.
  pose proof (same_but_trans _ _ _ _ S1 S2) as S2'. rewrite (sb_jobs _ _ _ S1) in J2. clearbody d1. clear S1 S2 N1 d1.
  pose proof (without_none id (queue d) Hn) as Hout. set (l := without id (queue d)) in *.
  set (d3 := on_queue _ d2).
  assert (J3 : jobs (queue d3) = l ++ [recompute_job_totals j']).
  { cbn [d3 on_queue on_owner with_owner queue d_owner with_state o_state update_job set_jobs jobs].
    change (jobs (o_state (d_owner d2))) with (jobs (queue d2)). rewrite J2. by apply update_last. }
  apply wp_bind, wp_ret. cbv zeta. match goal with |- context [dirty ?x] => set (d4 := dirty x) end.
  assert (J4 : jobs (queue d4) = l ++ [recompute_job_totals j']) by exact J3.
  assert (S4 : same_but id d d4).
  { destruct S2' as [H1 H2 H3 H4]. split.
    - unfold without at 1. rewrite J4, remove_first_app by done. simpl.
      change (job_id j' =? id) with (job_id j' =? id). rewrite Eid, Z.eqb_refl. by rewrite app_nil_r.
    - cbn. rewrite delete_delete_eq. exact H2.
    - cbn. apply map_eq. intros k. destruct (decide (k = id)) as [->|Hk]; [by rewrite !lookup_delete_eq|].
      rewrite !lookup_delete_ne, lookup_partial_alter_ne by done. rewrite <- (lookup_delete_ne _ id k), <- (lookup_delete_ne (o_post_fetch (d_owner d)) id k) by done.
      by rewrite <- H3.
    - cbn. by rewrite delete_delete_eq. }
  assert (N4 : NoDup (map job_id (jobs (queue d4)))).
  { rewrite J4, map_app. apply NoDup_app. split_and!.
    - eapply sublist_NoDup; [exact Hn|]. apply (fmap_sublist job_id), remove_first_sublist.
    - intros x (y & -> & Hy)%list_elem_of_fmap. rewrite Forall_forall in Hout. specialize (Hout y Hy). simpl.
      apply Z.eqb_neq in Hout. rewrite Eid. by intros ?%list_elem_of_singleton.
    - apply NoDup_singleton. }
  clearbody d4. clear d3 J3. apply wp_bind.
  eapply wp_mono with (Q := fun p w' => queue (fst p) = queue d4 /\ same_but id d4 (fst p) /\ (snd p = true -> committed (doc_of (queue d4)) (disk w')))
    (E := fun _ _ => False) (C := fun _ => True); [| |done|done].
  - destruct (o_persist (d_owner d4)) eqn:Ep4; [|by apply wp_ret].
    eapply wp_mono; [apply wp_also; [apply (save_same id)|by apply (save_json (lane_of shelf) d4 (fun _ => True))]| |done|done].
    intros p w' (H1 & H2 & H3 & H4). split_and!; try done. by apply H4.
  - intros [d5 ok] w' (E5 & S5 & C5). cbn [fst snd] in *. rewrite andb_false_r. apply wp_ret.
    split; [by eapply same_but_trans|]. cbn [fst snd]. rewrite E5. split; [|done]. intros Hok. split; [by rewrite J4|by apply C5].
Qed.

(** an import is all or nothing.  Accepted, the imported copy, with its leases
    returned and its totals recounted, is the only one of the job, no other job
    moved, and whatever crash follows [queue.json] is the snapshot of that queue.
    Refused, every job is as it was, and so are the delegation, the recovery files
    and the mirrored figures of this one; but the job has moved to the end of the
    queue, where the scheduler serves it last. *)
Theorem import_all_or_nothing j d old w : NoDup (map job_id (jobs (queue d))) -> committed old (disk w) ->
  match on_import_if_present shelf j d w with
  | (Val (d', R_Bool true), w') =>
      jobs (queue d') = without (job_id j) (queue d) ++ [recompute_job_totals (from_the_wire j)] /\
      (forall names dd, crash_disk names (disk w') dd -> top dd !! QUEUE_JSON = doc_of (queue d'))
  | (Val (d', R_Bool false), _) =>
      jobs (queue d') = without (job_id j) (queue d) ++ option_list (find_job (queue d) (job_id j)) /\
      o_delegated (d_owner d') = o_delegated (d_owner d) /\ o_post_fetch (d_owner d') = o_post_fetch (d_owner d) /\
      d_mirror d' = d_mirror d
  | (Crashed, _) => True
  | _ => False
  end.
Proof.
  intros Hn Hold. set (id := job_id j).
  assert (HP : json_all (fun _ => True) (disk w)) by (destruct Hold as [H1 H2 H3]; unfold json_all; rewrite H1, H2; by apply Forall_singleton).
  unfold on_import_if_present. fold id. unfold io_bind at 1.
  set (m := match find_job (queue d) id with Some _ => import_job shelf j false false d | None => io_ret (d, false) end).
  assert (H : wp m (import_left j d) (fun _ _ => False) (fun _ => True) w).
  { unfold m. destruct (find_job (queue d) id); [by apply import_job_left|]. by apply wp_ret; split_and!. }
  unfold wp in H. destruct (m w) as [[[d1 ok]|e|] w1]; [|done|done].
  destruct H as (S1 & H1 & N1). cbn [fst snd] in *. fold id in S1, H1. destruct ok; cbn [io_ret].
  - destruct H1 as [J1 C1]; [done|]. split; [done|]. intros names dd Hdd. by eapply committed_crash.
  - pose proof (remove_silent_same id d1 N1) as [S2 J2]. destruct (remove_job_silent id d1) as [d2 b2]. cbn [fst] in *.
    pose proof (same_but_trans _ _ _ _ S1 S2) as [B1 B2 B3 B4]. rewrite (sb_jobs _ _ _ S1) in J2. cbn [io_ret].
    destruct (find_job (queue d) id) as [p|]; cbn; rewrite ?restore_entry_same by done; (split; [|done]).
    + change (jobs (o_state (d_owner d2))) with (jobs (queue d2)). by rewrite J2.
    + change (jobs (o_state (d_owner d2))) with (jobs (queue d2)). by rewrite J2, app_nil_r.
Qed.
End Importing.

Definition two_torrents : Desk :=
  desk_of (set_next_ids 2 0 (set_jobs [sample_torrent_job 1 torrent_record; sample_torrent_job 2 torrent_record] sample_queue)).

(** A save that fails at its first call. *)
Definition full_disk : World := {| disk := mkDisk ∅ ∅ [] []; fates := [Fault OtherIo 0] |}.

Lemma import_all_or_nothing_witness :
  let j := sample_torrent_job 1 torrent_record in
  match on_import_if_present (jc := counted_journal) (dc := counted_doc) sample_shelf j two_torrents empty_world,
        on_import_if_present (jc := counted_journal) (dc := counted_doc) sample_shelf j two_torrents full_disk with
  | (Val (d1, R_Bool true), _), (Val (d2, R_Bool false), _) =>
      map job_id (jobs (queue d1)) = [2; 1] /\ map job_id (jobs (queue two_torrents)) = [1; 2] /\
      map job_id (jobs (queue d2)) = [2; 1] /\ d_mirror d2 = ∅
  | _, _ => False
  end.
Proof.
  intros j. assert (Hn : NoDup (map job_id (jobs (queue two_torrents)))) by (vm_compute; repeat constructor; set_solver).
  pose proof (import_all_or_nothing (jc := counted_journal) (dc := counted_doc) sample_shelf j two_torrents None full_disk Hn ltac:(by split)) as H.
  assert (F : match on_import_if_present (jc := counted_journal) (dc := counted_doc) sample_shelf j two_torrents empty_world,
        on_import_if_present (jc := counted_journal) (dc := counted_doc) sample_shelf j two_torrents full_disk with
    | (Val (d1, R_Bool true), _), (Val (d2, R_Bool false), _) =>
      map job_id (jobs (queue d1)) = [2; 1] /\ map job_id (jobs (queue two_torrents)) = [1; 2] /\ map job_id (jobs (queue d2)) = [2; 1]
    | _, _ => False end) by by vm_compute.
  revert H F. generalize (on_import_if_present (jc := counted_journal) (dc := counted_doc) sample_shelf j two_torrents full_disk).
  generalize (on_import_if_present (jc := counted_journal) (dc := counted_doc) sample_shelf j two_torrents empty_world).
  intros [[[d1 []]|e1|] w1] [[[d2 []]|e2|] w2] H F; try done; destruct ok; try done. destruct ok0; [done|].
  destruct F as (F1 & F2 & F3). by destruct H as (_ & _ & _ & ->).
Defined.

(** ** A directory of its own *)

Lemma free_dir_all entries base id fuel : forall n, free_dir entries base id fuel n ∈ entries ->
  forall m, (n <= m < n + fuel)%nat -> dir_candidate base id m ∈ entries.
Proof.
  induction fuel as [|fuel IH]; intros n H m Hm; [lia|]. cbn [free_dir] in H.
  case_bool_decide as E; [|done]. destruct (decide (m = n)) as [->|Hne]; [done|]. apply (IH (S n)); [done|lia].
Qed.

Lemma free_dir_candidate entries base id fuel : forall n, exists m, (n <= m <= n + fuel)%nat /\
  free_dir entries base id fuel n = dir_candidate base id m.
Proof.
  induction fuel as [|fuel IH]; intros n; cbn [free_dir]; [exists n; split; [lia|done]|].
  case_bool_decide; [|exists n; split; [lia|done]]. destruct (IH (S n)) as (m & Hm & E). exists m. split; [lia|done].
Qed.

#[local] Instance dir_candidate_inj base id : Inj (=) (=) (dir_candidate base id).
Proof.
  intros n m H. unfold dir_candidate in H. repeat apply app_inv_head in H. apply show_dec_inj in H; lia.
Qed.

(** a new allocation never adopts bytes that are already there.  The search for
    a directory ends, after at most as many turns as there are names: the job
    keeps its name when it is free, and otherwise gets the name with the job's
    number and a counter, which no entry of the destination has. *)
Theorem fresh_directory shelf id j :
  let j' := avoid_dir shelf id j in
  job_dir_name j' ∉ s_entries shelf /\
  (job_dir_name j ∉ s_entries shelf -> j' = j) /\
  (job_dir_name j ∈ s_entries shelf -> exists n, (n <= length (s_entries shelf))%nat /\
     j' = set_dir_name (dir_candidate (job_dir_name j) id n) j).
Proof.
  intros j'. unfold j', avoid_dir. case_bool_decide as Hb; [|by split_and!].
  destruct (free_dir_candidate (s_entries shelf) (job_dir_name j) id (length (s_entries shelf)) 0) as (n & Hn & E).
  split_and!; [|done|intros _; exists n; split; [lia|by rewrite E]].
  rewrite E. unfold job_dir_name at 1. cbn [dir_name set_dir_name].
  rewrite bool_decide_eq_false_2; [|unfold dir_candidate; by intros [_ ?]%app_nil]. rewrite <- E. intros HF.
  pose proof (free_dir_all _ _ _ _ _ HF) as HA.
  set (cs := map (dir_candidate (job_dir_name j) id) (seq 0 (length (s_entries shelf)))).
  assert (HN : NoDup (job_dir_name j :: cs)).
  { apply NoDup_cons. split.
    - intros (m & Em & _)%list_elem_of_fmap. apply (f_equal length) in Em. unfold dir_candidate in Em. rewrite !length_app in Em. simpl in Em. lia.
    - apply (NoDup_fmap_2 (dir_candidate (job_dir_name j) id)), NoDup_seq. }
  assert (HS : job_dir_name j :: cs ⊆ s_entries shelf).
  { intros p [->|(m & -> & Hm%elem_of_seq)%list_elem_of_fmap]%elem_of_cons; [done|]. apply HA. lia. }
  apply (NoDup_submseteq _ _ HN), submseteq_length in HS. unfold cs in HS. simpl in HS. rewrite length_map, length_seq in HS. lia.
Qed.
