(* ===== verification/HistoryDb.v ===== *)
(** * The history index and its log ([crates/nzbd-state/src/history.rs])

    The local index (a table with a cursor, a table of tombstones and the
    retention floor) and the operations on it, and the node's own portable log.
    SQL statements are functions of the index; [serde_json] is the interface
    [HistoryCodec].  The index is rebuilt from the logs in [HistorySync]. *)

From stdpp Require Import sorting.
From S2P Require Import Prelude RustStr Types Queue JobNames Codec History.

#[local] Unset Default Proof Using.

(** ** Lines of a log *)

Abbreviation HistoryKey := (JobId * Z)%type.

Definition key_of (e : HistoryEntry) : HistoryKey := (he_job e, he_completed_at_unix e).

Class HistoryCodec := {
  entry_line : HistoryEntry -> bytes;
  tombstone_line : HistoryKey -> bytes;
  says_tombstone : bytes -> bool;                  (* [HistoryMutationProbe] *)
  tombstone_of : bytes -> option HistoryKey;       (* [HistoryMutation] *)
  entry_of : bytes -> option HistoryEntry;         (* [HistoryEntry] *)
  entry_of_line : forall e, entry_of (entry_line e) = Some e;
  tombstone_of_line : forall k, tombstone_of (tombstone_line k) = Some k;
  tombstone_tagged : forall b, is_Some (tombstone_of b) -> says_tombstone b = true;
  entry_untagged : forall e, says_tombstone (entry_line e) = false;
  entry_one_line : forall e, Forall (fun b => b <> 10) (entry_line e);
  tombstone_one_line : forall k, Forall (fun b => b <> 10) (tombstone_line k);
  entry_nonempty : forall e, entry_line e <> [];
  tombstone_nonempty : forall k, tombstone_line k <> []
}.

Inductive LogLine := L_Tombstone (k : HistoryKey) | L_Entry (e : HistoryEntry) | L_Unknown.

(** The untagged [HistoryLogLine]. *)
Definition log_line {hc : HistoryCodec} (b : bytes) : LogLine :=
  match tombstone_of b with
  | Some k => L_Tombstone k
  | None => match entry_of b with Some e => L_Entry e | None => L_Unknown end
  end.

(** ** The index *)

Record Retention := mkRetention { keep_max : Z; keep_days : Z }.

Definition is_unlimited (r : Retention) : bool := (keep_max r =? 0) && (keep_days r =? 0).

Definition age_cutoff (r : Retention) (now : Z) : option Z :=
  if 0 <? keep_days r then Some (now - keep_days r * 86400) else None.

Record Row := mkRow { entry : HistoryEntry; portable_synced : bool }.

Record Index := mkIndex {
  rows : gmap HistoryKey Row;
  last_id : Z;                                   (* [sqlite_sequence] *)
  tombstones : gset HistoryKey;
  retention_floor : option Z
}.

Definition empty_index : Index := mkIndex ∅ 0 ∅ None.

Definition set_rows (x : gmap HistoryKey Row) (i : Index) : Index := mkIndex x (last_id i) (tombstones i) (retention_floor i).

(** The columns that a later line may change, and [COALESCE]. *)
Definition coalesce {A} (a b : option A) : option A := match a with Some _ => a | None => b end.

Definition set_mutable (hidden : bool) (removed : option Z) (by_client : option str) (rec : option JobRecord)
    (e : HistoryEntry) : HistoryEntry := {|
  he_job := he_job e; he_name := he_name e; he_category := he_category e; he_final_dir := he_final_dir e;
  he_status := he_status e; he_size := he_size e; he_health := he_health e; he_params := he_params e;
  he_dupe_key := he_dupe_key e; he_dupe_score := he_dupe_score e; he_completed_at_unix := he_completed_at_unix e;
  he_hidden := hidden; he_first_seen_at_unix := he_first_seen_at_unix e; he_last_seen_at_unix := he_last_seen_at_unix e;
  he_seen_count := he_seen_count e; he_removed_at_unix := removed; he_picked_up_by := by_client; he_record := rec;
  he_stages := he_stages e; he_seq := he_seq e |}.

Definition set_observed (first last : option Z) (count : Z) (seq : Z) (e : HistoryEntry) : HistoryEntry := {|
  he_job := he_job e; he_name := he_name e; he_category := he_category e; he_final_dir := he_final_dir e;
  he_status := he_status e; he_size := he_size e; he_health := he_health e; he_params := he_params e;
  he_dupe_key := he_dupe_key e; he_dupe_score := he_dupe_score e; he_completed_at_unix := he_completed_at_unix e;
  he_hidden := he_hidden e; he_first_seen_at_unix := first; he_last_seen_at_unix := last;
  he_seen_count := count; he_removed_at_unix := he_removed_at_unix e; he_picked_up_by := he_picked_up_by e;
  he_record := he_record e; he_stages := he_stages e; he_seq := seq |}.

(** A line over what is there: the last hidden flag, the last known values. *)
Definition overlay (newer old : HistoryEntry) : HistoryEntry :=
  set_mutable (he_hidden newer) (coalesce (he_removed_at_unix newer) (he_removed_at_unix old))
    (coalesce (he_picked_up_by newer) (he_picked_up_by old)) (coalesce (he_record newer) (he_record old)) old.

Definition update_row (e : HistoryEntry) (r : Row) : Row := mkRow (overlay e (entry r)) (portable_synced r).

Definition new_row (id : Z) (e : HistoryEntry) : Row := mkRow (set_observed None None 0 id e) false.

(** [replay_entry]: an UPDATE of a known key, else an INSERT that a tombstone
    prevents. *)
Definition replay_entry (i : Index) (e : HistoryEntry) : Index :=
  match rows i !! key_of e with
  | Some r => set_rows (<[key_of e := update_row e r]> (rows i)) i
  | None =>
      if bool_decide (key_of e ∈ tombstones i) then i
      else mkIndex (<[key_of e := new_row (last_id i + 1) e]> (rows i)) (last_id i + 1) (tombstones i) (retention_floor i)
  end.

(** [insert_seq]'s upsert: whether a row was written, and its cursor value.  An
    upsert that updates still takes a number of the sequence. *)
Definition insert_seq (i : Index) (e : HistoryEntry) : Index * bool * Z :=
  if bool_decide (key_of e ∈ tombstones i) then (i, false, match rows i !! key_of e with Some r => he_seq (entry r) | None => 0 end)
  else
    match rows i !! key_of e with
    | Some r => (mkIndex (<[key_of e := update_row e r]> (rows i)) (last_id i + 1) (tombstones i) (retention_floor i), true, he_seq (entry r))
    | None => (replay_entry i e, true, last_id i + 1)
    end.

(** One tombstone: the row goes when the tombstone is new here. *)
Definition replay_tombstone (i : Index) (k : HistoryKey) : Index :=
  if bool_decide (k ∈ tombstones i) then i
  else mkIndex (delete k (rows i)) (last_id i) ({[k]} ∪ tombstones i) (retention_floor i).

Definition apply_tombstones (ks : list HistoryKey) (i : Index) : Index := fold_left replay_tombstone ks i.

Definition ingest_floor (r : Retention) (now : Z) (i : Index) : Z :=
  Z.max (default 0 (retention_floor i)) (default 0 (age_cutoff r now)).

Definition meta_raise (v : Z) (i : Index) : Index :=
  mkIndex (rows i) (last_id i) (tombstones i) (Some (match retention_floor i with Some f => Z.max f v | None => v end)).

(** ** Reading *)

(** [ORDER BY completed_at DESC, id DESC] *)
Definition newer_leb (a b : HistoryEntry) : bool :=
  (he_completed_at_unix b <? he_completed_at_unix a)
  || ((he_completed_at_unix a =? he_completed_at_unix b) && (he_seq b <=? he_seq a)).

Definition entries (i : Index) : list HistoryEntry := map (fun '(_, r) => entry r) (map_to_list (rows i)).

Definition newest_first (l : list HistoryEntry) : list HistoryEntry := merge_sort (fun a b => newer_leb a b) l.

Definition list_page (i : Index) (limit offset : nat) (include_hidden : bool) : list HistoryEntry :=
  take limit (drop offset (newest_first (List.filter (fun e => include_hidden || negb (he_hidden e)) (entries i)))).

Definition get (i : Index) (job : JobId) : option HistoryEntry :=
  head (newest_first (List.filter (fun e => he_job e =? job) (entries i))).

Definition list_since (i : Index) (since : Z) (limit : nat) : list HistoryEntry :=
  take limit (sort_by_key he_seq (List.filter (fun e => since <? he_seq e) (entries i))).

Definition count_filtered (i : Index) (include_hidden : bool) : Z :=
  Z.of_nat (length (List.filter (fun e => include_hidden || negb (he_hidden e)) (entries i))).

(** ** Retention *)

Definition keep_rows (p : HistoryEntry -> bool) (i : Index) : Index :=
  set_rows (filter (fun '(_, r) => p (entry r) = true) (rows i)) i.

(** The rows within both bounds. *)
Definition within_age (r : Retention) (now : Z) (e : HistoryEntry) : bool :=
  match age_cutoff r now with Some cutoff => negb (he_completed_at_unix e <? cutoff) | None => true end.

Definition prune_rows (r : Retention) (now : Z) (i : Index) : Index :=
  let i := keep_rows (within_age r now) i in
  if 0 <? keep_max r then
    let kept := map he_seq (take (Z.to_nat (keep_max r)) (newest_first (entries i))) in
    keep_rows (fun e => bool_decide (he_seq e ∈ kept)) i
  else i.

Definition min_completed (l : list HistoryEntry) : option Z :=
  match map he_completed_at_unix l with [] => None | x :: l' => Some (fold_left Z.min l' x) end.

(** The index after a trim, and the jobs whose rows went. *)
Definition prune (r : Retention) (now : Z) (i : Index) : Index * list JobId :=
  if is_unlimited r then (i, [])
  else
    let i' := prune_rows r now i in
    let gone := map he_job (List.filter (fun e => negb (bool_decide (is_Some (rows i' !! key_of e)))) (entries i)) in
    match gone with
    | [] => (i', [])
    | _ :: _ =>
        match (match min_completed (entries i') with Some m => Some m | None => age_cutoff r now end) with
        | Some floor => (meta_raise floor i', gone)
        | None => (i', gone)
        end
    end.

(** ** Observations and the hidden flag *)

(** What the polls of clients saw of a job, until it is flushed. *)
Record Seen := mkSeen { seen_first : Z; seen_last : Z; seen_count : Z; seen_client : option str }.

Definition MAX_PENDING_SEEN : nat := 10000.

Definition see (client : option str) (now : Z) (o : option Seen) : Seen :=
  let s := default (mkSeen now now 0 None) o in
  mkSeen (Z.min (seen_first s) now) (Z.max (seen_last s) now) (Z.min i64_max (seen_count s + 1)) (coalesce client (seen_client s)).

(** The jobs up to the first that the backlog has no room for. *)
Fixpoint mark_seen (jobs : list JobId) (client : option str) (now : Z) (pending : gmap JobId Seen) : gmap JobId Seen * bool :=
  match jobs with
  | [] => (pending, true)
  | job :: jobs' =>
      if (MAX_PENDING_SEEN <=? base.size pending)%nat && negb (bool_decide (is_Some (pending !! job))) then (pending, false)
      else mark_seen jobs' client now (<[job := see client now (pending !! job)]> pending)
  end.

Definition observe (s : Seen) (r : Row) : Row :=
  let e := entry r in
  let first := Z.min (default (seen_first s) (he_first_seen_at_unix e)) (seen_first s) in
  let last := Z.max (default (seen_last s) (he_last_seen_at_unix e)) (seen_last s) in
  let e := set_observed (Some first) (Some last) (he_seen_count e + seen_count s) (he_seq e) e in
  mkRow (set_mutable (he_hidden e) (he_removed_at_unix e) (coalesce (seen_client s) (he_picked_up_by e)) (he_record e) e)
    (portable_synced r).

Definition update_job_rows (job : JobId) (f : Row -> Row) (i : Index) : Index :=
  set_rows (map_imap (fun k r => Some (if fst k =? job then f r else r)) (rows i)) i.

(** One transaction of at most 256 jobs; a failure puts them back. *)
Definition SEEN_BATCH : nat := 256.

Definition seen_again (old new : Seen) : Seen :=
  mkSeen (Z.min (seen_first new) (seen_first old)) (Z.max (seen_last new) (seen_last old))
    (Z.min i64_max (seen_count new + seen_count old)) (coalesce (seen_client new) (seen_client old)).

Definition flush_seen (commits : bool) (i : Index) (pending : gmap JobId Seen) : Index * gmap JobId Seen :=
  let batch := take SEEN_BATCH (sort_by_key fst (map_to_list pending)) in
  let rest := fold_left (fun m '(job, _) => delete job m) batch pending in
  if commits then (fold_left (fun i '(job, s) => update_job_rows job (observe s) i) batch i, rest)
  else (i, fold_left (fun m '(job, s) =>
              <[job := match m !! job with Some new => seen_again s new | None => s end]> m) batch rest).

Definition hide_row (hidden : bool) (by_client : option str) (removed_at : option Z) (r : Row) : Row :=
  let e := entry r in
  mkRow (set_mutable hidden (if hidden then removed_at else None) (coalesce by_client (he_picked_up_by e)) (he_record e) e)
    (portable_synced r).

(** ** The node's own log *)

Section Log.
Context {hc : HistoryCodec}.

(** A log, or none yet; and how an append ends: all of it, or some of the bytes. *)
Abbreviation Log := (option bytes).
Inductive Append := Appended | AppendFails (n : nat).

Definition append (fate : Append) (b : bytes) (log : Log) : Log * bool :=
  match fate with
  | Appended => (Some (default [] log ++ b), true)
  | AppendFails n => (Some (default [] log ++ take n b), false)
  end.

(** [append_jsonl]: the cursor value is not portable. *)
Definition portable (e : HistoryEntry) : HistoryEntry :=
  set_observed (he_first_seen_at_unix e) (he_last_seen_at_unix e) (he_seen_count e) 0 e.

Definition append_jsonl (fate : Append) (e : HistoryEntry) (log : Log) : Log * bool :=
  append fate (entry_line (portable e) ++ [10]) log.

Definition append_tombstones (fate : Append) (ks : list HistoryKey) (log : Log) : Log * bool :=
  match ks with
  | [] => (log, true)
  | _ :: _ => append fate (concat (map (fun k => tombstone_line k ++ [10]) ks)) log
  end.

(** The store: its index, its log, the observations to flush, the parked NZBs and
    whether a mutation was left half done. *)
Record HistoryDb := mkDb {
  db_index : Index;
  db_log : Log;
  db_pending : gmap JobId Seen;
  db_spool : gset JobId;
  db_retention : Retention;
  db_dirty : bool
}.

Definition with_index (i : Index) (db : HistoryDb) : HistoryDb :=
  mkDb i (db_log db) (db_pending db) (db_spool db) (db_retention db) (db_dirty db).
Definition with_log (l : Log) (db : HistoryDb) : HistoryDb :=
  mkDb (db_index db) l (db_pending db) (db_spool db) (db_retention db) (db_dirty db).
Definition with_spool (s : gset JobId) (db : HistoryDb) : HistoryDb :=
  mkDb (db_index db) (db_log db) (db_pending db) s (db_retention db) (db_dirty db).
Definition with_db_dirty (b : bool) (db : HistoryDb) : HistoryDb :=
  mkDb (db_index db) (db_log db) (db_pending db) (db_spool db) (db_retention db) b.

(** [compact_jsonl]: the lines that stay are those of live entries, the
    tombstones, and what is not understood. *)
Definition line_stays (live : HistoryKey -> bool) (b : bytes) : bool :=
  match log_line b with L_Entry e => live (key_of e) | L_Tombstone _ | L_Unknown => true end.

(** [BufRead::split]: the pieces between line feeds; a last one that is empty is
    not a piece. *)
Definition log_pieces (b : bytes) : list bytes := List.filter (fun l => negb (bool_decide (l = []))) (split_chars (Z.eqb 10) b).

Definition compact_jsonl (i : Index) (log : Log) : Log * Z :=
  match log with
  | None => (None, 0)
  | Some b =>
      let live k := bool_decide (is_Some (rows i !! k)) in
      let ls := log_pieces b in
      let dropped := Z.of_nat (length (List.filter (fun l => negb (line_stays live l)) ls)) in
      if dropped =? 0 then (log, 0)
      else (Some (concat (map (fun l => l ++ [10]) (List.filter (line_stays live) ls))), dropped)
  end.

(** [prune] and [maybe_prune], which is throttled. *)
Definition prune_db (now : Z) (db : HistoryDb) : HistoryDb * Z :=
  let '(i, gone) := prune (db_retention db) now (db_index db) in
  let db := with_spool (db_spool db ∖ list_to_set gone) (with_index i db) in
  match gone with
  | [] => (db, 0)
  | _ :: _ => (with_log (fst (compact_jsonl i (db_log db))) db, Z.of_nat (length gone))
  end.

Definition maybe_prune (due : bool) (now : Z) (db : HistoryDb) : HistoryDb := if due then fst (prune_db now db) else db.

Definition set_retention (r : Retention) (now : Z) (db : HistoryDb) : HistoryDb * Z :=
  prune_db now (mkDb (db_index db) (db_log db) (db_pending db) (db_spool db) r (db_dirty db)).

(** [record_seq]: the index first, then the log; a failed append leaves the store
    dirty. *)
Definition record_seq (fate : Append) (due : bool) (now : Z) (e : HistoryEntry) (db : HistoryDb) : HistoryDb * option Z :=
  let '(i, new, seq) := insert_seq (db_index db) e in
  let db' := with_index i db in
  if new then
    let '(log, ok) := append_jsonl fate e (db_log db') in
    let db' := with_log log db' in
    if ok then (maybe_prune due now db', Some seq) else (with_db_dirty true db', None)
  else (maybe_prune due now db', Some seq).

(** [portable_entry]: the first payload of a key in the logs, in file order. *)
Definition first_payload (k : HistoryKey) (ls : list bytes) : option HistoryEntry :=
  head (omap (fun l => match log_line l with L_Entry e => if bool_decide (key_of e = k) then Some e else None | _ => None end) ls).

(** [record_seq_durable]: the log first.  A row that says it was synced is proof
    of an earlier append. *)
Definition record_seq_durable (logs : list bytes) (fate : Append) (due : bool) (now : Z) (e : HistoryEntry) (db : HistoryDb)
    : HistoryDb * option (Z * HistoryEntry) :=
  let canonical := default e (first_payload (key_of e) (concat (map log_pieces logs))) in
  match rows (db_index db) !! key_of canonical with
  | Some (mkRow row true) => (db, Some (he_seq row, canonical))
  | _ =>
      let '(log, ok) := append_jsonl fate canonical (db_log db) in
      let db := with_log log db in
      if ok then
        let '(i, _, seq) := insert_seq (db_index db) canonical in
        let i := set_rows (alter (fun r => mkRow (entry r) true) (key_of canonical) (rows i)) i in
        (maybe_prune due now (with_index i db), Some (seq, canonical))
      else (with_db_dirty true db, None)
  end.

(** [set_hidden]: every row of the job, and the newest of them, if it is among the
    newest ten thousand, to the log. *)
Definition HIDE_WINDOW : nat := 10000.

Definition set_hidden (fate : Append) (job : JobId) (hidden : bool) (by_client : option str) (removed_at : option Z)
    (db : HistoryDb) : HistoryDb * option bool :=
  let changed := existsb (fun e => he_job e =? job) (entries (db_index db)) in
  let i := update_job_rows job (hide_row hidden by_client removed_at) (db_index db) in
  let db := with_index i db in
  match (if changed then find (fun e => he_job e =? job) (list_page i HIDE_WINDOW 0 true) else None) with
  | Some e =>
      let '(log, ok) := append_jsonl fate e (db_log db) in
      let db := with_log log db in
      if ok then (db, Some changed) else (with_db_dirty true db, None)
  | None => (db, Some changed)
  end.

Definition hide (fate : Append) (job : JobId) (by_client : option str) (now : Z) := set_hidden fate job true by_client (Some now).
Definition restore (fate : Append) (job : JobId) := set_hidden fate job false None None.

(** [delete]: the tombstones reach the log before the rows go. *)
Definition delete_entry (fate : Append) (job : JobId) (db : HistoryDb) : HistoryDb * option bool :=
  let keys := map key_of (List.filter (fun e => he_job e =? job) (entries (db_index db))) in
  let '(log, ok) := append_tombstones fate keys (db_log db) in
  let db := with_log log db in
  if ok then
    (with_spool (db_spool db ∖ {[job]}) (with_index (apply_tombstones keys (db_index db)) db), Some (negb (bool_decide (keys = []))))
  else (with_db_dirty true db, None).

End Log.

(** ** A concrete codec

    A line is an opening brace, the fields and a closing brace; the first field
    tells a tombstone. *)

#[local] Instance HistoryFile_ser : Ser HistoryFile.
Proof.
  refine (ser_via (fun x => (hf_name x, hf_size x, hf_segments_total x, hf_segments_done x, hf_segments_failed x, hf_par2 x))
    (fun '(a0, a1, a2, a3, a4, a5) => mkHistoryFile a0 a1 a2 a3 a4 a5) _).
  by intros [].
Defined.

#[local] Instance TorrentHistoryRecord_ser : Ser TorrentHistoryRecord.
Proof.
  refine (ser_via (fun x => (th_info_hash_v1 x, th_downloaded_bytes x, th_uploaded_bytes x, th_seeding_seconds x,
      th_ready_at_unix x, th_terminal_reason x, th_payload x))
    (fun '(a0, a1, a2, a3, a4, a5, a6) => mkTorrentHistory a0 a1 a2 a3 a4 a5 a6) _).
  by intros [].
Defined.

#[local] Instance JobRecord_ser : Ser JobRecord.
Proof.
  refine (ser_via (fun x => (rec_kind x, rec_files x, rec_total_articles x, rec_success_articles x, rec_failed_articles x,
      rec_retried_articles x, rec_par_size x, rec_url x, rec_client x, rec_category x, rec_queued_at_unix x,
      rec_original_name x, rec_dir_name x, rec_torrent x))
    (fun '(a0, a1, a2, a3, a4, a5, a6, a7, a8, a9, a10, a11, a12, a13) =>
       mkJobRecord a0 a1 a2 a3 a4 a5 a6 a7 a8 a9 a10 a11 a12 a13) _).
  by intros [].
Defined.

#[local] Instance HistoryEntry_ser : Ser HistoryEntry.
Proof.
  refine (ser_via (fun x => (he_job x, he_name x, he_category x, he_final_dir x, he_status x, he_size x, he_health x,
      he_params x, he_dupe_key x, he_dupe_score x, he_completed_at_unix x, he_hidden x, he_first_seen_at_unix x,
      he_last_seen_at_unix x, he_seen_count x, he_removed_at_unix x, he_picked_up_by x, he_record x, he_stages x, he_seq x))
    (fun '(a0, a1, a2, a3, a4, a5, a6, a7, a8, a9, a10, a11, a12, a13, a14, a15, a16, a17, a18, a19) =>
       mkEntry a0 a1 a2 a3 a4 a5 a6 a7 a8 a9 a10 a11 a12 a13 a14 a15 a16 a17 a18 a19) _).
  by intros [].
Defined.

Definition braced (l : list Z) : bytes := 12 :: map (fun z => field_byte z + 2) l ++ [13].

Definition unbraced (b : bytes) : option (list Z) :=
  match b with
  | 12 :: r =>
      match rev r with
      | 13 :: m => if forallb (Z.leb 14) m then Some (map (fun c => byte_field (c - 2)) (rev m)) else None
      | _ => None
      end
  | _ => None
  end.

Lemma field_byte_low z : 12 <= field_byte z.
Proof. unfold field_byte. case_if; bool_hyps; lia. Qed.

Lemma unbraced_braced l : unbraced (braced l) = Some l.
Proof.
  unfold unbraced, braced. rewrite rev_app_distr. cbn [rev app].
  assert (E : forallb (Z.leb 14) (rev (map (fun z => field_byte z + 2) l)) = true).
  { apply forallb_elem. intros x Hx. apply list_elem_of_In, in_rev, list_elem_of_In in Hx. apply list_elem_of_fmap in Hx as (z & -> & _). pose proof (field_byte_low z). lia. }
  rewrite E, rev_involutive, map_map. f_equal. rewrite <- (map_id l) at 2. apply map_ext. intros z.
  by rewrite Z.add_simpl_r, byte_field_byte.
Qed.

Lemma braced_one_line l : Forall (fun b => b <> 10) (braced l).
Proof.
  unfold braced. constructor; [done|]. apply Forall_app. split; [|by repeat constructor]. apply Forall_fmap, Forall_forall.
  intros z _. simpl. pose proof (field_byte_low z). lia.
Qed.

Definition braced_history : HistoryCodec.
Proof.
  refine {|
    entry_line e := braced (0 :: ser e);
    tombstone_line k := braced [1; fst k; snd k];
    says_tombstone b := match unbraced b with Some (1 :: _) => true | _ => false end;
    tombstone_of b := match unbraced b with Some [1; job; completed] => Some (job, completed) | _ => None end;
    entry_of b := match unbraced b with Some (0 :: l) => fst <$> deser l | _ => None end |}.
  - intros e. rewrite unbraced_braced. by rewrite <- (app_nil_r (ser e)), deser_ser.
  - intros [job completed]. by rewrite unbraced_braced.
  - intros b [k Hk]. destruct (unbraced b) as [[|[|[| |]|] l]|]; try done.
  - intros e. by rewrite unbraced_braced.
  - intros e. apply braced_one_line.
  - intros k. apply braced_one_line.
  - done.
  - done.
Defined.

Definition sample_entry (job completed : Z) : HistoryEntry := {|
  he_job := job; he_name := lit "n"; he_category := None; he_final_dir := None; he_status := lit "SUCCESS"; he_size := 1;
  he_health := 1000; he_params := []; he_dupe_key := []; he_dupe_score := 0; he_completed_at_unix := completed;
  he_hidden := false; he_first_seen_at_unix := None; he_last_seen_at_unix := None; he_seen_count := 0;
  he_removed_at_unix := None; he_picked_up_by := None; he_record := None; he_stages := []; he_seq := 0 |}.
