(* ===== verification/HistorySync.v ===== *)
(** * Reconciling the index with the logs of all nodes
    ([crates/nzbd-state/src/history/sync.rs], [sync/incremental.rs])

    [replay_logs] reads what the logs gained since the last pass, keeps for every
    file what it contributed to each entry, and brings the index up to date in
    small transactions, between which it may be interrupted.  [reference_replay]
    is what it has to agree with: all complete lines, one by one. *)

From stdpp Require Import sorting.
From S2P Require Import Prelude RustStr Types Queue JobNames Codec History HistoryDb.

#[local] Unset Default Proof Using.

(** ** Files and lines *)

(** A log as a pass finds it: what identifies the file, and its bytes. *)
Record LogFile := mkLog { lf_id : Z; lf_modified : option Z; lf_bytes : bytes }.

Record Fingerprint := mkPrint { fp_len : nat; fp_modified : option Z; fp_id : Z }.

#[export] Instance Fingerprint_eq_dec : EqDecision Fingerprint.
Proof. solve_decision. Defined.

(** The logs of a directory, sorted by name. *)
Abbreviation Dir := (list (str * LogFile)).

Definition fingerprint (f : LogFile) : Fingerprint := mkPrint (length (lf_bytes f)) (lf_modified f) (lf_id f).

Definition same_file (a b : Fingerprint) : bool := fp_id a =? fp_id b.

(** The complete lines from byte [start] on, with their offsets, and the offset
    behind the last of them. *)
Fixpoint read_lines (start : nat) (acc b : bytes) : list (nat * bytes) * nat :=
  match b with
  | [] => ([], start)
  | c :: b' =>
      if c =? 10 then
        let '(ls, e) := read_lines (start + length acc + 1) [] b' in ((start, rev acc) :: ls, e)
      else read_lines start (c :: acc) b'
  end.

Definition ANCHOR_BYTES : nat := 128.

Definition read_anchor (b : bytes) (offset : nat) : bytes := drop (offset - ANCHOR_BYTES) (take offset b).

Section Sync.
Context {hc : HistoryCodec}.

(** A line as the incremental scan takes it: the probe first. *)
Definition scan_line (b : bytes) : LogLine :=
  if says_tombstone b then match tombstone_of b with Some k => L_Tombstone k | None => L_Unknown end
  else match entry_of b with Some e => L_Entry e | None => L_Unknown end.

(** ** Contributions *)

(** What a file says about an entry: its first payload there, with the last
    effective values of what may change. *)
Record Contribution := mkContribution { c_entry : HistoryEntry; c_first : nat }.

Definition absorb (newer : HistoryEntry) (c : Contribution) : Contribution :=
  mkContribution (overlay newer (c_entry c)) (c_first c).

Record FileState := mkFile {
  fs_print : Fingerprint;
  fs_offset : nat;
  fs_anchor : bytes;
  fs_entries : gmap HistoryKey Contribution
}.

Record Cache := mkCache { c_files : gmap str FileState; c_initialized : bool }.

Record Delta := mkDelta {
  dl_print : Fingerprint;
  dl_offset : nat;
  dl_anchor : bytes;
  dl_reset : bool;
  dl_entries : gmap HistoryKey Contribution
}.

(** ** The scan of one file *)

Record Scan := mkScan {
  sc_entries : gmap HistoryKey Contribution;
  sc_affected : gset HistoryKey;
  sc_tombstones : gset HistoryKey
}.

Definition scan_step (floor : Z) (old : gmap HistoryKey Contribution) (s : Scan) (line : nat * bytes) : Scan :=
  match scan_line (snd line) with
  | L_Tombstone k => mkScan (sc_entries s) (sc_affected s) ({[k]} ∪ sc_tombstones s)
  | L_Entry e =>
      if floor <=? he_completed_at_unix e then
        let k := key_of e in
        let c := match sc_entries s !! k with
                 | Some c => c
                 | None => match old !! k with Some c => c | None => mkContribution e (fst line) end
                 end in
        mkScan (<[k := absorb e c]> (sc_entries s)) ({[k]} ∪ sc_affected s) (sc_tombstones s)
      else s
  | L_Unknown => s
  end.

Definition scan_lines (floor : Z) (old : gmap HistoryKey Contribution) (ls : list (nat * bytes)) : Scan :=
  fold_left (scan_step floor old) ls (mkScan ∅ ∅ ∅).

(** A file is read again from its start when it is not the one that was read, or
    is not a continuation of it. *)
Definition needs_reset (full : bool) (old : option FileState) (f : LogFile) : bool :=
  full
  || match old with
     | None => true
     | Some o =>
         negb (same_file (fs_print o) (fingerprint f)) || (length (lf_bytes f) <? fp_len (fs_print o))%nat
         || (length (lf_bytes f) =? fp_len (fs_print o))%nat
         || negb (bool_decide (read_anchor (lf_bytes f) (fs_offset o) = fs_anchor o))
     end.

(** Nothing for a file that looks as it did; else its delta, the keys it touches
    and its tombstones. *)
Definition scan_file (full : bool) (floor : Z) (old : option FileState) (f : LogFile)
    : option (Delta * gset HistoryKey * gset HistoryKey) :=
  if negb full && match old with Some o => bool_decide (fs_print o = fingerprint f) | None => false end then None
  else
    let reset := needs_reset full old f in
    let offset := if reset then O else match old with Some o => fs_offset o | None => O end in
    let known := match old with Some o => fs_entries o | None => ∅ end in
    let '(ls, committed) := read_lines offset [] (drop offset (lf_bytes f)) in
    let s := scan_lines floor (if reset then ∅ else known) ls in
    let affected := if reset then dom known ∪ sc_affected s else sc_affected s in
    Some (mkDelta (fingerprint f) committed (read_anchor (lf_bytes f) committed) reset (sc_entries s), affected, sc_tombstones s).

(** ** A pass *)

Definition scans (full : bool) (floor : Z) (cache : Cache) (dir : Dir) : list (str * (Delta * gset HistoryKey * gset HistoryKey)) :=
  omap (fun '(p, f) => pair p <$> scan_file full floor (c_files cache !! p) f) dir.

Definition deltas_of (full : bool) (floor : Z) (cache : Cache) (dir : Dir) : gmap str Delta :=
  list_to_map (map (fun '(p, (d, _, _)) => (p, d)) (scans full floor cache dir)).

Definition union_all (l : list (gset HistoryKey)) : gset HistoryKey := foldr (∪) ∅ l.

(** The keys of the files that are gone, and those the scans touched. *)
Definition affected_of (full : bool) (floor : Z) (cache : Cache) (dir : Dir) : gset HistoryKey :=
  union_all (map (fun '(_, o) => dom (fs_entries o)) (List.filter (fun '(p, _) => negb (bool_decide (p ∈ map fst dir))) (map_to_list (c_files cache))))
  ∪ union_all (map (fun '(_, (_, a, _)) => a) (scans full floor cache dir)).

Definition tombstones_of (full : bool) (floor : Z) (cache : Cache) (dir : Dir) : gset HistoryKey :=
  union_all (map (fun '(_, (_, _, t)) => t) (scans full floor cache dir)).

(** What a file contributes to a key: this pass's delta, or what the cache has. *)
Definition contribution (cache : Cache) (deltas : gmap str Delta) (p : str) (k : HistoryKey) : option Contribution :=
  let cached := c_files cache !! p ≫= fun o => fs_entries o !! k in
  match deltas !! p with
  | Some d => match dl_entries d !! k with Some c => Some c | None => if dl_reset d then None else cached end
  | None => cached
  end.

(** The first contribution in file order, with the number of its file, under the
    later ones. *)
Definition merge_in (acc : option (nat * Contribution)) (nc : nat * option Contribution) : option (nat * Contribution) :=
  match snd nc with
  | Some c => match acc with Some (n0, c0) => Some (n0, absorb (c_entry c) c0) | None => Some (fst nc, c) end
  | None => acc
  end.

Definition merge_key (contributions : list (option Contribution)) : option (nat * Contribution) :=
  fold_left merge_in (imap pair contributions) None.

(** Cursor order: by file, then by the place of the first line. *)
Definition first_leb (a b : nat * Contribution) : bool :=
  (fst a <? fst b)%nat || ((fst a =? fst b)%nat && (c_first (snd a) <=? c_first (snd b))%nat).

Definition merged (floor : Z) (cache : Cache) (deltas : gmap str Delta) (dir : Dir) (affected tombs : gset HistoryKey) : list HistoryEntry :=
  let value k := merge_key (map (fun '(p, _) => contribution cache deltas p k) dir) in
  let ks := List.filter (fun k => negb ((snd k <? floor) || bool_decide (k ∈ tombs))) (elements affected) in
  map (fun nc => c_entry (snd nc)) (merge_sort (fun a b => first_leb a b) (omap value ks)).

(** The transactions of a pass: the tombstones by sixteen, then the entries, up to
    sixteen or a size. *)
Inductive Transaction := T_Tombstones (ks : list HistoryKey) | T_Entries (es : list HistoryEntry).

Definition commit (i : Index) (t : Transaction) : Index :=
  match t with T_Tombstones ks => apply_tombstones ks i | T_Entries es => fold_left replay_entry es i end.

Fixpoint chunks {A} (fuel : nat) (n : nat) (l : list A) : list (list A) :=
  match fuel, l with
  | S fuel', _ :: _ => take n l :: chunks fuel' n (drop n l)
  | _, _ => []
  end.

Fixpoint batches (batch : list HistoryEntry) (size : Z) (es : list HistoryEntry) : list (list HistoryEntry) :=
  match es with
  | [] => match batch with [] => [] | _ :: _ => [batch] end
  | e :: es' =>
      let batch := batch ++ [e] in
      let size := size + Z.of_nat (length (entry_line e)) in
      if (16 <=? length batch)%nat || (128 * 1024 <=? size) then batch :: batches [] 0 es'
      else batches batch size es'
  end.

Definition transactions (tombs : gset HistoryKey) (es : list HistoryEntry) : list Transaction :=
  map T_Tombstones (chunks (base.size tombs) 16 (elements tombs)) ++ map T_Entries (batches [] 0 es).

(** The cache that a complete pass publishes. *)
Definition publish (cache : Cache) (deltas : gmap str Delta) (dir : Dir) : Cache :=
  let next p :=
    match deltas !! p with
    | Some d =>
        Some (mkFile (dl_print d) (dl_offset d) (dl_anchor d)
               (if dl_reset d then dl_entries d
                else dl_entries d ∪ match c_files cache !! p with Some o => fs_entries o | None => ∅ end))
    | None => c_files cache !! p
    end in
  mkCache (list_to_map (omap (fun '(p, _) => pair p <$> next p) dir)) true.

(** [replay_logs].  [full] is the choice of the caller (a forced or first pass, a
    dirty store, the verification interval); [stop] is after how many transactions
    a checkpoint fails, if one does: the cache is kept then. *)
Definition replay_logs (full : bool) (floor : Z) (dir : Dir) (stop : option nat) (cache : Cache) (i : Index) : Index * Cache * bool :=
  let full := full || negb (c_initialized cache) in
  let deltas := deltas_of full floor cache dir in
  let tombs := tombstones_of full floor cache dir in
  let ts := transactions tombs (merged floor cache deltas dir (affected_of full floor cache dir) tombs) in
  match stop with
  | Some n => (fold_left commit (take n ts) i, cache, false)
  | None => (fold_left commit ts i, publish cache deltas dir, true)
  end.

(** ** The reference *)

Definition lines_of (f : LogFile) : list (nat * bytes) := fst (read_lines 0 [] (lf_bytes f)).

Definition all_lines (dir : Dir) : list LogLine := concat (map (fun '(_, f) => map (fun l => scan_line (snd l)) (lines_of f)) dir).

Definition line_tombstone (l : LogLine) : option HistoryKey := match l with L_Tombstone k => Some k | _ => None end.

Definition line_entry (floor : Z) (tombs : list HistoryKey) (l : LogLine) : option HistoryEntry :=
  match l with
  | L_Entry e => if (floor <=? he_completed_at_unix e) && negb (bool_decide (key_of e ∈ tombs)) then Some e else None
  | _ => None
  end.

(** All tombstones of all logs, then every entry above the floor that none of them
    covers, line by line in file order. *)
Definition reference_replay (floor : Z) (dir : Dir) (i : Index) : Index :=
  let tombs := omap line_tombstone (all_lines dir) in
  fold_left replay_entry (omap (line_entry floor tombs) (all_lines dir)) (apply_tombstones tombs i).

End Sync.
