(* ===== verification/HistoryInv.v ===== *)
(** * What the history store promises

    The incremental reconciliation is the line-by-line replay of the logs, an
    interrupted one can be repeated, what was forgotten stays forgotten under any
    operation, and compaction changes nothing that is read. *)

From stdpp Require Import sorting.
From S2P Require Import Prelude RustStr Types Queue JobNames Codec History HistoryDb HistorySync.

#[local] Unset Default Proof Using.

(** ** Lines over lines *)

Lemma coalesce_assoc {A} (a b c : option A) : coalesce a (coalesce b c) = coalesce (coalesce a b) c.
Proof. by destruct a. Qed.

Lemma overlay_assoc a b c : overlay a (overlay b c) = overlay (overlay a b) c.
Proof. unfold overlay, set_mutable. cbn. by rewrite !coalesce_assoc. Qed.

Lemma coalesce_twice {A} (a b : option A) : coalesce a (coalesce a b) = coalesce a b.
Proof. by destruct a. Qed.

Lemma overlay_twice a b : overlay a (overlay a b) = overlay a b.
Proof. unfold overlay, set_mutable. cbn. by rewrite !coalesce_twice. Qed.

Lemma coalesce_self {A} (a : option A) : coalesce a a = a.
Proof. by destruct a. Qed.

Lemma overlay_self e : overlay e e = e.
Proof. unfold overlay. rewrite !coalesce_self. by destruct e. Qed.

Lemma overlay_key a b : key_of (overlay a b) = key_of b.
Proof. done. Qed.

Lemma update_row_app a b r : update_row a (update_row b r) = update_row (overlay a b) r.
Proof. unfold update_row. cbn. by rewrite overlay_assoc. Qed.

Lemma update_new_row a b id : update_row a (new_row id b) = new_row id (overlay a b).
Proof. done. Qed.

(** ** A replay, key by key *)

(** What a list of entries says about a key. *)
Definition combine_step (k : HistoryKey) (acc : option HistoryEntry) (e : HistoryEntry) : option HistoryEntry :=
  if bool_decide (key_of e = k) then Some (match acc with Some e0 => overlay e e0 | None => e end) else acc.

Definition combine (k : HistoryKey) (l : list HistoryEntry) : option HistoryEntry := fold_left (combine_step k) l None.

(** The keys in the order in which they are first met. *)
Definition meet (acc : list HistoryKey) (e : HistoryEntry) : list HistoryKey :=
  if bool_decide (key_of e ∈ acc) then acc else acc ++ [key_of e].

Definition firsts (l : list HistoryEntry) : list HistoryKey := fold_left meet l [].

Definition is_new (i : Index) (k : HistoryKey) : bool :=
  bool_decide (rows i !! k = None) && negb (bool_decide (k ∈ tombstones i)).

Definition news (i : Index) (l : list HistoryEntry) : list HistoryKey := List.filter (is_new i) (firsts l).

Fixpoint rank (k : HistoryKey) (l : list HistoryKey) : Z :=
  match l with
  | [] => 1
  | x :: l' => if bool_decide (x = k) then 1 else 1 + rank k l'
  end.

Definition replayed_row (i : Index) (l : list HistoryEntry) (k : HistoryKey) : option Row :=
  match rows i !! k with
  | Some r => Some (match combine k l with Some e => update_row e r | None => r end)
  | None => if bool_decide (k ∈ tombstones i) then None
            else (fun e => new_row (last_id i + rank k (news i l)) e) <$> combine k l
  end.

Lemma combine_snoc k l e : combine k (l ++ [e]) = combine_step k (combine k l) e.
Proof. unfold combine. by rewrite fold_left_app. Qed.

Lemma firsts_snoc l e : firsts (l ++ [e]) = meet (firsts l) e.
Proof. unfold firsts. by rewrite fold_left_app. Qed.

Lemma elem_of_firsts k l : k ∈ firsts l <-> is_Some (combine k l).
Proof.
  induction l as [|e l IH] using rev_ind.
  - split; [by intros ?%elem_of_nil|by intros [? [=]]].
  - rewrite firsts_snoc, combine_snoc. unfold meet, combine_step.
    destruct (decide (key_of e = k)) as [<-|Hk].
    + rewrite (bool_decide_eq_true_2 (key_of e = key_of e)) by done. split; [by eexists|]. intros _.
      case_bool_decide; [done|]. apply elem_of_app. right. by apply list_elem_of_singleton.
    + rewrite (bool_decide_eq_false_2 (key_of e = k)) by done. rewrite <- IH. case_bool_decide; [done|].
      rewrite elem_of_app, list_elem_of_singleton. naive_solver.
Qed.

Lemma NoDup_firsts l : NoDup (firsts l).
Proof.
  induction l as [|e l IH] using rev_ind; [constructor|]. rewrite firsts_snoc. unfold meet. case_bool_decide; [done|].
  apply NoDup_app. split_and!; [done| |apply NoDup_singleton]. intros x Hx ->%list_elem_of_singleton. done.
Qed.

Lemma rank_app_l k l l' : k ∈ l -> rank k (l ++ l') = rank k l.
Proof. induction l as [|x l IH]; [by intros ?%elem_of_nil|]. intros [->|Hk]%elem_of_cons; simpl; case_bool_decide; try done. by rewrite IH. Qed.

Lemma rank_app_r k l : k ∉ l -> rank k (l ++ [k]) = Z.of_nat (length l) + 1.
Proof.
  induction l as [|x l IH]; simpl; [by rewrite bool_decide_eq_true_2|]. intros [Hx Hk]%not_elem_of_cons.
  rewrite bool_decide_eq_false_2 by congruence. rewrite IH by done. lia.
Qed.

Lemma news_snoc i l e : news i (l ++ [e]) =
  if is_new i (key_of e) && negb (bool_decide (key_of e ∈ firsts l)) then news i l ++ [key_of e] else news i l.
Proof.
  unfold news. rewrite firsts_snoc. unfold meet. case_bool_decide; simpl; [by rewrite andb_false_r|].
  rewrite List.filter_app. simpl. destruct (is_new i (key_of e)); simpl; [done|by rewrite app_nil_r].
Qed.

Lemma replay_tombs i e : tombstones (replay_entry i e) = tombstones i /\ retention_floor (replay_entry i e) = retention_floor i.
Proof. unfold replay_entry. destruct (rows i !! key_of e); [done|]. by case_bool_decide. Qed.

Lemma replayed i l : let i' := fold_left replay_entry l i in
  (forall k, rows i' !! k = replayed_row i l k) /\ last_id i' = last_id i + Z.of_nat (length (news i l)) /\
  tombstones i' = tombstones i /\ retention_floor i' = retention_floor i.
Proof.
  induction l as [|e l IH] using rev_ind.
  - split_and!; try done; [|cbn; lia]. intros k. unfold replayed_row. cbn. destruct (rows i !! k); [done|]. by case_bool_decide.
  - cbv zeta in *. rewrite fold_left_app. cbn [fold_left]. set (i1 := fold_left replay_entry l i) in *.
    destruct IH as (HR & HL & HT & HF). destruct (replay_tombs i1 e) as [ET EF]. rewrite ET, EF.
    split; [|split; [|done]]; rewrite ?news_snoc.
    + intros k. unfold replayed_row. rewrite combine_snoc, news_snoc. unfold combine_step, replay_entry.
      rewrite (HR (key_of e)). unfold replayed_row at 1. unfold is_new.
      destruct (rows i !! key_of e) as [r|] eqn:Er.
      * (* a row that was there *)
        rewrite (bool_decide_eq_false_2 (Some r = None)) by done. cbn [andb].
        destruct (decide (k = key_of e)) as [->|Hk].
        -- cbn [set_rows rows]. rewrite lookup_insert_eq, Er, (bool_decide_eq_true_2 _ eq_refl). f_equal.
           destruct (combine (key_of e) l); [by rewrite update_row_app|done].
        -- cbn [set_rows rows]. rewrite lookup_insert_ne by done. rewrite HR. unfold replayed_row.
           by rewrite (bool_decide_eq_false_2 (key_of e = k)) by done.
      * rewrite (bool_decide_eq_true_2 _ eq_refl). cbn [andb]. case_bool_decide as Ht.
        -- (* forgotten *)
           rewrite HT, (bool_decide_eq_true_2 _ Ht). cbn [negb andb]. rewrite HR. unfold replayed_row.
           destruct (decide (k = key_of e)) as [->|Hk]; [by rewrite Er, (bool_decide_eq_true_2 _ Ht)|].
           by rewrite (bool_decide_eq_false_2 (key_of e = k)) by done.
        -- cbn [negb andb]. destruct (combine (key_of e) l) as [e0|] eqn:Ec; cbn.
           ++ (* met before *)
              assert (Hf : key_of e ∈ firsts l) by (apply elem_of_firsts; by eexists).
              rewrite (bool_decide_eq_true_2 _ Hf). cbn [negb].
              destruct (decide (k = key_of e)) as [->|Hk].
              ** rewrite lookup_insert_eq, Er, (bool_decide_eq_false_2 _ Ht), (bool_decide_eq_true_2 _ eq_refl), Ec. done.
              ** rewrite lookup_insert_ne by done. rewrite HR. unfold replayed_row.
                 by rewrite (bool_decide_eq_false_2 (key_of e = k)) by done.
           ++ (* new *)
              assert (Hf : key_of e ∉ firsts l) by (rewrite elem_of_firsts, Ec; by intros [? [=]]).
              rewrite HT, (bool_decide_eq_false_2 _ Ht), (bool_decide_eq_false_2 _ Hf). cbn [negb rows].
              assert (Hn : key_of e ∉ news i l) by (unfold news; by intros [? _]%elem_of_filter_bool).
              destruct (decide (k = key_of e)) as [->|Hk].
              ** rewrite lookup_insert_eq, Er, (bool_decide_eq_false_2 _ Ht), (bool_decide_eq_true_2 _ eq_refl), Ec. cbn.
                 rewrite rank_app_r, HL by done. do 2 f_equal. lia.
              ** rewrite lookup_insert_ne by done. rewrite HR. unfold replayed_row.
                 rewrite (bool_decide_eq_false_2 (key_of e = k)) by done. destruct (rows i !! k) eqn:Ek; [done|].
                 case_bool_decide as Htk; [done|]. destruct (combine k l) as [ek|] eqn:Eck; [|done]. cbn. do 2 f_equal.
                 rewrite rank_app_l; [done|]. unfold news. apply elem_of_filter_bool. split; [apply elem_of_firsts; by eexists|].
                 unfold is_new. by rewrite (bool_decide_eq_true_2 _ Ek), (bool_decide_eq_false_2 _ Htk).
    + unfold replay_entry. rewrite (HR (key_of e)). unfold replayed_row, is_new.
      destruct (rows i !! key_of e) as [r|] eqn:Er; [by rewrite (bool_decide_eq_false_2 (Some r = None))|].
      rewrite (bool_decide_eq_true_2 _ eq_refl). cbn [andb]. case_bool_decide as Ht.
      { by rewrite HT, (bool_decide_eq_true_2 _ Ht). }
      cbn [negb andb]. destruct (combine (key_of e) l) as [e0|] eqn:Ec; cbn.
      * assert (Hf : key_of e ∈ firsts l) by (apply elem_of_firsts; by eexists). by rewrite (bool_decide_eq_true_2 _ Hf).
      * assert (Hf : key_of e ∉ firsts l) by (rewrite elem_of_firsts, Ec; by intros [? [=]]).
        rewrite HT, (bool_decide_eq_false_2 _ Ht), (bool_decide_eq_false_2 _ Hf). cbn. rewrite length_app, HL. cbn. lia.
Qed.

Lemma index_eq i j : rows i = rows j -> last_id i = last_id j -> tombstones i = tombstones j -> retention_floor i = retention_floor j -> i = j.
Proof. destruct i, j. cbn. by intros -> -> -> ->. Qed.

(** Two lists that say the same of new keys, and do the same to known ones. *)
Lemma replay_agree i l1 l2 : news i l1 = news i l2 ->
  (forall k, is_new i k = true -> combine k l1 = combine k l2) ->
  (forall k r, rows i !! k = Some r -> default r ((fun e => update_row e r) <$> combine k l1) = default r ((fun e => update_row e r) <$> combine k l2)) ->
  fold_left replay_entry l1 i = fold_left replay_entry l2 i.
Proof.
  intros Hn Hnew Hold. destruct (replayed i l1) as (R1 & L1 & T1 & F1), (replayed i l2) as (R2 & L2 & T2 & F2).
  apply index_eq; [|congruence..]. apply map_eq. intros k. rewrite R1, R2. unfold replayed_row. rewrite Hn.
  destruct (rows i !! k) as [r|] eqn:Er.
  - specialize (Hold k r Er). f_equal. by destruct (combine k l1), (combine k l2).
  - case_bool_decide as Ht; [done|]. rewrite (Hnew k); [done|]. unfold is_new.
    by rewrite (bool_decide_eq_true_2 _ Er), (bool_decide_eq_false_2 _ Ht).
Qed.

Lemma sorted_filter {A} (R : A -> A -> Prop) p l : Sorted.StronglySorted R l -> Sorted.StronglySorted R (List.filter p l).
Proof.
  induction 1 as [|x l Hl IH Hx]; simpl; [constructor|]. destruct (p x); [|done]. constructor; [done|].
  rewrite Forall_forall in *. intros y [Hy _]%elem_of_filter_bool. by apply Hx.
Qed.

Lemma sorted_append {A} (R : A -> A -> Prop) l x : Sorted.StronglySorted R l -> Forall (fun y => R y x) l -> Sorted.StronglySorted R (l ++ [x]).
Proof.
  induction 1 as [|y l Hl IH Hy]; intros Hx; simpl; [by repeat constructor|]. apply Forall_cons in Hx as [Hyx Hx].
  constructor; [by apply IH|]. apply Forall_app. split; [done|by repeat constructor].
Qed.

Lemma sorted_impl {A} (R R' : A -> A -> Prop) l : (forall x y, x ∈ l -> y ∈ l -> R x y -> R' x y) ->
  Sorted.StronglySorted R l -> Sorted.StronglySorted R' l.
Proof.
  intros Hi H. induction H as [|x l Hl IH Hx]; constructor.
  - apply IH. intros y z Hy Hz. apply Hi; by right.
  - rewrite Forall_forall in *. intros y Hy. apply Hi; [by left|by right|by apply Hx].
Qed.

(** ** Lines with their places *)

Section Places.
Context {hc : HistoryCodec}.

Abbreviation Placed := (nat * nat * LogLine)%type.

Definition before (a b : nat * nat) : Prop := (fst a < fst b)%nat \/ (fst a = fst b /\ (snd a < snd b)%nat).

(** What the lines of all files say about a key, and where it is first met. *)
Definition gather_step (k : HistoryKey) (acc : option (nat * Contribution)) (x : Placed) : option (nat * Contribution) :=
  match snd x with
  | L_Entry e =>
      if bool_decide (key_of e = k) then
        Some (match acc with Some (n, c) => (n, absorb e c) | None => (fst (fst x), mkContribution e (snd (fst x))) end)
      else acc
  | _ => acc
  end.

Definition gather (k : HistoryKey) (l : list Placed) : option (nat * Contribution) := fold_left (gather_step k) l None.

Definition place (l : list Placed) (k : HistoryKey) : option (nat * nat) := (fun nc => (fst nc, c_first (snd nc))) <$> gather k l.

Definition earlier (l : list Placed) (k1 k2 : HistoryKey) : Prop :=
  exists a b, place l k1 = Some a /\ place l k2 = Some b /\ before a b.

Definition ascending (l : list Placed) : Prop := Sorted.StronglySorted (fun x y => before (fst x) (fst y)) l.

Lemma gather_snoc k l x : gather k (l ++ [x]) = gather_step k (gather k l) x.
Proof. unfold gather. by rewrite fold_left_app. Qed.

Lemma gather_key k l n c : gather k l = Some (n, c) -> key_of (c_entry c) = k.
Proof.
  revert n c. induction l as [|x l IH] using rev_ind; [done|]. intros n c. rewrite gather_snoc. unfold gather_step.
  destruct (snd x); [apply IH| |apply IH]. case_bool_decide as E; [|apply IH].
  destruct (gather k l) as [[n0 c0]|]; intros [= <- <-]; [exact (IH n0 c0 eq_refl)|done].
Qed.

Lemma gather_combine floor tombs k l : combine k (omap (line_entry floor tombs) (map snd l)) =
  if (floor <=? snd k) && negb (bool_decide (k ∈ tombs)) then (fun nc => c_entry (snd nc)) <$> gather k l else None.
Proof.
  induction l as [|x l IH] using rev_ind; [by case_if|]. rewrite map_app, omap_app, gather_snoc. cbn [map omap list_omap].
  unfold gather_step. destruct (snd x) as [t|e|] eqn:Ex; cbn [line_entry]; rewrite ?app_nil_r; try apply IH.
  destruct ((floor <=? he_completed_at_unix e) && negb (bool_decide (key_of e ∈ tombs))) eqn:Ep.
  - rewrite combine_snoc, IH. unfold combine_step. destruct (decide (key_of e = k)) as [<-|Ek];
      [rewrite !(bool_decide_eq_true_2 (key_of e = key_of e)) by done|by rewrite !(bool_decide_eq_false_2 _ Ek)].
    change (snd (key_of e)) with (he_completed_at_unix e). rewrite Ep. by destruct (gather (key_of e) l) as [[n c]|].
  - rewrite app_nil_r, IH. destruct (decide (key_of e = k)) as [<-|Ek]; [|by rewrite (bool_decide_eq_false_2 _ Ek)]. change (snd (key_of e)) with (he_completed_at_unix e). by rewrite Ep.
Qed.

Lemma gather_line k l n c : gather k l = Some (n, c) ->
  exists y e, y ∈ l /\ fst y = (n, c_first c) /\ snd y = L_Entry e /\ key_of e = k.
Proof.
  revert n c. induction l as [|x l IH] using rev_ind; [done|]. intros n c. rewrite gather_snoc. unfold gather_step.
  assert (Hr : gather k l = Some (n, c) -> exists y e, y ∈ l ++ [x] /\ fst y = (n, c_first c) /\ snd y = L_Entry e /\ key_of e = k).
  { intros H. destruct (IH _ _ H) as (y & e & Hy & E). exists y, e. split; [|done]. apply elem_of_app. by left. }
  destruct (snd x) as [|e|] eqn:Ex; [done| |done]. case_bool_decide; [|done]. destruct (gather k l) as [[n0 c0]|] eqn:Eg; intros [= <- <-].
  - destruct (IH _ _ eq_refl) as (y & e' & Hy & E). exists y, e'. split; [|done]. apply elem_of_app. by left.
  - exists x, e. split_and!; [|by destruct x as [[]]|done|done]. apply elem_of_app. right. by apply list_elem_of_singleton.
Qed.

Lemma place_snoc l x k a : place l k = Some a -> place (l ++ [x]) k = Some a.
Proof.
  unfold place. rewrite gather_snoc. destruct (gather k l) as [[n c]|]; [|done]. intros H. unfold gather_step.
  destruct (snd x); [done| |done]. by case_bool_decide.
Qed.

Lemma firsts_earlier floor tombs l : ascending l -> Sorted.StronglySorted (earlier l) (firsts (omap (line_entry floor tombs) (map snd l))).
Proof.
  induction l as [|x l IH] using rev_ind; [constructor|]. intros Ha.
  apply StronglySorted_app in Ha as (Hx & Hl & _). specialize (IH Hl).
  assert (Hup : forall k1 k2, earlier l k1 k2 -> earlier (l ++ [x]) k1 k2).
  { intros k1 k2 (a & b & Ea & Eb & Hab). exists a, b. by rewrite !(place_snoc _ _ _ _ Ea), !(place_snoc _ _ _ _ Eb). }
  rewrite map_app, omap_app. cbn [map omap list_omap].
  assert (Hs : Sorted.StronglySorted (earlier (l ++ [x])) (firsts (omap (line_entry floor tombs) (map snd l))))
    by (eapply sorted_impl; [|exact IH]; intros; by apply Hup).
  destruct (line_entry floor tombs (snd x)) as [e|] eqn:Ee; [|by rewrite app_nil_r].
  rewrite firsts_snoc. unfold meet. case_bool_decide as Hf; [done|]. apply sorted_append; [done|].
  rewrite elem_of_firsts, gather_combine in Hf. unfold line_entry in Ee. destruct (snd x) as [|e'|] eqn:Ex; try done.
  destruct ((floor <=? he_completed_at_unix e') && negb (bool_decide (key_of e' ∈ tombs))) eqn:Ep; [|done]. injection Ee as ->.
  change (snd (key_of e)) with (he_completed_at_unix e) in Hf. rewrite Ep in Hf.
  assert (Eg : gather (key_of e) l = None) by (destruct (gather (key_of e) l); [by destruct Hf; eexists|done]).
  rewrite Forall_forall. intros k Hk. apply elem_of_firsts in Hk. rewrite gather_combine in Hk. case_if_in Hk; [|by destruct Hk].
  destruct (gather k l) as [[n c]|] eqn:Ek; [|by destruct Hk]. destruct (gather_line _ _ _ _ Ek) as (y & _ & Hy & Ey & _).
  exists (n, c_first c), (fst x). split_and!.
  - apply place_snoc. unfold place. by rewrite Ek.
  - unfold place. rewrite gather_snoc, Eg. unfold gather_step. rewrite Ex, (bool_decide_eq_true_2 _ eq_refl). by destruct x as [[]].
  - rewrite <- Ey. apply Hx; [done|by apply list_elem_of_singleton].
Qed.

(** ** Files and passes *)

Fixpoint placed (n : nat) (dir : Dir) : list Placed :=
  match dir with
  | [] => []
  | (_, f) :: dir' => map (fun '(at_byte, b) => (n, at_byte, scan_line b)) (lines_of f) ++ placed (S n) dir'
  end.

Lemma all_lines_placed dir : forall n, all_lines dir = map snd (placed n dir).
Proof.
  induction dir as [|[p f] dir IH]; intros n; [done|]. unfold all_lines in *. cbn [map concat placed].
  rewrite map_app, (IH (S n)), map_map. f_equal. apply map_ext. by intros [].
Qed.

Lemma read_lines_later b : forall start acc l, l ∈ fst (read_lines start acc b) -> (start <= fst l)%nat.
Proof.
  induction b as [|c b IH]; intros start acc l; [by intros ?%elem_of_nil|]. cbn [read_lines]. case_if; [|apply IH].
  destruct (read_lines _ [] b) as [ls e] eqn:E. cbn [fst]. intros [->|Hl]%elem_of_cons; [done|].
  specialize (IH (start + length acc + 1)%nat [] l). rewrite E in IH. specialize (IH Hl). lia.
Qed.

Lemma read_lines_ascending b : forall start acc, Sorted.StronglySorted (fun x y => (fst x < fst y)%nat) (fst (read_lines start acc b)).
Proof.
  induction b as [|c b IH]; intros start acc; [constructor|]. cbn [read_lines]. case_if; [|apply IH].
  pose proof (IH (start + length acc + 1)%nat []) as Hs. pose proof (read_lines_later b (start + length acc + 1)%nat []) as Hl.
  destruct (read_lines _ [] b) as [ls e]. cbn [fst] in *. constructor; [done|]. rewrite Forall_forall. intros x Hx. specialize (Hl x Hx). cbn. lia.
Qed.

Lemma sorted_map {A B} (g : A -> B) (R : B -> B -> Prop) l : Sorted.StronglySorted (fun x y => R (g x) (g y)) l -> Sorted.StronglySorted R (map g l).
Proof. induction 1 as [|x l Hl IH Hx]; simpl; constructor; [done|]. by apply Forall_fmap. Qed.

Lemma placed_file n dir x : x ∈ placed n dir -> (n <= fst (fst x))%nat.
Proof.
  revert n. induction dir as [|[p f] dir IH]; intros n; [by intros ?%elem_of_nil|]. cbn [placed].
  intros [([a b] & -> & _)%list_elem_of_fmap|Hx]%elem_of_app; [done|]. apply IH in Hx. lia.
Qed.

Lemma placed_ascending dir : forall n, ascending (placed n dir).
Proof.
  induction dir as [|[p f] dir IH]; intros n; [constructor|]. cbn [placed]. apply StronglySorted_app. split_and!; [| |apply IH].
  - intros x y ([a b] & -> & _)%list_elem_of_fmap Hy%placed_file. left. cbn. lia.
  - apply sorted_map. eapply sorted_impl; [|apply read_lines_ascending]. intros [a b] [a' b'] _ _ Hab. right. done.
Qed.

(** What a file's lines say about a key. *)
Definition grow (k : HistoryKey) (c : option Contribution) (l : nat * bytes) : option Contribution :=
  match scan_line (snd l) with
  | L_Entry e => if bool_decide (key_of e = k) then Some (match c with Some c => absorb e c | None => mkContribution e (fst l) end) else c
  | _ => c
  end.

Definition contrib (k : HistoryKey) (ls : list (nat * bytes)) : option Contribution := fold_left (grow k) ls None.

Lemma absorb_assoc e c0 c : absorb e (absorb (c_entry c) c0) = absorb (c_entry (absorb e c)) c0.
Proof. unfold absorb. cbn. by rewrite overlay_assoc. Qed.

Lemma gather_file k n ls acc : fold_left (gather_step k) (map (fun '(at_byte, b) => (n, at_byte, scan_line b)) ls) acc =
  merge_in acc (n, contrib k ls).
Proof.
  induction ls as [|[a b] ls IH] using rev_ind; [by destruct acc|]. rewrite map_app, fold_left_app, IH. unfold contrib.
  rewrite fold_left_app. fold (contrib k ls). cbn [map fold_left]. unfold gather_step, grow, merge_in. cbn [fst snd].
  destruct (scan_line b); [done| |done]. case_bool_decide; [|done].
  destruct acc as [[n0 c0]|], (contrib k ls) as [c|]; try done. by rewrite absorb_assoc.
Qed.

Lemma gather_placed k dir : forall n acc, fold_left (gather_step k) (placed n dir) acc =
  fold_left merge_in (imap (fun m '(_, f) => ((n + m)%nat, contrib k (lines_of f))) dir) acc.
Proof.
  induction dir as [|[p f] dir IH]; intros n acc; [done|]. cbn [placed]. rewrite fold_left_app, gather_file, IH. cbn [imap fold_left].
  rewrite Nat.add_0_r. f_equal. apply imap_ext. intros m [q g] _. unfold compose. f_equal. lia.
Qed.

Lemma merge_key_gather k (dir : Dir) : merge_key (map (fun '(_, f) => contrib k (lines_of f)) dir) = gather k (placed 0 dir).
Proof.
  unfold gather, merge_key. rewrite gather_placed. f_equal. rewrite imap_fmap. apply imap_ext. by intros m [p f] _.
Qed.

(** ** The scan of a file *)

Record scanned (old : gmap HistoryKey Contribution) (ls : list (nat * bytes)) (k : HistoryKey) (s : Scan) : Prop := {
  sd_entries : match sc_entries s !! k with Some c => Some c | None => old !! k end = fold_left (grow k) ls (old !! k);
  sd_affected : k ∈ sc_affected s <-> is_Some (sc_entries s !! k);
  sd_silent : sc_entries s !! k = None -> contrib k ls = None
}.

Lemma scan_lines_spec floor old ls k : floor <= snd k -> scanned old ls k (scan_lines floor old ls).
Proof.
  intros Hk. unfold scan_lines. induction ls as [|[a b] ls [I1 I2 I3]] using rev_ind.
  - split; cbn; rewrite ?lookup_empty; [done| |done]. split; [set_solver|by intros [? [=]]].
  - unfold contrib in *. set (s := fold_left (scan_step floor old) ls _) in *. rewrite fold_left_app. fold s. cbn [fold_left].
    assert (Hlow : forall e, (floor <=? he_completed_at_unix e) = false -> key_of e <> k) by (intros e He <-; cbn in Hk; bool_hyps; lia).
    unfold scan_step. cbn [snd fst]. destruct (scan_line b) as [t|e|] eqn:Eb.
    + assert (G : forall c, grow k c (a, b) = c) by (intros c; unfold grow; cbn; by rewrite Eb).
      split; unfold contrib; rewrite ?fold_left_app; cbn [fold_left sc_entries sc_affected]; rewrite ?G; done.
    + destruct (floor <=? he_completed_at_unix e) eqn:Ef.
      * destruct (decide (key_of e = k)) as [<-|Hne].
        -- split; unfold contrib; rewrite ?fold_left_app; cbn [fold_left sc_entries sc_affected]; rewrite ?lookup_insert_eq; [|set_solver|done].
           unfold grow at 1. cbn [snd fst]. rewrite Eb, (bool_decide_eq_true_2 _ eq_refl), <- I1.
           destruct (sc_entries s !! key_of e); [done|]. destruct (old !! key_of e); [done|]. unfold absorb. cbn. by rewrite overlay_self.
        -- assert (G : forall c, grow k c (a, b) = c) by (intros c; unfold grow; cbn; by rewrite Eb, (bool_decide_eq_false_2 _ Hne)).
           split; unfold contrib; rewrite ?fold_left_app; cbn [fold_left sc_entries sc_affected]; rewrite ?lookup_insert_ne, ?G by done; try done.
           rewrite <- I2. set_solver.
      * assert (G : forall c, grow k c (a, b) = c) by (intros c; unfold grow; cbn; by rewrite Eb, (bool_decide_eq_false_2 _ (Hlow e Ef))).
        split; unfold contrib; rewrite ?fold_left_app; cbn [fold_left]; rewrite ?G; done.
    + assert (G : forall c, grow k c (a, b) = c) by (intros c; unfold grow; cbn; by rewrite Eb).
      split; unfold contrib; rewrite ?fold_left_app; cbn [fold_left sc_entries sc_affected]; rewrite ?G; done.
Qed.

Lemma scan_tombstones floor old ls t : t ∈ sc_tombstones (scan_lines floor old ls) <->
  exists l, l ∈ ls /\ scan_line (snd l) = L_Tombstone t.
Proof.
  unfold scan_lines. induction ls as [|l ls IH] using rev_ind; [set_solver|]. rewrite fold_left_app. cbn [fold_left].
  assert (E : (exists l0, l0 ∈ ls ++ [l] /\ scan_line (snd l0) = L_Tombstone t) <->
    t ∈ sc_tombstones (fold_left (scan_step floor old) ls (mkScan ∅ ∅ ∅)) \/ scan_line (snd l) = L_Tombstone t).
  { rewrite IH. setoid_rewrite elem_of_app. setoid_rewrite list_elem_of_singleton. naive_solver. }
  rewrite E. unfold scan_step. destruct (scan_line (snd l)) as [k|e|]; cbn [sc_tombstones].
  - rewrite elem_of_union, elem_of_singleton. naive_solver.
  - case_if; cbn [sc_tombstones]; naive_solver.
  - naive_solver.
Qed.

(** Reading on from the offset behind the last complete line. *)
Lemma read_lines_acc b : forall start acc, Forall (fun c => c <> 10) acc ->
  read_lines start acc b = read_lines start [] (rev acc ++ b).
Proof.
  intros start acc. revert b. induction acc as [|c acc IH]; intros b Hacc; [done|]. apply Forall_cons in Hacc as [Hc Hacc].
  cbn [rev]. rewrite <- app_assoc. cbn [app]. rewrite <- (IH (c :: b)) by done. cbn [read_lines]. by rewrite (proj2 (Z.eqb_neq c 10) Hc).
Qed.

Lemma read_lines_bounds b : forall start acc, let e := snd (read_lines start acc b) in (start <= e)%nat /\ (e <= start + length acc + length b)%nat.
Proof.
  induction b as [|c b IH]; intros start acc; cbn; [lia|]. case_if; [|specialize (IH start (c :: acc)); cbn in IH; lia].
  specialize (IH (start + length acc + 1)%nat []). destruct (read_lines _ [] b) as [ls e]. cbn in *. lia.
Qed.

Lemma read_lines_app b more : forall start acc, Forall (fun c => c <> 10) acc ->
  let e := snd (read_lines start acc b) in
  read_lines start acc (b ++ more) =
    let '(ls, e') := read_lines e [] (drop (e - start) (rev acc ++ b ++ more)) in (fst (read_lines start acc b) ++ ls, e').
Proof.
  induction b as [|c b IH]; intros start acc Hacc; cbn [app].
  - cbn. rewrite Nat.sub_diag, drop_0, <- read_lines_acc by done. by destruct (read_lines start acc more).
  - cbn [read_lines]. case_if; bool_hyps.
    + subst c. set (s' := (start + length acc + 1)%nat). pose proof (IH s' [] ltac:(constructor)) as H.
      pose proof (read_lines_bounds b s' []) as [Hb _]. destruct (read_lines s' [] b) as [ls e] eqn:E. cbn [fst snd rev app] in *.
      rewrite H. replace (drop (e - start) (rev acc ++ 10 :: b ++ more)) with (drop (e - s') (b ++ more)).
      * by destruct (read_lines e [] _).
      * replace (rev acc ++ 10 :: b ++ more) with ((rev acc ++ [10]) ++ b ++ more) by (by rewrite <- app_assoc).
        rewrite (drop_app_ge (rev acc ++ [10])) by (rewrite length_app, length_rev; cbn; lia). f_equal. rewrite length_app, length_rev. cbn. lia.
    + rewrite (IH start (c :: acc)) by (constructor; [by intros ->|done]). cbn [rev]. by rewrite <- app_assoc.
Qed.
End Places.
