(* ===== verification/HistoryReplay.v ===== *)
(** * The incremental reconciliation is the replay of the logs

    A pass over a cache that an earlier pass left brings the index to the state
    that all complete lines of all logs give, whatever was appended, replaced or
    removed in between; an interrupted pass can be repeated. *)

From stdpp Require Import sorting.
From S2P Require Import Prelude RustStr Types Queue JobNames Codec History HistoryDb HistorySync HistoryInv.

#[local] Unset Default Proof Using.

(** ** Sorted lists *)

Lemma sorted_same {A} (R : A -> A -> Prop) : (forall x y, R x y -> ~ R y x) ->
  forall l1 l2, Sorted.StronglySorted R l1 -> Sorted.StronglySorted R l2 -> (forall x, x ∈ l1 <-> x ∈ l2) -> l1 = l2.
Proof.
  intros Ha. induction l1 as [|x l1 IH]; intros [|y l2] H1 H2 He; [done| | |].
  - exfalso. eapply not_elem_of_nil, He. by left.
  - exfalso. eapply not_elem_of_nil, He. by left.
  - inversion_clear H1 as [|? ? S1 F1]. inversion_clear H2 as [|? ? S2 F2]. rewrite Forall_forall in F1, F2.
    assert (x = y) as ->.
    { pose proof (proj1 (He x) ltac:(by left)) as Hx. pose proof (proj2 (He y) ltac:(by left)) as Hy.
      rewrite elem_of_cons in Hx, Hy. destruct Hx as [|Hx]; [done|]. destruct Hy as [|Hy]; [done|].
      destruct (Ha x y); [by apply F1|by apply F2]. }
    f_equal. apply IH; [done..|]. intros z. specialize (He z). rewrite !elem_of_cons in He. split; intros Hz.
    + destruct (proj1 He ltac:(by right)) as [->|]; [|done]. specialize (F1 _ Hz). by destruct (Ha _ _ F1).
    + destruct (proj2 He ltac:(by right)) as [->|]; [|done]. specialize (F2 _ Hz). by destruct (Ha _ _ F2).
Qed.

(** ** Tombstones *)

(** No row that was forgotten. *)
Definition index_ok (i : Index) : Prop := forall k, k ∈ tombstones i -> rows i !! k = None.

Lemma replay_tombstone_spec t i : let i' := replay_tombstone i t in
  (forall k, rows i' !! k = if bool_decide (k = t) && negb (bool_decide (t ∈ tombstones i)) then None else rows i !! k) /\
  (forall k, k ∈ tombstones i' <-> k = t \/ k ∈ tombstones i) /\ last_id i' = last_id i /\ retention_floor i' = retention_floor i.
Proof.
  unfold replay_tombstone. case_bool_decide as Ht; cbn; split_and!; try done; intros k.
  - by rewrite andb_false_r.
  - split; [by right|by intros [->|]].
  - case_bool_decide as Hk; cbn; [subst; by rewrite lookup_delete_eq|by rewrite lookup_delete_ne].
  - by rewrite elem_of_union, elem_of_singleton.
Qed.

Lemma tombstones_applied ks i : let i' := apply_tombstones ks i in
  (forall k, rows i' !! k = if bool_decide (k ∈ ks) && negb (bool_decide (k ∈ tombstones i)) then None else rows i !! k) /\
  (forall k, k ∈ tombstones i' <-> k ∈ ks \/ k ∈ tombstones i) /\ last_id i' = last_id i /\ retention_floor i' = retention_floor i.
Proof.
  revert i. induction ks as [|t ks IH]; intros i; cbv zeta.
  - split_and!; [done| |done|done]. intros k. rewrite elem_of_nil. naive_solver.
  - change (apply_tombstones (t :: ks) i) with (apply_tombstones ks (replay_tombstone i t)).
    destruct (IH (replay_tombstone i t)) as (R & T & L & F), (replay_tombstone_spec t i) as (R1 & T1 & L1 & F1). rewrite L, F.
    split_and!; try done; intros k; [|rewrite T, T1, elem_of_cons; naive_solver].
    rewrite R, R1. specialize (T1 k). rewrite (bool_decide_ext _ _ T1). rewrite (bool_decide_ext (k ∈ t :: ks) (k = t \/ k ∈ ks)) by apply elem_of_cons.
    destruct (decide (k = t)) as [->|Hk]; 
      [|by rewrite (bool_decide_ext (k = t \/ k ∈ tombstones i) (k ∈ tombstones i)), (bool_decide_ext (k = t \/ k ∈ ks) (k ∈ ks)), (bool_decide_eq_false_2 (k = t)) by naive_solver].
    rewrite !(bool_decide_eq_true_2 (t = t \/ _)) by auto. rewrite (bool_decide_eq_true_2 (t = t)) by done. rewrite andb_false_r. done.
Qed.

Lemma tombstones_agree ks1 ks2 i : (forall k, k ∈ ks1 \/ k ∈ tombstones i <-> k ∈ ks2 \/ k ∈ tombstones i) ->
  apply_tombstones ks1 i = apply_tombstones ks2 i.
Proof.
  intros He. destruct (tombstones_applied ks1 i) as (R1 & T1 & L1 & F1), (tombstones_applied ks2 i) as (R2 & T2 & L2 & F2).
  apply index_eq; [|congruence| |congruence].
  - apply map_eq. intros k. rewrite R1, R2. specialize (He k).
    destruct (decide (k ∈ tombstones i)) as [Hk|Hk]; [by rewrite !(bool_decide_eq_true_2 _ Hk), !andb_false_r|].
    by rewrite (bool_decide_ext (k ∈ ks1) (k ∈ ks2)) by naive_solver.
  - apply set_eq. intros k. by rewrite T1, T2.
Qed.

Lemma apply_tombstones_ok ks i : index_ok i -> index_ok (apply_tombstones ks i).
Proof.
  intros Hi k. destruct (tombstones_applied ks i) as (R & T & _). rewrite R, T. intros Hk.
  destruct (decide (k ∈ tombstones i)) as [Ht|Ht]; [rewrite (Hi k Ht); by destruct (_ && _)|].
  destruct Hk as [Hk|]; [|done]. by rewrite (bool_decide_eq_true_2 _ Hk), (bool_decide_eq_false_2 _ Ht).
Qed.

Lemma replay_ok l i : index_ok i -> index_ok (fold_left replay_entry l i).
Proof.
  intros Hi k. destruct (replayed i l) as (R & _ & T & _). rewrite R, T. intros Hk. unfold replayed_row.
  by rewrite (Hi k Hk), (bool_decide_eq_true_2 _ Hk).
Qed.

(** ** The transactions of a pass are one replay *)

Lemma chunks_concat {A} (n : nat) (Hn : (0 < n)%nat) fuel : forall l : list A, (length l <= fuel)%nat -> concat (chunks fuel n l) = l.
Proof.
  induction fuel as [|fuel IH]; intros [|x l] Hl; cbn in Hl; try done; try lia. cbn [chunks concat].
  rewrite IH by (rewrite length_drop; cbn; lia). by rewrite take_drop.
Qed.

Section Passes.
Context {hc : HistoryCodec}.

Lemma batches_concat es : forall batch size, concat (batches batch size es) = batch ++ es.
Proof.
  induction es as [|e es IH]; intros batch size; cbn [batches].
  - destruct batch; cbn; by rewrite ?app_nil_r.
  - case_if; cbn [concat]; rewrite IH; [|by rewrite <- app_assoc]. by rewrite <- app_assoc.
Qed.

Lemma commit_tombstones kss i : fold_left commit (map T_Tombstones kss) i = apply_tombstones (concat kss) i.
Proof. revert i. induction kss as [|ks kss IH]; intros i; [done|]. cbn [map fold_left concat commit]. rewrite IH. unfold apply_tombstones. by rewrite fold_left_app. Qed.

Lemma commit_entries ess i : fold_left commit (map T_Entries ess) i = fold_left replay_entry (concat ess) i.
Proof. revert i. induction ess as [|es ess IH]; intros i; [done|]. cbn [map fold_left concat commit]. rewrite IH. by rewrite fold_left_app. Qed.

Lemma commit_all tombs es i : fold_left commit (transactions tombs es) i = fold_left replay_entry es (apply_tombstones (elements tombs) i).
Proof.
  unfold transactions. rewrite fold_left_app, commit_tombstones, commit_entries, batches_concat, chunks_concat; [done|lia|done].
Qed.

(** ** A file between two passes *)

(** The cached state of a file is what its bytes were then. *)
Record was_read (floor : Z) (f : LogFile) (o : FileState) : Prop := {
  wr_print : fs_print o = fingerprint f;
  wr_offset : fs_offset o = snd (read_lines 0 [] (lf_bytes f));
  wr_anchor : fs_anchor o = read_anchor (lf_bytes f) (fs_offset o);
  wr_entries : forall k, floor <= snd k -> fs_entries o !! k = contrib k (lines_of f)
}.

(** What may happen to a file of the same name: equal fingerprints mean equal
    bytes, and a file that grew and still has the bytes before the committed
    offset was appended to.  A replaced, rewritten or truncated file is free. *)
Record continues (f f' : LogFile) : Prop := {
  ct_same : fingerprint f = fingerprint f' -> lf_bytes f = lf_bytes f';
  ct_grown : let offset := snd (read_lines 0 [] (lf_bytes f)) in
    lf_id f = lf_id f' -> (length (lf_bytes f) < length (lf_bytes f'))%nat ->
    read_anchor (lf_bytes f') offset = read_anchor (lf_bytes f) offset -> lf_bytes f `prefix_of` lf_bytes f'
}.

Definition known_from (floor : Z) (old : option FileState) (g : option LogFile) (f : LogFile) : Prop :=
  match old, g with
  | Some o, Some g => was_read floor g o /\ continues g f
  | None, None => True
  | _, _ => False
  end.

Definition contrib_of (k : HistoryKey) (g : option LogFile) : option Contribution := g ≫= fun f => contrib k (lines_of f).

Definition says_gone (f : LogFile) (t : HistoryKey) : Prop := exists l, l ∈ lines_of f /\ scan_line (snd l) = L_Tombstone t.

Definition file_of (old : option FileState) (d : Delta) : FileState :=
  mkFile (dl_print d) (dl_offset d) (dl_anchor d)
    (if dl_reset d then dl_entries d else dl_entries d ∪ match old with Some o => fs_entries o | None => ∅ end).

(** The scan of a file that was not read before, or that is read again. *)
Lemma scan_afresh floor f k : floor <= snd k ->
  let s := scan_lines floor ∅ (lines_of f) in
  sc_entries s !! k = contrib k (lines_of f) /\ (k ∉ sc_affected s -> contrib k (lines_of f) = None).
Proof.
  intros Hk s. destruct (scan_lines_spec floor ∅ (lines_of f) k Hk) as [E A N]. fold s in E, A, N. rewrite lookup_empty in E.
  change (fold_left (grow k) (lines_of f) None) with (contrib k (lines_of f)) in E. split; [by destruct (sc_entries s !! k)|].
  intros Ha. apply N. destruct (sc_entries s !! k); [|done]. destruct Ha. apply A. by eexists.
Qed.

(** The scan of what was appended. *)
Lemma scan_appended floor f f' o k : was_read floor f o -> lf_bytes f `prefix_of` lf_bytes f' -> floor <= snd k ->
  let '(ls, e) := read_lines (fs_offset o) [] (drop (fs_offset o) (lf_bytes f')) in
  let s := scan_lines floor (fs_entries o) ls in
  lines_of f' = lines_of f ++ ls /\ e = snd (read_lines 0 [] (lf_bytes f')) /\
  match sc_entries s !! k with Some c => Some c | None => fs_entries o !! k end = contrib k (lines_of f') /\
  (k ∉ sc_affected s -> contrib k (lines_of f') = contrib k (lines_of f)).
Proof.
  intros [P O A En] [more Hm] Hk. specialize (En k Hk). pose proof (read_lines_app (lf_bytes f) more 0 [] ltac:(constructor)) as H. cbv zeta in H.
  rewrite <- Hm, <- O, Nat.sub_0_r in H. cbn [rev app] in H. unfold lines_of.
  destruct (read_lines (fs_offset o) [] (drop (fs_offset o) (lf_bytes f'))) as [ls e]. cbv zeta. rewrite H. cbn [fst snd].
  fold (lines_of f). unfold contrib. rewrite fold_left_app. fold (contrib k (lines_of f)). rewrite <- En.
  destruct (scan_lines_spec floor (fs_entries o) ls k Hk) as [E A' N]. split_and!; [done|done|exact E|].
  intros Ha. rewrite <- E. destruct (sc_entries _ !! k) eqn:Es; [|done]. destruct Ha. apply A'. by eexists.
Qed.

(** A file that is not read from its start is the one that was read, with more. *)
Lemma no_reset full old f : needs_reset full old f = false -> exists o, old = Some o /\ full = false /\
  (forall floor g, was_read floor g o -> continues g f -> lf_bytes g `prefix_of` lf_bytes f).
Proof.
  unfold needs_reset. destruct full; [done|]. destruct old as [o|]; [|done]. intros H. cbn [orb] in H. exists o. split_and!; try done.
  intros floor g [P O A En] [Cs Cg]. unfold same_file in H. rewrite P in H. cbn [fingerprint fp_id fp_len] in H. bool_hyps.
  rewrite Nat.ltb_ge in *. rewrite Nat.eqb_neq in *. apply Cg; [lia|lia|]. rewrite <- O. congruence.
Qed.

Lemma file_read floor old d f : dl_print d = fingerprint f -> dl_offset d = snd (read_lines 0 [] (lf_bytes f)) ->
  dl_anchor d = read_anchor (lf_bytes f) (dl_offset d) ->
  (forall k, floor <= snd k -> match dl_entries d !! k with Some c => Some c | None => if dl_reset d then None else old ≫= fun o => fs_entries o !! k end
                               = contrib k (lines_of f)) ->
  was_read floor f (file_of old d).
Proof.
  intros P O A En. split; [done..|]. intros k Hk. rewrite <- (En k Hk). unfold file_of. cbn [fs_entries].
  destruct (dl_reset d); [by destruct (dl_entries d !! k)|]. rewrite lookup_union.
  destruct old as [o|]; cbn; [|rewrite lookup_empty]; destruct (dl_entries d !! k); cbn; try done; by destruct (fs_entries o !! k).
Qed.

Lemma scan_file_spec full floor old g f : known_from floor old g f ->
  match scan_file full floor old f with
  | None => exists o g0, old = Some o /\ g = Some g0 /\ lf_bytes g0 = lf_bytes f /\ fs_print o = fingerprint f
  | Some (d, a, t) =>
      was_read floor f (file_of old d) /\
      (forall k, floor <= snd k -> match dl_entries d !! k with Some c => Some c | None => if dl_reset d then None else old ≫= fun o => fs_entries o !! k end
                                   = contrib k (lines_of f)) /\
      (forall k, floor <= snd k -> k ∉ a -> contrib k (lines_of f) = contrib_of k g) /\
      (forall k, k ∈ t -> says_gone f k) /\
      (forall k, says_gone f k -> k ∈ t \/ exists g0, g = Some g0 /\ says_gone g0 k)
  end.
Proof.
  intros Hk. unfold scan_file. destruct (negb full && _) eqn:Hs.
  { bool_hyps. destruct old as [o|]; [|done]. destruct g as [g|]; [|done]. destruct Hk as [Hw Hc]. bool_hyps. exists o, g.
    split_and!; try done. apply (ct_same _ _ Hc). rewrite <- (wr_print _ _ _ Hw). done. }
  clear Hs. destruct (needs_reset full old f) eqn:Er.
  - rewrite drop_0. destruct (read_lines 0 [] (lf_bytes f)) as [ls e] eqn:El.
    assert (Els : lines_of f = ls) by (unfold lines_of; by rewrite El).
    assert (Hn : forall k, floor <= snd k -> let s := scan_lines floor ∅ ls in
      sc_entries s !! k = contrib k (lines_of f) /\ (k ∉ sc_affected s -> contrib k (lines_of f) = None))
      by (rewrite <- Els; intros k; apply scan_afresh).
    assert (Hen : forall k, floor <= snd k -> match sc_entries (scan_lines floor ∅ ls) !! k with Some c => Some c | None => None end = contrib k (lines_of f))
      by (intros k Hf; destruct (Hn k Hf) as [<- _]; by destruct (_ !! k)).
    split_and!; [by apply file_read; rewrite ?El|done| | |].
    + intros k Hf [Hd Ha]%not_elem_of_union. rewrite (proj2 (Hn k Hf) Ha). destruct old as [o|], g as [g|]; try done.
      destruct Hk as [Hw _]. cbn. rewrite <- (wr_entries _ _ _ Hw) by done. symmetry. by apply not_elem_of_dom.
    + intros k (l & Hl & E)%scan_tombstones. exists l. by rewrite Els.
    + intros k (l & Hl & E). left. apply scan_tombstones. exists l. by rewrite <- Els.
  - destruct (no_reset _ _ _ Er) as (o & -> & _ & Hp). destruct g as [g|]; [|done]. destruct Hk as [Hw Hc]. specialize (Hp _ _ Hw Hc).
    pose proof (fun k => scan_appended floor g f o k Hw Hp) as Hn.
    destruct (read_lines (fs_offset o) [] (drop (fs_offset o) (lf_bytes f))) as [ls e]. cbv zeta in Hn.
    assert (Hl : lines_of f = lines_of g ++ ls /\ e = snd (read_lines 0 [] (lf_bytes f))).
    { destruct (Hn (0, floor) ltac:(done)) as (E1 & E2 & _). done. }
    destruct Hl as [Els Ee]. split_and!; [apply file_read; [done|done|done|]| | | |].
    + intros k Hf. by destruct (Hn k Hf) as (_ & _ & E & _).
    + intros k Hf. by destruct (Hn k Hf) as (_ & _ & E & _).
    + intros k Hf Ha. by destruct (Hn k Hf) as (_ & _ & _ & E); apply E.
    + intros k (l & Hl & E)%scan_tombstones. exists l. split; [|done]. rewrite Els. apply elem_of_app. by right.
    + intros k (l & Hl & E). rewrite Els in Hl. apply elem_of_app in Hl as [Hl|Hl].
      * right. exists g. split; [done|]. by exists l.
      * left. apply scan_tombstones. by exists l.
Qed.

(** ** Merged entries *)

Lemma sorted_distinct {A B} (R : A -> A -> Prop) (g : A -> B) l : Sorted.StronglySorted R l -> NoDup (map g l) ->
  Sorted.StronglySorted (fun x y => R x y /\ g x <> g y) l.
Proof.
  induction 1 as [|x l Hl IH Hx]; intros Hn; [constructor|]. cbn [map] in Hn. apply NoDup_cons in Hn as [Hx' Hn].
  constructor; [by apply IH|]. rewrite Forall_forall in Hx. rewrite Forall_forall. intros y Hy. split; [by apply Hx|].
  intros E. apply Hx'. rewrite E. by apply list_elem_of_fmap_2.
Qed.

Lemma combine_none k l : k ∉ map key_of l -> combine k l = None.
Proof.
  intros Hk. destruct (combine k l) eqn:E; [|done]. destruct Hk. revert E. revert h. induction l as [|e l IH] using rev_ind; intros h; [done|].
  rewrite combine_snoc, map_app, elem_of_app. unfold combine_step. cbn [map]. case_bool_decide as He; [|intros H; left; by eapply IH].
  intros _. right. subst. by left.
Qed.

Lemma combine_one e l : NoDup (map key_of l) -> e ∈ l -> combine (key_of e) l = Some e.
Proof.
  induction l as [|x l IH] using rev_ind; intros Hn He; [by apply elem_of_nil in He|]. rewrite map_app in Hn. apply NoDup_app in Hn as (Hn & Hd & _).
  rewrite combine_snoc. unfold combine_step. apply elem_of_app in He as [He| ->%list_elem_of_singleton].
  - rewrite (IH Hn He). rewrite bool_decide_eq_false_2; [done|]. intros E. apply (Hd (key_of e)); [by apply list_elem_of_fmap_2|]. rewrite <- E. by left.
  - rewrite bool_decide_eq_true_2 by done. rewrite combine_none; [done|]. intros H. apply (Hd (key_of x)); [done|by left].
Qed.

Lemma firsts_distinct l : NoDup (map key_of l) -> firsts l = map key_of l.
Proof.
  induction l as [|e l IH] using rev_ind; intros Hn; [done|]. rewrite map_app in Hn. apply NoDup_app in Hn as (Hn & Hd & _).
  rewrite firsts_snoc, map_app. unfold meet. rewrite IH by done. rewrite bool_decide_eq_false_2; [done|]. intros H. apply (Hd _ H). by left.
Qed.

Lemma before_asym a b : before a b -> ~ before b a.
Proof. unfold before. lia. Qed.

Lemma earlier_asym l k1 k2 : earlier l k1 k2 -> ~ earlier l k2 k1.
Proof. intros (a & b & Ea & Eb & H) (b' & a' & Eb' & Ea' & H'). simplify_eq. by eapply before_asym. Qed.

Lemma place_inj l k1 k2 a : ascending l -> place l k1 = Some a -> place l k2 = Some a -> k1 = k2.
Proof.
  unfold place. intros Ha. destruct (gather k1 l) as [[n1 c1]|] eqn:E1; [|done]. destruct (gather k2 l) as [[n2 c2]|] eqn:E2; [|done]. cbn.
  intros [= <-] [= -> Hc]. destruct (gather_line _ _ _ _ E1) as (y1 & e1 & H1 & P1 & L1 & <-).
  destruct (gather_line _ _ _ _ E2) as (y2 & e2 & H2 & P2 & L2 & <-). assert (y1 = y2) as ->; [|congruence].
  assert (P : fst y1 = fst y2) by congruence. clear -Ha H1 H2 P. induction Ha as [|x l Hl IH Hx]; [by apply elem_of_nil in H1|].
  rewrite Forall_forall in Hx. rewrite elem_of_cons in H1, H2. destruct H1 as [->|H1], H2 as [->|H2]; [done| | |by apply IH].
  - specialize (Hx _ H2). rewrite P in Hx. by destruct (before_asym _ _ Hx).
  - specialize (Hx _ H1). rewrite P in Hx. by destruct (before_asym _ _ Hx).
Qed.

(** The entries of the keys [ks], in cursor order. *)
Definition in_order (l : list (nat * nat * LogLine)) (ks : list HistoryKey) : list (nat * Contribution) :=
  merge_sort (fun a b => first_leb a b) (omap (fun k => gather k l) ks).

Lemma first_leb_spec x y : Is_true (first_leb x y) <->
  (fst x < fst y)%nat \/ (fst x = fst y /\ (c_first (snd x) <= c_first (snd y))%nat).
Proof.
  rewrite Is_true_true. unfold first_leb. by rewrite orb_true_iff, andb_true_iff, Nat.ltb_lt, Nat.eqb_eq, Nat.leb_le.
Qed.

#[local] Instance first_leb_total : Total (fun a b : nat * Contribution => Is_true (first_leb a b)).
Proof. intros x y. rewrite !first_leb_spec. lia. Qed.

#[local] Instance first_leb_trans : Transitive (fun a b : nat * Contribution => Is_true (first_leb a b)).
Proof. intros x y z. rewrite !first_leb_spec. lia. Qed.

Section InOrder.
Variables (l : list (nat * nat * LogLine)) (ks : list HistoryKey).
Hypothesis (Hasc : ascending l) (Hks : NoDup ks).

#[local] Definition value_key (nc : nat * Contribution) : HistoryKey := key_of (c_entry (snd nc)).

Lemma in_order_elem nc : nc ∈ in_order l ks <-> exists k, k ∈ ks /\ gather k l = Some nc.
Proof using.
  unfold in_order. rewrite (merge_sort_Permutation (fun a b => Is_true (first_leb a b)) (omap (fun k => gather k l) ks)).
  rewrite list_elem_of_omap. naive_solver.
Qed.

Lemma in_order_key k nc : k ∈ ks -> gather k l = Some nc -> value_key nc = k.
Proof using. destruct nc as [n c]. intros _. apply gather_key. Qed.

Lemma in_order_distinct : NoDup (map value_key (in_order l ks)).
Proof using Hks.
  unfold in_order. rewrite (merge_sort_Permutation (fun a b => Is_true (first_leb a b)) (omap (fun k => gather k l) ks)).
  assert (E : map value_key (omap (fun k => gather k l) ks) = List.filter (fun k => bool_decide (is_Some (gather k l))) ks).
  { clear Hks. induction ks as [|k ks' IH]; [done|]. cbn [omap list_omap List.filter]. destruct (gather k l) as [nc|] eqn:E.
    - rewrite bool_decide_eq_true_2 by by eexists. cbn [map]. rewrite IH. f_equal. destruct nc. by apply gather_key in E.
    - rewrite bool_decide_eq_false_2 by by intros []. apply IH. }
  rewrite E. apply NoDup_ListNoDup, List.NoDup_filter, NoDup_ListNoDup, Hks.
Qed.

Lemma in_order_combine k : combine k (map (fun nc => c_entry (snd nc)) (in_order l ks)) =
  if bool_decide (k ∈ ks) then (fun nc => c_entry (snd nc)) <$> gather k l else None.
Proof using Hks.
  pose proof in_order_distinct as Hn. unfold value_key in Hn. rewrite <- (map_map (fun nc => c_entry (snd nc)) key_of) in Hn.
  case_bool_decide as Hk; [destruct (gather k l) as [[n c]|] eqn:E|]; cbn.
  - rewrite <- (gather_key _ _ _ _ E). apply combine_one; [done|]. apply list_elem_of_fmap. exists (n, c). split; [done|].
    apply in_order_elem. by exists k.
  - apply combine_none. rewrite map_map, list_elem_of_fmap. intros (nc & Ek & (k' & Hk' & E')%in_order_elem).
    assert (k = k') as -> by (rewrite Ek; by apply (in_order_key k' nc)). by rewrite E in E'.
  - apply combine_none. rewrite map_map, list_elem_of_fmap. intros (nc & Ek & (k' & Hk' & E')%in_order_elem).
    assert (k = k') as -> by (rewrite Ek; by apply (in_order_key k' nc)). done.
Qed.

Lemma in_order_firsts : Sorted.StronglySorted (earlier l) (firsts (map (fun nc => c_entry (snd nc)) (in_order l ks))).
Proof using Hasc Hks.
  pose proof in_order_distinct as Hn. rewrite firsts_distinct by (by rewrite map_map). rewrite map_map. fold value_key.
  apply sorted_map. eapply sorted_impl; [|apply (sorted_distinct (fun a b => Is_true (first_leb a b)) value_key); [|exact Hn]; apply StronglySorted_merge_sort; apply _].
  intros x y (k1 & H1 & G1)%in_order_elem (k2 & H2 & G2)%in_order_elem [Hle Hne]. rewrite first_leb_spec in Hle.
  rewrite (in_order_key k1 x H1 G1), (in_order_key k2 y H2 G2).
  rewrite (in_order_key k1 x H1 G1), (in_order_key k2 y H2 G2) in Hne.
  assert (P1 : place l k1 = Some (fst x, c_first (snd x))) by (unfold place; by rewrite G1).
  assert (P2 : place l k2 = Some (fst y, c_first (snd y))) by (unfold place; by rewrite G2).
  exists (fst x, c_first (snd x)), (fst y, c_first (snd y)). split_and!; [done..|]. unfold before. cbn.
  destruct Hle as [|[E Hle]]; [by left|]. right. split; [done|]. apply Nat.lt_eq_cases in Hle as [|Hc]; [done|].
  destruct Hne. eapply place_inj; [done|exact P1|]. by rewrite E, Hc.
Qed.

End InOrder.

(** ** Directories *)

(** The order of file names. *)
Variable name_lt : str -> str -> Prop.
Hypothesis name_lt_asym : forall a b, name_lt a b -> ~ name_lt b a.

Definition sorted_dir (dir : Dir) : Prop := Sorted.StronglySorted name_lt (map fst dir).

Definition file_at (dir : Dir) (p : str) : option LogFile := (list_to_map dir : gmap str LogFile) !! p.

Definition follows (dir dir' : Dir) : Prop := forall p g f, file_at dir p = Some g -> file_at dir' p = Some f -> continues g f.

Lemma sorted_names dir : sorted_dir dir -> NoDup (map fst dir).
Proof using name_lt_asym.
  unfold sorted_dir. induction 1 as [|p l Hl IH Hp]; constructor; [|done]. intros Hin. rewrite Forall_forall in Hp.
  specialize (Hp p Hin). by apply (name_lt_asym p p).
Qed.

Lemma file_at_elem dir p f : NoDup (map fst dir) -> file_at dir p = Some f <-> (p, f) ∈ dir.
Proof. intros Hn. symmetry. by apply elem_of_list_to_map. Qed.

Lemma list_to_map_omap {A} (h : str -> LogFile -> option A) dir p : NoDup (map fst dir) ->
  (list_to_map (omap (fun '(p, f) => pair p <$> h p f) dir) : gmap str A) !! p = file_at dir p ≫= h p.
Proof.
  unfold file_at. induction dir as [|[q f] dir IH]; intros Hn; [done|]. cbn [map fst] in Hn. apply NoDup_cons in Hn as [Hq Hn]. cbn [omap list_omap list_to_map foldr].
  specialize (IH Hn). destruct (decide (p = q)) as [->|Hp].
  - rewrite lookup_insert_eq. cbn. destruct (h q f) as [x|] eqn:Eh; cbn; [by rewrite lookup_insert_eq|].
    rewrite IH. rewrite (not_elem_of_list_to_map_1 dir q) by done. done.
  - rewrite lookup_insert_ne by done. destruct (h q f) as [x|]; cbn; [by rewrite lookup_insert_ne|done].
Qed.

Lemma scans_elem full floor cache dir p x : (p, x) ∈ scans full floor cache dir <->
  exists f, (p, f) ∈ dir /\ scan_file full floor (c_files cache !! p) f = Some x.
Proof.
  unfold scans. rewrite list_elem_of_omap. split.
  - intros ([q f] & Hf & E). destruct (scan_file _ _ _ f) eqn:Es; [|done]. injection E as -> ->. by exists f.
  - intros (f & Hf & E). exists (p, f). split; [done|]. by rewrite E.
Qed.

Lemma elem_of_union_all l k : k ∈ union_all l <-> exists s, s ∈ l /\ k ∈ s.
Proof.
  unfold union_all. induction l as [|s l IH]; cbn [foldr].
  - split; [by intros ?%elem_of_empty|]. intros (s & Hs & _). by apply elem_of_nil in Hs.
  - rewrite elem_of_union, IH. setoid_rewrite elem_of_cons. naive_solver.
Qed.

Lemma deltas_at full floor cache dir p f : NoDup (map fst dir) -> file_at dir p = Some f ->
  deltas_of full floor cache dir !! p = (fun '(d, _, _) => d) <$> scan_file full floor (c_files cache !! p) f.
Proof.
  intros Hn Hf. unfold deltas_of, scans.
  assert (E : forall dir : Dir, map (fun '(p, (d, _, _)) => (p, d)) (omap (fun '(p, f) => pair p <$> scan_file full floor (c_files cache !! p) f) dir) =
    omap (fun '(p, f) => pair p <$> ((fun '(d, _, _) => d) <$> scan_file full floor (c_files cache !! p) f)) dir).
  { intros l. induction l as [|[q g] l IH]; [done|]. cbn [omap list_omap]. destruct (scan_file _ _ _ g) as [[[d a] t]|]; cbn; [by rewrite IH|done]. }
  rewrite E, (list_to_map_omap (fun p f => (fun '(d, _, _) => d) <$> scan_file full floor (c_files cache !! p) f)) by done. by rewrite Hf.
Qed.

(** ** What the files say together *)

Definition merge_all (l : list Contribution) : option Contribution :=
  fold_left (fun acc c => Some (match acc with Some c0 => absorb (c_entry c) c0 | None => c end)) l None.

Lemma merge_key_all l : snd <$> merge_key l = merge_all (omap id l).
Proof.
  unfold merge_key, merge_all. induction l as [|o l IH] using rev_ind; [done|].
  rewrite imap_app, fold_left_app, omap_app, fold_left_app, <- IH. cbn [imap fold_left]. unfold merge_in at 1. cbn [snd].
  destruct o as [c|]; cbn; [|done]. by destruct (fold_left merge_in (imap pair l) None) as [[n c0]|].
Qed.

Definition said (k : HistoryKey) (dir : Dir) : list (str * Contribution) := omap (fun '(p, f) => pair p <$> contrib k (lines_of f)) dir.

Lemma gather_said k dir : snd <$> gather k (placed 0 dir) = merge_all (map snd (said k dir)).
Proof.
  rewrite <- merge_key_gather, merge_key_all. f_equal. unfold said. induction dir as [|[p f] dir IH]; [done|].
  cbn [map omap list_omap]. destruct (contrib k (lines_of f)); cbn; [by rewrite IH|done].
Qed.

Lemma said_elem k dir p c : NoDup (map fst dir) -> (p, c) ∈ said k dir <-> contrib_of k (file_at dir p) = Some c.
Proof.
  intros Hn. unfold said, contrib_of. rewrite list_elem_of_omap. split.
  - intros ([q f] & Hf & E). destruct (contrib k (lines_of f)) eqn:Ec; [|done]. injection E as -> ->.
    by rewrite (proj2 (file_at_elem dir p f Hn) Hf).
  - destruct (file_at dir p) as [f|] eqn:Ef; [|done]. cbn. intros Ec. exists (p, f). split; [by apply file_at_elem|]. by rewrite Ec.
Qed.

Lemma said_sorted k dir : sorted_dir dir -> Sorted.StronglySorted (fun a b => name_lt (fst a) (fst b)) (said k dir).
Proof.
  unfold sorted_dir, said. induction dir as [|[p f] dir IH]; [constructor|]. cbn [map fst omap list_omap]. inversion_clear 1 as [|? ? Hl Hp].
  destruct (contrib k (lines_of f)); cbn; [|by apply IH]. constructor; [by apply IH|]. rewrite Forall_forall in Hp; rewrite Forall_forall.
  intros [q c'] ([q' f'] & Hq & E)%list_elem_of_omap. apply Hp. destruct (contrib k (lines_of f')); [|done]. injection E as -> _.
  apply list_elem_of_fmap. by exists (q, f').
Qed.

Lemma said_same k dir dir' : sorted_dir dir -> sorted_dir dir' ->
  (forall p, contrib_of k (file_at dir p) = contrib_of k (file_at dir' p)) -> said k dir = said k dir'.
Proof using name_lt_asym.
  intros H H' Hc. eapply sorted_same; [|by apply said_sorted..|]; [intros; by apply name_lt_asym|].
  intros [p c]. rewrite !said_elem by by apply sorted_names. by rewrite Hc.
Qed.

(** ** A pass after another *)

Definition settled (i : Index) (k : HistoryKey) (e : HistoryEntry) : Prop :=
  k ∈ tombstones i \/ exists r, rows i !! k = Some r /\ update_row e r = r.

(** The cache is what the files of [dir] were, and the index reflects them. *)
Record reads (floor : Z) (cache : Cache) (dir : Dir) (i : Index) : Prop := {
  rd_files : forall p, match c_files cache !! p, file_at dir p with Some o, Some g => was_read floor g o | None, None => True | _, _ => False end;
  rd_settled : forall k n c, floor <= snd k -> gather k (placed 0 dir) = Some (n, c) -> settled i k (c_entry c);
  rd_gone : forall p g k, file_at dir p = Some g -> says_gone g k -> k ∈ tombstones i
}.

Section Pass.
Variables (full : bool) (floor : Z) (cache : Cache) (dir0 dir : Dir) (i : Index).
Hypothesis (Hsorted0 : sorted_dir dir0) (Hsorted : sorted_dir dir).
Hypothesis Hreads : reads floor cache dir0 i.
Hypothesis Hfollows : follows dir0 dir.

#[local] Definition deltas := deltas_of full floor cache dir.
#[local] Definition affected := affected_of full floor cache dir.
#[local] Definition gone := tombstones_of full floor cache dir.

Lemma known p f : file_at dir p = Some f -> known_from floor (c_files cache !! p) (file_at dir0 p) f.
Proof using Hreads Hfollows.
  intros Hf. pose proof (rd_files _ _ _ _ Hreads p) as H. unfold known_from. destruct (c_files cache !! p), (file_at dir0 p) as [g|] eqn:Eg; try done.
  split; [done|]. by eapply Hfollows.
Qed.

Lemma scan_at p f : file_at dir p = Some f ->
  match scan_file full floor (c_files cache !! p) f with
  | None => exists o g, c_files cache !! p = Some o /\ file_at dir0 p = Some g /\ was_read floor g o /\ lf_bytes g = lf_bytes f
  | Some _ => True
  end.
Proof using Hreads Hfollows.
  intros Hf. pose proof (known p f Hf) as Hk. pose proof (scan_file_spec full floor _ _ f Hk) as H. destruct (scan_file _ _ _ f); [done|].
  destruct H as (o & g & Eo & Eg & Eb & _). exists o, g. rewrite Eo, Eg in Hk. by destruct Hk.
Qed.

Lemma same_lines g f : lf_bytes g = lf_bytes f -> lines_of g = lines_of f.
Proof. unfold lines_of. by intros ->. Qed.

Lemma contribution_spec p f k : file_at dir p = Some f -> floor <= snd k -> contribution cache deltas p k = contrib k (lines_of f).
Proof using name_lt_asym Hsorted Hreads Hfollows.
  intros Hf Hk. pose proof (scan_file_spec full floor _ _ f (known p f Hf)) as H. pose proof (scan_at p f Hf) as Hs. unfold contribution, deltas.
  rewrite (deltas_at full floor cache dir p f) by (done || by apply sorted_names).
  destruct (scan_file full floor (c_files cache !! p) f) as [[[d a] t]|]; cbn.
  - destruct H as (_ & E & _). rewrite <- (E k Hk). by destruct (c_files cache !! p).
  - destruct Hs as (o & g & Eo & Eg & Hw & Eb). rewrite Eo. cbn. rewrite (wr_entries _ _ _ Hw) by done. by rewrite (same_lines _ _ Eb).
Qed.

(** A key that no scan touched is where it was. *)
Lemma unaffected p f k : file_at dir p = Some f -> floor <= snd k -> k ∉ affected -> contrib k (lines_of f) = contrib_of k (file_at dir0 p).
Proof using name_lt_asym Hsorted Hreads Hfollows.
  intros Hf Hk Ha. pose proof (scan_file_spec full floor _ _ f (known p f Hf)) as H. pose proof (scan_at p f Hf) as Hs.
  destruct (scan_file full floor (c_files cache !! p) f) as [[[d a] t]|] eqn:Es.
  - destruct H as (_ & _ & E & _). apply E; [done|]. contradict Ha. apply elem_of_union. right. apply elem_of_union_all. exists a.
    split; [|done]. apply list_elem_of_fmap. exists (p, (d, a, t)). split; [done|]. apply scans_elem. exists f. split; [|done].
    apply file_at_elem; [by apply sorted_names|done].
  - destruct Hs as (o & g & Eo & Eg & Hw & Eb). rewrite Eg. cbn. by rewrite (same_lines _ _ Eb).
Qed.

Lemma unaffected_lost p g k : file_at dir0 p = Some g -> file_at dir p = None -> floor <= snd k -> k ∉ affected -> contrib k (lines_of g) = None.
Proof using Hreads.
  intros Hg Hf Hk Ha. pose proof (rd_files _ _ _ _ Hreads p) as H. rewrite Hg in H. destruct (c_files cache !! p) as [o|] eqn:Eo; [|done].
  rewrite <- (wr_entries _ _ _ H) by done. apply not_elem_of_dom. contradict Ha. apply elem_of_union. left. apply elem_of_union_all.
  exists (dom (fs_entries o)). split; [|done]. apply list_elem_of_fmap. exists (p, o). split; [done|]. apply elem_of_filter_bool. split.
  - by apply elem_of_map_to_list.
  - apply negb_true_iff, bool_decide_eq_false. intros Hp. apply list_elem_of_fmap in Hp as ([q f] & -> & Hp).
    unfold file_at in Hf. apply not_elem_of_list_to_map_2 in Hf. apply Hf. apply list_elem_of_fmap. by exists (q, f).
Qed.

Lemma gone_spec k : (exists p f, file_at dir p = Some f /\ says_gone f k) -> k ∈ gone \/ k ∈ tombstones i.
Proof using name_lt_asym Hsorted Hreads Hfollows.
  intros (p & f & Hf & Hg). pose proof (scan_file_spec full floor _ _ f (known p f Hf)) as H. pose proof (scan_at p f Hf) as Hs.
  destruct (scan_file full floor (c_files cache !! p) f) as [[[d a] t]|] eqn:Es.
  - destruct H as (_ & _ & _ & _ & H). destruct (H k Hg) as [Ht|(g & Eg & Hgg)].
    + left. apply elem_of_union_all. exists t. split; [|done]. apply list_elem_of_fmap. exists (p, (d, a, t)). split; [done|].
      apply scans_elem. exists f. split; [|done]. apply file_at_elem; [by apply sorted_names|done].
    + right. by eapply (rd_gone _ _ _ _ Hreads).
  - right. destruct Hs as (o & g & Eo & Eg & Hw & Eb). eapply (rd_gone _ _ _ _ Hreads); [done|]. unfold says_gone.
    by rewrite (same_lines _ _ Eb).
Qed.

Lemma gone_said k : k ∈ gone -> exists p f, file_at dir p = Some f /\ says_gone f k.
Proof using name_lt_asym Hsorted Hreads Hfollows.
  intros (t & Ht & Hk)%elem_of_union_all. apply list_elem_of_fmap in Ht as ([p [[d a] t']] & -> & Hp).
  apply scans_elem in Hp as (f & Hf & Es). apply file_at_elem in Hf; [|by apply sorted_names]. exists p, f. split; [done|].
  pose proof (scan_file_spec full floor _ _ f (known p f Hf)) as H. rewrite Es in H. destruct H as (_ & _ & _ & H & _). by apply H.
Qed.

Lemma unaffected_settled k n c : floor <= snd k -> k ∉ affected -> gather k (placed 0 dir) = Some (n, c) -> settled i k (c_entry c).
Proof using name_lt_asym Hsorted0 Hsorted Hreads Hfollows.
  intros Hk Ha Hg. assert (E : said k dir = said k dir0).
  { apply said_same; [done..|]. intros p. destruct (file_at dir p) as [f|] eqn:Ef; [by apply unaffected|]. cbn.
    destruct (file_at dir0 p) as [g|] eqn:Eg; [|done]. symmetry. by eapply unaffected_lost. }
  pose proof (gather_said k dir) as G. pose proof (gather_said k dir0) as G0. rewrite <- E, <- G, Hg in G0. cbn in G0.
  destruct (gather k (placed 0 dir0)) as [[n0 c0]|] eqn:E0; [|done]. injection G0 as ->. by eapply (rd_settled _ _ _ _ Hreads).
Qed.

(** The tombstones of the logs. *)
#[local] Definition all_gone := omap line_tombstone (all_lines dir).

Lemma all_gone_elem k : k ∈ all_gone <-> exists p f, file_at dir p = Some f /\ says_gone f k.
Proof using name_lt_asym Hsorted.
  assert (Hn : NoDup (map fst dir)) by by apply sorted_names. unfold all_gone, all_lines. rewrite list_elem_of_omap. split.
  - intros (x & Hx & Ex). destruct x as [t| |]; try done. injection Ex as ->. apply list_elem_of_In, in_concat in Hx as (ls & Hls & Hx).
    apply list_elem_of_In, list_elem_of_fmap in Hls as ([p f] & -> & Hf). apply list_elem_of_In, list_elem_of_fmap in Hx as (l & El & Hl).
    exists p, f. split; [by apply file_at_elem|]. by exists l.
  - intros (p & f & Hf & l & Hl & El). exists (L_Tombstone k). split; [|done]. apply list_elem_of_In, in_concat.
    exists (map (fun l => scan_line (snd l)) (lines_of f)). split; apply list_elem_of_In.
    + apply list_elem_of_fmap. exists (p, f). split; [done|]. by apply file_at_elem.
    + rewrite <- El. by apply (list_elem_of_fmap_2 (fun l => scan_line (snd l))).
Qed.

#[local] Definition forgotten := apply_tombstones all_gone i.

Lemma gone_forgotten : apply_tombstones (elements gone) i = forgotten.
Proof using name_lt_asym Hsorted Hreads Hfollows.
  apply tombstones_agree. intros k. rewrite all_gone_elem, elem_of_elements. split; intros [H|H]; auto.
  - left. by apply gone_said.
  - by apply gone_spec.
Qed.

#[local] Definition touched : list HistoryKey :=
  List.filter (fun k => negb ((snd k <? floor) || bool_decide (k ∈ gone))) (elements affected).

Lemma touched_elem k : k ∈ touched <-> floor <= snd k /\ k ∉ gone /\ k ∈ affected.
Proof using. unfold touched. rewrite elem_of_filter_bool, elem_of_elements, negb_true_iff, orb_false_iff, bool_decide_eq_false, Z.ltb_ge. naive_solver. Qed.

Lemma merged_in_order : merged floor cache deltas dir affected gone = map (fun nc => c_entry (snd nc)) (in_order (placed 0 dir) touched).
Proof using name_lt_asym Hsorted Hreads Hfollows.
  unfold merged, in_order. fold touched. do 2 f_equal.
  assert (H : forall k, k ∈ touched -> floor <= snd k) by (intros k; rewrite touched_elem; tauto).
  revert H. generalize touched. intros ks H. induction ks as [|k ks IH]; [done|]. cbn [omap list_omap].
  rewrite IH by (intros; apply H; by right). replace (merge_key _) with (gather k (placed 0 dir)); [done|].
  rewrite <- merge_key_gather. f_equal. apply map_ext_in. intros [p f] Hp%list_elem_of_In. symmetry. apply contribution_spec; [|apply H; by left].
  apply file_at_elem; [by apply sorted_names|done].
Qed.

Hypothesis Hok : index_ok i.

#[local] Definition merged_list := merged floor cache deltas dir affected gone.
#[local] Definition line_list := omap (line_entry floor all_gone) (all_lines dir).

Lemma combine_merged k : combine k merged_list =
  if bool_decide (k ∈ touched) then (fun nc => c_entry (snd nc)) <$> gather k (placed 0 dir) else None.
Proof using name_lt_asym Hsorted Hreads Hfollows.
  unfold merged_list. rewrite merged_in_order. apply in_order_combine. unfold touched.
  apply NoDup_ListNoDup, List.NoDup_filter, NoDup_ListNoDup, NoDup_elements.
Qed.

Lemma combine_lines k : combine k line_list =
  if (floor <=? snd k) && negb (bool_decide (k ∈ all_gone)) then (fun nc => c_entry (snd nc)) <$> gather k (placed 0 dir) else None.
Proof using. unfold line_list. rewrite (all_lines_placed dir 0). apply gather_combine. Qed.

(** A key that is not forgotten: both lists say the same, or nothing new. *)
Lemma lists_agree k : k ∉ tombstones forgotten ->
  combine k merged_list = combine k line_list \/
  exists e r, combine k merged_list = None /\ combine k line_list = Some e /\ rows forgotten !! k = Some r /\ update_row e r = r.
Proof using name_lt_asym Hsorted0 Hsorted Hreads Hfollows.
  intros Hk. destruct (tombstones_applied all_gone i) as (R & T & _). fold forgotten in R, T. rewrite T in Hk.
  rewrite combine_merged, combine_lines. rewrite (bool_decide_eq_false_2 (k ∈ all_gone)) by tauto. rewrite andb_true_r.
  assert (Hg : k ∉ gone) by (intros H%gone_said; apply Hk; left; by apply all_gone_elem).
  destruct (floor <=? snd k) eqn:Ef; bool_hyps.
  - destruct (decide (k ∈ affected)) as [Ha|Ha]; [left; by rewrite (bool_decide_eq_true_2 (k ∈ touched)) by by apply touched_elem|].
    rewrite (bool_decide_eq_false_2 (k ∈ touched)) by (rewrite touched_elem; tauto).
    destruct (gather k (placed 0 dir)) as [[n c]|] eqn:Eg; [|by left]. right.
    destruct (unaffected_settled k n c Ef Ha Eg) as [|(r & Hr & Hu)]; [tauto|]. exists (c_entry c), r. split_and!; try done.
    rewrite R. rewrite (bool_decide_eq_false_2 (k ∈ all_gone)) by tauto. done.
  - left. rewrite bool_decide_eq_false_2; [done|]. rewrite touched_elem. lia.
Qed.

Lemma forgotten_ok : index_ok forgotten.
Proof using Hok. by apply apply_tombstones_ok. Qed.

Lemma is_new_spec j k : is_new j k = true <-> rows j !! k = None /\ k ∉ tombstones j.
Proof. unfold is_new. by rewrite andb_true_iff, negb_true_iff, bool_decide_eq_true, bool_decide_eq_false. Qed.

Lemma news_agree : news forgotten merged_list = news forgotten line_list.
Proof using name_lt_asym Hsorted0 Hsorted Hreads Hfollows.
  apply (sorted_same (earlier (placed 0 dir)) (earlier_asym (placed 0 dir))); [apply sorted_filter..|].
  - unfold merged_list. rewrite merged_in_order. apply in_order_firsts; [apply placed_ascending|]. unfold touched.
    apply NoDup_ListNoDup, List.NoDup_filter, NoDup_ListNoDup, NoDup_elements.
  - unfold line_list. rewrite (all_lines_placed dir 0). apply firsts_earlier, placed_ascending.
  - intros k. unfold news. rewrite !elem_of_filter_bool, !elem_of_firsts, is_new_spec.
    split; intros [Hs [Hr Ht]]; (split; [|done]); (destruct (lists_agree k Ht) as [E|(e & r & _ & _ & Er & _)]; [congruence|by rewrite Er in Hr]).
Qed.

Lemma pass_agrees : fold_left replay_entry merged_list forgotten = fold_left replay_entry line_list forgotten.
Proof using name_lt_asym Hsorted0 Hsorted Hreads Hfollows Hok.
  apply replay_agree; [apply news_agree| |].
  - intros k [Hr Ht]%is_new_spec. destruct (lists_agree k Ht) as [E|(e & r & _ & _ & Er & _)]; [done|by rewrite Er in Hr].
  - intros k r Hr. assert (Ht : k ∉ tombstones forgotten) by (intros Ht%forgotten_ok; congruence).
    destruct (lists_agree k Ht) as [E|(e & r' & E1 & E2 & Er & Eu)]; [by rewrite E|]. rewrite E1, E2. cbn. rewrite Hr in Er. by injection Er as ->.
Qed.

Lemma reference_lists : reference_replay floor dir i = fold_left replay_entry line_list forgotten.
Proof. done. Qed.

Lemma published p : c_files (publish cache deltas dir) !! p =
  file_at dir p ≫= fun _ => match deltas !! p with Some d => Some (file_of (c_files cache !! p) d) | None => c_files cache !! p end.
Proof using name_lt_asym Hsorted.
  exact (list_to_map_omap (fun p _ => match deltas !! p with Some d => Some (file_of (c_files cache !! p) d) | None => c_files cache !! p end)
    dir p (sorted_names dir Hsorted)).
Qed.

Lemma reference_settled k n c : floor <= snd k -> gather k (placed 0 dir) = Some (n, c) -> settled (reference_replay floor dir i) k (c_entry c).
Proof using.
  intros Hk Hg. rewrite reference_lists. destruct (replayed forgotten line_list) as (R & _ & T & _). unfold settled. rewrite R, T. unfold replayed_row.
  destruct (decide (k ∈ tombstones forgotten)) as [Ht|Ht]; [by left|]. right.
  assert (Ha : k ∉ all_gone) by (intros Ha; apply Ht; apply (tombstones_applied all_gone i); by left).
  rewrite combine_lines, (bool_decide_eq_false_2 _ Ha), (bool_decide_eq_false_2 _ Ht), Hg, (proj2 (Z.leb_le _ _) Hk). cbn.
  destruct (rows forgotten !! k) as [r|]; eexists; split; [done| |done|]; [by rewrite update_row_app, overlay_self|].
  by rewrite update_new_row, overlay_self.
Qed.

Lemma reads_next : reads floor (publish cache deltas dir) dir (reference_replay floor dir i).
Proof using name_lt_asym Hsorted Hreads Hfollows.
  split.
  - intros p. rewrite published. destruct (file_at dir p) as [f|] eqn:Ef; cbn; [|done].
    pose proof (scan_file_spec full floor _ _ f (known p f Ef)) as H. pose proof (scan_at p f Ef) as Hs. unfold deltas.
    rewrite (deltas_at full floor cache dir p f) by (done || by apply sorted_names).
    destruct (scan_file full floor (c_files cache !! p) f) as [[[d a] t]|]; cbn; [by destruct H|].
    destruct Hs as (o & g & Eo & Eg & Hw & Eb), H as (o' & _ & Eo' & _ & _ & Ep). rewrite Eo in Eo' |- *. injection Eo' as <-.
    destruct Hw as [P O A En]. split; [done|by rewrite <- Eb|by rewrite <- Eb|]. intros k Hk. rewrite <- (same_lines _ _ Eb). by apply En.
  - intros k n c. apply reference_settled.
  - intros p g k Hf Hg. rewrite reference_lists. destruct (replayed forgotten line_list) as (_ & _ & T & _). rewrite T.
    apply (tombstones_applied all_gone i). left. apply all_gone_elem. by exists p, g.
Qed.

End Pass.

Lemma pass_complete full floor cache dir0 dir i : sorted_dir dir0 -> sorted_dir dir -> reads floor cache dir0 i -> follows dir0 dir -> index_ok i ->
  exists cache', replay_logs full floor dir None cache i = (reference_replay floor dir i, cache', true) /\
    reads floor cache' dir (reference_replay floor dir i) /\ index_ok (reference_replay floor dir i).
Proof using name_lt_asym.
  intros H0 H Hr Hf Hi. unfold replay_logs. set (full' := full || negb (c_initialized cache)). eexists. split; [|split].
  - f_equal. f_equal. rewrite commit_all. fold (gone full' floor cache dir).
    rewrite (gone_forgotten full' floor cache dir0 dir i) by done. exact (pass_agrees full' floor cache dir0 dir i H0 H Hr Hf Hi).
  - by apply (reads_next full' floor cache dir0 dir i).
  - rewrite reference_lists. by apply replay_ok, forgotten_ok.
Qed.

Lemma reads_floor floor floor' cache dir i : floor <= floor' -> reads floor cache dir i -> reads floor' cache dir i.
Proof.
  intros Hle [F S G]. split; [|intros k n c Hk; apply S; lia|done]. intros p. specialize (F p).
  destruct (c_files cache !! p), (file_at dir p); try done. destruct F as [P O A En]. split; try done. intros k Hk. apply En. lia.
Qed.

(** ** Many passes *)

Record Pass := mkPass { ps_full : bool; ps_floor : Z; ps_dir : Dir }.

Definition incremental (s : Cache * Index) (p : Pass) : Cache * Index :=
  let '(i, cache, _) := replay_logs (ps_full p) (ps_floor p) (ps_dir p) None (fst s) (snd s) in (cache, i).

Definition line_by_line (i : Index) (p : Pass) : Index := reference_replay (ps_floor p) (ps_dir p) i.

(** What the passes find: file lists in order, each directory a later state of the
    one before, and a floor that only rises. *)
Fixpoint evolves (floor : Z) (dir : Dir) (ps : list Pass) : Prop :=
  match ps with
  | [] => True
  | p :: ps' => floor <= ps_floor p /\ sorted_dir (ps_dir p) /\ follows dir (ps_dir p) /\ evolves (ps_floor p) (ps_dir p) ps'
  end.

Lemma passes_agree ps : forall floor dir cache i, sorted_dir dir -> reads floor cache dir i -> index_ok i -> evolves floor dir ps ->
  snd (fold_left incremental ps (cache, i)) = fold_left line_by_line ps i.
Proof using name_lt_asym.
  induction ps as [|p ps IH]; intros floor dir cache i Hd Hr Hi; [done|]. intros (Hle & Hd' & Hf & He). cbn [fold_left].
  destruct (pass_complete (ps_full p) (ps_floor p) cache dir (ps_dir p) i Hd Hd' (reads_floor _ _ _ _ _ Hle Hr) Hf Hi) as (cache' & E & Hr' & Hi').
  unfold incremental at 2. cbn [fst snd]. rewrite E. by eapply IH.
Qed.

(** C19: Any number of incremental passes, from a process start on, over logs that
    are appended to, replaced, truncated, rewritten or removed between them, leave
    the index (rows, cursor numbers and tombstones) exactly as replaying every
    complete line of every log each time would. *)
Theorem incremental_is_replay floor ps i : index_ok i -> evolves floor [] ps ->
  snd (fold_left incremental ps (mkCache ∅ false, i)) = fold_left line_by_line ps i.
Proof using name_lt_asym.
  intros Hi He. apply (passes_agree ps floor []); [constructor| |done|exact He]. split; [|done|done].
  intros p. cbn. by rewrite lookup_empty.
Qed.

(** ** A pass that was interrupted *)

Lemma replay_settles i l k : k ∈ tombstones (fold_left replay_entry l i) \/ combine k l = None \/
  exists r e, rows (fold_left replay_entry l i) !! k = Some r /\ combine k l = Some e /\ update_row e r = r.
Proof.
  destruct (replayed i l) as (R & _ & T & _). rewrite R, T. unfold replayed_row.
  destruct (decide (k ∈ tombstones i)) as [|Ht]; [by left|]. right. rewrite (bool_decide_eq_false_2 _ Ht).
  destruct (combine k l) as [e|]; [right|by left]. destruct (rows i !! k) as [r|]; eexists _, e; split_and!; try done.
  - by rewrite update_row_app, overlay_self.
  - by rewrite update_new_row, overlay_self.
Qed.

Lemma replay_twice i l : index_ok i -> fold_left replay_entry l (fold_left replay_entry l i) = fold_left replay_entry l i.
Proof.
  intros Hi. pose proof (replay_ok l i Hi) as Hok. pose proof (replay_settles i l) as Hs. revert Hok Hs.
  generalize (fold_left replay_entry l i). intros j Hok Hs. apply (replay_agree j l []); cbn.
  - unfold news. destruct (List.filter (is_new j) (firsts l)) as [|k ks] eqn:E; [done|].
    assert (Hk : k ∈ List.filter (is_new j) (firsts l)) by (rewrite E; by left). rewrite elem_of_filter_bool, elem_of_firsts, is_new_spec in Hk.
    destruct Hk as [[e He] [Hr Ht]]. destruct (Hs k) as [|[|(r & e' & Er & _)]]; [done|congruence|congruence].
  - intros k [Hr Ht]%is_new_spec. destruct (Hs k) as [|[->|(r & e' & Er & _)]]; [done|done|congruence].
  - intros k r Hr. destruct (Hs k) as [Ht%Hok|[->|(r' & e' & Er & -> & Eu)]]; [congruence|done|]. cbn. rewrite Hr in Er. by injection Er as ->.
Qed.

Lemma tombstones_known ks i : (forall k, k ∈ ks -> k ∈ tombstones i) -> apply_tombstones ks i = i.
Proof.
  induction ks as [|t ks IH]; intros Hk; [done|]. change (apply_tombstones (t :: ks) i) with (apply_tombstones ks (replay_tombstone i t)).
  unfold replay_tombstone. rewrite bool_decide_eq_true_2 by (apply Hk; by left). apply IH. intros; apply Hk; by right.
Qed.

Lemma commit_again (kss : list (list HistoryKey)) ess n i : index_ok i ->
  let ts := map T_Tombstones kss ++ map T_Entries ess in
  fold_left commit ts (fold_left commit (take n ts) i) = fold_left commit ts i.
Proof.
  intros Hi ts. subst ts. rewrite take_app, !fold_left_app. rewrite <- !fmap_take, !commit_entries, !commit_tombstones.
  set (f := apply_tombstones (concat (take n kss)) i).
  assert (Hsplit : forall A (l : list (list A)) m, concat l = concat (take m l) ++ concat (drop m l))
    by (intros A l m; by rewrite <- concat_app, take_drop).
  assert (Hall : forall k, k ∈ concat (take n kss) -> k ∈ tombstones f) by (intros k Hk; apply (tombstones_applied (concat (take n kss)) i); by left).
  destruct (Nat.le_gt_cases n (length kss)) as [Hn|Hn].
  - rewrite length_fmap. replace (n - length kss)%nat with O by lia. cbn [take concat fold_left]. f_equal.
    assert (Happ : forall j, apply_tombstones (concat kss) j = apply_tombstones (concat (drop n kss)) (apply_tombstones (concat (take n kss)) j))
      by (intros j; rewrite (Hsplit _ kss n) at 1; apply fold_left_app).
    rewrite !Happ. fold f. change (fold_left replay_entry (concat (take 0 ess)) f) with f. by rewrite (tombstones_known _ f Hall).
  - rewrite length_fmap. set (m := (n - length kss)%nat). unfold f in *. clear f. rewrite (take_ge kss) in * by lia.
    set (f := apply_tombstones (concat kss) i) in *.
    rewrite tombstones_known by (intros k Hk; destruct (replayed f (concat (take m ess))) as (_ & _ & -> & _); by apply Hall).
    rewrite (Hsplit _ ess m), !fold_left_app. f_equal. apply replay_twice. by apply apply_tombstones_ok.
Qed.

(** A pass that stopped after any number of its transactions kept its cache;
    repeated on the same logs, it ends with the index and the cache that it would
    have had without the interruption. *)
Theorem interrupted_retry full floor dir n cache i : index_ok i ->
  let '(i', cache', complete) := replay_logs full floor dir (Some n) cache i in
  complete = false /\ replay_logs full floor dir None cache' i' = replay_logs full floor dir None cache i.
Proof using.
  intros Hi. split; [done|]. unfold replay_logs. cbv zeta. f_equal. f_equal. unfold transactions. by apply commit_again.
Qed.

End Passes.

(** ** Two passes over two logs *)

#[local] Definition shorter (a b : str) : Prop := (length a < length b)%nat.

#[local] Definition first_line : bytes := entry_line (HistoryCodec := braced_history) (sample_entry 1 100) ++ [10].
#[local] Definition second_line : bytes := entry_line (HistoryCodec := braced_history) (sample_entry 2 200) ++ [10].

#[local] Definition logs_before : Dir := [(lit "a", mkLog 1 None first_line)].
#[local] Definition logs_after : Dir :=
  [(lit "a", mkLog 1 None (first_line ++ second_line));
   (lit "bb", mkLog 2 None (tombstone_line (HistoryCodec := braced_history) (1, 100) ++ [10]))].

#[local] Definition two_passes : list Pass := [mkPass false 0 logs_before; mkPass false 50 logs_after].

Lemma two_passes_evolve : evolves shorter 0 [] two_passes.
Proof.
  unfold two_passes. cbn [evolves ps_floor ps_dir]. split_and!; try done; [repeat constructor..|].
  intros p g f Hg Hf. apply file_at_elem in Hg; [|apply (bool_decide_unpack _); by vm_compute].
  apply list_elem_of_singleton in Hg. injection Hg as -> ->.
  change (file_at logs_after (lit "a")) with (Some (mkLog 1 None (first_line ++ second_line))) in Hf. apply (inj Some) in Hf. subst f.
  split; [intros H; apply (f_equal fp_len) in H; by vm_compute in H|]. intros; by apply prefix_app_r.
Qed.

Lemma incremental_is_replay_witness :
  base.size (rows (fold_left (line_by_line (hc := braced_history)) two_passes empty_index)) = 1%nat /\
  snd (fold_left (incremental (hc := braced_history)) two_passes (mkCache ∅ false, empty_index)) =
  fold_left (line_by_line (hc := braced_history)) two_passes empty_index.
Proof.
  split; [by vm_compute|]. apply (incremental_is_replay shorter) with (floor := 0); [unfold shorter; lia|done|exact two_passes_evolve].
Defined.

Lemma interrupted_retry_witness :
  let '(i', cache', complete) := replay_logs (hc := braced_history) false 0 logs_after (Some 1%nat) (mkCache ∅ false) empty_index in
  complete = false /\ replay_logs (hc := braced_history) false 0 logs_after None cache' i' =
    replay_logs (hc := braced_history) false 0 logs_after None (mkCache ∅ false) empty_index.
Proof. exact (interrupted_retry (hc := braced_history) false 0 logs_after 1 (mkCache ∅ false) empty_index ltac:(done)). Defined.
