(* ===== verification/HistoryCursor.v ===== *)
(** * The cursor and what was forgotten

    Whatever is done to the history store, tombstones stay, a row keeps its
    cursor number, and a row that was not there gets a higher one than any before:
    a consumer that asks for what lies above the highest number it has seen misses
    nothing and sees nothing twice. *)

From stdpp Require Import sorting.
From S2P Require Import Prelude RustStr Types Queue JobNames Codec History HistoryDb HistorySync HistoryInv HistoryReplay.

#[local] Unset Default Proof Using.

(** ** Well-formed indices and their growth *)

Record index_wf (i : Index) : Prop := {
  iw_last : 0 <= last_id i;
  iw_row : forall k r, rows i !! k = Some r -> key_of (entry r) = k /\ 1 <= he_seq (entry r) <= last_id i;
  iw_unique : forall k1 k2 r1 r2, rows i !! k1 = Some r1 -> rows i !! k2 = Some r2 -> he_seq (entry r1) = he_seq (entry r2) -> k1 = k2;
  iw_forgotten : index_ok i
}.

(** What a later index has in common with an earlier one. *)
Record grows (i i' : Index) : Prop := {
  gr_forgotten : tombstones i ⊆ tombstones i';
  gr_last : last_id i <= last_id i';
  gr_row : forall k r', rows i' !! k = Some r' ->
    (exists r, rows i !! k = Some r /\ he_seq (entry r) = he_seq (entry r')) \/ last_id i < he_seq (entry r')
}.

#[export] Instance grows_preorder : PreOrder grows.
Proof.
  split.
  - intros i. split; [done|lia|]. intros k r Hr. left. by exists r.
  - intros i j l [T1 L1 R1] [T2 L2 R2]. split; [by etrans|lia|]. intros k r Hr. destruct (R2 k r Hr) as [(r1 & H1 & E1)|]; [|right; lia].
    rewrite <- E1. by apply R1.
Qed.

(** An operation that keeps the one and respects the other. *)
Definition keeps (f : Index -> Index) : Prop := forall i, index_wf i -> index_wf (f i) /\ grows i (f i).

Lemma keeps_id : keeps (fun i => i).
Proof. intros i Hi. by split. Qed.

Lemma keeps_comp f g : keeps f -> keeps g -> keeps (fun i => g (f i)).
Proof. intros Hf Hg i Hi. destruct (Hf i Hi) as [W1 G1], (Hg _ W1) as [W2 G2]. split; [done|by etrans]. Qed.

Lemma keeps_fold {A} (f : Index -> A -> Index) l : (forall a, keeps (fun i => f i a)) -> keeps (fun i => fold_left f l i).
Proof.
  intros Hf. induction l as [|a l IH]; [apply keeps_id|]. intros i Hi. cbn. exact (keeps_comp (fun i => f i a) _ (Hf a) IH i Hi).
Qed.

(** Rows that are changed in place or removed, under the same numbers. *)
Lemma keeps_rows f : (forall i k r', rows (f i) !! k = Some r' -> exists r, rows i !! k = Some r /\ key_of (entry r') = key_of (entry r) /\ he_seq (entry r') = he_seq (entry r)) ->
  (forall i, last_id (f i) = last_id i) -> (forall i, tombstones i ⊆ tombstones (f i)) ->
  (forall i k, k ∈ tombstones (f i) -> k ∈ tombstones i \/ rows (f i) !! k = None) -> keeps f.
Proof.
  intros Hr Hl Ht Hn i [W0 W1 W2 W3]. split; split.
  - by rewrite Hl.
  - intros k r' H. destruct (Hr i k r' H) as (r & H' & E1 & E2). rewrite E1, E2, Hl. by apply W1.
  - intros k1 k2 r1 r2 H1 H2. destruct (Hr i k1 r1 H1) as (r1' & H1' & _ & ->), (Hr i k2 r2 H2) as (r2' & H2' & _ & ->). by apply W2.
  - intros k Hk. destruct (Hn i k Hk) as [Hk'|]; [|done]. destruct (rows (f i) !! k) eqn:E; [|done].
    destruct (Hr _ _ _ E) as (r0 & H & _). by rewrite (W3 k Hk') in H.
  - done.
  - by rewrite Hl.
  - intros k r' H. destruct (Hr i k r' H) as (r & H' & _ & E). left. by exists r.
Qed.

Lemma keeps_alter (g : gmap HistoryKey Row -> gmap HistoryKey Row) :
  (forall m k r', g m !! k = Some r' -> exists r, m !! k = Some r /\ key_of (entry r') = key_of (entry r) /\ he_seq (entry r') = he_seq (entry r)) ->
  keeps (fun i => set_rows (g (rows i)) i).
Proof. intros Hg. apply keeps_rows; try done; [|by auto]. intros i k r'. apply Hg. Qed.

Lemma keeps_keep_rows p : keeps (keep_rows p).
Proof.
  apply (keeps_alter (fun m => filter (fun '(_, r) => p (entry r) = true) m)). intros m k r' [H _]%map_lookup_filter_Some. by exists r'.
Qed.

Lemma keeps_update_job job f : (forall r, key_of (entry (f r)) = key_of (entry r) /\ he_seq (entry (f r)) = he_seq (entry r)) -> keeps (update_job_rows job f).
Proof.
  intros Hf. apply (keeps_alter (fun m => map_imap (fun k r => Some (if fst k =? job then f r else r)) m)). intros m k r'.
  rewrite map_lookup_imap. destruct (m !! k) as [r|]; cbn; [|done]. intros [= <-]. exists r. split; [done|]. by case_if.
Qed.

Lemma keeps_tombstone k : keeps (fun i => replay_tombstone i k).
Proof.
  apply keeps_rows; intros i.
  - intros k' r'. destruct (replay_tombstone_spec k i) as (R & _). rewrite R. destruct (_ && _); [done|]. intros H. by exists r'.
  - by destruct (replay_tombstone_spec k i) as (_ & _ & L & _).
  - intros k' Hk. apply (replay_tombstone_spec k i). by right.
  - intros k' Hk. destruct (replay_tombstone_spec k i) as (R & T & _). apply T in Hk as [->|Hk]; [|by left].
    destruct (decide (k ∈ tombstones i)) as [Hk|Hk]; [by left|right]. rewrite R.
    by rewrite (bool_decide_eq_true_2 (k = k)), (bool_decide_eq_false_2 _ Hk).
Qed.

Lemma keeps_raise v : keeps (meta_raise v).
Proof. apply keeps_rows; try done; [|by left]. intros i k r H. by exists r. Qed.

(** A row under the next number. *)
Lemma keeps_insert i k r n : index_wf i -> k ∉ tombstones i -> key_of (entry r) = k ->
  he_seq (entry r) = last_id i + 1 \/ (exists r0, rows i !! k = Some r0 /\ he_seq (entry r) = he_seq (entry r0)) ->
  last_id i <= n -> he_seq (entry r) <= n ->
  let i' := mkIndex (<[k := r]> (rows i)) n (tombstones i) (retention_floor i) in index_wf i' /\ grows i i'.
Proof.
  intros [W0 W1 W2 W3] Hk Er Hs Hn Hrn i'.
  assert (Hrow : forall k' r', rows i' !! k' = Some r' -> (k' = k /\ r' = r) \/ (k' <> k /\ rows i !! k' = Some r')).
  { intros k' r'. subst i'. cbn. destruct (decide (k' = k)) as [->|Hne]; [rewrite lookup_insert_eq; intros [= <-]; by left|].
    rewrite lookup_insert_ne by done. by right. }
  assert (Hfresh : forall k' r', k' <> k -> rows i !! k' = Some r' -> he_seq (entry r') <> he_seq (entry r)).
  { intros k' r' Hne Hr' E. destruct Hs as [Hs|(r0 & Hr0 & Hs)].
    - destruct (W1 _ _ Hr') as [_ ?]. lia.
    - apply Hne. apply (W2 k' k r' r0); [done|done|congruence]. }
  split; split; cbn.
  - lia.
  - intros k' r' [[-> ->]|[Hne Hr']]%Hrow.
    + split; [done|]. destruct Hs as [Hs|(r0 & Hr0 & Hs)]; [|destruct (W1 _ _ Hr0); lia]. split; lia.
    + destruct (W1 _ _ Hr'). split; [done|lia].
  - intros k1 k2 r1 r2 [[-> ->]|[H1 E1]]%Hrow [[-> ->]|[H2 E2]]%Hrow E; [done| | |by eapply W2].
    + by destruct (Hfresh k2 r2 H2 E2).
    + by destruct (Hfresh k1 r1 H1 E1).
  - intros k' Hk'. cbn. rewrite lookup_insert_ne by (by intros ->). by apply W3.
  - done.
  - done.
  - intros k' r' [[-> ->]|[Hne Hr']]%Hrow; [|left; by exists r']. destruct Hs as [Hs|(r0 & Hr0 & Hs)]; [right; lia|left]. by exists r0.
Qed.

Lemma keeps_replay_entry e : keeps (fun i => replay_entry i e).
Proof.
  intros i Hi. unfold replay_entry. destruct (rows i !! key_of e) as [r|] eqn:Er.
  - assert (Ht : key_of e ∉ tombstones i) by (intros Ht%(iw_forgotten _ Hi); congruence). destruct (iw_row _ Hi _ _ Er) as [Ek Hs].
    apply (keeps_insert i (key_of e) (update_row e r) (last_id i)); try done; [|cbn; lia]. right. by exists r.
  - case_bool_decide as Ht; [by split|]. pose proof (iw_last _ Hi).
    apply (keeps_insert i (key_of e) (new_row (last_id i + 1) e) (last_id i + 1)); try done; [by left|lia].
Qed.

Lemma keeps_insert_seq e : keeps (fun i => fst (fst (insert_seq i e))).
Proof.
  intros i Hi. unfold insert_seq. case_bool_decide as Ht; [by split|]. destruct (rows i !! key_of e) as [r|] eqn:Er; [|by apply keeps_replay_entry].
  destruct (iw_row _ Hi _ _ Er) as [Ek Hs].
  apply (keeps_insert i (key_of e) (update_row e r) (last_id i + 1)); try done; [|lia|cbn; lia]. right. by exists r.
Qed.

Lemma keeps_prune r now : keeps (fun i => fst (prune r now i)).
Proof.
  intros i Hi. unfold prune. case_if; [by split|].
  assert (K : keeps (prune_rows r now)).
  { unfold prune_rows. intros j Hj. case_if; [|by apply keeps_keep_rows].
    destruct (keeps_keep_rows (within_age r now) j Hj) as [W G]. set (j1 := keep_rows (within_age r now) j) in *.
    destruct (keeps_keep_rows (fun e => bool_decide (he_seq e ∈ map he_seq (take (Z.to_nat (keep_max r)) (newest_first (entries j1))))) j1 W) as [W' G'].
    split; [done|by etrans]. }
  destruct (map he_job _); [by apply K|]. destruct (match min_completed _ with Some m => Some m | None => _ end) as [v|]; [|by apply K].
  exact (keeps_comp _ _ K (keeps_raise v) i Hi).
Qed.

Lemma keeps_tombstones ks : keeps (apply_tombstones ks).
Proof. apply (keeps_fold replay_tombstone ks), keeps_tombstone. Qed.

Section Store.
Context {hc : HistoryCodec}.

Lemma keeps_commit t : keeps (fun i => commit i t).
Proof. destruct t as [ks|es]; [apply keeps_tombstones|]. apply keeps_fold, keeps_replay_entry. Qed.

(** ** The operations of the store *)

Inductive HistoryOp :=
  | O_record (fate : Append) (due : bool) (now : Z) (e : HistoryEntry)
  | O_record_durable (logs : list bytes) (fate : Append) (due : bool) (now : Z) (e : HistoryEntry)
  | O_hide (fate : Append) (job : JobId) (by_client : option str) (now : Z)
  | O_restore (fate : Append) (job : JobId)
  | O_delete (fate : Append) (job : JobId)
  | O_prune (now : Z)
  | O_set_retention (r : Retention) (now : Z)
  | O_seen (jobs : list JobId) (client : option str) (now : Z)
  | O_flush_seen (commits : bool)
  | O_replay (full : bool) (floor : Z) (dir : Dir) (stop : option nat) (cache : Cache).

Definition with_pending (p : gmap JobId Seen) (db : HistoryDb) : HistoryDb :=
  mkDb (db_index db) (db_log db) p (db_spool db) (db_retention db) (db_dirty db).

Definition run_op (db : HistoryDb) (op : HistoryOp) : HistoryDb :=
  match op with
  | O_record fate due now e => fst (record_seq fate due now e db)
  | O_record_durable logs fate due now e => fst (record_seq_durable logs fate due now e db)
  | O_hide fate job by_client now => fst (hide fate job by_client now db)
  | O_restore fate job => fst (restore fate job db)
  | O_delete fate job => fst (delete_entry fate job db)
  | O_prune now => fst (prune_db now db)
  | O_set_retention r now => fst (set_retention r now db)
  | O_seen jobs client now => with_pending (fst (mark_seen jobs client now (db_pending db))) db
  | O_flush_seen commits =>
      let '(i, p) := flush_seen commits (db_index db) (db_pending db) in with_pending p (with_index i db)
  | O_replay full floor dir stop cache =>
      let '(i, _, _) := replay_logs full floor dir stop cache (db_index db) in with_index i db
  end.

Definition run_ops (ops : list HistoryOp) (db : HistoryDb) : HistoryDb := fold_left run_op ops db.

(** Each operation acts on the index by something that keeps it. *)
Definition index_by (db db' : HistoryDb) : Prop := index_wf (db_index db) -> index_wf (db_index db') /\ grows (db_index db) (db_index db').

Lemma index_by_keeps f db db' : keeps f -> db_index db' = f (db_index db) -> index_by db db'.
Proof. intros Hf E Hw. rewrite E. by apply Hf. Qed.

Lemma index_by_trans db1 db2 db3 : index_by db1 db2 -> index_by db2 db3 -> index_by db1 db3.
Proof. intros H1 H2 Hw. destruct (H1 Hw) as [W1 G1], (H2 W1) as [W2 G2]. split; [done|by etrans]. Qed.

Lemma prune_db_by now db : index_by db (fst (prune_db now db)).
Proof.
  apply (index_by_keeps _ _ _ (keeps_prune (db_retention db) now)). unfold prune_db. destruct (prune _ _ _) as [i gone]. by destruct gone.
Qed.

Lemma maybe_prune_by due now db : index_by db (maybe_prune due now db).
Proof. unfold maybe_prune. destruct due; [apply prune_db_by|by split]. Qed.

Lemma record_seq_by fate due now e db : index_by db (fst (record_seq fate due now e db)).
Proof.
  pose proof (index_by_keeps _ db (with_index (fst (fst (insert_seq (db_index db) e))) db) (keeps_insert_seq e) eq_refl) as H.
  unfold record_seq. destruct (insert_seq (db_index db) e) as [[i new] seq]. cbn [fst] in H. destruct new; [|eapply index_by_trans, maybe_prune_by; exact H].
  destruct (append_jsonl _ _ _) as [log ok]. destruct ok; cbn [fst]; [|exact H].
  eapply index_by_trans; [|apply maybe_prune_by]. exact H.
Qed.

Lemma keeps_synced k : keeps (fun i => set_rows (alter (fun r => mkRow (entry r) true) k (rows i)) i).
Proof.
  apply (keeps_alter (alter (fun r => mkRow (entry r) true) k)). intros m k' r'.
  destruct (decide (k' = k)) as [->|Hne]; [rewrite lookup_alter_eq|rewrite lookup_alter_ne by done]; [|intros H; by exists r'].
  destruct (m !! k) as [r|]; cbn; [|done]. intros [= <-]. by exists r.
Qed.

Lemma record_seq_durable_by logs fate due now e db : index_by db (fst (record_seq_durable logs fate due now e db)).
Proof.
  unfold record_seq_durable. set (c := default e _).
  assert (H : forall db', db_index db' = db_index db -> index_by db db') by (intros db' E; by apply (index_by_keeps _ _ _ keeps_id)).
  assert (K : index_by db (fst (let '(log, ok) := append_jsonl fate c (db_log db) in
      if ok then let '(i, _, seq) := insert_seq (db_index (with_log log db)) c in
        (maybe_prune due now (with_index (set_rows (alter (fun r => mkRow (entry r) true) (key_of c) (rows i)) i) (with_log log db)), Some (seq, c))
      else (with_db_dirty true (with_log log db), None)))).
  { destruct (append_jsonl fate c (db_log db)) as [log ok]. destruct ok; [|by apply H]. cbn [db_index with_log].
    pose proof (keeps_insert_seq c) as Hk. destruct (insert_seq (db_index db) c) as [[i new] seq] eqn:Ei. cbn [fst].
    eapply index_by_trans; [|apply maybe_prune_by].
    pose proof (keeps_comp _ _ Hk (keeps_synced (key_of c))) as Hs. apply (index_by_keeps _ _ _ Hs). cbn. by rewrite Ei. }
  destruct (rows (db_index db) !! key_of c) as [[row [|]]|]; [by apply H|exact K|exact K].
Qed.

Lemma set_hidden_by fate job hidden by_client removed_at db : index_by db (fst (set_hidden fate job hidden by_client removed_at db)).
Proof.
  apply (index_by_keeps _ _ _ (keeps_update_job job (hide_row hidden by_client removed_at) ltac:(done))). unfold set_hidden.
  destruct (if existsb _ _ then _ else _) as [e|]; [|done]. destruct (append_jsonl _ _ _) as [log ok]. by destruct ok.
Qed.

Lemma delete_by fate job db : index_by db (fst (delete_entry fate job db)).
Proof.
  unfold delete_entry. destruct (append_tombstones _ _ _) as [log ok]. destruct ok; [|by apply (index_by_keeps _ _ _ keeps_id)].
  by apply (index_by_keeps _ _ _ (keeps_tombstones (map key_of (List.filter (fun e => he_job e =? job) (entries (db_index db)))))).
Qed.

Lemma flush_by commits db : index_by db (let '(i, p) := flush_seen commits (db_index db) (db_pending db) in with_pending p (with_index i db)).
Proof.
  unfold flush_seen. destruct commits; [|by apply (index_by_keeps _ _ _ keeps_id)].
  eapply index_by_keeps; [|reflexivity]. apply (keeps_fold (fun i '(job, s) => update_job_rows job (observe s) i)). intros [job s]. by apply keeps_update_job.
Qed.

Lemma replay_by full floor dir stop cache db :
  index_by db (let '(i, _, _) := replay_logs full floor dir stop cache (db_index db) in with_index i db).
Proof.
  unfold replay_logs. destruct stop; (eapply index_by_keeps; [|reflexivity]); (apply (keeps_fold commit); exact keeps_commit).
Qed.

Lemma run_op_by op db : index_by db (run_op db op).
Proof.
  destruct op; cbn [run_op].
  - apply record_seq_by.
  - apply record_seq_durable_by.
  - apply set_hidden_by.
  - apply set_hidden_by.
  - apply delete_by.
  - apply prune_db_by.
  - unfold set_retention. eapply index_by_trans; [|apply prune_db_by]. by apply (index_by_keeps _ _ _ keeps_id).
  - by apply (index_by_keeps _ _ _ keeps_id).
  - apply flush_by.
  - apply replay_by.
Qed.

Lemma run_ops_by ops : forall db, index_by db (run_ops ops db).
Proof.
  induction ops as [|op ops IH]; intros db; [by split|]. cbn. eapply index_by_trans; [apply run_op_by|apply IH].
Qed.

(** C20: Under every sequence of operations of the store (recording, hiding,
    restoring, deleting, trimming, flushing observations, replaying any logs,
    with failing appends and interrupted passes) the index stays well formed: keys
    name their rows, cursor numbers are positive, distinct and not above the
    sequence; tombstones are never lost, and what a tombstone names has no row. *)
Theorem forgotten_stays ops db : index_wf (db_index db) ->
  index_wf (db_index (run_ops ops db)) /\
  forall k, k ∈ tombstones (db_index db) -> k ∈ tombstones (db_index (run_ops ops db)) /\ rows (db_index (run_ops ops db)) !! k = None.
Proof.
  intros Hw. destruct (run_ops_by ops db Hw) as [W G]. split; [done|]. intros k Hk. apply (gr_forgotten _ _ G) in Hk. split; [done|].
  by apply (iw_forgotten _ W).
Qed.

(** ** What a consumer of the cursor sees *)

Lemma entries_elem i e : e ∈ entries i <-> exists k r, rows i !! k = Some r /\ entry r = e.
Proof.
  unfold entries. rewrite list_elem_of_fmap. split.
  - intros ([k r] & -> & Hr%elem_of_map_to_list). by exists k, r.
  - intros (k & r & Hr & <-). exists (k, r). split; [done|]. by apply elem_of_map_to_list.
Qed.

Lemma entries_seqs i : index_wf i -> NoDup (map he_seq (entries i)).
Proof.
  intros Hw. unfold entries. rewrite map_map. apply (NoDup_fmap_2_strong (fun kr : HistoryKey * Row => he_seq ((fun '(_, r) => entry r) kr))); [|apply NoDup_map_to_list].
  intros [k1 r1] [k2 r2] H1%elem_of_map_to_list H2%elem_of_map_to_list E. assert (k1 = k2) as -> by (by eapply (iw_unique _ Hw)). congruence.
Qed.

Lemma sorted_distinct_lt l : sorted_key he_seq l -> NoDup (map he_seq l) -> Sorted.StronglySorted (fun a b => he_seq a < he_seq b) l.
Proof.
  intros Hs Hn. eapply sorted_impl; [|apply (sorted_distinct _ he_seq l Hs Hn)]. cbn. intros x y _ _ [? ?]. lia.
Qed.

(** C21: A consumer that has read up to the last cursor number, and asks again
    after any operations, gets the first [limit], in the order of their numbers, of
    exactly the rows that did not exist then under their number: none is missed,
    none comes twice. *)
Theorem cursor_exact ops db limit : index_wf (db_index db) -> let i := db_index db in let i' := db_index (run_ops ops db) in
  exists new, list_since i' (last_id i) limit = take limit new /\ Sorted.StronglySorted (fun a b => he_seq a < he_seq b) new /\
    forall e, e ∈ new <-> e ∈ entries i' /\ he_seq e ∉ map he_seq (entries i).
Proof.
  intros Hw i i'. destruct (run_ops_by ops db Hw) as [W G]. fold i in Hw, G. fold i' in W, G.
  exists (sort_by_key he_seq (List.filter (fun e => last_id i <? he_seq e) (entries i'))). split_and!; [done| |].
  - apply sorted_distinct_lt; [apply sort_by_key_sorted|]. rewrite sort_by_key_perm. pose proof (entries_seqs i' W) as Hn. revert Hn.
    generalize (entries i'). intros l. induction l as [|x l IH]; [done|]. cbn. intros [Hx Hn]%NoDup_cons. case_if; [|by apply IH]. cbn.
    apply NoDup_cons. split; [|by apply IH]. contradict Hx. apply list_elem_of_fmap in Hx as (y & -> & [Hy _]%elem_of_filter_bool). by apply list_elem_of_fmap_2.
  - intros e. rewrite elem_of_sort_by_key, elem_of_filter_bool, Z.ltb_lt. split; intros [He Hs]; (split; [done|]).
    + intros (e0 & E & (k0 & r0 & H0 & <-)%entries_elem)%list_elem_of_fmap. destruct (iw_row _ Hw _ _ H0). lia.
    + apply entries_elem in He as (k & r & Hr & <-). destruct (gr_row _ _ G k r Hr) as [(r0 & H0 & E)|]; [|done].
      destruct Hs. rewrite <- E. apply list_elem_of_fmap. exists (entry r0). split; [done|]. apply entries_elem. by exists k, r0.
Qed.

End Store.

(** ** A concrete run *)

#[local] Definition run_ops_sample : list (HistoryOp) :=
  [O_record Appended false 0 (sample_entry 1 100); O_record Appended false 0 (sample_entry 2 200); O_delete Appended 1].

#[local] Definition fresh_store : HistoryDb := mkDb empty_index None ∅ ∅ (mkRetention 0 0) false.

Lemma empty_index_wf : index_wf empty_index.
Proof. split; try done; intros k; cbn; intros *; rewrite lookup_empty; done. Qed.

Lemma forgotten_stays_witness : index_wf (db_index fresh_store) /\
  index_wf (db_index (run_ops (hc := braced_history) run_ops_sample fresh_store)) /\
  forall k, k ∈ tombstones (db_index fresh_store) ->
    k ∈ tombstones (db_index (run_ops (hc := braced_history) run_ops_sample fresh_store)) /\
    rows (db_index (run_ops (hc := braced_history) run_ops_sample fresh_store)) !! k = None.
Proof. split; [exact empty_index_wf|]. apply forgotten_stays. exact empty_index_wf. Defined.

Lemma cursor_exact_witness : let i' := db_index (run_ops (hc := braced_history) run_ops_sample fresh_store) in
  exists new, list_since i' (last_id empty_index) 10 = take 10 new /\ Sorted.StronglySorted (fun a b => he_seq a < he_seq b) new /\
    forall e, e ∈ new <-> e ∈ entries i' /\ he_seq e ∉ map he_seq (entries empty_index).
Proof. exact (cursor_exact (hc := braced_history) run_ops_sample fresh_store 10 empty_index_wf). Defined.
