(* ===== verification/HistoryTrim.v ===== *)
(** * Trimming, compaction and torn appends

    What retention keeps, what a compaction of the log leaves to read, and what an
    append that stopped half way does to the mutation after it. *)

From stdpp Require Import sorting.
From S2P Require Import Prelude RustStr Types Queue JobNames Codec History HistoryDb HistorySync HistoryInv HistoryReplay HistoryCursor.

#[local] Unset Default Proof Using.

(** ** The first of a sorted list *)

Lemma take_rank {A} (p : A -> A -> bool) l : (forall a b, p a b = true -> p b a = false) ->
  Sorted.StronglySorted (fun a b => p a b = true) l ->
  forall n x, x ∈ take n l <-> x ∈ l /\ (length (List.filter (fun y => p y x) l) < n)%nat.
Proof.
  intros Ha. induction 1 as [|y l Hl IH Hy]; intros n x.
  - rewrite take_nil. split; [by intros ?%elem_of_nil|by intros [?%elem_of_nil _]].
  - rewrite Forall_forall in Hy. destruct n as [|n]; [split; [by intros ?%elem_of_nil|intros [_ ?]; lia]|].
    cbn [firstn List.filter]. rewrite !elem_of_cons, IH.
    assert (Hyy : p y y = false) by (destruct (p y y) eqn:E; [by rewrite <- E, (Ha _ _ E)|done]).
    assert (Hfirst : List.filter (fun z => p z y) l = []).
    { destruct (List.filter (fun z => p z y) l) as [|z zs] eqn:E; [done|]. assert (Hz : z ∈ List.filter (fun z => p z y) l) by (rewrite E; by left).
      apply elem_of_filter_bool in Hz as [Hz Hp]. by rewrite (Ha _ _ (Hy _ Hz)) in Hp. }
    split.
    + intros [->|[Hx Hn]]; [rewrite Hyy, Hfirst; split; [by left|cbn; lia]|]. rewrite (Hy _ Hx). split; [by right|cbn; lia].
    + intros [[->|Hx] Hn]; [by left|]. right. split; [done|]. rewrite (Hy _ Hx) in Hn. cbn in Hn. lia.
Qed.

(** ** Retention *)

(** The order of pages, strictly. *)
Definition newer (a b : HistoryEntry) : bool :=
  (he_completed_at_unix b <? he_completed_at_unix a)
  || ((he_completed_at_unix a =? he_completed_at_unix b) && (he_seq b <? he_seq a)).

Lemma newer_spec a b : newer a b = true <-> he_completed_at_unix b < he_completed_at_unix a \/
  (he_completed_at_unix a = he_completed_at_unix b /\ he_seq b < he_seq a).
Proof. unfold newer. by rewrite orb_true_iff, andb_true_iff, !Z.ltb_lt, Z.eqb_eq. Qed.

Lemma newer_leb_spec a b : Is_true (newer_leb a b) <-> he_completed_at_unix b < he_completed_at_unix a \/
  (he_completed_at_unix a = he_completed_at_unix b /\ he_seq b <= he_seq a).
Proof. rewrite Is_true_true. unfold newer_leb. by rewrite orb_true_iff, andb_true_iff, Z.ltb_lt, Z.leb_le, Z.eqb_eq. Qed.

#[local] Instance newer_total : Total (fun a b => Is_true (newer_leb a b)).
Proof. intros a b. rewrite !newer_leb_spec. lia. Qed.

#[local] Instance newer_trans : Transitive (fun a b => Is_true (newer_leb a b)).
Proof. intros a b c. rewrite !newer_leb_spec. lia. Qed.

Lemma newest_first_perm l : newest_first l ≡ₚ l.
Proof. apply merge_sort_Permutation. Qed.

Lemma newest_first_sorted l : NoDup (map he_seq l) -> Sorted.StronglySorted (fun a b => newer a b = true) (newest_first l).
Proof.
  intros Hn. eapply sorted_impl; [|apply (sorted_distinct (fun a b => Is_true (newer_leb a b)) he_seq)].
  - intros a b _ _ [H%newer_leb_spec ?]. apply newer_spec. lia.
  - apply StronglySorted_merge_sort; apply _.
  - by rewrite newest_first_perm.
Qed.

Lemma filter_count {A} (p : A -> bool) l l' : l ≡ₚ l' -> length (List.filter p l) = length (List.filter p l').
Proof. induction 1; cbn; repeat case_if; cbn; congruence. Qed.

Lemma kept_elem n l e : NoDup (map he_seq l) -> e ∈ take n (newest_first l) <-> e ∈ l /\ (length (List.filter (fun y => newer y e) l) < n)%nat.
Proof.
  intros Hn. rewrite (take_rank newer); [|intros a b H%newer_spec; apply not_true_iff_false; rewrite newer_spec; lia|by apply newest_first_sorted].
  rewrite (filter_count (fun y => newer y e) _ _ (newest_first_perm l)). by rewrite newest_first_perm.
Qed.

Lemma keep_rows_at p i k r : rows (keep_rows p i) !! k = Some r <-> rows i !! k = Some r /\ p (entry r) = true.
Proof. unfold keep_rows. cbn. rewrite map_lookup_filter_Some. done. Qed.

Lemma entries_keep_rows p i : index_wf i -> entries (keep_rows p i) ≡ₚ List.filter p (entries i).
Proof.
  intros Hw. destruct (keeps_keep_rows p i Hw) as [Hw' _]. apply NoDup_Permutation.
  - eapply NoDup_fmap_1. by apply (entries_seqs _ Hw').
  - apply NoDup_ListNoDup, List.NoDup_filter, NoDup_ListNoDup. eapply NoDup_fmap_1. by apply (entries_seqs _ Hw).
  - intros e. rewrite elem_of_filter_bool, !entries_elem. setoid_rewrite keep_rows_at. naive_solver.
Qed.

Lemma entries_same_key i k r e : index_wf i -> rows i !! k = Some r -> e ∈ entries i -> key_of e = k -> e = entry r.
Proof. intros Hw Hr (k' & r' & Hr' & <-)%entries_elem E. destruct (iw_row _ Hw _ _ Hr') as [E' _]. congruence. Qed.

(** Within the age and among the newest. *)
Definition retained (r : Retention) (now : Z) (l : list HistoryEntry) (e : HistoryEntry) : Prop :=
  within_age r now e = true /\
  (0 < keep_max r -> Z.of_nat (length (List.filter (fun y => newer y e) (List.filter (within_age r now) l))) < keep_max r).

Lemma prune_rows_at r now i k row : index_wf i ->
  rows (prune_rows r now i) !! k = Some row <-> rows i !! k = Some row /\ retained r now (entries i) (entry row).
Proof.
  intros Hw. unfold prune_rows, retained. destruct (keeps_keep_rows (within_age r now) i Hw) as [Hw1 _].
  pose proof (entries_keep_rows (within_age r now) i Hw) as Hp. set (i1 := keep_rows (within_age r now) i) in *. case_if; bool_hyps.
  - rewrite keep_rows_at, bool_decide_eq_true. subst i1. rewrite keep_rows_at. set (i1 := keep_rows (within_age r now) i) in *.
    assert (E : forall e, e ∈ entries i1 -> he_seq e ∈ map he_seq (take (Z.to_nat (keep_max r)) (newest_first (entries i1))) <->
      Z.of_nat (length (List.filter (fun y => newer y e) (List.filter (within_age r now) (entries i)))) < keep_max r).
    { intros e He. rewrite <- (filter_count _ _ _ Hp). split.
      - intros (e' & Es & He')%list_elem_of_fmap. apply kept_elem in He' as [He' Hn]; [|by apply entries_seqs].
        assert (e' = e) as ->; [|lia]. apply entries_elem in He as (k1 & r1 & H1 & <-). apply entries_elem in He' as (k2 & r2 & H2 & <-).
        assert (k1 = k2) as -> by (by eapply (iw_unique _ Hw1)). congruence.
      - intros Hn. apply list_elem_of_fmap_2, kept_elem; [by apply entries_seqs|]. split; [done|lia]. }
    split.
    + intros [[Hr Ha] Hk]. split; [done|]. split; [done|]. intros _. apply E; [|done]. apply entries_elem. exists k, row. split; [by apply keep_rows_at|done].
    + intros [Hr [Ha Hk]]. split; [done|]. apply E; [|by apply Hk]. apply entries_elem. exists k, row. split; [by apply keep_rows_at|done].
  - subst i1. rewrite keep_rows_at. split; [intros [? ?]; split; [done|]; split; [done|lia]|naive_solver].
Qed.

Lemma min_completed_spec l : match min_completed l with
  | Some m => (exists e, e ∈ l /\ he_completed_at_unix e = m) /\ forall e, e ∈ l -> m <= he_completed_at_unix e
  | None => l = []
  end.
Proof.
  unfold min_completed. destruct l as [|x l]; [done|]. cbn [map].
  assert (H : forall l m, let m' := fold_left Z.min (map he_completed_at_unix l) m in
    m' <= m /\ (forall e, e ∈ l -> m' <= he_completed_at_unix e) /\ (m' = m \/ exists e, e ∈ l /\ he_completed_at_unix e = m')).
  { clear. induction l as [|y l IH]; intros m; cbn; [split_and!; [lia|by intros e ?%elem_of_nil|by left]|].
    destruct (IH (Z.min m (he_completed_at_unix y))) as (H1 & H2 & H3). split_and!; [lia| |].
    - intros e [->|He]%elem_of_cons; [lia|by apply H2].
    - destruct H3 as [H3|(e & He & E)]; [|right; exists e; split; [by right|done]].
      destruct (Z.min_spec m (he_completed_at_unix y)) as [[_ E]|[_ E]]; [left; lia|right]. exists y. split; [by left|lia]. }
  destruct (H l (he_completed_at_unix x)) as (H1 & H2 & H3). split.
  - destruct H3 as [->|(e & He & E)]; [by exists x; split; [left|]|exists e; split; [by right|done]].
  - intros e [->|He]%elem_of_cons; [done|by apply H2].
Qed.

Lemma filter_le {A} (p q : A -> bool) l : (forall x, p x = true -> q x = true) -> (length (List.filter p l) <= length (List.filter q l))%nat.
Proof. intros H. induction l as [|x l IH]; cbn; [done|]. destruct (p x) eqn:E; [rewrite (H _ E); cbn; lia|]. destruct (q x); cbn; lia. Qed.

Lemma retained_first r now l e : 0 < keep_max r -> NoDup (map he_seq l) -> e ∈ l -> within_age r now e = true -> exists s, s ∈ l /\ retained r now l s.
Proof.
  intros Hm Hn He Ha. set (l' := List.filter (within_age r now) l).
  assert (He' : e ∈ l') by by apply elem_of_filter_bool.
  assert (Hn' : NoDup (map he_seq l')).
  { subst l'. clear -Hn. induction l as [|x l IH]; [done|]. cbn in Hn. apply NoDup_cons in Hn as [Hx Hn]. cbn. case_if; [|by apply IH]. cbn.
    apply NoDup_cons. split; [|by apply IH]. contradict Hx. apply list_elem_of_fmap in Hx as (y & -> & [Hy _]%elem_of_filter_bool). by apply list_elem_of_fmap_2. }
  destruct (newest_first l') as [|s rest] eqn:Es; [pose proof (newest_first_perm l') as P; rewrite Es in P; apply Permutation_nil in P; rewrite P in He'; by apply elem_of_nil in He'|].
  assert (Hs : s ∈ take 1 (newest_first l')) by (rewrite Es; by left). apply kept_elem in Hs as [Hs Hr]; [|done].
  apply elem_of_filter_bool in Hs as [Hs Hw]. exists s. split; [done|]. split; [done|]. intros _. fold l'. lia.
Qed.

Lemma retained_newer r now l e s : retained r now l s -> within_age r now e = true -> ~ retained r now l e ->
  he_completed_at_unix e <= he_completed_at_unix s.
Proof.
  intros [_ Hs] Ha He. destruct (Z.le_gt_cases (he_completed_at_unix e) (he_completed_at_unix s)) as [|Hlt]; [done|].
  destruct He. split; [done|]. intros Hm. specialize (Hs Hm). eapply Z.le_lt_trans; [|exact Hs]. apply inj_le, filter_le.
  intros y. rewrite !newer_spec. lia.
Qed.

Definition removed (i i' : Index) (e : HistoryEntry) : Prop := e ∈ entries i /\ rows i' !! key_of e = None.

Lemma removed_bound r now i e : index_wf i -> 0 <= keep_max r -> 0 <= keep_days r -> is_unlimited r = false ->
  let i' := prune_rows r now i in removed i i' e ->
  exists f, match min_completed (entries i') with Some m => Some m | None => age_cutoff r now end = Some f /\ he_completed_at_unix e <= f.
Proof.
  intros Hw Hm Hd Hu i' [He Hr].
  assert (Hne : ~ retained r now (entries i) e).
  { intros Hret. apply entries_elem in He as (k & row & Hrow & <-). destruct (iw_row _ Hw _ _ Hrow) as [Hk _]. rewrite Hk in Hr.
    assert (H : rows i' !! k = Some row) by (by apply prune_rows_at). congruence. }
  assert (Hsurv : forall s, s ∈ entries i' <-> s ∈ entries i /\ retained r now (entries i) s).
  { intros s. rewrite !entries_elem. split; [intros (k & row & H & <-); apply prune_rows_at in H; naive_solver|].
    intros [(k & row & H & <-) Hret]. exists k, row. split; [by apply prune_rows_at|done]. }
  pose proof (min_completed_spec (entries i')) as Hmin. destruct (within_age r now e) eqn:Ea.
  - assert (Hkm : 0 < keep_max r).
    { destruct (Z.lt_ge_cases 0 (keep_max r)) as [|H0]; [done|]. destruct Hne. split; [done|lia]. }
    destruct (min_completed (entries i')) as [m|].
    + destruct Hmin as [(s & Hs & <-) _]. eexists. split; [done|]. apply Hsurv in Hs as [_ Hs]. by eapply retained_newer.
    + destruct (retained_first r now (entries i) e Hkm (entries_seqs i Hw) He Ea) as (s & Hs & Hret).
      assert (H : s ∈ entries i') by by apply Hsurv. rewrite Hmin in H. by apply elem_of_nil in H.
  - unfold within_age in Ea. destruct (age_cutoff r now) as [c|] eqn:Ec; [|done]. bool_hyps.
    destruct (min_completed (entries i')) as [m|]; eexists; (split; [done|]); [|lia].
    destruct Hmin as [(s & Hs & <-) _]. apply Hsurv in Hs as [_ [Hs _]]. unfold within_age in Hs. rewrite Ec in Hs. bool_hyps. lia.
Qed.

(** C22: A trim keeps exactly the rows that are young enough and among the newest
    allowed number of those (all of them when retention is unlimited), reports the
    jobs of the others, and leaves a floor that no removed row exceeds, so that an
    old line of a peer cannot bring a row back unless it ties with the oldest that
    stayed. *)
Theorem retention_exact r now i : index_wf i -> 0 <= keep_max r -> 0 <= keep_days r -> let '(i', gone) := prune r now i in
  (forall k row, rows i' !! k = Some row <-> rows i !! k = Some row /\ (is_unlimited r = true \/ retained r now (entries i) (entry row))) /\
  (forall job, job ∈ gone <-> exists e, removed i i' e /\ he_job e = job) /\
  (forall e, removed i i' e -> exists f, retention_floor i' = Some f /\ he_completed_at_unix e <= f).
Proof.
  intros Hw Hm Hd. unfold prune. destruct (is_unlimited r) eqn:Eu.
  { assert (Hno : forall e, ~ removed i i e).
    { intros e [(k & row & Hr & <-)%entries_elem Hn]. destruct (iw_row _ Hw _ _ Hr) as [E _]. rewrite E in Hn. congruence. }
    split_and!; [tauto| |by intros e ?%Hno]. intros job. rewrite elem_of_nil. split; [done|]. by intros (e & ?%Hno & _). }
  set (i1 := prune_rows r now i). set (gone := map he_job _).
  assert (Hgone : forall job, job ∈ gone <-> exists e, removed i i1 e /\ he_job e = job).
  { intros job. subst gone. rewrite list_elem_of_fmap. setoid_rewrite elem_of_filter_bool. split.
    - intros (e & -> & He & Hn). exists e. split; [|done]. split; [done|]. bool_hyps. by apply eq_None_not_Some.
    - intros (e & [He Hn] & <-). exists e. split_and!; [done..|]. apply negb_true_iff, bool_decide_eq_false. by rewrite Hn; intros []. }
  assert (Hrows : forall k row, rows i1 !! k = Some row <-> rows i !! k = Some row /\ (false = true \/ retained r now (entries i) (entry row))).
  { intros k row. pose proof (prune_rows_at r now i k row Hw) as H. fold i1 in H. rewrite H. split; [by intros [H1 H2]; auto|by intros [H1 [|H2]]]. }
  assert (Hbound := fun e => removed_bound r now i e Hw Hm Hd Eu). cbv zeta in Hbound. fold i1 in Hbound.
  assert (Hnone : gone = [] -> forall e, ~ removed i i1 e).
  { intros Eg e He. assert (H : he_job e ∈ gone) by (apply Hgone; by exists e). rewrite Eg in H. by apply elem_of_nil in H. }
  clearbody gone. destruct gone as [|j js]; [split_and!; [done|done|]; intros e He; by destruct (Hnone eq_refl e)|].
  destruct (match min_completed (entries i1) with Some m => Some m | None => age_cutoff r now end) as [f|] eqn:Ef.
  - split_and!; [exact Hrows|exact Hgone|]. intros e He. destruct (Hbound e He) as (f' & [= <-] & Hle). unfold meta_raise. cbn.
    eexists. split; [done|]. destruct (retention_floor i1); lia.
  - split_and!; [exact Hrows|exact Hgone|]. intros e He. by destruct (Hbound e He) as (f' & ? & _).
Qed.

(** ** Compaction *)

Section Logs.
Context {hc : HistoryCodec}.

(** A log of complete lines. *)
Definition of_lines (ls : list bytes) : bytes := concat (map (fun l => l ++ [10]) ls).

Definition is_line (l : bytes) : Prop := l <> [] /\ Forall (fun c => c <> 10) l.

Lemma read_line l rest : Forall (fun c => c <> 10) l -> forall start acc,
  map snd (fst (read_lines start acc (l ++ 10 :: rest))) = (rev acc ++ l) :: map snd (fst (read_lines (start + length acc + length l + 1) [] rest)).
Proof.
  induction 1 as [|c l Hc Hl IH]; intros start acc; cbn [app read_lines].
  - rewrite Z.eqb_refl, app_nil_r. cbn [length]. rewrite Nat.add_0_r. by destruct (read_lines _ [] rest).
  - rewrite (proj2 (Z.eqb_neq c 10) Hc), IH. cbn [rev length]. rewrite <- app_assoc. cbn. do 5 f_equal. lia.
Qed.

Lemma read_of_lines ls : Forall is_line ls -> forall start, map snd (fst (read_lines start [] (of_lines ls))) = ls.
Proof.
  induction 1 as [|l ls [_ Hl] Hls IH]; intros start; [done|]. unfold of_lines. cbn [map concat]. rewrite <- app_assoc. cbn [app].
  rewrite read_line by done. cbn [rev app]. f_equal. apply IH.
Qed.

Lemma pieces_of_lines ls : Forall is_line ls -> log_pieces (of_lines ls) = ls.
Proof.
  unfold log_pieces. induction 1 as [|l ls [Hne Hl] Hls IH]; [done|]. unfold of_lines. cbn [map concat]. rewrite <- app_assoc. cbn [app].
  rewrite split_chars_app; [|eapply Forall_impl; [exact Hl|]; intros c Hc; by apply Z.eqb_neq|done]. cbn [List.filter].
  rewrite bool_decide_eq_false_2 by done. cbn [negb]. f_equal. exact IH.
Qed.

(** What a replay reads from lines about a key, and which keys they forget. *)
Definition said_of (floor : Z) (tombs : list HistoryKey) (k : HistoryKey) (ls : list bytes) : option HistoryEntry :=
  combine k (omap (line_entry floor tombs) (map scan_line ls)).

Definition forgets (ls : list bytes) (t : HistoryKey) : Prop := exists l, l ∈ ls /\ scan_line l = L_Tombstone t.

(** A line that compaction drops is an entry of a key that is not live. *)
Lemma dropped_line live l : line_stays live l = false ->
  (forall t, scan_line l <> L_Tombstone t) /\ forall e, scan_line l = L_Entry e -> live (key_of e) = false.
Proof.
  unfold line_stays, log_line, scan_line. intros H. destruct (tombstone_of l) as [t|] eqn:Et; [done|]. destruct (entry_of l) as [e|] eqn:Ee; [|done].
  destruct (says_tombstone l); split; try done. by intros e' [= <-].
Qed.

Lemma said_stays floor tombs live k ls : live k = true -> said_of floor tombs k (List.filter (line_stays live) ls) = said_of floor tombs k ls.
Proof.
  intros Hk. unfold said_of. induction ls as [|l ls IH] using rev_ind; [done|].
  rewrite List.filter_app, !map_app, !omap_app. cbn [List.filter map]. destruct (line_stays live l) eqn:El.
  - cbn [map]. unfold combine in *. rewrite !fold_left_app, IH. done.
  - destruct (dropped_line live l El) as [Ht He]. cbn [map omap list_omap]. rewrite app_nil_r, IH. destruct (scan_line l) as [t|e|]; cbn;
      [by destruct (Ht t)| |by rewrite app_nil_r]. specialize (He e eq_refl). case_if; [|by rewrite app_nil_r].
    rewrite combine_snoc. unfold combine_step. rewrite bool_decide_eq_false_2; [done|]. intros E. congruence.
Qed.

(** Compacting a log of complete lines leaves a log of complete lines that
    says the same about every key with a row (its first payload and all later
    values) and forgets the same keys; it counts what it dropped, and changes
    nothing when nothing is to drop. *)
Theorem compaction_neutral i ls : Forall is_line ls ->
  exists ls', fst (compact_jsonl i (Some (of_lines ls))) = Some (of_lines ls') /\ map snd (lines_of (mkLog 0 None (of_lines ls'))) = ls' /\
    snd (compact_jsonl i (Some (of_lines ls))) = Z.of_nat (length ls) - Z.of_nat (length ls') /\
    (forall floor tombs k, is_Some (rows i !! k) -> said_of floor tombs k ls' = said_of floor tombs k ls) /\
    (forall t, forgets ls' t <-> forgets ls t).
Proof.
  intros Hls. set (live k := bool_decide (is_Some (rows i !! k))). exists (List.filter (line_stays live) ls).
  assert (Hlen : Z.of_nat (length (List.filter (fun l => negb (line_stays live l)) ls)) = Z.of_nat (length ls) - Z.of_nat (length (List.filter (line_stays live) ls))).
  { clear. induction ls as [|l ls IH]; [done|]. cbn. destruct (line_stays live l); cbn; lia. }
  assert (Hkeep : Z.of_nat (length (List.filter (fun l => negb (line_stays live l)) ls)) = 0 -> List.filter (line_stays live) ls = ls).
  { clear. induction ls as [|l ls IH]; [done|]. cbn. destruct (line_stays live l); cbn; intros H; [f_equal; by apply IH|lia]. }
  assert (Hf : Forall is_line (List.filter (line_stays live) ls)).
  { rewrite Forall_forall in *. intros l [Hl _]%elem_of_filter_bool. by apply Hls. }
  unfold compact_jsonl. rewrite pieces_of_lines by done. fold live. split_and!.
  - case_if; bool_hyps; cbn; [by rewrite Hkeep|done].
  - by apply read_of_lines.
  - case_if; bool_hyps; cbn; lia.
  - intros floor tombs k Hk. apply said_stays. by apply bool_decide_eq_true.
  - intros t. unfold forgets. setoid_rewrite elem_of_filter_bool. split; [naive_solver|]. intros (l & Hl & Et). exists l. split_and!; try done.
    destruct (line_stays live l) eqn:E; [done|]. by destruct (proj1 (dropped_line live l E) t).
Qed.

(** ** A torn append *)

Lemma scan_entry e : scan_line (entry_line e) = L_Entry e.
Proof. unfold scan_line. by rewrite entry_untagged, entry_of_line. Qed.

Lemma entry_is_line e : is_line (entry_line e).
Proof. split; [apply entry_nonempty|apply entry_one_line]. Qed.

(** A store with one row, after the deletion was refused and repeated. *)
Lemma deleted_twice e r n log : entry r = e -> let k := key_of e in
  let db := mkDb (mkIndex {[ k := r ]} 1 ∅ None) (Some log) ∅ ∅ (mkRetention 0 0) false in
  let '(db1, refused) := delete_entry (AppendFails n) (he_job e) db in
  let '(db2, deleted) := delete_entry Appended (he_job e) db1 in
  refused = None /\ deleted = Some true /\ rows (db_index db2) !! k = None /\
  db_log db2 = Some ((log ++ take n (tombstone_line k ++ [10])) ++ tombstone_line k ++ [10]).
Proof.
  intros <- k db. unfold delete_entry.
  assert (E : map key_of (List.filter (fun e0 => he_job e0 =? he_job (entry r)) (entries (db_index db))) = [k]).
  { unfold entries. cbn [db_index db rows]. rewrite map_to_list_singleton. cbn. by rewrite Z.eqb_refl. }
  rewrite E. cbn [append_tombstones append map concat]. rewrite app_nil_r. cbn [db_index with_log with_db_dirty]. rewrite E.
  cbn [append_tombstones append map concat]. rewrite app_nil_r. split_and!; try done.
  destruct (tombstones_applied [k] (db_index db)) as (R & _). cbn [db_index with_spool with_index]. rewrite R.
  rewrite bool_decide_eq_true_2 by (by left). done.
Qed.

(** C23: A deletion whose append stopped inside the tombstone is refused, but its
    bytes stay in the log; the retry succeeds and reports it, yet its tombstone
    continues the torn line and is not readable: an index that is rebuilt from the
    log has the deleted entry again. *)
Theorem torn_delete_resurrects e r n : 0 <= he_completed_at_unix e -> entry r = e ->
  scan_line (take n (tombstone_line (key_of e) ++ [10]) ++ tombstone_line (key_of e)) = L_Unknown -> (n <= length (tombstone_line (key_of e)))%nat ->
  let db := mkDb (mkIndex {[ key_of e := r ]} 1 ∅ None) (Some (of_lines [entry_line (portable e)])) ∅ ∅ (mkRetention 0 0) false in
  let '(db1, refused) := delete_entry (AppendFails n) (he_job e) db in
  let '(db2, deleted) := delete_entry Appended (he_job e) db1 in
  refused = None /\ deleted = Some true /\ rows (db_index db2) !! key_of e = None /\
  rows (reference_replay 0 [([], mkLog 0 None (default [] (db_log db2)))] empty_index) !! key_of e = Some (new_row 1 (portable e)).
Proof.
  intros He Hr Hu Hn db. set (k := key_of e) in *.
  pose proof (deleted_twice e r n (of_lines [entry_line (portable e)]) Hr) as H. cbv zeta in H. fold k db in H.
  destruct (delete_entry (AppendFails n) (he_job e) db) as [db1 refused]. destruct (delete_entry Appended (he_job e) db1) as [db2 deleted].
  destruct H as (H1 & H2 & H3 & ->). split_and!; [done..|]. cbn [default].
  assert (Hl : Forall (fun c => c <> 10) (take n (tombstone_line k ++ [10]) ++ tombstone_line k)).
  { apply Forall_app. split; [|apply tombstone_one_line]. rewrite take_app_le by done. apply Forall_take, tombstone_one_line. }
  replace (_ ++ _) with (of_lines [entry_line (portable e); take n (tombstone_line k ++ [10]) ++ tombstone_line k])
    by (unfold of_lines; cbn [map concat]; rewrite !app_nil_r; by rewrite <- !app_assoc).
  assert (Ha : all_lines [([], mkLog 0 None (of_lines [entry_line (portable e); take n (tombstone_line k ++ [10]) ++ tombstone_line k]))]
    = [L_Entry (portable e); L_Unknown]).
  { unfold all_lines. cbn [map concat]. rewrite app_nil_r. rewrite <- (map_map snd scan_line). unfold lines_of. cbn [lf_bytes].
    rewrite read_of_lines; [cbn [map]; by rewrite scan_entry, Hu|]. constructor; [apply entry_is_line|]. constructor; [|constructor]. split; [|done].
    intros [_ ?]%app_nil. by apply (tombstone_nonempty k). }
  unfold id, reference_replay. rewrite Ha. cbn [omap list_omap line_tombstone line_entry apply_tombstones fold_left].
  rewrite (proj2 (Z.leb_le 0 (he_completed_at_unix (portable e)))) by done. rewrite bool_decide_eq_false_2 by apply not_elem_of_nil. cbn [andb negb omap list_omap fold_left].
  unfold replay_entry. change (key_of (portable e)) with k. cbn [rows empty_index tombstones]. rewrite lookup_empty, bool_decide_eq_false_2 by set_solver.
  cbn [rows last_id]. apply lookup_insert_eq.
Qed.

End Logs.

(** ** Concrete stores *)

#[local] Definition sample_row (job completed seq : Z) : HistoryKey * Row :=
  ((job, completed), mkRow (set_observed None None 0 seq (sample_entry job completed)) false).

#[local] Definition three_rows : Index := mkIndex (list_to_map [sample_row 1 100 1; sample_row 2 200 2; sample_row 3 300 3]) 3 ∅ None.

Lemma three_rows_wf : index_wf three_rows.
Proof.
  assert (H : forall k r, rows three_rows !! k = Some r -> (k, r) ∈ [sample_row 1 100 1; sample_row 2 200 2; sample_row 3 300 3]).
  { intros k r Hr. apply elem_of_list_to_map; [|done]. apply (bool_decide_unpack _). by vm_compute. }
  split; [done| | |done].
  - intros k r Hr%H. rewrite !elem_of_cons, elem_of_nil in Hr. destruct Hr as [[= -> ->]|[[= -> ->]|[[= -> ->]|[]]]]; split; try done; cbn; lia.
  - intros k1 k2 r1 r2 H1%H H2%H. rewrite !elem_of_cons, elem_of_nil in H1, H2.
    destruct H1 as [[= -> ->]|[[= -> ->]|[[= -> ->]|[]]]], H2 as [[= -> ->]|[[= -> ->]|[[= -> ->]|[]]]]; done.
Qed.

Lemma retention_exact_witness : let '(i', gone) := prune (mkRetention 2 1) 86500 three_rows in
  (forall k row, rows i' !! k = Some row <-> rows three_rows !! k = Some row /\ (is_unlimited (mkRetention 2 1) = true \/ retained (mkRetention 2 1) 86500 (entries three_rows) (entry row))) /\
  (forall job, job ∈ gone <-> exists e, removed three_rows i' e /\ he_job e = job) /\
  (forall e, removed three_rows i' e -> exists f, retention_floor i' = Some f /\ he_completed_at_unix e <= f).
Proof. apply retention_exact; [exact three_rows_wf|done|done]. Defined.

Lemma compaction_neutral_witness : exists ls', let ls := [entry_line (HistoryCodec := braced_history) (sample_entry 1 100); entry_line (HistoryCodec := braced_history) (sample_entry 9 900)] in
  fst (compact_jsonl (hc := braced_history) three_rows (Some (of_lines ls))) = Some (of_lines ls') /\
  map snd (lines_of (mkLog 0 None (of_lines ls'))) = ls' /\
  snd (compact_jsonl (hc := braced_history) three_rows (Some (of_lines ls))) = Z.of_nat (length ls) - Z.of_nat (length ls') /\
  (forall floor tombs k, is_Some (rows three_rows !! k) -> said_of (hc := braced_history) floor tombs k ls' = said_of (hc := braced_history) floor tombs k ls) /\
  (forall t, forgets (hc := braced_history) ls' t <-> forgets (hc := braced_history) ls t).
Proof. apply compaction_neutral. constructor; [apply entry_is_line|]. constructor; [apply entry_is_line|constructor]. Defined.

Lemma torn_delete_resurrects_witness :
  let e := sample_entry 1 100 in
  let db := mkDb (mkIndex {[ key_of e := mkRow e false ]} 1 ∅ None) (Some (of_lines [entry_line (HistoryCodec := braced_history) (portable e)])) ∅ ∅ (mkRetention 0 0) false in
  let '(db1, refused) := delete_entry (hc := braced_history) (AppendFails 3) (he_job e) db in
  let '(db2, deleted) := delete_entry (hc := braced_history) Appended (he_job e) db1 in
  refused = None /\ deleted = Some true /\ rows (db_index db2) !! key_of e = None /\
  rows (reference_replay (hc := braced_history) 0 [([], mkLog 0 None (default [] (db_log db2)))] empty_index) !! key_of e = Some (new_row 1 (portable e)).
Proof. apply (torn_delete_resurrects (hc := braced_history)); [done|done|by vm_compute|by apply Nat.leb_le]. Defined.
