(* ===== verification/PostOps.v ===== *)
(** * Programs that act on the outside ([crates/nzbd-post])

    The post-processor is a sequence of calls on the engine, on external tools and
    on the file inventory, and of operations on the tree of the job's files.  A
    program is the tree of its continuations; what is called answers as it likes,
    and a tool may leave any tree behind.  [exec] are the runs, which may stop
    anywhere (a cancelled attempt, a crash, a panic); [all_runs] reasons about all of
    them at once. *)

From S2P Require Import Prelude RustStr Types Tree Par2 History.

#[local] Unset Default Proof Using.

(** ** What is called *)

Inductive PostError := ToolMissing (what : str) | Subprocess (what : str) | IoError (what : str).

Record ToolOutput := mkToolOutput { to_code : Z; to_stdout : str; to_stderr : str }.

(** A script's exit code and its output lines. *)
Record ScriptRun := mkScriptRun { sr_code : Z; sr_lines : list str }.

Inductive ScriptReceiptDecision := Run | AlreadyDone | Ambiguous.

(** What the inventory of payloads says of one, and of an operation on it. *)
Record Artifact := mkArtifact { art_id : str; art_path : path; art_state : str; art_revision : Z }.
Record ArtifactOp := mkArtifactOp { ao_id : str; ao_state : str }.

Record PpFinished := mkPpFinished {
  ppf_job : JobId; ppf_name : str; ppf_category : option str; ppf_status : str; ppf_final_dir : option str;
  ppf_size : Z; ppf_health : Z; ppf_params : list (str * str); ppf_history_seq : Z
}.

Inductive Op : Type -> Type :=
| O_Now : Op Z
(* the engine; [None] where it is gone *)
| O_SetPostQueued (job : JobId) : Op (option bool)
| O_Export (job : JobId) : Op (option (option Job))
| O_EnterStage (job : JobId) (s : PostStage) (at_unix : Z) (prev_ms : option Z) : Op unit
| O_CloseStage (job : JobId) (at_unix : Z) (ms : option Z) : Op unit
| O_StageEvent (job : JobId) (s : PostStage) : Op unit
| O_StageElapsed : Op Z
| O_Unpause (job : JobId) (needed : Z) (block : option Z) : Op Z
| O_Polls : Op nat
| O_Import (j : Job) : Op unit
| O_ImportIfPresent (j : Job) : Op (option bool)
| O_OutOfSpace (what : str) : Op unit
| O_Finished (f : PpFinished) : Op unit
(* the lease, the claim *)
| O_CommitOk : Op bool
| O_Claim : Op bool
(* the manager's memory of spent disposition attempts; what the disk holds *)
| O_Debounced (job : JobId) : Op bool
| O_SpentAttempt (job : JobId) : Op unit
| O_TryExists (p : path) : Op (option bool)
(* tools and scripts *)
| O_RunTool (cmd : str) (args : list str) (cwd : path) : Op (result ToolOutput PostError)
| O_Discover (scripts_dir : path) : Op (list path)
| O_RunScript (script cwd : path) (env : list (str * str)) : Op (result ScriptRun PostError)
| O_ReceiptBegin (script : str) : Op (option ScriptReceiptDecision)
| O_ReceiptFinish (script : str) : Op (option ScriptReceiptDecision)
(* the inventory *)
| O_ForJob (job : JobId) : Op (option (option Artifact))
| O_Register (job : JobId) (root p : path) : Op (option str)
| O_FinishArtifact (job : JobId) (p root : path) (state : str) : Op (result Artifact str)
| O_Relocate (job : JobId) (to : path) : Op (option str)
| O_Operation (key : str) : Op (result (option ArtifactOp) str)
| O_RequestDelete (id : str) (revision : Z) (key : str) : Op (result ArtifactOp str)
| O_ExecuteDelete (id : str) : Op (result ArtifactOp str)
(* the history *)
| O_SpoolNzb (job : JobId) (nzb : str) : Op unit
| O_Record (e : HistoryEntry) : Op (option Z)
| O_RecordDurable (e : HistoryEntry) : Op (result (Z * HistoryEntry) str).

(** The operations on the tree. *)
Inductive DiskStep :=
| D_Look | D_RemoveStaging | D_ParRename | D_RarRename | D_MakeStaging | D_Commit | D_Cleanup | D_Deobfuscate.

#[export] Instance DiskStep_eq_dec : EqDecision DiskStep.
Proof. solve_decision. Defined.

(** ** Programs *)

Inductive Prog (A : Type) : Type :=
| Done (a : A)
| Ask {X : Type} (o : Op X) (k : X -> Prog A)
| Touch {X : Type} (l : DiskStep) (f : Tree -> run (Tree * X)) (k : X -> Prog A).
Arguments Done {A} a.
Arguments Ask {A X} o k.
Arguments Touch {A X} l f k.

Fixpoint prog_bind {A B} (p : Prog A) (f : A -> Prog B) : Prog B :=
  match p with
  | Done a => f a
  | Ask o k => Ask o (fun x => prog_bind (k x) f)
  | Touch l g k => Touch l g (fun x => prog_bind (k x) f)
  end.

Definition ask {X} (o : Op X) : Prog X := Ask o Done.
Definition touch {X} (l : DiskStep) (f : Tree -> run (Tree * X)) : Prog X := Touch l f Done.
Definition look {X} (f : Tree -> X) : Prog X := touch D_Look (fun t => Ret (t, f t)).

Notation "'do' x := m 'in' k" := (prog_bind m (fun x => k)) (at level 10, x pattern, k at level 200) : nzbd_scope.
Notation "'do_' m 'in' k" := (prog_bind m (fun _ => k)) (at level 10, k at level 200) : nzbd_scope.

(** With Rust's [?]. *)
Definition try_bind {A B E} (p : Prog (result A E)) (f : A -> Prog (result B E)) : Prog (result B E) :=
  prog_bind p (fun r => match r with Ok a => f a | Err e => Done (Err e) end).

Notation "'try' x := m 'in' k" := (try_bind m (fun x => k)) (at level 10, x pattern, k at level 200) : nzbd_scope.

(** ** Runs *)

Inductive Event :=
| E_Ask {X : Type} (o : Op X) (x : X)
| E_Touch (l : DiskStep).

(** A run from a tree, its events in order, the tree it leaves and its result;
    none when it stopped before the end. *)
Inductive exec {A} : Tree -> Prog A -> list Event -> Tree -> option A -> Prop :=
| exec_done t a : exec t (Done a) [] t (Some a)
| exec_stop t p : exec t p [] t None
| exec_ask {X} t (o : Op X) k (x : X) t1 tr t2 r : exec t1 (k x) tr t2 r -> exec t (Ask o k) (E_Ask o x :: tr) t2 r
| exec_touch {X} t l (f : Tree -> run (Tree * X)) k x t1 tr t2 r : f t = Ret (t1, x) -> exec t1 (k x) tr t2 r ->
    exec t (Touch l f k) (E_Touch l :: tr) t2 r.

(** What holds at every event of every run ([I], of the events so far, the newest
    first) and at the end ([Q]), whatever is answered. *)
Fixpoint all_runs {A} (I : list Event -> Prop) (p : Prog A) (Q : list Event -> A -> Prop) (tr : list Event) : Prop :=
  match p with
  | Done a => Q tr a
  | Ask o k => forall x, I (E_Ask o x :: tr) /\ all_runs I (k x) Q (E_Ask o x :: tr)
  | Touch l f k => I (E_Touch l :: tr) /\ forall x, all_runs I (k x) Q (E_Touch l :: tr)
  end.

Lemma all_runs_bind {A B} I (p : Prog A) (f : A -> Prog B) Q tr : all_runs I p (fun tr a => all_runs I (f a) Q tr) tr -> all_runs I (prog_bind p f) Q tr.
Proof.
  revert tr. induction p as [a|X o k IH|X l g k IH]; intros tr H; cbn in *; [done| |].
  - intros x. destruct (H x) as [Hi Hk]. split; [done|]. by apply IH.
  - destruct H as [Hi Hk]. split; [done|]. intros x. by apply IH.
Qed.

Lemma all_runs_mono {A} I (p : Prog A) (Q Q' : list Event -> A -> Prop) tr : all_runs I p Q tr -> (forall tr a, Q tr a -> Q' tr a) -> all_runs I p Q' tr.
Proof.
  intros H HQ. revert tr H. induction p as [a|X o k IH|X l g k IH]; intros tr H; cbn in *; [by apply HQ| |].
  - intros x. destruct (H x). split; [done|]. by apply IH.
  - destruct H as [Hi Hk]. split; [done|]. intros x. by apply IH.
Qed.

Lemma all_runs_try {A B E} I (p : Prog (result A E)) (f : A -> Prog (result B E)) Q tr :
  all_runs I p (fun tr r => match r with Ok a => all_runs I (f a) Q tr | Err e => Q tr (Err e) end) tr -> all_runs I (try_bind p f) Q tr.
Proof. intros H. apply all_runs_bind. eapply all_runs_mono; [exact H|]. intros tr' [a|e] Hr; [exact Hr|exact Hr]. Qed.

(** [all_runs] speaks of every prefix of every run. *)
Lemma all_runs_exec {A} I (p : Prog A) Q t tr t' r : exec t p tr t' r -> forall past, all_runs I p Q past ->
  (forall tr1 tr2, tr = tr1 ++ tr2 -> tr1 <> [] -> I (rev tr1 ++ past)) /\ (forall a, r = Some a -> Q (rev tr ++ past) a).
Proof.
  induction 1 as [t a|t p|X t o k x t1 tr t2 r Hx IH|X t l f k x t1 tr t2 r Hf Hx IH]; intros past H; cbn in H.
  - split; [by intros [|??] [|??] [=]|]. by intros a' [= <-].
  - split; [by intros [|??] [|??] [=]|done].
  - destruct (H x) as [Hi Hw]. destruct (IH _ Hw) as [H1 H2]. split.
    + intros [|e tr1] tr2 E Hne; [done|]. cbn in E. injection E as <- E. cbn. rewrite <- app_assoc. destruct tr1 as [|e1 tr1]; [exact Hi|]. by eapply H1.
    + intros a Ha. cbn. rewrite <- app_assoc. by apply H2.
  - destruct H as [Hi Hw]. destruct (IH _ (Hw x)) as [H1 H2]. split.
    + intros [|e tr1] tr2 E Hne; [done|]. cbn in E. injection E as <- E. cbn. rewrite <- app_assoc. destruct tr1 as [|e1 tr1]; [exact Hi|]. by eapply H1.
    + intros a Ha. cbn. rewrite <- app_assoc. by apply H2.
Qed.

(** What every run leaves on the disk: [Q] of the tree and the result. *)
Fixpoint leaves {A} (p : Prog A) (Q : Tree -> A -> Prop) (t : Tree) : Prop :=
  match p with
  | Done a => Q t a
  | Ask o k => forall t1 x, leaves (k x) Q t1
  | Touch l f k => match f t with Ret (t1, x) => leaves (k x) Q t1 | Panic => True end
  end.

Lemma leaves_prog_bind {A B} (p : Prog A) (f : A -> Prog B) Q t : leaves p (fun t a => leaves (f a) Q t) t -> leaves (prog_bind p f) Q t.
Proof.
  revert t. induction p as [a|X o k IH|X l g k IH]; intros t H; cbn in *; [done| |].
  - intros t1 x. by apply IH.
  - destruct (g t) as [[t1 x]|]; [|done]. by apply IH.
Qed.

Lemma leaves_mono {A} (p : Prog A) (Q Q' : Tree -> A -> Prop) t : leaves p Q t -> (forall t a, Q t a -> Q' t a) -> leaves p Q' t.
Proof.
  intros H HQ. revert t H. induction p as [a|X o k IH|X l g k IH]; intros t H; cbn in *; [by apply HQ| |].
  - intros t1 x. by apply IH.
  - destruct (g t) as [[t1 x]|]; [|done]. by apply IH.
Qed.

Lemma leaves_any {A} (p : Prog A) (Q : Tree -> A -> Prop) t : (forall t a, Q t a) -> leaves p Q t.
Proof.
  intros HQ. revert t. induction p as [a|X o k IH|X l g k IH]; intros t; cbn; [apply HQ|intros t1 x; apply IH|].
  destruct (g t) as [[t1 x]|]; [apply IH|done].
Qed.

Lemma leaves_exec {A} (p : Prog A) Q t tr t' a : exec t p tr t' (Some a) -> leaves p Q t -> Q t' a.
Proof.
  intros H. remember (Some a) as r eqn:Hr. revert a Hr.
  induction H as [t b|t p|X t o k x t1 tr t2 r Hx IH|X t l f k x t1 tr t2 r Hf Hx IH]; intros a Hr HL; cbn in HL; [by injection Hr as ->|done| |].
  - by eapply IH.
  - rewrite Hf in HL. by eapply IH.
Qed.
