(* ===== verification/Tools.v ===== *)
(** * External tools and archives ([crates/nzbd-post/src/tools.rs], [script.rs])

    What the output of [par2], [unrar] and [7z] is taken to mean, which archives of
    a directory are extracted, and the check that an extractor read the whole
    volume set.  The tools are called through [PostOps]. *)

From stdpp Require Import sorting.
From S2P Require Import Prelude RustStr Types Tree Par2 History PostOps.

#[local] Unset Default Proof Using.

(** ** Output *)

(** [str::lines]. *)
Definition strip_cr (l : str) : str := match strip_suffix [13] l with Some l' => l' | None => l end.

Definition lines (s : str) : list str :=
  let ps := split_chars (Z.eqb 10) s in
  let final := List.last ps [] in
  map strip_cr (removelast ps) ++ (if bool_decide (final = []) then [] else [final]).

(** [grab]: the first number of the first line that begins with [You] and holds
    the needle. *)
Definition grab (needle text : str) : option Z :=
  match omap (fun l => match strip_prefix (lit "You ") (trim l) with
                       | Some rest => if contains needle rest then Some rest else None
                       | None => None end) (lines text) with
  | [] => None
  | rest :: _ => hd_error (omap (parse_uint 10 u32_max) (split_whitespace rest))
  end.

Definition parse_verify_output (text : str) (code : Z) : VerifyResult :=
  if (code =? 0) || contains (lit "All files are correct") text || contains (lit "repair is not required") text then Intact
  else
    let available := default 0 (grab (lit "recovery blocks available") text) in
    if contains (lit "Repair is possible") text then Repairable available 0
    else match grab (lit "more recovery blocks") text with
         | Some needed => NeedMoreBlocks needed
         | None => Unrepairable
         end.

Definition repair_complete (text : str) (code : Z) : bool :=
  (code =? 0)
  && (contains (lit "Repair complete") text || contains (lit "repair is not required") text || contains (lit "All files are correct") text).

Definition both (o : ToolOutput) : str := to_stdout o ++ [10] ++ to_stderr o.

Definition verify_full (par2_cmd : str) (main : path) : Prog (result VerifyResult PostError) :=
  try o := ask (O_RunTool par2_cmd [lit "verify"; lit "-q"; file_name main] (parent main)) in
  Done (Ok (parse_verify_output (both o) (to_code o))).

Definition repair (par2_cmd : str) (main : path) : Prog (result bool PostError) :=
  try o := ask (O_RunTool par2_cmd [lit "repair"; lit "-q"; file_name main] (parent main)) in
  Done (Ok (repair_complete (both o) (to_code o))).

(** [ScriptHost::run]: the commands of a script, among the lines that are read. *)
Definition OUTPUT_LINES : nat := 100000.

Definition script_commands (ls : list str) : list (str * str) :=
  omap (fun l => match strip_prefix (lit "[NZB] ") l with
                 | Some rest => prod_map trim trim <$> split_at_first (lit "=") rest
                 | None => None end) (take OUTPUT_LINES ls).

(** ** Volume sets *)

Section Archives.
Context (to_lowercase : str -> str).

Fixpoint take_while (p : Z -> bool) (s : str) : str :=
  match s with c :: s' => if p c then c :: take_while p s' else [] | [] => [] end.

(** [volume_number]: of a lower-case name. *)
Definition volume_number (name : str) : option Z :=
  match (if ends_with (lit ".rar") name then split_at_last (lit ".part") name else None) with
  | Some (_, after) => parse_uint 10 u32_max (take_while is_ascii_digit after)
  | None =>
      if ends_with (lit ".rar") name then Some 1
      else
        match split_at_last (lit ".") name with
        | Some (_, [114; a; b]) => if is_ascii_digit a && is_ascii_digit b then (fun n => n + 2) <$> parse_uint 10 u32_max [a; b] else None
        | _ => None
        end
  end.

(** The base name of a set, and the files that share it. *)
Definition set_base (stem : str) : str :=
  match (if ends_with (lit ".rar") stem then split_at_last (lit ".part") stem else None) with
  | Some (before, _) => before
  | None => match split_at_last (lit ".") stem with Some (b, _) => b | None => stem end
  end.

Definition in_set (base name : str) : bool :=
  match (if ends_with (lit ".rar") name then split_at_last (lit ".part") name else None) with
  | Some (before, _) => bool_decide (before = base)
  | None => match split_at_last (lit ".") name with Some (b, _) => bool_decide (b = base) | None => false end
  end.

Definition lower_name (p : path) : str := to_lowercase (file_name p).

Definition volumes_of (t : Tree) (dir first : path) : list str :=
  List.filter (fun nm => in_set (set_base (lower_name first)) (to_lowercase nm)) (files_of t dir).

Definition missing_volumes (t : Tree) (dir first : path) : list Z :=
  let seen := omap (fun nm => volume_number (to_lowercase nm)) (volumes_of t dir first) in
  if (length seen <? 2)%nat then []
  else List.filter (fun n => negb (bool_decide (n ∈ seen))) (seqZ 1 (fold_left Z.max seen 0)).

Definition file_size (t : Tree) (p : path) : Z := Z.of_nat (length (default [] (Tree.files t !! p))).

Definition volume_set (t : Tree) (dir first : path) : nat * Z :=
  let vs := List.filter (fun nm => bool_decide (is_Some (volume_number (to_lowercase nm)))) (volumes_of t dir first) in
  (length vs, sum_Z (map (fun nm => file_size t (child dir nm)) vs)).

(** Everything below a directory. *)
Definition below (dir p : path) : bool := bool_decide (dir `prefix_of` p) && negb (bool_decide (p = dir)).

Definition tree_bytes (t : Tree) (dir : path) : Z :=
  sum_Z (map (fun '(p, b) => Z.of_nat (length b)) (List.filter (fun '(p, _) => below dir p) (map_to_list (Tree.files t)))).

(** [unpack_shortfall]: bytes extracted, volumes, bytes packed, when it is short. *)
Definition unpack_shortfall (t : Tree) (dir first dest : path) : option (Z * nat * Z) :=
  let '(volumes, packed) := volume_set t dir first in
  if (volumes <? 2)%nat || (packed =? 0) then None
  else
    let extracted := tree_bytes t dest in
    if packed / 10 * 9 <=? extracted then None else Some (extracted, volumes, packed).

(** ** Archives *)

Inductive ArchiveKind := Rar | SevenZip | Zip | Split.

Definition later_volume (name : str) : bool :=
  match split_at_last (lit ".part") name with
  | Some (_, after) => match parse_uint 10 u32_max (take_while is_ascii_digit after) with Some n => negb (n =? 1) | None => false end
  | None => false
  end.

Definition archive_kind (name : str) : option ArchiveKind :=
  if ends_with (lit ".rar") name then if later_volume name then None else Some Rar
  else if ends_with (lit ".7z") name then Some SevenZip
  else if ends_with (lit ".zip") name then Some Zip
  else if ends_with (lit ".001") name then Some Split
  else None.

(** The entries of a directory: files and directories. *)
Definition entries_of (t : Tree) (dir : path) : list path :=
  sort_paths (List.filter (fun p => bool_decide (parent p = dir) && negb (bool_decide (p = [])))
    (map fst (map_to_list (Tree.files t)) ++ elements (dirs t))).

Definition detect_archives (t : Tree) (dir : path) : list (path * ArchiveKind) :=
  omap (fun p => pair p <$> archive_kind (lower_name p)) (entries_of t dir).

(** ** Extraction *)

Record ExtractOutcome := mkExtract { ex_success : bool; ex_password_error : bool; ex_disk_space_error : bool }.

Definition rar_outcome (o : ToolOutput) : ExtractOutcome :=
  let broke := contains (lit "Cannot find volume") (both o) || contains (lit "You need to start extraction") (both o) in
  mkExtract ((to_code o =? 0) && contains (lit "All OK") (both o) && negb broke)
    ((to_code o =? 11) || contains (lit "password") (to_stderr o) || contains (lit "password is incorrect") (to_stdout o))
    (to_code o =? 5).

Definition sevenzip_outcome (o : ToolOutput) : ExtractOutcome :=
  mkExtract ((to_code o =? 0) && contains (lit "Everything is Ok") (both o))
    (contains (lit "Wrong password") (both o)) (contains (lit "There is not enough space") (both o)).

(** A path as the tools are given it. *)
Definition display (p : path) : str := concat (map (cons 47) p).

(** [create_dir_all] and [remove_dir_all]. *)
Definition prefixes (p : path) : list path := map (fun n => take n p) (seq 0 (S (length p))).

Definition create_dir_all (p : path) (t : Tree) : run (Tree * bool) :=
  if existsb (fun q => bool_decide (is_Some (Tree.files t !! q))) (prefixes p) then Ret (t, false)
  else Ret (mkTree (Tree.files t) (list_to_set (prefixes p) ∪ dirs t), true).

Definition remove_dir_all (p : path) (t : Tree) : run (Tree * unit) :=
  if bool_decide (p ∈ dirs t) then
    Ret (mkTree (filter (fun kv => ~ p `prefix_of` fst kv) (Tree.files t)) (filter (fun q => ~ p `prefix_of` q) (dirs t)), tt)
  else Ret (t, tt).

Definition make_dir (dest : path) : Prog (result unit PostError) :=
  do ok := touch D_MakeStaging (create_dir_all dest) in
  Done (if ok then Ok tt else Err (IoError (lit "create_dir_all"))).

Record ExtractorCmds := mkExtractors { unrar_cmd : str; sevenzip_cmd : str }.

Definition extract_once (ex : ExtractorCmds) (archive : path) (k : ArchiveKind) (dest : path) (password : option str)
    : Prog (result ExtractOutcome PostError) :=
  try _ := make_dir dest in
  match k with
  | Rar =>
      let pw := match password with Some p => lit "-p" ++ p | None => lit "-p-" end in
      try o := ask (O_RunTool (unrar_cmd ex) [lit "x"; lit "-y"; lit "-o+"; lit "-idc"; pw; display archive; display dest ++ lit "/"] (parent archive)) in
      Done (Ok (rar_outcome o))
  | SevenZip | Zip | Split =>
      let pw := lit "-p" ++ default [] password in
      try o := ask (O_RunTool (sevenzip_cmd ex) [lit "x"; lit "-y"; pw; lit "-o" ++ display dest; display archive] (parent archive)) in
      Done (Ok (sevenzip_outcome o))
  end.

(** Whether an attempt delivered: it says so, and nothing is short. *)
Definition delivered (archive dest : path) (r : result ExtractOutcome PostError) : Prog bool :=
  match r with
  | Ok o => if ex_success o then look (fun t => match unpack_shortfall t (parent archive) archive dest with None => true | Some _ => false end)
            else Done false
  | Err _ => Done false
  end.

(** [extract]: a RAR archive by the configured tool, then by 7-Zip. *)
Definition extract (ex : ExtractorCmds) (archive : path) (k : ArchiveKind) (dest : path) (password : option str)
    : Prog (result ExtractOutcome PostError) :=
  try _ := make_dir dest in
  match k with
  | Rar =>
      do first := extract_once ex archive k dest password in
      do usable := delivered archive dest first in
      if usable then Done first
      else if match first with Ok o => ex_password_error o | Err _ => false end then Done first
      else
        do _ := touch D_RemoveStaging (remove_dir_all dest) in
        try _ := make_dir dest in
        do second := extract_once ex archive SevenZip dest password in
        do ok := delivered archive dest second in
        if ok then Done second
        else
          match (match first with Ok o => Ok o | Err _ => second end) with
          | Ok o => Done (Ok (mkExtract false (ex_password_error o) (ex_disk_space_error o)))
          | Err e => Done (Err e)
          end
  | SevenZip | Zip | Split => extract_once ex archive k dest password
  end.

End Archives.

(** The examples of the code's tests. *)
Example verify_outputs :
  parse_verify_output (lit "All files are correct, repair is not needed.") 0 = Intact /\
  parse_verify_output (lit "Repair is required." ++ [10] ++ lit "You have 8 recovery blocks available." ++ [10] ++ lit "Repair is possible.") 1
    = Repairable 8 0 /\
  parse_verify_output (lit "Repair is required." ++ [10] ++ lit "You have 0 recovery blocks available." ++ [10]
    ++ lit "You need 3 more recovery blocks to be able to repair these files.") 1 = NeedMoreBlocks 3.
Proof. by vm_compute. Qed.

Example first_volumes :
  let t := mkTree (list_to_map (map (fun n => ([lit "d"; lit n], [0])) ["a.part1.rar"; "a.part2.rar"; "b.rar"; "c.zip"; "d.7z"; "e.001"; "e.002"; "x.txt"]%string)) {[ [lit "d"] ]} in
  map (fun pk => file_name (fst pk)) (detect_archives to_ascii_lowercase t [lit "d"]) =
  map lit ["a.part1.rar"; "b.rar"; "c.zip"; "d.7z"; "e.001"]%string.
Proof. by vm_compute. Qed.
