(* ===== verification/Pipeline.v ===== *)
(** * The stages of one job ([crates/nzbd-post/src/manager.rs])

    [process_job_ctx_from]: rename, verify and repair, unpack, clean up,
    deobfuscate, move, run scripts, and record the outcome, from one of the points
    where a job may be resumed.  A program of [PostOps] with the running stage as
    its state, since a job that returns early still closes its stage. *)

From stdpp Require Import sorting.
From S2P Require Owner.
From S2P Require Import Prelude RustStr Types JobNames Nzb Crc32 Tree Par2 Rename Deobfuscate History PostOps Tools.

#[local] Unset Default Proof Using.

(** ** Configuration *)

Inductive FailureAction := FA_None | FA_Park | FA_Delete.

Definition FailureAction_parse (s : str) : FailureAction :=
  let s := to_ascii_lowercase s in
  if bool_decide (s = lit "none") || bool_decide (s = lit "keep") || bool_decide (s = []) then FA_None
  else if bool_decide (s = lit "park") || bool_decide (s = lit "pause") then FA_Park
  else FA_Delete.

Record CategoryRule := mkRule { rule_name : str; rule_dest_dir : option path; rule_unpack : option bool; rule_extensions : list str }.

Record PostConfig := mkPostConfig {
  par2_cmd : str;
  extractors : ExtractorCmds;
  scripts_dir : option path;
  cfg_unpack : bool;
  cfg_cleanup : bool;
  deobfuscate_final : bool;
  failure_action : FailureAction;
  failed_dir : option path;
  slots : Z;
  categories : list CategoryRule
}.

(** [str::eq_ignore_ascii_case] on a trimmed, non-empty name. *)
Definition rule_for (cfg : PostConfig) (category : option str) : option CategoryRule :=
  match category with
  | None => None
  | Some c =>
      let want := trim c in
      if bool_decide (want = []) then None else List.find (fun r => eq_ignore_ascii_case (rule_name r) want) (categories cfg)
  end.

Definition strategy_slots (name : str) : Z :=
  if bool_decide (name = lit "balanced") then 2
  else if bool_decide (name = lit "aggressive") then 3
  else if bool_decide (name = lit "rocket") then 6
  else 1.

Inductive PpFinal := Pp_Success | Pp_ParFailure | Pp_UnpackFailure | Pp_ScriptFailure.

Definition PpFinal_as_str (p : PpFinal) : str :=
  match p with
  | Pp_Success => lit "SUCCESS"
  | Pp_ParFailure => lit "PAR_FAILURE"
  | Pp_UnpackFailure => lit "UNPACK_FAILURE"
  | Pp_ScriptFailure => lit "SCRIPT_FAILURE"
  end.

(** The points from which a job may be resumed, in order. *)
Inductive RestartPoint := At_Beginning | At_Verify | At_Unpack | At_Cleanup | At_Move | At_Scripts.

#[export] Instance RestartPoint_eq_dec : EqDecision RestartPoint.
Proof. solve_decision. Defined.
#[export] Instance PpFinal_eq_dec : EqDecision PpFinal.
Proof. solve_decision. Defined.

Definition point_order (p : RestartPoint) : Z :=
  match p with At_Beginning => 0 | At_Verify => 1 | At_Unpack => 2 | At_Cleanup => 3 | At_Move => 4 | At_Scripts => 5 end.

Definition includes (from p : RestartPoint) : bool := point_order from <=? point_order p.

Definition restart_limit (s : JobStatus) : option RestartPoint :=
  match s with
  | JS_Completed | JS_PostQueued => Some At_Beginning
  | JS_Post st =>
      Some (match st with
            | ParRename | RarRename => At_Beginning
            | ParVerify | ParRepair => At_Verify
            | Unpack => At_Unpack
            | Cleanup | PostUnpackRename => At_Cleanup
            | Move => At_Move
            | Script => At_Scripts
            end)
  | _ => None
  end.

(** The context of one execution: the name of its staging directory, whether it
    publishes the history itself, and the receipts of a cluster attempt. *)
Record PpCtx := mkPpCtx {
  ctx_tag : str;
  publish_history : bool;
  has_receipts : bool;
  extra_env : list (str * str);
  receipt_prefix : option str
}.

Definition PpCtx_default : PpCtx := mkPpCtx (lit "local") true false [] None.

Definition pp_done (j : Job) : bool := existsb (fun '(k, _) => bool_decide (k = PP_DONE_PARAM)) (params j).

Definition user_params (j : Job) : list (str * str) := List.filter (fun '(k, _) => negb (starts_with (lit "*") k)) (params j).

Definition with_params (ps : list (str * str)) (j : Job) : Job := {|
  job_id := job_id j; kind := kind j; name := name j; dir_name := dir_name j; name_provisional := name_provisional j;
  queued_at_unix := queued_at_unix j; original_name := original_name j; category := category j; priority := priority j;
  dupe := dupe j; params := ps; Types.files := Types.files j; totals := totals j; status := status j; torrent := torrent j; stages := stages j |}.

Definition with_status (s : JobStatus) (j : Job) : Job := {|
  job_id := job_id j; kind := kind j; name := name j; dir_name := dir_name j; name_provisional := name_provisional j;
  queued_at_unix := queued_at_unix j; original_name := original_name j; category := category j; priority := priority j;
  dupe := dupe j; params := params j; Types.files := Types.files j; totals := totals j; status := s; torrent := torrent j; stages := stages j |}.

Definition push_param (k v : str) (j : Job) : Job := with_params (params j ++ [(k, v)]) j.

(** ** Stages

    The running stage is the state; an error is [Err]. *)

Definition M (A : Type) : Type := option PostStage -> Prog (option PostStage * result A PostError).

Definition m_ret {A} (a : A) : M A := fun s => Done (s, Ok a).
Definition m_fail {A} (e : PostError) : M A := fun s => Done (s, Err e).
Definition m_bind {A B} (m : M A) (f : A -> M B) : M B :=
  fun s => do (s', r) := m s in match r with Ok a => f a s' | Err e => Done (s', Err e) end.
Definition lift {A} (p : Prog A) : M A := fun s => do a := p in Done (s, Ok a).
Definition lift_try {A} (p : Prog (result A PostError)) : M A := fun s => do r := p in Done (s, r).

Notation "'let*' x := m 'in' k" := (m_bind m (fun x => k)) (at level 10, x pattern, k at level 200) : nzbd_scope.

Section Stages.
Variable job : JobId.

(** [Stages::close]: the stage's time, once. *)
Definition stage_close : M (option Z) :=
  fun s => match s with
           | None => Done (None, Ok None)
           | Some _ => do ms := ask O_StageElapsed in Done (None, Ok (Some ms))
           end.

Definition stage_enter (st : PostStage) : M unit :=
  let* prev := stage_close in
  let* now := lift (ask O_Now) in
  let* _ := lift (ask (O_EnterStage job st now prev)) in
  let* _ := lift (ask (O_StageEvent job st)) in
  fun _ => Done (Some st, Ok tt).

Definition stage_finish : M unit :=
  let* ms := stage_close in
  let* now := lift (ask O_Now) in
  lift (ask (O_CloseStage job now ms)).

End Stages.

(** ** Operations on the job's directory *)

Section Pipeline.
Context {H : Type} {hasher : Crc32Hasher H}.
Context (allowed : path -> path -> bool) (md5 : bytes -> bytes) (to_lowercase : str -> str) (listing : list path -> list path).
Context (sha256_hex : str -> str) (version : str) (debug_op : result ArtifactOp str -> str) (debug_err : option str -> str).
Variables (cfg : PostConfig) (ctx : PpCtx) (dest_dir : path) (job : JobId).

Definition is_dir (t : Tree) (p : path) : bool := bool_decide (p ∈ dirs t).

(** [remove_stale_staging]: every staging directory but one's own. *)
Definition remove_stale_staging (dir own : path) (t : Tree) : run (Tree * unit) :=
  fold_left (fun r p => let! (t, _) := r in remove_dir_all p t)
    (List.filter (fun p => bool_decide (parent p = dir) && negb (bool_decide (p = own)) && starts_with (lit ".pp.") (file_name p)) (elements (dirs t)))
    (Ret (t, tt)).

(** A rename of a file or of a directory with what is below it. *)
Definition moved_path (from to p : path) : path :=
  if bool_decide (from `prefix_of` p) then to ++ drop (length from) p else p.

Definition move_entry (t : Tree) (from to : path) : option Tree :=
  match Tree.files t !! from with
  | Some b => Some (mkTree (<[to := b]> (delete from (Tree.files t))) (dirs t))
  | None =>
      if bool_decide (from ∈ dirs t) && negb (bool_decide (is_Some (Tree.files t !! to)))
      then Some (mkTree (list_to_map (map (fun '(p, b) => (moved_path from to p, b)) (map_to_list (Tree.files t))))
                        (list_to_set (map (moved_path from to) (elements (dirs t)))))
      else None
  end.

(** [commit_staging]: a directory in the way goes, a file is replaced. *)
Fixpoint commit_entries (staging dir : path) (entries : list path) (t : Tree) : run (Tree * bool) :=
  match entries with
  | [] => Ret (t, true)
  | e :: entries' =>
      let target := child dir (file_name e) in
      let! (t, _) := (if is_dir t target then remove_dir_all target t else Ret (t, tt)) in
      match move_entry t e target with
      | Some t => commit_entries staging dir entries' t
      | None => Ret (t, false)
      end
  end.

Definition commit_staging (staging dir : path) (t : Tree) : run (Tree * bool) :=
  if is_dir t staging then commit_entries staging dir (entries_of t staging) t else Ret (t, false).

Definition junk (nm : str) : bool :=
  let nm := to_lowercase nm in
  ends_with (lit ".par2") nm || ends_with (lit ".rar") nm || ends_with (lit ".zip") nm || ends_with (lit ".7z") nm
  || ends_with (lit ".sfv") nm
  || (let ext := List.last (split_chars (Z.eqb 46) nm) [] in forallb is_ascii_digit ext && (length ext =? 3)%nat).

Definition cleanup_dir (dir : path) (t : Tree) : run (Tree * unit) :=
  Ret (mkTree (filter (fun kv => ~ (parent (fst kv) = dir /\ fst kv <> [] /\ junk (file_name (fst kv)) = true)) (Tree.files t)) (dirs t), tt).

(** [par2::load_dir]. *)
Definition load_dir (dir : path) : Prog (result (option Par2Set) PostError) :=
  touch D_Look (fun t =>
    if is_dir t dir then let! s := load_set (par2_files t dir) in Ret (t, Ok s) else Ret (t, Err (IoError (lit "read_dir")))).

Definition main_path (dir : path) (set : Par2Set) : option path := child dir <$> ps_main_path set.

(** [evidence_of] and the sizes on the disk. *)
Definition renamed (renames : Renames) (p : path) : path :=
  match List.find (fun '(from, _) => bool_decide (from = p)) (rev renames) with Some (_, to) => to | None => p end.

Definition evidence_of (j : Job) (dir : path) (renames : Renames) (t : Tree) : list DownloadEvidence :=
  map (fun f => let p := renamed renames (join dir (filename f)) in mkEvidence (file_name p) (file_size t p) (file_crc32 f)) (Types.files j).

(** ** Verification and repair *)

(** [par2_block_size]: a panic of the reading task is no answer. *)
Definition MAX_INDEX : nat := Z.to_nat (8 * 1024 * 1024).

Definition par2_block_size (main : path) : Prog (option Z) :=
  look (fun t =>
    match Tree.files t !! main with
    | Some b => match scan (take MAX_INDEX b) with
                | Ret s => if 0 <? slice_size s then Some (slice_size s) else None
                | Panic => None
                end
    | None => None
    end).

(** [wait_par_files]: [n] polls until the deadline has passed. *)
Fixpoint wait_loop (n : nat) : Prog bool :=
  match n with
  | O => Done false
  | S n' =>
      do r := ask (O_Export job) in
      match r with
      | Some (Some j) =>
          let waited := List.filter (fun f => Types.is_par2 f && negb (paused f)) (Types.files j) in
          if forallb is_terminal waited && forallb finalized (List.filter has_any_done waited) then Done true
          else wait_loop n'
      | _ => Done false
      end
  end.

Definition wait_par_files : Prog bool := do n := ask O_Polls in wait_loop n.

(** [repair_loop], with the rounds that are left. *)
Definition ROUNDS : nat := 8.

Fixpoint repair_rounds (n : nat) (main : path) : M bool :=
  match n with
  | O => m_ret false
  | S n' =>
      let* v := lift_try (verify_full (par2_cmd cfg) main) in
      match v with
      | Intact => m_ret true
      | Repairable _ _ =>
          let* _ := stage_enter job ParRepair in
          lift_try (repair (par2_cmd cfg) main)
      | NeedMoreBlocks needed =>
          let* block := lift (par2_block_size main) in
          let* freed := lift (ask (O_Unpause job needed block)) in
          if freed =? 0 then m_ret false
          else
            let* ok := lift wait_par_files in
            if ok then repair_rounds n' main else m_ret false
      | Unrepairable => m_ret false
      end
  end.

Definition repair_loop (main : path) : M bool := repair_rounds ROUNDS main.

(** ** The stages *)

Definition rename_stage (from : RestartPoint) (dir : path) (unpack_enabled : bool) : M Renames :=
  if bool_decide (from = At_Beginning) then
    let* _ := stage_enter job ParRename in
    let* renames := lift (touch D_ParRename (fun t => let! (t, rs) := par_rename allowed md5 t dir in Ret (t, rs))) in
    if unpack_enabled then
      let* _ := stage_enter job RarRename in
      let* more := lift (touch D_RarRename (fun t => Ret (rar_rename allowed to_lowercase t dir))) in
      m_ret (renames ++ more)
    else m_ret renames
  else m_ret [].

(** What the verification found: whether the data is good, whether it was
    repaired, and the names that the recovery set vouches for. *)
Definition par_stage (from : RestartPoint) (dir : path) (j : Job) (renames : Renames) : M (bool * bool * gset str) :=
  let before := negb (includes from At_Verify) && existsb (fun sp => bool_decide (stage sp = ParRepair)) (stages j) in
  if includes from At_Cleanup then
    let* set := lift_try (load_dir dir) in
    match set with
    | None => m_ret (true, before, ∅)
    | Some set =>
        let names := list_to_set (map pf_name (ps_files set)) in
        if includes from At_Verify then
          let* _ := stage_enter job ParVerify in
          let* quick := lift (look (fun t => quick_verify set (evidence_of j dir renames t))) in
          match quick, main_path dir set with
          | Intact, _ => m_ret (true, before, names)
          | _, Some main => let* ok := repair_loop main in m_ret (ok, ok, names)
          | _, None => m_ret (false, before, names)
          end
        else m_ret (true, before, names)
    end
  else m_ret (true, before, ∅).

Definition lease_lost {A} (what : str) : M A := m_fail (Subprocess (lit "pp lease lost before " ++ what)).

Definition remove_staging (staging : path) : M unit := lift (touch D_RemoveStaging (remove_dir_all staging)).

(** The repair that a failed extraction forces, and its one retry. *)
Definition forced_repair (dir archive staging : path) (k : ArchiveKind) (password : option str) (first : ExtractOutcome)
    : M (ExtractOutcome * bool) :=
  let* set := lift_try (load_dir dir) in
  match set ≫= main_path dir with
  | None => m_ret (first, false)
  | Some main =>
      let* _ := stage_enter job ParRepair in
      let* ok := repair_loop main in
      if ok then
        let* _ := stage_enter job Unpack in
        let* _ := remove_staging staging in
        let* r := lift_try (extract to_lowercase (extractors cfg) archive k staging password) in
        m_ret (r, true)
      else m_ret (first, false)
  end.

(** One archive: into the staging directory, and from there into place, when it
    succeeded, nothing is short and the lease is still held. *)
Definition unpack_one (dir staging : path) (password : option str) (par_ok repaired : bool) (archive : path) (k : ArchiveKind)
    : M (bool * bool) :=
  let* _ := remove_staging staging in
  let* r := lift_try (extract to_lowercase (extractors cfg) archive k staging password) in
  let* (r, repaired) :=
    (if negb (ex_success r) && negb repaired && par_ok then
       let* (r, again) := forced_repair dir archive staging k password r in m_ret (r, repaired || again)
     else m_ret (r, repaired)) in
  let* short := (if ex_success r then lift (look (fun t => unpack_shortfall to_lowercase t dir archive staging)) else m_ret None) in
  let* ok :=
    (if ex_success r && negb (bool_decide (is_Some short)) then
       let* held := lift (ask O_CommitOk) in
       if held then
         let* done := lift (touch D_Commit (commit_staging staging dir)) in
         if done then m_ret true else m_fail (IoError (lit "commit_staging"))
       else
         let* _ := remove_staging staging in
         lease_lost (lit "commit")
     else m_ret false) in
  let* _ := remove_staging staging in
  m_ret (ok, repaired).

Record Unpacked := mkUnpacked { un_ok : bool; un_any : bool; un_repaired : bool }.

Fixpoint unpack_all (dir staging : path) (password : option str) (par_ok : bool) (archives : list (path * ArchiveKind)) (u : Unpacked) : M Unpacked :=
  match archives with
  | [] => m_ret u
  | (archive, k) :: archives' =>
      let* (ok, repaired) := unpack_one dir staging password par_ok (un_repaired u) archive k in
      unpack_all dir staging password par_ok archives'
        (if ok then mkUnpacked (un_ok u) true repaired else mkUnpacked false (un_any u) repaired)
  end.

Definition password_of (j : Job) : option str :=
  snd <$> List.find (fun '(k, _) => bool_decide (k = lit "*Unpack:Password")) (params j).

Definition unpack_stage (from : RestartPoint) (dir staging : path) (j : Job) (unpack_enabled par_ok repaired : bool) : M Unpacked :=
  let any := negb (includes from At_Unpack) && existsb (fun sp => bool_decide (stage sp = Unpack)) (stages j) in
  let u := mkUnpacked true any repaired in
  if unpack_enabled && includes from At_Unpack then
    let* archives := lift (look (fun t => detect_archives to_lowercase t dir)) in
    match archives with
    | [] => m_ret u
    | _ :: _ =>
        let* _ := stage_enter job Unpack in
        unpack_all dir staging (password_of j) par_ok archives u
    end
  else m_ret u.

Definition cleanup_stage (from : RestartPoint) (dir : path) (par_ok : bool) (u : Unpacked) : M unit :=
  if includes from At_Cleanup && cfg_cleanup cfg && par_ok && un_ok u && un_any u then
    let* _ := stage_enter job Cleanup in
    lift (touch D_Cleanup (cleanup_dir dir))
  else m_ret tt.

Definition deobfuscate_stage (from : RestartPoint) (dir : path) (name : str) (par_ok : bool) (u : Unpacked) (vouched : gset str) : M Renames :=
  if includes from At_Cleanup && deobfuscate_final cfg && par_ok && un_ok u then
    let* _ := stage_enter job PostUnpackRename in
    lift (touch D_Deobfuscate (fun t => Ret (deobfuscate_dir allowed listing t dir name vouched)))
  else m_ret [].

(** The move to the category's destination: where the files are afterwards. *)
Definition move_stage (from : RestartPoint) (dir staging : path) (sanitized : str) (rule : option CategoryRule) : M path :=
  match (if includes from At_Move then rule ≫= rule_dest_dir else None) with
  | None => m_ret dir
  | Some root =>
      let target := join root sanitized in
      let* there := lift (look (fun t => exists_path t dir)) in
      if negb (bool_decide (target = dir)) && there then
        let* _ := remove_staging staging in
        let* _ := stage_enter job Move in
        let* held := lift (ask O_CommitOk) in
        if held then
          let* moved := lift (ask (O_Relocate job target)) in
          match moved with
          | None => m_ret target
          | Some e =>
              let* _ := (if Owner.is_out_of_space e then lift (ask (O_OutOfSpace e)) else m_ret tt) in
              m_ret dir
          end
        else lease_lost (lit "move")
      else m_ret dir
  end.

(** ** Scripts *)

Definition select_scripts (found : list path) (extensions : list str) : list path :=
  match extensions with
  | [] => found
  | _ :: _ => List.filter (fun p => existsb (fun e => eq_ignore_ascii_case e (file_name p) || eq_ignore_ascii_case e (file_stem (file_name p))) extensions) found
  end.

Definition script_env (j : Job) (dir : path) (par_ok : bool) (u : Unpacked) : list (str * str) :=
  let par_status := if negb par_ok then lit "4" else if un_repaired u then lit "2" else lit "1" in
  let unpack_status := if negb (un_ok u) then lit "1" else if un_any u then lit "2" else lit "0" in
  let total := if par_ok && un_ok u then lit "SUCCESS" else lit "FAILURE" in
  [(lit "NZBPP_DIRECTORY", display dir);
   (lit "NZBPP_FINALDIR", []);
   (lit "NZBPP_NZBNAME", name j);
   (lit "NZBPP_NZBFILENAME", name j ++ lit ".nzb");
   (lit "NZBPP_CATEGORY", default [] (category j));
   (lit "NZBPP_PARSTATUS", par_status);
   (lit "NZBPP_UNPACKSTATUS", unpack_status);
   (lit "NZBPP_TOTALSTATUS", total);
   (lit "NZBPP_STATUS", total ++ lit "/ALL");
   (lit "NZBPP_HEALTH", show_dec (calc (totals j)));
   (lit "NZBPP_NZBID", show_dec (job_id j));
   (lit "NZBOP_DESTDIR", display (parent dir));
   (lit "NZBOP_VERSION", version)]
  ++ map (fun '(k, v) => (lit "NZBPR_" ++ k, v)) (user_params j).

Definition SUCCESS : Z := 93.
Definition NONE : Z := 95.
Definition PAR_CHECK : Z := 92.

Record Scripted := mkScripted { sc_ok : bool; sc_receipts : list (str * str); sc_final_dir : str }.

Definition with_receipt (name what : str) (ok : bool) (s : Scripted) : Scripted :=
  mkScripted (sc_ok s && ok) (sc_receipts s ++ [(lit "ClusterScript:" ++ name, what)]) (sc_final_dir s).

Definition final_dir_of (commands : list (str * str)) (before : str) : str :=
  fold_left (fun d '(k, v) => if bool_decide (k = lit "FINALDIR") || bool_decide (k = lit "DIRECTORY") then v else d) commands before.

(** A run of a script: its verdict and the directory it names. *)
Definition run_script (dir script : path) (env : list (str * str)) (s : Scripted) : M Scripted :=
  let* r := lift (ask (O_RunScript script dir env)) in
  match r with
  | Err _ => m_ret (mkScripted false (sc_receipts s) (sc_final_dir s))
  | Ok out =>
      let s := mkScripted (sc_ok s) (sc_receipts s) (final_dir_of (script_commands (sr_lines out)) (sc_final_dir s)) in
      if (sr_code out =? SUCCESS) || (sr_code out =? NONE) then m_ret s
      else if sr_code out =? PAR_CHECK then
        let* set := lift_try (load_dir dir) in
        match set ≫= main_path dir with
        | Some main => fun st => do (st', _) := repair_loop main st in Done (st', Ok s)
        | None => m_ret s
        end
      else m_ret (mkScripted false (sc_receipts s) (sc_final_dir s))
  end.

Definition receipt_env (script : str) : list (str * str) :=
  match receipt_prefix ctx with Some p => [(lit "NZBCLUSTER_SCRIPT_RECEIPT", p ++ sha256_hex script)] | None => [] end.

Fixpoint run_scripts (dir : path) (base : list (str * str)) (scripts : list path) (s : Scripted) : M Scripted :=
  match scripts with
  | [] => m_ret s
  | script :: scripts' =>
      let nm := file_name script in
      let env := base ++ extra_env ctx ++ receipt_env nm in
      let finished s :=
        if has_receipts ctx then
          let* d := lift (ask (O_ReceiptFinish nm)) in
          match d with
          | Some AlreadyDone => m_ret (with_receipt nm (lit "done") true s)
          | _ => m_ret (with_receipt nm (lit "unknown-after-run") false s)
          end
        else m_ret s in
      let* begin := (if has_receipts ctx then lift (ask (O_ReceiptBegin nm)) else m_ret (Some Run)) in
      match begin with
      | Some Run =>
          let* s := run_script dir script env s in
          let* s := finished s in
          run_scripts dir base scripts' s
      | Some AlreadyDone => run_scripts dir base scripts' (with_receipt nm (lit "already-done") true s)
      | Some Ambiguous | None => run_scripts dir base scripts' (with_receipt nm (lit "unknown-not-replayed") false s)
      end
  end.

Definition script_stage (j : Job) (dir : path) (rule : option CategoryRule) (par_ok : bool) (u : Unpacked) : M Scripted :=
  let s := mkScripted true [] (display dir) in
  match scripts_dir cfg with
  | None => m_ret s
  | Some sd =>
      let* found := lift (ask (O_Discover sd)) in
      match select_scripts found (match rule with Some r => rule_extensions r | None => [] end) with
      | [] => m_ret s
      | scripts =>
          let* _ := stage_enter job Script in
          run_scripts dir (script_env j dir par_ok u) scripts s
      end
  end.

(** ** The end of a job *)

Record Disposition := mkDisposition { di_note : str; di_files_at : option path }.

Definition parked_target (name : str) : path := join (match failed_dir cfg with Some d => d | None => join dest_dir (lit ".failed") end) name.

(** The checked deletion, through the inventory's journal. *)
Definition checked_delete (dir : path) : Prog (result ArtifactOp str) :=
  try a := ask (O_FinishArtifact job dir (parent dir) (lit "retained")) in
  let key := lit "failed-delete-" ++ art_id a in
  try known := ask (O_Operation key) in
  try op := (match known with Some op => Done (Ok op) | None => ask (O_RequestDelete (art_id a) (art_revision a) key) end) in
  ask (O_ExecuteDelete (ao_id op)).

(** [dispose_failed]. *)
Definition dispose_failed (dir : path) (name : str) : Prog Disposition :=
  match failure_action cfg with
  | FA_Delete =>
      do known := ask (O_ForJob job) in
      if match known with Some (Some a) => bool_decide (art_state a = lit "deleted") | _ => false end
      then Done (mkDisposition (lit "deleted") None)
      else
        do r := checked_delete dir in
        if match r with Ok op => bool_decide (ao_state op = lit "succeeded") | Err _ => false end
        then Done (mkDisposition (lit "deleted") None)
        else Done (mkDisposition (lit "checked deletion pending: " ++ debug_op r) (Some dir))
  | FA_Park =>
      let target := parked_target name in
      do r := ask (O_Relocate job target) in
      match r with
      | None => Done (mkDisposition (lit "parked at " ++ display target) (Some target))
      | Some _ => Done (mkDisposition (lit "checked move pending: " ++ debug_err r) (Some dir))
      end
  | FA_None => Done (mkDisposition (lit "kept") (Some dir))
  end.

Definition outcome_of (par_ok unpack_ok script_ok : bool) : PpFinal :=
  if negb par_ok then Pp_ParFailure
  else if negb unpack_ok then Pp_UnpackFailure
  else if negb script_ok then Pp_ScriptFailure
  else Pp_Success.

(** [Path::new]: its components. *)
Definition path_of (s : str) : path :=
  List.filter (fun c => negb (bool_decide (c = [])) && negb (bool_decide (c = lit "."))) (split_chars (Z.eqb 47) s).

Definition deobfuscation_params (renames : Renames) : list (str * str) :=
  match renames with
  | [] => []
  | _ :: _ =>
      let one '(f, t) := file_name f ++ [32; 8594; 32] ++ file_name t in
      let shown := match map one (take 10 renames) with
                   | [] => []
                   | x :: xs => x ++ concat (map (fun y => lit "; " ++ y) xs)
                   end in
      [(lit "Deobfuscate:Count", show_dec (Z.of_nat (length renames)));
       (lit "Deobfuscate:Files", shown ++ (if (10 <? length renames)%nat then lit "; " ++ [8230] else []))]
  end.

(** The job as it is stamped. *)
Definition stamped (outcome : PpFinal) (renames : Renames) (receipts : list (str * str)) (d : option Disposition) (j : Job) : Job :=
  with_params
    (params j ++ [(PP_DONE_PARAM, PpFinal_as_str outcome)] ++ deobfuscation_params renames ++ receipts
      ++ match d with Some d => [(lit "Failure:Files", di_note d)] | None => [] end)
    (with_status (if bool_decide (outcome = Pp_Success) then JS_Completed else JS_Failed) j).

Definition ARTIFACT_ID : str := lit "Artifact:Id".

(** The inventory's entry for where the files ended. *)
Definition inventory_entry (fd : str) (state : str) (fin : Job) : Prog (result Job PostError) :=
  let p := path_of fd in
  do known := ask (O_ForJob job) in
  try _ := (if match known with Some (Some a) => bool_decide (art_path a = p) | _ => false end then Done (Ok tt)
            else do r := ask (O_Register job (parent p) p) in
                 Done (match r with None => Ok tt | Some e => Err (Subprocess (lit "external result inventory: " ++ e)) end)) in
  do r := ask (O_FinishArtifact job p (parent p) state) in
  match r with
  | Ok a => Done (Ok (push_param ARTIFACT_ID (art_id a) (with_params (List.filter (fun '(k, _) => negb (bool_decide (k = ARTIFACT_ID))) (params fin)) fin)))
  | Err e => Done (Err (Subprocess (lit "file lifecycle finalization: " ++ e)))
  end.

Definition known_artifact (fin : Job) : Prog Job :=
  if existsb (fun '(k, _) => bool_decide (k = ARTIFACT_ID)) (params fin) then Done fin
  else
    do known := ask (O_ForJob job) in
    Done (match known with Some (Some a) => push_param ARTIFACT_ID (art_id a) fin | _ => fin end).

Definition finished_entry (outcome : PpFinal) (final_dir : option str) (now : Z) (fin : Job) : HistoryEntry := {|
  he_job := job; he_name := name fin; he_category := category fin; he_final_dir := final_dir; he_status := PpFinal_as_str outcome;
  he_size := size (totals fin); he_health := calc (totals fin); he_params := user_params fin; he_dupe_key := dupe_key (dupe fin);
  he_dupe_score := dupe_score (dupe fin); he_completed_at_unix := now; he_hidden := false; he_first_seen_at_unix := None;
  he_last_seen_at_unix := None; he_seen_count := 0; he_removed_at_unix := None; he_picked_up_by := None;
  he_record := Some (from_job fin); he_stages := stages fin; he_seq := 0 |}.

(** History, stamp, announcement. *)
Definition publish_outcome (outcome : PpFinal) (final_dir : option str) (fin : Job) : M unit :=
  let* now := lift (ask O_Now) in
  let entry := finished_entry outcome final_dir now fin in
  let* _ := (match Types.files fin with [] => m_ret tt | _ :: _ => lift (ask (O_SpoolNzb job (job_to_nzb fin))) end) in
  let* seq := lift (ask (O_Record entry)) in
  let* _ := lift (ask (O_Import fin)) in
  let* _ := stage_close in
  lift (ask (O_Finished (mkPpFinished job (name fin) (category fin) (PpFinal_as_str outcome) final_dir (size (totals fin))
                          (calc (totals fin)) (user_params fin) (default 0 seq)))).

(** The end of a job behind the last question for the lease. *)
Definition conclude (outcome : PpFinal) (dir : path) (sanitized : str) (renames : Renames) (s : Scripted) : M PpFinal :=
  let* d := (if bool_decide (outcome = Pp_Success) then m_ret None else let* d := lift (dispose_failed dir sanitized) in m_ret (Some d)) in
  let* _ := stage_finish job in
  let* e := lift (ask (O_Export job)) in
  match e with
  | Some (Some j) =>
      let fin := stamped outcome renames (sc_receipts s) d j in
      let final_dir := match d with None => Some (sc_final_dir s) | Some d => display <$> di_files_at d end in
      if publish_history ctx then
        let* fin :=
          (match final_dir with
           | Some fd =>
               lift_try (inventory_entry fd
                 (if bool_decide (outcome = Pp_Success) then lit "completed"
                  else if match d with Some d => starts_with (lit "parked at ") (di_note d) | None => false end then lit "parked_failed"
                  else lit "retained") fin)
           | None => m_ret fin
           end) in
        let* fin := lift (known_artifact fin) in
        let* _ := publish_outcome outcome final_dir fin in
        m_ret outcome
      else
        let fin := match final_dir with Some fd => push_param (lit "*Cluster:final-dir") fd fin | None => fin end in
        let* _ := lift (ask (O_Import fin)) in
        let* _ := stage_close in
        m_ret outcome
  | _ => m_ret outcome
  end.

Definition finalize (dir : path) (sanitized : str) (par_ok : bool) (u : Unpacked) (renames : Renames) (s : Scripted) : M PpFinal :=
  let* held := lift (ask O_CommitOk) in
  if held then conclude (outcome_of par_ok (un_ok u) (sc_ok s)) dir sanitized renames s else lease_lost (lit "finalize").

(** ** One job *)

(** The job and where its files are: in the download directory, or, after a crash
    behind the move, at the category's destination. *)
Definition prepare : Prog (result (Job * path) PostError) :=
  do queued := ask (O_SetPostQueued job) in
  match queued with
  | None => Done (Err (Subprocess (lit "engine")))
  | Some false => Done (Err (Subprocess (lit "job vanished or payload retirement started")))
  | Some true =>
      do e := ask (O_Export job) in
      match e with
      | Some (Some j) =>
          let dir := join dest_dir (job_dir_name j) in
          match rule_for cfg (category j) ≫= rule_dest_dir with
          | None => Done (Ok (j, dir))
          | Some root =>
              let moved := join root (job_dir_name j) in
              do resume := look (fun t => negb (exists_path t dir) && is_dir t moved) in
              Done (Ok (j, if resume then moved else dir))
          end
      | Some None => Done (Err (Subprocess (lit "job vanished")))
      | None => Done (Err (Subprocess (lit "engine")))
      end
  end.

Definition pipeline (from : RestartPoint) (j : Job) (dir : path) : M PpFinal :=
  let sanitized := job_dir_name j in
  let rule := rule_for cfg (category j) in
  let unpack_enabled := default (cfg_unpack cfg) (rule ≫= rule_unpack) in
  let staging := child dir (lit ".pp." ++ ctx_tag ctx) in
  let* _ := lift (touch D_RemoveStaging (remove_stale_staging dir staging)) in
  let* renames := rename_stage from dir unpack_enabled in
  let* (par_ok, repaired, vouched) := par_stage from dir j renames in
  let* u := unpack_stage from dir staging j unpack_enabled par_ok repaired in
  let* _ := cleanup_stage from dir par_ok u in
  let* deobfuscated := deobfuscate_stage from dir sanitized par_ok u vouched in
  let* dir := move_stage from dir staging sanitized rule in
  let* s := script_stage j dir rule par_ok u in
  finalize dir sanitized par_ok u deobfuscated s.

(** [process_job_ctx_from]; the running stage is closed however it ends. *)
Definition process_job (from : RestartPoint) : Prog (result PpFinal PostError) :=
  try (j, dir) := prepare in
  do (st, r) := pipeline from j dir None in
  do (_, ms) := stage_close st in
  do now := ask O_Now in
  do _ := ask (O_CloseStage job now (match ms with Ok ms => ms | Err _ => None end)) in
  Done r.

End Pipeline.
