(* ===== verification/PostInv.v ===== *)
(** * What the post-processor guarantees

    Whatever the tools, the scripts, the engine and the inventory answer, and
    wherever an attempt stops: nothing is published without a lease that was held
    after the last tool, the append of a completion's history entry comes before its
    stamp and its announcement, a successful job keeps its files, and no extractor
    passes off a short extraction. *)

From stdpp Require Import sorting.
From S2P Require Import Prelude RustStr Types JobNames Crc32 Tree Par2 Rename Deobfuscate History PostOps Tools Pipeline.

#[local] Unset Default Proof Using.

(** ** Triples *)

(** From any past with [P], at every event [I], and at the end [Q]. *)
Definition triple {A} (I P : list Event -> Prop) (m : M A) (Q : list Event -> result A PostError -> Prop) : Prop :=
  forall s tr, P tr -> all_runs I (m s) (fun tr' r => Q tr' (snd r)) tr.

Section Triples.
Context (I : list Event -> Prop).

Lemma triple_ret {A} (P : list Event -> Prop) (Q : list Event -> result A PostError -> Prop) a : (forall tr, P tr -> Q tr (Ok a)) -> triple I P (m_ret a) Q.
Proof. intros H s tr HP. by apply H. Qed.

Lemma triple_fail {A} (P : list Event -> Prop) (Q : list Event -> result A PostError -> Prop) e : (forall tr, P tr -> Q tr (Err e)) -> triple I P (m_fail (A := A) e) Q.
Proof. intros H s tr HP. by apply H. Qed.

Lemma triple_bind {A B} P (m : M A) (f : A -> M B) R Q : triple I P m R ->
  (forall a, triple I (fun tr => R tr (Ok a)) (f a) Q) -> (forall tr e, R tr (Err e) -> Q tr (Err e)) -> triple I P (m_bind m f) Q.
Proof.
  intros Hm Hf He s tr HP. unfold m_bind. apply all_runs_bind. eapply all_runs_mono; [by apply Hm|].
  intros tr' [s' [a|e]] HR; cbn in HR; [by apply Hf|by apply He].
Qed.

Lemma triple_weaken {A} (P P' : list Event -> Prop) (m : M A) (Q Q' : list Event -> result A PostError -> Prop) :
  triple I P m Q -> (forall tr, P' tr -> P tr) -> (forall tr r, Q tr r -> Q' tr r) -> triple I P' m Q'.
Proof. intros H HP HQ s tr Htr. eapply all_runs_mono; [by apply H, HP|]. intros tr' r. apply HQ. Qed.

Lemma triple_lift {A} (P : list Event -> Prop) (p : Prog A) (Q : list Event -> result A PostError -> Prop) :
  (forall tr, P tr -> all_runs I p (fun tr' a => Q tr' (Ok a)) tr) -> triple I P (lift p) Q.
Proof. intros H s tr HP. apply all_runs_bind. eapply all_runs_mono; [by apply H|]. intros tr' a Ha. exact Ha. Qed.

Lemma triple_lift_try {A} (P : list Event -> Prop) (p : Prog (result A PostError)) (Q : list Event -> result A PostError -> Prop) :
  (forall tr, P tr -> all_runs I p Q tr) -> triple I P (lift_try p) Q.
Proof. intros H s tr HP. apply all_runs_bind. eapply all_runs_mono; [by apply H|]. intros tr' a Ha. exact Ha. Qed.

End Triples.

(** ** Events, and when they are allowed *)

Inductive Class :=
| C_work | C_tool | C_check (b : bool) | C_stage (s : PostStage)
| C_commit                                   (* staged output goes into place *)
| C_move                                     (* the inventory moves the payload *)
| C_inventory                                (* ... or records where it is *)
| C_delete                                   (* ... or deletes it *)
| C_record (e : HistoryEntry) (seq : option Z)
| C_import (fin : Job)
| C_finished (f : PpFinished).

Definition class_of (e : Event) : Class :=
  match e with
  | E_Touch l => if bool_decide (l = D_Commit) then C_commit else C_work
  | E_Ask o x =>
      (match o in Op X return X -> Class with
       | O_CommitOk => C_check
       | O_RunTool _ _ _ => fun _ => C_tool
       | O_RunScript _ _ _ => fun _ => C_tool
       | O_EnterStage _ s _ _ => fun _ => C_stage s
       | O_Relocate _ _ => fun _ => C_move
       | O_Register _ _ _ => fun _ => C_inventory
       | O_FinishArtifact _ _ _ _ => fun _ => C_inventory
       | O_RequestDelete _ _ _ => fun _ => C_delete
       | O_ExecuteDelete _ => fun _ => C_delete
       | O_Record e => C_record e
       | O_Import fin => fun _ => C_import fin
       | O_Finished f => fun _ => C_finished f
       | _ => fun _ => C_work
       end) x
  end.

(** The lease was held when last asked, and no tool or script has run since. *)
Fixpoint held (tr : list Event) : bool :=
  match tr with
  | [] => false
  | e :: tr' => match class_of e with C_check b => b | C_tool => false | _ => held tr' end
  end.

Definition happened (p : Class -> Prop) (tr : list Event) : Prop := Exists (fun e => p (class_of e)) tr.

Definition stage_allowed (from : RestartPoint) (s : PostStage) : Prop :=
  match s with
  | ParRename | RarRename => from = At_Beginning
  | ParVerify => includes from At_Verify = true
  | Unpack => includes from At_Unpack = true
  | Cleanup | PostUnpackRename => includes from At_Cleanup = true
  | Move => includes from At_Move = true
  | ParRepair | Script => True
  end.

Definition records (job : JobId) (st : str) (seq : option Z) (c : Class) : Prop :=
  match c with C_record e s => he_job e = job /\ he_status e = st /\ s = seq | _ => False end.

Definition stamps (st : str) (c : Class) : Prop :=
  match c with C_import fin => (PP_DONE_PARAM, st) ∈ params fin | _ => False end.

Definition deletes (c : Class) : Prop := match c with C_delete => True | _ => False end.
Definition imports (c : Class) : Prop := match c with C_import _ => True | _ => False end.

Lemma happened_rev p tr : happened p (rev tr) <-> happened p tr.
Proof. unfold happened. split; intros Hx; [rewrite <- (rev_involutive tr)|]; by apply Exists_rev. Qed.

(** What stamps is an import. *)
Lemma imported st e : stamps st (class_of e) -> exists fin, e = E_Ask (O_Import fin) tt.
Proof. destruct e as [X o x|l]; [|by destruct l]. destruct o; cbn; try done; try by destruct x. destruct x. eauto. Qed.

Section Events.
Variables (job : JobId) (publishes : bool) (from : RestartPoint).

(** What may happen next. *)
Definition may_happen (c : Class) (past : list Event) : Prop :=
  match c with
  | C_work | C_tool | C_check _ => True
  | C_stage s => stage_allowed from s
  | C_commit | C_move | C_inventory => held past = true
  | C_delete => held past = true /\ ~ happened imports past
  | C_record _ _ => held past = true
  | C_import fin =>
      held past = true /\ (happened deletes past -> status fin = JS_Failed) /\
      (publishes = true -> exists st seq, happened (records job st seq) past /\ (PP_DONE_PARAM, st) ∈ params fin)
  | C_finished f =>
      held past = true /\ happened (stamps (ppf_status f)) past /\
      exists seq, happened (records job (ppf_status f) seq) past /\ ppf_history_seq f = default 0 seq
  end.

Definition orderly (tr : list Event) : Prop := match tr with [] => True | e :: past => may_happen (class_of e) past end.

(** ** Programs that only work

    Before the end of a job nothing is recorded, imported or deleted. *)

Definition kept (tr : list Event) : Prop := ~ happened deletes tr /\ ~ happened imports tr.

Definition plain (c : Class) : Prop :=
  match c with C_work | C_tool | C_check _ => True | C_stage s => stage_allowed from s | _ => False end.

Definition works {A} (p : Prog A) : Prop := forall tr, kept tr -> all_runs orderly p (fun tr' _ => kept tr') tr.
Definition front {A} (m : M A) : Prop := forall s, works (m s).

Lemma happened_cons p e tr : happened p (e :: tr) <-> p (class_of e) \/ happened p tr.
Proof. apply Exists_cons. Qed.

Lemma kept_cons e tr : ~ deletes (class_of e) /\ ~ imports (class_of e) -> kept tr -> kept (e :: tr).
Proof. intros He Hk. unfold kept. rewrite !happened_cons. destruct Hk. tauto. Qed.

Lemma plain_step e tr : plain (class_of e) -> kept tr -> orderly (e :: tr) /\ kept (e :: tr).
Proof.
  intros Hp Hk. assert (Hd : ~ deletes (class_of e) /\ ~ imports (class_of e)) by (revert Hp; destruct (class_of e); cbn; tauto).
  split; [|by apply kept_cons]. cbn. revert Hp. destruct (class_of e); cbn; tauto.
Qed.

Lemma works_done {A} (a : A) : works (Done a).
Proof. by intros tr Hk. Qed.

Lemma works_ask {X} (o : Op X) : (forall x, plain (class_of (E_Ask o x))) -> works (ask o).
Proof. intros Hp tr Hk x. apply plain_step; [apply Hp|done]. Qed.

Lemma works_touch {X} l (f : Tree -> run (Tree * X)) : l <> D_Commit -> works (touch l f).
Proof.
  intros Hl tr Hk. destruct (plain_step (E_Touch l) tr) as [H1 H2]; [cbn; by rewrite bool_decide_eq_false_2|done|]. cbn. by split.
Qed.

Lemma works_bind {A B} (p : Prog A) (f : A -> Prog B) : works p -> (forall a, works (f a)) -> works (prog_bind p f).
Proof. intros Hp Hf tr Hk. apply all_runs_bind. eapply all_runs_mono; [by apply Hp|]. intros tr' a Hk'. by apply Hf. Qed.

Lemma works_try {A B E} (p : Prog (result A E)) (f : A -> Prog (result B E)) : works p -> (forall a, works (f a)) -> works (try_bind p f).
Proof. intros Hp Hf. apply works_bind; [done|]. intros [a|e]; [apply Hf|apply works_done]. Qed.

Lemma front_ret {A} (a : A) : front (m_ret a).
Proof. intros s. apply works_done. Qed.

Lemma front_fail {A} e : front (m_fail (A := A) e).
Proof. intros s. apply works_done. Qed.

Lemma front_bind {A B} (m : M A) (f : A -> M B) : front m -> (forall a, front (f a)) -> front (m_bind m f).
Proof. intros Hm Hf s. apply works_bind; [apply Hm|]. intros [s' [a|e]]; [apply Hf|apply works_done]. Qed.

Lemma front_lift {A} (p : Prog A) : works p -> front (lift p).
Proof. intros Hp s. apply works_bind; [done|]. intros a. apply works_done. Qed.

Lemma front_lift_try {A} (p : Prog (result A PostError)) : works p -> front (lift_try p).
Proof. intros Hp s. apply works_bind; [done|]. intros a. apply works_done. Qed.

Lemma front_stage_close : front stage_close.
Proof. intros [st|]; [|apply works_done]. apply works_bind; [by apply works_ask|]. intros ms. apply works_done. Qed.

Lemma front_stage_enter j st : stage_allowed from st -> front (stage_enter j st).
Proof.
  intros Ha. apply front_bind; [apply front_stage_close|]. intros prev. apply front_bind; [by apply front_lift, works_ask|]. intros now.
  apply front_bind; [by apply front_lift, works_ask|]. intros _. apply front_bind; [by apply front_lift, works_ask|]. intros _ s. apply works_done.
Qed.

(** A commit or a move right behind the question whether the lease is held. *)
Lemma front_checked {A X} (p : Prog X) (k : X -> M A) (m : M A) :
  (forall tr, kept tr -> held tr = true -> all_runs orderly p (fun tr' _ => kept tr') tr) ->
  (forall x, front (k x)) -> front m -> front (m_bind (lift (ask O_CommitOk)) (fun b => if b then m_bind (lift p) k else m)).
Proof.
  intros Hp Hk Hm s tr Ht x. destruct (plain_step (E_Ask O_CommitOk x) tr Logic.I Ht) as [H1 H2]. split; [exact H1|].
  destruct x; [|by apply Hm]. apply (all_runs_bind _ (lift p s)), (all_runs_bind _ p). eapply all_runs_mono; [by apply Hp|]. intros tr' x Hk'. by apply Hk.
Qed.

End Events.

(** Takes a program of the front part to its calls. *)
Ltac front_step :=
  match goal with
  | |- works _ _ _ (Done _) => apply works_done
  | |- works _ _ _ (ask _) => apply works_ask; intros; exact Logic.I
  | |- works _ _ _ (look _) => apply works_touch; done
  | |- works _ _ _ (touch _ _) => apply works_touch; done
  | |- works _ _ _ (try_bind _ _) => apply works_try; [|intros ?]
  | |- works _ _ _ (prog_bind _ _) => apply works_bind; [|intros ?]
  | |- works _ _ _ (match ?x with _ => _ end) => destruct x
  | |- forall _, front _ _ _ _ => intros ?
  | |- front _ _ _ (lease_lost _) => apply front_fail
  | |- front _ _ _ (m_ret _) => apply front_ret
  | |- front _ _ _ (m_fail _) => apply front_fail
  | |- front _ _ _ (m_bind _ _) => apply front_bind; [|intros ?]
  | |- front _ _ _ (lift _) => apply front_lift
  | |- front _ _ _ (lift_try _) => apply front_lift_try
  | |- front _ _ _ (match ?x with _ => _ end) => destruct x eqn:?
  end.


Section Pipelines.
Context {H : Type} {hasher : Crc32Hasher H}.
Context (allowed : path -> path -> bool) (md5 : bytes -> bytes) (to_lowercase : str -> str) (listing : list path -> list path).
Context (sha256_hex : str -> str) (version : str) (debug_op : result ArtifactOp str -> str) (debug_err : option str -> str).
Variables (cfg : PostConfig) (ctx : PpCtx) (dest_dir : path) (job : JobId) (from : RestartPoint).

Abbreviation works := (works job (publish_history ctx) from).
Abbreviation front := (front job (publish_history ctx) from).

Ltac walk := repeat front_step.

Lemma works_extract ex archive k dest pw : works (extract to_lowercase ex archive k dest pw).
Proof.
  assert (Hd : forall d, works (make_dir d)) by (intros d; unfold make_dir; walk).
  assert (H1 : forall k, works (extract_once ex archive k dest pw)) by (intros k'; unfold extract_once; destruct k'; walk; apply Hd).
  assert (H2 : forall r, works (delivered to_lowercase archive dest r)) by (intros r; unfold delivered; walk).
  unfold extract. destruct k; repeat first [apply Hd|apply H1|apply H2|front_step].
Qed.

Lemma works_load_dir dir : works (load_dir dir).
Proof. unfold load_dir. walk. Qed.

Lemma works_wait n : works (wait_loop job n).
Proof. induction n as [|n IH]; [apply works_done|]. cbn [wait_loop]. repeat first [exact IH|front_step]. Qed.

Lemma front_enter st : stage_allowed from st -> front (stage_enter job st).
Proof. apply front_stage_enter. Qed.

Lemma front_repair main : front (repair_loop cfg job main).
Proof.
  unfold repair_loop. generalize ROUNDS. intros n. induction n as [|n IH]; [apply front_ret|]. cbn [repair_rounds].
  repeat first [exact IH|apply works_wait|by apply front_enter|unfold verify_full, repair, par2_block_size, wait_par_files; front_step|front_step].
Qed.

Lemma front_rename_stage dir en : front (rename_stage allowed md5 to_lowercase job from dir en).
Proof.
  unfold rename_stage. case_bool_decide as E; [|walk]. repeat first [by apply front_enter|front_step].
Qed.

Lemma front_par_stage dir j rs : front (par_stage (hasher := hasher) cfg job from dir j rs).
Proof.
  unfold par_stage. repeat first [apply works_load_dir|apply front_repair|by apply front_enter|front_step].
Qed.

Lemma front_remove_staging st : front (remove_staging st).
Proof. unfold remove_staging. walk. Qed.

Lemma front_forced dir archive staging k pw r : includes from At_Unpack = true -> front (forced_repair to_lowercase cfg job dir archive staging k pw r).
Proof.
  intros Hu. unfold forced_repair.
  repeat first [apply works_load_dir|apply front_repair|apply works_extract|apply front_remove_staging|by apply front_enter|front_step].
Qed.

Lemma front_unpack_one dir staging pw par_ok rep archive k : includes from At_Unpack = true ->
  front (unpack_one to_lowercase cfg job dir staging pw par_ok rep archive k).
Proof.
  intros Hu. unfold unpack_one.
  assert (Hc : forall k (m : M bool), (forall x, front (k x)) -> front m ->
    front (m_bind (lift (ask O_CommitOk)) (fun b => if b then m_bind (lift (touch D_Commit (commit_staging staging dir))) k else m))).
  { intros k' m Hk Hm. apply front_checked; [|done|done]. intros tr Ht Hh. split; [exact Hh|]. intros x. apply kept_cons; [cbn; tauto|done]. }
  repeat first [apply works_extract|by apply front_forced|apply front_remove_staging|apply Hc|front_step].
Qed.

Lemma front_unpack_all dir staging pw par_ok archives u : includes from At_Unpack = true ->
  front (unpack_all to_lowercase cfg job dir staging pw par_ok archives u).
Proof.
  intros Hu. revert u. induction archives as [|[a k] archives IH]; intros u; cbn [unpack_all]; [apply front_ret|].
  apply front_bind; [by apply front_unpack_one|]. intros [ok rep]. apply IH.
Qed.

Lemma front_unpack_stage dir staging j en par_ok rep : front (unpack_stage to_lowercase cfg job from dir staging j en par_ok rep).
Proof.
  unfold unpack_stage. destruct en; cbn [andb]; [|walk]. destruct (includes from At_Unpack) eqn:Hu; [|walk].
  repeat first [by apply front_unpack_all|by apply front_enter|front_step].
Qed.

Lemma front_cleanup_stage dir par_ok u : front (cleanup_stage to_lowercase cfg job from dir par_ok u).
Proof. unfold cleanup_stage. destruct (includes from At_Cleanup) eqn:Hc; cbn [andb]; [|walk]. repeat first [by apply front_enter|front_step]. Qed.

Lemma front_deobfuscate_stage dir nm par_ok u vouched : front (deobfuscate_stage allowed listing cfg job from dir nm par_ok u vouched).
Proof. unfold deobfuscate_stage. destruct (includes from At_Cleanup) eqn:Hc; cbn [andb]; [|walk]. repeat first [by apply front_enter|front_step]. Qed.

Lemma front_move_stage dir staging nm rule : front (move_stage job from dir staging nm rule).
Proof.
  unfold move_stage. destruct (includes from At_Move) eqn:Hm; [|walk].
  repeat first [by apply front_enter|apply front_remove_staging|apply front_checked|front_step].
  intros tr Ht Hh x. split; [exact Hh|]. apply kept_cons; [cbn; tauto|done].
Qed.

Lemma front_run_script dir script env s : front (run_script cfg job dir script env s).
Proof.
  unfold run_script. repeat first [apply works_load_dir|front_step].
  intros st. apply works_bind; [apply front_repair|]. intros [st' r]. apply works_done.
Qed.

Lemma front_run_scripts dir base scripts s : front (run_scripts sha256_hex cfg ctx job dir base scripts s).
Proof.
  revert s. induction scripts as [|script scripts IH]; intros s; cbn [run_scripts]; [apply front_ret|].
  repeat first [apply IH|apply front_run_script|front_step].
Qed.

Lemma front_script_stage j dir rule par_ok u : front (script_stage sha256_hex version cfg ctx job j dir rule par_ok u).
Proof. unfold script_stage. repeat first [apply front_run_scripts|by apply front_enter|front_step]. Qed.

Lemma works_prepare : works (prepare cfg dest_dir job).
Proof. unfold prepare. walk. Qed.


(** ** The end of a job

    From the question whether the lease is held on: nothing is asked of a tool, and
    only a failed job is deleted, before it is imported. *)

Abbreviation good := (all_runs (orderly job (publish_history ctx) from)).

Definition ending (outcome : PpFinal) (tr : list Event) : Prop :=
  held tr = true /\ (outcome = Pp_Success -> ~ happened deletes tr) /\ ~ happened imports tr.

Definition quiet (outcome : PpFinal) (c : Class) : Prop :=
  match c with C_work | C_move | C_inventory => True | C_delete => outcome <> Pp_Success | _ => False end.

Lemma ending_step outcome e tr : quiet outcome (class_of e) -> ending outcome tr -> orderly job (publish_history ctx) from (e :: tr) /\ ending outcome (e :: tr).
Proof.
  intros Hq (Hh & Hd & Hi). unfold ending. rewrite !happened_cons. cbn. revert Hq. destruct (class_of e); cbn; tauto.
Qed.

Definition ends {A} (outcome : PpFinal) (p : Prog A) (Q : A -> Prop) : Prop :=
  forall tr, ending outcome tr -> good p (fun tr' a => ending outcome tr' /\ Q a) tr.

Lemma ends_done {A} outcome (a : A) (Q : A -> Prop) : Q a -> ends outcome (Done a) Q.
Proof. by intros Hq tr Ht. Qed.

Lemma ends_ask {X} outcome (o : Op X) (Q : X -> Prop) : (forall x, quiet outcome (class_of (E_Ask o x)) /\ Q x) -> ends outcome (ask o) Q.
Proof. intros Hq tr Ht x. destruct (Hq x) as [Hc Hx]. destruct (ending_step _ _ _ Hc Ht). by split. Qed.

Lemma ends_bind {A B} outcome (p : Prog A) (f : A -> Prog B) Q R : ends outcome p R -> (forall a, R a -> ends outcome (f a) Q) -> ends outcome (prog_bind p f) Q.
Proof. intros Hp Hf tr Ht. apply all_runs_bind. eapply all_runs_mono; [by apply Hp|]. intros tr' a [Ht' Ha]. by apply Hf. Qed.

Lemma ends_any {A B} outcome (p : Prog A) (f : A -> Prog B) Q : ends outcome p (fun _ => True) -> (forall a, ends outcome (f a) Q) -> ends outcome (prog_bind p f) Q.
Proof. intros Hp Hf. eapply ends_bind; [exact Hp|]. intros a _. apply Hf. Qed.

Lemma ends_try {A B E} outcome (p : Prog (result A E)) (f : A -> Prog (result B E)) (Q : result B E -> Prop) :
  ends outcome p (fun _ => True) -> (forall a, ends outcome (f a) Q) -> (forall e, Q (Err e)) -> ends outcome (try_bind p f) Q.
Proof. intros Hp Hf He. apply ends_any; [done|]. intros [a|e]; [apply Hf|by apply ends_done]. Qed.

Ltac end_step :=
  match goal with
  | |- ends _ (Done _) _ => apply ends_done; try exact Logic.I
  | |- ends _ (ask _) _ => apply ends_ask; intros; split; [try exact Logic.I; try done|]
  | |- ends _ (try_bind _ _) _ => apply ends_try; [|intros ?|intros ?]
  | |- ends _ (prog_bind _ _) _ => apply ends_any; [|intros ?]
  | |- ends _ (match ?x with _ => _ end) _ => destruct x eqn:?
  | |- True => exact Logic.I
  end.

Lemma ends_dispose outcome dir nm : outcome <> Pp_Success -> ends outcome (dispose_failed debug_op debug_err cfg dest_dir job dir nm) (fun _ => True).
Proof. intros Ho. unfold dispose_failed, checked_delete. repeat end_step. Qed.

(** The job carries its outcome, and is a failed one unless it succeeded. *)
Definition carries (outcome : PpFinal) (fin : Job) : Prop :=
  (PP_DONE_PARAM, PpFinal_as_str outcome) ∈ params fin /\ (outcome <> Pp_Success -> status fin = JS_Failed).

Lemma stamped_carries outcome rs rc d j : carries outcome (stamped outcome rs rc d j).
Proof.
  split.
  - unfold stamped, with_params. cbn [params]. rewrite !elem_of_app, list_elem_of_singleton. tauto.
  - intros Ho. cbn. by rewrite bool_decide_eq_false_2.
Qed.

Lemma push_param_carries outcome k v fin : carries outcome fin -> carries outcome (push_param k v fin).
Proof. intros [H1 H2]. split; [|exact H2]. cbn. apply elem_of_app. by left. Qed.

Lemma without_id_carries outcome fin : carries outcome fin ->
  carries outcome (with_params (List.filter (fun '(k, _) => negb (bool_decide (k = ARTIFACT_ID))) (params fin)) fin).
Proof.
  intros [H1 H2]. split; [|exact H2]. cbn. apply list_elem_of_In, filter_In. split; [by apply list_elem_of_In|]. by vm_compute.
Qed.

Lemma ends_inventory outcome fd st fin : carries outcome fin ->
  ends outcome (inventory_entry job fd st fin) (fun r => match r with Ok fin => carries outcome fin | Err _ => True end).
Proof.
  intros Hf. unfold inventory_entry. repeat end_step. by apply push_param_carries, without_id_carries.
Qed.

Lemma ends_known outcome fin : carries outcome fin -> ends outcome (known_artifact job fin) (carries outcome).
Proof. intros Hf. unfold known_artifact. repeat end_step; repeat case_match; first [done|by apply push_param_carries]. Qed.

(** What only has to keep the order. *)
Definition closes {A} (tr : list Event) (p : Prog A) : Prop := good p (fun _ _ => True) tr.

Lemma closes_ends {A B} outcome (p : Prog A) (f : A -> Prog B) tr R : ends outcome p R -> ending outcome tr ->
  (forall tr' a, ending outcome tr' -> R a -> closes tr' (f a)) -> closes tr (prog_bind p f).
Proof. intros Hp Ht Hf. apply all_runs_bind. eapply all_runs_mono; [by apply Hp|]. intros tr' a [Ht' Ha]. by apply Hf. Qed.

Definition ends_m {A} (outcome : PpFinal) (m : M A) (Q : A -> Prop) : Prop :=
  forall st, ends outcome (m st) (fun r => match snd r with Ok a => Q a | Err _ => True end).

Definition closes_m {A} (outcome : PpFinal) (m : M A) : Prop := forall st tr, ending outcome tr -> closes tr (m st).

Lemma closes_done {A} tr (a : A) : closes tr (Done a).
Proof. exact Logic.I. Qed.

Lemma closes_m_bind {A B} outcome (m : M A) (f : A -> M B) R : ends_m outcome m R -> (forall a, R a -> closes_m outcome (f a)) -> closes_m outcome (m_bind m f).
Proof.
  intros Hm Hf st tr Ht. eapply closes_ends; [apply Hm|exact Ht|]. intros tr' [st' [a|e]] Ht' Ha; [by apply Hf|apply closes_done].
Qed.

Lemma ends_m_ret {A} outcome (a : A) (Q : A -> Prop) : Q a -> ends_m outcome (m_ret a) Q.
Proof. intros Ha st. by apply ends_done. Qed.

Lemma ends_m_bind {A B} outcome (m : M A) (f : A -> M B) Q R : ends_m outcome m R -> (forall a, R a -> ends_m outcome (f a) Q) -> ends_m outcome (m_bind m f) Q.
Proof. intros Hm Hf st. eapply ends_bind; [apply Hm|]. intros [st' [a|e]] Ha; [by apply Hf|by apply ends_done]. Qed.

Lemma ends_m_lift {A} outcome (p : Prog A) (Q : A -> Prop) : ends outcome p Q -> ends_m outcome (lift p) Q.
Proof. intros Hp st. eapply ends_bind; [exact Hp|]. intros a Ha. by apply ends_done. Qed.

Lemma ends_m_lift_try {A} outcome (p : Prog (result A PostError)) (Q : A -> Prop) :
  ends outcome p (fun r => match r with Ok a => Q a | Err _ => True end) -> ends_m outcome (lift_try p) Q.
Proof. intros Hp st. eapply ends_bind; [exact Hp|]. intros a Ha. by apply ends_done. Qed.

Lemma ends_m_close outcome : ends_m outcome stage_close (fun _ => True).
Proof. intros [st|]; [|by apply ends_done]. unfold stage_close. repeat end_step. Qed.

Lemma ends_m_finish outcome : ends_m outcome (stage_finish job) (fun _ => True).
Proof.
  eapply ends_m_bind; [apply ends_m_close|]. intros ms _. eapply (ends_m_bind _ _ _ _ (fun _ => True)); [apply ends_m_lift; by repeat end_step|].
  intros now _. apply ends_m_lift. repeat end_step.
Qed.

(** Record, import, announce. *)
Lemma closes_publish outcome fd fin : publish_history ctx = true -> carries outcome fin -> closes_m outcome (publish_outcome job outcome fd fin).
Proof.
  intros Hp Hf. apply (closes_m_bind _ _ _ (fun _ => True)); [apply ends_m_lift; by repeat end_step|]. intros now _.
  apply (closes_m_bind _ _ _ (fun _ => True)).
  { destruct (Types.files fin); [by apply ends_m_ret|apply ends_m_lift; by repeat end_step]. }
  intros _ _ st tr (Hh & Hd & Hi) seq. split; [exact Hh|]. intros []. destruct Hf as [Hs Hj].
  assert (Hrec : happened (records job (PpFinal_as_str outcome) seq) (E_Ask (O_Record (finished_entry job outcome fd now fin)) seq :: tr)).
  { apply happened_cons. left. by cbn. }
  split.
  { cbn. split_and!; [exact Hh| |by eauto]. rewrite happened_cons. cbn. intros [[]|Hdel]. apply Hj. intros E. by apply Hd. }
  assert (Hend : forall tr', (forall p, happened p (E_Ask (O_Import fin) tt :: E_Ask (O_Record (finished_entry job outcome fd now fin)) seq :: tr) -> happened p tr') ->
    held tr' = true -> closes tr' (lift (ask (O_Finished (mkPpFinished job (name fin) (category fin) (PpFinal_as_str outcome) fd (size (totals fin))
                          (calc (totals fin)) (user_params fin) (default 0 seq)))) None)).
  { intros tr' Hmono Hh' []. split; [|exact Logic.I]. cbn. split_and!; [exact Hh'| |].
    - apply Hmono, happened_cons. left. exact Hs.
    - exists seq. split; [|done]. by apply Hmono, happened_cons; right. }
  destruct st as [st|]; cbn.
  - intros ms. split; [exact Logic.I|]. set (tr3 := _ :: _ :: tr) in *. refine (Hend (E_Ask O_StageElapsed ms :: tr3) _ Hh).
    intros p Hx. apply happened_cons. by right.
  - set (tr3 := _ :: _ :: tr) in *. by refine (Hend tr3 _ Hh).
Qed.

Abbreviation conclude dir nm o rs s := (conclude debug_op debug_err cfg ctx dest_dir job o dir nm rs s).
Abbreviation finalize := (finalize debug_op debug_err cfg ctx dest_dir job).
Abbreviation pipeline := (pipeline allowed md5 to_lowercase listing sha256_hex version debug_op debug_err cfg ctx dest_dir job).
Abbreviation process_job := (process_job allowed md5 to_lowercase listing sha256_hex version debug_op debug_err cfg ctx dest_dir job).

Lemma closes_import outcome fin st tr : publish_history ctx = false -> carries outcome fin -> ending outcome tr ->
  closes tr ((let* _ := lift (ask (O_Import fin)) in let* _ := stage_close in m_ret outcome) st).
Proof.
  intros Hp [_ Hj] (Hh & Hd & _) []. split.
  - cbn. split_and!; [exact Hh| |by rewrite Hp]. intros Hdel. apply Hj. intros E. by apply Hd.
  - destruct st as [st|]; [|exact Logic.I]. intros ms. by split.
Qed.

Lemma closes_m_then {A B} outcome (m : M A) (b : B) : closes_m outcome m -> closes_m outcome (let* _ := m in m_ret b).
Proof. intros Hm st tr Ht. apply all_runs_bind. eapply all_runs_mono; [by apply Hm|]. by intros tr' [st' [a|e]] _. Qed.

Lemma closes_conclude outcome dir nm rs s : closes_m outcome (conclude dir nm outcome rs s).
Proof.
  apply (closes_m_bind _ _ _ (fun _ => True)).
  { case_bool_decide; [by apply ends_m_ret|]. eapply (ends_m_bind _ _ _ _ (fun _ => True)); [by apply ends_m_lift, ends_dispose|]. intros d _. by apply ends_m_ret. }
  intros d _. apply (closes_m_bind _ _ _ (fun _ => True)); [apply ends_m_finish|]. intros _ _.
  apply (closes_m_bind _ _ _ (fun _ => True)); [apply ends_m_lift; by repeat end_step|]. intros [[j|]|] _; try by intros st tr _.
  set (fin := stamped _ _ _ _ _). assert (Hf : carries outcome fin) by apply stamped_carries. clearbody fin.
  destruct (publish_history ctx) eqn:Hp.
  - apply (closes_m_bind _ _ _ (carries outcome)).
    { destruct (match d with None => _ | Some _ => _ end); [|by apply ends_m_ret]. by apply ends_m_lift_try, ends_inventory. }
    intros fin' Hf'. apply (closes_m_bind _ _ _ (carries outcome)); [by apply ends_m_lift, ends_known|]. intros fin2 Hf2.
    apply closes_m_then. by apply closes_publish.
  - intros st tr Ht. apply closes_import; [done| |done]. destruct (match d with None => _ | Some _ => _ end); [by apply push_param_carries|done].
Qed.

Lemma closes_finalize dir nm par_ok u rs s st tr : kept tr -> closes tr (finalize dir nm par_ok u rs s st).
Proof.
  intros [Hd Hi] b. split; [exact Logic.I|]. destruct b; [|exact Logic.I]. apply closes_conclude.
  unfold ending. rewrite !happened_cons. cbn. tauto.
Qed.

Lemma closes_works {A B} (p : Prog A) (f : A -> Prog B) tr : works p -> kept tr -> (forall tr' a, kept tr' -> closes tr' (f a)) -> closes tr (prog_bind p f).
Proof. intros Hp Ht Hf. apply all_runs_bind. eapply all_runs_mono; [by apply Hp|]. intros tr' a. apply Hf. Qed.

Lemma closes_front {A B} (m : M A) (f : A -> M B) st tr : front m -> kept tr -> (forall tr' a st', kept tr' -> closes tr' (f a st')) -> closes tr (m_bind m f st).
Proof. intros Hm Ht Hf. apply closes_works; [apply Hm|done|]. intros tr' [st' [a|e]] Ht'; [by apply Hf|exact Logic.I]. Qed.

Lemma closes_pipeline j dir st tr : kept tr -> closes tr (pipeline from j dir st).
Proof.
  intros Ht. unfold Pipeline.pipeline.
  apply closes_front; [walk|done|]. intros tr1 _ st1 H1. apply closes_front; [apply front_rename_stage|done|]. intros tr2 rs st2 H2.
  apply closes_front; [apply front_par_stage|done|]. intros tr3 [[par_ok rep] vouched] st3 H3.
  apply closes_front; [apply front_unpack_stage|done|]. intros tr4 u st4 H4.
  apply closes_front; [apply front_cleanup_stage|done|]. intros tr5 _ st5 H5.
  apply closes_front; [apply front_deobfuscate_stage|done|]. intros tr6 ds st6 H6.
  apply closes_front; [apply front_move_stage|done|]. intros tr7 dir' st7 H7.
  apply closes_front; [apply front_script_stage|done|]. intros tr8 s st8 H8. by apply closes_finalize.
Qed.

Lemma process_orderly tr : kept tr -> closes tr (process_job from).
Proof.
  intros Ht. apply closes_works; [apply works_prepare|done|]. intros tr1 [[j dir]|e] H1; [|exact Logic.I].
  apply all_runs_bind. eapply all_runs_mono; [by apply closes_pipeline|]. intros tr2 [[st|] r] _; [intros ms; split; [exact Logic.I|]|]; intros now; (split; [exact Logic.I|]); intros []; by split.
Qed.

(** What may happen, at every event of every run. *)
Lemma process_may_happen t tr t' r before e after : exec t (process_job from) tr t' r -> tr = before ++ e :: after ->
  may_happen job (publish_history ctx) from (class_of e) (rev before).
Proof.
  intros Hr ->. assert (Hk : kept []) by (split; by inversion 1).
  destruct (all_runs_exec _ _ _ _ _ _ _ Hr [] (process_orderly [] Hk)) as [Ho _].
  specialize (Ho (before ++ [e]) after). rewrite <- app_assoc, rev_app_distr, app_nil_r in Ho. apply Ho; [done|by destruct before].
Qed.

End Pipelines.
