(* ===== verification/PostSafety.v ===== *)
(** * The post-processor's properties

    The events of every run of [process_job], what a repair that reports success
    has been told, and what an extraction that reports success left on the disk. *)

From stdpp Require Import sorting.
From S2P Require Import Prelude RustStr Types JobNames Crc32 Tree Par2 Rename Deobfuscate History PostOps Tools Pipeline PostInv.

#[local] Unset Default Proof Using.

(** ** Concrete runs *)

(** What answers the calls, and what a call does to the tree. *)
Definition World : Type := forall X, Op X -> Tree -> Tree * X.

Fixpoint play {A} (w : World) (t : Tree) (p : Prog A) : run (list Event * Tree * A) :=
  match p with
  | Done a => Ret ([], t, a)
  | Ask o k => let (t1, x) := w _ o t in let! (tr, t', a) := play w t1 (k x) in Ret (E_Ask o x :: tr, t', a)
  | Touch l f k => let! (t1, x) := f t in let! (tr, t', a) := play w t1 (k x) in Ret (E_Touch l :: tr, t', a)
  end.

Lemma play_exec {A} w (p : Prog A) t tr t' a : play w t p = Ret (tr, t', a) -> exec t p tr t' (Some a).
Proof.
  revert t tr t' a. induction p as [b|X o k IH|X l f k IH]; intros t tr t' a; cbn.
  - intros [= <- <- <-]. constructor.
  - destruct (w X o t) as [t1 x]. destruct (play w t1 (k x)) as [[[tr1 t2] b]|] eqn:E; cbn; [|done].
    intros [= <- <- <-]. econstructor. by apply IH.
  - destruct (f t) as [[t1 x]|] eqn:Ef; cbn; [|done]. destruct (play w t1 (k x)) as [[[tr1 t2] b]|] eqn:E; cbn; [|done].
    intros [= <- <- <-]. econstructor; [exact Ef|]. by apply IH.
Qed.

(** ** Every run of a job *)

Section Jobs.
Context {H : Type} {hasher : Crc32Hasher H}.
Context (allowed : path -> path -> bool) (md5 : bytes -> bytes) (to_lowercase : str -> str) (listing : list path -> list path).
Context (sha256_hex : str -> str) (version : str) (debug_op : result ArtifactOp str -> str) (debug_err : option str -> str).
Variables (cfg : PostConfig) (ctx : PpCtx) (dest_dir : path) (job : JobId).

Abbreviation process_job := (process_job allowed md5 to_lowercase listing sha256_hex version debug_op debug_err cfg ctx dest_dir job).

(** What leaves the staging directory, moves the payload, deletes it, or tells of it. *)
Definition publishes (c : Class) : Prop :=
  match c with C_work | C_tool | C_check _ | C_stage _ => False | _ => True end.

(** C13: Whatever the tools, the scripts and the inventory answer, and wherever an
    attempt stops: output leaves the staging directory, the payload is moved,
    registered or deleted, a history entry is written, the job is imported and the
    completion is announced only while the last question for the lease was answered
    "held", with no tool and no script run since. *)
Theorem publishes_under_lease from t tr t' r before e after :
  exec t (process_job from) tr t' r -> tr = before ++ e :: after -> publishes (class_of e) -> held (rev before) = true.
Proof.
  intros Hr Htr Hp. pose proof (process_may_happen _ _ _ _ _ _ _ _ _ _ _ _ _ _ _ _ _ _ _ _ Hr Htr) as Hm.
  revert Hp Hm. destruct (class_of e); cbn; tauto.
Qed.

(** C14: On a node that publishes history, a completion is announced only after the
    append of its entry was answered, with success or failure, and after the job was
    stamped with that status behind the append; the announcement carries the number
    the append answered.  A failed append stops neither the stamp nor the
    announcement: it carries 0 then, and the history has no entry. *)
Theorem announced_after_record from t tr t' r before f after : publish_history ctx = true ->
  exec t (process_job from) tr t' r -> tr = before ++ E_Ask (O_Finished f) tt :: after ->
  (exists seq, happened (records job (ppf_status f) seq) (rev before) /\ ppf_history_seq f = default 0 seq) /\
  exists b1 b2 fin, before = b1 ++ E_Ask (O_Import fin) tt :: b2 /\ (PP_DONE_PARAM, ppf_status f) ∈ params fin /\
    exists st seq, happened (records job st seq) (rev b1) /\ (PP_DONE_PARAM, st) ∈ params fin.
Proof.
  intros Hpub Hr Htr. destruct (process_may_happen _ _ _ _ _ _ _ _ _ _ _ _ _ _ _ _ _ _ _ _ Hr Htr) as (_ & Hst & Hseq).
  split; [exact Hseq|]. apply Exists_exists in Hst as (ev & Hin & Hs). apply list_elem_of_In, in_rev, list_elem_of_In in Hin.
  apply list_elem_of_split in Hin as (b1 & b2 & ->). destruct (imported _ _ Hs) as [fin ->]. exists b1, b2, fin. split; [done|]. split; [exact Hs|].
  rewrite <- app_assoc in Htr. cbn in Htr.
  destruct (process_may_happen _ _ _ _ _ _ _ _ _ _ _ _ _ _ _ _ _ _ _ _ Hr Htr) as (_ & _ & Hrec). by apply Hrec.
Qed.

(** A job whose final status is not "failed" keeps its files: no deletion is
    asked of the inventory in any run that imports it so, before or after. *)
Theorem success_keeps_files from t tr t' r fin :
  exec t (process_job from) tr t' r -> E_Ask (O_Import fin) tt ∈ tr -> status fin <> JS_Failed -> Forall (fun e => ~ deletes (class_of e)) tr.
Proof.
  intros Hr Hin Hs. apply list_elem_of_split in Hin as (b1 & b2 & Htr). rewrite Htr, Forall_app, Forall_cons.
  destruct (process_may_happen _ _ _ _ _ _ _ _ _ _ _ _ _ _ _ _ _ _ _ _ Hr Htr) as (_ & Hdel & _). split_and!; [|by intros []|].
  - apply Forall_Exists_neg. intros Hx. apply Hs, Hdel. by apply happened_rev.
  - apply Forall_forall. intros e He. apply list_elem_of_split in He as (b3 & b4 & ->).
    assert (Htr2 : tr = (b1 ++ E_Ask (O_Import fin) tt :: b3) ++ e :: b4) by (rewrite Htr, <- app_assoc; done).
    pose proof (process_may_happen _ _ _ _ _ _ _ _ _ _ _ _ _ _ _ _ _ _ _ _ Hr Htr2) as Hm. intros Hd.
    destruct (class_of e); try done. destruct Hm as [_ Hi]. apply Hi, happened_rev. unfold happened. rewrite Exists_app, Exists_cons. right. by left.
Qed.

(** A job resumed at a point enters no stage before it, repairs and scripts
    apart, which have no point of their own. *)
Theorem resumes_at_point from t tr t' r s at_unix ms :
  exec t (process_job from) tr t' r -> E_Ask (O_EnterStage job s at_unix ms) tt ∈ tr -> stage_allowed from s.
Proof.
  intros Hr Hin. apply list_elem_of_split in Hin as (b1 & b2 & Htr).
  exact (process_may_happen _ _ _ _ _ _ _ _ _ _ _ _ _ _ _ _ _ _ _ _ Hr Htr).
Qed.

End Jobs.

(** ** Repair *)

Definition is_tool (e : Event) : bool := match class_of e with C_tool => true | _ => false end.
Definition tools (tr : list Event) : nat := length (List.filter is_tool tr).

Section Repairs.
Variables (cfg : PostConfig) (job : JobId).

(** The last tool that ran says the data is whole, or that it repaired it. *)
Definition vouched_for (main : path) (tr : list Event) : Prop :=
  exists out past,
    (tr = E_Ask (O_RunTool (par2_cmd cfg) [lit "verify"; lit "-q"; file_name main] (parent main)) (Ok out) :: past /\
     parse_verify_output (both out) (to_code out) = Intact) \/
    (tr = E_Ask (O_RunTool (par2_cmd cfg) [lit "repair"; lit "-q"; file_name main] (parent main)) (Ok out) :: past /\
     repair_complete (both out) (to_code out) = true).

Definition repaired_so (main : path) (tr : list Event) (r : option PostStage * result bool PostError) : Prop :=
  snd r = Ok true -> vouched_for main tr.

Abbreviation bounded B := (fun tr : list Event => tools tr <= B)%nat.

Lemma wait_bounded B n tr : (tools tr <= B)%nat -> all_runs (bounded B) (wait_loop job n) (fun tr' _ => tools tr' = tools tr) tr.
Proof.
  revert tr. induction n as [|n IH]; intros tr Ht; [done|]. intros x. split; [exact Ht|].
  destruct x as [[j|]|]; [|done|done]. cbn [prog_bind ask].
  match goal with |- context [if ?b then _ else _] => destruct b end; [done|].
  by eapply all_runs_mono; [apply (IH (_ :: tr)); exact Ht|].
Qed.

Lemma repair_once_bounded B main st tr : (S (tools tr) <= B)%nat ->
  all_runs (bounded B) (lift_try (repair (par2_cmd cfg) main) st) (repaired_so main) tr.
Proof.
  intros Ht [o|e]; (split; [exact Ht|]); [|by intros [=]]. intros [= Hc]. exists o, tr. right. by split.
Qed.

Lemma enter_bounded {A} B (f : M A) (Q : list Event -> option PostStage * result A PostError -> Prop) s st tr : (tools tr <= B)%nat ->
  (forall tr' st', tools tr' = tools tr -> all_runs (bounded B) (f st') Q tr') -> all_runs (bounded B) ((let* _ := stage_enter job s in f) st) Q tr.
Proof.
  intros Ht Hf. destruct st as [st|].
  - intros ms. split; [exact Ht|]. intros now. split; [exact Ht|]. intros []. split; [exact Ht|]. intros []. split; [exact Ht|]. by apply Hf.
  - intros now. split; [exact Ht|]. intros []. split; [exact Ht|]. intros []. split; [exact Ht|]. by apply Hf.
Qed.

Lemma rounds_bounded B n main : forall st tr, (tools tr + S n <= B)%nat -> all_runs (bounded B) (repair_rounds cfg job n main st) (repaired_so main) tr.
Proof.
  induction n as [|n IH]; intros st tr Ht; [by intros [=]|]. intros [o|e]; (split; [change (S (tools tr) <= B)%nat; lia|]); [|by intros [=]].
  set (tr1 := _ :: tr). assert (Ht1 : (tools tr1 + S n <= B)%nat) by (change (S (tools tr) + S n <= B)%nat; lia). cbn. destruct (parse_verify_output (both o) (to_code o)) eqn:Ev.
  - intros _. exists o, tr. left. by split.
  - apply enter_bounded; [lia|]. intros tr2 st2 E. apply repair_once_bounded. lia.
  - clearbody tr1. assert (Hle : (tools tr1 <= B)%nat) by lia.
    split; [exact Hle|]. intros block freed. split; [exact Hle|]. cbn. destruct (freed =? 0); [by intros [=]|].
    intros polls. split; [exact Hle|]. set (tr2 := E_Ask _ _ :: _ :: _ :: tr1).
    apply (all_runs_bind _ _ _ _ tr2), all_runs_bind. eapply all_runs_mono; [apply wait_bounded; exact Hle|].
    intros tr3 ok E. change (tools tr3 = tools tr1) in E. destruct ok; [|by intros [=]]. apply IH. lia.
  - by intros [=].
Qed.

Lemma repair_runs main st : all_runs (bounded 9) (repair_loop cfg job main st) (repaired_so main) [].
Proof. by apply rounds_bounded. Qed.

(** C15: A repair that reports success was told so by the last tool that ran: par2
    verified the data, or repaired it; and a repair runs at most nine tools. *)
Theorem repair_vouched main st t tr t' st' ok : exec t (repair_loop cfg job main st) tr t' (Some (st', Ok ok)) ->
  (ok = true -> vouched_for main (rev tr)) /\ (tools tr <= 9)%nat.
Proof.
  intros Hr. destruct (all_runs_exec _ _ _ _ _ _ _ Hr [] (repair_runs main st)) as [Hb Hq]. split.
  - intros ->. rewrite <- (app_nil_r (rev tr)). by apply (Hq _ eq_refl).
  - destruct tr as [|e tr]; [cbn; lia|]. specialize (Hb (e :: tr) []). rewrite !app_nil_r in Hb. specialize (Hb eq_refl (fun x => ltac:(done))).
    unfold tools in *. by rewrite List.filter_rev, length_rev in Hb.
Qed.

End Repairs.

(** ** Extraction *)

(** An extraction of a RAR set that reports success, and no password error, left
    at least the bytes that the volumes of the set account for, whichever extractor
    delivered. *)
Theorem extract_delivers to_lowercase ex archive dest pw t tr t' o :
  exec t (extract to_lowercase ex archive Rar dest pw) tr t' (Some (Ok o)) -> ex_success o = true -> ex_password_error o = false ->
  unpack_shortfall to_lowercase t' (parent archive) archive dest = None.
Proof.
  set (Q := fun t (r : result ExtractOutcome PostError) =>
    match r with Ok o => ex_success o = true -> ex_password_error o = false -> unpack_shortfall to_lowercase t (parent archive) archive dest = None | Err _ => True end).
  intros Hr. revert Hr. intros Hr Ho Hp. refine (leaves_exec _ Q _ _ _ _ Hr _ Ho Hp). clear.
  assert (Hd : forall first p, (forall t, leaves p Q t) ->
    forall t, leaves (do usable := delivered to_lowercase archive dest first in if usable then Done first else p) Q t).
  { intros [o|e] p Hp t0; [|by apply Hp]. unfold delivered. destruct (ex_success o) eqn:Es; [|by apply Hp].
    cbn [prog_bind look touch leaves].
    destruct (unpack_shortfall to_lowercase t0 (parent archive) archive dest) eqn:Eu; [by apply Hp|]. by intros _ _. }
  assert (Hseq : forall A (p : Prog A) f, (forall t a, leaves (f a) Q t) -> forall t, leaves (prog_bind p f) Q t).
  { intros A p f Hf t'. apply leaves_prog_bind, leaves_any. intros t1 a. apply Hf. }
  assert (Htry : forall (p : Prog (result unit PostError)) f, (forall t a, leaves (f a) Q t) -> forall t, leaves (try_bind p f) Q t).
  { intros p f Hf. apply Hseq. intros t1 [a|e]; [apply Hf|done]. }
  unfold extract. apply Htry. intros t1 _. apply Hseq. intros t2 first. apply Hd. intros t3.
  destruct (match first with Ok o => _ | Err _ => _ end) eqn:Epw.
  - destruct first as [o|e]; [|done]. intros _ E. by rewrite E in Epw.
  - apply Hseq. intros t4 _. apply Htry. intros t5 _. apply Hseq. intros t6 second. apply Hd. intros t7.
    by destruct first as [o|e], second as [o'|e'].
Qed.

(** ** A run

    A job of two RAR volumes in a category with a destination of its own: unpacked,
    cleaned up, moved, recorded, announced. *)

Definition demo_job : Job := {|
  job_id := 7; kind := JobKind_Nzb; name := lit "show"; dir_name := lit "show"; name_provisional := false;
  queued_at_unix := 0; original_name := []; category := Some (lit "tv"); priority := 0; dupe := DupeInfo_default; params := [];
  Types.files := []; totals := JobTotals_default; status := JS_PostQueued; torrent := None; stages := [] |}.

Definition demo_cfg (act : FailureAction) : PostConfig := {|
  par2_cmd := lit "par2"; extractors := mkExtractors (lit "unrar") (lit "7z"); scripts_dir := None; cfg_unpack := true;
  cfg_cleanup := true; deobfuscate_final := false; failure_action := act; failed_dir := None; slots := 1;
  categories := [mkRule (lit "TV") (Some [lit "tv"]) None []] |}.

Definition demo_dir : path := [lit "dl"; lit "show"].
Definition demo_tree : Tree :=
  mkTree (list_to_map [(child demo_dir (lit "a.part1.rar"), replicate 10 0); (child demo_dir (lit "a.part2.rar"), replicate 10 0)])
    {[ []; [lit "dl"]; demo_dir ]}.

(** The engine, the inventory and the history answer well; unrar writes [n] bytes. *)
Definition demo_world (n : nat) : World := fun X o t =>
  match o in Op X return Tree * X with
  | O_Now => (t, 100)
  | O_SetPostQueued _ => (t, Some true)
  | O_Export _ => (t, Some (Some demo_job))
  | O_EnterStage _ _ _ _ => (t, tt)
  | O_CloseStage _ _ _ => (t, tt)
  | O_StageEvent _ _ => (t, tt)
  | O_StageElapsed => (t, 5)
  | O_Unpause _ _ _ => (t, 0)
  | O_Polls => (t, 1%nat)
  | O_Import _ => (t, tt)
  | O_ImportIfPresent _ => (t, Some true)
  | O_OutOfSpace _ => (t, tt)
  | O_Finished _ => (t, tt)
  | O_CommitOk => (t, true)
  | O_Claim => (t, true)
  | O_Debounced _ => (t, false)
  | O_SpentAttempt _ => (t, tt)
  | O_TryExists p => (t, Some (exists_path t p))
  | O_RunTool cmd _ _ =>
      if bool_decide (cmd = lit "unrar")
      then (mkTree (<[demo_dir ++ [lit ".pp.local"; lit "show.mkv"] := replicate n 0]> (Tree.files t)) (dirs t),
            Ok (mkToolOutput 0 (lit "All OK") []))
      else (t, Err (ToolMissing cmd))
  | O_Discover _ => (t, [])
  | O_RunScript _ _ _ => (t, Err (Subprocess []))
  | O_ReceiptBegin _ => (t, None)
  | O_ReceiptFinish _ => (t, None)
  | O_ForJob _ => (t, Some (Some (mkArtifact (lit "a1") [lit "tv"; lit "show"] (lit "active") 3)))
  | O_Register _ _ _ => (t, None)
  | O_FinishArtifact _ p _ st => (t, Ok (mkArtifact (lit "a1") p st 4))
  | O_Relocate _ to => (match move_entry t demo_dir to with Some t' => t' | None => t end, None)
  | O_Operation _ => (t, Ok None)
  | O_RequestDelete _ _ key => (t, Ok (mkArtifactOp key (lit "queued")))
  | O_ExecuteDelete id => (t, Ok (mkArtifactOp id (lit "succeeded")))
  | O_SpoolNzb _ _ => (t, tt)
  | O_Record _ => (t, Some 42)
  | O_RecordDurable e => (t, Ok (42, e))
  end.

Definition demo_process (act : FailureAction) (from : RestartPoint) : Prog (result PpFinal PostError) :=
  process_job (hasher := crc32_ref_hasher) (fun _ _ => true) (fun b => b) to_ascii_lowercase (fun l => l) (fun s => s) (lit "1")
    (fun _ => []) (fun _ => []) (demo_cfg act) PpCtx_default [lit "dl"] 7 from.

Definition trace_of {A} (r : run (list Event * Tree * A)) : list Event := match r with Ret (tr, _, _) => tr | Panic => [] end.
Definition tree_of {A} (r : run (list Event * Tree * A)) : Tree := match r with Ret (_, t, _) => t | Panic => mkTree ∅ ∅ end.
Definition answer_of {A} (r : run (list Event * Tree * A)) : option A := match r with Ret (_, _, a) => Some a | Panic => None end.

Lemma run_exec {A} w (p : Prog A) t : (match play w t p with Ret _ => true | Panic => false end) = true ->
  exec t p (trace_of (play w t p)) (tree_of (play w t p)) (answer_of (play w t p)).
Proof. destruct (play w t p) as [[[tr t'] a]|] eqn:E; [|done]. intros _. by apply (play_exec w). Qed.

Definition demo_trace : list Event := trace_of (play (demo_world 18) demo_tree (demo_process FA_None At_Beginning)).
Definition demo_left : Tree := tree_of (play (demo_world 18) demo_tree (demo_process FA_None At_Beginning)).

(** The job ends well: the extracted file at the category's destination. *)
Example demo_ends : answer_of (play (demo_world 18) demo_tree (demo_process FA_None At_Beginning)) = Some (Ok Pp_Success) /\
  map fst (map_to_list (Tree.files demo_left)) = [[lit "tv"; lit "show"; lit "show.mkv"]].
Proof. by vm_compute. Qed.

Lemma demo_exec : exec demo_tree (demo_process FA_None At_Beginning) demo_trace demo_left (Some (Ok Pp_Success)).
Proof. pose proof (run_exec (demo_world 18) (demo_process FA_None At_Beginning) demo_tree eq_refl) as Hr. exact Hr. Qed.

Lemma demo_event n e : demo_trace !! n = Some e -> demo_trace = take n demo_trace ++ e :: drop (S n) demo_trace.
Proof. intros Hn. symmetry. by apply take_drop_middle. Qed.

(** The job as it is imported, and its announcement. *)
Definition demo_fin : Job := match class_of <$> demo_trace !! 50%nat with Some (C_import fin) => fin | _ => demo_job end.
Definition demo_finished : PpFinished :=
  match class_of <$> demo_trace !! 51%nat with Some (C_finished f) => f | _ => mkPpFinished 0 [] None [] None 0 0 [] 0 end.

Lemma publishes_under_lease_witness : held (rev (take 26 demo_trace)) = true.
Proof.
  eapply publishes_under_lease; [exact demo_exec|apply (demo_event 26 (E_Touch D_Commit)); by vm_compute|exact Logic.I].
Defined.

Lemma announced_after_record_witness :
  exists seq, happened (records 7 (lit "SUCCESS") seq) (rev (take 51 demo_trace)) /\ 42 = default 0 seq.
Proof.
  assert (Hf : ppf_status demo_finished = lit "SUCCESS" /\ ppf_history_seq demo_finished = 42) by by vm_compute. destruct Hf as [<- <-].
  edestruct announced_after_record as [Hs _]; [|exact demo_exec|apply (demo_event 51 (E_Ask (O_Finished demo_finished) tt)); by vm_compute|exact Hs].
  reflexivity.
Defined.

Lemma success_keeps_files_witness : status demo_fin = JS_Completed /\ Forall (fun e => ~ deletes (class_of e)) demo_trace.
Proof.
  split; [by vm_compute|]. eapply success_keeps_files; [exact demo_exec| |].
  - apply list_elem_of_lookup_2 with (i := 50%nat) (x := E_Ask (O_Import demo_fin) tt). by vm_compute.
  - by vm_compute.
Defined.

Lemma resumes_at_point_witness : stage_allowed At_Beginning Unpack.
Proof.
  eapply resumes_at_point with (s := Unpack); [exact demo_exec|].
  apply list_elem_of_lookup_2 with (i := 17%nat) (x := E_Ask (O_EnterStage 7 Unpack 100 (Some 5)) tt). by vm_compute.
Defined.

(** A repair that par2 has nothing to do for. *)
Definition intact_world : World := fun X o t =>
  match o in Op X return Tree * X with
  | O_RunTool _ _ _ => (t, Ok (mkToolOutput 0 (lit "All files are correct, repair is not required.") []))
  | o => demo_world 0 _ o t
  end.

Definition demo_repair : Prog (option PostStage * result bool PostError) := repair_loop (demo_cfg FA_None) 7 (child demo_dir (lit "a.par2")) None.

Lemma repair_vouched_witness :
  vouched_for (demo_cfg FA_None) (child demo_dir (lit "a.par2")) (rev (trace_of (play intact_world demo_tree demo_repair))).
Proof.
  pose proof (run_exec intact_world demo_repair demo_tree eq_refl) as Hr.
  exact (proj1 (repair_vouched _ _ _ _ _ _ _ _ true Hr) eq_refl).
Defined.

(** Two volumes of ten bytes, and the tool that wrote eighteen. *)
Definition demo_extract : Prog (result ExtractOutcome PostError) :=
  extract to_ascii_lowercase (mkExtractors (lit "unrar") (lit "7z")) (child demo_dir (lit "a.part1.rar")) Rar (child demo_dir (lit ".pp.local")) None.

Lemma extract_delivers_witness :
  unpack_shortfall to_ascii_lowercase (tree_of (play (demo_world 18) demo_tree demo_extract)) demo_dir
    (child demo_dir (lit "a.part1.rar")) (child demo_dir (lit ".pp.local")) = None.
Proof.
  assert (Ha : answer_of (play (demo_world 18) demo_tree demo_extract) = Some (Ok (mkExtract true false false))) by by vm_compute.
  pose proof (run_exec (demo_world 18) demo_extract demo_tree ltac:(by vm_compute)) as Hr. rewrite Ha in Hr.
  exact (extract_delivers _ _ _ _ _ _ _ _ _ Hr eq_refl eq_refl).
Defined.

(** A tool that delivers nothing and speaks of a password is taken at its word. *)
Definition password_world : World := fun X o t =>
  match o in Op X return Tree * X with
  | O_RunTool _ _ _ => (t, Ok (mkToolOutput 0 (lit "All OK") (lit "password")))
  | o => demo_world 0 _ o t
  end.

Example short_extraction_passes :
  answer_of (play password_world demo_tree demo_extract) = Some (Ok (mkExtract true true false)) /\
  unpack_shortfall to_ascii_lowercase (tree_of (play password_world demo_tree demo_extract)) demo_dir
    (child demo_dir (lit "a.part1.rar")) (child demo_dir (lit ".pp.local")) = Some (0, 2%nat, 20).
Proof. by vm_compute. Qed.

(** A history that refuses the entry does not stop the stamp or the announcement. *)
Definition full_world : World := fun X o t =>
  match o in Op X return Tree * X with
  | O_Record _ => (t, None)
  | o => demo_world 18 _ o t
  end.

Example announced_without_record :
  let tr := trace_of (play full_world demo_tree (demo_process FA_None At_Beginning)) in
  answer_of (play full_world demo_tree (demo_process FA_None At_Beginning)) = Some (Ok Pp_Success) /\
  match class_of <$> tr !! 49%nat with Some (C_record _ seq) => seq = None | _ => False end /\
  match class_of <$> tr !! 50%nat with Some (C_import fin) => (PP_DONE_PARAM, lit "SUCCESS") ∈ params fin | _ => False end /\
  match class_of <$> tr !! 51%nat with Some (C_finished f) => ppf_history_seq f = 0 | _ => False end.
Proof. vm_compute. split_and!; try done. apply list_elem_of_here. Qed.
