(* ===== verification/Manager.v ===== *)
(** * The post-processing manager ([crates/nzbd-post/src/manager.rs])

    [manager_task] as a machine: what it remembers of its attempts, the attempts
    themselves, and one transition per thing it may receive.  What the engine's
    snapshot shows and what the gate of a cluster answers are inputs. *)

From S2P Require Import Prelude RustStr Types History PostOps Tools Pipeline.

#[local] Unset Default Proof Using.

(** ** State *)

Inductive RestartPostError := NotFound | AlreadyFinished | NotReady | UnsafePoint | NotOwned | Closed.

(** A spawned attempt: waiting for a slot, or in the pipeline. *)
Record Attempt := mkAttempt { at_job : JobId; at_from : RestartPoint; at_cancelled : bool; at_running : bool }.

Record Manager := mkManager {
  active : gmap JobId nat;                      (* the attempt of a job *)
  pending_restarts : gmap JobId RestartPoint;
  attempts : gmap nat Attempt;                  (* the tasks that have not ended *)
  next_attempt : nat;
  finished : list JobId                         (* ends not yet received *)
}.

Definition Manager_new : Manager := mkManager ∅ ∅ ∅ 0 [].

(** A job as the snapshot shows it. *)
Record JobView := mkView { v_id : JobId; v_name : str; v_status : JobStatus; v_pp_done : bool; v_health : Z }.

(** What the manager has done elsewhere. *)
Inductive Action :=
| A_Retire (job : JobId)                        (* [remove_job_silent] *)
| A_Failed (job : JobId) (name : str) (health : Z).  (* [handle_failed_job] *)

Definition set_active (a : gmap JobId nat) (m : Manager) : Manager := mkManager a (pending_restarts m) (attempts m) (next_attempt m) (finished m).
Definition set_pending (p : gmap JobId RestartPoint) (m : Manager) : Manager := mkManager (active m) p (attempts m) (next_attempt m) (finished m).
Definition set_attempts (a : gmap nat Attempt) (m : Manager) : Manager := mkManager (active m) (pending_restarts m) a (next_attempt m) (finished m).
Definition set_finished (f : list JobId) (m : Manager) : Manager := mkManager (active m) (pending_restarts m) (attempts m) (next_attempt m) f.

(** ** Attempts *)

Definition spawn_job (job : JobId) (from : RestartPoint) (m : Manager) : Manager :=
  mkManager (<[job := next_attempt m]> (active m)) (pending_restarts m) (<[next_attempt m := mkAttempt job from false false]> (attempts m))
    (S (next_attempt m)) (finished m).

Definition cancelled (a : Attempt) : Attempt := mkAttempt (at_job a) (at_from a) true (at_running a).

Definition cancel_attempt (job : JobId) (m : Manager) : Manager :=
  match active m !! job with
  | Some i => set_attempts (alter cancelled i (attempts m)) m
  | None => m
  end.

Definition running (m : Manager) : nat := base.size (filter (fun kv => at_running (snd kv) = true) (attempts m)).

Definition end_attempt (i : nat) (m : Manager) : Manager :=
  match attempts m !! i with
  | Some a => set_finished (finished m ++ [at_job a]) (set_attempts (delete i (attempts m)) m)
  | None => m
  end.

(** [acquire_admitted_permit]: a free slot, then the gate once more. *)
Definition admit_attempt (slots : Z) (i : nat) (claim : JobId -> bool) (m : Manager) : Manager :=
  match attempts m !! i with
  | Some a =>
      if at_running a || at_cancelled a || negb (Z.of_nat (running m) <? Z.max slots 1) then m
      else if claim (at_job a) then set_attempts (<[i := mkAttempt (at_job a) (at_from a) (at_cancelled a) true]> (attempts m)) m
      else end_attempt i m
  | None => m
  end.

(** ** What is received *)

Definition startable (s : JobStatus) : bool := match s with JS_Completed | JS_PostQueued | JS_Post _ => true | _ => false end.
Definition ended (s : JobStatus) : bool := match s with JS_Completed | JS_Failed => true | _ => false end.

(** One row of [scan_queue]; [local] is a manager without a gate. *)
Definition scan_row (local : bool) (claim : JobId -> bool) (st : Manager * list Action) (v : JobView) : Manager * list Action :=
  let (m, acts) := st in
  if local && v_pp_done v && ended (v_status v) then
    (match active m !! v_id v with
     | Some _ => let m := cancel_attempt (v_id v) m in set_active (delete (v_id v) (active m)) m
     | None => m
     end, acts ++ [A_Retire (v_id v)])
  else if negb (v_pp_done v) && bool_decide (v_status v = JS_Failed) && claim (v_id v) then
    (m, acts ++ [A_Failed (v_id v) (v_name v) (v_health v)])
  else if negb (v_pp_done v) && startable (v_status v) && claim (v_id v) && bool_decide (active m !! v_id v = None) then
    (spawn_job (v_id v) At_Beginning m, acts)
  else (m, acts).

Definition scan_queue (local : bool) (claim : JobId -> bool) (snapshot : list JobView) (m : Manager) : Manager * list Action :=
  fold_left (scan_row local claim) snapshot (m, []).

(** [Event::JobFinished]; [exported] says whether the job, when it could be
    exported, is stamped. *)
Definition on_job_finished (claim : JobId -> bool) (exported : option bool) (job : JobId) (s : JobStatus) (name : str) (health : Z) (m : Manager)
    : Manager * list Action :=
  match s with
  | JS_Completed =>
      if claim job then
        match exported with
        | Some done => if negb done && bool_decide (active m !! job = None) then (spawn_job job At_Beginning m, []) else (m, [])
        | None => (m, [])
        end
      else (m, [])
  | JS_Failed => if claim job then (m, [A_Failed job name health]) else (m, [])
  | _ => (m, [])
  end.

Definition on_job_deleted (job : JobId) (m : Manager) : Manager := cancel_attempt job (set_pending (delete job (pending_restarts m)) m).

Definition view_of (snapshot : list JobView) (job : JobId) : option JobView := List.find (fun v => bool_decide (v_id v = job)) snapshot.

(** The end of an attempt, as received. *)
Definition on_attempt_finished (claim : JobId -> bool) (snapshot : list JobView) (job : JobId) (m : Manager) : Manager :=
  let m := set_active (delete job (active m)) m in
  match pending_restarts m !! job with
  | None => m
  | Some from =>
      let m := set_pending (delete job (pending_restarts m)) m in
      let restartable := existsb (fun v => bool_decide (v_id v = job) && negb (v_pp_done v) && startable (v_status v)) snapshot in
      if restartable && claim job then spawn_job job from m else m
  end.

Definition on_restart (claim : JobId -> bool) (snapshot : list JobView) (job : JobId) (from : RestartPoint) (m : Manager)
    : Manager * result unit RestartPostError :=
  match view_of snapshot job with
  | None => (m, Err NotFound)
  | Some v =>
      if v_pp_done v then (m, Err AlreadyFinished)
      else if negb (startable (v_status v)) then (m, Err NotReady)
      else if negb (claim job) then (m, Err NotOwned)
      else
        match restart_limit (v_status v) with
        | None => (m, Err NotReady)
        | Some limit =>
            if negb (includes from limit) then (m, Err UnsafePoint)
            else
              match active m !! job with
              | Some _ => (cancel_attempt job (set_pending (<[job := from]> (pending_restarts m)) m), Ok tt)
              | None => (spawn_job job from m, Ok tt)
              end
        end
  end.

(** The end of the manager's loop: every attempt that it knows is cancelled. *)
Definition on_shutdown (m : Manager) : Manager :=
  set_attempts (map_imap (fun i a => Some (if bool_decide (active m !! at_job a = Some i) then cancelled a else a)) (attempts m)) m.

(** ** The machine *)

Inductive Input :=
| I_Rescan (snapshot : list JobView)
| I_JobFinished (exported : option bool) (job : JobId) (s : JobStatus) (name : str) (health : Z)
| I_JobDeleted (job : JobId)
| I_AttemptFinished (snapshot : list JobView)
| I_Restart (snapshot : list JobView) (job : JobId) (from : RestartPoint)
| I_Admit (i : nat)        (* a waiting attempt is next in line *)
| I_End (i : nat).         (* an attempt ends: done, failed, cancelled *)

Definition step (local : bool) (slots : Z) (claim : JobId -> bool) (x : Input) (m : Manager) : Manager * list Action :=
  match x with
  | I_Rescan snapshot => scan_queue local claim snapshot m
  | I_JobFinished exported job s name health => on_job_finished claim exported job s name health m
  | I_JobDeleted job => (on_job_deleted job m, [])
  | I_AttemptFinished snapshot =>
      match finished m with
      | job :: rest => (on_attempt_finished claim snapshot job (set_finished rest m), [])
      | [] => (m, [])
      end
  | I_Restart snapshot job from => (fst (on_restart claim snapshot job from m), [])
  | I_Admit i => (admit_attempt slots i claim m, [])
  | I_End i => (end_attempt i m, [])
  end.
