(* ===== verification/ManagerInv.v ===== *)
(** * The manager's attempts

    A job never has two attempts, however the events interleave, and an accepted
    restart is the next attempt of its job. *)

From S2P Require Import Prelude RustStr Types History PostOps Tools Pipeline Manager.

#[local] Unset Default Proof Using.

(** ** One attempt per job *)

Definition lives (m : Manager) (j : JobId) (i : nat) : Prop := exists a, attempts m !! i = Some a /\ at_job a = j.

(** At most one attempt has not ended or has an end still to be received. *)
Definition alone (m : Manager) (j : JobId) : Prop :=
  (forall i i', lives m j i -> lives m j i' -> i = i') /\ ((exists i, lives m j i) -> j ∉ finished m).

Definition idle (m : Manager) (j : JobId) : Prop := (forall i, ~ lives m j i) /\ j ∉ finished m.

(** [seen]: the jobs that a snapshot has shown stamped. *)
Record accounted (seen : gset JobId) (m : Manager) : Prop := {
  ac_dup : NoDup (finished m);
  ac_alone : forall j, alone m j;
  ac_idle : forall j, active m !! j = None -> idle m j \/ j ∈ seen;
  ac_owner : forall j i a, active m !! j = Some i -> attempts m !! i = Some a -> at_job a = j;
  ac_fresh : forall i a, attempts m !! i = Some a -> (i < next_attempt m)%nat;
  ac_bound : forall j i, active m !! j = Some i -> (i < next_attempt m)%nat
}.

Lemma accounted_new : accounted ∅ Manager_new.
Proof.
  split; cbn; try done; [apply NoDup_nil_2| |].
  - intros j. split; [by intros i i' (a & Ha & _)|by intros [i (a & Ha & _)]].
  - intros j _. left. split; cbn; [by intros i (a & Ha & _)|set_solver].
Qed.

Lemma accounted_seen seen seen' m : accounted seen m -> seen ⊆ seen' -> accounted seen' m.
Proof. intros [Hd Ha Hi Ho Hf Hb] Hs. split; try done. intros j Hj. destruct (Hi j Hj); [by left|right; set_solver]. Qed.

(** What the accounts look at. *)
Lemma accounted_same seen m m' : accounted seen m -> (forall j i, lives m' j i <-> lives m j i) -> finished m' = finished m -> next_attempt m' = next_attempt m ->
  (forall j, active m' !! j = None -> active m !! j = None \/ j ∈ seen) -> (forall j i, active m' !! j = Some i -> active m !! j = Some i) -> accounted seen m'.
Proof.
  intros [Hd Ha Hi Ho Hf Hb] Hl Hfin Hn Hnone Hsome. split.
  - by rewrite Hfin.
  - intros j. destruct (Ha j) as (H1 & H2). unfold alone. rewrite Hfin. split; [|intros [i Hx]; apply H2; exists i; by apply Hl].
    intros i i' Hx Hx'. apply H1; by apply Hl.
  - intros j Hj. destruct (Hnone j Hj) as [Hj'|Hs]; [|by right]. destruct (Hi j Hj') as [[H1 H2]|Hs]; [|by right]. left. split; [|by rewrite Hfin].
    intros i Hx. apply (H1 i). by apply Hl.
  - intros j i a Hj Hx. destruct (proj1 (Hl (at_job a) i)) as (a' & Ha' & E); [by exists a|]. rewrite <- E. by eapply Ho; [apply Hsome|].
  - intros i a Hx. rewrite Hn. destruct (proj1 (Hl (at_job a) i)) as (a' & Ha' & _); [by exists a|]. by eapply Hf.
  - intros j i Hj. rewrite Hn. by eapply Hb, Hsome.
Qed.

Lemma lives_alter_cancel m i j i' : lives (set_attempts (alter cancelled i (attempts m)) m) j i' <-> lives m j i'.
Proof.
  unfold lives. cbn. destruct (decide (i' = i)) as [->|Hn]; [|by rewrite lookup_alter_ne].
  rewrite lookup_alter_eq. split.
  - intros (a & Ha & E). apply fmap_Some in Ha as (b & Hb & ->). by exists b.
  - intros (a & Ha & E). exists (cancelled a). by rewrite Ha.
Qed.

Lemma accounted_cancel seen m j : accounted seen m -> accounted seen (cancel_attempt j m).
Proof.
  intros Ha. unfold cancel_attempt. destruct (active m !! j) as [i|]; [|done].
  apply (accounted_same seen m); [done|apply lives_alter_cancel|done|done|by left|done].
Qed.

Lemma lives_spawn seen m j from j' i : accounted seen m -> lives (spawn_job j from m) j' i <-> (i = next_attempt m /\ j' = j) \/ lives m j' i.
Proof.
  intros Ha. unfold lives. cbn. destruct (decide (i = next_attempt m)) as [->|Hn].
  - rewrite lookup_insert_eq. split; [intros (a & [= <-] & <-); by left|]. intros [[_ ->]|(a & Hx & _)]; [by eexists|]. apply (ac_fresh _ _ Ha) in Hx. lia.
  - rewrite lookup_insert_ne by done. split; [by right|]. by intros [[? _]|?].
Qed.

Lemma accounted_spawn seen m j from : accounted seen m -> idle m j -> accounted seen (spawn_job j from m).
Proof.
  intros Hacc [Hl Hfin]. pose proof (lives_spawn seen m j from) as Hlives. destruct Hacc as [Hd Ha Hi Ho Hf Hb] eqn:E. clear E.
  assert (Hlv : forall j' i, lives (spawn_job j from m) j' i <-> (i = next_attempt m /\ j' = j) \/ lives m j' i) by (intros; by apply Hlives).
  split; [exact Hd| | | | |].
  - intros j'. destruct (Ha j') as (H1 & H2). split.
    + intros i i' Hx Hx'. apply Hlv in Hx as [[-> ->]|Hx], Hx' as [[-> E]|Hx']; subst; try done; [by destruct (Hl i')|by destruct (Hl i)|by apply H1].
    + intros [i Hx]. apply Hlv in Hx as [[-> ->]|Hx]; [exact Hfin|]. apply H2. by exists i.
  - intros j' Hj'. cbn in Hj'. apply lookup_insert_None in Hj' as [Hj' Hne]. destruct (Hi j' Hj') as [[H1 H2]|Hs]; [|by right]. left. split; [|done].
    intros i Hx. apply Hlv in Hx as [[_ ->]|Hx]; [done|by eapply H1].
  - intros j' i a Hj' Hx. cbn in Hj', Hx. destruct (decide (j' = j)) as [->|Hn].
    + rewrite lookup_insert_eq in Hj'. injection Hj' as <-. rewrite lookup_insert_eq in Hx. by injection Hx as <-.
    + rewrite lookup_insert_ne in Hj' by done. pose proof (Hb _ _ Hj'). rewrite lookup_insert_ne in Hx by lia. by eapply Ho.
  - intros i a Hx. cbn in *. destruct (decide (i = next_attempt m)) as [->|Hn]; [lia|]. rewrite lookup_insert_ne in Hx by done. apply Hf in Hx. lia.
  - intros j' i Hx. cbn in *. destruct (decide (j' = j)) as [->|Hn].
    + rewrite lookup_insert_eq in Hx. injection Hx as <-. lia.
    + rewrite lookup_insert_ne in Hx by done. apply Hb in Hx. lia.
Qed.

(** Dropping the entry of a job that is stamped, or of one without an attempt. *)
Lemma accounted_forget seen m j : accounted seen m -> j ∈ seen \/ idle m j -> accounted seen (set_active (delete j (active m)) m).
Proof.
  intros [Hd Ha Hi Ho Hf Hb] Hj. split; try done.
  - intros j' Hj'. cbn in Hj'. apply lookup_delete_None in Hj' as [->|Hj']; [destruct Hj; [by right|by left]|by apply Hi].
  - intros j' i a Hx. cbn in Hx. apply lookup_delete_Some in Hx as [_ Hx]. by apply Ho.
  - intros j' i Hx. cbn in Hx. apply lookup_delete_Some in Hx as [_ Hx]. by eapply Hb.
Qed.

Lemma keeps_accounts_pending seen m p : accounted seen m -> accounted seen (set_pending p m).
Proof. intros Ha. apply (accounted_same seen m); try done. by left. Qed.

Lemma lives_end m i a j i' : attempts m !! i = Some a -> lives (end_attempt i m) j i' <-> lives m j i' /\ i' <> i.
Proof.
  intros Hx. unfold end_attempt. rewrite Hx. unfold lives. cbn. destruct (decide (i' = i)) as [->|Hn].
  - rewrite lookup_delete_eq. split; [by intros (b & ? & _)|by intros [_ ?]].
  - rewrite lookup_delete_ne by done. tauto.
Qed.

Lemma accounted_end seen m i : accounted seen m -> accounted seen (end_attempt i m).
Proof.
  intros Hacc. destruct (attempts m !! i) as [a|] eqn:Hx; [|by unfold end_attempt; rewrite Hx].
  assert (Hlv := fun j i' => lives_end m i a j i' Hx). destruct Hacc as [Hd Ha Hi Ho Hf Hb].
  assert (Hlive : lives m (at_job a) i) by by exists a.
  assert (Hfin : finished (end_attempt i m) = finished m ++ [at_job a]) by by unfold end_attempt; rewrite Hx.
  assert (Hact : active (end_attempt i m) = active m) by by unfold end_attempt; rewrite Hx.
  assert (Hnext : next_attempt (end_attempt i m) = next_attempt m) by by unfold end_attempt; rewrite Hx.
  split.
  - rewrite Hfin. apply NoDup_app. split_and!; [done| |apply NoDup_singleton]. intros x Hxx ->%list_elem_of_singleton. by eapply (Ha (at_job a)); [exists i|].
  - intros j. destruct (Ha j) as [H1 H2]. split.
    + intros i1 i2 [Hx1 _]%Hlv [Hx2 _]%Hlv. by apply H1.
    + intros [i1 [Hx1 Hne]%Hlv]. rewrite Hfin, elem_of_app, list_elem_of_singleton. intros [Hin| ->]; [by apply H2; [exists i1|]|]. by apply Hne, H1.
  - intros j Hj. rewrite Hact in Hj. destruct (Hi j Hj) as [[H1 H2]|Hs]; [|by right]. left. split; [by intros i1 [Hx1 _]%Hlv; eapply H1|].
    rewrite Hfin, elem_of_app, list_elem_of_singleton. intros [?| ->]; [done|]. by eapply H1.
  - intros j i1 a1 Hj Hx1. rewrite Hact in Hj. unfold end_attempt in Hx1. rewrite Hx in Hx1. cbn in Hx1. apply lookup_delete_Some in Hx1 as [_ Hx1]. by eapply Ho.
  - intros i1 a1 Hx1. rewrite Hnext. unfold end_attempt in Hx1. rewrite Hx in Hx1. cbn in Hx1. apply lookup_delete_Some in Hx1 as [_ Hx1]. by eapply Hf.
  - intros j i1. rewrite Hact, Hnext. apply Hb.
Qed.

(** An end that is received. *)
Lemma accounted_receive seen m j rest : accounted seen m -> finished m = j :: rest ->
  let m' := set_active (delete j (active m)) (set_finished rest m) in accounted seen m' /\ idle m' j.
Proof.
  intros [Hd Ha Hi Ho Hf Hb] Hfin. cbn. rewrite Hfin in Hd. apply NoDup_cons in Hd as [Hj Hd].
  assert (Hidle : idle (set_active (delete j (active m)) (set_finished rest m)) j).
  { split; [|exact Hj]. intros i Hx. eapply (Ha j); [by exists i|]. rewrite Hfin. by left. }
  split; [|exact Hidle]. split; cbn.
  - exact Hd.
  - intros j'. destruct (Ha j') as [H1 H2]. split; [exact H1|]. intros Hx Hin. apply H2; [exact Hx|]. rewrite Hfin. by right.
  - intros j' Hj'. apply lookup_delete_None in Hj' as [<-|Hj']; [by left|]. destruct (Hi j' Hj') as [[H1 H2]|Hs]; [|by right].
    left. split; [exact H1|]. intros Hin. apply H2. rewrite Hfin. by right.
  - intros j' i a Hx. apply lookup_delete_Some in Hx as [_ Hx]. by apply Ho.
  - exact Hf.
  - intros j' i Hx. apply lookup_delete_Some in Hx as [_ Hx]. by eapply Hb.
Qed.

Lemma accounted_finished seen m claim snapshot j rest : accounted seen m -> finished m = j :: rest ->
  accounted seen (on_attempt_finished claim snapshot j (set_finished rest m)).
Proof.
  intros Ha Hfin. destruct (accounted_receive _ _ _ _ Ha Hfin) as [H1 H2]. unfold on_attempt_finished.
  destruct (pending_restarts _ !! j) as [from|]; [|exact H1].
  destruct (_ && _); [|by apply keeps_accounts_pending]. apply accounted_spawn; [by apply keeps_accounts_pending|exact H2].
Qed.

Lemma accounted_admit seen m slots i claim : accounted seen m -> accounted seen (admit_attempt slots i claim m).
Proof.
  intros Ha. unfold admit_attempt. destruct (attempts m !! i) as [a|] eqn:Hx; [|done].
  destruct (_ || _ || _); [done|]. destruct (claim _); [|by apply accounted_end].
  apply (accounted_same seen m); try done; [|by left]. intros j i'. unfold lives. cbn. destruct (decide (i' = i)) as [->|Hn].
  - rewrite lookup_insert_eq. split; [intros (b & [= <-] & <-); by exists a|]. intros (b & Hb & <-). rewrite Hx in Hb. injection Hb as <-. by eexists.
  - by rewrite lookup_insert_ne.
Qed.

(** What is shown of a job: never unstamped again once it was shown stamped. *)
Definition shown (x : Input) : list JobView := match x with I_Rescan s | I_AttemptFinished s | I_Restart s _ _ => s | _ => [] end.

Definition stamped_in (x : Input) : gset JobId := list_to_set (map v_id (List.filter v_pp_done (shown x))).

Definition agrees (seen : gset JobId) (x : Input) : Prop :=
  (forall v, v ∈ shown x -> v_pp_done v = false -> v_id v ∉ seen /\ v_id v ∉ stamped_in x) /\
  match x with I_JobFinished (Some false) job _ _ _ => job ∉ seen | _ => True end.

Lemma accounted_row seen local claim m acts v : accounted seen m -> (v_pp_done v = true -> v_id v ∈ seen) ->
  (v_pp_done v = false -> v_id v ∉ seen) -> accounted seen (fst (scan_row local claim (m, acts) v)).
Proof.
  intros Ha Hs Hn. unfold scan_row. destruct (local && v_pp_done v && ended (v_status v)) eqn:E1.
  - apply andb_true_iff in E1 as [[_ Hd]%andb_true_iff _]. cbn. destruct (active m !! v_id v) eqn:Eact; [|done].
    apply accounted_forget; [by apply accounted_cancel|]. left. by apply Hs.
  - destruct (_ && _ && claim (v_id v)) eqn:E2; [done|]. destruct (_ && _ && _ && _) eqn:E3; [|done].
    apply andb_true_iff in E3 as [[[E3 _]%andb_true_iff _]%andb_true_iff Hact%bool_decide_eq_true].
    apply negb_true_iff in E3. cbn. apply accounted_spawn; [done|]. destruct (ac_idle _ _ Ha _ Hact) as [Hi|Hin]; [done|]. by apply Hn in E3.
Qed.

Lemma accounted_scan seen local claim snapshot m : accounted seen m -> (forall v, v ∈ snapshot -> v_pp_done v = true -> v_id v ∈ seen) ->
  (forall v, v ∈ snapshot -> v_pp_done v = false -> v_id v ∉ seen) -> accounted seen (fst (scan_queue local claim snapshot m)).
Proof.
  unfold scan_queue. generalize (@nil Action). revert m. induction snapshot as [|v vs IH]; intros m acts Ha Hs Hn; [done|].
  cbn [fold_left]. pose proof (accounted_row seen local claim m acts v Ha) as Hr. destruct (scan_row local claim (m, acts) v) as [m' acts'].
  apply IH; [apply Hr; [apply Hs|apply Hn]; by left|intros w Hw; apply Hs; by right|intros w Hw; apply Hn; by right].
Qed.

Lemma view_in snapshot j v : view_of snapshot j = Some v -> v ∈ snapshot /\ v_id v = j.
Proof. intros Hv. apply List.find_some in Hv as [Hin Hj]. split; [by apply list_elem_of_In|]. by apply bool_decide_eq_true in Hj. Qed.

Lemma accounted_step seen local slots claim x m : accounted seen m -> agrees seen x ->
  accounted (seen ∪ stamped_in x) (fst (step local slots claim x m)).
Proof.
  intros Ha [Hshown Hx]. assert (Ha' : accounted (seen ∪ stamped_in x) m) by (by eapply accounted_seen; [|apply union_subseteq_l]).
  assert (Hfresh : forall v, v ∈ shown x -> v_pp_done v = false -> v_id v ∉ seen ∪ stamped_in x) by (intros v Hv Hd; destruct (Hshown v Hv Hd); set_solver).
  destruct x as [snapshot|exported job s name health|job|snapshot|snapshot job from|i|i]; cbn [step fst].
  - apply accounted_scan; [done| |done]. intros v Hv Hd. apply elem_of_union_r, elem_of_list_to_set, list_elem_of_In, in_map, filter_In.
    split; [by apply list_elem_of_In|done].
  - unfold on_job_finished. destruct s; try done; destruct (claim job); try done. destruct exported as [dn|]; [|done].
    destruct (negb dn && _) eqn:E; [|done]. apply andb_true_iff in E as [E%negb_true_iff Hact%bool_decide_eq_true]. subst dn. cbn.
    apply accounted_spawn; [done|]. destruct (ac_idle _ _ Ha _ Hact) as [Hi|Hin]; done.
  - by apply accounted_cancel, keeps_accounts_pending.
  - destruct (finished m) as [|j rest] eqn:Hfin; [done|]. by apply accounted_finished.
  - unfold on_restart. destruct (view_of snapshot job) as [v|] eqn:Hv; [|done]. apply view_in in Hv as [Hin <-].
    destruct (v_pp_done v) eqn:Hd; [done|]. destruct (negb (startable _)); [done|]. destruct (negb (claim _)); [done|].
    destruct (restart_limit _); [|done]. destruct (negb (includes _ _)); [done|]. destruct (active m !! v_id v) eqn:Hact.
    + by apply accounted_cancel, keeps_accounts_pending.
    + cbn. apply accounted_spawn; [done|]. destruct (ac_idle _ _ Ha _ Hact) as [Hi|Hs]; [done|]. by destruct (Hshown v Hin Hd).
  - by apply accounted_admit.
  - by apply accounted_end.
Qed.

(** The states of a manager, whatever it receives. *)
Inductive managed (local : bool) (slots : Z) : gset JobId -> Manager -> Prop :=
| managed_new : managed local slots ∅ Manager_new
| managed_step seen m x claim : managed local slots seen m -> agrees seen x ->
    managed local slots (seen ∪ stamped_in x) (fst (step local slots claim x m)).

Lemma managed_accounted local slots seen m : managed local slots seen m -> accounted seen m.
Proof. induction 1 as [|seen m x claim _ IH Hx]; [apply accounted_new|by apply accounted_step]. Qed.

(** C16: However events, rescans, restarts, admissions and ends interleave, a job has
    at most one attempt that has not ended, and none as long as the end of an earlier
    one is still to be received; provided that no job is shown without its stamp
    after it was shown with it. *)
Theorem one_attempt local slots seen m i i' a a' :
  managed local slots seen m -> attempts m !! i = Some a -> attempts m !! i' = Some a' -> at_job a = at_job a' ->
  i = i' /\ at_job a ∉ finished m.
Proof.
  intros Hm Ha Ha' E. destruct (ac_alone _ _ (managed_accounted _ _ _ _ Hm) (at_job a)) as [H1 H2].
  split; [apply H1; [by exists a|by exists a']|]. apply H2. exists i. by exists a.
Qed.

(** ** Slots *)

Abbreviation is_running := (fun kv : nat * Attempt => at_running (snd kv) = true).

Lemma running_insert_idle m (i : nat) a : at_running a = false -> (forall b, attempts m !! i = Some b -> at_running b = false) ->
  base.size (filter is_running (<[i := a]> (attempts m))) = running m.
Proof.
  intros Ha Hold. unfold running. rewrite map_filter_insert_not'; [done|cbn; by rewrite Ha|]. intros b Hb. cbn. by rewrite (Hold b Hb).
Qed.

Lemma running_insert_busy m (i : nat) a b : at_running a = true -> attempts m !! i = Some b ->
  base.size (filter is_running (<[i := a]> (attempts m))) = if at_running b then running m else S (running m).
Proof.
  intros Ha Hb. unfold running. rewrite map_filter_insert_True by done. destruct (at_running b) eqn:Er.
  - apply map_size_insert_Some. exists b. by apply map_lookup_filter_Some.
  - apply map_size_insert_None. apply map_lookup_filter_None. right. intros c Hc. rewrite Hb in Hc. injection Hc as <-. cbn. by rewrite Er.
Qed.

Lemma running_cancel j m : running (cancel_attempt j m) = running m.
Proof.
  unfold cancel_attempt. destruct (active m !! j) as [i|]; [|done]. unfold running at 1. cbn.
  destruct (attempts m !! i) as [a|] eqn:Ha.
  - assert (E : alter cancelled i (attempts m) = <[i := cancelled a]> (attempts m)) by (apply map_eq; intros k; destruct (decide (k = i)) as [->|Hn];
      [by rewrite lookup_alter_eq, Ha, lookup_insert_eq|by rewrite lookup_alter_ne, lookup_insert_ne]).
    rewrite E. destruct (at_running a) eqn:Er.
    + rewrite (running_insert_busy m i (cancelled a) a); [by rewrite Er|done|done].
    + apply running_insert_idle; [done|]. intros b Hb. rewrite Ha in Hb. by injection Hb as <-.
  - by rewrite alter_id'.
Qed.

Lemma running_spawn seen j from m : accounted seen m -> running (spawn_job j from m) = running m.
Proof. intros Ha. apply running_insert_idle; [done|]. intros b Hb. apply (ac_fresh _ _ Ha) in Hb. lia. Qed.

Lemma running_end i m : (running (end_attempt i m) <= running m)%nat.
Proof.
  unfold end_attempt. destruct (attempts m !! i) as [a|] eqn:Ha; [|done]. unfold running. cbn.
  apply map_subseteq_size, map_filter_subseteq_mono, delete_subseteq.
Qed.

Lemma running_admit slots i claim m : (Z.of_nat (running m) <= Z.max slots 1) -> Z.of_nat (running (admit_attempt slots i claim m)) <= Z.max slots 1.
Proof.
  intros Hr. unfold admit_attempt. destruct (attempts m !! i) as [a|] eqn:Ha; [|done].
  destruct (_ || _ || _) eqn:E; [done|]. apply orb_false_iff in E as [[Er _]%orb_false_iff Hlt%negb_false_iff%Z.ltb_lt].
  destruct (claim (at_job a)).
  - unfold running at 1. cbn. rewrite (running_insert_busy m i _ a) by done. rewrite Er. lia.
  - pose proof (running_end i m). lia.
Qed.

Lemma running_row seen local claim m acts v : accounted seen m -> running (fst (scan_row local claim (m, acts) v)) = running m.
Proof.
  intros Ha. unfold scan_row. destruct (_ && _ && ended _).
  - destruct (active m !! v_id v); [|done]. exact (running_cancel _ _).
  - destruct (_ && _ && claim (v_id v)); [done|]. destruct (_ && _ && _ && _); [|done]. by apply (running_spawn seen).
Qed.

Lemma running_scan seen local claim snapshot m : accounted seen m -> (forall v, v ∈ snapshot -> v_pp_done v = true -> v_id v ∈ seen) ->
  (forall v, v ∈ snapshot -> v_pp_done v = false -> v_id v ∉ seen) -> running (fst (scan_queue local claim snapshot m)) = running m.
Proof.
  unfold scan_queue. generalize (@nil Action). revert m. induction snapshot as [|v vs IH]; intros m acts Ha Hs Hn; [done|].
  cbn [fold_left]. pose proof (running_row seen local claim m acts v Ha) as Hr. pose proof (accounted_row seen local claim m acts v Ha) as Hacc.
  destruct (scan_row local claim (m, acts) v) as [m' acts']. cbn in Hr. rewrite <- Hr.
  apply IH; [apply Hacc; [apply Hs|apply Hn]; by left|intros w Hw; apply Hs; by right|intros w Hw; apply Hn; by right].
Qed.

Lemma running_step seen local slots claim x m : accounted seen m -> agrees seen x -> Z.of_nat (running m) <= Z.max slots 1 ->
  Z.of_nat (running (fst (step local slots claim x m))) <= Z.max slots 1.
Proof.
  intros Ha Hx Hr. assert (Hsp : forall j from, running (spawn_job j from m) = running m) by (intros; by apply (running_spawn seen)).
  destruct x as [snapshot|exported job s name health|job|snapshot|snapshot job from|i|i]; cbn [step fst].
  - rewrite (running_scan (seen ∪ stamped_in (I_Rescan snapshot))); [done|by eapply accounted_seen; [|apply union_subseteq_l]| |].
    + intros v Hv Hd. apply elem_of_union_r, elem_of_list_to_set, list_elem_of_In, in_map, filter_In. split; [by apply list_elem_of_In|done].
    + intros v Hv Hd. destruct (proj1 Hx v Hv Hd). set_solver.
  - unfold on_job_finished. destruct s; try done; destruct (claim job); try done. destruct exported; [|done]. destruct (_ && _); [|done]. cbn. by rewrite Hsp.
  - unfold on_job_deleted. rewrite running_cancel. exact Hr.
  - destruct (finished m) as [|j rest] eqn:Hf; [done|]. unfold on_attempt_finished. destruct (pending_restarts _ !! j); [|exact Hr].
    destruct (_ && _); [|exact Hr]. destruct (accounted_receive _ _ _ _ Ha Hf) as [H1 _]. cbn [fst]. rewrite (running_spawn seen); [exact Hr|by apply keeps_accounts_pending].
  - unfold on_restart. destruct (view_of snapshot job); [|done]. destruct (v_pp_done j); [done|]. destruct (negb (startable _)); [done|].
    destruct (negb (claim _)); [done|]. destruct (restart_limit _); [|done]. destruct (negb (includes _ _)); [done|]. destruct (active m !! job).
    + cbn [fst]. rewrite running_cancel. exact Hr.
    + cbn [fst]. by rewrite Hsp.
  - by apply running_admit.
  - pose proof (running_end i m). lia.
Qed.

(** At most the configured number of pipelines run at a time (one, where none is
    configured). *)
Theorem slots_bounded local slots seen m : managed local slots seen m -> Z.of_nat (running m) <= Z.max slots 1.
Proof.
  intros Hm. induction Hm as [|seen m x claim Hm IH Hx]; [change (0 <= Z.max slots 1); lia|].
  eapply running_step; [by eapply managed_accounted|done|done].
Qed.

(** ** Restarts *)

(** What leaves a pending restart of [job] alone: everything but its deletion, the
    end of its attempt, and another restart of it. *)
Definition undisturbed (job : JobId) (m : Manager) (x : Input) : Prop :=
  match x with
  | I_JobDeleted j => j <> job
  | I_Restart _ j _ => j <> job
  | I_AttemptFinished _ => match finished m with j :: _ => j <> job | [] => True end
  | _ => True
  end.

Inductive meanwhile (local : bool) (slots : Z) (job : JobId) (m : Manager) : Manager -> Prop :=
| meanwhile_now : meanwhile local slots job m m
| meanwhile_step m' x claim : meanwhile local slots job m m' -> undisturbed job m' x ->
    meanwhile local slots job m (fst (step local slots claim x m')).

Lemma pending_cancel j m : pending_restarts (cancel_attempt j m) = pending_restarts m.
Proof. unfold cancel_attempt. by destruct (active m !! j). Qed.

Lemma pending_row local claim st v : pending_restarts (fst (scan_row local claim st v)) = pending_restarts (fst st).
Proof.
  destruct st as [m acts]. unfold scan_row. destruct (_ && _ && ended _).
  - destruct (active m !! v_id v); [|done]. cbn. apply pending_cancel.
  - destruct (_ && _ && claim (v_id v)); [done|]. by destruct (_ && _ && _ && _).
Qed.

Lemma pending_scan local claim snapshot m : pending_restarts (fst (scan_queue local claim snapshot m)) = pending_restarts m.
Proof.
  unfold scan_queue. change (pending_restarts m) with (pending_restarts (fst (m, @nil Action))). generalize (m, @nil Action).
  induction snapshot as [|v vs IH]; intros st; [done|]. cbn [fold_left]. by rewrite IH, pending_row.
Qed.

Lemma pending_end i m : pending_restarts (end_attempt i m) = pending_restarts m.
Proof. unfold end_attempt. by destruct (attempts m !! i). Qed.

Lemma pending_step local slots claim x job m : undisturbed job m x ->
  pending_restarts (fst (step local slots claim x m)) !! job = pending_restarts m !! job.
Proof.
  intros Hx. destruct x as [snapshot|exported j s name health|j|snapshot|snapshot j from|i|i]; cbn [step fst] in *.
  - by rewrite pending_scan.
  - unfold on_job_finished. destruct s; try done; destruct (claim j); try done. destruct exported; [|done]. by destruct (_ && _).
  - unfold on_job_deleted. rewrite pending_cancel. cbn. by rewrite lookup_delete_ne.
  - cbn in Hx. destruct (finished m) as [|j rest]; [done|]. unfold on_attempt_finished. destruct (pending_restarts _ !! j); [|done].
    destruct (_ && _); cbn; by rewrite lookup_delete_ne.
  - unfold on_restart. destruct (view_of snapshot j); [|done]. destruct (v_pp_done j0); [done|]. destruct (negb (startable _)); [done|].
    destruct (negb (claim _)); [done|]. destruct (restart_limit _); [|done]. destruct (negb (includes _ _)); [done|]. destruct (active m !! j); [|done].
    cbn [fst]. rewrite pending_cancel. cbn. by rewrite lookup_insert_ne.
  - unfold admit_attempt. destruct (attempts m !! i); [|done]. destruct (_ || _ || _); [done|]. destruct (claim _); [done|]. by rewrite pending_end.
  - by rewrite pending_end.
Qed.

Lemma pending_meanwhile local slots job m m' : meanwhile local slots job m m' -> pending_restarts m' !! job = pending_restarts m !! job.
Proof. induction 1 as [|m' x claim _ IH Hx]; [done|]. by rewrite pending_step. Qed.

(** The attempt that a job gets from a point. *)
Definition starts (job : JobId) (from : RestartPoint) (m m' : Manager) : Prop :=
  active m' !! job = Some (next_attempt m) /\ attempts m' !! next_attempt m = Some (mkAttempt job from false false).

(** A restart is accepted only of a job that is known, not stamped, at or past the
    point, and owned; it then starts an attempt from that point at once, or cancels
    the running one and starts it when that end is received and the job still may be
    processed, whatever happens between but the job's deletion or another restart.  A
    refused restart changes nothing. *)
Theorem restart_honoured local slots claim snapshot job from m :
  match on_restart claim snapshot job from m with
  | (m', Ok tt) =>
      (exists v limit, v ∈ snapshot /\ v_id v = job /\ v_pp_done v = false /\ restart_limit (v_status v) = Some limit /\
         point_order from <= point_order limit /\ claim job = true) /\
      match active m !! job with
      | None => starts job from m m'
      | Some i =>
          (forall a, attempts m !! i = Some a -> attempts m' !! i = Some (cancelled a)) /\
          forall m2 rest claim2 snapshot2, meanwhile local slots job m' m2 -> finished m2 = job :: rest -> claim2 job = true ->
            (exists v, v ∈ snapshot2 /\ v_id v = job /\ v_pp_done v = false /\ startable (v_status v) = true) ->
            starts job from m2 (fst (step local slots claim2 (I_AttemptFinished snapshot2) m2))
      end
  | (m', Err _) => m' = m
  end.
Proof.
  unfold on_restart. destruct (view_of snapshot job) as [v|] eqn:Hv; [|done]. apply view_in in Hv as [Hin <-].
  destruct (v_pp_done v) eqn:Hd; [done|]. destruct (startable (v_status v)) eqn:Hs; [|done]. destruct (claim (v_id v)) eqn:Hc; [|done]. cbn [negb].
  destruct (restart_limit (v_status v)) as [limit|] eqn:Hl; [|done]. destruct (includes from limit) eqn:Hi; [|done]. cbn [negb].
  apply Z.leb_le in Hi. destruct (active m !! v_id v) as [i|] eqn:Ha.
  - split; [by exists v, limit|]. unfold cancel_attempt. cbn. rewrite Ha. cbn. split.
    { intros a Hx. by rewrite lookup_alter_eq, Hx. }
    intros m2 rest claim2 snapshot2 Hm Hf Hc2 (v2 & Hin2 & Hid2 & Hd2 & Hs2). apply pending_meanwhile in Hm. cbn in Hm. rewrite lookup_insert_eq in Hm.
    cbn [step]. rewrite Hf. unfold on_attempt_finished. cbn. rewrite Hm, Hc2.
    assert (existsb (fun v0 => bool_decide (v_id v0 = v_id v) && negb (v_pp_done v0) && startable (v_status v0)) snapshot2 = true) as ->.
    { apply existsb_exists. exists v2. split; [by apply list_elem_of_In|]. by rewrite bool_decide_eq_true_2, Hd2, Hs2. }
    split; cbn; by rewrite lookup_insert_eq.
  - split; [by exists v, limit|]. split; cbn; by rewrite lookup_insert_eq.
Qed.

(** A finished download, its attempt in the pipeline, and a restart from the unpack
    stage on. *)
Definition demo_inputs : list Input :=
  [I_JobFinished (Some false) 7 JS_Completed [] 1000; I_Admit 0;
   I_Restart [mkView 7 [] (JS_Post Move) false 1000] 7 At_Unpack].

Definition demo_manager (xs : list Input) : Manager := fold_left (fun m x => fst (step true 2 (fun _ => true) x m)) xs Manager_new.

Lemma demo_managed xs seen m : managed true 2 seen m -> Forall (fun x => agrees ∅ x /\ stamped_in x = ∅) xs -> seen = ∅ ->
  managed true 2 ∅ (fold_left (fun m x => fst (step true 2 (fun _ => true) x m)) xs m).
Proof.
  intros Hm Hxs ->. revert m Hm. induction Hxs as [|x xs [Hx Hs] _ IH]; intros m Hm; [done|]. apply IH.
  pose proof (managed_step true 2 ∅ m x (fun _ => true) Hm Hx) as Hn. by rewrite Hs, (right_id_L ∅ (∪)) in Hn.
Qed.

Lemma demo_reached : managed true 2 ∅ (demo_manager demo_inputs).
Proof.
  apply (demo_managed _ ∅ Manager_new); [constructor| |done]. repeat constructor; cbn; try set_solver.
Qed.

Lemma one_attempt_witness :
  attempts (demo_manager demo_inputs) !! 0%nat = Some (mkAttempt 7 At_Beginning true true) /\ 7 ∉ finished (demo_manager demo_inputs).
Proof.
  split; [by vm_compute|]. by apply (one_attempt true 2 ∅ _ 0 0 (mkAttempt 7 At_Beginning true true) (mkAttempt 7 At_Beginning true true) demo_reached).
Defined.

Lemma slots_bounded_witness : running (demo_manager demo_inputs) = 1%nat /\ Z.of_nat (running (demo_manager demo_inputs)) <= 2.
Proof. split; [by vm_compute|]. exact (slots_bounded true 2 ∅ _ demo_reached). Defined.

(** When the attempt has ended, its replacement starts where it was asked to. *)
Example demo_restart :
  let m := demo_manager (demo_inputs ++ [I_End 0; I_AttemptFinished [mkView 7 [] (JS_Post Move) false 1000]]) in
  active m !! 7 = Some 1%nat /\ attempts m !! 1%nat = Some (mkAttempt 7 At_Unpack false false) /\ attempts m !! 0%nat = None.
Proof. by vm_compute. Qed.
