(* ===== verification/FailedJob.v ===== *)
(** * Jobs that failed before post-processing ([handle_failed_job], [manager.rs])

    What becomes of their files, their history entry, their stamp and their
    announcement, as a program of [PostOps]: every call may refuse, and the attempt is
    then left for a later scan. *)

From S2P Require Owner.
From S2P Require Import Prelude RustStr Types JobNames Tree History PostOps Tools Pipeline.

#[local] Unset Default Proof Using.

Definition PP_FAILURE_AT_PARAM : str := lit "*PP:failure-at".
Definition PP_FAILURE_DISPOSITION_ATTEMPTS_PARAM : str := lit "*PP:failure-disposition-attempts".
Definition FAILURE_DISPOSITION_ATTEMPT_LIMIT : Z := 3.

(** [i64::to_string]. *)
Definition show_i64 (n : Z) : str := if n <? 0 then 45 :: show_dec (- n) else show_dec n.

Definition find_param (k : str) (j : Job) : option str := snd <$> List.find (fun '(k', _) => bool_decide (k' = k)) (params j).

(** A parameter's first value replaced, or the parameter added. *)
Fixpoint replace_param (k v : str) (ps : list (str * str)) : option (list (str * str)) :=
  match ps with
  | [] => None
  | (k', v') :: ps' => if bool_decide (k' = k) then Some ((k', v) :: ps') else cons (k', v') <$> replace_param k v ps'
  end.

Definition put_param (k v : str) (j : Job) : Job :=
  match replace_param k v (params j) with Some ps => with_params ps j | None => push_param k v j end.

Section FailedJob.
Context (debug_op : result ArtifactOp str -> str) (debug_err : option str -> str).
Variables (cfg : PostConfig) (dest_dir : path) (gated : bool).

(** The gate; a manager without one owns every job. *)
Definition claim : Prog bool := if gated then ask O_Claim else Done true.

(** Goes on only while the claim stands. *)
Definition guarded (k : Prog unit) : Prog unit := do held := claim in if held then k else Done tt.

(** Goes on only when the queue's snapshot holds the job. *)
Definition committed (j : Job) (k : Prog unit) : Prog unit :=
  do r := ask (O_ImportIfPresent j) in match r with Some true => k | _ => Done tt end.

Definition canonical_failed_disposition (dir_name : str) (source : path) : Prog (option Disposition) :=
  match failure_action cfg with
  | FA_None =>
      do r := ask (O_TryExists source) in
      Done (match r with
            | Some true => Some (mkDisposition (lit "kept") (Some source))
            | Some false => Some (mkDisposition (lit "already gone") None)
            | None => None
            end)
  | FA_Delete =>
      do r := ask (O_TryExists source) in
      Done (match r with Some false => Some (mkDisposition (lit "deleted") None) | _ => None end)
  | FA_Park =>
      let target := parked_target cfg dest_dir dir_name in
      do s := ask (O_TryExists source) in
      do t := ask (O_TryExists target) in
      Done (match s, t with
            | Some false, Some true => Some (mkDisposition (lit "parked at " ++ display target) (Some target))
            | _, _ => None
            end)
  end.

Definition attempts_of (j : Job) : Z :=
  Z.min (Z.min (default 0 (find_param PP_FAILURE_DISPOSITION_ATTEMPTS_PARAM j ≫= parse_uint 10 u32_max) + 1) u32_max)
    FAILURE_DISPOSITION_ATTEMPT_LIMIT.

(** A disposition that did not take: counted, durably, and given up after the last
    attempt.  [k] goes on with what was observed. *)
Definition count_attempt (job : JobId) (observed : Disposition) (j : Job) (k : Job -> Disposition -> Prog unit) : Prog unit :=
  guarded (
    if Owner.is_out_of_space (di_note observed) then
      ask (O_OutOfSpace (lit "failed-file disposition for job " ++ show_dec job ++ lit ": " ++ di_note observed))
    else
      do recent := ask (O_Debounced job) in
      if recent then Done tt
      else
        let attempts := attempts_of j in
        let j := put_param PP_FAILURE_DISPOSITION_ATTEMPTS_PARAM (show_dec attempts) j in
        committed j (
          do _ := ask (O_SpentAttempt job) in
          guarded (if attempts <? FAILURE_DISPOSITION_ATTEMPT_LIMIT then Done tt else k j observed))).

(** The files of the job, if it has any. *)
Definition disposed (job : JobId) (exported : option Job) (k : option Job -> option Disposition -> Prog unit) : Prog unit :=
  match exported with
  | Some j =>
      match Types.files j with
      | [] => k exported None
      | _ :: _ =>
          let dir_name := job_dir_name j in
          let source := join dest_dir dir_name in
          do observed := dispose_failed debug_op debug_err cfg dest_dir job source dir_name in
          do canonical := canonical_failed_disposition dir_name source in
          match canonical with
          | Some d => k exported (Some d)
          | None => count_attempt job observed j (fun j d => k (Some j) (Some d))
          end
      end
  | None => k None None
  end.

Definition fail_status (exported : option Job) : str :=
  if match exported with Some j => bool_decide (kind j = JobKind_Url) && match Types.files j with [] => true | _ => false end | None => false end
  then lit "FAILURE/FETCH" else lit "FAILURE/HEALTH".

Definition failed_entry (job : JobId) (name : str) (health completed_at : Z) (exported : option Job) (d : option Disposition) : HistoryEntry := {|
  he_job := job; he_name := name; he_category := exported ≫= category; he_final_dir := (display <$> (d ≫= di_files_at));
  he_status := fail_status exported; he_size := match exported with Some j => size (totals j) | None => 0 end; he_health := health;
  he_params := match exported with Some j => user_params j | None => [] end ++ match d with Some d => [(lit "Failure:Files", di_note d)] | None => [] end;
  he_dupe_key := match exported with Some j => dupe_key (dupe j) | None => [] end;
  he_dupe_score := match exported with Some j => dupe_score (dupe j) | None => 0 end;
  he_completed_at_unix := completed_at; he_hidden := false; he_first_seen_at_unix := None; he_last_seen_at_unix := None; he_seen_count := 0;
  he_removed_at_unix := None; he_picked_up_by := None; he_record := from_job <$> exported;
  he_stages := match exported with Some j => stages j | None => [] end; he_seq := 0 |}.

Definition with_id (id : str) (e : HistoryEntry) : HistoryEntry := {|
  he_job := he_job e; he_name := he_name e; he_category := he_category e; he_final_dir := he_final_dir e; he_status := he_status e;
  he_size := he_size e; he_health := he_health e; he_params := he_params e ++ [(ARTIFACT_ID, id)]; he_dupe_key := he_dupe_key e;
  he_dupe_score := he_dupe_score e; he_completed_at_unix := he_completed_at_unix e; he_hidden := he_hidden e;
  he_first_seen_at_unix := he_first_seen_at_unix e; he_last_seen_at_unix := he_last_seen_at_unix e; he_seen_count := he_seen_count e;
  he_removed_at_unix := he_removed_at_unix e; he_picked_up_by := he_picked_up_by e; he_record := he_record e; he_stages := he_stages e;
  he_seq := he_seq e |}.

(** The inventory's entry for the files that are left; [None] where it refuses. *)
Definition failed_inventory (job : JobId) (e : HistoryEntry) : Prog (option HistoryEntry) :=
  do e := (match he_final_dir e with
           | Some fd =>
               let p := path_of fd in
               let parked := existsb (fun '(k, v) => bool_decide (k = lit "Failure:Files") && starts_with (lit "parked at ") v) (he_params e) in
               do r := ask (O_FinishArtifact job p (parent p) (if parked then lit "parked_failed" else lit "retained")) in
               Done (match r with Ok a => Some (with_id (art_id a) e) | Err _ => None end)
           | None => Done (Some e)
           end) in
  match e with
  | Some e =>
      if existsb (fun '(k, _) => bool_decide (k = ARTIFACT_ID)) (he_params e) then Done (Some e)
      else
        do known := ask (O_ForJob job) in
        Done (Some (match known with Some (Some a) => with_id (art_id a) e | _ => e end))
  | None => Done None
  end.

(** The stamp, on the job as it was exported. *)
Definition failed_stamp (status : str) (e : HistoryEntry) (j : Job) : Job :=
  push_param PP_DONE_PARAM status
    (match List.find (fun '(k, _) => bool_decide (k = lit "Failure:Files")) (he_params e) with
     | Some (_, note) => push_param (lit "Failure:Files") note j
     | None => j
     end).

(** History, then the stamp, then the announcement. *)
Definition finish_failed (job : JobId) (name : str) (health completed_at : Z) (exported : option Job) (d : option Disposition) : Prog unit :=
  guarded (
    do e := failed_inventory job (failed_entry job name health completed_at exported d) in
    match e with
    | None => Done tt
    | Some e =>
        do r := ask (O_RecordDurable e) in
        match r with
        | Err error =>
            if Owner.is_out_of_space error then ask (O_OutOfSpace (lit "record failed-job history: " ++ error)) else Done tt
        | Ok (seq, e) =>
            let announce := ask (O_Finished (mkPpFinished job name (he_category e) (fail_status exported) (he_final_dir e) (he_size e) health (he_params e) seq)) in
            guarded (
              match exported with
              | Some j => committed (failed_stamp (fail_status exported) e j) announce
              | None => announce
              end)
        end
    end).

Definition handle_failed_job (job : JobId) (name : str) (health : Z) : Prog unit :=
  do r := ask (O_Export job) in
  let exported := match r with Some e => e | None => None end in
  if match exported with Some j => pp_done j | None => false end then Done tt
  else
    guarded (
      do completed_at :=
        (match (exported ≫= find_param PP_FAILURE_AT_PARAM) ≫= parse_i64 with
         | Some at_unix => Done at_unix
         | None => ask O_Now
         end) in
      let finalize (exported : option Job) := guarded (disposed job exported (finish_failed job name health completed_at)) in
      match exported with
      | Some j =>
          if existsb (fun '(k, _) => bool_decide (k = PP_FAILURE_AT_PARAM)) (params j) then finalize exported
          else
            let j := push_param PP_FAILURE_AT_PARAM (show_i64 completed_at) j in
            committed j (finalize (Some j))
      | None => finalize None
      end).

End FailedJob.
