(* ===== verification/FailedInv.v ===== *)
(** * What [handle_failed_job] guarantees

    Whatever the engine, the inventory, the history and the gate answer: no file is
    moved or deleted before the completion's time is in the queue's snapshot, and
    nothing recorded before, unless the queue did not show the job; nothing is stamped or announced before the history holds the
    entry; and nothing at all follows a refusal. *)

From S2P Require Import Prelude RustStr Types JobNames Tree History PostOps Tools Pipeline FailedJob.

#[local] Unset Default Proof Using.

(** ** Numbers in parameters *)

Lemma parse_show_i64 n : - (i64_max + 1) <= n <= i64_max -> parse_i64 (show_i64 n) = Some n.
Proof.
  intros Hn. unfold show_i64, parse_i64. assert (Hdig : forall m, 0 <= m -> Forall (fun c => is_ascii_digit c = true) (show_dec m)) by (intros; by apply show_dec_digits).
  destruct (n <? 0) eqn:E; [apply Z.ltb_lt in E|apply Z.ltb_ge in E].
  - cbn [Z.eqb]. pose proof (show_dec_nonempty (- n)) as Hne. pose proof (Hdig (- n) ltac:(lia)) as Hd.
    pose proof (parse_show_dec (i64_max + 1) (- n) ltac:(lia)) as Hp. unfold parse_uint in Hp. destruct (show_dec (- n)) as [|c s]; [done|].
    inversion Hd as [|? ? Hc _]; subst. change (45 =? 45) with true. cbn [negb].
    destruct (c =? 43) eqn:E43; [apply Z.eqb_eq in E43; by subst c|]. rewrite Hp. cbn. f_equal. lia.
  - pose proof (show_dec_nonempty n) as Hne. pose proof (Hdig n E) as Hd. pose proof (parse_show_dec i64_max n ltac:(lia)) as Hp.
    destruct (show_dec n) as [|c s]; [done|]. inversion Hd as [|? ? Hc _]; subst.
    destruct (c =? 45) eqn:E45; [apply Z.eqb_eq in E45; by subst c|]. exact Hp.
Qed.

(** ** Events *)

Inductive FClass :=
| F_other
| F_claim (b : bool)
| F_export (r : option (option Job))
| F_import (j : Job) (r : option bool)
| F_effect                                     (* files moved, deleted, or their end registered *)
| F_record (e : HistoryEntry) (r : result (Z * HistoryEntry) str)
| F_finished (f : PpFinished).

Definition fclass (e : Event) : FClass :=
  match e with
  | E_Touch _ => F_other
  | E_Ask o x =>
      (match o in Op X return X -> FClass with
       | O_Claim => F_claim
       | O_Export _ => F_export
       | O_ImportIfPresent j => F_import j
       | O_Relocate _ _ => fun _ => F_effect
       | O_FinishArtifact _ _ _ _ => fun _ => F_effect
       | O_RequestDelete _ _ _ => fun _ => F_effect
       | O_ExecuteDelete _ => fun _ => F_effect
       | O_RecordDurable e => F_record e
       | O_Finished f => fun _ => F_finished f
       | _ => fun _ => F_other
       end) x
  end.

Definition fhappened (p : FClass -> Prop) (tr : list Event) : Prop := Exists (fun e => p (fclass e)) tr.

(** What nothing follows. *)
Definition refusal (c : FClass) : Prop :=
  match c with F_claim false => True | F_import _ r => r <> Some true | _ => False end.

(** The job is in the queue's snapshot: it was exported, or an import of it reached
    the disk. *)
Definition durable (j : Job) (tr : list Event) : Prop :=
  fhappened (fun c => match c with F_export (Some (Some j')) => j' = j | F_import j' (Some true) => j' = j | _ => False end) tr.

Definition vanished (tr : list Event) : Prop :=
  fhappened (fun c => match c with F_export (Some (Some _)) => False | F_export _ => True | _ => False end) tr.

Definition keyed (tr : list Event) : Prop := exists j v, durable j tr /\ find_param PP_FAILURE_AT_PARAM j = Some v.

(** The completion's time is the one of the snapshot, where that can be read. *)
Definition fits (c : Z) (v : str) : Prop := v = show_i64 c \/ parse_i64 v = Some c \/ parse_i64 v = None.

Definition fixed (c : Z) (tr : list Event) : Prop :=
  (exists j v, durable j tr /\ find_param PP_FAILURE_AT_PARAM j = Some v /\ fits c v) \/ vanished tr.

Definition recorded (seq : Z) (e : HistoryEntry) (tr : list Event) : Prop :=
  fhappened (fun c => match c with F_record _ (Ok (seq', e')) => seq' = seq /\ e' = e | _ => False end) tr.

Definition stamp_committed (st : str) (tr : list Event) : Prop :=
  fhappened (fun c => match c with F_import j (Some true) => (PP_DONE_PARAM, st) ∈ params j | _ => False end) tr.

Section Failed.
Variable job : JobId.

Definition fmay (c : FClass) (past : list Event) : Prop :=
  ~ fhappened refusal past /\
  match c with
  | F_effect => keyed past
  | F_record e _ => he_job e = job /\ fixed (he_completed_at_unix e) past
  | F_import j _ => pp_done j = true -> exists seq e, recorded seq e past
  | F_finished f =>
      ppf_job f = job /\
      exists e, recorded (ppf_history_seq f) e past /\ ppf_final_dir f = he_final_dir e /\ ppf_params f = he_params e /\
        (stamp_committed (ppf_status f) past \/ vanished past)
  | _ => True
  end.

Definition forderly (tr : list Event) : Prop := match tr with [] => True | e :: past => fmay (fclass e) past end.

(** ** Later pasts *)

Definition goes (tr : list Event) : Prop := ~ fhappened refusal tr.
Definition later (tr tr' : list Event) : Prop := goes tr' /\ exists l, tr' = l ++ tr.

Lemma later_refl tr : goes tr -> later tr tr.
Proof. intros Hg. split; [done|]. by exists []. Qed.

Lemma later_trans a b c : later a b -> later b c -> later a c.
Proof. intros [_ [l ->]] [Hg [l' ->]]. split; [done|]. exists (l' ++ l). by rewrite app_assoc. Qed.

Lemma later_cons a b e : later a b -> ~ refusal (fclass e) -> later a (e :: b).
Proof.
  intros [Hg [l ->]] He. split; [|by exists (e :: l)]. unfold goes, fhappened in *. rewrite Exists_cons. by intros [|].
Qed.

Lemma fhappened_later p a b : later a b -> fhappened p a -> fhappened p b.
Proof. intros [_ [l ->]] Hp. unfold fhappened. apply Exists_app. by right. Qed.

Lemma fhappened_now (p : FClass -> Prop) e tr : p (fclass e) -> fhappened p (e :: tr).
Proof. intros Hp. by apply Exists_cons_hd. Qed.

Lemma keyed_later a b : later a b -> keyed a -> keyed b.
Proof. intros Hl (j & v & Hd & Hv). exists j, v. split; [by eapply fhappened_later|done]. Qed.

Lemma fixed_later c a b : later a b -> fixed c a -> fixed c b.
Proof. intros Hl [(j & v & Hd & Hv)|Hv]; [left|right; by eapply fhappened_later]. exists j, v. split; [by eapply fhappened_later|done]. Qed.

#[local] Hint Resolve later_refl later_trans fhappened_later keyed_later fixed_later : core.

(** ** Programs *)

Abbreviation good := (all_runs forderly).
Definition fine {A} (p : Prog A) (tr : list Event) : Prop := good p (fun _ _ => True) tr.

(** What only works on the files, once the key is durable. *)
Definition works {A} (p : Prog A) : Prop := forall tr, goes tr -> keyed tr -> good p (fun tr' _ => later tr tr') tr.

Lemma files_works_done {A} (a : A) : works (Done a).
Proof. intros tr Hg _. by apply later_refl. Qed.

Lemma files_works_ask {X} (o : Op X) : (forall x, match fclass (E_Ask o x) with F_other | F_effect => True | _ => False end) -> works (ask o).
Proof.
  intros Ho tr Hg Hk x. specialize (Ho x). split.
  - split; [exact Hg|]. revert Ho. by destruct (fclass (E_Ask o x)).
  - apply later_cons; [by apply later_refl|]. revert Ho. destruct (fclass (E_Ask o x)); cbn; tauto.
Qed.

Lemma files_works_bind {A B} (p : Prog A) (f : A -> Prog B) : works p -> (forall a, works (f a)) -> works (prog_bind p f).
Proof.
  intros Hp Hf tr Hg Hk. apply all_runs_bind. eapply all_runs_mono; [by apply Hp|]. intros tr' a Hl. cbv beta in Hl.
  eapply all_runs_mono; [apply Hf; [apply Hl|eauto]|]. intros tr2 b Hl2. cbv beta in Hl2. eauto.
Qed.

Lemma files_works_try {A B E} (p : Prog (result A E)) (f : A -> Prog (result B E)) : works p -> (forall a, works (f a)) -> works (try_bind p f).
Proof. intros Hp Hf. apply files_works_bind; [done|]. intros [a|e]; [apply Hf|apply files_works_done]. Qed.

Lemma fine_works {A B} (p : Prog A) (f : A -> Prog B) tr : works p -> goes tr -> keyed tr -> (forall tr' a, later tr tr' -> fine (f a) tr') -> fine (prog_bind p f) tr.
Proof. intros Hp Hg Hk Hf. apply all_runs_bind. eapply all_runs_mono; [by apply Hp|]. intros tr' a Hl. by apply Hf. Qed.

Lemma fine_other {X B} (o : Op X) (f : X -> Prog B) tr : (forall x, fclass (E_Ask o x) = F_other) -> goes tr ->
  (forall tr' x, later tr tr' -> fine (f x) tr') -> fine (prog_bind (ask o) f) tr.
Proof.
  intros Ho Hg Hf x. split; [split; [exact Hg|by rewrite Ho]|]. apply Hf. apply later_cons; [by apply later_refl|rewrite Ho; by intros []].
Qed.

Lemma fine_last {X} (o : Op X) tr : (forall x, fclass (E_Ask o x) = F_other) -> goes tr -> fine (ask o) tr.
Proof. intros Ho Hg x. by repeat split; [|rewrite Ho]. Qed.

Variable gated : bool.

Lemma fine_guarded k tr : goes tr -> (forall tr', later tr tr' -> fine k tr') -> fine (guarded gated k) tr.
Proof.
  intros Hg Hk. unfold guarded, claim. destruct gated; [|apply Hk; by apply later_refl].
  intros b. split; [by split|]. destruct b; [|exact I]. apply Hk. apply later_cons; [by apply later_refl|by intros []].
Qed.

Lemma fine_committed j k tr : goes tr -> (pp_done j = true -> exists seq e, recorded seq e tr) ->
  (forall tr', later tr tr' -> durable j tr' -> (forall st, (PP_DONE_PARAM, st) ∈ params j -> stamp_committed st tr') -> fine k tr') ->
  fine (committed j k) tr.
Proof.
  intros Hg Hp Hk r. split; [by split|]. destruct r as [[|]|]; [|exact I..].
  apply Hk; [by apply later_cons; [apply later_refl|cbn; intros ?]|by apply fhappened_now|]. intros st Hst. by apply fhappened_now.
Qed.

(** ** The program *)

Context (debug_op : result ArtifactOp str -> str) (debug_err : option str -> str).
Variables (cfg : PostConfig) (dest_dir : path).

Ltac work_step :=
  match goal with
  | |- works (Done _) => apply files_works_done
  | |- works (ask _) => apply files_works_ask; intros; exact Logic.I
  | |- works (try_bind _ _) => apply files_works_try; [|intros ?]
  | |- works (prog_bind _ _) => apply files_works_bind; [|intros ?]
  | |- works (match ?x with _ => _ end) => destruct x
  end.

Lemma works_dispose dir nm : works (dispose_failed debug_op debug_err cfg dest_dir job dir nm).
Proof. unfold dispose_failed, checked_delete. repeat work_step. Qed.

Lemma works_canonical nm src : works (canonical_failed_disposition cfg dest_dir nm src).
Proof. unfold canonical_failed_disposition. repeat work_step. Qed.

(** The job that goes on, and what is known of it. *)
Definition carried (exported : option Job) (tr : list Event) : Prop :=
  match exported with Some j => keyed tr | None => vanished tr end.

Lemma carried_later x a b : later a b -> carried x a -> carried x b.
Proof. destruct x; [apply keyed_later|apply fhappened_later]. Qed.

Lemma find_param_push k v j : find_param k j = None -> find_param k (push_param k v j) = Some v.
Proof.
  unfold find_param, push_param. cbn. generalize (params j). induction l as [|[k' v'] l IH]; cbn.
  - by rewrite bool_decide_eq_true_2.
  - destruct (bool_decide (k' = k)); [done|exact IH].
Qed.

Lemma replace_param_done k v ps ps' : k <> PP_DONE_PARAM -> replace_param k v ps = Some ps' ->
  existsb (fun '(k, _) => bool_decide (k = PP_DONE_PARAM)) ps' = existsb (fun '(k, _) => bool_decide (k = PP_DONE_PARAM)) ps.
Proof.
  intros Hk. revert ps'. induction ps as [|[k' v'] ps IH]; intros ps'; cbn; [done|]. case_bool_decide as E.
  - intros [= <-]. by subst.
  - destruct (replace_param k v ps) as [qs|]; [|done]. intros [= <-]. cbn. f_equal. by apply IH.
Qed.

Lemma put_param_done k v j : k <> PP_DONE_PARAM -> pp_done (put_param k v j) = pp_done j.
Proof.
  intros Hk. unfold put_param. destruct (replace_param k v (params j)) as [ps|] eqn:E; [by apply (replace_param_done k v)|].
  unfold pp_done, push_param. cbn. rewrite existsb_app. cbn. rewrite bool_decide_eq_false_2 by done. by rewrite !orb_false_r.
Qed.

(** The entry with the inventory's id. *)
Lemma good_inventory e tr : goes tr -> (he_final_dir e <> None -> keyed tr) ->
  good (failed_inventory job e) (fun tr' r => later tr tr' /\ match r with Some e' => he_job e' = he_job e /\ he_completed_at_unix e' = he_completed_at_unix e | None => True end) tr.
Proof.
  intros Hg Hk. unfold failed_inventory.
  assert (Hrest : forall tr' e', later tr tr' -> he_job e' = he_job e /\ he_completed_at_unix e' = he_completed_at_unix e ->
    good (if existsb (fun '(k, _) => bool_decide (k = ARTIFACT_ID)) (he_params e') then Done (Some e')
      else do known := ask (O_ForJob job) in Done (Some (match known with Some (Some a) => with_id (art_id a) e' | _ => e' end)))
      (fun tr' r => later tr tr' /\ match r with Some e' => he_job e' = he_job e /\ he_completed_at_unix e' = he_completed_at_unix e | None => True end) tr').
  { intros tr' e' Hl He. destruct (existsb _ _); [by split|]. intros known. split; [split; [apply Hl|done]|].
    split; [apply later_cons; [done|by intros []]|]. by destruct known as [[a|]|]. }
  destruct (he_final_dir e) as [fd|]; [|apply Hrest; [by apply later_refl|done]].
  intros r. split; [by split; [|apply Hk]|]. destruct r as [a|err].
  - apply (Hrest _ (with_id (art_id a) e)); [apply later_cons; [by apply later_refl|by intros []]|done].
  - split; [|done]. apply later_cons; [by apply later_refl|by intros []].
Qed.

(** From the inventory on. *)
Lemma fine_finish nm health c x d tr : goes tr -> fixed c tr -> carried x tr -> (d <> None -> keyed tr) ->
  fine (finish_failed gated job nm health c x d) tr.
Proof.
  intros Hg Hf Hx Hd. apply fine_guarded; [done|]. intros tr1 H1. set (e0 := failed_entry job nm health c x d).
  assert (He0 : he_job e0 = job /\ he_completed_at_unix e0 = c) by done.
  assert (Hinv : good (failed_inventory job e0) (fun tr' r => later tr1 tr' /\ match r with Some e => he_job e = job /\ he_completed_at_unix e = c | None => True end) tr1).
  { apply good_inventory; [apply H1|]. destruct d as [d|]; [intros _; eapply keyed_later; [done|by apply Hd]|done]. }
  apply all_runs_bind. eapply all_runs_mono; [exact Hinv|]. intros tr2 [e|] [H2 He]; [|exact I]. destruct He as [Hj Hc].
  intros r. split; [split; [apply H2|]; split; [done|]; rewrite Hc; eauto|]. set (tr3 := _ :: tr2).
  assert (H3 : later tr2 tr3) by (apply later_cons; [by apply later_refl, H2|by intros []]).
  destruct r as [[seq e']|error].
  2:{ cbn [prog_bind]. destruct (Owner.is_out_of_space error); [|exact I]. apply fine_last; [done|apply H3]. }
  assert (Hrec : recorded seq e' tr3) by by apply fhappened_now. clearbody tr3.
  apply fine_guarded; [apply H3|]. intros tr4 H4. destruct x as [j|].
  - apply fine_committed; [apply H4|intros _; exists seq, e'; by eapply fhappened_later|]. intros tr5 H5 _ Hst. unfold fine, ask. cbn [all_runs]. intros [].
    split; [|exact I]. split; [apply H5|]. split; [done|]. exists e'. split_and!; [do 2 (eapply fhappened_later; [done|]); exact Hrec|done|done|]. left. apply Hst.
    unfold failed_stamp, push_param. cbn. apply elem_of_app. right. by apply list_elem_of_singleton.
  - unfold fine, ask. cbn [all_runs]. intros []. split; [|exact I]. split; [apply H4|]. split; [done|]. exists e'. split_and!; [by eapply fhappened_later|done|done|]. right.
    exact (fhappened_later _ _ _ (later_trans _ _ _ H1 (later_trans _ _ _ H2 (later_trans _ _ _ H3 H4))) Hx).
Qed.

Lemma fine_count observed j k tr : goes tr -> keyed tr -> pp_done j = false ->
  (forall tr' j' d, later tr tr' -> pp_done j' = false -> fine (k j' d) tr') -> fine (count_attempt gated job observed j k) tr.
Proof.
  intros Hg Hk Hj Hgo. apply fine_guarded; [done|]. intros tr1 H1.
  destruct (Owner.is_out_of_space (di_note observed)); [apply fine_last; [done|apply H1]|].
  apply fine_other; [done|apply H1|]. intros tr2 recent H2. destruct recent; [exact I|].
  cbv zeta. set (j' := put_param PP_FAILURE_DISPOSITION_ATTEMPTS_PARAM (show_dec (attempts_of j)) j). assert (Hj' : pp_done j' = false) by (rewrite <- Hj; by apply put_param_done). clearbody j'.
  apply fine_committed; [apply H2|by rewrite Hj'|]. intros tr3 H3 _ _. apply fine_other; [done|apply H3|]. intros tr4 _ H4.
  apply fine_guarded; [apply H4|]. intros tr5 H5. destruct (_ <? _); [exact I|]. apply Hgo; [|done]. eauto 10.
Qed.

Lemma fine_disposed x k tr : goes tr -> carried x tr -> match x with Some j => pp_done j = false | None => True end ->
  (forall tr' x' d, later tr tr' -> carried x' tr' -> (d <> None -> keyed tr') -> fine (k x' d) tr') ->
  fine (disposed debug_op debug_err cfg dest_dir gated job x k) tr.
Proof.
  intros Hg Hx Hd Hk. unfold disposed. destruct x as [j|]; [|by apply Hk; [apply later_refl| |]].
  destruct (Types.files j); [by apply Hk; [apply later_refl| |]|].
  apply fine_works; [apply works_dispose|done|done|]. intros tr1 observed H1.
  apply fine_works; [apply works_canonical|apply H1|eauto|]. intros tr2 [d|] H2.
  - apply Hk; [eauto|exact (keyed_later _ _ (later_trans _ _ _ H1 H2) Hx)|intros _; exact (keyed_later _ _ (later_trans _ _ _ H1 H2) Hx)].
  - apply fine_count; [apply H2|exact (keyed_later _ _ (later_trans _ _ _ H1 H2) Hx)|done|]. intros tr3 j' d H3 _.
    assert (Hk3 : keyed tr3) by exact (keyed_later _ _ (later_trans _ _ _ H1 (later_trans _ _ _ H2 H3)) Hx). apply Hk; [eauto|done|done].
Qed.

Abbreviation handle_failed_job := (handle_failed_job debug_op debug_err cfg dest_dir gated job).

Lemma has_param k j : existsb (fun '(k', _) => bool_decide (k' = k)) (params j) = match find_param k j with Some _ => true | None => false end.
Proof.
  unfold find_param. induction (params j) as [|[k' v'] ps IH]; cbn; [done|].
  destruct (bool_decide (k' = k)); [done|exact IH].
Qed.

Lemma fine_finalize x nm health c tr : goes tr -> fixed c tr -> carried x tr -> match x with Some j => pp_done j = false | None => True end ->
  fine (guarded gated (disposed debug_op debug_err cfg dest_dir gated job x (finish_failed gated job nm health c))) tr.
Proof.
  intros Hg Hf Hx Hd. apply fine_guarded; [done|]. intros tr1 H1. apply fine_disposed; [apply H1|by eapply carried_later|done|].
  intros tr2 x' d H2 Hx' Hk. apply fine_finish; [apply H2|eauto|done|done].
Qed.

Lemma fine_complete x nm health c tr : goes tr -> match x with Some j => durable j tr /\ pp_done j = false | None => vanished tr end ->
  (forall j v, x = Some j -> find_param PP_FAILURE_AT_PARAM j = Some v -> parse_i64 v = Some c \/ parse_i64 v = None) ->
  let finalize x := guarded gated (disposed debug_op debug_err cfg dest_dir gated job x (finish_failed gated job nm health c)) in
  fine (match x with
        | Some j =>
            if existsb (fun '(k, _) => bool_decide (k = PP_FAILURE_AT_PARAM)) (params j) then finalize x
            else committed (push_param PP_FAILURE_AT_PARAM (show_i64 c) j) (finalize (Some (push_param PP_FAILURE_AT_PARAM (show_i64 c) j)))
        | None => finalize None
        end) tr.
Proof.
  intros Hg Hx Hfit. cbv zeta. destruct x as [j|]; [|apply fine_finalize; [done|by right|done|done]]. destruct Hx as [Hd Hp]. rewrite has_param.
  destruct (find_param PP_FAILURE_AT_PARAM j) as [v|] eqn:Hn.
  - apply fine_finalize; [done| |by exists j, v|done].
    left. exists j, v. split_and!; [done|done|]. right. by apply (Hfit j).
  - set (j' := push_param _ _ j). assert (Hj' : pp_done j' = false) by (rewrite <- Hp; unfold pp_done, j', push_param; cbn; rewrite existsb_app; by rewrite orb_false_r).
    assert (Hv' : find_param PP_FAILURE_AT_PARAM j' = Some (show_i64 c)) by by apply find_param_push. clearbody j'.
    apply fine_committed; [done|by rewrite Hj'|]. intros tr1 H1 Hd1 _. apply fine_finalize; [apply H1| |by exists j', (show_i64 c)|done].
    left. exists j', (show_i64 c). split_and!; [done|done|by left].
Qed.

Lemma failed_fine nm health : fine (handle_failed_job nm health) [].
Proof.
  intros r. split; [split; [by inversion 1|done]|]. set (x := match r with Some e => e | None => None end).
  cbn [prog_bind]. fold x. destruct (match x with Some j => pp_done j | None => false end) eqn:Hd; [exact I|].
  set (tr1 := [E_Ask (O_Export job) r]). assert (H1 : goes tr1) by (intros Hr; apply Exists_cons in Hr as [[]|Hr]; by inversion Hr).
  assert (Hx : match x with Some j => durable j tr1 | None => vanished tr1 end) by (subst x; destruct r as [[j|]|]; by apply fhappened_now).
  clearbody x tr1. apply fine_guarded; [done|]. intros tr2 H2.
  assert (Hx2 : match x with Some j => durable j tr2 /\ pp_done j = false | None => vanished tr2 end)
    by (destruct x; [split; [|done]|]; by eapply fhappened_later).
  destruct ((x ≫= find_param PP_FAILURE_AT_PARAM) ≫= parse_i64) as [c|] eqn:Ec.
  - apply fine_complete; [apply H2|done|]. intros j v -> Hv. cbn [mbind option_bind] in Ec. rewrite Hv in Ec. by left.
  - apply fine_other; [done|apply H2|]. intros tr3 c H3. apply fine_complete; [apply H3| |].
    + destruct x; [destruct Hx2; split; [|done]|]; by eapply fhappened_later.
    + intros j v -> Hv. cbn [mbind option_bind] in Ec. rewrite Hv in Ec. by right.
Qed.

(** What may happen, at every event of every run. *)
Lemma failed_may_happen nm health t tr t' r before e after : exec t (handle_failed_job nm health) tr t' r -> tr = before ++ e :: after ->
  fmay (fclass e) (rev before).
Proof.
  intros Hr ->. destruct (all_runs_exec _ _ _ _ _ _ _ Hr [] (failed_fine nm health)) as [Ho _].
  specialize (Ho (before ++ [e]) after). rewrite <- app_assoc, rev_app_distr, app_nil_r in Ho. apply Ho; [done|by destruct before].
Qed.

End Failed.
