(* ===== verification/FailedProps.v ===== *)
(** * Failed jobs: the properties, and their history

    [handle_failed_job] composed with the durable append of [HistoryDb]: an attempt
    that follows one that recorded the job finds its row. *)

From S2P Require Import Prelude RustStr Types JobNames Tree History HistoryDb PostOps Tools Pipeline PostSafety FailedJob FailedInv.

#[local] Unset Default Proof Using.

Section FailedJobs.
Context (debug_op : result ArtifactOp str -> str) (debug_err : option str -> str).
Variables (cfg : PostConfig) (dest_dir : path) (gated : bool) (job : JobId).

Abbreviation handle_failed_job := (handle_failed_job debug_op debug_err cfg dest_dir gated job).


(** A failed job is stamped only when the history durably holds its entry, and
    announced only after that and after the stamp reached the queue's snapshot (or the
    job vanished), with the sequence number and the content of that entry. *)
Theorem failure_recorded_before_stamp nm health t tr t' r before e after :
  exec t (handle_failed_job nm health) tr t' r -> tr = before ++ e :: after ->
  match fclass e with
  | F_import j _ => pp_done j = true -> exists seq e', recorded seq e' (rev before)
  | F_finished f =>
      exists e', recorded (ppf_history_seq f) e' (rev before) /\ ppf_final_dir f = he_final_dir e' /\ ppf_params f = he_params e' /\
        (stamp_committed (ppf_status f) (rev before) \/ vanished (rev before))
  | _ => True
  end.
Proof.
  intros Hr Htr. destruct (failed_may_happen _ _ _ _ _ _ _ _ _ _ _ _ _ _ _ Hr Htr) as [_ Hm].
  destruct (fclass e); try done. by destruct Hm as [_ Hm].
Qed.

(** The time of the completion, from any row of the queue that the run saw. *)
Lemma recorded_key nm health t tr t' r e x c :
  exec t (handle_failed_job nm health) tr t' r -> E_Ask (O_RecordDurable e) x ∈ tr ->
  (forall j v, durable j tr -> find_param PP_FAILURE_AT_PARAM j = Some v -> parse_i64 v = Some c) -> ~ vanished tr ->
  - (i64_max + 1) <= he_completed_at_unix e <= i64_max -> key_of e = (job, c).
Proof.
  intros Hr Hin Hc Hv Hi. apply list_elem_of_split in Hin as (b1 & b2 & Htr).
  destruct (failed_may_happen _ _ _ _ _ _ _ _ _ _ _ _ _ _ _ Hr Htr) as (_ & Hj & Hf).
  assert (Hsub : forall p, fhappened p (rev b1) -> fhappened p tr).
  { intros p Hp. rewrite Htr. apply Exists_app. left. rewrite <- (rev_involutive b1). by apply Exists_rev. }
  destruct Hf as [(j & v & Hd & Hk & Hfit)|Hvan]; [|by destruct Hv; apply Hsub].
  specialize (Hc j v (Hsub _ Hd) Hk). unfold key_of. rewrite Hj. f_equal.
  destruct Hfit as [->|[E|E]]; [|congruence..]. rewrite parse_show_i64 in Hc by done. by injection Hc.
Qed.
End FailedJobs.

(** ** The durable append *)

Section Durable.
Context {hc : HistoryCodec}.

Lemma prune_rows_sub r now i k row : rows (prune_rows r now i) !! k = Some row -> rows i !! k = Some row.
Proof.
  unfold prune_rows. case_match; cbn; intros Hk; [apply map_lookup_filter_Some in Hk as [Hk _]|]; by apply map_lookup_filter_Some in Hk as [Hk _].
Qed.

Lemma maybe_prune_sub due now db k row : rows (db_index (maybe_prune due now db)) !! k = Some row -> rows (db_index db) !! k = Some row.
Proof.
  unfold maybe_prune. destruct due; [|done]. unfold prune_db, prune. destruct (is_unlimited _); [done|].
  destruct (map he_job _) as [|j gone]; cbn [fst].
  - cbn. apply prune_rows_sub.
  - destruct (match min_completed _ with Some m => Some m | None => _ end); cbn; apply prune_rows_sub.
Qed.

Lemma first_payload_key k ls e : first_payload k ls = Some e -> key_of e = k.
Proof.
  unfold first_payload. intros He. assert (Hin : e ∈ omap (fun l => match log_line l with L_Entry e => if bool_decide (key_of e = k) then Some e else None | _ => None end) ls).
  { destruct (omap _ ls) as [|e' es]; [done|]. injection He as ->. by left. }
  apply list_elem_of_omap in Hin as (l & _ & Hl). destruct (log_line l); try done. by case_bool_decide; simplify_eq.
Qed.

Lemma canonical_key ls e : key_of (default e (first_payload (key_of e) ls)) = key_of e.
Proof. destruct (first_payload (key_of e) ls) eqn:E; [by eapply first_payload_key|done]. Qed.

(** What the append answers is the row's number, and the row says it was synced. *)
Lemma recorded_row logs fate due now e db db' seq p row :
  record_seq_durable logs fate due now e db = (db', Some (seq, p)) -> rows (db_index db') !! key_of e = Some row ->
  he_seq (entry row) = seq /\ portable_synced row = true.
Proof.
  unfold record_seq_durable. set (c := default e _). assert (Hc : key_of c = key_of e) by apply canonical_key. rewrite Hc.
  destruct (rows (db_index db) !! key_of e) as [[old [|]]|] eqn:Hold.
  { intros [= <- <- _] Hrow. rewrite Hold in Hrow. by injection Hrow as <-. }
  all: destruct (append_jsonl fate c (db_log db)) as [log [|]]; [|done]; cbn [with_log db_index]; unfold insert_seq; rewrite Hc, Hold.
  all: destruct (bool_decide _) eqn:Et; intros [= <- <- _] Hrow; apply maybe_prune_sub in Hrow; cbn in Hrow; rewrite lookup_alter_eq in Hrow.
  all: try rewrite Hold in Hrow; try rewrite lookup_insert_eq in Hrow; cbn in Hrow; try done.
  all: try by injection Hrow as <-.
  unfold replay_entry in Hrow. rewrite Hc, Hold, Et in Hrow. cbn in Hrow. rewrite lookup_insert_eq in Hrow. by injection Hrow as <-.
Qed.

(** C18: An attempt at a failed job that repeats one whose entry was recorded adds no
    row.  Both saw the job's row in the queue, with one completion time; the first
    one's append succeeded.  Then in whatever state the history is when the second
    records, as long as it still has that row with its number and its mark of being
    saved, the second finds the row, leaves the history as it is, and is answered the
    first one's sequence number. *)
Theorem retried_failure_one_row debug_op debug_err cfg1 cfg2 dest1 dest2 gated1 gated2 job nm1 nm2 h1 h2 t1 t2 tr1 tr2 t1' t2' r1 r2 e1 e2 x1 x2 c
    logs1 logs2 fate1 fate2 due1 due2 now1 now2 db db' db2 seq p row row2 :
  exec t1 (handle_failed_job debug_op debug_err cfg1 dest1 gated1 job nm1 h1) tr1 t1' r1 -> E_Ask (O_RecordDurable e1) x1 ∈ tr1 ->
  exec t2 (handle_failed_job debug_op debug_err cfg2 dest2 gated2 job nm2 h2) tr2 t2' r2 -> E_Ask (O_RecordDurable e2) x2 ∈ tr2 ->
  (forall tr j v, tr = tr1 \/ tr = tr2 -> durable j tr -> find_param PP_FAILURE_AT_PARAM j = Some v -> parse_i64 v = Some c) ->
  ~ vanished tr1 -> ~ vanished tr2 ->
  - (i64_max + 1) <= he_completed_at_unix e1 <= i64_max -> - (i64_max + 1) <= he_completed_at_unix e2 <= i64_max ->
  record_seq_durable logs1 fate1 due1 now1 e1 db = (db', Some (seq, p)) -> rows (db_index db') !! (job, c) = Some row ->
  rows (db_index db2) !! (job, c) = Some row2 -> he_seq (entry row2) = he_seq (entry row) -> portable_synced row2 = portable_synced row ->
  exists p', record_seq_durable logs2 fate2 due2 now2 e2 db2 = (db2, Some (seq, p')).
Proof.
  intros Hr1 Hin1 Hr2 Hin2 Hc Hv1 Hv2 Hi1 Hi2 Hrec Hrow Hrow2 Es Ep.
  assert (K1 : key_of e1 = (job, c)) by (eapply recorded_key; [exact Hr1|exact Hin1|intros j v; apply Hc; by left|done|done]).
  assert (K2 : key_of e2 = (job, c)) by (eapply recorded_key; [exact Hr2|exact Hin2|intros j v; apply Hc; by right|done|done]).
  rewrite <- K1 in Hrow. destruct (recorded_row _ _ _ _ _ _ _ _ _ _ Hrec Hrow) as [Hseq Hsync].
  unfold record_seq_durable. rewrite canonical_key, K2, Hrow2. rewrite Hseq in Es. rewrite Hsync in Ep. destruct row2 as [old sync]. cbn in Es, Ep. subst. by eexists.
Qed.

End Durable.

(** ** A failed download

    Its files are parked; the first time the stamp does not reach the queue. *)

Definition failed_file : FileEntry := {|
  file_id := 1; subject := []; filename := lit "a.rar"; filename_confirmed := true; is_par2 := false; paused := false;
  groups := []; date := None; segments := []; file_crc32 := None; finalized := false |}.

Definition failed_job (ps : list (str * str)) : Job := {|
  job_id := 7; kind := JobKind_Nzb; name := lit "show"; dir_name := lit "show"; name_provisional := false;
  queued_at_unix := 0; original_name := []; category := None; priority := 0; dupe := DupeInfo_default; params := ps;
  Types.files := [failed_file]; totals := JobTotals_default; status := JS_Failed; torrent := None; stages := [] |}.

Definition failed_tree : Tree := mkTree (list_to_map [(child demo_dir (lit "a.rar"), [0])]) {[ []; [lit "dl"]; demo_dir ]}.

(** The engine shows [j] and commits a stamp only when [stamp]. *)
Definition failed_world (j : Job) (stamp : bool) : World := fun X o t =>
  match o in Op X return Tree * X with
  | O_Export _ => (t, Some (Some j))
  | O_ImportIfPresent j' => (t, if negb stamp && pp_done j' then None else Some true)
  | o => demo_world 0 _ o t
  end.

Definition handle_demo : Prog unit :=
  handle_failed_job (fun _ => []) (fun _ => []) (demo_cfg FA_Park) [lit "dl"] true 7 (lit "show") 800.

Definition key_params : list (str * str) := [(PP_FAILURE_AT_PARAM, lit "100")].
Definition first_try := play (failed_world (failed_job []) false) failed_tree handle_demo.
Definition second_try := play (failed_world (failed_job key_params) true) (tree_of first_try) handle_demo.

Definition entry_recorded (tr : list Event) : HistoryEntry :=
  default (sample_entry 0 0) (hd_error (omap (fun e => match fclass e with F_record e' _ => Some e' | _ => None end) tr)).

(** The same by computation. *)
Definition durable_jobs (tr : list Event) : list Job :=
  omap (fun e => match fclass e with F_export (Some (Some j)) => Some j | F_import j (Some true) => Some j | _ => None end) tr.

Lemma durable_in j tr : durable j tr -> j ∈ durable_jobs tr.
Proof.
  intros Hd. apply Exists_exists in Hd as (e & Hin & He). apply list_elem_of_omap. exists e. split; [done|].
  destruct (fclass e) as [|b|[[j'|]|]|j' [[|]|]| | |]; by subst.
Qed.

Definition vanishedb (tr : list Event) : bool :=
  existsb (fun e => match fclass e with F_export (Some (Some _)) => false | F_export _ => true | _ => false end) tr.

Lemma vanished_shown tr : vanishedb tr = false -> ~ vanished tr.
Proof.
  intros Hb Hv. apply Exists_exists in Hv as (e & Hin & He). apply not_true_iff_false in Hb. apply Hb, existsb_exists. exists e.
  split; [by apply list_elem_of_In|]. by destruct (fclass e) as [|b|[[j'|]|]| | | |].
Qed.

Lemma dated_at c tr : forallb (fun j => match find_param PP_FAILURE_AT_PARAM j with Some v => bool_decide (parse_i64 v = Some c) | None => true end) (durable_jobs tr) = true ->
  forall j v, durable j tr -> find_param PP_FAILURE_AT_PARAM j = Some v -> parse_i64 v = Some c.
Proof.
  intros Hf j v Hd Hv. rewrite forallb_forall in Hf. specialize (Hf j (proj1 (list_elem_of_In _ _) (durable_in _ _ Hd))).
  rewrite Hv in Hf. by apply bool_decide_eq_true in Hf.
Qed.

Lemma first_exec : exec failed_tree handle_demo (trace_of first_try) (tree_of first_try) (Some tt).
Proof. exact (run_exec (failed_world (failed_job []) false) handle_demo failed_tree eq_refl). Qed.

Lemma second_exec : exec (tree_of first_try) handle_demo (trace_of second_try) (tree_of second_try) (Some tt).
Proof. exact (run_exec (failed_world (failed_job key_params) true) handle_demo (tree_of first_try) eq_refl). Qed.

Lemma at_event (tr : list Event) (n : nat) e : tr !! n = Some e -> tr = take n tr ++ e :: drop (S n) tr.
Proof. intros Hn. symmetry. by apply take_drop_middle. Qed.

Definition event_at (tr : list Event) (n : nat) : Event := default (E_Touch D_Look) (tr !! n).

Definition failed_finished : PpFinished :=
  match fclass (event_at (trace_of second_try) 11) with F_finished f => f | _ => mkPpFinished 0 [] None [] None 0 0 [] 0 end.


Lemma failure_recorded_before_stamp_witness :
  exists e, recorded (ppf_history_seq failed_finished) e (rev (take 11 (trace_of second_try))) /\ ppf_params failed_finished = he_params e.
Proof.
  assert (Ht : trace_of second_try !! 11%nat = Some (event_at (trace_of second_try) 11)) by by vm_compute.
  pose proof (failure_recorded_before_stamp _ _ _ _ _ _ _ _ _ _ _ _ _ _ _ second_exec (at_event _ 11 _ Ht)) as Hm.
  assert (E : fclass (event_at (trace_of second_try) 11) = F_finished failed_finished) by by vm_compute. rewrite E in Hm.
  destruct Hm as (e & He & _ & Hp & _). exact (ex_intro _ e (conj He Hp)).
Defined.

Example failed_announced : ppf_history_seq failed_finished = 42 /\ ppf_status failed_finished = lit "FAILURE/HEALTH" /\
  ppf_final_dir failed_finished = Some (lit "/dl/.failed/show").
Proof. by vm_compute. Qed.

(** Both tries at the parked job, into an empty history. *)
Definition failed_e1 : HistoryEntry := entry_recorded (trace_of first_try).
Definition failed_e2 : HistoryEntry := entry_recorded (trace_of second_try).
Definition empty_db : HistoryDb := mkDb empty_index None ∅ ∅ (mkRetention 0 0) false.
Definition recorded_db : HistoryDb := fst (record_seq_durable (hc := braced_history) [] Appended false 0 failed_e1 empty_db).

Lemma first_recorded : record_seq_durable (hc := braced_history) [] Appended false 0 failed_e1 empty_db = (recorded_db, Some (1, failed_e1)).
Proof. vm_compute. reflexivity. Qed.

(** Meanwhile another job is recorded. *)
Definition later_db : HistoryDb := fst (record_seq_durable (hc := braced_history) [] Appended false 0 (sample_entry 9 50) recorded_db).

Lemma retried_failure_one_row_witness :
  exists p, record_seq_durable (hc := braced_history) [] Appended false 0 failed_e2 later_db = (later_db, Some (1, p)).
Proof.
  eapply (retried_failure_one_row (hc := braced_history)) with (x1 := Ok (42, failed_e1)) (x2 := Ok (42, failed_e2)) (c := 100) (e1 := failed_e1) (p := failed_e1)
    (row := default (new_row 0 failed_e1) (rows (db_index recorded_db) !! (7, 100)))
    (row2 := default (new_row 0 failed_e1) (rows (db_index recorded_db) !! (7, 100))).
  - exact first_exec.
  - apply list_elem_of_lookup_2 with (i := 10%nat). by vm_compute.
  - exact second_exec.
  - apply list_elem_of_lookup_2 with (i := 8%nat). by vm_compute.
  - intros tr j v [->| ->]; apply dated_at; by vm_compute.
  - apply vanished_shown. by vm_compute.
  - apply vanished_shown. by vm_compute.
  - by vm_compute.
  - by vm_compute.
  - exact first_recorded.
  - by vm_compute.
  - by vm_compute.
  - done.
  - done.
Defined.

(** The exception: the queue does not answer the export, and the entry is recorded
    under the time of the clock, with nothing in the queue's snapshot. *)
Definition unseen_world : World := fun X o t =>
  match o in Op X return Tree * X with
  | O_Export _ => (t, None)
  | o => demo_world 0 _ o t
  end.

Definition unseen_trace : list Event := trace_of (play unseen_world failed_tree handle_demo).

Lemma unseen_failure_unkeyed : durable_jobs unseen_trace = [] /\ he_completed_at_unix (entry_recorded unseen_trace) = 100 /\
  existsb (fun e => match fclass e with F_record _ _ => true | _ => false end) unseen_trace = true.
Proof. by vm_compute. Qed.
