(* ===== verification/PayloadFs.v ===== *)
(** * Payload directories ([crates/nzbd-state/src/artifacts/fs.rs])

    The file system as the payload inventory sees it, and the descriptor-relative
    operations the inventory is allowed to use on it.  The system is a map from
    absolute paths to entries; a descriptor is the path it was opened at.  What the
    rest of the machine decides (a call that fails, the process dying at a call, the
    clocks, the sizes and times a directory gets when an entry leaves it) comes from an
    [Oracle], asked once per call.  Between two calls of one operation nothing else
    writes; between operations the environment may replace the whole file system. *)

From stdpp Require Import sorting.
From S2P Require Import Prelude RustStr Tree.

#[local] Unset Default Proof Using.

(** ** Data *)

(** [modified] is the text ["seconds:nanoseconds"]. *)
Record Identity := mkIdentity { device : Z; inode : Z; id_bytes : Z; modified : Z * Z; directory : bool }.

#[export] Instance Identity_eq_dec : EqDecision Identity.
Proof. solve_decision. Defined.

Definition same_object (i other : Identity) : bool :=
  (device i =? device other) && (inode i =? inode other) && eqb (directory i) (directory other).

(** A relative path is the list of its components. *)
Record FileEntry := mkFileEntry { fe_path : path; fe_identity : Identity; fe_digest : option str }.

#[export] Instance FileEntry_eq_dec : EqDecision FileEntry.
Proof. solve_decision. Defined.

(** What is at a path; a symbolic link may or may not lead somewhere. *)
Inductive EntryKind := Regular | Directory | Symlink (resolves : bool) | Special.

#[export] Instance EntryKind_eq_dec : EqDecision EntryKind.
Proof. solve_decision. Defined.

Record Entry := mkEntry { en_device : Z; en_inode : Z; en_bytes : Z; en_modified : Z * Z; en_kind : EntryKind; en_data : bytes }.

Definition is_dir (e : Entry) : bool := bool_decide (en_kind e = Directory).
Definition is_file (e : Entry) : bool := bool_decide (en_kind e = Regular).

Definition identity (e : Entry) : Identity := mkIdentity (en_device e) (en_inode e) (en_bytes e) (en_modified e) (is_dir e).

Abbreviation Disk := (@gmap path (@list_eq_dec str (@list_eq_dec Z numbers.Z.eq_dec))
  (@list_countable str (@list_eq_dec Z numbers.Z.eq_dec) (@list_countable Z numbers.Z.eq_dec Z_countable)) Entry).

(** ** Errors and outcomes *)

Inductive IoKind := IoNotFound | IoExists | IoCrossesDevices | IoOther.

#[export] Instance IoKind_eq_dec : EqDecision IoKind.
Proof. solve_decision. Defined.

Inductive Error := Sql | Io (k : IoKind) | Json | Conflict (why : str) | NotFound.

(** A call goes through, fails, or is where the process dies. *)
Inductive Fault := Fine | Fails | Dies.

#[export] Instance Fault_eq_dec : EqDecision Fault.
Proof. solve_decision. Defined.

Inductive outcome (A : Type) := Fin (a : A) | Fail (e : Error) | Dead.
Arguments Fin {A} a.
Arguments Fail {A} e.
Arguments Dead {A}.

Class Oracle := {
  fault : nat -> Fault;
  wall : nat -> Z;
  monotonic : nat -> Z;
  dir_bytes : nat -> Z;
  fresh_inode : nat -> Z;
  fresh_id : nat -> str;
  free_bytes : nat -> Z
}.

(** ** The effect

    [W] is the state of the component; it holds a [Disk] and the number of calls made
    so far. *)

Class HasDisk (W : Type) := {
  disk : W -> Disk;
  set_disk : Disk -> W -> W;
  calls : W -> nat;
  set_calls : nat -> W -> W;
  disk_set_disk d s : disk (set_disk d s) = d;
  disk_set_calls n s : disk (set_calls n s) = disk s;
  set_calls_set_calls n m s : set_calls n (set_calls m s) = set_calls n s;
  set_calls_same s : set_calls (calls s) s = s;
  set_disk_same s : set_disk (disk s) s = s;
  set_disk_set_disk d d' s : set_disk d (set_disk d' s) = set_disk d s;
  set_disk_set_calls d n s : set_disk d (set_calls n s) = set_calls n (set_disk d s)
}.

Definition Act (W A : Type) : Type := W -> W * outcome A.

#[export] Instance act_ret {W} : MRet (Act W) := fun A a s => (s, Fin a).
#[export] Instance act_bind {W} : MBind (Act W) := fun A B k m s =>
  match m s with
  | (s', Fin a) => k a s'
  | (s', Fail e) => (s', Fail e)
  | (s', Dead) => (s', Dead)
  end.

Section Effect.
Context {W : Type}.

Definition throw {A} (e : Error) : Act W A := fun s => (s, Fail e).
Definition get : Act W W := fun s => (s, Fin s).
Definition modify (f : W -> W) : Act W unit := fun s => (f s, Fin tt).

(** The value of a fallible call, for code that looks at it. *)
Definition attempt {A} (m : Act W A) : Act W (result A Error) := fun s =>
  match m s with
  | (s', Fin a) => (s', Fin (Ok a))
  | (s', Fail e) => (s', Fin (Err e))
  | (s', Dead) => (s', Dead)
  end.

Definition unless (b : bool) (e : Error) : Act W unit := if b then mret tt else throw e.

Fixpoint for_each {A} (l : list A) (f : A -> Act W unit) : Act W unit :=
  match l with
  | [] => mret tt
  | x :: l' => _ ← f x; for_each l' f
  end.

Fixpoint fold_acts {A B} (f : B -> A -> Act W B) (l : list A) (b : B) : Act W B :=
  match l with
  | [] => mret b
  | x :: l' => b' ← f b x; fold_acts f l' b'
  end.
End Effect.

(** ** System calls *)

Section Calls.
Context `{Oracle, HasDisk W}.

(** A call that may fail with [e]; its number. *)
Definition call (e : Error) : Act W nat := fun s =>
  let n := calls s in
  (set_calls (S n) s, match fault n with Fine => Fin n | Fails => Fail e | Dies => Dead end).

Definition io : Act W nat := call (Io IoOther).
Definition the_disk : Act W Disk := fun s => (s, Fin (disk s)).
Definition now : Act W Z := fun s => let n := calls s in (set_calls (S n) s, Fin (wall n)).

Definition absolute (p : path) : Act W unit :=
  unless (forallb (fun c => negb (bool_decide (c = lit ".")) && negb (bool_decide (c = lit ".."))) p)
    (Conflict (lit "an absolute path without dot components is required")).

(** [openat] with [O_NOFOLLOW]. *)
Definition open_at (parent : path) (name : str) (dir : bool) : Act W path :=
  _ ← io; d ← the_disk;
  match d !! parent, d !! child parent name with
  | Some pe, Some e =>
      if negb (is_dir pe) then throw (Io IoOther)
      else match en_kind e with
           | Symlink _ => throw (Io IoOther)
           | Directory => mret (child parent name)
           | _ => if dir then throw (Io IoOther) else mret (child parent name)
           end
  | _, _ => throw (Io IoNotFound)
  end.

Definition metadata (handle : path) : Act W Entry :=
  _ ← io; d ← the_disk;
  match d !! handle with Some e => mret e | None => throw (Io IoNotFound) end.

Definition open_dir (p : path) : Act W path :=
  _ ← absolute p; _ ← io;
  fold_acts (fun dir name => open_at dir name true) p [].

(** The names in a directory. *)
Definition children (d : Disk) (dir : path) : list str :=
  omap (fun '(p, _) => match p with [] => None | _ => if bool_decide (removelast p = dir) then Some (file_name p) else None end)
    (map_to_list d).

Definition names (dir : path) : Act W (list str) :=
  _ ← io; d ← the_disk;
  let ns := children d dir in
  _ ← unless (Z.of_nat (length ns) <=? 100001) (Conflict (lit "directory enumeration limit reached"));
  mret ns.

(** A directory's size and times change when an entry leaves it. *)
Definition touch_dir (n : nat) (e : Entry) : Entry :=
  if is_dir e then mkEntry (en_device e) (en_inode e) (dir_bytes n) (wall n, 0) (en_kind e) (en_data e) else e.

Definition unlinked (n : nat) (parent : path) (name : str) (d : Disk) : Disk :=
  alter (touch_dir n) parent (delete (child parent name) d).

Definition unlink (parent : path) (name : str) (dir : bool) : Act W unit :=
  n ← io; d ← the_disk;
  match d !! child parent name with
  | None => throw (Io IoNotFound)
  | Some e =>
      _ ← unless (eqb dir (is_dir e)) (Io IoOther);
      _ ← unless (negb dir || bool_decide (children d (child parent name) = [])) (Io IoOther);
      _ ← modify (set_disk (unlinked n parent name d));
      _ ← io; mret tt
  end.

Definition sync_directory (dir : path) : Act W unit := _ ← io; mret tt.

(** [symlink_metadata], [try_exists] and [exists] of an absolute path. *)
Definition symlink_metadata (p : path) : Act W Entry :=
  _ ← io; d ← the_disk;
  match d !! p with Some e => mret e | None => throw (Io IoNotFound) end.

Definition resolves_entry (e : Entry) : bool := match en_kind e with Symlink b => b | _ => true end.

Definition try_exists (p : path) : Act W bool :=
  _ ← io; d ← the_disk;
  mret (match d !! p with Some e => resolves_entry e | None => false end).

Definition exists_ (p : path) : Act W bool :=
  r ← attempt (try_exists p); mret (match r with Ok b => b | Err _ => false end).

Definition create_dir (p : path) : Act W unit :=
  n ← io; d ← the_disk;
  match d !! p, d !! parent p with
  | Some _, _ => throw (Io IoExists)
  | None, None => throw (Io IoNotFound)
  | None, Some pe =>
      _ ← unless (is_dir pe) (Io IoOther);
      modify (set_disk (<[p := mkEntry (en_device pe) (fresh_inode n) (dir_bytes n) (wall n, 0) Directory []]>
        (<[parent p := touch_dir n pe]> d)))
  end.

Definition available_bytes (dir : path) : Act W Z := n ← io; mret (free_bytes n).

Fixpoint create_dirs (dir p : path) : Act W unit :=
  match p with
  | [] => mret tt
  | c :: p' =>
      d ← the_disk;
      _ ← (match d !! child dir c with
           | None => create_dir (child dir c)
           | Some e => unless (is_dir e) (Io IoExists)
           end);
      create_dirs (child dir c) p'
  end.
Definition create_dir_all (p : path) : Act W unit := _ ← io; create_dirs [] p.

(** [OpenOptions::create_new] and writing it all. *)
Definition write_new (p : path) (data : bytes) : Act W unit :=
  n ← io; d ← the_disk;
  match d !! p, d !! parent p with
  | Some _, _ => throw (Io IoExists)
  | None, None => throw (Io IoNotFound)
  | None, Some pe =>
      _ ← unless (is_dir pe) (Io IoOther);
      _ ← modify (set_disk (<[p := mkEntry (en_device pe) (fresh_inode n) (Z.of_nat (length data)) (wall n, 0) Regular data]>
            (<[parent p := touch_dir n pe]> d)));
      _ ← io; mret tt
  end.

Definition read_all (handle : path) : Act W bytes := e ← metadata handle; mret (en_data e).

(** ** Manifests *)

Definition slashed (p : path) : str :=
  match p with [] => [] | c :: p' => c ++ concat (map (fun x => lit "/" ++ x) p') end.

Definition entry_leb (a b : FileEntry) : bool := str_leb (slashed (fe_path a)) (slashed (fe_path b)).
Definition sort_entries (l : list FileEntry) : list FileEntry := merge_sort (fun a b => entry_leb a b) l.

(** The loop over one directory's names; [rec] descends. *)
Fixpoint walk_names (rec : path -> path -> list FileEntry -> Act W (list FileEntry))
    (dir prefix : path) (limit : Z) (ns : list str) (out : list FileEntry) : Act W (list FileEntry) :=
  match ns with
  | [] => mret out
  | n :: ns' =>
      _ ← unless (negb (limit <=? Z.of_nat (length out))) (Conflict (lit "file inventory limit reached; no changes made"));
      handle ← open_at dir n false;
      meta ← metadata handle;
      _ ← unless (is_file meta || is_dir meta) (Conflict (lit "special file"));
      let out := out ++ [mkFileEntry (child prefix n) (identity meta) None] in
      out ← (if is_dir meta then rec handle (child prefix n) out else mret out);
      walk_names rec dir prefix limit ns' out
  end.

(** [room] is what is left of the depth, [65 - depth]. *)
Fixpoint walk (room : nat) (limit : Z) (dir prefix : path) (out : list FileEntry) : Act W (list FileEntry) :=
  match room with
  | O => throw (Conflict (lit "directory depth exceeds 64; inspect manually"))
  | S room' =>
      ns ← names dir;
      walk_names (walk room' limit) dir prefix limit ns out
  end.

Definition manifest (dir : path) (limit : Z) : Act W (list FileEntry) :=
  out ← walk 65 limit dir [] []; mret (sort_entries out).

Fixpoint open_parts (dir p : path) : Act W path :=
  match p with
  | [] => mret dir
  | c :: p' => dir ← open_at dir c (negb (bool_decide (p' = []))); open_parts dir p'
  end.

Definition open_relative (root p : path) : Act W path :=
  _ ← unless (forallb (fun c => negb (bool_decide (c = lit ".")) && negb (bool_decide (c = lit ".."))) p)
        (Conflict (lit "invalid relative file path"));
  _ ← io; open_parts root p.

Definition remove_entry (root : path) (entry : FileEntry) : Act W unit :=
  parent ← (if bool_decide (parent (fe_path entry) = []) then (_ ← io; mret root) else open_relative root (parent (fe_path entry)));
  match last (fe_path entry) with
  | None => throw (Conflict (lit "empty file path"))
  | Some n =>
      handle ← open_at parent n (directory (fe_identity entry));
      meta ← metadata handle;
      let observed := identity meta in
      _ ← unless (same_object (fe_identity entry) observed
                  && (directory observed || bool_decide (observed = fe_identity entry)))
            (Conflict (lit "identity changed"));
      unlink parent n (directory (fe_identity entry))
  end.

(** Publication that replaces nothing ([renameat2] with [RENAME_NOREPLACE]). *)
Definition strip_path (from p : path) : option path :=
  if bool_decide (from `prefix_of` p) then Some (drop (length from) p) else None.

Definition moved (from to : path) (d : Disk) : Disk :=
  list_to_map (map (fun '(p, e) => match strip_path from p with Some r => (to ++ r, e) | None => (p, e) end) (map_to_list d)).

Definition touched (n : nat) (p : path) (d : Disk) : Disk := alter (touch_dir n) p d.

Definition rename_exclusive (from to : path) : Act W unit :=
  source ← open_dir (parent from);
  target ← open_dir (parent to);
  n ← io; d ← the_disk;
  match d !! from, d !! to with
  | None, _ => throw (Io IoNotFound)
  | Some _, Some _ => throw (Io IoExists)
  | Some e, None =>
      _ ← unless (negb (bool_decide (from `prefix_of` to))) (Io IoOther);
      _ ← (match d !! target with
           | Some te => unless (en_device e =? en_device te) (Io IoCrossesDevices)
           | None => throw (Io IoNotFound)
           end);
      _ ← modify (set_disk (touched n source (touched n target (moved from to d))));
      _ ← io; _ ← io; mret tt
  end.
End Calls.
