(* ===== verification/Custody.v ===== *)
(** * The payload inventory's data ([crates/nzbd-state/src/artifacts])

    Artifacts (payload directories), operations, recoveries and settings, the database
    that holds them and the sidecar files that hold what was allocated.  Columns are the
    fields they are written from; a query's rows come in the order the statement asks
    for.  A request is kept as the value its JSON text encodes. *)

From S2P Require Import Prelude RustStr Tree PayloadFs.

#[local] Unset Default Proof Using.

(** ** Records *)

Record Artifact := mkArtifact {
  ar_id : str;
  ar_generation : str;
  ar_revision : Z;
  ar_job : option Z;
  ar_path : path;
  ar_root : path;
  ar_root_identity : Identity;
  ar_identity : option Identity;
  ar_state : str;
  ar_owned : bool;
  ar_keep : bool;
  ar_hold : option str;
  ar_created_at : Z;
  ar_updated_at : Z;
  ar_retention_seconds : Z;
  ar_deadline : option Z;
  ar_eligible_seconds : Z;
  ar_files : list FileEntry;
  ar_error : option str
}.

Record RecoveryFile := mkRecoveryFile { rf_id : str; rf_path : path; rf_bytes : Z; rf_sha256 : str }.
Record ReceiptFile := mkReceiptFile { rc_id : str; rc_bytes : Z; rc_sha256 : str; rc_result : str }.
Record Receipt := mkReceipt { rc_import_id : str; rc_manifest_digest : str; rc_files : list ReceiptFile }.

#[export] Instance ReceiptFile_eq_dec : EqDecision ReceiptFile.
Proof. solve_decision. Defined.
#[export] Instance Receipt_eq_dec : EqDecision Receipt.
Proof. solve_decision. Defined.

Record Recovery := mkRecovery {
  rv_id : str;
  rv_installation : str;
  rv_artifact : str;
  rv_generation : str;
  rv_request_id : str;
  rv_request : str * Z * list path * path;
  rv_state : str;
  rv_manifest_digest : str;
  rv_files : list RecoveryFile;
  rv_published : path;
  rv_consumer : option str;
  rv_import_id : option str;
  rv_receipt : option Receipt;
  rv_error : option str;
  rv_scratch_identity : option Identity;
  rv_created_at : Z;
  rv_updated_at : Z
}.

Record RetentionChange := mkRetentionChange { ch_id : str; ch_revision : Z; ch_path : path; ch_previous_seconds : Z }.
Record RetentionPreview := mkRetentionPreview { pv_id : str; pv_days : Z; pv_entries : list RetentionChange; pv_limit : Z }.
Record Relocation := mkRelocation { rl_source : Artifact; rl_destination : path; rl_destination_root : Identity; rl_scratch : option Artifact }.

(** The JSON values tasks are submitted with. *)
Inductive TaskRequest :=
| TaskNone
| TaskScan (roots excluded active : list path)
| TaskStage (revision : Z) (files : list path) (root : path)
| TaskPrune (recovery : str).

#[export] Instance TaskRequest_eq_dec : EqDecision TaskRequest.
Proof. solve_decision. Defined.

Inductive Request :=
| RequestDelete (key : str) (revision undo_seconds : Z) (automatic : bool)
| RequestPreview (p : RetentionPreview)
| RequestTask (t : TaskRequest)
| RequestRelocate (r : Relocation).

Record Operation := mkOperation {
  op_id : str;
  op_artifact : str;
  op_kind : str;
  op_state : str;
  op_request : Request;
  op_created_at : Z;
  op_not_before : Z;
  op_attempts : Z;
  op_next_retry : Z;
  op_error : option str
}.

Record Settings := mkSettings { enabled : bool; failed_retention_days : Z; recovery_root : path; consumer_token : str }.
Definition default_settings : Settings := mkSettings false 7 [] [].

Record Event := mkEvent { ev_artifact : str; ev_at : Z; ev_kind : str; ev_detail : str }.

(** ** Field updates *)

Definition ar_with_id (v : str) (x : Artifact) : Artifact :=
  mkArtifact v (ar_generation x) (ar_revision x) (ar_job x) (ar_path x) (ar_root x) (ar_root_identity x) (ar_identity x) (ar_state x) (ar_owned x) (ar_keep x) (ar_hold x) (ar_created_at x) (ar_updated_at x) (ar_retention_seconds x) (ar_deadline x) (ar_eligible_seconds x) (ar_files x) (ar_error x).
Definition ar_with_generation (v : str) (x : Artifact) : Artifact :=
  mkArtifact (ar_id x) v (ar_revision x) (ar_job x) (ar_path x) (ar_root x) (ar_root_identity x) (ar_identity x) (ar_state x) (ar_owned x) (ar_keep x) (ar_hold x) (ar_created_at x) (ar_updated_at x) (ar_retention_seconds x) (ar_deadline x) (ar_eligible_seconds x) (ar_files x) (ar_error x).
Definition ar_with_revision (v : Z) (x : Artifact) : Artifact :=
  mkArtifact (ar_id x) (ar_generation x) v (ar_job x) (ar_path x) (ar_root x) (ar_root_identity x) (ar_identity x) (ar_state x) (ar_owned x) (ar_keep x) (ar_hold x) (ar_created_at x) (ar_updated_at x) (ar_retention_seconds x) (ar_deadline x) (ar_eligible_seconds x) (ar_files x) (ar_error x).
Definition ar_with_job (v : option Z) (x : Artifact) : Artifact :=
  mkArtifact (ar_id x) (ar_generation x) (ar_revision x) v (ar_path x) (ar_root x) (ar_root_identity x) (ar_identity x) (ar_state x) (ar_owned x) (ar_keep x) (ar_hold x) (ar_created_at x) (ar_updated_at x) (ar_retention_seconds x) (ar_deadline x) (ar_eligible_seconds x) (ar_files x) (ar_error x).
Definition ar_with_path (v : path) (x : Artifact) : Artifact :=
  mkArtifact (ar_id x) (ar_generation x) (ar_revision x) (ar_job x) v (ar_root x) (ar_root_identity x) (ar_identity x) (ar_state x) (ar_owned x) (ar_keep x) (ar_hold x) (ar_created_at x) (ar_updated_at x) (ar_retention_seconds x) (ar_deadline x) (ar_eligible_seconds x) (ar_files x) (ar_error x).
Definition ar_with_root (v : path) (x : Artifact) : Artifact :=
  mkArtifact (ar_id x) (ar_generation x) (ar_revision x) (ar_job x) (ar_path x) v (ar_root_identity x) (ar_identity x) (ar_state x) (ar_owned x) (ar_keep x) (ar_hold x) (ar_created_at x) (ar_updated_at x) (ar_retention_seconds x) (ar_deadline x) (ar_eligible_seconds x) (ar_files x) (ar_error x).
Definition ar_with_root_identity (v : Identity) (x : Artifact) : Artifact :=
  mkArtifact (ar_id x) (ar_generation x) (ar_revision x) (ar_job x) (ar_path x) (ar_root x) v (ar_identity x) (ar_state x) (ar_owned x) (ar_keep x) (ar_hold x) (ar_created_at x) (ar_updated_at x) (ar_retention_seconds x) (ar_deadline x) (ar_eligible_seconds x) (ar_files x) (ar_error x).
Definition ar_with_identity (v : option Identity) (x : Artifact) : Artifact :=
  mkArtifact (ar_id x) (ar_generation x) (ar_revision x) (ar_job x) (ar_path x) (ar_root x) (ar_root_identity x) v (ar_state x) (ar_owned x) (ar_keep x) (ar_hold x) (ar_created_at x) (ar_updated_at x) (ar_retention_seconds x) (ar_deadline x) (ar_eligible_seconds x) (ar_files x) (ar_error x).
Definition ar_with_state (v : str) (x : Artifact) : Artifact :=
  mkArtifact (ar_id x) (ar_generation x) (ar_revision x) (ar_job x) (ar_path x) (ar_root x) (ar_root_identity x) (ar_identity x) v (ar_owned x) (ar_keep x) (ar_hold x) (ar_created_at x) (ar_updated_at x) (ar_retention_seconds x) (ar_deadline x) (ar_eligible_seconds x) (ar_files x) (ar_error x).
Definition ar_with_owned (v : bool) (x : Artifact) : Artifact :=
  mkArtifact (ar_id x) (ar_generation x) (ar_revision x) (ar_job x) (ar_path x) (ar_root x) (ar_root_identity x) (ar_identity x) (ar_state x) v (ar_keep x) (ar_hold x) (ar_created_at x) (ar_updated_at x) (ar_retention_seconds x) (ar_deadline x) (ar_eligible_seconds x) (ar_files x) (ar_error x).
Definition ar_with_keep (v : bool) (x : Artifact) : Artifact :=
  mkArtifact (ar_id x) (ar_generation x) (ar_revision x) (ar_job x) (ar_path x) (ar_root x) (ar_root_identity x) (ar_identity x) (ar_state x) (ar_owned x) v (ar_hold x) (ar_created_at x) (ar_updated_at x) (ar_retention_seconds x) (ar_deadline x) (ar_eligible_seconds x) (ar_files x) (ar_error x).
Definition ar_with_hold (v : option str) (x : Artifact) : Artifact :=
  mkArtifact (ar_id x) (ar_generation x) (ar_revision x) (ar_job x) (ar_path x) (ar_root x) (ar_root_identity x) (ar_identity x) (ar_state x) (ar_owned x) (ar_keep x) v (ar_created_at x) (ar_updated_at x) (ar_retention_seconds x) (ar_deadline x) (ar_eligible_seconds x) (ar_files x) (ar_error x).
Definition ar_with_updated_at (v : Z) (x : Artifact) : Artifact :=
  mkArtifact (ar_id x) (ar_generation x) (ar_revision x) (ar_job x) (ar_path x) (ar_root x) (ar_root_identity x) (ar_identity x) (ar_state x) (ar_owned x) (ar_keep x) (ar_hold x) (ar_created_at x) v (ar_retention_seconds x) (ar_deadline x) (ar_eligible_seconds x) (ar_files x) (ar_error x).
Definition ar_with_retention_seconds (v : Z) (x : Artifact) : Artifact :=
  mkArtifact (ar_id x) (ar_generation x) (ar_revision x) (ar_job x) (ar_path x) (ar_root x) (ar_root_identity x) (ar_identity x) (ar_state x) (ar_owned x) (ar_keep x) (ar_hold x) (ar_created_at x) (ar_updated_at x) v (ar_deadline x) (ar_eligible_seconds x) (ar_files x) (ar_error x).
Definition ar_with_deadline (v : option Z) (x : Artifact) : Artifact :=
  mkArtifact (ar_id x) (ar_generation x) (ar_revision x) (ar_job x) (ar_path x) (ar_root x) (ar_root_identity x) (ar_identity x) (ar_state x) (ar_owned x) (ar_keep x) (ar_hold x) (ar_created_at x) (ar_updated_at x) (ar_retention_seconds x) v (ar_eligible_seconds x) (ar_files x) (ar_error x).
Definition ar_with_eligible_seconds (v : Z) (x : Artifact) : Artifact :=
  mkArtifact (ar_id x) (ar_generation x) (ar_revision x) (ar_job x) (ar_path x) (ar_root x) (ar_root_identity x) (ar_identity x) (ar_state x) (ar_owned x) (ar_keep x) (ar_hold x) (ar_created_at x) (ar_updated_at x) (ar_retention_seconds x) (ar_deadline x) v (ar_files x) (ar_error x).
Definition ar_with_files (v : list FileEntry) (x : Artifact) : Artifact :=
  mkArtifact (ar_id x) (ar_generation x) (ar_revision x) (ar_job x) (ar_path x) (ar_root x) (ar_root_identity x) (ar_identity x) (ar_state x) (ar_owned x) (ar_keep x) (ar_hold x) (ar_created_at x) (ar_updated_at x) (ar_retention_seconds x) (ar_deadline x) (ar_eligible_seconds x) v (ar_error x).
Definition ar_with_error (v : option str) (x : Artifact) : Artifact :=
  mkArtifact (ar_id x) (ar_generation x) (ar_revision x) (ar_job x) (ar_path x) (ar_root x) (ar_root_identity x) (ar_identity x) (ar_state x) (ar_owned x) (ar_keep x) (ar_hold x) (ar_created_at x) (ar_updated_at x) (ar_retention_seconds x) (ar_deadline x) (ar_eligible_seconds x) (ar_files x) v.

Definition op_with_state (v : str) (x : Operation) : Operation :=
  mkOperation (op_id x) (op_artifact x) (op_kind x) v (op_request x) (op_created_at x) (op_not_before x) (op_attempts x) (op_next_retry x) (op_error x).
Definition op_with_request (v : Request) (x : Operation) : Operation :=
  mkOperation (op_id x) (op_artifact x) (op_kind x) (op_state x) v (op_created_at x) (op_not_before x) (op_attempts x) (op_next_retry x) (op_error x).
Definition op_with_attempts (v : Z) (x : Operation) : Operation :=
  mkOperation (op_id x) (op_artifact x) (op_kind x) (op_state x) (op_request x) (op_created_at x) (op_not_before x) v (op_next_retry x) (op_error x).
Definition op_with_next_retry (v : Z) (x : Operation) : Operation :=
  mkOperation (op_id x) (op_artifact x) (op_kind x) (op_state x) (op_request x) (op_created_at x) (op_not_before x) (op_attempts x) v (op_error x).
Definition op_with_error (v : option str) (x : Operation) : Operation :=
  mkOperation (op_id x) (op_artifact x) (op_kind x) (op_state x) (op_request x) (op_created_at x) (op_not_before x) (op_attempts x) (op_next_retry x) v.

Definition rv_with_state (v : str) (x : Recovery) : Recovery :=
  mkRecovery (rv_id x) (rv_installation x) (rv_artifact x) (rv_generation x) (rv_request_id x) (rv_request x) v (rv_manifest_digest x) (rv_files x) (rv_published x) (rv_consumer x) (rv_import_id x) (rv_receipt x) (rv_error x) (rv_scratch_identity x) (rv_created_at x) (rv_updated_at x).
Definition rv_with_manifest_digest (v : str) (x : Recovery) : Recovery :=
  mkRecovery (rv_id x) (rv_installation x) (rv_artifact x) (rv_generation x) (rv_request_id x) (rv_request x) (rv_state x) v (rv_files x) (rv_published x) (rv_consumer x) (rv_import_id x) (rv_receipt x) (rv_error x) (rv_scratch_identity x) (rv_created_at x) (rv_updated_at x).
Definition rv_with_files (v : list RecoveryFile) (x : Recovery) : Recovery :=
  mkRecovery (rv_id x) (rv_installation x) (rv_artifact x) (rv_generation x) (rv_request_id x) (rv_request x) (rv_state x) (rv_manifest_digest x) v (rv_published x) (rv_consumer x) (rv_import_id x) (rv_receipt x) (rv_error x) (rv_scratch_identity x) (rv_created_at x) (rv_updated_at x).
Definition rv_with_consumer (v : option str) (x : Recovery) : Recovery :=
  mkRecovery (rv_id x) (rv_installation x) (rv_artifact x) (rv_generation x) (rv_request_id x) (rv_request x) (rv_state x) (rv_manifest_digest x) (rv_files x) (rv_published x) v (rv_import_id x) (rv_receipt x) (rv_error x) (rv_scratch_identity x) (rv_created_at x) (rv_updated_at x).
Definition rv_with_import_id (v : option str) (x : Recovery) : Recovery :=
  mkRecovery (rv_id x) (rv_installation x) (rv_artifact x) (rv_generation x) (rv_request_id x) (rv_request x) (rv_state x) (rv_manifest_digest x) (rv_files x) (rv_published x) (rv_consumer x) v (rv_receipt x) (rv_error x) (rv_scratch_identity x) (rv_created_at x) (rv_updated_at x).
Definition rv_with_receipt (v : option Receipt) (x : Recovery) : Recovery :=
  mkRecovery (rv_id x) (rv_installation x) (rv_artifact x) (rv_generation x) (rv_request_id x) (rv_request x) (rv_state x) (rv_manifest_digest x) (rv_files x) (rv_published x) (rv_consumer x) (rv_import_id x) v (rv_error x) (rv_scratch_identity x) (rv_created_at x) (rv_updated_at x).
Definition rv_with_error (v : option str) (x : Recovery) : Recovery :=
  mkRecovery (rv_id x) (rv_installation x) (rv_artifact x) (rv_generation x) (rv_request_id x) (rv_request x) (rv_state x) (rv_manifest_digest x) (rv_files x) (rv_published x) (rv_consumer x) (rv_import_id x) (rv_receipt x) v (rv_scratch_identity x) (rv_created_at x) (rv_updated_at x).
Definition rv_with_scratch_identity (v : option Identity) (x : Recovery) : Recovery :=
  mkRecovery (rv_id x) (rv_installation x) (rv_artifact x) (rv_generation x) (rv_request_id x) (rv_request x) (rv_state x) (rv_manifest_digest x) (rv_files x) (rv_published x) (rv_consumer x) (rv_import_id x) (rv_receipt x) (rv_error x) v (rv_created_at x) (rv_updated_at x).
Definition rv_with_updated_at (v : Z) (x : Recovery) : Recovery :=
  mkRecovery (rv_id x) (rv_installation x) (rv_artifact x) (rv_generation x) (rv_request_id x) (rv_request x) (rv_state x) (rv_manifest_digest x) (rv_files x) (rv_published x) (rv_consumer x) (rv_import_id x) (rv_receipt x) (rv_error x) (rv_scratch_identity x) (rv_created_at x) v.

(** [revision += 1]. *)
Definition bump (x : Artifact) : Artifact := ar_with_revision (ar_revision x + 1) x.

Definition sat_add_i64 (a b : Z) : Z := Z.max i64_min (Z.min i64_max (a + b)).

Definition one_of (l : list String.string) (s : str) : bool := existsb (fun x => bool_decide (s = lit x)) l.
Definition is_state (x : String.string) (s : str) : bool := bool_decide (s = lit x).

(** [Artifact::terminal], [eligible] and [earliest_expiry]. *)
Definition terminal (a : Artifact) : bool := one_of ["deleted"; "source_gone"]%string (ar_state a).

Definition eligible (a : Artifact) : bool :=
  ar_owned a && one_of ["parked_failed"; "recovery_imported"]%string (ar_state a)
  && negb (ar_keep a) && bool_decide (ar_hold a = None) && (0 <? ar_retention_seconds a).

Definition earliest_expiry (a : Artifact) (now : Z) : option Z :=
  if negb (eligible a) then None
  else d ← ar_deadline a;
       Some (Z.max d (sat_add_i64 now (sat_sub (ar_retention_seconds a) (ar_eligible_seconds a)))).

Definition review_hold (h : option str) : bool :=
  match h with Some h => starts_with (lit "review") h || starts_with (lit "restored backup") h | None => false end.

(** The texts of errors, as operations and artifacts keep them. *)
Definition show_error (e : Error) : str :=
  match e with
  | Sql => lit "inventory database"
  | Io _ => lit "filesystem"
  | Json => lit "inventory data"
  | Conflict why => why
  | NotFound => lit "artifact not found"
  end.

(** ** The database, the sidecars, the process *)

Record Database := mkDatabase {
  db_artifacts : gmap str Artifact;
  db_operations : gmap str Operation;
  db_recoveries : gmap str Recovery;
  db_settings : option Settings;
  db_protected_roots : option (list path);
  db_scan_request : option TaskRequest;
  db_events : list Event
}.

(** [artifact-identities/<artifact>/<generation>.json]. *)
Record Sidecar := mkSidecar {
  sc_installation : str; sc_artifact : str; sc_generation : str;
  sc_path : path; sc_root : path; sc_root_identity : Identity; sc_identity : option Identity
}.

Record World := mkWorld {
  w_disk : Disk;
  w_calls : nat;
  w_db : Database;
  w_sidecars : gmap (str * str) Sidecar;
  w_closed : bool;
  w_clocks : gmap str (Z * Z);
  w_cursor : str
}.

Definition put_disk (d : Disk) (w : World) : World :=
  mkWorld d (w_calls w) (w_db w) (w_sidecars w) (w_closed w) (w_clocks w) (w_cursor w).
Definition put_calls (n : nat) (w : World) : World :=
  mkWorld (w_disk w) n (w_db w) (w_sidecars w) (w_closed w) (w_clocks w) (w_cursor w).
Definition put_db (d : Database) (w : World) : World :=
  mkWorld (w_disk w) (w_calls w) d (w_sidecars w) (w_closed w) (w_clocks w) (w_cursor w).
Definition put_sidecars (m : gmap (str * str) Sidecar) (w : World) : World :=
  mkWorld (w_disk w) (w_calls w) (w_db w) m (w_closed w) (w_clocks w) (w_cursor w).
Definition put_closed (b : bool) (w : World) : World :=
  mkWorld (w_disk w) (w_calls w) (w_db w) (w_sidecars w) b (w_clocks w) (w_cursor w).
Definition put_clocks (m : gmap str (Z * Z)) (w : World) : World :=
  mkWorld (w_disk w) (w_calls w) (w_db w) (w_sidecars w) (w_closed w) m (w_cursor w).
Definition put_cursor (c : str) (w : World) : World :=
  mkWorld (w_disk w) (w_calls w) (w_db w) (w_sidecars w) (w_closed w) (w_clocks w) c.

#[export, refine] Instance World_HasDisk : HasDisk World := {
  disk := w_disk; set_disk := put_disk; calls := w_calls; set_calls := put_calls
}.
Proof. all: by intros; destruct s || done. Defined.

Definition put_artifacts (m : gmap str Artifact) (d : Database) : Database :=
  mkDatabase m (db_operations d) (db_recoveries d) (db_settings d) (db_protected_roots d) (db_scan_request d) (db_events d).
Definition put_operations (m : gmap str Operation) (d : Database) : Database :=
  mkDatabase (db_artifacts d) m (db_recoveries d) (db_settings d) (db_protected_roots d) (db_scan_request d) (db_events d).
Definition put_recoveries (m : gmap str Recovery) (d : Database) : Database :=
  mkDatabase (db_artifacts d) (db_operations d) m (db_settings d) (db_protected_roots d) (db_scan_request d) (db_events d).
Definition put_settings (s : Settings) (d : Database) : Database :=
  mkDatabase (db_artifacts d) (db_operations d) (db_recoveries d) (Some s) (db_protected_roots d) (db_scan_request d) (db_events d).
Definition put_protected_roots (l : list path) (d : Database) : Database :=
  mkDatabase (db_artifacts d) (db_operations d) (db_recoveries d) (db_settings d) (Some l) (db_scan_request d) (db_events d).
Definition put_scan_request (t : TaskRequest) (d : Database) : Database :=
  mkDatabase (db_artifacts d) (db_operations d) (db_recoveries d) (db_settings d) (db_protected_roots d) (Some t) (db_events d).
Definition put_events (l : list Event) (d : Database) : Database :=
  mkDatabase (db_artifacts d) (db_operations d) (db_recoveries d) (db_settings d) (db_protected_roots d) (db_scan_request d) l.
