(* ===== verification/Inventory.v ===== *)
(** * The payload inventory ([crates/nzbd-state/src/artifacts/mod.rs])

    Which directories are payloads, who may delete them and when.  Each operation of the
    source is one definition here, statement by statement: what it reads, its checks in
    their order, its transactions, and the calls on the payload directories. *)

From stdpp Require Import sorting.
From S2P Require Import Prelude RustStr Tree PayloadFs Custody.

#[local] Unset Default Proof Using.

(** What [Inventory::open] fixes: the installation's id and the state directory. *)
Class Site := { installation : str; state_dir : path }.

Section Inventory.
Context `{Oracle, Site}.

Abbreviation M := (Act World).

(** ** Statements *)

Definition sql : M nat := call Sql.
Definition database : M Database := fun w => (w, Fin (w_db w)).
Definition write_db (f : Database -> Database) : M unit := _ ← sql; modify (fun w => put_db (f (w_db w)) w).

(** A transaction's writes are undone unless it commits. *)
Definition or_undo {A} (m : M A) : M A := fun w =>
  match m w with
  | (w', Fin a) => (w', Fin a)
  | (w', Fail e) => (put_db (w_db w) w', Fail e)
  | (w', Dead) => (put_db (w_db w) w', Dead)
  end.
Definition transaction {A} (body : M A) : M A :=
  _ ← sql; or_undo (a ← body; _ ← sql; mret a).

Definition new_id : M str := n ← sql; mret (fresh_id n).

Definition get_artifact (key : str) : M Artifact :=
  _ ← sql; d ← database;
  match db_artifacts d !! key with Some a => mret a | None => throw NotFound end.
Definition operation (key : str) : M Operation :=
  _ ← sql; d ← database;
  match db_operations d !! key with Some o => mret o | None => throw NotFound end.
Definition recovery (key : str) : M Recovery :=
  _ ← sql; d ← database;
  match db_recoveries d !! key with Some r => mret r | None => throw NotFound end.

Definition save_artifact (a : Artifact) : M unit := write_db (fun d => put_artifacts (<[ar_id a := a]> (db_artifacts d)) d).
Definition save_operation (o : Operation) : M unit := write_db (fun d => put_operations (<[op_id o := o]> (db_operations d)) d).

Definition event (artifact kind detail : str) : M unit :=
  n ← now; write_db (fun d => put_events (db_events d ++ [mkEvent artifact n kind detail]) d).

(** Rows in a statement's order. *)
Definition artifact_rows (p : Artifact -> bool) (d : Database) : list Artifact := List.filter p (map snd (map_to_list (db_artifacts d))).
Definition operation_rows (p : Operation -> bool) (d : Database) : list Operation := List.filter p (map snd (map_to_list (db_operations d))).
Definition newest_first (l : list Artifact) : list Artifact := sort_by_key (fun a => - ar_updated_at a) l.

(** ** The process *)

Definition mutation_guard : M unit := w ← get; unless (negb (w_closed w)) (Conflict (lit "inventory has stopped")).
Definition close : M unit := modify (put_closed true).

Definition settings : M Settings :=
  _ ← sql; d ← database; mret (default default_settings (db_settings d)).
Definition set_settings (s : Settings) : M unit :=
  _ ← mutation_guard;
  _ ← unless (failed_retention_days s <=? 3650) (Conflict (lit "retention must be at most 3650 days"));
  write_db (put_settings s).

Definition for_job (job : Z) : M (option Artifact) :=
  _ ← sql; d ← database;
  mret (List.hd_error (newest_first (artifact_rows (fun a => bool_decide (ar_job a = Some job)) d))).
Definition for_path (p : path) : M (option Artifact) :=
  _ ← sql; d ← database;
  mret (List.hd_error (newest_first (artifact_rows (fun a => bool_decide (ar_path a = p)) d))).

Definition protect_roots (roots : list path) : M unit :=
  _ ← mutation_guard; write_db (put_protected_roots roots).

(** ** Sidecars *)

Definition sidecar_of (a : Artifact) : Sidecar :=
  mkSidecar installation (ar_id a) (ar_generation a) (ar_path a) (ar_root a) (ar_root_identity a) (ar_identity a).

(** Written aside, then renamed over the old one; a failed flush after the rename
    leaves the new one. *)
Definition sidecar (a : Artifact) : M unit :=
  _ ← io; _ ← io; _ ← io;
  _ ← modify (fun w => put_sidecars (<[(ar_id a, ar_generation a) := sidecar_of a]> (w_sidecars w)) w);
  _ ← io; mret tt.

Definition read_sidecar (a : Artifact) : M Sidecar :=
  _ ← io; w ← get;
  match w_sidecars w !! (ar_id a, ar_generation a) with Some s => mret s | None => throw (Io IoNotFound) end.

(** ** Checks *)

Definition protected (roots : list path) (p : path) : bool :=
  existsb (fun root => bool_decide (root = p) || bool_decide (p `prefix_of` root)) roots.

Definition same_identity (i : option Identity) (observed : Identity) : bool :=
  match i with Some i => same_object i observed | None => false end.

Definition verify_root (a : Artifact) : M path :=
  _ ← sql; d ← database;
  _ ← (match db_protected_roots d with
       | Some roots => unless (negb (protected roots (ar_path a))) (Conflict (lit "payload overlaps a configured directory role"))
       | None => mret tt
       end);
  root ← open_dir (ar_root a);
  meta ← metadata root;
  _ ← unless (same_object (ar_root_identity a) (identity meta))
        (Conflict (lit "configured root identity changed or volume is unavailable"));
  mret root.

Definition marker_matches (a : Artifact) (s : Sidecar) : bool :=
  bool_decide (sc_installation s = installation) && bool_decide (sc_artifact s = ar_id a)
  && bool_decide (sc_generation s = ar_generation a) && bool_decide (sc_path s = ar_path a)
  && bool_decide (sc_identity s = ar_identity a).

Definition verify (a : Artifact) : M path :=
  _ ← verify_root a;
  file ← open_dir (ar_path a);
  meta ← metadata file;
  _ ← unless (same_identity (ar_identity a) (identity meta)) (Conflict (lit "payload identity changed; review required"));
  _ ← (if ar_owned a then
         s ← read_sidecar a;
         unless (marker_matches a s) (Conflict (lit "external allocation identity does not match inventory"))
       else mret tt);
  mret file.

(** [path.parent() == Some(root)]. *)
Definition immediate_child (root p : path) : bool := negb (bool_decide (p = [])) && bool_decide (parent p = root).

(** ** Allocation and discovery *)

Definition MANIFEST_LIMIT : Z := 100000.

Definition allocate (job : Z) (root p : path) : M Artifact :=
  _ ← mutation_guard;
  existing ← for_job job;
  match existing with
  | Some a =>
      if bool_decide (ar_path a = p) && is_state "active" (ar_state a) then (_ ← verify a; mret a)
      else throw (Conflict (lit "job already owns a different or terminal allocation"))
  | None =>
      _ ← absolute p;
      _ ← unless (immediate_child root p) (Conflict (lit "allocation must be an immediate child of its root"));
      root_file ← open_dir root;
      root_meta ← metadata root_file;
      present ← attempt (symlink_metadata p);
      _ ← unless (match present with Ok _ => false | Err _ => true end) (Conflict (lit "existing payload needs explicit ownership review"));
      id ← new_id; generation ← new_id; created ← now; updated ← now;
      let a := mkArtifact id generation 1 (Some job) p root (identity root_meta) None (lit "allocating")
        true false None created updated 0 None 0 [] None in
      _ ← save_artifact a;
      _ ← create_dir p;
      _ ← sync_directory root_file;
      dir ← open_dir p;
      meta ← metadata dir;
      let a := ar_with_identity (Some (identity meta)) a in
      _ ← sidecar a;
      let a := ar_with_state (lit "active") a in
      _ ← save_artifact a;
      mret a
  end.

Definition discover_record (root p : path) (active : bool) : M Artifact :=
  _ ← absolute p;
  _ ← unless (immediate_child root p) (Conflict (lit "discovery must be an immediate child"));
  _ ← sql; d ← database;
  match artifact_rows (fun a => bool_decide (ar_path a = p) && negb (terminal a)) d with
  | a :: _ => mret a
  | [] =>
      dir ← open_dir p;
      root_file ← open_dir root;
      id ← new_id; generation ← new_id;
      root_meta ← metadata root_file;
      meta ← metadata dir;
      created ← now; updated ← now;
      let a := mkArtifact id generation 1 None p root (identity root_meta) (Some (identity meta))
        (if active then lit "active_unverified" else lit "unknown") false true (Some (lit "review"))
        created updated 0 None 0 [] None in
      _ ← save_artifact a;
      mret a
  end.

Definition discover (root p : path) (active : bool) : M Artifact :=
  _ ← mutation_guard; discover_record root p active.

Definition register_legacy_active (job : Z) (root p : path) : M unit :=
  present ← exists_ p;
  if negb present then mret tt
  else
    previous ← for_job job;
    keep ← (match previous with
            | Some prev =>
                fine ← (if bool_decide (ar_path prev = p) then r ← attempt (verify prev); mret (match r with Ok _ => true | Err _ => false end)
                        else mret false : M bool);
                if (fine : bool) then mret true
                else
                  _ ← mutation_guard;
                  _ ← save_artifact (bump (ar_with_hold (Some (lit "review: previous external job generation")) (ar_with_keep true
                         (ar_with_state (if bool_decide (ar_path prev = p) then lit "source_gone" else lit "retained")
                           (ar_with_job None prev)))));
                  mret false
            | None => mret false
            end : M bool);
    if (keep : bool) then mret tt
    else
      a ← discover root p true;
      _ ← mutation_guard;
      save_artifact (ar_with_state (lit "active") (ar_with_job (Some job) a)).

(** Rows by id, after a cursor. *)
Definition by_id (a b : Artifact) : bool := str_leb (ar_id a) (ar_id b).
Definition after_cursor (cursor : str) (l : list Artifact) : list Artifact :=
  merge_sort (fun a b => by_id a b) (List.filter (fun a => negb (str_leb (ar_id a) cursor)) l).

(** ** Startup, retirement, vanished payloads *)

Definition no_recovered_job : str := lit "review: allocation has no recovered job".

(** The part of one row that [reconcile_startup] rewrites by its state; [None] keeps it
    as it is. *)
Definition reconcile_row (live : bool) (a : Artifact) : M (option Artifact) :=
  if is_state "active" (ar_state a) && live then mret None
  else
    root_ok ← attempt (verify_root a);
    match root_ok with
    | Err _ => mret None
    | Ok _ =>
        a ← (if is_state "allocating" (ar_state a) then
               present ← try_exists (ar_path a);
               _ ← (if negb present && live then
                      _ ← create_dir (ar_path a);
                      root ← open_dir (ar_root a);
                      sync_directory root
                    else mret tt);
               present ← try_exists (ar_path a);
               if negb present then mret (ar_with_state (lit "source_gone") a)
               else
                 dir ← open_dir (ar_path a);
                 meta ← metadata dir;
                 mret (ar_with_state (if live then lit "active" else lit "retained")
                   (ar_with_hold (Some (lit "review")) (ar_with_keep true (ar_with_owned false
                     (ar_with_identity (Some (identity meta)) a)))))
             else
               dir ← attempt (verify a);
               match dir with
               | Ok dir =>
                   files ← manifest dir MANIFEST_LIMIT;
                   mret (ar_with_hold (if ar_owned a then None else Some (lit "review")) (ar_with_state (lit "retained") (ar_with_files files a)))
               | Err _ => mret (ar_with_hold (Some (lit "review: interrupted writer retirement")) a)
               end);
        let a := if live then a else ar_with_hold (Some no_recovered_job) (ar_with_keep true (ar_with_job None a)) in
        n ← now;
        mret (Some (ar_with_updated_at n (bump a)))
    end.

Definition is_live (live_jobs : list Z) (a : Artifact) : bool :=
  match ar_job a with Some job => existsb (Z.eqb job) live_jobs | None => false end.

(** [reconcile_startup] after its [reconcile_relocations]. *)
Definition reconcile_allocations (live_jobs : list Z) : M unit :=
  _ ← mutation_guard;
  _ ← sql; d ← database;
  for_each (artifact_rows (fun a => one_of ["allocating"; "retiring"; "active"]%string (ar_state a)) d) (fun a =>
    a' ← reconcile_row (is_live live_jobs a) a;
    match a' with Some a' => save_artifact a' | None => mret tt end).

Definition prepare_forget (job : Z) : M (option Artifact) :=
  _ ← mutation_guard;
  r ← for_job job;
  match r with
  | None => mret None
  | Some a =>
      if is_state "retiring" (ar_state a) then mret (Some a)
      else if negb (is_state "active" (ar_state a)) then mret None
      else
        n ← now;
        let a := ar_with_updated_at n (bump (ar_with_hold (Some (lit "waiting for writer stop")) (ar_with_state (lit "retiring") a))) in
        _ ← save_artifact a;
        mret (Some a)
  end.

Definition reconcile_missing : M unit :=
  _ ← mutation_guard;
  _ ← sql; d ← database; w ← get;
  let rows := take 1000 (after_cursor (w_cursor w)
    (artifact_rows (fun a => one_of ["completed"; "retained"; "unknown"; "retiring"]%string (ar_state a)) d)) in
  _ ← (if bool_decide (rows = []) then modify (put_cursor []) else mret tt);
  for_each rows (fun a =>
    _ ← modify (put_cursor (ar_id a));
    root_ok ← attempt (verify_root a);
    match root_ok with
    | Err _ => mret tt
    | Ok _ =>
        meta ← attempt (symlink_metadata (ar_path a));
        match meta with
        | Err (Io IoNotFound) =>
            n ← now;
            save_artifact (bump (ar_with_updated_at n (ar_with_state (lit "source_gone") a)))
        | _ => mret tt
        end
    end).
End Inventory.
