(* ===== verification/Deletion.v ===== *)
(** * Ownership, retention and deletion ([crates/nzbd-state/src/artifacts/mod.rs])

    The operations that grant, suspend and use the authority to delete a payload. *)

From S2P Require Import Prelude RustStr Tree PayloadFs Custody Inventory.

#[local] Unset Default Proof Using.

Section Deletion.
Context `{Oracle, Site}.

Abbreviation M := (Act World).

(** ** Finalization and review *)

Definition day_seconds : Z := 86400.

Definition finish (job : Z) (p root : path) (state : str) : M Artifact :=
  _ ← mutation_guard;
  r ← for_job job;
  match r with
  | None => throw NotFound
  | Some a =>
      if one_of ["deleting"; "delete_failed"]%string (ar_state a) && is_state "retained" state
         && bool_decide (ar_path a = p) && bool_decide (ar_root a = root)
      then mret a
      else if bool_decide (ar_path a = p) && bool_decide (ar_state a = state)
      then _ ← verify a; mret a
      else
        _ ← unless (one_of ["active"; "transitioning"; "retiring"; "retained"]%string (ar_state a))
              (Conflict (lit "allocation is not active"));
        _ ← unless (bool_decide (ar_path a = p) && bool_decide (ar_root a = root))
              (Conflict (lit "finalization requires a committed relocation"));
        dir ← verify a;
        root_file ← open_dir root;
        root_meta ← metadata root_file;
        meta ← metadata dir;
        files ← manifest dir MANIFEST_LIMIT;
        n ← now;
        let a := ar_with_files files (ar_with_identity (Some (identity meta)) (ar_with_root_identity (identity root_meta) (ar_with_root root (ar_with_path p a)))) in
        let a := if is_state "retiring" (ar_state a) then ar_with_hold (if ar_owned a then None else Some (lit "review")) a else a in
        let a := ar_with_updated_at n (bump (ar_with_state state a)) in
        a ← (if is_state "parked_failed" state && ar_owned a then
               s ← settings;
               n ← now;
               let keep_for := failed_retention_days s * day_seconds in
               mret (ar_with_eligible_seconds 0 (ar_with_deadline (Some (sat_add_i64 n keep_for)) (ar_with_retention_seconds keep_for a)))
             else mret a);
        _ ← sidecar a;
        _ ← transaction (_ ← save_artifact a; event (ar_id a) (lit "finalized") state);
        mret a
  end.

Definition inspect (key : str) : M Artifact :=
  _ ← mutation_guard;
  a ← get_artifact key;
  dir ← verify a;
  _ ← unless (negb (one_of ["active"; "active_unverified"; "transitioning"; "retiring"; "deleting"]%string (ar_state a)))
        (Conflict (lit "writers must finish before inspection"));
  files ← manifest dir MANIFEST_LIMIT;
  let a := if ar_owned a && negb (bool_decide (files = ar_files a))
           then ar_with_hold (Some (lit "review: files changed; adoption required")) (ar_with_keep true (ar_with_owned false a)) else a in
  n ← now;
  let a := bump (ar_with_updated_at n (ar_with_files files a)) in
  _ ← save_artifact a;
  mret a.

Definition adopt (key : str) (revision : Z) : M Artifact :=
  _ ← mutation_guard;
  a ← get_artifact key;
  _ ← unless ((ar_revision a =? revision) && negb (ar_owned a)
              && one_of ["unknown"; "retained"; "parked_failed"; "completed"]%string (ar_state a))
        (Conflict (lit "stale preview or artifact is not unknown"));
  dir ← verify a;
  files ← manifest dir MANIFEST_LIMIT;
  _ ← unless (bool_decide (files = ar_files a)) (Conflict (lit "files changed; inspect before adopting"));
  let a := bump (ar_with_state (lit "retained") (ar_with_hold None (ar_with_keep true (ar_with_owned true a)))) in
  _ ← sidecar a;
  _ ← transaction (_ ← save_artifact a; event key (lit "adopted") (lit "kept indefinitely"));
  mret a.

(** ** Retention *)

Definition retention (key : str) (revision : Z) (keep : bool) (seconds : option Z) : M Artifact :=
  _ ← mutation_guard;
  a ← get_artifact key;
  _ ← unless ((ar_revision a =? revision) && negb (one_of ["deleting"; "deleted"]%string (ar_state a)))
        (Conflict (lit "stale revision or deletion already started"));
  let a := ar_with_keep keep a in
  a ← (match seconds with
       | Some s => _ ← unless (s <=? 315360000) (Conflict (lit "retention exceeds 3650 days")); mret (ar_with_retention_seconds s a)
       | None => mret a
       end);
  n ← now; n' ← now;
  let a := ar_with_updated_at n' (bump (ar_with_deadline (Some (sat_add_i64 n (ar_retention_seconds a))) (ar_with_eligible_seconds 0 a))) in
  _ ← transaction (
    _ ← (if keep then
           _ ← sql; d ← database;
           for_each (operation_rows (fun o => bool_decide (op_artifact o = key) && is_state "queued" (op_state o)) d)
             (fun o => save_operation (op_with_state (lit "cancelled") o))
         else mret tt);
    _ ← save_artifact a;
    event key (lit "retention") (if keep then lit "Keep" else lit "fresh retention period"));
  mret a.

Definition recovery_pending (key : str) (r : Recovery) : bool :=
  bool_decide (rv_artifact r = key) && negb (one_of ["imported"; "cancelled"; "partial"]%string (rv_state r)).

Definition release_review (key : str) (revision : Z) : M Artifact :=
  _ ← mutation_guard;
  a ← get_artifact key;
  _ ← unless ((ar_revision a =? revision) && review_hold (ar_hold a))
        (Conflict (lit "stale revision or hold is owned by an active operation"));
  dir ← verify a;
  files ← manifest dir MANIFEST_LIMIT;
  _ ← unless (bool_decide (files = ar_files a)) (Conflict (lit "files changed; inspect before releasing review hold"));
  _ ← sql; d ← database;
  _ ← unless (negb (existsb (fun '(_, r) => recovery_pending key r) (map_to_list (db_recoveries d))))
        (Conflict (lit "recovery is still active or ambiguous"));
  n ← now;
  let a := bump (ar_with_deadline (Some (sat_add_i64 n (ar_retention_seconds a))) (ar_with_eligible_seconds 0 (ar_with_hold None a))) in
  _ ← save_artifact a;
  mret a.

(** ** Requests *)

Definition pending_state (s : str) : bool := one_of ["queued"; "running"; "retry"]%string s.

Definition deletable_state (s : str) : bool :=
  one_of ["parked_failed"; "retained"; "completed"; "recovery_imported"; "recovery_staged"]%string s.

Definition same_delete (key : str) (revision undo_seconds : Z) (automatic : bool) (r : Request) : bool :=
  match r with
  | RequestDelete k v u b => bool_decide (k = key) && (v =? revision) && (u =? undo_seconds) && eqb b automatic
  | _ => false
  end.

Definition request_delete_authorized (key : str) (revision : Z) (request_id : str) (undo_seconds : Z) (automatic : bool) : M Operation :=
  _ ← mutation_guard;
  _ ← unless (negb (bool_decide (request_id = [])) && (utf8_len request_id <=? 128) && (undo_seconds <=? 60))
        (Conflict (lit "valid idempotency key and undo of 0-60 seconds required"));
  existing ← attempt (operation request_id);
  match existing with
  | Ok op =>
      if same_delete key revision undo_seconds automatic (op_request op) then mret op
      else throw (Conflict (lit "idempotency key reused with different request"))
  | Err NotFound =>
      a ← get_artifact key;
      _ ← unless ((ar_revision a =? revision) && ar_owned a && negb (ar_keep a) && bool_decide (ar_hold a = None) && deletable_state (ar_state a))
            (Conflict (lit "stale revision, active payload, Keep or recovery/review hold"));
      transaction (
        _ ← sql; d ← database;
        match operation_rows (fun o => bool_decide (op_artifact o = key) && pending_state (op_state o) && is_state "delete" (op_kind o)) d with
        | op :: _ => mret op
        | [] =>
            created ← now; n ← now;
            let op := mkOperation request_id key (lit "delete") (lit "queued") (RequestDelete key revision undo_seconds automatic)
              created (n + undo_seconds) 0 0 None in
            _ ← save_operation op;
            _ ← event key (lit "delete_requested") request_id;
            mret op
        end)
  | Err e => throw e
  end.

Definition request_delete (key : str) (revision : Z) (request_id : str) (undo_seconds : Z) : M Operation :=
  request_delete_authorized key revision request_id undo_seconds false.

Definition cancel_delete (key : str) : M Operation :=
  _ ← mutation_guard;
  op ← operation key;
  _ ← unless (is_state "queued" (op_state op) && one_of ["delete"; "prune"]%string (op_kind op))
        (Conflict (lit "deletion already started or finished"));
  let op := op_with_state (lit "cancelled") op in
  _ ← save_operation op;
  mret op.

(** ** Execution *)

(** An entry the manifest vouches for: the same object under the same path, and a file
    that has not changed since. *)
Definition vouched (files : list FileEntry) (f : FileEntry) : bool :=
  existsb (fun owned => bool_decide (fe_path owned = fe_path f) && same_object (fe_identity owned) (fe_identity f)
    && (directory (fe_identity f) || bool_decide (fe_identity owned = fe_identity f))) files.

(** [f.path.matches('/').count()]; deepest first. *)
Definition slashes (f : FileEntry) : Z := Z.of_nat (length (fe_path f)) - 1.
Definition deepest_first (l : list FileEntry) : list FileEntry := sort_by_key (fun f => - slashes f) l.

(** The removal of a payload directory; [attempts] counts this attempt. *)
Definition remove_payload (a : Artifact) (attempts : Z) : M unit :=
  root ← verify_root a;
  gone ← (if 1 <? attempts then
            meta ← attempt (symlink_metadata (ar_path a));
            match meta with
            | Err (Io IoNotFound) => mret true
            | Err e => throw e
            | Ok _ => mret false
            end
          else mret false : M bool);
  if (gone : bool) then mret tt
  else
    dir ← verify a;
    observed ← manifest dir MANIFEST_LIMIT;
    _ ← unless (forallb (vouched (ar_files a)) observed) (Conflict (lit "unowned or changed entry"));
    let files := deepest_first observed in
    _ ← for_each files (fun f => if directory (fe_identity f) then mret tt else remove_entry dir f);
    _ ← for_each files (fun f => if directory (fe_identity f) then remove_entry dir f else mret tt);
    left_over ← names dir;
    _ ← unless (bool_decide (left_over = [])) (Conflict (lit "new files appeared during deletion"));
    _ ← unless (immediate_child (ar_root a) (ar_path a)) (Conflict (lit "payload no longer an immediate child of root"));
    current ← open_at root (file_name (ar_path a)) true;
    meta ← metadata current;
    _ ← unless (same_identity (ar_identity a) (identity meta)) (Conflict (lit "payload directory replaced"));
    unlink root (file_name (ar_path a)) true.

Definition is_conflict (e : Error) : bool := match e with Conflict _ => true | _ => false end.

Definition retry_delay (attempts : Z) : Z :=
  nth (Nat.min (Z.to_nat (sat_sub attempts 1)) 3) [60; 300; 1800; 21600] 0.

(** What the operation and the artifact become. *)
Definition concluded (r : result unit Error) (now : Z) (op : Operation) (a : Artifact) : Operation * Artifact :=
  match r with
  | Ok _ => (op_with_error None (op_with_state (lit "succeeded") op), ar_with_error None (ar_with_state (lit "deleted") a))
  | Err e =>
      (op_with_next_retry (now + retry_delay (op_attempts op))
         (op_with_state (if is_conflict e then lit "review" else lit "retry") (op_with_error (Some (show_error e)) op)),
       let a := ar_with_state (lit "delete_failed") (ar_with_error (Some (show_error e)) a) in
       if is_conflict e then ar_with_hold (Some (lit "review")) a else a)
  end.

(** The authorization a first attempt still needs. *)
Definition still_authorized (automatic on : bool) (revision now : Z) (a : Artifact) : bool :=
  (ar_revision a =? revision)
  && (negb automatic
      || (on && eligible a && (ar_retention_seconds a <=? ar_eligible_seconds a)
          && match ar_deadline a with Some d => d <=? now | None => false end)).

Definition execute_delete (key : str) : M Operation :=
  _ ← mutation_guard;
  op ← operation key;
  _ ← unless (is_state "delete" (op_kind op)) (Conflict (lit "not a deletion operation"));
  t1 ← now; t2 ← now;
  if one_of ["succeeded"; "cancelled"; "review"]%string (op_state op) || (t1 <? op_not_before op) || (t2 <? op_next_retry op)
  then mret op
  else
    a ← get_artifact (op_artifact op);
    match op_request op with
    | RequestDelete _ revision _ automatic =>
        on ← (if automatic && (op_attempts op =? 0) && (ar_revision a =? revision) then s ← settings; mret (enabled s) else mret false : M bool);
        t ← now;
        if (op_attempts op =? 0) && negb (still_authorized automatic on revision t a) then
          let op := op_with_error (Some (lit "deletion authorization changed; a fresh request is required")) (op_with_state (lit "cancelled") op) in
          _ ← save_operation op;
          mret op
        else
          _ ← unless (negb (ar_keep a) && bool_decide (ar_hold a = None) && ar_owned a) (Conflict (lit "payload acquired a hold"));
          let op := op_with_attempts (op_attempts op + 1) (op_with_state (lit "running") op) in
          let a := ar_with_state (lit "deleting") a in
          _ ← transaction (_ ← save_operation op; save_artifact a);
          result ← attempt (remove_payload a (op_attempts op));
          t ← now; n ← now;
          let '(op, a) := concluded result t op a in
          let a := bump (ar_with_updated_at n a) in
          _ ← transaction (
            _ ← save_operation op; _ ← save_artifact a;
            event (ar_id a) (op_state op) (default (lit "deletion confirmed") (op_error op)));
          mret op
    | _ => throw Json
    end.

(** ** Restored backups, old records *)

Definition restored_hold : str := lit "restored backup: review required".

Definition quarantined (a : Artifact) : Artifact :=
  bump (ar_with_deadline None (ar_with_eligible_seconds 0 (ar_with_keep true (ar_with_hold (Some restored_hold) a)))).

Definition quarantine_recovery (r : Recovery) : Recovery :=
  if one_of ["imported"; "cancelled"]%string (rv_state r) then r
  else rv_with_error (Some (lit "Restored backup: reconcile consumer and create a fresh handoff")) (rv_with_state (lit "review") r).

Definition quarantine_restore : M unit :=
  _ ← mutation_guard;
  transaction (
    _ ← sql; d ← database;
    _ ← for_each (artifact_rows (fun a => negb (terminal a)) d) (fun a => save_artifact (quarantined a));
    _ ← write_db (fun d => put_recoveries (quarantine_recovery <$> db_recoveries d) d);
    _ ← sql; d ← database;
    _ ← for_each (operation_rows (fun o => pending_state (op_state o)) d)
          (fun o => save_operation (op_with_error (Some (lit "restored backup; old deletion invalidated")) (op_with_state (lit "review") o)));
    event (lit "installation") (lit "restore") (lit "all outstanding operations quarantined")).

Definition DIAGNOSTIC_WINDOW : Z := 90 * 86400.

Definition drop_sidecars (id : str) (w : World) : World :=
  put_sidecars (base.filter (fun kv => kv.1.1 <> id) (w_sidecars w)) w.

(** At most [n] events from before the cutoff go. *)
Fixpoint drop_old (n : nat) (cutoff : Z) (l : list Event) : list Event :=
  match n, l with
  | S n', e :: l' => if ev_at e <? cutoff then drop_old n' cutoff l' else e :: drop_old n cutoff l'
  | _, _ => l
  end.

Definition compact : M Z :=
  _ ← mutation_guard;
  transaction (
    t ← now; _ ← sql; d ← database;
    let rows := take 100 (artifact_rows (fun a => terminal a && (ar_updated_at a <? t - DIAGNOSTIC_WINDOW)
                  && negb (bool_decide (ar_files a = []))) d) in
    _ ← for_each rows (fun a =>
          _ ← io; _ ← modify (drop_sidecars (ar_id a));
          save_artifact (ar_with_files [] a));
    t ← now;
    _ ← write_db (fun d => put_events (drop_old 1000 (t - DIAGNOSTIC_WINDOW) (db_events d)) d);
    mret (Z.of_nat (length rows))).
End Deletion.
