(* ===== verification/Handoff.v ===== *)
(** * Handing recovered files over ([crates/nzbd-state/src/artifacts/recovery.rs])

    Selected files of a held payload are copied aside, published with a manifest, claimed
    by one consumer and receipted file by file; the receipt may authorize removing
    exactly the files it names from the source. *)

From S2P Require Import Prelude RustStr Tree PayloadFs Custody Inventory Deletion.

#[local] Unset Default Proof Using.

(** SHA-256 and the JSON texts of a recovery are not this repository's code. *)
Class Codec := {
  sha256 : bytes -> str;
  files_json : list RecoveryFile -> bytes;
  recovery_json : Recovery -> bytes;
  parse_recovery : bytes -> option Recovery
}.

Section Handoff.
Context `{Oracle, Site, Codec}.

Abbreviation M := (Act World).

(** A cancellation that arrived during the copy is not overwritten by its progress. *)
Definition merged (old : option Recovery) (r : Recovery) : Recovery :=
  match old with
  | Some o => if is_state "cancel_pending" (rv_state o) && one_of ["staging"; "publishing"]%string (rv_state r)
              then rv_with_state (lit "cancel_pending") r else r
  | None => r
  end.
Definition save_recovery (r : Recovery) : M unit :=
  write_db (fun d => put_recoveries (<[rv_id r := merged (db_recoveries d !! rv_id r) r]> (db_recoveries d)) d).

Definition digest (handle : path) : M str := b ← read_all handle; mret (sha256 b).

Definition recovery_artifact (r : Recovery) : str := lit "recovery-" ++ rv_id r.

Definition register_publication (r : Recovery) : M unit :=
  existing ← attempt (get_artifact (recovery_artifact r));
  match existing with
  | Ok a => _ ← verify a; mret tt
  | Err _ =>
      _ ← unless (negb (bool_decide (rv_published r = []))) (Conflict (lit "invalid publication root"));
      let root := parent (rv_published r) in
      dir ← open_dir (rv_published r);
      root_dir ← open_dir root;
      root_meta ← metadata root_dir;
      meta ← metadata dir;
      created ← now; updated ← now;
      files ← manifest dir MANIFEST_LIMIT;
      let a := mkArtifact (recovery_artifact r) (rv_generation r) 1 None (rv_published r) root (identity root_meta) (Some (identity meta))
        (lit "recovery_staged") true false (Some (lit "awaiting complete import receipt")) created updated day_seconds None 0 files None in
      _ ← sidecar a;
      save_artifact a
  end.

(** ** Staging *)

(** The file a selected path names, which is no scratch, archive or parity file. *)
Definition unstageable (p : path) : bool :=
  let name := to_ascii_lowercase (slashed p) in
  existsb (fun x => ends_with (lit x) name) [".tmp"; ".part"; ".par2"; ".rar"; ".7z"]%string.

Definition find_file (files : list FileEntry) (p : path) : option FileEntry :=
  List.find (fun f => bool_decide (fe_path f = p) && negb (directory (fe_identity f))) files.

Fixpoint select (files : list FileEntry) (seen paths : list path) : result (list FileEntry) Error :=
  match paths with
  | [] => Ok []
  | p :: ps =>
      if bool_decide (p ∈ seen) then Err (Conflict (lit "duplicate selection"))
      else match find_file files p with
           | None => Err (Conflict (lit "select a regular file from the current inventory"))
           | Some f =>
               if unstageable p then Err (Conflict (lit "temporary, archive and parity files cannot be staged as media"))
               else let? fs := select files (p :: seen) ps in Ok (f :: fs)
           end
  end.

Definition lift_result {A} (r : result A Error) : M A := match r with Ok a => mret a | Err e => throw e end.

(** Code that rewrites the recovery as it goes, and keeps what it wrote when it stops at
    an error. *)
Definition Draft (A : Type) : Type := Recovery -> M (Recovery * result A Error).
#[local] Instance draft_ret : MRet Draft := fun A a r => mret (r, Ok a).
#[local] Instance draft_bind : MBind Draft := fun A B k m r =>
  '(r, x) ← m r; match x with Ok a => k a r | Err e => mret (r, Err e) end.
Definition doing {A} (m : M A) : Draft A := fun r => x ← attempt m; mret (r, x).
Definition draft : Draft Recovery := fun r => mret (r, Ok r).
Definition redraft (f : Recovery -> Recovery) : Draft unit := fun r => mret (f r, Ok tt).

Fixpoint draft_each {A} (l : list A) (f : A -> Draft unit) : Draft unit :=
  match l with [] => mret tt | x :: l' => _ ← f x; draft_each l' f end.

(** The nearest ancestor that exists; the path is given from its leaf up. *)
Fixpoint volume_of (rev_path : list str) : M path :=
  present ← exists_ (rev rev_path);
  if (present : bool) then mret (rev rev_path)
  else match rev_path with [] => throw (Conflict (lit "recovery volume unavailable")) | _ :: up => volume_of up end.

Definition GiB : Z := 1073741824.

Definition not_cancelled (id : str) : M unit :=
  r ← recovery id; unless (negb (is_state "cancel_pending" (rv_state r))) (Conflict (lit "staging cancelled")).

Definition stage_file (source payload : path) (id : str) (f : FileEntry) : Draft unit :=
  entry ← doing (
    _ ← not_cancelled id;
    input ← open_relative source (fe_path f);
    meta ← metadata input;
    _ ← unless (bool_decide (identity meta = fe_identity f)) (Conflict (lit "source identity changed"));
    let target := payload ++ fe_path f in
    _ ← create_dir_all (parent target);
    data ← read_all input;
    _ ← write_new target data;
    _ ← io;
    sha ← digest target;
    again ← open_relative source (fe_path f);
    source_hash ← digest again;
    meta ← metadata input;
    _ ← unless ((Z.of_nat (length data) =? id_bytes (fe_identity f)) && bool_decide (sha = source_hash)
                && bool_decide (identity meta = fe_identity f))
          (Conflict (lit "source changed while copying; original remains held"));
    mret (mkRecoveryFile (sha256 (utf8_encode (slashed (fe_path f)))) (fe_path f) (Z.of_nat (length data)) sha));
  _ ← redraft (fun r => rv_with_files (rv_files r ++ [entry]) r);
  doing (_ ← io; mret tt).

Definition stage_copies (source root : path) (selected : list FileEntry) : Draft unit :=
  r ← draft;
  let staging := child root (lit ".staging") in
  let published := child root (lit "published") in
  let scratch := child staging (rv_id r) in
  let payload := child scratch (lit "payload") in
  scratch_meta ← doing (
    volume ← volume_of (rev root);
    dir ← open_dir volume;
    available ← available_bytes dir;
    _ ← unless (sat_add64 (sum_Z (map (fun f => id_bytes (fe_identity f)) selected)) GiB <=? available)
          (Conflict (lit "recovery staging needs more bytes"));
    _ ← create_dir_all root; _ ← open_dir root;
    _ ← create_dir_all staging; _ ← create_dir_all published;
    _ ← open_dir staging; _ ← io; _ ← io; _ ← open_dir published;
    _ ← create_dir scratch;
    dir ← open_dir scratch;
    metadata dir);
  _ ← redraft (rv_with_scratch_identity (Some (identity scratch_meta)));
  r ← draft;
  _ ← doing (_ ← io; _ ← save_recovery r; create_dir payload);
  _ ← draft_each selected (stage_file source payload (rv_id r));
  _ ← redraft (fun r => rv_with_manifest_digest (sha256 (files_json (rv_files r))) r);
  r ← draft;
  _ ← doing (
    _ ← write_new (child scratch (lit "manifest.json")) (recovery_json r);
    _ ← io; _ ← io; _ ← io; _ ← io;
    _ ← mutation_guard;
    not_cancelled (rv_id r));
  _ ← redraft (rv_with_state (lit "publishing"));
  r ← draft;
  doing (
    _ ← save_recovery r;
    present ← exists_ (rv_published r);
    _ ← unless (negb present) (Conflict (lit "recovery publication already exists"));
    _ ← rename_exclusive scratch (rv_published r);
    _ ← io; _ ← io;
    register_publication r).

Definition cancelled_hold : str := lit "review: cancelled recovery".

Definition hold_source (id : str) : M unit :=
  a ← get_artifact id; save_artifact (bump (ar_with_hold (Some cancelled_hold) a)).
Definition hold_staged (r : Recovery) : M unit :=
  staged ← attempt (get_artifact (recovery_artifact r));
  match staged with
  | Ok a => save_artifact (bump (ar_with_hold (Some (lit "review: cancelled recovery staging")) a))
  | Err _ => mret tt
  end.

(** A failed copy's scratch directory is put on record. *)
Definition record_scratch (scratch : path) : M unit :=
  present ← exists_ scratch;
  if (present : bool) then (_ ← discover_record (parent scratch) scratch false; mret tt) else mret tt.

Definition stage_finish (root : path) (r : Recovery) (result : result unit Error) : M Recovery :=
  _ ← mutation_guard;
  stored ← recovery (rv_id r);
  r ← (match result with
       | Ok _ => mret (rv_with_state (lit "published") r)
       | Err e =>
           _ ← record_scratch (child (child root (lit ".staging")) (rv_id r));
           mret (rv_with_error (Some (show_error e)) (rv_with_state (lit "failed") r))
       end);
  r ← (if is_state "cancel_pending" (rv_state stored) then
         _ ← hold_source (rv_artifact r);
         _ ← hold_staged r;
         mret (rv_with_state (lit "cancelled") r)
       else mret r);
  n ← now;
  let r := rv_with_updated_at n r in
  _ ← save_recovery r;
  mret r.

(** ** Resuming a publication *)

Definition resume_steps (root scratch : path) (r : Recovery) : M unit :=
  _ ← unless (is_state "publishing" (rv_state r))
        (Conflict (lit "copy interrupted before its complete manifest was durable; inspect retained staging"));
  present ← try_exists (rv_published r);
  let location := if (present : bool) then rv_published r else scratch in
  dir ← open_dir location;
  meta ← metadata dir;
  _ ← unless (same_identity (rv_scratch_identity r) (identity meta)) (Conflict (lit "publication directory identity changed"));
  raw ← open_relative dir [lit "manifest.json"];
  data ← read_all raw;
  manifest_of ← (match parse_recovery data with Some m => mret m | None => throw Json end);
  _ ← unless (bool_decide (rv_id manifest_of = rv_id r) && bool_decide (rv_generation manifest_of = rv_generation r)
              && bool_decide (rv_manifest_digest manifest_of = rv_manifest_digest r))
        (Conflict (lit "publication manifest changed"));
  entries ← manifest dir MANIFEST_LIMIT;
  _ ← unless (bool_decide (length (List.filter (fun f => negb (directory (fe_identity f))) entries) = S (length (rv_files r))))
        (Conflict (lit "unexpected files in publication"));
  _ ← for_each (rv_files r) (fun f =>
        input ← open_relative dir (lit "payload" :: rf_path f);
        meta ← metadata input;
        sha ← digest input;
        unless ((en_bytes meta =? rf_bytes f) && bool_decide (sha = rf_sha256 f)) (Conflict (lit "publication digest changed")));
  _ ← (if negb present then rename_exclusive scratch (rv_published r) else mret tt);
  register_publication r.

Definition staging_root (r : Recovery) : path := parent (parent (rv_published r)).
Definition scratch_of (r : Recovery) : path := child (child (staging_root r) (lit ".staging")) (rv_id r).

Definition resume_publication (r : Recovery) : M Recovery :=
  if is_state "cancel_pending" (rv_state r) && bool_decide (rv_consumer r = None) then
    n ← now;
    let r := rv_with_updated_at n (rv_with_state (lit "cancelled") r) in
    _ ← hold_source (rv_artifact r);
    _ ← save_recovery r;
    _ ← (if bool_decide (rv_published r = []) || bool_decide (parent (rv_published r) = []) then mret tt
         else record_scratch (scratch_of r));
    mret r
  else if negb (one_of ["staging"; "publishing"]%string (rv_state r)) then mret r
  else
    _ ← unless (negb (bool_decide (rv_published r = [])) && negb (bool_decide (parent (rv_published r) = [])))
          (Conflict (lit "invalid recovery root"));
    result ← attempt (resume_steps (staging_root r) (scratch_of r) r);
    r ← (match result with
         | Ok _ => mret (rv_with_error None (rv_with_state (lit "published") r))
         | Err e =>
             _ ← record_scratch (scratch_of r);
             mret (rv_with_error (Some (show_error e)) (rv_with_state (lit "failed") r))
         end);
    n ← now;
    let r := rv_with_updated_at n r in
    _ ← save_recovery r;
    mret r.

Definition reconcile_recoveries : M unit :=
  _ ← mutation_guard;
  _ ← sql; d ← database;
  for_each (take 10 (List.filter (fun r => one_of ["staging"; "publishing"]%string (rv_state r)
                || (is_state "cancel_pending" (rv_state r) && bool_decide (rv_consumer r = None)))
              (map snd (map_to_list (db_recoveries d)))))
    (fun r => _ ← resume_publication r; mret tt).

Definition path_overlaps (a b : path) : bool := bool_decide (a `prefix_of` b) || bool_decide (b `prefix_of` a).

Definition source_state (s : str) : bool := one_of ["parked_failed"; "retained"; "completed"]%string s.

Definition stage_recovery (key : str) (revision : Z) (request_id : str) (paths : list path) (root : path) : M Recovery :=
  _ ← mutation_guard;
  _ ← unless (negb (bool_decide (paths = [])) && (Z.of_nat (length paths) <=? 1000)
              && negb (bool_decide (request_id = [])) && (utf8_len request_id <=? 128))
        (Conflict (lit "select 1-1000 regular files and provide an idempotency key"));
  let request := (key, revision, paths, root) in
  _ ← sql; d ← database;
  match List.filter (fun r => bool_decide (rv_request_id r = request_id)) (map snd (map_to_list (db_recoveries d))) with
  | existing :: _ =>
      if bool_decide (rv_request existing = request) then resume_publication existing
      else throw (Conflict (lit "idempotency key reused"))
  | [] =>
      a ← get_artifact key;
      _ ← unless ((ar_revision a =? revision) && ar_owned a && bool_decide (ar_hold a = None) && source_state (ar_state a))
            (Conflict (lit "stale revision, unowned files, or active operation"));
      _ ← absolute root;
      _ ← unless (negb (path_overlaps root (ar_path a)) && negb (path_overlaps root state_dir))
            (Conflict (lit "recovery root overlaps source or state"));
      source ← verify a;
      observed ← manifest source MANIFEST_LIMIT;
      _ ← unless (bool_decide (observed = ar_files a)) (Conflict (lit "source changed; inspect again"));
      selected ← lift_result (select (ar_files a) [] paths);
      r ← transaction (
        id ← new_id; generation ← new_id; created ← now; updated ← now;
        let r := mkRecovery id installation key generation request_id request (lit "staging") [] []
          (child (child root (lit "published")) id) None None None None None created updated in
        _ ← save_artifact (bump (ar_with_hold (Some (lit "recovery:" ++ rv_id r)) a));
        _ ← save_recovery r;
        _ ← event key (lit "recovery_staging") (rv_id r);
        mret r);
      '(r, result) ← stage_copies source root selected r;
      stage_finish root r result
  end.

(** ** Claims and receipts *)

Definition claim_recovery (key consumer import_id manifest_digest : str) : M Recovery :=
  _ ← mutation_guard;
  r ← recovery key;
  _ ← unless (bool_decide (rv_manifest_digest r = manifest_digest) && negb (bool_decide (import_id = [])))
        (Conflict (lit "manifest changed or missing import id"));
  if bool_decide (rv_consumer r = Some consumer) && bool_decide (rv_import_id r = Some import_id)
     && one_of ["claimed"; "imported"]%string (rv_state r)
  then
    n ← now;
    let r := rv_with_updated_at n r in
    _ ← save_recovery r; mret r
  else
    _ ← unless (is_state "published" (rv_state r) && bool_decide (rv_consumer r = None))
          (Conflict (lit "recovery already claimed or unavailable"));
    n ← now;
    let r := rv_with_updated_at n (rv_with_state (lit "claimed") (rv_with_import_id (Some import_id) (rv_with_consumer (Some consumer) r))) in
    _ ← save_recovery r; mret r.

Definition receipt_result (s : str) : bool := one_of ["imported"; "already_present"; "failed"; "skipped"]%string s.
Definition receipt_taken (s : str) : bool := one_of ["imported"; "already_present"]%string s.

Fixpoint receipt_valid (files : list RecoveryFile) (seen : list str) (l : list ReceiptFile) : result unit Error :=
  match l with
  | [] => Ok tt
  | f :: l' =>
      match List.find (fun x => bool_decide (rf_id x = rc_id f)) files with
      | None => Err (Conflict (lit "receipt includes an unselected file"))
      | Some expected =>
          if bool_decide (rc_id f ∈ seen) || negb (rc_bytes f =? rf_bytes expected)
             || negb (bool_decide (rc_sha256 f = rf_sha256 expected)) || negb (receipt_result (rc_result f))
          then Err (Conflict (lit "invalid per-file receipt"))
          else receipt_valid files (rc_id f :: seen) l'
      end
  end.

Definition regular_files (a : Artifact) : nat := length (List.filter (fun f => negb (directory (fe_identity f))) (ar_files a)).
Definition unselected_hold : str := lit "review: unselected source files remain".

Definition recovery_receipt (key consumer : str) (receipt : Receipt) : M Recovery :=
  _ ← mutation_guard;
  r ← recovery key;
  _ ← unless (bool_decide (rv_consumer r = Some consumer) && bool_decide (rv_import_id r = Some (rc_import_id receipt))
              && bool_decide (rv_manifest_digest r = rc_manifest_digest receipt))
        (Conflict (lit "receipt does not belong to this claim"));
  match rv_receipt r with
  | Some previous => if bool_decide (previous = receipt) then mret r else throw (Conflict (lit "conflicting receipt"))
  | None =>
      _ ← unless (is_state "claimed" (rv_state r)) (Conflict (lit "recovery is not claimed"));
      _ ← lift_result (receipt_valid (rv_files r) [] (rc_files receipt));
      let complete := bool_decide (length (rc_files receipt) = length (rv_files r))
                      && forallb (fun f => receipt_taken (rc_result f)) (rc_files receipt) in
      n ← now;
      let r := rv_with_updated_at n (rv_with_receipt (Some receipt) (rv_with_state (if complete then lit "imported" else lit "partial") r)) in
      a ← get_artifact (rv_artifact r);
      n ← now;
      let a := if complete
               then bump (ar_with_hold (if bool_decide (regular_files a = length (rv_files r)) then None else Some unselected_hold)
                      (ar_with_deadline (Some (sat_add_i64 n (ar_retention_seconds a))) (ar_with_eligible_seconds 0 a)))
               else a in
      _ ← transaction (
        _ ← (if complete then
               staged ← get_artifact (recovery_artifact r);
               n ← now;
               save_artifact (bump (ar_with_eligible_seconds 0 (ar_with_deadline (Some (n + day_seconds))
                 (ar_with_hold None (ar_with_state (lit "recovery_imported") staged)))))
             else mret tt);
        _ ← save_recovery r;
        _ ← save_artifact a;
        event (ar_id a) (lit "recovery_receipt") (rv_state r));
      mret r
  end.

Definition cancel_recovery (key : str) (consumer : option str) (ack : bool) : M Recovery :=
  _ ← mutation_guard;
  r ← recovery key;
  if one_of ["staging"; "publishing"]%string (rv_state r) || (is_state "cancel_pending" (rv_state r) && bool_decide (rv_consumer r = None))
  then
    n ← now;
    let r := rv_with_updated_at n (rv_with_state (lit "cancel_pending") r) in
    _ ← save_recovery r; mret r
  else
    _ ← unless (negb (is_state "imported" (rv_state r))) (Conflict (lit "import already committed"));
    let final_partial := is_state "partial" (rv_state r) && bool_decide (is_Some (rv_receipt r)) in
    let claimed := bool_decide (is_Some (rv_consumer r)) in
    r ← (if claimed && negb ack && negb final_partial then mret (rv_with_state (lit "cancel_pending") r)
         else
           _ ← unless (negb (claimed && negb final_partial
                        && (negb (bool_decide (consumer = rv_consumer r)) || negb (is_state "cancel_pending" (rv_state r)))))
                 (Conflict (lit "claimed cancellation requires the worker's quiescence acknowledgement"));
           a ← get_artifact (rv_artifact r);
           _ ← hold_staged r;
           _ ← save_artifact (bump (ar_with_hold (Some cancelled_hold) a));
           mret (rv_with_state (lit "cancelled") r));
    n ← now;
    let r := rv_with_updated_at n r in
    _ ← save_recovery r; mret r.

(** ** Removing what a receipt names *)

Definition cleanup_hold : str := lit "review: unselected source files remain after receipt cleanup".

Definition prunable_hold (r : Recovery) (h : option str) : bool :=
  match h with
  | None => true
  | Some h => bool_decide (h = lit "recovery:" ++ rv_id r) || bool_decide (h = unselected_hold) || bool_decide (h = cleanup_hold)
  end.

(** The entries to remove: what was received, is still there and still is what was
    staged. *)
Fixpoint receipted (r : Recovery) (a : Artifact) (dir : path) (l : list ReceiptFile) : M (list FileEntry) :=
  match l with
  | [] => mret []
  | imported :: l' =>
      match List.find (fun f => bool_decide (rf_id f = rc_id imported)) (rv_files r) with
      | None => throw (Conflict (lit "receipt file missing from manifest"))
      | Some selected =>
          match find_file (ar_files a) (rf_path selected) with
          | None => receipted r a dir l'
          | Some entry =>
              opened ← attempt (open_relative dir (fe_path entry));
              match opened with
              | Err (Io IoNotFound) => receipted r a dir l'
              | Err e => throw e
              | Ok file =>
                  meta ← metadata file;
                  sha ← digest file;
                  _ ← unless (bool_decide (identity meta = fe_identity entry) && bool_decide (sha = rf_sha256 selected))
                        (Conflict (lit "source file changed after recovery staging"));
                  rest ← receipted r a dir l';
                  mret (entry :: rest)
              end
          end
      end
  end.

Definition prune_directory (dir : path) (entry : FileEntry) : M unit :=
  opened ← attempt (open_relative dir (fe_path entry));
  match opened with
  | Ok child =>
      ns ← names child;
      if bool_decide (ns = []) then remove_entry dir entry else mret tt
  | Err (Io IoNotFound) => mret tt
  | Err e => throw e
  end.

(** The removal itself, once the receipt and the source have been checked. *)
Definition prune_payload (key : str) (r : Recovery) (receipt : Receipt) (a : Artifact) : M unit :=
  dir ← verify a;
  removals ← receipted r a dir (List.filter (fun f => receipt_taken (rc_result f)) (rc_files receipt));
  _ ← for_each removals (remove_entry dir);
  _ ← for_each (deepest_first (List.filter (fun e => directory (fe_identity e)) (ar_files a))) (prune_directory dir);
  remaining ← manifest dir MANIFEST_LIMIT;
  a ← (if bool_decide (remaining = []) then
         root ← verify_root a;
         current ← open_at root (file_name (ar_path a)) true;
         meta ← metadata current;
         _ ← unless (same_identity (ar_identity a) (identity meta)) (Conflict (lit "source directory changed"));
         _ ← unlink root (file_name (ar_path a)) true;
         mret (ar_with_hold None (ar_with_state (lit "deleted") a))
       else
         let a := if negb (forallb (vouched (ar_files a)) remaining) then ar_with_keep true (ar_with_owned false a) else a in
         mret (ar_with_hold (Some cleanup_hold) a));
  n ← now;
  let a := ar_with_updated_at n (bump (ar_with_files remaining a)) in
  _ ← save_artifact a;
  event (ar_id a) (lit "receipt_source_cleanup") key.

Definition prune_receipted_source (key : str) : M unit :=
  _ ← mutation_guard;
  r ← recovery key;
  _ ← unless (one_of ["imported"; "partial"]%string (rv_state r)) (Conflict (lit "a final per-file receipt is required"));
  match rv_receipt r with
  | None => throw (Conflict (lit "no final receipt"))
  | Some receipt =>
      a ← get_artifact (rv_artifact r);
      if terminal a then mret tt
      else
        _ ← unless (ar_owned a && negb (ar_keep a)) (Conflict (lit "source is unowned or kept"));
        _ ← unless (prunable_hold r (ar_hold a)) (Conflict (lit "source has an unrelated hold"));
        _ ← verify_root a;
        present ← try_exists (ar_path a);
        if negb present then
          n ← now;
          save_artifact (bump (ar_with_updated_at n (ar_with_hold None (ar_with_state (lit "source_gone") a))))
        else
          prune_payload key r receipt a
  end.
End Handoff.
