(* ===== verification/Upkeep.v ===== *)
(** * The inventory's background work ([policy.rs], [relocation.rs], [tasks.rs] and
    [tick] of [crates/nzbd-state/src/artifacts])

    Retention policies, moves of a payload, persisted tasks, and the periodic step that
    counts retention time, admits and runs deletions and tasks. *)

From stdpp Require Import sorting.
From S2P Require Import Prelude RustStr Tree PayloadFs Custody Inventory Deletion Handoff.

#[local] Unset Default Proof Using.

Section Upkeep.
Context `{Oracle, Site, Codec}.

Abbreviation M := (Act World).

(** ** Retention policies *)

Definition policy_row (days : Z) (a : Artifact) : bool :=
  is_state "parked_failed" (ar_state a) && ar_owned a && negb (ar_keep a) && bool_decide (ar_hold a = None)
  && negb (ar_retention_seconds a =? days * day_seconds).

(** Oldest first, then by id. *)
Definition sort_ids (l : list Artifact) : list Artifact := merge_sort (fun a b => by_id a b) l.
Definition oldest_first (l : list Artifact) : list Artifact := sort_by_key ar_updated_at (sort_ids l).

Definition preview_retention (days : Z) : M RetentionPreview :=
  _ ← unless (days <=? 3650) (Conflict (lit "retention exceeds 3650 days"));
  _ ← mutation_guard;
  _ ← sql; d ← database;
  let entries := map (fun a => mkRetentionChange (ar_id a) (ar_revision a) (ar_path a) (ar_retention_seconds a))
    (take 1000 (oldest_first (artifact_rows (policy_row days) d))) in
  id ← new_id;
  let preview := mkRetentionPreview id days entries 1000 in
  n ← now;
  _ ← save_operation (mkOperation id (lit "policy") (lit "retention_preview") (lit "preview") (RequestPreview preview) n 0 0 0 None);
  mret preview.

Definition apply_change (days : Z) (key : str) (change : RetentionChange) : M unit :=
  a ← get_artifact (ch_id change);
  _ ← unless ((ar_revision a =? ch_revision change) && negb (ar_keep a) && bool_decide (ar_hold a = None) && ar_owned a
              && is_state "parked_failed" (ar_state a))
        (Conflict (lit "inventory changed; create a new retention preview"));
  n ← now; n' ← now;
  let a := ar_with_retention_seconds (days * day_seconds) a in
  _ ← save_artifact (ar_with_updated_at n' (bump (ar_with_eligible_seconds 0 (ar_with_deadline (Some (sat_add_i64 n (ar_retention_seconds a))) a))));
  event (ar_id a) (lit "retention_policy_applied") key.

Definition apply_retention (key : str) : M Operation :=
  _ ← mutation_guard;
  transaction (
    op ← operation key;
    _ ← unless (is_state "retention_preview" (op_kind op)) (Conflict (lit "not a retention preview"));
    if is_state "succeeded" (op_state op) then mret op
    else
      _ ← unless (is_state "preview" (op_state op)) (Conflict (lit "preview is no longer applicable"));
      match op_request op with
      | RequestPreview preview =>
          _ ← for_each (pv_entries preview) (apply_change (pv_days preview) key);
          let op := op_with_state (lit "succeeded") op in
          _ ← save_operation op;
          mret op
      | _ => throw Json
      end).

(** ** Relocation *)

Definition move_key (a : Artifact) : str := lit "move-" ++ ar_id a ++ lit "-" ++ show_dec (ar_revision a).
Definition relocation_hold : str := lit "review: relocation staging".

Definition commit_relocation (op : Operation) (movement : Relocation) : M Operation :=
  let root := parent (rl_destination movement) in
  root_dir ← open_dir root;
  root_meta ← metadata root_dir;
  _ ← unless (same_object (rl_destination_root movement) (identity root_meta)) (Conflict (lit "move destination root changed"));
  target ← open_dir (rl_destination movement);
  let expected := default (rl_source movement) (rl_scratch movement) in
  meta ← metadata target;
  _ ← unless (same_identity (ar_identity expected) (identity meta)) (Conflict (lit "move publication identity changed"));
  files ← manifest target MANIFEST_LIMIT;
  _ ← unless (bool_decide (files = ar_files expected)) (Conflict (lit "move publication contents changed"));
  current ← get_artifact (ar_id (rl_source movement));
  meta ← metadata target;
  let current := bump (bump (ar_with_state (lit "active") (ar_with_files files (ar_with_identity (Some (identity meta))
    (ar_with_root_identity (rl_destination_root movement) (ar_with_root root (ar_with_path (rl_destination movement) current))))))) in
  _ ← sidecar current;
  let op' := op_with_error None (op_with_state (lit "succeeded") op) in
  _ ← transaction (
    _ ← (match rl_scratch movement with
         | None => mret tt
         | Some scratch =>
             n ← now;
             _ ← save_artifact (ar_with_updated_at n (ar_with_state (lit "source_gone") scratch));
             let source := rl_source movement in
             let old := ar_with_deadline None (ar_with_retention_seconds 0 (ar_with_keep (ar_keep current)
               (ar_with_hold (if ar_owned source then None else Some (lit "review"))
                 (ar_with_state (lit "retained") (ar_with_job None (ar_with_id (lit "source-" ++ op_id op) source)))))) in
             _ ← sidecar old;
             _ ← save_artifact old;
             if ar_owned old && negb (ar_keep old) && bool_decide (ar_hold old = None) then
               created ← now; n ← now;
               save_operation (mkOperation (lit "retire-" ++ op_id op) (ar_id old) (lit "delete") (lit "queued")
                 (RequestDelete (ar_id old) (ar_revision old) 0 false) created n 0 0 None)
             else mret tt
         end);
    _ ← save_artifact current;
    _ ← save_operation op';
    event (ar_id current) (lit "relocated") (slashed (ar_path current)));
  mret op'.

Definition retire_relocation_source (key : str) : M unit :=
  r ← attempt (get_artifact (lit "source-" ++ key));
  match r with
  | Err _ => mret tt
  | Ok old =>
      if ar_owned old && negb (ar_keep old) && bool_decide (ar_hold old = None) && negb (terminal old) then
        op ← request_delete (ar_id old) (ar_revision old) (lit "retire-" ++ key) 0;
        _ ← execute_delete (op_id op);
        mret tt
      else mret tt
  end.

Definition copy_entry (dir scratch_path : path) (entry : FileEntry) : M unit :=
  let target := scratch_path ++ fe_path entry in
  if directory (fe_identity entry) then create_dir target
  else
    input ← open_relative dir (fe_path entry);
    meta ← metadata input;
    _ ← unless (bool_decide (identity meta = fe_identity entry)) (Conflict (lit "source changed during relocation"));
    data ← read_all input;
    _ ← write_new target data;
    _ ← io; _ ← io;
    from_hash ← digest input;
    to_hash ← digest target;
    meta ← metadata input;
    unless ((Z.of_nat (length data) =? id_bytes (fe_identity entry)) && bool_decide (from_hash = to_hash)
            && bool_decide (identity meta = fe_identity entry))
      (Conflict (lit "relocation copy verification failed")).

(** The copy of a payload onto another volume; what it wrote down of the scratch
    directory and of the operation stays, also when it fails. *)
Definition Journal : Type := Relocation * Operation.

Definition journal_scratch (scratch : Artifact) (j : Journal) : Journal :=
  let '(rl, op) := j in
  let rl := mkRelocation (rl_source rl) (rl_destination rl) (rl_destination_root rl) (Some scratch) in
  (rl, op_with_request (RequestRelocate rl) op).

Definition cross_volume (source : Artifact) (dir root_dir root destination : path) (key : str) (j : Journal) : M (Journal * result unit Error) :=
  let scratch_path := child root (lit ".runner-" ++ key) in
  made ← attempt (
    _ ← create_dir scratch_path;
    _ ← sync_directory root_dir;
    scratch_dir ← open_dir scratch_path;
    generation ← new_id;
    meta ← metadata scratch_dir;
    let scratch := ar_with_hold (Some relocation_hold) (ar_with_keep true (ar_with_owned true (ar_with_state (lit "active")
      (ar_with_files [] (ar_with_identity (Some (identity meta)) (ar_with_root_identity (rl_destination_root j.1)
        (ar_with_root root (ar_with_path scratch_path (ar_with_generation generation (ar_with_job None
          (ar_with_id (lit "scratch-" ++ key) source))))))))))) in
    _ ← sidecar scratch;
    _ ← save_artifact scratch;
    mret scratch);
  match made with
  | Err e => mret (j, Err e)
  | Ok scratch =>
      let j := journal_scratch scratch j in
      copied ← attempt (
        _ ← save_operation j.2;
        _ ← for_each (ar_files source) (copy_entry dir scratch_path);
        _ ← for_each (List.filter (fun e => directory (fe_identity e)) (rev (ar_files source)))
              (fun e => h ← open_relative scratch_path (fe_path e); sync_directory h);
        _ ← sync_directory scratch_path;
        manifest scratch_path MANIFEST_LIMIT);
      match copied with
      | Err e => mret (j, Err e)
      | Ok files =>
          let scratch := ar_with_files files scratch in
          let j := journal_scratch scratch j in
          r ← attempt (
            _ ← save_artifact scratch;
            _ ← save_operation j.2;
            rename_exclusive scratch_path destination);
          mret (j, r)
      end
  end.

Definition quiescent_hold (h : option str) : bool := match h with Some h => bool_decide (h = lit "review") | None => true end.

Definition relocate_failed (rl : Relocation) (op : Operation) (e : Error) : M unit :=
  _ ← save_operation (op_with_error (Some (show_error e)) (op_with_state (lit "review") op));
  _ ← (match rl_scratch rl with
       | Some scratch => row ← get_artifact (ar_id scratch); save_artifact (ar_with_state (lit "retained") row)
       | None => mret tt
       end);
  intact ← attempt (verify (rl_source rl));
  match intact with
  | Ok _ =>
      retained ← get_artifact (ar_id (rl_source rl));
      save_artifact (ar_with_error (Some (show_error e)) (ar_with_state (lit "active") retained))
  | Err _ => mret tt
  end.

Definition relocate (job : Z) (destination : path) : M unit :=
  _ ← mutation_guard;
  r ← for_job job;
  match r with
  | None => throw NotFound
  | Some source =>
      if bool_decide (ar_path source = destination) then _ ← verify source; mret tt
      else
        _ ← unless (is_state "active" (ar_state source) && quiescent_hold (ar_hold source))
              (Conflict (lit "payload is not quiescent for relocation"));
        dir ← verify source;
        files ← manifest dir MANIFEST_LIMIT;
        let source := ar_with_files files source in
        _ ← absolute destination;
        _ ← unless (negb (bool_decide (destination = []))) (Conflict (lit "missing destination root"));
        let root := parent destination in
        _ ← create_dir_all root;
        root_dir ← open_dir root;
        present ← try_exists destination;
        _ ← unless (negb present) (Conflict (lit "move destination already exists"));
        let key := move_key source in
        root_meta ← metadata root_dir;
        let rl := mkRelocation source destination (identity root_meta) None in
        n ← now;
        let op := mkOperation key (ar_id source) (lit "relocate") (lit "running") (RequestRelocate rl) n 0 1 0 None in
        let moving := bump (ar_with_state (lit "transitioning") source) in
        _ ← transaction (_ ← save_artifact moving; save_operation op);
        renamed ← attempt (rename_exclusive (ar_path source) destination);
        '(j, published) ← (match renamed with
                           | Ok _ => mret ((rl, op), Ok tt)
                           | Err (Io IoCrossesDevices) => cross_volume moving dir root_dir root destination key (rl, op)
                           | Err e => mret ((rl, op), Err e)
                           end : M (Journal * result unit Error));
        result ← (match published with
                  | Ok _ => attempt (_ ← mutation_guard; commit_relocation j.2 j.1)
                  | Err e => mret (Err e)
                  end : M (result Operation Error));
        _ ← mutation_guard;
        match result with
        | Err e => _ ← relocate_failed j.1 j.2 e; throw e
        | Ok op => _ ← attempt (retire_relocation_source (op_id op)); mret tt
        end
  end.

Definition settle_move (retired : list str) (op : Operation) : M (list str) :=
  match op_request op with
  | RequestRelocate movement =>
      r ← attempt (commit_relocation op movement);
      match r with
      | Ok op => mret (retired ++ [op_id op])
      | Err e =>
          _ ← (match rl_scratch movement with
               | None => mret tt
               | Some scratch =>
                   row ← attempt (get_artifact (ar_id scratch));
                   match row with Ok row => save_artifact (ar_with_state (lit "retained") row) | Err _ => mret tt end
               end);
          _ ← save_operation (op_with_error (Some (lit "interrupted move: " ++ show_error e)) (op_with_state (lit "review") op));
          a ← get_artifact (op_artifact op);
          _ ← save_artifact (bump (ar_with_state (lit "retained") (ar_with_hold (Some (lit "review: interrupted move")) a)));
          mret retired
      end
  | _ => throw Json
  end.

Definition reconcile_relocations : M unit :=
  _ ← mutation_guard;
  _ ← sql; d ← database;
  retired ← fold_acts settle_move
    (take 25 (operation_rows (fun o => is_state "running" (op_state o) && is_state "relocate" (op_kind o)) d)) [];
  for_each retired retire_relocation_source.

Definition reconcile_startup (live_jobs : list Z) : M unit :=
  _ ← reconcile_relocations; reconcile_allocations live_jobs.

(** ** Tasks *)

Definition configure_scan (request : TaskRequest) : M unit := _ ← mutation_guard; write_db (put_scan_request request).

Definition latest_scan (d : Database) : option Operation :=
  List.hd_error (sort_by_key (fun o => - op_created_at o) (operation_rows (fun o => is_state "scan" (op_kind o)) d)).

Definition same_task (t : TaskRequest) (r : Request) : bool := match r with RequestTask t' => bool_decide (t' = t) | _ => false end.

Definition submit_task (kind artifact request_id : str) (request : TaskRequest) : M Operation :=
  _ ← unless (one_of ["inspect"; "scan"; "stage"; "prune"]%string kind) (Conflict (lit "unknown task kind"));
  _ ← mutation_guard;
  key ← (if bool_decide (request_id = []) then new_id else mret request_id : M str);
  existing ← attempt (operation key);
  match existing with
  | Ok op =>
      if same_task request (op_request op) && bool_decide (op_kind op = kind) && bool_decide (op_artifact op = artifact)
      then mret op else throw (Conflict (lit "idempotency key reused"))
  | Err NotFound =>
      created ← now; n ← now;
      let op := mkOperation key artifact kind (lit "queued") (RequestTask request) created
        (n + if is_state "prune" kind then 8 else 0) 0 0 None in
      _ ← save_operation op;
      mret op
  | Err e => throw e
  end.

Definition schedule_discovery : M unit :=
  s ← settings;
  if negb (enabled s) then mret tt
  else
    _ ← sql; d ← database; n ← now;
    if match latest_scan d with
       | Some o => one_of ["queued"; "running"]%string (op_state o) || (n - 900 <? op_created_at o)
       | None => false
       end then mret tt
    else
      _ ← sql; d ← database;
      match db_scan_request d with
      | None => mret tt
      | Some request =>
          n ← now;
          _ ← submit_task (lit "scan") (lit "installation") (lit "periodic-scan-" ++ show_dec (Z.quot n 900)) request;
          mret tt
      end.

(** One directory of a scanned root. *)
Definition scan_entry (root : path) (excluded active : list path) (count : Z) (name : str) : M Z :=
  _ ← unless (count <? 2000) (Conflict (lit "scan reached 2000 directories; results are incomplete"));
  let p := child root name in
  if existsb (fun x => bool_decide (p = x) || bool_decide (p `prefix_of` x)) excluded then mret count
  else
    meta ← symlink_metadata p;
    if negb (is_dir meta) then mret count
    else _ ← discover root p (bool_decide (p ∈ active)); mret (count + 1).

Definition scan_root (excluded active : list path) (acc : Z * list path) (root : path) : M (Z * list path) :=
  let '(count, failures) := acc in
  opened ← attempt (open_dir root);
  match opened with
  | Err _ => mret (count, failures ++ [root])
  | Ok dir =>
      _ ← io; d ← the_disk;
      count ← fold_acts (scan_entry root excluded active) (children d dir) count;
      mret (count, failures)
  end.

Definition scan (roots excluded active : list path) : M unit :=
  '(_, failures) ← fold_acts (scan_root excluded active) roots (0, []);
  unless (bool_decide (failures = [])) (Conflict (concat (map slashed failures))).

(** The task a request stands for; other JSON has none of its members. *)
Definition task_of (r : Request) : TaskRequest := match r with RequestTask t => t | _ => TaskNone end.

Definition pruned_recovery (op : Operation) : M str :=
  match task_of (op_request op) with TaskPrune r => mret r | _ => throw (Conflict (lit "missing recovery")) end.

Definition run_task (op : Operation) : M unit :=
  let kind := op_kind op in
  let t := task_of (op_request op) in
  if is_state "prune" kind then r ← pruned_recovery op; prune_receipted_source r
  else if is_state "inspect" kind then _ ← inspect (op_artifact op); mret tt
  else if is_state "stage" kind then
    match t with
    | TaskStage revision files root =>
        r ← stage_recovery (op_artifact op) revision (op_id op) files root;
        unless (is_state "published" (rv_state r)) (Conflict (default (lit "recovery " ++ rv_state r) (rv_error r)))
    | _ => throw (Conflict (lit "missing revision"))
    end
  else if is_state "scan" kind then
    match t with TaskScan roots excluded active => scan roots excluded active | _ => throw Json end
  else throw (Conflict (lit "unknown task kind")).

(** A prune task without its recovery leaves the function before the result is taken:
    the operation stays running. *)
Definition execute_task (key : str) : M Operation :=
  op ← operation key;
  n ← now;
  if negb (one_of ["queued"; "running"]%string (op_state op)) || (n <? op_not_before op) then mret op
  else
    let op := op_with_attempts (op_attempts op + 1) (op_with_state (lit "running") op) in
    _ ← save_operation op;
    _ ← (if is_state "prune" (op_kind op) then _ ← pruned_recovery op; mret tt else mret tt);
    result ← attempt (run_task op);
    let op := match result with
              | Ok _ => op_with_error None (op_with_state (lit "succeeded") op)
              | Err e => op_with_error (Some (show_error e)) (op_with_state (lit "failed") op)
              end in
    _ ← save_operation op;
    mret op.

Definition by_creation (l : list Operation) : list Operation := sort_by_key op_created_at l.

Definition run_tasks : M unit :=
  _ ← sql; d ← database; n ← now;
  for_each (take 5 (by_creation (operation_rows (fun o => one_of ["queued"; "running"]%string (op_state o)
      && one_of ["inspect"; "scan"; "stage"; "prune"]%string (op_kind o) && (op_not_before o <=? n)) d)))
    (fun o => _ ← execute_task (op_id o); mret tt).

(** ** The periodic step *)

(** Uptime since the last look at an artifact, at the same revision. *)
Definition elapsed_since (point : option (Z * Z)) (revision t : Z) : Z :=
  match point with
  | Some (rev, since) => if rev =? revision then sat_sub t since else 0
  | None => 0
  end.

Definition mono : M Z := w ← get; _ ← modify (put_calls (S (w_calls w))); mret (monotonic (w_calls w)).

Definition count_row (on : bool) (due : list (str * Z)) (a : Artifact) : M (list (str * Z)) :=
  if on && eligible a then
    t ← mono; w ← get;
    let elapsed := elapsed_since (w_clocks w !! ar_id a) (ar_revision a) t in
    again ← mono;
    _ ← modify (put_clocks (<[ar_id a := (ar_revision a, again)]> (w_clocks w)));
    let a := ar_with_eligible_seconds (Z.min (sat_add64 (ar_eligible_seconds a) elapsed) (ar_retention_seconds a)) a in
    _ ← save_artifact a;
    n ← now;
    mret (if (ar_retention_seconds a <=? ar_eligible_seconds a) && match ar_deadline a with Some d => d <=? n | None => false end
          then due ++ [(ar_id a, ar_revision a)] else due)
  else
    _ ← modify (fun w => put_clocks (delete (ar_id a) (w_clocks w)) w);
    mret due.

Definition count_time (on : bool) : M (list (str * Z)) :=
  _ ← mutation_guard;
  transaction (
    _ ← sql; d ← database;
    let rows := artifact_rows (fun a => one_of ["parked_failed"; "recovery_imported"]%string (ar_state a)) d in
    due ← fold_acts (count_row on) rows [];
    _ ← modify (fun w => put_clocks (base.filter (fun kv => kv.1 ∈ map ar_id rows) (w_clocks w)) w);
    mret due).

Definition retention_key (key : str) (revision : Z) : str := lit "retention-" ++ key ++ lit "-" ++ show_dec revision.

Definition due_deletions (n : Z) (d : Database) : list Operation :=
  take 25 (sort_by_key op_next_retry (by_creation (operation_rows (fun o => pending_state (op_state o) && is_state "delete" (op_kind o)
    && (op_not_before o <=? n) && (op_next_retry o <=? n)) d))).

Definition tick : M unit :=
  s ← settings;
  due ← count_time (enabled s);
  _ ← for_each due (fun '(key, revision) =>
        _ ← attempt (request_delete_authorized key revision (retention_key key revision) 0 true); mret tt);
  _ ← sql; d ← database; n ← now;
  _ ← for_each (due_deletions n d) (fun o => _ ← attempt (execute_delete (op_id o)); mret tt);
  _ ← reconcile_recoveries;
  _ ← schedule_discovery;
  _ ← run_tasks;
  _ ← reconcile_missing;
  _ ← compact;
  mret tt.
End Upkeep.
