(* ===== verification/PayloadLogic.v ===== *)
(** * Reasoning about inventory operations

    Specifications of actions: [triple P m Q F] says what holds when [m] returns ([Q])
    and when it stops at an error or where the process dies ([F]).  Reading calls are
    [quiet]: they only count calls, and [returns] gives the facts of what they return. *)

From stdpp Require Import sorting.
From S2P Require Import Prelude RustStr Tree PayloadFs.

#[local] Unset Default Proof Using.

Section Triples.
Context {W : Type}.

Definition triple {A} (P : W -> Prop) (m : Act W A) (Q : A -> W -> Prop) (F : option Error -> W -> Prop) : Prop :=
  forall w, P w ->
  match m w with
  | (w', Fin a) => Q a w'
  | (w', Fail e) => F (Some e) w'
  | (w', Dead) => F None w'
  end.

Lemma triple_mbind {A B} P (m : Act W A) R (k : A -> Act W B) Q F : triple P m R F -> (forall a, triple (R a) (k a) Q F) -> triple P (m ≫= k) Q F.
Proof.
  intros H1 H2 w Hw. specialize (H1 w Hw). unfold mbind, act_bind. destruct (m w) as [w1 [a|e|]]; [by apply (H2 a)|done|done].
Qed.

Lemma triple_conseq {A} P P' (m : Act W A) Q Q' F F' : triple P m Q F -> (forall w, P' w -> P w) -> (forall a w, Q a w -> Q' a w) -> (forall e w, F e w -> F' e w) -> triple P' m Q' F'.
Proof. intros H HP HQ HF w Hw. specialize (H w (HP w Hw)). destruct (m w) as [w1 [a|e|]]; auto. Qed.

Lemma triple_pre {A} P P' (m : Act W A) Q F : triple P m Q F -> (forall w, P' w -> P w) -> triple P' m Q F.
Proof. intros H HP. eapply triple_conseq; eauto. Qed.

Lemma triple_post {A} P (m : Act W A) Q Q' F : triple P m Q F -> (forall a w, Q a w -> Q' a w) -> triple P m Q' F.
Proof. intros H HQ. eapply triple_conseq; eauto. Qed.

Lemma triple_mret {A} P (a : A) Q F : (forall w, P w -> Q a w) -> triple P (mret a) Q F.
Proof. intros H w Hw. by apply H. Qed.

Lemma triple_throw {A} P e (Q : A -> W -> Prop) F : (forall w, P w -> F (Some e) w) -> triple P (throw e) Q F.
Proof. intros H w Hw. by apply H. Qed.

Lemma triple_pure {A} (X : Prop) P (m : Act W A) Q F : (X -> triple P m Q F) -> triple (fun w => X /\ P w) m Q F.
Proof. intros H w [Hx Hw]. by apply H. Qed.

Lemma triple_unless P b e (Q : unit -> W -> Prop) F : (forall w, P w -> b = true -> Q tt w) -> (forall w, P w -> b = false -> F (Some e) w) -> triple P (unless b e) Q F.
Proof. intros H1 H2 w Hw. unfold unless. destruct b; [by apply H1|by apply H2]. Qed.

Lemma triple_modify P f (Q : unit -> W -> Prop) F : (forall w, P w -> Q tt (f w)) -> triple P (modify f) Q F.
Proof. intros H w Hw. by apply H. Qed.

Lemma triple_attempt {A} P (m : Act W A) Q F F' : triple P m Q F -> (forall w, F None w -> F' None w) ->
  triple P (attempt m) (fun r w => match r with Ok a => Q a w | Err e => F (Some e) w end) F'.
Proof. intros H HF w Hw. specialize (H w Hw). unfold attempt. destruct (m w) as [w1 [a|e|]]; auto. Qed.

(** A loop with an invariant over what is done and what is left. *)
Lemma triple_for_each {A} (I : list A -> list A -> W -> Prop) F (l : list A) (f : A -> Act W unit) :
  (forall done x todo, l = done ++ x :: todo -> triple (I done (x :: todo)) (f x) (fun _ => I (done ++ [x]) todo) F) ->
  triple (I [] l) (for_each l f) (fun _ => I l []) F.
Proof.
  intros H. enough (G : forall todo done, l = done ++ todo -> triple (I done todo) (for_each todo f) (fun _ => I l []) F) by (by apply G).
  induction todo as [|x todo IH]; intros done Hl; cbn [for_each].
  - rewrite app_nil_r in Hl. rewrite <- Hl. by apply triple_mret.
  - eapply triple_mbind; [by apply H|]. intros [].   apply IH. by rewrite <- app_assoc.
Qed.

Lemma triple_each {A} (I : W -> Prop) F (l : list A) (f : A -> Act W unit) :
  (forall x, x ∈ l -> triple I (f x) (fun _ => I) F) -> triple I (for_each l f) (fun _ => I) F.
Proof.
  intros H. apply (triple_for_each (fun _ _ => I)). intros done x todo ->. apply H. rewrite elem_of_app. right. by left.
Qed.

Lemma triple_fold {A B} (I : B -> W -> Prop) F (f : B -> A -> Act W B) (l : list A) b :
  (forall b x, x ∈ l -> triple (I b) (f b x) I F) -> triple (I b) (fold_acts f l b) I F.
Proof.
  revert b. induction l as [|x l IH]; intros b H; cbn [fold_acts]; [by apply triple_mret|].
  eapply triple_mbind; [apply H; left|]. intros b'. apply IH. intros b2 y Hy. apply H. by right.
Qed.

(** ** What returns *)

Lemma bind_fin {A B} (m : Act W A) (k : A -> Act W B) w w' b : (m ≫= k) w = (w', Fin b) -> exists a w1, m w = (w1, Fin a) /\ k a w1 = (w', Fin b).
Proof. unfold mbind, act_bind. destruct (m w) as [w1 [a|e|]]; [|done..]. by exists a, w1. Qed.

Lemma bind_eq {A B} (m : Act W A) (k : A -> Act W B) w :
  (m ≫= k) w = match m w with (w1, Fin a) => k a w1 | (w1, Fail e) => (w1, Fail e) | (w1, Dead) => (w1, Dead) end.
Proof. done. Qed.

Lemma modify_bind {A} f (k : unit -> Act W A) w : (modify f ≫= k) w = k tt (f w).
Proof. done. Qed.

Lemma unless_bind {A} b e (k : unit -> Act W A) w : (unless b e ≫= k) w = if b then k tt w else (w, Fail e).
Proof. by destruct b. Qed.

Lemma bind_run {A B} (m : Act W A) (k : A -> Act W B) w w1 a : m w = (w1, Fin a) -> (m ≫= k) w = k a w1.
Proof. unfold mbind, act_bind. by intros ->. Qed.

Lemma ret_fin {A} (a b : A) (w w' : W) : (mret a : Act W A) w = (w', Fin b) -> b = a /\ w' = w.
Proof. by intros [= <- <-]. Qed.

Lemma unless_fin b e (w w' : W) u : unless b e w = (w', Fin u) -> b = true /\ w' = w.
Proof. unfold unless. destruct b; [|done]. by intros [= <-]. Qed.

(** Every state an action can leave is related to the one it started from. *)
Definition steps {A} (R : W -> W -> Prop) (m : Act W A) : Prop := forall w, R w (m w).1.

Lemma steps_bind {A B} R `{!PreOrder R} (m : Act W A) (k : A -> Act W B) : steps R m -> (forall a, steps R (k a)) -> steps R (m ≫= k).
Proof.
  intros H1 H2 w. specialize (H1 w). unfold mbind, act_bind. destruct (m w) as [w1 [a|e|]]; cbn in *; [|done..]. etrans; [done|apply H2].
Qed.
Lemma steps_ret {A} R `{!PreOrder R} (a : A) : steps R (mret a : Act W A).
Proof. by intros w. Qed.
Lemma steps_throw {A} R `{!PreOrder R} e : steps R (throw e : Act W A).
Proof. by intros w. Qed.
Lemma steps_get R `{!PreOrder R} : steps R (get : Act W W).
Proof. by intros w. Qed.
Lemma steps_unless R `{!PreOrder R} b e : steps R (unless b e : Act W unit).
Proof. intros w. by destruct b. Qed.
Lemma steps_attempt {A} R (m : Act W A) : steps R m -> steps R (attempt m).
Proof. intros H w. specialize (H w). unfold attempt. by destruct (m w) as [w1 [a|e|]]. Qed.
Lemma steps_for_each {A} R `{!PreOrder R} (l : list A) f : (forall x, x ∈ l -> steps R (f x)) -> steps R (for_each l f : Act W unit).
Proof.
  induction l as [|x l IH]; intros H; cbn [for_each]; [by apply steps_ret|].
  apply steps_bind; [done|apply H; left|]. intros _. apply IH. intros y Hy. apply H. by right.
Qed.
Lemma steps_fold {A B} R `{!PreOrder R} (f : B -> A -> Act W B) l b : (forall b x, steps R (f b x)) -> steps R (fold_acts f l b).
Proof. revert b. induction l as [|x l IH]; intros b H; cbn [fold_acts]; [by apply steps_ret|]. apply steps_bind; auto. Qed.
Lemma steps_sub {A} (R R' : W -> W -> Prop) (m : Act W A) : (forall w w', R w w' -> R' w w') -> steps R m -> steps R' m.
Proof. intros H Hm w. apply H, Hm. Qed.

Lemma triple_steps {A} R (m : Act W A) (P : W -> Prop) (Q : W -> Prop) : steps R m -> (forall w w', P w -> R w w' -> Q w') -> triple P m (fun _ => Q) (fun _ => Q).
Proof. intros H HR w Hw. specialize (H w). specialize (HR w _ Hw H). by destruct (m w) as [w1 [a|e|]]. Qed.
End Triples.

(** ** Reading calls *)

Section Quiet.
Context `{Oracle, HasDisk W}.

Definition recounted (w w' : W) : Prop := exists n, w' = set_calls n w.

#[export] Instance recounted_preorder : PreOrder recounted.
Proof.
  split.
  - intros w. exists (calls w). by rewrite set_calls_same.
  - intros w1 w2 w3 [n ->] [m ->]. exists m. by rewrite set_calls_set_calls.
Qed.

Local Abbreviation quiet := (steps recounted).

Lemma recounted_disk w w' : recounted w w' -> disk w' = disk w.
Proof. intros [n ->]. apply disk_set_calls. Qed.

Lemma quiet_call e : quiet (call e).
Proof. intros w. unfold call. exists (S (calls w)). by destruct (fault (calls w)). Qed.
Lemma quiet_io : quiet io.
Proof. apply quiet_call. Qed.
Lemma quiet_now : quiet now.
Proof. intros w. by exists (S (calls w)). Qed.
Lemma quiet_disk : quiet the_disk.
Proof. intros w. cbn. reflexivity. Qed.
End Quiet.

Abbreviation quiet := (steps recounted).

Create HintDb inventory discriminated.
#[export] Hint Resolve quiet_call quiet_io quiet_now quiet_disk : inventory.

(** One rule per construct; the leaves are hints.  [steps_hook] is for the rules a client
    adds. *)
Ltac steps_hook := fail.
Ltac step_through :=
  repeat (cbv zeta; first
    [ solve [eauto 3 with inventory nocore]
    | steps_hook
    | apply steps_ret; [typeclasses eauto] | apply steps_throw; [typeclasses eauto] | apply steps_get; [typeclasses eauto]
    | apply steps_unless; [typeclasses eauto] | apply steps_attempt
    | apply steps_bind; [typeclasses eauto| |intros ?]
    | apply steps_for_each; [typeclasses eauto|intros ? ?]
    | apply steps_fold; [typeclasses eauto|intros ? ?]
    | case_match ]).

Section Reads.
Context `{Oracle, HasDisk W}.

Lemma quiet_absolute p : quiet (absolute p).
Proof. unfold absolute. step_through. Qed.
Lemma quiet_open_at d n b : quiet (open_at d n b).
Proof. unfold open_at. step_through. Qed.
Lemma quiet_metadata h : quiet (metadata h).
Proof. unfold metadata. step_through. Qed.
#[local] Hint Resolve quiet_absolute quiet_open_at quiet_metadata : inventory.
Lemma quiet_open_dir p : quiet (open_dir p).
Proof. unfold open_dir. step_through. Qed.
Lemma quiet_names p : quiet (names p).
Proof. unfold names. step_through. Qed.
Lemma quiet_sync_directory p : quiet (sync_directory p).
Proof. unfold sync_directory. step_through. Qed.
Lemma quiet_symlink_metadata p : quiet (symlink_metadata p).
Proof. unfold symlink_metadata. step_through. Qed.
Lemma quiet_try_exists p : quiet (try_exists p).
Proof. unfold try_exists. step_through. Qed.
#[local] Hint Resolve quiet_open_dir quiet_names quiet_sync_directory quiet_try_exists : inventory.
Lemma quiet_exists p : quiet (exists_ p).
Proof. unfold exists_. step_through. Qed.
Lemma quiet_available p : quiet (available_bytes p).
Proof. unfold available_bytes. step_through. Qed.
Lemma quiet_read_all p : quiet (read_all p).
Proof. unfold read_all. step_through. Qed.

Lemma quiet_walk_names rec dir prefix limit ns out : (forall h p o, quiet (rec h p o)) -> quiet (walk_names rec dir prefix limit ns out).
Proof. intros Hr. revert out. induction ns as [|n ns IH]; intros out; cbn [walk_names]; step_through; auto. Qed.
Lemma quiet_walk room limit dir prefix out : quiet (walk room limit dir prefix out).
Proof.
  revert dir prefix out. induction room as [|room IH]; intros dir prefix out; cbn [walk]; [step_through|].
  apply steps_bind; [typeclasses eauto|step_through|]. intros ns. by apply quiet_walk_names.
Qed.
#[local] Hint Resolve quiet_walk : inventory.
Lemma quiet_manifest dir limit : quiet (manifest dir limit).
Proof. unfold manifest. step_through. Qed.
Lemma quiet_open_parts dir p : quiet (open_parts dir p).
Proof. revert dir. induction p as [|c p IH]; intros dir; cbn [open_parts]; step_through; auto. Qed.
#[local] Hint Resolve quiet_open_parts : inventory.
Lemma quiet_open_relative dir p : quiet (open_relative dir p).
Proof. unfold open_relative. step_through. Qed.

(** ** What reading calls return *)

Lemma io_eq w : io w =
  (set_calls (S (calls w)) w, match fault (calls w) with Fine => Fin (calls w) | Fails => Fail (Io IoOther) | Dies => Dead end).
Proof. done. Qed.

Lemma disk_bind {A} (k : Disk -> Act W A) w : (the_disk ≫= k) w = k (disk w) w.
Proof. done. Qed.

Lemma io_fin e w w' n : call e w = (w', Fin n) -> recounted w w'.
Proof. intros Hc. pose proof (quiet_call e w) as Hq. by rewrite Hc in Hq. Qed.

Lemma quiet_fin {A} (m : Act W A) w w' a : quiet m -> m w = (w', Fin a) -> disk w' = disk w.
Proof. intros Hm Hr. specialize (Hm w). rewrite Hr in Hm. by apply recounted_disk. Qed.

Lemma open_at_fin dir n b w w' h : open_at dir n b w = (w', Fin h) ->
  h = child dir n /\ exists e, disk w !! child dir n = Some e /\ (b = true -> is_dir e = true).
Proof.
  unfold open_at. intros (k & w1 & Hio & H2)%bind_fin. rewrite disk_bind, (recounted_disk _ _ (io_fin _ _ _ _ Hio)) in H2.
  destruct (disk w !! dir) as [pe|], (disk w !! child dir n) as [e|]; try done.
  destruct (is_dir pe); [|done]. cbn [negb] in H2. unfold is_dir. destruct (en_kind e) eqn:Ek, b; try done; apply ret_fin in H2 as [-> _]; split; try done; exists e; by rewrite Ek.
Qed.

Lemma metadata_fin h w w' e : metadata h w = (w', Fin e) -> disk w !! h = Some e.
Proof.
  unfold metadata. intros (k & w1 & Hio & H2)%bind_fin. rewrite disk_bind, (recounted_disk _ _ (io_fin _ _ _ _ Hio)) in H2.
  destruct (disk w !! h); [|done]. by apply ret_fin in H2 as [-> _].
Qed.

Lemma open_parts_fin p : forall dir w w' h, open_parts dir p w = (w', Fin h) -> h = dir ++ p.
Proof.
  induction p as [|c p IH]; intros dir w w' h; cbn [open_parts]; [by intros [-> _]%ret_fin; rewrite app_nil_r|].
  intros (d & w1 & (-> & _)%open_at_fin & H2)%bind_fin. apply IH in H2 as ->. unfold child. by rewrite <- app_assoc.
Qed.

Lemma open_relative_fin dir p w w' h : open_relative dir p w = (w', Fin h) -> h = dir ++ p.
Proof. unfold open_relative. by intros (u & w1 & _ & (k & w2 & _ & H3%open_parts_fin)%bind_fin)%bind_fin. Qed.

Lemma open_dirs_fin p : forall base w w' h, fold_acts (fun dir name => open_at dir name true) p base w = (w', Fin h) ->
  h = base ++ p /\ (p <> [] -> exists e, disk w !! h = Some e /\ is_dir e = true).
Proof.
  induction p as [|c p IH]; intros base w w' h; cbn [fold_acts]; [intros [= <- <-]; by rewrite app_nil_r|].
  intros (d & w1 & H1 & H2)%bind_fin. pose proof (quiet_fin _ _ _ _ (quiet_open_at _ _ _) H1) as Hd.
  apply open_at_fin in H1 as (-> & e & He & Hk). apply IH in H2 as [-> H2]. unfold child. rewrite <- app_assoc. split; [done|]. intros _.
  destruct p as [|c' p]; [exists e; rewrite app_nil_r; split; [done|by apply Hk]|]. rewrite Hd in H2. unfold child in H2. rewrite <- app_assoc in H2. by apply H2.
Qed.

Lemma open_dir_fin p w w' h : open_dir p w = (w', Fin h) -> h = p /\ (p <> [] -> exists e, disk w !! p = Some e /\ is_dir e = true).
Proof.
  unfold open_dir. intros (u & w1 & H1 & (k & w2 & H2 & H3)%bind_fin)%bind_fin.
  apply (quiet_fin _ _ _ _ (quiet_absolute _)) in H1. apply io_fin, recounted_disk in H2.
  apply open_dirs_fin in H3 as [-> H3]. split; [done|]. intros Hp. rewrite H2, H1 in H3. by apply H3.
Qed.

Lemma names_fin dir w w' ns : names dir w = (w', Fin ns) -> ns = children (disk w) dir.
Proof.
  unfold names. intros (k & w1 & Hio & H2)%bind_fin. rewrite disk_bind, (recounted_disk _ _ (io_fin _ _ _ _ Hio)) in H2.
  apply bind_fin in H2 as (u & w2 & H2 & H3). by apply ret_fin in H3 as [-> _].
Qed.

(** ** Manifests list what is there *)

Definition listed (d : Disk) (dir : path) (f : FileEntry) : Prop :=
  exists e, d !! (dir ++ fe_path f) = Some e /\ fe_identity f = identity e /\ fe_path f <> [] /\ (is_file e || is_dir e = true) /\ fe_digest f = None.

Lemma walk_names_fin (d : Disk) (root : path) limit rec :
  (forall p out w w' out', disk w = d -> Forall (listed d root) out -> rec (root ++ p) p out w = (w', Fin out') -> disk w' = d /\ Forall (listed d root) out') ->
  forall ns p out w w' out', disk w = d -> Forall (listed d root) out -> walk_names rec (root ++ p) p limit ns out w = (w', Fin out') ->
  disk w' = d /\ Forall (listed d root) out'.
Proof.
  intros Hrec. induction ns as [|n ns IH]; intros p out w w' out' Hw Hout; cbn [walk_names]; [by intros [-> ->]%ret_fin|].
  intros (u & w1 & H1 & (h & w2 & H2 & (e & w3 & H3 & (u' & w4 & H4 & (o & w5 & H5 & H6)%bind_fin)%bind_fin)%bind_fin)%bind_fin)%bind_fin.
  apply unless_fin in H1 as [_ ->]. pose proof (quiet_fin _ _ _ _ (quiet_open_at _ _ _) H2) as Q2. apply open_at_fin in H2 as (-> & _).
  pose proof (quiet_fin _ _ _ _ (quiet_metadata _) H3) as Q3. apply metadata_fin in H3. apply unless_fin in H4 as [Hk ->].
  unfold child in *. rewrite Q2, Hw, <- app_assoc in H3. rewrite <- app_assoc in H5.
  assert (Hout2 : Forall (listed d root) (out ++ [mkFileEntry (p ++ [n]) (identity e) None])).
  { apply Forall_app. split; [done|]. constructor; [|done]. exists e. cbn. split_and!; try done. by destruct p. }
  assert (Hm : disk w5 = d /\ Forall (listed d root) o).
  { destruct (is_dir e); [apply Hrec in H5; [done|congruence|done]|]. apply ret_fin in H5 as [-> ->]. split; [congruence|done]. }
  destruct Hm as [R5 Ho]. by apply IH in H6.
Qed.

Lemma walk_fin d root limit room : forall p out w w' out', disk w = d -> Forall (listed d root) out -> walk room limit (root ++ p) p out w = (w', Fin out') ->
  disk w' = d /\ Forall (listed d root) out'.
Proof.
  induction room as [|room IH]; intros p out w w' out' Hw Hout; cbn [walk]; [done|].
  intros (ns & w1 & H1 & H2)%bind_fin. apply (quiet_fin _ _ _ _ (quiet_names _)) in H1. eapply walk_names_fin in H2; [done|exact IH|congruence|done].
Qed.

Lemma manifest_fin dir limit w w' l : manifest dir limit w = (w', Fin l) -> Forall (listed (disk w) dir) l.
Proof.
  unfold manifest. intros (o & w1 & H1 & [-> _]%ret_fin)%bind_fin. replace dir with (dir ++ []) in H1 by apply app_nil_r.
  apply walk_fin with (d := disk w) in H1 as [_ H1]; [|done..]. unfold sort_entries. by rewrite merge_sort_Permutation.
Qed.
End Reads.

#[export] Hint Resolve quiet_absolute quiet_open_at quiet_metadata quiet_open_dir quiet_names quiet_sync_directory quiet_symlink_metadata
  quiet_try_exists quiet_exists quiet_available quiet_read_all quiet_manifest quiet_open_relative : inventory.

(** ** What changes the disk *)

Definition same_entry (e e' : Entry) : Prop :=
  en_kind e' = en_kind e /\ en_device e' = en_device e /\ en_inode e' = en_inode e /\ (is_dir e = true \/ e' = e).

#[export] Instance same_entry_preorder : PreOrder same_entry.
Proof.
  split; [by intros e; repeat split; right|]. intros e1 e2 e3 (H1 & H2 & H3 & H4) (K1 & K2 & K3 & K4).
  repeat split; [congruence..|]. unfold is_dir in *. destruct H4 as [H4| ->]; [by left|]. destruct K4 as [K4| ->]; [by left|by right].
Qed.

(** Nothing disappears; only directories may get new sizes and times. *)
Definition kept (d d' : Disk) : Prop := forall p e, d !! p = Some e -> exists e', d' !! p = Some e' /\ same_entry e e'.

#[export] Instance kept_preorder : PreOrder kept.
Proof.
  split; [intros d p e He; by exists e|]. intros d1 d2 d3 H1 H2 p e He. destruct (H1 p e He) as (e2 & He2 & S2).
  destruct (H2 p e2 He2) as (e3 & He3 & S3). exists e3. split; [done|by etrans].
Qed.

Lemma same_entry_identity e e' i : same_entry e e' -> same_object i (identity e') = same_object i (identity e).
Proof. intros (H1 & H2 & H3 & _). unfold same_object, identity, is_dir. cbn. by rewrite H1, H2, H3. Qed.

Section Writes.
Context `{Oracle, HasDisk W}.

Lemma touch_dir_same n e : same_entry e (touch_dir n e).
Proof. unfold touch_dir. destruct (is_dir e) eqn:E; [by repeat split; left|done]. Qed.

Lemma touched_kept n p d : kept d (touched n p d).
Proof.
  intros q e He. unfold touched. destruct (decide (p = q)) as [->|Hne].
  - exists (touch_dir n e). rewrite lookup_alter_eq, He. split; [done|apply touch_dir_same].
  - exists e. by rewrite lookup_alter_ne.
Qed.

Lemma insert_kept d p e : d !! p = None -> kept d (<[p := e]> d).
Proof. intros Hn q e' Hq. exists e'. split; [|done]. rewrite lookup_insert_ne; [done|congruence]. Qed.

Lemma added_kept (n : nat) (p q : path) (e pe : Entry) (d : Disk) : d !! p = None -> d !! q = Some pe -> kept d (<[p := e]> (<[q := touch_dir n pe]> d)).
Proof.
  intros Hp Hq. assert (p <> q) by congruence. rewrite insert_insert_ne by done. etrans; [by apply (insert_kept d p e)|].
  intros r x Hx. destruct (decide (q = r)) as [->|Hne].
  - rewrite lookup_insert_ne, Hq in Hx by done. injection Hx as <-. exists (touch_dir n pe). rewrite lookup_insert_eq. split; [done|apply touch_dir_same].
  - exists x. by rewrite lookup_insert_ne.
Qed.

(** The disk has only grown. *)
Definition grown (w w' : W) : Prop := exists n d, w' = set_calls n (set_disk d w) /\ kept (disk w) d.

#[export] Instance grown_preorder : PreOrder grown.
Proof.
  split.
  - intros w. exists (calls w), (disk w). by rewrite set_disk_same, set_calls_same.
  - intros w1 w2 w3 (n & d & -> & K1) (m & d' & -> & K2). exists m, d'. rewrite disk_set_calls, disk_set_disk in K2.
    rewrite set_disk_set_calls, set_calls_set_calls, set_disk_set_disk. split; [done|by etrans].
Qed.

Lemma recounted_grown w w' : recounted w w' -> grown w w'.
Proof. intros [n ->]. exists n, (disk w). by rewrite set_disk_same. Qed.

Lemma put_grown d w w' : recounted w w' -> kept (disk w) d -> grown w (set_disk d w').
Proof. intros [n ->] Hd. exists n, d. by rewrite set_disk_set_calls. Qed.

Lemma create_dir_grown p : steps grown (create_dir p).
Proof.
  intros w. unfold create_dir. rewrite bind_eq, io_eq. destruct (fault _); [|by apply recounted_grown; eexists..].
  rewrite disk_bind, disk_set_calls. destruct (disk w !! p) eqn:Ep, (disk w !! parent p) as [pe|] eqn:Epp; try (by apply recounted_grown; eexists).
  rewrite unless_bind. destruct (is_dir _); [|by apply recounted_grown; eexists]. apply put_grown; [by eexists|by apply added_kept].
Qed.

Lemma write_new_grown p data : steps grown (write_new p data).
Proof.
  intros w. unfold write_new. rewrite bind_eq, io_eq. destruct (fault _); [|by apply recounted_grown; eexists..].
  rewrite disk_bind, disk_set_calls. destruct (disk w !! p) eqn:Ep, (disk w !! parent p) as [pe|] eqn:Epp; try (by apply recounted_grown; eexists).
  rewrite unless_bind. destruct (is_dir _); [|by apply recounted_grown; eexists]. rewrite modify_bind, bind_eq, io_eq.
  transitivity (set_disk (<[p:=mkEntry (en_device pe) (fresh_inode (calls w)) (Z.of_nat (length data)) (wall (calls w), 0) Regular data]>
      (<[parent p:=touch_dir (calls w) pe]> (disk w))) (set_calls (S (calls w)) w)).
  - apply put_grown; [by eexists|by apply added_kept].
  - destruct (fault _); apply recounted_grown; by eexists.
Qed.

Lemma create_dirs_grown dir p : steps grown (create_dirs dir p).
Proof.
  revert dir. induction p as [|c p IH]; intros dir; cbn [create_dirs]; [apply steps_ret, _|].
  apply steps_bind; [apply _|by intros w|]. intros d. apply steps_bind; [apply _|case_match; [apply steps_unless, _|apply create_dir_grown]|]. intros _. apply IH.
Qed.

Lemma create_dir_all_grown p : steps grown (create_dir_all p).
Proof.
  apply steps_bind; [apply _|eapply steps_sub; [apply recounted_grown|apply quiet_io]|]. intros _. apply create_dirs_grown.
Qed.

Lemma rename_cases from to w : recounted w (rename_exclusive from to w).1 \/
  exists d n, disk w !! to = None /\ kept (moved from to (disk w)) d /\ (rename_exclusive from to w).1 = set_calls n (set_disk d w).
Proof.
  unfold rename_exclusive. rewrite bind_eq. pose proof (quiet_open_dir (parent from) w) as Q1. destruct (open_dir (parent from) w) as [w1 [s|e|]]; [|by left..].
  rewrite bind_eq. pose proof (quiet_open_dir (parent to) w1) as Q2. destruct (open_dir (parent to) w1) as [w2 [t|e|]]; [|left; by etrans..].
  assert (Q : recounted w w2) by (by etrans). clear Q1 Q2 w1. rewrite bind_eq. pose proof (quiet_io w2) as Q3.
  destruct (io w2) as [w3 [n|e|]]; [|left; by etrans..]. assert (Q4 : recounted w w3) by (by etrans). clear Q Q3 w2. rewrite disk_bind, (recounted_disk _ _ Q4).
  destruct (disk w !! from) as [e|]; [|by left]. destruct (disk w !! to) eqn:Et; [by left|]. rewrite unless_bind.
  destruct (negb _); [|by left]. destruct (disk w !! t) as [te|]; [|by left]. rewrite unless_bind.
  destruct (en_device e =? en_device te); [|by left]. destruct Q4 as [m ->]. right. rewrite modify_bind, set_disk_set_calls, bind_eq, io_eq.
  eexists (touched n s (touched n t (moved from to (disk w)))). destruct (fault _).
  - rewrite bind_eq, io_eq. eexists. split_and!; [done|etrans; apply touched_kept|]. destruct (fault _); cbn; by rewrite !set_calls_set_calls.
  - eexists. split_and!; [done|etrans; apply touched_kept|]. cbn. by rewrite !set_calls_set_calls.
  - eexists. split_and!; [done|etrans; apply touched_kept|]. cbn. by rewrite !set_calls_set_calls.
Qed.

Lemma unlink_cases p n b w : recounted w (unlink p n b w).1 \/
  exists e k m, disk w !! child p n = Some e /\ is_dir e = b /\ (b = true -> children (disk w) (child p n) = []) /\
    (unlink p n b w).1 = set_calls m (set_disk (unlinked k p n (disk w)) w).
Proof.
  unfold unlink. rewrite bind_eq, io_eq. destruct (fault (calls w)); [|left; by exists (S (calls w))..].
  rewrite disk_bind, disk_set_calls. destruct (disk w !! child p n) as [e|] eqn:He; [|left; by exists (S (calls w))].
  rewrite !unless_bind. destruct (eqb b (is_dir e)) eqn:Hb; [|left; by exists (S (calls w))]. apply eqb_prop in Hb.
  destruct (negb b || bool_decide (children (disk w) (child p n) = [])) eqn:Hc; [|left; by exists (S (calls w))].
  right. exists e, (calls w). rewrite modify_bind, set_disk_set_calls, bind_eq, io_eq. eexists. split_and!; [done|done|..].
  - intros ->. cbn in Hc. by apply bool_decide_eq_true in Hc.
  - rewrite !set_calls_set_calls. by destruct (fault _).
Qed.
End Writes.

#[export] Hint Resolve create_dir_grown write_new_grown create_dir_all_grown : inventory.
