(* ===== verification/Authority.v ===== *)
(** * What the inventory may remove

    Every operation of the inventory leaves the entries of the disk where they are,
    moves a directory as a whole, or removes one entry that the state of that moment
    authorizes: [careful]. *)

From S2P Require Import Prelude RustStr Tree PayloadFs Custody Inventory Deletion Handoff Upkeep PayloadLogic.

#[local] Unset Default Proof Using.

Section Authority.
Context {O : Oracle} {T : Site} {C : Codec}.

(** ** Authority *)

Definition at_object (d : Disk) (p : path) (i : option Identity) : Prop := exists e, d !! p = Some e /\ same_identity i (identity e) = true.

(** What [verify] checks of a payload, apart from its root. *)
Record trusted (w : World) (a : Artifact) : Prop := {
  tr_unprotected : forall roots, db_protected_roots (w_db w) = Some roots -> protected roots (ar_path a) = false;
  tr_payload : at_object (w_disk w) (ar_path a) (ar_identity a);
  tr_marker : exists s, w_sidecars w !! (ar_id a, ar_generation a) = Some s /\ marker_matches a s = true
}.

(** An entry of the manifest, unchanged where it is a file. *)
Definition listed_entry (a : Artifact) (p : path) (e : Entry) : Prop :=
  exists f, f ∈ ar_files a /\ p = ar_path a ++ fe_path f /\ same_object (fe_identity f) (identity e) = true
    /\ (is_dir e = true \/ fe_identity f = identity e).

(** The payload directory itself, by its identity, with nothing left in it. *)
Definition emptied (d : Disk) (a : Artifact) (p : path) : Prop := at_object d p (ar_identity a) /\ children d p = [].

(** A file the consumer has acknowledged, with the content it acknowledged; or an empty
    directory of the manifest. *)
Definition acknowledged (d : Disk) (r : Recovery) (receipt : Receipt) (a : Artifact) (p : path) (e : Entry) : Prop :=
  (is_dir e = true /\ children d p = [] /\ listed_entry a p e)
  \/ exists f selected imported, f ∈ ar_files a /\ p = ar_path a ++ fe_path f /\ fe_identity f = identity e
     /\ imported ∈ rc_files receipt /\ receipt_taken (rc_result imported) = true
     /\ selected ∈ rv_files r /\ rf_id selected = rc_id imported /\ rf_path selected = fe_path f /\ sha256 (en_data e) = rf_sha256 selected.

Inductive authorized (w : World) (p : path) (e : Entry) : Prop :=
| by_deletion a op :
    db_artifacts (w_db w) !! op_artifact op = Some a -> db_operations (w_db w) !! op_id op = Some op ->
    op_kind op = lit "delete" -> op_state op = lit "running" ->
    ar_owned a = true -> ar_keep a = false -> ar_hold a = None -> trusted w a ->
    listed_entry a p e \/ emptied (w_disk w) a p ->
    authorized w p e
| by_receipt a r receipt :
    db_artifacts (w_db w) !! rv_artifact r = Some a -> db_recoveries (w_db w) !! rv_id r = Some r ->
    one_of ["imported"; "partial"]%string (rv_state r) = true -> rv_receipt r = Some receipt ->
    ar_owned a = true -> ar_keep a = false -> prunable_hold r (ar_hold a) = true -> trusted w a ->
    acknowledged (w_disk w) r receipt a p e \/ emptied (w_disk w) a p ->
    authorized w p e.

(** ** Careful steps *)

Inductive careful_step (w w' : World) : Prop :=
| step_kept : kept (w_disk w) (w_disk w') -> careful_step w w'
| step_moved from to : w_disk w !! to = None -> kept (moved from to (w_disk w)) (w_disk w') -> careful_step w w'
| step_removed p e : w_disk w !! p = Some e -> authorized w p e -> kept (delete p (w_disk w)) (w_disk w') -> careful_step w w'.

(** Rows are stored under their own keys. *)
Record keyed (w : World) : Prop := {
  k_artifacts : forall k a, db_artifacts (w_db w) !! k = Some a -> ar_id a = k;
  k_operations : forall k o, db_operations (w_db w) !! k = Some o -> op_id o = k;
  k_recoveries : forall k r, db_recoveries (w_db w) !! k = Some r -> rv_id r = k
}.

Definition careful (w w' : World) : Prop := keyed w -> keyed w' /\ rtc careful_step w w'.

#[export] Instance careful_preorder : PreOrder careful.
Proof.
  split; [by intros w Hk; split|]. intros w1 w2 w3 H1 H2 Hk. destruct (H1 Hk) as [K2 R1]. destruct (H2 K2) as [K3 R2]. split; [done|by etrans].
Qed.

(** Most operations remove nothing at all. *)
Definition harmless (w w' : World) : Prop := (keyed w -> keyed w') /\ kept (w_disk w) (w_disk w').

#[export] Instance harmless_preorder : PreOrder harmless.
Proof.
  split; [by intros w; split|]. intros w1 w2 w3 [H1 H2] [K1 K2]. split; [auto|by etrans].
Qed.

Lemma harmless_careful {A} (m : Act World A) : steps harmless m -> steps careful m.
Proof. intros Hm w Hk. destruct (Hm w) as [K1 K2]. split; [auto|]. apply rtc_once. by apply step_kept. Qed.

Lemma recounted_harmless {A} (m : Act World A) : quiet m -> steps harmless m.
Proof. intros Hm w. destruct (Hm w) as [n ->]. split; [intros []; by split|]. intros p e He. by exists e. Qed.

Lemma modify_harmless (f : World -> World) : (forall w, harmless w (f w)) -> steps harmless (modify f).
Proof. intros Hf w. apply Hf. Qed.

Lemma write_db_harmless f : (forall w, keyed w -> keyed (put_db (f (w_db w)) w)) -> steps harmless (write_db f).
Proof.
  intros Hf. unfold write_db. apply steps_bind; [typeclasses eauto|apply recounted_harmless, quiet_call|]. intros _.
  apply modify_harmless. intros w. by split; [apply Hf|].
Qed.

Lemma transaction_harmless {A} (body : Act World A) : steps harmless body -> steps harmless (transaction body).
Proof.
  intros Hb. unfold transaction, sql. apply steps_bind; [typeclasses eauto|apply recounted_harmless, quiet_call|]. intros _ w.
  assert (Hc : steps harmless (a ← body; _ ← call Sql; mret a)).
  { apply steps_bind; [typeclasses eauto|done|]. intros a. apply steps_bind; [typeclasses eauto|apply recounted_harmless, quiet_call|].
    intros _. apply steps_ret. typeclasses eauto. }
  specialize (Hc w). unfold or_undo. destruct ((a ← body; _ ← call Sql; mret a) w) as [w' [a|e|]]; cbn in *; [done|..];
    destruct Hc as [_ Hk]; (split; [intros []; by split|done]).
Qed.

Lemma save_artifact_harmless a : steps harmless (save_artifact a).
Proof.
  apply write_db_harmless. intros w []; split; cbn; try done. intros k x. rewrite lookup_insert_Some. intros [[<- <-]|[_ Hx]]; [done|auto].
Qed.
Lemma save_operation_harmless o : steps harmless (save_operation o).
Proof.
  apply write_db_harmless. intros w []; split; cbn; try done. intros k x. rewrite lookup_insert_Some. intros [[<- <-]|[_ Hx]]; [done|auto].
Qed.
Lemma save_recovery_harmless r : steps harmless (save_recovery r).
Proof.
  apply write_db_harmless. intros w []; split; cbn; try done. intros k x. rewrite lookup_insert_Some. intros [[<- <-]|[_ Hx]]; [|auto].
  unfold merged. by repeat case_match.
Qed.

(** ** Operations that remove nothing *)

#[local] Hint Resolve recounted_harmless harmless_careful transaction_harmless save_artifact_harmless save_operation_harmless save_recovery_harmless : inventory.

(** Transactions on the way are entered; plain writes leave the rows alone. *)
Ltac steps_hook ::= first [apply transaction_harmless | apply harmless_careful, transaction_harmless | by apply write_db_harmless; intros w []].

Lemma quiet_sql : quiet sql.
Proof. apply quiet_call. Qed.
Lemma quiet_database : quiet database.
Proof. intros w. cbn. reflexivity. Qed.
Lemma quiet_get : quiet (get : Act World World).
Proof. intros w. cbn. reflexivity. Qed.
Lemma quiet_guard : quiet mutation_guard.
Proof. unfold mutation_guard. step_through. Qed.
#[local] Hint Resolve quiet_sql quiet_database quiet_get quiet_guard : inventory.
Lemma quiet_new_id : quiet new_id.
Proof. unfold new_id. step_through. Qed.
Lemma quiet_get_artifact k : quiet (get_artifact k).
Proof. unfold get_artifact. step_through. Qed.
Lemma quiet_operation k : quiet (operation k).
Proof. unfold operation. step_through. Qed.
Lemma quiet_recovery k : quiet (recovery k).
Proof. unfold recovery. step_through. Qed.
Lemma quiet_settings : quiet settings.
Proof. unfold settings. step_through. Qed.
Lemma quiet_for_job j : quiet (for_job j).
Proof. unfold for_job. step_through. Qed.
Lemma quiet_read_sidecar a : quiet (read_sidecar a).
Proof. unfold read_sidecar. step_through. Qed.
Lemma quiet_verify_root a : quiet (verify_root a).
Proof. unfold verify_root. step_through. Qed.
#[local] Hint Resolve quiet_new_id quiet_get_artifact quiet_operation quiet_recovery quiet_settings quiet_for_job quiet_read_sidecar quiet_verify_root : inventory.
Lemma quiet_verify a : quiet (verify a).
Proof. unfold verify. step_through. Qed.
Lemma quiet_digest h : quiet (digest h).
Proof. unfold digest. step_through. Qed.
#[local] Hint Resolve quiet_verify quiet_digest : inventory.

Lemma event_harmless x y z : steps harmless (event x y z).
Proof.
  unfold event. apply steps_bind; [typeclasses eauto|auto with inventory|]. intros n. apply write_db_harmless. by intros w [].
Qed.
Lemma sidecar_harmless a : steps harmless (sidecar a).
Proof. unfold sidecar. step_through. apply modify_harmless. intros w. by split; [intros []|]. Qed.
Lemma grown_harmless {A} (m : Act World A) : steps grown m -> steps harmless m.
Proof. intros Hm w. destruct (Hm w) as (n & d & -> & Hk). split; [by intros []|]. done. Qed.
Lemma modify_sidecars_harmless f : steps harmless (modify (fun w => put_sidecars (f w) w)).
Proof. apply modify_harmless. intros w. by split; [intros []|]. Qed.
Lemma modify_clocks_harmless f : steps harmless (modify (fun w => put_clocks (f w) w)).
Proof. apply modify_harmless. intros w. by split; [intros []|]. Qed.
Lemma modify_cursor_harmless c : steps harmless (modify (put_cursor c)).
Proof. apply modify_harmless. intros w. by split; [intros []|]. Qed.
Lemma drop_sidecars_harmless id : steps harmless (modify (drop_sidecars id)).
Proof. apply modify_harmless. intros w. by split; [intros []|]. Qed.
#[local] Hint Resolve modify_cursor_harmless drop_sidecars_harmless event_harmless sidecar_harmless grown_harmless modify_sidecars_harmless modify_clocks_harmless : inventory.

Lemma allocate_harmless job root p : steps harmless (allocate job root p).
Proof. unfold allocate. step_through. Qed.
Lemma discover_record_harmless root p b : steps harmless (discover_record root p b).
Proof. unfold discover_record. step_through. Qed.
#[local] Hint Resolve discover_record_harmless : inventory.
Lemma discover_harmless root p b : steps harmless (discover root p b).
Proof. unfold discover. step_through. Qed.
#[local] Hint Resolve discover_harmless : inventory.
Lemma register_legacy_harmless job root p : steps harmless (register_legacy_active job root p).
Proof. unfold register_legacy_active. step_through. Qed.
Lemma reconcile_row_harmless live a : steps harmless (reconcile_row live a).
Proof. unfold reconcile_row. step_through. Qed.
#[local] Hint Resolve reconcile_row_harmless : inventory.
Lemma reconcile_allocations_harmless jobs : steps harmless (reconcile_allocations jobs).
Proof. unfold reconcile_allocations. step_through. Qed.
Lemma prepare_forget_harmless job : steps harmless (prepare_forget job).
Proof. unfold prepare_forget. step_through. Qed.
Lemma reconcile_missing_harmless : steps harmless reconcile_missing.
Proof. unfold reconcile_missing. step_through. Qed.
Lemma finish_harmless job p root state : steps harmless (finish job p root state).
Proof. unfold finish. step_through. Qed.
Lemma inspect_harmless key : steps harmless (inspect key).
Proof. unfold inspect. step_through. Qed.
Lemma adopt_harmless key revision : steps harmless (adopt key revision).
Proof. unfold adopt. step_through. Qed.
Lemma retention_harmless key revision keep seconds : steps harmless (retention key revision keep seconds).
Proof. unfold retention. step_through. Qed.
Lemma release_review_harmless key revision : steps harmless (release_review key revision).
Proof. unfold release_review. step_through. Qed.
Lemma request_delete_harmless key revision id undo auto : steps harmless (request_delete_authorized key revision id undo auto).
Proof. unfold request_delete_authorized. step_through. Qed.
Lemma cancel_delete_harmless key : steps harmless (cancel_delete key).
Proof. unfold cancel_delete. step_through. Qed.
Lemma quarantine_recoveries_harmless : steps harmless (write_db (fun d => put_recoveries (quarantine_recovery <$> db_recoveries d) d)).
Proof.
  apply write_db_harmless. intros w []; split; cbn; try done. intros k r. rewrite lookup_fmap_Some. intros (r0 & <- & Hr).
  unfold quarantine_recovery. case_match; cbn; eauto.
Qed.
#[local] Hint Resolve quarantine_recoveries_harmless : inventory.
Lemma quarantine_harmless : steps harmless quarantine_restore.
Proof. unfold quarantine_restore. step_through. Qed.
Lemma compact_harmless : steps harmless compact.
Proof. unfold compact. step_through. Qed.
Lemma set_settings_harmless x : steps harmless (set_settings x).
Proof. unfold set_settings. step_through. Qed.
Lemma protect_roots_harmless x : steps harmless (protect_roots x).
Proof. unfold protect_roots. step_through. Qed.
Lemma configure_scan_harmless x : steps harmless (configure_scan x).
Proof. unfold configure_scan. step_through. Qed.
Lemma preview_retention_harmless x : steps harmless (preview_retention x).
Proof. unfold preview_retention. step_through. Qed.
Lemma apply_retention_harmless x : steps harmless (apply_retention x).
Proof. unfold apply_retention, apply_change. step_through. Qed.
Lemma submit_task_harmless k a i t : steps harmless (submit_task k a i t).
Proof. unfold submit_task. step_through. Qed.
Lemma schedule_discovery_harmless : steps harmless schedule_discovery.
Proof. unfold schedule_discovery. pose proof submit_task_harmless. step_through. Qed.
Lemma scan_harmless roots excluded active : steps harmless (scan roots excluded active).
Proof. unfold scan, scan_root, scan_entry. step_through. Qed.
Lemma count_time_harmless on : steps harmless (count_time on).
Proof.
  unfold count_time, count_row, mono. step_through.
  all: apply modify_harmless; intros w; by split; [intros []|].
Qed.
Lemma claim_harmless k c i m : steps harmless (claim_recovery k c i m).
Proof. unfold claim_recovery. step_through. Qed.
Lemma receipt_harmless k c r : steps harmless (recovery_receipt k c r).
Proof. unfold recovery_receipt, lift_result. step_through. Qed.
Lemma hold_source_harmless k : steps harmless (hold_source k).
Proof. unfold hold_source. step_through. Qed.
Lemma hold_staged_harmless r : steps harmless (hold_staged r).
Proof. unfold hold_staged. step_through. Qed.
Lemma record_scratch_harmless p : steps harmless (record_scratch p).
Proof. unfold record_scratch. step_through. Qed.
#[local] Hint Resolve hold_source_harmless hold_staged_harmless record_scratch_harmless : inventory.
Lemma cancel_recovery_harmless k c b : steps harmless (cancel_recovery k c b).
Proof. unfold cancel_recovery. step_through. Qed.
Lemma register_publication_harmless r : steps harmless (register_publication r).
Proof. unfold register_publication. step_through. Qed.
Lemma stage_finish_harmless root r x : steps harmless (stage_finish root r x).
Proof. unfold stage_finish. step_through. Qed.
#[local] Hint Resolve register_publication_harmless stage_finish_harmless : inventory.

(** ** Deleting with authority *)

Lemma put_calls_db n w : w_db (put_calls n w) = w_db w.
Proof. done. Qed.

Lemma sql_quiet_db {A} (m : Act World A) w : quiet m -> w_db (m w).1 = w_db w /\ w_sidecars (m w).1 = w_sidecars w /\ w_disk (m w).1 = w_disk w.
Proof. intros Hm. destruct (Hm w) as [n ->]. done. Qed.

(** A reading call in the middle of a specification. *)
Lemma triple_quiet {A} (J : World -> Prop) (m : Act World A) (Phi : A -> World -> Prop) :
  quiet m -> (forall w n, J w -> J (put_calls n w)) -> (forall w w' a, J w -> m w = (w', Fin a) -> Phi a w') ->
  triple J m (fun a w => J w /\ Phi a w) (fun _ => J).
Proof.
  intros Hm Hs Hf w Hw. destruct (Hm w) as [n Hn]. destruct (m w) as [w' [a|e|]] eqn:E; cbn in Hn; subst w'; [|by apply Hs..].
  split; [by apply Hs|by eapply Hf].
Qed.

(** The same, bound to what follows. *)
Lemma triple_read {A B} (J : World -> Prop) (m : Act World A) (Phi : A -> Prop) (k : A -> Act World B) Q F :
  quiet m -> (forall w n, J w -> J (put_calls n w)) -> (forall w w' a, m w = (w', Fin a) -> Phi a) -> (forall e w, J w -> F e w) ->
  (forall a, Phi a -> triple J (k a) Q F) -> triple J (m ≫= k) Q F.
Proof.
  intros Hm Hs Hf HF Hk. eapply triple_mbind.
  - eapply triple_conseq; [apply (triple_quiet J m (fun a _ => Phi a) Hm Hs)|done|intros a w Hw; exact Hw|done]. intros w w' a _. apply Hf.
  - intros a. eapply triple_pre; [apply (triple_pure (Phi a) J), Hk|]. by intros w [? ?].
Qed.

Lemma triple_read_in {A B} (J : World -> Prop) (m : Act World A) (Phi : A -> Prop) (k : A -> Act World B) Q F :
  quiet m -> (forall w n, J w -> J (put_calls n w)) -> (forall w w' a, J w -> m w = (w', Fin a) -> Phi a) -> (forall e w, J w -> F e w) ->
  (forall a, Phi a -> triple J (k a) Q F) -> triple J (m ≫= k) Q F.
Proof.
  intros Hm Hs Hf HF Hk. eapply triple_mbind.
  - eapply triple_conseq; [apply (triple_quiet J m (fun a _ => Phi a) Hm Hs)|done|intros a w Hw; exact Hw|done]. intros w w' a. apply Hf.
  - intros a. eapply triple_pre; [apply (triple_pure (Phi a) J), Hk|]. by intros w [? ?].
Qed.

Lemma verify_root_fin a w w' h : verify_root a w = (w', Fin h) ->
  h = ar_root a /\ (forall roots, db_protected_roots (w_db w) = Some roots -> protected roots (ar_path a) = false).
Proof.
  unfold verify_root. intros (n & w1 & Hs & (d & w2 & Hd & (u & w3 & H1 & (root & w4 & (-> & _)%open_dir_fin & H2)%bind_fin)%bind_fin)%bind_fin)%bind_fin.
  injection Hd as <- <-. pose proof (sql_quiet_db sql w quiet_sql) as (Hdb & _). rewrite Hs in Hdb. cbn in Hdb.
  apply bind_fin in H2 as (meta & w5 & _ & (u' & w6 & _ & [-> _]%ret_fin)%bind_fin). split; [done|].
  intros roots Hr. rewrite Hdb in H1. rewrite Hr in H1. apply unless_fin in H1 as [H1 _]. by apply negb_true_iff in H1.
Qed.

Lemma verify_fin a w w' h : verify a w = (w', Fin h) -> h = ar_path a /\ (ar_owned a = true -> trusted w a).
Proof.
  unfold verify. intros (root & w1 & H1 & (file & w2 & H2 & (meta & w3 & H3 & (u & w4 & H4 & (u' & w5 & H5 & [-> _]%ret_fin)%bind_fin)%bind_fin)%bind_fin)%bind_fin)%bind_fin.
  pose proof (sql_quiet_db _ w (quiet_verify_root a)) as (Q1 & Q1s & Q1d). rewrite H1 in Q1, Q1s, Q1d. cbn in *.
  pose proof (sql_quiet_db _ w1 (quiet_open_dir (ar_path a))) as (Q2 & Q2s & Q2d). rewrite H2 in Q2, Q2s, Q2d. cbn in *.
  pose proof (sql_quiet_db _ w2 (quiet_metadata file)) as (Q3 & Q3s & Q3d). rewrite H3 in Q3, Q3s, Q3d. cbn in *.
  apply verify_root_fin in H1 as [_ Hp]. apply open_dir_fin in H2 as [-> _]. apply metadata_fin in H3. cbn in H3.
  apply unless_fin in H4 as [Hi ->]. split; [done|]. intros Ho. rewrite Ho in H5. split; [done|..].
  - exists meta. split; [by rewrite <- Q1d, <- Q2d|done].
  - apply bind_fin in H5 as (s & w6 & H6 & H7). apply unless_fin in H7 as [Hm _]. exists s. split; [|done].
    unfold read_sidecar in H6. apply bind_fin in H6 as (k & w7 & H7 & (ww & w8 & H8 & H9)%bind_fin).
    pose proof (sql_quiet_db io w3 quiet_io) as (_ & Q4s & _). rewrite H7 in Q4s. cbn in Q4s. injection H8 as <- <-.
    rewrite Q4s, Q3s, Q2s, Q1s in H9. destruct (w_sidecars w !! _); [|done]. by apply ret_fin in H9 as [-> _].
Qed.

Lemma unlink_triple (J : World -> Prop) p n b e : (forall w k, J w -> J (put_calls k w)) ->
  (forall w k m, J w -> w_disk w !! child p n = Some e -> is_dir e = b -> (b = true -> children (w_disk w) (child p n) = []) ->
     J (put_calls m (put_disk (unlinked k p n (w_disk w)) w))) ->
  triple (fun w => J w /\ w_disk w !! child p n = Some e) (unlink p n b) (fun _ => J) (fun _ => J).
Proof.
  intros Hs Hu w [Hw He]. enough (G : J (unlink p n b w).1) by (by destruct (unlink p n b w) as [w' [a|x|]]).
  destruct (unlink_cases p n b w) as [[k ->]|(e' & k & m & He' & Hd & Hc & ->)]; [by apply Hs|].
  cbn in He', Hc. rewrite He in He'. injection He' as <-. by apply Hu.
Qed.

(** Removing an entry, where removing what it checks keeps [J]. *)
Lemma remove_entry_triple (J : World -> Prop) dir f : (forall w k, J w -> J (put_calls k w)) ->
  (forall w x n e k m, J w -> fe_path f <> [] -> dir ++ fe_path f = child x n -> w_disk w !! child x n = Some e ->
     same_object (fe_identity f) (identity e) = true -> is_dir e = true \/ identity e = fe_identity f -> is_dir e = directory (fe_identity f) ->
     (is_dir e = true -> children (w_disk w) (child x n) = []) ->
     J (put_calls m (put_disk (unlinked k x n (w_disk w)) w))) ->
  triple J (remove_entry dir f) (fun _ => J) (fun _ => J).
Proof.
  intros Hs Hu. unfold remove_entry. eapply triple_mbind.
  { apply (triple_quiet J _ (fun h _ => h = dir ++ parent (fe_path f))); [step_through|done|]. intros w w' h _. case_bool_decide as E.
    - intros (k & w1 & _ & [-> _]%ret_fin)%bind_fin. by rewrite E, app_nil_r.
    - by intros ->%open_relative_fin. }
  intros h. destruct (last (fe_path f)) as [n|] eqn:El; [|by apply triple_throw; intros w []].
  apply last_Some in El as [q Hq]. assert (Hpar : parent (fe_path f) = q) by (rewrite Hq; apply removelast_last). rewrite Hpar.
  eapply triple_pre; [|intros w [Hw He]; exact (conj He Hw)]. apply triple_pure. intros ->.
  eapply triple_mbind.
  { apply (triple_quiet J _ (fun h _ => h = child (dir ++ q) n)); [step_through|done|]. by intros w w' h _ [-> _]%open_at_fin. }
  intros h. eapply triple_pre; [|intros w [Hw He]; exact (conj He Hw)]. apply triple_pure. intros ->.
  eapply triple_mbind.
  { apply (triple_quiet J _ (fun e w => w_disk w !! child (dir ++ q) n = Some e)); [step_through|done|]. intros w w' e _ Hm.
    pose proof (quiet_fin _ _ _ _ (quiet_metadata _) Hm) as Hd. cbn in Hd. rewrite Hd. by apply metadata_fin in Hm. }
  intros e. cbv zeta. destruct (same_object _ _ && _) eqn:Hc; [|apply triple_throw; by intros w [Hw _]].
  apply andb_true_iff in Hc as [Hc1 Hc2]. apply (unlink_triple J _ _ _ e); [done|]. intros w k m Hw He Hd Hch. apply Hu with (e := e); try done.
  - rewrite Hq. by destruct q.
  - rewrite Hq. unfold child. by rewrite <- app_assoc.
  - apply orb_true_iff in Hc2 as [Hc2|Hc2]; [left; done|right]. by apply bool_decide_eq_true in Hc2.
  - intros Hx. apply Hch. congruence.
Qed.

Definition within (w0 w : World) : Prop := keyed w /\ rtc careful_step w0 w.

Lemma within_harmless w0 w w' : within w0 w -> harmless w w' -> within w0 w'.
Proof. intros [Hk Hr] [K D]. split; [auto|]. eapply rtc_r; [done|by apply step_kept]. Qed.

Lemma within_calls w0 w n : within w0 w -> within w0 (put_calls n w).
Proof. intros Hw. eapply within_harmless; [done|]. split; [by intros []|]. cbn. reflexivity. Qed.

Lemma unlinked_kept (k : nat) (x : path) (n : str) (d : Disk) : kept (delete (child x n) d) (unlinked k x n d).
Proof. apply touched_kept. Qed.

Lemma within_removed w0 w x n e k m : within w0 w -> w_disk w !! child x n = Some e -> authorized w (child x n) e ->
  within w0 (put_calls m (put_disk (unlinked k x n (w_disk w)) w)).
Proof.
  intros [Hk Hr] He Ha. split; [by destruct Hk; split|]. eapply rtc_r; [done|]. eapply step_removed; [done..|]. apply unlinked_kept.
Qed.

Lemma trusted_removed w a x n k m : trusted w a -> child x n <> ar_path a -> trusted (put_calls m (put_disk (unlinked k x n (w_disk w)) w)) a.
Proof.
  intros [H1 (e & He & Hi) H3] Hne. split; [done| |done]. cbn.
  destruct (unlinked_kept k x n (w_disk w) (ar_path a) e) as (e' & He' & Hs); [by rewrite lookup_delete_ne|].
  exists e'. split; [done|]. destruct (ar_identity a) as [i|]; [|done]. cbn in *. by rewrite (same_entry_identity _ _ _ Hs).
Qed.

(** While a removal runs, the records that authorize it do not change. *)
Definition holding (w0 : World) (db : Database) (a : Artifact) (w : World) : Prop := within w0 w /\ w_db w = db /\ trusted w a.

Lemma holding_calls w0 db a w n : holding w0 db a w -> holding w0 db a (put_calls n w).
Proof. intros (H1 & H2 & []). split_and!; [by apply within_calls|done|by split]. Qed.

(** [K] is what else is known of the disk on the way. *)
Lemma remove_held (w0 : World) (db : Database) (a : Artifact) (K : Disk -> Prop) (f : FileEntry) : (forall k x n d, K d -> K (unlinked k x n d)) ->
  (forall w e, holding w0 db a w -> K (w_disk w) -> w_disk w !! (ar_path a ++ fe_path f) = Some e ->
     same_object (fe_identity f) (identity e) = true -> is_dir e = true \/ identity e = fe_identity f -> is_dir e = directory (fe_identity f) ->
     (is_dir e = true -> children (w_disk w) (ar_path a ++ fe_path f) = []) -> authorized w (ar_path a ++ fe_path f) e) ->
  triple (fun w => holding w0 db a w /\ K (w_disk w)) (remove_entry (ar_path a) f) (fun _ w => holding w0 db a w /\ K (w_disk w)) (fun _ => within w0).
Proof.
  intros HK Hauth. eapply triple_conseq; [apply (remove_entry_triple (fun w => holding w0 db a w /\ K (w_disk w)))|done|done|by intros x w [[Hw _] _]].
  - intros w k [Hw Hk]. split; [by apply holding_calls|done].
  - intros w x n e k m [Hw Hk] Hne Hp He Hso Hid Hd Hch. assert (Hpath : child x n <> ar_path a).
    { rewrite <- Hp. intros E. apply Hne. eapply app_inv_head. by rewrite E, app_nil_r. }
    pose proof Hw as (Hin & Hdb & Ht). rewrite <- Hp in He, Hch. split; [|by apply HK]. split_and!; [|done|by apply trusted_removed].
    apply (within_removed _ _ _ _ e); [done|by rewrite <- Hp|]. rewrite <- Hp. by apply Hauth.
Qed.

Lemma same_object_trans i j k : same_object i j = true -> same_object j k = true -> same_object i k = true.
Proof.
  unfold same_object. rewrite !andb_true_iff, !Z.eqb_eq, !eqb_true_iff. intros [[-> ->] ->] [[-> ->] ->]. done.
Qed.

Lemma vouched_entry files f : vouched files f = true -> exists g, g ∈ files /\ fe_path g = fe_path f /\ same_object (fe_identity g) (fe_identity f) = true
  /\ (directory (fe_identity f) = true \/ fe_identity g = fe_identity f).
Proof.
  unfold vouched. rewrite existsb_elem. intros (g & Hg & Hc). exists g.
  apply andb_true_iff in Hc as [[Hp%bool_decide_eq_true Hs]%andb_true_iff Hd]. split_and!; [done..|].
  apply orb_true_iff in Hd as [Hd|Hd%bool_decide_eq_true]; [by left|by right].
Qed.

(** The last step of a removal: the emptied directory goes, through its root. *)
Lemma remove_root_triple w0 db a (F : option Error -> World -> Prop) :
  (forall w e, holding w0 db a w -> w_disk w !! ar_path a = Some e -> emptied (w_disk w) a (ar_path a) -> authorized w (ar_path a) e) ->
  immediate_child (ar_root a) (ar_path a) = true -> (forall x w, within w0 w -> F x w) ->
  triple (holding w0 db a) (unlink (ar_root a) (file_name (ar_path a)) true) (fun _ => within w0) F.
Proof.
  intros Hauth Hi HF w Hw. apply andb_true_iff in Hi as [Hi1 Hi2].
  apply negb_true_iff, bool_decide_eq_false in Hi1. apply bool_decide_eq_true in Hi2.
  assert (Hc : child (ar_root a) (file_name (ar_path a)) = ar_path a).
  { unfold child. rewrite <- Hi2. unfold parent, file_name. symmetry. by apply app_removelast_last. }
  enough (G : within w0 (unlink (ar_root a) (file_name (ar_path a)) true w).1).
  { destruct (unlink (ar_root a) (file_name (ar_path a)) true w) as [w' [x|x|]]; auto. }
  destruct (unlink_cases (ar_root a) (file_name (ar_path a)) true w) as [[k ->]|(e & k & m & He & Hd & Hch & ->)].
  - by apply within_calls, Hw.
  - rewrite Hc in He, Hch. assert (Ha : authorized w (ar_path a) e) by (apply Hauth; [done|done|split; [by apply Hw|by apply Hch]]).
    destruct Hw as (Hw & _ & _). apply (within_removed _ _ _ _ e); [done|by rewrite Hc..].
Qed.

Section Removal.
Context (w0 : World) (db : Database) (a : Artifact).
Context (auth_listed : forall w p e, holding w0 db a w -> w_disk w !! p = Some e -> listed_entry a p e -> authorized w p e).
Context (auth_emptied : forall w e, holding w0 db a w -> w_disk w !! ar_path a = Some e -> emptied (w_disk w) a (ar_path a) -> authorized w (ar_path a) e).
Context (a_owned : ar_owned a = true).

Lemma remove_payload_triple attempts :
  triple (fun w => within w0 w /\ w_db w = db) (remove_payload a attempts) (fun _ => within w0) (fun _ => within w0).
Proof.
  assert (Hs : forall (w : World) n, within w0 w /\ w_db w = db -> within w0 (put_calls n w) /\ w_db (put_calls n w) = db).
  { intros w n [Hw Hd]. split; [by apply within_calls|done]. }
  assert (HF : forall (x : option Error) w, within w0 w /\ w_db w = db -> within w0 w) by (by intros x w []).
  unfold remove_payload. apply (triple_read _ _ (fun h => h = ar_root a)); [step_through|exact Hs|by intros w w' h [-> _]%verify_root_fin|exact HF|].
  intros root ->. apply (triple_read _ _ (fun _ => True)); [step_through|exact Hs|done|exact HF|].
  intros gone _. destruct gone; [by apply triple_mret; intros w [Hw _]|].
  eapply triple_mbind; [eapply triple_conseq; [apply (triple_quiet _ _ (fun h w => h = ar_path a /\ trusted w a)); [step_through|exact Hs|]|done|done|exact HF]|].
  { intros w w' h _ Hv. destruct (verify_fin _ _ _ _ Hv) as [-> Ht]. split; [done|]. specialize (Ht a_owned).
    destruct (quiet_verify a w) as [n Hn]. rewrite Hv in Hn. cbn in Hn. subst w'. destruct Ht. by split. }
  intros dir. eapply triple_pre; [apply (triple_pure (dir = ar_path a) (holding w0 db a))|by intros w [[Hw Hd] [He Ht]]]. intros ->.
  assert (Hh : forall w n, holding w0 db a w -> holding w0 db a (put_calls n w)) by (intros; by apply holding_calls).
  assert (HG : forall (x : option Error) w, holding w0 db a w -> within w0 w) by (by intros x w []).
  apply (triple_read _ _ (fun _ => True)); [step_through|done..|]. intros observed _.
  apply (triple_read _ _ (fun _ => forallb (vouched (ar_files a)) observed = true)); [step_through|done|by intros w w' x [Hx _]%unless_fin|done|].
  intros [] Hv. rewrite forallb_elem in Hv.
  assert (Hrem : forall f, f ∈ deepest_first observed -> triple (holding w0 db a) (remove_entry (ar_path a) f) (fun _ => holding w0 db a) (fun _ => within w0)).
  { intros f Hf. eapply triple_conseq; [apply (remove_held w0 db a (fun _ => True) f); [done|]| |by intros ? w []|done]; [|by intros w Hw].
    intros w e Hw _ He Hso Hid _ _. apply elem_of_sort_by_key, Hv, vouched_entry in Hf as (g & Hg & Hgp & Hgs & Hgi).
    apply auth_listed; [done..|]. exists g. rewrite Hgp. split_and!; [done|done|by eapply same_object_trans|].
    destruct Hid as [?|Hid]; [by left|]. destruct Hgi as [Hgi|Hgi]; [left|right; congruence]. rewrite <- Hid in Hgi. done. }
  cbv zeta. eapply triple_mbind; [apply triple_each; intros f Hf; case_match; [by apply triple_mret|by apply Hrem]|]. intros [].
  eapply triple_mbind; [apply triple_each; intros f Hf; case_match; [by apply Hrem|by apply triple_mret]|]. intros [].
  apply (triple_read _ _ (fun _ => True)); [step_through|done..|]. intros ns _.
  apply (triple_read _ _ (fun _ => True)); [step_through|done..|]. intros [] _.
  apply (triple_read _ _ (fun _ => immediate_child (ar_root a) (ar_path a) = true)); [step_through|done|by intros w w' x [Hx _]%unless_fin|done|].
  intros [] Hi. apply (triple_read _ _ (fun _ => True)); [step_through|done..|]. intros current _.
  apply (triple_read _ _ (fun _ => True)); [step_through|done..|]. intros meta _.
  apply (triple_read _ _ (fun _ => True)); [step_through|done..|]. intros [] _.
  by apply remove_root_triple.
Qed.
End Removal.

(** ** Every operation is careful *)

Lemma careful_triple {A} (m : Act World A) : (forall w0, triple (within w0) m (fun _ => within w0) (fun _ => within w0)) -> steps careful m.
Proof. intros Hm w Hk. specialize (Hm w w (conj Hk (rtc_refl _ _))). by destruct (m w) as [w' [a|e|]]. Qed.

Lemma triple_careful {A} w0 (m : Act World A) : steps careful m -> triple (within w0) m (fun _ => within w0) (fun _ => within w0).
Proof.
  intros Hm w [Hk Hr]. destruct (Hm w Hk) as [Hk' Hr']. assert (within w0 (m w).1) by (split; [done|by etrans]).
  by destruct (m w) as [w' [a|e|]].
Qed.

Lemma triple_facts {A} w0 (m : Act World A) (Phi : A -> World -> Prop) : steps careful m ->
  (forall w w' a, within w0 w -> m w = (w', Fin a) -> Phi a w') ->
  triple (within w0) m (fun a w => within w0 w /\ Phi a w) (fun _ => within w0).
Proof.
  intros Hm Hp w Hw. pose proof (triple_careful w0 m Hm w Hw) as Ht. destruct (m w) as [w' [a|e|]] eqn:E; [|done..]. split; [done|exact (Hp w w' a Hw E)].
Qed.

Lemma or_undo_fin {A} (m : Act World A) w w' a : or_undo m w = (w', Fin a) -> m w = (w', Fin a).
Proof. unfold or_undo. by destruct (m w) as [w1 [x|e|]]. Qed.

Lemma transaction_fin {A} (body : Act World A) w w' a : transaction body w = (w', Fin a) -> exists n m w1, body (put_calls n w) = (w1, Fin a) /\ w' = put_calls m w1.
Proof.
  unfold transaction. intros (n & w1 & H1 & H2%or_undo_fin)%bind_fin. pose proof (quiet_sql w) as [k Hk]. rewrite H1 in Hk. cbn in Hk. subst w1.
  apply bind_fin in H2 as (x & w2 & H2 & (n' & w3 & H3 & [-> ->]%ret_fin)%bind_fin). pose proof (quiet_sql w2) as [k' Hk]. rewrite H3 in Hk. cbn in Hk. subst w3.
  by exists k, k', w2.
Qed.

Lemma write_db_fin f w w' u : write_db f w = (w', Fin u) -> exists n, w' = put_db (f (w_db w)) (put_calls n w).
Proof.
  unfold write_db. intros (n & w1 & H1 & H2)%bind_fin. pose proof (quiet_sql w) as [k Hk]. rewrite H1 in Hk. cbn in Hk. subst w1.
  injection H2 as <-. by exists k.
Qed.

Lemma get_artifact_fin key w w' a : get_artifact key w = (w', Fin a) -> db_artifacts (w_db w) !! key = Some a /\ w_db w' = w_db w.
Proof.
  intros Hg. destruct (quiet_get_artifact key w) as [n Hn]. rewrite Hg in Hn. cbn in Hn. subst w'. split; [|done].
  unfold get_artifact in Hg. apply bind_fin in Hg as (k & w1 & H1 & (d & w2 & H2 & H3)%bind_fin). injection H2 as <- <-.
  pose proof (quiet_sql w) as [k' Hk]. rewrite H1 in Hk. cbn in Hk. subst w1. cbn in H3. destruct (db_artifacts (w_db w) !! key); [|done]. by apply ret_fin in H3 as [-> _].
Qed.
Lemma operation_fin key w w' o : operation key w = (w', Fin o) -> db_operations (w_db w) !! key = Some o /\ w_db w' = w_db w.
Proof.
  intros Hg. destruct (quiet_operation key w) as [n Hn]. rewrite Hg in Hn. cbn in Hn. subst w'. split; [|done].
  unfold operation in Hg. apply bind_fin in Hg as (k & w1 & H1 & (d & w2 & H2 & H3)%bind_fin). injection H2 as <- <-.
  pose proof (quiet_sql w) as [k' Hk]. rewrite H1 in Hk. cbn in Hk. subst w1. cbn in H3. destruct (db_operations (w_db w) !! key); [|done]. by apply ret_fin in H3 as [-> _].
Qed.
Lemma recovery_fin key w w' o : recovery key w = (w', Fin o) -> db_recoveries (w_db w) !! key = Some o /\ w_db w' = w_db w.
Proof.
  intros Hg. destruct (quiet_recovery key w) as [n Hn]. rewrite Hg in Hn. cbn in Hn. subst w'. split; [|done].
  unfold recovery in Hg. apply bind_fin in Hg as (k & w1 & H1 & (d & w2 & H2 & H3)%bind_fin). injection H2 as <- <-.
  pose proof (quiet_sql w) as [k' Hk]. rewrite H1 in Hk. cbn in Hk. subst w1. cbn in H3. destruct (db_recoveries (w_db w) !! key); [|done]. by apply ret_fin in H3 as [-> _].
Qed.

Lemma both_saved op a w w' u : transaction (_ ← save_operation op; save_artifact a) w = (w', Fin u) ->
  db_artifacts (w_db w') !! ar_id a = Some a /\ db_operations (w_db w') !! op_id op = Some op.
Proof.
  intros (n & m & w1 & (u1 & w2 & H1 & H2)%bind_fin & ->)%transaction_fin. apply write_db_fin in H1 as [k ->]. apply write_db_fin in H2 as [k' ->].
  cbn. split; apply lookup_insert_eq.
Qed.

Lemma execute_delete_careful key : steps careful (execute_delete key).
Proof.
  apply careful_triple. intros w0. unfold execute_delete.
  assert (Hs : forall w n, within w0 w -> within w0 (put_calls n w)) by (intros; by apply within_calls).
  apply (triple_read _ _ (fun _ => True)); [step_through|done..|]. intros [] _.
  apply (triple_read _ _ (fun _ => True)); [step_through|done..|]. intros op _.
  apply (triple_read _ _ (fun _ => is_state "delete" (op_kind op) = true)); [step_through|done|by intros w w' u [Hu _]%unless_fin|done|]. intros [] Hkind%bool_decide_eq_true.
  apply (triple_read _ _ (fun _ => True)); [step_through|done..|]. intros t1 _.
  apply (triple_read _ _ (fun _ => True)); [step_through|done..|]. intros t2 _.
  case_match; [by apply triple_mret|].
  eapply triple_mbind; [apply (triple_facts w0 (get_artifact (op_artifact op)) (fun a _ => ar_id a = op_artifact op)); [step_through|]|].
  { intros w w' a [Hk _] [Ha _]%get_artifact_fin. by eapply k_artifacts. }
  intros a. eapply triple_pre; [apply (triple_pure (ar_id a = op_artifact op) (within w0))|by intros w []]. intros Hid.
  destruct (op_request op) as [k revision undo automatic| | |]; try (by apply triple_throw).
  apply (triple_read _ _ (fun _ => True)); [step_through|done..|]. intros on _.
  apply (triple_read _ _ (fun _ => True)); [step_through|done..|]. intros t _.
  case_match; [apply triple_careful; step_through|].
  apply (triple_read _ _ (fun _ => negb (ar_keep a) && bool_decide (ar_hold a = None) && ar_owned a = true)); [step_through|done|by intros w w' u [Hu _]%unless_fin|done|].
  intros [] Hfree. apply andb_true_iff in Hfree as [[Hkeep%negb_true_iff Hhold%bool_decide_eq_true]%andb_true_iff Hown].
  cbv zeta. set (op1 := op_with_attempts _ _). set (a1 := ar_with_state (lit "deleting") a).
  eapply triple_mbind; [apply (triple_facts w0 _ (fun _ w => db_artifacts (w_db w) !! ar_id a1 = Some a1 /\ db_operations (w_db w) !! op_id op1 = Some op1)); [step_through|]|].
  { intros w w' u _ Hb. by eapply both_saved. }
  intros []. eapply triple_mbind.
  { eapply (triple_attempt _ _ (fun _ => within w0) (fun _ => within w0)); [|done]. intros w (Hw & Ha & Ho).
    assert (Ha' : db_artifacts (w_db w) !! op_artifact op1 = Some a1) by (change (op_artifact op1) with (op_artifact op); by rewrite <- Hid).
    apply (remove_payload_triple w0 (w_db w) a1); [| |done|done].
    - intros v p e (Hv & Hdb & Ht) He Hl. apply (by_deletion _ _ _ a1 op1); try done; [by rewrite Hdb|by rewrite Hdb|by left].
    - intros v e (Hv & Hdb & Ht) He Hl. apply (by_deletion _ _ _ a1 op1); try done; [by rewrite Hdb|by rewrite Hdb|by right]. }
  intros result. eapply triple_pre; [apply triple_careful; step_through|]. intros w Hw. by destruct result.
Qed.

(** ** Cleanup after a receipt *)

Section Cleanup.
Context (r : Recovery) (receipt : Receipt) (a : Artifact).

(** Whatever file is where the acknowledged one was is that file. *)
Definition acked (d : Disk) (f : FileEntry) : Prop :=
  f ∈ ar_files a /\ directory (fe_identity f) = false /\ exists selected imported,
    imported ∈ rc_files receipt /\ receipt_taken (rc_result imported) = true /\ selected ∈ rv_files r /\ rf_id selected = rc_id imported
    /\ rf_path selected = fe_path f
    /\ forall e, d !! (ar_path a ++ fe_path f) = Some e -> is_dir e = false -> sha256 (en_data e) = rf_sha256 selected.

Lemma unlinked_from (k : nat) (x : path) (n : str) (d : Disk) p e : unlinked k x n d !! p = Some e -> exists e0, d !! p = Some e0 /\ same_entry e0 e.
Proof.
  unfold unlinked. destruct (decide (x = p)) as [->|Hne].
  - rewrite lookup_alter_eq, fmap_Some. intros (e0 & He0 & ->). apply lookup_delete_Some in He0 as [_ He0]. exists e0. split; [done|apply touch_dir_same].
  - rewrite lookup_alter_ne by done. intros [_ He]%lookup_delete_Some. by exists e.
Qed.

Lemma acked_unlinked k x n d f : acked d f -> acked (unlinked k x n d) f.
Proof.
  intros (Hf & Hd & selected & imported & H1 & H2 & H3 & H4 & H5 & H6). split_and!; [done..|]. exists selected, imported. split_and!; [done..|].
  intros e (e0 & He0 & Hk & _ & _ & Hs)%unlinked_from Hn. unfold is_dir in *. destruct Hs as [Hs| ->]; [|by apply H6]. by rewrite Hk, Hs in Hn.
Qed.

Lemma find_file_fin files p f : find_file files p = Some f -> f ∈ files /\ fe_path f = p /\ directory (fe_identity f) = false.
Proof.
  unfold find_file. intros [Hin Hc]%List.find_some. apply andb_true_iff in Hc as [Hp%bool_decide_eq_true Hd%negb_true_iff]. by rewrite list_elem_of_In.
Qed.

Lemma receipted_quiet dir l : quiet (receipted r a dir l).
Proof. induction l as [|x l IH]; cbn [receipted]; step_through. Qed.

Lemma receipted_fin l : (forall x, x ∈ l -> x ∈ rc_files receipt /\ receipt_taken (rc_result x) = true) ->
  forall w w' fs, receipted r a (ar_path a) l w = (w', Fin fs) -> Forall (acked (w_disk w)) fs.
Proof.
  induction l as [|x l IH]; intros Hl w w' fs; cbn [receipted]; [by intros [-> _]%ret_fin|].
  specialize (IH (fun y Hy => Hl y (list_elem_of_further _ _ _ Hy))).
  destruct (List.find _ _) as [selected|] eqn:Es; [|done]. apply List.find_some in Es as [Es1 Es2%bool_decide_eq_true].
  destruct (find_file _ _) as [entry|] eqn:Ef; [|by apply IH]. apply find_file_fin in Ef as (Ef1 & Ef2 & Ef3).
  intros (opened & w1 & H1 & H2)%bind_fin.
  assert (Q1 : w_disk w1 = w_disk w).
  { assert (Q : quiet (attempt (open_relative (ar_path a) (fe_path entry)) : Act World _)) by step_through. by apply (quiet_fin _ _ _ _ Q H1). }
  destruct opened as [file|[| [] | | |]]; try done; [|by rewrite <- Q1; eapply IH].
  apply bind_fin in H2 as (meta & w2 & H2 & (sha & w3 & H3 & (u & w4 & H4 & (rest & w5 & H5 & [-> _]%ret_fin)%bind_fin)%bind_fin)%bind_fin).
  pose proof (quiet_fin _ _ _ _ (quiet_metadata _) H2) as Q2. pose proof (quiet_fin _ _ _ _ (quiet_digest _) H3) as Q3. cbn in Q2, Q3.
  apply metadata_fin in H2. unfold digest in H3. apply bind_fin in H3 as (b & w6 & (m2 & w7 & Hm2%metadata_fin & [-> _]%ret_fin)%bind_fin & [-> _]%ret_fin).
  apply unless_fin in H4 as [Hc ->]. apply andb_true_iff in Hc as [_ Hsha%bool_decide_eq_true]. cbn in H2, Hm2.
  apply IH in H5. rewrite Q3, Q2, Q1 in H5. constructor; [|done]. split_and!; [done..|]. exists selected, x.
  destruct (Hl x (list_elem_of_here _ _)). split_and!; try done; [by apply list_elem_of_In|].
  unfold attempt in H1. destruct (open_relative _ _ w) as [w8 [h|e|]] eqn:E; [|done..]. injection H1 as <- <-. apply open_relative_fin in E as ->.
  intros e He _. rewrite Q2, Q1 in Hm2. by pose proof (eq_trans (eq_sym He) Hm2) as [= ->].
Qed.
End Cleanup.

Lemma trusted_recounted w a n : trusted w a -> trusted (put_calls n w) a.
Proof. intros []. by split. Qed.

(** After [verify], what authorizes the removal is held. *)
Lemma verify_holding w0 db a {B} (k : path -> Act World B) Q : ar_owned a = true ->
  (triple (holding w0 db a) (k (ar_path a)) Q (fun _ => within w0)) ->
  triple (fun w => within w0 w /\ w_db w = db) (verify a ≫= k) Q (fun _ => within w0).
Proof.
  intros Ho Hk. eapply triple_mbind.
  { eapply triple_conseq; [apply (triple_quiet (fun w => within w0 w /\ w_db w = db) (verify a) (fun h w => h = ar_path a /\ trusted w a)); [step_through| |]|done|intros h w Hw; exact Hw|by intros x w []].
    - intros w n [Hw Hd]. split; [by apply within_calls|done].
    - intros w w' h _ Hv. destruct (verify_fin _ _ _ _ Hv) as [-> Ht]. split; [done|]. specialize (Ht Ho).
      destruct (quiet_verify a w) as [n Hn]. rewrite Hv in Hn. cbn in Hn. subst w'. by apply trusted_recounted. }
  intros h w [[Hw Hd] [-> Ht]]. by apply Hk.
Qed.

Section CleanupRun.
Context (w0 : World) (db : Database) (r : Recovery) (receipt : Receipt) (a : Artifact).
Context (a_row : db_artifacts db !! rv_artifact r = Some a) (r_row : db_recoveries db !! rv_id r = Some r).
Context (r_final : one_of ["imported"; "partial"]%string (rv_state r) = true) (r_receipt : rv_receipt r = Some receipt).
Context (a_owned : ar_owned a = true) (a_keep : ar_keep a = false) (a_hold : prunable_hold r (ar_hold a) = true).

Lemma cleanup_authority w p e : holding w0 db a w -> acknowledged (w_disk w) r receipt a p e \/ emptied (w_disk w) a p -> authorized w p e.
Proof. intros (Hw & Hd & Ht) Hc. apply (by_receipt _ _ _ a r receipt); try done; by rewrite Hd. Qed.

Lemma prune_files_triple fs :
  triple (fun w => holding w0 db a w /\ Forall (acked r receipt a (w_disk w)) fs) (for_each fs (remove_entry (ar_path a)))
    (fun _ w => holding w0 db a w /\ Forall (acked r receipt a (w_disk w)) fs) (fun _ => within w0).
Proof.
  apply triple_each. intros f Hf. apply (remove_held w0 db a (fun d => Forall (acked r receipt a d) fs)).
  - intros k x n d Hall. eapply Forall_impl; [done|]. intros g. apply acked_unlinked.
  - intros w e Hw Hall He Hso Hid Hd _. rewrite Forall_forall in Hall. destruct (Hall f Hf) as (Hfa & Hfd & selected & imported & H1 & H2 & H3 & H4 & H5 & H6).
    rewrite Hfd in Hd. apply cleanup_authority; [done|]. left. right. exists f, selected, imported.
    destruct Hid as [Hid|Hid]; [congruence|]. split_and!; try done. by apply H6.
Qed.

Lemma prune_directory_triple f : f ∈ ar_files a -> directory (fe_identity f) = true ->
  triple (holding w0 db a) (prune_directory (ar_path a) f) (fun _ => holding w0 db a) (fun _ => within w0).
Proof.
  intros Hf Hdir. unfold prune_directory. assert (Hh : forall w n, holding w0 db a w -> holding w0 db a (put_calls n w)) by (intros; by apply holding_calls).
  assert (HG : forall (x : option Error) w, holding w0 db a w -> within w0 w) by (by intros x w []).
  apply (triple_read _ _ (fun _ => True)); [step_through|done..|]. intros opened _.
  destruct opened as [h|[| [] | | |]]; try (apply triple_throw; intros w Hw; exact (HG None w Hw)); [|by apply triple_mret].
  apply (triple_read _ _ (fun _ => True)); [step_through|done..|]. intros ns _. case_bool_decide; [|by apply triple_mret].
  eapply triple_conseq; [apply (remove_held w0 db a (fun _ => True) f); [done|]|by intros w Hw|by intros ? w []|done].
  intros w e Hw _ He Hso Hid Hd Hch. rewrite Hdir in Hd. apply cleanup_authority; [done|]. left. left. split_and!; [done|by apply Hch|].
  exists f. split_and!; try done. by left.
Qed.

Lemma cleanup_triple key : triple (fun w => within w0 w /\ w_db w = db) (prune_payload key r receipt a) (fun _ => within w0) (fun _ => within w0).
Proof.
  unfold prune_payload. apply verify_holding; [done|].
  assert (Hh : forall w n, holding w0 db a w -> holding w0 db a (put_calls n w)) by (intros; by apply holding_calls).
  assert (HG : forall (x : option Error) w, holding w0 db a w -> within w0 w) by (by intros x w []).
  eapply triple_mbind.
  { eapply triple_conseq; [apply (triple_quiet (holding w0 db a) _ (fun fs w => Forall (acked r receipt a (w_disk w)) fs)); [apply receipted_quiet|done|]|done|intros fs w Hw; exact Hw|done].
    intros w w' fs _ Hr. pose proof (quiet_fin _ _ _ _ (receipted_quiet _ _ _ _) Hr) as Hd. cbn in Hd. rewrite Hd. eapply receipted_fin; [|done].
    intros x Hx. by apply elem_of_filter_bool in Hx as [? ?]. }
  intros fs. eapply triple_mbind; [apply prune_files_triple|]. intros []. eapply triple_pre; [|intros w [Hw _]; exact Hw].
  eapply triple_mbind.
  { apply triple_each. intros f Hf. apply elem_of_sort_by_key, elem_of_filter_bool in Hf as [Hd Hf]. by apply prune_directory_triple. }
  intros []. apply (triple_read _ _ (fun _ => True)); [step_through|done..|]. intros remaining _.
  apply (triple_mbind _ _ (fun _ => within w0)); [|intros a1; apply triple_careful; step_through].
  case_bool_decide; [|by apply triple_mret; intros w []].
  apply (triple_read _ _ (fun _ => True)); [step_through|done..|]. intros root _.
  apply (triple_read _ _ (fun h => h = child root (file_name (ar_path a)))); [step_through|done|by intros w w' h [-> _]%open_at_fin|done|]. intros h ->.
  eapply triple_mbind.
  { eapply triple_conseq; [apply (triple_quiet (holding w0 db a) _ (fun e w => w_disk w !! child root (file_name (ar_path a)) = Some e)); [step_through|done|]|done|intros e w Hw; exact Hw|done].
    intros w w' e _ Hm. pose proof (quiet_fin _ _ _ _ (quiet_metadata _) Hm) as Hd. cbn in Hd. rewrite Hd. by apply metadata_fin in Hm. }
  intros e. destruct (same_identity _ _) eqn:Hs; [|apply (triple_mbind _ _ (fun _ _ => False)); [by apply triple_throw; intros w [[Hw _] _]|by intros u w []]].
  apply (triple_mbind _ _ (fun _ w => holding w0 db a w /\ w_disk w !! child root (file_name (ar_path a)) = Some e)); [by apply triple_mret|]. intros [].
  apply (triple_mbind _ _ (fun _ => within w0)); [|intros []; by apply triple_mret]. intros w [Hw He].
  enough (G : within w0 (unlink root (file_name (ar_path a)) true w).1) by (by destruct (unlink root (file_name (ar_path a)) true w) as [w' [x|x|]]).
  destruct (unlink_cases root (file_name (ar_path a)) true w) as [[k ->]|(e' & k & m & He' & Hd & Hch & ->)]; [by apply within_calls, Hw|].
  cbn in He', Hch. pose proof (eq_trans (eq_sym He) He') as [= <-]. apply (within_removed _ _ _ _ e); [apply Hw|done|].
  apply cleanup_authority; [done|]. right. split; [by exists e|by apply Hch].
Qed.
End CleanupRun.

Lemma prune_careful key : steps careful (prune_receipted_source key).
Proof.
  apply careful_triple. intros w0. unfold prune_receipted_source.
  assert (Hs : forall w n, within w0 w -> within w0 (put_calls n w)) by (intros; by apply within_calls).
  apply (triple_read _ _ (fun _ => True)); [step_through|done..|]. intros [] _.
  eapply triple_mbind; [apply (triple_facts w0 (recovery key) (fun r w => db_recoveries (w_db w) !! rv_id r = Some r)); [step_through|]|].
  { intros w w' r [Hk _] [Hr Hd]%recovery_fin. rewrite Hd. by rewrite (k_recoveries _ Hk _ _ Hr). }
  intros r. assert (Hs2 : forall w n, within w0 w /\ db_recoveries (w_db w) !! rv_id r = Some r -> within w0 (put_calls n w) /\ db_recoveries (w_db (put_calls n w)) !! rv_id r = Some r).
  { intros w n [Hw Hr]. split; [by apply within_calls|done]. }
  assert (HF : forall (x : option Error) w, within w0 w /\ db_recoveries (w_db w) !! rv_id r = Some r -> within w0 w) by (by intros x w []).
  apply (triple_read _ _ (fun _ => one_of ["imported"; "partial"]%string (rv_state r) = true)); [step_through|exact Hs2|by intros w w' u [Hu _]%unless_fin|exact HF|].
  intros [] Hfinal. destruct (rv_receipt r) as [receipt|] eqn:Er; [|by apply triple_throw; intros w []].
  eapply triple_mbind.
  { eapply triple_conseq; [apply (triple_quiet _ (get_artifact (rv_artifact r)) (fun a w => db_artifacts (w_db w) !! rv_artifact r = Some a)); [step_through|exact Hs2|]|done|intros a w Hw; exact Hw|exact HF].
    intros w w' a _ [Ha Hd]%get_artifact_fin. by rewrite Hd. }
  intros a. set (J := fun w => (within w0 w /\ db_recoveries (w_db w) !! rv_id r = Some r) /\ db_artifacts (w_db w) !! rv_artifact r = Some a).
  assert (HsJ : forall w n, J w -> J (put_calls n w)) by (intros w n [[Hw Hr] Ha]; split; [split; [by apply within_calls|done]|done]).
  assert (HFJ : forall (x : option Error) w, J w -> within w0 w) by (by intros x w [[] ?]).
  assert (HPJ : forall w, J w -> within w0 w) by (by intros w [[] ?]).
  destruct (terminal a); [by apply triple_mret|].
  apply (triple_read J _ (fun _ => ar_owned a && negb (ar_keep a) = true)); [step_through|exact HsJ|by intros w w' u [Hu _]%unless_fin|exact HFJ|].
  intros [] [Hown Hkeep%negb_true_iff]%andb_true_iff.
  apply (triple_read J _ (fun _ => prunable_hold r (ar_hold a) = true)); [step_through|exact HsJ|by intros w w' u [Hu _]%unless_fin|exact HFJ|].
  intros [] Hhold. apply (triple_read J _ (fun _ => True)); [step_through|exact HsJ|done|exact HFJ|]. intros root _.
  apply (triple_read J _ (fun _ => True)); [step_through|exact HsJ|done|exact HFJ|]. intros present _.
  destruct present; [|eapply triple_pre; [apply triple_careful; step_through|exact HPJ]].
  intros w [[Hw Hr] Ha]. exact (cleanup_triple w0 (w_db w) r receipt a Ha Hr Hfinal Er Hown Hkeep Hhold key w (conj Hw eq_refl)).
Qed.

Lemma rename_careful from to : steps careful (rename_exclusive from to).
Proof.
  intros w Hk. destruct (rename_cases from to w) as [[n ->]|(d & n & Ht & Hd & ->)].
  - split; [by destruct Hk|]. apply rtc_once, step_kept. cbn. reflexivity.
  - split; [by destruct Hk|]. apply rtc_once. by apply (step_moved _ _ from to).
Qed.
#[local] Hint Resolve execute_delete_careful prune_careful rename_careful : inventory.

Lemma draft_bind_careful {A B} (m : Draft A) (k : A -> Draft B) r : steps careful (m r) -> (forall a r, steps careful (k a r)) -> steps careful (draft_bind A B k m r).
Proof. intros Hm Hk. unfold draft_bind. step_through; done. Qed.
Lemma doing_careful {A} (m : Act World A) r : steps careful m -> steps careful (doing m r).
Proof. intros Hm. unfold doing. step_through. Qed.
Lemma draft_each_careful {A} (l : list A) f r : (forall x r, steps careful (f x r)) -> steps careful (draft_each l f r).
Proof.
  intros Hf. revert r. induction l as [|x l IH]; intros r; cbn [draft_each]; [step_through|]. by apply draft_bind_careful.
Qed.

Ltac draft_through := repeat first
  [ apply draft_bind_careful; [|intros ? ?] | apply doing_careful; step_through | apply draft_each_careful; intros ? ? | progress (unfold draft, redraft; step_through) ].

Lemma volume_quiet p : quiet (volume_of p).
Proof. induction p as [|c p IH]; cbn [volume_of]; step_through. Qed.
#[local] Hint Resolve volume_quiet : inventory.
Lemma stage_file_careful s p i f r : steps careful (stage_file s p i f r).
Proof. unfold stage_file, not_cancelled. draft_through. Qed.
#[local] Hint Resolve stage_file_careful : inventory.
Lemma stage_copies_careful s root fs r : steps careful (stage_copies s root fs r).
Proof. unfold stage_copies, not_cancelled. draft_through. Qed.
#[local] Hint Resolve stage_copies_careful receipted_quiet : inventory.
Lemma resume_steps_careful root scratch r : steps careful (resume_steps root scratch r).
Proof. unfold resume_steps. step_through. Qed.
#[local] Hint Resolve resume_steps_careful : inventory.
Lemma resume_publication_careful r : steps careful (resume_publication r).
Proof. unfold resume_publication. step_through. Qed.
#[local] Hint Resolve resume_publication_careful : inventory.
Lemma reconcile_recoveries_careful : steps careful reconcile_recoveries.
Proof. unfold reconcile_recoveries. step_through. Qed.
Lemma stage_recovery_careful k v i ps root : steps careful (stage_recovery k v i ps root).
Proof. unfold stage_recovery, lift_result. step_through. Qed.
Lemma commit_relocation_harmless op rl : steps harmless (commit_relocation op rl).
Proof. unfold commit_relocation. step_through. Qed.
#[local] Hint Resolve reconcile_recoveries_careful stage_recovery_careful commit_relocation_harmless request_delete_harmless : inventory.
Lemma retire_careful k : steps careful (retire_relocation_source k).
Proof. unfold retire_relocation_source, request_delete. step_through. Qed.
Lemma copy_entry_harmless d s e : steps harmless (copy_entry d s e).
Proof. unfold copy_entry. step_through. Qed.
#[local] Hint Resolve retire_careful copy_entry_harmless : inventory.
Lemma cross_volume_careful a d r1 r2 p k j : steps careful (cross_volume a d r1 r2 p k j).
Proof. unfold cross_volume. step_through. Qed.
Lemma relocate_failed_careful rl op e : steps careful (relocate_failed rl op e).
Proof. unfold relocate_failed. step_through. Qed.
#[local] Hint Resolve cross_volume_careful relocate_failed_careful : inventory.
Lemma relocate_careful job p : steps careful (relocate job p).
Proof. unfold relocate. step_through. Qed.
Lemma settle_move_careful l op : steps careful (settle_move l op).
Proof. unfold settle_move. step_through. Qed.
#[local] Hint Resolve settle_move_careful reconcile_allocations_harmless inspect_harmless scan_harmless : inventory.
Lemma reconcile_relocations_careful : steps careful reconcile_relocations.
Proof. unfold reconcile_relocations. step_through. Qed.
#[local] Hint Resolve reconcile_relocations_careful : inventory.
Lemma reconcile_startup_careful jobs : steps careful (reconcile_startup jobs).
Proof. unfold reconcile_startup. step_through. Qed.
Lemma run_task_careful op : steps careful (run_task op).
Proof. unfold run_task, pruned_recovery. step_through. Qed.
#[local] Hint Resolve run_task_careful : inventory.
Lemma execute_task_careful k : steps careful (execute_task k).
Proof. unfold execute_task, pruned_recovery. step_through. Qed.
#[local] Hint Resolve execute_task_careful count_time_harmless schedule_discovery_harmless reconcile_missing_harmless compact_harmless : inventory.
Lemma run_tasks_careful : steps careful run_tasks.
Proof. unfold run_tasks. step_through. Qed.
#[local] Hint Resolve run_tasks_careful : inventory.
Lemma tick_careful : steps careful tick.
Proof. unfold tick. step_through. Qed.

(** ** The operations *)

Inductive InventoryOp :=
| Op_allocate (job : Z) (root p : path) | Op_register_legacy (job : Z) (root p : path) | Op_startup (live : list Z)
| Op_prepare_forget (job : Z) | Op_finish (job : Z) (p root : path) (state : str) | Op_discover (root p : path) (active : bool)
| Op_inspect (key : str) | Op_adopt (key : str) (revision : Z) | Op_retention (key : str) (revision : Z) (keep : bool) (seconds : option Z)
| Op_release (key : str) (revision : Z) | Op_request (key : str) (revision : Z) (id : str) (undo : Z) | Op_cancel (key : str)
| Op_execute (key : str) | Op_relocate (job : Z) (destination : path) | Op_tick | Op_quarantine | Op_close
| Op_settings (s : Settings) | Op_protect (roots : list path) | Op_configure_scan (t : TaskRequest)
| Op_preview_retention (days : Z) | Op_apply_retention (key : str) | Op_submit (kind artifact id : str) (t : TaskRequest) | Op_run_task (key : str)
| Op_stage (key : str) (revision : Z) (id : str) (paths : list path) (root : path) | Op_claim (key consumer import_id digest : str)
| Op_receipt (key consumer : str) (r : Receipt) | Op_cancel_recovery (key : str) (consumer : option str) (ack : bool) | Op_prune (key : str).

Definition void {A} (m : Act World A) : Act World unit := _ ← m; mret tt.

Definition perform (o : InventoryOp) : Act World unit :=
  match o with
  | Op_allocate job root p => void (allocate job root p)
  | Op_register_legacy job root p => register_legacy_active job root p
  | Op_startup live => reconcile_startup live
  | Op_prepare_forget job => void (prepare_forget job)
  | Op_finish job p root state => void (finish job p root state)
  | Op_discover root p active => void (discover root p active)
  | Op_inspect key => void (inspect key)
  | Op_adopt key revision => void (adopt key revision)
  | Op_retention key revision keep seconds => void (retention key revision keep seconds)
  | Op_release key revision => void (release_review key revision)
  | Op_request key revision id undo => void (request_delete key revision id undo)
  | Op_cancel key => void (cancel_delete key)
  | Op_execute key => void (execute_delete key)
  | Op_relocate job destination => relocate job destination
  | Op_tick => tick
  | Op_quarantine => quarantine_restore
  | Op_close => close
  | Op_settings s => set_settings s
  | Op_protect roots => protect_roots roots
  | Op_configure_scan t => configure_scan t
  | Op_preview_retention days => void (preview_retention days)
  | Op_apply_retention key => void (apply_retention key)
  | Op_submit kind artifact id t => void (submit_task kind artifact id t)
  | Op_run_task key => void (execute_task key)
  | Op_stage key revision id paths root => void (stage_recovery key revision id paths root)
  | Op_claim key consumer import_id digest => void (claim_recovery key consumer import_id digest)
  | Op_receipt key consumer r => void (recovery_receipt key consumer r)
  | Op_cancel_recovery key consumer ack => void (cancel_recovery key consumer ack)
  | Op_prune key => prune_receipted_source key
  end.

(** C9: Whatever operation the inventory runs, and wherever a call fails or the process
    dies, the disk changes only by steps that keep every entry, move a directory whole,
    or remove one entry that the records of that very moment authorize: a running
    deletion of an owned payload that is neither kept nor held, in its own verified
    directory, outside every configured directory, and of an entry its manifest lists
    with the same identity (a file unchanged); or a final receipt that acknowledges that
    file with the digest it has. *)
Theorem removals_are_authorized (o : InventoryOp) w : keyed w -> rtc careful_step w (perform o w).1.
Proof.
  enough (G : steps careful (perform o)) by (intros Hk; by apply G).
  pose proof allocate_harmless. pose proof register_legacy_harmless. pose proof prepare_forget_harmless. pose proof finish_harmless.
  pose proof adopt_harmless. pose proof retention_harmless. pose proof release_review_harmless. pose proof cancel_delete_harmless.
  pose proof quarantine_harmless. pose proof set_settings_harmless. pose proof protect_roots_harmless. pose proof configure_scan_harmless.
  pose proof preview_retention_harmless. pose proof apply_retention_harmless. pose proof submit_task_harmless. pose proof claim_harmless.
  pose proof receipt_harmless. pose proof cancel_recovery_harmless. pose proof relocate_careful. pose proof reconcile_startup_careful. pose proof tick_careful.
  destruct o; unfold perform, void, request_delete, close; step_through.
  apply harmless_careful, modify_harmless. intros w'. by split; [intros []|].
Qed.
End Authority.
