(* ===== verification/Calm.v ===== *)
(** * Runs in which nothing fails

    With an oracle that lets every call through, reading calls return what the disk
    holds: [yields].  The manifest of a well-formed payload lists each entry below it
    once. *)

From stdpp Require Import sorting.
From S2P Require Import Prelude RustStr Tree PayloadFs PayloadLogic.

#[local] Unset Default Proof Using.

Class Calm (O : Oracle) := calm n : @fault O n = Fine.

Section Yields.
Context {O : Oracle} {C : Calm O} {W : Type} {D : HasDisk W}.

(** What an action returns from a state, however many calls went before. *)
Definition yields {A} (m : Act W A) (w : W) (a : A) : Prop := forall n, (m (set_calls n w)).2 = Fin a.

Lemma yields_ret {A} (a : A) w : yields (mret a) w a.
Proof. done. Qed.

Lemma yields_bind {A B} (m : Act W A) (k : A -> Act W B) w a b : quiet m -> yields m w a -> yields (k a) w b -> yields (m ≫= k) w b.
Proof.
  intros Hq Hm Hk n. specialize (Hm n). destruct (Hq (set_calls n w)) as [n' Hn]. rewrite bind_eq. destruct (m (set_calls n w)) as [w1 o]. cbn in *.
  subst w1 o. rewrite set_calls_set_calls. apply Hk.
Qed.

Lemma yields_unless b e w : b = true -> yields (unless b e) w tt.
Proof. by intros ->. Qed.

Lemma yields_attempt {A} (m : Act W A) w a : yields m w a -> yields (attempt m) w (Ok a).
Proof. intros Hm n. specialize (Hm n). unfold attempt. destruct (m (set_calls n w)) as [w1 o]. cbn in *. by subst o. Qed.

Lemma yields_run {A} (m : Act W A) w a : quiet m -> yields m w a -> exists n, m w = (set_calls n w, Fin a).
Proof.
  intros Hq Hm. specialize (Hm (calls w)). rewrite set_calls_same in Hm. destruct (Hq w) as [n Hn]. exists n.
  destruct (m w) as [w1 o]. cbn in *. by subst.
Qed.

Lemma io_yields w : exists n, (io w).2 = Fin n.
Proof. rewrite io_eq. rewrite calm. by eexists. Qed.

(** A call whose number does not matter. *)
Lemma yields_io {B} (k : nat -> Act W B) w b : (forall n, yields (k n) w b) -> yields (io ≫= k) w b.
Proof. intros Hk n. rewrite bind_eq, io_eq, calm, set_calls_set_calls. apply Hk. Qed.

Lemma yields_disk {B} (k : Disk -> Act W B) w b : yields (k (disk w)) w b -> yields (the_disk ≫= k) w b.
Proof. intros Hk n. rewrite disk_bind, disk_set_calls. apply Hk. Qed.

Lemma open_at_yields dir n b w pe e : disk w !! dir = Some pe -> is_dir pe = true -> disk w !! child dir n = Some e ->
  (is_dir e = true \/ b = false /\ is_file e = true) -> yields (open_at dir n b) w (child dir n).
Proof.
  intros Hp Hpd He Hk. apply yields_io. intros _. apply yields_disk. rewrite Hp, He, Hpd. cbn [negb].
  unfold is_dir, is_file in Hk. destruct Hk as [Hk%bool_decide_eq_true|[-> Hk%bool_decide_eq_true]]; rewrite Hk; apply yields_ret.
Qed.

Lemma metadata_yields h w e : disk w !! h = Some e -> yields (metadata h) w e.
Proof. intros He. apply yields_io. intros _. apply yields_disk. rewrite He. apply yields_ret. Qed.

(** Every directory on the way to [p], and [p], is there. *)
Definition walkable (d : Disk) (p : path) : Prop := forall q : path, q `prefix_of` p -> exists e, d !! q = Some e /\ is_dir e = true.

Lemma walkable_prefix d p q : walkable d p -> q `prefix_of` p -> walkable d q.
Proof. intros Hw Hq x Hx. apply Hw. by etrans. Qed.

Lemma open_dirs_yields p : forall base w, walkable (disk w) (base ++ p) -> yields (fold_acts (fun dir name => open_at dir name true) p base) w (base ++ p).
Proof.
  induction p as [|c p IH]; intros base w Hw; cbn [fold_acts]; [rewrite app_nil_r; apply yields_ret|].
  destruct (Hw base) as (pe & Hpe & Hpd); [by apply prefix_app_r|].
  assert (E : base ++ c :: p = child base c ++ p) by (unfold child; by rewrite <- app_assoc).
  destruct (Hw (child base c)) as (e & He & Hd); [rewrite E; by apply prefix_app_r|].
  eapply yields_bind; [apply quiet_open_at|eapply open_at_yields; [done..|by left]|]. rewrite E in *. by apply IH.
Qed.

Definition no_dots (p : path) : bool := forallb (fun c => negb (bool_decide (c = lit ".")) && negb (bool_decide (c = lit ".."))) p.

Lemma open_dir_yields p w : no_dots p = true -> walkable (disk w) p -> yields (open_dir p) w p.
Proof.
  intros Hn Hw. unfold open_dir. eapply yields_bind; [apply quiet_absolute|by apply yields_unless|]. apply yields_io. intros _.
  by apply (open_dirs_yields p []).
Qed.

(** ** Listings *)

Lemma elem_of_children (d : Disk) dir n : n ∈ children d dir <-> is_Some (d !! child dir n).
Proof.
  unfold children. rewrite list_elem_of_omap. split.
  - intros ([p e] & Hin & Hp). apply elem_of_map_to_list in Hin. destruct p as [|c p]; [done|]. case_bool_decide as E; [|done].
    injection Hp as <-. exists e. unfold child, file_name. rewrite <- E, <- app_removelast_last by done. done.
  - intros [e He]. exists (child dir n, e). split; [by apply elem_of_map_to_list|]. unfold child. destruct (dir ++ [n]) eqn:E; [by destruct dir|].
    rewrite <- E, removelast_last, bool_decide_eq_true_2 by done. unfold file_name. by rewrite last_last.
Qed.

Lemma omap_nodup {A B} (f : A -> option B) (l : list A) : (forall x y b, f x = Some b -> f y = Some b -> x = y) -> NoDup l -> NoDup (omap f l).
Proof.
  intros Hf Hl. induction Hl as [|x l Hx Hl IH]; cbn; [constructor|]. destruct (f x) as [b|] eqn:E; [|done]. constructor; [|done].
  rewrite list_elem_of_omap. intros (y & Hy & Hb). rewrite (Hf x y b E Hb) in Hx. done.
Qed.

Lemma children_nodup (d : Disk) dir : NoDup (children d dir).
Proof.
  assert (E : children d dir = omap (fun p => match p with [] => None | _ => if bool_decide (removelast p = dir) then Some (file_name p) else None end) (map fst (map_to_list d))).
  { unfold children. induction (map_to_list d) as [|[p e] l IH]; [done|]. cbn. by rewrite IH. }
  rewrite E. apply omap_nodup; [|apply NoDup_fst_map_to_list]. intros x y b. destruct x as [|c x], y as [|c' y]; try done.
  case_bool_decide as E1; [|done]. case_bool_decide as E2; [|done]. intros [= <-] [= Hb].
  rewrite (app_removelast_last [] (l := c :: x)), (app_removelast_last [] (l := c' :: y)) by done. rewrite E1, E2. unfold file_name in Hb. by rewrite Hb.
Qed.

(** ** Payload directories that can be listed *)

Definition below (d : Disk) (base : path) : list path :=
  List.filter (fun p => bool_decide (base `prefix_of` p) && negb (bool_decide (p = base))) (map fst (map_to_list d)).

Record standing (d : Disk) (base : path) : Prop := {
  st_parent : forall (p : path) n e, d !! (base ++ p ++ [n]) = Some e -> exists pe, d !! (base ++ p) = Some pe /\ is_dir pe = true;
  st_kind : forall (p : path) e, p <> [] -> d !! (base ++ p) = Some e -> is_file e || is_dir e = true;
  st_depth : forall (p : path) e, d !! (base ++ p) = Some e -> is_dir e = true -> (length p <= 64)%nat;
  st_count : Z.of_nat (length (below d base)) <= 100000;
  st_dots : forall p : path, is_Some (d !! (base ++ p)) -> no_dots p = true
}.

Lemma elem_of_below d base r : r <> [] -> is_Some (d !! (base ++ r)) -> base ++ r ∈ below d base.
Proof.
  intros Hr [e He]. unfold below. apply elem_of_filter_bool. split.
  - apply list_elem_of_fmap. exists (base ++ r, e). split; [done|by apply elem_of_map_to_list].
  - apply andb_true_iff. split; [apply bool_decide_eq_true; by apply prefix_app_r|]. apply negb_true_iff, bool_decide_eq_false. intros E. apply Hr.
    eapply app_inv_head. by rewrite E, app_nil_r.
Qed.

Lemma below_bound d base l : NoDup l -> (forall r, r ∈ l -> r <> [] /\ is_Some (d !! (base ++ r))) -> (length l <= length (below d base))%nat.
Proof.
  intros Hnd Hl. rewrite <- (length_fmap (app base) l). apply submseteq_length, NoDup_submseteq.
  - apply NoDup_fmap; [|done]. intros x y Hxy. by eapply app_inv_head.
  - intros p (r & -> & Hr)%list_elem_of_fmap. destruct (Hl r Hr). by apply elem_of_below.
Qed.

Definition paths (out : list FileEntry) : list path := map fe_path out.

Definition sound (d : Disk) (base : path) (f : FileEntry) : Prop :=
  fe_path f <> [] /\ fe_digest f = None /\ exists e, d !! (base ++ fe_path f) = Some e /\ fe_identity f = identity e.

Section Walk.
Context (d : Disk) (base : path) (Hst : standing d base).

(** What is listed so far: real entries, each once. *)
Definition fair (out : list FileEntry) : Prop := NoDup (paths out) /\ Forall (sound d base) out.

Lemma fair_length out : fair out -> (length out <= length (below d base))%nat.
Proof.
  intros [Hnd Hs]. rewrite <- (length_map fe_path out). apply below_bound; [done|]. intros r Hr.
  apply list_elem_of_fmap in Hr as (f & -> & Hf). rewrite Forall_forall in Hs. destruct (Hs f Hf) as (H1 & _ & e & He & _). split; [done|by exists e].
Qed.

(** The entries under one name. *)
Definition covers (prefix : path) (ns : list str) (new : list FileEntry) : Prop :=
  (forall f, f ∈ new -> exists n r, n ∈ ns /\ fe_path f = prefix ++ n :: r)
  /\ forall n r, n ∈ ns -> is_Some (d !! (base ++ prefix ++ n :: r)) -> prefix ++ n :: r ∈ paths new.

Definition apart (prefix : path) (ns : list str) (out : list FileEntry) : Prop := forall f n r, f ∈ out -> n ∈ ns -> fe_path f <> prefix ++ n :: r.

Lemma parents_up (p : path) : forall (r : path) e, d !! (base ++ p ++ r) = Some e -> r <> [] -> exists pe, d !! (base ++ p) = Some pe /\ is_dir pe = true.
Proof.
  intros r. induction r as [|n r IH] using rev_ind; [done|]. intros e He _. destruct r as [|m r].
  - by eapply st_parent.
  - rewrite app_assoc in He. destruct (st_parent _ _ Hst (p ++ m :: r) n e) as (pe & Hpe & _); [by rewrite <- app_assoc in He |-*|].
    eapply (IH pe); [done|done].
Qed.

Lemma up (q r : path) : is_Some (d !! (base ++ q ++ r)) -> is_Some (d !! (base ++ q)).
Proof.
  intros [e He]. destruct r as [|n r]; [rewrite app_nil_r in He; by exists e|]. destruct (parents_up q (n :: r) e He) as (pe & Hpe & _); [done|]. by exists pe.
Qed.

Lemma walk_names_yields room w prefix : disk w = d -> (length prefix + room = 64)%nat ->
  (forall p n out, (length (p ++ [n]) + room = 65)%nat -> is_Some (d !! (base ++ p ++ [n])) -> (exists e, d !! (base ++ p ++ [n]) = Some e /\ is_dir e = true) ->
     fair out -> (forall f x r, f ∈ out -> fe_path f <> (p ++ [n]) ++ x :: r) ->
     exists new, yields (walk room 100000 (base ++ p ++ [n]) (p ++ [n]) out) w (out ++ new) /\ fair (out ++ new) /\
       covers (p ++ [n]) (children d (base ++ p ++ [n])) new) ->
  (exists pe, d !! (base ++ prefix) = Some pe /\ is_dir pe = true) ->
  forall ns out, NoDup ns -> (forall n, n ∈ ns -> n ∈ children d (base ++ prefix)) -> fair out -> apart prefix ns out ->
  exists new, yields (walk_names (walk room 100000) (base ++ prefix) prefix 100000 ns out) w (out ++ new) /\ fair (out ++ new) /\ covers prefix ns new.
Proof.
  intros Hw Hroom Hrec (pe & Hpe & Hpd). induction ns as [|n ns IH]; intros out Hnd Hns Hfair Hapart; cbn [walk_names].
  { exists []. rewrite app_nil_r. split_and!; [apply yields_ret|done|]. split; [by intros f ?%elem_of_nil|by intros n r ?%elem_of_nil]. }
  apply NoDup_cons in Hnd as [Hn Hnd]. assert (Hch : is_Some (d !! child (base ++ prefix) n)) by (apply elem_of_children, Hns; left).
  destruct Hch as [e He]. unfold child in He. rewrite <- app_assoc in He.
  set (f := mkFileEntry (prefix ++ [n]) (identity e) None).
  assert (Hnew : fair (out ++ [f])).
  { destruct Hfair as [Hf1 Hf2]. split.
    - unfold paths. rewrite map_app. apply NoDup_app. split_and!; [done| |apply NoDup_singleton]. intros p (g & -> & Hg)%list_elem_of_fmap Hp.
      apply list_elem_of_singleton in Hp. by apply (Hapart g n [] Hg); [left|].
    - apply Forall_app. split; [done|]. constructor; [|done]. split_and!; [by destruct prefix|done|by exists e]. }
  assert (Hlim : Z.of_nat (length out) < 100000).
  { pose proof (fair_length _ Hnew) as Hl. rewrite length_app in Hl. pose proof (st_count _ _ Hst). cbn in Hl. lia. }
  assert (Hfirst : exists new1, yields (if is_dir e then walk room 100000 (child (base ++ prefix) n) (child prefix n) (out ++ [f]) else mret (out ++ [f])) w ((out ++ [f]) ++ new1)
    /\ fair ((out ++ [f]) ++ new1) /\ covers (prefix ++ [n]) (children d (base ++ prefix ++ [n])) new1).
  { destruct (is_dir e) eqn:Hd.
    - unfold child. rewrite <- app_assoc. apply Hrec; [rewrite length_app; cbn; lia|by exists e|by exists e|done|].
      intros g x r Hg E. rewrite <- app_assoc in E. cbn in E. apply elem_of_app in Hg as [Hg|Hg%list_elem_of_singleton]; [by apply (Hapart g n (x :: r) Hg); [left|]|].
      subst g. cbn in E. apply app_inv_head in E. done.
    - exists []. rewrite app_nil_r. split_and!; [apply yields_ret|done|]. split; [by intros g ?%elem_of_nil|]. intros m r [em Hm]%elem_of_children _. exfalso.
      destruct (st_parent _ _ Hst (prefix ++ [n]) m em) as (pe' & Hpe' & Hd'); [unfold child in Hm; by rewrite <- app_assoc in Hm|].
      pose proof (eq_trans (eq_sym He) Hpe') as [= ->]. congruence. }
  destruct Hfirst as (new1 & Hy1 & Hf1 & Hc1a & Hc1b).
  destruct (IH ((out ++ [f]) ++ new1)) as (new2 & Hy2 & Hf2 & Hc2a & Hc2b); [done|intros m Hm; apply Hns; by right|done| |].
  { intros g m r Hg Hm E. apply elem_of_app in Hg as [[Hg|Hg%list_elem_of_singleton]%elem_of_app|Hg].
    - by apply (Hapart g m r Hg); [right|].
    - subst g. cbn in E. apply app_inv_head in E. injection E as -> _. done.
    - destruct (Hc1a g Hg) as (m' & r' & _ & Hp). rewrite Hp, <- app_assoc in E. apply app_inv_head in E. injection E as -> _. done. }
  exists ([f] ++ new1 ++ new2). rewrite !app_assoc. split_and!; [|done|].
  - eapply yields_bind; [apply steps_unless, _|apply yields_unless; lia|].
    eapply yields_bind; [apply quiet_open_at| |].
    { eapply open_at_yields; [by rewrite Hw|done|rewrite Hw; unfold child; by rewrite <- app_assoc|].
      pose proof (st_kind _ _ Hst (prefix ++ [n]) e) as Hk. destruct (is_dir e); [by left|right]. rewrite orb_false_r in Hk. split; [done|]. apply Hk; [by destruct prefix|done]. }
    eapply yields_bind; [apply quiet_metadata|apply metadata_yields; rewrite Hw; unfold child; by rewrite <- app_assoc|].
    eapply yields_bind; [apply steps_unless, _|apply yields_unless; eapply (st_kind _ _ Hst (prefix ++ [n])); [by destruct prefix|done]|].
    cbv zeta. eapply yields_bind; [|exact Hy1|exact Hy2]. step_through; apply quiet_walk.
  - split.
    + intros g [[Hg%list_elem_of_singleton|Hg]%elem_of_app|Hg]%elem_of_app.
      * subst g. exists n, []. split; [left|done].
      * destruct (Hc1a g Hg) as (m & r & _ & Hp). exists n, (m :: r). split; [left|]. by rewrite Hp, <- app_assoc.
      * destruct (Hc2a g Hg) as (m & r & Hm & Hp). exists m, r. split; [by right|done].
    + intros m r [->|Hm]%elem_of_cons Hs; unfold paths; rewrite !map_app, !elem_of_app.
      * destruct r as [|m r]; [left; left; cbn; left|left; right].
        assert (E : prefix ++ n :: m :: r = (prefix ++ [n]) ++ m :: r) by (by rewrite <- app_assoc). rewrite E in Hs |- *. apply Hc1b; [|done].
        apply elem_of_children. unfold child. assert (E1 : (base ++ prefix ++ [n]) ++ [m] = base ++ (prefix ++ [n; m])) by (by rewrite <- !app_assoc).
        rewrite E1. apply (up _ r). by rewrite <- app_assoc in Hs |- *.
      * right. by apply Hc2b.
Qed.

Lemma children_bound prefix : (length (children d (base ++ prefix)) <= length (below d base))%nat.
Proof.
  rewrite <- (length_fmap (fun n => prefix ++ [n]) (children d (base ++ prefix))). apply below_bound.
  - apply NoDup_fmap; [|apply children_nodup]. intros x y Hxy. apply app_inv_head in Hxy. by injection Hxy.
  - intros r (n & -> & Hn%elem_of_children)%list_elem_of_fmap. split; [by destruct prefix|]. unfold child in Hn. by rewrite <- app_assoc in Hn.
Qed.

Lemma walk_yields room : forall w prefix out, disk w = d -> (length prefix + room = 65)%nat ->
  (exists pe, d !! (base ++ prefix) = Some pe /\ is_dir pe = true) -> fair out -> (forall f x r, f ∈ out -> fe_path f <> prefix ++ x :: r) ->
  exists new, yields (walk room 100000 (base ++ prefix) prefix out) w (out ++ new) /\ fair (out ++ new) /\ covers prefix (children d (base ++ prefix)) new.
Proof.
  induction room as [|room IH]; intros w prefix out Hw Hroom Hdir Hfair Hout.
  { destruct Hdir as (pe & Hpe & Hd). pose proof (st_depth _ _ Hst prefix pe Hpe Hd). lia. }
  destruct (walk_names_yields room w prefix Hw ltac:(lia)) with (ns := children d (base ++ prefix)) (out := out) as (new & Hy & Hf & Hc); try done.
  - intros p n out' Hr _ Hd Hf Ho. apply (IH w (p ++ [n]) out'); [done|lia|done|done|done].
  - apply children_nodup.
  - intros f n r Hf _. by apply Hout.
  - exists new. split; [|done]. cbn [walk]. eapply yields_bind; [apply quiet_names| |exact Hy].
    apply yields_io. intros _. apply yields_disk. rewrite Hw. cbv zeta. eapply yields_bind; [apply steps_unless, _|apply yields_unless|apply yields_ret].
    pose proof (children_bound prefix). pose proof (st_count _ _ Hst). lia.
Qed.

(** A manifest lists the payload exactly. *)
Record exact (files : list FileEntry) : Prop := {
  ex_nodup : NoDup (paths files);
  ex_sound : forall f, f ∈ files -> sound d base f;
  ex_all : forall r : path, r <> [] -> is_Some (d !! (base ++ r)) -> r ∈ paths files
}.

Lemma manifest_yields w : disk w = d -> (exists pe, d !! base = Some pe /\ is_dir pe = true) -> exists files, yields (manifest base 100000) w files /\ exact files.
Proof.
  intros Hw Hdir. destruct (walk_yields 65 w [] []) as (new & Hy & [Hf1 Hf2] & _ & Hc); [done|done|by rewrite app_nil_r|by split; [constructor|]|by intros f x r ?%elem_of_nil|].
  cbn in Hf1, Hf2, Hy. rewrite app_nil_r in Hc. exists (sort_entries new). split.
  - unfold manifest. eapply yields_bind; [apply quiet_walk| |apply yields_ret]. by rewrite app_nil_r in Hy.
  - assert (Hp : sort_entries new ≡ₚ new) by apply merge_sort_Permutation. split.
    + by rewrite (Permutation_map fe_path Hp).
    + intros f. rewrite Hp. rewrite Forall_forall in Hf2. apply Hf2.
    + intros [|n r] Hr Hs; [done|]. unfold paths. rewrite (Permutation_map fe_path Hp). apply Hc; [|done]. apply elem_of_children.
      unfold child. by apply (up [n] r).
Qed.
End Walk.

(** ** Runs that go through *)

Definition goes {A} (m : Act W A) (w : W) (Q : A -> W -> Prop) : Prop := exists w' a, m w = (w', Fin a) /\ Q a w'.

Lemma goes_bind {A B} (m : Act W A) (k : A -> Act W B) w R Q : goes m w R -> (forall a w', R a w' -> goes (k a) w' Q) -> goes (m ≫= k) w Q.
Proof. intros (w1 & a & Hm & Hr) Hk. unfold goes. rewrite bind_eq, Hm. by apply Hk. Qed.

Lemma goes_read {A B} (m : Act W A) (k : A -> Act W B) w a Q : quiet m -> yields m w a -> (forall n, goes (k a) (set_calls n w) Q) -> goes (m ≫= k) w Q.
Proof. intros Hq Hm Hk. destruct (yields_run m w a Hq Hm) as [n Hn]. unfold goes. rewrite bind_eq, Hn. apply Hk. Qed.

Lemma goes_ret {A} (a : A) w (Q : A -> W -> Prop) : Q a w -> goes (mret a) w Q.
Proof. intros HQ. by exists w, a. Qed.

Lemma goes_each {A} (I : list A -> list A -> W -> Prop) (l : list A) (f : A -> Act W unit) w :
  (forall pre x todo w, l = pre ++ x :: todo -> I pre (x :: todo) w -> goes (f x) w (fun _ => I (pre ++ [x]) todo)) ->
  I [] l w -> goes (for_each l f) w (fun _ => I l []).
Proof.
  intros Hf. enough (G : forall todo pre w, l = pre ++ todo -> I pre todo w -> goes (for_each todo f) w (fun _ => I l [])) by (by apply G).
  induction todo as [|x todo IH]; intros pre v Hl Hi; cbn [for_each].
  - apply goes_ret. rewrite app_nil_r in Hl. by subst pre.
  - eapply goes_bind; [by apply (Hf pre x todo)|]. intros [] v' Hv. apply (IH (pre ++ [x])); [by rewrite <- app_assoc|done].
Qed.

Lemma yields_calls {A} (m : Act W A) w a n : yields m w a -> yields m (set_calls n w) a.
Proof. intros Hm k. rewrite set_calls_set_calls. apply Hm. Qed.

Lemma unlink_goes p n b w e Q : disk w !! child p n = Some e -> is_dir e = b -> (b = true -> children (disk w) (child p n) = []) ->
  (forall k m, Q tt (set_calls m (set_disk (unlinked k p n (disk w)) w))) -> goes (unlink p n b) w Q.
Proof.
  intros He Hb Hc HQ. unfold goes, unlink. rewrite bind_eq, io_eq, calm, disk_bind, disk_set_calls, He, !unless_bind.
  subst b. rewrite eqb_reflx. destruct (is_dir e) eqn:Hd; cbn [negb orb].
  - rewrite bool_decide_eq_true_2 by by apply Hc. rewrite modify_bind, bind_eq, io_eq, calm, set_disk_set_calls, set_calls_set_calls. by eexists _, tt.
  - rewrite modify_bind, bind_eq, io_eq, calm, set_disk_set_calls, set_calls_set_calls. by eexists _, tt.
Qed.

Lemma open_parts_yields p : forall dir w, (forall q : path, q `prefix_of` p -> exists e, disk w !! (dir ++ q) = Some e /\ is_dir e = true) -> yields (open_parts dir p) w (dir ++ p).
Proof.
  induction p as [|c p IH]; intros dir w Hp; cbn [open_parts]; [rewrite app_nil_r; apply yields_ret|].
  destruct (Hp []) as (pe & Hpe & Hpd); [apply prefix_nil|]. rewrite app_nil_r in Hpe. destruct (Hp [c]) as (e & He & Hd); [by exists p|].
  eapply yields_bind; [apply quiet_open_at|eapply open_at_yields; [done..|by left]|].
  assert (E : dir ++ c :: p = child dir c ++ p) by (unfold child; by rewrite <- app_assoc). rewrite E. apply IH. intros q Hq.
  unfold child. rewrite <- app_assoc. apply (Hp ([c] ++ q)). by apply prefix_cons.
Qed.

Lemma open_relative_yields dir p w : no_dots p = true -> (forall q : path, q `prefix_of` p -> exists e, disk w !! (dir ++ q) = Some e /\ is_dir e = true) ->
  yields (open_relative dir p) w (dir ++ p).
Proof.
  intros Hn Hp. unfold open_relative. eapply yields_bind; [apply steps_unless, _|by apply yields_unless|]. apply yields_io. intros _. by apply open_parts_yields.
Qed.

Lemma remove_entry_goes base f (q : path) n w e Q : fe_path f = q ++ [n] -> no_dots q = true ->
  (forall x : path, x `prefix_of` q -> exists pe, disk w !! (base ++ x) = Some pe /\ is_dir pe = true) ->
  disk w !! (base ++ q ++ [n]) = Some e -> is_file e || is_dir e = true -> same_object (fe_identity f) (identity e) = true ->
  is_dir e = true \/ identity e = fe_identity f -> (is_dir e = true -> children (disk w) (base ++ q ++ [n]) = []) ->
  (forall k m, Q tt (set_calls m (set_disk (unlinked k (base ++ q) n (disk w)) w))) -> goes (remove_entry base f) w Q.
Proof.
  intros Hf Hn Hup He Hk Hso Hid Hc HQ. unfold remove_entry. assert (Hpar : parent (fe_path f) = q) by (rewrite Hf; apply removelast_last).
  assert (Hd : directory (fe_identity f) = is_dir e).
  { unfold same_object in Hso. apply andb_true_iff in Hso as [_ Hso]. by apply eqb_prop in Hso. }
  assert (Hch : child (base ++ q) n = base ++ q ++ [n]) by (unfold child; by rewrite <- app_assoc).
  destruct (Hup q) as (pe & Hpe & Hpd); [done|].
  apply (goes_read _ _ _ (base ++ q)); [step_through| |].
  { rewrite Hpar. case_bool_decide as E; [|by apply open_relative_yields]. rewrite E, app_nil_r. by apply yields_io. }
  intros k1. rewrite Hf, last_snoc. apply (goes_read _ _ _ (base ++ q ++ [n])); [apply quiet_open_at| |].
  { rewrite <- Hch. apply yields_calls. eapply open_at_yields; [done|done|by rewrite Hch|]. rewrite Hd. destruct (is_dir e); [by left|right].
    by rewrite orb_false_r in Hk. }
  intros k2. apply (goes_read _ _ _ e); [apply quiet_metadata|by apply yields_calls, yields_calls, metadata_yields|]. intros k3. cbv zeta.
  apply (goes_read _ _ _ tt); [apply steps_unless, _|apply yields_unless|].
  { rewrite Hso. cbn [andb]. destruct Hid as [Hid|Hid]; [cbn; by rewrite Hid|]. by rewrite (bool_decide_eq_true_2 _ Hid), orb_true_r. }
  intros k4. rewrite Hd. eapply unlink_goes; [by rewrite !disk_set_calls, Hch|done|by rewrite !disk_set_calls, Hch|].
  intros k m. rewrite !disk_set_calls, !set_disk_set_calls, !set_calls_set_calls. apply HQ.
Qed.
End Yields.

