(* ===== verification/DeletionRun.v ===== *)
(** * Deletions that run to their end

    In a run in which nothing fails, the removal of a well-formed payload empties its
    directory, files first and then directories from the deepest up, removes it, and
    touches nothing else. *)

From S2P Require Import Prelude RustStr Tree PayloadFs Custody Inventory Deletion PayloadLogic Calm.

#[local] Unset Default Proof Using.
#[local] Set Keyed Unification.

Section Loops.
Context {O : Oracle} {C : Calm O} {W : Type} {D : HasDisk W}.

Lemma unlinked_lookup k x n (d : Disk) (p : path) : unlinked k x n d !! p =
  if decide (p = child x n) then None else if decide (p = x) then touch_dir k <$> d !! p else d !! p.
Proof.
  unfold unlinked. assert (x <> child x n) by (unfold child; intros E; apply (f_equal length) in E; rewrite length_app in E; cbn in E; lia).
  destruct (decide (p = child x n)) as [->|Hn]; [by rewrite lookup_alter_ne, lookup_delete_eq|].
  destruct (decide (p = x)) as [->|Hx]; [by rewrite lookup_alter_eq, lookup_delete_ne|by rewrite lookup_alter_ne, lookup_delete_ne].
Qed.

(** [d1] is [d] without the entries [gone] below [base]. *)
Record remains (d : Disk) (base : path) (gone : list path) (d1 : Disk) : Prop := {
  re_gone : forall r : path, r ∈ gone -> r <> [] /\ d1 !! (base ++ r) = None;
  re_left : forall (r : path) e, r ∉ gone -> d !! (base ++ r) = Some e -> exists e', d1 !! (base ++ r) = Some e' /\ same_entry e e';
  re_none : forall r : path, d !! (base ++ r) = None -> d1 !! (base ++ r) = None;
  re_out : forall p : path, ~ base `prefix_of` p -> d1 !! p = d !! p
}.

Lemma remains_start d base : remains d base [] d.
Proof. split; [by intros r ?%elem_of_nil|intros r e _ He; by exists e|done|done]. Qed.

Lemma remains_step d base gone d1 k (q : path) n : remains d base gone d1 -> remains d base (gone ++ [q ++ [n]]) (unlinked k (base ++ q) n d1).
Proof.
  intros [H1 H2 H3 H4]. assert (E : child (base ++ q) n = base ++ q ++ [n]) by (unfold child; by rewrite <- app_assoc). split.
  - intros r [Hr|Hr%list_elem_of_singleton]%elem_of_app; rewrite unlinked_lookup, E.
    + destruct (H1 r Hr) as [Hn Hd]. split; [done|]. repeat case_decide; try done. by rewrite Hd.
    + subst r. split; [by destruct q|]. by rewrite decide_True.
  - intros r e Hr He. rewrite not_elem_of_app, list_elem_of_singleton in Hr. destruct Hr as [Hr Hne]. destruct (H2 r e Hr He) as (e' & He' & Hs).
    rewrite unlinked_lookup, E, decide_False by (intros Heq; by apply app_inv_head in Heq). case_decide as Hx; [|by exists e'].
    exists (touch_dir k e'). rewrite He'. split; [done|]. etrans; [done|apply touch_dir_same].
  - intros r Hr. rewrite unlinked_lookup. rewrite (H3 r Hr). by repeat case_decide.
  - intros p Hp. rewrite unlinked_lookup, E. rewrite decide_False by (intros ->; apply Hp; by apply prefix_app_r).
    rewrite decide_False by (intros ->; apply Hp; by apply prefix_app_r). by apply H4.
Qed.

Section Empty.
Context (w0 : W) (base : path) (files : list FileEntry).
Context (Hst : standing (disk w0) base) (Hex : exact (disk w0) base files).
Context (Hbase : exists e, disk w0 !! base = Some e /\ is_dir e = true).

Definition order : list FileEntry := deepest_first files.

(** The world after some of the entries have gone. *)
Definition at_work (gone : list path) (w : W) : Prop := exists m d1, w = set_calls m (set_disk d1 w0) /\ remains (disk w0) base gone d1.

Lemma order_perm : order ≡ₚ files.
Proof. apply sort_by_key_perm. Qed.

Lemma order_sound f : f ∈ order -> sound (disk w0) base f.
Proof. rewrite order_perm. apply Hex. Qed.

Lemma same_object_refl e : same_object (identity e) (identity e) = true.
Proof. unfold same_object. by rewrite !Z.eqb_refl, eqb_reflx. Qed.

(** One entry goes, when what is above it is still there and nothing is below it. *)
Lemma entry_goes gone f w (q : path) n : at_work gone w -> f ∈ order -> fe_path f = q ++ [n] -> q ++ [n] ∉ gone ->
  (forall x : path, x `prefix_of` q -> x ∉ gone) ->
  (directory (fe_identity f) = true -> forall m, is_Some (disk w0 !! (base ++ q ++ [n] ++ [m])) -> q ++ [n] ++ [m] ∈ gone) ->
  goes (remove_entry base f) w (fun _ => at_work (gone ++ [q ++ [n]])).
Proof.
  intros (m & d1 & -> & Hr) Hf Hp Hn Hup Hsub. destruct (order_sound f Hf) as (_ & _ & e & He & Hi). rewrite Hp in He.
  destruct (re_left _ _ _ _ Hr (q ++ [n]) e Hn He) as (e' & He' & Hs). pose proof Hs as (Hk & Hdev & Hino & Hsame).
  assert (Hd' : is_dir e' = is_dir e) by (unfold is_dir; by rewrite Hk).
  apply (remove_entry_goes base f q n _ e'); rewrite ?disk_set_calls, ?disk_set_disk; try done.
  - assert (Hdots : no_dots (q ++ [n]) = true) by (apply (st_dots _ _ Hst); by exists e). unfold no_dots in *. rewrite forallb_app in Hdots.
    by apply andb_true_iff in Hdots as [Hdots _].
  - intros x [y ->]. destruct (parents_up _ _ Hst x (y ++ [n]) e) as (pe & Hpe & Hpd); [by rewrite <- app_assoc in He|by destruct y|].
    destruct (re_left _ _ _ _ Hr x pe) as (pe' & Hpe' & Hps & _); [apply Hup; by apply prefix_app_r|done|]. exists pe'. split; [done|]. unfold is_dir in *. by rewrite Hps.
  - unfold is_file. rewrite Hd', Hk. apply (st_kind _ _ Hst (q ++ [n])); [by destruct q|done].
  - rewrite Hi, (same_entry_identity _ _ _ Hs). apply same_object_refl.
  - rewrite Hd', Hi. destruct Hsame as [?| ->]; [by left|by right].
  - intros Hdir. rewrite Hd' in Hdir. apply elem_of_nil_inv. intros c [ec Hc]%elem_of_children. unfold child in Hc. rewrite <- !app_assoc in Hc.
    destruct (disk w0 !! (base ++ q ++ [n] ++ [c])) eqn:Ec.
    + destruct (re_gone _ _ _ _ Hr (q ++ [n] ++ [c])) as [_ Hg]; [apply Hsub; [by rewrite Hi|by eexists]|]. rewrite Hg in Hc. done.
    + rewrite (re_none _ _ _ _ Hr (q ++ [n] ++ [c]) Ec) in Hc. done.
  - intros k m'. exists m', (unlinked k (base ++ q) n d1). rewrite !set_disk_set_calls, set_calls_set_calls, set_disk_set_disk. split; [done|by apply remains_step].
Qed.

Definition plain_files (l : list FileEntry) : list FileEntry := List.filter (fun f => negb (directory (fe_identity f))) l.
Definition directories (l : list FileEntry) : list FileEntry := List.filter (fun f => directory (fe_identity f)) l.

Lemma elem_of_paths l (r : path) : r ∈ paths l <-> exists f, f ∈ l /\ fe_path f = r.
Proof. unfold paths. rewrite list_elem_of_fmap. split; [intros (f & -> & Hf)|intros (f & Hf & <-)]; by exists f. Qed.

Lemma order_nodup : NoDup (paths order).
Proof. unfold paths. rewrite order_perm. apply Hex. Qed.

Lemma order_split pre f todo : order = pre ++ f :: todo -> fe_path f ∉ paths pre /\ fe_path f ∉ paths todo.
Proof.
  intros E. pose proof order_nodup as Hn. rewrite E in Hn. unfold paths in *. rewrite map_app in Hn. apply NoDup_app in Hn as (_ & H1 & H2). cbn in *.
  apply NoDup_cons in H2 as [H2 _]. split; [|done]. intros Hin. apply (H1 _ Hin). left.
Qed.

Lemma last_part f : f ∈ order -> exists (q : path) n, fe_path f = q ++ [n].
Proof. intros Hf. destruct (order_sound f Hf) as (Hn & _). destruct (exists_last Hn) as (q & n & E). by exists q, n. Qed.

(** What is above an entry is a directory of the same listing, or the base. *)
Lemma above_dir f q n (x : path) g : f ∈ order -> fe_path f = q ++ [n] -> x `prefix_of` q -> g ∈ order -> fe_path g = x -> directory (fe_identity g) = true.
Proof.
  intros Hf Hp [y ->] Hg Hx. destruct (order_sound f Hf) as (_ & _ & e & He & _). rewrite Hp in He.
  destruct (parents_up _ _ Hst x (y ++ [n]) e) as (pe & Hpe & Hpd); [by rewrite <- app_assoc in He|by destruct y|].
  destruct (order_sound g Hg) as (_ & _ & e' & He' & Hi). rewrite Hx in He'. pose proof (eq_trans (eq_sym Hpe) He') as [= ->]. by rewrite Hi.
Qed.

Lemma files_goes w : at_work [] w ->
  goes (for_each order (fun f => if directory (fe_identity f) then mret tt else remove_entry base f)) w (fun _ => at_work (paths (plain_files order))).
Proof.
  intros Hw. apply (goes_each (fun pre _ => at_work (paths (plain_files pre)))); [|done]. intros pre f todo w' E Hi.
  assert (Hf : f ∈ order) by (rewrite E; apply elem_of_app; right; left). cbv beta in *. unfold plain_files, paths. rewrite List.filter_app, map_app. cbn [List.filter].
  destruct (directory (fe_identity f)) eqn:Hd; cbn [negb map]; [apply goes_ret; by rewrite app_nil_r|].
  destruct (last_part f Hf) as (q & n & Hp). rewrite Hp. apply entry_goes with (f := f); try done; [| |by rewrite Hd].
  - rewrite <- Hp. intros (g & Hg & Hin)%elem_of_paths. apply elem_of_filter_bool in Hg as [Hg _]. apply (proj1 (order_split _ _ _ E)). apply elem_of_paths. by exists g.
  - intros x Hx (g & Hg & Hgx)%elem_of_paths. apply elem_of_filter_bool in Hg as [Hg Hgd].
    rewrite (above_dir f q n x g) in Hgd; try done. rewrite E. apply elem_of_app. by left.
Qed.

Lemma sorted_around pre f todo g : order = pre ++ f :: todo -> g ∈ order ->
  ((length (fe_path f) < length (fe_path g))%nat -> g ∈ pre) /\ ((length (fe_path g) < length (fe_path f))%nat -> g ∉ pre).
Proof.
  intros E Hg. pose proof (sort_by_key_sorted (fun f => - slashes f) files) as Hs. fold (deepest_first files) in Hs. fold order in Hs. unfold sorted_key in Hs. rewrite E in Hs, Hg.
  assert (Hpre : forall x, x ∈ pre -> - slashes x <= - slashes f).
  { clear -Hs. induction pre as [|y pre IH]; intros x Hx; [by apply elem_of_nil in Hx|]. cbn in Hs. inversion Hs as [|y' l Hl Hall]; subst.
    apply elem_of_cons in Hx as [->|Hx]; [|by apply IH]. rewrite List.Forall_forall in Hall. apply Hall. apply in_or_app. right. by left. }
  assert (Htodo : forall x, x ∈ todo -> - slashes f <= - slashes x).
  { clear -Hs. induction pre as [|y pre IH]; intros x Hx; cbn in Hs; inversion Hs as [|y' l Hl Hall]; subst; [|by apply IH].
    rewrite List.Forall_forall in Hall. apply Hall. by apply list_elem_of_In. }
  unfold slashes in *. split.
  - intros Hlt. apply elem_of_app in Hg as [?|[->|Hg]%elem_of_cons]; [done|lia|]. specialize (Htodo g Hg). lia.
  - intros Hlt Hin. specialize (Hpre g Hin). lia.
Qed.

Lemma directories_goes w : at_work (paths (plain_files order)) w ->
  goes (for_each order (fun f => if directory (fe_identity f) then remove_entry base f else mret tt)) w (fun _ => at_work (paths (plain_files order) ++ paths (directories order))).
Proof.
  intros Hw. apply (goes_each (fun pre _ => at_work (paths (plain_files order) ++ paths (directories pre)))); [|by rewrite app_nil_r]. intros pre f todo w' E Hi.
  assert (Hf : f ∈ order) by (rewrite E; apply elem_of_app; right; left).
  assert (Hsame : forall g, g ∈ order -> fe_path g = fe_path f -> directory (fe_identity g) = directory (fe_identity f)).
  { intros g Hg Hpf. destruct (order_sound f Hf) as (_ & _ & e & He & ->), (order_sound g Hg) as (_ & _ & e' & He' & ->). rewrite Hpf in He'.
    by pose proof (eq_trans (eq_sym He) He') as [= ->]. }
  cbv beta in *. unfold directories, paths at 2. rewrite List.filter_app, map_app. cbn [List.filter].
  destruct (directory (fe_identity f)) eqn:Hd; cbn [map]; [|apply goes_ret; by rewrite app_nil_r].
  destruct (last_part f Hf) as (q & n & Hp). rewrite Hp, app_assoc. fold (paths (directories pre)).
  assert (Hin : forall g : FileEntry, g ∈ pre -> g ∈ order) by (intros g Hg; rewrite E; apply elem_of_app; by left).
  apply entry_goes with (f := f); try done; rewrite <- ?Hp.
  - rewrite not_elem_of_app, !elem_of_paths. split.
    + intros (g & Hg & Hgp). apply elem_of_filter_bool in Hg as [Hg Hgd]. by rewrite (Hsame g Hg Hgp) in Hgd.
    + intros (g & Hg & Hgp). apply elem_of_filter_bool in Hg as [Hg _]. apply (proj1 (order_split _ _ _ E)). apply elem_of_paths. by exists g.
  - intros x Hx. rewrite not_elem_of_app, !elem_of_paths. split; intros (g & Hg & Hgx); apply elem_of_filter_bool in Hg as [Hg Hgd].
    + by rewrite (above_dir f q n x g) in Hgd.
    + destruct (sorted_around _ _ _ g E (Hin g Hg)) as [_ Hno]. apply Hno; [|done]. rewrite Hgx, Hp, length_app. cbn. apply prefix_length in Hx. lia.
  - intros _ m Hm. rewrite elem_of_app, !elem_of_paths.
    assert (Hg : q ++ [n] ++ [m] ∈ paths order) by (unfold paths; rewrite order_perm; apply (ex_all _ _ _ Hex); [by destruct q|done]).
    apply elem_of_paths in Hg as (g & Hg & Hgp). destruct (directory (fe_identity g)) eqn:Hgd.
    + right. exists g. split; [|done]. apply elem_of_filter_bool. split; [|done]. apply (sorted_around _ _ _ g E Hg). rewrite Hgp, Hp, !length_app. cbn. lia.
    + left. exists g. split; [|done]. apply elem_of_filter_bool. by rewrite Hgd.
Qed.

(** Nothing is left below the base. *)
Lemma all_gone w : at_work (paths (plain_files order) ++ paths (directories order)) w -> forall r : path, r <> [] -> disk w !! (base ++ r) = None.
Proof.
  intros (m & d1 & -> & Hr) r Hn. rewrite disk_set_calls, disk_set_disk. destruct (disk w0 !! (base ++ r)) eqn:E; [|by apply (re_none _ _ _ _ Hr)].
  apply (re_gone _ _ _ _ Hr). assert (Hp : r ∈ paths order) by (unfold paths; rewrite order_perm; apply (ex_all _ _ _ Hex); [done|by eexists]).
  rewrite elem_of_app, !elem_of_paths. apply elem_of_paths in Hp as (g & Hg & Hgp). destruct (directory (fe_identity g)) eqn:Hgd.
  - right. exists g. split; [|done]. by apply elem_of_filter_bool.
  - left. exists g. split; [|done]. apply elem_of_filter_bool. by rewrite Hgd.
Qed.
End Empty.
End Loops.
