(* ===== verification/DeletionResume.v ===== *)
(** * A deletion survives interruptions

    A pending deletion of a payload that still is what its manifest says stays one,
    whatever fails and wherever the process dies; and once a run goes through, the
    payload is gone and nothing else is. *)

From S2P Require Import Prelude RustStr Tree PayloadFs Custody Inventory Deletion Handoff Upkeep PayloadLogic Authority Calm DeletionRun.

#[local] Unset Default Proof Using.
#[local] Set Keyed Unification.

(** ** A deletion that can go on *)

Section State.
(** [d0] is the disk before the first attempt, [base] the payload's path. *)
Context {T : Site} {d0 : Disk} {base : path}.

(** The payload is there, complete or partly removed: every entry below it is one the
    manifest lists, unchanged where it is a file. *)
Record payload_stands (d : Disk) (a : Artifact) : Prop := {
  ps_way : walkable d (ar_path a);
  ps_object : at_object d (ar_path a) (ar_identity a);
  ps_standing : standing d (ar_path a);
  ps_vouched : forall (r : path) e, r <> [] -> d !! (ar_path a ++ r) = Some e -> vouched (ar_files a) (mkFileEntry r (identity e) None) = true
}.

Definition payload_gone (d : Disk) (a : Artifact) : Prop := forall r : path, d !! (ar_path a ++ r) = None.

Record deletion (w : World) (key : str) (op : Operation) (a : Artifact) : Prop := {
  de_open : w_closed w = false;
  de_keyed : keyed w;
  de_op : db_operations (w_db w) !! key = Some op;
  de_row : db_artifacts (w_db w) !! op_artifact op = Some a;
  de_kind : op_kind op = lit "delete";
  de_pending : pending_state (op_state op) = true;
  de_request : exists k revision undo, op_request op = RequestDelete k revision undo false /\ (op_attempts op = 0 -> ar_revision a = revision);
  de_attempts : 0 <= op_attempts op;
  de_free : ar_owned a = true /\ ar_keep a = false /\ ar_hold a = None;
  de_unprotected : forall roots, db_protected_roots (w_db w) = Some roots -> protected roots (ar_path a) = false;
  de_root : walkable (w_disk w) (ar_root a) /\ at_object (w_disk w) (ar_root a) (Some (ar_root_identity a));
  de_child : immediate_child (ar_root a) (ar_path a) = true;
  de_dots : no_dots (ar_path a) = true;
  de_marker : exists s, w_sidecars w !! (ar_id a, ar_generation a) = Some s /\ marker_matches a s = true;
  de_payload : payload_stands (w_disk w) a \/ (1 <= op_attempts op /\ payload_gone (w_disk w) a);
  de_base : ar_path a = base;
  de_outside : forall p : path, ~ base `prefix_of` p -> p <> parent base -> w_disk w !! p = d0 !! p
}.

#[local] Abbreviation deleting := deletion.

(** What a deletion does not change of an artifact, and of an operation. *)
Definition same_payload (a a' : Artifact) : Prop :=
  ar_id a' = ar_id a /\ ar_generation a' = ar_generation a /\ ar_path a' = ar_path a /\ ar_root a' = ar_root a
  /\ ar_root_identity a' = ar_root_identity a /\ ar_identity a' = ar_identity a /\ ar_files a' = ar_files a
  /\ ar_owned a' = ar_owned a /\ ar_keep a' = ar_keep a /\ ar_hold a' = ar_hold a.

Definition same_operation (op op' : Operation) : Prop :=
  op_id op' = op_id op /\ op_artifact op' = op_artifact op /\ op_kind op' = op_kind op /\ op_request op' = op_request op.

Definition with_rows (op : Operation) (a : Artifact) (db : Database) : Database :=
  put_artifacts (<[ar_id a := a]> (db_artifacts db)) (put_operations (<[op_id op := op]> (db_operations db)) db).

Lemma deleting_ids w key op a : deleting w key op a -> op_id op = key /\ ar_id a = op_artifact op.
Proof. intros []. split; [by eapply k_operations|by eapply k_artifacts]. Qed.

Lemma payload_same d a a' : same_payload a a' -> payload_stands d a -> payload_stands d a'.
Proof.
  intros (H1 & H2 & H3 & H4 & H5 & H6 & H7 & _) [K1 K2 K3 K4]. split; [by rewrite H3|by rewrite H3, H6|by rewrite H3|].
  rewrite H3, H7. exact K4.
Qed.

Lemma marker_same a a' s : same_payload a a' -> marker_matches a' s = marker_matches a s.
Proof. intros (H1 & H2 & H3 & H4 & H5 & H6 & _). unfold marker_matches. by rewrite H1, H2, H3, H6. Qed.

(** The state after the deletion's own records have been written. *)
Lemma deleting_update w key op a op' a' n events : deleting w key op a -> same_operation op op' -> same_payload a a' ->
  pending_state (op_state op') = true -> 0 <= op_attempts op <= op_attempts op' -> 1 <= op_attempts op' ->
  deleting (put_calls n (put_db (put_events events (with_rows op' a' (w_db w))) w)) key op' a'.
Proof.
  intros Hd (O1 & O2 & O3 & O4) Ha Hp Hle Hone. destruct (deleting_ids _ _ _ _ Hd) as [Hk Hi]. pose proof Ha as (A1 & A2 & A3 & A4 & A5 & A6 & A7 & A8 & A9 & A10).
  destruct Hd as [D1 D2 D3 D4 D5 D6 D7 D8 D9 D10 D11 D12 D13 D14 D15 D16 D17]. split; cbn; try done.
  - destruct D2 as [K1 K2 K3]. split; cbn; [| |done]; intros k x; rewrite lookup_insert_Some; intros [[<- <-]|[_ Hx]]; auto.
  - rewrite O1, Hk. apply lookup_insert_eq.
  - rewrite O2, A1, Hi. apply lookup_insert_eq.
  - by rewrite O3.
  - destruct D7 as (k & rev & undo & Hr & _). exists k, rev, undo. rewrite O4. split; [done|lia].
  - lia.
  - by rewrite A8, A9, A10.
  - by rewrite A3.
  - by rewrite A4, A5.
  - by rewrite A3, A4.
  - by rewrite A3.
  - destruct D14 as (s & Hs & Hm). exists s. rewrite A1, A2. split; [done|]. by rewrite (marker_same _ _ _ Ha).
  - destruct D15 as [Hs|[_ Hg]]; [left; by eapply payload_same|right]. split; [lia|]. intros r. rewrite A3. apply Hg.
  - by rewrite A3.
Qed.

Lemma put_events_same db : put_events (db_events db) db = db.
Proof. by destruct db. Qed.

Definition started (op : Operation) : Operation := op_with_attempts (op_attempts op + 1) (op_with_state (lit "running") op).
Definition under_way (a : Artifact) : Artifact := ar_with_state (lit "deleting") a.

Lemma deleting_started w key op a n : deleting w key op a -> deleting (put_calls n (put_db (with_rows (started op) (under_way a) (w_db w)) w)) key (started op) (under_way a).
Proof.
  intros Hd. pose proof (de_attempts _ _ _ _ Hd). rewrite <- (put_events_same (with_rows _ _ _)).
  apply (deleting_update w key op a); [done|by repeat split|by repeat split|done|cbn; lia|cbn; lia].
Qed.

Lemma deleting_calls w key op a n : deleting w key op a -> deleting (put_calls n w) key op a.
Proof. intros []. split; try done. by destruct de_keyed0. Qed.
End State.

(** ** It goes through when nothing fails *)

Section Through.
Context {O : Oracle} {C : Calm O} {T : Site} {d0 : Disk} {base : path}.
#[local] Abbreviation deleting := (@deletion T d0 base).

Lemma root_child a : immediate_child (ar_root a) (ar_path a) = true -> ar_path a = ar_root a ++ [file_name (ar_path a)].
Proof.
  intros Hi. apply andb_true_iff in Hi as [Hi1 Hi2]. apply negb_true_iff, bool_decide_eq_false in Hi1. apply bool_decide_eq_true in Hi2.
  rewrite <- Hi2. by apply app_removelast_last.
Qed.

Lemma database_yields w : yields database w (w_db w).
Proof. done. Qed.
Lemma sql_yields {B} (k : nat -> Act World B) w b : (forall n, yields (k n) w b) -> yields (sql ≫= k) w b.
Proof. intros Hk n. unfold sql, call. rewrite bind_eq. cbn [fst snd]. rewrite calm. apply Hk. Qed.

Lemma verify_root_yields w key op a : deleting w key op a -> yields (verify_root a) w (ar_root a).
Proof.
  intros Hd. destruct (de_root _ _ _ _ Hd) as [Hway (e & He & Hi)]. unfold verify_root. apply sql_yields. intros _.
  eapply yields_bind; [apply quiet_database|apply database_yields|].
  eapply yields_bind; [case_match; [apply steps_unless|apply steps_ret]; apply _| |].
  { destruct (db_protected_roots (w_db w)) eqn:Ep; [|apply yields_ret]. apply yields_unless. by rewrite (de_unprotected _ _ _ _ Hd _ Ep). }
  eapply yields_bind; [apply quiet_open_dir|apply open_dir_yields; [|done]|].
  { pose proof (de_dots _ _ _ _ Hd) as Hn. rewrite (root_child a (de_child _ _ _ _ Hd)) in Hn. unfold no_dots in *. rewrite forallb_app in Hn. by apply andb_true_iff in Hn as [Hn _]. }
  eapply yields_bind; [apply quiet_metadata|by apply metadata_yields|]. eapply yields_bind; [apply steps_unless, _|by apply yields_unless|]. apply yields_ret.
Qed.

Lemma verify_yields w key op a : deleting w key op a -> payload_stands (w_disk w) a -> yields (verify a) w (ar_path a).
Proof.
  intros Hd Hp. destruct (ps_object _ _ Hp) as (e & He & Hi). unfold verify. eapply yields_bind; [apply quiet_verify_root|by eapply verify_root_yields|].
  eapply yields_bind; [apply quiet_open_dir|apply open_dir_yields; [by eapply de_dots|apply Hp]|].
  eapply yields_bind; [apply quiet_metadata|by apply metadata_yields|]. eapply yields_bind; [apply steps_unless, _|by apply yields_unless|].
  eapply yields_bind; [|  |apply yields_ret].
  { case_match; [|apply steps_ret, _]. apply steps_bind; [apply _|apply quiet_read_sidecar|]. intros s. apply steps_unless, _. }
  destruct (de_free _ _ _ _ Hd) as (-> & _). destruct (de_marker _ _ _ _ Hd) as (s & Hs & Hm).
  eapply yields_bind; [apply quiet_read_sidecar| |by apply yields_unless].
  apply yields_io. intros _ n. unfold get. rewrite bind_eq. cbn. by rewrite Hs.
Qed.

(** What a removal leaves: the payload gone, its root with new times, all else as it was. *)
Definition removed (a : Artifact) (w w' : World) : Prop := exists m d, w' = put_calls m (put_disk d w)
  /\ payload_gone d a /\ forall p : path, ~ ar_path a `prefix_of` p -> p <> ar_root a -> d !! p = w_disk w !! p.

Lemma symlink_metadata_yields p w e : w_disk w !! p = Some e -> yields (symlink_metadata p) w e.
Proof. intros He. apply yields_io. intros _. apply yields_disk. cbn. rewrite He. apply yields_ret. Qed.

Lemma remove_payload_goes w key op a n : deleting w key op a -> payload_stands (w_disk w) a -> goes (remove_payload a n) w (fun _ => removed a w).
Proof.
  intros Hd Hp. unfold remove_payload. pose proof (de_child _ _ _ _ Hd) as Hchild. pose proof (root_child a Hchild) as Hrc.
  destruct (ps_object _ _ Hp) as (e & He & Hi). destruct (ps_way _ _ Hp (ar_path a)) as (e' & He' & Hed); [done|].
  pose proof (eq_trans (eq_sym He) He') as [= <-]. destruct (de_root _ _ _ _ Hd) as [Hway (er & Her & Hir)].
  eapply goes_read; [apply quiet_verify_root|by eapply verify_root_yields|]. intros k1.
  apply (goes_read _ _ _ false); [step_through| |].
  { apply yields_calls. case_match; [|apply yields_ret]. eapply yields_bind; [step_through|by eapply yields_attempt, symlink_metadata_yields|]. apply yields_ret. }
  intros k2. cbn match. eapply goes_read; [apply quiet_verify|by eapply yields_calls, yields_calls, verify_yields|]. intros k3.
  destruct (manifest_yields (w_disk w) (ar_path a) (ps_standing _ _ Hp) w) as (files & Hy & Hex); [done|by exists e|].
  apply (goes_read _ _ _ files); [apply quiet_manifest|apply yields_calls, yields_calls, yields_calls; exact Hy|]. intros k4.
  apply (goes_read _ _ _ tt); [apply steps_unless, _|apply yields_unless|].
  { apply forallb_elem. intros f Hf. destruct (ex_sound _ _ _ Hex f Hf) as (Hn & _ & ef & Hef & Hidf).
    pose proof (ps_vouched _ _ Hp _ _ Hn Hef) as Hv. unfold vouched in *. cbn in Hv. by rewrite Hidf. }
  intros k5. rewrite !set_calls_set_calls. cbv zeta.
  pose proof (ps_standing _ _ Hp : standing (disk w) (ar_path a)) as Hst. change (exact (disk w) (ar_path a) files) in Hex.
  assert (Hdir : exists x, disk w !! ar_path a = Some x /\ is_dir x = true) by (by exists e).
  eapply goes_bind; [apply (files_goes w (ar_path a) files Hst Hex); exists k5, (w_disk w); split; [by destruct w|apply remains_start]|].
  intros [] w1 H1. eapply goes_bind; [by apply (directories_goes w (ar_path a) files Hst Hex)|]. intros [] w2 H2.
  pose proof (all_gone w (ar_path a) files Hex w2 H2) as Hall. destruct H2 as (m & d1 & -> & Hr).
  set (w3 := set_calls m (set_disk d1 w)) in *.
  assert (Hnil : children d1 (ar_path a) = []).
  { apply elem_of_nil_inv. intros c [x Hx]%elem_of_children. specialize (Hall [c]). cbn in Hall. unfold child in Hx. by rewrite Hall in Hx. }
  destruct (re_left _ _ _ _ Hr [] e) as (e1 & He1 & Hs1); [intros Hin; by destruct (re_gone _ _ _ _ Hr [] Hin)|by rewrite app_nil_r|]. rewrite app_nil_r in He1.
  assert (Hed1 : is_dir e1 = true) by (destruct Hs1 as (Hk & _); unfold is_dir in *; by rewrite Hk).
  assert (Hnr : ~ ar_path a `prefix_of` ar_root a).
  { intros Hpre%prefix_length. rewrite Hrc, length_app in Hpre. cbn in Hpre. lia. }
  destruct (Hway (ar_root a)) as (er' & Her' & Hrd); [done|]. pose proof (eq_trans (eq_sym Her) Her') as [= <-].
  assert (Hdr : d1 !! ar_root a = Some er) by (by rewrite (re_out _ _ _ _ Hr)).
  assert (Hcp : child (ar_root a) (file_name (ar_path a)) = ar_path a) by done.
  assert (Hd3 : disk w3 = d1) by (unfold w3; by rewrite disk_set_calls, disk_set_disk).
  apply (goes_read _ _ _ []); [apply quiet_names| |]; [|intros k6].
  { apply yields_io. intros _. apply yields_disk. rewrite Hd3, Hnil. cbv zeta. eapply yields_bind; [apply steps_unless, _|by apply yields_unless|apply yields_ret]. }
  apply (goes_read _ _ _ tt); [apply steps_unless, _|by apply yields_unless|]. intros k7.
  apply (goes_read _ _ _ tt); [apply steps_unless, _|by apply yields_unless|]. intros k8.
  apply (goes_read _ _ _ (ar_path a)); [apply quiet_open_at| |]; [|intros k9].
  { apply yields_calls, yields_calls, yields_calls. rewrite <- Hcp at 2. eapply open_at_yields; [by rewrite Hd3|done|by rewrite Hd3, Hcp|by left]. }
  apply (goes_read _ _ _ e1); [apply quiet_metadata|apply yields_calls, yields_calls, yields_calls, yields_calls, metadata_yields; by rewrite Hd3|]. intros k10.
  apply (goes_read _ _ _ tt); [apply steps_unless, _|apply yields_unless|].
  { destruct (ar_identity a); [|done]. cbn in *. by rewrite (same_entry_identity _ _ _ Hs1). }
  intros k11. eapply unlink_goes; rewrite ?Hcp; [rewrite !disk_set_calls, ?Hd3, ?disk_set_disk; exact He1|done|by rewrite !disk_set_calls, ?Hd3, ?disk_set_disk|].
  intros k m'. rewrite !disk_set_calls, ?Hd3, ?disk_set_disk. exists m', (unlinked k (ar_root a) (file_name (ar_path a)) d1). split_and!; [done|..].
  - intros r. rewrite unlinked_lookup, Hcp. destruct (decide (r = [])) as [->|Hn]; [by rewrite app_nil_r, decide_True|].
    specialize (Hall r Hn). rewrite disk_set_calls, disk_set_disk in Hall. repeat case_decide; [done| |done]. by rewrite Hall.
  - intros q Hq1 Hq2. rewrite unlinked_lookup, Hcp, decide_False by (by intros ->). rewrite decide_False by done. by apply (re_out _ _ _ _ Hr).
Qed.

(** Where the payload has already gone, a later attempt only notices. *)
Lemma remove_gone_goes w key op a n : deleting w key op a -> payload_gone (w_disk w) a -> 1 < n -> goes (remove_payload a n) w (fun _ => removed a w).
Proof.
  intros Hd Hg Hn. unfold remove_payload. eapply goes_read; [apply quiet_verify_root|by eapply verify_root_yields|]. intros k1.
  assert (Hm : forall k, (attempt (symlink_metadata (ar_path a)) : Act World _) (put_calls k w) = (put_calls (S k) w, Fin (Err (Io IoNotFound)))).
  { intros k. unfold attempt, symlink_metadata. rewrite bind_eq, io_eq. cbn [calls World_HasDisk w_calls put_calls]. rewrite calm, disk_bind. cbn [disk World_HasDisk w_disk set_calls put_calls].
    specialize (Hg []). rewrite app_nil_r in Hg. by rewrite Hg. }
  unfold goes. rewrite bind_eq. replace (1 <? n) with true by lia. rewrite bind_eq, Hm. cbn. eexists _, tt. split; [done|].
  exists (S k1), (w_disk w). split_and!; [done|done|done].
Qed.

Lemma write_db_run f w : exists n, write_db f w = (put_calls n (put_db (f (w_db w)) w), Fin tt).
Proof. exists (S (w_calls w)). unfold write_db, sql, call. rewrite bind_eq. cbn [calls World_HasDisk]. by rewrite calm. Qed.

Lemma event_run a k x w : exists n ev, event a k x w = (put_calls n (put_db (put_events ev (w_db w)) w), Fin tt).
Proof.
  unfold event. rewrite bind_eq. cbn [now]. destruct (write_db_run (fun d => put_events (db_events d ++ [mkEvent a (wall (w_calls w)) k x]) d) (put_calls (S (w_calls w)) w)) as [n Hn].
  exists n. eexists. unfold now. cbn [calls World_HasDisk set_calls]. by rewrite Hn.
Qed.

Lemma transaction_run {A} (body : Act World A) w (a : A) db' : (forall n, exists m, body (put_calls n w) = (put_calls m (put_db db' w), Fin a)) ->
  exists m, transaction body w = (put_calls m (put_db db' w), Fin a).
Proof.
  intros Hb. unfold transaction, sql, call. rewrite bind_eq. cbn [calls World_HasDisk set_calls]. rewrite calm. destruct (Hb (S (w_calls w))) as [m Hm].
  unfold or_undo. rewrite bind_eq, Hm, bind_eq. cbn [calls World_HasDisk set_calls]. rewrite calm. by eexists.
Qed.

Lemma started_run op a w : exists m, transaction (_ ← save_operation op; save_artifact a) w = (put_calls m (put_db (with_rows op a (w_db w)) w), Fin tt).
Proof.
  apply transaction_run. intros n. destruct (write_db_run (fun d => put_operations (<[op_id op:=op]> (db_operations d)) d) (put_calls n w)) as [m1 H1].
  unfold save_operation, save_artifact. rewrite bind_eq, H1.
  destruct (write_db_run (fun d => put_artifacts (<[ar_id a:=a]> (db_artifacts d)) d)
    (put_calls m1 (put_db (put_operations (<[op_id op:=op]> (db_operations (w_db w))) (w_db w)) (put_calls n w)))) as [m2 H2].
  cbn [w_db put_calls put_db] in H2. exists m2. exact H2.
Qed.

Lemma concluded_run op a x k y w : exists m ev, transaction (_ ← save_operation op; _ ← save_artifact a; event x k y) w = (put_calls m (put_db (put_events ev (with_rows op a (w_db w))) w), Fin tt).
Proof.
  enough (G : forall n, exists m ev, (_ ← save_operation op; _ ← save_artifact a; event x k y) (put_calls n w) = (put_calls m (put_db (put_events ev (with_rows op a (w_db w))) w), Fin tt)).
  - unfold transaction, sql, call. rewrite bind_eq. cbn [calls World_HasDisk set_calls]. rewrite calm. destruct (G (S (w_calls w))) as (m & ev & Hm).
    unfold or_undo. rewrite bind_eq, Hm, bind_eq. cbn [calls World_HasDisk set_calls]. rewrite calm. by eexists _, _.
  - intros n. destruct (write_db_run (fun d => put_operations (<[op_id op:=op]> (db_operations d)) d) (put_calls n w)) as [m1 H1].
    unfold save_operation, save_artifact. rewrite bind_eq, H1, bind_eq.
    destruct (write_db_run (fun d => put_artifacts (<[ar_id a:=a]> (db_artifacts d)) d)
      (put_calls m1 (put_db (put_operations (<[op_id op:=op]> (db_operations (w_db w))) (w_db w)) (put_calls n w)))) as [m2 H2]. rewrite H2.
    match goal with |- exists m ev, event x k y ?v = _ => destruct (event_run x k y v) as (m3 & ev & H3) end. exists m3, ev. exact H3.
Qed.

Lemma get_artifact_yields key w a : db_artifacts (w_db w) !! key = Some a -> yields (get_artifact key) w a.
Proof. intros Ha. apply sql_yields. intros _. eapply yields_bind; [apply quiet_database|apply database_yields|]. rewrite Ha. apply yields_ret. Qed.
Lemma operation_yields key w o : db_operations (w_db w) !! key = Some o -> yields (operation key) w o.
Proof. intros Ha. apply sql_yields. intros _. eapply yields_bind; [apply quiet_database|apply database_yields|]. rewrite Ha. apply yields_ret. Qed.

Lemma pending_not_final s : pending_state s = true -> one_of ["succeeded"; "cancelled"; "review"]%string s = false.
Proof.
  unfold pending_state, one_of. cbn [existsb]. rewrite !orb_true_iff, !bool_decide_eq_true. intros [->|[->|[->|]]]; done.
Qed.

(** A reading of the clock. *)
Lemma goes_now {B} (k : Z -> Act World B) w Q : (forall n m, goes (k (wall n)) (put_calls m w) Q) -> goes (now ≫= k) w Q.
Proof. intros Hk. unfold goes. rewrite bind_eq. unfold now. cbn [calls World_HasDisk set_calls]. apply Hk. Qed.

Definition succeeded (key : str) (a : Artifact) (w : World) (op' : Operation) (w' : World) : Prop :=
  op_state op' = lit "succeeded" /\ db_operations (w_db w') !! key = Some op'
  /\ (exists a', db_artifacts (w_db w') !! op_artifact op' = Some a' /\ ar_state a' = lit "deleted")
  /\ payload_gone (w_disk w') a
  /\ forall p : path, ~ ar_path a `prefix_of` p -> p <> ar_root a -> w_disk w' !! p = w_disk w !! p.

Lemma execute_delete_goes w key op a : deleting w key op a -> (forall n, op_not_before op <= wall n) -> (forall n, op_next_retry op <= wall n) ->
  goes (execute_delete key) w (succeeded key a w).
Proof.
  intros Hd Hb Hr. unfold execute_delete. destruct (de_request _ _ _ _ Hd) as (k & rev & undo & Hreq & Hrev).
  apply (goes_read _ _ _ tt); [apply quiet_guard|intros n; unfold mutation_guard, get; rewrite bind_eq; cbn; by rewrite (de_open _ _ _ _ Hd)|]. intros n1.
  eapply goes_read; [apply quiet_operation|apply yields_calls, operation_yields, Hd|]. intros n2.
  apply (goes_read _ _ _ tt); [apply steps_unless, _|apply yields_unless; unfold is_state; by rewrite (de_kind _ _ _ _ Hd), bool_decide_eq_true_2|]. intros n3.
  apply goes_now. intros t1 n4. apply goes_now. intros t2 n5. specialize (Hb t1). specialize (Hr t2).
  assert (Hgo : one_of ["succeeded"; "cancelled"; "review"]%string (op_state op) || (wall t1 <? op_not_before op) || (wall t2 <? op_next_retry op) = false).
  { rewrite pending_not_final by apply Hd. cbn [orb]. apply orb_false_iff. split; lia. }
  rewrite Hgo. eapply goes_read; [apply quiet_get_artifact|repeat apply yields_calls; apply get_artifact_yields, Hd|]. intros n6.
  rewrite Hreq. cbn [andb]. apply (goes_read _ _ _ false); [apply steps_ret, _|apply yields_ret|]. intros n7. apply goes_now. intros t n8.
  assert (Hauth : (op_attempts op =? 0) && negb (still_authorized false false rev (wall t) a) = false).
  { destruct (op_attempts op =? 0) eqn:E; [|done]. unfold still_authorized. rewrite Hrev by lia. by rewrite Z.eqb_refl. }
  rewrite Hauth. destruct (de_free _ _ _ _ Hd) as (Ho & Hk & Hh). apply (goes_read _ _ _ tt); [apply steps_unless, _|apply yields_unless; by rewrite Ho, Hk, Hh|]. intros n9.
  cbv zeta. fold (started op) (under_way a). rewrite !set_calls_set_calls.
  unfold goes. rewrite bind_eq. destruct (started_run (started op) (under_way a) (set_calls n9 w)) as [m1 H1]. rewrite H1.
  set (w1 := put_calls m1 _). assert (Hd1 : deleting w1 key (started op) (under_way a)) by exact (deleting_started w key op a m1 Hd).
  assert (Hrem : goes (remove_payload (under_way a) (op_attempts (started op))) w1 (fun _ => removed (under_way a) w1)).
  { destruct (de_payload _ _ _ _ Hd1) as [Hs|[Hone Hg]]; [by eapply remove_payload_goes|]. destruct (de_payload _ _ _ _ Hd) as [Hs|[Hone' _]].
    - eapply remove_payload_goes; [done|]. by eapply (payload_same _ a); [repeat split|].
    - eapply remove_gone_goes; [done|done|]. cbn. lia. }
  destruct Hrem as (w2 & [] & Hrun & m2 & d2 & -> & Hgone & Hout). rewrite bind_eq. unfold attempt at 1. rewrite Hrun.
  match goal with |- exists w' x, ?m ?v = _ /\ _ => change (goes m v (succeeded key a w)) end.
  apply goes_now. intros t3 n10. apply goes_now. intros t4 n11. cbn [concluded]. cbv beta iota zeta.
  unfold goes. rewrite bind_eq.
  match goal with |- context [transaction (_ ← save_operation ?o; _ ← save_artifact ?x; event ?i ?k ?d) ?v] => destruct (concluded_run o x i k d v) as (m3 & ev & H3) end.
  rewrite H3. eexists _, _. split; [reflexivity|]. destruct (deleting_ids _ _ _ _ Hd) as [Hid Hai]. split_and!.
  - done.
  - cbn. rewrite <- Hid. apply lookup_insert_eq.
  - eexists. split; [cbn; rewrite <- Hai; apply lookup_insert_eq|done].
  - intros r. apply (Hgone r).
  - intros p Hp1 Hp2. cbn. by rewrite (Hout p).
Qed.
End Through.

(** ** Whatever fails, it can still go on *)

Section Kept.
Context {O : Oracle} {T : Site} {d0 : Disk} {base : path}.
#[local] Abbreviation deleting := (@deletion T d0 base).

Lemma vouched_same files r e e' : same_entry e e' -> vouched files (mkFileEntry r (identity e) None) = true -> vouched files (mkFileEntry r (identity e') None) = true.
Proof.
  unfold vouched. intros Hs. rewrite !existsb_elem. intros (g & Hg & Hc). exists g. split; [done|]. cbn in *. rewrite (same_entry_identity _ _ _ Hs).
  destruct Hs as (Hk & _ & _ & [Hd| ->]); [|done]. apply andb_true_iff in Hc as [-> _]. unfold is_dir in *. by rewrite Hk, Hd.
Qed.

Lemma below_shrinks (d d' : Disk) top : (forall p : path, is_Some (d' !! p) -> is_Some (d !! p)) -> (length (below d' top) <= length (below d top))%nat.
Proof.
  intros Hsub. apply submseteq_length, NoDup_submseteq; [unfold below; apply NoDup_ListNoDup, List.NoDup_filter, NoDup_ListNoDup, NoDup_fst_map_to_list|].
  intros p Hp. unfold below in *. apply elem_of_filter_bool in Hp as [Hp Hb]. apply elem_of_filter_bool. split; [|done].
  apply list_elem_of_fmap in Hp as ([q e] & -> & He%elem_of_map_to_list). destruct (Hsub q) as [e' He']; [by exists e|].
  apply list_elem_of_fmap. exists (q, e'). split; [done|by apply elem_of_map_to_list].
Qed.

Lemma unlinked_other k x n (d : Disk) (p : path) e : d !! p = Some e -> p <> child x n -> exists e', unlinked k x n d !! p = Some e' /\ same_entry e e'.
Proof. intros He Hne. apply (unlinked_kept k x n d). by rewrite lookup_delete_ne. Qed.

Lemma walkable_unlinked k x n (d : Disk) (p : path) : walkable d p -> ~ child x n `prefix_of` p -> walkable (unlinked k x n d) p.
Proof.
  intros Hw Hn q Hq. destruct (Hw q Hq) as (e & He & Hd). destruct (unlinked_other k x n d q e He) as (e' & He' & Hk & _); [by intros ->|].
  exists e'. split; [done|]. unfold is_dir in *. by rewrite Hk.
Qed.

Lemma at_object_unlinked k x n (d : Disk) (p : path) i : at_object d p i -> p <> child x n -> at_object (unlinked k x n d) p i.
Proof.
  intros (e & He & Hi) Hn. destruct (unlinked_other k x n d p e He Hn) as (e' & He' & Hs). exists e'. split; [done|]. destruct i; [|done]. cbn in *.
  by rewrite (same_entry_identity _ _ _ Hs).
Qed.

Lemma stands_unlinked k x n (d : Disk) a (r : path) e : payload_stands d a -> child x n = ar_path a ++ r -> r <> [] -> d !! child x n = Some e ->
  (is_dir e = true -> children d (child x n) = []) -> payload_stands (unlinked k x n d) a.
Proof.
  intros [H1 H2 [S1 S2 S3 S4 S5] H4] Hc Hr He Hch.
  assert (Hnot : ~ child x n `prefix_of` ar_path a).
  { intros Hp%prefix_length. rewrite Hc, length_app in Hp. destruct r; [done|cbn in Hp; lia]. }
  assert (Hne : ar_path a <> child x n) by (intros E; apply Hnot; by rewrite <- E). split.
  - by apply walkable_unlinked.
  - by apply at_object_unlinked.
  - split.
    + intros p m em (e0 & He0 & _)%unlinked_from. destruct (S1 p m e0 He0) as (pe & Hpe & Hpd).
      destruct (unlinked_other k x n d (ar_path a ++ p) pe Hpe) as (pe' & Hpe' & Hk & _).
      * intros E. rewrite <- E in He, Hch. pose proof (eq_trans (eq_sym He) Hpe) as [= ->]. assert (Hin : m ∈ children d (ar_path a ++ p)).
        { apply elem_of_children. unfold child. rewrite <- app_assoc. by exists e0. }
        rewrite Hch in Hin by done. by apply elem_of_nil in Hin.
      * exists pe'. split; [done|]. unfold is_dir in *. by rewrite Hk.
    + intros p e' Hp (e0 & He0 & Hk & _)%unlinked_from. unfold is_file, is_dir in *. rewrite Hk. by apply (S2 p e0).
    + intros p e' (e0 & He0 & Hk & _)%unlinked_from Hd. unfold is_dir in *. rewrite Hk in Hd. by apply (S3 p e0).
    + pose proof (below_shrinks d (unlinked k x n d) (ar_path a)) as Hb. assert (Hsub : forall p : path, is_Some (unlinked k x n d !! p) -> is_Some (d !! p)).
      { intros p [e' (e0 & He0 & _)%unlinked_from]. by exists e0. }
      specialize (Hb Hsub). lia.
    + intros p [e' (e0 & He0 & _)%unlinked_from]. apply S5. by exists e0.
  - intros p e' Hp (e0 & He0 & Hs)%unlinked_from. eapply vouched_same; [done|]. by apply (H4 p e0).
Qed.

Lemma gone_unlinked k x n (d : Disk) a : payload_stands d a -> child x n = ar_path a -> children d (ar_path a) = [] -> payload_gone (unlinked k x n d) a.
Proof.
  intros Hs Hc Hch r. destruct (unlinked k x n d !! (ar_path a ++ r)) as [e|] eqn:He; [|done]. exfalso. destruct r as [|m r].
  - rewrite app_nil_r, unlinked_lookup, Hc, decide_True in He; done.
  - apply unlinked_from in He as (e0 & He0 & _). destruct (up d (ar_path a) (ps_standing _ _ Hs) [m] r) as [e1 He1]; [by exists e0|].
    assert (Hin : m ∈ children d (ar_path a)) by (apply elem_of_children; by exists e1). rewrite Hch in Hin. by apply elem_of_nil in Hin.
Qed.

(** Removing an entry of the payload, or the emptied payload, keeps the deletion able to
    go on. *)
Lemma deleting_unlinked w key op a k x n m e (r : path) : deleting w key op a -> 1 <= op_attempts op -> child x n = ar_path a ++ r ->
  w_disk w !! child x n = Some e -> (is_dir e = true -> children (w_disk w) (child x n) = []) -> (r = [] -> is_dir e = true) ->
  deleting (put_calls m (put_disk (unlinked k x n (w_disk w)) w)) key op a.
Proof.
  intros Hd Hone Hc He Hch Hr0. pose proof (root_child a (de_child _ _ _ _ Hd)) as Hrc. destruct (de_root _ _ _ _ Hd) as [Hway Hobj].
  assert (Hnot : ~ child x n `prefix_of` ar_root a).
  { intros Hp%prefix_length. rewrite Hc, length_app, Hrc, length_app in Hp. cbn in Hp. lia. }
  assert (Hs : payload_stands (w_disk w) a).
  { destruct (de_payload _ _ _ _ Hd) as [Hs|[_ Hg]]; [done|]. rewrite Hc, (Hg r) in He. done. }
  destruct Hd as [D1 D2 D3 D4 D5 D6 D7 D8 D9 D10 D11 D12 D13 D14 D15 D16 D17]. split; cbn; try done.
  - by destruct D2.
  - split; [by apply walkable_unlinked|]. apply at_object_unlinked; [done|]. intros E. apply Hnot. by rewrite <- E.
  - destruct r as [|c r].
    + rewrite app_nil_r in Hc. right. split; [done|]. apply gone_unlinked; [done|done|]. rewrite <- Hc. by apply Hch, Hr0.
    + left. by eapply stands_unlinked.
  - intros p Hp1 Hp2. rewrite D16 in Hc. rewrite unlinked_lookup, decide_False; [|intros ->; apply Hp1; rewrite Hc; by apply prefix_app_r].
    rewrite decide_False; [by apply D17|]. intros ->. destruct r as [|c r] using rev_ind.
    + apply Hp2. rewrite app_nil_r in Hc. rewrite <- Hc. unfold parent, child. by rewrite removelast_last.
    + apply Hp1. unfold child in Hc. rewrite app_assoc in Hc. apply app_inj_tail in Hc as [-> _]. by apply prefix_app_r.
Qed.

Lemma remove_payload_keeps key op a n : 1 <= op_attempts op ->
  triple (fun w => deleting w key op a) (remove_payload a n) (fun _ w => deleting w key op a) (fun _ w => deleting w key op a).
Proof.
  intros Hone. set (J := fun w => deleting w key op a). change (triple J (remove_payload a n) (fun _ => J) (fun _ => J)).
  assert (Hs : forall w k, J w -> J (put_calls k w)) by (intros w k; apply deleting_calls). unfold remove_payload.
  apply (triple_read _ _ (fun h => h = ar_root a)); [apply quiet_verify_root|done|by intros w w' h [-> _]%verify_root_fin|done|]. intros root ->.
  apply (triple_read _ _ (fun _ => True)); [step_through|done..|]. intros gone _. destruct gone; [by apply triple_mret|].
  apply (triple_read _ _ (fun h => h = ar_path a)); [apply quiet_verify|done|by intros w w' h [-> _]%verify_fin|done|]. intros dir ->.
  apply (triple_read _ _ (fun _ => True)); [step_through|done..|]. intros observed _.
  apply (triple_read _ _ (fun _ => True)); [step_through|done..|]. intros [] _. cbv zeta.
  assert (Hrem : forall f, triple J (remove_entry (ar_path a) f) (fun _ => J) (fun _ => J)).
  { intros f. apply remove_entry_triple; [done|]. intros w x m e k j Hw Hn Hp He _ _ _ Hch. by eapply (deleting_unlinked w key op a k x m j e (fe_path f)). }
  eapply triple_mbind; [apply triple_each; intros f _; case_match; [by apply triple_mret|apply Hrem]|]. intros [].
  eapply triple_mbind; [apply triple_each; intros f _; case_match; [apply Hrem|by apply triple_mret]|]. intros [].
  apply (triple_read _ _ (fun _ => True)); [step_through|done..|]. intros ns _.
  apply (triple_read _ _ (fun _ => True)); [step_through|done..|]. intros [] _.
  apply (triple_read _ _ (fun _ => True)); [step_through|done..|]. intros [] _.
  apply (triple_read _ _ (fun _ => True)); [step_through|done..|]. intros current _.
  apply (triple_read _ _ (fun _ => True)); [step_through|done..|]. intros meta _.
  apply (triple_read _ _ (fun _ => True)); [step_through|done..|]. intros [] _ w Hw.
  enough (G : J (unlink (ar_root a) (file_name (ar_path a)) true w).1) by (by destruct (unlink (ar_root a) (file_name (ar_path a)) true w) as [w' [u|u|]]).
  destruct (unlink_cases (ar_root a) (file_name (ar_path a)) true w) as [[k ->]|(e & k & j & He & Hd & Hch & ->)]; [by apply Hs|].
  apply (deleting_unlinked w key op a k _ _ j e []); [done|done| |done|by intros _; apply Hch|done].
  rewrite app_nil_r. symmetry. exact (root_child a (de_child _ _ _ _ Hw)).
Qed.

Lemma transaction_undone {A} (body : Act World A) w : (forall v, exists n d, (body v).1 = put_calls n (put_db d v)) ->
  (exists a, (transaction body w).2 = Fin a) \/ exists n, (transaction body w).1 = put_calls n w.
Proof.
  intros Hb. unfold transaction. rewrite bind_eq. destruct (quiet_sql w) as [n Hn]. destruct (sql w) as [w1 [k|e|]]; cbn in Hn; subst w1; [|right; by exists n..].
  unfold or_undo. rewrite bind_eq. destruct (Hb (put_calls n w)) as (n2 & d & H2). cbn [set_calls World_HasDisk]. destruct (body (put_calls n w)) as [w2 [a|e|]]; cbn in H2; subst w2; [|right; by exists n2..].
  rewrite bind_eq. destruct (quiet_sql (put_calls n2 (put_db d (put_calls n w)))) as [n3 Hn3].
  destruct (sql (put_calls n2 (put_db d (put_calls n w)))) as [w3 [k3|e|]]; cbn in Hn3; subst w3; [left; by exists a|right; by exists n3..].
Qed.

Lemma write_db_only f v : exists n d, (write_db f v).1 = put_calls n (put_db d v).
Proof.
  unfold write_db. rewrite bind_eq. destruct (quiet_sql v) as [n Hn]. destruct (sql v) as [w1 [k|e|]]; cbn in Hn; subst w1.
  - by eexists n, _.
  - exists n, (w_db v). by destruct v.
  - exists n, (w_db v). by destruct v.
Qed.

Definition db_only {A} (body : Act World A) : Prop := forall v, exists n d, (body v).1 = put_calls n (put_db d v).

Lemma db_only_bind {A B} (m : Act World A) (k : A -> Act World B) : db_only m -> (forall a, db_only (k a)) -> db_only (m ≫= k).
Proof.
  intros Hm Hk v. rewrite bind_eq. destruct (Hm v) as (n & d & H). destruct (m v) as [w1 [a|e|]]; cbn in H; subst w1; [|by exists n, d..].
  destruct (Hk a (put_calls n (put_db d v))) as (n' & d' & ->). by exists n', d'.
Qed.

Lemma db_only_event x k y : db_only (event x k y).
Proof. unfold event. apply db_only_bind; [intros v; exists (S (w_calls v)), (w_db v); by destruct v|]. intros n. intros v. apply write_db_only. Qed.

(** The deletion's records are written together or not at all. *)
Lemma started_cases op a w : let r := transaction (_ ← save_operation op; save_artifact a) w in
  (exists n, r.1 = put_calls n w /\ r.2 <> Fin tt) \/ exists n, r = (put_calls n (put_db (with_rows op a (w_db w)) w), Fin tt).
Proof.
  intros r. destruct (transaction_undone (_ ← save_operation op; save_artifact a) w) as [[[] Hf]|[n Hn]].
  - apply db_only_bind; [intros v; apply write_db_only|intros _ v; apply write_db_only].
  - right. unfold r. destruct (transaction _ w) as [w' o] eqn:E. cbn in Hf. subst o.
    apply transaction_fin in E as (n & m & w1 & (u & w2 & [k ->]%write_db_fin & [k' ->]%write_db_fin)%bind_fin & ->). by exists m.
  - destruct (r.2) as [[]|e|] eqn:E; [|left; exists n; split; [done|congruence]..].
    right. unfold r in *. destruct (transaction _ w) as [w' o] eqn:E'. cbn in E. subst o.
    apply transaction_fin in E' as (n' & m & w1 & (u & w2 & [k ->]%write_db_fin & [k' ->]%write_db_fin)%bind_fin & ->). by exists m.
Qed.

Lemma concluded_cases op a x k y w : let r := transaction (_ ← save_operation op; _ ← save_artifact a; event x k y) w in
  (exists n, r.1 = put_calls n w) \/ exists n ev, r.1 = put_calls n (put_db (put_events ev (with_rows op a (w_db w))) w).
Proof.
  intros r. destruct (transaction_undone (_ ← save_operation op; _ ← save_artifact a; event x k y) w) as [[[] Hf]|[n Hn]]; [| |left; by exists n].
  - apply db_only_bind; [intros v; apply write_db_only|intros _]. apply db_only_bind; [intros v; apply write_db_only|intros _; apply db_only_event].
  - right. unfold r. destruct (transaction _ w) as [w' o] eqn:E. cbn in Hf. subst o.
    apply transaction_fin in E as (n & m & w1 & (u & w2 & [j ->]%write_db_fin & (u' & w3 & [j' ->]%write_db_fin & H3)%bind_fin)%bind_fin & ->).
    unfold event in H3. apply bind_fin in H3 as (t & w4 & H4 & [j2 ->]%write_db_fin). unfold now in H4. injection H4 as <- <-. exists m. eexists. reflexivity.
Qed.

(** The deletion can go on, if it is still pending. *)
Definition resumable (key : str) (w : World) : Prop :=
  forall op, db_operations (w_db w) !! key = Some op -> pending_state (op_state op) = true -> exists a, deleting w key op a.

Lemma deleting_resumable w key op a : deleting w key op a -> resumable key w.
Proof. intros Hd op' Ho _. rewrite (de_op _ _ _ _ Hd) in Ho. injection Ho as <-. by exists a. Qed.

Lemma concluded_resumable w key op a r t n m ev : deleting w key op a -> 1 <= op_attempts op ->
  resumable key (put_calls m (put_db (put_events ev (with_rows (concluded r t op a).1 (bump (ar_with_updated_at n (concluded r t op a).2)) (w_db w))) w)).
Proof.
  intros Hd Hone op' Ho Hp. destruct (deleting_ids _ _ _ _ Hd) as [Hk Hi].
  assert (E : op' = (concluded r t op a).1).
  { assert (Hid : op_id (concluded r t op a).1 = key) by (by destruct r). cbn in Ho. rewrite Hid, lookup_insert_eq in Ho. by injection Ho. }
  subst op'. destruct r as [u|e]; [done|]. cbn [concluded fst snd] in *. destruct (is_conflict e) eqn:Ec; [done|].
  eexists. apply (deleting_update w key op a); [done|by repeat split|by repeat split|done|cbn; lia|done].
Qed.

Lemma execute_delete_keeps key op a : triple (fun w => deleting w key op a) (execute_delete key) (fun _ => resumable key) (fun _ => resumable key).
Proof.
  set (J := fun w => deleting w key op a). change (triple J (execute_delete key) (fun _ => resumable key) (fun _ => resumable key)).
  assert (Hs : forall w k, J w -> J (put_calls k w)) by (intros w k; apply deleting_calls).
  assert (HF : forall (e : option Error) w, J w -> resumable key w) by (intros e w; apply deleting_resumable).
  assert (HP : forall w, J w -> resumable key w) by (intros w; apply deleting_resumable). unfold execute_delete.
  apply (triple_read _ _ (fun _ => True)); [apply quiet_guard|done..|]. intros [] _.
  apply (triple_read_in _ _ (fun o => o = op)); [apply quiet_operation|done| |done|].
  { intros w w' o Hw [Ho _]%operation_fin. rewrite (de_op _ _ _ _ Hw) in Ho. by injection Ho. }
  intros o ->. apply (triple_read _ _ (fun _ => True)); [step_through|done..|]. intros [] _.
  apply (triple_read _ _ (fun _ => True)); [step_through|done..|]. intros t1 _.
  apply (triple_read _ _ (fun _ => True)); [step_through|done..|]. intros t2 _.
  case_match; [by apply triple_mret|].
  apply (triple_read_in _ _ (fun x => x = a)); [apply quiet_get_artifact|done| |done|].
  { intros w w' x Hw [Ha _]%get_artifact_fin. rewrite (de_row _ _ _ _ Hw) in Ha. by injection Ha. }
  intros x ->. destruct (op_request op) as [k rev undo automatic| | |] eqn:Er; [|by apply triple_throw..].
  apply (triple_read_in _ _ (fun _ => automatic = false /\ (op_attempts op = 0 -> ar_revision a = rev) /\ 0 <= op_attempts op)); [step_through|done| |done|].
  { intros w w' x Hw _. destruct (de_request _ _ _ _ Hw) as (k' & rev' & undo' & E & Hrev). rewrite Er in E. injection E as -> -> -> ->. split_and!; try done. apply Hw. }
  intros on (-> & Hrev & Hatt). apply (triple_read _ _ (fun _ => True)); [step_through|done..|]. intros t _.
  assert (Hauth : (op_attempts op =? 0) && negb (still_authorized false on rev t a) = false).
  { destruct (op_attempts op =? 0) eqn:E; [|done]. unfold still_authorized. rewrite Hrev by lia. by rewrite Z.eqb_refl. }
  rewrite Hauth. apply (triple_read _ _ (fun _ => True)); [step_through|done..|]. intros [] _. cbv zeta. fold (started op) (under_way a).
  eapply (triple_mbind _ _ (fun _ w => deleting w key (started op) (under_way a))).
  { intros w Hw. pose proof (started_cases (started op) (under_way a) w) as Hc. cbv zeta in Hc.
    destruct Hc as [(n & Hn & Hnot)|[n ->]]; [|by apply deleting_started].
    destruct (transaction _ w) as [w' [[]|e|]]; cbn in Hn, Hnot; [done|subst w'; by apply HP, Hs..]. }
  intros []. eapply (triple_mbind _ _ (fun _ w => deleting w key (started op) (under_way a))).
  { eapply triple_post; [apply (triple_attempt _ _ (fun _ w => deleting w key (started op) (under_way a)) (fun _ w => deleting w key (started op) (under_way a)))|].
    - apply remove_payload_keeps. cbn. lia.
    - intros w. apply deleting_resumable.
    - by intros []. }
  intros r. assert (Hs' : forall w k, deleting w key (started op) (under_way a) -> deleting (put_calls k w) key (started op) (under_way a)) by (intros w k'; apply deleting_calls).
  apply (triple_read _ _ (fun _ => True)); [step_through|done|done|intros e w; apply deleting_resumable|]. intros t3 _.
  apply (triple_read _ _ (fun _ => True)); [step_through|done|done|intros e w; apply deleting_resumable|]. intros t4 _.
  destruct (concluded r t3 (started op) (under_way a)) as [op2 a2] eqn:Ec.
  eapply (triple_mbind _ _ (fun _ => resumable key)); [|intros []; by apply triple_mret]. intros w Hw.
  enough (G : resumable key (transaction (_ ← save_operation op2; _ ← save_artifact (bump (ar_with_updated_at t4 a2)); event (ar_id (bump (ar_with_updated_at t4 a2))) (op_state op2) (default (lit "deletion confirmed") (op_error op2))) w).1).
  { by destruct (transaction _ w) as [w' [[]|e|]]. }
  match goal with |- resumable _ (transaction (_ ← _; _ ← _; event ?x ?k ?y) _).1 => destruct (concluded_cases op2 (bump (ar_with_updated_at t4 a2)) x k y w) as [[n ->]|(n & ev & ->)] end.
  - eapply deleting_resumable, Hs', Hw.
  - pose proof (concluded_resumable w key (started op) (under_way a) r t3 t4 n ev Hw) as Hc. rewrite Ec in Hc. apply Hc. cbn. lia.
Qed.
End Kept.
