(* ===== verification/Guarded.v ===== *)
(** * What only an explicit act can change of a payload's record

    A predicate on artifact records that holds of every new record under another id, and
    survives the changes operations make on their own (raising Keep, dropping ownership),
    holds of all rows after any operation other than the explicit acts. *)

From stdpp Require Import sorting.
From S2P Require Import Prelude RustStr Tree PayloadFs Custody Inventory Deletion Handoff Upkeep PayloadLogic Authority.

#[local] Unset Default Proof Using.

(** Changes an operation makes on its own. *)
Definition weaker (a a' : Artifact) : Prop :=
  ar_id a' = ar_id a /\ (ar_keep a' = ar_keep a \/ ar_keep a' = true) /\ (ar_owned a' = ar_owned a \/ ar_owned a' = false).

Section Guarded.
Context {O : Oracle} {T : Site} {C : Codec}.
Context (id : str) (P : Artifact -> Prop).
Context (P_new : forall a, ar_id a <> id -> P a) (P_weaker : forall a a', P a -> weaker a a' -> P a').
(** The explicit acts that [P] survives all the same. *)
Context (unkeepable adoptable : Prop).
Context (P_unkeep : unkeepable -> forall a, P a -> P (ar_with_keep false a)) (P_adopt : adoptable -> forall a, P a -> P (ar_with_keep true (ar_with_owned true a))).
(** [id] is one the inventory drew, and draws only once. *)
Context (id_drawn : forall x, lit "recovery-" ++ x <> id /\ lit "source-" ++ x <> id /\ lit "scratch-" ++ x <> id) (id_once : forall n, fresh_id n <> id).

(** ** The invariant *)

Definition op_fits (o : Operation) : Prop :=
  match op_request o with RequestRelocate rl => forall s, rl_scratch rl = Some s -> ar_id s <> id | _ => True end.

Record fits (d : Database) : Prop := {
  ft_row : is_Some (db_artifacts d !! id);
  ft_artifacts : forall k a, db_artifacts d !! k = Some a -> ar_id a = k /\ P a;
  ft_operations : forall k o, db_operations d !! k = Some o -> op_fits o
}.

Definition fitting (w : World) : Prop := fits (w_db w).

Definition guards {A} (m : Act World A) (Phi : A -> Prop) : Prop := triple fitting m (fun a w => fitting w /\ Phi a) (fun _ => fitting).

Lemma guards_bind {A B} (m : Act World A) (k : A -> Act World B) Phi Psi : guards m Phi -> (forall a, Phi a -> guards (k a) Psi) -> guards (m ≫= k) Psi.
Proof. intros Hm Hk. eapply triple_mbind; [exact Hm|]. intros a w [Hw Ha]. by apply Hk. Qed.
Lemma guards_ret {A} (a : A) (Phi : A -> Prop) : Phi a -> guards (mret a) Phi.
Proof. intros Ha. by apply triple_mret. Qed.
Lemma guards_throw {A} e (Phi : A -> Prop) : guards (throw e) Phi.
Proof. by apply triple_throw. Qed.
Lemma guards_weaken {A} (m : Act World A) (Phi Psi : A -> Prop) : guards m Phi -> (forall a, Phi a -> Psi a) -> guards m Psi.
Proof. intros Hm Hi. eapply triple_post; [exact Hm|]. intros a w [? ?]. auto. Qed.
Lemma guards_unless b e : guards (unless b e) (fun _ => b = true).
Proof. by apply triple_unless. Qed.
Lemma guards_attempt {A} (m : Act World A) Phi : guards m Phi -> guards (attempt m) (fun r => match r with Ok a => Phi a | Err _ => True end).
Proof. intros Hm. eapply triple_post; [apply (triple_attempt _ _ _ _ (fun _ => fitting) Hm); done|]. by intros [a|e] w Hw. Qed.
Lemma guards_each {A} (l : list A) f : (forall x, x ∈ l -> guards (f x) (fun _ => True)) -> guards (for_each l f) (fun _ => True).
Proof.
  intros Hf. eapply triple_post; [apply (triple_each fitting (fun _ => fitting))|done]. intros x Hx. eapply triple_post; [by apply Hf|]. by intros a w [].
Qed.
Lemma guards_fold {A B} (Phi : B -> Prop) (f : B -> A -> Act World B) l b : Phi b -> (forall b x, Phi b -> x ∈ l -> guards (f b x) Phi) -> guards (fold_acts f l b) Phi.
Proof.
  intros Hb Hf. pose proof (triple_fold (fun b w => fitting w /\ Phi b) (fun _ => fitting) f l b) as Ht. eapply triple_pre; [apply Ht|done].
  intros b' x Hx w [Hw Hb']. by apply Hf.
Qed.

(** Calls that leave the database alone. *)
Definition same_db (w w' : World) : Prop := w_db w' = w_db w.
#[export] Instance same_db_preorder : PreOrder same_db.
Proof. split; [done|]. intros w1 w2 w3. unfold same_db. congruence. Qed.

Lemma recounted_same_db {A} (m : Act World A) : quiet m -> steps same_db m.
Proof. intros Hm w. by destruct (Hm w) as [n ->]. Qed.
Lemma grown_same_db {A} (m : Act World A) : steps grown m -> steps same_db m.
Proof. intros Hm w. by destruct (Hm w) as (n & d & -> & _). Qed.
Lemma unlink_same_db p n b : steps same_db (unlink p n b).
Proof. intros w. destruct (unlink_cases p n b w) as [[k ->]|(e & k & m & _ & _ & _ & ->)]; done. Qed.
Lemma rename_same_db p q : steps same_db (rename_exclusive p q).
Proof. intros w. destruct (rename_cases p q w) as [[k ->]|(d & n & _ & _ & ->)]; done. Qed.
Lemma modify_same_db f : (forall w, w_db (f w) = w_db w) -> steps same_db (modify f).
Proof. intros Hf w. apply Hf. Qed.

Lemma guards_same {A} (m : Act World A) : steps same_db m -> guards m (fun _ => True).
Proof. intros Hm w Hw. specialize (Hm w). unfold same_db, fitting in *. destruct (m w) as [w' [a|e|]]; cbn in Hm; by rewrite Hm. Qed.

(** ** Reading and writing rows *)

Lemma guards_database : guards database fits.
Proof. intros w Hw. by split. Qed.
Lemma guards_get_artifact k : guards (get_artifact k) (fun a => ar_id a = k /\ P a).
Proof.
  eapply triple_conseq; [apply (triple_quiet fitting (get_artifact k) (fun a _ => ar_id a = k /\ P a)); [apply quiet_get_artifact|done|]|done|done|done].
  intros w w' a Hw [Ha _]%get_artifact_fin. by eapply ft_artifacts.
Qed.
Lemma guards_operation k : guards (operation k) op_fits.
Proof.
  eapply triple_conseq; [apply (triple_quiet fitting (operation k) (fun o _ => op_fits o)); [apply quiet_operation|done|]|done|done|done].
  intros w w' a Hw [Ha _]%operation_fin. by eapply ft_operations.
Qed.

Lemma rows_fit d p a : fits d -> a ∈ artifact_rows p d -> P a.
Proof.
  intros Hd Ha. unfold artifact_rows in Ha. apply elem_of_filter_bool in Ha as [Ha _]. apply list_elem_of_fmap in Ha as ([k x] & -> & Hx%elem_of_map_to_list).
  by eapply ft_artifacts.
Qed.
Lemma operation_rows_fit d p o : fits d -> o ∈ operation_rows p d -> op_fits o.
Proof.
  intros Hd Ho. unfold operation_rows in Ho. apply elem_of_filter_bool in Ho as [Ho _]. apply list_elem_of_fmap in Ho as ([k x] & -> & Hx%elem_of_map_to_list).
  by eapply ft_operations.
Qed.

Lemma guards_write_db f : (forall d, fits d -> fits (f d)) -> guards (write_db f) (fun _ => True).
Proof.
  intros Hf. unfold write_db. eapply guards_bind; [apply guards_same, recounted_same_db, quiet_sql|]. intros n _ w Hw. split; [by apply Hf|done].
Qed.

Lemma guards_save_artifact a : P a -> guards (save_artifact a) (fun _ => True).
Proof.
  intros Ha. apply guards_write_db. intros d [H1 H2 H3]. split; cbn; [|intros k x|done].
  - destruct (decide (ar_id a = id)) as [->|Hne]; [rewrite lookup_insert_eq|rewrite lookup_insert_ne by done]; done.
  - rewrite lookup_insert_Some. intros [[<- <-]|[_ Hx]]; [done|auto].
Qed.
Lemma guards_save_operation o : op_fits o -> guards (save_operation o) (fun _ => True).
Proof.
  intros Ha. apply guards_write_db. intros d [H1 H2 H3]. split; cbn; [done|done|]. intros k x. rewrite lookup_insert_Some. intros [[<- <-]|[_ Hx]]; [done|eauto].
Qed.
Lemma guards_save_recovery r : guards (save_recovery r) (fun _ => True).
Proof. apply guards_write_db. by intros d []. Qed.

Lemma guards_transaction {A} (body : Act World A) Phi : guards body Phi -> guards (transaction body) Phi.
Proof.
  intros Hb. unfold transaction. eapply guards_bind; [apply guards_same, recounted_same_db, quiet_sql|]. intros n _ w Hw.
  assert (Hc : guards (a ← body; _ ← sql; mret a) Phi).
  { eapply guards_bind; [exact Hb|]. intros a Ha. eapply guards_bind; [apply guards_same, recounted_same_db, quiet_sql|]. intros _ _. by apply guards_ret. }
  specialize (Hc w Hw). unfold or_undo. destruct ((a ← body; _ ← sql; mret a) w) as [w' [a|e|]]; [done|exact Hw..].
Qed.

(** ** The judgement, by the type of the result *)

Class Fits (A : Type) := holds : A -> Prop.
#[local] Instance fits_any A : Fits A | 100 := fun _ => True.
#[local] Instance fits_artifact : Fits Artifact := P.
#[local] Instance fits_operation : Fits Operation := op_fits.
#[local] Instance fits_relocation : Fits Relocation := fun rl => forall s, rl_scratch rl = Some s -> ar_id s <> id.
#[local] Instance fits_database : Fits Database := fits.
#[local] Instance fits_option `{Fits A} : Fits (option A) := fun o => match o with Some a => holds a | None => True end.
Definition fits_list `{Fits A} : Fits (list A) := fun l => forall a, a ∈ l -> holds a.
#[local] Instance fits_artifacts : Fits (list Artifact) := fits_list.
#[local] Instance fits_operations : Fits (list Operation) := fits_list.
#[local] Instance fits_pair `{Fits A, Fits B} : Fits (A * B) := fun p => holds p.1 /\ holds p.2.
#[local] Instance fits_result `{Fits A} {E} : Fits (result A E) := fun r => match r with Ok a => holds a | Err _ => True end.

Definition guarded `{Fits A} (m : Act World A) : Prop := guards m holds.

Lemma guarded_bind `{Fits A, Fits B} (m : Act World A) (k : A -> Act World B) : guarded m -> (forall a, holds a -> guarded (k a)) -> guarded (m ≫= k).
Proof. apply guards_bind. Qed.
Lemma guarded_ret `{Fits A} (a : A) : holds a -> guarded (mret a).
Proof. apply guards_ret. Qed.
Lemma guarded_throw `{Fits A} e : guarded (throw e : Act World A).
Proof. apply guards_throw. Qed.
Lemma guarded_unless b e : guarded (unless b e).
Proof. eapply guards_weaken; [apply guards_unless|done]. Qed.
Lemma guarded_attempt `{Fits A} (m : Act World A) : guarded m -> guarded (attempt m).
Proof. apply guards_attempt. Qed.
Lemma guarded_each `{Fits A} (l : list A) f : @holds _ fits_list l -> (forall x, holds x -> guarded (f x)) -> guarded (for_each l f).
Proof. intros Hl Hf. apply guards_each. intros x Hx. eapply guards_weaken; [by apply Hf, Hl|done]. Qed.
Lemma guarded_fold `{Fits A, Fits B} (f : B -> A -> Act World B) l b : @holds _ fits_list l -> holds b -> (forall b x, holds b -> holds x -> guarded (f b x)) -> guarded (fold_acts f l b).
Proof. intros Hl Hb Hf. apply guards_fold; [done|]. intros b' x Hb' Hx. by apply Hf, Hl. Qed.
Lemma guarded_same {A} (m : Act World A) : steps same_db m -> @guarded A (fits_any A) m.
Proof. apply guards_same. Qed.
Lemma guarded_database : guarded database.
Proof. apply guards_database. Qed.
Lemma guarded_get_artifact k : guarded (get_artifact k).
Proof. eapply guards_weaken; [apply guards_get_artifact|by intros a []]. Qed.
Lemma guarded_operation k : guarded (operation k).
Proof. apply guards_operation. Qed.
Lemma guarded_save_artifact a : holds a -> guarded (save_artifact a).
Proof. apply guards_save_artifact. Qed.
Lemma guarded_save_operation o : holds o -> guarded (save_operation o).
Proof. apply guards_save_operation. Qed.
Lemma guarded_save_recovery r : guarded (save_recovery r).
Proof. apply guards_save_recovery. Qed.
Lemma guarded_transaction `{Fits A} (body : Act World A) : guarded body -> guarded (transaction body).
Proof. apply guards_transaction. Qed.
Lemma guarded_event x y z : guarded (event x y z).
Proof.
  unfold event. apply guarded_bind; [apply guarded_same, recounted_same_db; intros w; by exists (S (w_calls w))|]. intros n _. apply guards_write_db. by intros d [].
Qed.
Lemma guarded_new_id `{Fits A} (k : str -> Act World A) : (forall x, x <> id -> guarded (k x)) -> guarded (new_id ≫= k).
Proof.
  intros Hk. eapply guards_bind; [|exact Hk]. intros w Hw. unfold new_id. rewrite bind_eq.
  pose proof (quiet_sql w) as [n Hn]. destruct (sql w) as [w1 [k1|e|]]; cbn in Hn; subst w1; [split; [done|apply id_once]|done..].
Qed.
Lemma guarded_lift {A} (r : result A Error) : @guarded A (fits_any A) (lift_result r).
Proof. destruct r; [by apply guards_ret|by apply guards_throw]. Qed.
Lemma guarded_this_artifact `{Fits A} key (k : Artifact -> Act World A) : (forall a, ar_id a = key -> P a -> guarded (k a)) -> guarded (get_artifact key ≫= k).
Proof. intros Hk. eapply guards_bind; [apply guards_get_artifact|]. intros a [Hi Ha]. by apply Hk. Qed.

(** What every action fits. *)
Definition plainly {A} (m : Act World A) : Prop := @guarded A (fits_any A) m.

Lemma draft_bind_guarded {A B} (m : Draft A) (k : A -> Draft B) r : plainly (m r) -> (forall a r, plainly (k a r)) -> plainly (draft_bind A B k m r).
Proof. intros Hm Hk. unfold draft_bind. apply (@guarded_bind _ (fits_any _) _ (fits_any _)); [done|]. intros [r' [a|e]] _; [apply Hk|by apply guards_ret]. Qed.
Lemma doing_guarded {A} (m : Act World A) r : plainly m -> plainly (doing m r).
Proof. intros Hm. unfold doing. apply (@guarded_bind _ (fits_any _) _ (fits_any _)); [eapply guards_weaken; [apply guards_attempt, Hm|done]|]. intros a _. by apply guards_ret. Qed.
Lemma draft_ret_guarded {A} (a : A) r : plainly (draft_ret A a r).
Proof. by apply guards_ret. Qed.
Lemma draft_each_guarded {A} (l : list A) f r : (forall x r, plainly (f x r)) -> plainly (draft_each l f r).
Proof. intros Hf. revert r. induction l as [|x l IH]; intros r; cbn [draft_each]; [apply draft_ret_guarded|by apply draft_bind_guarded]. Qed.
Lemma draft_guarded r : plainly (draft r).
Proof. by apply guards_ret. Qed.
Lemma redraft_guarded f r : plainly (redraft f r).
Proof. by apply guards_ret. Qed.

(** ** Going through an operation *)

Lemma rows_guarded d p : holds d -> @holds _ fits_list (artifact_rows p d).
Proof. intros Hd a. by apply rows_fit. Qed.
Lemma operation_rows_guarded d p : holds d -> @holds _ fits_list (operation_rows p d).
Proof. intros Hd a. by apply operation_rows_fit. Qed.
Lemma sub_guarded `{Fits A} (l l' : list A) : (forall x, x ∈ l' -> x ∈ l) -> @holds _ fits_list l -> @holds _ fits_list l'.
Proof. intros Hs Hl x Hx. by apply Hl, Hs. Qed.
Lemma take_guarded `{Fits A} n (l : list A) : @holds _ fits_list l -> @holds _ fits_list (take n l).
Proof. apply sub_guarded. intros x Hx. by eapply (subseteq_take n l). Qed.
Lemma hd_guarded `{Fits A} (l : list A) : @holds _ fits_list l -> holds (List.hd_error l).
Proof. destruct l as [|x l]; [done|]. intros Hl. apply Hl. by left. Qed.
Lemma sort_guarded `{Fits A} (key : A -> Z) (l : list A) : @holds _ fits_list l -> @holds _ fits_list (sort_by_key key l).
Proof. apply sub_guarded. intros x. by rewrite elem_of_sort_by_key. Qed.
Lemma filter_guarded `{Fits A} p (l : list A) : @holds _ fits_list l -> @holds _ fits_list (List.filter p l).
Proof. apply sub_guarded. intros x [? _]%elem_of_filter_bool. done. Qed.
Lemma merge_guarded `{Fits A} (R : A -> A -> Prop) `{forall x y, Decision (R x y)} (l : list A) : @holds _ fits_list l -> @holds _ fits_list (merge_sort R l).
Proof. apply sub_guarded. intros x. by rewrite merge_sort_Permutation. Qed.
Lemma true_holds {A} (a : A) : @holds A (fits_any A) a.
Proof. done. Qed.

Lemma same_up a a' : P a -> weaker a a' -> P a'.
Proof. apply P_weaker. Qed.

Ltac rows := try unfold newest_first; try unfold after_cursor; try unfold oldest_first; try unfold sort_ids; try unfold due_deletions; try unfold by_creation; repeat first [ assumption | apply rows_guarded | apply operation_rows_guarded | apply sort_guarded | apply filter_guarded | apply merge_guarded | apply take_guarded | apply hd_guarded | apply true_holds ].
Ltac weakly := cbn; repeat case_match; split_and!; cbn in *; first [done|by left|by right].
Ltac fit := first
  [ apply true_holds | done | solve [rows]
  | match goal with H : _ |- _ => solve [apply (P_weaker _ _ H); weakly] end
  | match goal with Hj : holds (journal_scratch ?s ?j) |- holds (journal_scratch ?s ?j).2 => exact (proj2 Hj) end
  | match goal with Hj : forall files, holds (journal_scratch _ _) |- holds (journal_scratch _ _).2 => exact (proj2 (Hj _)) end
  | match goal with Hj : forall files, holds (journal_scratch _ _) |- holds (journal_scratch _ _) => apply Hj end
  | match goal with Hr : holds ?rl, E : rl_scratch ?rl = Some _ |- _ => solve [apply P_new; cbn; exact (Hr _ E)] end
  | solve [apply P_new; cbn; first [done|by apply id_drawn]]
  | match goal with |- holds (_, _) => split; cbn [fst snd]; fit end
  | match goal with E : artifact_rows ?p ?d = ?a :: _, H : holds ?d |- holds ?a => apply (rows_guarded d p H); rewrite E; by left end
  | match goal with E : operation_rows ?p ?d = ?a :: _, H : holds ?d |- holds ?a => apply (operation_rows_guarded d p H); rewrite E; by left end ].
Ltac guarded_hook := fail.
Ltac guard_through :=
  repeat (cbv zeta; first
    [ match goal with |- guarded (mbind _ new_id) => apply guarded_new_id; intros ? ? end
    | match goal with |- guarded (mbind _ _) => apply guarded_bind; [|intros ? ?] end
    | solve [eauto 2 with guarded nocore]
    | apply guarded_same; first [solve [apply recounted_same_db; eauto 3 with inventory nocore] | solve [apply grown_same_db; eauto 2 with inventory nocore] | solve [eauto 2 with same_db nocore]]
    | guarded_hook | apply guarded_lift
    | match goal with |- guarded (write_db _) => apply guards_write_db; by intros ? [] end
    | match goal with |- guarded (mret _) => apply guarded_ret; solve [fit] end | apply guarded_throw | apply guarded_unless | apply guarded_attempt | apply guarded_transaction
    | apply guarded_save_artifact; solve [fit] | apply guarded_save_operation; solve [fit]
    | apply guarded_each; [solve [fit]|intros ? ?]
    | apply guarded_fold; [solve [fit]|solve [fit]|intros ? ? ? ?]
    | case_match ]).

Create HintDb guarded discriminated.
#[local] Hint Constants Opaque : guarded.
#[local] Hint Variables Opaque : guarded.
Create HintDb same_db.
#[local] Hint Resolve guarded_database guarded_get_artifact guarded_operation guarded_save_recovery guarded_event : guarded.
#[local] Hint Resolve quiet_sql quiet_database quiet_get quiet_guard quiet_new_id quiet_recovery quiet_settings quiet_read_sidecar quiet_verify_root quiet_verify quiet_digest : inventory.

Lemma guarded_for_job job : guarded (for_job job).
Proof. unfold for_job. guard_through. Qed.

#[local] Hint Resolve guarded_for_job : guarded.

Lemma sidecar_same_db a : steps same_db (sidecar a).
Proof. unfold sidecar. step_through; apply modify_same_db; by intros w'. Qed.
#[local] Hint Extern 1 (steps same_db (modify _)) => apply modify_same_db; intros ?; reflexivity : same_db.
#[local] Hint Resolve sidecar_same_db unlink_same_db rename_same_db : same_db.

Lemma guarded_allocate job root p : guarded (allocate job root p).
Proof. unfold allocate. guard_through. Qed.
Lemma guarded_discover_record root p b : guarded (discover_record root p b).
Proof. unfold discover_record. guard_through. Qed.
#[local] Hint Resolve guarded_discover_record : guarded.
Lemma guarded_discover root p b : guarded (discover root p b).
Proof. unfold discover. guard_through. Qed.
#[local] Hint Resolve guarded_discover : guarded.
Lemma guarded_register_legacy job root p : guarded (register_legacy_active job root p).
Proof. unfold register_legacy_active. guard_through. Qed.
#[local] Hint Resolve guarded_register_legacy : guarded.
Lemma guarded_reconcile_row live a : holds a -> guarded (reconcile_row live a).
Proof. intros Ha. unfold reconcile_row. guard_through. Qed.
#[local] Hint Resolve guarded_reconcile_row : guarded.
Lemma guarded_reconcile_allocations jobs : guarded (reconcile_allocations jobs).
Proof. unfold reconcile_allocations. guard_through. Qed.
#[local] Hint Resolve guarded_reconcile_allocations : guarded.
Lemma guarded_prepare_forget job : guarded (prepare_forget job).
Proof. unfold prepare_forget. guard_through. Qed.
#[local] Hint Resolve guarded_prepare_forget : guarded.
Lemma guarded_reconcile_missing : guarded (reconcile_missing).
Proof. unfold reconcile_missing. guard_through. Qed.
#[local] Hint Resolve guarded_reconcile_missing : guarded.
Lemma guarded_finish job root p x : guarded (finish job root p x).
Proof. unfold finish. guard_through. Qed.
#[local] Hint Resolve guarded_finish : guarded.
Lemma guarded_inspect key : guarded (inspect key).
Proof. unfold inspect. guard_through. Qed.
#[local] Hint Resolve guarded_inspect : guarded.
Lemma guarded_release key v : guarded (release_review key v).
Proof. unfold release_review. guard_through. Qed.
#[local] Hint Resolve guarded_release : guarded.
Lemma guarded_request key v i u auto : guarded (request_delete_authorized key v i u auto).
Proof. unfold request_delete_authorized. guard_through. Qed.
#[local] Hint Resolve guarded_request : guarded.
Lemma guarded_cancel key : guarded (cancel_delete key).
Proof. unfold cancel_delete. guard_through. Qed.
#[local] Hint Resolve guarded_cancel : guarded.
Lemma guarded_remove_entry d f : guarded (remove_entry d f).
Proof. unfold remove_entry. guard_through. Qed.
#[local] Hint Resolve guarded_remove_entry : guarded.
Lemma guarded_remove_payload a n : guarded (remove_payload a n).
Proof. unfold remove_payload. guard_through. Qed.
#[local] Hint Resolve guarded_remove_payload : guarded.
Lemma concluded_guarded r t op a op' a' : concluded r t op a = (op', a') -> op_fits op -> P a -> op_fits op' /\ P a'.
Proof. intros E Ho Ha. destruct r as [u|e]; cbn in E; injection E as <- <-; (split; [exact Ho|]); apply (P_weaker a); [done| |done|]; weakly. Qed.
Lemma guarded_execute key : guarded (execute_delete key).
Proof. unfold execute_delete. guard_through.
  all: match goal with E : concluded _ _ _ ?x = _ |- _ => apply concluded_guarded in E as [Ho' Ha']; [|done|fit] end; guard_through.
Qed.
#[local] Hint Resolve guarded_execute : guarded.
Lemma guarded_quarantine : guarded (quarantine_restore).
Proof. unfold quarantine_restore. guard_through. Qed.
#[local] Hint Resolve guarded_quarantine : guarded.
Lemma guarded_compact : guarded (compact).
Proof. unfold compact. guard_through. Qed.
#[local] Hint Resolve guarded_compact : guarded.
Lemma guarded_settings s : guarded (set_settings s).
Proof. unfold set_settings. guard_through. Qed.
#[local] Hint Resolve guarded_settings : guarded.
Lemma guarded_protect r : guarded (protect_roots r).
Proof. unfold protect_roots. guard_through. Qed.
#[local] Hint Resolve guarded_protect : guarded.
Lemma guarded_configure t : guarded (configure_scan t).
Proof. unfold configure_scan. guard_through. Qed.
#[local] Hint Resolve guarded_configure : guarded.
Lemma guarded_preview d : guarded (preview_retention d).
Proof. unfold preview_retention. guard_through. Qed.
#[local] Hint Resolve guarded_preview : guarded.
Lemma guarded_change d k c : guarded (apply_change d k c).
Proof. unfold apply_change. guard_through. Qed.
#[local] Hint Resolve guarded_change : guarded.
Lemma guarded_apply k : guarded (apply_retention k).
Proof. unfold apply_retention. guard_through. Qed.
#[local] Hint Resolve guarded_apply : guarded.
Lemma guarded_submit k a i t : guarded (submit_task k a i t).
Proof. unfold submit_task. guard_through. Qed.
#[local] Hint Resolve guarded_submit : guarded.
Lemma guarded_schedule : guarded (schedule_discovery).
Proof. unfold schedule_discovery. guard_through. Qed.
#[local] Hint Resolve guarded_schedule : guarded.
Lemma guarded_scan_entry r e a c n : guarded (scan_entry r e a c n).
Proof. unfold scan_entry. guard_through. Qed.
#[local] Hint Resolve guarded_scan_entry : guarded.
Lemma guarded_scan_root e a x r : guarded (scan_root e a x r).
Proof. unfold scan_root. guard_through. Qed.
#[local] Hint Resolve guarded_scan_root : guarded.
Lemma guarded_scan r e a : guarded (scan r e a).
Proof. unfold scan. guard_through. Qed.
#[local] Hint Resolve guarded_scan : guarded.
Lemma guarded_register_publication r : guarded (register_publication r).
Proof. unfold register_publication. guard_through. Qed.
#[local] Hint Resolve guarded_register_publication : guarded.
Lemma guarded_hold_source k : guarded (hold_source k).
Proof. unfold hold_source. guard_through. Qed.
#[local] Hint Resolve guarded_hold_source : guarded.
Lemma guarded_hold_staged r : guarded (hold_staged r).
Proof. unfold hold_staged. guard_through. Qed.
#[local] Hint Resolve guarded_hold_staged : guarded.
Lemma guarded_record_scratch p : guarded (record_scratch p).
Proof. unfold record_scratch. guard_through. Qed.
#[local] Hint Resolve guarded_record_scratch : guarded.
Lemma guarded_stage_finish p r x : guarded (stage_finish p r x).
Proof. unfold stage_finish. guard_through. Qed.
#[local] Hint Resolve guarded_stage_finish : guarded.
Lemma guarded_resume_steps p s r : guarded (resume_steps p s r).
Proof. unfold resume_steps. guard_through. Qed.
#[local] Hint Resolve guarded_resume_steps : guarded.
Lemma guarded_resume r : guarded (resume_publication r).
Proof. unfold resume_publication. guard_through. Qed.
#[local] Hint Resolve guarded_resume : guarded.
Lemma guarded_reconcile_recoveries : guarded (reconcile_recoveries).
Proof. unfold reconcile_recoveries. guard_through. Qed.
#[local] Hint Resolve guarded_reconcile_recoveries : guarded.
Lemma guarded_claim k c i m : guarded (claim_recovery k c i m).
Proof. unfold claim_recovery. guard_through. Qed.
#[local] Hint Resolve guarded_claim : guarded.
Lemma guarded_receipt k c r : guarded (recovery_receipt k c r).
Proof. unfold recovery_receipt. guard_through. Qed.
#[local] Hint Resolve guarded_receipt : guarded.
Lemma guarded_cancel_recovery k c b : guarded (cancel_recovery k c b).
Proof. unfold cancel_recovery. guard_through. Qed.
#[local] Hint Resolve guarded_cancel_recovery : guarded.

Lemma quiet_not_cancelled x : quiet (not_cancelled x).
Proof. unfold not_cancelled. step_through. Qed.
#[local] Hint Resolve volume_quiet receipted_quiet quiet_not_cancelled : inventory.
Ltac guarded_draft := repeat first
  [ apply draft_bind_guarded; [|intros ? ?] | apply draft_each_guarded; intros ? ? | apply draft_guarded | apply redraft_guarded | apply draft_ret_guarded
  | solve [eauto 2 with guarded nocore] | apply doing_guarded; unfold plainly; guard_through ].
Lemma guarded_prune_directory d e : guarded (prune_directory d e).
Proof. unfold prune_directory. guard_through. Qed.
#[local] Hint Resolve guarded_prune_directory : guarded.
Lemma guarded_prune_payload k r x a : holds a -> guarded (prune_payload k r x a).
Proof. intros Ha. unfold prune_payload. guard_through. Qed.
#[local] Hint Resolve guarded_prune_payload : guarded.
Lemma guarded_prune k : guarded (prune_receipted_source k).
Proof. unfold prune_receipted_source. guard_through. Qed.
#[local] Hint Resolve guarded_prune : guarded.
Lemma guarded_stage_file s p i f r : plainly (stage_file s p i f r).
Proof. unfold stage_file. guarded_draft. Qed.
#[local] Hint Resolve guarded_stage_file : guarded.
Lemma guarded_stage_copies s p f r : plainly (stage_copies s p f r).
Proof. unfold stage_copies. guarded_draft. Qed.
#[local] Hint Resolve guarded_stage_copies : guarded.
Lemma guarded_copies s p f r : guarded (stage_copies s p f r).
Proof. eapply guards_weaken; [apply guarded_stage_copies|]. by intros [r' [[]|]]. Qed.
#[local] Hint Resolve guarded_copies : guarded.
Lemma guarded_stage k v i ps root : guarded (stage_recovery k v i ps root).
Proof. unfold stage_recovery. guard_through. Qed.
#[local] Hint Resolve guarded_stage : guarded.
Lemma guarded_commit (op : Operation) (rl : Relocation) : holds op -> holds rl -> guarded (commit_relocation op rl).
Proof. intros Ha Hb. unfold commit_relocation. guard_through. Qed.
#[local] Hint Resolve guarded_commit : guarded.
Lemma guarded_retire k : guarded (retire_relocation_source k).
Proof. unfold retire_relocation_source, request_delete. guard_through. Qed.
#[local] Hint Resolve guarded_retire : guarded.
Lemma guarded_copy d s e : guarded (copy_entry d s e).
Proof. unfold copy_entry. guard_through. Qed.
#[local] Hint Resolve guarded_copy : guarded.
Lemma journal_guarded s j : ar_id s <> id -> holds j -> holds (journal_scratch s j).
Proof. intros Hs Hj. destruct j as [rl op]. assert (Hr : holds (journal_scratch s (rl, op)).1) by (intros s' [= <-]; exact Hs). split; exact Hr. Qed.
Lemma guarded_cross a d r1 r2 p k j : holds j -> guarded (cross_volume a d r1 r2 p k j).
Proof.
  intros Hj. unfold cross_volume. cbv zeta.
  apply (guards_bind _ _ (fun r => match r with Ok s => ar_id s <> id | Err _ => True end)).
  - apply (guards_attempt _ (fun s => ar_id s <> id)). change (@guards Artifact ?m _) with (@guarded Artifact (fun s => ar_id s <> id) m). guard_through.
    apply (@guarded_ret _ (fun s => ar_id s <> id)). apply id_drawn.
  - intros [s|e] Hs; [|apply guarded_ret; split; done]. pose proof (journal_guarded s j Hs Hj) as H1.
    assert (H2 : forall files, holds (journal_scratch (ar_with_files files s) (journal_scratch s j))) by (intros files; by apply journal_guarded).
    assert (Ps : P s) by by apply P_new. cbv zeta. change (@guards (Journal * result unit Error) ?m _) with (guarded m).
    guard_through.
Qed.
#[local] Hint Resolve guarded_cross : guarded.
Lemma guarded_relocate_failed rl op e : holds op -> guarded (relocate_failed rl op e).
Proof. intros Ha. unfold relocate_failed. guard_through. Qed.
#[local] Hint Resolve guarded_relocate_failed : guarded.
Ltac journal := match goal with
  | H : holds (?j, _) |- holds ?j.1 => exact (proj1 (proj1 H))
  | H : holds (?j, _) |- holds ?j.2 => exact (proj2 (proj1 H))
  | |- holds (_, _) => split; cbn; intros ? ?; done
  end.
Ltac guarded_hook ::= first [apply guarded_commit; [solve [journal]..] | apply guarded_cross; solve [journal] | apply guarded_relocate_failed; solve [journal]].
Lemma guarded_relocate job p : guarded (relocate job p).
Proof. unfold relocate. guard_through. Qed.
#[local] Hint Resolve guarded_relocate : guarded.
Lemma guarded_settle l op : holds op -> guarded (settle_move l op).
Proof.
  intros Ha. unfold settle_move. pose proof Ha as Hrl. unfold holds, fits_operation, op_fits in Hrl. destruct (op_request op) as [|movement| |] eqn:E; [guard_through| |guard_through..].
  change (holds movement) in Hrl. guard_through. Qed.
#[local] Hint Resolve guarded_settle : guarded.
Lemma guarded_reconcile_relocations : guarded (reconcile_relocations).
Proof. unfold reconcile_relocations. guard_through. Qed.
#[local] Hint Resolve guarded_reconcile_relocations : guarded.
Lemma guarded_startup jobs : guarded (reconcile_startup jobs).
Proof. unfold reconcile_startup. guard_through. Qed.
#[local] Hint Resolve guarded_startup : guarded.
Lemma guarded_run_task op : guarded (run_task op).
Proof. unfold run_task, pruned_recovery. guard_through. Qed.
#[local] Hint Resolve guarded_run_task : guarded.
Lemma guarded_execute_task k : guarded (execute_task k).
Proof. unfold execute_task, pruned_recovery. guard_through. Qed.
#[local] Hint Resolve guarded_execute_task : guarded.
Lemma guarded_run_tasks : guarded (run_tasks).
Proof. unfold run_tasks. guard_through. Qed.
#[local] Hint Resolve guarded_run_tasks : guarded.
Lemma mono_same_db : steps same_db mono.
Proof. by intros w. Qed.
#[local] Hint Resolve mono_same_db : same_db.
Lemma guarded_count_row on due a : holds a -> guarded (count_row on due a).
Proof. intros Ha. unfold count_row. guard_through. Qed.
#[local] Hint Resolve guarded_count_row : guarded.
Lemma guarded_count on : guarded (count_time on).
Proof. unfold count_time. guard_through. Qed.
#[local] Hint Resolve guarded_count : guarded.
Lemma guarded_tick : guarded (tick).
Proof. unfold tick. guard_through. Qed.
#[local] Hint Resolve guarded_tick : guarded.

Lemma guarded_adopt key v : key <> id \/ adoptable -> guarded (adopt key v).
Proof.
  intros Hk. unfold adopt. apply guarded_bind; [guard_through|]. intros _ _. apply guarded_this_artifact. intros a Hi Ha.
  assert (Hb : P (ar_with_keep true (ar_with_owned true a))) by (destruct Hk; [apply P_new; cbn; congruence|by apply P_adopt]). clear Ha. guard_through.
Qed.
Lemma guarded_retention key v keep seconds : keep = true \/ key <> id \/ unkeepable -> guarded (retention key v keep seconds).
Proof.
  intros Hk. unfold retention. apply guarded_bind; [guard_through|]. intros _ _. apply guarded_this_artifact. intros a Hi Ha.
  assert (Hb : P (ar_with_keep keep a)).
  { destruct Hk as [->|[Hk|Hk]]; [|apply P_new; cbn; congruence|destruct keep; [|by apply P_unkeep]]; apply (P_weaker _ _ Ha); weakly. }
  guard_through.
Qed.

(** Anything but lifting Keep from [id], or adopting it, where [P] does not survive that. *)
Definition spares (o : InventoryOp) : Prop :=
  match o with
  | Op_retention key _ keep _ => keep = true \/ key <> id \/ unkeepable
  | Op_adopt key _ => key <> id \/ adoptable
  | _ => True
  end.

#[local] Hint Resolve guarded_adopt guarded_retention guarded_allocate : guarded.
Lemma guarded_close : guarded close.
Proof. apply guarded_same, modify_same_db. by intros w. Qed.
#[local] Hint Resolve guarded_close : guarded.
Lemma guarded_void `{Fits A} (m : Act World A) : guarded m -> guarded (void m).
Proof. intros Hm. unfold void. apply guarded_bind; [done|]. intros a _. by apply guards_ret. Qed.

Lemma guarded_perform o : spares o -> guarded (perform o).
Proof.
  intros Ho. destruct o; unfold perform, request_delete; try apply guarded_void; eauto 2 with guarded nocore.
Qed.
End Guarded.
