(* ===== verification/DeletionProps.v ===== *)
(** * What becomes of a deletion

    Any number of attempts, each cut short by a failing call, a death of the process or
    a restart, and then one that nothing disturbs. *)

From S2P Require Import Prelude RustStr Tree PayloadFs Custody Inventory Deletion Handoff Upkeep PayloadLogic Authority Calm DeletionRun DeletionResume.

#[local] Unset Default Proof Using.

(** The inventory opened anew: what it kept in memory starts over. *)
Definition reopened (w : World) : World := put_closed false (put_clocks ∅ (put_cursor [] (put_calls 0 w))).

(** Attempts at one pending deletion, each under circumstances of its own. *)
Inductive attempts {T : Site} (key : str) (w : World) : World -> Prop :=
| untried : attempts key w w
| tried (O : Oracle) w1 op : attempts key w w1 -> db_operations (w_db w1) !! key = Some op -> pending_state (op_state op) = true ->
    attempts key w (@execute_delete O T key w1).1
| reopen w1 : attempts key w w1 -> attempts key w (reopened w1).

(** ** A small installation

    A root with a foreign file, a job that failed with two files and a directory in its
    payload, and a request to delete it. *)

Module Scene.
#[export] Instance here : Site := {| installation := lit "i"; state_dir := [lit "s"] |}.

(** Nothing fails. *)
Definition steady : Oracle := {|
  fault _ := Fine; wall n := 1000 + Z.of_nat n; monotonic n := Z.of_nat n; dir_bytes _ := 4096; fresh_inode n := 100 + Z.of_nat n;
  fresh_id n := [Z.of_nat n]; free_bytes _ := 1000000
|}.

(** The process dies at one call. *)
Definition dying (at_call : nat) : Oracle := {|
  fault n := if Nat.eqb n at_call then Dies else Fine; wall n := 2000 + Z.of_nat n; monotonic n := Z.of_nat n; dir_bytes _ := 4096;
  fresh_inode n := 200 + Z.of_nat n; fresh_id n := [Z.of_nat n; 1]; free_bytes _ := 1000000
|}.

Definition directory_entry (i : Z) : Entry := mkEntry 1 i 4096 (0, 0) Directory [].
Definition file_entry (i : Z) : Entry := mkEntry 1 i 4 (5, 5) Regular [].
Definition job_path : path := [lit "r"; lit "job"].

Definition empty_world : World :=
  mkWorld (list_to_map [([], directory_entry 1); ([lit "r"], directory_entry 2); ([lit "r"; lit "other"], file_entry 9)]) 0
    (mkDatabase ∅ ∅ ∅ None None None []) ∅ false ∅ [].

Definition downloaded (w : World) : World :=
  put_disk (<[job_path ++ [lit "a"] := file_entry 55]> (<[job_path ++ [lit "d"] := directory_entry 77]>
    (<[job_path ++ [lit "d"; lit "x"] := file_entry 56]> (w_disk w)))) w.

Definition job_failed : Act World Artifact :=
  _ ← @allocate steady here 1 [lit "r"] job_path;
  _ ← modify downloaded;
  @finish steady here 1 job_path [lit "r"] (lit "parked_failed").

Definition failed : World := (job_failed empty_world).1.
Definition requested : World := ((a ← job_failed; @request_delete steady (ar_id a) (ar_revision a) (lit "k") 0) empty_world).1.
Definition interrupted : World := reopened (@execute_delete (dying 106) here (lit "k") requested).1.
(** Nothing fails, the next day. *)
Definition tomorrow : Oracle := {|
  fault _ := Fine; wall n := 90000 + Z.of_nat n; monotonic n := Z.of_nat n; dir_bytes _ := 4096; fresh_inode n := 300 + Z.of_nat n;
  fresh_id n := [Z.of_nat n; 2]; free_bytes _ := 1000000
|}.
#[export] Instance tomorrow_calm : Calm tomorrow := fun n => eq_refl.

(** Another directory turns up in the root. *)
Definition visited : World :=
  (@discover steady [lit "r"] [lit "r"; lit "found"] false
    (put_disk (<[[lit "r"; lit "found"] := directory_entry 90]> (w_disk requested)) requested)).1.
End Scene.

Section Props.
Context {T : Site}.

Lemma attempts_resumable key w op a w1 : @deletion T (w_disk w) (ar_path a) w key op a -> attempts key w w1 ->
  @resumable T (w_disk w) (ar_path a) key w1.
Proof.
  intros Hd. induction 1 as [|O w1 op1 H1 IH Ho Hp|w1 H1 IH]; [by eapply deleting_resumable| |].
  - destruct (IH _ Ho Hp) as [a1 Hd1]. pose proof (execute_delete_keeps key op1 a1 w1 Hd1) as Hk.
    by destruct (execute_delete key w1) as [w2 [o|e|]].
  - intros op1 Ho Hp. destruct (IH op1 Ho Hp) as [a1 []]. exists a1. split; try done. by destruct de_keyed.
Qed.

(** C10: A deletion of an owned payload survives any number of attempts cut short at any
    call, by an error, by the death of the process or by a restart: as long as the
    operation is still pending, the next undisturbed attempt removes what is left of the
    payload, records the success of both rows, and everything outside the payload and
    the entry of its root is still as it was before the first attempt. *)
Theorem interrupted_deletion_resumes (O : Oracle) key w op a w1 op1 :
  @deletion T (w_disk w) (ar_path a) w key op a ->
  attempts key w w1 -> db_operations (w_db w1) !! key = Some op1 -> pending_state (op_state op1) = true ->
  Calm O -> (forall n, op_not_before op1 <= wall n /\ op_next_retry op1 <= wall n) ->
  exists w2 op2 a2, execute_delete key w1 = (w2, Fin op2) /\ op_state op2 = lit "succeeded"
    /\ db_operations (w_db w2) !! key = Some op2
    /\ db_artifacts (w_db w2) !! op_artifact op2 = Some a2 /\ ar_state a2 = lit "deleted"
    /\ (forall r : path, w_disk w2 !! (ar_path a ++ r) = None)
    /\ forall p : path, ~ ar_path a `prefix_of` p -> p <> parent (ar_path a) -> w_disk w2 !! p = w_disk w !! p.
Proof.
  intros Hd Ha Ho Hp HC Ht. destruct (attempts_resumable _ _ _ _ _ Hd Ha op1 Ho Hp) as [a1 Hd1].
  destruct (execute_delete_goes w1 key op1 a1 Hd1) as (w2 & op2 & Hrun & Hs & Ho2 & (a2 & Ha2 & Hst) & Hg & Hout); [intros n; by destruct (Ht n)..|].
  exists w2, op2, a2. pose proof (de_base _ _ _ _ Hd1) as Hb. split_and!; try done.
  - intros r. rewrite <- Hb. apply Hg.
  - intros p Hp1 Hp2. rewrite (Hout p); [by apply (de_outside _ _ _ _ Hd1)|by rewrite Hb|].
    rewrite <- Hb in Hp2. intros ->. apply Hp2. symmetry. pose proof (de_child _ _ _ _ Hd1) as [_ Hi]%andb_true_iff. by apply bool_decide_eq_true in Hi.
Qed.
End Props.

(** ** The theorems at work *)

Section Witness.
Import Scene.

#[local] Opaque requested.

Lemma disk_elements (d : Disk) l : map_to_list d = l -> forall (p : path) e, d !! p = Some e <-> In (p, e) l.
Proof. intros <- p e. by rewrite <- elem_of_map_to_list, list_elem_of_In. Qed.

Definition the_op : Operation := mkOperation (lit "k") [5] (lit "delete") (lit "queued") (RequestDelete [5] 2 0 false) 1059 1060 0 0 None.
Definition the_files : list FileEntry :=
  [mkFileEntry [lit "a"] (identity (file_entry 55)) None; mkFileEntry [lit "d"] (identity (directory_entry 77)) None;
   mkFileEntry [lit "d"; lit "x"] (identity (file_entry 56)) None].
Definition the_row : Artifact :=
  mkArtifact [5] [6] 2 (Some 1) job_path [lit "r"] (mkIdentity 1 2 4096 (1010, 0) true) (Some (mkIdentity 1 110 4096 (1010, 0) true))
    (lit "parked_failed") true false None 1007 1043 604800 (Some 605845) 0 the_files None.
Definition the_sidecar : Sidecar := @sidecar_of here the_row.
Definition the_entries : list (path * Entry) :=
  [([lit "r"; lit "other"], file_entry 9); (job_path ++ [lit "a"], file_entry 55); (job_path, mkEntry 1 110 4096 (1010, 0) Directory []);
   ([lit "r"], mkEntry 1 2 4096 (1010, 0) Directory []); (job_path ++ [lit "d"], directory_entry 77); (job_path ++ [lit "d"; lit "x"], file_entry 56);
   ([], directory_entry 1)].

Section Ready.
(** A state that holds these records and this disk. *)
Context (w : World) (Hd : map_to_list (w_disk w) = the_entries) (Hm : w_sidecars w !! ([5], [6]) = Some the_sidecar)
  (Ho : db_operations (w_db w) !! lit "k" = Some the_op) (Ha : db_artifacts (w_db w) !! [5] = Some the_row)
  (Hr : map_to_list (db_operations (w_db w)) = [(lit "k", the_op)] /\ map_to_list (db_artifacts (w_db w)) = [([5], the_row)]
    /\ map_to_list (db_recoveries (w_db w)) = [] /\ w_closed w = false /\ db_protected_roots (w_db w) = None).

Lemma shown (p : path) e : w_disk w !! p = Some e -> In (p, e) the_entries.
Proof. intros He. by apply (disk_elements _ _ Hd). Qed.
Lemma shown_at (p : path) e : In (p, e) the_entries -> w_disk w !! p = Some e.
Proof. intros He. by apply (disk_elements _ _ Hd). Qed.

(** The entries below the payload. *)
Lemma payload_entry (r : path) e : w_disk w !! (job_path ++ r) = Some e ->
  (r, e) ∈ [([], mkEntry 1 110 4096 (1010, 0) Directory []); ([lit "a"], file_entry 55); ([lit "d"], directory_entry 77); ([lit "d"; lit "x"], file_entry 56)].
Proof.
  intros He%shown. clear Hm Ho Ha Hr. unfold the_entries, job_path in He. cbn in He.
  repeat (destruct He as [He|He]; [simplify_eq/=; set_solver|]). done.
Qed.

Lemma way_there (p : path) : p `prefix_of` job_path -> walkable (w_disk w) p.
Proof.
  intros Hp q Hq. assert (Hqj : q `prefix_of` job_path) by (by etrans). destruct Hqj as [r Hq']. unfold job_path in Hq'.
  destruct q as [|c1 [|c2 [|c3 q]]]; simplify_eq/=.
  - exists (directory_entry 1). split; [apply shown_at; unfold the_entries; cbn; tauto|done].
  - eexists. split; [apply shown_at; unfold the_entries; cbn; tauto|done].
  - eexists. split; [apply shown_at; unfold the_entries; cbn; tauto|done].
Qed.

Lemma deletion_ready : @deletion here (w_disk w) (ar_path the_row) w (lit "k") the_op the_row.
Proof.
  destruct Hr as (R1 & R2 & R3 & R4 & R5). split; try done.
  - split; intros k x Hx%elem_of_map_to_list; [rewrite R2 in Hx|rewrite R1 in Hx|rewrite R3 in Hx; by apply elem_of_nil in Hx]; apply list_elem_of_singleton in Hx; by injection Hx as -> ->.
  - by exists [5], 2, 0.
  - by rewrite R5.
  - split; [apply way_there; by exists [lit "job"]|]. eexists. split; [apply shown_at; unfold the_entries; cbn; tauto|done].
  - exists the_sidecar. split; [exact Hm|reflexivity].
  - left. split.
    + by apply way_there.
    + eexists. split; [apply shown_at; unfold the_entries; cbn; tauto|done].
    + split.
      * intros p n e He%payload_entry. assert (p = [] \/ p = [lit "d"]) as [->| ->].
        { repeat (apply elem_of_cons in He as [He|He]; [destruct p as [|c [|c' p]]; simplify_eq/=; auto; by destruct p|]). by apply elem_of_nil in He. }
        -- eexists. split; [apply shown_at; unfold the_entries; cbn; tauto|done].
        -- eexists. split; [apply shown_at; unfold the_entries; cbn; tauto|done].
      * intros p e Hp He%payload_entry. repeat (apply elem_of_cons in He as [[= -> ->]|He]; [done|]). by apply elem_of_nil in He.
      * intros p e He%payload_entry _. apply Nat.le_trans with 2%nat; [|lia]. repeat (apply elem_of_cons in He as [[= -> ->]|He]; [cbn; lia|]). by apply elem_of_nil in He.
      * unfold below. assert (E : map fst (map_to_list (w_disk w)) = map fst the_entries) by (by rewrite Hd). vm_compute in E |- *. rewrite E. vm_compute. discriminate.
      * intros p [e He%payload_entry]. repeat (apply elem_of_cons in He as [[= -> ->]|He]; [done|]). by apply elem_of_nil in He.
    + intros r e Hn He%payload_entry. repeat (apply elem_of_cons in He as [[= -> ->]|He]; [first [by destruct Hn|vm_compute; reflexivity]|]). by apply elem_of_nil in He.
Qed.

End Ready.

Lemma requested_deletion : @deletion here (w_disk requested) (ar_path the_row) requested (lit "k") the_op the_row.
Proof. apply deletion_ready; [..|split_and!]; vm_compute; reflexivity. Qed.

Definition the_op_running : Operation := mkOperation (lit "k") [5] (lit "delete") (lit "running") (RequestDelete [5] 2 0 false) 1059 1060 1 0 None.

Lemma interrupted_deletion_resumes_witness :
  w_disk interrupted !! (job_path ++ [lit "a"]) = None /\ w_disk interrupted !! (job_path ++ [lit "d"]) <> None
  /\ exists w2 op2 a2, @execute_delete tomorrow here (lit "k") interrupted = (w2, Fin op2) /\ op_state op2 = lit "succeeded"
    /\ db_operations (w_db w2) !! lit "k" = Some op2
    /\ db_artifacts (w_db w2) !! op_artifact op2 = Some a2 /\ ar_state a2 = lit "deleted"
    /\ (forall r : path, w_disk w2 !! (job_path ++ r) = None)
    /\ forall p : path, ~ job_path `prefix_of` p -> p <> [lit "r"] -> w_disk w2 !! p = w_disk requested !! p.
Proof.
  split; [vm_compute; reflexivity|]. split; [vm_compute; discriminate|].
  refine (@interrupted_deletion_resumes here tomorrow (lit "k") requested the_op the_row interrupted the_op_running requested_deletion _ _ _ _ _).
  - refine (reopen _ _ _ (tried _ _ (dying 106) _ the_op (untried _ _) _ _)); vm_compute; reflexivity.
  - vm_compute. reflexivity.
  - reflexivity.
  - intros n. cbn. lia.
Defined.

(** Texts stand for themselves. *)
#[export] Instance plain : Codec := {| sha256 b := b; files_json _ := []; recovery_json _ := []; parse_recovery _ := None |}.

Lemma removals_are_authorized_witness :
  rtc careful_step requested (@perform (dying 106) here plain (Op_execute (lit "k")) requested).1
  /\ w_disk (@perform (dying 106) here plain (Op_execute (lit "k")) requested).1 !! (job_path ++ [lit "a"]) = None.
Proof.
  split; [|vm_compute; reflexivity].
  exact (@removals_are_authorized (dying 106) here plain (Op_execute (lit "k")) requested (de_keyed _ _ _ _ requested_deletion)).
Defined.
End Witness.
