(* ===== verification/Keeping.v ===== *)
(** * What only an explicit act releases

    Two promises about a payload's record that hold over any sequence of operations,
    under any circumstances: a payload quarantined by a restore, and a directory the
    inventory only discovered, are not deleted before someone lifts Keep, or adopts. *)

From stdpp Require Import sorting.
From S2P Require Import Prelude RustStr Tree PayloadFs Custody Inventory Deletion Handoff Upkeep PayloadLogic Authority Guarded DeletionResume DeletionProps.

#[local] Unset Default Proof Using.

(** A sequence of operations, each under circumstances of its own, and restarts.  An id
    once drawn is not drawn again. *)
Inductive later {T : Site} (id : str) (allowed : InventoryOp -> Prop) (w : World) : World -> Prop :=
| later_now : later id allowed w w
| later_op (O : Oracle) (C : Codec) o w1 : later id allowed w w1 -> (forall n, fresh_id n <> id) -> allowed o -> later id allowed w (@perform O T C o w1).1
| later_reopened w1 : later id allowed w w1 -> later id allowed w (reopened w1).

(** The id is one [new_id] draws, not one derived from another record's. *)
Definition drawn (id : str) : Prop := forall x, lit "recovery-" ++ x <> id /\ lit "source-" ++ x <> id /\ lit "scratch-" ++ x <> id.

(** No recorded move has [id] as its scratch directory. *)
Definition unscratched (id : str) (w : World) : Prop :=
  forall key op rl s, db_operations (w_db w) !! key = Some op -> op_request op = RequestRelocate rl -> rl_scratch rl = Some s -> ar_id s <> id.

(** No deletion and no cleanup of the payload [id] changes the disk. *)
Definition undeletable {T : Site} (id : str) (w : World) : Prop := forall (O : Oracle) (C : Codec),
  (forall key op, db_operations (w_db w) !! key = Some op -> op_artifact op = id -> w_disk (@perform O T C (Op_execute key) w).1 = w_disk w)
  /\ (forall key r, db_recoveries (w_db w) !! key = Some r -> rv_artifact r = id -> w_disk (@perform O T C (Op_prune key) w).1 = w_disk w).

Definition leaves_keep (id : str) (o : InventoryOp) : Prop := match o with Op_retention key _ false _ => key <> id | _ => True end.
Definition leaves_unowned (id : str) (o : InventoryOp) : Prop := match o with Op_adopt key _ => key <> id | _ => True end.

Section Keeping.
Context {T : Site}.

Section Blocked.
Context {O : Oracle} {C : Codec}.

(** The state is the one read, but for the number of calls. *)
Definition frozen (w w' : World) : Prop := exists n, w' = put_calls n w.
#[local] Instance frozen_preorder : PreOrder frozen.
Proof. split; [intros w; exists (w_calls w); by destruct w|]. intros w1 w2 w3 [n ->] [m ->]. by exists m. Qed.

Definition same_disk (w w' : World) : Prop := w_disk w' = w_disk w.
#[local] Instance same_disk_preorder : PreOrder same_disk.
Proof. split; [done|]. intros w1 w2 w3. unfold same_disk. congruence. Qed.

Lemma quiet_same_disk {A} (m : Act World A) : quiet m -> steps same_disk m.
Proof. intros Hm w. by destruct (Hm w) as [n ->]. Qed.

Lemma blocked_execute w key op a : db_operations (w_db w) !! key = Some op -> db_artifacts (w_db w) !! op_artifact op = Some a ->
  ar_owned a && negb (ar_keep a) = false -> w_disk (execute_delete key w).1 = w_disk w.
Proof.
  intros Ho Ha Hb. set (J := frozen w). set (Q := fun w' => same_disk w w').
  enough (G : triple J (execute_delete key) (fun _ => Q) (fun _ => Q)).
  { specialize (G w (reflexivity _)). by destruct (execute_delete key w) as [w' [x|e|]]. }
  assert (Hs : forall w' k, J w' -> J (put_calls k w')) by (intros w' k [n ->]; by exists k).
  assert (HF : forall (e : option Error) w', J w' -> Q w') by (intros e w' [n ->]; reflexivity). unfold execute_delete.
  apply (triple_read _ _ (fun _ => True)); [apply quiet_guard|done..|]. intros [] _.
  apply (triple_read_in _ _ (fun o => o = op)); [apply quiet_operation|done| |done|].
  { intros w1 w2 o [n ->] [H _]%operation_fin. cbn in H. rewrite Ho in H. by injection H. }
  intros o ->. apply (triple_read _ _ (fun _ => True)); [step_through|done..|]. intros [] _.
  apply (triple_read _ _ (fun _ => True)); [step_through|done..|]. intros t1 _.
  apply (triple_read _ _ (fun _ => True)); [step_through|done..|]. intros t2 _.
  case_match; [intros w' Hw; by apply (HF None)|].
  apply (triple_read_in _ _ (fun x => x = a)); [apply quiet_get_artifact|done| |done|].
  { intros w1 w2 x [n ->] [H1 _]%get_artifact_fin. cbn in H1. rewrite Ha in H1. by injection H1. }
  intros x ->. destruct (op_request op); [|intros w' Hw; by apply (HF None)..].
  apply (triple_read _ _ (fun _ => True)); [step_through|done..|]. intros on _.
  apply (triple_read _ _ (fun _ => True)); [step_through|done..|]. intros t _.
  case_match.
  - cbv zeta. eapply (triple_mbind _ _ (fun _ => Q)); [|intros []; by apply triple_mret]. intros w' [n ->].
    match goal with |- match save_operation ?o ?v with _ => _ end => destruct (write_db_only (fun d => put_operations (<[op_id o := o]> (db_operations d)) d) v) as (k & d & Hk) end.
    unfold save_operation. by destruct (write_db _ _) as [w2 [u|e|]]; cbn in Hk; subst w2.
  - apply (triple_read _ _ (fun _ => False)); [step_through|done| |done|by intros []].
    intros w1 w2 u [E%andb_true_iff _]%unless_fin. destruct E as [E1%andb_true_iff E2]. destruct E1 as [E1 _]. by rewrite E1, E2 in Hb.
Qed.

Lemma blocked_prune w key r a : db_recoveries (w_db w) !! key = Some r -> db_artifacts (w_db w) !! rv_artifact r = Some a ->
  ar_owned a && negb (ar_keep a) = false -> w_disk (prune_receipted_source key w).1 = w_disk w.
Proof.
  intros Hr Ha Hb. set (J := frozen w). set (Q := fun w' => same_disk w w').
  enough (G : triple J (prune_receipted_source key) (fun _ => Q) (fun _ => Q)).
  { specialize (G w (reflexivity _)). by destruct (prune_receipted_source key w) as [w' [x|e|]]. }
  assert (Hs : forall w' k, J w' -> J (put_calls k w')) by (intros w' k [n ->]; by exists k).
  assert (HF : forall (e : option Error) w', J w' -> Q w') by (intros e w' [n ->]; reflexivity). unfold prune_receipted_source.
  apply (triple_read _ _ (fun _ => True)); [apply quiet_guard|done..|]. intros [] _.
  apply (triple_read_in _ _ (fun x => x = r)); [apply quiet_recovery|done| |done|].
  { intros w1 w2 x [n ->] [H _]%recovery_fin. cbn in H. rewrite Hr in H. by injection H. }
  intros x ->. apply (triple_read _ _ (fun _ => True)); [step_through|done..|]. intros [] _.
  destruct (rv_receipt r); [|intros w' Hw; by apply (HF None)].
  apply (triple_read_in _ _ (fun x => x = a)); [apply quiet_get_artifact|done| |done|].
  { intros w1 w2 x [n ->] [H _]%get_artifact_fin. cbn in H. rewrite Ha in H. by injection H. }
  intros x ->. case_match; [intros w' Hw; by apply (HF None)|].
  apply (triple_read _ _ (fun _ => False)); [step_through|done| |done|by intros []].
  intros w1 w2 u [E _]%unless_fin. by rewrite E in Hb.
Qed.
End Blocked.

Lemma blocked_undeletable id w a : db_artifacts (w_db w) !! id = Some a -> ar_owned a && negb (ar_keep a) = false -> undeletable id w.
Proof.
  intros Ha Hb O C. split.
  - intros key op Ho <-. unfold perform, void. rewrite bind_eq. pose proof (blocked_execute w key op a Ho Ha Hb) as H. by destruct (execute_delete key w) as [w' [x|e|]].
  - intros key r Hr <-. exact (blocked_prune w key r a Hr Ha Hb).
Qed.

(** ** Over any sequence of operations *)

Section Held.
Context (id : str) (P : Artifact -> Prop) (P_new : forall a, ar_id a <> id -> P a) (P_weaker : forall a a', P a -> weaker a a' -> P a').
Context (unkeepable adoptable : Prop) (P_unkeep : unkeepable -> forall a, P a -> P (ar_with_keep false a))
  (P_adopt : adoptable -> forall a, P a -> P (ar_with_keep true (ar_with_owned true a))).
Context (allowed : InventoryOp -> Prop) (allowed_spares : forall o, allowed o -> spares id unkeepable adoptable o).

Lemma later_fits w w' : drawn id -> fits id P (w_db w) -> later id allowed w w' -> fits id P (w_db w').
Proof.
  intros Hi Hw. induction 1 as [|O C o w1 H1 IH Hf Ho|w1 H1 IH]; [done| |done].
  pose proof (@guarded_perform O T C id P P_new P_weaker unkeepable adoptable P_unkeep P_adopt Hi Hf o (allowed_spares o Ho) w1 IH) as Hg.
  destruct (perform o w1) as [w2 [u|e|]]; [by destruct Hg|done..].
Qed.
End Held.

Lemma fits_start id (P : Artifact -> Prop) w a : keyed w -> unscratched id w -> db_artifacts (w_db w) !! id = Some a -> P a -> (forall a, ar_id a <> id -> P a) -> fits id P (w_db w).
Proof.
  intros Hk Hu Ha Hp Hn. split; [by exists a| |].
  - intros k x Hx. pose proof (k_artifacts _ Hk _ _ Hx) as Hi. split; [done|]. destruct (decide (k = id)) as [->|Hne]; [|apply Hn; by rewrite Hi].
    rewrite Ha in Hx. by injection Hx as <-.
  - intros k op Ho. unfold op_fits. destruct (op_request op) as [| | |rl] eqn:E; [done..|]. intros s Hs. by eapply Hu.
Qed.

(** C12: A directory the inventory only came across is nobody's to delete: whatever
    operations follow and however they fail, its record stays there and unowned until it
    is adopted, and no deletion and no cleanup of it changes the disk. *)
Theorem discovered_never_deleted id w a w' :
  drawn id -> keyed w -> unscratched id w -> db_artifacts (w_db w) !! id = Some a -> ar_owned a = false ->
  later id (leaves_unowned id) w w' ->
  (exists a', db_artifacts (w_db w') !! id = Some a' /\ ar_owned a' = false) /\ undeletable id w'.
Proof.
  intros Hi Hk Hu Ha Ho Hl. set (P := fun a => ar_id a = id -> ar_owned a = false).
  assert (Hn : forall a, ar_id a <> id -> P a) by (intros x Hx Hx'; by destruct Hx).
  assert (Hf : fits id P (w_db w')).
  { apply (later_fits id P Hn) with (w := w) (unkeepable := True) (adoptable := False) (allowed := leaves_unowned id); [| |done| |done| |done].
    - intros x x' Hx (E & _ & E') Hx'. rewrite E in Hx'. destruct E' as [->|E']; auto.
    - intros _ x Hx. exact Hx.
    - intros o. destruct o; cbn; auto.
    - by apply (fits_start id P w a Hk Hu Ha (fun _ => Ho)). }
  destruct (ft_row _ _ _ Hf) as [a' Ha']. destruct (ft_artifacts _ _ _ Hf id a' Ha') as [Hid Hp]. specialize (Hp Hid).
  split; [by exists a'|]. apply (blocked_undeletable id w' a'); [done|]. by rewrite Hp.
Qed.

Definition row_kept (id : str) (w : World) : Prop := exists a, db_artifacts (w_db w) !! id = Some a /\ ar_keep a = true.

Lemma kept_later id w w' : drawn id -> fits id (fun _ => True) (w_db w) -> row_kept id w ->
  later id (leaves_keep id) w w' -> row_kept id w' /\ undeletable id w'.
Proof.
  intros Hi [F1 F2 F3] (a & Ha & Ho) Hl. set (P := fun a => ar_id a = id -> ar_keep a = true).
  assert (Hn : forall a, ar_id a <> id -> P a) by (intros x Hx Hx'; by destruct Hx).
  assert (Hf : fits id P (w_db w')).
  { apply (later_fits id P Hn) with (w := w) (unkeepable := False) (adoptable := True) (allowed := leaves_keep id); [|done| | |done| |done].
    - intros x x' Hx (E & E' & _) Hx'. rewrite E in Hx'. destruct E' as [->|E']; auto.
    - intros _ x Hx _. done.
    - intros o. destruct o; cbn; auto. destruct keep; auto.
    - split; [done| |done]. intros k x Hx. destruct (F2 k x Hx) as [Hid _]. split; [done|]. intros E. rewrite <- Hid, E in Hx.
      by pose proof (eq_trans (eq_sym Ha) Hx) as [= <-]. }
  destruct (ft_row _ _ _ Hf) as [a' Ha']. destruct (ft_artifacts _ _ _ Hf id a' Ha') as [Hid Hp]. specialize (Hp Hid).
  split; [by exists a'|]. apply (blocked_undeletable id w' a'); [done|]. rewrite Hp. apply andb_false_r.
Qed.

(** ** After a restore *)

Section Restored.
Context {O : Oracle}.

Lemma save_quarantined id a w w' u : save_artifact (quarantined a) w = (w', Fin u) -> row_kept id w \/ ar_id a = id -> row_kept id w'.
Proof.
  intros [n ->]%write_db_fin Hk. unfold row_kept. cbn. destruct (decide (ar_id a = id)) as [<-|Hne]; [rewrite lookup_insert_eq; by eexists|].
  rewrite lookup_insert_ne by done. by destruct Hk.
Qed.

Lemma all_quarantined id l : forall w w' u, for_each l (fun a => save_artifact (quarantined a)) w = (w', Fin u) ->
  row_kept id w \/ (exists a, a ∈ l /\ ar_id a = id) -> row_kept id w'.
Proof.
  induction l as [|x l IH]; intros w w' u; cbn [for_each].
  - intros [-> ->]%ret_fin [Hk|(a & Ha & _)]; [done|by apply elem_of_nil in Ha].
  - intros ([] & w1 & H1 & H2)%bind_fin Hk. apply (IH _ _ _ H2). destruct Hk as [Hk|(a & [->|Ha]%elem_of_cons & Hi)].
    + left. eapply save_quarantined; [done|by left].
    + left. eapply save_quarantined; [done|by right].
    + right. by exists a.
Qed.

Lemma operations_saved (l : list Operation) (f : Operation -> Operation) : forall w w' u, for_each l (fun o => save_operation (f o)) w = (w', Fin u) -> db_artifacts (w_db w') = db_artifacts (w_db w).
Proof.
  induction l as [|x l IH]; intros w w' u; cbn [for_each]; [by intros [_ ->]%ret_fin|].
  intros ([] & w1 & [n ->]%write_db_fin & H2)%bind_fin. by apply IH in H2.
Qed.

Lemma restore_keeps_payload id w w' a : quarantine_restore w = (w', Fin tt) -> keyed w -> db_artifacts (w_db w) !! id = Some a -> terminal a = false -> row_kept id w'.
Proof.
  intros Hq Hk Ha Ht. unfold quarantine_restore in Hq. apply bind_fin in Hq as ([] & w1 & H1 & H2).
  pose proof (quiet_guard w) as [n Hn]. rewrite H1 in Hn. cbn in Hn. subst w1. apply transaction_fin in H2 as (n1 & m & w2 & H2 & ->).
  apply bind_fin in H2 as (k & w3 & H3 & H4). pose proof (quiet_sql (put_calls n1 (put_calls n w))) as [n3 Hn3]. rewrite H3 in Hn3. cbn in Hn3. subst w3.
  apply bind_fin in H4 as (d & w4 & [= <- <-] & ([] & w5 & H5 & ([] & w6 & [n6 ->]%write_db_fin & H7)%bind_fin)%bind_fin).
  apply (all_quarantined id) in H5.
  2:{ right. exists a. split; [|by eapply k_artifacts]. apply elem_of_filter_bool. split; [|by rewrite Ht]. apply list_elem_of_fmap.
      exists (id, a). split; [done|by apply elem_of_map_to_list]. }
  apply bind_fin in H7 as (k' & w7 & H7 & H8). pose proof (quiet_sql (put_db (put_recoveries (quarantine_recovery <$> db_recoveries (w_db w5)) (w_db w5)) (put_calls n6 w5))) as [n7 Hn7].
  rewrite H7 in Hn7. cbn in Hn7. subst w7. apply bind_fin in H8 as (d & w8 & [= <- <-] & ([] & w9 & H9%operations_saved & H10)%bind_fin).
  unfold event in H10. apply bind_fin in H10 as (t & w10 & [= <- <-] & [n11 ->]%write_db_fin). unfold row_kept. cbn. rewrite H9. exact H5.
Qed.
End Restored.

(** C11: A payload that was not gone when a backup was restored is kept: once the
    quarantine has been recorded, whatever operations follow and however they fail, its
    record stays there and kept until someone lifts Keep from it, and no deletion and no
    cleanup of it changes the disk. *)
Theorem restored_payload_held (O : Oracle) id w a w1 w' :
  keyed w -> unscratched id w -> drawn id -> db_artifacts (w_db w) !! id = Some a -> terminal a = false ->
  quarantine_restore w = (w1, Fin tt) -> later id (leaves_keep id) w1 w' ->
  (exists a', db_artifacts (w_db w') !! id = Some a' /\ ar_keep a' = true) /\ undeletable id w'.
Proof.
  intros Hk Hu Hi Ha Ht Hq Hl. apply (kept_later id w1 w' Hi); [|by eapply restore_keeps_payload|done].
  pose proof (guarded_quarantine id (fun _ => True) (fun _ _ _ _ => I) w) as Hg. rewrite Hq in Hg. apply Hg. by apply (fits_start id _ w a).
Qed.
End Keeping.

(** ** The theorems at work *)

Section Witness.
Import Scene.

Lemma small_drawn n : drawn [n].
Proof. intros x. split_and!; intros H%(f_equal length); cbn in H; lia. Qed.
Lemma tomorrow_fresh n m : @fresh_id tomorrow n <> [m].
Proof. done. Qed.

Definition has_keys (w : World) : bool :=
  forallb (fun kv => bool_decide (ar_id kv.2 = kv.1)) (map_to_list (db_artifacts (w_db w)))
  && forallb (fun kv => bool_decide (op_id kv.2 = kv.1)) (map_to_list (db_operations (w_db w)))
  && forallb (fun kv => bool_decide (rv_id kv.2 = kv.1)) (map_to_list (db_recoveries (w_db w))).
Lemma has_keys_keyed w : has_keys w = true -> keyed w.
Proof.
  intros [[H1 H2]%andb_true_iff H3]%andb_true_iff. rewrite forallb_elem in H1. rewrite forallb_elem in H2. rewrite forallb_elem in H3.
  split; intros k x Hx%elem_of_map_to_list; [specialize (H1 _ Hx)|specialize (H2 _ Hx)|specialize (H3 _ Hx)]; by eapply bool_decide_eq_true.
Qed.

Definition moves_nothing (w : World) : bool :=
  forallb (fun kv => match op_request kv.2 with RequestRelocate _ => false | _ => true end) (map_to_list (db_operations (w_db w))).
Lemma moves_nothing_unscratched id w : moves_nothing w = true -> unscratched id w.
Proof. intros Hm k op rl s Ho%elem_of_map_to_list Hr. unfold moves_nothing in Hm. rewrite forallb_elem in Hm. specialize (Hm _ Ho). cbn in Hm. by rewrite Hr in Hm. Qed.

Definition restored : World := (@quarantine_restore tomorrow requested).1.

Lemma restored_payload_held_witness :
  (exists a', db_artifacts (w_db (@perform tomorrow here plain Op_tick restored).1) !! [5] = Some a' /\ ar_keep a' = true)
  /\ undeletable [5] (@perform tomorrow here plain Op_tick restored).1.
Proof.
  apply (@restored_payload_held here tomorrow [5] requested the_row restored).
  - apply has_keys_keyed. vm_compute. reflexivity.
  - apply moves_nothing_unscratched. vm_compute. reflexivity.
  - apply small_drawn.
  - vm_compute. reflexivity.
  - reflexivity.
  - vm_compute. reflexivity.
  - apply later_op; [apply later_now|intros n; apply tomorrow_fresh|exact I].
Defined.

Lemma discovered_never_deleted_witness :
  (exists a', db_artifacts (w_db (@perform tomorrow here plain (Op_retention [71] 1 false (Some 0)) visited).1) !! [71] = Some a' /\ ar_owned a' = false)
  /\ undeletable [71] (@perform tomorrow here plain (Op_retention [71] 1 false (Some 0)) visited).1.
Proof.
  apply (@discovered_never_deleted here [71] visited
    (mkArtifact [71] [72] 1 None [lit "r"; lit "found"] [lit "r"] (mkIdentity 1 2 4096 (1010, 0) true) (Some (mkIdentity 1 90 4096 (0, 0) true))
       (lit "unknown") false true (Some (lit "review")) 1075 1076 0 None 0 [] None)).
  - apply small_drawn.
  - apply has_keys_keyed. vm_compute. reflexivity.
  - apply moves_nothing_unscratched. vm_compute. reflexivity.
  - vm_compute. reflexivity.
  - reflexivity.
  - apply later_op; [apply later_now|intros n; apply tomorrow_fresh|exact I].
Defined.
End Witness.
