(* ===== verification/InventoryFindings.v ===== *)
(** * Runs of the payload inventory that end where the code does not mean to

    Each is one run of the modelled operations on the small installation of
    [DeletionProps], computed. *)

From S2P Require Import Prelude RustStr Tree PayloadFs Custody Inventory Deletion Handoff Upkeep DeletionProps.
Import Scene.

#[local] Unset Default Proof Using.

(** ** Steps *)

(** A run that goes on whatever becomes of each operation. *)
Definition and_then {A} (m : Act World A) (w : World) : World := (m w).1.
Definition ending {A} (r : World * outcome A) : option (result unit Error) :=
  match r.2 with Fin _ => Some (Ok tt) | Fail e => Some (Err e) | Dead => None end.

(** The files arrive, and the directory's times with them. *)
Definition written (w : World) : World :=
  downloaded (put_disk (<[job_path := mkEntry 1 110 4096 (1020, 0) Directory []]> (w_disk w)) w).

Definition downloading : World := written (and_then (@allocate steady here 1 [lit "r"] job_path) empty_world).

(** The process dies between the new marker file and the commit that goes with it. *)
Definition finished_halfway : World := reopened (and_then (@finish (dying 51) here 1 job_path [lit "r"] (lit "parked_failed")) downloading).

(** After that death the finished job cannot be finished any more: its marker has the
    directory's new times, its record the old ones, and every later [finish] is refused. *)
Lemma finish_never_repeats :
  map (fun kv => ar_state kv.2) (map_to_list (db_artifacts (w_db finished_halfway))) = [lit "active"]
  /\ ending (@finish tomorrow here 1 job_path [lit "r"] (lit "parked_failed") finished_halfway)
     = Some (Err (Conflict (lit "external allocation identity does not match inventory"))).
Proof. split; vm_compute; reflexivity. Qed.

(** ** A found directory, adopted and to be deleted, becomes a live job's *)

Definition found_path : path := [lit "r"; lit "found"].

(** The first operation on the row, with its key and current revision. *)
Definition with_row {A} (key : str) (k : Artifact -> Act World A) : Act World A := fun w =>
  match db_artifacts (w_db w) !! key with Some a => k a w | None => (w, Fail NotFound) end.

Definition condemned : World :=
  and_then (with_row [71] (fun a => @request_delete tomorrow [71] (ar_revision a) (lit "k2") 0))
    (and_then (with_row [71] (fun a => @retention tomorrow [71] (ar_revision a) false None))
      (and_then (with_row [71] (fun a => @adopt tomorrow here [71] (ar_revision a))) visited)).

Definition claimed : World := and_then (@register_legacy_active tomorrow here 7 [lit "r"] found_path) condemned.

(** The live job's directory is removed all the same. *)
Lemma live_payload_deleted :
  option_map (fun a => (ar_state a, ar_job a)) (db_artifacts (w_db claimed) !! [71]) = Some (lit "active", Some 7)
  /\ w_disk claimed !! found_path <> None
  /\ w_disk (and_then (@execute_delete tomorrow here (lit "k2")) claimed) !! found_path = None.
Proof. split; [vm_compute; reflexivity|]. split; [vm_compute; discriminate|]. vm_compute. reflexivity. Qed.

(** ** Keep, put on and lifted during a retry *)

(** One call fails, once some of the payload is gone. *)
Definition failing (at_call : nat) : Oracle := {|
  fault n := if Nat.eqb n at_call then Fails else Fine; wall n := 2000 + Z.of_nat n; monotonic n := Z.of_nat n; dir_bytes _ := 4096;
  fresh_inode n := 200 + Z.of_nat n; fresh_id n := [Z.of_nat n; 1]; free_bytes _ := 1000000
|}.

Definition retrying : World := and_then (@execute_delete (failing 106) here (lit "k")) requested.

Definition kept_and_lifted : World :=
  and_then (with_row [5] (fun a => @retention (failing 0) [5] (ar_revision a) false (Some 604800)))
    (and_then (with_row [5] (fun a => @retention (failing 0) [5] (ar_revision a) true None)) retrying).

(** The old request is carried out the next day, long before the new period ends. *)
Lemma lifted_keep_deletes :
  option_map (fun a => (ar_keep a, ar_deadline a)) (db_artifacts (w_db kept_and_lifted) !! [5]) = Some (false, Some 606925)
  /\ w_disk (and_then (@execute_delete tomorrow here (lit "k")) kept_and_lifted) !! job_path = None.
Proof. split; vm_compute; reflexivity. Qed.
